(* ===== verification/_CoqProject ===== *)
-Q . S2P
Prelude.v
GoText.v
Wire.v
EventBuffer.v
Projection.v
ProjectionFields.v
RevisionJournal.v
RelayStore.v
PairingGate.v
RateLimiter.v
ManagementCodec.v
Admission.v
FilePool.v
Mailbox.v
LiveFrameBuffer.v
DeltaBatcher.v
RelayClass.v
InboundScheduler.v
BulkState.v
OutboundWriter.v
RelayConn.v
ReducerParts.v
Reducer.v
ReducerPatch.v
ReducerSize.v
TurnDetail.v
DetailChunks.v
ReducerInvariant.v
DetailCommits.v
ReducerTurns.v
ReducerCards.v
ReducerDefects.v
ReducerMerge.v
SourceLedger.v
Checkpoint.v
CheckpointWriter.v
Kernel.v
KernelProps.v
KernelHydrate.v
KernelBatch.v
KernelFlight.v
KernelDefects.v
Broadcaster.v
Observation.v
OutboundSink.v
Publisher.v
PublisherLink.v
PublisherChain.v
PublisherStream.v
PublisherDetail.v
PublishRaw.v
PublisherRuns.v
PublisherOrder.v
PublisherSilence.v
PublisherDefects.v
TextOrder.v
BitText.v
Windows.v
WindowWalk.v
AnchorNewer.v
WindowSummary.v
SummaryBudget.v
WindowHandlers.v
AnchorWalk.v
AnchorWitness.v
HandlerFences.v
PinStore.v
GoPath.v
Catalog.v
CatalogPages.v
CatalogCache.v
