(* ===== verification/Prelude.v ===== *)
(** * CordCode MacBridge: a verification library of the bridge's state machines

    The MacBridge is the process on the Mac through which phones follow and drive
    coding agents. Its Go code is under src/go-bridge, the relay it talks through
    under src/relay-server. This library models the parts that keep state and
    decide: what clients are sent and in which order, what a reconnecting client
    can resume from, who is served, limited or refused, and when the bridge may be
    shut down. The file named after a component holds its data, its operations and
    its theorems, unless said otherwise.

    ** How the parts interact

    An agent's event becomes a logical event. [DeltaBatcher] joins text deltas
    before they are published. The event publisher ([Publisher], [PublishRaw])
    stamps an event, has it reduced, keeps it in [EventBuffer] for replay, and
    offers it to the connections that [Broadcaster] finds subscribed and
    [Observation] lets through, each behind a queue of its own ([OutboundSink]);
    [LiveFrameBuffer] keeps a short window for a device nobody could reach. A
    connection on the projection stream is sent the patches of the sessions
    instead, after a pull whose fence holds back what is committed meanwhile. The
    projection reducer
    ([ReducerParts], [Reducer]) folds the events of a session into its projection
    and [ReducerPatch] drains what changed into a patch; [TurnDetail] commits
    fetched detail into the same chain of patches; [RevisionJournal] keeps the
    patches a client may resume from. The projection kernel ([Kernel]) owns that
    reducer for all sessions: it hydrates a session from its cold source while live
    events wait, takes the rows of a Claude transcript against the ledger of
    [SourceLedger], and hands checkpoints to the writer ([CheckpointWriter]), which
    saves them in the store of [Checkpoint]. On the relay path, [InboundScheduler] orders
    a device's requests, [RelayConn] turns answers and events into jobs of
    [OutboundWriter], whose classes are in [RelayClass] and whose chunk groups are
    cancelled through [BulkState]; [DetailChunks] cuts long turn detail into
    frames. [Mailbox] and, on the relay server, [RelayStore] hold sealed frames
    until the device reads them; [PairingGate] and [RateLimiter] bound attempts.
    [FilePool] bounds file reads. A list of sessions is cut into a home page, a recent
    view or pages ([Catalog], [CatalogPages]) over a snapshot that [CatalogCache]
    builds once for all who ask and drops when its backend is fenced; its rows carry
    the pins of [PinStore]. [Admission] decides whether the bridge may be
    stopped, with [ManagementCodec] as the wire format of its requests.

    ** Files and the code they model

    - [Prelude]: scope, notations, loops with fuel, arithmetic and record tactics,
      and the lemmas on sums, filters and finite maps that the components share.
    - [GoText], [TextOrder], [GoPath]: the parts of Go's strings, strconv and
      path/filepath the components use. [BitText]: texts JSON can carry, and concrete
      encodings.
    - [Wire]: the wire events and dynamic values. [Projection], [ProjectionFields]:
      projection_types.go, the records, their field updates and deep copies.
    - [EventBuffer]: event_buffer.go. [DeltaBatcher]: delta_batcher.go.
      [LiveFrameBuffer]: live_frame_buffer.go. [RevisionJournal]:
      projection_revision_journal.go.
    - [ReducerParts], [Reducer], [ReducerPatch], [ReducerSize]:
      projection_reducer.go, a definition per case of the event switch and per
      method. [TurnDetail]: projection_turn_state.go, projection_detail_merge.go,
      turn_detail_kernel_commit.go. [DetailChunks]: the rest of
      turn_detail_chunks.go. Their theorems are in [ReducerInvariant] (what every
      call keeps, the chain of patches), [DetailCommits], [ReducerTurns] (ends of
      turns, restores), [ReducerCards] and [ReducerMerge] (one card per
      interaction), [ReducerDefects] (executions in which the code does less than
      its comments say).
    - [SourceLedger]: claude_source_state.go. [Checkpoint], [CheckpointWriter],
      [Kernel]: projection_kernel.go (the store, the writer of a session, the rest)
      and projection_source_transaction.go. The theorems on the kernel are in
      [KernelProps] and [KernelHydrate] (reconcile, commit, failure, waiting),
      [KernelBatch] (transcript rows), [KernelFlight] (one hydrate at a time) and
      [KernelDefects].
    - [Broadcaster]: the Broadcaster of types.go. [Observation]:
      relay_observation.go and the pending notifications of types.go.
      [OutboundSink], [Publisher], [PublishRaw]: event_publisher.go,
      projection_delivery.go, projection_snapshot_fence.go (the queues, the
      projection stream, the raw events). Their theorems are in [PublisherLink]
      (delivery as one machine per connection), [PublisherChain] and
      [PublisherStream] (what each operation keeps, the live stream, the pull),
      [PublisherDetail] (detail commits), [PublisherRuns] and [PublisherOrder] (every
      execution), [PublisherSilence] (what a connection told to pull again is sent) and
      [PublisherDefects].
    - [Windows]: projection_window.go, with its theorems in [WindowWalk].
      [WindowSummary]: projection_window_v2.go, with [SummaryBudget]. [AnchorNewer]:
      projection_anchor_newer.go, with [AnchorWalk] and [AnchorWitness].
      [WindowHandlers]: the three handlers that answer with them, with [HandlerFences].
    - [Catalog]: catalog_fair_slice.go, catalog_recent_view.go,
      catalog_workspace_filter.go. [CatalogPages]: catalog_cursor_v2.go, the snapshots and
      pages of catalog_wire_snapshot.go, the session lists of pagination.go.
      [CatalogCache]: the cache of catalog_wire_snapshot.go. [PinStore]:
      pinstore/store.go.
    - [Admission], [ManagementCodec]: admission/. [FilePool]: filepool/.
    - [RelayClass], [InboundScheduler], [BulkState], [OutboundWriter], [RelayConn]:
      relay_outbound_writer.go, relay_inbound_scheduler.go, relay_bulk_state.go,
      relay_bulk_correlation.go, relaystate/, relay_conn.go.
    - [Mailbox]: relay_mailbox.go. [PairingGate]: pairing_hardening.go.
    - [RelayStore], [RateLimiter]: relay-server/internal/relay/store.go, limiter.go.
    A Go struct is a record, a method a function on it that returns the new state;
    a goroutine interleaving is a step relation or a list of steps
    ([FilePool], [InboundScheduler], [OutboundWriter], [CatalogCache],
    [PublisherRuns], where a publication is cut at the points that release the lock);
    the kernel or the
    reducer behind the publisher is a class with an instance for each
    ([Publisher.ProjectionHead]); a pointer is an option or an
    index, a map a finite map, an error a constructor of a sum.

    ** What the theorems show

    - Clients see what happened: a replay is complete ([EventBuffer.Replay_complete]),
      batching changes only the framing ([DeltaBatcher.batcher_stream]), the patches
      of a session chain without overlap through every event, flush, drop, prepend
      and detail commit ([ReducerInvariant.patches_chain]), a resume range is a run
      of that chain ([RevisionJournal.ContiguousRange_sound]), and a patch says only
      what the session holds ([ReducerInvariant.FlushPatch_live]).
    - Each connection gets it in order: in every execution of the publisher a client
      of the projection stream stays on the chain of patches and the publisher
      knows its revision ([PublisherRuns.clients_stay_on_the_chain]), a pull hands
      over to the stream without a hole, or says so, or closes the connection
      ([PublisherStream.pull_hands_over]), the stream carries exactly what is committed
      while the queue has room ([PublisherStream.live_stream_exact]; without room it
      falls silent, [PublisherDefects.refused_patch_silences]), and raw events keep the
      order of their numbers through recoveries, but for those sent a second time
      ([PublisherOrder.raw_events_in_order], [PublisherDefects.rebinding_reorders]).
    - A client need not hold everything: paging back through windows shows each turn
      once while the session grows ([WindowWalk.older_walk_exact]), the reconciliation
      of a cache ends, and then agrees with the session ([AnchorWalk.exchange_agrees],
      [AnchorWalk.reconciliation_converges], within the cap of reviewed ids and without
      a turn over the quota, [AnchorWalk.oversized_turn_never_ends]), summaries keep to
      their budget
      ([SummaryBudget.summary_within_budget]), and no answer leaves a fence behind but
      those of [HandlerFences].
    - Lists of sessions: following the cursors of a list shows each session once while
      the snapshots list the same ones ([CatalogPages.catalog_walk]), which equal epochs
      mean up to the hash ([CatalogPages.epoch_tells_listings]), the home page is fair ([Catalog.fair_home_page]), no
      answer crosses a fence and every fetch ends ([CatalogCache.fence_respected],
      [CatalogCache.fetches_end]), pins are a map on disk ([PinStore.store_is_a_map]).
    - The projection means something: an event counts once, ended turns are closed but
      for unanswered requests for permission, a question has one card, a restored checkpoint is the one written, detail only
      advances within a generation and no load outlives its leader.
    - Hydration loses nothing: a commit is the cold baseline and then every live event
      in order ([KernelHydrate.hydrate_commit]), a reconcile called off leaves no
      trace ([KernelProps.reconcile_abort_lossless]), every waiter is woken
      ([KernelFlight.single_flight], [KernelHydrate.wakeup_not_lost]) unless a checkpoint
      is restored over a hydrate, which only tests do
      ([KernelFlight.restore_strands_waiters]); a transcript row
      moves ledger and projection together ([KernelBatch.batch_atomic]) and its bytes
      count once ([SourceLedger.bytes_once]); a checkpoint file is the old or the new
      one and comes back as written.
    - Order and fairness: inbound messages keep their order per session, chunk groups
      arrive as prefixes, cancelled groups stop, ready classes are served.
    - Bounds: rate limits, attempt windows, mailbox and queue limits, frame sizes.
    - Shutdown: no commit outside a lease, no turn after a safe answer.
    - Encodings: strict decoding, tokens, redaction, UTF-8 cuts.
    - Divergences: where the code does less than it says, a closed execution shows
      it; the manifest lists them as findings.

    ** Bounds and fuel

    Go's loops are fixpoints with fuel ([while] and local ones); each is proved to
    end within the fuel given ([while_total] and the totality lemmas of the
    components: the length of the buffer it evicts from, of the text it reads, or
    of the table it scans). Integers are in Z; where the width matters (cursors,
    budgets, uint64 epochs, durations) the wrap or the overflow check is written
    out. Instants and durations are nanoseconds in Z, so [time.Sub] saturation,
    292 years away, is not modelled.

    ** Not modelled, and why

    Nil and empty slices are one; nil receivers, logs and metrics are left out; a
    method that holds its mutex throughout is one step. encoding/json, gzip,
    SHA-256, sealing of frames and random identifiers are parameters or arguments,
    with what is assumed of them in the statement that needs it. The order of a Go
    map is fixed to that of [map_to_list] or an argument. Whole parts: the RPC
    handlers, the agent drivers, HTTP, TLS, files, git and the Swift application
    are input and output around this state; of the handlers of windows only what
    comes before and after the hydration of the session is modelled. The lists of
    sessions come from the agents: what builds and enriches them is an argument. The
    relay hub and the transcript index keep state of their own and are
    not modelled; the manifest lists them. *)

From stdpp Require Export base tactics numbers strings list gmap fin_maps sets relations sorting.
From Stdlib Require Export ZArith Lia.

#[global] Open Scope Z_scope.
#[global] Set Default Goal Selector "!".

(** ** Scope and notations *)

Declare Scope bridge_scope.
Delimit Scope bridge_scope with bridge.

(** [len l] of Go: the length of a slice as an integer. *)
Abbreviation zlen l := (Z.of_nat (length l)).

(** Reading a Go map whose values are numbers: a missing key reads zero. *)
Notation "m !!0 k" := (default 0 (m !! k)) (at level 20) : bridge_scope.
#[global] Open Scope bridge_scope.

(** ** Machine-width integers *)

Definition u32_max : Z := 4294967295.
Definition wrap_u32 (z : Z) : Z := z mod 4294967296.
Definition wrap_u64 (z : Z) : Z := z mod 18446744073709551616.

(** Durations and instants are nanoseconds, as in Go's [time] package. *)
Definition millisecond : Z := 1000000.
Definition second : Z := 1000000000.
Definition minute : Z := 60 * second.
Definition hour : Z := 60 * minute.

(** [t.Unix()]: whole seconds, rounded down. *)
Definition unix_seconds (t : Z) : Z := t / second.

(** ** Sums over lists *)

Fixpoint sum_with {A : Type} (f : A -> Z) (l : list A) : Z :=
  match l with
  | [] => 0
  | x :: l => f x + sum_with f l
  end.

(** [drop_while p l]: the slice after its longest prefix satisfying [p]. *)
Fixpoint drop_while {A : Type} (p : A -> bool) (l : list A) : list A :=
  match l with
  | [] => []
  | x :: l' => if p x then drop_while p l' else l
  end.

(** The prefix [drop_while] removes. *)
Fixpoint take_while {A : Type} (p : A -> bool) (l : list A) : list A :=
  match l with
  | [] => []
  | x :: l' => if p x then x :: take_while p l' else []
  end.

(** Sum of [f] over the values of a finite map. *)
Definition map_sum `{Countable K} {A : Type} (f : A -> Z) (m : gmap K A) : Z :=
  map_fold (fun _ x acc => f x + acc) 0 m.

(** A Go [for cond { body }] loop: [None] when the fuel runs out before the
    condition fails, so that termination is a theorem about each loop. *)
Fixpoint while {S : Type} (fuel : nat) (cond : S -> bool) (body : S -> S) (s : S) : option S :=
  if cond s then
    match fuel with
    | O => None
    | Datatypes.S fuel => while fuel cond body (body s)
    end
  else Some s.

(** ** Automation *)

Create HintDb bridge.
Create Rewrite HintDb bridge.

(** [bdestruct_all]: case analysis on every boolean comparison of integers in
    the goal, turning each into an arithmetic hypothesis. *)
Ltac zbool :=
  repeat match goal with
  | |- context [?a <? ?b] => destruct (Z.ltb_spec a b)
  | |- context [?a <=? ?b] => destruct (Z.leb_spec a b)
  | |- context [?a >? ?b] => rewrite (Z.gtb_ltb a b)
  | |- context [?a >=? ?b] => rewrite (Z.geb_leb a b)
  | |- context [?a =? ?b] => destruct (Z.eqb_spec a b)
  end.

(** The same on the hypotheses [H : (a <? b) = true], etc. *)
Ltac zprop :=
  repeat match goal with
  | H : (_ && _)%bool = true |- _ => apply andb_prop in H; destruct H
  | H : (_ && _)%bool = false |- _ => apply andb_false_iff in H
  | H : (_ || _)%bool = true |- _ => apply orb_prop in H
  | H : (_ || _)%bool = false |- _ => apply orb_false_elim in H; destruct H
  | H : negb _ = true |- _ => apply negb_true_iff in H
  | H : negb _ = false |- _ => apply negb_false_iff in H
  | H : (?a >? ?b) = _ |- _ => rewrite (Z.gtb_ltb a b) in H
  | H : (?a >=? ?b) = _ |- _ => rewrite (Z.geb_leb a b) in H
  | H : (_ <? _) = true |- _ => apply Z.ltb_lt in H
  | H : (_ <? _) = false |- _ => apply Z.ltb_ge in H
  | H : (_ <=? _) = true |- _ => apply Z.leb_le in H
  | H : (_ <=? _) = false |- _ => apply Z.leb_gt in H
  | H : (_ =? _) = true |- _ => apply Z.eqb_eq in H
  | H : (_ =? _) = false |- _ => apply Z.eqb_neq in H
  | H : bool_decide _ = true |- _ => apply bool_decide_eq_true_1 in H
  | H : bool_decide _ = false |- _ => apply bool_decide_eq_false_1 in H
  end.

(** Record update: the record with the value of one field replaced. [eta] rebuilds
    a record from its fields; used as [ltac:(setter eta field v r)]. *)
Ltac setter eta field v r :=
  let b := eval red in (eta r) in
  let q := eval pattern (field r) in b in
  lazymatch q with ?F _ => let t := eval cbv beta in (F v) in exact t end.

(** Split the first [if] of the goal on its condition. *)
Ltac case_if :=
  match goal with
  | |- context [if ?c then _ else _] =>
      lazymatch type of c with
      | bool => let E := fresh "Hif" in destruct c eqn:E
      | _ => destruct c
      end
  end.

(** ** Generic lemmas *)

Section sum_with.
Context {A : Type} (f : A -> Z).

Lemma sum_with_app l1 l2 : sum_with f (l1 ++ l2) = sum_with f l1 + sum_with f l2.
Proof. induction l1 as [|x l1 IH]; simpl; [done|]. rewrite IH. lia. Qed.

Lemma sum_with_nonneg l : Forall (fun x => 0 <= f x) l -> 0 <= sum_with f l.
Proof. induction 1; simpl; lia. Qed.

Lemma sum_with_filter_le (P : A -> Prop) `{!forall x, Decision (P x)} l :
  Forall (fun x => 0 <= f x) l -> sum_with f (filter P l) <= sum_with f l.
Proof.
  induction 1 as [|x l Hx _ IH]; [done|].
  rewrite filter_cons. case_decide; simpl; lia.
Qed.

Lemma sum_with_filter_split (P : A -> Prop) `{!forall x, Decision (P x)} l :
  sum_with f l = sum_with f (filter P l) + sum_with f (filter (fun x => ~ P x) l).
Proof.
  induction l as [|x l IH]; [done|].
  rewrite !filter_cons. destruct (decide (P x)), (decide (~ P x)); simpl; try done; lia.
Qed.

Lemma sum_with_map {B : Type} (g : B -> A) l :
  sum_with f (map g l) = sum_with (fun x => f (g x)) l.
Proof. induction l as [|x l IH]; simpl; [done|]. by rewrite IH. Qed.

Lemma sum_with_ext (g : A -> Z) l :
  Forall (fun x => f x = g x) l -> sum_with f l = sum_with g l.
Proof. induction 1; simpl; lia. Qed.
End sum_with.

(** A filter none of whose elements pass, or all of whose elements pass. *)
Lemma filter_none {A : Type} (P : A -> Prop) `{!forall x, Decision (P x)} (l : list A) :
  (forall x, x ∈ l -> ~ P x) -> filter P l = [].
Proof.
  induction l as [|x l IH]; intros Hno; [done|].
  rewrite filter_cons_False by (apply Hno; by left). apply IH. intros. apply Hno. by right.
Qed.

Lemma filter_all {A : Type} (P : A -> Prop) `{!forall x, Decision (P x)} (l : list A) :
  Forall P l -> filter P l = l.
Proof. induction 1; [done|]. rewrite filter_cons_True by done. by f_equal. Qed.

Lemma Forall_filter {A : Type} (P Q : A -> Prop) `{!forall x, Decision (P x)} (l : list A) :
  Forall Q l -> Forall Q (filter P l).
Proof. induction 1; rewrite ?filter_cons; [constructor|]. case_decide; [by constructor|done]. Qed.

Lemma filter_sublist_length {A : Type} (P : A -> Prop) `{!forall x, Decision (P x)} (l k : list A) :
  l `sublist_of` k -> zlen (filter P l) <= zlen (filter P k).
Proof. induction 1; rewrite ?filter_cons; [done| |]; case_decide; simpl; lia. Qed.

(** [len(l) == 0] *)
Lemma zlen_eqb_nil {A : Type} (l : list A) :
  (zlen l =? 0) = bool_decide (l = []).
Proof. by destruct l; [rewrite bool_decide_eq_true_2|rewrite bool_decide_eq_false_2]. Qed.

Section drop_while.
Context {A : Type} (p : A -> bool).

Lemma take_drop_while l : take_while p l ++ drop_while p l = l.
Proof. induction l as [|x l IH]; simpl; [done|]. destruct (p x); simpl; congruence. Qed.

Lemma drop_while_suffix l : exists l1, l = l1 ++ drop_while p l.
Proof. exists (take_while p l). symmetry. apply take_drop_while. Qed.

Lemma take_while_all l : Forall (fun x => p x = true) (take_while p l).
Proof.
  induction l as [|x l IH]; simpl; [done|].
  destruct (p x) eqn:E; [by constructor|done].
Qed.

Lemma drop_while_head l x l' : drop_while p l = x :: l' -> p x = false.
Proof.
  induction l as [|y l IH]; simpl; [done|].
  destruct (p y) eqn:E; [exact IH|]. intros [= -> ->]. done.
Qed.
End drop_while.

Section map_sum.
Context `{Countable K} {A : Type} (f : A -> Z).

Lemma map_sum_empty : map_sum f (∅ : gmap K A) = 0.
Proof. apply map_fold_empty. Qed.

Lemma map_sum_insert_None (m : gmap K A) k x :
  m !! k = None -> map_sum f (<[k := x]> m) = f x + map_sum f m.
Proof.
  intros Hk. unfold map_sum. apply (map_fold_insert_L (fun _ x acc => f x + acc)); [|done].
  intros; lia.
Qed.

Lemma map_sum_delete (m : gmap K A) k x :
  m !! k = Some x -> map_sum f m = f x + map_sum f (delete k m).
Proof.
  intros Hk. rewrite <- (map_sum_insert_None (delete k m) k x).
  - by rewrite insert_delete_id.
  - apply lookup_delete_eq.
Qed.

Lemma map_sum_insert (m : gmap K A) k x :
  map_sum f (<[k := x]> m) =
  map_sum f m + f x - match m !! k with Some y => f y | None => 0 end.
Proof.
  destruct (m !! k) as [y|] eqn:Hk.
  - rewrite (map_sum_delete m k y Hk), <- insert_delete_eq, map_sum_insert_None; [lia|].
    apply lookup_delete_eq.
  - rewrite map_sum_insert_None by done. lia.
Qed.

Lemma map_sum_nonneg (m : gmap K A) :
  (forall k x, m !! k = Some x -> 0 <= f x) -> 0 <= map_sum f m.
Proof.
  induction m as [|k x m Hk Hfold IH] using map_first_key_ind; intros Hall.
  - rewrite map_sum_empty. lia.
  - rewrite map_sum_insert_None by done.
    assert (0 <= f x) by (eapply Hall; apply lookup_insert_eq).
    assert (0 <= map_sum f m); [|lia].
    apply IH. intros k' y Hy. apply (Hall k'). rewrite lookup_insert_ne; [done|congruence].
Qed.
End map_sum.

(** A loop whose body decreases a measure while the condition holds ends
    within that measure, and keeps any invariant of the body. *)
Lemma while_total {S : Type} (I : S -> Prop) (m : S -> nat) cond body fuel s :
  (forall s, I s -> cond s = true -> I (body s) /\ (m (body s) < m s)%nat) ->
  I s -> (m s <= fuel)%nat ->
  exists s', while fuel cond body s = Some s' /\ I s' /\ cond s' = false.
Proof.
  intros Hbody. revert s. induction fuel as [|fuel IH]; intros s Hs Hm; simpl.
  - destruct (cond s) eqn:Hc; [|eauto].
    destruct (Hbody s Hs Hc). lia.
  - destruct (cond s) eqn:Hc; [|eauto].
    destruct (Hbody s Hs Hc). apply IH; [done|lia].
Qed.

(** Partial correctness of a loop, whatever its fuel. *)
Lemma while_invariant {S : Type} (I : S -> Prop) cond body fuel s s' :
  (forall s, I s -> cond s = true -> I (body s)) ->
  I s -> while fuel cond body s = Some s' -> I s' /\ cond s' = false.
Proof.
  intros Hbody. revert s. induction fuel as [|fuel IH]; intros s Hs; simpl;
    destruct (cond s) eqn:Hc; try done.
  - intros [= <-]. done.
  - intros Hw. apply (IH (body s)); auto.
  - intros [= <-]. done.
Qed.

(** The value of an operation that answered, and the first part of a pair,
    without naming the rest: how concrete executions are evaluated. *)
Lemma some_default {A : Type} (d : A) (o : option A) (a : A) : o = Some a -> a = default d o.
Proof. by intros ->. Qed.

Lemma fst_pair {A B : Type} (x : A * B) (a : A) : fst x = a -> x = (a, snd x).
Proof. by intros <-; destruct x. Qed.

(** Invariants of step relations, by rule induction on the execution. *)
Lemma rtc_invariant {S : Type} (step : S -> S -> Prop) (P : S -> Prop) s s' :
  (forall a b, P a -> step a b -> P b) -> P s -> rtc step s s' -> P s'.
Proof. intros Hstep Hs Hr. induction Hr; eauto. Qed.

#[export] Hint Rewrite @sum_with_app @sum_with_map : bridge.
#[export] Hint Resolve sum_with_nonneg : bridge.
