(* ===== verification/GoText.v ===== *)
(** * Texts as Go's strings package reads them

    A string is its bytes. [strings.TrimSpace] and [strings.ToLower] on texts in
    UTF-8, as far as the components use them. *)

From S2P Require Import Prelude.

(** [[]byte(s)] *)
Definition bytes_of (s : string) : list Z :=
  map (fun c => Z.of_N (Ascii.N_of_ascii c)) (String.list_ascii_of_string s).

(** A byte in a character range. *)
Definition within (lo hi c : Z) : bool := (lo <=? c) && (c <=? hi).

Definition string_of_bytes (s : list Z) : string :=
  String.string_of_list_ascii (map (fun z => Ascii.ascii_of_N (Z.to_N z)) s).

(** ** White space *)

(** One white space character of [unicode.IsSpace] at the head of a text in
    UTF-8: what follows it. *)
Definition strip_space (s : list Z) : option (list Z) :=
  match s with
  | 194 :: c :: s' => if (c =? 133) || (c =? 160) then Some s' else None
  | 225 :: 154 :: 128 :: s' => Some s'
  | 226 :: 128 :: c :: s' =>
      if within 128 138 c || within 168 169 c || (c =? 175) then Some s' else None
  | 226 :: 129 :: 159 :: s' => Some s'
  | 227 :: 128 :: 128 :: s' => Some s'
  | c :: s' => if within 9 13 c || (c =? 32) then Some s' else None
  | [] => None
  end.

(** The same at the end of a text, given reversed. *)
Definition strip_space_rev (s : list Z) : option (list Z) :=
  match s with
  | 133 :: 194 :: s' => Some s'
  | 160 :: 194 :: s' => Some s'
  | 128 :: 154 :: 225 :: s' => Some s'
  | 159 :: 129 :: 226 :: s' => Some s'
  | 128 :: 128 :: 227 :: s' => Some s'
  | c :: 128 :: 226 :: s' =>
      if within 128 138 c || within 168 169 c || (c =? 175) then Some s' else None
  | c :: s' => if within 9 13 c || (c =? 32) then Some s' else None
  | [] => None
  end.

(** Each step shortens the text: its length is enough fuel. *)
Fixpoint strip_all (strip : list Z -> option (list Z)) (fuel : nat) (s : list Z) : list Z :=
  match fuel with
  | O => s
  | S fuel => match strip s with Some s' => strip_all strip fuel s' | None => s end
  end.

(** [strings.TrimSpace] *)
Definition TrimSpace (s : list Z) : list Z :=
  let s := strip_all strip_space (length s) s in
  rev (strip_all strip_space_rev (length s) (rev s)).

(** [strings.TrimSpace] of a string. *)
Definition trim_space (s : string) : string := string_of_bytes (TrimSpace (bytes_of s)).

(** [strings.TrimSpace(s) == ""] *)
Definition blank (s : string) : bool := bool_decide (TrimSpace (bytes_of s) = []).

(** ** Case *)

(** The bytes of [strings.ToLower], where the result is compared with words of
    ASCII letters: besides A to Z, only the capital I with a dot and the Kelvin
    sign have an ASCII lower case. *)
Fixpoint lower (s : list Z) : list Z :=
  match s with
  | 196 :: 176 :: s' => 105 :: lower s'
  | 226 :: 132 :: 170 :: s' => 107 :: lower s'
  | c :: s' => (if within 65 90 c then c + 32 else c) :: lower s'
  | [] => []
  end.
Definition to_lower (s : string) : string := string_of_bytes (lower (bytes_of s)).

(** ** Numbers *)

(** [strconv.FormatInt(n, 10)]: a digit per unit of fuel, the last one first. *)
Fixpoint digits (fuel : nat) (n : Z) : list Z :=
  match fuel with
  | O => []
  | S fuel => if n <? 10 then [48 + n] else digits fuel (n / 10) ++ [48 + n mod 10]
  end.
Definition format_int (n : Z) : string :=
  string_of_bytes (if n <? 0 then 45 :: digits 20 (- n) else digits 20 n).
