(* ===== verification/Wire.v ===== *)
(** * Wire types shared by the components

    [EventMessage] and [SubscriptionKey] of go-bridge/types.go, and the dynamic
    values ([interface{}]) their payloads carry. *)

From S2P Require Import Prelude.

(** A dynamic Go value: what [Data interface{}] holds. Maps are association
    lists with the first binding of a key in force; a number is known by its
    conversion to int64 and whether that is exact; values the code never looks
    into are opaque. *)
Inductive value : Type :=
| VNil
| VString (s : string)
| VBool (b : bool)
| VNumber (n : Z) (exact : bool)
| VMap (fields : list (string * value))
| VArray (items : list value)
| VOpaque (repr : string).

(** [m["k"]] on a [map[string]interface{}]. *)
Fixpoint value_field (k : string) (fields : list (string * value)) : option value :=
  match fields with
  | [] => None
  | (k', v) :: rest => if decide (k = k') then Some v else value_field k rest
  end.

Record EventMessage : Type := mkEventMessage {
  Type_ : string;
  EventID : string;
  Seq : Z;
  PerSessionSeq : Z;
  BridgeEpoch : string;
  SessionID : string;
  BackendID : string;
  Event : string;
  Data : value;
  Message : string;
  Replayable : bool;
  Timestamp : Z
}.

Record SubscriptionKey : Type := mkSubscriptionKey {
  sk_BackendID : string;
  sk_SessionID : string;
  sk_Directory : string
}.

#[export] Instance SubscriptionKey_eq_dec : EqDecision SubscriptionKey.
Proof. solve_decision. Defined.

#[export] Instance SubscriptionKey_countable : Countable SubscriptionKey.
Proof.
  refine (inj_countable'
    (fun k => (sk_BackendID k, sk_SessionID k, sk_Directory k))
    (fun '(b, s, d) => mkSubscriptionKey b s d) _).
  by intros [].
Defined.

(** The key of a session whatever the directory, as the buffers build it. *)
Definition session_key (backendID sessionID : string) : SubscriptionKey :=
  mkSubscriptionKey backendID sessionID "".
