(* ===== verification/EventBuffer.v ===== *)
(** * The replay buffer of published events (go-bridge/event_buffer.go)

    [EventBuffer] keeps a bounded, expiring suffix of the published events. A
    non-replayable event leaves a tombstone, and an evicted event leaves its
    sequence number in [evictedThrough]; [Replay] answers from the suffix or asks
    the client for a snapshot. The main theorem compares [Replay] with the
    complete log of published events. *)

From S2P Require Import Prelude.
From S2P Require Import Wire.

Definition eventTombstoneMetadataCost : Z := 96.

Record BridgeSessionCut : Type := mkCut { cut_EventID : string; cut_Seq : Z }.

Record EventBufferConfig : Type := mkConfig { MaxEvents : Z; MaxBytes : Z; TTL : Z }.

Record bufferedEvent : Type := mkBuffered {
  message : EventMessage;
  be_backendID : string;
  be_sessionID : string;
  be_seq : Z;
  be_replayable : bool;
  createdAt : Z;
  payloadBytes : Z;
  be_chargedBytes : Z
}.

Inductive ReplayDisposition : Type := ReplayAvailable | ReplaySnapshotRequired.

Record EventReplayResult : Type := mkResult {
  Disposition : ReplayDisposition;
  Events : list EventMessage;
  Through : BridgeSessionCut;
  Reason : string
}.

Record EventBuffer : Type := mkBuffer {
  config : EventBufferConfig;
  records : list bufferedEvent;
  chargedBytes : Z;
  latest : gmap SubscriptionKey BridgeSessionCut;
  evictedThrough : gmap SubscriptionKey Z
}.

(** [NewEventBuffer]: non-positive limits take their defaults. *)
Definition NewEventBuffer (c : EventBufferConfig) : EventBuffer :=
  let maxEvents := if MaxEvents c <=? 0 then 10000 else MaxEvents c in
  let maxBytes := if MaxBytes c <=? 0 then Z.shiftl 16 20 else MaxBytes c in
  let ttl := if TTL c <=? 0 then 5 * minute else TTL c in
  mkBuffer (mkConfig maxEvents maxBytes ttl) [] 0 ∅ ∅.

Definition record_key (r : bufferedEvent) : SubscriptionKey :=
  session_key (be_backendID r) (be_sessionID r).

Definition message_key (m : EventMessage) : SubscriptionKey :=
  session_key (BackendID m) (SessionID m).

Definition evictOldestLocked (b : EventBuffer) : EventBuffer :=
  match records b with
  | [] => b
  | record :: rest =>
      let key := record_key record in
      mkBuffer (config b) rest (chargedBytes b - be_chargedBytes record) (latest b)
        (if be_seq record >? evictedThrough b !!0 key
         then <[key := be_seq record]> (evictedThrough b)
         else evictedThrough b)
  end.

(** Both loops pop the oldest record; they are given the number of records as
    fuel. *)
Definition evictExpiredLocked (now : Z) (b : EventBuffer) : option EventBuffer :=
  while (length (records b))
    (fun b => match records b with
              | [] => false
              | r :: _ => now - createdAt r >=? TTL (config b)
              end)
    evictOldestLocked b.

Definition enforceLimitsLocked (b : EventBuffer) : option EventBuffer :=
  while (length (records b))
    (fun b => (zlen (records b) >? MaxEvents (config b))
              || (chargedBytes b >? MaxBytes (config b)))%bool
    evictOldestLocked b.

(** A tombstone keeps the envelope and drops [PerSessionSeq], [Data] and
    [Message]. *)
Definition tombstone (m : EventMessage) : EventMessage :=
  mkEventMessage (Type_ m) (EventID m) (Seq m) 0 (BridgeEpoch m) (SessionID m)
    (BackendID m) (Event m) VNil "" false (Timestamp m).

Section append.
(** [marshal_len m]: the length of [json.Marshal(m)]. *)
Context (marshal_len : EventMessage -> nat).

Definition make_record (now : Z) (m : EventMessage) : bufferedEvent :=
  if Replayable m then
    let n := Z.of_nat (marshal_len m) in
    mkBuffered m (BackendID m) (SessionID m) (Seq m) true now n n
  else
    mkBuffered (tombstone m) (BackendID m) (SessionID m) (Seq m) false now 0
      eventTombstoneMetadataCost.

Definition Append (now : Z) (m : EventMessage) (b : EventBuffer) : option EventBuffer :=
  b ← evictExpiredLocked now b;
  let record := make_record now m in
  enforceLimitsLocked
    (mkBuffer (config b) (records b ++ [record])
       (chargedBytes b + be_chargedBytes record)
       (<[message_key m := mkCut (EventID m) (Seq m)]> (latest b))
       (evictedThrough b)).
End append.

(** The scan of [Replay]: [None] when it meets a tombstone past the cursor. *)
Fixpoint replay_scan (backendID sessionID : string) (seq : Z) (rs : list bufferedEvent)
  : option (list EventMessage) :=
  match rs with
  | [] => Some []
  | r :: rs =>
      if negb (bool_decide (be_backendID r = backendID))
         || negb (bool_decide (be_sessionID r = sessionID))
         || (be_seq r <=? seq)
      then replay_scan backendID sessionID seq rs
      else if negb (be_replayable r) then None
      else (fun es => message r :: es) <$> replay_scan backendID sessionID seq rs
  end.

Definition Replay (now : Z) (backendID sessionID : string) (cursor : BridgeSessionCut)
  (b : EventBuffer) : option (EventReplayResult * EventBuffer) :=
  b ← evictExpiredLocked now b;
  let key := session_key backendID sessionID in
  let result :=
    match latest b !! key with
    | None => mkResult ReplayAvailable [] cursor ""
    | Some lat =>
        if cut_Seq cursor >? cut_Seq lat then
          mkResult ReplaySnapshotRequired [] lat "cursor_ahead"
        else if evictedThrough b !!0 key >? cut_Seq cursor then
          mkResult ReplaySnapshotRequired [] lat "coverage_evicted"
        else
          match replay_scan backendID sessionID (cut_Seq cursor) (records b) with
          | None => mkResult ReplaySnapshotRequired [] lat "non_replayable_gap"
          | Some events => mkResult ReplayAvailable events lat ""
          end
    end in
  Some (result, b).

Definition LatestCut (now : Z) (backendID sessionID : string) (b : EventBuffer)
  : option (option BridgeSessionCut * EventBuffer) :=
  b ← evictExpiredLocked now b;
  Some (latest b !! session_key backendID sessionID, b).

(** A message moved to another session, as [Rebind] rewrites the records. *)
Definition set_session (m : EventMessage) (sessionID : string) : EventMessage :=
  mkEventMessage (Type_ m) (EventID m) (Seq m) (PerSessionSeq m) (BridgeEpoch m) sessionID
    (BackendID m) (Event m) (Data m) (Message m) (Replayable m) (Timestamp m).

Definition rebind_record (backendID oldSessionID newSessionID : string) (r : bufferedEvent)
  : bufferedEvent :=
  if bool_decide (be_backendID r = backendID) && bool_decide (be_sessionID r = oldSessionID) then
    mkBuffered (set_session (message r) newSessionID) backendID newSessionID (be_seq r)
      (be_replayable r) (createdAt r) (payloadBytes r) (be_chargedBytes r)
  else r.

Definition Rebind (backendID oldSessionID newSessionID : string) (b : EventBuffer) : EventBuffer :=
  if bool_decide (oldSessionID = "") || bool_decide (newSessionID = "")
     || bool_decide (oldSessionID = newSessionID)
  then b
  else
    let oldKey := session_key backendID oldSessionID in
    let newKey := session_key backendID newSessionID in
    let latest' :=
      match latest b !! oldKey with
      | None => latest b
      | Some cut =>
          delete oldKey
            (if match latest b !! newKey with
                | None => true
                | Some existing => cut_Seq cut >? cut_Seq existing
                end
             then <[newKey := cut]> (latest b)
             else latest b)
      end in
    let seq := evictedThrough b !!0 oldKey in
    let evicted' :=
      delete oldKey
        (if seq >? evictedThrough b !!0 newKey
         then <[newKey := seq]> (evictedThrough b)
         else evictedThrough b) in
    mkBuffer (config b) (map (rebind_record backendID oldSessionID newSessionID) (records b))
      (chargedBytes b) latest' evicted'.

Definition Stats (b : EventBuffer) : Z * Z := (zlen (records b), chargedBytes b).

(** ** Executions and the complete log *)

(** One call of the buffer's interface. *)
Inductive op : Type :=
| OAppend (now : Z) (m : EventMessage)
| OReplay (now : Z) (backendID sessionID : string) (cursor : BridgeSessionCut)
| OLatestCut (now : Z) (backendID sessionID : string)
| ORebind (backendID oldSessionID newSessionID : string).

Definition exec (marshal_len : EventMessage -> nat) (o : op) (b : EventBuffer) : option EventBuffer :=
  match o with
  | OAppend now m => Append marshal_len now m b
  | OReplay now bk s cur => snd <$> Replay now bk s cur b
  | OLatestCut now bk s => snd <$> LatestCut now bk s b
  | ORebind bk o n => Some (Rebind bk o n b)
  end.

Fixpoint run (marshal_len : EventMessage -> nat) (ops : list op) (b : EventBuffer)
  : option EventBuffer :=
  match ops with
  | [] => Some b
  | o :: ops => b ← exec marshal_len o b; run marshal_len ops b
  end.

Definition rebind_message (bk old new : string) (m : EventMessage) : EventMessage :=
  if bool_decide (BackendID m = bk) && bool_decide (SessionID m = old)
  then set_session m new else m.

(** The specification state: every event ever published, never evicted, with
    [Rebind] renaming the session of past events. *)
Definition log_step (o : op) (log : list EventMessage) : list EventMessage :=
  match o with
  | OAppend _ m => log ++ [m]
  | ORebind bk old new =>
      if bool_decide (old = "") || bool_decide (new = "") || bool_decide (old = new)
      then log else map (rebind_message bk old new) log
  | _ => log
  end.

Definition log_of (ops : list op) : list EventMessage := fold_left (fun l o => log_step o l) ops [].

(** Membership in what a client past [seq] has still to receive. *)
Definition after_cursor (bk s : string) (seq : Z) (m : EventMessage) : Prop :=
  BackendID m = bk /\ SessionID m = s /\ seq < Seq m.

#[export] Instance after_cursor_dec bk s seq m : Decision (after_cursor bk s seq m).
Proof. unfold after_cursor. apply _. Defined.

(** A record stands for the logged message [m]. *)
Definition record_of (m : EventMessage) (r : bufferedEvent) : Prop :=
  be_backendID r = BackendID m /\ be_sessionID r = SessionID m /\ be_seq r = Seq m /\
  be_replayable r = Replayable m /\ (Replayable m = true -> message r = m).

(** The buffer accounts for the whole log: a dropped prefix covered by
    [evictedThrough], then exactly the records. *)
Record represents (b : EventBuffer) (log : list EventMessage) : Prop := mkRepresents {
  rep_limits : 0 < MaxEvents (config b) /\ 0 < MaxBytes (config b) /\ 0 < TTL (config b);
  rep_bytes : chargedBytes b = sum_with be_chargedBytes (records b);
  rep_charges : Forall (fun r => 0 <= be_chargedBytes r) (records b);
  rep_split : exists dropped kept,
    log = dropped ++ kept /\ Forall2 record_of kept (records b) /\
    Forall (fun m => Seq m <= evictedThrough b !!0 message_key m) dropped;
  rep_latest : Forall (fun m => is_Some (latest b !! message_key m)) log
}.

(** The limits the buffer promises to respect between calls. *)
Definition within_limits (b : EventBuffer) : Prop :=
  zlen (records b) <= MaxEvents (config b) /\ chargedBytes b <= MaxBytes (config b).
(** ** Lemmas on the eviction loops *)

Lemma represents_new c : represents (NewEventBuffer c) [].
Proof.
  unfold NewEventBuffer. split; simpl; try done.
  - change (Z.shiftl 16 20) with 16777216. unfold minute, second. zbool; lia.
  - exists [], []. done.
Qed.

Lemma represents_evict b log :
  represents b log -> represents (evictOldestLocked b) log.
Proof.
  intros [Hlim Hby Hch (dr & kp & -> & Hkp & Hdr) Hlat].
  unfold evictOldestLocked. destruct (records b) as [|r rs] eqn:Hr; [by split; rewrite ?Hr; eauto|].
  apply Forall2_cons_inv_r in Hkp as (m & kp' & Hm & Hkp & ->).
  apply Forall_cons in Hch as [Hc Hch]. simpl in Hby.
  destruct Hm as (Hb & Hs & Hq & Hp & Hmsg).
  assert (record_key r = message_key m) as Hkey
    by (unfold record_key, message_key; by rewrite Hb, Hs).
  split; simpl; try done; [lia|].
  exists (dr ++ [m]), kp'. rewrite <- app_assoc. split; [done|]. split; [done|].
  rewrite Hkey, Hq. apply Forall_app. split.
  - eapply Forall_impl; [exact Hdr|]. intros m' Hm'. simpl in Hm'.
    case_if; [|done]. zprop.
    destruct (decide (message_key m' = message_key m)) as [E|E].
    + rewrite E in *. rewrite lookup_insert_eq. simpl. lia.
    + by rewrite lookup_insert_ne.
  - constructor; [|done]. case_if; zprop; [rewrite lookup_insert_eq; simpl|]; lia.
Qed.

Lemma evict_shorter b : records b <> [] ->
  (length (records (evictOldestLocked b)) < length (records b))%nat.
Proof. unfold evictOldestLocked. destruct (records b); [done|]. simpl. lia. Qed.

Lemma evictOldest_config b : config (evictOldestLocked b) = config b.
Proof. unfold evictOldestLocked. by destruct (records b). Qed.

(** Expiry ends, keeps the account of the log, and leaves no expired head. *)
Lemma evictExpired_spec now b log :
  represents b log ->
  exists b', evictExpiredLocked now b = Some b' /\ represents b' log.
Proof.
  intros Hrep. unfold evictExpiredLocked.
  destruct (while_total (fun b => represents b log) (fun b => length (records b))
    (fun b => match records b with [] => false | r :: _ => now - createdAt r >=? TTL (config b) end)
    evictOldestLocked (length (records b)) b) as (b' & Hw & Hb' & _); eauto.
  intros s Hs Hc. split; [by apply represents_evict|].
  apply evict_shorter. by destruct (records s).
Qed.

(** The limit loop ends although its condition never tests for an empty
    buffer: the byte account is exact, so an empty buffer is within bounds. *)
Lemma enforceLimits_spec b log :
  represents b log ->
  exists b', enforceLimitsLocked b = Some b' /\ represents b' log /\ within_limits b'.
Proof.
  intros Hrep. unfold enforceLimitsLocked.
  destruct (while_total (fun b => represents b log) (fun b => length (records b))
    (fun b => (zlen (records b) >? MaxEvents (config b))
              || (chargedBytes b >? MaxBytes (config b)))%bool
    evictOldestLocked (length (records b)) b) as (b' & Hw & Hb' & Hc); eauto.
  - intros s Hs Hc. split; [by apply represents_evict|].
    apply evict_shorter. intros Hnil.
    destruct Hs as [(Hl1 & Hl2 & _) Hby _ _ _]. rewrite Hnil in *. simpl in *.
    apply orb_prop in Hc as [Hc|Hc]; zprop; lia.
  - exists b'. split; [done|]. split; [done|]. unfold within_limits. zprop. lia.
Qed.

Section exec.
Context (marshal_len : EventMessage -> nat).

Lemma record_of_make now m : record_of m (make_record marshal_len now m).
Proof. unfold make_record, record_of. by destruct (Replayable m). Qed.

Lemma make_record_charge now m : 0 <= be_chargedBytes (make_record marshal_len now m).
Proof. unfold make_record. destruct (Replayable m); simpl; [lia|done]. Qed.

Lemma represents_append now m b log :
  represents b log ->
  exists b', Append marshal_len now m b = Some b' /\ represents b' (log ++ [m]) /\ within_limits b'.
Proof.
  intros Hrep. unfold Append.
  destruct (evictExpired_spec now b log Hrep) as (b1 & -> & Hrep1). simpl.
  apply enforceLimits_spec.
  destruct Hrep1 as [Hlim Hby Hch (dr & kp & -> & Hkp & Hdr) Hlat].
  pose proof (make_record_charge now m) as Hc.
  split; simpl; try done.
  - rewrite sum_with_app. simpl. lia.
  - apply Forall_app. auto.
  - exists dr, (kp ++ [m]). rewrite app_assoc. split; [done|]. split; [|done].
    apply Forall2_app; [done|]. constructor; [apply record_of_make|done].
  - apply Forall_app. split.
    + eapply Forall_impl; [exact Hlat|]. intros m' Hm'.
      destruct (decide (message_key m' = message_key m)) as [E|E].
      * rewrite E, lookup_insert_eq. eauto.
      * by rewrite lookup_insert_ne.
    + constructor; [|done]. rewrite lookup_insert_eq. eauto.
Qed.

Lemma rebind_key bk old new m : old <> new ->
  message_key (rebind_message bk old new m) =
  if bool_decide (message_key m = session_key bk old) then session_key bk new else message_key m.
Proof.
  intros Hne. unfold rebind_message, message_key, session_key.
  destruct (decide (BackendID m = bk)) as [Eb|Eb], (decide (SessionID m = old)) as [Es|Es];
    rewrite ?(bool_decide_eq_true_2 _ Eb), ?(bool_decide_eq_true_2 _ Es),
      ?(bool_decide_eq_false_2 _ Eb), ?(bool_decide_eq_false_2 _ Es); simpl;
    case_bool_decide; congruence.
Qed.

Lemma rebind_seq bk old new m : Seq (rebind_message bk old new m) = Seq m.
Proof. unfold rebind_message. by case_if. Qed.

Lemma record_of_rebind bk old new m r :
  record_of m r -> record_of (rebind_message bk old new m) (rebind_record bk old new r).
Proof.
  intros (Hb & Hs & Hq & Hp & Hm). unfold rebind_message, rebind_record. rewrite Hb, Hs.
  destruct (bool_decide (BackendID m = bk) && bool_decide (SessionID m = old)) eqn:E; [|done].
  zprop. split; [done|]. split; [done|]. split; [done|]. split; [done|].
  intros HR. simpl. by rewrite Hm.
Qed.

Lemma represents_rebind bk old new b log :
  represents b log ->
  represents (Rebind bk old new b) (log_step (ORebind bk old new) log).
Proof.
  intros Hrep. unfold Rebind, log_step. case_if; [done|]. zprop.
  destruct Hrep as [Hlim Hby Hch (dr & kp & -> & Hkp & Hdr) Hlat].
  assert (Hch' : forall r, be_chargedBytes (rebind_record bk old new r) = be_chargedBytes r)
    by (intros r; unfold rebind_record; by case_if).
  assert (session_key bk old <> session_key bk new) as Hkne by (unfold session_key; congruence).
  split; simpl; try done.
  - rewrite sum_with_map, Hby. apply sum_with_ext, Forall_true. intros r. by rewrite Hch'.
  - apply Forall_map. eapply Forall_impl; [exact Hch|]. intros r Hr. simpl. by rewrite Hch'.
  - exists (map (rebind_message bk old new) dr), (map (rebind_message bk old new) kp).
    rewrite map_app. split; [done|]. split.
    + apply Forall2_fmap. eapply Forall2_impl; [exact Hkp|]. intros m r. apply record_of_rebind.
    + apply Forall_map. eapply Forall_impl; [exact Hdr|]. intros m Hm. simpl in *.
      rewrite rebind_seq, rebind_key by done. case_bool_decide as Ek.
      * rewrite lookup_delete_ne by done. rewrite Ek in Hm.
        case_if; zprop; [rewrite lookup_insert_eq; simpl|]; lia.
      * rewrite lookup_delete_ne by congruence. case_if; zprop; [|done].
        destruct (decide (message_key m = session_key bk new)) as [E|E].
        -- rewrite E in *. rewrite lookup_insert_eq. simpl. lia.
        -- by rewrite lookup_insert_ne.
  - apply Forall_map. eapply Forall_impl; [exact Hlat|]. intros m [c Hc]. simpl.
    rewrite rebind_key by done. case_bool_decide as Ek.
    + rewrite Ek in Hc. rewrite Hc. rewrite lookup_delete_ne by done.
      destruct (latest b !! session_key bk new) as [c'|] eqn:E'.
      * case_if; [rewrite lookup_insert_eq|rewrite E']; eauto.
      * rewrite lookup_insert_eq. eauto.
    + destruct (latest b !! session_key bk old) as [c'|]; [|eauto].
      rewrite lookup_delete_ne by congruence.
      destruct (decide (message_key m = session_key bk new)) as [E|E].
      * rewrite E in *. rewrite Hc. case_if; [rewrite lookup_insert_eq|rewrite Hc]; eauto.
      * case_match; repeat case_if; rewrite ?lookup_insert_ne by done; eauto.
Qed.

Lemma represents_exec o b log :
  represents b log -> exists b', exec marshal_len o b = Some b' /\ represents b' (log_step o log).
Proof.
  intros Hrep. destruct o as [now m|now bk s cur|now bk s|bk old new]; simpl exec; simpl log_step.
  - destruct (represents_append now m b log Hrep) as (b' & ? & ? & _). eauto.
  - unfold Replay. destruct (evictExpired_spec now b log Hrep) as (b' & -> & ?). simpl. eauto.
  - unfold LatestCut. destruct (evictExpired_spec now b log Hrep) as (b' & -> & ?). simpl. eauto.
  - exists (Rebind bk old new b). split; [done|]. by apply represents_rebind.
Qed.

Lemma represents_run ops b log :
  represents b log ->
  exists b', run marshal_len ops b = Some b' /\
    represents b' (fold_left (fun l o => log_step o l) ops log).
Proof.
  revert b log. induction ops as [|o ops IH]; intros b log Hrep; simpl; [eauto|].
  destruct (represents_exec o b log Hrep) as (b' & -> & Hrep'). simpl. by apply IH.
Qed.
End exec.

(** The scan returns exactly the logged messages past the cursor, all of them
    replayable, or stops at a tombstone past the cursor. *)
Lemma replay_scan_log bk s seq kp rs :
  Forall2 record_of kp rs ->
  match replay_scan bk s seq rs with
  | Some events =>
      events = filter (after_cursor bk s seq) kp /\ Forall (fun m => Replayable m = true) events
  | None => exists m, m ∈ kp /\ after_cursor bk s seq m /\ Replayable m = false
  end.
Proof.
  induction 1 as [|m r kp rs (Hb & Hs & Hq & Hp & Hm) _ IH]; [done|].
  cbn [replay_scan]. rewrite Hb, Hs, Hq, Hp, filter_cons.
  destruct (decide (after_cursor bk s seq m)) as [Ha|Ha].
  - pose proof Ha as (-> & -> & Hlt).
    rewrite !bool_decide_eq_true_2 by done. destruct (Z.leb_spec (Seq m) seq); [lia|]. simpl.
    destruct (Replayable m) eqn:HR; simpl.
    + destruct (replay_scan _ _ seq rs) as [es|]; simpl.
      * destruct IH as [-> IH]. rewrite Hm by done. auto.
      * destruct IH as (m' & ? & ?). exists m'. split; [by right|done].
    + exists m. split; [by left|done].
  - match goal with |- context [if ?c then _ else _] => assert (c = true) as -> end.
    { destruct (decide (BackendID m = bk)); [|by rewrite bool_decide_eq_false_2].
      destruct (decide (SessionID m = s));
        [|by rewrite (bool_decide_eq_false_2 (SessionID m = s)), orb_true_r].
      rewrite !bool_decide_eq_true_2 by done. simpl. apply Z.leb_le.
      apply Z.nlt_ge. intros ?. apply Ha. done. }
    destruct (replay_scan _ _ seq rs); [done|].
    destruct IH as (m' & ? & ?). exists m'. split; [by right|done].
Qed.

Lemma filter_dropped bk s seq (evicted : gmap SubscriptionKey Z) dr :
  Forall (fun m => Seq m <= evicted !!0 message_key m) dr ->
  evicted !!0 session_key bk s <= seq -> filter (after_cursor bk s seq) dr = [].
Proof.
  rewrite Forall_forall. intros Hdr Hle. apply filter_none. intros m Hin (<- & <- & Hlt).
  specialize (Hdr m Hin). simpl in Hdr. unfold message_key in Hdr. lia.
Qed.

(** ** Properties *)

(** C36. Replay is complete and exact: after any sequence of calls on a new
    buffer, whatever was evicted, expired, tombstoned or rebound, every call of
    the sequence and the [Replay] itself return, and a [ReplayAvailable] answer
    is precisely the list of all published events of the session with a sequence
    number past the cursor, in publication order, and all of them replayable. *)
Theorem Replay_complete (marshal_len : EventMessage -> nat) c ops now bk s cursor :
  exists b res b',
    run marshal_len ops (NewEventBuffer c) = Some b /\
    Replay now bk s cursor b = Some (res, b') /\
    (Disposition res = ReplayAvailable ->
     Events res = filter (after_cursor bk s (cut_Seq cursor)) (log_of ops) /\
     Forall (fun m => Replayable m = true) (Events res)).
Proof.
  destruct (represents_run marshal_len ops _ _ (represents_new c)) as (b & Hrun & Hrep).
  fold (log_of ops) in Hrep.
  destruct (evictExpired_spec now b _ Hrep) as (b1 & He & [_ _ _ (dr & kp & Hlog & Hkp & Hdr) Hlat]).
  exists b. unfold Replay. rewrite He. cbn [mbind option_bind]. eexists _, b1.
  split; [done|]. split; [done|]. rewrite Hlog, filter_app.
  destruct (latest b1 !! session_key bk s) as [lat|] eqn:Hl.
  - case_if; [done|]. case_if; [done|]. zprop.
    rewrite (filter_dropped bk s _ _ _ Hdr) by lia.
    pose proof (replay_scan_log bk s (cut_Seq cursor) kp (records b1) Hkp) as Hscan.
    destruct (replay_scan _ _ _ _); [|done]. by intros _.
  - intros _. cbn [Events]. split; [|done].
    rewrite <- filter_app, <- Hlog.
    symmetry. apply filter_none. intros m Hin (<- & <- & _). rewrite Forall_forall in Hlat.
    destruct (Hlat m Hin) as [? Hm]. unfold message_key in Hm. congruence.
Qed.

(** The buffer respects its limits after every [Append], on any history:
    the loops end, at most [MaxEvents] records are kept, and the charged bytes
    are exactly the sum over the records and at most [MaxBytes]. *)
Theorem Append_within_limits (marshal_len : EventMessage -> nat) c ops now m :
  exists b b',
    run marshal_len ops (NewEventBuffer c) = Some b /\
    Append marshal_len now m b = Some b' /\
    zlen (records b') <= MaxEvents (config b') /\
    chargedBytes b' = sum_with be_chargedBytes (records b') /\
    0 <= chargedBytes b' <= MaxBytes (config b').
Proof.
  destruct (represents_run marshal_len ops _ _ (represents_new c)) as (b & Hrun & Hrep).
  destruct (represents_append marshal_len now m b _ Hrep) as (b' & Ha & [_ Hby Hch _ _] & [Hl1 Hl2]).
  exists b, b'. pose proof (sum_with_nonneg _ _ Hch). rewrite Hby in *. done.
Qed.

Definition wit_message (session : string) (seq : Z) (replayable : bool) : EventMessage :=
  mkEventMessage "event" "e" seq seq "epoch" session "codex" "text_delta" VNil "" replayable 0.

Definition wit_ops : list op :=
  [OAppend 0 (wit_message "pending-1" 1 false); OAppend 1 (wit_message "pending-1" 2 true);
   OAppend 2 (wit_message "other" 1 true); ORebind "codex" "pending-1" "thread";
   OAppend 3 (wit_message "thread" 3 true)].

(** A rebound session replays its two replayable events past cursor 1. *)
Lemma Replay_complete_witness :
  exists b res b',
    run (fun _ => 10%nat) wit_ops (NewEventBuffer (mkConfig 0 0 0)) = Some b /\
    Replay 4 "codex" "thread" (mkCut "e" 1) b = Some (res, b') /\
    length (Events res) = 2%nat /\
    Events res = filter (after_cursor "codex" "thread" 1) (log_of wit_ops).
Proof.
  destruct (Replay_complete (fun _ => 10%nat) (mkConfig 0 0 0) wit_ops 4 "codex" "thread"
    (mkCut "e" 1)) as (b & res & b' & H1 & H2 & H3).
  exists b, res, b'. split; [exact H1|]. split; [exact H2|].
  apply (some_default (NewEventBuffer (mkConfig 0 0 0))) in H1. rewrite H1 in H2.
  apply (f_equal (fmap fst)) in H2.
  assert (Disposition res = ReplayAvailable /\ length (Events res) = 2%nat) as [Hd Hl].
  { assert (res = default res (fst <$> Replay 4 "codex" "thread" (mkCut "e" 1)
      (default (NewEventBuffer (mkConfig 0 0 0))
         (run (fun _ => 10%nat) wit_ops (NewEventBuffer (mkConfig 0 0 0)))))) as ->
      by (rewrite H2; reflexivity).
    split; vm_compute; reflexivity. }
  split; [exact Hl|]. exact (proj1 (H3 Hd)).
Defined.
