(* ===== verification/Projection.v ===== *)
(** * The projection's wire types and their clones

    The records of go-bridge/projection_types.go field by field, and the deep
    copies of go-bridge/projection_reducer.go and
    go-bridge/projection_revision_journal.go. A pointer is an option, a slice a
    list (a nil and an empty slice are not told apart). *)

From S2P Require Import Prelude.
From S2P Require Import Wire.

Record WorkflowMemberProjection : Type := mkWorkflowMemberProjection {
  wm_Seq : Z;
  wm_Label : string;
  wm_ChildSessionID : string;
  wm_Status : string
}.

Record WorkflowPhaseProjection : Type := mkWorkflowPhaseProjection {
  wp_Phase : option string;
  wp_Members : list WorkflowMemberProjection
}.

Inductive ProjectionPart : Type := mkProjectionPart {
  pp_Type : string;
  pp_Text : string;
  pp_Presentation : string;
  pp_presentationExplicit : bool;
  pp_ItemID : string;
  pp_ToolName : string;
  pp_ToolInput : value;
  pp_ToolResult : value;
  pp_ToolStatus : string;
  pp_Matches : value;
  pp_Title : string;
  pp_FileChanges : value;
  pp_FileDisplay : value;
  pp_EditRegions : value;
  pp_DetailUnavailable : value;
  pp_ActivityActions : value;
  pp_RequiresPermissionConfirmation : bool;
  pp_PermissionKind : string;
  pp_PermissionPatterns : list string;
  pp_PermissionActions : list string;
  pp_PermissionPlan : value;
  pp_Path : string;
  pp_Kind : string;
  pp_Diff : string;
  pp_MovePath : string;
  pp_AgentID : string;
  pp_ParentAgentID : string;
  pp_SpawnToolUseID : string;
  pp_SpawnDepth : Z;
  pp_SubagentType : string;
  pp_SubagentStatus : string;
  pp_SubagentBlocks : list ProjectionPart;
  pp_SubagentError : string;
  pp_SubagentDiagnostic : string;
  pp_UserInputInteractionID : string;
  pp_UserInputStatus : string;
  pp_UserInputQuestions : value;
  pp_UserInputCanRespond : bool;
  pp_UserInputCanReject : bool;
  pp_UserInputExpiresAt : Z;
  pp_UserInputResolvedAt : Z;
  pp_UserInputResolutionSource : string;
  pp_UserInputDiagnosticCode : string;
  pp_CommandID : string;
  pp_CommandName : string;
  pp_CommandKind : string;
  pp_CommandText : string;
  pp_CommandLine : string;
  pp_ContextCompactionStatus : string;
  pp_ContextKind : string;
  pp_ContextForm : string;
  pp_ContextSummary : string;
  pp_ContextText : string;
  pp_ContextSenderSession : string;
  pp_WorkflowID : string;
  pp_WorkflowName : string;
  pp_WorkflowStatus : string;
  pp_WorkflowPhases : list WorkflowPhaseProjection
}.

Record ProjectionAttachment : Type := mkProjectionAttachment {
  pa_Kind : string;
  pa_AttachmentID : string;
  pa_MediaType : string;
  pa_Name : string;
  pa_Bytes : Z;
  pa_Width : Z;
  pa_Height : Z
}.

Record MessageProjection : Type := mkMessageProjection {
  mp_ID : string;
  mp_ClientID : string;
  mp_Role : string;
  mp_Parts : list ProjectionPart;
  mp_Attachments : list ProjectionAttachment
}.

Record TurnProjection : Type := mkTurnProjection {
  tp_TurnID : string;
  tp_Status : string;
  tp_StartedAt : Z;
  tp_CompletedAt : Z;
  tp_DurationMs : Z;
  tp_User : option MessageProjection;
  tp_Assistant : option MessageProjection;
  tp_System : option MessageProjection;
  tp_DetailLoadState : string;
  tp_DetailReasonCode : string;
  tp_DetailInline : bool;
  tp_TurnGeneration : Z;
  tp_Pending : option bool;
  tp_DetailManifestRev : Z;
  tp_DetailItemCount : Z;
  tp_DetailTotalBytes : Z;
  tp_FileChanges : value
}.

Record ExecutionView : Type := mkExecutionView {
  ev_Phase : string;
  ev_ActiveTurnID : string
}.

Record PlanModeView : Type := mkPlanModeView {
  pm_Active : bool;
  pm_Pending : bool
}.

Record SessionModeView : Type := mkSessionModeView {
  sm_Status : string;
  sm_Mode : option string;
  sm_CanSet : bool;
  sm_Reason : string
}.

Record CollaborationModeView : Type := mkCollaborationModeView {
  cm_Mode : string;
  cm_Model : string;
  cm_ReasoningEffort : option string
}.

Record CodexGoalRecordView : Type := mkCodexGoalRecordView {
  cgr_ThreadID : string;
  cgr_Objective : string;
  cgr_Status : string;
  cgr_TokenBudget : option Z;
  cgr_TokensUsed : Z;
  cgr_TimeUsedSeconds : Z;
  cgr_CreatedAt : Z;
  cgr_UpdatedAt : Z
}.

Record CodexGoalView : Type := mkCodexGoalView {
  cg_Goal : option CodexGoalRecordView
}.

Record GoalBlockedReasonView : Type := mkGoalBlockedReasonView {
  gb_Code : string;
  gb_Message : string
}.

Record GoalView : Type := mkGoalView {
  gv_ID : string;
  gv_Revision : Z;
  gv_Objective : string;
  gv_Phase : string;
  gv_BlockedReason : option GoalBlockedReasonView;
  gv_MaxGoalRounds : Z;
  gv_VerifyingCompletion : bool
}.

Record PartOp : Type := mkPartOp {
  po_TurnID : string;
  po_MessageID : string;
  po_Op : string;
  po_ItemID : string;
  po_Text : string;
  po_Part : option ProjectionPart;
  po_Parts : list ProjectionPart
}.

Record TurnStateOp : Type := mkTurnStateOp {
  ts_TurnID : string;
  ts_DetailLoadState : string;
  ts_ReasonCode : string;
  ts_TurnGeneration : Z;
  ts_ManifestRev : Z;
  ts_ItemCount : Z;
  ts_TotalBytes : Z
}.

Record ProjectionPatch : Type := mkProjectionPatch {
  pt_BaseRev : Z;
  pt_SyncRev : Z;
  pt_Execution : option ExecutionView;
  pt_UpsertTurns : list TurnProjection;
  pt_PartOps : list PartOp;
  pt_TurnStateOps : list TurnStateOp;
  pt_ReplacesClientIDs : list string;
  pt_RemovedTurnIDs : list string;
  pt_PlanMode : option PlanModeView;
  pt_SessionMode : option SessionModeView;
  pt_CollaborationMode : option CollaborationModeView;
  pt_CodexGoal : option CodexGoalView;
  pt_Goal : option GoalView
}.

Record SessionProjection : Type := mkSessionProjection {
  sp_SessionID : string;
  sp_SyncRev : Z;
  sp_BridgeEpoch : string;
  sp_UpdatedAt : Z;
  sp_Execution : ExecutionView;
  sp_Turns : list TurnProjection;
  sp_PlanMode : option PlanModeView;
  sp_SessionMode : option SessionModeView;
  sp_CollaborationMode : option CollaborationModeView;
  sp_CodexGoal : option CodexGoalView;
  sp_Goal : option GoalView
}.

(** ** Clones (projection_reducer.go) *)

Fixpoint cloneProjectionJSONValue (v : value) : value :=
  match v with
  | VMap fields => VMap (map (fun kv => (fst kv, cloneProjectionJSONValue (snd kv))) fields)
  | VArray items => VArray (map cloneProjectionJSONValue items)
  | v => v
  end.

Definition cloneWorkflowPhase (p : WorkflowPhaseProjection) : WorkflowPhaseProjection :=
  {| wp_Phase := match wp_Phase p with Some s => Some s | None => None end;
     wp_Members := wp_Members p |}.

Fixpoint cloneProjectionPart (part : ProjectionPart) : ProjectionPart :=
  {|
     pp_Type := pp_Type part;
     pp_Text := pp_Text part;
     pp_Presentation := pp_Presentation part;
     pp_presentationExplicit := pp_presentationExplicit part;
     pp_ItemID := pp_ItemID part;
     pp_ToolName := pp_ToolName part;
     pp_ToolInput := cloneProjectionJSONValue (pp_ToolInput part);
     pp_ToolResult := cloneProjectionJSONValue (pp_ToolResult part);
     pp_ToolStatus := pp_ToolStatus part;
     pp_Matches := cloneProjectionJSONValue (pp_Matches part);
     pp_Title := pp_Title part;
     pp_FileChanges := cloneProjectionJSONValue (pp_FileChanges part);
     pp_FileDisplay := cloneProjectionJSONValue (pp_FileDisplay part);
     pp_EditRegions := cloneProjectionJSONValue (pp_EditRegions part);
     pp_DetailUnavailable := cloneProjectionJSONValue (pp_DetailUnavailable part);
     pp_ActivityActions := cloneProjectionJSONValue (pp_ActivityActions part);
     pp_RequiresPermissionConfirmation := pp_RequiresPermissionConfirmation part;
     pp_PermissionKind := pp_PermissionKind part;
     pp_PermissionPatterns := pp_PermissionPatterns part;
     pp_PermissionActions := pp_PermissionActions part;
     pp_PermissionPlan := cloneProjectionJSONValue (pp_PermissionPlan part);
     pp_Path := pp_Path part;
     pp_Kind := pp_Kind part;
     pp_Diff := pp_Diff part;
     pp_MovePath := pp_MovePath part;
     pp_AgentID := pp_AgentID part;
     pp_ParentAgentID := pp_ParentAgentID part;
     pp_SpawnToolUseID := pp_SpawnToolUseID part;
     pp_SpawnDepth := pp_SpawnDepth part;
     pp_SubagentType := pp_SubagentType part;
     pp_SubagentStatus := pp_SubagentStatus part;
     pp_SubagentBlocks := map cloneProjectionPart (pp_SubagentBlocks part);
     pp_SubagentError := pp_SubagentError part;
     pp_SubagentDiagnostic := pp_SubagentDiagnostic part;
     pp_UserInputInteractionID := pp_UserInputInteractionID part;
     pp_UserInputStatus := pp_UserInputStatus part;
     pp_UserInputQuestions := cloneProjectionJSONValue (pp_UserInputQuestions part);
     pp_UserInputCanRespond := pp_UserInputCanRespond part;
     pp_UserInputCanReject := pp_UserInputCanReject part;
     pp_UserInputExpiresAt := pp_UserInputExpiresAt part;
     pp_UserInputResolvedAt := pp_UserInputResolvedAt part;
     pp_UserInputResolutionSource := pp_UserInputResolutionSource part;
     pp_UserInputDiagnosticCode := pp_UserInputDiagnosticCode part;
     pp_CommandID := pp_CommandID part;
     pp_CommandName := pp_CommandName part;
     pp_CommandKind := pp_CommandKind part;
     pp_CommandText := pp_CommandText part;
     pp_CommandLine := pp_CommandLine part;
     pp_ContextCompactionStatus := pp_ContextCompactionStatus part;
     pp_ContextKind := pp_ContextKind part;
     pp_ContextForm := pp_ContextForm part;
     pp_ContextSummary := pp_ContextSummary part;
     pp_ContextText := pp_ContextText part;
     pp_ContextSenderSession := pp_ContextSenderSession part;
     pp_WorkflowID := pp_WorkflowID part;
     pp_WorkflowName := pp_WorkflowName part;
     pp_WorkflowStatus := pp_WorkflowStatus part;
     pp_WorkflowPhases := map cloneWorkflowPhase (pp_WorkflowPhases part)
  |}.

(** The [User], [Assistant] and [System] branches of [cloneTurn]. *)
Definition cloneTurnMessage (m : MessageProjection) : MessageProjection :=
  {| mp_ID := mp_ID m; mp_ClientID := mp_ClientID m; mp_Role := mp_Role m;
     mp_Parts := map cloneProjectionPart (mp_Parts m); mp_Attachments := mp_Attachments m |}.

Definition cloneTurn (t : TurnProjection) : TurnProjection :=
  {|
     tp_TurnID := tp_TurnID t;
     tp_Status := tp_Status t;
     tp_StartedAt := tp_StartedAt t;
     tp_CompletedAt := tp_CompletedAt t;
     tp_DurationMs := tp_DurationMs t;
     tp_User := cloneTurnMessage <$> tp_User t;
     tp_Assistant := cloneTurnMessage <$> tp_Assistant t;
     tp_System := cloneTurnMessage <$> tp_System t;
     tp_DetailLoadState := tp_DetailLoadState t;
     tp_DetailReasonCode := tp_DetailReasonCode t;
     tp_DetailInline := tp_DetailInline t;
     tp_TurnGeneration := tp_TurnGeneration t;
     tp_Pending := tp_Pending t;
     tp_DetailManifestRev := tp_DetailManifestRev t;
     tp_DetailItemCount := tp_DetailItemCount t;
     tp_DetailTotalBytes := tp_DetailTotalBytes t;
     tp_FileChanges := cloneProjectionJSONValue (tp_FileChanges t)
  |}.

(** ** The journal's patch clone (projection_revision_journal.go): it builds a
    fresh patch and a fresh part operation from the listed fields only. *)

Definition clonePartOp (op : PartOp) : PartOp :=
  {| po_TurnID := po_TurnID op; po_MessageID := po_MessageID op; po_Op := po_Op op;
     po_ItemID := ""; po_Text := po_Text op;
     po_Part := cloneProjectionPart <$> po_Part op;
     po_Parts := map cloneProjectionPart (po_Parts op) |}.

Definition cloneProjectionPatch (patch : ProjectionPatch) : ProjectionPatch :=
  {| pt_BaseRev := pt_BaseRev patch; pt_SyncRev := pt_SyncRev patch;
     pt_Execution := pt_Execution patch;
     pt_UpsertTurns := map cloneTurn (pt_UpsertTurns patch);
     pt_PartOps := map clonePartOp (pt_PartOps patch);
     pt_TurnStateOps := [];
     pt_ReplacesClientIDs := pt_ReplacesClientIDs patch;
     pt_RemovedTurnIDs := []; pt_PlanMode := None; pt_SessionMode := None;
     pt_CollaborationMode := None; pt_CodexGoal := None; pt_Goal := None |}.

(** ** The clones copy values faithfully *)

Section value_ind.
Context (P : value -> Prop)
  (Hnil : P VNil) (Hstr : forall s, P (VString s)) (Hbool : forall b, P (VBool b))
  (Hnum : forall n e, P (VNumber n e)) (Hop : forall s, P (VOpaque s))
  (Hmap : forall fs, Forall (fun kv => P (snd kv)) fs -> P (VMap fs))
  (Harr : forall vs, Forall P vs -> P (VArray vs)).

Fixpoint value_nested_ind (v : value) : P v.
Proof.
  destruct v as [|s|b|n e|fs|vs|s];
    [exact Hnil|exact (Hstr s)|exact (Hbool b)|exact (Hnum n e)| | |exact (Hop s)].
  - apply Hmap. induction fs as [|kv fs IH]; constructor; [apply value_nested_ind|exact IH].
  - apply Harr. induction vs as [|v vs IH]; constructor; [apply value_nested_ind|exact IH].
Qed.
End value_ind.

Lemma map_id_Forall {A : Type} (f : A -> A) l : Forall (fun x => f x = x) l -> map f l = l.
Proof. induction 1; simpl; congruence. Qed.

Lemma cloneProjectionJSONValue_id v : cloneProjectionJSONValue v = v.
Proof.
  induction v as [| | | | |fs IH|vs IH] using value_nested_ind; simpl; try done; f_equal.
  - apply map_id_Forall. eapply Forall_impl; [exact IH|]. intros [k v] Hv. simpl in *. by rewrite Hv.
  - by apply map_id_Forall.
Qed.

Fixpoint cloneProjectionPart_id (part : ProjectionPart) : cloneProjectionPart part = part.
Proof.
  destruct part; simpl. rewrite !cloneProjectionJSONValue_id. f_equal.
  - apply map_id_Forall.
    match goal with |- Forall _ ?l => induction l as [|b bs IH] end; constructor;
      [apply cloneProjectionPart_id|exact IH].
  - apply map_id_Forall. apply Forall_true. intros [[s|] ms]; done.
Qed.

Lemma cloneParts_id l : map cloneProjectionPart l = l.
Proof. apply map_id_Forall, Forall_true, cloneProjectionPart_id. Qed.

Lemma cloneTurn_id t : cloneTurn t = t.
Proof.
  assert (forall o : option MessageProjection, cloneTurnMessage <$> o = o) as Hm.
  { intros [[i c r ps ats]|]; [|done]. simpl. unfold cloneTurnMessage. simpl. by rewrite cloneParts_id. }
  destruct t. unfold cloneTurn. simpl. by rewrite !Hm, cloneProjectionJSONValue_id.
Qed.

Lemma clonePartOp_id_iff op : clonePartOp op = op <-> po_ItemID op = "".
Proof.
  destruct op as [ti mi o ii tx pt pts]. unfold clonePartOp. simpl. rewrite cloneParts_id.
  assert (cloneProjectionPart <$> pt = pt) as ->.
  { destruct pt as [part|]; [|done]. simpl. by rewrite cloneProjectionPart_id. }
  split; [congruence|]. by intros ->.
Qed.
