(* ===== verification/ProjectionFields.v ===== *)
(** * Field assignments of the projection's records

    [x.Field = v] for the fields the reducer assigns, one update per field, and
    the zero values of the records. *)

From S2P Require Import Prelude.
From S2P Require Import Wire.
From S2P Require Import Projection.

(** ** Parts *)

Definition part_eta (p : ProjectionPart) : ProjectionPart :=
  mkProjectionPart
    (pp_Type p) (pp_Text p) (pp_Presentation p) (pp_presentationExplicit p) (pp_ItemID p) (pp_ToolName p)
    (pp_ToolInput p) (pp_ToolResult p) (pp_ToolStatus p) (pp_Matches p) (pp_Title p) (pp_FileChanges p)
    (pp_FileDisplay p) (pp_EditRegions p) (pp_DetailUnavailable p) (pp_ActivityActions p)
    (pp_RequiresPermissionConfirmation p) (pp_PermissionKind p) (pp_PermissionPatterns p)
    (pp_PermissionActions p) (pp_PermissionPlan p) (pp_Path p) (pp_Kind p) (pp_Diff p) (pp_MovePath p)
    (pp_AgentID p) (pp_ParentAgentID p) (pp_SpawnToolUseID p) (pp_SpawnDepth p) (pp_SubagentType p)
    (pp_SubagentStatus p) (pp_SubagentBlocks p) (pp_SubagentError p) (pp_SubagentDiagnostic p)
    (pp_UserInputInteractionID p) (pp_UserInputStatus p) (pp_UserInputQuestions p) (pp_UserInputCanRespond p)
    (pp_UserInputCanReject p) (pp_UserInputExpiresAt p) (pp_UserInputResolvedAt p)
    (pp_UserInputResolutionSource p) (pp_UserInputDiagnosticCode p) (pp_CommandID p) (pp_CommandName p)
    (pp_CommandKind p) (pp_CommandText p) (pp_CommandLine p) (pp_ContextCompactionStatus p) (pp_ContextKind p)
    (pp_ContextForm p) (pp_ContextSummary p) (pp_ContextText p) (pp_ContextSenderSession p) (pp_WorkflowID p)
    (pp_WorkflowName p) (pp_WorkflowStatus p) (pp_WorkflowPhases p).

Definition set_pp_Type (v : string) (p : ProjectionPart) : ProjectionPart :=
  ltac:(setter part_eta pp_Type v p).
Definition set_pp_Text (v : string) (p : ProjectionPart) : ProjectionPart :=
  ltac:(setter part_eta pp_Text v p).
Definition set_pp_Presentation (v : string) (p : ProjectionPart) : ProjectionPart :=
  ltac:(setter part_eta pp_Presentation v p).
Definition set_pp_presentationExplicit (v : bool) (p : ProjectionPart) : ProjectionPart :=
  ltac:(setter part_eta pp_presentationExplicit v p).
Definition set_pp_ItemID (v : string) (p : ProjectionPart) : ProjectionPart :=
  ltac:(setter part_eta pp_ItemID v p).
Definition set_pp_ToolName (v : string) (p : ProjectionPart) : ProjectionPart :=
  ltac:(setter part_eta pp_ToolName v p).
Definition set_pp_ToolInput (v : value) (p : ProjectionPart) : ProjectionPart :=
  ltac:(setter part_eta pp_ToolInput v p).
Definition set_pp_ToolResult (v : value) (p : ProjectionPart) : ProjectionPart :=
  ltac:(setter part_eta pp_ToolResult v p).
Definition set_pp_ToolStatus (v : string) (p : ProjectionPart) : ProjectionPart :=
  ltac:(setter part_eta pp_ToolStatus v p).
Definition set_pp_Matches (v : value) (p : ProjectionPart) : ProjectionPart :=
  ltac:(setter part_eta pp_Matches v p).
Definition set_pp_Title (v : string) (p : ProjectionPart) : ProjectionPart :=
  ltac:(setter part_eta pp_Title v p).
Definition set_pp_FileChanges (v : value) (p : ProjectionPart) : ProjectionPart :=
  ltac:(setter part_eta pp_FileChanges v p).
Definition set_pp_FileDisplay (v : value) (p : ProjectionPart) : ProjectionPart :=
  ltac:(setter part_eta pp_FileDisplay v p).
Definition set_pp_EditRegions (v : value) (p : ProjectionPart) : ProjectionPart :=
  ltac:(setter part_eta pp_EditRegions v p).
Definition set_pp_DetailUnavailable (v : value) (p : ProjectionPart) : ProjectionPart :=
  ltac:(setter part_eta pp_DetailUnavailable v p).
Definition set_pp_ActivityActions (v : value) (p : ProjectionPart) : ProjectionPart :=
  ltac:(setter part_eta pp_ActivityActions v p).
Definition set_pp_RequiresPermissionConfirmation (v : bool) (p : ProjectionPart) : ProjectionPart :=
  ltac:(setter part_eta pp_RequiresPermissionConfirmation v p).
Definition set_pp_PermissionKind (v : string) (p : ProjectionPart) : ProjectionPart :=
  ltac:(setter part_eta pp_PermissionKind v p).
Definition set_pp_PermissionPatterns (v : list string) (p : ProjectionPart) : ProjectionPart :=
  ltac:(setter part_eta pp_PermissionPatterns v p).
Definition set_pp_PermissionActions (v : list string) (p : ProjectionPart) : ProjectionPart :=
  ltac:(setter part_eta pp_PermissionActions v p).
Definition set_pp_PermissionPlan (v : value) (p : ProjectionPart) : ProjectionPart :=
  ltac:(setter part_eta pp_PermissionPlan v p).
Definition set_pp_UserInputStatus (v : string) (p : ProjectionPart) : ProjectionPart :=
  ltac:(setter part_eta pp_UserInputStatus v p).
Definition set_pp_UserInputCanRespond (v : bool) (p : ProjectionPart) : ProjectionPart :=
  ltac:(setter part_eta pp_UserInputCanRespond v p).
Definition set_pp_UserInputCanReject (v : bool) (p : ProjectionPart) : ProjectionPart :=
  ltac:(setter part_eta pp_UserInputCanReject v p).
Definition set_pp_UserInputResolvedAt (v : Z) (p : ProjectionPart) : ProjectionPart :=
  ltac:(setter part_eta pp_UserInputResolvedAt v p).
Definition set_pp_UserInputResolutionSource (v : string) (p : ProjectionPart) : ProjectionPart :=
  ltac:(setter part_eta pp_UserInputResolutionSource v p).
Definition set_pp_UserInputDiagnosticCode (v : string) (p : ProjectionPart) : ProjectionPart :=
  ltac:(setter part_eta pp_UserInputDiagnosticCode v p).
Definition set_pp_ContextCompactionStatus (v : string) (p : ProjectionPart) : ProjectionPart :=
  ltac:(setter part_eta pp_ContextCompactionStatus v p).
Definition set_pp_WorkflowStatus (v : string) (p : ProjectionPart) : ProjectionPart :=
  ltac:(setter part_eta pp_WorkflowStatus v p).
Definition set_pp_WorkflowPhases (v : list WorkflowPhaseProjection) (p : ProjectionPart) : ProjectionPart :=
  ltac:(setter part_eta pp_WorkflowPhases v p).

(** [ProjectionPart{}] *)
Definition part0 : ProjectionPart :=
  mkProjectionPart
    "" "" "" false "" "" VNil VNil "" VNil "" VNil VNil VNil VNil VNil false "" [] [] VNil "" "" "" "" "" ""
    "" 0 "" "" [] "" "" "" "" VNil false false 0 0 "" "" "" "" "" "" "" "" "" "" "" "" "" "" "" "" [].

(** [&MessageProjection{ID: id, Role: role}] *)
Definition message0 (id role : string) : MessageProjection := mkMessageProjection id "" role [] [].

(** ** Messages *)

Definition message_eta (m : MessageProjection) : MessageProjection :=
  mkMessageProjection
    (mp_ID m) (mp_ClientID m) (mp_Role m) (mp_Parts m) (mp_Attachments m).

Definition set_mp_Parts (v : list ProjectionPart) (m : MessageProjection) : MessageProjection :=
  ltac:(setter message_eta mp_Parts v m).
Definition set_mp_Attachments (v : list ProjectionAttachment) (m : MessageProjection) : MessageProjection :=
  ltac:(setter message_eta mp_Attachments v m).

(** ** Turns *)

Definition turn_eta (t : TurnProjection) : TurnProjection :=
  mkTurnProjection
    (tp_TurnID t) (tp_Status t) (tp_StartedAt t) (tp_CompletedAt t) (tp_DurationMs t) (tp_User t)
    (tp_Assistant t) (tp_System t) (tp_DetailLoadState t) (tp_DetailReasonCode t) (tp_DetailInline t)
    (tp_TurnGeneration t) (tp_Pending t) (tp_DetailManifestRev t) (tp_DetailItemCount t)
    (tp_DetailTotalBytes t) (tp_FileChanges t).

Definition set_tp_Status (v : string) (t : TurnProjection) : TurnProjection :=
  ltac:(setter turn_eta tp_Status v t).
Definition set_tp_StartedAt (v : Z) (t : TurnProjection) : TurnProjection :=
  ltac:(setter turn_eta tp_StartedAt v t).
Definition set_tp_CompletedAt (v : Z) (t : TurnProjection) : TurnProjection :=
  ltac:(setter turn_eta tp_CompletedAt v t).
Definition set_tp_DurationMs (v : Z) (t : TurnProjection) : TurnProjection :=
  ltac:(setter turn_eta tp_DurationMs v t).
Definition set_tp_User (v : option MessageProjection) (t : TurnProjection) : TurnProjection :=
  ltac:(setter turn_eta tp_User v t).
Definition set_tp_Assistant (v : option MessageProjection) (t : TurnProjection) : TurnProjection :=
  ltac:(setter turn_eta tp_Assistant v t).
Definition set_tp_System (v : option MessageProjection) (t : TurnProjection) : TurnProjection :=
  ltac:(setter turn_eta tp_System v t).
Definition set_tp_DetailLoadState (v : string) (t : TurnProjection) : TurnProjection :=
  ltac:(setter turn_eta tp_DetailLoadState v t).
Definition set_tp_DetailReasonCode (v : string) (t : TurnProjection) : TurnProjection :=
  ltac:(setter turn_eta tp_DetailReasonCode v t).
Definition set_tp_DetailInline (v : bool) (t : TurnProjection) : TurnProjection :=
  ltac:(setter turn_eta tp_DetailInline v t).
Definition set_tp_TurnGeneration (v : Z) (t : TurnProjection) : TurnProjection :=
  ltac:(setter turn_eta tp_TurnGeneration v t).
Definition set_tp_DetailManifestRev (v : Z) (t : TurnProjection) : TurnProjection :=
  ltac:(setter turn_eta tp_DetailManifestRev v t).
Definition set_tp_DetailItemCount (v : Z) (t : TurnProjection) : TurnProjection :=
  ltac:(setter turn_eta tp_DetailItemCount v t).
Definition set_tp_DetailTotalBytes (v : Z) (t : TurnProjection) : TurnProjection :=
  ltac:(setter turn_eta tp_DetailTotalBytes v t).
Definition set_tp_Pending (v : option bool) (t : TurnProjection) : TurnProjection :=
  ltac:(setter turn_eta tp_Pending v t).
Definition set_tp_FileChanges (v : value) (t : TurnProjection) : TurnProjection :=
  ltac:(setter turn_eta tp_FileChanges v t).

(** [TurnProjection{TurnID: id, Status: status}] *)
Definition turn0 (id status : string) : TurnProjection :=
  mkTurnProjection id status 0 0 0 None None None "" "" false 0 None 0 0 0 VNil.

(** ** Projections *)

Definition projection_eta (s : SessionProjection) : SessionProjection :=
  mkSessionProjection
    (sp_SessionID s) (sp_SyncRev s) (sp_BridgeEpoch s) (sp_UpdatedAt s) (sp_Execution s) (sp_Turns s)
    (sp_PlanMode s) (sp_SessionMode s) (sp_CollaborationMode s) (sp_CodexGoal s) (sp_Goal s).

Definition set_sp_SessionID (v : string) (s : SessionProjection) : SessionProjection :=
  ltac:(setter projection_eta sp_SessionID v s).
Definition set_sp_SyncRev (v : Z) (s : SessionProjection) : SessionProjection :=
  ltac:(setter projection_eta sp_SyncRev v s).
Definition set_sp_BridgeEpoch (v : string) (s : SessionProjection) : SessionProjection :=
  ltac:(setter projection_eta sp_BridgeEpoch v s).
Definition set_sp_UpdatedAt (v : Z) (s : SessionProjection) : SessionProjection :=
  ltac:(setter projection_eta sp_UpdatedAt v s).
Definition set_sp_Execution (v : ExecutionView) (s : SessionProjection) : SessionProjection :=
  ltac:(setter projection_eta sp_Execution v s).
Definition set_sp_Turns (v : list TurnProjection) (s : SessionProjection) : SessionProjection :=
  ltac:(setter projection_eta sp_Turns v s).
Definition set_sp_PlanMode (v : option PlanModeView) (s : SessionProjection) : SessionProjection :=
  ltac:(setter projection_eta sp_PlanMode v s).
Definition set_sp_SessionMode (v : option SessionModeView) (s : SessionProjection) : SessionProjection :=
  ltac:(setter projection_eta sp_SessionMode v s).
Definition set_sp_CollaborationMode (v : option CollaborationModeView) (s : SessionProjection) : SessionProjection :=
  ltac:(setter projection_eta sp_CollaborationMode v s).
Definition set_sp_CodexGoal (v : option CodexGoalView) (s : SessionProjection) : SessionProjection :=
  ltac:(setter projection_eta sp_CodexGoal v s).
Definition set_sp_Goal (v : option GoalView) (s : SessionProjection) : SessionProjection :=
  ltac:(setter projection_eta sp_Goal v s).
