(* ===== verification/RevisionJournal.v ===== *)
(** * The projection revision journal (go-bridge/projection_revision_journal.go)

    A bounded suffix of the committed projection patches of each session, from
    which a resuming client is served a contiguous range instead of a full
    snapshot. [json.Marshal] is a parameter: [None] is its error, [Some n] the
    length of the encoding. *)

From S2P Require Import Prelude.
From S2P Require Import Wire.
From S2P Require Import Projection.

Definition defaultProjectionJournalMaxPatches : Z := 128.
Definition defaultProjectionJournalMaxBytes : Z := Z.shiftl 2 20.
Definition defaultProjectionJournalMaxAge : Z := 30 * minute.

Inductive ProjectionResumeFallbackReason : Type :=
| NoFallback
| ProjectionResumeJournalGap
| ProjectionResumeLimit.

(** [projectionJournalKey]: backend and session. *)
Definition projectionJournalKey : Type := string * string.

Record projectionJournalEntry : Type := mkEntry {
  patch : ProjectionPatch;
  encodedBytes : Z;
  committedAt : Z
}.

Record ProjectionRevisionJournal : Type := mkJournal {
  maxPatches : Z;
  maxBytes : Z;
  maxAge : Z;
  entries : gmap (string * string) (list projectionJournalEntry);
  bytes : gmap (string * string) Z;
  retainedAfter : gmap (string * string) Z
}.

Definition NewProjectionRevisionJournal (mp mb : Z) (ages : list Z) : ProjectionRevisionJournal :=
  let mp := if mp <=? 0 then defaultProjectionJournalMaxPatches else mp in
  let mb := if mb <=? 0 then defaultProjectionJournalMaxBytes else mb in
  let age :=
    match ages with
    | a :: _ => if a >? 0 then a else defaultProjectionJournalMaxAge
    | [] => defaultProjectionJournalMaxAge
    end in
  mkJournal mp mb age ∅ ∅ ∅.

(** Assignments to the three maps of the journal. *)
Definition set_entries (es : gmap (string * string) (list projectionJournalEntry))
  (j : ProjectionRevisionJournal) : ProjectionRevisionJournal :=
  mkJournal (maxPatches j) (maxBytes j) (maxAge j) es (bytes j) (retainedAfter j).
Definition set_bytes (bs : gmap (string * string) Z) (j : ProjectionRevisionJournal)
  : ProjectionRevisionJournal :=
  mkJournal (maxPatches j) (maxBytes j) (maxAge j) (entries j) bs (retainedAfter j).
Definition set_retained (rs : gmap (string * string) Z) (j : ProjectionRevisionJournal)
  : ProjectionRevisionJournal :=
  mkJournal (maxPatches j) (maxBytes j) (maxAge j) (entries j) (bytes j) rs.

(** [j.entries[key]]: a missing key reads the nil slice. *)
Definition entries_of (key : string * string) (j : ProjectionRevisionJournal)
  : list projectionJournalEntry := default [] (entries j !! key).

Definition noteRetention (key : string * string) (throughRev : Z) (j : ProjectionRevisionJournal)
  : ProjectionRevisionJournal :=
  if throughRev >? retainedAfter j !!0 key
  then set_retained (<[key := throughRev]> (retainedAfter j)) j
  else j.

Definition clear (backendID sessionID : string) (j : ProjectionRevisionJournal)
  : ProjectionRevisionJournal :=
  let key := (backendID, sessionID) in
  set_bytes (delete key (bytes j)) (set_entries (delete key (entries j)) j).

Definition clearForLimit (backendID sessionID : string) (throughRev : Z)
  (j : ProjectionRevisionJournal) : ProjectionRevisionJournal :=
  clear backendID sessionID (noteRetention (backendID, sessionID) throughRev j).

(** The body shared by the two trimming loops: note the revision, release the
    bytes, drop the head. *)
Definition drop_entry (key : string * string) (e : projectionJournalEntry)
  (j : ProjectionRevisionJournal) : ProjectionRevisionJournal :=
  let j := noteRetention key (pt_SyncRev (patch e)) j in
  set_bytes (<[key := bytes j !!0 key - encodedBytes e]> (bytes j)) j.

Fixpoint purge_loop (key : string * string) (now : Z) (es : list projectionJournalEntry)
  (j : ProjectionRevisionJournal) : list projectionJournalEntry * ProjectionRevisionJournal :=
  match es with
  | [] => ([], j)
  | e :: rest =>
      if now - committedAt e >? maxAge j then purge_loop key now rest (drop_entry key e j)
      else (es, j)
  end.

Definition purgeExpired (key : string * string) (now : Z) (j : ProjectionRevisionJournal)
  : ProjectionRevisionJournal :=
  let '(es, j) := purge_loop key now (entries_of key j) j in
  match es with
  | [] => set_bytes (delete key (bytes j)) (set_entries (delete key (entries j)) j)
  | _ => set_entries (<[key := es]> (entries j)) j
  end.

(** The trimming loop of [Record]; [None] is the index panic of [entries[0]] on
    an empty slice. *)
Fixpoint trim_loop (key : string * string) (es : list projectionJournalEntry)
  (j : ProjectionRevisionJournal)
  : option (list projectionJournalEntry * ProjectionRevisionJournal) :=
  if (zlen es >? maxPatches j) || (bytes j !!0 key >? maxBytes j) then
    match es with
    | [] => None
    | e :: rest => trim_loop key rest (drop_entry key e j)
    end
  else Some (es, j).

Section journal.
(** [json.Marshal] of a cloned patch. *)
Context (marshal : ProjectionPatch -> option nat).

Definition Record_ (backendID sessionID : string) (p : ProjectionPatch) (now : Z)
  (j : ProjectionRevisionJournal) : option (bool * ProjectionRevisionJournal) :=
  if bool_decide (backendID = "") || bool_decide (sessionID = "")
     || (pt_SyncRev p <=? pt_BaseRev p)
  then Some (false, j)
  else
    let cloned := cloneProjectionPatch p in
    match marshal cloned with
    | None => Some (false, clearForLimit backendID sessionID (pt_SyncRev p) j)
    | Some len =>
        let encoded := Z.of_nat len in
        if encoded >? maxBytes j
        then Some (false, clearForLimit backendID sessionID (pt_SyncRev p) j)
        else
          let key := (backendID, sessionID) in
          let j := purgeExpired key now j in
          let es := entries_of key j in
          let append es j :=
            let es := es ++ [mkEntry cloned encoded now] in
            let j := set_bytes (<[key := bytes j !!0 key + encoded]> (bytes j)) j in
            '(es, j) ← trim_loop key es j;
            Some (true, set_entries (<[key := es]> (entries j)) j) in
          match last es with
          | None => append es j
          | Some l =>
              if pt_SyncRev p <=? pt_SyncRev (patch l) then Some (false, j)
              else if negb (pt_BaseRev p =? pt_SyncRev (patch l))
              then append [] (set_bytes (<[key := 0]> (bytes j)) j)
              else append es j
          end
    end.
End journal.

(** The scan of [ContiguousRangeAt]: [expected] is the revision the next patch
    must start from, [started] whether one has been taken. *)
Fixpoint range_scan (headRev expected : Z) (started : bool) (es : list projectionJournalEntry)
  : option (list ProjectionPatch) :=
  match es with
  | [] => None
  | e :: es =>
      let p := patch e in
      if negb started && negb (pt_BaseRev p =? expected)
      then range_scan headRev expected false es
      else if negb (pt_BaseRev p =? expected) || (pt_SyncRev p >? headRev) then None
      else
        let taken := cloneProjectionPatch p in
        if pt_SyncRev p =? headRev then Some [taken]
        else (fun ps => taken :: ps) <$> range_scan headRev (pt_SyncRev p) true es
  end.

Definition ContiguousRangeAt (backendID sessionID : string) (sinceRev headRev now : Z)
  (j : ProjectionRevisionJournal)
  : (list ProjectionPatch * bool * ProjectionResumeFallbackReason) * ProjectionRevisionJournal :=
  if (sinceRev <=? 0) || (headRev <=? sinceRev) then (([], false, ProjectionResumeJournalGap), j)
  else
    let key := (backendID, sessionID) in
    let j := purgeExpired key now j in
    if sinceRev <? retainedAfter j !!0 key then (([], false, ProjectionResumeLimit), j)
    else
      match range_scan headRev sinceRev false (entries_of key j) with
      | Some ps => ((ps, true, NoFallback), j)
      | None => (([], false, ProjectionResumeJournalGap), j)
      end.

(** [ContiguousRange]: the same at the current time, without the reason. *)
Definition ContiguousRange (backendID sessionID : string) (sinceRev headRev now : Z)
  (j : ProjectionRevisionJournal) : (list ProjectionPatch * bool) * ProjectionRevisionJournal :=
  let '((ps, ok, _), j) := ContiguousRangeAt backendID sessionID sinceRev headRev now j in
  ((ps, ok), j).

(** ** Executions, with the patches each session had accepted *)

Inductive op : Type :=
| ORecord (bk s : string) (p : ProjectionPatch) (now : Z)
| ORange (bk s : string) (sinceRev headRev now : Z)
| OClear (bk s : string).

(** The journal with, per session, every patch [Record] answered [true] for. *)
Definition accepted : Type := gmap (string * string) (list ProjectionPatch).

Definition exec (marshal : ProjectionPatch -> option nat) (o : op)
  (st : ProjectionRevisionJournal * gmap (string * string) (list ProjectionPatch))
  : option (ProjectionRevisionJournal * gmap (string * string) (list ProjectionPatch)) :=
  let '(j, acc) := st in
  match o with
  | ORecord bk s p now =>
      '(ok, j) ← Record_ marshal bk s p now j;
      Some (j, if ok : bool then <[(bk, s) := default [] (acc !! (bk, s)) ++ [p]]> acc else acc)
  | ORange bk s since head now => Some (snd (ContiguousRangeAt bk s since head now j), acc)
  | OClear bk s => Some (clear bk s j, acc)
  end.

Fixpoint run (marshal : ProjectionPatch -> option nat) (ops : list op)
  (st : ProjectionRevisionJournal * gmap (string * string) (list ProjectionPatch))
  : option (ProjectionRevisionJournal * gmap (string * string) (list ProjectionPatch)) :=
  match ops with
  | [] => Some st
  | o :: ops => st ← exec marshal o st; run marshal ops st
  end.

(** A list of patches leads from revision [r] to revision [h], each step forward. *)
Fixpoint chain (r : Z) (ps : list ProjectionPatch) (h : Z) : Prop :=
  match ps with
  | [] => r = h
  | p :: ps => pt_BaseRev p = r /\ r < pt_SyncRev p /\ chain (pt_SyncRev p) ps h
  end.

(** Consecutive patches of a list meet, from some first to some last revision. *)
Definition linked (ps : list ProjectionPatch) : Prop := exists r h, chain r ps h.

(** What the journal promises for one session: [es] its entries, [b] its byte
    count, [acc] the patches accepted for it. *)
Record wf_session (mp mb : Z) (es : list projectionJournalEntry) (b : Z)
  (acc : list ProjectionPatch) : Prop := mkWfSession {
  wf_bytes : b = sum_with encodedBytes es;
  wf_charges : Forall (fun e => 0 <= encodedBytes e) es;
  wf_linked : linked (map patch es);
  wf_suffix : suffix (map patch es) (map cloneProjectionPatch acc);
  wf_count : zlen es <= mp;
  wf_room : b <= mb
}.

Definition wf_at (j : ProjectionRevisionJournal)
  (acc : gmap (string * string) (list ProjectionPatch)) (k : string * string) : Prop :=
  wf_session (maxPatches j) (maxBytes j) (entries_of k j) (bytes j !!0 k) (default [] (acc !! k)).

Definition wf (j : ProjectionRevisionJournal)
  (acc : gmap (string * string) (list ProjectionPatch)) : Prop :=
  0 < maxPatches j /\ 0 < maxBytes j /\ forall k, wf_at j acc k.

(** [j'] differs from [j] at most in the session [k]. *)
Definition same_but (k : string * string) (j j' : ProjectionRevisionJournal) : Prop :=
  maxPatches j' = maxPatches j /\ maxBytes j' = maxBytes j /\
  forall k', k' <> k -> entries_of k' j' = entries_of k' j /\ bytes j' !!0 k' = bytes j !!0 k'.

(** ** Lemmas *)

Lemma same_but_refl k j : same_but k j j.
Proof. done. Qed.

Lemma same_but_trans k j1 j2 j3 : same_but k j1 j2 -> same_but k j2 j3 -> same_but k j1 j3.
Proof.
  intros (Ha & Hb & Hc) (Ha' & Hb' & Hc'). split; [congruence|]. split; [congruence|].
  intros k' Hk. destruct (Hc k' Hk), (Hc' k' Hk). split; congruence.
Qed.

Lemma wf_frame k j j' acc acc' :
  wf j acc -> same_but k j j' -> (forall k', k' <> k -> acc' !! k' = acc !! k') ->
  wf_at j' acc' k -> wf j' acc'.
Proof.
  intros (H1 & H2 & H3) (Hm & Hb & Hs) Ha Hk. split; [lia|]. split; [lia|]. intros k'.
  destruct (decide (k' = k)) as [->|Hne]; [done|].
  unfold wf_at. destruct (Hs k' Hne) as [-> ->]. rewrite Ha by done. rewrite Hm, Hb. apply H3.
Qed.

Lemma noteRetention_frame k r j :
  maxPatches (noteRetention k r j) = maxPatches j /\ maxBytes (noteRetention k r j) = maxBytes j /\
  maxAge (noteRetention k r j) = maxAge j /\
  entries (noteRetention k r j) = entries j /\ bytes (noteRetention k r j) = bytes j.
Proof. unfold noteRetention. by case_if. Qed.

Lemma drop_entry_spec k e j :
  same_but k j (drop_entry k e j) /\ entries (drop_entry k e j) = entries j /\
  maxAge (drop_entry k e j) = maxAge j /\
  bytes (drop_entry k e j) !!0 k = bytes j !!0 k - encodedBytes e.
Proof.
  destruct (noteRetention_frame k (pt_SyncRev (patch e)) j) as (H1 & H2 & H3 & H4 & H5).
  unfold drop_entry, same_but, entries_of. simpl. rewrite H1, H2, H3, H4, H5.
  repeat split; try done.
  - by rewrite lookup_insert_ne.
  - by rewrite lookup_insert_eq.
Qed.

Lemma linked_suffix ps ps' : suffix ps' ps -> linked ps -> linked ps'.
Proof.
  intros [pre ->] (r & h & Hc). revert r Hc. induction pre as [|p pre IH]; intros r Hc.
  - by exists r, h.
  - destruct Hc as (_ & _ & Hc). eauto.
Qed.

Lemma chain_app r m h ps1 ps2 : chain r ps1 m -> chain m ps2 h -> chain r (ps1 ++ ps2) h.
Proof.
  revert r. induction ps1 as [|p ps1 IH]; simpl; intros r; [by intros ->|].
  intros (? & ? & ?) ?. eauto.
Qed.

Lemma chain_split r h ps1 ps2 : chain r (ps1 ++ ps2) h -> exists m, chain r ps1 m /\ chain m ps2 h.
Proof.
  revert r. induction ps1 as [|p ps1 IH]; simpl; intros r; [eauto|].
  intros (? & ? & Hc). destruct (IH _ Hc) as (m & ? & ?). eauto 10.
Qed.

Lemma chain_le r ps h : chain r ps h -> r <= h.
Proof.
  revert r. induction ps as [|p ps IH]; simpl; intros r; [lia|].
  intros (_ & ? & Hc). apply IH in Hc. lia.
Qed.

Lemma chain_last r ps h p : chain r ps h -> last ps = Some p -> h = pt_SyncRev p.
Proof.
  revert r. induction ps as [|q ps IH]; intros r; [done|].
  intros (_ & _ & Hc) Hl. destruct ps as [|q' ps].
  - simpl in *. injection Hl as ->. done.
  - by apply (IH _ Hc).
Qed.

(** Both loops keep a suffix of the entries and an exact byte account. *)
Lemma purge_loop_spec k now es j :
  let '(es', j') := purge_loop k now es j in
  suffix es' es /\ same_but k j j' /\ entries j' = entries j /\
  bytes j' !!0 k = bytes j !!0 k - sum_with encodedBytes es + sum_with encodedBytes es'.
Proof.
  revert j. induction es as [|e es IH]; intros j; simpl.
  - repeat split; try done; lia.
  - case_if; zprop.
    + specialize (IH (drop_entry k e j)). destruct (purge_loop k now es _) as [es' j'].
      destruct IH as (Hs & Hf & He & Hb), (drop_entry_spec k e j) as (Hf' & He' & _ & Hb').
      split; [by apply suffix_cons_r|]. split; [by eapply same_but_trans|].
      split; [congruence|]. lia.
    + repeat split; try done; simpl; lia.
Qed.

Lemma trim_loop_spec k es e j :
  0 < maxPatches j -> 0 <= encodedBytes e <= maxBytes j ->
  bytes j !!0 k = sum_with encodedBytes (es ++ [e]) ->
  exists es' j', trim_loop k (es ++ [e]) j = Some (es' ++ [e], j') /\
    suffix es' es /\ same_but k j j' /\ entries j' = entries j /\
    bytes j' !!0 k = sum_with encodedBytes (es' ++ [e]) /\
    zlen (es' ++ [e]) <= maxPatches j /\ bytes j' !!0 k <= maxBytes j.
Proof.
  revert j. induction es as [|x es IH]; intros j Hmp He Hb; simpl in *.
  - exists [], j. simpl. rewrite Hb. zbool; simpl; repeat split; try done; lia.
  - case_if.
    + destruct (drop_entry_spec k x j) as ((Hm & Hmb & Hf) & He' & _ & Hb').
      destruct (IH (drop_entry k x j)) as (es' & j' & Ht & Hs & Hf' & Hen & Hby & Hc & Hr);
        try lia.
      rewrite Hm, Hmb in *. exists es', j'. split; [done|]. split; [by apply suffix_cons_r|].
      split; [by eapply same_but_trans|]. split; [congruence|]. done.
    + zprop. exists (x :: es), j. simpl. repeat split; try done; simpl; lia.
Qed.

Lemma wf_session_suffix mp mb es es' b acc :
  wf_session mp mb es b acc -> suffix es' es ->
  wf_session mp mb es' (sum_with encodedBytes es') acc.
Proof.
  intros [Hb Hc Hl Hs Hn Hr] [pre ->].
  apply Forall_app in Hc as [Hc1 Hc2].
  pose proof (sum_with_nonneg _ _ Hc1). rewrite sum_with_app in Hb.
  rewrite length_app in Hn. rewrite map_app in Hl, Hs.
  split; try done; [|  |lia|lia].
  - eapply linked_suffix; [|exact Hl]. by exists (map patch pre).
  - etransitivity; [|exact Hs]. by exists (map patch pre).
Qed.

Lemma entries_of_insert k es j : entries_of k (set_entries (<[k := es]> (entries j)) j) = es.
Proof. unfold entries_of. simpl. by rewrite lookup_insert_eq. Qed.

(** Storing [es] for [k] touches no other session. *)
Lemma same_but_set_entries k es j : same_but k j (set_entries (<[k := es]> (entries j)) j).
Proof.
  split; [done|]. split; [done|]. intros k' Hk. unfold entries_of. simpl.
  by rewrite lookup_insert_ne.
Qed.

Lemma same_but_set_bytes k b j : same_but k j (set_bytes (<[k := b]> (bytes j)) j).
Proof. split; [done|]. split; [done|]. intros k' Hk. simpl. by rewrite lookup_insert_ne. Qed.

Lemma same_but_clear bk s j : same_but (bk, s) j (clear bk s j).
Proof.
  split; [done|]. split; [done|]. intros k' Hk. unfold entries_of. simpl.
  by rewrite !lookup_delete_ne.
Qed.

Lemma same_but_note k r j : same_but k j (noteRetention k r j).
Proof.
  destruct (noteRetention_frame k r j) as (H1 & H2 & _ & H3 & H4).
  split; [done|]. split; [done|]. intros k' _. unfold entries_of. by rewrite H3, H4.
Qed.

Lemma wf_session_nil mp mb acc : 0 < mp -> 0 < mb -> wf_session mp mb [] 0 acc.
Proof.
  intros. split; simpl; try done; try lia.
  - by exists 0, 0.
  - by apply suffix_nil.
Qed.

Lemma wf_clear bk s j acc : wf j acc -> wf (clear bk s j) acc.
Proof.
  intros Hwf. eapply wf_frame; [exact Hwf|apply same_but_clear|done|].
  destruct Hwf as (Hp & Hb & _). unfold wf_at, entries_of. simpl.
  rewrite !lookup_delete_eq. by apply wf_session_nil.
Qed.

Lemma wf_clearForLimit bk s r j acc : wf j acc -> wf (clearForLimit bk s r j) acc.
Proof.
  intros Hwf. apply wf_clear. eapply wf_frame; [exact Hwf|apply same_but_note|done|].
  destruct (noteRetention_frame (bk, s) r j) as (H1 & H2 & _ & H3 & H4).
  unfold wf_at, entries_of. rewrite H1, H2, H3, H4. apply Hwf.
Qed.

(** Expiry keeps the journal well formed and leaves a suffix of the entries. *)
Lemma purgeExpired_spec k now j acc :
  wf j acc ->
  wf (purgeExpired k now j) acc /\ same_but k j (purgeExpired k now j) /\
  suffix (entries_of k (purgeExpired k now j)) (entries_of k j).
Proof.
  intros Hwf. unfold purgeExpired.
  pose proof (purge_loop_spec k now (entries_of k j) j) as Hp.
  destruct (purge_loop k now (entries_of k j) j) as [es j'].
  destruct Hp as (Hs & Hf & He & Hb).
  pose proof Hwf as (Hmp & Hmb & Hat). specialize (Hat k) as Hk.
  pose proof (wf_bytes _ _ _ _ _ Hk) as Hbk.
  pose proof (wf_session_suffix _ _ _ _ _ _ Hk Hs) as Hk'.
  assert (forall j'', same_but k j' j'' -> entries_of k j'' = es ->
    bytes j'' !!0 k = sum_with encodedBytes es ->
    wf j'' acc /\ same_but k j j'' /\ suffix (entries_of k j'') (entries_of k j)) as Hgoal.
  { intros j'' Hf' He' Hb'. pose proof (same_but_trans _ _ _ _ Hf Hf') as Hf''.
    split; [|by rewrite He'].
    eapply wf_frame; [exact Hwf|exact Hf''|done|].
    unfold wf_at. destruct Hf'' as (-> & -> & _). by rewrite He', Hb'. }
  destruct es as [|e es].
  - destruct k as [bk s]. apply (Hgoal (clear bk s j')); [apply same_but_clear| |];
      unfold entries_of; simpl; by rewrite lookup_delete_eq.
  - apply (Hgoal (set_entries (<[k := e :: es]> (entries j')) j'));
      [apply same_but_set_entries|apply entries_of_insert|]. simpl in *. lia.
Qed.

Section record.
Context (marshal : ProjectionPatch -> option nat).

(** Appending a patch that continues [es] (or starts afresh) to a journal whose
    byte account for the session is that of [es]. *)
Lemma append_spec k es p n now j acc j0 :
  wf j0 acc -> same_but k j0 j ->
  bytes j !!0 k = sum_with encodedBytes es ->
  linked (map patch es ++ [cloneProjectionPatch p]) ->
  suffix (map patch es) (map cloneProjectionPatch (default [] (acc !! k))) ->
  Forall (fun e => 0 <= encodedBytes e) es ->
  0 <= n <= maxBytes j ->
  exists j',
    (let es := es ++ [mkEntry (cloneProjectionPatch p) n now] in
     let j := set_bytes (<[k := bytes j !!0 k + n]> (bytes j)) j in
     '(es, j) ← trim_loop k es j;
     Some (true, set_entries (<[k := es]> (entries j)) j)) = Some (true, j') /\
    wf j' (<[k := default [] (acc !! k) ++ [p]]> acc) /\ maxBytes j' = maxBytes j /\
    last (map patch (entries_of k j')) = Some (cloneProjectionPatch p).
Proof.
  intros Hwf Hf Hb Hl Hs Hch Hn. cbv zeta.
  pose proof Hwf as (Hmp & Hmb & _). pose proof Hf as (Ef1 & Ef2 & _).
  set (e := mkEntry (cloneProjectionPatch p) n now).
  set (j1 := set_bytes (<[k := bytes j !!0 k + n]> (bytes j)) j).
  assert (same_but k j j1) as Hf1 by apply same_but_set_bytes.
  destruct (trim_loop_spec k es e j1) as (es' & j' & -> & Hsf & Hf2 & Hen & Hby & Hc & Hr).
  { simpl. lia. }
  { simpl. lia. }
  { simpl. rewrite lookup_insert_eq. rewrite sum_with_app. simpl. lia. }
  cbn [mbind option_bind]. eexists. split; [reflexivity|].
  pose proof (same_but_trans _ _ _ _ (same_but_trans _ _ _ _ Hf Hf1)
    (same_but_trans _ _ _ _ Hf2 (same_but_set_entries k (es' ++ [e]) j'))) as Hfall.
  split; [|split; [exact (proj1 (proj2 Hf2))|rewrite entries_of_insert, map_app; apply last_snoc]].
  eapply wf_frame; [exact Hwf|exact Hfall| |].
  { intros k' Hk. by rewrite lookup_insert_ne. }
  unfold wf_at. destruct Hfall as (-> & -> & _).
  rewrite entries_of_insert, lookup_insert_eq. cbn [default set_entries bytes from_option id].
  destruct Hsf as [pre ->]. apply Forall_app in Hch as [_ Hch].
  simpl in Hc, Hr. split; try lia.
  - apply Forall_app. split; [done|]. constructor; [simpl; lia|done].
  - rewrite map_app. simpl. eapply linked_suffix; [|exact Hl].
    exists (map patch pre). by rewrite map_app, <- app_assoc.
  - rewrite !map_app. simpl. apply suffix_app.
    etransitivity; [|exact Hs]. exists (map patch pre). by rewrite map_app.
Qed.

Lemma Record_spec bk s p now j acc :
  wf j acc ->
  exists ok j', Record_ marshal bk s p now j = Some (ok, j') /\
    wf j' (if ok : bool then <[(bk, s) := default [] (acc !! (bk, s)) ++ [p]]> acc else acc).
Proof.
  intros Hwf. unfold Record_. case_if; [eauto|]. zprop.
  destruct (marshal (cloneProjectionPatch p)) as [n|]; [|eauto using wf_clearForLimit].
  case_if; [eauto using wf_clearForLimit|]. zprop.
  destruct (purgeExpired_spec (bk, s) now j acc Hwf) as (Hwf' & (Em & Emb & _) & _).
  set (j1 := purgeExpired (bk, s) now j) in *.
  pose proof Hwf' as (Hmp & Hmb & Hat). destruct (Hat (bk, s)) as [Hb Hch Hl Hsf _ _].
  set (es := entries_of (bk, s) j1) in *.
  assert (linked [cloneProjectionPatch p]) as Hsolo.
  { exists (pt_BaseRev p), (pt_SyncRev p). simpl. lia. }
  destruct (last es) as [l|] eqn:Hlast.
  - case_if; [eauto|]. zprop. case_if.
    + destruct (append_spec (bk, s) [] p (Z.of_nat n) now
        (set_bytes (<[(bk, s) := 0]> (bytes j1)) j1) acc j1) as (j' & Ha & Hw & _);
        try done; try (simpl; lia).
      * apply same_but_set_bytes.
      * simpl. by rewrite lookup_insert_eq.
      * by apply suffix_nil.
      * exists true, j'. split; [exact Ha|done].
    + zprop. destruct (append_spec (bk, s) es p (Z.of_nat n) now j1 acc j1) as (j' & Ha & Hw & _);
        try done; try lia.
      * destruct Hl as (r & h & Hc). exists r, (pt_SyncRev p). eapply chain_app; [exact Hc|].
        apply (chain_last _ _ _ (patch l)) in Hc; [|change (map patch es) with (patch <$> es); by rewrite fmap_last, Hlast].
        subst h. simpl. lia.
      * exists true, j'. split; [exact Ha|done].
  - apply last_None in Hlast.
    destruct (append_spec (bk, s) es p (Z.of_nat n) now j1 acc j1) as (j' & Ha & Hw & _);
      try done; try lia.
    { by rewrite Hlast. }
    exists true, j'. split; [exact Ha|done].
Qed.

(** A patch the journal can hold: it spans a revision, and its encoding fits. *)
Definition recordable (maxBytes : Z) (p : ProjectionPatch) : bool :=
  (pt_BaseRev p <? pt_SyncRev p) &&
  match marshal (cloneProjectionPatch p) with Some n => Z.of_nat n <=? maxBytes | None => false end.

(** Nothing of the session is newer than revision [r]. *)
Definition behind (r : Z) (k : string * string) (j : ProjectionRevisionJournal) : Prop :=
  forall e, last (entries_of k j) = Some e -> pt_SyncRev (patch e) <= r.

Lemma behind_suffix r k j j' : suffix (entries_of k j') (entries_of k j) -> behind r k j -> behind r k j'.
Proof.
  intros [pre Hs] Hb e He. apply Hb. rewrite Hs. destruct (entries_of k j') as [|x l] using rev_ind; [done|].
  rewrite last_snoc in He. by rewrite app_assoc, last_snoc.
Qed.

(** The next patch of a session is kept when it is recordable, and only then. *)
Lemma Record_in_order bk s p now j acc :
  bk <> "" -> s <> "" -> wf j acc -> behind (pt_BaseRev p) (bk, s) j -> pt_BaseRev p <= pt_SyncRev p ->
  exists j' acc', Record_ marshal bk s p now j = Some (recordable (maxBytes j) p, j') /\ wf j' acc' /\
    maxBytes j' = maxBytes j /\ behind (pt_SyncRev p) (bk, s) j' /\
    (recordable (maxBytes j) p = true -> last (map patch (entries_of (bk, s) j')) = Some (cloneProjectionPatch p)).
Proof.
  intros Hbk Hs Hwf Hb Hle. unfold Record_, recordable. rewrite !bool_decide_eq_false_2 by done. cbn [orb].
  destruct (Z.leb_spec (pt_SyncRev p) (pt_BaseRev p)) as [Hnone|Hspan].
  { rewrite (proj2 (Z.ltb_ge _ _)) by lia. exists j, acc. split_and!; try done. intros e He. apply Hb in He. lia. }
  rewrite (proj2 (Z.ltb_lt _ _)) by lia. cbn [andb].
  assert (forall j', entries_of (bk, s) j' = [] -> behind (pt_SyncRev p) (bk, s) j') as Hempty
    by (intros j' He e; by rewrite He).
  assert (entries_of (bk, s) (clearForLimit bk s (pt_SyncRev p) j) = [] /\
    maxBytes (clearForLimit bk s (pt_SyncRev p) j) = maxBytes j) as [Hc1 Hc2].
  { destruct (noteRetention_frame (bk, s) (pt_SyncRev p) j) as (_ & H2 & _). split; [|exact H2].
    unfold clearForLimit, clear, entries_of. cbn. by rewrite lookup_delete_eq. }
  destruct (marshal (cloneProjectionPatch p)) as [n|];
    [|exists (clearForLimit bk s (pt_SyncRev p) j), acc; split_and!; try done; [by apply wf_clearForLimit|by apply Hempty]].
  destruct (Z.gtb_spec (Z.of_nat n) (maxBytes j)) as [Hbig|Hfit].
  { rewrite (proj2 (Z.leb_gt _ _)) by lia. exists (clearForLimit bk s (pt_SyncRev p) j), acc.
    split_and!; try done; [by apply wf_clearForLimit|by apply Hempty]. }
  rewrite (proj2 (Z.leb_le _ _)) by lia.
  destruct (purgeExpired_spec (bk, s) now j acc Hwf) as (Hwf' & (_ & Emb & _) & Hsuf).
  pose proof (behind_suffix _ _ _ _ Hsuf Hb) as Hb1. set (j1 := purgeExpired (bk, s) now j) in *.
  pose proof Hwf' as (Hmp & Hmb & Hat). destruct (Hat (bk, s)) as [Hbytes Hch Hl Hsf _ _].
  set (es := entries_of (bk, s) j1) in *.
  assert (forall es0 j0, same_but (bk, s) j1 j0 -> bytes j0 !!0 (bk, s) = sum_with encodedBytes es0 ->
    linked (map patch es0 ++ [cloneProjectionPatch p]) -> suffix es0 es -> maxBytes j0 = maxBytes j1 ->
    exists j' acc', (let es := es0 ++ [mkEntry (cloneProjectionPatch p) (Z.of_nat n) now] in
       let j := set_bytes (<[(bk, s) := bytes j0 !!0 (bk, s) + Z.of_nat n]> (bytes j0)) j0 in
       '(es, j) ← trim_loop (bk, s) es j;
       Some (true, set_entries (<[(bk, s) := es]> (entries j)) j)) = Some (true, j') /\ wf j' acc' /\
      maxBytes j' = maxBytes j /\ behind (pt_SyncRev p) (bk, s) j' /\
      (true = true -> last (map patch (entries_of (bk, s) j')) = Some (cloneProjectionPatch p))) as Happ.
  { intros es0 j0 H1 H2 H3 H4 H5. destruct H4 as [pre Hpre].
    destruct (append_spec (bk, s) es0 p (Z.of_nat n) now j0 acc j1) as (j' & Ha & Hw & Hm & Hlast); try done.
    - etransitivity; [|exact Hsf]. exists (map patch pre). by rewrite Hpre, map_app.
    - rewrite Hpre in Hch. by apply Forall_app in Hch as [_ ?].
    - lia.
    - exists j', (<[(bk, s) := default [] (acc !! (bk, s)) ++ [p]]> acc). split; [exact Ha|].
      split; [exact Hw|]. split; [lia|]. split; [|done]. intros e He.
      change (map patch (entries_of (bk, s) j')) with (patch <$> entries_of (bk, s) j') in Hlast.
      rewrite fmap_last, He in Hlast. injection Hlast as ->. cbn. lia. }
  assert (linked [cloneProjectionPatch p]) as Hsolo by (exists (pt_BaseRev p), (pt_SyncRev p); cbn; lia).
  destruct (last es) as [l|] eqn:Hlast.
  - specialize (Hb1 l Hlast). rewrite (proj2 (Z.leb_gt _ _)) by lia. case_if; zprop.
    + apply (Happ [] (set_bytes (<[(bk, s) := 0]> (bytes j1)) j1)); [apply same_but_set_bytes| |done|by exists es; rewrite app_nil_r|done].
      cbn. by rewrite lookup_insert_eq.
    + apply (Happ es j1); try done. destruct Hl as (r & h & Hc). exists r, (pt_SyncRev p).
      eapply chain_app; [exact Hc|]. apply (chain_last _ _ _ (patch l)) in Hc; [|change (map patch es) with (patch <$> es); by rewrite fmap_last, Hlast].
      subst h. cbn. lia.
  - apply last_None in Hlast. apply (Happ es j1); try done. by rewrite Hlast.
Qed.

(** The patches of a session, recorded in order. *)
Fixpoint record_all (bk s : string) (l : list (ProjectionPatch * Z)) (j : ProjectionRevisionJournal)
  : option (list bool * ProjectionRevisionJournal) :=
  match l with
  | [] => Some ([], j)
  | (p, now) :: l => '(ok, j) ← Record_ marshal bk s p now j; '(oks, j) ← record_all bk s l j; Some (ok :: oks, j)
  end.

Lemma wf_new mp mb ages : wf (NewProjectionRevisionJournal mp mb ages) ∅.
Proof.
  assert (0 < maxPatches (NewProjectionRevisionJournal mp mb ages) /\
          0 < maxBytes (NewProjectionRevisionJournal mp mb ages)) as [H1 H2].
  { unfold NewProjectionRevisionJournal, defaultProjectionJournalMaxPatches,
      defaultProjectionJournalMaxBytes. change (Z.shiftl 2 20) with 2097152.
    simpl. zbool; lia. }
  split; [done|]. split; [done|]. intros k. by apply wf_session_nil.
Qed.

Lemma ContiguousRangeAt_state bk s since head now j :
  snd (ContiguousRangeAt bk s since head now j) = j \/
  snd (ContiguousRangeAt bk s since head now j) = purgeExpired (bk, s) now j.
Proof.
  unfold ContiguousRangeAt. case_if; [by left|]. case_if; [by right|]. case_match; by right.
Qed.

Lemma wf_run ops st :
  wf (fst st) (snd st) ->
  exists st', run marshal ops st = Some st' /\ wf (fst st') (snd st').
Proof.
  revert st. induction ops as [|o ops IH]; intros [j acc] Hwf; simpl in *; [eauto|].
  assert (exists st1, exec marshal o (j, acc) = Some st1 /\ wf (fst st1) (snd st1))
    as (st1 & He & Hwf1); [|simpl in He; rewrite He; simpl; by apply IH].
  destruct o as [bk s p now|bk s since head now|bk s]; simpl.
  - destruct (Record_spec bk s p now j acc Hwf) as (ok & j' & -> & Hw). simpl. eauto.
  - eexists. split; [reflexivity|]. simpl.
    destruct (ContiguousRangeAt_state bk s since head now j) as [-> | ->]; [done|].
    by apply purgeExpired_spec.
  - eexists. split; [reflexivity|]. by apply wf_clear.
Qed.
End record.

(** The scan takes a contiguous segment of the entries, copied, from [expected]
    to the head. *)
Lemma range_scan_sound head r started es ps :
  range_scan head r started es = Some ps -> linked (map patch es) ->
  (started = true -> exists h, chain r (map patch es) h) ->
  ps <> [] /\ chain r ps head /\
  exists pre post, map patch es = pre ++ post /\
    ps `prefix_of` map cloneProjectionPatch post /\ (started = true -> pre = []).
Proof.
  revert r started ps. induction es as [|e es IH]; intros r started ps; simpl; [done|].
  intros Hscan (r0 & h & Hb & Hlt & Hc) Hst.
  assert (linked (map patch es)) as Hl by (by eexists _, _).
  destruct (negb started && negb (pt_BaseRev (patch e) =? r)) eqn:E1.
  - zprop. subst started. destruct (IH r false ps Hscan Hl) as (H1 & H2 & pre & post & H3 & H4 & _);
      [done|]. split; [done|]. split; [done|]. exists (patch e :: pre), post. simpl.
    by rewrite H3.
  - destruct (negb (pt_BaseRev (patch e) =? r) || (pt_SyncRev (patch e) >? head)) eqn:E2; [done|].
    zprop. destruct (Z.eqb_spec (pt_SyncRev (patch e)) head) as [Eh|Eh].
    + injection Hscan as <-. split; [done|]. split.
      { simpl. rewrite Eh in *. subst. lia. }
      exists [], (patch e :: map patch es). simpl. split; [done|]. split; [|done].
      by apply prefix_cons, prefix_nil.
    + destruct (range_scan head (pt_SyncRev (patch e)) true es) as [qs|] eqn:Eq; [|done].
      injection Hscan as <-.
      destruct (IH _ _ _ Eq Hl) as (_ & H2 & pre & post & H3 & H4 & H5).
      { intros _. eauto. }
      rewrite H5 in H3 by done. simpl in H3. subst post. split; [done|]. split.
      { simpl. split; [done|]. split; [lia|exact H2]. }
      exists [], (patch e :: map patch es). simpl. split; [done|]. split; [|done].
      by apply prefix_cons.
Qed.

(** A range whose endpoints are retained is found. *)
Lemma range_scan_complete head r es1 es2 h r0 :
  chain r0 (map patch es1) r -> chain r (map patch es2) h ->
  (exists es3 es4, es2 = es3 ++ es4 /\ es3 <> [] /\ chain r (map patch es3) head) ->
  is_Some (range_scan head r false (es1 ++ es2)).
Proof.
  intros H1 H2 (es3 & es4 & -> & Hne & H3).
  assert (forall st, is_Some (range_scan head r st (es3 ++ es4))) as Hfound.
  { clear H1 H2. revert r H3 Hne. induction es3 as [|e es3 IH]; intros r H3 Hne st; [done|].
    simpl in *. destruct H3 as (Hb & Hlt & Hc). rewrite Hb, Z.eqb_refl. simpl.
    rewrite andb_false_r.
    pose proof (chain_le _ _ _ Hc). destruct (Z.gtb_spec (pt_SyncRev (patch e)) head); [lia|].
    destruct (Z.eqb_spec (pt_SyncRev (patch e)) head); [eauto|].
    destruct es3 as [|e' es3]; [done|].
    destruct (IH _ Hc ltac:(done) true) as [ps ->]. simpl. eauto. }
  revert r0 H1. induction es1 as [|e es1 IH]; intros r0 H1; [apply Hfound|].
  simpl in *. destruct H1 as (Hb & Hlt & Hc).
  pose proof (chain_le _ _ _ Hc). destruct (Z.eqb_spec (pt_BaseRev (patch e)) r); [lia|]. simpl. eauto.
Qed.

(** ** Properties *)

(** A served range is sound: after any calls on a new journal (every one of
    which returns, the trimming loop never indexing an empty slice), a range
    [ContiguousRangeAt] reports as available is a non-empty chain of patches
    leading exactly from [sinceRev] to [headRev], and is a contiguous run of the
    copies of the patches accepted for that session. *)
Theorem ContiguousRange_sound marshal mp mb ages ops bk s since head now :
  exists j acc,
    run marshal ops (NewProjectionRevisionJournal mp mb ages, ∅) = Some (j, acc) /\
    forall ps reason j',
      ContiguousRangeAt bk s since head now j = ((ps, true, reason), j') ->
      ps <> [] /\ chain since ps head /\
      exists pre post, map cloneProjectionPatch (map cloneProjectionPatch (default [] (acc !! (bk, s))))
                       = pre ++ ps ++ post.
Proof.
  destruct (wf_run marshal ops (NewProjectionRevisionJournal mp mb ages, ∅) (wf_new mp mb ages))
    as ([j acc] & Hrun & Hwf).
  exists j, acc. split; [done|]. intros ps reason j'. unfold ContiguousRangeAt.
  case_if; [done|]. case_if; [done|].
  destruct (range_scan _ _ _ _) as [qs|] eqn:Hscan; [|done]. intros [= <- _ _].
  destruct (purgeExpired_spec (bk, s) now j acc Hwf) as ((_ & _ & Hat) & _ & _).
  destruct (Hat (bk, s)) as [_ _ Hl [pre0 Hs] _ _].
  destruct (range_scan_sound _ _ _ _ _ Hscan Hl) as (H1 & H2 & pre & post & H3 & [post' H4] & _);
    [done|].
  split; [done|]. split; [done|]. rewrite Hs, H3.
  exists (map cloneProjectionPatch (pre0 ++ pre)), post'.
  by rewrite !map_app, H4, <- app_assoc.
Qed.

(** A retained range is served: after any calls on a new journal, when the
    session's unexpired entries contain a run from [sinceRev] to [headRev], and
    [sinceRev] is not below the revisions dropped for retention, the range is
    available. *)
Theorem ContiguousRange_available marshal mp mb ages ops bk s since head now :
  exists j acc,
    run marshal ops (NewProjectionRevisionJournal mp mb ages, ∅) = Some (j, acc) /\
    forall es1 es2 es3,
      0 < since -> retainedAfter (purgeExpired (bk, s) now j) !!0 (bk, s) <= since ->
      entries_of (bk, s) (purgeExpired (bk, s) now j) = es1 ++ es2 ++ es3 ->
      es2 <> [] -> chain since (map patch es2) head ->
      exists ps j', ContiguousRangeAt bk s since head now j = ((ps, true, NoFallback), j').
Proof.
  destruct (wf_run marshal ops (NewProjectionRevisionJournal mp mb ages, ∅) (wf_new mp mb ages))
    as ([j acc] & Hrun & Hwf).
  exists j, acc. split; [done|]. intros es1 es2 es3 Hpos Hret Hes Hne Hch.
  destruct (purgeExpired_spec (bk, s) now j acc Hwf) as ((_ & _ & Hat) & _ & _).
  destruct (Hat (bk, s)) as [_ _ (r0 & h & Hl) _ _ _]. rewrite Hes in Hl.
  assert (since < head) as Hlt.
  { destruct es2 as [|e es2]; [done|]. simpl in Hch. destruct Hch as (_ & Hlt & Hch).
    apply chain_le in Hch. lia. }
  rewrite map_app in Hl. apply chain_split in Hl as (m & H1 & H2).
  assert (m = since) as ->.
  { destruct es2 as [|e es2]; [done|]. simpl in *. destruct H2 as (<- & _), Hch as (<- & _). done. }
  unfold ContiguousRangeAt.
  destruct (Z.leb_spec since 0); [lia|]. destruct (Z.leb_spec head since); [lia|]. simpl.
  destruct (Z.ltb_spec since (retainedAfter (purgeExpired (bk, s) now j) !!0 (bk, s))); [lia|].
  rewrite Hes.
  destruct (range_scan_complete head since es1 (es2 ++ es3) h r0 H1 H2) as [ps ->]; eauto.
Qed.

(** What the journal retains of a patch: the copy [Record] stores is the
    patch itself exactly when the patch carries none of the fields the copy
    leaves out: turn state operations, removed turns, the plan, session,
    collaboration, goal views, and the item id of a part operation. *)
Theorem cloneProjectionPatch_lossless_iff p :
  cloneProjectionPatch p = p <->
  Forall (fun op => po_ItemID op = "") (pt_PartOps p) /\
  pt_TurnStateOps p = [] /\ pt_RemovedTurnIDs p = [] /\ pt_PlanMode p = None /\
  pt_SessionMode p = None /\ pt_CollaborationMode p = None /\ pt_CodexGoal p = None /\
  pt_Goal p = None.
Proof.
  assert (map cloneTurn (pt_UpsertTurns p) = pt_UpsertTurns p) as Ht
    by apply map_id_Forall, Forall_true, cloneTurn_id.
  destruct p as [b sy ex ut po tso rc rt pm sm cm cg g]. unfold cloneProjectionPatch. simpl in *.
  rewrite Ht. split.
  - intros [= Hpo <- <- <- <- <- <- <-]. split; [|done].
    clear - Hpo. induction po as [|op po IH]; [constructor|]. simpl in Hpo.
    injection Hpo as Hop Hpo. constructor; [by apply clonePartOp_id_iff|auto].
  - intros (Hpo & -> & -> & -> & -> & -> & -> & ->). f_equal. apply map_id_Forall.
    eapply Forall_impl; [exact Hpo|]. intros op. apply clonePartOp_id_iff.
Qed.

Definition wit_patch (base sync : Z) : ProjectionPatch :=
  mkProjectionPatch base sync None [] [] [mkTurnStateOp "t1" "loaded" "" 1 0 0 0] [] [] None None
    None None None.

Definition wit_patch_copy (base : Z) : ProjectionPatch :=
  cloneProjectionPatch (wit_patch base (base + 1)).

Definition wit_ops : list op :=
  [ORecord "codex" "s" (wit_patch 0 1) 0; ORecord "codex" "s" (wit_patch 1 2) 1;
   ORecord "codex" "s" (wit_patch 2 3) 2; ORecord "codex" "s" (wit_patch 3 4) 3].

Definition wit_marshal (_ : ProjectionPatch) : option nat := Some 100%nat.

Definition wit_start : ProjectionRevisionJournal * accepted :=
  (NewProjectionRevisionJournal 3 0 [], ∅).

(** A journal of three patches serves 2 to 4, without the turn state
    operations the patches carried. *)
Lemma ContiguousRange_sound_witness :
  exists j acc ps,
    run wit_marshal wit_ops wit_start = Some (j, acc) /\
    fst (ContiguousRangeAt "codex" "s" 2 4 5 j) = (ps, true, NoFallback) /\
    chain 2 ps 4 /\ map pt_TurnStateOps ps = [[]; []].
Proof.
  destruct (ContiguousRange_sound wit_marshal 3 0 [] wit_ops "codex" "s" 2 4 5)
    as (j & acc & Hrun & H).
  exists j, acc, (map wit_patch_copy [2; 3]). split; [exact Hrun|].
  apply (some_default wit_start) in Hrun. apply (f_equal fst) in Hrun.
  change (fst (j, acc)) with j in Hrun.
  assert (fst (ContiguousRangeAt "codex" "s" 2 4 5 j) = (map wit_patch_copy [2; 3], true, NoFallback))
    as Hserved by (rewrite Hrun; vm_compute; reflexivity).
  split; [exact Hserved|]. split; [|reflexivity].
  apply fst_pair in Hserved. by destruct (H _ _ _ Hserved) as (_ & Hc & _).
Defined.

Lemma ContiguousRange_available_witness :
  exists j acc,
    run wit_marshal wit_ops wit_start = Some (j, acc) /\
    exists ps j', ContiguousRangeAt "codex" "s" 1 3 5 j = ((ps, true, NoFallback), j').
Proof.
  destruct (ContiguousRange_available wit_marshal 3 0 [] wit_ops "codex" "s" 1 3 5)
    as (j & acc & Hrun & H).
  exists j, acc. split; [exact Hrun|].
  apply (some_default wit_start) in Hrun. apply (f_equal fst) in Hrun.
  change (fst (j, acc)) with j in Hrun.
  apply (H [] (map (fun b => mkEntry (wit_patch_copy b) 100 b) [1; 2])
           (map (fun b => mkEntry (wit_patch_copy b) 100 b) [3])).
  - reflexivity.
  - rewrite Hrun. vm_compute. discriminate.
  - rewrite Hrun. vm_compute. reflexivity.
  - discriminate.
  - clear. vm_compute. done.
Defined.
