(* ===== verification/RelayStore.v ===== *)
(** * The relay server's store (relay-server/internal/relay/store.go)

    The SQLite tables as finite maps by primary key; a mailbox is the list of
    its frame rows in primary-key (cursor) order, so that [ORDER BY cursor] is
    the list's order. Every method is one transaction: on an error the database
    is unchanged. Random identifiers and credentials are arguments, SHA-256 is
    the parameter [digest], and [hmac.Equal] is equality. I/O errors of the
    database are not modelled; constraint violations are. *)

From S2P Require Import Prelude.

(** ** Tables *)

Record route_row : Type := mkRoute {
  bridge_auth_hash : string;
  rt_created_at : Z;
  rt_revoked_at : option Z;
  last_bridge_seen_at : option Z
}.

Record activation_row : Type := mkActivation {
  signing_public_key : string;
  act_route_id : string;
  activated_at : Z
}.

Record device_row : Type := mkDevice {
  device_auth_hash : string;
  dv_created_at : Z;
  dv_revoked_at : option Z;
  last_seen_at : option Z;
  next_cursor : Z
}.

Record frame_row : Type := mkFrame {
  cursor : Z;
  envelope : string;
  envelope_size : Z;
  inserted_at : Z;
  expires_at : Z;
  acked_at : option Z
}.

Inductive claim_state : Type := pending | approved | rejected | consumed.

#[export] Instance claim_state_eq_dec : EqDecision claim_state.
Proof. solve_decision. Defined.

Record claim_row : Type := mkClaim {
  capability_hash : string;
  sealed_claim : string;
  sealed_result : option string;
  state : claim_state;
  cl_expires_at : Z;
  consumed_at : option Z
}.

(** [PairingClaim]: what the bridge and the client read of a claim. *)
Record PairingClaim : Type := mkPairingClaim {
  pc_ClaimID : string;
  pc_SealedClaim : string;
  pc_SealedResult : option string;
  pc_State : claim_state
}.

Record Store : Type := mkStore {
  routes : gmap string route_row;
  route_activations : gmap string activation_row;
  route_devices : gmap (string * string) device_row;
  mailbox_frames : gmap (string * string) (list frame_row);
  pending_pairing_claims : gmap (string * string) claim_row
}.

Inductive store_error : Type :=
| ErrConstraint
| ErrActivationIdentityMismatch
| ErrRouteNotFound
| ErrActiveDeviceNotFound
| ErrFrameExceedsCapacity
| ErrInactiveDestination
| ErrEvict
| ErrNoRows
| ErrPairingClaimConflict
| ErrInvalidClaimState
| ErrPendingClaimNotFound.

(** A method's answer with the database after it. *)
Definition answer (A : Type) : Type := (store_error + A) * Store.

Definition empty_store : Store := mkStore ∅ ∅ ∅ ∅ ∅.

Definition set_routes v db :=
  mkStore v (route_activations db) (route_devices db) (mailbox_frames db) (pending_pairing_claims db).
Definition set_activations v db :=
  mkStore (routes db) v (route_devices db) (mailbox_frames db) (pending_pairing_claims db).
Definition set_devices v db :=
  mkStore (routes db) (route_activations db) v (mailbox_frames db) (pending_pairing_claims db).
Definition set_frames v db :=
  mkStore (routes db) (route_activations db) (route_devices db) v (pending_pairing_claims db).
Definition set_claims v db :=
  mkStore (routes db) (route_activations db) (route_devices db) (mailbox_frames db) v.

(** The rows of one mailbox. *)
Definition mailbox (db : Store) (routeID deviceID : string) : list frame_row :=
  default [] (mailbox_frames db !! (routeID, deviceID)).

Definition set_mailbox (routeID deviceID : string) (fs : list frame_row) (db : Store) : Store :=
  set_frames (<[(routeID, deviceID) := fs]> (mailbox_frames db)) db.

(** ** Conditions of the queries *)

(** [... FROM routes WHERE route_id = ? AND revoked_at IS NULL]. *)
Definition active_route (db : Store) (routeID : string) : option route_row :=
  r ← routes db !! routeID;
  if rt_revoked_at r is None then Some r else None.

(** [... FROM route_devices d JOIN routes r ... WHERE both are not revoked]. *)
Definition active_device (db : Store) (routeID deviceID : string) : option device_row :=
  d ← route_devices db !! (routeID, deviceID);
  _ ← active_route db routeID;
  if dv_revoked_at d is None then Some d else None.

Definition unacked (f : frame_row) : Prop := acked_at f = None.
Definition unexpired (now : Z) (f : frame_row) : Prop := unix_seconds now < expires_at f.

#[export] Instance unacked_dec f : Decision (unacked f).
Proof. unfold unacked. apply _. Defined.
#[export] Instance unexpired_dec now f : Decision (unexpired now f).
Proof. unfold unexpired. apply _. Defined.

(** Neither expired nor acknowledged. *)
Definition live (now : Z) (f : frame_row) : Prop := unexpired now f /\ unacked f.
#[export] Instance live_dec now f : Decision (live now f).
Proof. unfold live. apply _. Defined.

Section store.
Context (digest : string -> string).

Definition CredentialDigest (credential : string) : string := digest credential.

Definition VerifyCredential (want credential : string) : bool :=
  bool_decide (want = CredentialDigest credential).

(** ** Routes and activations *)

Definition CreateRoute (routeID auth : string) (now : Z) (db : Store) : answer (string * string) :=
  match routes db !! routeID with
  | Some _ => (inl ErrConstraint, db)
  | None =>
      (inr (routeID, auth),
       set_routes (<[routeID := mkRoute (CredentialDigest auth) (unix_seconds now) None None]>
                    (routes db)) db)
  end.

(** The uniqueness constraints of an insert into [route_activations]. *)
Definition activation_conflict (publicKey routeID : string) (db : Store) : bool :=
  existsb (fun '(_, a) => bool_decide (signing_public_key a = publicKey)
                          || bool_decide (act_route_id a = routeID))
    (map_to_list (route_activations db)).

Definition ActivateRoute (installID publicKey bridgeAuth newRouteID : string) (now : Z) (db : Store)
  : answer string :=
  match route_activations db !! installID with
  | Some a =>
      if bool_decide (signing_public_key a = publicKey) then
        (inr (act_route_id a),
         match active_route db (act_route_id a) with
         | Some r =>
             set_routes (<[act_route_id a :=
               mkRoute (CredentialDigest bridgeAuth) (rt_created_at r) (rt_revoked_at r)
                 (last_bridge_seen_at r)]> (routes db)) db
         | None => db
         end)
      else (inl ErrActivationIdentityMismatch, db)
  | None =>
      match routes db !! newRouteID with
      | Some _ => (inl ErrConstraint, db)
      | None =>
          if activation_conflict publicKey newRouteID db then (inl ErrConstraint, db)
          else
            (inr newRouteID,
             set_activations
               (<[installID := mkActivation publicKey newRouteID (unix_seconds now)]>
                  (route_activations db))
               (set_routes
                 (<[newRouteID := mkRoute (CredentialDigest bridgeAuth) (unix_seconds now) None None]>
                    (routes db)) db))
      end
  end.

Definition AuthenticateBridge (routeID credential : string) (now : Z) (db : Store) : bool * Store :=
  match active_route db routeID with
  | None => (false, db)
  | Some r =>
      if VerifyCredential (bridge_auth_hash r) credential then
        (true, set_routes (<[routeID :=
           mkRoute (bridge_auth_hash r) (rt_created_at r) (rt_revoked_at r)
             (Some (unix_seconds now))]> (routes db)) db)
      else (false, db)
  end.

(** ** Devices *)

Definition RegisterDevice (routeID deviceID auth : string) (now : Z) (db : Store) : answer string :=
  match active_route db routeID with
  | None => (inl ErrRouteNotFound, db)
  | Some _ =>
      let row :=
        match route_devices db !! (routeID, deviceID) with
        | None => mkDevice (CredentialDigest auth) (unix_seconds now) None None 1
        | Some d =>
            mkDevice (CredentialDigest auth) (unix_seconds now) None (last_seen_at d) (next_cursor d)
        end in
      (inr auth, set_devices (<[(routeID, deviceID) := row]> (route_devices db)) db)
  end.

Definition AuthenticateDevice (routeID deviceID credential : string) (now : Z) (db : Store)
  : bool * Store :=
  match active_device db routeID deviceID with
  | None => (false, db)
  | Some d =>
      if VerifyCredential (device_auth_hash d) credential then
        (true, set_devices (<[(routeID, deviceID) :=
           mkDevice (device_auth_hash d) (dv_created_at d) (dv_revoked_at d)
             (Some (unix_seconds now)) (next_cursor d)]> (route_devices db)) db)
      else (false, db)
  end.

Definition DeviceActive (routeID deviceID : string) (db : Store) : bool :=
  bool_decide (is_Some (active_device db routeID deviceID)).

Definition RevokeDevice (routeID deviceID : string) (now : Z) (db : Store) : answer unit :=
  match route_devices db !! (routeID, deviceID) with
  | Some d =>
      if dv_revoked_at d is None then
        (inr tt,
         set_frames (delete (routeID, deviceID) (mailbox_frames db))
           (set_devices (<[(routeID, deviceID) :=
              mkDevice (device_auth_hash d) (dv_created_at d) (Some (unix_seconds now))
                (last_seen_at d) (next_cursor d)]> (route_devices db)) db))
      else (inl ErrActiveDeviceNotFound, db)
  | None => (inl ErrActiveDeviceNotFound, db)
  end.

(** ** Mailboxes *)

(** [INSERT INTO mailbox_frames]: at its place in cursor order, refused when the
    cursor is taken. *)
Fixpoint insert_frame (f : frame_row) (fs : list frame_row) : option (list frame_row) :=
  match fs with
  | [] => Some [f]
  | g :: rest =>
      if cursor f <? cursor g then Some (f :: fs)
      else if cursor f =? cursor g then None
      else (fun rest => g :: rest) <$> insert_frame f rest
  end.

(** The eviction loop of [AppendFrame]: each turn deletes the unacknowledged row
    with the least cursor, which in cursor order is met by one pass. [None] is
    the failed [SELECT] when there is no such row. *)
Fixpoint evict_loop (current need maxBytes : Z) (fs : list frame_row)
  : option (list frame_row * Z) :=
  if current + need >? maxBytes then
    match fs with
    | [] => None
    | f :: rest =>
        if decide (unacked f) then
          '(rest, n) ← evict_loop (current - envelope_size f) need maxBytes rest;
          Some (rest, n + 1)
        else
          '(rest, n) ← evict_loop current need maxBytes rest;
          Some (f :: rest, n)
    end
  else Some (fs, 0).

Definition AppendFrame (routeID deviceID env : string) (now ttl maxBytes : Z) (db : Store)
  : answer (Z * Z) :=
  let len := Z.of_nat (String.length env) in
  if len >? maxBytes then (inl ErrFrameExceedsCapacity, db)
  else
    match active_device db routeID deviceID with
    | None => (inl ErrInactiveDestination, db)
    | Some d =>
        let cur := next_cursor d in
        let fs := filter (live now) (mailbox db routeID deviceID) in
        let current := sum_with envelope_size (filter unacked fs) in
        match evict_loop current len maxBytes fs with
        | None => (inl ErrEvict, db)
        | Some (fs, evicted) =>
            let row := mkFrame cur env len (unix_seconds now) (unix_seconds (now + ttl)) None in
            match insert_frame row fs with
            | None => (inl ErrConstraint, db)
            | Some fs =>
                (inr (cur, evicted),
                 set_devices (<[(routeID, deviceID) :=
                   mkDevice (device_auth_hash d) (dv_created_at d) (dv_revoked_at d)
                     (last_seen_at d) (next_cursor d + 1)]> (route_devices db))
                   (set_mailbox routeID deviceID fs db))
            end
        end
    end.

Definition FetchFrames (routeID deviceID : string) (after limit now : Z) (db : Store)
  : list frame_row * Store :=
  let limit := if (limit <=? 0) || (limit >? 200) then 100 else limit in
  let fs := filter (unexpired now) (mailbox db routeID deviceID) in
  (take (Z.to_nat limit) (filter (fun f => after < cursor f /\ live now f) fs),
   set_mailbox routeID deviceID fs db).

Definition ack_row (through now : Z) (f : frame_row) : frame_row :=
  if decide (cursor f <= through /\ unacked f) then
    mkFrame (cursor f) (envelope f) (envelope_size f) (inserted_at f) (expires_at f)
      (Some (unix_seconds now))
  else f.

Definition AckFrames (routeID deviceID : string) (through now : Z) (db : Store) : Store :=
  set_mailbox routeID deviceID (map (ack_row through now) (mailbox db routeID deviceID)) db.

Definition ExpireFrames (now : Z) (db : Store) : Z * Store :=
  let kept := (filter (live now)) <$> mailbox_frames db in
  (map_sum (fun fs => zlen fs) (mailbox_frames db) - map_sum (fun fs => zlen fs) kept,
   set_frames kept db).

(** [RouteStatus]: the device count, the pending frame count and their size. *)
Definition Status (routeID : string) (now : Z) (db : Store) : store_error + (Z * Z * Z) :=
  match active_route db routeID with
  | None => inl ErrNoRows
  | Some _ =>
      let devices := filter (fun kd => fst (fst kd) = routeID /\ dv_revoked_at (snd kd) = None)
                       (map_to_list (route_devices db)) in
      let pend := filter (fun f => live now f)
                    (concat (map snd (filter (fun kf => fst (fst kf) = routeID)
                                        (map_to_list (mailbox_frames db))))) in
      inr (zlen devices, zlen pend, sum_with envelope_size pend)
  end.

(** ** Pairing claims *)

(** [DELETE ... WHERE route_id = ? AND expires_at <= ?]. *)
Definition expire_claims (routeID : string) (now : Z) (db : Store) : Store :=
  set_claims
    (filter (fun kc => ~ (fst (fst kc) = routeID /\ cl_expires_at (snd kc) <= unix_seconds now))
       (pending_pairing_claims db)) db.

Definition SubmitPairingClaim (routeID claimID capabilityHash sealedClaim : string) (now ttl : Z)
  (db : Store) : answer unit :=
  let db' := expire_claims routeID now db in
  match pending_pairing_claims db' !! (routeID, claimID) with
  | Some c =>
      if bool_decide (capability_hash c = capabilityHash) && bool_decide (sealed_claim c = sealedClaim)
      then (inr tt, db')
      else (inl ErrPairingClaimConflict, db)
  | None =>
      (inr tt,
       match active_route db' routeID with
       | Some _ =>
           set_claims (<[(routeID, claimID) :=
             mkClaim capabilityHash sealedClaim None pending (unix_seconds (now + ttl)) None]>
               (pending_pairing_claims db')) db'
       | None => db'
       end)
  end.

(** The [state IN (...)] condition lists every state. *)
Definition VerifyPairingCapability (routeID claimID capability : string) (db : Store) : bool :=
  match pending_pairing_claims db !! (routeID, claimID) with
  | None => false
  | Some c => VerifyCredential (capability_hash c) capability
  end.

(** [ORDER BY claim_id]: the byte order of the text. *)
Definition claim_id_le (a b : PairingClaim) : Prop := String.leb (pc_ClaimID a) (pc_ClaimID b) = true.
#[local] Instance claim_id_le_dec a b : Decision (claim_id_le a b).
Proof. unfold claim_id_le. apply _. Defined.

Definition PendingClaims (routeID : string) (now : Z) (db : Store) : list PairingClaim * Store :=
  let db := expire_claims routeID now db in
  (merge_sort claim_id_le
     (map (fun kc => mkPairingClaim (snd (fst kc)) (sealed_claim (snd kc)) (sealed_result (snd kc))
                       (state (snd kc)))
        (filter (fun kc => fst (fst kc) = routeID /\ unix_seconds now < cl_expires_at (snd kc) /\
                           state (snd kc) <> consumed)
           (map_to_list (pending_pairing_claims db)))), db).

Definition CompletePairingClaim (routeID claimID : string) (newState : claim_state)
  (sealedResult : option string) (db : Store) : answer unit :=
  if negb (bool_decide (newState = approved)) && negb (bool_decide (newState = rejected))
  then (inl ErrInvalidClaimState, db)
  else
    match pending_pairing_claims db !! (routeID, claimID) with
    | Some c =>
        if decide (state c = pending) then
          (inr tt, set_claims (<[(routeID, claimID) :=
             mkClaim (capability_hash c) (sealed_claim c) sealedResult newState (cl_expires_at c)
               (consumed_at c)]> (pending_pairing_claims db)) db)
        else (inl ErrPendingClaimNotFound, db)
    | None => (inl ErrPendingClaimNotFound, db)
    end.

(** [GetPairingResult] does not read the sealed claim. *)
Definition GetPairingResult (routeID claimID : string) (now : Z) (db : Store)
  : store_error + PairingClaim :=
  match pending_pairing_claims db !! (routeID, claimID) with
  | Some c =>
      if decide (unix_seconds now < cl_expires_at c /\ consumed_at c = None)
      then inr (mkPairingClaim claimID "" (sealed_result c) (state c))
      else inl ErrNoRows
  | None => inl ErrNoRows
  end.

Definition ConsumePairingResult (routeID claimID : string) (now : Z) (db : Store) : Store :=
  match pending_pairing_claims db !! (routeID, claimID) with
  | Some c =>
      if decide ((state c = approved \/ state c = rejected) /\ consumed_at c = None) then
        set_claims (<[(routeID, claimID) :=
          mkClaim (capability_hash c) (sealed_claim c) (sealed_result c) consumed (cl_expires_at c)
            (Some (unix_seconds now))]> (pending_pairing_claims db)) db
      else db
  | None => db
  end.
End store.

(** ** Executions *)

(** One call that may change the database, with its arguments. *)
Inductive op : Type :=
| OCreateRoute (routeID auth : string) (now : Z)
| OActivateRoute (installID publicKey bridgeAuth newRouteID : string) (now : Z)
| OAuthenticateBridge (routeID credential : string) (now : Z)
| ORegisterDevice (routeID deviceID auth : string) (now : Z)
| OAuthenticateDevice (routeID deviceID credential : string) (now : Z)
| ORevokeDevice (routeID deviceID : string) (now : Z)
| OAppendFrame (routeID deviceID env : string) (now ttl maxBytes : Z)
| OFetchFrames (routeID deviceID : string) (after limit now : Z)
| OAckFrames (routeID deviceID : string) (through now : Z)
| OExpireFrames (now : Z)
| OSubmitPairingClaim (routeID claimID capabilityHash sealedClaim : string) (now ttl : Z)
| OPendingClaims (routeID : string) (now : Z)
| OCompletePairingClaim (routeID claimID : string) (newState : claim_state)
    (sealedResult : option string)
| OConsumePairingResult (routeID claimID : string) (now : Z).

Definition exec (digest : string -> string) (o : op) (db : Store) : Store :=
  match o with
  | OCreateRoute r a now => snd (CreateRoute digest r a now db)
  | OActivateRoute i pk a r now => snd (ActivateRoute digest i pk a r now db)
  | OAuthenticateBridge r c now => snd (AuthenticateBridge digest r c now db)
  | ORegisterDevice r d a now => snd (RegisterDevice digest r d a now db)
  | OAuthenticateDevice r d c now => snd (AuthenticateDevice digest r d c now db)
  | ORevokeDevice r d now => snd (RevokeDevice r d now db)
  | OAppendFrame r d e now ttl mb => snd (AppendFrame r d e now ttl mb db)
  | OFetchFrames r d after limit now => snd (FetchFrames r d after limit now db)
  | OAckFrames r d through now => AckFrames r d through now db
  | OExpireFrames now => snd (ExpireFrames now db)
  | OSubmitPairingClaim r c h sc now ttl => snd (SubmitPairingClaim r c h sc now ttl db)
  | OPendingClaims r now => snd (PendingClaims r now db)
  | OCompletePairingClaim r c st res => snd (CompletePairingClaim r c st res db)
  | OConsumePairingResult r c now => ConsumePairingResult r c now db
  end.

Definition run (digest : string -> string) (ops : list op) (db : Store) : Store :=
  fold_left (fun db o => exec digest o db) ops db.

(** The cursors [AppendFrame] answered for one mailbox along an execution. *)
Fixpoint cursors_given (digest : string -> string) (r d : string) (ops : list op) (db : Store)
  : list Z :=
  match ops with
  | [] => []
  | o :: ops =>
      match o with
      | OAppendFrame r' d' e now ttl mb =>
          match fst (AppendFrame r' d' e now ttl mb db) with
          | inr (c, _) => if decide ((r', d') = (r, d)) then [c] else []
          | inl _ => []
          end
      | _ => []
      end ++ cursors_given digest r d ops (exec digest o db)
  end.

(** What the store keeps for one mailbox: rows in cursor order with their true
    sizes, all below the device's next cursor. *)
Record mailbox_ok (db : Store) (r d : string) : Prop := mkMailboxOk {
  mb_sorted : StronglySorted Z.lt (map cursor (mailbox db r d));
  mb_sizes : Forall (fun f => envelope_size f = Z.of_nat (String.length (envelope f)))
               (mailbox db r d);
  mb_device : forall f, f ∈ mailbox db r d ->
    exists dev, route_devices db !! (r, d) = Some dev /\ cursor f < next_cursor dev
}.

Definition store_ok (db : Store) : Prop := forall r d, mailbox_ok db r d.

(** The clock a call reads (the decision on a claim reads none). *)
Definition op_now (o : op) : Z :=
  match o with
  | OCreateRoute _ _ now | OActivateRoute _ _ _ _ now | OAuthenticateBridge _ _ now
  | ORegisterDevice _ _ _ now | OAuthenticateDevice _ _ _ now | ORevokeDevice _ _ now
  | OAppendFrame _ _ _ now _ _ | OFetchFrames _ _ _ _ now | OAckFrames _ _ _ now
  | OExpireFrames now | OSubmitPairingClaim _ _ _ _ now _ | OPendingClaims _ now
  | OConsumePairingResult _ _ now => now
  | OCompletePairingClaim _ _ _ _ => 0
  end.

(** The lifecycle of a claim row under a call at time [now]: created pending,
    decided once, consumed once, dropped or replaced only when expired. *)
Inductive claim_edge (now : Z) : option claim_row -> option claim_row -> Prop :=
| ce_same x : claim_edge now x x
| ce_new h sc e : claim_edge now None (Some (mkClaim h sc None pending e None))
| ce_decide h sc r0 e co st res : (st = approved \/ st = rejected) ->
    claim_edge now (Some (mkClaim h sc r0 pending e co)) (Some (mkClaim h sc res st e co))
| ce_consume h sc res st e : (st = approved \/ st = rejected) ->
    claim_edge now (Some (mkClaim h sc res st e None))
      (Some (mkClaim h sc res consumed e (Some (unix_seconds now))))
| ce_drop c : cl_expires_at c <= unix_seconds now -> claim_edge now (Some c) None
| ce_replace c h sc e : cl_expires_at c <= unix_seconds now ->
    claim_edge now (Some c) (Some (mkClaim h sc None pending e None)).

(** ** Lemmas: mailboxes *)

Lemma mailbox_set r d fs db r' d' :
  mailbox (set_mailbox r d fs db) r' d' = if decide ((r', d') = (r, d)) then fs else mailbox db r' d'.
Proof.
  unfold mailbox, set_mailbox. simpl. destruct (decide ((r', d') = (r, d))) as [[= -> ->]|Hne].
  - by rewrite lookup_insert_eq.
  - by rewrite lookup_insert_ne.
Qed.

Lemma StronglySorted_sublist {A : Type} (R : A -> A -> Prop) l k :
  l `sublist_of` k -> StronglySorted R k -> StronglySorted R l.
Proof.
  induction 1 as [|x l k Hs IH|x l k Hs IH]; intros Hk; [done| |];
    apply StronglySorted_inv in Hk as [Hk Hx]; [|auto].
  constructor; [auto|]. rewrite Forall_forall in Hx |- *.
  intros y Hy. apply Hx. by eapply elem_of_sublist.
Qed.

(** A mailbox that lost rows is still in order. *)
Lemma mailbox_ok_sublist db db' r d :
  mailbox_ok db r d -> mailbox db' r d `sublist_of` mailbox db r d ->
  route_devices db' !! (r, d) = route_devices db !! (r, d) -> mailbox_ok db' r d.
Proof.
  intros [Hs Hz Hd] Hsub Hdev. split.
  - eapply StronglySorted_sublist; [|exact Hs].
    change (map cursor ?l) with (cursor <$> l). by apply fmap_sublist.
  - rewrite Forall_forall in Hz |- *. intros f Hf. apply Hz. by eapply elem_of_sublist.
  - intros f Hf. rewrite Hdev. apply Hd. by eapply elem_of_sublist.
Qed.

(** Two databases that agree on a mailbox and on the cursor of its device. *)
Lemma mailbox_ok_same db db' r d :
  mailbox_ok db r d -> mailbox db' r d = mailbox db r d ->
  (next_cursor <$> route_devices db' !! (r, d)) = (next_cursor <$> route_devices db !! (r, d)) ->
  mailbox_ok db' r d.
Proof.
  intros [Hs Hz Hd] Hmb Hdev. split; rewrite ?Hmb; try done.
  intros f Hf. destruct (Hd f Hf) as (dev & Hl & Hc). rewrite Hl in Hdev.
  destruct (route_devices db' !! (r, d)) as [dev'|]; [|done].
  injection Hdev as Hdev. exists dev'. split; [done|]. lia.
Qed.

Lemma evict_loop_spec cur need mb fs :
  Forall unacked fs -> Forall (fun f => 0 <= envelope_size f) fs ->
  cur = sum_with envelope_size fs -> need <= mb ->
  exists dropped kept,
    evict_loop cur need mb fs = Some (kept, zlen dropped) /\ fs = dropped ++ kept /\
    sum_with envelope_size kept + need <= mb /\
    (forall dr x, dropped = dr ++ [x] ->
       mb < envelope_size x + sum_with envelope_size kept + need).
Proof.
  intros Hu. revert cur. induction Hu as [|f fs Hf Hu IH]; intros cur Hsz Hc Hn; simpl in *.
  - subst. destruct (Z.gtb_spec (0 + need) mb); [lia|]. exists [], []. simpl. repeat split; try lia.
    intros dr x. by destruct dr.
  - apply Forall_cons in Hsz as [Hfz Hsz]. case_if; zprop.
    + rewrite decide_True by done.
      destruct (IH (cur - envelope_size f) Hsz) as (dr & kp & -> & Hfs & Hle & Hmin); [lia|lia|].
      exists (f :: dr), kp. cbn [mbind option_bind]. repeat split.
      * f_equal. f_equal. simpl length. lia.
      * by rewrite Hfs.
      * done.
      * intros dr' x. destruct dr' as [|y dr']; simpl; intros [= <- Hdr]; [|eauto].
        subst dr. simpl in Hfs. subst fs. lia.
    + exists [], (f :: fs). simpl. repeat split; try lia. intros dr x. by destruct dr.
Qed.

Lemma insert_frame_last f fs :
  Forall (fun g => cursor g < cursor f) fs -> insert_frame f fs = Some (fs ++ [f]).
Proof.
  induction 1 as [|g fs Hg _ IH]; simpl; [done|].
  destruct (Z.ltb_spec (cursor f) (cursor g)); [lia|].
  destruct (Z.eqb_spec (cursor f) (cursor g)); [lia|]. by rewrite IH.
Qed.

Lemma filter_live_unacked now (fs : list frame_row) : filter unacked (filter (live now) fs) = filter (live now) fs.
Proof.
  apply filter_all, Forall_forall. intros f Hf. apply list_elem_of_filter in Hf.
  destruct Hf as [[_ Hf] _]. done.
Qed.

(** What [AppendFrame] does on a well-formed mailbox of an active device. *)
Lemma AppendFrame_effect r d env now ttl mb db dev :
  mailbox_ok db r d -> active_device db r d = Some dev ->
  Z.of_nat (String.length env) <= mb ->
  exists dropped kept,
    let row := mkFrame (next_cursor dev) env (Z.of_nat (String.length env)) (unix_seconds now)
                 (unix_seconds (now + ttl)) None in
    filter (live now) (mailbox db r d) = dropped ++ kept /\
    AppendFrame r d env now ttl mb db =
      (inr (next_cursor dev, zlen dropped),
       set_devices (<[(r, d) := mkDevice (device_auth_hash dev) (dv_created_at dev)
         (dv_revoked_at dev) (last_seen_at dev) (next_cursor dev + 1)]> (route_devices db))
         (set_mailbox r d (kept ++ [row]) db)) /\
    sum_with envelope_size (kept ++ [row]) <= mb /\
    (forall dr x, dropped = dr ++ [x] -> mb < envelope_size x + sum_with envelope_size (kept ++ [row])).
Proof.
  intros [Hs Hz Hd] Hdev Hlen.
  assert (route_devices db !! (r, d) = Some dev) as Hrow.
  { unfold active_device in Hdev. destruct (route_devices db !! (r, d)) as [dev0|]; [|done].
    simpl in Hdev. destruct (active_route db r); [|done]. simpl in Hdev.
    destruct (dv_revoked_at dev0); [done|]. by injection Hdev as ->. }
  set (fs := filter (live now) (mailbox db r d)).
  assert (forall f, f ∈ fs -> f ∈ mailbox db r d /\ live now f) as Hin.
  { intros f Hf. apply list_elem_of_filter in Hf. by destruct Hf. }
  destruct (evict_loop_spec (sum_with envelope_size fs) (Z.of_nat (String.length env)) mb fs)
    as (dr & kp & He & Hfs & Hle & Hmin); try done.
  { apply Forall_forall. intros f Hf. apply (Hin f Hf). }
  { apply Forall_forall. intros f Hf. destruct (Hin f Hf) as [Hf' _].
    rewrite Forall_forall in Hz. rewrite (Hz f Hf'). lia. }
  exists dr, kp. cbv zeta. split; [exact Hfs|].
  unfold AppendFrame. rewrite Hdev. destruct (Z.gtb_spec (Z.of_nat (String.length env)) mb); [lia|].
  fold fs. unfold fs at 1. rewrite filter_live_unacked. fold fs. rewrite He.
  rewrite insert_frame_last.
  - split; [done|]. rewrite !sum_with_app. simpl. split; [lia|].
    intros dr' x Hx. specialize (Hmin dr' x Hx). lia.
  - apply Forall_forall. intros f Hf. simpl.
    destruct (Hd f) as (dev' & Hdev' & Hc).
    { apply (Hin f). rewrite Hfs. apply elem_of_app. by right. }
    rewrite Hrow in Hdev'. by injection Hdev' as ->.
Qed.

(** The device row and the mailbox of [(r, d)] in [db'] are those of [db], up to
    fields other than the cursor, and possibly fewer frames. *)
Definition mailbox_le (db' db : Store) (r d : string) : Prop :=
  mailbox db' r d `sublist_of` mailbox db r d /\
  (next_cursor <$> route_devices db' !! (r, d)) = (next_cursor <$> route_devices db !! (r, d)).

Lemma mailbox_ok_le db db' r d : mailbox_ok db r d -> mailbox_le db' db r d -> mailbox_ok db' r d.
Proof.
  intros [Hs Hz Hd] [Hsub Hdev]. split.
  - eapply StronglySorted_sublist; [|exact Hs].
    change (map cursor ?l) with (cursor <$> l). by apply fmap_sublist.
  - rewrite Forall_forall in Hz |- *. intros f Hf. apply Hz. by eapply elem_of_sublist.
  - intros f Hf. destruct (Hd f) as (dev & Hl & Hc); [by eapply elem_of_sublist|].
    rewrite Hl in Hdev. destruct (route_devices db' !! (r, d)) as [dev'|]; [|done].
    injection Hdev as Hdev. exists dev'. split; [done|]. lia.
Qed.

Lemma mailbox_le_refl db r d : mailbox_le db db r d.
Proof. done. Qed.

(** Writing a device row without moving its cursor. *)
Lemma next_cursor_insert (m : gmap (string * string) device_row) k k' v dev :
  m !! k = Some dev -> next_cursor v = next_cursor dev ->
  next_cursor <$> <[k := v]> m !! k' = next_cursor <$> m !! k'.
Proof.
  intros Hk Hv. destruct (decide (k' = k)) as [->|Hne].
  - by rewrite lookup_insert_eq, Hk; simpl; rewrite Hv.
  - by rewrite lookup_insert_ne.
Qed.

Lemma active_device_row db r d dev :
  active_device db r d = Some dev ->
  route_devices db !! (r, d) = Some dev /\ dv_revoked_at dev = None /\ is_Some (active_route db r).
Proof.
  unfold active_device. destruct (route_devices db !! (r, d)) as [dev0|]; [|done]. simpl.
  destruct (active_route db r); [|done]. simpl.
  destruct (dv_revoked_at dev0) eqn:E; [done|]. intros [= <-]. eauto.
Qed.

Lemma ack_row_fields t now f :
  cursor (ack_row t now f) = cursor f /\ envelope_size (ack_row t now f) = envelope_size f /\
  envelope (ack_row t now f) = envelope f.
Proof. unfold ack_row. by case_if. Qed.

Lemma mailbox_ok_ack db r d t now r' d' :
  mailbox_ok db r' d' -> mailbox_ok (AckFrames r d t now db) r' d'.
Proof.
  intros [Hs Hz Hd]. unfold AckFrames.
  destruct (decide ((r', d') = (r, d))) as [[= -> ->]|Hne].
  - split; rewrite mailbox_set, decide_True by done.
    + rewrite map_map. erewrite map_ext; [exact Hs|]. intros f. apply ack_row_fields.
    + apply Forall_map. eapply Forall_impl; [exact Hz|]. intros f Hf. simpl.
      destruct (ack_row_fields t now f) as (_ & -> & ->). done.
    + intros f Hf. change (map (ack_row t now) ?l) with (ack_row t now <$> l) in Hf.
      apply list_elem_of_fmap in Hf as (g & -> & Hg).
      destruct (ack_row_fields t now g) as (-> & _). by apply Hd.
  - apply (mailbox_ok_same db); [done| |done]. by rewrite mailbox_set, decide_False.
Qed.

(** [AppendFrame] either fails and changes nothing or appends past every row. *)
Lemma AppendFrame_cases r d env now ttl mb db :
  mailbox_ok db r d ->
  (exists e, AppendFrame r d env now ttl mb db = (inl e, db)) \/
  (exists dev, active_device db r d = Some dev /\ Z.of_nat (String.length env) <= mb).
Proof.
  intros Hok. destruct (Z.le_gt_cases (Z.of_nat (String.length env)) mb) as [Hle|Hgt].
  - destruct (active_device db r d) as [dev|] eqn:E; [right; eauto|]. left.
    unfold AppendFrame. rewrite E. case_if; eauto.
  - left. unfold AppendFrame. destruct (Z.gtb_spec (Z.of_nat (String.length env)) mb); [eauto|lia].
Qed.

Lemma mailbox_ok_append r d env now ttl mb db r' d' :
  store_ok db -> mailbox_ok (snd (AppendFrame r d env now ttl mb db)) r' d'.
Proof.
  intros Hok. destruct (AppendFrame_cases r d env now ttl mb db (Hok r d)) as [[e ->]|(dev & Hdev & Hle)];
    [apply Hok|].
  destruct (AppendFrame_effect r d env now ttl mb db dev (Hok r d) Hdev Hle)
    as (dr & kp & Hfs & -> & _). simpl.
  destruct (active_device_row _ _ _ _ Hdev) as (Hrow & _ & _).
  destruct (decide ((r', d') = (r, d))) as [[= -> ->]|Hne].
  - assert (kp `sublist_of` mailbox db r d) as Hsub.
    { transitivity (filter (live now) (mailbox db r d)); [|apply sublist_filter].
      rewrite Hfs. by apply sublist_inserts_l. }
    destruct (Hok r d) as [Hs Hz Hd].
    assert (forall f, f ∈ kp -> cursor f < next_cursor dev) as Hlt.
    { intros f Hf. destruct (Hd f) as (dev' & Hdev' & Hc); [by eapply elem_of_sublist|].
      rewrite Hrow in Hdev'. by injection Hdev' as <-. }
    split; unfold mailbox; simpl; rewrite !lookup_insert_eq; simpl.
    + rewrite map_app. simpl. apply StronglySorted_app_2.
      * intros x y Hx Hy. apply list_elem_of_singleton in Hy as ->.
        apply list_elem_of_In, in_map_iff in Hx as (f & <- & Hf).
        apply Hlt. by apply list_elem_of_In.
      * eapply StronglySorted_sublist; [|exact Hs].
        change (map cursor ?l) with (cursor <$> l). by apply fmap_sublist.
      * repeat constructor.
    + apply Forall_app. split; [|by repeat constructor].
      rewrite Forall_forall in Hz |- *. intros f Hf. apply Hz. by eapply elem_of_sublist.
    + intros f Hf. eexists. split; [done|]. simpl. apply elem_of_app in Hf as [Hf|Hf].
      * specialize (Hlt f Hf). lia.
      * apply list_elem_of_singleton in Hf as ->. simpl. lia.
  - apply (mailbox_ok_same db); [apply Hok| |].
    + unfold mailbox. simpl. by rewrite lookup_insert_ne by done.
    + simpl. by rewrite lookup_insert_ne.
Qed.

(** Calls that leave the frame rows of every mailbox in place, or delete some. *)
Lemma mailbox_le_fetch r d after limit now db r' d' :
  mailbox_le (snd (FetchFrames r d after limit now db)) db r' d'.
Proof.
  split; [|done]. simpl. rewrite mailbox_set. case_decide as E; [|done].
  injection E as -> ->. apply sublist_filter.
Qed.

Lemma mailbox_le_revoke r d now db r' d' : mailbox_le (snd (RevokeDevice r d now db)) db r' d'.
Proof.
  unfold RevokeDevice. destruct (route_devices db !! (r, d)) as [dev|] eqn:E; [|done].
  destruct (dv_revoked_at dev); [done|]. split; simpl.
  - unfold mailbox. simpl. destruct (decide ((r', d') = (r, d))) as [[= -> ->]|Hne].
    + rewrite lookup_delete_eq. apply sublist_nil_l.
    + by rewrite lookup_delete_ne.
  - by eapply next_cursor_insert.
Qed.

Lemma mailbox_expire now db r d :
  mailbox (snd (ExpireFrames now db)) r d = filter (live now) (mailbox db r d).
Proof.
  unfold mailbox. simpl. rewrite lookup_fmap. by destruct (mailbox_frames db !! (r, d)).
Qed.

Lemma mailbox_le_expire now db r d : mailbox_le (snd (ExpireFrames now db)) db r d.
Proof. split; [|done]. rewrite mailbox_expire. apply sublist_filter. Qed.

Section exec.
Context (digest : string -> string).

Lemma mailbox_le_auth r d c now db r' d' :
  mailbox_le (snd (AuthenticateDevice digest r d c now db)) db r' d'.
Proof.
  unfold AuthenticateDevice. destruct (active_device db r d) as [dev|] eqn:E; [|done].
  case_if; [|done]. split; [done|]. simpl. apply (next_cursor_insert _ _ _ _ dev); [|done].
  by apply active_device_row in E as (? & _).
Qed.

Lemma mailbox_ok_register r d a now db r' d' :
  mailbox_ok db r' d' -> mailbox_ok (snd (RegisterDevice digest r d a now db)) r' d'.
Proof.
  intros [Hs Hz Hd]. unfold RegisterDevice. destruct (active_route db r); [|done].
  split; simpl; try done. intros f Hf. destruct (Hd f Hf) as (dev & Hl & Hc).
  destruct (decide ((r', d') = (r, d))) as [[= -> ->]|Hne].
  - rewrite lookup_insert_eq, Hl. eexists. by split.
  - rewrite lookup_insert_ne by done. eauto.
Qed.

(** The remaining calls touch neither table. *)
Lemma frames_untouched o db :
  match o with
  | OCreateRoute _ _ _ | OActivateRoute _ _ _ _ _ | OAuthenticateBridge _ _ _
  | OSubmitPairingClaim _ _ _ _ _ _ | OPendingClaims _ _ | OCompletePairingClaim _ _ _ _
  | OConsumePairingResult _ _ _ =>
      mailbox_frames (exec digest o db) = mailbox_frames db /\
      route_devices (exec digest o db) = route_devices db
  | _ => True
  end.
Proof.
  destruct o; simpl; try done.
  - unfold CreateRoute. by case_match.
  - unfold ActivateRoute. repeat case_match; done.
  - unfold AuthenticateBridge. repeat case_match; done.
  - unfold SubmitPairingClaim. repeat case_match; done.
  - unfold CompletePairingClaim. repeat case_match; done.
  - unfold ConsumePairingResult. repeat case_match; done.
Qed.

Lemma store_ok_exec o db : store_ok db -> store_ok (exec digest o db).
Proof.
  intros Hok r d. specialize (Hok r d) as Hrd. pose proof (frames_untouched o db) as Hu.
  assert (forall db', mailbox_frames db' = mailbox_frames db -> route_devices db' = route_devices db ->
    mailbox_ok db' r d) as Hsame.
  { intros db' Hf Hd. apply (mailbox_ok_same db); [done| |by rewrite Hd].
    unfold mailbox. by rewrite Hf. }
  destruct o; cbn [exec] in *;
    try (match type of Hu with _ /\ _ => destruct Hu end; by apply Hsame).
  - by apply mailbox_ok_register.
  - eapply mailbox_ok_le; [done|apply mailbox_le_auth].
  - eapply mailbox_ok_le; [done|apply mailbox_le_revoke].
  - by apply mailbox_ok_append.
  - eapply mailbox_ok_le; [done|apply mailbox_le_fetch].
  - by apply mailbox_ok_ack.
  - eapply mailbox_ok_le; [done|apply mailbox_le_expire].
Qed.

Lemma store_ok_empty : store_ok empty_store.
Proof. intros r d. by split; simpl; try constructor; intros f ?%list_elem_of_In. Qed.

Lemma store_ok_run ops db : store_ok db -> store_ok (run digest ops db).
Proof. revert db. induction ops as [|o ops IH]; intros db Hok; [done|]. apply IH, store_ok_exec, Hok. Qed.

(** No call lowers the next cursor of a device. *)
Lemma next_cursor_mono o db r d dev :
  store_ok db -> route_devices db !! (r, d) = Some dev ->
  exists dev', route_devices (exec digest o db) !! (r, d) = Some dev' /\
    next_cursor dev <= next_cursor dev'.
Proof.
  intros Hok Hl. pose proof (frames_untouched o db) as Hu.
  assert (forall db', mailbox_le db' db r d -> exists dev', route_devices db' !! (r, d) = Some dev' /\
    next_cursor dev <= next_cursor dev') as Hle.
  { intros db' [_ Hn]. rewrite Hl in Hn. destruct (route_devices db' !! (r, d)) as [dev'|]; [|done].
    injection Hn as Hn. exists dev'. split; [done|lia]. }
  destruct o; cbn [exec] in *; try (match type of Hu with _ /\ _ => destruct Hu as [Hu1 Hu2]; rewrite Hu2 end; eauto with lia);
    try (apply Hle; first [apply mailbox_le_auth|apply mailbox_le_revoke|apply mailbox_le_fetch
                          |apply mailbox_le_expire]); try (eexists; split; [done|lia]).
  - unfold RegisterDevice. destruct (active_route db routeID); [|eauto with lia]. simpl.
    destruct (decide ((r, d) = (routeID, deviceID))) as [[= -> ->]|Hne].
    + rewrite lookup_insert_eq, Hl. eexists. split; [done|simpl; lia].
    + rewrite lookup_insert_ne by done. eauto with lia.
  - destruct (AppendFrame_cases routeID deviceID env now ttl maxBytes db (Hok _ _))
      as [[e ->]|(dev0 & Hdev & Hlen)]; [eauto with lia|].
    destruct (AppendFrame_effect _ _ _ now ttl _ _ _ (Hok _ _) Hdev Hlen) as (? & ? & _ & -> & _).
    simpl. destruct (decide ((r, d) = (routeID, deviceID))) as [[= -> ->]|Hne].
    + rewrite lookup_insert_eq. apply active_device_row in Hdev as (Hdev & _).
      rewrite Hl in Hdev. injection Hdev as ->. eexists. split; [done|simpl; lia].
    + rewrite lookup_insert_ne by done. eauto with lia.
Qed.

Lemma cursors_given_ge r d ops db dev :
  store_ok db -> route_devices db !! (r, d) = Some dev ->
  Forall (fun c => next_cursor dev <= c) (cursors_given digest r d ops db).
Proof.
  revert db dev. induction ops as [|o ops IH]; intros db dev Hok Hl; [constructor|].
  destruct (next_cursor_mono o db r d dev Hok Hl) as (dev' & Hl' & Hle).
  cbn [cursors_given]. apply Forall_app. split.
  - destruct o; try constructor.
    destruct (AppendFrame_cases routeID deviceID env now ttl maxBytes db (Hok _ _))
      as [[e ->]|(dev0 & Hdev & Hlen)]; [constructor|].
    destruct (AppendFrame_effect _ _ _ now ttl _ _ _ (Hok _ _) Hdev Hlen) as (? & ? & _ & -> & _).
    simpl. case_decide as E; [|constructor]. injection E as -> ->.
    apply active_device_row in Hdev as (Hdev & _). rewrite Hl in Hdev. injection Hdev as ->.
    by repeat constructor.
  - eapply Forall_impl; [eapply IH; [by apply store_ok_exec|exact Hl']|]. simpl. lia.
Qed.

Lemma cursors_given_sorted r d ops db :
  store_ok db -> StronglySorted Z.lt (cursors_given digest r d ops db).
Proof.
  revert db. induction ops as [|o ops IH]; intros db Hok; [constructor|].
  pose proof (IH _ (store_ok_exec o db Hok)) as Hs. cbn [cursors_given].
  destruct o; try exact Hs.
  destruct (AppendFrame_cases routeID deviceID env now ttl maxBytes db (Hok _ _))
    as [[e He]|(dev0 & Hdev & Hlen)]; [rewrite He; exact Hs|].
  destruct (AppendFrame_effect _ _ _ now ttl _ _ _ (Hok _ _) Hdev Hlen) as (dr & kp & _ & He & _).
  rewrite He. cbn [fst]. case_decide as E; [|exact Hs]. injection E as -> ->.
  constructor; [exact Hs|].
  eapply Forall_impl; [eapply cursors_given_ge; [by apply store_ok_exec|]|].
  - cbn [exec]. rewrite He. simpl. by rewrite lookup_insert_eq.
  - simpl. lia.
Qed.
End exec.

(** ** Lemmas: revocation *)

(** A revoked device with an empty mailbox. *)
Definition revoked (db : Store) (r d : string) : Prop :=
  mailbox db r d = [] /\
  exists dev, route_devices db !! (r, d) = Some dev /\ dv_revoked_at dev <> None.

Lemma revoked_inactive db r d : revoked db r d -> active_device db r d = None.
Proof.
  intros [_ (dev & Hl & Hr)]. destruct (active_device db r d) as [dev'|] eqn:E; [|done].
  apply active_device_row in E as (Hl' & Hn & _). congruence.
Qed.

Lemma revoked_exec digest o db r d :
  revoked db r d -> (forall a now, o <> ORegisterDevice r d a now) -> revoked (exec digest o db) r d.
Proof.
  intros Hrev Hno. pose proof (revoked_inactive _ _ _ Hrev) as Hina.
  pose proof (frames_untouched digest o db) as Hu.
  destruct Hrev as [Hmb (dev & Hl & Hr)] eqn:Hreveq.
  assert (forall db', mailbox db' r d `sublist_of` mailbox db r d ->
    route_devices db' !! (r, d) = route_devices db !! (r, d) -> revoked db' r d) as Hgo.
  { intros db' Hsub Hd. rewrite Hmb in Hsub. split; [by apply sublist_nil_r|].
    rewrite Hd. eauto. }
  destruct o; cbn [exec] in *;
    try (match type of Hu with _ /\ _ => destruct Hu as [Hu1 Hu2] end;
         apply Hgo; [unfold mailbox; by rewrite Hu1|by rewrite Hu2]).
  - unfold RegisterDevice. destruct (active_route db routeID); [|done]. apply Hgo; [done|]. simpl.
    rewrite lookup_insert_ne; [done|]. intros [= -> ->]. by eapply Hno.
  - unfold AuthenticateDevice. destruct (active_device db routeID deviceID) as [dv|] eqn:E; [|done].
    case_if; [|done]. apply Hgo; [done|]. simpl. rewrite lookup_insert_ne; [done|]. congruence.
  - unfold RevokeDevice. destruct (route_devices db !! (routeID, deviceID)) as [dv|] eqn:E; [|done].
    destruct (dv_revoked_at dv) eqn:E'; [done|].
    assert ((routeID, deviceID) <> (r, d)) by congruence.
    apply Hgo; simpl; [|by rewrite lookup_insert_ne].
    unfold mailbox. simpl. by rewrite lookup_delete_ne.
  - unfold AppendFrame. case_if; [done|].
    destruct (active_device db routeID deviceID) as [dv|] eqn:E; [|done].
    case_match; [|done]. case_match. case_match; [|done].
    assert ((routeID, deviceID) <> (r, d)) by congruence.
    apply Hgo; simpl; [|by rewrite lookup_insert_ne].
    unfold mailbox. simpl. by rewrite lookup_insert_ne.
  - apply Hgo; [|done]. apply mailbox_le_fetch.
  - apply Hgo; [|done]. unfold AckFrames. rewrite mailbox_set. case_decide as E; [|done].
    injection E as -> ->. by rewrite Hmb.
  - apply Hgo; [|done]. apply mailbox_le_expire.
Qed.

Lemma revoked_run digest ops db r d :
  revoked db r d -> Forall (fun o => forall a now, o <> ORegisterDevice r d a now) ops ->
  revoked (run digest ops db) r d.
Proof.
  intros Hrev Hops. revert db Hrev. induction Hops as [|o ops Ho _ IH]; intros db Hrev; [done|].
  apply IH. by apply revoked_exec.
Qed.

(** ** Lemmas: routes are never revoked *)

Definition routes_ok (db : Store) : Prop :=
  (forall r row, routes db !! r = Some row -> rt_revoked_at row = None) /\
  (forall i a, route_activations db !! i = Some a -> is_Some (routes db !! act_route_id a)).

Lemma routes_ok_insert db r row :
  routes_ok db -> rt_revoked_at row = None -> routes_ok (set_routes (<[r := row]> (routes db)) db).
Proof.
  intros [H1 H2] Hrow. split; simpl.
  - intros r' row'. destruct (decide (r' = r)) as [->|Hne].
    + rewrite lookup_insert_eq. by intros [= <-].
    + rewrite lookup_insert_ne by done. apply H1.
  - intros i a Ha. destruct (decide (act_route_id a = r)) as [->|Hne].
    + rewrite lookup_insert_eq. eauto.
    + rewrite lookup_insert_ne by done. eauto.
Qed.

Lemma active_route_ok db r row : routes_ok db -> routes db !! r = Some row -> active_route db r = Some row.
Proof. intros [H1 _] Hr. unfold active_route. rewrite Hr. simpl. by rewrite (H1 r row Hr). Qed.

Lemma active_route_row db r row :
  active_route db r = Some row -> routes db !! r = Some row /\ rt_revoked_at row = None.
Proof.
  unfold active_route. destruct (routes db !! r) as [row0|]; [|done]. simpl.
  destruct (rt_revoked_at row0) eqn:E; [done|]. intros [= <-]. done.
Qed.

Lemma routes_ok_activate digest i pk a r now db :
  routes_ok db -> routes_ok (snd (ActivateRoute digest i pk a r now db)).
Proof.
  intros Hok. unfold ActivateRoute. destruct (route_activations db !! i) as [act|].
  - case_if; [|done]. simpl. destruct (active_route db (act_route_id act)) as [row|] eqn:E; [|done].
    apply routes_ok_insert; [done|]. by apply active_route_row in E as [_ ?].
  - destruct (routes db !! r) eqn:E; [done|]. case_if; [done|]. simpl.
    destruct (routes_ok_insert db r (mkRoute (CredentialDigest digest a) (unix_seconds now) None None))
      as [H1 H2]; [done|done|]. split; [exact H1|]. simpl in *.
    intros j b. destruct (decide (j = i)) as [->|Hne].
    + rewrite lookup_insert_eq. intros [= <-]. simpl. rewrite lookup_insert_eq. eauto.
    + rewrite lookup_insert_ne by done. apply H2.
Qed.

Lemma routes_ok_exec digest o db : routes_ok db -> routes_ok (exec digest o db).
Proof.
  intros Hok. destruct o; cbn [exec]; try exact Hok.
  - unfold CreateRoute. case_match; [done|]. by apply routes_ok_insert.
  - by apply routes_ok_activate.
  - unfold AuthenticateBridge. destruct (active_route db routeID) as [row|] eqn:E; [|done].
    case_if; [|done]. apply routes_ok_insert; [done|]. by apply active_route_row in E as [_ ?].
  - unfold RegisterDevice. by case_match.
  - unfold AuthenticateDevice. repeat case_match; done.
  - unfold RevokeDevice. repeat case_match; done.
  - unfold AppendFrame. repeat case_match; done.
  - unfold SubmitPairingClaim. repeat case_match; done.
  - unfold CompletePairingClaim. repeat case_match; done.
  - unfold ConsumePairingResult. repeat case_match; done.
Qed.

Lemma routes_ok_run digest ops : routes_ok (run digest ops empty_store).
Proof.
  assert (routes_ok empty_store) as Hok by (split; intros ? ?; simpl; by rewrite lookup_empty).
  revert Hok. generalize empty_store. induction ops as [|o ops IH]; intros db Hok; [done|].
  apply IH, routes_ok_exec, Hok.
Qed.

(** ** Lemmas: claims and losses *)

Lemma mailbox_append_other r' d' env now ttl mb db r d :
  (r, d) <> (r', d') ->
  mailbox (snd (AppendFrame r' d' env now ttl mb db)) r d = mailbox db r d.
Proof.
  intros Hne. unfold AppendFrame. repeat (case_match || case_if); try done.
  unfold mailbox. simpl. by rewrite lookup_insert_ne.
Qed.

(** Expiry is an edge, and leaves room for a fresh pending claim. *)
Lemma expire_claims_edge now r' db r c :
  claim_edge now (pending_pairing_claims db !! (r, c))
    (pending_pairing_claims (expire_claims r' now db) !! (r, c)) /\
  (pending_pairing_claims (expire_claims r' now db) !! (r, c) = None ->
   forall h sc e, claim_edge now (pending_pairing_claims db !! (r, c))
                    (Some (mkClaim h sc None pending e None))).
Proof.
  simpl. rewrite map_lookup_filter.
  destruct (pending_pairing_claims db !! (r, c)) as [cl|] eqn:Hl; simpl; [|split; [constructor|]].
  - case_guard as Hg; simpl; [split; [constructor|done]|].
    destruct Hg as [_ Hex].
    split; [by constructor|]. intros _ h sc e. by constructor.
  - intros _ h sc e. constructor.
Qed.

Lemma frame_loss_append r d env now ttl mb db f :
  store_ok db -> f ∈ mailbox db r d -> live now f ->
  f ∈ mailbox (snd (AppendFrame r d env now ttl mb db)) r d \/
  (exists before after, filter (live now) (mailbox db r d) = before ++ f :: after /\
     mb < envelope_size f + sum_with envelope_size after + Z.of_nat (String.length env)).
Proof.
  intros Hok Hf Hlive.
  destruct (AppendFrame_cases r d env now ttl mb db (Hok r d)) as [[e ->]|(dev & Hdev & Hle)];
    [by left|].
  destruct (AppendFrame_effect r d env now ttl mb db dev (Hok r d) Hdev Hle)
    as (dr & kp & Hfs & Ha & Hsz & Hmin). rewrite Ha.
  unfold mailbox at 1. simpl. rewrite lookup_insert_eq. simpl.
  assert (f ∈ dr ++ kp) as Hin by (rewrite <- Hfs; by apply list_elem_of_filter).
  apply elem_of_app in Hin as [Hin|Hin]; [|left; apply elem_of_app; by left].
  right. apply list_elem_of_split in Hin as (be & af & Hdr).
  exists be, (af ++ kp). split; [by rewrite Hfs, Hdr, <- app_assoc|].
  assert (Forall (fun f => 0 <= envelope_size f) (be ++ f :: af)) as Hnn.
  { rewrite <- Hdr. destruct (Hok r d) as [_ Hz _]. rewrite Forall_forall in Hz |- *.
    intros x Hx. rewrite Hz; [lia|]. eapply elem_of_sublist; [exact Hx|].
    transitivity (filter (live now) (mailbox db r d)); [|apply sublist_filter].
    rewrite Hfs. by apply sublist_inserts_r. }
  apply Forall_app in Hnn as [_ Hnn]. apply Forall_cons in Hnn as [Hnf Hna].
  rewrite !sum_with_app in *. simpl in *.
  destruct af as [|a af _] using rev_ind.
  - specialize (Hmin be f Hdr). simpl. lia.
  - specialize (Hmin (be ++ f :: af) a).
    rewrite Hdr, <- app_assoc in Hmin. specialize (Hmin eq_refl).
    apply Forall_app in Hna as [Hna _]. pose proof (sum_with_nonneg _ _ Hna).
    rewrite sum_with_app. simpl. lia.
Qed.

(** ** Properties *)

(** [AppendFrame], on every branch and any store the API can reach: an
    oversized frame and an inactive destination are refused and nothing changes;
    otherwise the frame gets the device's next cursor, the expired and
    acknowledged rows go, the oldest live rows go only as far as the byte limit
    demands, the new row is last, and the mailbox fits in [maxBytes]. *)
Theorem AppendFrame_spec digest ops r d env now ttl mb :
  let db := run digest ops empty_store in
  let len := Z.of_nat (String.length env) in
  match active_device db r d with
  | None => exists e, AppendFrame r d env now ttl mb db = (inl e, db)
  | Some dev =>
      if mb <? len then AppendFrame r d env now ttl mb db = (inl ErrFrameExceedsCapacity, db)
      else
        exists dropped kept db',
          let row := mkFrame (next_cursor dev) env len (unix_seconds now) (unix_seconds (now + ttl)) None in
          AppendFrame r d env now ttl mb db = (inr (next_cursor dev, zlen dropped), db') /\
          filter (live now) (mailbox db r d) = dropped ++ kept /\
          mailbox db' r d = kept ++ [row] /\
          sum_with envelope_size (mailbox db' r d) <= mb /\
          (forall dr x, dropped = dr ++ [x] -> mb < envelope_size x + sum_with envelope_size (mailbox db' r d)) /\
          (forall r' d', (r', d') <> (r, d) -> mailbox db' r' d' = mailbox db r' d')
  end.
Proof.
  cbv zeta. pose proof (store_ok_run digest ops _ store_ok_empty) as Hok.
  set (db := run digest ops empty_store) in *.
  destruct (active_device db r d) as [dev|] eqn:Hdev.
  - destruct (Z.ltb_spec mb (Z.of_nat (String.length env))) as [Hlt|Hle].
    + unfold AppendFrame. destruct (Z.gtb_spec (Z.of_nat (String.length env)) mb); [done|lia].
    + destruct (AppendFrame_effect r d env now ttl mb db dev (Hok r d) Hdev Hle)
        as (dr & kp & Hfs & Ha & Hsz & Hmin).
      eexists dr, kp, _. split; [exact Ha|]. split; [exact Hfs|].
      unfold mailbox. simpl. rewrite !lookup_insert_eq. simpl.
      split; [done|]. split; [exact Hsz|]. split; [exact Hmin|].
      intros r' d' Hne. by rewrite lookup_insert_ne.
  - unfold AppendFrame. rewrite Hdev. case_if; eauto.
Qed.

(** The cursors given for one mailbox along any execution strictly increase,
    through eviction, expiry, revocation and re-registration of the device, so a
    client's acknowledgement never covers a frame it has not been offered. *)
Theorem AppendFrame_cursors_increase digest r d ops :
  StronglySorted Z.lt (cursors_given digest r d ops empty_store).
Proof. apply cursors_given_sorted, store_ok_empty. Qed.

(** A pending frame is lost only for cause: whatever call is made, a frame
    that is unacknowledged and unexpired at the time of the call stays in the
    mailbox unless the call acknowledges it, revokes its device, or appends to
    its mailbox a frame that does not fit beside it and the younger ones. *)
Theorem frame_loss_causes digest ops o r d f :
  let db := run digest ops empty_store in
  f ∈ mailbox db r d -> live (op_now o) f ->
  f ∈ mailbox (exec digest o db) r d \/
  (exists through now, o = OAckFrames r d through now /\ cursor f <= through) \/
  (exists now, o = ORevokeDevice r d now) \/
  (exists env now ttl mb before after, o = OAppendFrame r d env now ttl mb /\
     filter (live now) (mailbox db r d) = before ++ f :: after /\
     mb < envelope_size f + sum_with envelope_size after + Z.of_nat (String.length env)).
Proof.
  cbv zeta. pose proof (store_ok_run digest ops _ store_ok_empty) as Hok.
  set (db := run digest ops empty_store) in *. intros Hf Hlive.
  pose proof (frames_untouched digest o db) as Hu.
  destruct o as [| | | | |r' d' now|r' d' env now ttl mb|r' d' after limit now|r' d' through now|now| | | |];
    cbn [exec op_now] in *;
    try (match type of Hu with _ /\ _ => destruct Hu as [Hu1 Hu2] end;
         left; unfold mailbox; by rewrite Hu1).
  - left. unfold RegisterDevice. by case_match.
  - left. unfold AuthenticateDevice. repeat case_match; done.
  - destruct (decide ((r, d) = (r', d'))) as [[= <- <-]|Hne]; [eauto|]. left.
    unfold RevokeDevice. repeat case_match; try done. unfold mailbox. simpl.
    by rewrite lookup_delete_ne.
  - destruct (decide ((r, d) = (r', d'))) as [[= <- <-]|Hne].
    + destruct (frame_loss_append r d env now ttl mb db f Hok Hf Hlive) as [?|(be & af & ? & ?)];
        [by left|]. right; right; right. exists env, now, ttl, mb, be, af. done.
    + left. by rewrite mailbox_append_other.
  - left. simpl. rewrite mailbox_set. case_decide as E; [|done]. injection E as <- <-.
    apply list_elem_of_filter. split; [apply Hlive|done].
  - unfold AckFrames. rewrite mailbox_set. case_decide as E; [|by left]. injection E as <- <-.
    destruct (Z.le_gt_cases (cursor f) through) as [Hle|Hgt]; [right; left; eauto|]. left.
    apply list_elem_of_In, in_map_iff. exists f. split; [|by apply list_elem_of_In].
    unfold ack_row. rewrite decide_False; [done|]. intros [? _]. lia.
  - left. rewrite mailbox_expire. by apply list_elem_of_filter.
Qed.

(** Revocation holds: once [RevokeDevice] has answered success, whatever
    calls follow short of registering that device again, no credential
    authenticates it, no frame is accepted for it and its mailbox reads empty. *)
Theorem RevokeDevice_blocks digest ops1 ops2 r d now :
  let db := run digest ops1 empty_store in
  let db' := run digest ops2 (snd (RevokeDevice r d now db)) in
  fst (RevokeDevice r d now db) = inr tt ->
  Forall (fun o => forall a t, o <> ORegisterDevice r d a t) ops2 ->
  (forall cred t, fst (AuthenticateDevice digest r d cred t db') = false) /\
  DeviceActive r d db' = false /\
  (forall env t ttl mb, exists e, AppendFrame r d env t ttl mb db' = (inl e, db')) /\
  (forall after limit t, fst (FetchFrames r d after limit t db') = []).
Proof.
  cbv zeta. set (db := run digest ops1 empty_store). intros Hrev Hops.
  assert (revoked (snd (RevokeDevice r d now db)) r d) as Hr.
  { unfold RevokeDevice in *. destruct (route_devices db !! (r, d)) as [dev|]; [|done].
    destruct (dv_revoked_at dev); [done|]. split; simpl.
    - unfold mailbox. simpl. by rewrite lookup_delete_eq.
    - rewrite lookup_insert_eq. eauto. }
  apply (revoked_run digest ops2) in Hr; [|done].
  set (db' := run digest ops2 _) in *. pose proof (revoked_inactive _ _ _ Hr) as Hi.
  split; [|split; [|split]].
  - intros cred t. unfold AuthenticateDevice. by rewrite Hi.
  - unfold DeviceActive. by rewrite Hi.
  - intros env t ttl mb. unfold AppendFrame. rewrite Hi. case_if; eauto.
  - intros after limit t. simpl. destruct Hr as [-> _]. by destruct (Z.to_nat _).
Qed.

(** Every call moves a pairing claim only along its lifecycle: it is created
    pending, decided once as approved or rejected, consumed once, and removed or
    replaced only when it has expired; its capability and sealed claim never
    change, and a decided result is never rewritten. *)
Theorem claim_lifecycle digest o db r c :
  claim_edge (op_now o) (pending_pairing_claims db !! (r, c))
    (pending_pairing_claims (exec digest o db) !! (r, c)).
Proof.
  pose proof (fun now r' => expire_claims_edge now r' db r c) as Hexp.
  destruct o; cbn [exec op_now]; try apply ce_same.
  - unfold CreateRoute. case_match; apply ce_same.
  - unfold ActivateRoute. repeat case_match; apply ce_same.
  - unfold AuthenticateBridge. repeat case_match; apply ce_same.
  - unfold RegisterDevice. case_match; apply ce_same.
  - unfold AuthenticateDevice. repeat case_match; apply ce_same.
  - unfold RevokeDevice. repeat case_match; apply ce_same.
  - unfold AppendFrame. repeat case_match; apply ce_same.
  - unfold SubmitPairingClaim. destruct (Hexp now routeID) as [H1 H2].
    set (db' := expire_claims routeID now db) in *.
    destruct (pending_pairing_claims db' !! (routeID, claimID)) as [cl|] eqn:Hl.
    + case_if; [exact H1|apply ce_same].
    + simpl. destruct (active_route db' routeID); [|exact H1]. simpl.
      destruct (decide ((r, c) = (routeID, claimID))) as [[= -> ->]|Hne].
      * rewrite lookup_insert_eq. by apply H2.
      * by rewrite lookup_insert_ne by done.
  - apply (Hexp now routeID).
  - unfold CompletePairingClaim. case_if; [apply ce_same|].
    destruct (pending_pairing_claims db !! (routeID, claimID)) as [cl|] eqn:Hl; [|apply ce_same].
    destruct (decide (state cl = pending)) as [Hp|Hp]; [|apply ce_same]. simpl.
    destruct (decide ((r, c) = (routeID, claimID))) as [[= -> ->]|Hne];
      [|rewrite lookup_insert_ne by done; apply ce_same].
    rewrite lookup_insert_eq, Hl. destruct cl as [h sc r0 st e co]. simpl in *. subst st.
    apply ce_decide. destruct newState; try done; auto.
  - unfold ConsumePairingResult.
    destruct (pending_pairing_claims db !! (routeID, claimID)) as [cl|] eqn:Hl; [|apply ce_same].
    case_decide as Hp; [|apply ce_same]. simpl.
    destruct (decide ((r, c) = (routeID, claimID))) as [[= -> ->]|Hne];
      [|rewrite lookup_insert_ne by done; apply ce_same].
    rewrite lookup_insert_eq, Hl. destruct cl as [h sc r0 st e co]. simpl in *.
    destruct Hp as [Hst ->]. by apply ce_consume.
Qed.

(** Activation hands out a working identity: when [ActivateRoute] answers a
    route, the bridge authenticates on it with exactly the presented credential
    (up to its digest), activating again with the same key answers the same
    route, and another key is refused without any change. *)
Theorem ActivateRoute_identity digest ops i pk auth newID now rid :
  let db := run digest ops empty_store in
  let db' := snd (ActivateRoute digest i pk auth newID now db) in
  fst (ActivateRoute digest i pk auth newID now db) = inr rid ->
  (forall cred t, fst (AuthenticateBridge digest rid cred t db') = bool_decide (digest auth = digest cred)) /\
  (forall auth2 newID2 t, fst (ActivateRoute digest i pk auth2 newID2 t db') = inr rid) /\
  (forall pk2 auth2 newID2 t, pk2 <> pk ->
     ActivateRoute digest i pk2 auth2 newID2 t db' = (inl ErrActivationIdentityMismatch, db')).
Proof.
  cbv zeta. pose proof (routes_ok_run digest ops) as Hok.
  set (db := run digest ops empty_store) in *. intros Hans.
  pose proof (routes_ok_activate digest i pk auth newID now db Hok) as Hok'.
  set (db' := snd (ActivateRoute digest i pk auth newID now db)) in *.
  assert ((exists a, route_activations db' !! i = Some a /\ signing_public_key a = pk /\
             act_route_id a = rid) /\
          exists row, routes db' !! rid = Some row /\ bridge_auth_hash row = digest auth)
    as [(a & Ha & Hpk & Hrid) (row & Hrow & Hh)].
  { subst db'. unfold ActivateRoute in *. destruct (route_activations db !! i) as [a|] eqn:Ha.
    - destruct (bool_decide (signing_public_key a = pk)) eqn:E; [|done]. zprop. simpl in *.
      injection Hans as <-. destruct Hok as [_ Hact]. destruct (Hact i a Ha) as [row Hrow].
      rewrite (active_route_ok db _ _ (routes_ok_run digest ops) Hrow). simpl. split; [eauto|].
      rewrite lookup_insert_eq. by eexists.
    - destruct (routes db !! newID); [done|]. destruct (activation_conflict pk newID db); [done|].
      simpl in *. injection Hans as <-. rewrite !lookup_insert_eq. split; eauto. }
  split; [|split].
  - intros cred t. unfold AuthenticateBridge. rewrite (active_route_ok db' rid row Hok' Hrow).
    unfold VerifyCredential, CredentialDigest. rewrite Hh. by case_if.
  - intros auth2 newID2 t. unfold ActivateRoute. rewrite Ha, Hpk, bool_decide_eq_true_2 by done.
    simpl. by rewrite Hrid.
  - intros pk2 auth2 newID2 t Hne. unfold ActivateRoute. rewrite Ha, Hpk.
    by rewrite bool_decide_eq_false_2 by done.
Qed.

(** [SubmitPairingClaim] answers success on a route that does not exist or
    is revoked, although it stores no claim: the insert selects from the active
    routes and its row count is not checked, unlike in [RegisterDevice]. *)
Theorem SubmitPairingClaim_inactive_route r c h sc now ttl db :
  active_route db r = None -> pending_pairing_claims db !! (r, c) = None ->
  fst (SubmitPairingClaim r c h sc now ttl db) = inr tt /\
  pending_pairing_claims (snd (SubmitPairingClaim r c h sc now ttl db)) !! (r, c) = None.
Proof.
  intros Hina Hno. unfold SubmitPairingClaim.
  assert (pending_pairing_claims (expire_claims r now db) !! (r, c) = None) as Hno'.
  { simpl. by rewrite map_lookup_filter, Hno. }
  rewrite Hno'. simpl. change (active_route (expire_claims r now db) r) with (active_route db r).
  rewrite Hina. done.
Qed.

(** ** Witnesses *)

Definition wit_setup : list op :=
  [OActivateRoute "mac" "key" "auth" "rt_1" 0; ORegisterDevice "rt_1" "phone" "secret" 0;
   OAppendFrame "rt_1" "phone" "aaaa" 0 (60 * second) 10;
   OAppendFrame "rt_1" "phone" "bbbb" 0 (60 * second) 10].

Lemma frame_loss_causes_witness :
  let f := mkFrame 1 "aaaa" 4 0 60 None in
  ~ (f ∈ mailbox (exec id (OAppendFrame "rt_1" "phone" "cccc" second second 10)
                    (run id wit_setup empty_store)) "rt_1" "phone") /\
  exists env now ttl mb before after,
    OAppendFrame "rt_1" "phone" "cccc" second second 10 = OAppendFrame "rt_1" "phone" env now ttl mb /\
    filter (live now) (mailbox (run id wit_setup empty_store) "rt_1" "phone") = before ++ f :: after /\
    mb < envelope_size f + sum_with envelope_size after + Z.of_nat (String.length env).
Proof.
  cbv zeta.
  assert (mkFrame 1 "aaaa" 4 0 60 None ∉ mailbox (exec id (OAppendFrame "rt_1" "phone" "cccc" second second 10)
                 (run id wit_setup empty_store)) "rt_1" "phone") as Hout.
  { rewrite list_elem_of_In. vm_compute. intros [H|[H|[]]]; discriminate. }
  split; [exact Hout|].
  destruct (frame_loss_causes id wit_setup (OAppendFrame "rt_1" "phone" "cccc" second second 10)
    "rt_1" "phone" (mkFrame 1 "aaaa" 4 0 60 None)) as [H|[(t & n & H & _)|[(n & H)|H]]].
  - rewrite list_elem_of_In. vm_compute. by left.
  - split; [|done]. vm_compute. done.
  - by apply Hout in H.
  - discriminate H.
  - discriminate H.
  - exact H.
Defined.

Lemma RevokeDevice_blocks_witness :
  let db := run id wit_setup empty_store in
  let db' := run id [OAckFrames "rt_1" "phone" 1 second; ORegisterDevice "rt_1" "pad" "x" second]
               (snd (RevokeDevice "rt_1" "phone" second db)) in
  fst (AuthenticateDevice id "rt_1" "phone" "secret" second db) = true /\
  fst (AuthenticateDevice id "rt_1" "phone" "secret" second db') = false.
Proof.
  cbv zeta. split; [vm_compute; reflexivity|].
  apply (RevokeDevice_blocks id wit_setup
    [OAckFrames "rt_1" "phone" 1 second; ORegisterDevice "rt_1" "pad" "x" second] "rt_1" "phone" second).
  - vm_compute. reflexivity.
  - by repeat constructor.
Defined.

Lemma ActivateRoute_identity_witness :
  let db := run id wit_setup empty_store in
  let db' := snd (ActivateRoute id "mac" "key" "auth2" "rt_2" second db) in
  fst (AuthenticateBridge id "rt_1" "auth2" second db') = true /\
  fst (AuthenticateBridge id "rt_1" "auth" second db') = false.
Proof.
  cbv zeta.
  destruct (ActivateRoute_identity id wit_setup "mac" "key" "auth2" "rt_2" second "rt_1")
    as (H & _ & _); [vm_compute; reflexivity|].
  by rewrite !H.
Defined.

Lemma SubmitPairingClaim_inactive_route_witness :
  fst (SubmitPairingClaim "nowhere" "c" "h" "sealed" 0 second empty_store) = inr tt /\
  pending_pairing_claims (snd (SubmitPairingClaim "nowhere" "c" "h" "sealed" 0 second empty_store))
    !! ("nowhere", "c") = None.
Proof. apply SubmitPairingClaim_inactive_route; reflexivity. Defined.
