(* ===== verification/PairingGate.v ===== *)
(** * Pairing attempt limits (go-bridge/pairing_hardening.go)

    The process-wide gate in front of the pairing claims: a sliding window of
    attempts per source address, a sliding window of failures per pairing id, and
    a bound on the claims in progress. [time.Now] is an argument; the source
    address is the one [pairingClientIP] extracts. *)

From S2P Require Import Prelude.

Definition sourceIPLimit : Z := 10.
Definition sourceIPWindow : Z := minute.
Definition perPairingFailLimit : Z := 5.
Definition perPairingFailWindow : Z := 5 * minute.
Definition globalConcurrentClaims : Z := 16.
Definition maxPairingBuckets : Z := 4096.

(** [slidingBucket]: its stamps are instants. *)
Record slidingBucket : Type := mkBucket { window : Z; limit : Z; counts : list Z }.

Record pairingAttemptGate : Type := mkGate {
  sourceBuckets : gmap string slidingBucket;
  pairFails : gmap string slidingBucket;
  activeClaims : Z
}.

Inductive PairingError : Type := RateLimited | ConcurrencyLimited.

#[export] Instance PairingError_eq_dec : EqDecision PairingError.
Proof. solve_decision. Defined.

Definition newPairingAttemptGate : pairingAttemptGate := mkGate ∅ ∅ 0.

(** The stamps after [now - window]. *)
Definition fresh (w now : Z) (stamps : list Z) : list Z := filter (fun at_ => now - w < at_) stamps.

(** [allow]: whether the attempt passes, what remains, and the bucket after it. *)
Definition allow (now : Z) (b : slidingBucket) : (bool * Z) * slidingBucket :=
  let fr := fresh (window b) now (counts b) in
  if zlen fr >=? limit b then ((false, 0), mkBucket (window b) (limit b) fr)
  else
    let counts' := fr ++ [now] in
    ((true, limit b - zlen counts'), mkBucket (window b) (limit b) counts').

(** [sweepStale] on one map: drop the buckets without fresh stamps, trim the
    others. *)
Definition sweep (now : Z) (buckets : gmap string slidingBucket) : gmap string slidingBucket :=
  omap (fun b =>
    match fresh (window b) now (counts b) with
    | [] => None
    | fr => Some (mkBucket (window b) (limit b) fr)
    end) buckets.

Definition sweepStale (now : Z) (g : pairingAttemptGate) : pairingAttemptGate :=
  mkGate (sweep now (sourceBuckets g)) (sweep now (pairFails g)) (activeClaims g).

Definition acquire (ip : string) (now : Z) (g : pairingAttemptGate)
  : option PairingError * pairingAttemptGate :=
  let g := sweepStale now g in
  let go sb :=
    let '((ok, _), sb) := allow now sb in
    let g := mkGate (<[ip := sb]> (sourceBuckets g)) (pairFails g) (activeClaims g) in
    if negb ok then (Some RateLimited, g)
    else if activeClaims g >=? globalConcurrentClaims then (Some ConcurrencyLimited, g)
    else (None, mkGate (sourceBuckets g) (pairFails g) (activeClaims g + 1)) in
  match sourceBuckets g !! ip with
  | Some sb => go sb
  | None =>
      if Z.of_nat (size (sourceBuckets g)) >=? maxPairingBuckets then (Some RateLimited, g)
      else go (mkBucket sourceIPWindow sourceIPLimit [])
  end.

Definition release (g : pairingAttemptGate) : pairingAttemptGate :=
  let n := activeClaims g - 1 in
  mkGate (sourceBuckets g) (pairFails g) (if n <? 0 then 0 else n).

Definition recordPairingFailure (pairingID : string) (now : Z) (g : pairingAttemptGate)
  : bool * pairingAttemptGate :=
  let g := sweepStale now g in
  let go b :=
    let '(_, b) := allow now b in
    (zlen (counts b) >=? perPairingFailLimit,
     mkGate (sourceBuckets g) (<[pairingID := b]> (pairFails g)) (activeClaims g)) in
  match pairFails g !! pairingID with
  | Some b => go b
  | None =>
      if Z.of_nat (size (pairFails g)) >=? maxPairingBuckets then (false, g)
      else go (mkBucket perPairingFailWindow perPairingFailLimit [])
  end.

Definition resetPairingFailures (pairingID : string) (g : pairingAttemptGate) : pairingAttemptGate :=
  mkGate (sourceBuckets g) (delete pairingID (pairFails g)) (activeClaims g).

(** [hmacEqualString]: the differences of all bytes are accumulated before the
    verdict. *)
Fixpoint xor_diff (v : N) (a b : string) : N :=
  match a, b with
  | String c a, String d b => xor_diff (N.lor v (N.lxor (Ascii.N_of_ascii c) (Ascii.N_of_ascii d))) a b
  | _, _ => v
  end.

Definition hmacEqualString (a b : string) : bool :=
  if negb (Nat.eqb (String.length a) (String.length b)) then false
  else N.eqb (xor_diff 0 a b) 0.

(** ** Executions *)

Inductive op : Type :=
| OAcquire (ip : string) (now : Z)
| ORelease
| OFailure (pairingID : string) (now : Z)
| OReset (pairingID : string).

Definition exec (o : op) (g : pairingAttemptGate) : pairingAttemptGate :=
  match o with
  | OAcquire ip now => snd (acquire ip now g)
  | ORelease => release g
  | OFailure p now => snd (recordPairingFailure p now g)
  | OReset p => resetPairingFailures p g
  end.

Definition run (ops : list op) (g : pairingAttemptGate) : pairingAttemptGate :=
  fold_left (fun g o => exec o g) ops g.

(** The instants at which [acquire] answered nil for one address. *)
Fixpoint granted (ip : string) (ops : list op) (g : pairingAttemptGate) : list Z :=
  match ops with
  | [] => []
  | o :: ops =>
      match o with
      | OAcquire ip' now =>
          if decide (ip' = ip /\ fst (acquire ip' now g) = None) then [now] else []
      | _ => []
      end ++ granted ip ops (exec o g)
  end.

(** The clock never goes back along the calls. *)
Fixpoint clock_from (t : Z) (ops : list op) : Prop :=
  match ops with
  | [] => True
  | OAcquire _ now :: ops | OFailure _ now :: ops => t <= now /\ clock_from now ops
  | _ :: ops => clock_from t ops
  end.

(** [stamps] tells the same as [log] about every window from [t] on. *)
Definition covers (w t : Z) (stamps log : list Z) : Prop :=
  forall t', t <= t' -> fresh w t' stamps = fresh w t' log.

(** Every entry found fewer than [lim] entries in the window before it. *)
Definition sliding_ok (w lim : Z) (log : list Z) : Prop :=
  forall pre x post, log = pre ++ x :: post -> zlen (fresh w x pre) < lim.

(** The stamps of one bucket of a map whose buckets share a window and a limit. *)
Definition stamps_of (k : string) (m : gmap string slidingBucket) : list Z :=
  match m !! k with Some b => counts b | None => [] end.

Record gate_ok (g : pairingAttemptGate) : Prop := mkGateOk {
  go_source : forall k b, sourceBuckets g !! k = Some b ->
    window b = sourceIPWindow /\ limit b = sourceIPLimit;
  go_fails : forall k b, pairFails g !! k = Some b ->
    window b = perPairingFailWindow /\ limit b = perPairingFailLimit;
  go_sizes : Z.of_nat (size (sourceBuckets g)) <= maxPairingBuckets /\
             Z.of_nat (size (pairFails g)) <= maxPairingBuckets;
  go_active : 0 <= activeClaims g <= globalConcurrentClaims
}.

(** The attempts of one address that passed its own window, granted or refused
    for concurrency. *)
Fixpoint passed (ip : string) (ops : list op) (g : pairingAttemptGate) : list Z :=
  match ops with
  | [] => []
  | o :: ops =>
      match o with
      | OAcquire ip' now =>
          if decide (ip' = ip /\ fst (acquire ip' now g) <> Some RateLimited) then [now] else []
      | _ => []
      end ++ passed ip ops (exec o g)
  end.

(** ** Lemmas: windows *)

Lemma fresh_fresh w t t' l : t <= t' -> fresh w t' (fresh w t l) = fresh w t' l.
Proof.
  intros Ht. unfold fresh. rewrite list_filter_filter.
  apply list_filter_iff. intros x. lia.
Qed.

Lemma fresh_app w t l1 l2 : fresh w t (l1 ++ l2) = fresh w t l1 ++ fresh w t l2.
Proof. apply filter_app. Qed.

Lemma covers_fresh w t now l log :
  covers w t l log -> t <= now -> covers w now (fresh w now l) log.
Proof. intros Hc Ht t' Ht'. rewrite fresh_fresh by lia. apply Hc. lia. Qed.

Lemma covers_mono w t t' l log : covers w t l log -> t <= t' -> covers w t' l log.
Proof. intros Hc Ht t'' Ht''. apply Hc. lia. Qed.

Lemma covers_snoc w t l log x : covers w t l log -> covers w t (l ++ [x]) (log ++ [x]).
Proof. intros Hc t' Ht'. rewrite !fresh_app, Hc by done. done. Qed.

Lemma sliding_ok_snoc w lim log x :
  sliding_ok w lim log -> zlen (fresh w x log) < lim -> sliding_ok w lim (log ++ [x]).
Proof.
  intros Hok Hx pre y post Heq. destruct post as [|z post _] using rev_ind.
  - apply app_inj_tail in Heq as [<- <-]. done.
  - rewrite app_comm_cons, app_assoc in Heq. apply app_inj_tail in Heq as [-> _]. eauto.
Qed.

(** Entries that each found room stay within the limit in every window. *)
Lemma sliding_ok_window w lim log t :
  0 <= lim -> sliding_ok w lim log ->
  zlen (filter (fun x => t - w < x <= t) log) <= lim.
Proof.
  intros Hlim. induction log as [|x log IH] using rev_ind; intros Hok; [simpl; lia|].
  assert (sliding_ok w lim log) as Hok'.
  { intros pre y post ->. apply (Hok pre y (post ++ [x])). by rewrite <- app_assoc. }
  rewrite filter_app, length_app, filter_cons, filter_nil. case_decide as Hx; simpl.
  - specialize (Hok log x [] eq_refl). unfold fresh in Hok.
    assert (le (length (filter (fun y => t - w < y <= t) log))
               (length (filter (fun y => x - w < y) log))); [|lia].
    clear - Hx. induction log as [|y log IH]; [done|]. rewrite !filter_cons.
    do 2 case_decide; simpl; try lia.
  - specialize (IH Hok'). lia.
Qed.

(** ** Lemmas: the gate *)

Lemma sweep_lookup now m k :
  sweep now m !! k =
  b ← m !! k; match fresh (window b) now (counts b) with
              | [] => None | fr => Some (mkBucket (window b) (limit b) fr) end.
Proof. unfold sweep. by rewrite lookup_omap. Qed.

Lemma sweep_stamps now m k w :
  (forall b, m !! k = Some b -> window b = w) ->
  stamps_of k (sweep now m) = fresh w now (stamps_of k m).
Proof.
  intros Hw. unfold stamps_of. rewrite sweep_lookup. destruct (m !! k) as [b|]; simpl; [|done].
  rewrite <- (Hw b) by done. destruct (fresh _ _ _) eqn:E; simpl; [|done]. done.
Qed.

Lemma sweep_bucket now m k b' :
  sweep now m !! k = Some b' -> exists b, m !! k = Some b /\ window b' = window b /\ limit b' = limit b.
Proof.
  rewrite sweep_lookup. destruct (m !! k) as [b|]; simpl; [|done].
  destruct (fresh _ _ _); [done|]. intros [= <-]. eauto.
Qed.

Lemma sweep_size now m : (size (sweep now m) <= size m)%nat.
Proof.
  rewrite <- !size_dom. apply subseteq_size. intros k. rewrite !elem_of_dom.
  intros [b' Hb]. apply sweep_bucket in Hb as (b & -> & _). eauto.
Qed.

Lemma gate_ok_sweep now g : gate_ok g -> gate_ok (sweepStale now g).
Proof.
  intros [Hs Hf [Hz1 Hz2] Ha]. split; simpl; try done.
  - intros k b Hb. apply sweep_bucket in Hb as (b0 & H & -> & ->). eauto.
  - intros k b Hb. apply sweep_bucket in Hb as (b0 & H & -> & ->). eauto.
  - pose proof (sweep_size now (sourceBuckets g)). pose proof (sweep_size now (pairFails g)). lia.
Qed.

Lemma allow_bucket now b :
  window (snd (allow now b)) = window b /\ limit (snd (allow now b)) = limit b.
Proof. unfold allow. by case_if. Qed.

(** The three outcomes of [acquire], on the swept gate. *)
Lemma acquire_cases ip now g :
  let g' := sweepStale now g in
  (fst (acquire ip now g) = Some RateLimited /\
   (acquire ip now g = (Some RateLimited, g') \/
    exists sb, sourceBuckets g' !! ip = Some sb /\
      snd (acquire ip now g) =
        mkGate (<[ip := snd (allow now sb)]> (sourceBuckets g')) (pairFails g') (activeClaims g') /\
      fst (fst (allow now sb)) = false)) \/
  (exists sb, (sourceBuckets g' !! ip = Some sb \/
               sourceBuckets g' !! ip = None /\ sb = mkBucket sourceIPWindow sourceIPLimit [] /\
               Z.of_nat (size (sourceBuckets g')) < maxPairingBuckets) /\
     fst (fst (allow now sb)) = true /\ fst (acquire ip now g) <> Some RateLimited /\
     sourceBuckets (snd (acquire ip now g)) = <[ip := snd (allow now sb)]> (sourceBuckets g') /\
     pairFails (snd (acquire ip now g)) = pairFails g' /\
     (fst (acquire ip now g) = None -> activeClaims g' < globalConcurrentClaims) /\
     activeClaims (snd (acquire ip now g)) =
       activeClaims g' + (if decide (fst (acquire ip now g) = None) then 1 else 0)).
Proof.
  cbv zeta. unfold acquire. set (g' := sweepStale now g).
  destruct (sourceBuckets g' !! ip) as [sb|] eqn:Hsb.
  - destruct (allow now sb) as [[ok n] sb'] eqn:Hal. destruct ok; simpl.
    + right. exists sb. rewrite Hal. split; [by left|]. case_if; zprop; simpl; split_and!; try done; lia.
    + left. split; [done|]. right. exists sb. rewrite Hal. done.
  - case_if; zprop; [left; split; [done|by left]|].
    right. exists (mkBucket sourceIPWindow sourceIPLimit []). simpl.
    split; [right; split_and!; try done; lia|].
    change (fresh sourceIPWindow now []) with (@nil Z). simpl.
    case_if; zprop; simpl; split_and!; try done; lia.
Qed.

Lemma bucket_insert_ok (m : gmap string slidingBucket) w lim k sb :
  (forall k b, m !! k = Some b -> window b = w /\ limit b = lim) ->
  window sb = w -> limit sb = lim ->
  forall k' b, <[k := sb]> m !! k' = Some b -> window b = w /\ limit b = lim.
Proof.
  intros Hm Hw Hl k' b. destruct (decide (k' = k)) as [->|Hne].
  - rewrite lookup_insert_eq. by intros [= <-].
  - rewrite lookup_insert_ne by done. apply Hm.
Qed.

(** The bucket [acquire] consults has the configured window and limit, and
    writing it keeps the map within capacity. *)
Lemma consulted_bucket g ip sb :
  gate_ok g ->
  (sourceBuckets g !! ip = Some sb \/
   sourceBuckets g !! ip = None /\ sb = mkBucket sourceIPWindow sourceIPLimit [] /\
   Z.of_nat (size (sourceBuckets g)) < maxPairingBuckets) ->
  window sb = sourceIPWindow /\ limit sb = sourceIPLimit /\
  counts sb = stamps_of ip (sourceBuckets g) /\
  forall sb', Z.of_nat (size (<[ip := sb']> (sourceBuckets g))) <= maxPairingBuckets.
Proof.
  intros [Hs _ [Hz _] _] Hsb. unfold stamps_of.
  destruct Hsb as [Hsb|(Hsb & -> & Hlt)]; rewrite Hsb.
  - destruct (Hs ip sb Hsb). split; [done|]. split; [done|]. split; [done|].
    intros sb'. rewrite map_size_insert, Hsb. done.
  - split; [done|]. split; [done|]. split; [done|]. intros sb'. rewrite map_size_insert, Hsb. lia.
Qed.

Lemma gate_ok_acquire ip now g : gate_ok g -> gate_ok (snd (acquire ip now g)).
Proof.
  intros Hok. apply (gate_ok_sweep now) in Hok as Hok'.
  destruct (acquire_cases ip now g) as [(_ & [-> |(sb & Hsb & -> & _)])|
    (sb & Hsb & _ & _ & E1 & E2 & E3 & E4)]; [done| |].
  - destruct (consulted_bucket _ ip sb Hok' (or_introl Hsb)) as (Hw & Hl & _ & Hz).
    destruct (allow_bucket now sb) as [Hw' Hl'], Hok' as [Hs Hf [_ Hz2] Ha].
    split; simpl; try done. apply bucket_insert_ok; congruence || done.
  - destruct (consulted_bucket _ ip sb Hok' Hsb) as (Hw & Hl & _ & Hz).
    destruct (allow_bucket now sb) as [Hw' Hl'], Hok' as [Hs Hf [_ Hz2] Ha].
    split; rewrite ?E1, ?E2, ?E4; try done.
    + apply bucket_insert_ok; congruence || done.
    + unfold globalConcurrentClaims in *. case_decide as Hd; [specialize (E3 Hd)|]; lia.
Qed.

Lemma gate_ok_failure p now g : gate_ok g -> gate_ok (snd (recordPairingFailure p now g)).
Proof.
  intros Hok. apply (gate_ok_sweep now) in Hok as Hok'. unfold recordPairingFailure.
  destruct Hok' as [Hs Hf [Hz1 Hz2] Ha].
  destruct (pairFails (sweepStale now g) !! p) as [b|] eqn:Hb.
  - destruct (allow now b) as [r b'] eqn:Hal. destruct (allow_bucket now b) as [Hw Hl].
    rewrite Hal in Hw, Hl. simpl in Hw, Hl. destruct (Hf p b Hb).
    split; simpl; try done; [apply bucket_insert_ok; congruence || done|].
    rewrite map_size_insert. simpl in Hb. rewrite Hb. done.
  - case_if; [by split|]. zprop.
    destruct (allow now (mkBucket perPairingFailWindow perPairingFailLimit [])) as [r b'] eqn:Hal.
    destruct (allow_bucket now (mkBucket perPairingFailWindow perPairingFailLimit [])) as [Hw Hl].
    rewrite Hal in Hw, Hl. simpl in Hw, Hl.
    split; simpl; try done; [apply bucket_insert_ok; congruence || done|].
    rewrite map_size_insert. simpl in *. rewrite Hb. lia.
Qed.

Lemma gate_ok_exec o g : gate_ok g -> gate_ok (exec o g).
Proof.
  intros Hok. destruct o; simpl.
  - by apply gate_ok_acquire.
  - destruct Hok as [Hs Hf Hz Ha]. split; simpl; try done. unfold globalConcurrentClaims in *.
    zbool; lia.
  - by apply gate_ok_failure.
  - destruct Hok as [Hs Hf [Hz1 Hz2] Ha]. split; simpl; try done.
    + intros k b. destruct (decide (k = pairingID)) as [->|Hne];
        [by rewrite lookup_delete_eq|rewrite lookup_delete_ne by done; apply Hf].
    + rewrite map_size_delete. destruct (pairFails g !! pairingID); simpl; lia.
Qed.

Lemma gate_ok_new : gate_ok newPairingAttemptGate.
Proof.
  split; simpl; unfold globalConcurrentClaims, maxPairingBuckets; rewrite ?map_size_empty;
    try (intros ? ?; by rewrite lookup_empty); lia.
Qed.

Lemma gate_ok_run ops g : gate_ok g -> gate_ok (run ops g).
Proof. revert g. induction ops as [|o ops IH]; intros g Hok; [done|]. apply IH, gate_ok_exec, Hok. Qed.

(** One call keeps the account of an address's attempts, and an attempt that
    passes found room in its window. *)
Lemma acquire_step ip ip' now t g log :
  gate_ok g -> covers sourceIPWindow t (stamps_of ip (sourceBuckets g)) log -> t <= now ->
  let p := decide (ip' = ip /\ fst (acquire ip' now g) <> Some RateLimited) in
  let log' := log ++ (if p then [now] else []) in
  covers sourceIPWindow now (stamps_of ip (sourceBuckets (snd (acquire ip' now g)))) log' /\
  (if p then zlen (fresh sourceIPWindow now log) < sourceIPLimit else True).
Proof.
  intros Hok Hcov Ht. cbv zeta. apply (gate_ok_sweep now) in Hok as Hok'.
  assert (covers sourceIPWindow now (stamps_of ip (sourceBuckets (sweepStale now g))) log) as Hcov'.
  { simpl. rewrite (sweep_stamps now _ ip sourceIPWindow); [by eapply covers_fresh|].
    intros b Hb. destruct Hok as [Hs _ _ _]. by destruct (Hs ip b Hb). }
  destruct (acquire_cases ip' now g) as [(Hr & Hc)|(sb & Hsb & Hal & Hr & Hsrc & _)].
  - destruct (decide _) as [[_ Hx]|_]; [by rewrite Hr in Hx|]. rewrite app_nil_r. split; [|done].
    destruct Hc as [-> |(sb & Hsb & -> & Hal)]; [done|]. simpl.
    destruct (decide (ip = ip')) as [->|Hne].
    + destruct (consulted_bucket _ ip' sb Hok' (or_introl Hsb)) as (Hw & _ & Hcnt & _).
      unfold stamps_of at 1. rewrite lookup_insert_eq. unfold allow in *. case_if; [|done].
      simpl. rewrite Hw, Hcnt. by eapply covers_fresh.
    + unfold stamps_of at 1. by rewrite lookup_insert_ne.
  - rewrite Hsrc. destruct (decide (ip = ip')) as [->|Hne].
    + destruct (consulted_bucket _ ip' sb Hok' Hsb) as (Hw & Hl & Hcnt & _).
      destruct (decide _) as [_|Hx]; [|by destruct Hx]. unfold stamps_of at 1. rewrite lookup_insert_eq.
      unfold allow in *. case_if; [done|]. simpl. rewrite Hw, Hl, Hcnt in *. zprop. split.
      * apply covers_snoc. by eapply covers_fresh.
      * rewrite <- Hcov' by lia. lia.
    + destruct (decide _) as [[Hx _]|_]; [done|]. rewrite app_nil_r. split; [|done].
      unfold stamps_of at 1. by rewrite lookup_insert_ne.
Qed.

Lemma failure_source p now g :
  sourceBuckets (snd (recordPairingFailure p now g)) = sourceBuckets (sweepStale now g).
Proof.
  unfold recordPairingFailure. case_match.
  - by destruct (allow _ _).
  - case_if; [done|]. by destruct (allow _ _).
Qed.

Lemma passed_ok ip ops g t log :
  gate_ok g -> clock_from t ops ->
  covers sourceIPWindow t (stamps_of ip (sourceBuckets g)) log ->
  sliding_ok sourceIPWindow sourceIPLimit log ->
  sliding_ok sourceIPWindow sourceIPLimit (log ++ passed ip ops g).
Proof.
  revert g t log. induction ops as [|o ops IH]; intros g t log Hok Hclk Hcov Hsl.
  { simpl. by rewrite app_nil_r. }
  pose proof (gate_ok_exec o g Hok) as Hok'. cbn [passed].
  destruct o as [ip' now| |p now|p]; simpl in Hclk.
  - destruct Hclk as [Ht Hclk].
    destruct (acquire_step ip ip' now t g log Hok Hcov Ht) as [Hc Hroom].
    rewrite app_assoc. apply (IH _ now); try done.
    case_decide; [by apply sliding_ok_snoc|by rewrite app_nil_r].
  - by apply (IH _ t).
  - destruct Hclk as [Ht Hclk]. apply (IH _ now); try done. simpl.
    rewrite failure_source. simpl. rewrite (sweep_stamps now _ ip sourceIPWindow);
      [by eapply covers_fresh|].
    intros b Hb. destruct Hok as [Hs _ _ _]. by destruct (Hs ip b Hb).
  - by apply (IH _ t).
Qed.

Lemma granted_passed ip ops g : granted ip ops g `sublist_of` passed ip ops g.
Proof.
  revert g. induction ops as [|o ops IH]; intros g; [done|]. cbn [granted passed].
  apply sublist_app; [|apply IH]. destruct o; try done.
  do 2 case_decide; try done; [|apply sublist_nil_l].
  exfalso. destruct_and!. naive_solver.
Qed.

(** ** Properties *)

(** The source limit is a true sliding window: however the calls of a gate
    interleave (other addresses, failures, releases, sweeps), in every window of
    one minute ending at any instant, at most ten attempts of one address are
    let through. *)
Theorem acquire_source_window ip ops t0 t :
  clock_from t0 ops ->
  zlen (filter (fun x => t - sourceIPWindow < x <= t) (granted ip ops newPairingAttemptGate))
    <= sourceIPLimit.
Proof.
  intros Hclk.
  assert (sliding_ok sourceIPWindow sourceIPLimit (passed ip ops newPairingAttemptGate)) as Hsl.
  { apply (passed_ok ip ops newPairingAttemptGate t0 []); [apply gate_ok_new|done|done|].
    intros pre x post Heq. by destruct pre. }
  apply (sliding_ok_window _ _ _ t) in Hsl; [|done].
  etransitivity; [|exact Hsl]. apply filter_sublist_length, granted_passed.
Qed.

(** The gate is bounded whatever its callers do: at most [maxPairingBuckets]
    addresses and pairing ids are tracked, and the claims in progress stay
    between zero and [globalConcurrentClaims], even when [release] is called
    more often than [acquire] succeeded. *)
Theorem gate_bounded ops :
  let g := run ops newPairingAttemptGate in
  Z.of_nat (size (sourceBuckets g)) <= maxPairingBuckets /\
  Z.of_nat (size (pairFails g)) <= maxPairingBuckets /\
  0 <= activeClaims g <= globalConcurrentClaims.
Proof. destruct (gate_ok_run ops _ gate_ok_new) as [_ _ [? ?] ?]. done. Qed.

(** The accumulated difference is null exactly on equal strings of one length. *)
Lemma xor_diff_zero v a b :
  String.length a = String.length b -> xor_diff v a b = 0%N <-> v = 0%N /\ a = b.
Proof.
  revert v b. induction a as [|c a IH]; intros v [|d b]; simpl; try done; [tauto|].
  intros [= Hlen]. rewrite IH, N.lor_eq_0_iff, N.lxor_eq_0_iff by done. split.
  - intros [[-> Hcd] ->]. split; [done|]. f_equal.
    rewrite <- (Ascii.ascii_N_embedding c), Hcd. apply Ascii.ascii_N_embedding.
  - intros [-> [= -> ->]]. done.
Qed.

(** The constant-time comparison decides equality. *)
Theorem hmacEqualString_eq a b : hmacEqualString a b = true <-> a = b.
Proof.
  unfold hmacEqualString. destruct (Nat.eqb_spec (String.length a) (String.length b)) as [Hlen|Hlen]; simpl.
  - rewrite N.eqb_eq, xor_diff_zero by done. tauto.
  - split; [done|]. by intros ->.
Qed.

Lemma acquire_source_window_witness :
  let ops := map (fun t => OAcquire "10.0.0.1" (t * second)) (map Z.of_nat (seq 1 12)) in
  clock_from 0 ops /\ zlen (granted "10.0.0.1" ops newPairingAttemptGate) = 10 /\
  zlen (filter (fun x => 40 * second - sourceIPWindow < x <= 40 * second)
          (granted "10.0.0.1" ops newPairingAttemptGate)) <= 10.
Proof.
  cbv zeta.
  assert (clock_from 0 (map (fun t => OAcquire "10.0.0.1" (t * second)) (map Z.of_nat (seq 1 12)))) as Hclk.
  { vm_compute. by repeat split. }
  split; [exact Hclk|]. split; [vm_compute; reflexivity|].
  by apply (acquire_source_window "10.0.0.1" _ 0 (40 * second)).
Defined.
