(* ===== verification/RateLimiter.v ===== *)
(** * The relay's rate limiter (relay-server/internal/relay/limiter.go)

    A fixed window counter per key, in a bounded table that is swept at most once
    per interval. The clock is the argument [now], as in the source; an instant
    that was never set ([time.Time] zero) is [None]. *)

From S2P Require Import Prelude.

Record rateBucket : Type := mkRateBucket { window : option Z; count : Z }.

Record RateLimiter : Type := mkLimiter {
  limit : Z;
  interval : Z;
  bucketTTL : Z;
  maxBuckets : Z;
  lastCleanup : option Z;
  buckets : gmap string rateBucket;
  rateDenied : Z;
  capacityDenied : Z;
  cleaned : Z
}.

Record RateLimiterStats : Type := mkStats {
  stats_Buckets : Z;
  stats_RateDenied : Z;
  stats_CapacityDenied : Z;
  stats_Cleaned : Z
}.

Definition NewBoundedRateLimiter (lim ivl max ttl : Z) : RateLimiter :=
  let max := if max <=? 0 then 4096 else max in
  let ttl := if ttl <? ivl then 2 * ivl else ttl in
  mkLimiter lim ivl ttl max None ∅ 0 0 0.

Definition NewRateLimiter (lim ivl : Z) : RateLimiter := NewBoundedRateLimiter lim ivl 4096 (2 * ivl).

(** [t.IsZero() || now.Sub(t) >= d] *)
Definition unset_or_older (now : Z) (t : option Z) (d : Z) : bool :=
  match t with None => true | Some t => now - t >=? d end.

(** The buckets [cleanupLocked] deletes: a bucket in the table always has its
    window set; the zero instant is older than any duration. *)
Definition stale (now ttl : Z) (b : rateBucket) : bool := unset_or_older now (window b) ttl.

Definition cleanupLocked (now : Z) (l : RateLimiter) : RateLimiter :=
  let kept := filter (fun kb => stale now (bucketTTL l) kb.2 = false) (buckets l) in
  mkLimiter (limit l) (interval l) (bucketTTL l) (maxBuckets l) (Some now) kept (rateDenied l)
    (capacityDenied l)
    (wrap_u64 (cleaned l + (Z.of_nat (size (buckets l)) - Z.of_nat (size kept)))).

Definition set_buckets (bs : gmap string rateBucket) (l : RateLimiter) : RateLimiter :=
  mkLimiter (limit l) (interval l) (bucketTTL l) (maxBuckets l) (lastCleanup l) bs (rateDenied l)
    (capacityDenied l) (cleaned l).
Definition set_denied (rate capacity : Z) (l : RateLimiter) : RateLimiter :=
  mkLimiter (limit l) (interval l) (bucketTTL l) (maxBuckets l) (lastCleanup l) (buckets l) rate
    capacity (cleaned l).

Definition Allow (key : string) (now : Z) (l : RateLimiter) : bool * RateLimiter :=
  if limit l <=? 0 then (true, l)
  else
    let l := if unset_or_older now (lastCleanup l) (interval l) then cleanupLocked now l else l in
    if bool_decide (buckets l !! key = None) && (Z.of_nat (size (buckets l)) >=? maxBuckets l)
    then (false, set_denied (rateDenied l) (wrap_u64 (capacityDenied l + 1)) l)
    else
      let bucket := default (mkRateBucket None 0) (buckets l !! key) in
      let bucket :=
        if unset_or_older now (window bucket) (interval l) then mkRateBucket (Some now) 0
        else bucket in
      if count bucket >=? limit l then
        (false, set_denied (wrap_u64 (rateDenied l + 1)) (capacityDenied l)
                  (set_buckets (<[key := bucket]> (buckets l)) l))
      else
        (true, set_buckets (<[key := mkRateBucket (window bucket) (count bucket + 1)]> (buckets l)) l).

Definition Stats (l : RateLimiter) : RateLimiterStats :=
  mkStats (Z.of_nat (size (buckets l))) (rateDenied l) (capacityDenied l) (cleaned l).

(** ** Executions *)

(** The calls of a limiter: keys and instants. *)
Definition run (calls : list (string * Z)) (l : RateLimiter) : RateLimiter :=
  fold_left (fun l c => snd (Allow c.1 c.2 l)) calls l.

(** The instants at which [Allow] let one key through. *)
Fixpoint granted (key : string) (calls : list (string * Z)) (l : RateLimiter) : list Z :=
  match calls with
  | [] => []
  | (k, now) :: calls =>
      let '(ok, l') := Allow k now l in
      (if bool_decide (k = key) && ok then [now] else []) ++ granted key calls l'
  end.

(** A clock that does not run backwards. *)
Fixpoint clock_from (t : Z) (calls : list (string * Z)) : Prop :=
  match calls with
  | [] => True
  | (_, now) :: calls => t <= now /\ clock_from now calls
  end.

(** ** The windows of one key *)

Section windows.
Context (lim ivl : Z) (Hlim : 0 < lim) (Hivl : 0 < ivl).

(** The windows opened for a key, the newest first: its start and its grants. *)
Fixpoint windows_ok (ws : list (Z * list Z)) : Prop :=
  match ws with
  | [] => True
  | (s, gs) :: ws =>
      Forall (fun g => s <= g < s + ivl) gs /\ zlen gs <= lim /\
      match ws with [] => True | (s', _) :: _ => s' + ivl <= s end /\ windows_ok ws
  end.

Definition grants (ws : list (Z * list Z)) : list Z := concat (map snd ws).

Lemma windows_before s gs ws :
  windows_ok ((s, gs) :: ws) -> Forall (fun g => g < s) (grants ws).
Proof.
  revert s gs. induction ws as [|[s' gs'] ws IH]; intros s gs; [constructor|].
  intros (_ & _ & Hs & Hws). unfold grants. simpl. apply Forall_app. split.
  - destruct Hws as [Hg _]. eapply Forall_impl; [exact Hg|]. simpl. lia.
  - eapply Forall_impl; [exact (IH _ _ Hws)|]. simpl. lia.
Qed.

Lemma windows_none t ws :
  Forall (fun g => g < t) (grants ws) ->
  filter (fun x => t <= x < t + ivl) (grants ws) = [].
Proof.
  rewrite Forall_forall. intros Hall. apply filter_none. intros x Hx. specialize (Hall x Hx). lia.
Qed.

(** A span starting within or after the newest window meets only that window. *)
Lemma windows_newest t s gs ws :
  windows_ok ((s, gs) :: ws) -> s <= t ->
  zlen (filter (fun x => t <= x < t + ivl) (grants ((s, gs) :: ws))) <= lim.
Proof.
  intros Hok Hs. pose proof (windows_before _ _ _ Hok) as Hb. destruct Hok as (_ & Hl & _).
  unfold grants. simpl. rewrite filter_app, length_app.
  fold (grants ws). rewrite (windows_none t ws).
  - pose proof (length_filter (fun x => t <= x < t + ivl) gs). simpl. lia.
  - eapply Forall_impl; [exact Hb|]. simpl. lia.
Qed.

(** A span no longer than the interval meets at most two windows. *)
Lemma windows_span t ws :
  windows_ok ws -> zlen (filter (fun x => t <= x < t + ivl) (grants ws)) <= 2 * lim.
Proof.
  induction ws as [|[s gs] ws IH]; intros Hok; [simpl; lia|].
  destruct (Z_le_gt_dec s t); [pose proof (windows_newest t s gs ws Hok); lia|].
  destruct Hok as (Hg & Hl & Hs & Hws).
  unfold grants. simpl. rewrite filter_app, length_app. fold (grants ws).
  destruct (Z_le_gt_dec (t + ivl) s).
  - rewrite (filter_none _ gs); [simpl; apply IH, Hws|].
    intros x Hx. rewrite Forall_forall in Hg. specialize (Hg x Hx). lia.
  - pose proof (length_filter (fun x => t <= x < t + ivl) gs).
    assert (zlen (filter (fun x => t <= x < t + ivl) (grants ws)) <= lim); [|lia].
    destruct ws as [|[s' gs'] ws]; [simpl; lia|]. apply windows_newest; [done|lia].
Qed.
End windows.

(** The configuration of a limiter never changes. *)
Definition same_config (l l' : RateLimiter) : Prop :=
  limit l' = limit l /\ interval l' = interval l /\ bucketTTL l' = bucketTTL l /\
  maxBuckets l' = maxBuckets l.

(** How the bucket of a key reflects its newest window. *)
Definition reflects (key : string) (l : RateLimiter) (t : Z) (ws : list (Z * list Z)) : Prop :=
  match buckets l !! key with
  | Some b => exists s gs ws', ws = (s, gs) :: ws' /\ s <= t /\ window b = Some s /\
              count b = zlen gs
  | None => match ws with [] => True | (s, _) :: _ => s + interval l <= t end
  end.

Definition limiter_ok (l : RateLimiter) : Prop :=
  0 < limit l /\ 0 < interval l /\ interval l <= bucketTTL l /\
  Z.of_nat (size (buckets l)) <= maxBuckets l.

Lemma reflects_later key l t t' ws : t <= t' -> reflects key l t ws -> reflects key l t' ws.
Proof.
  unfold reflects. destruct (buckets l !! key).
  - intros Ht (s & gs & ws' & -> & ? & ? & ?). exists s, gs, ws'. repeat split; try done. lia.
  - destruct ws as [|[]]; [done|lia].
Qed.

Lemma cleanup_lookup now l k :
  buckets (cleanupLocked now l) !! k =
  match buckets l !! k with
  | Some b => if stale now (bucketTTL l) b then None else Some b
  | None => None
  end.
Proof.
  simpl. rewrite map_lookup_filter. destruct (buckets l !! k) as [b|]; simpl; [|done].
  destruct (stale now (bucketTTL l) b) eqn:E.
  - rewrite option_guard_False; [done|congruence].
  - by rewrite option_guard_True.
Qed.

Lemma cleanup_ok now l : limiter_ok l -> limiter_ok (cleanupLocked now l).
Proof.
  intros (? & ? & ? & ?). unfold limiter_ok. simpl.
  pose proof (map_size_filter (fun kb : string * rateBucket => stale now (bucketTTL l) kb.2 = false)
    (buckets l)). repeat split; try done. lia.
Qed.

Lemma cleanup_reflects key now l t ws :
  limiter_ok l -> t <= now -> reflects key l t ws -> reflects key (cleanupLocked now l) now ws.
Proof.
  intros (_ & _ & Httl & _) Ht Hr. apply (reflects_later _ _ _ now) in Hr; [|done].
  unfold reflects in *. rewrite cleanup_lookup. change (interval (cleanupLocked now l)) with (interval l).
  destruct (buckets l !! key) as [b|]; [|done].
  destruct Hr as (s & gs & ws' & -> & Hs & Hw & Hc). unfold stale, unset_or_older. rewrite Hw.
  destruct (Z.geb_spec (now - s) (bucketTTL l)); [lia|eauto 8].
Qed.

(** The limiter [Allow] works on, after the sweep it may do first. *)
Definition swept (now : Z) (l : RateLimiter) : RateLimiter :=
  if unset_or_older now (lastCleanup l) (interval l) then cleanupLocked now l else l.

Lemma swept_spec key now l t ws :
  limiter_ok l -> t <= now -> reflects key l t ws ->
  limiter_ok (swept now l) /\ same_config l (swept now l) /\ reflects key (swept now l) now ws.
Proof.
  intros Hok Ht Hr. unfold swept. destruct (unset_or_older _ _ _).
  - split; [by apply cleanup_ok|]. split; [done|]. by eapply cleanup_reflects.
  - split; [done|]. split; [done|]. by eapply reflects_later.
Qed.

(** The bucket an attempt of [key] is counted in. *)
Definition current (now : Z) (key : string) (l : RateLimiter) : rateBucket :=
  let b := default (mkRateBucket None 0) (buckets l !! key) in
  if unset_or_older now (window b) (interval l) then mkRateBucket (Some now) 0 else b.

Lemma current_window key now l ws :
  limiter_ok l -> windows_ok (limit l) (interval l) ws -> reflects key l now ws ->
  exists s gs ws', windows_ok (limit l) (interval l) ((s, gs) :: ws') /\
    grants ((s, gs) :: ws') = grants ws /\ s <= now < s + interval l /\
    window (current now key l) = Some s /\ count (current now key l) = zlen gs.
Proof.
  intros (Hlim & Hivl & _) Hws Hr. unfold reflects in Hr. unfold current.
  destruct (buckets l !! key) as [b|]; simpl.
  - destruct Hr as (s & gs & ws' & -> & Hs & Hw & Hc). rewrite Hw. simpl.
    destruct (Z.geb_spec (now - s) (interval l)).
    + exists now, [], ((s, gs) :: ws'). simpl in *. repeat split; try done; try lia; try apply Hws.
    + exists s, gs, ws'. repeat split; try done; try lia; try apply Hws.
  - exists now, [], ws. simpl. repeat split; try done; try lia.
Qed.

Lemma insert_ok key b l :
  limiter_ok l -> (buckets l !! key = None -> Z.of_nat (size (buckets l)) < maxBuckets l) ->
  limiter_ok (set_buckets (<[key := b]> (buckets l)) l).
Proof.
  intros (? & ? & ? & ?) Hroom. unfold limiter_ok. simpl. repeat split; try done.
  rewrite map_size_insert. destruct (buckets l !! key); simpl; [lia|]. specialize (Hroom eq_refl). lia.
Qed.

(** [Allow] after the sweep. *)
Definition attempt (key : string) (now : Z) (l : RateLimiter) : bool * RateLimiter :=
  if bool_decide (buckets l !! key = None) && (Z.of_nat (size (buckets l)) >=? maxBuckets l)
  then (false, set_denied (rateDenied l) (wrap_u64 (capacityDenied l + 1)) l)
  else
    let b := current now key l in
    if count b >=? limit l then
      (false, set_denied (wrap_u64 (rateDenied l + 1)) (capacityDenied l)
                (set_buckets (<[key := b]> (buckets l)) l))
    else (true, set_buckets (<[key := mkRateBucket (window b) (count b + 1)]> (buckets l)) l).

Lemma Allow_attempt key now l : limiter_ok l -> Allow key now l = attempt key now (swept now l).
Proof.
  intros (Hl & _). unfold Allow. destruct (Z.leb_spec (limit l) 0); [lia|]. reflexivity.
Qed.

(** An attempt of another key leaves the key's windows alone. *)
Lemma attempt_other key k now l :
  k <> key -> buckets (snd (attempt k now l)) !! key = buckets l !! key.
Proof.
  intros Hk. unfold attempt. repeat case_if; simpl; try done; by rewrite lookup_insert_ne.
Qed.

Lemma attempt_config k now l : same_config l (snd (attempt k now l)).
Proof. unfold attempt. by repeat case_if. Qed.

Lemma attempt_ok k now l : limiter_ok l -> limiter_ok (snd (attempt k now l)).
Proof.
  intros Hok. unfold attempt. case_if; simpl; [done|].
  assert (buckets l !! k = None -> Z.of_nat (size (buckets l)) < maxBuckets l) as Hroom.
  { intros Hn. rewrite bool_decide_eq_true_2 in Hif by done. simpl in Hif. by zprop. }
  case_if; simpl; by apply insert_ok.
Qed.

(** An attempt of the key itself. *)
Lemma attempt_windows key now l ws :
  limiter_ok l -> windows_ok (limit l) (interval l) ws -> reflects key l now ws ->
  exists ws', windows_ok (limit l) (interval l) ws' /\ reflects key (snd (attempt key now l)) now ws' /\
    grants ws' ≡ₚ (if fst (attempt key now l) then [now] else []) ++ grants ws /\
    (fst (attempt key now l) = false ->
     limit l <= zlen (filter (fun x => now - interval l < x) (grants ws)) \/
     maxBuckets l <= Z.of_nat (size (buckets l)) /\ buckets l !! key = None).
Proof.
  intros Hok Hws Hr.
  destruct (current_window key now l ws Hok Hws Hr) as (s & gs & ws' & Hw' & Hg & Hs & Hw & Hc).
  unfold attempt. case_if; simpl.
  { zprop. exists ws. repeat split; try done. intros _. right. split; [lia|done]. }
  clear Hif. case_if; simpl; zprop; unfold reflects; simpl; rewrite lookup_insert_eq.
  - exists ((s, gs) :: ws'). split; [done|]. split; [exists s, gs, ws'; repeat split; try done; lia|].
    split; [by rewrite Hg|]. intros _. left. rewrite <- Hg. unfold grants. simpl.
    rewrite filter_app, length_app, (filter_all _ gs); [lia|].
    destruct Hw' as [Hgs _]. eapply Forall_impl; [exact Hgs|]. simpl. lia.
  - exists ((s, now :: gs) :: ws'). split.
    { destruct Hw' as (Hgs & Hl & Hrest). split; [constructor; [lia|done]|]. split; [simpl; lia|done]. }
    split; [exists s, (now :: gs), ws'; repeat split; try done; simpl; lia|].
    split; [|done]. rewrite <- Hg. done.
Qed.

(** The instant after a sequence of calls. *)
Definition clock_after (t : Z) (calls : list (string * Z)) : Z := fold_left (fun _ c => c.2) calls t.

Lemma clock_from_app t calls key now :
  clock_from t (calls ++ [(key, now)]) -> clock_from t calls /\ clock_after t calls <= now.
Proof.
  revert t. induction calls as [|[k x] calls IH]; intros t; simpl; [tauto|].
  intros [? Hc]. apply IH in Hc. tauto.
Qed.

Lemma Allow_step key k now t l ws :
  limiter_ok l -> windows_ok (limit l) (interval l) ws -> t <= now -> reflects key l t ws ->
  let l' := snd (Allow k now l) in
  limiter_ok l' /\ same_config l l' /\
  exists ws', windows_ok (limit l') (interval l') ws' /\ reflects key l' now ws' /\
    grants ws' ≡ₚ (if bool_decide (k = key) && fst (Allow k now l) then [now] else []) ++ grants ws.
Proof.
  intros Hok Hws Ht Hr. cbv zeta. rewrite Allow_attempt by done.
  destruct (swept_spec key now l t ws Hok Ht Hr) as (Hok1 & (El & Ei & Et & Em) & Hr1).
  destruct (attempt_config k now (swept now l)) as (El' & Ei' & Et' & Em').
  split; [by apply attempt_ok|]. split; [unfold same_config; intuition congruence|].
  rewrite El', Ei', El, Ei. destruct (decide (k = key)) as [->|Hk].
  - rewrite bool_decide_eq_true_2 by done.
    destruct (attempt_windows key now (swept now l) ws) as (ws' & Hw & ? & ? & _);
      rewrite ?El, ?Ei; try done.
    exists ws'. rewrite El, Ei in Hw. done.
  - rewrite bool_decide_eq_false_2 by done. exists ws. split; [done|]. split; [|done].
    unfold reflects in *. by rewrite attempt_other, Ei' by done.
Qed.

Lemma run_windows key calls l t ws :
  limiter_ok l -> windows_ok (limit l) (interval l) ws -> clock_from t calls -> reflects key l t ws ->
  limiter_ok (run calls l) /\ same_config l (run calls l) /\
  exists ws', windows_ok (limit l) (interval l) ws' /\
    reflects key (run calls l) (clock_after t calls) ws' /\
    grants ws' ≡ₚ granted key calls l ++ grants ws.
Proof.
  revert l t ws. induction calls as [|[k now] calls IH]; intros l t ws Hok Hws Hclk Hr; simpl.
  { split; [done|]. split; [done|]. by exists ws. }
  destruct Hclk as [Ht Hclk].
  destruct (Allow_step key k now t l ws Hok Hws Ht Hr) as (Hok' & (El & Ei & Et & Em) & ws1 & Hw1 & Hr1 & Hp).
  destruct (Allow k now l) as [ok l'] eqn:E. simpl in *.
  destruct (IH l' now ws1 Hok' Hw1 Hclk Hr1) as (Hok2 & (El2 & Ei2 & Et2 & Em2) & ws2 & Hw2 & Hr2 & Hp2).
  split; [done|]. split; [unfold same_config; intuition congruence|].
  exists ws2. rewrite <- El, <- Ei. split; [done|]. split; [done|].
  rewrite Hp2, Hp, <- !app_assoc. apply Permutation_app_swap_app.
Qed.

Lemma limiter_ok_new lim ivl max ttl :
  0 < lim -> 0 < ivl -> limiter_ok (NewBoundedRateLimiter lim ivl max ttl).
Proof.
  intros. unfold limiter_ok, NewBoundedRateLimiter. cbn [limit interval bucketTTL maxBuckets buckets].
  rewrite map_size_empty. repeat case_if; zprop; lia.
Qed.

(** ** Properties *)

(** The rate is bounded whatever the other keys do and whenever the table is
    swept: in any span no longer than the interval, a key is let through at most
    twice the limit (once per fixed window the span meets). *)
Theorem Allow_rate_bound key calls lim ivl max ttl t0 t :
  0 < lim -> 0 < ivl -> clock_from t0 calls ->
  zlen (filter (fun x => t <= x < t + ivl) (granted key calls (NewBoundedRateLimiter lim ivl max ttl)))
    <= 2 * lim.
Proof.
  intros Hl Hi Hclk.
  destruct (run_windows key calls (NewBoundedRateLimiter lim ivl max ttl) t0 [])
    as (_ & _ & ws & Hw & _ & Hp); try done; [by apply limiter_ok_new|].
  unfold grants in Hp at 2. simpl in Hp. rewrite app_nil_r in Hp. rewrite <- Hp.
  by apply windows_span.
Qed.

(** A refusal is justified: when an attempt is refused, the key was already let
    through [limit] times within the last interval, or the table holds
    [maxBuckets] other keys. *)
Theorem Allow_denied key calls now lim ivl max ttl t0 :
  0 < lim -> 0 < ivl -> clock_from t0 (calls ++ [(key, now)]) ->
  let l := run calls (NewBoundedRateLimiter lim ivl max ttl) in
  fst (Allow key now l) = false ->
  lim <= zlen (filter (fun x => now - ivl < x)
                 (granted key calls (NewBoundedRateLimiter lim ivl max ttl))) \/
  Z.of_nat (size (buckets (snd (Allow key now l)))) = maxBuckets l /\
  buckets (snd (Allow key now l)) !! key = None.
Proof.
  intros Hl Hi Hclk. cbv zeta. apply clock_from_app in Hclk as [Hclk Hnow].
  destruct (run_windows key calls (NewBoundedRateLimiter lim ivl max ttl) t0 [])
    as (Hok & (El & Ei & _ & _) & ws & Hw & Hr & Hp); try done; [by apply limiter_ok_new|].
  generalize dependent (run calls (NewBoundedRateLimiter lim ivl max ttl)). intros l Hok El Ei Hr.
  destruct (swept_spec key now l _ ws Hok Hnow Hr) as (Hok1 & (El1 & Ei1 & _ & Em1) & Hr1).
  rewrite Allow_attempt by done. simpl in El, Ei.
  destruct (attempt_windows key now (swept now l) ws) as (_ & _ & _ & _ & Hd);
    rewrite ?El1, ?Ei1, ?El, ?Ei; try done.
  intros Hfalse. destruct (Hd Hfalse) as [Hn|[Hfull Hnone]].
  - left. unfold grants in Hp at 2. simpl in Hp. rewrite app_nil_r in Hp.
    by rewrite El1, Ei1, El, Ei, Hp in Hn.
  - right. destruct Hok1 as (_ & _ & _ & Hsize).
    assert (attempt key now (swept now l) =
      (false, set_denied (rateDenied (swept now l)) (wrap_u64 (capacityDenied (swept now l) + 1))
                (swept now l))) as ->.
    { unfold attempt. rewrite bool_decide_eq_true_2 by done.
      destruct (Z.geb_spec (Z.of_nat (size (buckets (swept now l)))) (maxBuckets (swept now l)));
        [done|lia]. }
    simpl. split; [lia|done].
Qed.

Definition wit_calls : list (string * Z) := [("a", 0); ("b", 1); ("a", 2); ("a", 3)].

Lemma Allow_rate_bound_witness :
  granted "a" (wit_calls ++ [("a", 12); ("a", 13)]) (NewBoundedRateLimiter 2 10 5 20) = [0; 2; 12; 13] /\
  zlen (filter (fun x => 2 <= x < 2 + 10)
    (granted "a" (wit_calls ++ [("a", 12); ("a", 13)]) (NewBoundedRateLimiter 2 10 5 20))) <= 2 * 2.
Proof.
  split; [vm_compute; reflexivity|].
  apply (Allow_rate_bound "a" (wit_calls ++ [("a", 12); ("a", 13)]) 2 10 5 20 0 2);
    [reflexivity|reflexivity|]. vm_compute. by repeat split.
Defined.

Lemma Allow_denied_witness :
  2 <= zlen (filter (fun x => 5 - 10 < x) (granted "a" wit_calls (NewBoundedRateLimiter 2 10 5 20))) \/
  Z.of_nat (size (buckets (snd (Allow "a" 5 (run wit_calls (NewBoundedRateLimiter 2 10 5 20)))))) = 5 /\
  buckets (snd (Allow "a" 5 (run wit_calls (NewBoundedRateLimiter 2 10 5 20)))) !! "a" = None.
Proof.
  apply (Allow_denied "a" wit_calls 5 2 10 5 20 0); [reflexivity|reflexivity| |].
  - vm_compute. by repeat split.
  - vm_compute. reflexivity.
Defined.
