(* ===== verification/ManagementCodec.v ===== *)
(** * The strict codec of the management API (go-bridge/admission/codec.go, decode.go)

    Identifiers and tokens as 32 lower-case hexadecimal characters, unsigned
    integers as plain digit tokens, objects with exactly the expected keys, and
    the redaction of anything that looks like a token. Texts are byte strings.
    [encoding/json] is a parameter of the decoders: [unmarshal_object] gives the
    fields of an object in the order of the text, with the raw text of each value
    ([None] when the text is not an object), and [unmarshal_string] the value of a
    string literal. *)

From S2P Require Import Prelude.
From S2P Require Import GoText.

Definition ManagementSchemaVersion : Z := 1.

Inductive CodecError : Type :=
| ErrInvalidOperationID | ErrInvalidToken | ErrMissingNumber | ErrQuotedNumber | ErrNullNumber
| ErrBoolNumber | ErrInvalidNumberToken | ErrNumberOverflow | ErrInvalidPID | ErrInvalidJSON
| ErrUnknownField | ErrMissingField | ErrNullField | ErrDuplicateKey | ErrInvalidString
| ErrUnknownGroup.

#[export] Instance CodecError_eq_dec : EqDecision CodecError.
Proof. solve_decision. Defined.

(** Results with an error, and [if err != nil { return err }]. *)
Definition result (A : Type) : Type := CodecError + A.

Notation "'let!' x ':=' e 'in' k" := (match e with inl err => inl err | inr x => k end)
  (at level 10, x name, e at level 200, k at level 200) : bridge_scope.

(** ** Identifiers and tokens *)

(** [Token] and [OperationID]: 16 bytes. *)
Definition Token : Type := list Z.
Definition OperationID : Type := list Z.

(** Every value of the Go type [[16]byte]. *)
Definition bytes16 (t : list Z) : Prop := length t = 16%nat /\ Forall (fun b => 0 <= b < 256) t.

(** [[0-9a-f]] *)
Definition lower_hex (c : Z) : bool := within 48 57 c || within 97 102 c.

(** [operationOrTokenRegex.MatchString]: [^[0-9a-f]{32}$]. *)
Definition matches_hex32 (s : list Z) : bool := (zlen s =? 32) && forallb lower_hex s.

Definition hex_value (c : Z) : Z := if within 48 57 c then c - 48 else c - 87.

(** [hex.Decode]: two characters a byte. *)
Fixpoint hex_decode (s : list Z) : list Z :=
  match s with
  | h :: l :: s => 16 * hex_value h + hex_value l :: hex_decode s
  | _ => []
  end.

Definition DecodeOperationID (s : string) : result OperationID :=
  if negb (matches_hex32 (bytes_of s)) then inl ErrInvalidOperationID
  else inr (hex_decode (bytes_of s)).

Definition DecodeToken (s : string) : result Token :=
  if negb (matches_hex32 (bytes_of s)) then inl ErrInvalidToken
  else inr (hex_decode (bytes_of s)).

(** [hex.EncodeToString] *)
Definition hex_digit (n : Z) : Z := if n <? 10 then 48 + n else 87 + n.

Definition hex_encode (t : list Z) : list Z :=
  concat (map (fun b => [hex_digit (b / 16); hex_digit (b mod 16)]) t).

Definition EncodeHex (t : list Z) : string := string_of_bytes (hex_encode t).

(** [subtle.ConstantTimeCompare] on two arrays of one length. *)
Fixpoint accumulate_diff (v : Z) (a b : list Z) : Z :=
  match a, b with
  | x :: a, y :: b => accumulate_diff (Z.lor v (Z.lxor x y)) a b
  | _, _ => v
  end.

Definition ConstantTimeCompareToken (a b : Token) : bool :=
  (zlen a =? zlen b) && (accumulate_diff 0 a b =? 0).

Definition Equal (a b : OperationID) : bool := bool_decide (a = b).

(** ** Numbers *)

Definition digit (c : Z) : bool := within 48 57 c.

(** The value of a sequence of decimal digits, [strconv.ParseUint]'s, before its
    range check. *)
Definition decimal (s : list Z) : Z := fold_left (fun v c => 10 * v + (c - 48)) s 0.

Definition ParseStrictUInt (raw : string) (bits : Z) : result Z :=
  let s := TrimSpace (bytes_of raw) in
  match s with
  | [] => inl ErrMissingNumber
  | c :: _ =>
      if c =? 34 then inl ErrQuotedNumber
      else if c =? 110 then inl ErrNullNumber
      else if (c =? 116) || (c =? 102) then inl ErrBoolNumber
      else if (c =? 45) || (c =? 43) || (c =? 46) then inl ErrInvalidNumberToken
      else if negb (within 48 57 c) then inl ErrInvalidNumberToken
      else if negb (forallb digit s) then inl ErrInvalidNumberToken
      else if decimal s >? 2 ^ bits - 1 then inl ErrNumberOverflow
      else inr (decimal s)
  end.

Definition ParseStrictInt32Positive (raw : string) : result Z :=
  let! v := ParseStrictUInt raw 31 in
  if v <? 1 then inl ErrInvalidPID else inr v.

(** ** Redaction *)

(** [[0-9a-fA-F]] *)
Definition any_hex (c : Z) : bool := within 48 57 c || within 97 102 c || within 65 70 c.

(** A match of [[0-9a-fA-F]{32}] at the head of a text. *)
Definition hex_run (s : list Z) : bool := (32 <=? zlen s) && forallb any_hex (take 32 s).

Definition redacted : list Z := bytes_of "[redacted]".

(** The leftmost matches replaced; [skip] counts the matched bytes left. *)
Fixpoint redact (skip : nat) (s : list Z) : list Z :=
  match s with
  | [] => []
  | c :: s' =>
      match skip with
      | S skip => redact skip s'
      | O => if hex_run s then redacted ++ redact 31 s' else c :: redact 0 s'
      end
  end.

Definition RedactLogValue (s : string) : string := string_of_bytes (redact 0 (bytes_of s)).

(** ** Objects *)

Section objects.
Context (unmarshal_object : string -> option (list (string * string))).
Context (unmarshal_string : string -> option string).

(** [json.Unmarshal] into a map: the last value of a key stands. *)
Definition last_wins (fields : list (string * string)) : gmap string string :=
  fold_left (fun m kv => <[kv.1 := kv.2]> m) fields ∅.

(** The loop of [assertNoDuplicateKeys] over the keys of the token stream. *)
Fixpoint scan_duplicates (seen : gset string) (keys : list string) : bool :=
  match keys with
  | [] => false
  | k :: keys => if bool_decide (k ∈ seen) then true else scan_duplicates ({[k]} ∪ seen) keys
  end.

Definition assertNoDuplicateKeys (raw : string) : option CodecError :=
  match unmarshal_object raw with
  | None => Some ErrInvalidJSON
  | Some fields => if scan_duplicates ∅ (map fst fields) then Some ErrDuplicateKey else None
  end.

Definition null_text : list Z := bytes_of "null".

(** [len(trimmed) == 0 || trimmed[0] != '{'], negated *)
Definition starts_object (s : list Z) : bool :=
  match s with c :: _ => c =? 123 | [] => false end.

(** The key an error names is not modelled (it depends on the iteration order of
    a Go map); which error is answered does not. *)
Definition DecodeStrictObject (raw : string) (allowed : list string) : result (gmap string string) :=
  if negb (starts_object (TrimSpace (bytes_of raw))) then inl ErrInvalidJSON
  else
    match unmarshal_object raw with
    | None => inl ErrInvalidJSON
    | Some fields =>
        let m := last_wins fields in
        if bool_decide (Exists (fun k => k ∉ allowed) (map fst (map_to_list m)))
        then inl ErrUnknownField
        else if bool_decide (Exists (fun k => m !! k = None) allowed) then inl ErrMissingField
        else if bool_decide
          (Exists (fun kv => TrimSpace (bytes_of kv.2) = null_text) (map_to_list m))
        then inl ErrNullField
        else match assertNoDuplicateKeys raw with Some err => inl err | None => inr m end
    end.

Definition DecodeStrictString (raw : string) : result string :=
  let trimmed := TrimSpace (bytes_of raw) in
  if zlen trimmed =? 0 then inl ErrMissingField
  else if bool_decide (trimmed = null_text) then inl ErrNullField
  else match unmarshal_string raw with
       | None => inl ErrInvalidString
       | Some s => inr s
       end.

(** [m["field"]]: the raw text of a field [DecodeStrictObject] found. *)
Definition field (m : gmap string string) (k : string) : string := default "" (m !! k).

Record RuntimeIdentity : Type := mkIdentity { PID : Z; BridgeEpoch : Z }.

Record QuiesceRequest : Type := mkQuiesceRequest {
  q_ManagementSchemaVersion : Z;
  q_OperationID : OperationID;
  q_ExpectedRuntime : RuntimeIdentity;
  q_ExpectedHealthEpoch : Z
}.

Record CommitRequest : Type := mkCommitRequest {
  c_ManagementSchemaVersion : Z;
  c_OperationID : OperationID;
  c_ExpectedRuntime : RuntimeIdentity;
  c_ExpectedHealthEpoch : Z;
  c_QuiesceEpoch : Z;
  c_Token : Token
}.

Definition decodeRuntimeIdentity (raw : string) : result RuntimeIdentity :=
  let! m := DecodeStrictObject raw ["pid"; "bridgeEpoch"] in
  let! pid := ParseStrictInt32Positive (field m "pid") in
  let! be := ParseStrictUInt (field m "bridgeEpoch") 64 in
  inr (mkIdentity pid be).

Definition quiesce_fields : list string :=
  ["managementSchemaVersion"; "operationId"; "expectedRuntime"; "expectedHealthEpoch"].

Definition DecodeQuiesceRequest (raw : string) : result QuiesceRequest :=
  let! m := DecodeStrictObject raw quiesce_fields in
  let! msv := ParseStrictUInt (field m "managementSchemaVersion") 64 in
  let! opIDStr := DecodeStrictString (field m "operationId") in
  let! opID := DecodeOperationID opIDStr in
  let! rt := decodeRuntimeIdentity (field m "expectedRuntime") in
  let! hep := ParseStrictUInt (field m "expectedHealthEpoch") 64 in
  inr (mkQuiesceRequest msv opID rt hep).

Definition commit_fields : list string := quiesce_fields ++ ["quiesceEpoch"; "token"].

Definition DecodeCommitRequest (raw : string) : result CommitRequest :=
  let! m := DecodeStrictObject raw commit_fields in
  let! msv := ParseStrictUInt (field m "managementSchemaVersion") 64 in
  let! opIDStr := DecodeStrictString (field m "operationId") in
  let! opID := DecodeOperationID opIDStr in
  let! rt := decodeRuntimeIdentity (field m "expectedRuntime") in
  let! hep := ParseStrictUInt (field m "expectedHealthEpoch") 64 in
  let! qep := ParseStrictUInt (field m "quiesceEpoch") 64 in
  let! tokStr := DecodeStrictString (field m "token") in
  let! tok := DecodeToken tokStr in
  inr (mkCommitRequest msv opID rt hep qep tok).

Definition DecodeOperationIDmust (raw : string) : result OperationID :=
  let! s := DecodeStrictString raw in DecodeOperationID s.

(** [s] is one of the cases of a [switch]. *)
Definition one_of (s : string) (cases : list string) : bool := existsb (String.eqb s) cases.

Definition quiesceResultExtra (outcome : string) : list string :=
  if one_of outcome ["safe"] then
    ["runtimeIdentity"; "healthEpoch"; "quiesceEpoch"; "token"; "leaseMillis"; "leaseRemainingMillis"]
  else if one_of outcome ["deferred"] then ["activeTurns"; "pendingInteractions"; "retryAfterMillis"]
  else [].

Definition commitResultExtra (outcome : string) : list string :=
  if one_of outcome ["committed"; "already_committed"]
  then ["runtimeIdentity"; "healthEpoch"; "quiesceEpoch"] else [].

Definition abortResultExtra (outcome : string) : list string :=
  if one_of outcome ["aborted"] then ["runtimeIdentity"; "healthEpoch"] else [].

Definition isKnownOutcome (which outcome : string) : bool :=
  if String.eqb which "quiesce" then
    one_of outcome ["identity_mismatch"; "epoch_mismatch"; "already_committed"; "already_quiescing";
                    "operation_reused"; "token_generation_failed"]
  else if String.eqb which "commit" then
    one_of outcome ["identity_mismatch"; "epoch_mismatch"; "quiesce_mismatch"; "token_mismatch";
                    "lease_expired"]
  else if String.eqb which "abort" then
    one_of outcome ["already_accepting"; "already_committed"; "identity_mismatch"; "epoch_mismatch";
                    "quiesce_mismatch"; "token_mismatch"; "lease_expired"]
  else false.

(** The fields one result may carry beyond the common ones; [None] for an unknown
    group. *)
Definition result_extra (which outcome : string) : option (list string) :=
  if String.eqb which "quiesce" then Some (quiesceResultExtra outcome)
  else if String.eqb which "commit" then Some (commitResultExtra outcome)
  else if String.eqb which "abort" then Some (abortResultExtra outcome)
  else None.

(** The type of one extra field; [None] when it is right. *)
Definition extra_error (m : gmap string string) (k : string) : option CodecError :=
  let error {A} (r : result A) : option CodecError :=
    match r with inl err => Some err | inr _ => None end in
  if String.eqb k "token" then
    error (let! s := DecodeStrictString (field m k) in DecodeToken s)
  else if String.eqb k "runtimeIdentity" then error (decodeRuntimeIdentity (field m k))
  else if one_of k ["healthEpoch"; "quiesceEpoch"] then error (ParseStrictUInt (field m k) 64)
  else if one_of k ["leaseMillis"; "leaseRemainingMillis"; "retryAfterMillis"] then
    error (ParseStrictUInt (field m k) 32)
  else if one_of k ["activeTurns"; "pendingInteractions"] then error (ParseStrictUInt (field m k) 32)
  else None.

(** The loop over the extra fields: the first error. *)
Fixpoint extra_errors (m : gmap string string) (extra : list string) : option CodecError :=
  match extra with
  | [] => None
  | k :: extra => match extra_error m k with Some err => Some err | None => extra_errors m extra end
  end.

Definition common_fields : list string := ["managementSchemaVersion"; "operationId"; "outcome"].

Definition DecodeResultShape (raw which : string) : result (string * gmap string string) :=
  match unmarshal_object raw with
  | None => inl ErrInvalidJSON
  | Some loose =>
      match last_wins loose !! "outcome" with
      | None => inl ErrMissingField
      | Some outcomeRaw =>
          let! outcome := DecodeStrictString outcomeRaw in
          match result_extra which outcome with
          | None => inl ErrUnknownGroup
          | Some extra =>
              if (zlen extra =? 0) && negb (isKnownOutcome which outcome) then inl ErrInvalidString
              else
                let! m := DecodeStrictObject raw (common_fields ++ extra) in
                let! _v := ParseStrictUInt (field m "managementSchemaVersion") 64 in
                let! _o := DecodeOperationIDmust (field m "operationId") in
                match extra_errors m extra with
                | Some err => inl err
                | None => inr (outcome, m)
                end
          end
      end
  end.
End objects.

(** ** Redaction *)

(** The hexadecimal characters at the head of a text. *)
Definition lead (s : list Z) : nat := length (take_while any_hex s).

(** No 32 hexadecimal characters in a row. *)
Fixpoint no_run (s : list Z) : Prop :=
  match s with [] => True | c :: s' => (lead s < 32)%nat /\ no_run s' end.

Lemma run_lead n s : (Nat.leb n (length s) && forallb any_hex (take n s)) = Nat.leb n (lead s).
Proof.
  unfold lead. revert s. induction n as [|n IH]; intros [|c s]; simpl; try done.
  destruct (any_hex c); simpl; [apply IH|apply andb_false_r].
Qed.

Lemma hex_run_lead s : hex_run s = Nat.leb 32 (lead s).
Proof.
  rewrite <- run_lead. unfold hex_run. f_equal.
  destruct (Z.leb_spec 32 (zlen s)), (Nat.leb_spec 32 (length s)); lia || done.
Qed.

Lemma lead_cons c s : lead (c :: s) = if any_hex c then S (lead s) else 0%nat.
Proof. unfold lead. simpl. by destruct (any_hex c). Qed.

(** The output starts with no more hexadecimal characters than the input. *)
Lemma lead_redact s : (lead (redact 0 s) <= lead s)%nat.
Proof.
  induction s as [|c s IH]; [done|]. cbn [redact]. destruct (hex_run (c :: s)); [apply Nat.le_0_l|].
  rewrite !lead_cons. destruct (any_hex c); lia.
Qed.

Lemma no_run_redacted s : no_run s -> no_run (redacted ++ s).
Proof.
  intros Hs. change redacted with [91; 114; 101; 100; 97; 99; 116; 101; 100; 93].
  cbn [app no_run]. repeat (split; [rewrite !lead_cons; cbn; lia|]). exact Hs.
Qed.

Lemma no_run_redact skip s : no_run (redact skip s).
Proof.
  revert skip. induction s as [|c s IH]; intros [|skip]; try done; cbn [redact]; [|apply IH].
  rewrite hex_run_lead. destruct (Nat.leb_spec 32 (lead (c :: s))) as [|Hl].
  - apply no_run_redacted, IH.
  - split; [|apply IH]. pose proof (lead_redact s). rewrite lead_cons in *. destruct (any_hex c); lia.
Qed.

Lemma redact_id s : no_run s -> redact 0 s = s.
Proof.
  induction s as [|c s IH]; [done|]. intros [Hl Hs]. cbn [redact]. rewrite hex_run_lead.
  destruct (Nat.leb_spec 32 (lead (c :: s))); [lia|]. by rewrite IH.
Qed.

Lemma no_run_spec pre mid post :
  no_run (pre ++ mid ++ post) -> length mid = 32%nat -> ~ Forall (fun c => any_hex c = true) mid.
Proof.
  induction pre as [|c pre IH]; simpl; [|intros [_ Hr]; by apply IH].
  intros Hr Hlen Hall. assert (32 <= lead (mid ++ post))%nat.
  { rewrite <- Hlen. clear Hr Hlen. induction Hall as [|c mid Hc _ IH]; simpl; [lia|].
    rewrite lead_cons, Hc. lia. }
  destruct mid; [done|]. destruct Hr as [Hl _]. simpl in *. lia.
Qed.

(** Every byte of a text. *)
Definition all_bytes (s : list Z) : Prop := Forall (fun b => 0 <= b < 256) s.

Lemma bytes_of_all s : all_bytes (bytes_of s).
Proof.
  apply Forall_map, Forall_forall. intros c _. pose proof (Ascii.N_ascii_bounded c). lia.
Qed.

Lemma bytes_of_string s : all_bytes s -> bytes_of (string_of_bytes s) = s.
Proof.
  intros Hs. unfold bytes_of, string_of_bytes.
  rewrite String.list_ascii_of_string_of_list_ascii, map_map.
  induction Hs as [|b s Hb _ IH]; simpl; [done|].
  rewrite IH, Ascii.N_ascii_embedding by lia. f_equal. lia.
Qed.

Lemma string_of_bytes_of s : string_of_bytes (bytes_of s) = s.
Proof.
  unfold bytes_of, string_of_bytes. rewrite map_map.
  rewrite (map_ext _ (fun c => c)), map_id, String.string_of_list_ascii_of_string; [done|].
  intros c. by rewrite N2Z.id, Ascii.ascii_N_embedding.
Qed.

Lemma redact_all_bytes skip s : all_bytes s -> all_bytes (redact skip s).
Proof.
  intros Hs. revert skip. induction Hs as [|c s Hc Hs IH]; intros [|skip]; cbn [redact];
    try constructor; try apply IH.
  destruct (hex_run (c :: s)); [|constructor; [done|apply IH]].
  apply Forall_app. split; [apply bytes_of_all|apply IH].
Qed.

(** Redaction leaves no token behind: the output never contains 32 consecutive
    hexadecimal characters, in either case, whatever the text; and a text
    without such a run is not altered. *)
Theorem RedactLogValue_no_token s :
  (forall pre mid post, bytes_of (RedactLogValue s) = pre ++ mid ++ post -> length mid = 32%nat ->
     ~ Forall (fun c => any_hex c = true) mid) /\
  (no_run (bytes_of s) -> RedactLogValue s = s).
Proof.
  unfold RedactLogValue. split.
  - intros pre mid post. rewrite bytes_of_string by apply redact_all_bytes, bytes_of_all.
    intros Heq. apply no_run_spec with (pre := pre) (post := post). rewrite <- Heq. apply no_run_redact.
  - intros Hr. rewrite redact_id by done. apply string_of_bytes_of.
Qed.

Lemma RedactLogValue_no_token_witness :
  RedactLogValue "token=00112233445566778899AABBCCDDEEFFff pid=1" = "token=[redacted]ff pid=1" /\
  RedactLogValue "pid=12345" = "pid=12345".
Proof.
  split; [reflexivity|]. apply (proj2 (RedactLogValue_no_token "pid=12345")).
  vm_compute. repeat split; lia.
Defined.

(** ** Identifiers and tokens *)

Lemma lower_hex_inv c : lower_hex c = true -> 48 <= c <= 57 \/ 97 <= c <= 102.
Proof. unfold lower_hex, within. intros H. zprop. destruct H as [H|H]; zprop; lia. Qed.

Lemma hex_digit_value c : lower_hex c = true -> hex_digit (hex_value c) = c /\ 0 <= hex_value c < 16.
Proof.
  intros H%lower_hex_inv. unfold hex_value, within, hex_digit.
  destruct (Z.leb_spec 48 c), (Z.leb_spec c 57); simpl; zbool; lia.
Qed.

Lemma hex_value_digit n : 0 <= n < 16 -> hex_value (hex_digit n) = n /\ lower_hex (hex_digit n) = true.
Proof.
  intros Hn. unfold hex_value, hex_digit, lower_hex, within.
  destruct (Z.ltb_spec n 10); zbool; simpl; split; lia || done.
Qed.

Lemma hex_decode_encode t : all_bytes t -> hex_decode (hex_encode t) = t.
Proof.
  induction 1 as [|b t Hb _ IH]; [done|]. unfold hex_encode in *. simpl. rewrite IH.
  destruct (hex_value_digit (b / 16)) as [-> _]; [pose proof (Z.div_lt_upper_bound b 16 16);
    pose proof (Z.div_pos b 16); lia|].
  destruct (hex_value_digit (b mod 16)) as [-> _]; [pose proof (Z.mod_pos_bound b 16); lia|].
  f_equal. pose proof (Z.div_mod b 16). lia.
Qed.

Lemma hex_encode_length t : length (hex_encode t) = (2 * length t)%nat.
Proof. induction t as [|b t IH]; [done|]. unfold hex_encode in *. simpl. lia. Qed.

Lemma hex_encode_lower t : all_bytes t -> forallb lower_hex (hex_encode t) = true.
Proof.
  induction 1 as [|b t Hb _ IH]; [done|]. unfold hex_encode in *. cbn [map concat app forallb].
  rewrite IH.
  destruct (hex_value_digit (b / 16)) as [_ ->]; [pose proof (Z.div_lt_upper_bound b 16 16);
    pose proof (Z.div_pos b 16); lia|].
  by destruct (hex_value_digit (b mod 16)) as [_ ->]; [pose proof (Z.mod_pos_bound b 16); lia|].
Qed.

Lemma hex_encode_decode n s :
  length s = (2 * n)%nat -> forallb lower_hex s = true ->
  hex_encode (hex_decode s) = s /\ length (hex_decode s) = n /\ all_bytes (hex_decode s).
Proof.
  revert s. induction n as [|n IH]; intros [|h [|l s]]; try (simpl; lia).
  { split; [done|]. split; [done|constructor]. }
  intros Hlen Hs. cbn [forallb] in Hs. zprop.
  destruct (hex_digit_value h) as [Eh Hh], (hex_digit_value l) as [El Hl]; try done.
  destruct (IH s) as (Es & En & Ha); [simpl in Hlen; lia|done|].
  cbn [hex_decode]. split; [|split; [simpl; lia|constructor; [lia|done]]].
  unfold hex_encode in *. cbn [map concat app].
  rewrite Es, (Z.mul_comm 16), Z.div_add_l, Z.div_small, Z.add_0_r, Eh by lia.
  by rewrite Z.add_comm, Z.mod_add, Z.mod_small, El by lia.
Qed.

Lemma hex_encode_bytes t : all_bytes t -> all_bytes (hex_encode t).
Proof.
  intros Ht. pose proof (hex_encode_lower t Ht) as Hl. apply Forall_forall. intros c Hc.
  rewrite forallb_forall in Hl. specialize (Hl c (proj1 (list_elem_of_In _ _) Hc)).
  apply lower_hex_inv in Hl. lia.
Qed.

Lemma matches_hex32_encode t : bytes16 t -> matches_hex32 (hex_encode t) = true.
Proof.
  intros [Hl Ht]. unfold matches_hex32. rewrite hex_encode_length, Hl. simpl.
  by apply hex_encode_lower.
Qed.

(** The text of a 16 byte value is the only text that decodes to it. *)
Lemma hex32_iff s t :
  matches_hex32 (bytes_of s) = true /\ hex_decode (bytes_of s) = t <-> bytes16 t /\ s = EncodeHex t.
Proof.
  split.
  - intros [Hm <-]. unfold matches_hex32 in Hm. zprop.
    destruct (hex_encode_decode 16 (bytes_of s)) as (He & Hl & Ha); [lia|done|].
    split; [done|]. unfold EncodeHex. by rewrite He, string_of_bytes_of.
  - intros [Hb ->]. destruct (Hb) as [Hl Ha]. unfold EncodeHex.
    rewrite bytes_of_string by by apply hex_encode_bytes.
    split; [by apply matches_hex32_encode|by apply hex_decode_encode].
Qed.

Lemma DecodeToken_iff s t : DecodeToken s = inr t <-> bytes16 t /\ s = EncodeHex t.
Proof.
  rewrite <- hex32_iff. unfold DecodeToken. destruct (matches_hex32 (bytes_of s)); simpl.
  - split; [by intros [= <-]|by intros [_ ->]].
  - split; [done|by intros [? _]].
Qed.

Lemma DecodeOperationID_iff s t :
  DecodeOperationID s = inr t <-> bytes16 t /\ s = EncodeHex t.
Proof.
  rewrite <- hex32_iff. unfold DecodeOperationID. destruct (matches_hex32 (bytes_of s)); simpl.
  - split; [by intros [= <-]|by intros [_ ->]].
  - split; [done|by intros [? _]].
Qed.

Lemma accumulate_diff_zero v a b :
  length a = length b -> accumulate_diff v a b = 0 <-> v = 0 /\ a = b.
Proof.
  revert v b. induction a as [|x a IH]; intros v [|y b]; simpl; try done; [tauto|].
  intros [= Hlen]. rewrite IH, Z.lor_eq_0_iff, Z.lxor_eq_0_iff by done. split.
  - by intros [[-> ->] ->].
  - by intros [-> [= -> ->]].
Qed.

(** The constant time comparison decides equality. *)
Lemma ConstantTimeCompareToken_eq a b : ConstantTimeCompareToken a b = true <-> a = b.
Proof.
  unfold ConstantTimeCompareToken. destruct (Z.eqb_spec (zlen a) (zlen b)); simpl.
  - rewrite Z.eqb_eq, accumulate_diff_zero by lia. tauto.
  - split; [done|by intros ->].
Qed.

(** Identifiers and tokens round trip strictly: a text is accepted exactly
    when it is the encoding of a 16 byte value, and then that value is the
    answer (so upper case, other lengths and other characters are refused);
    and the constant time comparison of two tokens holds exactly when their
    texts are equal. *)
Theorem DecodeToken_roundtrip s t t' :
  (DecodeToken s = inr t <-> bytes16 t /\ s = EncodeHex t) /\
  (DecodeOperationID s = inr t <-> bytes16 t /\ s = EncodeHex t) /\
  (DecodeToken s = inr t -> bytes16 t' ->
   ConstantTimeCompareToken t t' = true <-> s = EncodeHex t').
Proof.
  split; [apply DecodeToken_iff|]. split; [apply DecodeOperationID_iff|].
  intros [Ht Hs]%DecodeToken_iff Ht'. rewrite ConstantTimeCompareToken_eq. split; [congruence|].
  intros Hs'. apply (f_equal (fun e => hex_decode (bytes_of e))) in Hs' as He.
  destruct (proj2 (hex32_iff s t') (conj Ht' Hs')) as [_ <-].
  by destruct (proj2 (hex32_iff s t) (conj Ht Hs)) as [_ <-].
Qed.

Lemma DecodeToken_roundtrip_witness :
  ConstantTimeCompareToken [255; 238; 221; 204; 187; 170; 153; 136; 119; 102; 85; 68; 51; 34; 17; 0]
    [255; 238; 221; 204; 187; 170; 153; 136; 119; 102; 85; 68; 51; 34; 17; 0] = true.
Proof.
  refine (proj2 (proj2 (proj2 (DecodeToken_roundtrip "ffeeddccbbaa99887766554433221100" _ _)) _ _) _).
  - vm_compute. reflexivity.
  - split; [reflexivity|]. repeat (constructor; [lia|]). constructor.
  - vm_compute. reflexivity.
Defined.

(** ** Numbers *)

Lemma ParseStrictUInt_spec raw bits v :
  ParseStrictUInt raw bits = inr v <->
  let s := TrimSpace (bytes_of raw) in
  s <> [] /\ Forall (fun c => 48 <= c <= 57) s /\ decimal s = v /\ v < 2 ^ bits.
Proof.
  cbv zeta. unfold ParseStrictUInt. destruct (TrimSpace (bytes_of raw)) as [|c s].
  { split; [done|]. by intros [? _]. }
  assert (forallb digit (c :: s) = true <-> Forall (fun c => 48 <= c <= 57) (c :: s)) as Hd.
  { rewrite forallb_forall, Forall_forall. unfold digit, within. split; intros H x Hx.
    - rewrite list_elem_of_In in Hx. specialize (H x Hx). apply andb_true_iff in H as [H1 H2].
      apply Z.leb_le in H1, H2. lia.
    - rewrite <- list_elem_of_In in Hx. specialize (H x Hx). apply andb_true_iff.
      split; apply Z.leb_le; lia. }
  split.
  - destruct (forallb digit (c :: s)) eqn:Hf; [|repeat case_if; done].
    repeat case_if; try done. intros [= <-]. zprop. split; [done|]. split; [by apply Hd|]. lia.
  - intros (_ & Hs & <- & Hv). pose proof (Forall_inv Hs) as Hc. simpl in Hc.
    apply Hd in Hs. rewrite Hs. unfold within. zbool; simpl; try lia. done.
Qed.

(** A number is accepted exactly when its text, without surrounding white
    space, is a non-empty sequence of decimal digits whose value fits the
    width, and the answer is that value; a process id moreover lies between 1
    and the greatest int32. *)
Theorem ParseStrictUInt_iff raw bits v :
  let s := TrimSpace (bytes_of raw) in
  let number := s <> [] /\ Forall (fun c => 48 <= c <= 57) s /\ decimal s = v in
  (ParseStrictUInt raw bits = inr v <-> number /\ v < 2 ^ bits) /\
  (ParseStrictInt32Positive raw = inr v <-> number /\ 1 <= v <= 2147483647).
Proof.
  cbv zeta. split; [rewrite ParseStrictUInt_spec; cbv zeta; tauto|]. unfold ParseStrictInt32Positive. split.
  - destruct (ParseStrictUInt raw 31) as [|w] eqn:E; [done|].
    apply ParseStrictUInt_spec in E as (? & ? & ? & Hw). case_if; [done|]. intros [= <-].
    zprop. simpl in Hw. repeat split; try done; lia.
  - intros [(? & ? & ?) Hv]. rewrite (proj2 (ParseStrictUInt_spec raw 31 v)).
    + destruct (Z.ltb_spec v 1); [lia|done].
    + repeat split; try done. simpl. lia.
Qed.

(** ** Objects *)

Lemma last_wins_snoc fields k v : last_wins (fields ++ [(k, v)]) = <[k := v]> (last_wins fields).
Proof. unfold last_wins. by rewrite fold_left_app. Qed.

Lemma last_wins_dom fields : dom (last_wins fields) = list_to_set (map fst fields).
Proof.
  induction fields as [|[k v] fields IH] using rev_ind; [by apply dom_empty_L|].
  rewrite last_wins_snoc, dom_insert_L, IH, map_app, list_to_set_app_L. simpl. set_solver.
Qed.

Lemma last_wins_NoDup fields : NoDup (map fst fields) -> last_wins fields = list_to_map fields.
Proof.
  induction fields as [|[k v] fields IH] using rev_ind; [done|].
  rewrite map_app, NoDup_app. intros (Hnd & Hk & _).
  rewrite last_wins_snoc, IH by done. rewrite list_to_map_snoc; [done|].
  intros Hin. apply (Hk k Hin). by left.
Qed.

Lemma scan_duplicates_spec seen keys :
  scan_duplicates seen keys = false <-> NoDup keys /\ Forall (fun k => k ∉ seen) keys.
Proof.
  revert seen. induction keys as [|k keys IH]; intros seen; cbn [scan_duplicates].
  { split; [intros _; split; constructor|done]. }
  case_bool_decide as Hk.
  - split; [done|]. intros [_ Hall]. by apply Forall_cons in Hall as [? _].
  - rewrite IH, NoDup_cons, Forall_cons, !Forall_forall. split.
    + intros [Hnd Hall]. split; [|set_solver]. split; [|done].
      intros Hin. specialize (Hall k Hin). set_solver.
    + intros [[Hnk Hnd] [_ Hall]]. split; [done|]. intros x Hx Hin.
      apply elem_of_union in Hin as [Hin|Hin]; [|by apply (Hall x)]. set_solver.
Qed.

Lemma lookup_map_to_list_keys (m : gmap string string) k :
  k ∈ map fst (map_to_list m) <-> is_Some (m !! k).
Proof.
  rewrite <- elem_of_dom, list_elem_of_fmap. split.
  - intros [[k' v] [-> Hin]]. apply elem_of_map_to_list in Hin. by apply elem_of_dom_2 in Hin.
  - intros [v Hv]%elem_of_dom. exists (k, v). split; [done|]. by apply elem_of_map_to_list.
Qed.

(** What a strict object is: exactly the expected keys, once each, no null. *)
Definition strict_fields (unmarshal_object : string -> option (list (string * string)))
  (raw : string) (allowed : list string) (fields : list (string * string)) : Prop :=
  starts_object (TrimSpace (bytes_of raw)) = true /\ unmarshal_object raw = Some fields /\
  map fst fields ≡ₚ allowed /\
  Forall (fun kv => TrimSpace (bytes_of kv.2) <> null_text) fields.

Section strict.
Context (unmarshal_object : string -> option (list (string * string))).

(** The checks of [DecodeStrictObject] on the fields of an object. *)
Lemma strict_checks fields allowed :
  NoDup allowed ->
  let m := last_wins fields in
  Forall (fun k => k ∈ allowed) (map fst (map_to_list m)) ->
  Forall (fun k => m !! k <> None) allowed ->
  NoDup (map fst fields) ->
  map fst fields ≡ₚ allowed /\ m = list_to_map fields.
Proof.
  intros Hnd m Hsub Hsup Hk. split; [|by apply last_wins_NoDup].
  apply NoDup_Permutation; [done|done|]. intros k.
  assert (k ∈ map fst fields <-> is_Some (m !! k)) as ->.
  { rewrite <- elem_of_dom. unfold m. rewrite last_wins_dom, elem_of_list_to_set. done. }
  rewrite Forall_forall in Hsub, Hsup. split.
  - intros Hs. apply Hsub. by apply lookup_map_to_list_keys.
  - intros Hin. apply not_eq_None_Some. by apply Hsup.
Qed.

Lemma list_to_map_checks fields allowed :
  NoDup allowed -> map fst fields ≡ₚ allowed ->
  Forall (fun kv => TrimSpace (bytes_of kv.2) <> null_text) fields ->
  let m := last_wins fields in
  m = list_to_map fields /\
  Forall (fun k => k ∈ allowed) (map fst (map_to_list m)) /\
  Forall (fun k => m !! k <> None) allowed /\
  Forall (fun kv => TrimSpace (bytes_of kv.2) <> null_text) (map_to_list m) /\
  NoDup (map fst fields).
Proof.
  intros Hnd Hp Hn m. assert (NoDup (map fst fields)) as Hk by by rewrite Hp.
  assert (m = list_to_map fields) as Hm by by apply last_wins_NoDup.
  split; [done|]. split; [|split; [|split; [|done]]].
  - apply Forall_forall. intros k Hin%lookup_map_to_list_keys%elem_of_dom.
    unfold m in Hin. rewrite last_wins_dom, elem_of_list_to_set in Hin. by rewrite <- Hp.
  - apply Forall_forall. intros k Hin. apply not_eq_None_Some, elem_of_dom.
    unfold m. rewrite last_wins_dom, elem_of_list_to_set. by rewrite Hp.
  - rewrite Hm, map_to_list_to_map by done. done.
Qed.

Lemma DecodeStrictObject_strict raw allowed m :
  NoDup allowed -> DecodeStrictObject unmarshal_object raw allowed = inr m ->
  exists fields, strict_fields unmarshal_object raw allowed fields /\ m = list_to_map fields.
Proof.
  intros Hnd. unfold DecodeStrictObject, assertNoDuplicateKeys, strict_fields.
  destruct (starts_object _); [|done]. simpl.
  destruct (unmarshal_object raw) as [fields|]; [|done].
  case_bool_decide as H1; [done|]. case_bool_decide as H2; [done|].
  case_bool_decide as H3; [done|]. destruct (scan_duplicates _ _) eqn:H4; [done|].
  intros [= <-]. apply scan_duplicates_spec in H4 as [H4 _].
  destruct (strict_checks fields allowed) as [Hp Hm]; try done.
  { apply not_Exists_Forall in H1; [|intros ?; apply _]. eapply Forall_impl; [exact H1|].
    intros k Hk. by apply dec_stable. }
  { by apply not_Exists_Forall in H2; [|intros ?; apply _]. }
  exists fields. split; [|done]. split; [done|]. split; [done|]. split; [done|].
  apply not_Exists_Forall in H3; [|intros ?; apply _].
  by rewrite Hm, map_to_list_to_map in H3 by done.
Qed.

Lemma DecodeStrictObject_complete raw allowed m :
  NoDup allowed ->
  (exists fields, strict_fields unmarshal_object raw allowed fields /\ m = list_to_map fields) ->
  DecodeStrictObject unmarshal_object raw allowed = inr m.
Proof.
  intros Hnd. unfold DecodeStrictObject, assertNoDuplicateKeys, strict_fields.
  intros (fields & (-> & -> & Hp & Hn) & ->). simpl.
  destruct (list_to_map_checks fields allowed Hnd Hp Hn) as (Hm & H1 & H2 & H3 & H4).
  rewrite !bool_decide_eq_false_2.
  + assert (scan_duplicates ∅ (map fst fields) = false) as ->; [|by rewrite Hm].
    apply scan_duplicates_spec. split; [done|]. apply Forall_true. set_solver.
  + apply Forall_not_Exists. done.
  + apply Forall_not_Exists. done.
  + apply Forall_not_Exists. eapply Forall_impl; [exact H1|]. intros k Hk Hnk. by apply Hnk.
Qed.

(** Strict objects: decoding answers a map exactly when the text is an object
    whose keys are the expected ones, each once, with no null value; the map
    then holds precisely those fields. Unknown, missing, null and duplicate
    fields are therefore all refused. *)
Theorem DecodeStrictObject_iff raw allowed m :
  NoDup allowed ->
  DecodeStrictObject unmarshal_object raw allowed = inr m <->
  exists fields, strict_fields unmarshal_object raw allowed fields /\ m = list_to_map fields.
Proof.
  intros Hnd. split; [by apply DecodeStrictObject_strict|by apply DecodeStrictObject_complete].
Qed.
End strict.

(** ** Requests and results *)

Definition uint64 (v : Z) : Prop := 0 <= v < 18446744073709551616.

Lemma decimal_nonneg s v : 0 <= v -> Forall (fun c => 48 <= c <= 57) s ->
  0 <= fold_left (fun v c => 10 * v + (c - 48)) s v.
Proof. intros Hv Hs. revert v Hv. induction Hs; intros v Hv; simpl; [done|]. apply IHHs. lia. Qed.

Lemma ParseStrictUInt_range raw bits v : ParseStrictUInt raw bits = inr v -> 0 <= v < 2 ^ bits.
Proof.
  rewrite ParseStrictUInt_spec. intros (_ & Hs & <- & Hv). split; [|done]. by apply decimal_nonneg.
Qed.

Lemma ParseStrictUInt_uint64 raw v : ParseStrictUInt raw 64 = inr v -> uint64 v.
Proof. apply ParseStrictUInt_range. Qed.

Lemma ParseStrictInt32Positive_range raw v :
  ParseStrictInt32Positive raw = inr v -> 1 <= v <= 2147483647.
Proof.
  unfold ParseStrictInt32Positive. destruct (ParseStrictUInt raw 31) as [|w] eqn:E; [done|].
  apply ParseStrictUInt_range in E. destruct (Z.ltb_spec w 1); [done|]. intros [= <-]. lia.
Qed.

(** A runtime identity the Go types can hold, as the codec accepts it. *)
Definition identity_ok (r : RuntimeIdentity) : Prop := 1 <= PID r <= 2147483647 /\ uint64 (BridgeEpoch r).

(** Step through one [let!] of the hypothesis [H]. *)
Ltac next_bind H :=
  match type of H with
  | context [match ?e with inl _ => _ | inr _ => _ end] =>
      let E := fresh "E" in destruct e eqn:E; [discriminate H|]
  end.

Section requests.
Context (unmarshal_object : string -> option (list (string * string))).
Context (unmarshal_string : string -> option string).

Lemma decodeRuntimeIdentity_ok raw r :
  decodeRuntimeIdentity unmarshal_object raw = inr r -> identity_ok r.
Proof.
  unfold decodeRuntimeIdentity. intros H. do 3 next_bind H. injection H as <-.
  split; simpl; [by eapply ParseStrictInt32Positive_range|by eapply ParseStrictUInt_uint64].
Qed.

Lemma DecodeQuiesceRequest_ok raw q :
  DecodeQuiesceRequest unmarshal_object unmarshal_string raw = inr q ->
  uint64 (q_ManagementSchemaVersion q) /\ bytes16 (q_OperationID q) /\
  identity_ok (q_ExpectedRuntime q) /\ uint64 (q_ExpectedHealthEpoch q).
Proof.
  unfold DecodeQuiesceRequest. intros H. do 6 next_bind H. injection H as <-. simpl.
  match goal with Hid : DecodeOperationID _ = _ |- _ => apply DecodeOperationID_iff in Hid as [? _] end.
  split_and!; try done; eauto using decodeRuntimeIdentity_ok, ParseStrictUInt_uint64.
Qed.

(** C39. Every commit or abort request that passes the decoder is well formed: its
    operation id and token are 16 byte values, its process id is positive and
    fits an int32, its epochs fit a uint64; and its text is an object with
    exactly the six expected fields. *)
Theorem DecodeCommitRequest_typed raw c :
  DecodeCommitRequest unmarshal_object unmarshal_string raw = inr c ->
  uint64 (c_ManagementSchemaVersion c) /\ bytes16 (c_OperationID c) /\
  identity_ok (c_ExpectedRuntime c) /\ uint64 (c_ExpectedHealthEpoch c) /\
  uint64 (c_QuiesceEpoch c) /\ bytes16 (c_Token c) /\
  exists fields, strict_fields unmarshal_object raw commit_fields fields.
Proof.
  unfold DecodeCommitRequest. intros H. do 9 next_bind H. injection H as <-. simpl.
  repeat match goal with
  | Hid : DecodeOperationID _ = _ |- _ => apply DecodeOperationID_iff in Hid as [? _]
  | Hid : DecodeToken _ = _ |- _ => apply DecodeToken_iff in Hid as [? _]
  | Hm : DecodeStrictObject _ _ _ = _ |- _ =>
      apply DecodeStrictObject_strict in Hm; [|by apply (bool_decide_unpack _)]
  end.
  split_and!; try done; eauto using decodeRuntimeIdentity_ok, ParseStrictUInt_uint64.
  match goal with H : exists _, _ |- _ => destruct H as (fields & ? & _); by exists fields end.
Qed.
End requests.

(** Concrete readers of the texts of one request. *)
Definition quoted (s : string) : string :=
  String.String (Ascii.ascii_of_N 34) (String.append s (String.String (Ascii.ascii_of_N 34) "")).

Definition wit_id : string := "00112233445566778899aabbccddeeff".

Definition wit_fields : list (string * string) :=
  [("token", quoted wit_id); ("quiesceEpoch", "1"); ("expectedHealthEpoch", "18446744073709551615");
   ("expectedRuntime", "{runtime}"); ("operationId", quoted wit_id); ("managementSchemaVersion", "1")].

Definition wit_object (raw : string) : option (list (string * string)) :=
  if String.eqb raw "{request}" then Some wit_fields
  else if String.eqb raw "{runtime}" then Some [("pid", "2147483647"); ("bridgeEpoch", "7")]
  else if String.eqb raw "{twice}" then Some (("token", "1") :: wit_fields)
  else if String.eqb raw "{aborted}" then
    Some [("outcome", quoted "aborted"); ("managementSchemaVersion", "1");
          ("operationId", quoted wit_id); ("runtimeIdentity", "{runtime}"); ("healthEpoch", "3")]
  else None.

Definition wit_unquote (raw : string) : option string :=
  Some (String.substring 1 (String.length raw - 2) raw).

Lemma DecodeStrictObject_iff_witness :
  DecodeStrictObject wit_object "{twice}" commit_fields = inl ErrDuplicateKey /\
  exists m, DecodeStrictObject wit_object "{request}" commit_fields = inr m.
Proof.
  split; [vm_compute; reflexivity|]. exists (list_to_map wit_fields).
  apply DecodeStrictObject_iff; [by apply (bool_decide_unpack _)|].
  exists wit_fields. split; [|reflexivity]. split; [vm_compute; reflexivity|].
  split; [reflexivity|]. split.
  - symmetry. apply (Permutation_rev commit_fields).
  - apply (bool_decide_unpack _). vm_compute. exact I.
Defined.

Lemma DecodeCommitRequest_typed_witness :
  exists c, DecodeCommitRequest wit_object wit_unquote "{request}" = inr c /\
    PID (c_ExpectedRuntime c) = 2147483647 /\ bytes16 (c_Token c).
Proof.
  destruct (DecodeCommitRequest wit_object wit_unquote "{request}") as [err|c] eqn:E.
  - vm_compute in E. discriminate E.
  - exists c. split; [reflexivity|]. split; [|exact (proj1 (proj2 (proj2 (proj2 (proj2 (proj2
      (DecodeCommitRequest_typed _ _ _ _ E)))))))].
    vm_compute in E. injection E as <-. reflexivity.
Defined.

Lemma result_extra_NoDup which outcome extra :
  result_extra which outcome = Some extra -> NoDup (common_fields ++ extra).
Proof.
  unfold result_extra, quiesceResultExtra, commitResultExtra, abortResultExtra.
  repeat case_if; intros [= <-]; by apply (bool_decide_unpack _).
Qed.

(** Result shapes: a decoded result names an outcome of its group, and carries
    exactly the common fields and those of its outcome. *)
Theorem DecodeResultShape_outcomes unmarshal_object unmarshal_string raw which outcome m :
  DecodeResultShape unmarshal_object unmarshal_string raw which = inr (outcome, m) ->
  exists extra, result_extra which outcome = Some extra /\
    (extra <> [] \/ isKnownOutcome which outcome = true) /\
    dom m = list_to_set (common_fields ++ extra).
Proof.
  unfold DecodeResultShape. destruct (unmarshal_object raw) as [loose|]; [|done].
  destruct (last_wins loose !! "outcome") as [outcomeRaw|]; [|done].
  destruct (DecodeStrictString unmarshal_string outcomeRaw) as [|o]; [done|].
  destruct (result_extra which o) as [extra|] eqn:Ex; [|done].
  destruct ((zlen extra =? 0) && negb (isKnownOutcome which o)) eqn:Hk; [done|].
  destruct (DecodeStrictObject _ _ _) as [|m'] eqn:Eo; [done|].
  destruct (ParseStrictUInt _ _); [done|]. destruct (DecodeOperationIDmust _ _); [done|].
  destruct (extra_errors _ _ _ _); [done|]. intros [= <- <-].
  exists extra. split; [done|]. split.
  - zprop. destruct Hk as [Hk|Hk]; zprop; [left; by destruct extra|by right].
  - apply DecodeStrictObject_strict in Eo; [|by eapply result_extra_NoDup].
    destruct Eo as (fields & (_ & _ & Hp & _) & ->). rewrite dom_list_to_map_L. by rewrite Hp.
Qed.

Lemma DecodeResultShape_outcomes_witness :
  exists m, DecodeResultShape wit_object wit_unquote "{aborted}" "abort" = inr ("aborted", m) /\
    dom m = list_to_set (common_fields ++ ["runtimeIdentity"; "healthEpoch"]).
Proof.
  assert (match DecodeResultShape wit_object wit_unquote "{aborted}" "abort" with
          | inr (o, _) => o = "aborted" | inl _ => False end) as Ho by (vm_compute; reflexivity).
  destruct (DecodeResultShape wit_object wit_unquote "{aborted}" "abort") as [err|[o m]] eqn:E;
    [destruct Ho|subst o].
  exists m. split; [reflexivity|].
  destruct (DecodeResultShape_outcomes _ _ _ _ _ _ E) as (extra & Hx & _ & Hm).
  rewrite Hm. injection Hx as <-. reflexivity.
Defined.
