(* ===== verification/Admission.v ===== *)
(** * Runtime admission (go-bridge/admission/admission.go, budget.go, resource.go)

    The machine that decides whether the bridge may be shut down: a supervisor
    asks to quiesce, receives a leased token, and commits or aborts with it, while
    the bridge begins and ends turns under the same lock. Every method is one
    atomic operation (they all hold the mutex for their whole body). The injected
    clock and token generator are arguments: [t0] is the reading of
    [expireActiveIfDue] at the start of the method, [t1] the reading after it,
    and [gen] what the generator answers if it is called. *)

From S2P Require Import Prelude.
From S2P Require Import ManagementCodec.

Inductive AdmissionState : Type := StateAccepting | StateQuiescing | StateShuttingDown.
Inductive HealthState : Type := HealthHealthy | HealthDegrading | HealthDegraded.
Inductive terminalKind : Type := terminalCommitted | terminalAborted | terminalExpired.

#[export] Instance AdmissionState_eq_dec : EqDecision AdmissionState.
Proof. solve_decision. Defined.
#[export] Instance HealthState_eq_dec : EqDecision HealthState.
Proof. solve_decision. Defined.
#[export] Instance terminalKind_eq_dec : EqDecision terminalKind.
Proof. solve_decision. Defined.
#[export] Instance RuntimeIdentity_eq_dec : EqDecision RuntimeIdentity.
Proof. solve_decision. Defined.

Definition AdmissionState_String (s : AdmissionState) : string :=
  match s with
  | StateAccepting => "accepting" | StateQuiescing => "quiescing" | StateShuttingDown => "shuttingDown"
  end.

Definition HealthState_String (s : HealthState) : string :=
  match s with
  | HealthHealthy => "healthy" | HealthDegrading => "degrading" | HealthDegraded => "degraded"
  end.

Record activeOp : Type := mkActive {
  a_id : OperationID;
  a_quiesceEpoch : Z;
  a_token : Token;
  a_expiresAt : Z;
  a_leaseMillis : Z
}.

Record terminalOp : Type := mkTerminal {
  t_id : OperationID;
  t_quiesceEpoch : Z;
  t_token : Token;
  t_kind : terminalKind
}.

Record AdmissionMachine : Type := mkMachine {
  state : AdmissionState;
  identity : RuntimeIdentity;
  health : HealthState;
  stateEpoch : Z;
  quiesceEpoch : Z;
  active : option activeOp;
  lastTerminal : option terminalOp;
  bridgeOwnedActiveTurns : Z;
  pendingInteractions : Z;
  leaseMillis : Z
}.

Definition NewAdmissionMachine (ident : RuntimeIdentity) (lease : Z) : AdmissionMachine :=
  mkMachine StateAccepting ident HealthHealthy 1 0 None None 0 0 lease.

(** Assignments to the fields of the machine. *)
Definition set_turns (n : Z) (m : AdmissionMachine) : AdmissionMachine :=
  mkMachine (state m) (identity m) (health m) (stateEpoch m) (quiesceEpoch m) (active m)
    (lastTerminal m) n (pendingInteractions m) (leaseMillis m).
Definition SetPendingInteractions (n : Z) (m : AdmissionMachine) : AdmissionMachine :=
  mkMachine (state m) (identity m) (health m) (stateEpoch m) (quiesceEpoch m) (active m)
    (lastTerminal m) (bridgeOwnedActiveTurns m) n (leaseMillis m).
Definition SetActivity (turns interactions : Z) (m : AdmissionMachine) : AdmissionMachine :=
  SetPendingInteractions interactions (set_turns turns m).
Definition SetHealthSnapshot (h : HealthState) (epoch : Z) (m : AdmissionMachine) : AdmissionMachine :=
  mkMachine (state m) (identity m) h epoch (quiesceEpoch m) (active m)
    (lastTerminal m) (bridgeOwnedActiveTurns m) (pendingInteractions m) (leaseMillis m).

(** The end of the active operation: its terminal record, no active operation, a
    new state. *)
Definition terminate (a : activeOp) (k : terminalKind) (s : AdmissionState) (m : AdmissionMachine)
  : AdmissionMachine :=
  mkMachine s (identity m) (health m) (stateEpoch m) (quiesceEpoch m) None
    (Some (mkTerminal (a_id a) (a_quiesceEpoch a) (a_token a) k)) (bridgeOwnedActiveTurns m)
    (pendingInteractions m) (leaseMillis m).

Definition expireActiveIfDue (t0 : Z) (m : AdmissionMachine) : AdmissionMachine :=
  match active m with
  | Some a =>
      if bool_decide (state m = StateQuiescing) && negb (t0 <? a_expiresAt a)
      then terminate a terminalExpired StateAccepting m
      else m
  | None => m
  end.

Definition TryBeginBridgeTurn (t0 : Z) (m : AdmissionMachine) : bool * AdmissionMachine :=
  let m := expireActiveIfDue t0 m in
  if negb (bool_decide (state m = StateAccepting)) || (bridgeOwnedActiveTurns m =? u32_max)
  then (false, m)
  else (true, set_turns (wrap_u32 (bridgeOwnedActiveTurns m + 1)) m).

Definition EndBridgeTurn (m : AdmissionMachine) : AdmissionMachine :=
  if bridgeOwnedActiveTurns m >? 0 then set_turns (bridgeOwnedActiveTurns m - 1) m else m.

(** [uint32(d / time.Millisecond)] clamped to the lease. *)
Definition remainingLeaseMillis (now expiresAt lease : Z) : Z :=
  let d := expiresAt - now in
  if d <=? 0 then 0
  else
    let ms := wrap_u32 (d / millisecond) in
    if ms >? lease then lease else ms.

Record TerminalSnapshot : Type := mkTerminalSnapshot { ts_Kind : terminalKind; ts_HasTerminal : bool }.

Definition LastTerminalKind (m : AdmissionMachine) : TerminalSnapshot :=
  match lastTerminal m with
  | None => mkTerminalSnapshot terminalCommitted false
  | Some t => mkTerminalSnapshot (t_kind t) true
  end.

(** The optional operation of a snapshot: id, epoch, remaining lease. *)
Record RuntimeSnapshot : Type := mkSnapshot {
  s_State : AdmissionState;
  s_Identity : RuntimeIdentity;
  s_Health : HealthState;
  s_HealthEpoch : Z;
  s_BridgeOwnedActiveTurns : Z;
  s_PendingInteractions : Z;
  s_Operation : option (OperationID * Z);
  s_LeaseRemainingMillis : Z
}.

Definition Snapshot (t0 t1 : Z) (m : AdmissionMachine) : RuntimeSnapshot * AdmissionMachine :=
  let m := expireActiveIfDue t0 m in
  let s := mkSnapshot (state m) (identity m) (health m) (stateEpoch m) (bridgeOwnedActiveTurns m)
             (pendingInteractions m) in
  match active m with
  | Some a =>
      (s (Some (a_id a, a_quiesceEpoch a)) (remainingLeaseMillis t1 (a_expiresAt a) (a_leaseMillis a)), m)
  | None =>
      match lastTerminal m with
      | Some t =>
          if bool_decide (state m = StateShuttingDown) && bool_decide (t_kind t = terminalCommitted)
          then (s (Some (t_id t, t_quiesceEpoch t)) 0, m)
          else (s None 0, m)
      | None => (s None 0, m)
      end
  end.

(** ** Quiesce *)

Inductive QuiesceOutcome : Type :=
| QuiesceSafe | QuiesceDeferred | QuiesceIdentityMismatch | QuiesceEpochMismatch
| QuiesceAlreadyCommitted | QuiesceAlreadyQuiescing | QuiesceOperationReused
| QuiesceTokenGenerationFail.

#[export] Instance QuiesceOutcome_eq_dec : EqDecision QuiesceOutcome.
Proof. solve_decision. Defined.

Definition QuiesceOutcome_text (o : QuiesceOutcome) : string :=
  match o with
  | QuiesceSafe => "safe" | QuiesceDeferred => "deferred"
  | QuiesceIdentityMismatch => "identity_mismatch" | QuiesceEpochMismatch => "epoch_mismatch"
  | QuiesceAlreadyCommitted => "already_committed" | QuiesceAlreadyQuiescing => "already_quiescing"
  | QuiesceOperationReused => "operation_reused"
  | QuiesceTokenGenerationFail => "token_generation_failed"
  end.

(** The fields of a safe and of a deferred result; the other outcomes carry
    none. *)
Record SafeGrant : Type := mkGrant {
  g_RuntimeIdentity : RuntimeIdentity;
  g_HealthEpoch : Z;
  g_QuiesceEpoch : Z;
  g_Token : Token;
  g_LeaseMillis : Z;
  g_LeaseRemainingMillis : Z
}.

Record QuiesceResult : Type := mkQuiesceResult {
  qr_Outcome : QuiesceOutcome;
  qr_Safe : option SafeGrant;
  qr_Deferred : option (Z * Z * Z)
}.

Definition quiesce_outcome (o : QuiesceOutcome) : QuiesceResult := mkQuiesceResult o None None.

Definition Quiesce (t0 t1 : Z) (gen : option Token) (req : QuiesceRequest) (m : AdmissionMachine)
  : QuiesceResult * AdmissionMachine :=
  let m := expireActiveIfDue t0 m in
  if negb (q_ManagementSchemaVersion req =? ManagementSchemaVersion)
  then (quiesce_outcome QuiesceIdentityMismatch, m)
  else if negb (bool_decide (q_ExpectedRuntime req = identity m))
  then (quiesce_outcome QuiesceIdentityMismatch, m)
  else if negb (q_ExpectedHealthEpoch req =? stateEpoch m)
  then (quiesce_outcome QuiesceEpochMismatch, m)
  else
    match state m with
    | StateShuttingDown => (quiesce_outcome QuiesceAlreadyCommitted, m)
    | StateQuiescing =>
        match active m with
        | Some a =>
            if Equal (a_id a) (q_OperationID req) then
              (mkQuiesceResult QuiesceSafe
                 (Some (mkGrant (identity m) (stateEpoch m) (a_quiesceEpoch a) (a_token a)
                          (a_leaseMillis a)
                          (remainingLeaseMillis t1 (a_expiresAt a) (a_leaseMillis a)))) None, m)
            else (quiesce_outcome QuiesceAlreadyQuiescing, m)
        | None => (quiesce_outcome QuiesceAlreadyQuiescing, m)
        end
    | StateAccepting =>
        if (bridgeOwnedActiveTurns m >? 0) || (pendingInteractions m >? 0) then
          (mkQuiesceResult QuiesceDeferred None
             (Some (bridgeOwnedActiveTurns m, pendingInteractions m, 0)), m)
        else if match lastTerminal m with Some t => Equal (t_id t) (q_OperationID req) | None => false end
        then (quiesce_outcome QuiesceOperationReused, m)
        else
          match gen with
          | None => (quiesce_outcome QuiesceTokenGenerationFail, m)
          | Some tok =>
              let epoch := wrap_u64 (quiesceEpoch m + 1) in
              let a := mkActive (q_OperationID req) epoch tok (t1 + leaseMillis m * millisecond)
                         (leaseMillis m) in
              (mkQuiesceResult QuiesceSafe
                 (Some (mkGrant (identity m) (stateEpoch m) epoch tok (leaseMillis m)
                          (leaseMillis m))) None,
               mkMachine StateQuiescing (identity m) (health m) (stateEpoch m) epoch (Some a)
                 (lastTerminal m) (bridgeOwnedActiveTurns m) (pendingInteractions m) (leaseMillis m))
          end
    end.

(** ** Commit and abort *)

Inductive CommitOutcome : Type :=
| OutcomeCommitted | OutcomeAlreadyCommitted | OutcomeAborted | OutcomeAlreadyAccepting
| OutcomeIdentityMismatch | OutcomeEpochMismatch | OutcomeQuiesceMismatch | OutcomeTokenMismatch
| OutcomeLeaseExpired.

#[export] Instance CommitOutcome_eq_dec : EqDecision CommitOutcome.
Proof. solve_decision. Defined.

Definition CommitOutcome_text (o : CommitOutcome) : string :=
  match o with
  | OutcomeCommitted => "committed" | OutcomeAlreadyCommitted => "already_committed"
  | OutcomeAborted => "aborted" | OutcomeAlreadyAccepting => "already_accepting"
  | OutcomeIdentityMismatch => "identity_mismatch" | OutcomeEpochMismatch => "epoch_mismatch"
  | OutcomeQuiesceMismatch => "quiesce_mismatch" | OutcomeTokenMismatch => "token_mismatch"
  | OutcomeLeaseExpired => "lease_expired"
  end.

(** The identity and health epoch, and the quiesce epoch, a result carries. *)
Record CommitResult : Type := mkCommitResult {
  cr_Outcome : CommitOutcome;
  cr_Runtime : option (RuntimeIdentity * Z);
  cr_QuiesceEpoch : option Z
}.

Definition commit_outcome (o : CommitOutcome) : CommitResult := mkCommitResult o None None.

(** The comparison of a request with an operation's epoch and token. *)
Definition check_grant (epoch : Z) (tok : Token) (req : CommitRequest) : option CommitOutcome :=
  if negb (c_QuiesceEpoch req =? epoch) then Some OutcomeQuiesceMismatch
  else if negb (ConstantTimeCompareToken (c_Token req) tok) then Some OutcomeTokenMismatch
  else None.

Definition commitAbort (t0 : Z) (isCommit : bool) (req : CommitRequest) (m : AdmissionMachine)
  : CommitResult * AdmissionMachine :=
  let m := expireActiveIfDue t0 m in
  if negb (c_ManagementSchemaVersion req =? ManagementSchemaVersion)
  then (commit_outcome OutcomeIdentityMismatch, m)
  else if negb (bool_decide (c_ExpectedRuntime req = identity m))
  then (commit_outcome OutcomeIdentityMismatch, m)
  else if negb (c_ExpectedHealthEpoch req =? stateEpoch m)
  then (commit_outcome OutcomeEpochMismatch, m)
  else
    match state m with
    | StateQuiescing =>
        match active m with
        | Some a =>
            if Equal (a_id a) (c_OperationID req) then
              match check_grant (a_quiesceEpoch a) (a_token a) req with
              | Some o => (commit_outcome o, m)
              | None =>
                  if isCommit then
                    (mkCommitResult OutcomeCommitted (Some (identity m, stateEpoch m))
                       (Some (a_quiesceEpoch a)),
                     terminate a terminalCommitted StateShuttingDown m)
                  else
                    (mkCommitResult OutcomeAborted (Some (identity m, stateEpoch m)) None,
                     terminate a terminalAborted StateAccepting m)
              end
            else (commit_outcome OutcomeQuiesceMismatch, m)
        | None => (commit_outcome OutcomeQuiesceMismatch, m)
        end
    | StateAccepting =>
        match lastTerminal m with
        | Some t =>
            if Equal (t_id t) (c_OperationID req) then
              match check_grant (t_quiesceEpoch t) (t_token t) req with
              | Some o => (commit_outcome o, m)
              | None =>
                  match t_kind t with
                  | terminalAborted =>
                      if isCommit then (commit_outcome OutcomeQuiesceMismatch, m)
                      else (commit_outcome OutcomeAlreadyAccepting, m)
                  | terminalExpired => (commit_outcome OutcomeLeaseExpired, m)
                  | terminalCommitted => (commit_outcome OutcomeQuiesceMismatch, m)
                  end
              end
            else (commit_outcome OutcomeQuiesceMismatch, m)
        | None => (commit_outcome OutcomeQuiesceMismatch, m)
        end
    | StateShuttingDown =>
        match lastTerminal m with
        | Some t =>
            if Equal (t_id t) (c_OperationID req) then
              match check_grant (t_quiesceEpoch t) (t_token t) req with
              | Some o => (commit_outcome o, m)
              | None =>
                  (mkCommitResult OutcomeAlreadyCommitted (Some (identity m, stateEpoch m))
                     (Some (t_quiesceEpoch t)), m)
              end
            else (commit_outcome OutcomeQuiesceMismatch, m)
        | None => (commit_outcome OutcomeQuiesceMismatch, m)
        end
    end.

Definition Commit (t0 : Z) (req : CommitRequest) (m : AdmissionMachine) : CommitResult * AdmissionMachine :=
  commitAbort t0 true req m.
Definition Abort (t0 : Z) (req : CommitRequest) (m : AdmissionMachine) : CommitResult * AdmissionMachine :=
  commitAbort t0 false req m.

(** [State], [Health], [QuiesceEpoch] *)
Definition State (m : AdmissionMachine) : AdmissionState := state m.
Definition Health (m : AdmissionMachine) : HealthState := health m.
Definition QuiesceEpoch (m : AdmissionMachine) : Z := quiesceEpoch m.

(** ** The management time budget (budget.go) *)

Record ManagementTimeBudget : Type := mkBudget {
  QuiesceHTTPTimeout : Z;
  SafeDecodeBudget : Z;
  CommitHTTPTimeout : Z;
  AbortHTTPTimeout : Z;
  ExecutorSchedulingMargin : Z;
  MinimumCommitRemainingMillis : Z;
  LeaseMin : Z;
  LeaseMax : Z
}.

Definition DefaultManagementTimeBudget : ManagementTimeBudget :=
  mkBudget 2000 500 2000 2000 500 2500 30000 30000.

(** The errors of [Validate]: an overflow or the inequality violated. *)
Inductive BudgetError : Type :=
| ErrBudgetOverflow | Inequality1 | Inequality2 | Inequality3 | AbortConsistency.

Definition addChecked (a b : Z) : BudgetError + Z :=
  let s := wrap_u64 (a + b) in if s >? u32_max then inl ErrBudgetOverflow else inr (wrap_u32 s).

(** [None] is the nil error. *)
Definition ManagementTimeBudget_Validate (b : ManagementTimeBudget) : option BudgetError :=
  match addChecked (CommitHTTPTimeout b) (ExecutorSchedulingMargin b) with
  | inl e => Some e
  | inr rhs1 =>
      if MinimumCommitRemainingMillis b <? rhs1 then Some Inequality1
      else
        match addChecked (QuiesceHTTPTimeout b) (SafeDecodeBudget b) with
        | inl e => Some e
        | inr tmp =>
            match addChecked tmp (MinimumCommitRemainingMillis b) with
            | inl e => Some e
            | inr rhs2 =>
                if LeaseMin b <? rhs2 then Some Inequality2
                else if LeaseMax b <? LeaseMin b then Some Inequality3
                else
                  match addChecked (AbortHTTPTimeout b) (ExecutorSchedulingMargin b) with
                  | inl e => Some e
                  | inr abortNeed =>
                      if MinimumCommitRemainingMillis b <? abortNeed then Some AbortConsistency
                      else None
                  end
            end
        end
  end.

(** ** The file read resources and their health (resource.go) *)

Record FileReadHealthConfig : Type := mkHealthConfig {
  PoolSize : Z;
  MinHealthyFileSlots : Z;
  DegradeAt : Z;
  StuckAgeMillis : Z
}.

Inductive ResourceError : Type :=
| PoolSizeZero | SlotsAbovePool | SlotsOverflow | DegradeTooLate | StuckAgeZero.

Definition subChecked (a b : Z) : option Z := if b >? a then None else Some (a - b).

Definition FileReadHealthConfig_Validate (c : FileReadHealthConfig) : option ResourceError :=
  if PoolSize c =? 0 then Some PoolSizeZero
  else if MinHealthyFileSlots c >? PoolSize c then Some SlotsAbovePool
  else
    match subChecked (PoolSize c) (MinHealthyFileSlots c) with
    | None => Some SlotsOverflow
    | Some healthySlots =>
        if DegradeAt c >? healthySlots then Some DegradeTooLate
        else if StuckAgeMillis c =? 0 then Some StuckAgeZero
        else None
    end.

Record FileReadHealthMachine : Type := mkHealthMachine {
  h_stateEpoch : Z;
  h_state : HealthState;
  h_stuck : Z
}.

Definition NewFileReadHealthMachine : FileReadHealthMachine := mkHealthMachine 1 HealthHealthy 0.

Definition MarkDegrading (h : FileReadHealthMachine) : FileReadHealthMachine :=
  match h_state h with
  | HealthDegraded => h
  | HealthDegrading => h
  | HealthHealthy => mkHealthMachine (wrap_u64 (h_stateEpoch h + 1)) HealthDegrading (h_stuck h)
  end.

Definition MarkDegraded (h : FileReadHealthMachine) : FileReadHealthMachine :=
  match h_state h with
  | HealthDegraded => h
  | _ => mkHealthMachine (wrap_u64 (h_stateEpoch h + 1)) HealthDegraded (h_stuck h)
  end.

(** ** Executions *)

Inductive op : Type :=
| OSetActivity (turns interactions : Z)
| OTryBegin (t0 : Z)
| OEnd
| OSetPending (n : Z)
| OSetHealth (h : HealthState) (epoch : Z)
| OSnapshot (t0 t1 : Z)
| OQuiesce (t0 t1 : Z) (gen : option Token) (req : QuiesceRequest)
| OCommit (t0 : Z) (req : CommitRequest)
| OAbort (t0 : Z) (req : CommitRequest).

Definition exec (o : op) (m : AdmissionMachine) : AdmissionMachine :=
  match o with
  | OSetActivity t i => SetActivity t i m
  | OTryBegin t0 => snd (TryBeginBridgeTurn t0 m)
  | OEnd => EndBridgeTurn m
  | OSetPending n => SetPendingInteractions n m
  | OSetHealth h e => SetHealthSnapshot h e m
  | OSnapshot t0 t1 => snd (Snapshot t0 t1 m)
  | OQuiesce t0 t1 gen req => snd (Quiesce t0 t1 gen req m)
  | OCommit t0 req => snd (Commit t0 req m)
  | OAbort t0 req => snd (Abort t0 req m)
  end.

Definition run (ops : list op) (m : AdmissionMachine) : AdmissionMachine :=
  fold_left (fun m o => exec o m) ops m.

(** Whether a method reads the clock, and then an instant not before its first
    reading. *)
Definition reading (o : op) : option Z :=
  match o with
  | OTryBegin t0 | OSnapshot t0 _ | OQuiesce t0 _ _ _ | OCommit t0 _ | OAbort t0 _ => Some t0
  | _ => None
  end.

(** The conditions on which a commit or an abort is carried out. *)
Record authorised (req : CommitRequest) (a : activeOp) (m : AdmissionMachine) : Prop := {
  auth_schema : c_ManagementSchemaVersion req = ManagementSchemaVersion;
  auth_runtime : c_ExpectedRuntime req = identity m;
  auth_health : c_ExpectedHealthEpoch req = stateEpoch m;
  auth_state : state m = StateQuiescing;
  auth_active : active m = Some a;
  auth_id : c_OperationID req = a_id a;
  auth_epoch : c_QuiesceEpoch req = a_quiesceEpoch a;
  auth_token : c_Token req = a_token a
}.

(** The conditions on which a new operation is created. *)
Record acceptable (req : QuiesceRequest) (m : AdmissionMachine) : Prop := {
  acc_schema : q_ManagementSchemaVersion req = ManagementSchemaVersion;
  acc_runtime : q_ExpectedRuntime req = identity m;
  acc_health : q_ExpectedHealthEpoch req = stateEpoch m;
  acc_state : state m = StateAccepting;
  acc_turns : bridgeOwnedActiveTurns m <= 0;
  acc_pending : pendingInteractions m <= 0;
  acc_new : forall t, lastTerminal m = Some t -> t_id t <> q_OperationID req
}.

Lemma Equal_iff a b : Equal a b = true <-> a = b.
Proof. unfold Equal. apply bool_decide_eq_true. Qed.

Lemma check_grant_None epoch tok req :
  check_grant epoch tok req = None <-> c_QuiesceEpoch req = epoch /\ c_Token req = tok.
Proof.
  unfold check_grant. destruct (Z.eqb_spec (c_QuiesceEpoch req) epoch); simpl; [|naive_solver].
  destruct (ConstantTimeCompareToken (c_Token req) tok) eqn:E; simpl.
  - apply ConstantTimeCompareToken_eq in E. tauto.
  - split; [done|]. intros [_ Ht]. apply ConstantTimeCompareToken_eq in Ht. congruence.
Qed.

Lemma check_grant_mismatch epoch tok req o :
  check_grant epoch tok req = Some o -> o = OutcomeQuiesceMismatch \/ o = OutcomeTokenMismatch.
Proof. unfold check_grant. repeat case_if; naive_solver. Qed.

(** The result and the machine when a commit or an abort is carried out. *)
Definition carried_out (isCommit : bool) (a : activeOp) (m : AdmissionMachine)
  : CommitResult * AdmissionMachine :=
  if isCommit then
    (mkCommitResult OutcomeCommitted (Some (identity m, stateEpoch m)) (Some (a_quiesceEpoch a)),
     terminate a terminalCommitted StateShuttingDown m)
  else
    (mkCommitResult OutcomeAborted (Some (identity m, stateEpoch m)) None,
     terminate a terminalAborted StateAccepting m).

Definition refused (r : CommitResult * AdmissionMachine) (m : AdmissionMachine) : Prop :=
  snd r = m /\ cr_Outcome (fst r) <> OutcomeCommitted /\ cr_Outcome (fst r) <> OutcomeAborted.

Lemma refused_outcome o m :
  o <> OutcomeCommitted -> o <> OutcomeAborted -> refused (commit_outcome o, m) m.
Proof. by repeat split. Qed.

Lemma refused_mismatch epoch tok req o m :
  check_grant epoch tok req = Some o -> refused (commit_outcome o, m) m.
Proof. intros [-> | ->]%check_grant_mismatch; by apply refused_outcome. Qed.

#[local] Hint Resolve refused_mismatch : core.
#[local] Hint Extern 1 (refused (commit_outcome _, _) _) => by apply refused_outcome : core.

Lemma commitAbort_authorised t0 c req m a :
  authorised req a (expireActiveIfDue t0 m) ->
  commitAbort t0 c req m = carried_out c a (expireActiveIfDue t0 m).
Proof.
  intros [Hv Hr Hh Hs Ha Hi He Ht]. unfold commitAbort.
  rewrite Hv, Hh, !Z.eqb_refl, bool_decide_eq_true_2, Hs, Ha by done. simpl.
  rewrite (proj2 (Equal_iff _ _)) by done.
  by rewrite (proj2 (check_grant_None _ _ _)) by done.
Qed.

Lemma commitAbort_refused t0 c req m :
  (forall a, ~ authorised req a (expireActiveIfDue t0 m)) ->
  refused (commitAbort t0 c req m) (expireActiveIfDue t0 m).
Proof.
  unfold commitAbort. generalize (expireActiveIfDue t0 m). clear m. intros m Hno.
  destruct (Z.eqb_spec (c_ManagementSchemaVersion req) ManagementSchemaVersion); simpl; [|by auto].
  case_bool_decide as Hr; simpl; [|by auto].
  destruct (Z.eqb_spec (c_ExpectedHealthEpoch req) (stateEpoch m)); simpl; [|by auto].
  destruct (state m) eqn:Hs.
  - destruct (lastTerminal m) as [t|]; [|by auto]. case_if; [|by auto].
    destruct (check_grant _ _ _) eqn:Hg; [by eauto|]. destruct (t_kind t); [by auto| |by auto].
    destruct c; by auto.
  - destruct (active m) as [a|] eqn:Ha; [|by auto].
    destruct (Equal (a_id a) (c_OperationID req)) eqn:Hi; [|by auto].
    destruct (check_grant _ _ _) eqn:Hg; [by eauto|].
    apply check_grant_None in Hg as [He Ht]. apply Equal_iff in Hi. by destruct (Hno a).
  - destruct (lastTerminal m) as [t|]; [|by auto]. case_if; [|by auto].
    destruct (check_grant _ _ _) eqn:Hg; [by eauto|]. by repeat split.
Qed.

Lemma authorised_or_not req m : (exists a, authorised req a m) \/ (forall a, ~ authorised req a m).
Proof.
  destruct (active m) as [a|] eqn:Ha; [|right; intros a []; congruence].
  destruct (decide (c_ManagementSchemaVersion req = ManagementSchemaVersion /\
    c_ExpectedRuntime req = identity m /\ c_ExpectedHealthEpoch req = stateEpoch m /\
    state m = StateQuiescing /\ c_OperationID req = a_id a /\ c_QuiesceEpoch req = a_quiesceEpoch a /\
    c_Token req = a_token a)) as [H|H].
  - left. exists a. by destruct_and!.
  - right. intros a' []. apply H. assert (a' = a) as -> by congruence. done.
Qed.

(** The operation [Quiesce] creates, the machine with it, and its result. *)
Definition created (t1 : Z) (tok : Token) (req : QuiesceRequest) (m : AdmissionMachine) : activeOp :=
  mkActive (q_OperationID req) (wrap_u64 (quiesceEpoch m + 1)) tok
    (t1 + leaseMillis m * millisecond) (leaseMillis m).

Definition quiesced (a : activeOp) (m : AdmissionMachine) : AdmissionMachine :=
  mkMachine StateQuiescing (identity m) (health m) (stateEpoch m) (a_quiesceEpoch a) (Some a)
    (lastTerminal m) (bridgeOwnedActiveTurns m) (pendingInteractions m) (leaseMillis m).

Definition grant_of (a : activeOp) (remaining : Z) (m : AdmissionMachine) : QuiesceResult :=
  mkQuiesceResult QuiesceSafe
    (Some (mkGrant (identity m) (stateEpoch m) (a_quiesceEpoch a) (a_token a) (a_leaseMillis a)
             remaining)) None.

Lemma Quiesce_created t0 t1 tok req m :
  acceptable req (expireActiveIfDue t0 m) ->
  let m1 := expireActiveIfDue t0 m in
  Quiesce t0 t1 (Some tok) req m =
    (grant_of (created t1 tok req m1) (leaseMillis m1) m1, quiesced (created t1 tok req m1) m1).
Proof.
  intros [Hv Hr Hh Hs Ht Hp Hn]. cbv zeta. unfold Quiesce.
  rewrite Hv, Hh, !Z.eqb_refl, bool_decide_eq_true_2, Hs by done. cbn [negb].
  assert ((bridgeOwnedActiveTurns (expireActiveIfDue t0 m) >? 0)
          || (pendingInteractions (expireActiveIfDue t0 m) >? 0) = false) as ->.
  { rewrite !Z.gtb_ltb. apply orb_false_intro; by apply Z.ltb_ge. }
  assert (match lastTerminal (expireActiveIfDue t0 m) with
          | Some t => Equal (t_id t) (q_OperationID req) | None => false end = false) as ->.
  { destruct (lastTerminal _) as [t|]; [|done]. apply not_true_is_false.
    intros Heq%Equal_iff. by apply (Hn t). }
  done.
Qed.

(** Any other call leaves the machine as the expiry did; a safe answer then only
    repeats the grant of the live operation. *)
Lemma Quiesce_unchanged t0 t1 gen req m :
  (~ acceptable req (expireActiveIfDue t0 m) \/ gen = None) ->
  let m1 := expireActiveIfDue t0 m in
  snd (Quiesce t0 t1 gen req m) = m1 /\
  (qr_Outcome (fst (Quiesce t0 t1 gen req m)) = QuiesceSafe ->
   exists a, state m1 = StateQuiescing /\ active m1 = Some a /\ a_id a = q_OperationID req /\
     fst (Quiesce t0 t1 gen req m) =
       grant_of a (remainingLeaseMillis t1 (a_expiresAt a) (a_leaseMillis a)) m1).
Proof.
  cbv zeta. unfold Quiesce. generalize (expireActiveIfDue t0 m). clear m. intros m Hno.
  destruct (Z.eqb_spec (q_ManagementSchemaVersion req) ManagementSchemaVersion); simpl; [|done].
  case_bool_decide as Hr; simpl; [|done].
  destruct (Z.eqb_spec (q_ExpectedHealthEpoch req) (stateEpoch m)); simpl; [|done].
  destruct (state m) eqn:Hs; [| |done].
  - destruct ((bridgeOwnedActiveTurns m >? 0) || (pendingInteractions m >? 0)) eqn:Hb; [done|].
    destruct (match lastTerminal m with Some t => Equal (t_id t) (q_OperationID req)
              | None => false end) eqn:Hu; [done|].
    destruct gen as [tok|]; [|done]. destruct Hno as [Hno|]; [|done]. destruct Hno.
    zprop. split; try done. intros t Ht Hid. rewrite Ht in Hu.
    apply not_true_iff_false in Hu. by apply Hu, Equal_iff.
  - destruct (active m) as [a|] eqn:Ha; [|done].
    destruct (Equal (a_id a) (q_OperationID req)) eqn:Hi; [|done].
    apply Equal_iff in Hi. split; [done|]. intros _. by exists a.
Qed.

Lemma acceptable_or_not req m : acceptable req m \/ ~ acceptable req m.
Proof.
  destruct (decide (q_ManagementSchemaVersion req = ManagementSchemaVersion /\
    q_ExpectedRuntime req = identity m /\ q_ExpectedHealthEpoch req = stateEpoch m /\
    state m = StateAccepting /\ bridgeOwnedActiveTurns m <= 0 /\ pendingInteractions m <= 0 /\
    t_id <$> lastTerminal m <> Some (q_OperationID req))) as [H|H].
  - left. destruct_and!. split; try done. intros t Ht Hid.
    match goal with H : t_id <$> _ <> _ |- _ => apply H end. by rewrite Ht, <- Hid.
  - right. intros []. apply H. do 6 (split; [done|]). destruct (lastTerminal m) as [t|]; simpl; [|done].
    intros [= Hid]. by eapply acc_new0.
Qed.

(** ** Invariants *)

(** While an operation is active the machine quiesces, and conversely. *)
Definition coherent (m : AdmissionMachine) : Prop :=
  state m = StateQuiescing <-> is_Some (active m).

Lemma expire_coherent t0 m : coherent m -> coherent (expireActiveIfDue t0 m).
Proof.
  unfold expireActiveIfDue. intros Hc. destruct (active m) as [a|]; [|done]. case_if; [|done].
  split; [done|by intros []].
Qed.

(** The machine a method works on: after the expiry, when it reads the clock. *)
Definition due (o : op) (m : AdmissionMachine) : AdmissionMachine :=
  match reading o with Some t => expireActiveIfDue t m | None => m end.

(** The part of the machine that the admission protocol is about. *)
Definition core (m : AdmissionMachine)
  : AdmissionState * RuntimeIdentity * Z * option activeOp * option terminalOp * Z :=
  (state m, identity m, quiesceEpoch m, active m, lastTerminal m, leaseMillis m).

Inductive effect (m1 : AdmissionMachine) (o : op) : AdmissionMachine -> Prop :=
| effect_none m' : core m' = core m1 -> effect m1 o m'
| effect_quiesce t0 t1 tok req :
    o = OQuiesce t0 t1 (Some tok) req -> acceptable req m1 ->
    effect m1 o (quiesced (created t1 tok req m1) m1)
| effect_commit t0 req a :
    o = OCommit t0 req -> authorised req a m1 ->
    effect m1 o (terminate a terminalCommitted StateShuttingDown m1)
| effect_abort t0 req a :
    o = OAbort t0 req -> authorised req a m1 ->
    effect m1 o (terminate a terminalAborted StateAccepting m1).

(** Every method acts on the protocol in one of these ways. *)
Lemma exec_effect o m : effect (due o m) o (exec o m).
Proof.
  destruct o as [t i|t0| |n|h e|t0 t1|t0 t1 gen req|t0 req|t0 req]; unfold due; cbn [reading exec];
    try by apply effect_none.
  - apply effect_none. unfold TryBeginBridgeTurn. by case_if.
  - apply effect_none. unfold EndBridgeTurn. by case_if.
  - apply effect_none. unfold Snapshot. destruct (active _); [done|]. destruct (lastTerminal _); [|done].
    by case_if.
  - destruct (acceptable_or_not req (expireActiveIfDue t0 m)) as [H|H]; [destruct gen as [tok|]|].
    + rewrite (Quiesce_created t0 t1 tok req m H). by eapply effect_quiesce.
    + apply effect_none. by destruct (Quiesce_unchanged t0 t1 None req m (or_intror eq_refl)) as [-> _].
    + apply effect_none. by destruct (Quiesce_unchanged t0 t1 gen req m (or_introl H)) as [-> _].
  - destruct (authorised_or_not req (expireActiveIfDue t0 m)) as [[a H]|H]; unfold Commit.
    + rewrite (commitAbort_authorised t0 true req m a H). by eapply effect_commit.
    + apply effect_none. by destruct (commitAbort_refused t0 true req m H) as [-> _].
  - destruct (authorised_or_not req (expireActiveIfDue t0 m)) as [[a H]|H]; unfold Abort.
    + rewrite (commitAbort_authorised t0 false req m a H). by eapply effect_abort.
    + apply effect_none. by destruct (commitAbort_refused t0 false req m H) as [-> _].
Qed.

Lemma run_app ops1 ops2 m : run (ops1 ++ ops2) m = run ops2 (run ops1 m).
Proof. apply fold_left_app. Qed.

Lemma run_snoc ops o m : run (ops ++ [o]) m = exec o (run ops m).
Proof. by rewrite run_app. Qed.

Lemma coherent_exec o m : coherent m -> coherent (exec o m).
Proof.
  intros Hc. assert (coherent (due o m)) as H1 by (unfold due; destruct (reading o); [by apply expire_coherent|done]).
  revert H1. unfold coherent. destruct (exec_effect o m) as [m' [= -> _ _ -> _ _]| | |]; simpl; intros H1;
    [done|naive_solver|split; [done|by intros []]|split; [done|by intros []]].
Qed.

(** The turns counted by the machine. *)
Lemma expire_turns t m : bridgeOwnedActiveTurns (expireActiveIfDue t m) = bridgeOwnedActiveTurns m.
Proof. unfold expireActiveIfDue. destruct (active m); [by case_if|done]. Qed.

Lemma commitAbort_turns t0 c req m :
  bridgeOwnedActiveTurns (snd (commitAbort t0 c req m)) = bridgeOwnedActiveTurns m.
Proof.
  rewrite <- (expire_turns t0 m).
  destruct (authorised_or_not req (expireActiveIfDue t0 m)) as [[a H]|H].
  - rewrite (commitAbort_authorised t0 c req m a H). by destruct c.
  - by destruct (commitAbort_refused t0 c req m H) as [-> _].
Qed.

Lemma Quiesce_turns t0 t1 gen req m :
  bridgeOwnedActiveTurns (snd (Quiesce t0 t1 gen req m)) = bridgeOwnedActiveTurns m.
Proof.
  rewrite <- (expire_turns t0 m).
  destruct (acceptable_or_not req (expireActiveIfDue t0 m)) as [H|H]; [destruct gen as [tok|]|].
  - by rewrite (Quiesce_created t0 t1 tok req m H).
  - by destruct (Quiesce_unchanged t0 t1 None req m (or_intror eq_refl)) as [-> _].
  - by destruct (Quiesce_unchanged t0 t1 gen req m (or_introl H)) as [-> _].
Qed.

Lemma Snapshot_machine t0 t1 m : snd (Snapshot t0 t1 m) = expireActiveIfDue t0 m.
Proof. unfold Snapshot. destruct (active _); [done|]. destruct (lastTerminal _); [by case_if|done]. Qed.

Definition sets_activity (o : op) : bool := match o with OSetActivity _ _ => true | _ => false end.

Lemma turns_exec o m :
  sets_activity o = false -> 0 <= bridgeOwnedActiveTurns m <= u32_max ->
  0 <= bridgeOwnedActiveTurns (exec o m) <= u32_max /\
  (state (due o m) <> StateAccepting ->
   bridgeOwnedActiveTurns (exec o m) <= bridgeOwnedActiveTurns m).
Proof.
  intros Hno Hm.
  destruct o as [t i|t0| |n|h e|t0 t1|t0 t1 gen req|t0 req|t0 req]; unfold due; cbn [reading exec];
    try done; unfold Commit, Abort;
    rewrite ?Snapshot_machine, ?Quiesce_turns, ?commitAbort_turns, ?expire_turns; try (simpl; lia).
  - unfold TryBeginBridgeTurn. case_if; simpl; rewrite expire_turns; [lia|].
    zprop. rewrite expire_turns in *. unfold u32_max, wrap_u32 in *. rewrite Z.mod_small by lia.
    split; [lia|done].
  - unfold EndBridgeTurn. case_if; simpl; zprop; lia.
Qed.

(** No turn of the bridge is in progress while the machine does not accept. *)
Definition idle (m : AdmissionMachine) : Prop :=
  0 <= bridgeOwnedActiveTurns m <= u32_max /\
  (state m <> StateAccepting -> bridgeOwnedActiveTurns m = 0).

Lemma due_state o m : state (due o m) = state m \/ state (due o m) = StateAccepting.
Proof.
  unfold due. destruct (reading o); [|by left]. unfold expireActiveIfDue.
  destruct (active m); [|by left]. case_if; [by right|by left].
Qed.

Lemma idle_exec o m : sets_activity o = false -> idle m -> idle (exec o m).
Proof.
  intros Hno [Hm Hi]. destruct (turns_exec o m Hno Hm) as [Hr Hle]. split; [done|].
  assert (state (due o m) <> StateAccepting -> state (exec o m) <> StateAccepting ->
          bridgeOwnedActiveTurns (exec o m) = 0) as Hkeep.
  { intros Hd _. specialize (Hle Hd). destruct (due_state o m) as [He|]; [|done].
    rewrite He in Hd. specialize (Hi Hd). lia. }
  destruct (exec_effect o m) as [m' Hcore|t0 t1 tok req Ho Hacc|t0 req a Ho Hau|t0 req a Ho Hau].
  - intros Hs. apply Hkeep; [|done]. injection Hcore as Hst _ _ _ _ _. by rewrite Hst in Hs.
  - intros _. destruct Hacc as [_ _ _ _ Ht _ _]. simpl in *. lia.
  - intros Hs. apply Hkeep; [|done]. destruct Hau as [_ _ _ Hst _ _ _ _]. by rewrite Hst.
  - done.
Qed.

Lemma idle_run ops m : forallb (fun o => negb (sets_activity o)) ops = true -> idle m -> idle (run ops m).
Proof.
  revert m. induction ops as [|o ops IH]; intros m Hno Hm; [done|]. cbn [forallb] in Hno. zprop.
  apply IH; [done|]. by apply idle_exec.
Qed.

(** ** The seal of a granted lease *)

(** No turn can begin before [e]: committed, or quiescing under a lease that runs
    at least until [e]. *)
Definition sealed (e : Z) (m : AdmissionMachine) : Prop :=
  state m = StateShuttingDown \/
  state m = StateQuiescing /\ exists a, active m = Some a /\ e <= a_expiresAt a.

(** Calls whose clock readings lie between [lo] and [hi], none of which is an
    abort that was carried out. *)
Fixpoint undisturbed (lo hi : Z) (ops : list op) (m : AdmissionMachine) : Prop :=
  match ops with
  | [] => True
  | o :: ops =>
      match reading o with Some t => lo <= t < hi | None => True end /\
      match o with
      | OAbort t0 req => cr_Outcome (fst (Abort t0 req m)) <> OutcomeAborted
      | _ => True
      end /\ undisturbed lo hi ops (exec o m)
  end.

Lemma sealed_not_due e t m : sealed e m -> t < e -> expireActiveIfDue t m = m.
Proof.
  unfold expireActiveIfDue. intros [Hs|(Hs & a & -> & He)] Ht.
  - destruct (active m); [|done]. by rewrite bool_decide_eq_false_2 by by rewrite Hs.
  - destruct (Z.ltb_spec t (a_expiresAt a)); [by rewrite andb_false_r|lia].
Qed.

Lemma sealed_exec lo e o m :
  sealed e m -> undisturbed lo e [o] m -> sealed e (exec o m).
Proof.
  intros Hs (Hr & Ha & _).
  assert (due o m = m) as Hd.
  { unfold due. destruct (reading o); [|done]. eapply sealed_not_due; [done|lia]. }
  pose proof (exec_effect o m) as He. rewrite Hd in He.
  destruct He as [m' Hcore|t0 t1 tok req Ho Hacc|t0 req a Ho Hau|t0 req a Ho Hau].
  - unfold core in Hcore. injection Hcore as E1 E2 E3 E4 E5 E6. unfold sealed. by rewrite E1, E4.
  - destruct Hacc as [_ _ _ Hst _ _ _]. destruct Hs as [Hs|[Hs _]]; congruence.
  - by left.
  - subst o. destruct Ha. cbn [reading] in Hd, Hr.
    assert (expireActiveIfDue t0 m = m) as Hx by (eapply sealed_not_due; [done|lia]).
    unfold Abort. rewrite (commitAbort_authorised t0 false req m a) by by rewrite Hx. done.
Qed.

Lemma sealed_run lo e ops m : sealed e m -> undisturbed lo e ops m -> sealed e (run ops m).
Proof.
  revert m. induction ops as [|o ops IH]; intros m Hs Hu; [done|].
  destruct Hu as (Hr & Ha & Hu). apply IH; [|done]. eapply sealed_exec; [done|]. by split_and!.
Qed.

Lemma sealed_no_turn e t m : sealed e m -> t < e -> fst (TryBeginBridgeTurn t m) = false.
Proof.
  intros Hs Ht. unfold TryBeginBridgeTurn. rewrite (sealed_not_due e) by done.
  rewrite bool_decide_eq_false_2; [done|]. by destruct Hs as [->|[-> _]].
Qed.

Lemma remaining_bound t1 expires lease :
  0 < remainingLeaseMillis t1 expires lease ->
  t1 + remainingLeaseMillis t1 expires lease * millisecond <= expires.
Proof.
  unfold remainingLeaseMillis, wrap_u32. case_if; [lia|]. zprop.
  pose proof (Z.mul_div_le (expires - t1) millisecond eq_refl).
  assert (0 <= (expires - t1) / millisecond) by (apply Z.div_pos; [lia|done]).
  pose proof (Z.mod_le ((expires - t1) / millisecond) 4294967296).
  unfold millisecond in *. case_if; zprop; lia.
Qed.

(** What a safe answer grants, new or repeated. *)
Lemma Quiesce_safe t0 t1 gen req m g :
  qr_Outcome (fst (Quiesce t0 t1 gen req m)) = QuiesceSafe ->
  qr_Safe (fst (Quiesce t0 t1 gen req m)) = Some g ->
  0 < g_LeaseRemainingMillis g ->
  sealed (t1 + g_LeaseRemainingMillis g * millisecond) (snd (Quiesce t0 t1 gen req m)).
Proof.
  intros Ho Hg Hpos.
  destruct (acceptable_or_not req (expireActiveIfDue t0 m)) as [H|H]; [destruct gen as [tok|]|].
  - rewrite (Quiesce_created t0 t1 tok req m H) in *. injection Hg as <-. right. split; [done|].
    eexists. split; [done|]. simpl. lia.
  - destruct (Quiesce_unchanged t0 t1 None req m (or_intror eq_refl)) as [Hm Hr].
    destruct (Hr Ho) as (a & Hs & Ha & _ & E). rewrite E in Hg. injection Hg as <-.
    rewrite Hm. right. split; [done|]. exists a. split; [done|]. by apply remaining_bound.
  - destruct (Quiesce_unchanged t0 t1 gen req m (or_introl H)) as [Hm Hr].
    destruct (Hr Ho) as (a & Hs & Ha & _ & E). rewrite E in Hg. injection Hg as <-.
    rewrite Hm. right. split; [done|]. exists a. split; [done|]. by apply remaining_bound.
Qed.

(** ** Properties *)

(** A safe answer seals the runtime: from the answer until the lease it
    promised has run out, whatever the interleaving of other calls, no bridge
    turn begins, unless the supervisor aborts with the token. *)
Theorem quiesced_admits_no_turn t0 t1 gen req m g ops t :
  qr_Outcome (fst (Quiesce t0 t1 gen req m)) = QuiesceSafe ->
  qr_Safe (fst (Quiesce t0 t1 gen req m)) = Some g ->
  let e := t1 + g_LeaseRemainingMillis g * millisecond in
  undisturbed t1 e ops (snd (Quiesce t0 t1 gen req m)) -> t1 <= t < e ->
  fst (TryBeginBridgeTurn t (run ops (snd (Quiesce t0 t1 gen req m)))) = false.
Proof.
  intros Ho Hg e Hu [Ht1 Ht]. unfold millisecond in *.
  apply (sealed_no_turn e); [|done]. eapply sealed_run; [|done].
  apply Quiesce_safe; [done|done|]. unfold e in *. lia.
Qed.

Lemma shut_down_forever ops m :
  state m = StateShuttingDown -> state (run ops m) = StateShuttingDown.
Proof.
  revert m. induction ops as [|o ops IH]; intros m Hs; [done|]. apply IH.
  assert (state (due o m) = StateShuttingDown) as Hd.
  { unfold due, expireActiveIfDue. destruct (reading o); [|done]. destruct (active m); [|done].
    by rewrite bool_decide_eq_false_2 by by rewrite Hs. }
  destruct (exec_effect o m) as [m' Hcore|t0 t1 tok req Ho Hacc|t0 req a Ho Hau|t0 req a Ho Hau].
  - unfold core in Hcore. injection Hcore as E1 _ _ _ _ _. congruence.
  - destruct Hacc as [_ _ _ Hst _ _ _]. congruence.
  - done.
  - destruct Hau as [_ _ _ Hst _ _ _ _]. congruence.
Qed.

(** A committed shutdown finds the runtime idle, and is final: when a commit is
    carried out, no bridge turn is in progress, and after any further calls the
    machine is still shutting down and begins no turn. (Turns are counted by
    [TryBeginBridgeTurn] and [EndBridgeTurn]; [SetActivity] is not called.) *)
Theorem committed_is_idle_and_final ident lease ops t0 req :
  forallb (fun o => negb (sets_activity o)) ops = true ->
  let r := Commit t0 req (run ops (NewAdmissionMachine ident lease)) in
  cr_Outcome (fst r) = OutcomeCommitted ->
  bridgeOwnedActiveTurns (snd r) = 0 /\
  forall ops' t, state (run ops' (snd r)) = StateShuttingDown /\
    fst (TryBeginBridgeTurn t (run ops' (snd r))) = false.
Proof.
  intros Hno r Hc.
  assert (idle (run ops (NewAdmissionMachine ident lease))) as Hidle.
  { apply idle_run; [done|]. split; [by vm_compute|done]. }
  pose proof (idle_exec (OCommit t0 req) _ eq_refl Hidle) as [_ Hi].
  assert (state (snd r) = StateShuttingDown) as Hs.
  { unfold r, Commit in *.
    destruct (authorised_or_not req (expireActiveIfDue t0 (run ops (NewAdmissionMachine ident lease))))
      as [[a H]|H].
    - by rewrite (commitAbort_authorised t0 true req _ a H).
    - by destruct (commitAbort_refused t0 true req _ H) as (_ & ? & _). }
  split; [apply Hi; unfold exec; fold r; by rewrite Hs|].
  intros ops' t. pose proof (shut_down_forever ops' _ Hs) as Hf. split; [done|].
  apply (sealed_no_turn (t + 1)); [by left|lia].
Qed.

(** The decision table of commit and abort: one is carried out exactly when the
    schema, the runtime identity, the health epoch, the operation, its epoch and
    its token all match a live operation; it then ends that operation, and any
    other answer leaves the machine as the lease expiry left it. *)
Theorem commitAbort_effect t0 isCommit req m :
  let m1 := expireActiveIfDue t0 m in
  let r := commitAbort t0 isCommit req m in
  (cr_Outcome (fst r) = OutcomeCommitted \/ cr_Outcome (fst r) = OutcomeAborted <->
   exists a, authorised req a m1) /\
  (cr_Outcome (fst r) = OutcomeCommitted -> isCommit = true) /\
  (cr_Outcome (fst r) = OutcomeAborted -> isCommit = false) /\
  (forall a, authorised req a m1 ->
   snd r = terminate a (if isCommit then terminalCommitted else terminalAborted)
             (if isCommit then StateShuttingDown else StateAccepting) m1) /\
  (cr_Outcome (fst r) <> OutcomeCommitted -> cr_Outcome (fst r) <> OutcomeAborted -> snd r = m1).
Proof.
  cbv zeta. destruct (authorised_or_not req (expireActiveIfDue t0 m)) as [[a H]|H].
  - rewrite (commitAbort_authorised t0 isCommit req m a H).
    assert (forall a', authorised req a' (expireActiveIfDue t0 m) -> a' = a) as Huniq.
    { intros a' H'. destruct H, H'. congruence. }
    destruct isCommit; simpl; split_and!; try done; try (split; [by exists a|by auto]);
      by intros a' ->%Huniq.
  - destruct (commitAbort_refused t0 isCommit req m H) as (Hm & Hc & Ha).
    split_and!; try done; [|by intros a' ?%H].
    split; [by intros [?|?]|by intros [a' ?%H]].
Qed.

Lemma commitAbort_effect_witness :
  let rt := mkIdentity 7 1 in
  let m := quiesced (mkActive [1] 1 [2] (5 * second) 5000) (NewAdmissionMachine rt 5000) in
  let req := mkCommitRequest 1 [1] rt 1 1 [2] in
  snd (commitAbort second true req m) =
    terminate (mkActive [1] 1 [2] (5 * second) 5000) terminalCommitted StateShuttingDown m /\
  cr_Outcome (fst (commitAbort (5 * second) true req m)) = OutcomeLeaseExpired.
Proof.
  cbv zeta. split; [|vm_compute; reflexivity].
  apply (commitAbort_effect second true (mkCommitRequest 1 [1] (mkIdentity 7 1) 1 1 [2])).
  split; reflexivity.
Defined.

Lemma quiesced_admits_no_turn_witness :
  let rt := mkIdentity 7 1 in
  let m := NewAdmissionMachine rt 5000 in
  let req := mkQuiesceRequest 1 [1] rt 1 in
  let ops := [OTryBegin (2 * second); OEnd; OAbort (3 * second) (mkCommitRequest 1 [1] rt 1 1 [3])] in
  fst (TryBeginBridgeTurn (4 * second) (run ops (snd (Quiesce 0 0 (Some [2]) req m)))) = false /\
  fst (TryBeginBridgeTurn (5 * second) (run ops (snd (Quiesce 0 0 (Some [2]) req m)))) = true.
Proof.
  cbv zeta. split; [|vm_compute; reflexivity].
  apply (quiesced_admits_no_turn 0 0 (Some [2]) (mkQuiesceRequest 1 [1] (mkIdentity 7 1) 1)
    (NewAdmissionMachine (mkIdentity 7 1) 5000) (mkGrant (mkIdentity 7 1) 1 1 [2] 5000 5000)).
  - reflexivity.
  - reflexivity.
  - vm_compute. repeat split; discriminate.
  - vm_compute. split; [discriminate|reflexivity].
Defined.

Lemma committed_is_idle_and_final_witness :
  let rt := mkIdentity 7 1 in
  let ops := [OTryBegin 0; OEnd; OQuiesce 1 1 (Some [2]) (mkQuiesceRequest 1 [1] rt 1); OTryBegin 2] in
  let r := Commit 3 (mkCommitRequest 1 [1] rt 1 1 [2]) (run ops (NewAdmissionMachine rt 5000)) in
  bridgeOwnedActiveTurns (snd r) = 0 /\ state (run [OEnd] (snd r)) = StateShuttingDown.
Proof.
  cbv zeta.
  destruct (committed_is_idle_and_final (mkIdentity 7 1) 5000
    [OTryBegin 0; OEnd; OQuiesce 1 1 (Some [2]) (mkQuiesceRequest 1 [1] (mkIdentity 7 1) 1); OTryBegin 2]
    3 (mkCommitRequest 1 [1] (mkIdentity 7 1) 1 1 [2])) as [H1 H2].
  - reflexivity.
  - vm_compute. reflexivity.
  - split; [exact H1|]. exact (proj1 (H2 [OEnd] 4)).
Defined.

(** ** The history of an operation *)

Lemma expire_lease t m : leaseMillis (expireActiveIfDue t m) = leaseMillis m.
Proof. unfold expireActiveIfDue. destruct (active m); [by case_if|done]. Qed.

Lemma exec_lease o m : leaseMillis (exec o m) = leaseMillis m /\ identity (exec o m) = identity m.
Proof.
  assert (leaseMillis (due o m) = leaseMillis m /\ identity (due o m) = identity m) as [El Ei].
  { unfold due, expireActiveIfDue. destruct (reading o); [|done]. destruct (active m); [|done].
    by case_if. }
  destruct (exec_effect o m) as [m' Hcore|t0 t1 tok req Ho Hacc|t0 req a Ho Hau|t0 req a Ho Hau];
    [|done|done|done].
  unfold core in Hcore. injection Hcore as _ E2 _ _ _ E6. by rewrite E2, E6.
Qed.

Lemma run_lease ops m : leaseMillis (run ops m) = leaseMillis m.
Proof.
  induction ops as [|o ops IH] using rev_ind; [done|]. rewrite run_snoc.
  by destruct (exec_lease o (run ops m)) as [-> _].
Qed.

Lemma due_active o m : active (due o m) = active m \/ active (due o m) = None.
Proof.
  unfold due, expireActiveIfDue. destruct (reading o); [|by left].
  destruct (active m) eqn:E; [|left; done]. case_if; [by right|by left].
Qed.

(** The operation in progress was created by a call of [Quiesce] in the past. *)
Lemma active_origin ident lease ops a :
  active (run ops (NewAdmissionMachine ident lease)) = Some a ->
  exists pre t0 t1 tok req post,
    ops = pre ++ OQuiesce t0 t1 (Some tok) req :: post /\
    let m := expireActiveIfDue t0 (run pre (NewAdmissionMachine ident lease)) in
    acceptable req m /\ a = created t1 tok req m.
Proof.
  induction ops as [|o ops IH] using rev_ind; [done|]. rewrite run_snoc.
  destruct (exec_effect o (run ops (NewAdmissionMachine ident lease)))
    as [m' Hcore|t0 t1 tok req Ho Hacc|t0 req a' Ho Hau|t0 req a' Ho Hau]; [| |done|done].
  - unfold core in Hcore. injection Hcore as _ _ _ E4 _ _. rewrite E4. intros Ha.
    destruct (due_active o (run ops (NewAdmissionMachine ident lease))) as [E|E];
      rewrite E in Ha; [|done].
    destruct (IH Ha) as (pre & t0 & t1 & tok & req & post & -> & H).
    exists pre, t0, t1, tok, req, (post ++ [o]). by rewrite <- app_assoc.
  - intros [= <-]. subst o. exists ops, t0, t1, tok, req, []. done.
Qed.

(** Only the holder of a live lease can shut the runtime down: a commit is
    carried out only if, earlier in the execution, a call of [Quiesce] created
    that very operation, answered safe with that very token, and its lease has
    not run out at the instant of the commit. *)
Theorem Commit_within_lease ident lease ops t0 req :
  cr_Outcome (fst (Commit t0 req (run ops (NewAdmissionMachine ident lease)))) = OutcomeCommitted ->
  exists pre tq t1 tok q post g,
    ops = pre ++ OQuiesce tq t1 (Some tok) q :: post /\
    let r := fst (Quiesce tq t1 (Some tok) q (run pre (NewAdmissionMachine ident lease))) in
    qr_Outcome r = QuiesceSafe /\ qr_Safe r = Some g /\ g_QuiesceEpoch g = c_QuiesceEpoch req /\
    q_OperationID q = c_OperationID req /\ tok = c_Token req /\ t0 < t1 + lease * millisecond.
Proof.
  unfold Commit. intros Hc. remember (run ops (NewAdmissionMachine ident lease)) as m eqn:Hm.
  destruct (authorised_or_not req (expireActiveIfDue t0 m)) as [[a H]|H];
    [|by destruct (commitAbort_refused t0 true req m H) as (_ & ? & _)].
  destruct H as [_ _ _ Hs Ha Hid Hep Htok].
  assert (active m = Some a /\ t0 < a_expiresAt a) as [Hact Hlt].
  { unfold expireActiveIfDue in Hs, Ha. destruct (active m) as [a'|] eqn:E; [|congruence].
    destruct (bool_decide (state m = StateQuiescing) && negb (t0 <? a_expiresAt a')) eqn:Eb; [done|].
    rewrite E in Ha. injection Ha as ->. split; [done|].
    rewrite bool_decide_eq_true_2 in Eb by done. simpl in Eb. by zprop. }
  rewrite Hm in Hact. destruct (active_origin ident lease ops a Hact) as (pre & tq & t1 & tok & q & post & -> & Hacc & ->).
  set (m0 := expireActiveIfDue tq (run pre (NewAdmissionMachine ident lease))) in *.
  exists pre, tq, t1, tok, q, post, (mkGrant (identity m0) (stateEpoch m0)
    (a_quiesceEpoch (created t1 tok q m0)) tok (leaseMillis m0) (leaseMillis m0)).
  split; [done|]. rewrite (Quiesce_created tq t1 tok q _ Hacc). simpl in *.
  split_and!; try done.
  assert (leaseMillis m0 = lease) as El; [|by rewrite El in Hlt].
  transitivity (leaseMillis (run pre (NewAdmissionMachine ident lease))); [|by rewrite run_lease].
  apply expire_lease.
Qed.

Lemma Commit_within_lease_witness :
  let rt := mkIdentity 7 1 in
  let ops := [OTryBegin 0; OEnd; OQuiesce 1 1 (Some [2]) (mkQuiesceRequest 1 [1] rt 1)] in
  exists t1 : Z, 3 < t1 + 5000 * millisecond /\
    (exists tq q, OQuiesce tq t1 (Some [2]) q ∈ ops).
Proof.
  cbv zeta.
  destruct (Commit_within_lease (mkIdentity 7 1) 5000
    [OTryBegin 0; OEnd; OQuiesce 1 1 (Some [2]) (mkQuiesceRequest 1 [1] (mkIdentity 7 1) 1)]
    3 (mkCommitRequest 1 [1] (mkIdentity 7 1) 1 1 [2]))
    as (pre & tq & t1 & tok & q & post & g & Hops & _ & _ & _ & _ & Htok & Hlt).
  - vm_compute. reflexivity.
  - exists t1. split; [exact Hlt|]. exists tq, q. rewrite Hops. simpl in Htok. rewrite Htok.
    apply elem_of_app. right. left.
Defined.

(** Quiescing: an operation is created exactly when the request matches the
    runtime, the machine accepts, the runtime is idle, the operation id is not
    that of the last terminated one and a token could be generated; otherwise
    the machine is left as the lease expiry left it, and a safe answer can only
    repeat the grant of the same live operation. *)
Theorem Quiesce_effect t0 t1 gen req m :
  let m1 := expireActiveIfDue t0 m in
  let r := Quiesce t0 t1 gen req m in
  (forall tok, acceptable req m1 -> gen = Some tok ->
   r = (grant_of (created t1 tok req m1) (leaseMillis m1) m1, quiesced (created t1 tok req m1) m1)) /\
  (~ acceptable req m1 \/ gen = None ->
   snd r = m1 /\
   (qr_Outcome (fst r) = QuiesceSafe ->
    exists a, active m1 = Some a /\ a_id a = q_OperationID req /\
      fst r = grant_of a (remainingLeaseMillis t1 (a_expiresAt a) (a_leaseMillis a)) m1)).
Proof.
  cbv zeta. split.
  - intros tok Hacc ->. by apply Quiesce_created.
  - intros H. destruct (Quiesce_unchanged t0 t1 gen req m H) as [Hm Hr]. split; [done|].
    intros Ho. destruct (Hr Ho) as (a & _ & ? & ? & ?). by exists a.
Qed.

Lemma Quiesce_effect_witness :
  let rt := mkIdentity 7 1 in
  let m := NewAdmissionMachine rt 5000 in
  let req := mkQuiesceRequest 1 [1] rt 1 in
  snd (Quiesce 0 0 None req m) = m /\
  Quiesce 0 0 (Some [2]) req m =
    (grant_of (mkActive [1] 1 [2] (5 * second) 5000) 5000 m, quiesced (mkActive [1] 1 [2] (5 * second) 5000) m).
Proof.
  cbv zeta. split.
  - apply (Quiesce_effect 0 0 None (mkQuiesceRequest 1 [1] (mkIdentity 7 1) 1)). by right.
  - apply (Quiesce_effect 0 0 (Some [2]) (mkQuiesceRequest 1 [1] (mkIdentity 7 1) 1)
             (NewAdmissionMachine (mkIdentity 7 1) 5000)); [|reflexivity].
    split; try reflexivity; discriminate.
Defined.

(** ** The budget *)

Definition uint32 (v : Z) : Prop := 0 <= v <= u32_max.

(** The fields of a budget are [uint32]. *)
Record budget_u32 (b : ManagementTimeBudget) : Prop := {
  u32_quiesce : uint32 (QuiesceHTTPTimeout b); u32_decode : uint32 (SafeDecodeBudget b);
  u32_commit : uint32 (CommitHTTPTimeout b); u32_abort : uint32 (AbortHTTPTimeout b);
  u32_margin : uint32 (ExecutorSchedulingMargin b);
  u32_minimum : uint32 (MinimumCommitRemainingMillis b);
  u32_leaseMin : uint32 (LeaseMin b); u32_leaseMax : uint32 (LeaseMax b)
}.

Lemma addChecked_spec a b :
  uint32 a -> uint32 b ->
  addChecked a b = if a + b <=? u32_max then inr (a + b) else inl ErrBudgetOverflow.
Proof.
  unfold uint32, addChecked, wrap_u64, wrap_u32, u32_max. intros.
  rewrite (Z.mod_small (a + b) 18446744073709551616), Z.gtb_ltb by lia.
  destruct (Z.ltb_spec 4294967295 (a + b)), (Z.leb_spec (a + b) 4294967295); try lia; [done|].
  by rewrite Z.mod_small by lia.
Qed.

(** The inequalities, over the integers. *)
Record budget_ok (b : ManagementTimeBudget) : Prop := {
  ok_commit : CommitHTTPTimeout b + ExecutorSchedulingMargin b <= MinimumCommitRemainingMillis b;
  ok_lease : QuiesceHTTPTimeout b + SafeDecodeBudget b + MinimumCommitRemainingMillis b <= LeaseMin b;
  ok_range : LeaseMin b <= LeaseMax b;
  ok_abort : AbortHTTPTimeout b + ExecutorSchedulingMargin b <= MinimumCommitRemainingMillis b
}.

Lemma Validate_spec b :
  budget_u32 b -> ManagementTimeBudget_Validate b = None <-> budget_ok b.
Proof.
  intros [H1 H2 H3 H4 H5 H6 H7 H8]. unfold ManagementTimeBudget_Validate.
  rewrite (addChecked_spec (CommitHTTPTimeout b)), (addChecked_spec (QuiesceHTTPTimeout b)),
    (addChecked_spec (AbortHTTPTimeout b)) by done.
  unfold uint32 in *.
  destruct (Z.leb_spec (CommitHTTPTimeout b + ExecutorSchedulingMargin b) u32_max);
    [|split; [done|intros []; lia]].
  destruct (Z.ltb_spec (MinimumCommitRemainingMillis b) (CommitHTTPTimeout b + ExecutorSchedulingMargin b));
    [split; [done|intros []; lia]|].
  destruct (Z.leb_spec (QuiesceHTTPTimeout b + SafeDecodeBudget b) u32_max);
    [|split; [done|intros []; lia]].
  rewrite addChecked_spec by (unfold uint32; lia).
  destruct (Z.leb_spec (QuiesceHTTPTimeout b + SafeDecodeBudget b + MinimumCommitRemainingMillis b) u32_max);
    [|split; [done|intros []; lia]].
  destruct (Z.ltb_spec (LeaseMin b)
    (QuiesceHTTPTimeout b + SafeDecodeBudget b + MinimumCommitRemainingMillis b));
    [split; [done|intros []; lia]|].
  destruct (Z.ltb_spec (LeaseMax b) (LeaseMin b)); [split; [done|intros []; lia]|].
  destruct (Z.leb_spec (AbortHTTPTimeout b + ExecutorSchedulingMargin b) u32_max);
    [|split; [done|intros []; lia]].
  destruct (Z.ltb_spec (MinimumCommitRemainingMillis b) (AbortHTTPTimeout b + ExecutorSchedulingMargin b));
    [split; [done|intros []; lia]|].
  split; [by split|done].
Qed.

(** What a validated budget buys: validation accepts exactly the budgets whose
    four inequalities hold without overflow; and under such a budget, a new
    operation whose lease is at least [LeaseMin] can still be committed when
    its request, sent by the supervisor within the budget (response, decoding,
    scheduling and the commit request itself), arrives before the sum of these
    times has elapsed. *)
Theorem budget_leaves_time_to_commit b :
  budget_u32 b ->
  (ManagementTimeBudget_Validate b = None <-> budget_ok b) /\
  (ManagementTimeBudget_Validate b = None ->
   forall t0 t1 tok q m t req,
     let m1 := expireActiveIfDue t0 m in
     acceptable q m1 -> LeaseMin b <= leaseMillis m1 ->
     t < t1 + (QuiesceHTTPTimeout b + SafeDecodeBudget b + CommitHTTPTimeout b +
               ExecutorSchedulingMargin b) * millisecond ->
     c_ManagementSchemaVersion req = ManagementSchemaVersion ->
     c_ExpectedRuntime req = identity m1 -> c_ExpectedHealthEpoch req = stateEpoch m1 ->
     c_OperationID req = q_OperationID q -> c_Token req = tok ->
     c_QuiesceEpoch req = wrap_u64 (quiesceEpoch m1 + 1) ->
     cr_Outcome (fst (Commit t req (snd (Quiesce t0 t1 (Some tok) q m)))) = OutcomeCommitted).
Proof.
  intros Hu. split; [by apply Validate_spec|]. intros Hb%Validate_spec; [|done].
  intros t0 t1 tok q m t req m1 Hacc Hl Ht Hv Hr Hh Hid Htok Hep.
  rewrite (Quiesce_created t0 t1 tok q m Hacc). fold m1. cbn [snd]. unfold Commit.
  assert (expireActiveIfDue t (quiesced (created t1 tok q m1) m1) = quiesced (created t1 tok q m1) m1) as He.
  { unfold expireActiveIfDue. simpl. destruct Hb as [? ? ? ?]. unfold millisecond in *.
    destruct (Z.ltb_spec t (t1 + leaseMillis m1 * 1000000)); [done|lia]. }
  rewrite (commitAbort_authorised t true req _ (created t1 tok q m1)); [done|].
  rewrite He. by split.
Qed.

Lemma budget_leaves_time_to_commit_witness :
  ManagementTimeBudget_Validate DefaultManagementTimeBudget = None /\
  cr_Outcome (fst (Commit (4 * second) (mkCommitRequest 1 [1] (mkIdentity 7 1) 1 1 [2])
    (snd (Quiesce 0 0 (Some [2]) (mkQuiesceRequest 1 [1] (mkIdentity 7 1) 1)
            (NewAdmissionMachine (mkIdentity 7 1) 30000))))) = OutcomeCommitted.
Proof.
  assert (budget_u32 DefaultManagementTimeBudget) as Hu by (split; split; vm_compute; discriminate).
  split; [reflexivity|].
  refine (proj2 (budget_leaves_time_to_commit _ Hu) _ 0 0 [2] _ _ _ _ _ _ _ _ _ _ _ _ _);
    try reflexivity; try discriminate.
  split; try reflexivity; try discriminate; vm_compute; discriminate.
Defined.

(** ** Resources and health *)

Lemma FileReadHealthConfig_Validate_spec c :
  0 <= PoolSize c -> 0 <= StuckAgeMillis c ->
  FileReadHealthConfig_Validate c = None <->
  0 < PoolSize c /\ MinHealthyFileSlots c <= PoolSize c /\
  DegradeAt c <= PoolSize c - MinHealthyFileSlots c /\ 0 < StuckAgeMillis c.
Proof.
  intros Hp Hs. unfold FileReadHealthConfig_Validate, subChecked. rewrite !Z.gtb_ltb.
  destruct (Z.eqb_spec (PoolSize c) 0); [split; [done|lia]|].
  destruct (Z.ltb_spec (PoolSize c) (MinHealthyFileSlots c)); [split; [done|lia]|].
  rewrite Z.gtb_ltb.
  destruct (Z.ltb_spec (PoolSize c - MinHealthyFileSlots c) (DegradeAt c)); [split; [done|lia]|].
  destruct (Z.eqb_spec (StuckAgeMillis c) 0); split; try done; lia.
Qed.

(** The marks of one generation: [true] is [MarkDegraded]. *)
Definition mark (degraded : bool) (h : FileReadHealthMachine) : FileReadHealthMachine :=
  if degraded then MarkDegraded h else MarkDegrading h.

Definition marks (ms : list bool) (h : FileReadHealthMachine) : FileReadHealthMachine :=
  fold_left (fun h b => mark b h) ms h.

Definition severity (s : HealthState) : Z :=
  match s with HealthHealthy => 0 | HealthDegrading => 1 | HealthDegraded => 2 end.

(** How often the state changes along the marks. *)
Fixpoint changes (ms : list bool) (h : FileReadHealthMachine) : Z :=
  match ms with
  | [] => 0
  | b :: ms =>
      (if bool_decide (h_state (mark b h) = h_state h) then 0 else 1) + changes ms (mark b h)
  end.

Lemma mark_step b h :
  1 <= h_stateEpoch h <= 1 + severity (h_state h) ->
  severity (h_state h) <= severity (h_state (mark b h)) /\
  1 <= h_stateEpoch (mark b h) <= 1 + severity (h_state (mark b h)) /\
  h_stateEpoch (mark b h) =
    h_stateEpoch h + (if bool_decide (h_state (mark b h) = h_state h) then 0 else 1).
Proof.
  unfold mark, MarkDegraded, MarkDegrading, wrap_u64.
  destruct b, h as [e [] s]; cbn [h_state h_stateEpoch severity]; intros He;
    rewrite ?Z.mod_small by lia;
    repeat case_bool_decide; try congruence; lia.
Qed.

(** The health of the file reads only worsens, and its epoch counts its changes
    exactly, so an epoch names one state of one generation. *)
Lemma FileReadHealth_epochs ms :
  let h := marks ms NewFileReadHealthMachine in
  h_stateEpoch h = 1 + changes ms NewFileReadHealthMachine /\ h_stateEpoch h <= 3 /\
  forall ms', severity (h_state h) <= severity (h_state (marks ms' h)).
Proof.
  assert (forall ms h, 1 <= h_stateEpoch h <= 1 + severity (h_state h) ->
    severity (h_state h) <= severity (h_state (marks ms h)) /\
    1 <= h_stateEpoch (marks ms h) <= 1 + severity (h_state (marks ms h)) /\
    h_stateEpoch (marks ms h) = h_stateEpoch h + changes ms h) as Hall.
  { clear ms. induction ms as [|b ms IH]; intros h Hh; simpl; [lia|].
    destruct (mark_step b h Hh) as (H1 & H2 & H3). destruct (IH _ H2) as (H4 & H5 & H6).
    cbn [marks fold_left] in *. unfold marks in *. lia. }
  cbv zeta. destruct (Hall ms NewFileReadHealthMachine) as (_ & H2 & H3); [simpl; lia|].
  split; [done|]. split.
  - destruct (h_state (marks ms NewFileReadHealthMachine)); simpl in *; lia.
  - intros ms'. by apply Hall.
Qed.
