(* ===== verification/FilePool.v ===== *)
(** * The file read pool (go-bridge/filepool/pool.go, health.go)

    A bounded pool of workers that serves queues of file reads, one per device, in
    round robin, and refuses reads once a worker is stuck. The methods that run
    under the mutex are functions on the record [Pool]; the goroutines around
    them (submitters, workers, watchdog, closer) and the two channels are the
    step relation [step] on [System], one step per critical section or channel
    operation. [time.Now] is an argument. The bodies of [Work] and [OnCancel] are
    not modelled, only that they are called. *)

From S2P Require Import Prelude.
From S2P Require Import Admission.

Inductive PoolError : Type := ErrWorkNil | ErrPoolClosed | ErrFileDegraded | ErrFileBusy.

#[export] Instance PoolError_eq_dec : EqDecision PoolError.
Proof. solve_decision. Defined.

Record Config : Type := mkConfig {
  cfg_PoolSize : Z;
  PerDeviceInFlight : Z;
  PerDeviceQueued : Z;
  GlobalQueued : Z;
  ReadTimeout : Z;
  cfg_Health : FileReadHealthConfig
}.

(** Whether [Config.Validate] answers nil. *)
Definition Config_Validate (c : Config) : bool :=
  if cfg_PoolSize c =? 0 then false
  else if (PerDeviceInFlight c =? 0) || (PerDeviceInFlight c >=? cfg_PoolSize c) then false
  else if PerDeviceQueued c =? 0 then false
  else if GlobalQueued c =? 0 then false
  else if ReadTimeout c <=? 0 then false
  else match FileReadHealthConfig_Validate (cfg_Health c) with Some _ => false | None => true end.

(** [Job]: the functions are represented by their being non-nil. *)
Record Job : Type := mkJob { DeviceID : string; Work : bool; OnCancel : bool }.

(** [*pendingJob]: a pointer (its allocation number) and the job. The context and
    the start time, set when a worker starts the job, are in [inflightJobs]. *)
Record pendingJob : Type := mkPending { pj_ptr : nat; job : Job }.

Record inflight : Type := mkInflight { startedAt : Z; ctx_cancelled : bool }.

Record Pool : Type := mkPool {
  cfg : Config;
  health : FileReadHealthMachine;
  queues : gmap string (list pendingJob);
  deviceOrder : list string;
  cursor : nat;
  inflightDev : gmap string Z;
  globalQueued : Z;
  inflightJobs : gmap nat inflight;
  rejecting : bool;
  closed : bool;
  allocated : nat
}.

Definition New (c : Config) : Pool :=
  mkPool c NewFileReadHealthMachine ∅ [] 0 ∅ 0 ∅ false false 0.

(** ** Health *)

Record HealthSnapshot : Type := mkHealthSnapshot { hs_State : HealthState; hs_Epoch : Z }.

Definition Health_Snapshot (h : FileReadHealthMachine) : HealthSnapshot :=
  mkHealthSnapshot (h_state h) (h_stateEpoch h).

Definition IsAccepting (h : FileReadHealthMachine) : bool := bool_decide (h_state h = HealthHealthy).

Definition Health_MarkDegrading (h : FileReadHealthMachine) : HealthSnapshot * FileReadHealthMachine :=
  let h := MarkDegrading h in (Health_Snapshot h, h).

Definition Health_MarkDegraded (h : FileReadHealthMachine) : HealthSnapshot * FileReadHealthMachine :=
  let h := MarkDegraded h in (Health_Snapshot h, h).

Record StatusSnapshot : Type := mkStatus { st_Health : HealthSnapshot; st_StuckWorkers : Z }.

Definition stuckAge (c : Config) : Z := StuckAgeMillis (cfg_Health c) * millisecond.

(** The jobs in flight for at least the stuck age. *)
Definition stuck (now : Z) (p : Pool) : gmap nat inflight :=
  filter (fun ij => now - startedAt ij.2 >=? stuckAge (cfg p)) (inflightJobs p).

Definition Pool_StatusSnapshot (now : Z) (p : Pool) : StatusSnapshot :=
  mkStatus (Health_Snapshot (health p)) (wrap_u32 (Z.of_nat (size (stuck now p)))).

(** ** Submission *)

(** [p.queues[dev]]: a missing key reads the nil slice. *)
Definition queue_of (dev : string) (qs : gmap string (list pendingJob)) : list pendingJob :=
  default [] (qs !! dev).

Definition Submit (j : Job) (p : Pool) : option PoolError * Pool :=
  if negb (Work j) then (Some ErrWorkNil, p)
  else if closed p then (Some ErrPoolClosed, p)
  else if rejecting p || negb (IsAccepting (health p)) then (Some ErrFileDegraded, p)
  else
    let dev := DeviceID j in
    let pendingForDev := wrap_u32 (zlen (queue_of dev (queues p))) in
    if wrap_u32 (inflightDev p !!0 dev + pendingForDev) >=? PerDeviceQueued (cfg p)
    then (Some ErrFileBusy, p)
    else if globalQueued p >=? GlobalQueued (cfg p) then (Some ErrFileBusy, p)
    else
      let pj := mkPending (allocated p) j in
      (None,
       mkPool (cfg p) (health p) (<[dev := queue_of dev (queues p) ++ [pj]]> (queues p))
         (if pendingForDev =? 0 then deviceOrder p ++ [dev] else deviceOrder p)
         (cursor p) (inflightDev p) (globalQueued p + 1) (inflightJobs p) (rejecting p) (closed p)
         (S (allocated p))).

(** ** Taking a job *)

(** [append(order[:i], order[i+1:]...)] at the first occurrence of the device. *)
Fixpoint remove_first (dev : string) (order : list string) : list string :=
  match order with
  | [] => []
  | d :: order => if bool_decide (d = dev) then order else d :: remove_first dev order
  end.

Definition removeDeviceLocked (dev : string) (order : list string) (cur : nat) : list string * nat :=
  if bool_decide (dev ∈ order) then
    let order := remove_first dev order in
    (order, if Nat.leb (length order) cur then 0%nat else cur)
  else (order, cur).

(** The head [pj] of the device's queue [pj :: rest], found at index [idx]. *)
Definition take_job (idx : nat) (dev : string) (pj : pendingJob) (rest : list pendingJob) (p : Pool)
  : Pool :=
  let cur := Nat.modulo (S idx) (length (deviceOrder p)) in
  let '(order, cur) :=
    if zlen rest =? 0 then removeDeviceLocked dev (deviceOrder p) cur else (deviceOrder p, cur) in
  mkPool (cfg p) (health p) (<[dev := rest]> (queues p)) order cur
    (<[dev := wrap_u32 (inflightDev p !!0 dev + 1)]> (inflightDev p)) (globalQueued p - 1)
    (inflightJobs p) (rejecting p) (closed p) (allocated p).

(** The loop of [popLocked] over the offsets left; its index is always in range
    ([idx_in_range]). *)
Fixpoint pop_scan (offset fuel : nat) (p : Pool) : option (pendingJob * Pool) :=
  match fuel with
  | O => None
  | S fuel =>
      let idx := Nat.modulo (cursor p + offset) (length (deviceOrder p)) in
      match deviceOrder p !! idx with
      | None => None
      | Some dev =>
          match queue_of dev (queues p) with
          | [] => pop_scan (S offset) fuel p
          | pj :: rest =>
              if inflightDev p !!0 dev >=? PerDeviceInFlight (cfg p) then pop_scan (S offset) fuel p
              else Some (pj, take_job idx dev pj rest p)
          end
      end
  end.

Definition popLocked (p : Pool) : option (pendingJob * Pool) :=
  pop_scan 0 (length (deviceOrder p)) p.

(** ** Running a job *)

Definition set_inflight (dev : gmap string Z) (jobs : gmap nat inflight) (p : Pool) : Pool :=
  mkPool (cfg p) (health p) (queues p) (deviceOrder p) (cursor p) dev (globalQueued p) jobs
    (rejecting p) (closed p) (allocated p).

(** [worker], before and after [Work]. *)
Definition worker_start (now : Z) (pj : pendingJob) (p : Pool) : Pool :=
  set_inflight (inflightDev p) (<[pj_ptr pj := mkInflight now false]> (inflightJobs p)) p.

Definition worker_finish (pj : pendingJob) (p : Pool) : Pool :=
  let dev := DeviceID (job pj) in
  let n := wrap_u32 (inflightDev p !!0 dev - 1) in
  set_inflight (if n =? 0 then delete dev (inflightDev p) else <[dev := n]> (inflightDev p))
    (delete (pj_ptr pj) (inflightJobs p)) p.

(** ** Draining *)

(** Every queued job. *)
Definition queued (qs : gmap string (list pendingJob)) : list pendingJob :=
  concat (map snd (map_to_list qs)).

(** [drainLocked]: the jobs it drops, and the pool without them. [OnCancel] is
    called on those that have one. *)
Definition drainLocked (p : Pool) : list pendingJob * Pool :=
  let dropped := queued (queues p) in
  (dropped,
   mkPool (cfg p) (health p) ∅ [] 0 (inflightDev p) (globalQueued p - zlen dropped) (inflightJobs p)
     (rejecting p) (closed p) (allocated p)).

Definition set_flags (rej cl : bool) (p : Pool) : Pool :=
  mkPool (cfg p) (health p) (queues p) (deviceOrder p) (cursor p) (inflightDev p) (globalQueued p)
    (inflightJobs p) rej cl (allocated p).

Definition set_health (h : FileReadHealthMachine) (p : Pool) : Pool :=
  mkPool (cfg p) h (queues p) (deviceOrder p) (cursor p) (inflightDev p) (globalQueued p)
    (inflightJobs p) (rejecting p) (closed p) (allocated p).

Definition stuckTickInterval (stuckAgeMillis : Z) : Z :=
  let d := stuckAgeMillis * millisecond / 4 in
  if d <? 5 * millisecond then 5 * millisecond else d.

(** [scanStuck] up to the release of the mutex: the jobs dropped, if it found a
    stuck one. The health is marked after it ([step_mark]). *)
Definition scanStuck (now : Z) (p : Pool) : list pendingJob * Pool :=
  if Nat.eqb (size (stuck now p)) 0 || rejecting p then ([], p)
  else drainLocked (set_flags true (closed p) p).

(** The critical section of [Close]. *)
Definition Close (p : Pool) : list pendingJob * Pool :=
  let '(dropped, p) := drainLocked (set_flags (rejecting p) true p) in
  (dropped,
   set_inflight (inflightDev p)
     ((fun i => mkInflight (startedAt i) true) <$> inflightJobs p) p).

(** ** The goroutines *)

(** A worker between two of its operations: about to take the mutex in [pop],
    past it without a job, blocked in the [select], with a job taken, in
    [Work], or returned. *)
Inductive worker : Type :=
| WCheck | WSelect | WBlocked | WPopped (pj : pendingJob) | WRunning (pj : pendingJob) | WExited.

(** The pool, its channels ([wake] holds at most one token; [stop] is closed or
    not), the sends on [wake] that follow a critical section and have not been
    made yet, the workers, and the history: the jobs accepted, those whose
    [Work] was called, and those dropped, with the error their [OnCancel] gets. *)
Record System : Type := mkSystem {
  pool : Pool;
  wake : bool;
  stop : bool;
  sends : nat;
  workers : list worker;
  accepted : list pendingJob;
  worked : list pendingJob;
  dropped : list (pendingJob * PoolError)
}.

Definition start (c : Config) : System :=
  mkSystem (New c) false false 0 (replicate (Z.to_nat (cfg_PoolSize c)) WCheck) [] [] [].

Definition set_worker (i : nat) (w : worker) (s : System) : System :=
  mkSystem (pool s) (wake s) (stop s) (sends s) (<[i := w]> (workers s)) (accepted s) (worked s)
    (dropped s).

Definition set_pool (p : Pool) (s : System) : System :=
  mkSystem p (wake s) (stop s) (sends s) (workers s) (accepted s) (worked s) (dropped s).

Definition set_channel (wk st : bool) (n : nat) (s : System) : System :=
  mkSystem (pool s) wk st n (workers s) (accepted s) (worked s) (dropped s).

Definition log_dropped (js : list pendingJob) (err : PoolError) (s : System) : System :=
  mkSystem (pool s) (wake s) (stop s) (sends s) (workers s) (accepted s) (worked s)
    (dropped s ++ map (fun j => (j, err)) js).

Inductive step : System -> System -> Prop :=
(* Submit: the critical section; an accepted job is followed by a send *)
| step_submit j p' s :
    Submit j (pool s) = (None, p') ->
    step s (mkSystem p' (wake s) (stop s) (S (sends s)) (workers s)
              (accepted s ++ [mkPending (allocated (pool s)) j]) (worked s) (dropped s))
| step_refuse j err p' s :
    Submit j (pool s) = (Some err, p') -> step s (set_pool p' s)
(* the send: to a blocked worker if there is one, else into the buffer, else dropped *)
| step_send_worker i n s :
    sends s = S n -> workers s !! i = Some WBlocked ->
    step s (set_worker i WCheck (set_channel (wake s) (stop s) n s))
| step_send_buffer n s :
    sends s = S n -> WBlocked ∉ workers s -> step s (set_channel true (stop s) n s)
(* a worker: pop, then the select or the job *)
| step_pop i pj p' s :
    workers s !! i = Some WCheck -> popLocked (pool s) = Some (pj, p') ->
    step s (set_worker i (WPopped pj) (set_pool p' s))
| step_pop_empty i s :
    workers s !! i = Some WCheck -> popLocked (pool s) = None ->
    step s (set_worker i (if closed (pool s) then WExited else WSelect) s)
| step_take_token i s :
    workers s !! i = Some WSelect -> wake s = true ->
    step s (set_worker i WCheck (set_channel false (stop s) (sends s) s))
| step_block i s :
    workers s !! i = Some WSelect -> wake s = false -> stop s = false ->
    step s (set_worker i WBlocked s)
| step_exit i w s :
    workers s !! i = Some w -> w = WSelect \/ w = WBlocked -> stop s = true ->
    step s (set_worker i WExited s)
| step_work i pj now s :
    workers s !! i = Some (WPopped pj) ->
    step s (set_worker i (WRunning pj)
              (mkSystem (worker_start now pj (pool s)) (wake s) (stop s) (sends s) (workers s)
                 (accepted s) (worked s ++ [pj]) (dropped s)))
| step_finish i pj s :
    workers s !! i = Some (WRunning pj) ->
    step s (set_worker i WCheck (set_pool (worker_finish pj (pool s)) s))
(* the watchdog *)
| step_scan now js p' s :
    scanStuck now (pool s) = (js, p') -> step s (log_dropped js ErrFileDegraded (set_pool p' s))
| step_mark s :
    rejecting (pool s) = true ->
    step s (set_pool (set_health (snd (Health_MarkDegrading (health (pool s)))) (pool s)) s)
(* Close, once: the critical section, then close(stop) and a send *)
| step_close js p' s :
    closed (pool s) = false -> Close (pool s) = (js, p') ->
    step s (log_dropped js ErrPoolClosed (set_pool p' s))
| step_stop s :
    closed (pool s) = true -> stop s = false -> step s (set_channel (wake s) true (S (sends s)) s).

(** *** Scheduled executions *)

(** One step, chosen by a scheduler. *)
Inductive action : Type :=
| ASubmit (j : Job) | ASend | ASendTo (i : nat) | APop (i : nat) | ATake (i : nat) | ABlock (i : nat)
| AExit (i : nat) | AWork (i : nat) (now : Z) | AFinish (i : nat) | AScan (now : Z) | AClose | AStop.

Definition is_blocked (w : worker) : bool := match w with WBlocked => true | _ => false end.

Definition perform (a : action) (s : System) : option System :=
  match a with
  | ASubmit j =>
      match Submit j (pool s) with
      | (None, p') =>
          Some (mkSystem p' (wake s) (stop s) (S (sends s)) (workers s)
                  (accepted s ++ [mkPending (allocated (pool s)) j]) (worked s) (dropped s))
      | (Some _, p') => Some (set_pool p' s)
      end
  | ASend =>
      match sends s with
      | S n => if existsb is_blocked (workers s) then None else Some (set_channel true (stop s) n s)
      | O => None
      end
  | ASendTo i =>
      match sends s, workers s !! i with
      | S n, Some WBlocked => Some (set_worker i WCheck (set_channel (wake s) (stop s) n s))
      | _, _ => None
      end
  | APop i =>
      match workers s !! i with
      | Some WCheck =>
          match popLocked (pool s) with
          | Some (pj, p') => Some (set_worker i (WPopped pj) (set_pool p' s))
          | None => Some (set_worker i (if closed (pool s) then WExited else WSelect) s)
          end
      | _ => None
      end
  | ATake i =>
      match workers s !! i, wake s with
      | Some WSelect, true => Some (set_worker i WCheck (set_channel false (stop s) (sends s) s))
      | _, _ => None
      end
  | ABlock i =>
      match workers s !! i, wake s, stop s with
      | Some WSelect, false, false => Some (set_worker i WBlocked s)
      | _, _, _ => None
      end
  | AExit i =>
      match workers s !! i, stop s with
      | Some WSelect, true | Some WBlocked, true => Some (set_worker i WExited s)
      | _, _ => None
      end
  | AWork i now =>
      match workers s !! i with
      | Some (WPopped pj) =>
          Some (set_worker i (WRunning pj)
                  (mkSystem (worker_start now pj (pool s)) (wake s) (stop s) (sends s) (workers s)
                     (accepted s) (worked s ++ [pj]) (dropped s)))
      | _ => None
      end
  | AFinish i =>
      match workers s !! i with
      | Some (WRunning pj) => Some (set_worker i WCheck (set_pool (worker_finish pj (pool s)) s))
      | _ => None
      end
  | AScan now =>
      let '(js, p') := scanStuck now (pool s) in
      Some (log_dropped js ErrFileDegraded (set_pool p' s))
  | AClose =>
      if closed (pool s) then None
      else let '(js, p') := Close (pool s) in Some (log_dropped js ErrPoolClosed (set_pool p' s))
  | AStop =>
      if closed (pool s) && negb (stop s) then Some (set_channel (wake s) true (S (sends s)) s) else None
  end.

Fixpoint schedule (acts : list action) (s : System) : option System :=
  match acts with
  | [] => Some s
  | a :: acts => match perform a s with Some s' => schedule acts s' | None => None end
  end.

Lemma not_blocked ws : existsb is_blocked ws = false -> WBlocked ∉ ws.
Proof.
  intros Hb Hin. apply not_true_iff_false in Hb. apply Hb, existsb_exists. exists WBlocked.
  split; [by apply list_elem_of_In|done].
Qed.

Lemma perform_step a s s' : perform a s = Some s' -> step s s'.
Proof.
  destruct a as [j| |i|i|i|i|i|i now|i|now| |]; cbn [perform].
  - destruct (Submit j (pool s)) as [[err|] p'] eqn:E; intros [= <-]; by econstructor.
  - destruct (sends s) as [|n] eqn:E; [done|]. destruct (existsb _ _) eqn:Eb; [done|].
    intros [= <-]. apply step_send_buffer; [done|by apply not_blocked].
  - destruct (sends s) as [|n] eqn:E; [done|]. destruct (workers s !! i) as [[]|] eqn:Ei; try done.
    intros [= <-]. by apply step_send_worker.
  - destruct (workers s !! i) as [[]|] eqn:Ei; try done.
    destruct (popLocked (pool s)) as [[pj p']|] eqn:E; intros [= <-]; by econstructor.
  - destruct (workers s !! i) as [[]|] eqn:Ei; try done. destruct (wake s) eqn:E; [|done].
    intros [= <-]. by apply step_take_token.
  - destruct (workers s !! i) as [[]|] eqn:Ei; try done. destruct (wake s) eqn:E; [done|].
    destruct (stop s) eqn:Es; [done|]. intros [= <-]. by apply step_block.
  - destruct (workers s !! i) as [[]|] eqn:Ei; try done; destruct (stop s) eqn:Es; try done;
      intros [= <-]; (eapply step_exit; [exact Ei|auto|exact Es]).
  - destruct (workers s !! i) as [[]|] eqn:Ei; try done. intros [= <-]. by apply step_work.
  - destruct (workers s !! i) as [[]|] eqn:Ei; try done. intros [= <-]. by apply step_finish.
  - destruct (scanStuck now (pool s)) as [js p'] eqn:E. intros [= <-]. eapply step_scan. exact E.
  - destruct (closed (pool s)) eqn:Ec; [done|]. destruct (Close (pool s)) as [js p'] eqn:E.
    intros [= <-]. by apply step_close.
  - destruct (closed (pool s)) eqn:Ec; [|done]. destruct (stop s) eqn:Es; [done|].
    intros [= <-]. by apply step_stop.
Qed.

(** A state with a property, reached by a schedule: evaluated once. *)
Lemma schedule_reaches acts s (P : System -> Prop) :
  match schedule acts s with Some s' => P s' | None => False end -> exists s', rtc step s s' /\ P s'.
Proof.
  destruct (schedule acts s) as [s'|] eqn:E; [|done]. intros HP. exists s'. split; [|done].
  clear HP P. revert s E. induction acts as [|a acts IH]; intros s; simpl.
  - intros [= ->]. apply rtc_refl.
  - destruct (perform a s) as [s1|] eqn:E1; [|done]. intros E.
    eapply rtc_l; [by eapply perform_step|by apply IH].
Qed.

(** The job a worker has, and whether it serves a device. *)
Definition popped_job (w : worker) : list pendingJob := match w with WPopped pj => [pj] | _ => [] end.
Definition busy_with (w : worker) : list pendingJob :=
  match w with WPopped pj | WRunning pj => [pj] | _ => [] end.

Definition serving (dev : string) (ws : list worker) : Z :=
  sum_with (fun w => zlen (filter (fun pj => DeviceID (job pj) = dev) (busy_with w))) ws.

(** ** Invariants *)

(** The limits are [uint32]. *)
Definition config_u32 (c : Config) : Prop :=
  uint32 (cfg_PoolSize c) /\ uint32 (PerDeviceInFlight c) /\ uint32 (PerDeviceQueued c) /\
  uint32 (GlobalQueued c).

Record pool_ok (p : Pool) : Prop := {
  ok_config : Config_Validate (cfg p) = true;
  ok_width : config_u32 (cfg p);
  ok_queued : globalQueued p = zlen (queued (queues p));
  ok_bound : globalQueued p <= GlobalQueued (cfg p);
  ok_device : forall dev pj, pj ∈ queue_of dev (queues p) -> DeviceID (job pj) = dev;
  ok_order : NoDup (deviceOrder p);
  ok_listed : forall dev, dev ∈ deviceOrder p <-> queue_of dev (queues p) <> [];
  ok_cursor : (cursor p < Nat.max 1 (length (deviceOrder p)))%nat;
  ok_caps : forall dev, 0 <= inflightDev p !!0 dev <= PerDeviceInFlight (cfg p) /\
    inflightDev p !!0 dev + zlen (queue_of dev (queues p)) <= PerDeviceQueued (cfg p);
  ok_refusing : rejecting p = true \/ closed p = true -> queued (queues p) = []
}.

(** *** Queues *)

Lemma queued_insert dev q (qs : gmap string (list pendingJob)) :
  queued (<[dev := q]> qs) ≡ₚ q ++ queued (delete dev qs).
Proof.
  unfold queued. rewrite <- insert_delete_eq, map_to_list_insert by apply lookup_delete_eq. done.
Qed.

Lemma queued_split dev (qs : gmap string (list pendingJob)) :
  queued qs ≡ₚ queue_of dev qs ++ queued (delete dev qs).
Proof.
  unfold queue_of.
  destruct (qs !! dev) as [q|] eqn:E; simpl; [|by rewrite delete_id by done].
  rewrite <- (insert_id qs dev q) at 1 by done. apply queued_insert.
Qed.

Lemma queue_of_insert dev dev' q qs :
  queue_of dev' (<[dev := q]> qs) = if bool_decide (dev = dev') then q else queue_of dev' qs.
Proof.
  unfold queue_of. case_bool_decide as H; [subst; by rewrite lookup_insert_eq|by rewrite lookup_insert_ne].
Qed.

Lemma queued_empty_queue dev qs : queued qs = [] -> queue_of dev qs = [].
Proof.
  intros H. pose proof (queued_split dev qs) as Hs. rewrite H in Hs.
  symmetry in Hs. apply Permutation_nil_r, app_eq_nil in Hs. tauto.
Qed.

(** *** Submission *)

Lemma Submit_accepted j p p' :
  pool_ok p -> Submit j p = (None, p') ->
  let dev := DeviceID j in
  rejecting p = false /\ closed p = false /\
  inflightDev p !!0 dev + zlen (queue_of dev (queues p)) < PerDeviceQueued (cfg p) /\
  globalQueued p < GlobalQueued (cfg p) /\
  p' = mkPool (cfg p) (health p) (<[dev := queue_of dev (queues p) ++ [mkPending (allocated p) j]]> (queues p))
         (if bool_decide (queue_of dev (queues p) = []) then deviceOrder p ++ [dev] else deviceOrder p)
         (cursor p) (inflightDev p) (globalQueued p + 1) (inflightJobs p) (rejecting p) (closed p)
         (S (allocated p)).
Proof.
  intros Hok. cbv zeta. unfold Submit. destruct (negb (Work j)); [done|].
  destruct (closed p) eqn:Hc; [done|]. destruct (rejecting p) eqn:Hr; [done|].
  destruct (negb (IsAccepting (health p))); [done|]. cbn [orb].
  destruct (ok_caps p Hok (DeviceID j)) as [Hi Hq].
  destruct (ok_width p Hok) as (_ & _ & [Hd0 Hd] & _). unfold u32_max in Hd.
  assert (wrap_u32 (zlen (queue_of (DeviceID j) (queues p))) = zlen (queue_of (DeviceID j) (queues p))) as ->
    by (unfold wrap_u32; apply Z.mod_small; lia).
  assert (wrap_u32 (inflightDev p !!0 DeviceID j + zlen (queue_of (DeviceID j) (queues p))) =
          inflightDev p !!0 DeviceID j + zlen (queue_of (DeviceID j) (queues p))) as ->
    by (unfold wrap_u32; apply Z.mod_small; lia).
  case_if; [done|]. case_if; [done|]. intros [= <-]. zprop.
  do 4 (split; [done|]). by rewrite zlen_eqb_nil.
Qed.

Lemma Submit_refused j err p p' : Submit j p = (Some err, p') -> p' = p.
Proof. unfold Submit. repeat case_if; by intros [= _ <-]. Qed.

Lemma order_push dev dev' p :
  pool_ok p ->
  NoDup (if bool_decide (queue_of dev (queues p) = []) then deviceOrder p ++ [dev] else deviceOrder p) /\
  (dev' ∈ (if bool_decide (queue_of dev (queues p) = []) then deviceOrder p ++ [dev] else deviceOrder p) <->
   dev' = dev \/ queue_of dev' (queues p) <> []).
Proof.
  intros Hok. pose proof (ok_order p Hok) as Hn. pose proof (ok_listed p Hok) as Hl.
  case_bool_decide as He.
  - split.
    + apply NoDup_app. split; [done|]. split; [|apply NoDup_singleton].
      intros x Hx ->%list_elem_of_singleton. by apply Hl in Hx.
    + rewrite elem_of_app, list_elem_of_singleton, Hl. tauto.
  - split; [done|]. rewrite Hl. split; [by right|]. by intros [->|].
Qed.

Lemma Submit_ok j p p' : pool_ok p -> Submit j p = (None, p') -> pool_ok p'.
Proof.
  intros Hok Hs. destruct (Submit_accepted j p p' Hok Hs) as (Hr & Hc & Hq & Hg & ->). clear Hs.
  pose proof (fun dev => queue_of_insert (DeviceID j) dev
    (queue_of (DeviceID j) (queues p) ++ [mkPending (allocated p) j]) (queues p)) as Hqs.
  split; simpl.
  - apply Hok.
  - apply Hok.
  - rewrite (Permutation_length (queued_insert _ _ _)), (ok_queued p Hok).
    rewrite (Permutation_length (queued_split (DeviceID j) (queues p))).
    rewrite !length_app. simpl. lia.
  - lia.
  - intros dev pj. rewrite Hqs. case_bool_decide as Hd; [|apply (ok_device p Hok)]. subst dev.
    intros [Hin|Hin%list_elem_of_singleton]%elem_of_app; [by apply (ok_device p Hok)|by subst].
  - apply (order_push (DeviceID j) "" p Hok).
  - intros dev. rewrite (proj2 (order_push (DeviceID j) dev p Hok)), Hqs.
    destruct (decide (DeviceID j = dev)) as [Hd|Hd];
      [rewrite (bool_decide_eq_true_2 (DeviceID j = dev)) by done|
       rewrite (bool_decide_eq_false_2 (DeviceID j = dev)) by done; naive_solver].
    split; [intros _; by destruct (queue_of (DeviceID j) (queues p))|by left].
  - pose proof (ok_cursor p Hok). case_bool_decide; [rewrite length_app; simpl; lia|done].
  - intros dev. destruct (ok_caps p Hok dev) as [Hi Hcap]. split; [done|]. rewrite Hqs.
    case_bool_decide as Hd; [subst; rewrite length_app; simpl; lia|done].
  - rewrite Hr, Hc. by intros [?|?].
Qed.

(** *** Taking a job *)

Lemma remove_first_spec dev order :
  NoDup order ->
  NoDup (remove_first dev order) /\
  (forall x, x ∈ remove_first dev order <-> x ∈ order /\ x <> dev) /\
  (dev ∈ order -> S (length (remove_first dev order)) = length order).
Proof.
  induction 1 as [|d order Hd Hn (IH1 & IH2 & IH3)]; simpl.
  { split; [constructor|]. split; [set_solver|set_solver]. }
  case_bool_decide as He.
  - subst d. split; [done|]. split; [|done]. intros x. rewrite elem_of_cons.
    split; [|tauto]. intros Hx. split; [by right|]. by intros ->.
  - split; [constructor; [rewrite IH2; tauto|done]|]. split.
    + intros x. rewrite !elem_of_cons, IH2. naive_solver.
    + intros Hin. simpl. f_equal. apply IH3. by apply elem_of_cons in Hin as [->|].
Qed.

(** The order and the cursor after a job of the device at [idx] was taken. *)
Lemma order_take dev idx (rest : list pendingJob) p :
  pool_ok p -> deviceOrder p !! idx = Some dev ->
  let n := length (deviceOrder p) in
  let oc := if zlen rest =? 0
            then removeDeviceLocked dev (deviceOrder p) (Nat.modulo (S idx) n)
            else (deviceOrder p, Nat.modulo (S idx) n) in
  NoDup (fst oc) /\ (snd oc < Nat.max 1 (length (fst oc)))%nat /\
  (forall x, x ∈ fst oc <-> x ∈ deviceOrder p /\ (x <> dev \/ rest <> [])).
Proof.
  intros Hok Hidx n oc. pose proof (lookup_lt_Some _ _ _ Hidx) as Hlt.
  assert (Nat.modulo (S idx) n < n)%nat as Hmod by (apply Nat.mod_upper_bound; unfold n; lia).
  pose proof (ok_order p Hok) as Hn. pose proof (list_elem_of_lookup_2 _ _ _ Hidx) as Hin.
  unfold oc. rewrite zlen_eqb_nil. case_bool_decide as Hr; simpl.
  - unfold removeDeviceLocked. rewrite bool_decide_eq_true_2 by done. simpl.
    destruct (remove_first_spec dev (deviceOrder p) Hn) as (H1 & H2 & H3). specialize (H3 Hin).
    split; [done|]. split; [destruct (Nat.leb_spec (length (remove_first dev (deviceOrder p)))
      (Nat.modulo (S idx) n)); lia|].
    intros x. rewrite H2. naive_solver.
  - split; [done|]. split; [fold n; lia|]. intros x. split; [intros ?; split; [done|by right]|tauto].
Qed.

Lemma take_job_ok idx dev pj rest p :
  pool_ok p -> deviceOrder p !! idx = Some dev -> queue_of dev (queues p) = pj :: rest ->
  inflightDev p !!0 dev < PerDeviceInFlight (cfg p) ->
  pool_ok (take_job idx dev pj rest p) /\
  (forall d, inflightDev (take_job idx dev pj rest p) !!0 d =
     inflightDev p !!0 d + if bool_decide (dev = d) then 1 else 0) /\
  queued (queues p) ≡ₚ pj :: queued (queues (take_job idx dev pj rest p)).
Proof.
  intros Hok Hidx Hq Hcap.
  pose proof (order_take dev idx rest p Hok Hidx) as (Ho1 & Ho2 & Ho3).
  unfold take_job. destruct (if zlen rest =? 0 then _ else _) as [order cur]. cbn [fst snd] in *.
  destruct (ok_caps p Hok dev) as [Hi _]. destruct (ok_width p Hok) as (_ & [_ Hw] & _).
  assert (wrap_u32 (inflightDev p !!0 dev + 1) = inflightDev p !!0 dev + 1) as ->.
  { unfold u32_max in Hw. unfold wrap_u32. apply Z.mod_small. lia. }
  pose proof (fun d => queue_of_insert dev d rest (queues p)) as Hqs.
  assert (forall d, (<[dev := inflightDev p !!0 dev + 1]> (inflightDev p)) !!0 d =
    inflightDev p !!0 d + if bool_decide (dev = d) then 1 else 0) as His.
  { intros d. case_bool_decide as Hd; [subst; by rewrite lookup_insert_eq|].
    rewrite lookup_insert_ne by done. lia. }
  assert (queued (queues p) ≡ₚ pj :: queued (<[dev := rest]> (queues p))) as Hperm.
  { by rewrite queued_insert, (queued_split dev (queues p)), Hq. }
  split; [|by split]. split; simpl.
  - apply Hok.
  - apply Hok.
  - rewrite (ok_queued p Hok), (Permutation_length Hperm). simpl. lia.
  - pose proof (ok_bound p Hok). lia.
  - intros d x. rewrite Hqs. case_bool_decide as Hd; [|by apply (ok_device p Hok)]. subst d.
    intros Hx. apply (ok_device p Hok). rewrite Hq. by right.
  - done.
  - intros d. rewrite Ho3, Hqs, (ok_listed p Hok). case_bool_decide as Hd; [|naive_solver].
    subst d. rewrite Hq. naive_solver.
  - done.
  - intros d. rewrite His, Hqs. destruct (ok_caps p Hok d) as [Hid Hqd].
    case_bool_decide as Hd; [|lia]. subst d. rewrite Hq in Hqd. simpl in Hqd. lia.
  - intros Hrc. pose proof (ok_refusing p Hok Hrc) as He. rewrite He in Hperm.
    by apply Permutation_nil_l in Hperm.
Qed.

(** A device whose next job may be taken. *)
Definition eligible (dev : string) (p : Pool) : Prop :=
  queue_of dev (queues p) <> [] /\ inflightDev p !!0 dev < PerDeviceInFlight (cfg p).

Lemma pop_scan_None offset fuel p :
  pop_scan offset fuel p = None ->
  forall k dev, (offset <= k < offset + fuel)%nat ->
    deviceOrder p !! Nat.modulo (cursor p + k) (length (deviceOrder p)) = Some dev ->
    ~ eligible dev p.
Proof.
  revert offset. induction fuel as [|fuel IH]; intros offset Hs k dev Hk Hdev; [lia|].
  cbn [pop_scan] in Hs. destruct (decide (k = offset)) as [->|Hne].
  - rewrite Hdev in Hs. unfold eligible. destruct (queue_of dev (queues p)); [tauto|].
    destruct (inflightDev p !!0 dev >=? PerDeviceInFlight (cfg p)) eqn:E; [zprop; lia|done].
  - destruct (deviceOrder p !! Nat.modulo (cursor p + offset) (length (deviceOrder p))) eqn:E.
    + apply (IH (S offset)) with (k := k); [|lia|done].
      destruct (queue_of s (queues p)); [done|].
      by destruct (inflightDev p !!0 s >=? PerDeviceInFlight (cfg p)).
    + apply lookup_ge_None in E. pose proof (lookup_lt_Some _ _ _ Hdev).
      pose proof (Nat.mod_upper_bound (cursor p + offset) (length (deviceOrder p))). lia.
Qed.

Lemma pop_scan_Some offset fuel p pj p' :
  pop_scan offset fuel p = Some (pj, p') ->
  exists idx dev rest, deviceOrder p !! idx = Some dev /\ queue_of dev (queues p) = pj :: rest /\
    inflightDev p !!0 dev < PerDeviceInFlight (cfg p) /\ p' = take_job idx dev pj rest p.
Proof.
  revert offset. induction fuel as [|fuel IH]; intros offset; [done|]. cbn [pop_scan].
  destruct (deviceOrder p !! _) as [dev|] eqn:E; [|done].
  destruct (queue_of dev (queues p)) as [|x rest] eqn:Hq; [apply IH|].
  case_if; [apply IH|]. intros [= -> <-]. zprop. by exists (Nat.modulo (cursor p + offset)
    (length (deviceOrder p))), dev, rest.
Qed.

(** The scan covers every device, whatever the cursor. *)
Lemma offsets_cover (n c i : nat) :
  (c < n -> i < n -> exists k, k < n /\ Nat.modulo (c + k) n = i)%nat.
Proof.
  intros Hc Hi. destruct (Nat.le_gt_cases c i).
  - exists (i - c)%nat. split; [lia|]. replace (c + (i - c))%nat with i by lia. by apply Nat.mod_small.
  - exists (n - c + i)%nat. split; [lia|]. replace (c + (n - c + i))%nat with (i + 1 * n)%nat by lia.
    rewrite Nat.Div0.mod_add. by apply Nat.mod_small.
Qed.

(** Taking a job: the pool hands out the oldest job of an eligible device (one
    with a queued job and fewer running ones than its limit), and none only
    when no device is eligible, whatever the cursor; the other jobs stay
    queued, and the counters follow. *)
Theorem popLocked_spec p :
  pool_ok p ->
  match popLocked p with
  | Some (pj, p') =>
      exists rest, queue_of (DeviceID (job pj)) (queues p) = pj :: rest /\
        eligible (DeviceID (job pj)) p /\
        queue_of (DeviceID (job pj)) (queues p') = rest /\
        (forall d, d <> DeviceID (job pj) -> queue_of d (queues p') = queue_of d (queues p)) /\
        (forall d, inflightDev p' !!0 d =
           inflightDev p !!0 d + if bool_decide (DeviceID (job pj) = d) then 1 else 0) /\
        globalQueued p' = globalQueued p - 1 /\ pool_ok p'
  | None => forall d, ~ eligible d p
  end.
Proof.
  intros Hok. unfold popLocked. destruct (pop_scan _ _ _) as [[pj p']|] eqn:Hs.
  - apply pop_scan_Some in Hs as (idx & dev & rest & Hidx & Hq & Hcap & ->).
    assert (DeviceID (job pj) = dev) as -> by (apply (ok_device p Hok); rewrite Hq; left).
    destruct (take_job_ok idx dev pj rest p Hok Hidx Hq Hcap) as (Hok' & Hin & _).
    exists rest. split; [done|]. split; [by split; [rewrite Hq|]|].
    unfold take_job in *. destruct (if zlen rest =? 0 then _ else _) as [order cur]. simpl in *.
    split_and!; try done.
    + rewrite queue_of_insert. by rewrite bool_decide_eq_true_2.
    + intros d Hd. rewrite queue_of_insert. by rewrite bool_decide_eq_false_2.
  - intros d Hel. pose proof Hel as [Hq _]. apply (ok_listed p Hok) in Hq.
    apply list_elem_of_lookup_1 in Hq as [i Hi]. pose proof (lookup_lt_Some _ _ _ Hi) as Hlt.
    destruct (offsets_cover (length (deviceOrder p)) (cursor p) i) as (k & Hk & Hmod);
      [pose proof (ok_cursor p Hok); lia|done|].
    eapply (pop_scan_None 0 _ p Hs k d); [lia|by rewrite Hmod|done].
Qed.

(** *** The other critical sections *)

Lemma set_inflight_ok dev jobs p :
  pool_ok p ->
  (forall d, 0 <= dev !!0 d <= inflightDev p !!0 d) -> pool_ok (set_inflight dev jobs p).
Proof.
  intros Hok Hdev. destruct Hok as [H1 H2 H3 H4 H5 H6 H7 H8 H9 H10]. split; try done.
  intros d. simpl. specialize (Hdev d). specialize (H9 d). lia.
Qed.

Lemma set_health_ok h p : pool_ok p -> pool_ok (set_health h p).
Proof. intros []. by split. Qed.

Lemma worker_finish_ok pj p :
  pool_ok p -> 1 <= inflightDev p !!0 DeviceID (job pj) ->
  pool_ok (worker_finish pj p) /\
  (forall d, inflightDev (worker_finish pj p) !!0 d =
     inflightDev p !!0 d - if bool_decide (DeviceID (job pj) = d) then 1 else 0).
Proof.
  intros Hok Hpos. unfold worker_finish. set (dev := DeviceID (job pj)) in *.
  destruct (ok_caps p Hok dev) as [Hi _]. destruct (ok_width p Hok) as (_ & [_ Hw] & _).
  assert (wrap_u32 (inflightDev p !!0 dev - 1) = inflightDev p !!0 dev - 1) as ->.
  { unfold u32_max in Hw. unfold wrap_u32. apply Z.mod_small. lia. }
  assert (forall d, (if inflightDev p !!0 dev - 1 =? 0 then delete dev (inflightDev p)
            else <[dev := inflightDev p !!0 dev - 1]> (inflightDev p)) !!0 d =
    inflightDev p !!0 d - if bool_decide (dev = d) then 1 else 0) as Hd.
  { intros d. destruct (Z.eqb_spec (inflightDev p !!0 dev - 1) 0); case_bool_decide as He.
    - subst d. rewrite lookup_delete_eq. simpl. lia.
    - rewrite lookup_delete_ne by done. lia.
    - subst d. by rewrite lookup_insert_eq.
    - rewrite lookup_insert_ne by done. lia. }
  split; [|exact Hd]. apply set_inflight_ok; [done|]. intros d. rewrite Hd.
  destruct (ok_caps p Hok d) as [Hid _]. case_bool_decide; [subst d|]; lia.
Qed.

Lemma drain_ok rej cl p :
  pool_ok p -> pool_ok (snd (drainLocked (set_flags rej cl p))) /\
  queued (queues p) = fst (drainLocked (set_flags rej cl p)).
Proof.
  intros Hok. pose proof (ok_queued p Hok) as Hq.
  destruct Hok as [H1 H2 H3 H4 H5 H6 H7 H8 H9 H10].
  split; [|done]. split; simpl; try done.
  - rewrite Hq. change (queued ∅) with (@nil pendingJob). simpl. lia.
  - destruct H2 as (_ & _ & _ & [? ?]). lia.
  - intros dev pj. unfold queue_of. rewrite lookup_empty. by intros ?%not_elem_of_nil.
  - constructor.
  - intros dev. unfold queue_of. rewrite lookup_empty. split; [by intros ?%not_elem_of_nil|done].
  - lia.
  - intros d. unfold queue_of. rewrite lookup_empty. simpl. specialize (H9 d).
    pose proof (Zle_0_nat (length (queue_of d (queues p)))). lia.
Qed.

(** ** The invariant of the system *)

Definition popped (ws : list worker) : list pendingJob := concat (map popped_job ws).

Record system_ok (s : System) : Prop := {
  sys_pool : pool_ok (pool s);
  sys_size : zlen (workers s) = cfg_PoolSize (cfg (pool s));
  sys_inflight : forall d, inflightDev (pool s) !!0 d = serving d (workers s);
  sys_places : accepted s ≡ₚ queued (queues (pool s)) ++ popped (workers s) ++ worked s ++
                 map fst (dropped s);
  sys_fresh : NoDup (map pj_ptr (accepted s)) /\
              Forall (fun pj => (pj_ptr pj < allocated (pool s))%nat) (accepted s)
}.

Definition serves (d : string) (w : worker) : Z :=
  zlen (filter (fun pj => DeviceID (job pj) = d) (busy_with w)).

Lemma serving_update d i w w' ws :
  ws !! i = Some w -> serving d (<[i := w']> ws) = serving d ws - serves d w + serves d w'.
Proof.
  intros Hi. pose proof (lookup_lt_Some _ _ _ Hi) as Hlt.
  rewrite insert_take_drop by done. rewrite <- (take_drop_middle ws i w Hi) at 3.
  unfold serving. rewrite !sum_with_app. simpl. unfold serves. lia.
Qed.

Lemma popped_update i w w' ws :
  ws !! i = Some w ->
  exists rest, popped ws ≡ₚ popped_job w ++ rest /\ popped (<[i := w']> ws) ≡ₚ popped_job w' ++ rest.
Proof.
  intros Hi. pose proof (lookup_lt_Some _ _ _ Hi) as Hlt.
  exists (popped (take i ws) ++ popped (drop (S i) ws)).
  rewrite insert_take_drop by done. rewrite <- (take_drop_middle ws i w Hi) at 1.
  unfold popped. rewrite !map_app, !concat_app. simpl.
  split; apply Permutation_app_swap_app.
Qed.

Lemma serves_one d pj : serves d (WPopped pj) = if bool_decide (DeviceID (job pj) = d) then 1 else 0.
Proof. unfold serves. simpl. rewrite filter_cons. by repeat case_decide; case_bool_decide. Qed.

Lemma serving_nonneg d ws : 0 <= serving d ws.
Proof. apply sum_with_nonneg, Forall_true. intros. lia. Qed.

Lemma serving_lookup d i w ws : ws !! i = Some w -> serves d w <= serving d ws.
Proof.
  intros Hi. rewrite <- (take_drop_middle ws i w Hi). unfold serving.
  rewrite sum_with_app. simpl. fold (serves d w).
  pose proof (serving_nonneg d (take i ws)). pose proof (serving_nonneg d (drop (S i) ws)).
  unfold serving in *. lia.
Qed.

(** How the places of the jobs change when one worker and the queues do. *)
Lemma places_worker i w w' ws (acc q q' wk wk' dr : list pendingJob) :
  ws !! i = Some w ->
  popped_job w ++ q ++ wk ≡ₚ popped_job w' ++ q' ++ wk' ->
  acc ≡ₚ q ++ popped ws ++ wk ++ dr ->
  acc ≡ₚ q' ++ popped (<[i := w']> ws) ++ wk' ++ dr.
Proof.
  intros Hi Hp ->. destruct (popped_update i w w' ws Hi) as (rest & -> & ->).
  transitivity ((popped_job w ++ q ++ wk) ++ rest ++ dr); [solve_Permutation|].
  rewrite Hp. solve_Permutation.
Qed.

Lemma size_insert {A : Type} i (w : A) ws : zlen (<[i := w]> ws) = zlen ws.
Proof. by rewrite length_insert. Qed.

Lemma submit_system j p' s :
  system_ok s -> Submit j (pool s) = (None, p') ->
  system_ok (mkSystem p' (wake s) (stop s) (S (sends s)) (workers s)
               (accepted s ++ [mkPending (allocated (pool s)) j]) (worked s) (dropped s)).
Proof.
  intros [Hok Hsz Hin Hpl [Hnd Hlt]] Hs.
  pose proof (Submit_ok j _ _ Hok Hs) as Hok'.
  destruct (Submit_accepted j _ _ Hok Hs) as (_ & _ & _ & _ & ->). split; simpl; try done.
  - rewrite queued_insert, Hpl, (queued_split (DeviceID j) (queues (pool s))). solve_Permutation.
  - split.
    + rewrite map_app. simpl. apply NoDup_app. split; [done|]. split; [|apply NoDup_singleton].
      intros x Hx ->%list_elem_of_singleton. apply list_elem_of_fmap in Hx as (pj & Heq & Hpj).
      rewrite Forall_forall in Hlt. specialize (Hlt pj Hpj). lia.
    + apply Forall_app. split; [|constructor; [simpl; lia|constructor]].
      eapply Forall_impl; [exact Hlt|]. simpl. lia.
Qed.

(** A worker moves between two states without a job. *)
Lemma set_worker_system i w w' wk st n s :
  system_ok s -> workers s !! i = Some w -> busy_with w = [] -> busy_with w' = [] ->
  system_ok (set_worker i w' (set_channel wk st n s)).
Proof.
  intros [Hok Hsz Hin Hpl Hf] Hi Hw Hw'.
  assert (popped_job w = [] /\ popped_job w' = []) as [Hp Hp'] by by destruct w, w'.
  split; simpl; try done.
  - by rewrite size_insert.
  - intros d. rewrite (serving_update d i w w') by done. unfold serves. rewrite Hw, Hw', Hin. simpl. lia.
  - eapply places_worker; [done| |exact Hpl]. by rewrite Hp, Hp'.
Qed.

Lemma pop_system i pj p' s :
  system_ok s -> workers s !! i = Some WCheck -> popLocked (pool s) = Some (pj, p') ->
  system_ok (set_worker i (WPopped pj) (set_pool p' s)).
Proof.
  intros [Hok Hsz Hin Hpl Hf] Hi Hp. unfold popLocked in Hp.
  apply pop_scan_Some in Hp as (idx & dev & rest & Hidx & Hq & Hcap & ->).
  assert (DeviceID (job pj) = dev) as Hdev by (apply (ok_device _ Hok); rewrite Hq; left).
  destruct (take_job_ok idx dev pj rest _ Hok Hidx Hq Hcap) as (Hok' & Hin' & Hperm).
  split; cbn [pool workers accepted worked dropped set_worker set_pool]; try done.
  - rewrite size_insert, Hsz. unfold take_job. by destruct (if zlen rest =? 0 then _ else _).
  - intros d. rewrite (serving_update d i WCheck) by done. rewrite serves_one, Hin', Hin, Hdev.
    change (serves d WCheck) with 0. lia.
  - eapply places_worker; [done| |exact Hpl]. simpl. rewrite Hperm. solve_Permutation.
  - unfold take_job. by destruct (if zlen rest =? 0 then _ else _).
Qed.

Lemma work_system i pj now s :
  system_ok s -> workers s !! i = Some (WPopped pj) ->
  system_ok (set_worker i (WRunning pj)
    (mkSystem (worker_start now pj (pool s)) (wake s) (stop s) (sends s) (workers s)
       (accepted s) (worked s ++ [pj]) (dropped s))).
Proof.
  intros [Hok Hsz Hin Hpl Hf] Hi. split; simpl; try done.
  - apply set_inflight_ok; [done|]. intros d. destruct (ok_caps _ Hok d). lia.
  - by rewrite size_insert.
  - intros d. rewrite (serving_update d i (WPopped pj)) by done. rewrite Hin.
    change (serves d (WRunning pj)) with (serves d (WPopped pj)). lia.
  - eapply places_worker; [done| |exact Hpl]. simpl. solve_Permutation.
Qed.

Lemma finish_system i pj s :
  system_ok s -> workers s !! i = Some (WRunning pj) ->
  system_ok (set_worker i WCheck (set_pool (worker_finish pj (pool s)) s)).
Proof.
  intros [Hok Hsz Hin Hpl Hf] Hi.
  assert (1 <= inflightDev (pool s) !!0 DeviceID (job pj)) as Hpos.
  { rewrite Hin. pose proof (serving_lookup (DeviceID (job pj)) i _ _ Hi) as Hs.
    change (serves (DeviceID (job pj)) (WRunning pj)) with (serves (DeviceID (job pj)) (WPopped pj)) in Hs.
    rewrite serves_one, bool_decide_eq_true_2 in Hs by done. done. }
  destruct (worker_finish_ok pj _ Hok Hpos) as [Hok' Hin'].
  split; cbn [pool workers accepted worked dropped set_worker set_pool]; try done.
  - by rewrite size_insert.
  - intros d. rewrite (serving_update d i (WRunning pj)), Hin', Hin by done.
    change (serves d (WRunning pj)) with (serves d (WPopped pj)). rewrite serves_one.
    change (serves d WCheck) with 0. lia.
  - eapply places_worker; [done| |exact Hpl]. done.
Qed.

(** Draining moves every queued job to the dropped ones. *)
Lemma drain_system rej cl err jobs s :
  system_ok s ->
  let d := drainLocked (set_flags rej cl (pool s)) in
  system_ok (log_dropped (fst d) err (set_pool (set_inflight (inflightDev (snd d)) jobs (snd d)) s)).
Proof.
  intros [Hok Hsz Hin Hpl Hf]. destruct (drain_ok rej cl _ Hok) as [Hok' _].
  cbv zeta. split; simpl; try done.
  - apply set_inflight_ok; [done|]. intros d. simpl. destruct (ok_caps _ Hok d). lia.
  - rewrite map_app, map_map, map_id. change (queued ∅) with (@nil pendingJob).
    rewrite Hpl. simpl. solve_Permutation.
Qed.

Lemma unchanged_system s p' :
  system_ok s -> p' = pool s -> system_ok (set_pool p' s).
Proof. by intros [] ->. Qed.

Lemma scan_system now js p' s :
  system_ok s -> scanStuck now (pool s) = (js, p') ->
  system_ok (log_dropped js ErrFileDegraded (set_pool p' s)).
Proof.
  intros Hs. unfold scanStuck. case_if.
  - intros [= <- <-]. destruct Hs as [Hok Hsz Hin Hpl Hf]. split; simpl; try done.
    by rewrite app_nil_r.
  - intros [= <- <-].
    exact (drain_system true (closed (pool s)) ErrFileDegraded (inflightJobs (pool s)) s Hs).
Qed.

Lemma close_system js p' s :
  system_ok s -> Close (pool s) = (js, p') ->
  system_ok (log_dropped js ErrPoolClosed (set_pool p' s)).
Proof.
  intros Hs [= <- <-].
  by apply (drain_system (rejecting (pool s)) true ErrPoolClosed).
Qed.

Lemma system_ok_step s s' : system_ok s -> step s s' -> system_ok s'.
Proof.
  intros Hs Hstep.
  destruct Hstep as [j p' s Hsub|j err p' s Hsub|i n s Hn Hi|n s Hn Hb|i pj p' s Hi Hp|i s Hi Hp
    |i s Hi Hw|i s Hi Hw Hst|i w s Hi Hw Hst|i pj now s Hi|i pj s Hi|now js p' s Hsc|s Hr|js p' s Hcl Hc
    |s Hc Hst].
  - by apply submit_system.
  - apply unchanged_system; [done|]. by eapply Submit_refused.
  - by apply (set_worker_system i WBlocked).
  - by destruct Hs.
  - by apply pop_system.
  - apply (set_worker_system i WCheck _ (wake s) (stop s) (sends s)); try done. by case_if.
  - by apply (set_worker_system i WSelect).
  - by apply (set_worker_system i WSelect _ (wake s) (stop s) (sends s)).
  - apply (set_worker_system i w _ (wake s) (stop s) (sends s)); try done. by destruct Hw as [->| ->].
  - by apply work_system.
  - by apply finish_system.
  - by apply (scan_system now).
  - destruct Hs as [Hok Hsz Hin Hpl Hf]. split; try done. by apply set_health_ok.
  - by apply close_system.
  - by destruct Hs.
Qed.

Lemma serving_replicate d n : serving d (replicate n WCheck) = 0.
Proof. unfold serving. induction n; simpl; lia. Qed.

Lemma popped_replicate n : popped (replicate n WCheck) = [].
Proof. unfold popped. induction n; simpl; done. Qed.

Lemma system_ok_start c : Config_Validate c = true -> config_u32 c -> system_ok (start c).
Proof.
  intros Hv Hu. pose proof Hu as ([? _] & [? _] & [? _] & [? _]). split; simpl; try done.
  - split; simpl; try done; try lia.
    + intros dev pj. by intros ?%not_elem_of_nil.
    + constructor.
    + intros dev. split; [by intros ?%not_elem_of_nil|done].
  - rewrite length_replicate. lia.
  - intros d. by rewrite lookup_empty, serving_replicate.
  - by rewrite popped_replicate.
  - split; constructor.
Qed.

Lemma system_ok_reachable c s :
  Config_Validate c = true -> config_u32 c -> rtc step (start c) s -> system_ok s.
Proof.
  intros Hv Hu. apply (rtc_invariant step system_ok); [apply system_ok_step|by apply system_ok_start].
Qed.

(** The configuration never changes. *)
Lemma cfg_step s s' : step s s' -> cfg (pool s') = cfg (pool s).
Proof.
  destruct 1 as [j p' s Hsub|j err p' s Hsub|i n s Hn Hi|n s Hn Hb|i pj p' s Hi Hp|i s Hi Hp
    |i s Hi Hw|i s Hi Hw Hst|i w s Hi Hw Hst|i pj now s Hi|i pj s Hi|now js p' s Hsc|s Hr|js p' s Hcl Hc
    |s Hc Hst]; try done; simpl.
  - revert Hsub. unfold Submit. repeat case_if; try done; by intros [= <-].
  - by rewrite (Submit_refused _ _ _ _ Hsub).
  - unfold popLocked in Hp. apply pop_scan_Some in Hp as (idx & dev & rest & _ & _ & _ & ->).
    unfold take_job. by destruct (if zlen rest =? 0 then _ else _).
  - revert Hsc. unfold scanStuck. case_if; by intros [= _ <-].
  - by injection Hc as _ <-.
Qed.

Lemma cfg_reachable c s : rtc step (start c) s -> cfg (pool s) = c.
Proof.
  intros Hr. apply (rtc_invariant step (fun s => cfg (pool s) = c) (start c)); [|done|done].
  intros a b <- Hst. by apply cfg_step.
Qed.

(** ** Properties *)

Lemma serving_all d ws : Forall (fun w => 1 <= serves d w) ws -> zlen ws <= serving d ws.
Proof. unfold serving. induction 1; simpl; [lia|]. unfold serves in *. lia. Qed.

(** No device can occupy the pool: in every reachable state, at most
    [PerDeviceInFlight] workers serve one device, so that one worker at least
    does not serve it; and the queues stay within their limits, per device and
    globally, the global counter being exact. *)
Theorem device_isolation c s d :
  Config_Validate c = true -> config_u32 c -> rtc step (start c) s ->
  serving d (workers s) <= PerDeviceInFlight c < zlen (workers s) /\
  (exists i w, workers s !! i = Some w /\ serves d w = 0) /\
  serving d (workers s) + zlen (queue_of d (queues (pool s))) <= PerDeviceQueued c /\
  zlen (queued (queues (pool s))) = globalQueued (pool s) /\ globalQueued (pool s) <= GlobalQueued c.
Proof.
  intros Hv Hu Hr. destruct (system_ok_reachable c s Hv Hu Hr) as [Hok Hsz Hin _ _].
  pose proof (cfg_reachable c s Hr) as Hc. rewrite Hc in Hsz.
  destruct (ok_caps _ Hok d) as [Hi Hq]. rewrite Hin, Hc in Hi, Hq.
  pose proof (ok_queued _ Hok). pose proof (ok_bound _ Hok) as Hb. rewrite Hc in Hb.
  assert (PerDeviceInFlight c < cfg_PoolSize c) as Hlt.
  { unfold Config_Validate in Hv. repeat (case_match; try done). zprop. lia. }
  split; [lia|]. split; [|lia].
  destruct (decide (Forall (fun w => 1 <= serves d w) (workers s))) as [Hall|Hex].
  - apply serving_all in Hall. lia.
  - apply not_Forall_Exists in Hex; [|intros ?; apply _].
    apply Exists_exists in Hex as (w & Hw & Hs). apply list_elem_of_lookup_1 in Hw as [i Hw].
    exists i, w. split; [done|]. unfold compose, serves in *. lia.
Qed.

(** The contract of [Submit]: in every reachable state each accepted job is in
    exactly one place, once: queued, taken by one worker that has not called
    [Work] yet, given to [Work], or dropped with an error for [OnCancel]. So
    [Work] and [OnCancel] are never both called, nor one of them twice, and no
    accepted job is lost. *)
Theorem job_fate c s :
  Config_Validate c = true -> config_u32 c -> rtc step (start c) s ->
  let places := queued (queues (pool s)) ++ popped (workers s) ++ worked s ++ map fst (dropped s) in
  NoDup (map pj_ptr places) /\ forall pj, pj ∈ accepted s <-> pj ∈ places.
Proof.
  intros Hv Hu Hr. destruct (system_ok_reachable c s Hv Hu Hr) as [_ _ _ Hpl [Hnd _]].
  cbv zeta. split; [by rewrite <- Hpl|intros pj; by rewrite Hpl].
Qed.

(** A pool of two workers. *)
Definition wit_config : Config := mkConfig 2 1 4 8 1 (mkHealthConfig 2 1 1 1000).

Definition wit_job (dev : string) : Job := mkJob dev true true.

(** A wake-up can be lost: a pool of two workers reaches a state in which a job
    of an idle device is queued, a worker is blocked in its [select], no token
    is in the channel and no send is pending: both jobs were submitted while the
    two workers were between the mutex and the [select], and the second token
    did not fit. The job then waits for another job to end or to be submitted,
    whatever its device. *)
Theorem lost_wakeup :
  Config_Validate wit_config = true /\
  exists s, rtc step (start wit_config) s /\
    eligible "b" (pool s) /\ workers s !! 1%nat = Some WBlocked /\
    wake s = false /\ sends s = 0%nat /\ stop s = false /\
    Forall (fun w => w = WBlocked \/ exists pj, w = WRunning pj) (workers s).
Proof.
  split; [reflexivity|].
  apply (schedule_reaches [APop 0; APop 1; ASubmit (wit_job "a"); ASubmit (wit_job "b"); ASend; ASend;
    ATake 0; APop 0; AWork 0 0; ABlock 1]).
  vm_compute. split; [by split|]. repeat (split; [reflexivity|]).
  constructor; [right; by eexists|]. constructor; [by left|constructor].
Qed.

(** [Close] does not reach a job that a worker has taken and not registered yet:
    its context is created afterwards and is not cancelled. *)
Lemma close_misses_popped :
  exists s, rtc step (start wit_config) s /\
    closed (pool s) = true /\ exists pj, workers s !! 0%nat = Some (WRunning pj) /\
      inflightJobs (pool s) !! pj_ptr pj = Some (mkInflight 0 false).
Proof.
  apply (schedule_reaches [ASubmit (wit_job "a"); APop 0; AClose; AWork 0 0]).
  vm_compute. split; [reflexivity|]. by eexists.
Qed.

(** Three devices with one job each are served in the order first, third, second:
    removing the emptied device shifts the order under the cursor, which already
    points past it. *)
Lemma round_robin_skips :
  let p := snd (Submit (wit_job "c") (snd (Submit (wit_job "b") (snd (Submit (wit_job "a")
             (New wit_config)))))) in
  exists p1 p2 p3 j1 j2 j3,
    popLocked p = Some (j1, p1) /\ popLocked p1 = Some (j2, p2) /\ popLocked p2 = Some (j3, p3) /\
    DeviceID (job j1) = "a" /\ DeviceID (job j2) = "c" /\ DeviceID (job j3) = "b".
Proof. cbv zeta. repeat eexists. Qed.

(** A reachable state of the small pool, with a job queued and one running. *)
Lemma wit_reachable :
  exists s, rtc step (start wit_config) s /\ length (accepted s) = 2%nat /\
    serving "a" (workers s) = 1 /\ zlen (queue_of "a" (queues (pool s))) = 1.
Proof.
  apply (schedule_reaches [ASubmit (wit_job "a"); ASubmit (wit_job "a"); APop 0; AWork 0 0]).
  vm_compute. by repeat split.
Qed.

Lemma wit_config_u32 : config_u32 wit_config.
Proof. by repeat split. Qed.

Lemma device_isolation_witness :
  exists s, rtc step (start wit_config) s /\ serving "a" (workers s) = 1 /\
    exists i w, workers s !! i = Some w /\ serves "a" w = 0.
Proof.
  destruct wit_reachable as (s & Hr & _ & Hs & _). exists s. split; [exact Hr|]. split; [exact Hs|].
  exact (proj1 (proj2 (device_isolation wit_config s "a" eq_refl wit_config_u32 Hr))).
Defined.

Lemma job_fate_witness :
  exists s, rtc step (start wit_config) s /\ length (accepted s) = 2%nat /\
    forall pj, pj ∈ accepted s -> pj ∈ queued (queues (pool s)) ++ popped (workers s) ++ worked s ++
      map fst (dropped s).
Proof.
  destruct wit_reachable as (s & Hr & Ha & _). exists s. split; [exact Hr|]. split; [exact Ha|].
  intros pj. exact (proj1 (proj2 (job_fate wit_config s eq_refl wit_config_u32 Hr) pj)).
Defined.

Lemma popLocked_spec_witness :
  match popLocked (snd (Submit (wit_job "a") (New wit_config))) with
  | Some (pj, p') => globalQueued p' = 0 /\ DeviceID (job pj) = "a"
  | None => False
  end.
Proof.
  assert (pool_ok (New wit_config)) as H0
    by exact (sys_pool _ (system_ok_start wit_config eq_refl wit_config_u32)).
  assert (pool_ok (snd (Submit (wit_job "a") (New wit_config)))) as Hok
    by (apply (Submit_ok (wit_job "a") (New wit_config)); [exact H0|vm_compute; reflexivity]).
  pose proof (popLocked_spec _ Hok) as H. clear Hok.
  destruct (popLocked (snd (Submit (wit_job "a") (New wit_config)))) as [[pj p']|] eqn:E.
  - destruct H as (_ & _ & _ & _ & _ & _ & H & _). split; [rewrite H; vm_compute; reflexivity|].
    assert (DeviceID (job pj) = default "" ((fun r => DeviceID (job (fst r))) <$>
      popLocked (snd (Submit (wit_job "a") (New wit_config))))) as -> by by rewrite E.
    vm_compute. reflexivity.
  - exfalso. apply (H "a"). split; [vm_compute; discriminate|vm_compute; reflexivity].
Defined.
