(* ===== verification/Mailbox.v ===== *)
(** * The in-memory mailbox service (go-bridge/relay_mailbox.go)

    Encrypted envelopes waiting for each device, with a global cursor, a byte
    limit per device, acknowledgements and expiry. [time.Now] is an argument
    (two readings in [Enqueue], as in the source). The hub the service holds is
    not used by its operations. *)

From S2P Require Import Prelude.

Definition defaultMailboxTTL : Z := 24 * hour.
Definition maxMailboxBytesPerDev : Z := 50 * 1024 * 1024.

Record EpochMetadata : Type := mkEpoch {
  em_EpochIndex : option Z;
  em_PrekeyID : string;
  em_KeyEpochID : string;
  em_Counter : Z
}.

Record mailboxEntry : Type := mkEntry {
  cursor : Z;
  envelope : string;
  insertedAt : Z;
  expiresAt : Z;
  acked : bool;
  size : Z;
  epochIndex : option Z;
  prekeyID : string;
  keyEpochID : string;
  counter : Z
}.

Record deviceMailbox : Type := mkBox {
  routeID : string;
  deviceID : string;
  frames : list mailboxEntry;
  totalBytes : Z
}.

Record MailboxService : Type := mkService {
  mailboxes : gmap string deviceMailbox;
  mailboxSeq : Z
}.

Record MailboxFrameEntry : Type := mkFrameEntry { mf_Cursor : Z; mf_Envelope : string }.

(** [NextCursor] is zero (and omitted from the JSON) when nothing is left. *)
Record MailboxFetchResponse : Type := mkResponse {
  Frames : list MailboxFrameEntry;
  HasMore : bool;
  NextCursor : Z
}.

Inductive MailboxError : Type := CapacityExceeded | MailboxNotFound.

Definition NewMailboxService : MailboxService := mkService ∅ 0.

Definition mailboxKey (routeID deviceID : string) : string :=
  String.append routeID (String.append ":" deviceID).

Definition set_frames (fs : list mailboxEntry) (total : Z) (mb : deviceMailbox) : deviceMailbox :=
  mkBox (routeID mb) (deviceID mb) fs total.

Definition mark_acked (f : mailboxEntry) : mailboxEntry :=
  mkEntry (cursor f) (envelope f) (insertedAt f) (expiresAt f) true (size f) (epochIndex f)
    (prekeyID f) (keyEpochID f) (counter f).

(** The loop of [evictOldestUnacked]: the bytes evicted so far, and at the end,
    with the frames. *)
Fixpoint evict_scan (evicted needed : Z) (fs : list mailboxEntry) : Z * list mailboxEntry :=
  match fs with
  | [] => (evicted, [])
  | f :: fs =>
      if acked f then let '(e, fs') := evict_scan evicted needed fs in (e, f :: fs')
      else
        let evicted := evicted + size f in
        if evicted >=? needed then (evicted, mark_acked f :: fs)
        else let '(e, fs') := evict_scan evicted needed fs in (e, mark_acked f :: fs')
  end.

Definition evictOldestUnacked (neededBytes : Z) (mb : deviceMailbox) : deviceMailbox :=
  let '(evictedBytes, fs) := evict_scan 0 neededBytes (frames mb) in
  set_frames fs (totalBytes mb - evictedBytes) mb.

Definition byte_length (s : string) : Z := Z.of_nat (String.length s).

Definition Enqueue (route device env : string) (meta : option EpochMetadata) (now1 now2 : Z)
  (ms : MailboxService) : option MailboxError * MailboxService :=
  let key := mailboxKey route device in
  let mb := default (mkBox route device [] 0) (mailboxes ms !! key) in
  let frameSize := byte_length env in
  let mb :=
    if totalBytes mb + frameSize >? maxMailboxBytesPerDev then evictOldestUnacked frameSize mb
    else mb in
  if totalBytes mb + frameSize >? maxMailboxBytesPerDev
  then (Some CapacityExceeded, mkService (<[key := mb]> (mailboxes ms)) (mailboxSeq ms))
  else
    let seq := wrap_u64 (mailboxSeq ms + 1) in
    let entry :=
      match meta with
      | Some e =>
          mkEntry seq env now1 (now2 + defaultMailboxTTL) false frameSize (em_EpochIndex e)
            (em_PrekeyID e) (em_KeyEpochID e) (em_Counter e)
      | None => mkEntry seq env now1 (now2 + defaultMailboxTTL) false frameSize None "" "" 0
      end in
    (None, mkService (<[key := set_frames (frames mb ++ [entry]) (totalBytes mb + frameSize) mb]>
                        (mailboxes ms)) seq).

(** The loop of [Fetch]: the entries, and the cursor of the frame it stopped at. *)
Fixpoint fetch_scan (afterCursor limit taken : Z) (fs : list mailboxEntry)
  : list MailboxFrameEntry * option Z :=
  match fs with
  | [] => ([], None)
  | f :: fs =>
      if acked f || (cursor f <=? afterCursor) then fetch_scan afterCursor limit taken fs
      else if taken >=? limit then ([], Some (cursor f))
      else
        let '(out, next) := fetch_scan afterCursor limit (taken + 1) fs in
        (mkFrameEntry (cursor f) (envelope f) :: out, next)
  end.

Definition Fetch (route device : string) (afterCursor limit : Z) (ms : MailboxService)
  : MailboxFetchResponse :=
  match mailboxes ms !! mailboxKey route device with
  | None => mkResponse [] false 0
  | Some mb =>
      let limit := if limit <=? 0 then 100 else limit in
      let '(out, next) := fetch_scan afterCursor limit 0 (frames mb) in
      match next with
      | Some c => mkResponse out true c
      | None => mkResponse out false 0
      end
  end.

(** Whether [Ack] marks the frame. *)
Definition ack_hits (cur : Z) (f : mailboxEntry) : bool := (cursor f <=? cur) && negb (acked f).

Definition Ack (route device : string) (cur : Z) (ms : MailboxService)
  : option MailboxError * MailboxService :=
  let key := mailboxKey route device in
  match mailboxes ms !! key with
  | None => (Some MailboxNotFound, ms)
  | Some mb =>
      let ackedBytes := sum_with (fun f => if ack_hits cur f then size f else 0) (frames mb) in
      let fs := map (fun f => if ack_hits cur f then mark_acked f else f) (frames mb) in
      (None, mkService (<[key := set_frames fs (totalBytes mb - ackedBytes) mb]> (mailboxes ms))
               (mailboxSeq ms))
  end.

(** [now.After(f.expiresAt) && !f.acked] *)
Definition expired (now : Z) (f : mailboxEntry) : bool := (expiresAt f <? now) && negb (acked f).

Definition Expire (route device : string) (now : Z) (ms : MailboxService) : Z * MailboxService :=
  let key := mailboxKey route device in
  match mailboxes ms !! key with
  | None => (0, ms)
  | Some mb =>
      let out := filter (fun f => expired now f = true) (frames mb) in
      let remaining := filter (fun f => expired now f = false) (frames mb) in
      (zlen out,
       mkService (<[key := set_frames remaining (totalBytes mb - sum_with size out) mb]> (mailboxes ms))
         (mailboxSeq ms))
  end.

Definition ClearForDevice (route device : string) (ms : MailboxService) : MailboxService :=
  mkService (delete (mailboxKey route device) (mailboxes ms)) (mailboxSeq ms).

(** [Stats]: total frames, pending ones, bytes, whether the mailbox exists. *)
Definition Stats (route device : string) (ms : MailboxService) : Z * Z * Z * bool :=
  match mailboxes ms !! mailboxKey route device with
  | None => (0, 0, 0, false)
  | Some mb => (zlen (frames mb), zlen (filter (fun f => acked f = false) (frames mb)), totalBytes mb, true)
  end.

Definition durableMilestoneWhitelist : gset string :=
  {["turn_completed"; "turn_error"; "todos_updated"; "session_running_signal";
    "delivery_reconcile_required"]}.

Definition IsDurableMilestone (eventType : string) : bool :=
  bool_decide (eventType ∈ durableMilestoneWhitelist).

Record DeliveryReconcileRequired : Type := mkReconcile {
  dr_Type : string;
  dr_DeviceID : string;
  dr_Reason : string
}.

Definition NewDeliveryReconcileRequired (device reason : string) : DeliveryReconcileRequired :=
  mkReconcile "delivery_reconcile_required" device reason.

(** ** Executions *)

Inductive op : Type :=
| OEnqueue (route device env : string) (meta : option EpochMetadata) (now1 now2 : Z)
| OAck (route device : string) (cur : Z)
| OExpire (route device : string) (now : Z)
| OClear (route device : string).

Definition exec (o : op) (ms : MailboxService) : MailboxService :=
  match o with
  | OEnqueue r d env meta n1 n2 => snd (Enqueue r d env meta n1 n2 ms)
  | OAck r d c => snd (Ack r d c ms)
  | OExpire r d now => snd (Expire r d now ms)
  | OClear r d => ClearForDevice r d ms
  end.

Definition run (ops : list op) (ms : MailboxService) : MailboxService :=
  fold_left (fun ms o => exec o ms) ops ms.

(** The frames that wait for the device. *)
Definition pending (fs : list mailboxEntry) : list mailboxEntry := filter (fun f => acked f = false) fs.

(** The pending frames of a mailbox, none when it does not exist. *)
Definition pending_of (route device : string) (ms : MailboxService) : list mailboxEntry :=
  match mailboxes ms !! mailboxKey route device with Some mb => pending (frames mb) | None => [] end.

Definition bytes_of (route device : string) (ms : MailboxService) : Z :=
  match mailboxes ms !! mailboxKey route device with Some mb => totalBytes mb | None => 0 end.

(** ** Eviction *)

Lemma pending_cons f fs : pending (f :: fs) = if acked f then pending fs else f :: pending fs.
Proof. unfold pending. rewrite filter_cons. destruct (acked f); by case_decide. Qed.

Lemma pending_app l1 l2 : pending (l1 ++ l2) = pending l1 ++ pending l2.
Proof. apply filter_app. Qed.

(** Eviction drops the shortest prefix of the pending frames that frees the
    bytes, or all of them. *)
Lemma evict_scan_spec e0 needed fs e fs' :
  e0 < needed -> evict_scan e0 needed fs = (e, fs') ->
  exists dropped kept, pending fs = dropped ++ kept /\ pending fs' = kept /\
    e = e0 + sum_with size dropped /\ (kept = [] \/ needed <= e) /\
    (forall l x, dropped = l ++ [x] -> e0 + sum_with size l < needed).
Proof.
  revert e0 e fs'. induction fs as [|f fs IH]; intros e0 e fs' H0; cbn [evict_scan].
  { intros [= <- <-]. exists [], []. split_and!; try done; [simpl; lia|by left|]. by intros []. }
  rewrite pending_cons. destruct (acked f) eqn:Ha.
  - destruct (evict_scan e0 needed fs) as [e1 fs1] eqn:E. intros [= <- <-].
    destruct (IH _ _ _ H0 E) as (dr & kp & H1 & H2 & H3 & H4 & H5).
    exists dr, kp. rewrite pending_cons, Ha. done.
  - case_if.
    + intros [= <- <-]. zprop. exists [f], (pending fs). rewrite pending_cons. simpl.
      split_and!; try done; [lia|by right|]. intros l x Hl. destruct l as [|y [|z l]]; [simpl; lia| |];
        by apply (f_equal length) in Hl; simpl in Hl; rewrite ?length_app in Hl; simpl in Hl; lia.
    + zprop. destruct (evict_scan (e0 + size f) needed fs) as [e1 fs1] eqn:E. intros [= <- <-].
      destruct (IH _ _ _ Hif E) as (dr & kp & H1 & H2 & H3 & H4 & H5).
      exists (f :: dr), kp. rewrite pending_cons, H1. simpl. split_and!; try done; [lia|].
      intros l x Hl. destruct l as [|y l]; [simpl; lia|]. injection Hl as -> Hl.
      specialize (H5 l x Hl). simpl. lia.
Qed.

(** Eviction only marks frames. *)
Definition same_frame (f f' : mailboxEntry) : Prop :=
  cursor f' = cursor f /\ size f' = size f /\ envelope f' = envelope f.

Lemma same_frames_refl fs : Forall2 same_frame fs fs.
Proof. induction fs; by constructor. Qed.

Lemma evict_scan_frames e0 needed fs : Forall2 same_frame fs (snd (evict_scan e0 needed fs)).
Proof.
  revert e0. induction fs as [|f fs IH]; intros e0; cbn [evict_scan]; [constructor|].
  pose proof (same_frames_refl fs) as Hid.
  destruct (acked f).
  - specialize (IH e0). destruct (evict_scan e0 needed fs). by constructor.
  - case_if; [by constructor|]. specialize (IH (e0 + size f)).
    destruct (evict_scan (e0 + size f) needed fs). by constructor.
Qed.

Lemma evict_scan_all e0 needed fs :
  Forall (fun f => 0 <= size f) fs -> e0 + sum_with size (pending fs) < needed ->
  fst (evict_scan e0 needed fs) = e0 + sum_with size (pending fs) /\
  pending (snd (evict_scan e0 needed fs)) = [].
Proof.
  intros Hs Hlt. assert (e0 < needed) as H0.
  { assert (0 <= sum_with size (pending fs)); [|lia]. by apply sum_with_nonneg, Forall_filter. }
  destruct (evict_scan e0 needed fs) as [e fs'] eqn:E.
  destruct (evict_scan_spec _ _ _ _ _ H0 E) as (dr & kp & H1 & H2 & H3 & H4 & _). simpl.
  rewrite H1, sum_with_app in *.
  assert (kp = []) as ->.
  { destruct H4 as [|H4]; [done|]. rewrite H3 in H4.
    assert (0 <= sum_with size kp); [|lia]. apply sum_with_nonneg. rewrite <- H2.
    apply Forall_filter. pose proof (evict_scan_frames e0 needed fs) as Hf. rewrite E in Hf. simpl in Hf.
    clear - Hs Hf. induction Hf as [|f f' l l' (_ & Hf & _) _ IH]; [constructor|].
    apply Forall_cons in Hs as [? ?]. constructor; [lia|by apply IH]. }
  simpl. split; [lia|done].
Qed.

(** ** Invariant *)

Record box_ok (seq : Z) (mb : deviceMailbox) : Prop := {
  box_sizes : Forall (fun f => 0 <= size f) (frames mb);
  box_total : totalBytes mb = sum_with size (pending (frames mb));
  box_limit : totalBytes mb <= maxMailboxBytesPerDev;
  box_cursors : StronglySorted Z.lt (map cursor (frames mb));
  box_issued : Forall (fun f => 0 < cursor f <= seq) (frames mb)
}.

(** Every mailbox is well formed, and [left] more frames can be numbered. *)
Definition service_ok (left : Z) (ms : MailboxService) : Prop :=
  0 <= mailboxSeq ms /\ mailboxSeq ms + left < 18446744073709551616 /\
  forall key mb, mailboxes ms !! key = Some mb -> box_ok (mailboxSeq ms) mb.

Lemma Forall2_cursors fs fs' : Forall2 same_frame fs fs' -> map cursor fs' = map cursor fs.
Proof. induction 1 as [|f f' l l' (Hc & _) _ IH]; simpl; [done|]. by rewrite Hc, IH. Qed.

Lemma Forall2_sizes (P : Z -> Prop) fs fs' :
  Forall2 same_frame fs fs' -> Forall (fun f => P (size f)) fs -> Forall (fun f => P (size f)) fs'.
Proof.
  induction 1 as [|f f' l l' (_ & Hs & _) _ IH]; [done|]. rewrite !Forall_cons, Hs. naive_solver.
Qed.

Lemma Forall_cursors (P : Z -> Prop) fs : Forall (fun f => P (cursor f)) fs <-> Forall P (map cursor fs).
Proof. by rewrite Forall_map. Qed.

Lemma box_ok_same seq mb fs total :
  box_ok seq mb -> Forall2 same_frame (frames mb) fs ->
  total = sum_with size (pending fs) -> total <= maxMailboxBytesPerDev ->
  box_ok seq (set_frames fs total mb).
Proof.
  intros [H1 H2 H3 H4 H5] Hf Ht Hm. pose proof (Forall2_cursors _ _ Hf) as Hc. split; simpl; try done.
  - by apply (Forall2_sizes (fun z => 0 <= z) _ _ Hf).
  - by rewrite Hc.
  - apply (Forall_cursors (fun c => 0 < c <= seq)). rewrite Hc. by apply Forall_cursors.
Qed.

Lemma evict_ok seq needed mb :
  box_ok seq mb -> 0 < needed -> box_ok seq (evictOldestUnacked needed mb).
Proof.
  intros Hok Hn. unfold evictOldestUnacked.
  pose proof (evict_scan_frames 0 needed (frames mb)) as Hf.
  destruct (evict_scan 0 needed (frames mb)) as [e fs] eqn:E. cbn [snd] in Hf.
  destruct (evict_scan_spec 0 needed _ _ _ Hn E) as (dr & kp & H1 & H2 & H3 & _).
  pose proof (box_total _ _ Hok) as Ht. rewrite H1, sum_with_app in Ht.
  assert (0 <= sum_with size dr) as Hdr.
  { apply sum_with_nonneg. assert (Forall (fun f => 0 <= size f) (pending (frames mb))) as Hp
      by apply Forall_filter, Hok. rewrite H1 in Hp. by apply Forall_app in Hp as [? _]. }
  apply (box_ok_same seq mb); [done|done| |].
  - rewrite H2. lia.
  - pose proof (box_limit _ _ Hok). lia.
Qed.

Lemma box_ok_later seq seq' mb : seq <= seq' -> box_ok seq mb -> box_ok seq' mb.
Proof.
  intros Hs [H1 H2 H3 H4 H5]. split; try done. eapply Forall_impl; [exact H5|]. simpl. lia.
Qed.

Lemma box_ok_new seq r d : box_ok seq (mkBox r d [] 0).
Proof. split; simpl; try constructor. vm_compute. discriminate. Qed.

(** The mailbox [Enqueue] works on, before and after the eviction. *)
Definition box_of (route device : string) (ms : MailboxService) : deviceMailbox :=
  default (mkBox route device [] 0) (mailboxes ms !! mailboxKey route device).

Definition made_room (need : Z) (mb : deviceMailbox) : deviceMailbox :=
  if totalBytes mb + need >? maxMailboxBytesPerDev then evictOldestUnacked need mb else mb.

(** The frame [Enqueue] appends. *)
Definition new_entry (env : string) (meta : option EpochMetadata) (now1 now2 seq : Z) : mailboxEntry :=
  match meta with
  | Some e =>
      mkEntry seq env now1 (now2 + defaultMailboxTTL) false (byte_length env) (em_EpochIndex e)
        (em_PrekeyID e) (em_KeyEpochID e) (em_Counter e)
  | None => mkEntry seq env now1 (now2 + defaultMailboxTTL) false (byte_length env) None "" "" 0
  end.

Lemma Enqueue_unfold r d env meta n1 n2 ms :
  Enqueue r d env meta n1 n2 ms =
  let key := mailboxKey r d in
  let mb := made_room (byte_length env) (box_of r d ms) in
  let seq := wrap_u64 (mailboxSeq ms + 1) in
  if totalBytes mb + byte_length env >? maxMailboxBytesPerDev
  then (Some CapacityExceeded, mkService (<[key := mb]> (mailboxes ms)) (mailboxSeq ms))
  else (None, mkService (<[key := set_frames (frames mb ++ [new_entry env meta n1 n2 seq])
                             (totalBytes mb + byte_length env) mb]> (mailboxes ms)) seq).
Proof. reflexivity. Qed.

Lemma byte_length_nonneg s : 0 <= byte_length s.
Proof. unfold byte_length. lia. Qed.

Lemma box_of_ok left r d ms : service_ok left ms -> box_ok (mailboxSeq ms) (box_of r d ms).
Proof.
  intros (_ & _ & Hb). unfold box_of. destruct (mailboxes ms !! mailboxKey r d) as [mb|] eqn:E; simpl;
    [by eapply Hb|apply box_ok_new].
Qed.

Lemma made_room_ok seq need mb : 0 <= need -> box_ok seq mb -> box_ok seq (made_room need mb).
Proof.
  intros Hn Hok. unfold made_room. case_if; [|done]. zprop.
  apply evict_ok; [done|]. pose proof (box_limit _ _ Hok). lia.
Qed.

Lemma push_ok seq mb entry :
  box_ok seq mb -> 0 <= size entry -> 0 <= seq -> cursor entry = seq + 1 -> acked entry = false ->
  totalBytes mb + size entry <= maxMailboxBytesPerDev ->
  box_ok (seq + 1) (set_frames (frames mb ++ [entry]) (totalBytes mb + size entry) mb).
Proof.
  intros [H1 H2 H3 H4 H5] Hs Hseq Hc Ha Hl. split; simpl; try done.
  - apply Forall_app. split; [done|by repeat constructor].
  - rewrite pending_app, sum_with_app, H2, pending_cons, Ha. simpl. lia.
  - rewrite map_app. simpl. clear - H4 H5 Hc. induction (frames mb) as [|f fs IH]; simpl.
    + repeat constructor.
    + apply Forall_cons in H5 as [Hf H5]. simpl in H4. apply StronglySorted_inv in H4 as [H4 Hlt].
      constructor; [by apply IH|]. apply Forall_app. split; [done|]. constructor; [lia|constructor].
  - apply Forall_app. split; [|by repeat constructor; lia].
    eapply Forall_impl; [exact H5|]. simpl. lia.
Qed.

Lemma Enqueue_ok left r d env meta n1 n2 ms :
  service_ok (left + 1) ms -> 0 <= left -> service_ok left (snd (Enqueue r d env meta n1 n2 ms)).
Proof.
  intros Hok Hleft. pose proof Hok as (Hs & Hw & Hb).
  pose proof (made_room_ok _ (byte_length env) _ (byte_length_nonneg env) (box_of_ok _ r d ms Hok)) as Hm.
  rewrite Enqueue_unfold. cbv zeta.
  assert (wrap_u64 (mailboxSeq ms + 1) = mailboxSeq ms + 1) as ->
    by (unfold wrap_u64; apply Z.mod_small; lia).
  case_if; unfold service_ok; simpl.
  - split; [done|]. split; [lia|]. intros key mb.
    destruct (decide (mailboxKey r d = key)) as [<-|Hk];
      [rewrite lookup_insert_eq; by intros [= <-]|rewrite lookup_insert_ne by done; apply Hb].
  - zprop. split; [lia|]. split; [lia|]. intros key mb.
    destruct (decide (mailboxKey r d = key)) as [<-|Hk].
    + rewrite lookup_insert_eq. intros [= <-].
      assert (size (new_entry env meta n1 n2 (mailboxSeq ms + 1)) = byte_length env) as Hsz
        by by destruct meta.
      rewrite <- Hsz. apply push_ok; try done; rewrite ?Hsz; try apply byte_length_nonneg; try lia;
        by destruct meta.
    + rewrite lookup_insert_ne by done. intros Hl. eapply box_ok_later; [|by eapply Hb]. lia.
Qed.

Lemma ack_pending cur fs :
  sum_with size (pending fs) =
  sum_with size (pending (map (fun f => if ack_hits cur f then mark_acked f else f) fs)) +
  sum_with (fun f => if ack_hits cur f then size f else 0) fs.
Proof.
  induction fs as [|f fs IH]; [done|]. simpl. rewrite !pending_cons.
  destruct (ack_hits cur f) eqn:Hh; [|destruct (acked f); simpl; lia].
  unfold ack_hits in Hh. apply andb_prop in Hh as [_ Ha%negb_true_iff]. rewrite Ha. simpl. lia.
Qed.

Lemma Ack_ok left r d cur ms : service_ok left ms -> service_ok left (snd (Ack r d cur ms)).
Proof.
  intros (Hs & Hw & Hb). unfold Ack. destruct (mailboxes ms !! mailboxKey r d) as [mb|] eqn:E; [|done].
  split; [done|]. split; [done|]. simpl. intros key mb'.
  destruct (decide (mailboxKey r d = key)) as [<-|Hk];
    [rewrite lookup_insert_eq; intros [= <-]|rewrite lookup_insert_ne by done; apply Hb].
  specialize (Hb _ _ E). pose proof (ack_pending cur (frames mb)) as Hp.
  apply box_ok_same; [done| |rewrite (box_total _ _ Hb); lia|].
  - generalize (frames mb). intros fs. induction fs as [|f fs IH]; simpl; constructor; [|done].
    by destruct (ack_hits cur f).
  - pose proof (box_limit _ _ Hb).
    assert (0 <= sum_with (fun f => if ack_hits cur f then size f else 0) (frames mb)); [|lia].
    apply sum_with_nonneg. eapply Forall_impl; [apply (box_sizes _ _ Hb)|]. simpl. intros f Hf.
    destruct (ack_hits cur f); lia.
Qed.

Lemma sorted_filter (P : mailboxEntry -> Prop) `{!forall f, Decision (P f)} fs :
  StronglySorted Z.lt (map cursor fs) -> StronglySorted Z.lt (map cursor (filter P fs)).
Proof.
  induction fs as [|f fs IH]; [done|]. simpl. intros Hs. apply StronglySorted_inv in Hs as [Hs Hf].
  rewrite filter_cons. case_decide; [|by apply IH]. simpl. constructor; [by apply IH|].
  apply Forall_cursors. apply Forall_cursors in Hf. by apply Forall_filter.
Qed.

Lemma expire_pending now fs :
  sum_with size (pending fs) =
  sum_with size (pending (filter (fun f => expired now f = false) fs)) +
  sum_with size (filter (fun f => expired now f = true) fs).
Proof.
  induction fs as [|f fs IH]; [done|]. rewrite !filter_cons, !pending_cons.
  destruct (expired now f) eqn:He.
  - rewrite decide_False, decide_True by done. unfold expired in He.
    apply andb_prop in He as [_ Ha%negb_true_iff]. rewrite Ha. simpl. lia.
  - rewrite decide_True, decide_False by done. rewrite pending_cons. destruct (acked f); simpl; lia.
Qed.

Lemma Expire_ok left r d now ms : service_ok left ms -> service_ok left (snd (Expire r d now ms)).
Proof.
  intros (Hs & Hw & Hb). unfold Expire. destruct (mailboxes ms !! mailboxKey r d) as [mb|] eqn:E; [|done].
  split; [done|]. split; [done|]. simpl. intros key mb'.
  destruct (decide (mailboxKey r d = key)) as [<-|Hk];
    [rewrite lookup_insert_eq; intros [= <-]|rewrite lookup_insert_ne by done; apply Hb].
  destruct (Hb _ _ E) as [H1 H2 H3 H4 H5]. pose proof (expire_pending now (frames mb)) as Hp.
  assert (0 <= sum_with size (filter (fun f => expired now f = true) (frames mb)))
    by by apply sum_with_nonneg, Forall_filter.
  split; simpl; [by apply Forall_filter|lia|lia|by apply sorted_filter|by apply Forall_filter].
Qed.

Lemma Clear_ok left r d ms : service_ok left ms -> service_ok left (ClearForDevice r d ms).
Proof.
  intros (Hs & Hw & Hb). split; [done|]. split; [done|]. simpl. intros key mb Hl.
  apply lookup_delete_Some in Hl as [_ Hl]. by eapply Hb.
Qed.

Lemma service_ok_less left left' ms : left' <= left -> service_ok left ms -> service_ok left' ms.
Proof. intros Hl (Hs & Hw & Hb). split; [done|]. split; [lia|done]. Qed.

Lemma service_ok_run left ops ms :
  0 <= left -> service_ok (left + zlen ops) ms -> service_ok left (run ops ms).
Proof.
  intros Hleft. revert ms. induction ops as [|o ops IH]; intros ms Hok.
  - eapply service_ok_less; [|exact Hok]. simpl. lia.
  - apply IH. simpl in Hok.
    assert (service_ok (left + zlen ops + 1) ms) as Hok' by (eapply service_ok_less; [|exact Hok]; lia).
    destruct o; simpl; [by apply Enqueue_ok; [|lia]| | |]; eapply (service_ok_less (left + zlen ops + 1));
      try lia; [by apply Ack_ok|by apply Expire_ok|by apply Clear_ok].
Qed.

Lemma service_ok_new left : 0 <= left < 18446744073709551616 -> service_ok left NewMailboxService.
Proof.
  intros. split; [simpl; lia|]. split; [simpl; lia|]. intros key mb. simpl.
  rewrite lookup_empty. done.
Qed.

(** ** Fetching *)

(** The pending frames after a cursor. *)
Definition after (c : Z) (fs : list mailboxEntry) : list mailboxEntry :=
  filter (fun f => c < cursor f) (pending fs).

Lemma after_cons c f fs :
  after c (f :: fs) = if acked f || (cursor f <=? c) then after c fs else f :: after c fs.
Proof.
  unfold after. rewrite pending_cons. destruct (acked f); [done|]. rewrite filter_cons. simpl.
  destruct (Z.leb_spec (cursor f) c); case_decide; done || lia.
Qed.

Definition shown (f : mailboxEntry) : MailboxFrameEntry := mkFrameEntry (cursor f) (envelope f).

Lemma fetch_scan_spec c limit taken fs :
  taken <= limit ->
  fetch_scan c limit taken fs =
    (map shown (take (Z.to_nat (limit - taken)) (after c fs)),
     cursor <$> (after c fs !! Z.to_nat (limit - taken))).
Proof.
  revert taken. induction fs as [|f fs IH]; intros taken Ht; cbn [fetch_scan].
  { unfold after, pending. simpl. by destruct (Z.to_nat (limit - taken)). }
  rewrite after_cons. destruct (acked f || (cursor f <=? c)); [by apply IH|]. case_if; zprop.
  - replace (limit - taken) with 0 by lia. done.
  - rewrite (IH (taken + 1)) by lia.
    replace (Z.to_nat (limit - taken)) with (S (Z.to_nat (limit - (taken + 1)))) by lia. done.
Qed.

Lemma Fetch_spec r d c limit ms :
  let fs := filter (fun f => c < cursor f) (pending_of r d ms) in
  let n := Z.to_nat (if limit <=? 0 then 100 else limit) in
  Fetch r d c limit ms =
    mkResponse (map shown (take n fs)) (bool_decide (is_Some (fs !! n))) (default 0 (cursor <$> fs !! n)).
Proof.
  cbv zeta. unfold Fetch, pending_of. destruct (mailboxes ms !! mailboxKey r d) as [mb|];
    [|simpl; by destruct (Z.to_nat (if limit <=? 0 then 100 else limit))].
  set (lim := if limit <=? 0 then 100 else limit).
  assert (0 <= lim) by (unfold lim; case_if; zprop; lia).
  rewrite fetch_scan_spec, Z.sub_0_r by lia. fold (after c (frames mb)).
  by destruct (after c (frames mb) !! Z.to_nat lim) as [f|] eqn:E; rewrite ?E.
Qed.

(** ** Properties *)

(** What making room does to a well formed mailbox, for a frame that can fit and
    for one that cannot. *)
Lemma made_room_accepts seq mb need :
  box_ok seq mb -> 0 <= need -> need <= maxMailboxBytesPerDev ->
  totalBytes (made_room need mb) + need <= maxMailboxBytesPerDev /\
  exists dropped kept, pending (frames mb) = dropped ++ kept /\
    pending (frames (made_room need mb)) = kept /\
    (totalBytes mb + need <= maxMailboxBytesPerDev -> dropped = []) /\
    (forall l x, dropped = l ++ [x] -> sum_with size l < need).
Proof.
  intros [H1 H2 H3 H4 H5] H0 Hneed. unfold made_room.
  destruct (Z.gtb_spec (totalBytes mb + need) maxMailboxBytesPerDev).
  - unfold evictOldestUnacked. destruct (evict_scan 0 need (frames mb)) as [e fs] eqn:E.
    assert (0 < need) as Hpos by lia.
    destruct (evict_scan_spec 0 need _ _ _ Hpos E) as (dr & kp & Hp & Hk & He & Hor & Hmin).
    rewrite Hp, sum_with_app in H2. simpl. split.
    + destruct Hor as [->|]; [simpl in H2|]; lia.
    + exists dr, kp. split_and!; try done. lia.
  - split; [done|]. exists [], (pending (frames mb)). split_and!; try done. by intros [].
Qed.

Lemma made_room_empties seq mb need :
  box_ok seq mb -> maxMailboxBytesPerDev < need ->
  pending (frames (made_room need mb)) = [] /\ totalBytes (made_room need mb) = 0.
Proof.
  intros [H1 H2 H3 H4 H5] Hbig. unfold made_room.
  assert (0 <= totalBytes mb) by (rewrite H2; by apply sum_with_nonneg, Forall_filter).
  destruct (Z.gtb_spec (totalBytes mb + need) maxMailboxBytesPerDev); [|lia].
  destruct (evict_scan_all 0 need (frames mb) H1) as [He Hp]; [lia|]. unfold evictOldestUnacked.
  destruct (evict_scan 0 need (frames mb)) as [e fs]. simpl in *. split; [done|lia].
Qed.

(** The counting of a service's mailbox [r]/[d] after any calls. *)
Lemma run_box ops r d :
  zlen ops < 18446744073709551615 ->
  service_ok 1 (run ops NewMailboxService) /\ box_ok (mailboxSeq (run ops NewMailboxService))
    (box_of r d (run ops NewMailboxService)).
Proof.
  intros Hn. assert (service_ok 1 (run ops NewMailboxService)) as Hok
    by (apply service_ok_run; [lia|apply service_ok_new; lia]).
  split; [done|by eapply box_of_ok].
Qed.

Lemma pending_box r d ms :
  pending_of r d ms = pending (frames (box_of r d ms)) /\ bytes_of r d ms = totalBytes (box_of r d ms).
Proof. unfold pending_of, bytes_of, box_of. by destruct (mailboxes ms !! mailboxKey r d). Qed.

(** Accounting: after any calls, the byte counter of every mailbox is the
    exact size of its pending frames and never exceeds the limit, and the
    pending frames carry strictly increasing cursors, none above the last one
    issued. *)
Theorem mailbox_bounded ops r d :
  zlen ops < 18446744073709551615 ->
  let ms := run ops NewMailboxService in
  bytes_of r d ms = sum_with size (pending_of r d ms) /\
  0 <= bytes_of r d ms <= maxMailboxBytesPerDev /\
  StronglySorted Z.lt (map cursor (pending_of r d ms)) /\
  Forall (fun f => 0 < cursor f <= mailboxSeq ms) (pending_of r d ms).
Proof.
  intros Hn. cbv zeta. destruct (run_box ops r d Hn) as [_ Hb].
  destruct (pending_box r d (run ops NewMailboxService)) as [-> ->]. destruct Hb as [H1 H2 H3 H4 H5].
  split; [done|]. split.
  - split; [|done]. rewrite H2. by apply sum_with_nonneg, Forall_filter.
  - split; [by apply sorted_filter|by apply Forall_filter].
Qed.

(** Enqueueing: after any calls, a frame within the limit is always accepted,
    as the last pending frame with the next cursor, after the eviction of no
    frame when it fits, and otherwise of the shortest prefix of the pending
    frames that frees its size; a frame above the limit is refused, and all the
    pending frames of the device are lost. Other mailboxes are untouched. *)
Theorem Enqueue_outcome ops r d env meta n1 n2 :
  zlen ops < 18446744073709551615 ->
  let ms := run ops NewMailboxService in
  let res := Enqueue r d env meta n1 n2 ms in
  (byte_length env <= maxMailboxBytesPerDev ->
   fst res = None /\ exists dropped kept entry,
     pending_of r d ms = dropped ++ kept /\ pending_of r d (snd res) = kept ++ [entry] /\
     envelope entry = env /\ cursor entry = mailboxSeq ms + 1 /\
     (bytes_of r d ms + byte_length env <= maxMailboxBytesPerDev -> dropped = []) /\
     (forall l x, dropped = l ++ [x] -> sum_with size l < byte_length env)) /\
  (maxMailboxBytesPerDev < byte_length env ->
   fst res = Some CapacityExceeded /\ pending_of r d (snd res) = [] /\ bytes_of r d (snd res) = 0) /\
  (forall key, key <> mailboxKey r d -> mailboxes (snd res) !! key = mailboxes ms !! key).
Proof.
  intros Hn. cbv zeta. destruct (run_box ops r d Hn) as [(Hs & Hw & _) Hb].
  generalize dependent (run ops NewMailboxService). intros ms Hs Hw Hb.
  destruct (pending_box r d ms) as [-> ->]. rewrite Enqueue_unfold. cbv zeta.
  assert (wrap_u64 (mailboxSeq ms + 1) = mailboxSeq ms + 1) as ->
    by (unfold wrap_u64; apply Z.mod_small; lia).
  split; [|split; [|intros key Hk; case_if; simpl; by rewrite lookup_insert_ne]].
  - intros Hsz. destruct (made_room_accepts _ _ _ Hb (byte_length_nonneg env) Hsz)
      as (Hroom & dr & kp & Hp & Hkp & Hfit & Hmin).
    destruct (Z.gtb_spec (totalBytes (made_room (byte_length env) (box_of r d ms)) + byte_length env)
                maxMailboxBytesPerDev); [lia|].
    split; [done|]. exists dr, kp, (new_entry env meta n1 n2 (mailboxSeq ms + 1)).
    split; [done|]. unfold pending_of. simpl. rewrite lookup_insert_eq. simpl.
    rewrite pending_app, Hkp. split_and!; try done; by destruct meta.
  - intros Hbig. destruct (made_room_empties _ _ _ Hb Hbig) as [Hnil Htot]. rewrite Htot.
    destruct (Z.gtb_spec (0 + byte_length env) maxMailboxBytesPerDev); [|lia].
    unfold pending_of, bytes_of. simpl. rewrite lookup_insert_eq. done.
Qed.

(** In a list with increasing cursors, the frames after the one at an index. *)
Lemma sorted_after i f fs :
  StronglySorted Z.lt (map cursor fs) -> fs !! i = Some f ->
  filter (fun g => cursor f < cursor g) fs = drop (S i) fs.
Proof.
  revert i. induction fs as [|g fs IH]; intros i Hs Hi; [done|].
  simpl in Hs. apply StronglySorted_inv in Hs as [Hs Hg]. apply Forall_cursors in Hg.
  rewrite filter_cons. destruct i as [|i]; simpl in Hi.
  - injection Hi as ->. rewrite decide_False by lia. simpl. rewrite filter_all, drop_0; [done|].
    eapply Forall_impl; [exact Hg|]. done.
  - rewrite decide_False.
    + by rewrite (IH i Hs Hi).
    + apply list_elem_of_lookup_2 in Hi. rewrite Forall_forall in Hg. specialize (Hg f Hi). lia.
Qed.

Lemma filter_after c f (fs : list mailboxEntry) :
  c < cursor f ->
  filter (fun g => cursor f < cursor g) fs =
  filter (fun g => cursor f < cursor g) (filter (fun g => c < cursor g) fs).
Proof. intros Hc. rewrite list_filter_filter. apply list_filter_iff. intros g. lia. Qed.

(** Fetching: a page holds the first frames of the pending ones after the
    cursor, in order, up to the limit (100 when none is given), says whether
    more remain, and then names the first frame left out. A reader that
    continues from the last frame it received gets exactly the rest; one that
    continues from [NextCursor] never receives the frame it names. *)
Theorem Fetch_pages ops r d c limit :
  zlen ops < 18446744073709551615 ->
  let ms := run ops NewMailboxService in
  let fs := filter (fun f => c < cursor f) (pending_of r d ms) in
  let n := Z.to_nat (if limit <=? 0 then 100 else limit) in
  let page := Fetch r d c limit ms in
  Frames page = map shown (take n fs) /\
  (HasMore page = true <-> (n < length fs)%nat) /\
  (forall f, fs !! pred n = Some f ->
   filter (fun g => cursor f < cursor g) (pending_of r d ms) = drop n fs) /\
  (HasMore page = true ->
   exists f, f ∈ fs /\ cursor f = NextCursor page /\
     forall limit', ~ cursor f ∈ map mf_Cursor (Frames (Fetch r d (NextCursor page) limit' ms))).
Proof.
  intros Hn. cbv zeta.
  assert (StronglySorted Z.lt (map cursor (pending_of r d (run ops NewMailboxService)))) as Hsort.
  { destruct (run_box ops r d Hn) as [_ Hb].
    destruct (pending_box r d (run ops NewMailboxService)) as [-> _]. apply sorted_filter, Hb. }
  rewrite Fetch_spec. cbn [Frames HasMore NextCursor].
  set (P := pending_of r d (run ops NewMailboxService)) in *.
  set (fs := filter (fun f => c < cursor f) P). set (n := Z.to_nat (if limit <=? 0 then 100 else limit)).
  assert (0 < n)%nat as Hpos by (unfold n; case_if; zprop; lia).
  assert (StronglySorted Z.lt (map cursor fs)) as Hfs by by apply sorted_filter.
  split; [done|]. split; [|split].
  - rewrite bool_decide_eq_true, lookup_lt_is_Some. done.
  - intros f Hf. assert (f ∈ fs) as [Hcf _]%list_elem_of_filter by by eapply list_elem_of_lookup_2.
    rewrite (filter_after c f P Hcf). fold fs. rewrite (sorted_after (pred n) f fs Hfs Hf).
    by rewrite Nat.succ_pred by lia.
  - intros [f Hf]%bool_decide_eq_true. rewrite Hf. exists f.
    split; [by eapply list_elem_of_lookup_2|]. split; [done|]. intros limit'. simpl.
    rewrite Fetch_spec. cbn [Frames]. rewrite map_map. simpl.
    intros (g & Hg & Hin)%list_elem_of_fmap.
    eapply elem_of_sublist in Hin; [|apply sublist_take].
    apply list_elem_of_filter in Hin as [Hlt _]. lia.
Qed.

Definition wit_ops : list op :=
  [OEnqueue "r" "d" "one" None 0 0; OEnqueue "r" "d" "two" None 1 1; OEnqueue "r" "d" "three" None 2 2;
   OAck "r" "d" 1].

Lemma mailbox_bounded_witness :
  bytes_of "r" "d" (run wit_ops NewMailboxService) = 8 /\
  bytes_of "r" "d" (run wit_ops NewMailboxService) =
    sum_with size (pending_of "r" "d" (run wit_ops NewMailboxService)).
Proof.
  split; [vm_compute; reflexivity|]. apply (mailbox_bounded wit_ops "r" "d"). reflexivity.
Defined.

Lemma Enqueue_outcome_witness :
  fst (Enqueue "r" "d" "four" None 3 3 (run wit_ops NewMailboxService)) = None.
Proof.
  apply (Enqueue_outcome wit_ops "r" "d" "four" None 3 3); [reflexivity|]. vm_compute. discriminate.
Defined.

Lemma Fetch_pages_witness :
  map mf_Cursor (Frames (Fetch "r" "d" 0 1 (run wit_ops NewMailboxService))) = [2] /\
  exists f, cursor f = NextCursor (Fetch "r" "d" 0 1 (run wit_ops NewMailboxService)).
Proof.
  split; [vm_compute; reflexivity|].
  destruct (proj2 (proj2 (proj2 (Fetch_pages wit_ops "r" "d" 0 1 eq_refl)))) as (f & _ & Hf & _).
  - vm_compute. reflexivity.
  - exists f. exact Hf.
Defined.
