(* ===== verification/LiveFrameBuffer.v ===== *)
(** * The live frame buffer (go-bridge/live_frame_buffer.go)

    A short window of recent live events per device and session, replayed when a
    device reconnects, and the sessions each device has lately shown interest
    in. The clock [b.now] is an argument. The iteration order of Go maps is
    unspecified: the model iterates in the order of [map_to_list], and the
    theorems do not depend on it. *)

From S2P Require Import Prelude.
From S2P Require Import Wire.

Definition liveFrameBufferMaxAge : Z := 60 * second.
Definition liveFrameBufferMaxFrames : Z := 200.
Definition liveFrameBufferMaxBytes : Z := Z.shiftl 1 20.
Definition liveInterestMaxAge : Z := 10 * minute.

Record bufferedLiveFrame : Type := mkFrame { msg : EventMessage; emittedAt : Z; bytes : Z }.

Record liveSessionBuffer : Type := mkSession { frames : list bufferedLiveFrame; totalBytes : Z }.

(** [deviceLiveBucket]: the buffers of a device, by session key. *)
Abbreviation deviceLiveBucket := (gmap string liveSessionBuffer).

Record LiveFrameBuffer : Type := mkBuffer {
  buckets : gmap string deviceLiveBucket;
  interest : gmap string (gmap string Z);
  maxAge : Z;
  maxN : Z;
  maxB : Z
}.

Definition NewLiveFrameBuffer : LiveFrameBuffer :=
  mkBuffer ∅ ∅ liveFrameBufferMaxAge liveFrameBufferMaxFrames liveFrameBufferMaxBytes.

(** [backendID + "\x00" + sessionID] *)
Definition sessionKey (backendID sessionID : string) : string :=
  String.append backendID (String.String (Ascii.ascii_of_N 0) sessionID).

Definition set_buckets (bs : gmap string deviceLiveBucket) (b : LiveFrameBuffer) : LiveFrameBuffer :=
  mkBuffer bs (interest b) (maxAge b) (maxN b) (maxB b).
Definition set_interest (i : gmap string (gmap string Z)) (b : LiveFrameBuffer) : LiveFrameBuffer :=
  mkBuffer (buckets b) i (maxAge b) (maxN b) (maxB b).

(** [m := b.interest[deviceID]] (created when missing); [m[key] = now] *)
Definition note (deviceID key : string) (now : Z) (b : LiveFrameBuffer) : LiveFrameBuffer :=
  set_interest (<[deviceID := <[key := now]> (default ∅ (interest b !! deviceID))]> (interest b)) b.

Definition NoteInterest (deviceID backendID sessionID : string) (now : Z) (b : LiveFrameBuffer)
  : LiveFrameBuffer :=
  if bool_decide (deviceID = "") || bool_decide (backendID = "") || bool_decide (sessionID = "") then b
  else note deviceID (sessionKey backendID sessionID) now b.

(** [ok && now.Sub(at) <= liveInterestMaxAge] *)
Definition recent (now : Z) (at_ : option Z) : bool :=
  match at_ with Some t => now - t <=? liveInterestMaxAge | None => false end.

Definition InterestedDevices (backendID sessionID : string) (now : Z) (b : LiveFrameBuffer)
  : list string :=
  let key := sessionKey backendID sessionID in
  map fst (filter (fun dm => recent now (dm.2 !! key) = true) (map_to_list (interest b))).

Definition isLiveBufferableEvent (eventName : string) : bool :=
  bool_decide (eventName ∈
    ["text_delta"; "reasoning_delta"; "tool_output_delta"; "tool_started"; "tool_finished";
     "turn_started"; "turn_completed"; "turn_error"; "turn_aborted"; "user_message";
     "session_state_changed"; "assistant_message_started"; "assistant_message_delta";
     "assistant_message_finished"; "reasoning_started"; "reasoning_finished";
     "context_usage_updated"]).

(** The two loops of [trimSessionLocked]. *)
Fixpoint trim_age (now maxAge : Z) (fs : list bufferedLiveFrame) (total : Z) : liveSessionBuffer :=
  match fs with
  | f :: fs' =>
      if now - emittedAt f >? maxAge then trim_age now maxAge fs' (total - bytes f)
      else mkSession fs total
  | [] => mkSession [] total
  end.

Fixpoint trim_size (maxN maxB : Z) (fs : list bufferedLiveFrame) (total : Z) : liveSessionBuffer :=
  match fs with
  | f :: fs' =>
      if (zlen fs >? maxN) || (total >? maxB) then trim_size maxN maxB fs' (total - bytes f)
      else mkSession fs total
  | [] => mkSession [] total
  end.

Definition trimSessionLocked (now : Z) (b : LiveFrameBuffer) (sess : liveSessionBuffer)
  : liveSessionBuffer :=
  let s := trim_age now (maxAge b) (frames sess) (totalBytes sess) in
  let s := trim_size (maxN b) (maxB b) (frames s) (totalBytes s) in
  mkSession (frames s) (if totalBytes s <? 0 then 0 else totalBytes s).

(** [len(s)]: the bytes of a string. *)
Definition byte_length (s : string) : Z := Z.of_nat (String.length s).

Definition jsonMarshalLen (m : EventMessage) : Z :=
  let n := 128 + byte_length (Event m) + byte_length (SessionID m) + byte_length (BackendID m)
           + byte_length (EventID m) in
  let n := if bool_decide (Message m <> "") then n + byte_length (Message m) else n in
  n + 512.

(** The body of the loop of [Append]. *)
Definition append_device (m : EventMessage) (now : Z) (deviceID : string) (b : LiveFrameBuffer)
  : LiveFrameBuffer :=
  if bool_decide (deviceID = "") then b
  else
    let key := sessionKey (BackendID m) (SessionID m) in
    let b := note deviceID key now b in
    let bucket := default ∅ (buckets b !! deviceID) in
    let sess := default (mkSession [] 0) (bucket !! key) in
    let sess := mkSession (frames sess ++ [mkFrame m now (jsonMarshalLen m)])
                          (totalBytes sess + jsonMarshalLen m) in
    set_buckets (<[deviceID := <[key := trimSessionLocked now b sess]> bucket]> (buckets b)) b.

Definition Append (deviceIDs : list string) (m : EventMessage) (now : Z) (b : LiveFrameBuffer)
  : LiveFrameBuffer :=
  if (zlen deviceIDs =? 0) || negb (isLiveBufferableEvent (Event m)) then b
  else fold_left (fun b d => append_device m now d b) deviceIDs b.

Definition Snapshot (deviceID : string) (now : Z) (b : LiveFrameBuffer)
  : list EventMessage * LiveFrameBuffer :=
  if bool_decide (deviceID = "") then ([], b)
  else
    match buckets b !! deviceID with
    | None => ([], b)
    | Some bucket =>
        let bucket := trimSessionLocked now b <$> bucket in
        (concat (map (fun ks => map msg (frames ks.2)) (map_to_list bucket)),
         set_buckets (<[deviceID := bucket]> (buckets b)) b)
    end.

Definition FrameCount (deviceID : string) (b : LiveFrameBuffer) : Z :=
  match buckets b !! deviceID with
  | None => 0
  | Some bucket => map_sum (fun s => zlen (frames s)) bucket
  end.

(** [gcOnce]: trim every session, delete the empty ones, the devices left without
    sessions, the old interests, and the devices left without interests. *)
Definition gc_bucket (now : Z) (b : LiveFrameBuffer) (bucket : deviceLiveBucket)
  : option deviceLiveBucket :=
  let bucket := filter (fun ks => frames ks.2 <> []) (trimSessionLocked now b <$> bucket) in
  if bool_decide (bucket = ∅) then None else Some bucket.

Definition gc_interest (now : Z) (m : gmap string Z) : option (gmap string Z) :=
  let m := filter (fun ka => now - ka.2 <= liveInterestMaxAge) m in
  if bool_decide (m = ∅) then None else Some m.

Definition gcOnce (now : Z) (b : LiveFrameBuffer) : LiveFrameBuffer :=
  set_interest (omap (gc_interest now) (interest b))
    (set_buckets (omap (gc_bucket now b) (buckets b)) b).

(** ** Executions *)

Inductive op : Type :=
| ONote (deviceID backendID sessionID : string) (now : Z)
| OAppend (deviceIDs : list string) (m : EventMessage) (now : Z)
| OSnapshot (deviceID : string) (now : Z)
| OGc (now : Z).

Definition exec (o : op) (b : LiveFrameBuffer) : LiveFrameBuffer :=
  match o with
  | ONote d bk s now => NoteInterest d bk s now b
  | OAppend ds m now => Append ds m now b
  | OSnapshot d now => snd (Snapshot d now b)
  | OGc now => gcOnce now b
  end.

Definition run (ops : list op) (b : LiveFrameBuffer) : LiveFrameBuffer :=
  fold_left (fun b o => exec o b) ops b.

Definition time_of (o : op) : Z :=
  match o with ONote _ _ _ now | OAppend _ _ now | OSnapshot _ now | OGc now => now end.

(** A clock that does not run backwards. *)
Fixpoint clock_from (t : Z) (ops : list op) : Prop :=
  match ops with [] => True | o :: ops => t <= time_of o /\ clock_from (time_of o) ops end.

Definition clock_after (t : Z) (ops : list op) : Z := fold_left (fun _ o => time_of o) ops t.

(** What was appended for one session of one device, in order. *)
Definition logged (d key : string) (o : op) : list bufferedLiveFrame :=
  match o with
  | OAppend ds m now =>
      if isLiveBufferableEvent (Event m) && bool_decide (sessionKey (BackendID m) (SessionID m) = key)
      then map (fun _ => mkFrame m now (jsonMarshalLen m)) (filter (fun x => x = d /\ x <> "") ds)
      else []
  | _ => []
  end.

Definition log (d key : string) (ops : list op) : list bufferedLiveFrame :=
  concat (map (logged d key) ops).

(** The frames held for one session of one device. *)
Definition session_of (d key : string) (b : LiveFrameBuffer) : liveSessionBuffer :=
  default (mkSession [] 0) (default ∅ (buckets b !! d) !! key).
Definition held (d key : string) (b : LiveFrameBuffer) : list bufferedLiveFrame :=
  frames (session_of d key b).

(** ** Windows *)

(** What the buffer may hold of a session at an instant. *)
Definition good (now : Z) (fs : list bufferedLiveFrame) : Prop :=
  Forall (fun f => now - emittedAt f <= liveFrameBufferMaxAge) fs /\
  zlen fs <= liveFrameBufferMaxFrames /\ sum_with bytes fs <= liveFrameBufferMaxBytes.

(** [w] is the longest suffix of [l] the buffer may hold. *)
Definition is_window (now : Z) (l w : list bufferedLiveFrame) : Prop :=
  exists d, l = d ++ w /\ good now w /\ forall d' x, d = d' ++ [x] -> ~ good now (x :: w).

(** A log: instants in order, none in the future, sizes not negative. *)
Definition log_ok (t : Z) (l : list bufferedLiveFrame) : Prop :=
  StronglySorted Z.le (map emittedAt l) /\ Forall (fun f => emittedAt f <= t /\ 0 <= bytes f) l.

Lemma good_prefix t t' l1 l2 :
  t <= t' -> Forall (fun f => 0 <= bytes f) l2 -> good t' (l1 ++ l2) -> good t l1.
Proof.
  intros Ht Hb (Ha & Hn & Hs). apply Forall_app in Ha as [Ha _]. rewrite length_app in Hn.
  rewrite sum_with_app in Hs. pose proof (sum_with_nonneg bytes l2 Hb). split; [|lia].
  eapply Forall_impl; [exact Ha|]. simpl. lia.
Qed.

Lemma window_later t t' l w new w' :
  t <= t' -> Forall (fun f => 0 <= bytes f) new ->
  is_window t l w -> is_window t' (w ++ new) w' -> is_window t' (l ++ new) w'.
Proof.
  intros Ht Hb (d & -> & Hg & Hmax) (d2 & Heq & Hg2 & Hmax2).
  exists (d ++ d2). rewrite <- !app_assoc, Heq. split; [done|]. split; [done|].
  intros d' x. destruct d2 as [|y d2 _] using rev_ind.
  - rewrite app_nil_r. intros Hd Hbad. apply (Hmax d' x Hd). simpl in Heq. subst w'.
    by apply (good_prefix t t' (x :: w) new).
  - rewrite app_assoc. intros [_ [= <-]]%app_inj_2 Hbad; [|done]. by apply (Hmax2 d2 y).
Qed.

Lemma trim_age_spec now age l total :
  StronglySorted Z.le (map emittedAt l) ->
  exists d, l = d ++ frames (trim_age now age l total) /\
    totalBytes (trim_age now age l total) = total - sum_with bytes d /\
    Forall (fun f => age < now - emittedAt f) d /\
    Forall (fun f => now - emittedAt f <= age) (frames (trim_age now age l total)).
Proof.
  revert total. induction l as [|f l IH]; intros total Hs; cbn [trim_age].
  { exists []. simpl. split_and!; try constructor. lia. }
  simpl in Hs. apply StronglySorted_inv in Hs as [Hs Hf]. case_if; zprop.
  - destruct (IH (total - bytes f) Hs) as (d & H1 & H2 & H3 & H4).
    exists (f :: d). simpl. split_and!; [by rewrite H1 at 1|lia|by constructor|done].
  - exists []. simpl. split; [done|]. split; [lia|]. split; [constructor|]. constructor; [lia|].
    rewrite Forall_map in Hf. eapply Forall_impl; [exact Hf|]. simpl. lia.
Qed.

Lemma trim_size_spec l total :
  total = sum_with bytes l ->
  let s := trim_size liveFrameBufferMaxFrames liveFrameBufferMaxBytes l total in
  exists d, l = d ++ frames s /\ totalBytes s = sum_with bytes (frames s) /\
    zlen (frames s) <= liveFrameBufferMaxFrames /\
    sum_with bytes (frames s) <= liveFrameBufferMaxBytes /\
    forall d' x, d = d' ++ [x] ->
      liveFrameBufferMaxFrames < zlen (x :: frames s) \/
      liveFrameBufferMaxBytes < sum_with bytes (x :: frames s).
Proof.
  revert total. induction l as [|f l IH]; intros total ->; cbv zeta; cbn [trim_size].
  { exists []. simpl. split_and!; try done. by intros []. }
  case_if.
  - destruct (IH (sum_with bytes (f :: l) - bytes f)) as (d & H1 & H2 & H3 & H4 & H5); [simpl; lia|].
    exists (f :: d). split_and!; try done; [by rewrite H1 at 1|].
    intros [|y d'] x [= -> Hd].
    + subst d. rewrite app_nil_l in H1. rewrite <- H1.
      apply orb_prop in Hif as [?|?]; zprop; [by left|by right].
    + by apply (H5 d').
  - exists []. zprop. split_and!; try done. by intros [].
Qed.

Definition standard (b : LiveFrameBuffer) : Prop :=
  maxAge b = liveFrameBufferMaxAge /\ maxN b = liveFrameBufferMaxFrames /\
  maxB b = liveFrameBufferMaxBytes.

Lemma trim_window now b l :
  standard b -> StronglySorted Z.le (map emittedAt l) -> Forall (fun f => 0 <= bytes f) l ->
  let s := trimSessionLocked now b (mkSession l (sum_with bytes l)) in
  is_window now l (frames s) /\ totalBytes s = sum_with bytes (frames s).
Proof.
  intros (Ea & En & Eb) Hs Hb. unfold trimSessionLocked. rewrite Ea, En, Eb. cbn [frames totalBytes].
  destruct (trim_age_spec now liveFrameBufferMaxAge l (sum_with bytes l) Hs) as (d1 & H1 & H2 & H3 & H4).
  set (s1 := trim_age now liveFrameBufferMaxAge l (sum_with bytes l)) in *.
  destruct (trim_size_spec (frames s1) (totalBytes s1)) as (d2 & H5 & H6 & H7 & H8 & H9).
  { rewrite H2, H1 at 1. rewrite sum_with_app. lia. }
  set (s2 := trim_size liveFrameBufferMaxFrames liveFrameBufferMaxBytes (frames s1) (totalBytes s1)) in *.
  cbv zeta. cbn [frames totalBytes]. split.
  - exists (d1 ++ d2). rewrite <- app_assoc, <- H5, <- H1. split; [done|]. split.
    { split; [|done]. rewrite H5 in H4. by apply Forall_app in H4 as [_ ?]. }
    intros d' x. destruct d2 as [|y d2 _] using rev_ind.
    + rewrite app_nil_r. intros -> (Ha & _). apply Forall_app in H3 as [_ H3].
      apply Forall_cons in H3 as [H3 _], Ha as [Ha _]. lia.
    + rewrite app_assoc. intros [_ [= <-]]%app_inj_2 (_ & Hn & Hsz); [|done].
      destruct (H9 d2 y eq_refl); lia.
  - assert (0 <= sum_with bytes (frames s2)).
    { apply sum_with_nonneg. rewrite H1, H5 in Hb. by repeat (apply Forall_app in Hb as [_ Hb]). }
    destruct (Z.ltb_spec (totalBytes s2) 0); lia.
Qed.

(** ** The invariant *)

(** What the buffer holds of a session is a window of its log. *)
Record tracks (d key : string) (l : list bufferedLiveFrame) (t : Z) (b : LiveFrameBuffer) : Prop := {
  tr_standard : standard b;
  tr_log : log_ok t l;
  tr_total : totalBytes (session_of d key b) = sum_with bytes (held d key b);
  tr_window : exists t0, t0 <= t /\ is_window t0 l (held d key b)
}.

Lemma log_ok_later t t' l : t <= t' -> log_ok t l -> log_ok t' l.
Proof.
  intros Ht [Hs Hf]. split; [done|]. eapply Forall_impl; [exact Hf|]. simpl. lia.
Qed.

Lemma log_ok_suffix t d l : log_ok t (d ++ l) -> log_ok t l.
Proof.
  intros [Hs Hf]. rewrite map_app in Hs. apply StronglySorted_app in Hs as (_ & _ & Hs).
  apply Forall_app in Hf as [_ Hf]. done.
Qed.

Lemma log_ok_snoc t now l f :
  log_ok t l -> t <= now -> emittedAt f = now -> 0 <= bytes f -> log_ok now (l ++ [f]).
Proof.
  intros [Hs Hf] Ht He Hb. split.
  - rewrite map_app. apply StronglySorted_app. split_and!; [|done|by repeat constructor].
    intros x y Hx Hy. simpl in Hy. apply list_elem_of_singleton in Hy as ->.
    apply list_elem_of_fmap in Hx as (g & -> & Hg). rewrite Forall_forall in Hf.
    specialize (Hf g Hg). lia.
  - apply Forall_app. split; [eapply Forall_impl; [exact Hf|]; simpl; lia|].
    constructor; [lia|constructor].
Qed.

Lemma log_ok_bytes t l : log_ok t l -> Forall (fun f => 0 <= bytes f) l.
Proof. intros [_ Hf]. eapply Forall_impl; [exact Hf|]. simpl. lia. Qed.

(** A session trimmed now, after new frames were appended to it. *)
Lemma tracks_trim d key l t now new b b' :
  tracks d key l t b -> t <= now -> standard b' -> log_ok now (l ++ new) ->
  session_of d key b' =
    trimSessionLocked now b (mkSession (held d key b ++ new) (totalBytes (session_of d key b) + sum_with bytes new)) ->
  tracks d key (l ++ new) now b' /\ is_window now (l ++ new) (held d key b').
Proof.
  intros [Hst Hlog Htot (t0 & Ht0 & Hw)] Ht Hst' Hl' Hs.
  assert (log_ok now (held d key b ++ new)) as Hheld.
  { destruct Hw as (dr & -> & _). rewrite <- app_assoc in Hl'. by apply log_ok_suffix in Hl'. }
  rewrite Htot, <- sum_with_app in Hs.
  destruct (trim_window now b (held d key b ++ new) Hst) as [Hwin Hsum];
    [by destruct Hheld|by eapply log_ok_bytes|].
  rewrite <- Hs in Hwin, Hsum. fold (held d key b') in Hwin, Hsum.
  assert (is_window now (l ++ new) (held d key b')) as Hfin.
  { eapply (window_later t0 now); [lia| |done|done].
    apply (log_ok_bytes now). by eapply log_ok_suffix. }
  split; [|done]. split; [done|done|done|]. exists now. split; [lia|done].
Qed.

Lemma tracks_same d key l t now b b' :
  tracks d key l t b -> t <= now -> standard b' -> session_of d key b' = session_of d key b ->
  tracks d key l now b'.
Proof.
  intros [Hst Hlog Htot (t0 & Ht0 & Hw)] Ht Hst' Hs. unfold held in *.
  split; [done|by eapply log_ok_later|unfold held; by rewrite Hs|]. unfold held. rewrite Hs.
  exists t0. split; [lia|done].
Qed.

Lemma jsonMarshalLen_nonneg m : 0 <= jsonMarshalLen m.
Proof. unfold jsonMarshalLen, byte_length. case_if; lia. Qed.

(** The session an append touches. *)
Lemma append_device_session m now x d key b :
  session_of d key (append_device m now x b) =
  if bool_decide (x = d /\ x <> "") && bool_decide (sessionKey (BackendID m) (SessionID m) = key) then
    trimSessionLocked now b (mkSession (held d key b ++ [mkFrame m now (jsonMarshalLen m)])
                               (totalBytes (session_of d key b) + jsonMarshalLen m))
  else session_of d key b.
Proof.
  unfold append_device. case_bool_decide as Hx.
  { rewrite bool_decide_eq_false_2; [done|]. tauto. }
  unfold session_of at 1. simpl. destruct (decide (x = d)) as [->|Hd].
  - rewrite (bool_decide_eq_true_2 (d = d /\ d <> "")) by done. rewrite lookup_insert_eq. simpl.
    case_bool_decide as Hk; simpl.
    + subst key. by rewrite lookup_insert_eq.
    + by rewrite lookup_insert_ne by done.
  - rewrite (bool_decide_eq_false_2 (x = d /\ x <> "")) by tauto. simpl.
    by rewrite lookup_insert_ne by done.
Qed.

Lemma standard_append m now x b : standard b -> standard (append_device m now x b).
Proof. unfold append_device. by case_if. Qed.

(** The copies of a message appended for one device. *)
Definition copies (d : string) (f : bufferedLiveFrame) (ds : list string) : list bufferedLiveFrame :=
  map (fun _ => f) (filter (fun x => x = d /\ x <> "") ds).

Lemma tracks_append_all d key m now l t ds b :
  tracks d key l t b -> t <= now ->
  let f := mkFrame m now (jsonMarshalLen m) in
  tracks d key (l ++ if bool_decide (sessionKey (BackendID m) (SessionID m) = key) then copies d f ds else [])
    now (fold_left (fun b x => append_device m now x b) ds b).
Proof.
  cbv zeta. revert l t b. induction ds as [|x ds IH]; intros l t b Htr Ht; simpl.
  { replace (if bool_decide _ then _ else _) with (@nil bufferedLiveFrame) by by case_if.
    rewrite app_nil_r. by eapply tracks_same; [exact Htr|done|apply Htr|]. }
  pose proof (append_device_session m now x d key b) as Hs.
  pose proof (standard_append m now x b (tr_standard _ _ _ _ _ Htr)) as Hst.
  unfold copies. rewrite filter_cons.
  set (same := bool_decide (sessionKey (BackendID m) (SessionID m) = key)) in *. clearbody same.
  destruct (decide (x = d /\ x <> "")) as [Hx|Hx]; [rewrite (bool_decide_eq_true_2 _ Hx) in Hs|
    rewrite (bool_decide_eq_false_2 _ Hx) in Hs]; [destruct same|]; cbn [andb] in Hs.
  - set (f := mkFrame m now (jsonMarshalLen m)) in *.
    destruct (tracks_trim d key l t now [f] b (append_device m now x b)) as [Htr' _]; try done.
    { eapply log_ok_snoc; [apply Htr|done|done|apply jsonMarshalLen_nonneg]. }
    { simpl. by rewrite Z.add_0_r. }
    specialize (IH _ now _ Htr' (Z.le_refl now)). by rewrite <- app_assoc in IH.
  - apply (IH _ now); [by eapply tracks_same|lia].
  - apply (IH _ now); [by eapply tracks_same|lia].
Qed.

Lemma trim_empty now b : trimSessionLocked now b (mkSession [] 0) = mkSession [] 0.
Proof. reflexivity. Qed.

Lemma session_eta s : mkSession (frames s) (totalBytes s) = s.
Proof. by destruct s. Qed.

Lemma Snapshot_session x now d key b :
  session_of d key (snd (Snapshot x now b)) =
  if bool_decide (x = d /\ x <> "") then trimSessionLocked now b (session_of d key b)
  else session_of d key b.
Proof.
  unfold Snapshot. case_bool_decide as Hx; [by rewrite bool_decide_eq_false_2 by tauto|].
  destruct (decide (x = d)) as [->|Hd].
  - rewrite bool_decide_eq_true_2 by done. unfold session_of.
    destruct (buckets b !! d) as [bucket|] eqn:E; simpl.
    + rewrite lookup_insert_eq. simpl. rewrite lookup_fmap. by destruct (bucket !! key).
    + by rewrite E.
  - rewrite (bool_decide_eq_false_2 (x = d /\ _)) by tauto. unfold session_of.
    destruct (buckets b !! x) as [bucket|]; [|done]. simpl. by rewrite lookup_insert_ne.
Qed.

Lemma gc_session now d key b :
  (frames (trimSessionLocked now b (session_of d key b)) = [] ->
   totalBytes (trimSessionLocked now b (session_of d key b)) = 0) ->
  session_of d key (gcOnce now b) = trimSessionLocked now b (session_of d key b).
Proof.
  unfold session_of. change (buckets (gcOnce now b)) with (omap (gc_bucket now b) (buckets b)).
  rewrite lookup_omap. destruct (buckets b !! d) as [bucket|]; [|done].
  cbn [mbind option_bind default id]. unfold gc_bucket.
  set (kept := filter (fun ks => frames ks.2 <> []) (trimSessionLocked now b <$> bucket)).
  assert (default (mkSession [] 0) (kept !! key) =
          default (mkSession [] 0) (default ∅ (if bool_decide (kept = ∅) then None else Some kept) !! key))
    as <- by (case_bool_decide as Hk; [by rewrite Hk|done]).
  unfold kept. rewrite map_lookup_filter, lookup_fmap.
  destruct (bucket !! key) as [s|]; [|done].
  cbn [fmap option_fmap option_map mbind option_bind default id].
  generalize (trimSessionLocked now b s). intros [fs total] Hz. cbn [frames totalBytes] in *.
  destruct (decide (fs = [])) as [->|Hf].
  - rewrite option_guard_False by (intros Hn; by apply Hn). by rewrite Hz.
  - by rewrite option_guard_True.
Qed.

(** Trimming a tracked session. *)
Lemma tracks_trim_only d key l t now b b' :
  tracks d key l t b -> t <= now -> standard b' ->
  session_of d key b' = trimSessionLocked now b (session_of d key b) ->
  tracks d key l now b' /\ is_window now l (held d key b').
Proof.
  intros Htr Ht Hst Hs. rewrite <- (app_nil_r l).
  apply (tracks_trim d key l t now [] b b'); try done.
  - rewrite app_nil_r. eapply log_ok_later; [done|apply Htr].
  - rewrite app_nil_r. simpl. unfold held. by rewrite Z.add_0_r, session_eta.
Qed.

Lemma trim_total d key l t now b :
  tracks d key l t b -> t <= now ->
  totalBytes (trimSessionLocked now b (session_of d key b)) =
  sum_with bytes (frames (trimSessionLocked now b (session_of d key b))).
Proof.
  intros [Hst Hlog Htot (t0 & Ht0 & Hw)] Ht. rewrite <- (session_eta (session_of d key b)), Htot.
  assert (log_ok t (held d key b)) as Hl by (destruct Hw as (dr & -> & _); by eapply log_ok_suffix).
  apply trim_window; [done|by destruct Hl|by eapply log_ok_bytes].
Qed.

Lemma tracks_exec d key l t o b :
  tracks d key l t b -> t <= time_of o -> tracks d key (l ++ logged d key o) (time_of o) (exec o b).
Proof.
  intros Htr Ht. destruct o as [x bk s now|ds m now|x now|now]; simpl in *.
  - rewrite app_nil_r. unfold NoteInterest. case_if; by eapply tracks_same; [exact Htr|done|apply Htr|].
  - unfold Append. destruct (Z.eqb_spec (zlen ds) 0) as [Hn|Hn]; simpl.
    + destruct ds; [|done]. simpl. replace (if _ : bool then _ else _) with (@nil bufferedLiveFrame)
        by by case_if. rewrite app_nil_r. by eapply tracks_same; [exact Htr|done|apply Htr|].
    + destruct (isLiveBufferableEvent (Event m)); simpl.
      * by apply (tracks_append_all d key m now l t ds b).
      * rewrite app_nil_r. by eapply tracks_same; [exact Htr|done|apply Htr|].
  - rewrite app_nil_r. assert (standard (snd (Snapshot x now b))) as Hst.
    { unfold Snapshot. case_if; [apply Htr|]. destruct (buckets b !! x); apply Htr. }
    pose proof (Snapshot_session x now d key b) as Hs. case_bool_decide.
    + by eapply tracks_trim_only.
    + by eapply tracks_same.
  - rewrite app_nil_r. eapply tracks_trim_only; [exact Htr|done|apply Htr|]. apply gc_session.
    intros Hf. by rewrite (trim_total d key l t now b Htr Ht), Hf.
Qed.

Lemma tracks_run d key l t ops b :
  tracks d key l t b -> clock_from t ops ->
  tracks d key (l ++ log d key ops) (clock_after t ops) (run ops b).
Proof.
  revert l t b. induction ops as [|o ops IH]; intros l t b Htr Hc; simpl.
  - unfold log. simpl. by rewrite app_nil_r.
  - destruct Hc as [Ht Hc]. unfold log. simpl. rewrite app_assoc.
    apply IH; [by apply (tracks_exec d key l t)|done].
Qed.

Lemma tracks_new d key t : tracks d key [] t NewLiveFrameBuffer.
Proof.
  split; [by split|by repeat constructor|done|]. exists t. split; [lia|]. exists [].
  split; [done|]. split; [split; [constructor|split; vm_compute; discriminate]|by intros []].
Qed.

(** ** Interest *)

(** When a device last showed interest in a session. *)
Definition interested (d key : string) (o : op) : option Z :=
  match o with
  | ONote d' bk s now =>
      if bool_decide (d' = d /\ d <> "" /\ bk <> "" /\ s <> "" /\ sessionKey bk s = key) then Some now
      else None
  | OAppend ds m now =>
      if isLiveBufferableEvent (Event m) &&
         bool_decide (d ∈ ds /\ d <> "" /\ sessionKey (BackendID m) (SessionID m) = key)
      then Some now else None
  | _ => None
  end.

Definition last_interest (d key : string) (ops : list op) : option Z :=
  fold_left (fun acc o => match interested d key o with Some t => Some t | None => acc end) ops None.

Definition entry (d key : string) (b : LiveFrameBuffer) : option Z :=
  default ∅ (interest b !! d) !! key.

Lemma note_entry d key d' key' now b :
  entry d' key' (note d key now b) = if bool_decide (d = d' /\ key = key') then Some now else entry d' key' b.
Proof.
  unfold entry, note. simpl. destruct (decide (d = d')) as [->|Hd].
  - rewrite lookup_insert_eq. simpl. destruct (decide (key = key')) as [->|Hk].
    + by rewrite lookup_insert_eq, bool_decide_eq_true_2.
    + rewrite lookup_insert_ne, bool_decide_eq_false_2; [done|tauto|done].
  - rewrite lookup_insert_ne, bool_decide_eq_false_2; [done|tauto|done].
Qed.

Lemma append_entry m now ds d key b :
  entry d key (fold_left (fun b x => append_device m now x b) ds b) =
  if bool_decide (d ∈ ds /\ d <> "" /\ sessionKey (BackendID m) (SessionID m) = key) then Some now
  else entry d key b.
Proof.
  revert b. induction ds as [|x ds IH]; intros b; cbn [fold_left].
  { rewrite bool_decide_eq_false_2; [done|]. by intros [?%not_elem_of_nil _]. }
  rewrite IH.
  assert (entry d key (append_device m now x b) =
    if bool_decide (x = d /\ x <> "" /\ sessionKey (BackendID m) (SessionID m) = key) then Some now
    else entry d key b) as ->.
  { unfold append_device. destruct (decide (x = "")) as [Hx|Hx].
    - rewrite (bool_decide_eq_true_2 _ Hx), bool_decide_eq_false_2; [done|naive_solver].
    - rewrite (bool_decide_eq_false_2 _ Hx).
      transitivity (entry d key (note x (sessionKey (BackendID m) (SessionID m)) now b)); [done|].
      rewrite note_entry.
      destruct (decide (x = d /\ sessionKey (BackendID m) (SessionID m) = key)) as [Hd|Hd].
      + by rewrite !bool_decide_eq_true_2 by naive_solver.
      + by rewrite !bool_decide_eq_false_2 by naive_solver. }
  repeat case_bool_decide; try done; set_solver.
Qed.

Lemma interest_exec d key o b now :
  recent now (entry d key (exec o b)) =
    match interested d key o with
    | Some t => recent now (Some t)
    | None => match o with
              | OGc t => recent now (entry d key b) && recent t (entry d key b)
              | _ => recent now (entry d key b)
              end
    end.
Proof.
  destruct o as [d' bk s t|ds m t|x t|t]; cbn [exec interested].
  - unfold NoteInterest. destruct (decide (d' = "" \/ bk = "" \/ s = "")) as [He|He].
    + rewrite (bool_decide_eq_false_2 (d' = d /\ _)) by naive_solver.
      replace (bool_decide (d' = "") || bool_decide (bk = "") || bool_decide (s = "")) with true; [done|].
      symmetry. destruct He as [->|[->| ->]]; simpl; by rewrite ?orb_true_r.
    + rewrite !(bool_decide_eq_false_2 (_ = "")) by tauto. simpl. rewrite note_entry.
      destruct (decide (d' = d /\ sessionKey bk s = key)) as [Hd|Hd].
      * by rewrite !bool_decide_eq_true_2 by naive_solver.
      * by rewrite !bool_decide_eq_false_2 by naive_solver.
  - unfold Append. destruct (Z.eqb_spec (zlen ds) 0) as [Hn|Hn]; simpl.
    + destruct ds; [|done]. rewrite bool_decide_eq_false_2, andb_false_r; [done|].
      by intros [?%not_elem_of_nil _].
    + destruct (isLiveBufferableEvent (Event m)); simpl; [|done].
      rewrite append_entry. by case_bool_decide.
  - unfold Snapshot. case_if; [done|]. by destruct (buckets b !! x).
  - unfold entry. change (interest (gcOnce t b)) with (omap (gc_interest t) (interest b)).
    rewrite lookup_omap. destruct (interest b !! d) as [m|]; [|done].
    cbn [mbind option_bind default id]. unfold gc_interest.
    set (kept := filter (fun ka => t - ka.2 <= liveInterestMaxAge) m).
    replace (default ∅ (if bool_decide (kept = ∅) then None else Some kept) !! key) with (kept !! key)
      by (case_bool_decide as Hk; [by rewrite Hk|done]).
    unfold kept. rewrite map_lookup_filter. destruct (m !! key) as [at_|]; [|done].
    cbn [mbind option_bind recent]. destruct (Z.leb_spec (t - at_) liveInterestMaxAge).
    + rewrite option_guard_True by done. simpl. by rewrite andb_true_r.
    + rewrite option_guard_False by (simpl; lia). by rewrite andb_false_r.
Qed.

Lemma recent_later t now at_ : t <= now -> recent now at_ = true -> recent t at_ = true.
Proof. destruct at_ as [x|]; simpl; [|done]. rewrite !Z.leb_le. lia. Qed.

Lemma interest_run d key ops t acc b now :
  (forall now, t <= now -> recent now (entry d key b) = recent now acc) ->
  clock_from t ops -> clock_after t ops <= now ->
  recent now (entry d key (run ops b)) =
  recent now (fold_left (fun acc o => match interested d key o with Some t => Some t | None => acc end)
                ops acc).
Proof.
  revert t acc b. induction ops as [|o ops IH]; intros t acc b Hr Hc Hnow; simpl; [by apply Hr|].
  destruct Hc as [Ht Hc]. apply (IH (time_of o)); [|done|done].
  intros now' Hn. rewrite interest_exec. destruct (interested d key o) as [x|]; [done|].
  destruct o as [| | |t']; simpl in *; rewrite !Hr by lia; try done.
  destruct (recent now' acc) eqn:E; [|done]. by apply (recent_later t') in E.
Qed.

(** ** Properties *)

(** The replay window: whatever sequence of appends, snapshots and garbage
    collections came before, a snapshot holds, for each session of the device,
    exactly the longest suffix of the events appended for it that are at most
    60 seconds old, at most 200, and at most 1 MiB in size, in order; and
    nothing else. *)
Theorem Snapshot_window d ops t0 now :
  d <> "" -> clock_from t0 ops -> clock_after t0 ops <= now ->
  let res := Snapshot d now (run ops NewLiveFrameBuffer) in
  (forall key, is_window now (log d key ops) (held d key (snd res)) /\
     map msg (held d key (snd res)) `sublist_of` fst res) /\
  (forall m, m ∈ fst res -> exists key f, f ∈ held d key (snd res) /\ msg f = m).
Proof.
  intros Hd Hc Hnow. cbv zeta. destruct (Snapshot d now (run ops NewLiveFrameBuffer)) as [out b'] eqn:E.
  cbn [fst snd].
  assert (out = concat (map (fun ks => map msg (frames ks.2))
    (map_to_list (default ∅ (buckets b' !! d))))) as Hout.
  { unfold Snapshot in E. rewrite bool_decide_eq_false_2 in E by done.
    destruct (buckets (run ops NewLiveFrameBuffer) !! d) as [bucket|] eqn:Eb; injection E as <- <-.
    - simpl. by rewrite lookup_insert_eq.
    - by rewrite Eb. }
  split.
  - intros key. pose proof (tracks_run d key [] t0 ops _ (tracks_new d key t0) Hc) as Htr.
    pose proof (tracks_exec d key _ _ (OSnapshot d now) _ Htr Hnow) as Htr'.
    split.
    + simpl in Htr. pose proof (Snapshot_session d now d key (run ops NewLiveFrameBuffer)) as Hs.
      rewrite bool_decide_eq_true_2 in Hs by done.
      eapply tracks_trim_only; [exact Htr|done| |by rewrite <- Hs, E].
      apply tr_standard in Htr'. cbn [exec] in Htr'. by rewrite E in Htr'.
    + rewrite Hout. unfold held, session_of.
      destruct (default ∅ (buckets b' !! d) !! key) as [s|] eqn:Es; simpl; [|apply sublist_nil_l].
      apply elem_of_map_to_list, list_elem_of_split in Es as (l1 & l2 & ->).
      rewrite map_app, concat_app. simpl. by apply sublist_inserts_l, sublist_inserts_r.
  - intros m. rewrite Hout. intros Hm.
    apply list_elem_of_In, in_concat in Hm as (ms & Hms & Hm).
    apply in_map_iff in Hms as ([key s] & <- & Hks). apply in_map_iff in Hm as (f & Hf & Hin).
    exists key, f. split; [|done]. apply list_elem_of_In in Hks, Hin.
    apply elem_of_map_to_list in Hks. unfold held, session_of. by rewrite Hks.
Qed.

(** Interest: a device is reported for a session exactly when it last showed
    interest in it (watching it, or being delivered an event of it) at most
    ten minutes ago, whenever the collector ran in between. *)
Theorem InterestedDevices_iff d bk s ops t0 now :
  clock_from t0 ops -> clock_after t0 ops <= now ->
  d ∈ InterestedDevices bk s now (run ops NewLiveFrameBuffer) <->
  exists t, last_interest d (sessionKey bk s) ops = Some t /\ now - t <= liveInterestMaxAge.
Proof.
  intros Hc Hnow.
  pose proof (interest_run d (sessionKey bk s) ops t0 None NewLiveFrameBuffer now) as Hr.
  etransitivity; [apply (list_elem_of_fmap fst)|]. fold (last_interest d (sessionKey bk s) ops) in Hr.
  assert ((exists t, last_interest d (sessionKey bk s) ops = Some t /\ now - t <= liveInterestMaxAge) <->
    recent now (entry d (sessionKey bk s) (run ops NewLiveFrameBuffer)) = true) as ->.
  { rewrite Hr by done. destruct (last_interest _ _ _) as [t|]; simpl; [|naive_solver].
    rewrite Z.leb_le. naive_solver. }
  unfold entry. split.
  - intros ([d' m] & -> & Hin). apply list_elem_of_filter in Hin as [Hrec Hin].
    apply elem_of_map_to_list in Hin. simpl in *. by rewrite Hin.
  - destruct (interest (run ops NewLiveFrameBuffer) !! d) as [m|] eqn:E; [|done].
    intros Hrec. exists (d, m). split; [done|]. apply list_elem_of_filter.
    split; [done|]. by apply elem_of_map_to_list.
Qed.

Definition wit_message (event : string) (seq : Z) : EventMessage :=
  mkEventMessage "event" "e" seq seq "epoch" "s" "codex" event VNil "" true 0.

Definition wit_ops : list op :=
  [OAppend ["d"; "other"] (wit_message "text_delta" 1) 0;
   OAppend ["d"] (wit_message "not_bufferable" 2) (10 * second);
   OGc (20 * second); OAppend ["d"] (wit_message "turn_completed" 3) (50 * second)].

Lemma Snapshot_window_witness :
  map Seq (fst (Snapshot "d" (70 * second) (run wit_ops NewLiveFrameBuffer))) = [3] /\
  let b' := snd (Snapshot "d" (70 * second) (run wit_ops NewLiveFrameBuffer)) in
  is_window (70 * second) (log "d" (sessionKey "codex" "s") wit_ops) (held "d" (sessionKey "codex" "s") b').
Proof.
  split; [vm_compute; reflexivity|]. cbv zeta.
  assert (clock_from 0 wit_ops) as Hc by (vm_compute; repeat split; discriminate).
  assert ("d" <> "") as Hd by discriminate.
  assert (clock_after 0 wit_ops <= 70 * second) as Hn by (vm_compute; discriminate).
  exact (proj1 (proj1 (Snapshot_window "d" wit_ops 0 (70 * second) Hd Hc Hn) (sessionKey "codex" "s"))).
Defined.

Lemma InterestedDevices_iff_witness :
  "d" ∈ InterestedDevices "codex" "s" (10 * minute) (run wit_ops NewLiveFrameBuffer).
Proof.
  apply (InterestedDevices_iff "d" "codex" "s" wit_ops 0 (10 * minute)).
  - vm_compute. repeat split; discriminate.
  - vm_compute. discriminate.
  - exists (50 * second). split; [vm_compute; reflexivity|]. vm_compute. discriminate.
Defined.
