(* ===== verification/DeltaBatcher.v ===== *)
(** * The delta batcher (go-bridge/delta_batcher.go)

    Text and reasoning deltas of one stream are joined for up to 33 ms; every
    other event first flushes its stream. [PublishLogical] is represented by the
    list of the events published. [Send], [flushKey] and [FlushAll] are functions
    on the batcher; [Race] splits [FlushAll] where it releases the
    mutex. *)

From S2P Require Import Prelude.
From S2P Require Import Wire.

Definition deltaBatchFlushInterval : Z := 33 * millisecond.
Definition deltaBatchMaxPendingBytes : Z := 256 * 1024.

(** [LogicalEvent] (event_publisher.go). Connections are identified by numbers;
    a push intent is opaque. *)
Record LogicalEvent : Type := mkEvent {
  le_BackendID : string;
  le_SessionID : string;
  le_Directory : string;
  le_Event : string;
  le_Data : value;
  le_Message : string;
  le_Broadcast : bool;
  le_Targets : list nat;
  le_WaitTargets : list nat;
  le_Offline : bool;
  le_ClassHint : Z;
  le_CatalogGeneration : Z;
  le_PushIntent : option string
}.

Record deltaChunk : Type := mkChunk {
  eventType : string;
  text : string;
  itemID : string;
  turnID : string
}.

Record deltaAccum : Type := mkAccum {
  a_backendID : string;
  a_sessionID : string;
  a_directory : string;
  a_broadcast : bool;
  a_targets : list nat;
  a_waitTargets : list nat;
  a_offline : bool;
  chunks : list deltaChunk;
  totalBytes : Z
}.

(** The streams being batched, and what was published, in order. *)
Record DeltaBatcher : Type := mkBatcher {
  accums : gmap SubscriptionKey deltaAccum;
  published : list LogicalEvent
}.

Definition NewDeltaBatcher : DeltaBatcher := mkBatcher ∅ [].

(** [m[k].(string)] on a dynamic value, the empty string otherwise. *)
Definition extract (k : string) (data : value) : string :=
  match data with
  | VMap fields => match value_field k fields with Some (VString s) => s | _ => "" end
  | _ => ""
  end.

Definition extractDeltaText (data : value) : string := extract "delta" data.
Definition extractDeltaItemID (data : value) : string := extract "itemId" data.
Definition extractDeltaTurnID (data : value) : string := extract "turnId" data.

Definition key_of (ev : LogicalEvent) : SubscriptionKey :=
  mkSubscriptionKey (le_BackendID ev) (le_SessionID ev) (le_Directory ev).

(** [if c.itemID != "" { data["itemId"] = ... }] *)
Definition optional_field (k v : string) : list (string * value) :=
  if bool_decide (v = "") then [] else [(k, VString v)].

(** The event [emit] publishes for a chunk. *)
Definition chunk_event (a : deltaAccum) (c : deltaChunk) : LogicalEvent :=
  mkEvent (a_backendID a) (a_sessionID a) (a_directory a) (eventType c)
    (VMap ([("delta", VString (text c))] ++ optional_field "itemId" (itemID c) ++
           optional_field "turnId" (turnID c)))
    "" (a_broadcast a) (a_targets a) (a_waitTargets a) (a_offline a) 0 0 None.

Definition emit (a : deltaAccum) : list LogicalEvent :=
  map (chunk_event a) (filter (fun c => text c <> "") (chunks a)).

Definition publish (evs : list LogicalEvent) (d : DeltaBatcher) : DeltaBatcher :=
  mkBatcher (accums d) (published d ++ evs).

Definition flushKey (key : SubscriptionKey) (d : DeltaBatcher) : DeltaBatcher :=
  match accums d !! key with
  | None => d
  | Some a => publish (emit a) (mkBatcher (delete key (accums d)) (published d))
  end.

(** The streams taken by [FlushAll], in the iteration order of the map. *)
Definition pending_all (d : DeltaBatcher) : list deltaAccum := map snd (map_to_list (accums d)).

Definition FlushAll (d : DeltaBatcher) : DeltaBatcher :=
  publish (concat (map emit (pending_all d))) (mkBatcher ∅ (published d)).

(** The chunks after a delta: joined to the last one of the same kind and
    attribution. *)
Fixpoint add_chunk (c : deltaChunk) (cs : list deltaChunk) : list deltaChunk :=
  match cs with
  | [] => [c]
  | [l] =>
      if bool_decide (eventType l = eventType c /\ itemID l = itemID c /\ turnID l = turnID c)
      then [mkChunk (eventType l) (String.append (text l) (text c)) (itemID l) (turnID l)]
      else [l; c]
  | l :: cs => l :: add_chunk c cs
  end.

Definition byte_length (s : string) : Z := Z.of_nat (String.length s).

Definition is_delta (name : string) : bool :=
  bool_decide (name = "text_delta") || bool_decide (name = "reasoning_delta").

(** [None] when the event is not accumulated. *)
Definition tryAccumulate (ev : LogicalEvent) (d : DeltaBatcher) : option DeltaBatcher :=
  if negb (is_delta (le_Event ev)) then None
  else
    let deltaStr := extractDeltaText (le_Data ev) in
    if bool_decide (deltaStr = "") then None
    else
      let key := key_of ev in
      let a := default (mkAccum (le_BackendID ev) (le_SessionID ev) (le_Directory ev) (le_Broadcast ev)
                          (le_Targets ev) (le_WaitTargets ev) (le_Offline ev) [] 0) (accums d !! key) in
      let c := mkChunk (le_Event ev) deltaStr (extractDeltaItemID (le_Data ev))
                 (extractDeltaTurnID (le_Data ev)) in
      let a := mkAccum (a_backendID a) (a_sessionID a) (a_directory a) (a_broadcast a) (a_targets a)
                 (a_waitTargets a) (a_offline a) (add_chunk c (chunks a))
                 (totalBytes a + byte_length deltaStr) in
      let d := mkBatcher (<[key := a]> (accums d)) (published d) in
      Some (if totalBytes a >=? deltaBatchMaxPendingBytes then flushKey key d else d).

Definition Send (ev : LogicalEvent) (d : DeltaBatcher) : DeltaBatcher :=
  match tryAccumulate ev d with
  | Some d => d
  | None => publish [ev] (flushKey (key_of ev) d)
  end.

(** [Stop] ends by flushing every stream. *)
Definition Stop (d : DeltaBatcher) : DeltaBatcher := FlushAll d.

(** ** Executions *)

Inductive op : Type := OSend (ev : LogicalEvent) | OTick.

Definition exec (o : op) (d : DeltaBatcher) : DeltaBatcher :=
  match o with OSend ev => Send ev d | OTick => FlushAll d end.

Definition run (ops : list op) (d : DeltaBatcher) : DeltaBatcher :=
  fold_left (fun d o => exec o d) ops d.

(** ** The ticker against a sender

    [FlushAll] takes every accumulator under the mutex and emits them after
    releasing it; a [Send] of another goroutine may run in between. *)

Record Race : Type := mkRace {
  batcher : DeltaBatcher;
  taken : list deltaAccum                (* [pending] of a running [FlushAll] *)
}.

Inductive race_step : Race -> Race -> Prop :=
| race_send ev d p : race_step (mkRace d p) (mkRace (Send ev d) p)
| race_take d : race_step (mkRace d []) (mkRace (mkBatcher ∅ (published d)) (pending_all d))
| race_emit d a p : race_step (mkRace d (a :: p)) (mkRace (publish (emit a) d) p).

(** ** Streams *)

(** What a client receives: each character of a delta with its kind, item and
    turn, and each other event as it is. *)
Inductive unit_ : Type :=
| UChar (kind item turn : string) (c : Ascii.ascii)
| UEvent (ev : LogicalEvent).

Definition chars (kind item turn s : string) : list unit_ :=
  map (UChar kind item turn) (String.list_ascii_of_string s).

Definition units (ev : LogicalEvent) : list unit_ :=
  if is_delta (le_Event ev) && negb (bool_decide (extractDeltaText (le_Data ev) = ""))
  then chars (le_Event ev) (extractDeltaItemID (le_Data ev)) (extractDeltaTurnID (le_Data ev))
         (extractDeltaText (le_Data ev))
  else [UEvent ev].

(** The stream of one key in a sequence of events. *)
Definition stream (key : SubscriptionKey) (evs : list LogicalEvent) : list unit_ :=
  concat (map units (filter (fun ev => key_of ev = key) evs)).

Definition sent (ops : list op) : list LogicalEvent :=
  concat (map (fun o => match o with OSend ev => [ev] | OTick => [] end) ops).

Definition chunk_units (c : deltaChunk) : list unit_ :=
  chars (eventType c) (itemID c) (turnID c) (text c).

(** What waits for one key. *)
Definition waiting (key : SubscriptionKey) (d : DeltaBatcher) : list unit_ :=
  match accums d !! key with Some a => concat (map chunk_units (chunks a)) | None => [] end.

Lemma list_ascii_append s1 s2 :
  String.list_ascii_of_string (String.append s1 s2) =
  String.list_ascii_of_string s1 ++ String.list_ascii_of_string s2.
Proof. induction s1 as [|c s1 IH]; simpl; [done|]. by rewrite IH. Qed.

Lemma chars_append k i t s1 s2 : chars k i t (String.append s1 s2) = chars k i t s1 ++ chars k i t s2.
Proof. unfold chars. by rewrite list_ascii_append, map_app. Qed.

Lemma byte_length_append s1 s2 : byte_length (String.append s1 s2) = byte_length s1 + byte_length s2.
Proof. unfold byte_length. induction s1 as [|c s1 IH]; simpl in *; [done|]. lia. Qed.

Lemma stream_app key l1 l2 : stream key (l1 ++ l2) = stream key l1 ++ stream key l2.
Proof. unfold stream. by rewrite filter_app, map_app, concat_app. Qed.

Lemma stream_concat key ls : stream key (concat ls) = concat (map (stream key) ls).
Proof. induction ls as [|l ls IH]; simpl; [done|]. by rewrite stream_app, IH. Qed.

Lemma stream_one key ev : stream key [ev] = if bool_decide (key_of ev = key) then units ev else [].
Proof.
  unfold stream. rewrite filter_cons, filter_nil. case_decide; case_bool_decide; simpl; try done.
  by rewrite app_nil_r.
Qed.

(** ** Chunks *)

(** A chunk the batcher may hold. *)
Definition chunk_ok (c : deltaChunk) : Prop := is_delta (eventType c) = true /\ text c <> "".

Lemma append_nonempty s1 s2 : s1 <> "" -> String.append s1 s2 <> "".
Proof. by destruct s1. Qed.

Lemma add_chunk_spec c cs :
  chunk_ok c -> Forall chunk_ok cs ->
  Forall chunk_ok (add_chunk c cs) /\
  concat (map chunk_units (add_chunk c cs)) = concat (map chunk_units cs) ++ chunk_units c /\
  sum_with (fun c => byte_length (text c)) (add_chunk c cs) =
    sum_with (fun c => byte_length (text c)) cs + byte_length (text c).
Proof.
  intros Hc Hcs. induction Hcs as [|l cs [Hl Ht] Hcs (IH1 & IH2 & IH3)]; cbn [add_chunk].
  { simpl. rewrite app_nil_r. split; [by constructor|]. split; [done|lia]. }
  destruct cs as [|l' cs].
  - case_bool_decide as Hs.
    + destruct Hs as (E1 & E2 & E3). simpl. rewrite !app_nil_r.
      split; [constructor; [split; [done|by apply append_nonempty]|constructor]|].
      split; [unfold chunk_units; simpl; rewrite chars_append; congruence|].
      rewrite byte_length_append. lia.
    + simpl. rewrite !app_nil_r. split; [constructor; [by split|constructor; [done|constructor]]|]. split; [done|lia].
  - split; [by constructor|]. simpl in *. rewrite IH2, IH3, app_assoc. split; [done|lia].
Qed.

(** The event of a chunk carries the chunk. *)
Lemma chunk_event_units a c : chunk_ok c -> units (chunk_event a c) = chunk_units c.
Proof.
  intros [Hd Ht]. unfold units, chunk_units, chunk_event. cbn [le_Event le_Data]. rewrite Hd.
  assert (extractDeltaText (VMap ([("delta", VString (text c))] ++ optional_field "itemId" (itemID c) ++
    optional_field "turnId" (turnID c))) = text c) as -> by done.
  rewrite bool_decide_eq_false_2 by done. cbn [andb negb]. f_equal.
  - unfold extractDeltaItemID, extract, optional_field. simpl.
    destruct (decide (itemID c = "")) as [E|E].
    + rewrite (bool_decide_eq_true_2 _ E). simpl. by case_bool_decide.
    + by rewrite (bool_decide_eq_false_2 _ E).
  - unfold extractDeltaTurnID, extract, optional_field. simpl.
    destruct (decide (itemID c = "")) as [E|E];
      [rewrite (bool_decide_eq_true_2 _ E)|rewrite (bool_decide_eq_false_2 _ E)]; simpl;
      by case_bool_decide.
Qed.

(** ** Invariant *)

Record accum_ok (key : SubscriptionKey) (a : deltaAccum) : Prop := {
  acc_key : mkSubscriptionKey (a_backendID a) (a_sessionID a) (a_directory a) = key;
  acc_chunks : Forall chunk_ok (chunks a);
  acc_bytes : totalBytes a = sum_with (fun c => byte_length (text c)) (chunks a)
}.

Definition batcher_ok (d : DeltaBatcher) : Prop :=
  forall key a, accums d !! key = Some a -> accum_ok key a /\ totalBytes a < deltaBatchMaxPendingBytes.

Lemma emit_stream key key' a :
  accum_ok key' a ->
  stream key (emit a) = if bool_decide (key' = key) then concat (map chunk_units (chunks a)) else [].
Proof.
  intros [Hk Hc _]. unfold emit. rewrite (filter_all _ (chunks a))
    by (eapply Forall_impl; [exact Hc|]; by intros c []).
  clear - Hk Hc. induction Hc as [|c cs Hc _ IH]; simpl; [by case_bool_decide|].
  change (chunk_event a c :: map (chunk_event a) cs) with ([chunk_event a c] ++ map (chunk_event a) cs).
  rewrite stream_app, IH, stream_one.
  change (key_of (chunk_event a c)) with
    (mkSubscriptionKey (a_backendID a) (a_sessionID a) (a_directory a)). rewrite Hk.
  case_bool_decide; [by rewrite chunk_event_units|done].
Qed.

Lemma flushKey_spec key key' d :
  (forall a, accums d !! key' = Some a -> accum_ok key' a) ->
  stream key (published (flushKey key' d)) =
    stream key (published d) ++ (if bool_decide (key' = key) then waiting key d else []) /\
  waiting key (flushKey key' d) = if bool_decide (key' = key) then [] else waiting key d.
Proof.
  intros Hok. unfold flushKey. destruct (accums d !! key') as [a|] eqn:E.
  - simpl. rewrite stream_app, (emit_stream key key' a (Hok a eq_refl)). unfold waiting. simpl.
    case_bool_decide as Hk; [subst; by rewrite E, lookup_delete_eq|by rewrite lookup_delete_ne].
  - unfold waiting. case_bool_decide as Hk; [subst; rewrite E|]; by rewrite app_nil_r.
Qed.

Lemma flushKey_ok key d : batcher_ok d -> batcher_ok (flushKey key d).
Proof.
  intros Hok. unfold flushKey. destruct (accums d !! key); [|done].
  intros k a'. simpl. intros [_ Hl]%lookup_delete_Some. by apply Hok.
Qed.

Lemma flush_all_stream key d :
  batcher_ok d -> stream key (concat (map emit (pending_all d))) = waiting key d.
Proof.
  intros Hok. rewrite stream_concat, map_map. unfold pending_all. rewrite map_map.
  assert (forall l : list (SubscriptionKey * deltaAccum),
    (forall ka, ka ∈ l -> accum_ok ka.1 ka.2) -> NoDup (map fst l) ->
    concat (map (fun ka => stream key (emit ka.2)) l) =
    match (list_to_map l : gmap SubscriptionKey deltaAccum) !! key with
    | Some a => concat (map chunk_units (chunks a)) | None => [] end) as Hall.
  { induction l as [|[k a] l IH]; intros Hl Hnd; simpl; [by rewrite lookup_empty|].
    apply NoDup_cons in Hnd as [Hk Hnd].
    rewrite (emit_stream key k a) by (apply (Hl (k, a)); by left).
    rewrite IH by (done || (intros; apply Hl; by right)). case_bool_decide as He.
    - subst k. rewrite lookup_insert_eq, not_elem_of_list_to_map_1 by done. by rewrite app_nil_r.
    - by rewrite lookup_insert_ne. }
  rewrite (Hall (map_to_list (accums d))).
  - by rewrite list_to_map_to_list.
  - intros [k a] Hin%elem_of_map_to_list. by apply Hok.
  - apply NoDup_fst_map_to_list.
Qed.

(** ** Sending *)

(** The accumulator a delta goes to, with it. *)
Definition accumulated (ev : LogicalEvent) (d : DeltaBatcher) : deltaAccum :=
  let a := default (mkAccum (le_BackendID ev) (le_SessionID ev) (le_Directory ev) (le_Broadcast ev)
                      (le_Targets ev) (le_WaitTargets ev) (le_Offline ev) [] 0)
             (accums d !! key_of ev) in
  mkAccum (a_backendID a) (a_sessionID a) (a_directory a) (a_broadcast a) (a_targets a)
    (a_waitTargets a) (a_offline a)
    (add_chunk (mkChunk (le_Event ev) (extractDeltaText (le_Data ev)) (extractDeltaItemID (le_Data ev))
                  (extractDeltaTurnID (le_Data ev))) (chunks a))
    (totalBytes a + byte_length (extractDeltaText (le_Data ev))).

Lemma accumulated_ok ev d :
  batcher_ok d -> is_delta (le_Event ev) = true -> extractDeltaText (le_Data ev) <> "" ->
  accum_ok (key_of ev) (accumulated ev d) /\
  concat (map chunk_units (chunks (accumulated ev d))) = waiting (key_of ev) d ++ units ev.
Proof.
  intros Hok Hd Ht. unfold accumulated, waiting.
  assert (accum_ok (key_of ev) (default (mkAccum (le_BackendID ev) (le_SessionID ev) (le_Directory ev)
    (le_Broadcast ev) (le_Targets ev) (le_WaitTargets ev) (le_Offline ev) [] 0)
    (accums d !! key_of ev))) as Ha.
  { destruct (accums d !! key_of ev) as [a|] eqn:E; simpl; [by apply Hok|]. split; [done|constructor|done]. }
  assert (units ev = chunk_units (mkChunk (le_Event ev) (extractDeltaText (le_Data ev))
    (extractDeltaItemID (le_Data ev)) (extractDeltaTurnID (le_Data ev)))) as ->.
  { unfold units. by rewrite Hd, bool_decide_eq_false_2 by done. }
  assert (match accums d !! key_of ev with Some a => concat (map chunk_units (chunks a)) | None => [] end =
    concat (map chunk_units (chunks (default (mkAccum (le_BackendID ev) (le_SessionID ev) (le_Directory ev)
    (le_Broadcast ev) (le_Targets ev) (le_WaitTargets ev) (le_Offline ev) [] 0)
    (accums d !! key_of ev))))) as -> by by destruct (accums d !! key_of ev).
  destruct Ha as [H1 H2 H3].
  generalize dependent (default (mkAccum (le_BackendID ev) (le_SessionID ev) (le_Directory ev)
    (le_Broadcast ev) (le_Targets ev) (le_WaitTargets ev) (le_Offline ev) [] 0) (accums d !! key_of ev)).
  intros a H1 H2 H3. cbv zeta. cbn [chunks].
  destruct (add_chunk_spec (mkChunk (le_Event ev) (extractDeltaText (le_Data ev))
    (extractDeltaItemID (le_Data ev)) (extractDeltaTurnID (le_Data ev))) (chunks a)) as (G1 & G2 & G3);
    [by split|done|].
  split; [split; [done|done|]|done]. cbn [totalBytes chunks]. rewrite G3. simpl. lia.
Qed.

Lemma tryAccumulate_unfold ev d :
  tryAccumulate ev d =
  if is_delta (le_Event ev) && negb (bool_decide (extractDeltaText (le_Data ev) = "")) then
    let d' := mkBatcher (<[key_of ev := accumulated ev d]> (accums d)) (published d) in
    Some (if totalBytes (accumulated ev d) >=? deltaBatchMaxPendingBytes then flushKey (key_of ev) d'
          else d')
  else None.
Proof.
  unfold tryAccumulate, accumulated. destruct (is_delta (le_Event ev)); simpl; [|done].
  by case_bool_decide.
Qed.

(** Nothing is lost, repeated or reordered in any stream by one call. *)
Lemma Send_spec ev d key :
  batcher_ok d ->
  batcher_ok (Send ev d) /\
  stream key (published (Send ev d)) ++ waiting key (Send ev d) =
    (stream key (published d) ++ waiting key d) ++ stream key [ev].
Proof.
  intros Hok. unfold Send. rewrite tryAccumulate_unfold, stream_one.
  destruct (is_delta (le_Event ev) && negb (bool_decide (extractDeltaText (le_Data ev) = ""))) eqn:Hd.
  - apply andb_prop in Hd as [Hd Ht%negb_true_iff%bool_decide_eq_false].
    destruct (accumulated_ok ev d Hok Hd Ht) as [Ha Hu]. cbv zeta.
    set (d' := mkBatcher (<[key_of ev := accumulated ev d]> (accums d)) (published d)).
    assert (stream key (published d') ++ waiting key d' =
      (stream key (published d) ++ waiting key d) ++
      (if bool_decide (key_of ev = key) then units ev else [])) as Hs.
    { unfold waiting at 1. simpl. rewrite <- app_assoc. f_equal. case_bool_decide as Hk.
      - subst key. by rewrite lookup_insert_eq.
      - by rewrite lookup_insert_ne, app_nil_r. }
    case_if.
    + destruct (flushKey_spec key (key_of ev) d') as [H1 H2].
      { intros a. simpl. rewrite lookup_insert_eq. by intros [= <-]. }
      rewrite H1, H2, <- Hs. split; [|case_bool_decide; by rewrite ?app_nil_r].
      intros k a. unfold flushKey. simpl. rewrite lookup_insert_eq. simpl.
      intros [Hk Hl]%lookup_delete_Some. rewrite lookup_insert_ne in Hl by done. by apply Hok.
    + split; [|done]. intros k a. simpl. destruct (decide (key_of ev = k)) as [<-|Hk].
      * rewrite lookup_insert_eq. intros [= <-]. zprop. by split.
      * rewrite lookup_insert_ne by done. by apply Hok.
  - destruct (flushKey_spec key (key_of ev) d) as [H1 H2]; [intros; by apply Hok|].
    split; [by apply (flushKey_ok (key_of ev) d)|].
    unfold waiting at 1. simpl. fold (waiting key (flushKey (key_of ev) d)).
    rewrite stream_app, stream_one, H1, H2.
    case_bool_decide; rewrite ?app_nil_r, <- ?app_assoc; done.
Qed.

Lemma FlushAll_spec d key :
  batcher_ok d ->
  batcher_ok (FlushAll d) /\
  stream key (published (FlushAll d)) = stream key (published d) ++ waiting key d /\
  waiting key (FlushAll d) = [].
Proof.
  intros Hok. unfold FlushAll. split; [|split].
  - intros k a. simpl. by rewrite lookup_empty.
  - simpl. by rewrite stream_app, flush_all_stream.
  - unfold waiting. simpl. by rewrite lookup_empty.
Qed.

Lemma run_stream ops d key :
  batcher_ok d ->
  batcher_ok (run ops d) /\
  stream key (published (run ops d)) ++ waiting key (run ops d) =
    (stream key (published d) ++ waiting key d) ++ stream key (sent ops).
Proof.
  revert d. induction ops as [|o ops IH]; intros d Hok; simpl.
  { split; [done|]. change (stream key (sent [])) with (@nil unit_). by rewrite app_nil_r. }
  unfold sent. simpl. rewrite stream_app. fold (sent ops). destruct o as [ev|]; simpl.
  - destruct (Send_spec ev d key Hok) as [H1 H2]. destruct (IH _ H1) as [H3 H4].
    split; [done|]. by rewrite H4, H2, <- app_assoc.
  - destruct (FlushAll_spec d key Hok) as (H1 & H2 & H3). destruct (IH _ H1) as [H4 H5].
    split; [done|]. rewrite H5, H2, H3, app_nil_r. done.
Qed.

(** ** Properties *)

(** Batching is invisible but for the framing: after any calls of [Send] and
    any ticks, the characters and events published for a stream, followed by
    those waiting, are exactly the ones sent, in order, each character with its
    kind, item and turn; after [Stop] nothing waits; and no stream ever holds
    256 KiB. *)
Theorem batcher_stream ops key :
  let d := run ops NewDeltaBatcher in
  stream key (published d) ++ waiting key d = stream key (sent ops) /\
  stream key (published (Stop d)) = stream key (sent ops) /\
  forall a, accums d !! key = Some a ->
    sum_with (fun c => byte_length (text c)) (chunks a) < deltaBatchMaxPendingBytes.
Proof.
  assert (batcher_ok NewDeltaBatcher) as H0 by (intros k a; simpl; by rewrite lookup_empty).
  destruct (run_stream ops NewDeltaBatcher key H0) as [Hok Hs].
  cbv zeta. split; [exact Hs|]. split.
  - unfold Stop. destruct (FlushAll_spec _ key Hok) as (_ & -> & _). exact Hs.
  - intros a Ha. destruct (Hok key a Ha) as [[_ _ Hb] Hlt]. lia.
Qed.

Section Overtaking.
Context (ev1 ev2 : LogicalEvent).
Hypothesis delta1 : is_delta (le_Event ev1) = true.
Hypothesis text1 : extractDeltaText (le_Data ev1) <> "".
Hypothesis small1 : byte_length (extractDeltaText (le_Data ev1)) < deltaBatchMaxPendingBytes.
Hypothesis control2 : is_delta (le_Event ev2) = false.
Hypothesis same : key_of ev2 = key_of ev1.

(** The promised order of text before control holds of calls that follow
    each other, not against the ticker: a control event sent while [FlushAll]
    has taken the text and not emitted it yet is published before the text
    that was sent before it. *)
Theorem control_overtakes_text :
  exists r, rtc race_step (mkRace NewDeltaBatcher []) r /\ taken r = [] /\
    stream (key_of ev1) (published (batcher r)) = units ev2 ++ units ev1 /\
    waiting (key_of ev1) (batcher r) = [].
Proof.
  set (d1 := Send ev1 NewDeltaBatcher).
  set (a := accumulated ev1 NewDeltaBatcher).
  assert (batcher_ok NewDeltaBatcher) as H0 by (intros k a'; simpl; by rewrite lookup_empty).
  destruct (accumulated_ok ev1 NewDeltaBatcher H0 delta1 text1) as [Ha Hu].
  assert ((totalBytes a >=? deltaBatchMaxPendingBytes) = false) as Hb.
  { rewrite Z.geb_leb. apply Z.leb_gt. exact small1. }
  assert (d1 = mkBatcher {[key_of ev1 := a]} []) as Hd1.
  { unfold d1, Send. rewrite tryAccumulate_unfold, delta1, (bool_decide_eq_false_2 _ text1).
    cbn [andb negb]. cbv zeta. fold a. by rewrite Hb. }
  exists (mkRace (publish (emit a) (publish [ev2] (mkBatcher ∅ []))) []).
  split; [|split; [done|split]].
  - eapply rtc_l; [apply (race_send ev1)|]. fold d1. rewrite Hd1.
    eapply rtc_l; [apply race_take|]. unfold pending_all. simpl. rewrite map_to_list_singleton. simpl.
    eapply rtc_l; [apply (race_send ev2)|]. unfold Send at 1. rewrite tryAccumulate_unfold, control2.
    cbn [andb]. unfold flushKey. simpl. rewrite lookup_empty.
    eapply rtc_l; [apply race_emit|]. apply rtc_refl.
  - change (stream (key_of ev1) ([ev2] ++ emit a) = units ev2 ++ units ev1). rewrite stream_app. f_equal.
    + rewrite (stream_one _ ev2), bool_decide_eq_true_2 by done. done.
    + rewrite (emit_stream _ _ a Ha), bool_decide_eq_true_2 by done. unfold a. rewrite Hu.
      unfold waiting. simpl. by rewrite lookup_empty.
  - unfold waiting. simpl. by rewrite lookup_empty.
Qed.
End Overtaking.

Definition delta_sample (s : string) : LogicalEvent :=
  mkEvent "codex" "s1" "/w" "text_delta" (VMap [("delta", VString s)]) "" true [] [] false 0 0 None.
Definition done_sample : LogicalEvent :=
  mkEvent "codex" "s1" "/w" "turn_completed" VNil "" true [] [] false 0 0 None.

Lemma control_overtakes_text_witness :
  exists r, rtc race_step (mkRace NewDeltaBatcher []) r /\ taken r = [] /\
    stream (key_of (delta_sample "hi")) (published (batcher r)) =
      units done_sample ++ units (delta_sample "hi") /\
    waiting (key_of (delta_sample "hi")) (batcher r) = [].
Proof. apply (control_overtakes_text (delta_sample "hi") done_sample); done. Defined.
