(* ===== verification/RelayClass.v ===== *)
(** * Relay traffic classes (go-bridge/relay_outbound_writer.go)

    The priority classes of relay traffic and the classifiers that the inbound
    scheduler and the outbound writer share. *)

From S2P Require Import Prelude.

(** [relayOutboundClass]: an unsigned byte numbered by [iota]. *)
Definition relayOutboundControl : Z := 0.
Definition relayOutboundInteractive : Z := 1.
Definition relayOutboundMetadata : Z := 2.
Definition relayOutboundNormal : Z := 3.
Definition relayOutboundBulk : Z := 4.
Definition relayOutboundClassCount : Z := 5.

(** [for class := relayOutboundControl; class < relayOutboundClassCount; class++] *)
Definition all_classes : list Z :=
  [relayOutboundControl; relayOutboundInteractive; relayOutboundMetadata; relayOutboundNormal;
   relayOutboundBulk].

Definition one_of (s : string) (l : list string) : bool := bool_decide (s ∈ l).

Definition classifyRelayRequest (method : string) : Z :=
  if one_of method ["hello"; "ping"; "abort_generation"; "recovery_applied"] then relayOutboundControl
  else if one_of method ["send_message"; "resolve_permission"; "permission_response";
                         "question_reply"; "question_reject"] then relayOutboundInteractive
  else if one_of method ["list_models"; "list_permission_modes"; "get_git_context"; "get_todos";
                         "list_agents"; "list_providers"; "set_agent_preset"] then relayOutboundMetadata
  else if one_of method ["get_session_messages"; "get_session_projection";
                         "get_session_projection_window"; "get_session_projection_window_v2";
                         "get_session_projection_anchor_newer"] then relayOutboundBulk
  else if one_of method ["read_file_v2"] then relayOutboundBulk
  else relayOutboundNormal.

Definition classifyRelayEvent (event : string) : Z :=
  if one_of event ["recovery_barrier"; "recovery_complete"; "sync_invalidate"] then relayOutboundControl
  else if one_of event ["text_delta"; "thinking_delta"; "tool_content"; "message_content";
                        "user_message"; "turn_started"; "turn_completed"; "permission_asked";
                        "question_asked"; "projection_patch"; "projection_snapshot"]
  then relayOutboundInteractive
  else if one_of event ["session_updated"; "session_state_changed"; "session_status";
                        "todos_updated"; "permission_mode_changed"; "model_changed";
                        "git_branch_changed"] then relayOutboundMetadata
  else relayOutboundNormal.

(** [decode_header] is [json.Unmarshal] into the header: the type and the event,
    [None] for an error. *)
Definition classifyRelayPayload (decode_header : string -> option (string * string))
    (payload : string) : Z :=
  match decode_header payload with
  | None => relayOutboundNormal
  | Some (type, event) =>
      if one_of type ["hello_ack"; "hello_error"; "ping"; "pong"; "recovery_barrier";
                      "recovery_complete"; "bridge_current_urls"] then relayOutboundControl
      else if one_of type ["event"] then classifyRelayEvent event
      else relayOutboundNormal
  end.

(** The first answer of a search over a list, as a loop with an early return. *)
Fixpoint first_some {A B : Type} (f : A -> option B) (l : list A) : option B :=
  match l with
  | [] => None
  | x :: l => match f x with Some y => Some y | None => first_some f l end
  end.

Lemma first_some_None {A B : Type} (f : A -> option B) l :
  first_some f l = None <-> forall x, x ∈ l -> f x = None.
Proof.
  induction l as [|x l IH]; simpl; [set_solver|].
  destruct (f x) as [y|] eqn:E.
  - split; [done|]. intros Hall. by rewrite <- E, (Hall x) by left.
  - rewrite IH. split; [|set_solver]. intros Hl z [->|Hz]%elem_of_cons; auto.
Qed.

Lemma first_some_Some {A B : Type} (f : A -> option B) l y :
  first_some f l = Some y ->
  exists l1 x l2, l = l1 ++ x :: l2 /\ f x = Some y /\ forall z, z ∈ l1 -> f z = None.
Proof.
  induction l as [|x l IH]; simpl; [done|]. destruct (f x) as [y'|] eqn:E.
  - intros [= ->]. exists [], x, l. set_solver.
  - intros (l1 & x' & l2 & -> & Hf & Hl)%IH. exists (x :: l1), x', l2. split_and!; [done|done|].
    intros z [->|Hz]%elem_of_cons; auto.
Qed.

Lemma class_of_request method : classifyRelayRequest method ∈ all_classes.
Proof.
  unfold classifyRelayRequest, all_classes. repeat case_if; repeat (left; done) || set_solver.
Qed.
