(* ===== verification/InboundScheduler.v ===== *)
(** * The relay inbound scheduler (go-bridge/relay_inbound_scheduler.go)

    One executor per device: messages queue per session in the order of arrival,
    the queue heads compete by class, and a newer [get_session_messages] request
    replaces the pending ones of its session. The two decodings of JSON are
    parameters. [relayInboundScheduler] is the state the mutex protects; [System]
    adds the goroutines: the callers between unlocking and signalling, and the
    worker of [run]. *)

From S2P Require Import Prelude.
From S2P Require Import RelayClass.

Definition relayInboundQueueFrames : Z := 256.
Definition relayInboundQueueBytes : Z := Z.shiftl 8 20.
Definition relayInboundDeviceFIFO : string := "__device_fifo__".

(** [WireMessage] (types.go): the fields the scheduler reads, and the others. *)
Record WireMessage : Type := mkWire {
  wm_Type : string;
  wm_RequestID : string;
  wm_SessionID : string;
  wm_Method : string;
  wm_Params : string;
  wm_rest : string
}.

Record relayInboundJob : Type := mkJob {
  raw : string;
  message : WireMessage;
  sessionKey : string;
  class : Z
}.

(** The calls of [onHistory] and [onSupersede]. *)
Inductive callback : Type :=
| OnHistory (sessionID requestID : string)
| OnSupersede (requestID : string).

Record relayInboundScheduler : Type := mkScheduler {
  queues : gmap string (list relayInboundJob);
  keys : list string;
  cursor : Z;
  frames : Z;
  bytes : Z;
  wake : bool;                          (* the channel of capacity one *)
  stopped : bool;                       (* [stop] is closed *)
  callbacks : list callback;
  relayInboundQueueOverflow : Z
}.

Definition newRelayInboundScheduler : relayInboundScheduler :=
  mkScheduler ∅ [] 0 0 0 false false [] 0.

Definition byte_length (s : string) : Z := Z.of_nat (String.length s).

Definition queue_of (s : relayInboundScheduler) (key : string) : list relayInboundJob :=
  default [] (queues s !! key).

Inductive EnqueueError : Type := ErrDecode | ErrClosed | ErrOverflow.

(** [msg.Type == "request" && msg.Method == "get_session_messages"] *)
Definition is_history (msg : WireMessage) : bool :=
  bool_decide (wm_Type msg = "request") && bool_decide (wm_Method msg = "get_session_messages").

(** The loop over the pending jobs of the session: the jobs kept, and the
    counters and callbacks after it. *)
Fixpoint supersede (old : list relayInboundJob) (fr by_ : Z) (cbs : list callback)
  : list relayInboundJob * Z * Z * list callback :=
  match old with
  | [] => ([], fr, by_, cbs)
  | p :: old =>
      if is_history (message p)
      then supersede old (fr - 1) (by_ - byte_length (raw p))
             (cbs ++ [OnSupersede (wm_RequestID (message p))])
      else let '(kept, fr, by_, cbs) := supersede old fr by_ cbs in (p :: kept, fr, by_, cbs)
  end.

Definition close (s : relayInboundScheduler) : relayInboundScheduler :=
  mkScheduler (queues s) (keys s) (cursor s) (frames s) (bytes s) (wake s) true (callbacks s)
    (relayInboundQueueOverflow s).

(** The send on [wake] that follows the critical section. *)
Definition signal (s : relayInboundScheduler) : relayInboundScheduler :=
  mkScheduler (queues s) (keys s) (cursor s) (frames s) (bytes s) true (stopped s) (callbacks s)
    (relayInboundQueueOverflow s).

Definition message_class (msg : WireMessage) : Z :=
  if one_of (wm_Type msg) ["hello"; "ping"; "recovery_applied"] then relayOutboundControl
  else if bool_decide (wm_Type msg = "request") then classifyRelayRequest (wm_Method msg)
  else relayOutboundNormal.

(** The part of [enqueueMessage] before the counters are raised: the pending
    history requests of the session give way to a new one. *)
Definition supersede_pending (key : string) (msg : WireMessage) (s : relayInboundScheduler)
  : relayInboundScheduler :=
  if is_history msg && negb (bool_decide (key = relayInboundDeviceFIFO)) then
    let '(kept, fr, by_, cbs) := supersede (queue_of s key) (frames s) (bytes s) (callbacks s) in
    mkScheduler (<[key := kept]> (queues s)) (keys s) (cursor s) fr by_ (wake s) (stopped s)
      (cbs ++ [OnHistory key (wm_RequestID msg)]) (relayInboundQueueOverflow s)
  else s.

(** The rest of it, for a job there is room for. *)
Definition admit_job (job : relayInboundJob) (s : relayInboundScheduler) : relayInboundScheduler :=
  let key := sessionKey job in
  let keyExisted := bool_decide (is_Some (queues s !! key)) in
  let s := supersede_pending key (message job) s in
  mkScheduler (<[key := queue_of s key ++ [job]]> (queues s))
    (if keyExisted then keys s else keys s ++ [key])
    (cursor s) (frames s + 1) (bytes s + byte_length (raw job)) (wake s) (stopped s) (callbacks s)
    (relayInboundQueueOverflow s).

Section Decoding.
(** [json.Unmarshal] of the [sessionId] of the parameters. *)
Context (decode_sessionId : string -> option string).

Definition relayInboundSessionKey (msg : WireMessage) : string :=
  if bool_decide (wm_SessionID msg <> "") then wm_SessionID msg
  else if bool_decide (wm_Params msg = "") then relayInboundDeviceFIFO
  else match decode_sessionId (wm_Params msg) with
       | Some sid => if bool_decide (sid <> "") then sid else relayInboundDeviceFIFO
       | None => relayInboundDeviceFIFO
       end.

Definition job_of (r : string) (msg : WireMessage) : relayInboundJob :=
  mkJob r msg (relayInboundSessionKey msg) (message_class msg).

(** The critical section of [enqueueMessage]. *)
Definition enqueue_locked (r : string) (msg : WireMessage) (s : relayInboundScheduler)
  : option EnqueueError * relayInboundScheduler :=
  let job := job_of r msg in
  let key := sessionKey job in
  if stopped s then (Some ErrClosed, s)
  else if (frames s + 1 >? relayInboundQueueFrames)
          || (bytes s + byte_length r >? relayInboundQueueBytes) then
    (Some ErrOverflow,
     mkScheduler (queues s) (keys s) (cursor s) (frames s) (bytes s) (wake s) (stopped s)
       (callbacks s) (relayInboundQueueOverflow s + 1))
  else (None, admit_job job s).

Definition enqueueMessage (r : string) (msg : WireMessage) (s : relayInboundScheduler)
  : option EnqueueError * relayInboundScheduler :=
  match enqueue_locked r msg s with
  | (None, s) => (None, signal s)
  | (err, s) => (err, s)
  end.

(** [decode_message] is [json.Unmarshal] of a frame. *)
Definition enqueue (decode_message : string -> option WireMessage) (r : string) (s : relayInboundScheduler)
  : option EnqueueError * relayInboundScheduler :=
  match decode_message r with
  | None => (Some ErrDecode, s)
  | Some msg => enqueueMessage r msg s
  end.

(** One turn of the inner loop of [pop]: the head at an offset from the cursor,
    when it is of the class. *)
Definition pop_at (s : relayInboundScheduler) (c : Z) (offset : nat)
  : option (Z * string * relayInboundJob * list relayInboundJob) :=
  let idx := (cursor s + Z.of_nat offset) mod zlen (keys s) in
  match keys s !! Z.to_nat idx with
  | None => None
  | Some key =>
      match queue_of s key with
      | [] => None
      | job :: rest => if class job =? c then Some (idx, key, job, rest) else None
      end
  end.

Definition pop (s : relayInboundScheduler) : option relayInboundJob * relayInboundScheduler :=
  if (frames s =? 0) || (zlen (keys s) =? 0) then (None, s)
  else
    match first_some (fun c => first_some (pop_at s c) (seq 0 (length (keys s)))) all_classes with
    | None => (None, s)
    | Some (idx, key, job, rest) =>
        (Some job,
         mkScheduler (<[key := rest]> (queues s)) (keys s) ((idx + 1) mod zlen (keys s))
           (frames s - 1) (bytes s - byte_length (raw job)) (wake s) (stopped s) (callbacks s)
           (relayInboundQueueOverflow s))
    end.

(** ** The goroutines *)

Inductive Worker : Type := WIdle | WDraining | WReturned.

Record System : Type := mkSystem {
  sched : relayInboundScheduler;
  worker : Worker;
  signals : nat;                        (* callers about to send on [wake] *)
  accepted : list relayInboundJob;
  dispatched : list relayInboundJob
}.

Definition init : System := mkSystem newRelayInboundScheduler WIdle 0 [] [].

Definition take_wake (s : relayInboundScheduler) : relayInboundScheduler :=
  mkScheduler (queues s) (keys s) (cursor s) (frames s) (bytes s) false (stopped s) (callbacks s)
    (relayInboundQueueOverflow s).

Inductive step : System -> System -> Prop :=
| step_accept s s' w n acc dis r msg :
    enqueue_locked r msg s = (None, s') ->
    step (mkSystem s w n acc dis) (mkSystem s' w (S n) (acc ++ [job_of r msg]) dis)
| step_refuse s s' w n acc dis r msg e :
    enqueue_locked r msg s = (Some e, s') ->
    step (mkSystem s w n acc dis) (mkSystem s' w n acc dis)
| step_signal s w n acc dis :
    step (mkSystem s w (S n) acc dis) (mkSystem (signal s) w n acc dis)
| step_return s n acc dis :
    stopped s = true ->
    step (mkSystem s WIdle n acc dis) (mkSystem s WReturned n acc dis)
| step_woken s n acc dis :
    wake s = true ->
    step (mkSystem s WIdle n acc dis) (mkSystem (take_wake s) WDraining n acc dis)
| step_pop s s' n acc dis job :
    pop s = (Some job, s') ->
    step (mkSystem s WDraining n acc dis) (mkSystem s' WDraining n acc (dis ++ [job]))
| step_drained s s' n acc dis :
    pop s = (None, s') ->
    step (mkSystem s WDraining n acc dis) (mkSystem s' WIdle n acc dis)
| step_close s w n acc dis :
    step (mkSystem s w n acc dis) (mkSystem (close s) w n acc dis).

(** The steps as a function of what happens, to evaluate executions. *)
Inductive action : Type := DoEnqueue (r : string) (msg : WireMessage) | DoSignal | DoWork | DoClose.

Definition perform (a : action) (sys : System) : System :=
  match a, sys with
  | DoEnqueue r msg, mkSystem s w n acc dis =>
      match enqueue_locked r msg s with
      | (None, s') => mkSystem s' w (S n) (acc ++ [job_of r msg]) dis
      | (Some _, s') => mkSystem s' w n acc dis
      end
  | DoSignal, mkSystem s w (S n) acc dis => mkSystem (signal s) w n acc dis
  | DoWork, mkSystem s WIdle n acc dis =>
      if stopped s then mkSystem s WReturned n acc dis
      else if wake s then mkSystem (take_wake s) WDraining n acc dis else sys
  | DoWork, mkSystem s WDraining n acc dis =>
      match pop s with
      | (Some job, s') => mkSystem s' WDraining n acc (dis ++ [job])
      | (None, s') => mkSystem s' WIdle n acc dis
      end
  | DoClose, mkSystem s w n acc dis => mkSystem (close s) w n acc dis
  | _, _ => sys
  end.

Definition perform_all (acts : list action) : System := fold_left (fun s a => perform a s) acts init.

Lemma perform_reachable acts : rtc step init (perform_all acts).
Proof.
  unfold perform_all. induction acts as [|a acts IH] using rev_ind; [done|].
  rewrite fold_left_app. simpl. etrans; [exact IH|]. clear IH.
  generalize (fold_left (fun s a => perform a s) acts init). intros [s w n acc dis].
  assert (forall sys sys', step sys sys' -> rtc step sys sys') as Hone by (intros; by apply rtc_once).
  destruct a as [r msg| | |]; simpl.
  - destruct (enqueue_locked r msg s) as [[e|] s'] eqn:E; apply Hone; by econstructor.
  - destruct n; [done|]. apply Hone. constructor.
  - destruct w; [|destruct (pop s) as [[j|] s'] eqn:E; apply Hone; by constructor|done].
    destruct (stopped s) eqn:Es; [apply Hone; by constructor|].
    destruct (wake s) eqn:Ew; [apply Hone; by constructor|done].
  - apply Hone. constructor.
Qed.

(** ** Well-formed schedulers *)

(** The sum of a measure over the queued jobs. *)
Definition total (f : relayInboundJob -> Z) (s : relayInboundScheduler) : Z :=
  sum_with (fun k => sum_with f (queue_of s k)) (keys s).

Definition history (j : relayInboundJob) : Prop := is_history (message j) = true.

#[global] Instance history_dec j : Decision (history j).
Proof. unfold history. apply _. Defined.

Record wf (s : relayInboundScheduler) : Prop := {
  wf_nodup : NoDup (keys s);
  wf_keys : forall k, k ∈ keys s <-> is_Some (queues s !! k);
  wf_cursor : 0 <= cursor s;
  wf_frames : frames s = total (fun _ => 1) s;
  wf_bytes : bytes s = total (fun j => byte_length (raw j)) s;
  wf_jobs : forall k j, j ∈ queue_of s k -> sessionKey j = k /\ class j ∈ all_classes;
  wf_history : forall k, k <> relayInboundDeviceFIFO -> zlen (filter history (queue_of s k)) <= 1;
  wf_limits : frames s <= relayInboundQueueFrames /\ bytes s <= relayInboundQueueBytes
}.

Lemma sum_with_update {A : Type} (g g' : A -> Z) (l : list A) k :
  NoDup l -> k ∈ l -> (forall x, x <> k -> g' x = g x) ->
  sum_with g' l = sum_with g l + g' k - g k.
Proof.
  intros Hnd Hk Hg. induction l as [|x l IH]; [set_solver|].
  apply NoDup_cons in Hnd as [Hx Hnd]. simpl. apply elem_of_cons in Hk as [->|Hk].
  - rewrite (sum_with_ext g' g l); [lia|]. apply Forall_forall. intros y Hy. apply Hg. congruence.
  - rewrite IH by done. rewrite (Hg x) by congruence. lia.
Qed.

Lemma queue_of_missing s k : wf s -> k ∉ keys s -> queue_of s k = [].
Proof.
  intros Hwf Hk. unfold queue_of. rewrite (wf_keys s Hwf) in Hk.
  by destruct (queues s !! k); [destruct Hk|].
Qed.

(** Replacing one queue, its key being added when it is new. *)
Lemma total_update (f : relayInboundJob -> Z) s s' k q :
  wf s -> (forall k', queue_of s' k' = if decide (k' = k) then q else queue_of s k') ->
  keys s' = (if bool_decide (is_Some (queues s !! k)) then keys s else keys s ++ [k]) ->
  total f s' = total f s + sum_with f q - sum_with f (queue_of s k).
Proof.
  intros Hwf Hq Hk. unfold total. rewrite Hk.
  assert (forall x, x <> k -> sum_with f (queue_of s' x) = sum_with f (queue_of s x)) as Hne.
  { intros x Hx. by rewrite Hq, decide_False. }
  assert (sum_with f (queue_of s' k) = sum_with f q) as He by by rewrite Hq, decide_True.
  destruct (decide (is_Some (queues s !! k))) as [H|H].
  - rewrite bool_decide_eq_true_2 by done.
    rewrite (sum_with_update (fun k => sum_with f (queue_of s k)) _ _ k);
      [lia|apply Hwf|by apply (wf_keys s Hwf)|done].
  - rewrite bool_decide_eq_false_2 by done. rewrite sum_with_app. simpl. rewrite He.
    assert (k ∉ keys s) as Hnk by by rewrite (wf_keys s Hwf).
    rewrite (queue_of_missing s k Hwf Hnk). simpl.
    rewrite (sum_with_ext _ (fun k => sum_with f (queue_of s k))); [lia|].
    apply Forall_forall. intros x Hx. apply Hne. congruence.
Qed.

Lemma total_member f s k : wf s -> (forall j, 0 <= f j) -> sum_with f (queue_of s k) <= total f s.
Proof.
  intros Hwf Hf. assert (forall l, 0 <= sum_with (fun k => sum_with f (queue_of s k)) l) as Hn.
  { intros l. apply sum_with_nonneg, Forall_true. intros. apply sum_with_nonneg, Forall_true, Hf. }
  destruct (decide (k ∈ keys s)) as [Hk|Hk].
  - unfold total. clear Hwf. induction (keys s) as [|x l IH]; [set_solver|]. simpl.
    apply elem_of_cons in Hk as [->|Hk]; [specialize (Hn l); lia|].
    assert (0 <= sum_with f (queue_of s x)) by apply sum_with_nonneg, Forall_true, Hf.
    specialize (IH Hk). lia.
  - rewrite queue_of_missing by done. apply Hn.
Qed.

(** ** What the operations do *)

Lemma supersede_eq old fr b cbs :
  supersede old fr b cbs =
  (filter (fun j => ~ history j) old, fr - zlen (filter history old),
   b - sum_with (fun j => byte_length (raw j)) (filter history old),
   cbs ++ map (fun j => OnSupersede (wm_RequestID (message j))) (filter history old)).
Proof.
  revert fr b cbs. induction old as [|p old IH]; intros fr b cbs; cbn [supersede].
  { simpl. by rewrite app_nil_r, !Z.sub_0_r. }
  destruct (is_history (message p)) eqn:E.
  - rewrite IH. rewrite filter_cons_False by (intros Hn; by apply Hn).
    rewrite filter_cons_True by done. simpl. rewrite <- app_assoc. simpl.
    by rewrite Nat2Z.inj_succ, <- Z.add_1_r, (Z.add_comm (zlen _)), !Z.sub_add_distr.
  - rewrite IH. assert (~ history p) by (unfold history; by rewrite E).
    rewrite filter_cons_True by done. by rewrite filter_cons_False by done.
Qed.

(** The pending jobs a new request replaces, and those it keeps. *)
Definition replaces (key : string) (msg : WireMessage) : bool :=
  is_history msg && negb (bool_decide (key = relayInboundDeviceFIFO)).
Definition gone (key : string) (msg : WireMessage) (q : list relayInboundJob) : list relayInboundJob :=
  if replaces key msg then filter history q else [].
Definition kept (key : string) (msg : WireMessage) (q : list relayInboundJob) : list relayInboundJob :=
  if replaces key msg then filter (fun j => ~ history j) q else q.

Lemma kept_gone key msg q : q ≡ₚ kept key msg q ++ gone key msg q.
Proof.
  unfold kept, gone. destruct (replaces key msg); [|by rewrite app_nil_r].
  induction q as [|j q IH]; [done|]. rewrite !filter_cons.
  destruct (decide (history j)) as [H|H].
  - rewrite decide_False by (intros Hn; by apply Hn). by rewrite <- Permutation_middle, <- IH.
  - rewrite decide_True by done. simpl. by rewrite <- IH.
Qed.

Lemma sum_kept_gone f key msg q :
  sum_with f (kept key msg q) = sum_with f q - sum_with f (gone key msg q).
Proof.
  unfold kept, gone. destruct (replaces key msg); simpl; [|lia].
  rewrite (sum_with_filter_split f history q). lia.
Qed.

Lemma kept_sublist key msg q : kept key msg q `sublist_of` q.
Proof. unfold kept. destruct (replaces key msg); [apply sublist_filter|done]. Qed.

Definition superseded_ids (l : list relayInboundJob) : list callback :=
  map (fun j => OnSupersede (wm_RequestID (message j))) l.

(** The requests named by the calls of [onSupersede]. *)
Fixpoint supersede_calls (cbs : list callback) : list string :=
  match cbs with
  | [] => []
  | OnSupersede r :: cbs => r :: supersede_calls cbs
  | OnHistory _ _ :: cbs => supersede_calls cbs
  end.

Lemma supersede_calls_app l1 l2 : supersede_calls (l1 ++ l2) = supersede_calls l1 ++ supersede_calls l2.
Proof. induction l1 as [|[] l1 IH]; simpl; by rewrite ?IH. Qed.

Lemma supersede_calls_ids l : supersede_calls (superseded_ids l) = map (fun j => wm_RequestID (message j)) l.
Proof. induction l as [|j l IH]; simpl; by rewrite ?IH. Qed.

(** A successful [enqueue_locked]. *)
Record enqueued (j : relayInboundJob) (s s' : relayInboundScheduler) : Prop := {
  en_open : stopped s = false;
  en_room : frames s + 1 <= relayInboundQueueFrames /\
            bytes s + byte_length (raw j) <= relayInboundQueueBytes;
  en_queue : forall k, queue_of s' k =
    if decide (k = sessionKey j)
    then kept k (message j) (queue_of s k) ++ [j] else queue_of s k;
  en_dom : forall k, is_Some (queues s' !! k) <-> k = sessionKey j \/ is_Some (queues s !! k);
  en_keys : keys s' = if bool_decide (is_Some (queues s !! sessionKey j))
                      then keys s else keys s ++ [sessionKey j];
  en_frames : frames s' =
    frames s + 1 - zlen (gone (sessionKey j) (message j) (queue_of s (sessionKey j)));
  en_bytes : bytes s' =
    bytes s + byte_length (raw j) -
    sum_with (fun j => byte_length (raw j)) (gone (sessionKey j) (message j) (queue_of s (sessionKey j)));
  en_cursor : cursor s' = cursor s;
  en_wake : wake s' = wake s /\ stopped s' = stopped s;
  en_calls : supersede_calls (callbacks s') = supersede_calls (callbacks s) ++
    map (fun j => wm_RequestID (message j)) (gone (sessionKey j) (message j) (queue_of s (sessionKey j)))
}.

Lemma supersede_pending_spec key msg s :
  let s1 := supersede_pending key msg s in
  let lost := gone key msg (queue_of s key) in
  (forall k, queue_of s1 k = if decide (k = key) then kept k msg (queue_of s k) else queue_of s k) /\
  (forall k, k <> key -> queues s1 !! k = queues s !! k) /\
  keys s1 = keys s /\ cursor s1 = cursor s /\ wake s1 = wake s /\ stopped s1 = stopped s /\
  frames s1 = frames s - zlen lost /\
  bytes s1 = bytes s - sum_with (fun j => byte_length (raw j)) lost /\
  supersede_calls (callbacks s1) =
    supersede_calls (callbacks s) ++ map (fun j => wm_RequestID (message j)) lost.
Proof.
  unfold supersede_pending.
  change (is_history msg && negb (bool_decide (key = relayInboundDeviceFIFO))) with (replaces key msg).
  unfold gone, kept. destruct (replaces key msg) eqn:Erep; cbv zeta.
  - rewrite supersede_eq. cbn -[queue_of]. split_and!; try done.
    + intros k. case_decide as Hk; unfold queue_of; cbn [queues].
      * subst k. by rewrite lookup_insert_eq, Erep.
      * by rewrite lookup_insert_ne.
    + intros k Hk. by rewrite lookup_insert_ne.
    + rewrite !supersede_calls_app. change (map (fun j => OnSupersede _)) with superseded_ids.
      rewrite supersede_calls_ids. simpl. by rewrite app_nil_r.
  - rewrite app_nil_r, !Z.sub_0_r. split_and!; try done. intros k. case_decide as Hk; [|done].
    subst k. by rewrite Erep.
Qed.

Lemma admit_job_spec j s :
  stopped s = false -> frames s + 1 <= relayInboundQueueFrames ->
  bytes s + byte_length (raw j) <= relayInboundQueueBytes -> enqueued j s (admit_job j s).
Proof.
  intros Ho Hf Hb. unfold admit_job.
  pose proof (supersede_pending_spec (sessionKey j) (message j) s) as Hsp. cbv zeta in *.
  revert Hsp. generalize (supersede_pending (sessionKey j) (message j) s).
  intros s1 (Hq & Hl & Hk & Hc & Hw & Hst & Hfr & Hby & Hcb).
  split; cbn [keys cursor frames bytes wake stopped callbacks]; rewrite ?Hk, ?Hc, ?Hw, ?Hst; try done; try lia.
  - intros k. unfold queue_of at 1. cbn [queues]. case_decide as He.
    + subst k. rewrite lookup_insert_eq. simpl. by rewrite Hq, decide_True.
    + rewrite lookup_insert_ne by done. fold (queue_of s1 k). by rewrite Hq, decide_False.
  - intros k. cbn [queues]. destruct (decide (k = sessionKey j)) as [->|He].
    + rewrite lookup_insert_eq. split; [by left|done].
    + rewrite lookup_insert_ne, Hl by done. naive_solver.
Qed.

Lemma enqueue_locked_spec r msg s s' :
  enqueue_locked r msg s = (None, s') -> enqueued (job_of r msg) s s'.
Proof.
  unfold enqueue_locked. destruct (stopped s) eqn:Es; [done|].
  destruct (_ || _) eqn:El; [done|]. zprop. intros [= <-]. by apply admit_job_spec.
Qed.
(** What [pop] removes. *)
Record popped (j : relayInboundJob) (s s' : relayInboundScheduler) : Prop := {
  po_head : exists rest, queue_of s (sessionKey j) = j :: rest /\
    forall k, queue_of s' k = if decide (k = sessionKey j) then rest else queue_of s k;
  po_keys : keys s' = keys s;
  po_dom : forall k, is_Some (queues s' !! k) <-> is_Some (queues s !! k);
  po_frames : frames s' = frames s - 1;
  po_bytes : bytes s' = bytes s - byte_length (raw j);
  po_cursor : 0 <= cursor s' < zlen (keys s);
  po_wake : wake s' = wake s /\ stopped s' = stopped s;
  po_calls : callbacks s' = callbacks s
}.

Lemma pop_at_Some s c off idx key j rest :
  pop_at s c off = Some (idx, key, j, rest) ->
  idx = (cursor s + Z.of_nat off) mod zlen (keys s) /\ keys s !! Z.to_nat idx = Some key /\
  queue_of s key = j :: rest /\ class j = c.
Proof.
  unfold pop_at. set (i := (cursor s + Z.of_nat off) mod zlen (keys s)).
  destruct (keys s !! Z.to_nat i) as [k|] eqn:Ek; [|done].
  destruct (queue_of s k) as [|j' r] eqn:Eq; [done|].
  destruct (Z.eqb_spec (class j') c); [|done]. by intros [= <- <- <- <-].
Qed.

Lemma queue_of_some s key j rest : queue_of s key = j :: rest -> is_Some (queues s !! key).
Proof. unfold queue_of. destruct (queues s !! key); [eauto|done]. Qed.

Lemma pop_spec s j s' : wf s -> pop s = (Some j, s') -> popped j s s'.
Proof.
  intros Hwf. unfold pop. destruct (_ || _) eqn:E0; [done|].
  destruct (first_some _ all_classes) as [[[[idx key] job] rest]|] eqn:E; [|done].
  intros [= <- <-].
  apply first_some_Some in E as (_ & c & _ & _ & E & _).
  apply first_some_Some in E as (_ & off & _ & _ & E & _).
  apply pop_at_Some in E as (Hi & Hk & Hq & Hc).
  assert (sessionKey job = key) as Hkey by (eapply (wf_jobs s Hwf key); rewrite Hq; by left).
  assert (0 < zlen (keys s)) by (apply lookup_lt_Some in Hk; lia).
  split; cbn [keys frames bytes wake stopped callbacks cursor]; try done.
  - exists rest. rewrite Hkey. split; [done|]. intros k. unfold queue_of at 1. cbn [queues].
    case_decide as He; [subst k; by rewrite lookup_insert_eq|by rewrite lookup_insert_ne].
  - intros k. cbn [queues]. destruct (decide (k = key)) as [->|He].
    + rewrite lookup_insert_eq. apply queue_of_some in Hq. split; [done|eauto].
    + by rewrite lookup_insert_ne.
  - apply Z.mod_pos_bound. lia.
Qed.

(** The scan reaches every queue. *)
Lemma scan_offset (c n i : Z) : 0 <= i < n -> exists off : nat, (Z.of_nat off < n) /\ (c + Z.of_nat off) mod n = i.
Proof.
  intros Hi. exists (Z.to_nat ((i - c) mod n)). pose proof (Z.mod_pos_bound (i - c) n).
  rewrite Z2Nat.id by lia. split; [lia|]. rewrite Zplus_mod_idemp_r.
  replace (c + (i - c)) with i by lia. apply Z.mod_small. lia.
Qed.

Lemma scan_finds s c key j rest :
  wf s -> queue_of s key = j :: rest -> class j = c ->
  exists off, off ∈ seq 0 (length (keys s)) /\ pop_at s c off <> None /\
    keys s !! Z.to_nat ((cursor s + Z.of_nat off) mod zlen (keys s)) = Some key.
Proof.
  intros Hwf Hq Hc. pose proof (queue_of_some _ _ _ _ Hq) as Hk.
  apply (wf_keys s Hwf), list_elem_of_lookup_1 in Hk as [i Hi]. pose proof (lookup_lt_Some _ _ _ Hi) as Hlt.
  destruct (scan_offset (cursor s) (zlen (keys s)) (Z.of_nat i)) as (off & Ho & Hm); [lia|].
  exists off. split; [apply elem_of_seq; lia|]. rewrite Hm, Nat2Z.id. split; [|done].
  unfold pop_at. cbv zeta. rewrite Hm, Nat2Z.id, Hi, Hq. by rewrite Hc, Z.eqb_refl.
Qed.

Lemma total_zero f s : wf s -> (forall j, 0 < f j) -> total f s = 0 -> forall k, queue_of s k = [].
Proof.
  intros Hwf Hf H0 k. assert (forall j, 0 <= f j) as Hf' by (intros j; specialize (Hf j); lia).
  pose proof (total_member f s k Hwf Hf') as Hm. destruct (queue_of s k) as [|j q]; [done|].
  simpl in Hm. specialize (Hf j). pose proof (sum_with_nonneg f q) as Hn.
  assert (0 <= sum_with f q) by (apply Hn, Forall_true, Hf'). lia.
Qed.

Lemma pop_empty s s' : wf s -> pop s = (None, s') -> s' = s /\ forall k, queue_of s k = [].
Proof.
  intros Hwf. unfold pop. destruct (_ || _) eqn:E0.
  - intros [= <-]. split; [done|]. apply orb_prop in E0 as [E0|E0]; zprop.
    + apply (total_zero (fun _ => 1)); [done|lia|]. by rewrite <- (wf_frames s Hwf).
    + intros k. apply queue_of_missing; [done|]. destruct (keys s); [set_solver|done].
  - destruct (first_some _ all_classes) as [[[[idx key] job] rest]|] eqn:E; [done|].
    intros [= <-]. split; [done|]. intros k. destruct (queue_of s k) as [|j rest] eqn:Eq; [done|].
    assert (j ∈ queue_of s k) as Hj by (rewrite Eq; by left).
    destruct (scan_finds s (class j) k j rest Hwf Eq eq_refl) as (off & Ho & Hne & _).
    destruct Hne. rewrite first_some_None in E.
    specialize (E (class j) (proj2 (wf_jobs s Hwf k j Hj))). rewrite first_some_None in E. by apply E.
Qed.
(** ** Preservation *)

Lemma filter_history_kept k msg q :
  replaces k msg = true -> filter history (kept k msg q) = [].
Proof.
  intros Hr. unfold kept. rewrite Hr. apply filter_none.
  intros j [Hn _]%list_elem_of_filter. done.
Qed.

Lemma wf_enqueued j s s' : wf s -> class j ∈ all_classes -> enqueued j s s' -> wf s'.
Proof.
  intros Hwf Hc [Ho [Hrf Hrb] Hq Hd Hk Hf Hb Hcu _ _].
  set (k0 := sessionKey j) in *.
  assert (forall f, total f s' = total f s + f j - sum_with f (gone k0 (message j) (queue_of s k0))) as Ht.
  { intros f. rewrite (total_update f s s' k0 (kept k0 (message j) (queue_of s k0) ++ [j])); [|done| |done].
    - rewrite sum_with_app, sum_kept_gone. simpl. lia.
    - intros k. rewrite Hq. case_decide; [by subst|done]. }
  assert (forall l : list relayInboundJob, sum_with (fun _ => 1) l = zlen l) as Hone
    by (induction l; simpl; lia).
  split.
  - rewrite Hk. case_bool_decide as Hs; [apply Hwf|]. apply NoDup_app. split; [apply Hwf|].
    split; [|apply NoDup_singleton]. intros k Hkin ->%list_elem_of_singleton. by apply Hs, (wf_keys s Hwf).
  - intros k. rewrite Hd, Hk. pose proof (wf_keys s Hwf k). case_bool_decide as Hs.
    + pose proof (proj2 (wf_keys s Hwf _) Hs). naive_solver.
    + rewrite elem_of_app, list_elem_of_singleton. naive_solver.
  - rewrite Hcu. apply Hwf.
  - rewrite Hf, Ht, Hone, (wf_frames s Hwf). lia.
  - rewrite Hb, Ht, (wf_bytes s Hwf). lia.
  - intros k j'. rewrite Hq. case_decide as He; [|apply Hwf]. subst k.
    rewrite elem_of_app, list_elem_of_singleton. intros [Hin|Hin]; [|by subst].
    apply (wf_jobs s Hwf). eapply elem_of_sublist; [exact Hin|apply kept_sublist].
  - intros k Hk0. rewrite Hq. case_decide as He; [|by apply Hwf]. subst k.
    rewrite filter_app, length_app, filter_cons, filter_nil.
    pose proof (wf_history s Hwf k0 Hk0). destruct (is_history (message j)) eqn:Ej.
    + rewrite decide_True by done.
      rewrite filter_history_kept; [simpl; lia|]. unfold replaces. rewrite Ej. by rewrite bool_decide_eq_false_2.
    + rewrite decide_False by (unfold history; by rewrite Ej). pose proof (filter_sublist_length history _ _ (kept_sublist k0 (message j) (queue_of s k0))).
      simpl. lia.
  - rewrite Hf, Hb. assert (0 <= sum_with (fun j => byte_length (raw j)) (gone k0 (message j) (queue_of s k0))).
    { apply sum_with_nonneg, Forall_true. unfold byte_length. lia. } lia.
Qed.

Lemma wf_popped j s s' : wf s -> popped j s s' -> wf s'.
Proof.
  intros Hwf [(rest & Hh & Hq) Hk Hd Hf Hb Hc _ _].
  assert (is_Some (queues s !! sessionKey j)) as Hs by (by eapply queue_of_some).
  assert (forall f, total f s' = total f s - f j) as Ht.
  { intros f. rewrite (total_update f s s' (sessionKey j) rest); [rewrite Hh; simpl; lia|done|done|].
    by rewrite bool_decide_eq_true_2. }
  assert (0 <= byte_length (raw j)) by (unfold byte_length; lia).
  pose proof (wf_limits s Hwf). split; rewrite ?Hk; try apply Hwf; try (rewrite ?Hf, ?Hb, ?Ht; destruct Hwf; lia).
  - intros k. rewrite Hd. apply Hwf.
  - intros k j'. rewrite Hq. case_decide as He; [|apply Hwf]. subst k. intros Hin.
    apply (wf_jobs s Hwf). rewrite Hh. by right.
  - intros k Hk0. rewrite Hq. case_decide as He; [|by apply Hwf]. subst k.
    pose proof (wf_history s Hwf _ Hk0) as Hl. rewrite Hh, filter_cons in Hl. case_decide; simpl in *; lia.
Qed.

Lemma message_class_ok msg : message_class msg ∈ all_classes.
Proof.
  unfold message_class. repeat case_if; [set_solver|apply class_of_request|set_solver].
Qed.

(** [wf] reads only the queues and the counters. *)
Lemma wf_same s s' :
  queues s' = queues s -> keys s' = keys s -> cursor s' = cursor s -> frames s' = frames s ->
  bytes s' = bytes s -> wf s -> wf s'.
Proof.
  intros Eq Ek Ec Ef Eb [H1 H2 H3 H4 H5 H6 H7 H8].
  assert (forall k, queue_of s' k = queue_of s k) as Hq by (intros; unfold queue_of; by rewrite Eq).
  assert (forall f, total f s' = total f s) as Ht
    by (intros f; unfold total; rewrite Ek; apply sum_with_ext, Forall_true; intros; by rewrite Hq).
  split; rewrite ?Ek, ?Ec, ?Ef, ?Eb, ?Ht; try done.
  - intros k. by rewrite Eq.
  - intros k j. rewrite Hq. apply H6.
  - intros k. rewrite Hq. apply H7.
Qed.
(** ** Executions *)

(** The jobs of one session in a sequence of jobs. *)
Definition session (k : string) (l : list relayInboundJob) : list relayInboundJob :=
  filter (fun j => sessionKey j = k) l.

Lemma session_snoc k l j :
  session k (l ++ [j]) = session k l ++ (if decide (sessionKey j = k) then [j] else []).
Proof. unfold session. rewrite filter_app, filter_cons, filter_nil. by case_decide. Qed.

(** A history request a later one of its session replaced. *)
Definition replaced (acc : list relayInboundJob) (j : relayInboundJob) : Prop :=
  history j /\ sessionKey j <> relayInboundDeviceFIFO /\
  exists l1 l2 j', acc = l1 ++ j :: l2 /\ j' ∈ l2 /\ sessionKey j' = sessionKey j /\ history j'.

Lemma replaced_snoc acc j j0 : replaced acc j -> replaced (acc ++ [j0]) j.
Proof.
  intros (H1 & H2 & l1 & l2 & j' & -> & Hin & H3). split; [done|]. split; [done|].
  exists l1, (l2 ++ [j0]), j'. rewrite <- app_assoc. set_solver.
Qed.

(** Every accepted job was dispatched, waits, or was replaced. *)
Definition accounted (acc dis : list relayInboundJob) (s : relayInboundScheduler) : Prop :=
  exists sup, (forall k, session k acc ≡ₚ session k dis ++ queue_of s k ++ session k sup) /\
    map (fun j => wm_RequestID (message j)) sup = supersede_calls (callbacks s) /\
    Forall (replaced acc) sup.

(** The order of arrival survives within each session. *)
Definition in_order (acc dis : list relayInboundJob) (s : relayInboundScheduler) : Prop :=
  forall k, (session k dis ++ queue_of s k) `sublist_of` session k acc.

Definition is_empty (s : relayInboundScheduler) : Prop := forall k, queue_of s k = [].

(** Somebody is about to look at the queues. *)
Definition attended (sys : System) : Prop :=
  wake (sched sys) = true \/ (0 < signals sys)%nat \/ worker sys = WDraining \/
  worker sys = WReturned.

Record inv (sys : System) : Prop := {
  inv_wf : wf (sched sys);
  inv_order : in_order (accepted sys) (dispatched sys) (sched sys);
  inv_accounted : accounted (accepted sys) (dispatched sys) (sched sys);
  inv_attended : is_empty (sched sys) \/ attended sys;
  inv_returned : worker sys = WReturned -> stopped (sched sys) = true
}.

Lemma gone_replaced acc j k s :
  wf s -> (forall k, queue_of s k `sublist_of` session k acc) -> k = sessionKey j ->
  Forall (replaced (acc ++ [j])) (gone k (message j) (queue_of s k)).
Proof.
  intros Hwf Hsub ->. unfold gone, replaces.
  destruct (is_history (message j)) eqn:Ej; simpl; [|constructor].
  case_bool_decide as Hf; simpl; [constructor|]. apply Forall_forall.
  intros x [Hx Hin]%list_elem_of_filter.
  assert (x ∈ session (sessionKey j) acc) as [Hk Hacc]%list_elem_of_filter
    by by eapply elem_of_sublist.
  split; [done|]. split; [congruence|]. apply list_elem_of_split in Hacc as (l1 & l2 & ->).
  exists l1, (l2 ++ [j]), j. rewrite <- app_assoc. split; [done|]. split; [set_solver|]. done.
Qed.

Lemma gone_session k k' j s :
  wf s -> session k' (gone k (message j) (queue_of s k)) =
          if decide (k' = k) then gone k (message j) (queue_of s k) else [].
Proof.
  intros Hwf. assert (forall x, x ∈ gone k (message j) (queue_of s k) -> sessionKey x = k) as Hall.
  { intros x Hx. apply (wf_jobs s Hwf k). unfold gone in Hx. destruct (replaces _ _); [|set_solver].
    by apply list_elem_of_filter in Hx as [_ ?]. }
  unfold session. case_decide as He.
  - subst. apply filter_all, Forall_forall, Hall.
  - apply filter_none. intros x Hx. rewrite (Hall x Hx). congruence.
Qed.

Lemma accept_inv j s s' w n acc dis :
  class j ∈ all_classes -> enqueued j s s' -> inv (mkSystem s w n acc dis) ->
  inv (mkSystem s' w (S n) (acc ++ [j]) dis).
Proof.
  intros Hc He [Hwf Ho (sup & Hp & Hm & Hr) _ Hret]. simpl in *.
  pose proof (wf_enqueued j s s' Hwf Hc He) as Hwf'. pose proof (en_queue j s s' He) as Hq.
  split; simpl; [done| | |right; right; left; simpl; lia|].
  - intros k. rewrite Hq, session_snoc. specialize (Ho k).
    destruct (decide (k = sessionKey j)) as [->|Hk].
    + rewrite decide_True by done. rewrite app_assoc. apply sublist_app; [|done].
      etrans; [|exact Ho]. apply sublist_app; [done|apply kept_sublist].
    + rewrite decide_False by done. by rewrite app_nil_r.
  - exists (sup ++ gone (sessionKey j) (message j) (queue_of s (sessionKey j))). split_and!.
    + intros k. rewrite Hq, session_snoc, Hp. unfold session at 4. rewrite filter_app.
      fold (session k sup) (session k (gone (sessionKey j) (message j) (queue_of s (sessionKey j)))).
      rewrite (gone_session (sessionKey j) k j s Hwf).
      destruct (decide (k = sessionKey j)) as [->|Hk].
      * rewrite decide_True by done.
        rewrite (kept_gone (sessionKey j) (message j) (queue_of s (sessionKey j))) at 1.
        solve_Permutation.
      * rewrite decide_False by done. by rewrite !app_nil_r.
    + by rewrite map_app, Hm, (en_calls j s s' He).
    + apply Forall_app. split; [eapply Forall_impl; [exact Hr|]; intros; by apply replaced_snoc|].
      apply gone_replaced; [done| |done]. intros k. etrans; [|exact (Ho k)]. by apply sublist_inserts_l.
  - intros H. destruct (en_wake j s s' He) as [_ ->]. by apply Hret.
Qed.

Lemma pop_inv j s s' n acc dis :
  popped j s s' -> inv (mkSystem s WDraining n acc dis) ->
  inv (mkSystem s' WDraining n acc (dis ++ [j])).
Proof.
  intros Hpo [Hwf Ho (sup & Hp & Hm & Hr) _ Hret]. simpl in *.
  destruct (po_head j s s' Hpo) as (rest & Hh & Hq).
  assert (forall k, session k (dis ++ [j]) ++ queue_of s' k = session k dis ++ queue_of s k) as Hsame.
  { intros k. rewrite Hq, session_snoc. case_decide as Hk.
    - subst k. rewrite decide_True, Hh by done. by rewrite <- app_assoc.
    - rewrite decide_False by done. by rewrite app_nil_r. }
  split; simpl; [by eapply wf_popped| | |by right; right; right; left|done].
  - intros k. rewrite Hsame. apply Ho.
  - exists sup. rewrite (po_calls j s s' Hpo). split; [|done].
    intros k. rewrite app_assoc, Hsame, <- app_assoc. apply Hp.
Qed.

(** The steps that change neither the queues nor the record of calls. *)
Lemma quiet_inv s s' w w' n n' acc dis :
  queues s' = queues s -> keys s' = keys s -> cursor s' = cursor s -> frames s' = frames s ->
  bytes s' = bytes s -> callbacks s' = callbacks s ->
  (attended (mkSystem s w n acc dis) -> is_empty s' \/ attended (mkSystem s' w' n' acc dis)) ->
  (w' = WReturned -> stopped s' = true) ->
  inv (mkSystem s w n acc dis) -> inv (mkSystem s' w' n' acc dis).
Proof.
  intros Eq Ek Ec Ef Eb Ecb Hat Hret [Hwf Ho Ha Hw _]. simpl in *.
  assert (forall k, queue_of s' k = queue_of s k) as Hq by (intros; unfold queue_of; by rewrite Eq).
  split; simpl; [by eapply wf_same| | | |done].
  - intros k. rewrite Hq. apply Ho.
  - destruct Ha as (sup & Hp & Hm & Hr). exists sup. rewrite Ecb. split; [|done].
    intros k. rewrite Hq. apply Hp.
  - destruct Hw as [Hw|Hw]; [left; intros k; by rewrite Hq|by apply Hat].
Qed.

Lemma step_inv sys sys' : inv sys -> step sys sys' -> inv sys'.
Proof.
  intros Hinv Hstep. destruct Hstep.
  - apply enqueue_locked_spec in H. eapply accept_inv; [apply message_class_ok|done|done].
  - unfold enqueue_locked in H. destruct (stopped s) eqn:Es; [by injection H as <- <-|].
    destruct (_ || _); [|done]. injection H as <- <-.
    eapply quiet_inv; [..|exact Hinv]; try done; [by right|].
    intros Hw. by rewrite <- Es; apply (inv_returned _ Hinv).
  - eapply quiet_inv; [..|exact Hinv]; try done; [by right; left|].
    apply (inv_returned _ Hinv).
  - eapply quiet_inv; [..|exact Hinv]; try done. right. by right; right; right.
  - eapply quiet_inv; [..|exact Hinv]; try done. right. by right; right; left.
  - apply pop_spec in H; [|apply Hinv]. by eapply pop_inv.
  - apply pop_empty in H as [-> He]; [|apply Hinv].
    eapply quiet_inv; [..|exact Hinv]; try done. by left.
  - eapply quiet_inv; [..|exact Hinv]; try done. intros [H|[H|[H|H]]]; right; [by left|by right; left|
      by right; right; left|by right; right; right].
Qed.

Lemma queue_of_new k : queue_of newRelayInboundScheduler k = [].
Proof. unfold queue_of. simpl. by rewrite lookup_empty. Qed.

Lemma wf_empty_scheduler : wf newRelayInboundScheduler.
Proof.
  split; simpl; try done.
  - constructor.
  - intros k. rewrite lookup_empty, elem_of_nil. split; [done|by intros [? ?]].
  - intros k j. rewrite queue_of_new. by intros ?%elem_of_nil.
Qed.

Lemma reachable_inv sys : rtc step init sys -> inv sys.
Proof.
  apply (rtc_invariant step inv); [intros ??; apply step_inv|].
  split; simpl; [apply wf_empty_scheduler| | |left; intros k; apply queue_of_new|done].
  - intros k. by rewrite queue_of_new.
  - exists []. split_and!; [intros k; by rewrite queue_of_new|done|constructor].
Qed.

Lemma seq_split n o1 off o2 :
  seq 0 n = o1 ++ off :: o2 -> (off < n)%nat /\ forall o, (o < off)%nat -> o ∈ o1.
Proof.
  intros Hs. assert (length o1 < n)%nat as Hl.
  { rewrite <- (length_seq n 0), Hs, length_app. simpl. lia. }
  assert (seq 0 n !! length o1 = Some off) as Hoff by (rewrite Hs; by rewrite list_lookup_middle).
  rewrite lookup_seq_lt in Hoff by done. injection Hoff as <-. split; [lia|].
  intros o Ho. apply (list_elem_of_lookup_2 _ o).
  rewrite <- (lookup_app_l o1 (length o1 :: o2)) by lia. rewrite <- Hs. apply lookup_seq_lt. lia.
Qed.

Lemma classes_split c1 c c2 x :
  all_classes = c1 ++ c :: c2 -> x ∈ all_classes -> x < c -> x ∈ c1.
Proof.
  intros Hs Hx Hlt. assert (StronglySorted Z.lt all_classes) as Hso by (repeat constructor).
  rewrite Hs in Hx, Hso. apply StronglySorted_app in Hso as (_ & _ & Hso).
  apply StronglySorted_inv in Hso as [_ Hc]. rewrite Forall_forall in Hc.
  apply elem_of_app in Hx as [Hx|[->|Hx]%elem_of_cons]; [done|lia|]. apply Hc in Hx. lia.
Qed.

(** ** Properties *)

(** The fate of a message: however callers and worker interleave, within
    each session the messages dispatched and then those waiting are a
    subsequence of those accepted, in the order of arrival; every accepted
    message was dispatched, waits, or is a history request reported to
    [onSupersede] that a later one of its session replaced; at most one history
    request of a session waits; and the counters are exact and within the
    limits. *)
Theorem inbound_fate sys :
  rtc step init sys ->
  in_order (accepted sys) (dispatched sys) (sched sys) /\
  accounted (accepted sys) (dispatched sys) (sched sys) /\
  (forall k, k <> relayInboundDeviceFIFO -> zlen (filter history (queue_of (sched sys) k)) <= 1) /\
  frames (sched sys) = total (fun _ => 1) (sched sys) /\
  bytes (sched sys) = total (fun j => byte_length (raw j)) (sched sys) /\
  frames (sched sys) <= relayInboundQueueFrames /\ bytes (sched sys) <= relayInboundQueueBytes.
Proof. intros Hr%reachable_inv. destruct Hr as [[] ? ? _ _]. naive_solver. Qed.

(** The choice of [pop]: it finds a message exactly when one waits; the
    message heads its session's queue, no other head is of a smaller class,
    and among the heads of its class it is the first from the cursor, which
    then moves past it. While a message waits, a wake-up is pending or the
    worker is at work, unless it returned because the scheduler was closed. *)
Theorem pop_choice sys :
  rtc step init sys ->
  let s := sched sys in
  match pop s with
  | (None, s') => s' = s /\ is_empty s
  | (Some j, s') =>
      attended sys /\ (worker sys = WReturned -> stopped s = true) /\
      exists off rest, (off < length (keys s))%nat /\
        queue_of s (sessionKey j) = j :: rest /\ queue_of s' (sessionKey j) = rest /\
        keys s !! Z.to_nat ((cursor s + Z.of_nat off) mod zlen (keys s)) = Some (sessionKey j) /\
        cursor s' = (cursor s + Z.of_nat off + 1) mod zlen (keys s) /\
        (forall k j' rest', queue_of s k = j' :: rest' -> class j <= class j') /\
        (forall off' k j' rest', (off' < off)%nat ->
           keys s !! Z.to_nat ((cursor s + Z.of_nat off') mod zlen (keys s)) = Some k ->
           queue_of s k = j' :: rest' -> class j < class j')
  end.
Proof.
  intros Hr. pose proof (reachable_inv sys Hr) as [Hwf _ _ Hat Hret]. cbv zeta.
  destruct (pop (sched sys)) as [[j|] s'] eqn:E; [|by apply pop_empty].
  pose proof (pop_spec _ _ _ Hwf E) as Hpo. destruct (po_head _ _ _ Hpo) as (rest & Hh & Hq).
  split; [|split; [done|]].
  { destruct Hat as [He|Hat]; [|done]. by rewrite (He (sessionKey j)) in Hh. }
  revert E. unfold pop. destruct (_ || _); [done|].
  destruct (first_some _ all_classes) as [[[[idx key] job] rest']|] eqn:E; [|done].
  intros [= -> Hs'].
  apply first_some_Some in E as (c1 & c & c2 & Hcs & E & Hc1).
  apply first_some_Some in E as (o1 & off & o2 & Hos & E & Ho1).
  apply pop_at_Some in E as (Hi & Hk & Hqk & Hc).
  assert (sessionKey j = key) as Hkey by (eapply (wf_jobs _ Hwf key); rewrite Hqk; by left).
  apply seq_split in Hos as [Hoff Hall]. rewrite Hh in *. subst key. rewrite Hh in Hqk.
  injection Hqk as <-.
  assert (forall k j' r, queue_of (sched sys) k = j' :: r -> class j <= class j') as Hmin.
  { intros k j' r Hq'. rewrite Hc. apply Z.le_ngt. intros Hlt.
    assert (class j' ∈ all_classes) as Hin by (apply (wf_jobs _ Hwf k); rewrite Hq'; by left).
    pose proof (classes_split _ _ _ _ Hcs Hin Hlt) as Hin'. apply Hc1 in Hin'.
    destruct (scan_finds _ _ k j' r Hwf Hq' eq_refl) as (o & Ho & Hne & _).
    rewrite first_some_None in Hin'. by apply Hne, Hin'. }
  exists off, rest. split_and!; try done.
  - by rewrite Hq, decide_True.
  - by rewrite <- Hi.
  - rewrite <- Hs'. simpl. by rewrite Hi, Zplus_mod_idemp_l.
  - intros off' k j' r Ho Hk' Hq'. specialize (Hmin k j' r Hq').
    destruct (Z.eq_dec (class j') c) as [He|]; [|lia]. exfalso.
    pose proof (Ho1 off' (Hall off' Ho)) as Hno. revert Hno. unfold pop_at. cbv zeta.
    by rewrite Hk', Hq', He, Z.eqb_refl.
Qed.
End Decoding.

(** ** A concrete execution: the parameters of a request are its session. *)

Definition request (id method session : string) : WireMessage :=
  mkWire "request" id "" method session "".

Definition sample : list action :=
  [DoEnqueue "aaaa" (request "r1" "get_session_messages" "s1");
   DoEnqueue "bb" (request "r2" "list_models" "s1");
   DoEnqueue "cc" (request "r3" "get_session_messages" "s1");
   DoEnqueue "dd" (request "r4" "send_message" "s2");
   DoSignal; DoWork; DoWork].

Lemma inbound_fate_witness :
  map raw (dispatched (perform_all Some sample)) = ["dd"] /\
  map raw (queue_of (sched (perform_all Some sample)) "s1") = ["bb"; "cc"] /\
  supersede_calls (callbacks (sched (perform_all Some sample))) = ["r1"] /\
  accounted (accepted (perform_all Some sample)) (dispatched (perform_all Some sample))
    (sched (perform_all Some sample)).
Proof.
  split; [vm_compute; reflexivity|]. split; [vm_compute; reflexivity|].
  split; [vm_compute; reflexivity|].
  exact (proj1 (proj2 (inbound_fate Some _ (perform_reachable Some sample)))).
Defined.

Lemma pop_choice_witness :
  option_map raw (fst (pop (sched (perform_all Some sample)))) = Some "bb" /\
  attended (perform_all Some sample).
Proof.
  assert (option_map raw (fst (pop (sched (perform_all Some sample)))) = Some "bb") as Hb
    by (vm_compute; reflexivity).
  split; [exact Hb|]. pose proof (pop_choice Some _ (perform_reachable Some sample)) as H.
  revert Hb H. generalize (perform_all Some sample). intros sys Hb H. cbv zeta in H.
  destruct (pop (sched sys)) as [[j|] s']; [exact (proj1 H)|discriminate Hb].
Defined.
