(* ===== verification/BulkState.v ===== *)
(** * State of bulk answers on a relay connection

    The cancellation handle of a chunk group and the per-connection maps that
    hold them (go-bridge/relay_bulk_state.go), the correlation registry
    (relay_bulk_correlation.go over relaystate/registry.go), and the contract
    the handle implements (relaystate/cancel.go). A handle is named by its group
    id, of which every group has its own; the states of all handles are one map,
    for a handle is shared between the connection and the writer. *)

From S2P Require Import Prelude.

(** ** The contract of cancellation (relaystate/cancel.go) *)

Inductive CancelState : Type :=
| StateQueued | StateReading | StateSerializing | StateOutboundQueued
| StateCommittedToWriter | StateComplete | StateCancelled.

#[export] Instance CancelState_eq_dec : EqDecision CancelState.
Proof. solve_decision. Defined.

(** The number [iota] gives a state. *)
Definition rank (s : CancelState) : Z :=
  match s with
  | StateQueued => 0 | StateReading => 1 | StateSerializing => 2 | StateOutboundQueued => 3
  | StateCommittedToWriter => 4 | StateComplete => 5 | StateCancelled => 6
  end.

Definition CancelState_String (s : CancelState) : string :=
  match s with
  | StateQueued => "queued" | StateReading => "reading" | StateSerializing => "serializing"
  | StateOutboundQueued => "outboundQueued" | StateCommittedToWriter => "committedToWriter"
  | StateComplete => "complete" | StateCancelled => "cancelled"
  end.

Inductive CancelOutcome : Type := CancelCancelled | CancelTooLate | CancelNotFound.

#[export] Instance CancelOutcome_eq_dec : EqDecision CancelOutcome.
Proof. solve_decision. Defined.

Definition IsTooLateBoundary (s : CancelState) : bool := rank s >=? rank StateCommittedToWriter.

Definition TryCancel (state : CancelState) (writerCommitted : bool) : CancelOutcome * CancelState :=
  match state with
  | StateQueued | StateReading | StateSerializing => (CancelCancelled, StateCancelled)
  | StateOutboundQueued =>
      if writerCommitted then (CancelTooLate, state) else (CancelCancelled, StateCancelled)
  | StateCommittedToWriter | StateComplete => (CancelTooLate, state)
  | StateCancelled => (CancelCancelled, state)
  end.

Definition Advance (from to : CancelState) : bool :=
  match from with
  | StateQueued => bool_decide (to = StateReading)
  | StateReading => bool_decide (to = StateSerializing)
  | StateSerializing => bool_decide (to = StateOutboundQueued)
  | StateOutboundQueued => bool_decide (to = StateCommittedToWriter)
  | StateCommittedToWriter => bool_decide (to = StateComplete)
  | _ => false
  end.

(** ** The handle of a chunk group *)

Definition bulkActive : Z := 0.
Definition bulkCancelled : Z := 1.
Definition bulkCommitted : Z := 2.

(** The states of the handles, by group id; a new handle is active. *)
Abbreviation HandleStore := (gmap string Z).
Definition state_of (hs : HandleStore) (h : string) : Z := default bulkActive (hs !! h).

Definition newOutboundBulkHandle (groupID : string) (hs : HandleStore) : HandleStore :=
  <[groupID := bulkActive]> hs.

(** [h.state.CompareAndSwap(old, new)] *)
Definition CompareAndSwap (h : string) (old new : Z) (hs : HandleStore) : bool * HandleStore :=
  if state_of hs h =? old then (true, <[h := new]> hs) else (false, hs).

(** [Cancel]: the loop retries only when another goroutine changed the state
    between the load and the swap; taken as one step it never does. *)
Definition Cancel (h : string) (hs : HandleStore) : bool * HandleStore :=
  if state_of hs h =? bulkCancelled then (true, hs)
  else if state_of hs h =? bulkCommitted then (false, hs)
  else CompareAndSwap h bulkActive bulkCancelled hs.

Definition Cancelled (h : string) (hs : HandleStore) : bool := state_of hs h =? bulkCancelled.

Definition MarkIndex0Committed (h : string) (hs : HandleStore) : bool * HandleStore :=
  CompareAndSwap h bulkActive bulkCommitted hs.

Definition Index0Committed (h : string) (hs : HandleStore) : bool := state_of hs h =? bulkCommitted.

(** ** The maps of a connection *)

Record relayBulkRequestContext : Type := mkContext {
  ctx_sessionID : string;
  ctx_generation : Z;
  ctx_startedAt : Z
}.

(** The fields of [RelayDeviceConn] the bulk operations use. *)
Record BulkConn : Type := mkConn {
  conn_closed : bool;
  sessionBulkGenerations : gmap string Z;
  bulkRequestContexts : gmap string relayBulkRequestContext;
  activeBulkHandles : gmap string string;
  requestBulkHandles : gmap string string
}.

Definition new_bulk_conn : BulkConn := mkConn false ∅ ∅ ∅ ∅.

Definition advanceSessionBulkGeneration (sessionID requestID : string) (now : Z)
    (c : BulkConn) (hs : HandleStore) : Z * BulkConn * HandleStore :=
  let next := wrap_u64 (sessionBulkGenerations c !!0 sessionID + 1) in
  let gens := <[sessionID := next]> (sessionBulkGenerations c) in
  let '(active, hs) :=
    match activeBulkHandles c !! sessionID with
    | Some h => (delete sessionID (activeBulkHandles c), snd (Cancel h hs))
    | None => (activeBulkHandles c, hs)
    end in
  let contexts :=
    if bool_decide (requestID <> "")
    then <[requestID := mkContext sessionID next now]> (bulkRequestContexts c)
    else bulkRequestContexts c in
  (next, mkConn (conn_closed c) gens contexts active (requestBulkHandles c), hs).

Definition bulkRequestContext (requestID : string) (c : BulkConn) : option relayBulkRequestContext :=
  bulkRequestContexts c !! requestID.

(** [handle] is never nil: [SendResult] has just made it. *)
Definition installHandleIfSessionBulkGenerationCurrent (sessionID : string) (generation : Z)
    (handle : string) (c : BulkConn) (hs : HandleStore) : bool * BulkConn * HandleStore :=
  if conn_closed c || negb (sessionBulkGenerations c !!0 sessionID =? generation) then (false, c, hs)
  else
    let hs := match activeBulkHandles c !! sessionID with
              | Some old => snd (Cancel old hs) | None => hs end in
    (true,
     mkConn (conn_closed c) (sessionBulkGenerations c) (bulkRequestContexts c)
       (<[sessionID := handle]> (activeBulkHandles c)) (requestBulkHandles c), hs).

Definition completeBulkHandle (sessionID handle : string) (c : BulkConn) : BulkConn :=
  if bool_decide (activeBulkHandles c !! sessionID = Some handle)
  then mkConn (conn_closed c) (sessionBulkGenerations c) (bulkRequestContexts c)
         (delete sessionID (activeBulkHandles c)) (requestBulkHandles c)
  else c.

Definition installRequestBulkHandle (requestID handle : string) (c : BulkConn) (hs : HandleStore)
  : BulkConn * HandleStore :=
  let hs := match requestBulkHandles c !! requestID with
            | Some old => snd (Cancel old hs) | None => hs end in
  (mkConn (conn_closed c) (sessionBulkGenerations c) (bulkRequestContexts c) (activeBulkHandles c)
     (<[requestID := handle]> (requestBulkHandles c)), hs).

Definition lookupRequestBulkHandle (requestID : string) (c : BulkConn) : option string :=
  requestBulkHandles c !! requestID.

Definition completeRequestBulkHandle (requestID handle : string) (c : BulkConn) : BulkConn :=
  if bool_decide (requestBulkHandles c !! requestID = Some handle)
  then mkConn (conn_closed c) (sessionBulkGenerations c) (bulkRequestContexts c)
         (activeBulkHandles c) (delete requestID (requestBulkHandles c))
  else c.

(** [RelayDeviceConn.Close]: the bulk part. *)
Definition cancel_all (l : list string) (hs : HandleStore) : HandleStore :=
  fold_left (fun hs h => snd (Cancel h hs)) l hs.

Definition close_bulk (c : BulkConn) (hs : HandleStore) : BulkConn * HandleStore :=
  (mkConn true (sessionBulkGenerations c) ∅ ∅ (requestBulkHandles c),
   cancel_all (map snd (map_to_list (activeBulkHandles c))) hs).

(** ** The correlation registry (relaystate/registry.go) *)

Record CorrelatedRegistry : Type := mkRegistry {
  active : gset string;
  retired : gset string;
  maxActive : Z;
  maxRetired : Z
}.

Definition NewCorrelatedRegistry (maxA maxR : Z) : CorrelatedRegistry := mkRegistry ∅ ∅ maxA maxR.

Inductive PutReason : Type := AlreadyActive | Reuse | Busy | PutAdmitted.

Definition PutIfAbsent (key : string) (r : CorrelatedRegistry) : bool * PutReason * CorrelatedRegistry :=
  if bool_decide (key ∈ active r) then (false, AlreadyActive, r)
  else if bool_decide (key ∈ retired r) then (false, Reuse, r)
  else if Z.of_nat (size (active r)) >=? maxActive r then (false, Busy, r)
  else (true, PutAdmitted, mkRegistry ({[key]} ∪ active r) (retired r) (maxActive r) (maxRetired r)).

Definition Retire (key : string) (r : CorrelatedRegistry) : bool * CorrelatedRegistry :=
  if bool_decide (key ∉ active r) then (false, r)
  else
    let r := mkRegistry (active r ∖ {[key]}) (retired r) (maxActive r) (maxRetired r) in
    if Z.of_nat (size (retired r)) >=? maxRetired r then (false, r)
    else (true, mkRegistry (active r) ({[key]} ∪ retired r) (maxActive r) (maxRetired r)).

Definition ActiveCount (r : CorrelatedRegistry) : Z := Z.of_nat (size (active r)).
Definition RetiredCount (r : CorrelatedRegistry) : Z := Z.of_nat (size (retired r)).

(** *** Deadlines *)

Definition ServerGroupMaxAge : Z := 120 * second.
Definition ClientTotalCap : Z := 90 * second.
Definition PreFirstChunkIdle : Z := 30 * second.
Definition InterChunkIdle : Z := 15 * second.

Definition CheckDeadlineInvariants : bool :=
  (ServerGroupMaxAge >? ClientTotalCap) && (ClientTotalCap >? PreFirstChunkIdle) &&
  (PreFirstChunkIdle >? InterChunkIdle).

Definition PreFirstDeadline (requestCommit now : Z) : bool := now - requestCommit >=? PreFirstChunkIdle.
Definition InterChunkExceeded (lastChunkAt now : Z) : bool := now - lastChunkAt >=? InterChunkIdle.
Definition ClientTotalExceeded (requestCommit now : Z) : bool := now - requestCommit >=? ClientTotalCap.
Definition ServerGroupExpired (serverAdmitAt now : Z) : bool := now - serverAdmitAt >=? ServerGroupMaxAge.

(** A group the server has given up is one the client has given up. *)
Lemma deadlines_nested commit adm now :
  commit <= adm -> ServerGroupExpired adm now = true -> ClientTotalExceeded commit now = true.
Proof.
  unfold ServerGroupExpired, ClientTotalExceeded, ServerGroupMaxAge, ClientTotalCap, second. intros Hc H.
  zprop. rewrite Z.geb_leb. apply Z.leb_le. lia.
Qed.

(** ** Handles against the contract *)

Definition handle_ok (hs : HandleStore) (h : string) : Prop :=
  state_of hs h = bulkActive \/ state_of hs h = bulkCancelled \/ state_of hs h = bulkCommitted.

Inductive handle_op : Type := HCancel | HCommit.

Definition handle_step (o : handle_op) (h : string) (hs : HandleStore) : bool * HandleStore :=
  match o with HCancel => Cancel h hs | HCommit => MarkIndex0Committed h hs end.

(** The contract: a group waiting in the outbound queue, cancelled by
    [TryCancel] and committed by [Advance]. *)
Definition contract_step (o : handle_op) (s : CancelState) : bool * CancelState :=
  match o with
  | HCancel => let '(r, s) := TryCancel s false in (bool_decide (r = CancelCancelled), s)
  | HCommit => if Advance s StateCommittedToWriter then (true, StateCommittedToWriter) else (false, s)
  end.

Fixpoint contract_run (s : CancelState) (ops : list handle_op) : list bool :=
  match ops with
  | [] => []
  | o :: ops => let '(b, s) := contract_step o s in b :: contract_run s ops
  end.

(** The answers of the operations on one handle among those on all. *)
Fixpoint handle_run (h : string) (hs : HandleStore) (ops : list (handle_op * string)) : list bool :=
  match ops with
  | [] => []
  | (o, h') :: ops =>
      let '(b, hs) := handle_step o h' hs in
      if bool_decide (h' = h) then b :: handle_run h hs ops else handle_run h hs ops
  end.

Definition ops_on (h : string) (ops : list (handle_op * string)) : list handle_op :=
  map fst (filter (fun oh => oh.2 = h) ops).

(** The state of the contract a handle stands for. *)
Definition abstraction (z : Z) : CancelState :=
  if z =? bulkCancelled then StateCancelled
  else if z =? bulkCommitted then StateCommittedToWriter else StateOutboundQueued.

Lemma swap_state h old new hs h' :
  state_of (snd (CompareAndSwap h old new hs)) h' =
  if bool_decide (h' = h) && (state_of hs h =? old) then new else state_of hs h'.
Proof.
  unfold CompareAndSwap. destruct (state_of hs h =? old) eqn:E; simpl.
  - unfold state_of. case_bool_decide as Hh; simpl; [subst; by rewrite lookup_insert_eq|].
    by rewrite lookup_insert_ne.
  - by rewrite andb_false_r.
Qed.

Lemma state_of_empty h : state_of ∅ h = bulkActive.
Proof. unfold state_of. by rewrite lookup_empty. Qed.

(** What [Cancel] does to the states. *)
Lemma Cancel_state h hs h' :
  state_of (snd (Cancel h hs)) h' =
  if bool_decide (h' = h) && (state_of hs h =? bulkActive) then bulkCancelled else state_of hs h'.
Proof.
  unfold Cancel. destruct (Z.eqb_spec (state_of hs h) bulkCancelled) as [E|E].
  - rewrite E. simpl. by rewrite andb_false_r.
  - destruct (Z.eqb_spec (state_of hs h) bulkCommitted) as [E'|E']; [|apply swap_state].
    rewrite E'. simpl. by rewrite andb_false_r.
Qed.

Lemma handle_step_contract o h hs :
  handle_ok hs h ->
  let '(b, hs') := handle_step o h hs in
  contract_step o (abstraction (state_of hs h)) = (b, abstraction (state_of hs' h)) /\
  handle_ok hs' h.
Proof.
  intros Hok.
  assert (forall z, handle_ok (<[h := z]> hs) h <-> z = bulkActive \/ z = bulkCancelled \/ z = bulkCommitted) as Hi
    by (intros z; unfold handle_ok, state_of; by rewrite lookup_insert_eq).
  assert (forall z, state_of (<[h := z]> hs) h = z) as Hs
    by (intros z; unfold state_of; by rewrite lookup_insert_eq).
  destruct o; simpl; unfold Cancel, MarkIndex0Committed, CompareAndSwap.
  - destruct Hok as [E|[E|E]]; rewrite E; simpl; rewrite ?Hs, ?E; (split; [done|]); try apply Hi;
      unfold handle_ok; rewrite ?E; auto.
  - destruct Hok as [E|[E|E]]; rewrite E; simpl; rewrite ?Hs, ?E; (split; [done|]); try apply Hi;
      unfold handle_ok; rewrite ?E; auto.
Qed.

Lemma handle_step_other o h h' hs : h <> h' -> state_of (snd (handle_step o h' hs)) h = state_of hs h.
Proof.
  intros Hne. destruct o; simpl; [rewrite Cancel_state|unfold MarkIndex0Committed; rewrite swap_state];
    by rewrite bool_decide_eq_false_2.
Qed.

(** The handle keeps the contract of cancellation: whatever operations run on
    all handles, the answers on one handle are those of the state machine of
    relaystate/cancel.go started with the group in the outbound queue; in
    particular cancel and commit never both succeed. *)
Theorem handle_refines_contract h ops :
  handle_run h ∅ ops = contract_run StateOutboundQueued (ops_on h ops).
Proof.
  assert (forall hs, handle_ok hs h ->
    handle_run h hs ops = contract_run (abstraction (state_of hs h)) (ops_on h ops)) as Hall.
  { induction ops as [|[o h'] ops IH]; intros hs Hok; [done|]. cbn [handle_run].
    unfold ops_on. rewrite filter_cons. simpl. destruct (decide (h' = h)) as [->|Hh].
    - pose proof (handle_step_contract o h hs Hok) as Hc.
      destruct (handle_step o h hs) as [b hs']. destruct Hc as [Hc Hok'].
      rewrite bool_decide_eq_true_2 by done. simpl. rewrite Hc. f_equal. by apply IH.
    - pose proof (handle_step_other o h h' hs ltac:(congruence)) as Hs.
      destruct (handle_step o h' hs) as [b hs']. simpl in Hs.
      rewrite bool_decide_eq_false_2 by done. rewrite IH, Hs; [done|]. unfold handle_ok. by rewrite Hs. }
  rewrite (Hall ∅); [|left]; by rewrite state_of_empty.
Qed.

(** ** Sessions *)

Inductive conn_op : Type :=
| OAdvance (sessionID requestID : string) (now : Z)
| OInstall (sessionID : string) (generation : Z) (handle : string)
| OComplete (sessionID handle : string)
| OInstallRequest (requestID handle : string)
| OCompleteRequest (requestID handle : string)
| OHandle (o : handle_op) (handle : string)
| OClose.

(** The handles installed for a session under a generation, and those completed. *)
Record Trace : Type := mkTrace {
  conn : BulkConn;
  handles : HandleStore;
  installed : list (string * Z * string);
  completed : list (string * string)
}.

Definition exec (o : conn_op) (t : Trace) : Trace :=
  let '(mkTrace c hs ins don) := t in
  match o with
  | OAdvance s r now =>
      let '(_, c, hs) := advanceSessionBulkGeneration s r now c hs in mkTrace c hs ins don
  | OInstall s g h =>
      let '(ok, c, hs) := installHandleIfSessionBulkGenerationCurrent s g h c hs in
      mkTrace c hs (if ok then ins ++ [(s, g, h)] else ins) don
  | OComplete s h => mkTrace (completeBulkHandle s h c) hs ins (don ++ [(s, h)])
  | OInstallRequest r h => let '(c, hs) := installRequestBulkHandle r h c hs in mkTrace c hs ins don
  | OCompleteRequest r h => mkTrace (completeRequestBulkHandle r h c) hs ins don
  | OHandle o h => mkTrace c (snd (handle_step o h hs)) ins don
  | OClose => let '(c, hs) := close_bulk c hs in mkTrace c hs ins don
  end.

Definition run (ops : list conn_op) : Trace :=
  fold_left (fun t o => exec o t) ops (mkTrace new_bulk_conn ∅ [] []).

(** A handle that may still be committed is the current one of its session. *)
Definition current (t : Trace) (s : string) (g : Z) (h : string) : Prop :=
  activeBulkHandles (conn t) !! s = Some h /\ sessionBulkGenerations (conn t) !!0 s = g /\
  conn_closed (conn t) = false.

Definition live_current (t : Trace) : Prop :=
  (forall s g h, (s, g, h) ∈ installed t -> state_of (handles t) h = bulkActive ->
     current t s g h \/ (s, h) ∈ completed t) /\
  (forall h, handle_ok (handles t) h).

(** Operations only take handles away from the active state. *)
Lemma Cancel_active h hs h' : state_of (snd (Cancel h hs)) h' = bulkActive -> state_of hs h' = bulkActive /\ h' <> h.
Proof.
  rewrite Cancel_state. case_bool_decide as Hh; simpl.
  - subst. destruct (Z.eqb_spec (state_of hs h) bulkActive); [done|]. intros. done.
  - done.
Qed.

Lemma Cancel_ok h hs h' : handle_ok hs h' -> handle_ok (snd (Cancel h hs)) h'.
Proof. unfold handle_ok. rewrite Cancel_state. case_if; auto. Qed.

Lemma cancel_all_spec l hs h :
  (state_of (cancel_all l hs) h = bulkActive -> state_of hs h = bulkActive /\ h ∉ l) /\
  (handle_ok hs h -> handle_ok (cancel_all l hs) h).
Proof.
  revert hs. induction l as [|x l IH]; intros hs; [split; [set_solver|done]|].
  change (cancel_all (x :: l) hs) with (cancel_all l (snd (Cancel x hs))).
  destruct (IH (snd (Cancel x hs))) as [IH1 IH2]. split.
  - intros [Ha Hn]%IH1. apply Cancel_active in Ha as [Ha Hne]. set_solver.
  - intros Hok. by apply IH2, Cancel_ok.
Qed.

Lemma handle_step_active o h hs h' :
  state_of (snd (handle_step o h hs)) h' = bulkActive -> state_of hs h' = bulkActive.
Proof.
  destruct o; simpl; [by intros [? _]%Cancel_active|]. unfold MarkIndex0Committed. rewrite swap_state.
  case_if; [done|done].
Qed.

Lemma handle_step_ok o h hs h' : handle_ok hs h' -> handle_ok (snd (handle_step o h hs)) h'.
Proof.
  destruct o; simpl; [apply Cancel_ok|]. unfold handle_ok, MarkIndex0Committed. rewrite swap_state.
  case_if; auto.
Qed.

Lemma live_exec o t : live_current t -> live_current (exec o t).
Proof.
  destruct t as [c hs ins don]. intros [Hl Hok]. unfold current in Hl. simpl in Hl, Hok.
  destruct o as [s r now|s g h|s h|r h|r h|o h|]; cbn [exec].
  - unfold advanceSessionBulkGeneration. destruct (activeBulkHandles c !! s) as [h|] eqn:E; simpl.
    + split; [|intros; by apply Cancel_ok]. intros s' g' h' Hin [Ha Hne]%Cancel_active. simpl in *.
      destruct (Hl s' g' h' Hin Ha) as [(H1 & H2 & H3)|]; [left|by right]. unfold current; simpl.
      destruct (decide (s' = s)) as [->|Hs]; [congruence|]. by rewrite !lookup_insert_ne, lookup_delete_ne.
    + split; [|done]. intros s' g' h' Hin Ha.
      destruct (Hl s' g' h' Hin Ha) as [(H1 & H2 & H3)|]; [left|by right]. unfold current; simpl.
      destruct (decide (s' = s)) as [->|Hs]; [congruence|]. by rewrite !lookup_insert_ne.
  - unfold installHandleIfSessionBulkGenerationCurrent. destruct (_ || _) eqn:Eg; [by split|]. zprop.
    set (hs' := match activeBulkHandles c !! s with Some old => snd (Cancel old hs) | None => hs end).
    assert (forall h', state_of hs' h' = bulkActive ->
      state_of hs h' = bulkActive /\ activeBulkHandles c !! s <> Some h') as Hsub.
    { intros h'. subst hs'. destruct (activeBulkHandles c !! s); [|done].
      intros [? ?]%Cancel_active. split; congruence. }
    split.
    + intros s' g' h' Hin Ha. simpl in *. destruct (Hsub h' Ha) as [Ha' Hne].
      apply elem_of_app in Hin as [Hin|[= -> -> ->]%list_elem_of_singleton].
      * destruct (Hl s' g' h' Hin Ha') as [(H1 & H2 & H3)|]; [left|by right]. unfold current; simpl.
        destruct (decide (s' = s)) as [->|Hs]; [congruence|]. by rewrite lookup_insert_ne.
      * left. unfold current; simpl. by rewrite lookup_insert_eq.
    + intros h'. simpl. subst hs'. destruct (activeBulkHandles c !! s); [by apply Cancel_ok|done].
  - split; [|done]. intros s' g' h' Hin Ha. simpl in *.
    destruct (Hl s' g' h' Hin Ha) as [(H1 & H2 & H3)|]; [|right; set_solver].
    unfold completeBulkHandle. case_bool_decide as Hc; [|by left].
    destruct (decide (s' = s)) as [->|Hs]; [right; set_solver|left]. unfold current; simpl.
    by rewrite lookup_delete_ne.
  - unfold installRequestBulkHandle. destruct (requestBulkHandles c !! r) as [old|]; simpl.
    + split; [|intros; by apply Cancel_ok]. intros s' g' h' Hin [Ha _]%Cancel_active. by apply Hl.
    + by split.
  - unfold completeRequestBulkHandle. split; [|done]. intros s' g' h' Hin Ha. simpl in *.
    case_bool_decide; by apply Hl.
  - split; [|intros; by apply handle_step_ok]. intros s' g' h' Hin Ha%handle_step_active. by apply Hl.
  - split; [|intros h'; by apply cancel_all_spec]. intros s' g' h' Hin Ha. simpl in *.
    apply cancel_all_spec in Ha as [Ha Hn]. destruct (Hl s' g' h' Hin Ha) as [(H1 & _)|]; [|by right].
    exfalso. apply Hn, (list_elem_of_fmap_2 snd _ (s', h')). by apply elem_of_map_to_list.
Qed.

(** A superseded answer never starts: whatever the connection did before, when
    the writer can still commit a handle that was installed for a session, the
    handle is the current one, its generation is the session's latest and the
    connection is open, unless its group already completed. *)
Theorem superseded_never_starts ops s g h :
  let t := run ops in
  (s, g, h) ∈ installed t -> fst (MarkIndex0Committed h (handles t)) = true ->
  current t s g h \/ (s, h) ∈ completed t.
Proof.
  cbv zeta. assert (live_current (run ops)) as [Hl _].
  { unfold run. induction ops as [|o ops IH] using rev_ind; [split; [set_solver|left; apply state_of_empty]|].
    rewrite fold_left_app. by apply live_exec. }
  intros Hin Hm. apply Hl; [done|]. revert Hm. unfold MarkIndex0Committed, CompareAndSwap.
  by destruct (Z.eqb_spec (state_of (handles (run ops)) h) bulkActive).
Qed.

(** ** The registry *)

Inductive registry_op : Type := RPut (key : string) | RRetire (key : string).

Definition registry_exec (o : registry_op) (r : CorrelatedRegistry) : CorrelatedRegistry :=
  match o with RPut k => snd (PutIfAbsent k r) | RRetire k => snd (Retire k r) end.

Definition registry_run (ops : list registry_op) (r : CorrelatedRegistry) : CorrelatedRegistry :=
  fold_left (fun r o => registry_exec o r) ops r.

Record registry_ok (maxA maxR : Z) (r : CorrelatedRegistry) : Prop := {
  reg_caps : maxActive r = maxA /\ maxRetired r = maxR;
  reg_active : Z.of_nat (size (active r)) <= maxA;
  reg_retired : Z.of_nat (size (retired r)) <= maxR;
  reg_disjoint : active r ## retired r
}.

Lemma registry_exec_ok maxA maxR o r : registry_ok maxA maxR r -> registry_ok maxA maxR (registry_exec o r).
Proof.
  intros [[Ha Hr] H1 H2 H3]. destruct o as [k|k]; simpl.
  - unfold PutIfAbsent. repeat case_bool_decide; simpl; [done|done|]. case_if; simpl; [done|]. zprop.
    split; simpl; [done| |done|set_solver]. rewrite size_union by set_solver. rewrite size_singleton. lia.
  - unfold Retire. case_bool_decide as Hk; simpl; [done|].
    assert (size (active r ∖ {[k]}) <= size (active r))%nat by (apply subseteq_size; set_solver).
    case_if; simpl; zprop; (split; simpl; [done|lia| |set_solver]); [done|].
    rewrite size_union by set_solver. rewrite size_singleton. lia.
Qed.

Lemma retired_stays o r k : k ∈ retired r -> k ∈ retired (registry_exec o r).
Proof.
  intros Hk. destruct o; simpl; unfold PutIfAbsent, Retire; repeat case_if; simpl; set_solver.
Qed.

Lemma retired_forever ops r k : k ∈ retired r -> k ∈ retired (registry_run ops r).
Proof.
  revert r. induction ops as [|o ops IH]; intros r Hk; [done|]. by apply IH, retired_stays.
Qed.

(** The lifecycle of a correlation key: after any calls both sets are within
    their caps and disjoint; a key is admitted exactly when it is in neither and
    there is room; a key whose retirement was answered true is refused as a reuse
    ever after; and a key whose retirement overflowed is forgotten, so that it is
    admitted again. *)
Theorem registry_lifecycle maxA maxR ops k :
  0 <= maxA -> 0 <= maxR ->
  let r := registry_run ops (NewCorrelatedRegistry maxA maxR) in
  registry_ok maxA maxR r /\
  ((PutIfAbsent k r).1.1 = true <->
     ~ k ∈ active r /\ ~ k ∈ retired r /\ ActiveCount r < maxA) /\
  (fst (Retire k r) = true -> forall ops',
     let r' := registry_run ops' (snd (Retire k r)) in PutIfAbsent k r' = (false, Reuse, r')) /\
  (k ∈ active r -> fst (Retire k r) = false ->
     fst (PutIfAbsent k (snd (Retire k r))) = (true, PutAdmitted)).
Proof.
  intros HA HR. cbv zeta. set (r := registry_run ops (NewCorrelatedRegistry maxA maxR)).
  assert (forall ops r, registry_ok maxA maxR r -> registry_ok maxA maxR (registry_run ops r)) as Hrun.
  { intros ops'. induction ops' as [|o ops' IH]; intros r' Hr'; [done|]. by apply IH, registry_exec_ok. }
  assert (registry_ok maxA maxR r) as Hok by (apply Hrun; split; simpl; [done|done|done|set_solver]).
  split; [done|]. pose proof (reg_caps _ _ _ Hok) as [Ha Hr]. split; [|split].
  - unfold PutIfAbsent, ActiveCount. rewrite Ha. repeat case_bool_decide; simpl; [naive_solver..|].
    case_if; simpl; zprop; split; try done; lia.
  - intros Ht ops'. set (r2 := snd (Retire k r)).
    assert (k ∈ retired r2) as Hk.
    { subst r2. revert Ht. unfold Retire. case_bool_decide; [done|]. case_if; [done|]. simpl. set_solver. }
    assert (registry_ok maxA maxR r2) as Hok2 by (apply (registry_exec_ok _ _ (RRetire k)); done).
    pose proof (retired_forever ops' r2 k Hk) as Hk'.
    pose proof (reg_disjoint _ _ _ (Hrun ops' r2 Hok2)). unfold PutIfAbsent.
    rewrite bool_decide_eq_false_2 by set_solver. by rewrite bool_decide_eq_true_2.
  - intros Hin. unfold Retire. rewrite bool_decide_eq_false_2 by set_solver. case_if; [|done].
    intros _. simpl. pose proof (reg_disjoint _ _ _ Hok). pose proof (reg_active _ _ _ Hok).
    unfold PutIfAbsent. simpl.
    rewrite !bool_decide_eq_false_2 by set_solver. case_if; [|done]. exfalso. zprop.
    rewrite size_difference in Hif0 by set_solver. rewrite size_singleton in Hif0.
    assert (size (active r) <> 0)%nat by (rewrite size_non_empty_iff; set_solver). lia.
Qed.

Definition sample : list conn_op :=
  [OAdvance "s" "r1" 0; OInstall "s" 1 "g1"; OAdvance "s" "r2" 5; OInstall "s" 1 "g1'"; OInstall "s" 2 "g2"].

Lemma superseded_never_starts_witness :
  installed (run sample) = [("s", 1, "g1"); ("s", 2, "g2")] /\
  Cancelled "g1" (handles (run sample)) = true /\
  (current (run sample) "s" 2 "g2" \/ ("s", "g2") ∈ completed (run sample)).
Proof.
  split; [vm_compute; reflexivity|]. split; [vm_compute; reflexivity|].
  apply (superseded_never_starts sample "s" 2 "g2"); [|vm_compute; reflexivity].
  assert (installed (run sample) = [("s", 1, "g1"); ("s", 2, "g2")]) as -> by (vm_compute; reflexivity).
  by right; left.
Defined.

(** With a cap of one, the second retirement is lost and its key comes back. *)
Lemma registry_lifecycle_witness :
  let r := registry_run [RPut "a"; RRetire "a"; RPut "b"] (NewCorrelatedRegistry 2 1) in
  fst (Retire "b" r) = false /\ fst (PutIfAbsent "b" (snd (Retire "b" r))) = (true, PutAdmitted).
Proof.
  cbv zeta. set (r := registry_run [RPut "a"; RRetire "a"; RPut "b"] (NewCorrelatedRegistry 2 1)).
  assert (fst (Retire "b" r) = false) as Hf by (vm_compute; reflexivity). split; [exact Hf|].
  assert (0 <= 2) as H2 by lia. assert (0 <= 1) as H1 by lia.
  destruct (registry_lifecycle 2 1 [RPut "a"; RRetire "a"; RPut "b"] "b" H2 H1) as (_ & _ & _ & H).
  apply H; [|exact Hf]. apply (bool_decide_eq_true_1 ("b" ∈ active r)). vm_compute; reflexivity.
Defined.
