(* ===== verification/OutboundWriter.v ===== *)
(** * The relay outbound writer (go-bridge/relay_outbound_writer.go)

    The one goroutine that writes application data to the relay: a queue per
    class, weighted service among them, and long answers cut into chunk groups
    that give way between chunks. [relayOutboundWriter] is the state the mutex
    protects; [System] adds the handles, the worker of [run], what it wrote and
    the answers it gave. Sealing and sending a frame ([writeLogicalFrame]) is a
    choice of the environment between success and failure; time and the state of
    the connection are arguments of each write. Logging and the metric counters
    are not modelled. *)

From S2P Require Import Prelude.
From S2P Require Import RelayClass.
From S2P Require Import BulkState.

Definition relayOutboundQueueFrames : Z := 4096.
Definition relayOutboundQueueBytes : Z := Z.shiftl 64 20.
Definition relayOutboundBulkFrames : Z := 2048.
Definition relayOutboundBulkBytes : Z := Z.shiftl 48 20.
Definition relayControlBurstCap : Z := 8.

(** The bytes of a payload. *)
Abbreviation bytes := (list Byte.byte).

Record relayChunkCursor : Type := mkCursor {
  groupID : string;
  nextIndex : Z;
  count : Z;
  chunkBytes : Z;
  handle : string;
  cur_sessionID : string;
  sessionGeneration : Z;
  channelGeneration : Z;
  expiresAt : Z;
  bulkCorrelationID : string;
  cur_requestID : string
}.

(** A job. [jobID] stands for its pointer and [conn] for that of its connection. *)
Record relayOutboundJob : Type := mkJob {
  jobID : Z;
  conn : Z;
  deviceID : string;
  payload : bytes;
  contentEncoding : string;
  class : Z;
  waits : bool;                          (* [done] is not nil *)
  cursor : option relayChunkCursor
}.

Record relayOutboundWriter : Type := mkWriter {
  queues : list (list relayOutboundJob);          (* [relayOutboundClassCount] of them *)
  activeBulkGroupByDevice : gmap string string;
  queueFrames : Z;
  queueBytes : Z;
  bulkFrames : Z;
  bulkBytes : Z;
  lastDevice : list string;
  controlBurst : Z;
  serviceCursor : Z;
  wake : bool;
  stopped : bool
}.

Definition newRelayOutboundWriter : relayOutboundWriter :=
  mkWriter [[]; []; []; []; []] ∅ 0 0 0 0 [""; ""; ""; ""; ""] 0 0 false false.

Definition queue (c : Z) (w : relayOutboundWriter) : list relayOutboundJob :=
  default [] (queues w !! Z.to_nat c).
Definition last_device (c : Z) (w : relayOutboundWriter) : string :=
  default "" (lastDevice w !! Z.to_nat c).
(** [w.activeBulkGroupByDevice[d]], empty when there is none. *)
Definition active_group (d : string) (w : relayOutboundWriter) : string :=
  default "" (activeBulkGroupByDevice w !! d).

Definition set_queue (c : Z) (q : list relayOutboundJob) (w : relayOutboundWriter) : relayOutboundWriter :=
  mkWriter (<[Z.to_nat c := q]> (queues w)) (activeBulkGroupByDevice w) (queueFrames w) (queueBytes w)
    (bulkFrames w) (bulkBytes w) (lastDevice w) (controlBurst w) (serviceCursor w) (wake w) (stopped w).
Definition set_active (m : gmap string string) (w : relayOutboundWriter) : relayOutboundWriter :=
  mkWriter (queues w) m (queueFrames w) (queueBytes w) (bulkFrames w) (bulkBytes w) (lastDevice w)
    (controlBurst w) (serviceCursor w) (wake w) (stopped w).
Definition set_service (burst cur : Z) (w : relayOutboundWriter) : relayOutboundWriter :=
  mkWriter (queues w) (activeBulkGroupByDevice w) (queueFrames w) (queueBytes w) (bulkFrames w)
    (bulkBytes w) (lastDevice w) burst cur (wake w) (stopped w).
Definition set_flags (wk st : bool) (w : relayOutboundWriter) : relayOutboundWriter :=
  mkWriter (queues w) (activeBulkGroupByDevice w) (queueFrames w) (queueBytes w) (bulkFrames w)
    (bulkBytes w) (lastDevice w) (controlBurst w) (serviceCursor w) wk st.
(** The counters after [df] frames and [db] bytes more. *)
Definition count_total (df db : Z) (w : relayOutboundWriter) : relayOutboundWriter :=
  mkWriter (queues w) (activeBulkGroupByDevice w) (queueFrames w + df) (queueBytes w + db) (bulkFrames w)
    (bulkBytes w) (lastDevice w) (controlBurst w) (serviceCursor w) (wake w) (stopped w).
Definition count_bulk (df db : Z) (w : relayOutboundWriter) : relayOutboundWriter :=
  mkWriter (queues w) (activeBulkGroupByDevice w) (queueFrames w) (queueBytes w) (bulkFrames w + df)
    (bulkBytes w + db) (lastDevice w) (controlBurst w) (serviceCursor w) (wake w) (stopped w).
Definition set_last (c : Z) (d : string) (w : relayOutboundWriter) : relayOutboundWriter :=
  mkWriter (queues w) (activeBulkGroupByDevice w) (queueFrames w) (queueBytes w) (bulkFrames w)
    (bulkBytes w) (<[Z.to_nat c := d]> (lastDevice w)) (controlBurst w) (serviceCursor w) (wake w) (stopped w).

(** [append(w.queues[c], job)] *)
Definition push (c : Z) (job : relayOutboundJob) (w : relayOutboundWriter) : relayOutboundWriter :=
  set_queue c (queue c w ++ [job]) w.

Inductive WriterError : Type := ErrClosed | ErrOverflow | ErrBulkOverflow | ErrExpired | ErrSend.

Definition set_class (c : Z) (job : relayOutboundJob) : relayOutboundJob :=
  mkJob (jobID job) (conn job) (deviceID job) (payload job) (contentEncoding job) c (waits job) (cursor job).
Definition set_waits (job : relayOutboundJob) : relayOutboundJob :=
  mkJob (jobID job) (conn job) (deviceID job) (payload job) (contentEncoding job) (class job) true (cursor job).

(** The critical section of [enqueue]; the caller then waits for its answer. *)
Definition enqueue (job : relayOutboundJob) (w : relayOutboundWriter)
  : option WriterError * relayOutboundWriter :=
  let job := if class job >=? relayOutboundClassCount then set_class relayOutboundNormal job else job in
  let job := set_waits job in
  if stopped w then (Some ErrClosed, w)
  else if (queueFrames w + 1 >? relayOutboundQueueFrames)
          || (queueBytes w + zlen (payload job) >? relayOutboundQueueBytes) then (Some ErrOverflow, w)
  else (None, count_total 1 (zlen (payload job)) (push (class job) job w)).

(** The critical section of [admitBulk]. *)
Definition admitBulk (job : relayOutboundJob) (w : relayOutboundWriter)
  : option WriterError * relayOutboundWriter :=
  let job := set_class relayOutboundBulk job in
  let n := zlen (payload job) in
  if stopped w then (Some ErrClosed, w)
  else if (queueFrames w + 1 >? relayOutboundQueueFrames) || (queueBytes w + n >? relayOutboundQueueBytes)
          || (bulkFrames w + 1 >? relayOutboundBulkFrames) || (bulkBytes w + n >? relayOutboundBulkBytes)
  then (Some ErrBulkOverflow, w)
  else (None, count_bulk 1 n (count_total 1 n (push relayOutboundBulk job w))).

Definition requeueBulk (job : relayOutboundJob) (w : relayOutboundWriter) : relayOutboundWriter :=
  count_bulk 1 (zlen (payload job))
    (count_total 1 (zlen (payload job)) (push relayOutboundBulk job w)).

(** [len(w.queues[class]) != 0] *)
Definition ready (w : relayOutboundWriter) (c : Z) : bool := negb (bool_decide (queue c w = [])).

(** *** Choosing a job *)

(** The index of the first job that passes. *)
Definition find_index (p : relayOutboundJob -> bool) (l : list relayOutboundJob) : option nat :=
  fst <$> list_find (fun j => p j = true) l.

Definition eligible (w : relayOutboundWriter) (job : relayOutboundJob) : bool :=
  match cursor job with
  | None => true
  | Some cur =>
      let act := active_group (deviceID job) w in
      bool_decide (act = "") || bool_decide (act = groupID cur)
  end.

(** [None] for the index -1. *)
Definition selectBulkIndexLocked (w : relayOutboundWriter) (q : list relayOutboundJob) : option nat :=
  match find_index (fun j => eligible w j && negb (bool_decide (deviceID j = last_device relayOutboundBulk w))) q with
  | Some i => Some i
  | None => find_index (eligible w) q
  end.

Definition select_index (c : Z) (perDevice : bool) (w : relayOutboundWriter) : option nat :=
  let q := queue c w in
  if c =? relayOutboundBulk then selectBulkIndexLocked w q
  else if perDevice && (zlen q >? 1) && negb (bool_decide (last_device c w = "")) then
    Some (default 0%nat (find_index (fun j => negb (bool_decide (deviceID j = last_device c w))) q))
  else Some 0%nat.

(** The group a job opens for its device. *)
Definition open_group (c : Z) (job : relayOutboundJob) (w : relayOutboundWriter) : relayOutboundWriter :=
  match cursor job with
  | Some cur =>
      if (c =? relayOutboundBulk) && bool_decide (active_group (deviceID job) w = "")
      then set_active (<[deviceID job := groupID cur]> (activeBulkGroupByDevice w)) w else w
  | None => w
  end.

(** The state after the job at an index is taken. *)
Definition take_at (c : Z) (i : nat) (job : relayOutboundJob) (w : relayOutboundWriter)
  : relayOutboundWriter :=
  let w := open_group c job w in
  let w := set_queue c (take i (queue c w) ++ drop (S i) (queue c w)) w in
  let w := count_total (-1) (- zlen (payload job)) (set_last c (deviceID job) w) in
  if c =? relayOutboundBulk then count_bulk (-1) (- zlen (payload job)) w else w.

Definition popClassLocked (c : Z) (perDevice : bool) (w : relayOutboundWriter)
  : option relayOutboundJob * relayOutboundWriter :=
  match select_index c perDevice w with
  | None => (None, w)
  | Some i =>
      match queue c w !! i with
      | None => (None, w)                (* the code indexes non-empty queues only *)
      | Some job => (Some job, take_at c i job w)
      end
  end.

Definition serviceOrder : list Z :=
  [relayOutboundInteractive; relayOutboundInteractive; relayOutboundMetadata; relayOutboundNormal].

(** The loop over [serviceOrder]: the class to serve, and the cursor after it. *)
Fixpoint service (n : nat) (cur : Z) (w : relayOutboundWriter) : option Z * Z :=
  match n with
  | O => (None, cur)
  | S n =>
      let c := default relayOutboundNormal (serviceOrder !! Z.to_nat (cur mod 4)) in
      let cur := (cur + 1) mod 4 in
      if ready w c then (Some c, cur) else service n cur w
  end.

Definition pop (w : relayOutboundWriter) : option relayOutboundJob * relayOutboundWriter :=
  let nonControlReady :=
    existsb (ready w) [relayOutboundInteractive; relayOutboundMetadata; relayOutboundNormal; relayOutboundBulk] in
  if ready w relayOutboundControl && ((controlBurst w <? relayControlBurstCap) || negb nonControlReady) then
    popClassLocked relayOutboundControl false (set_service (controlBurst w + 1) (serviceCursor w) w)
  else
    match service 4 (serviceCursor w) w with
    | (Some c, cur) => popClassLocked c true (set_service 0 cur w)
    | (None, cur) =>
        let w := set_service (controlBurst w) cur w in
        if ready w relayOutboundBulk then popClassLocked relayOutboundBulk true (set_service 0 cur w)
        else if ready w relayOutboundControl
        then popClassLocked relayOutboundControl false (set_service (controlBurst w + 1) cur w)
        else (None, w)
    end.

Definition completeBulkGroup (job : relayOutboundJob) (w : relayOutboundWriter) : relayOutboundWriter :=
  match cursor job with
  | None => w
  | Some cur =>
      if bool_decide (active_group (deviceID job) w = groupID cur)
      then set_active (delete (deviceID job) (activeBulkGroupByDevice w)) w else w
  end.

Definition all_jobs (w : relayOutboundWriter) : list relayOutboundJob := concat (queues w).

(** The handles cancelled by [failQueued], in order. *)
Definition cursor_handles (l : list relayOutboundJob) : list string :=
  concat (map (fun j => match cursor j with Some cur => [handle cur] | None => [] end) l).

Definition failQueued (w : relayOutboundWriter) : relayOutboundWriter :=
  mkWriter [[]; []; []; []; []] (activeBulkGroupByDevice w) 0 0 0 0 (lastDevice w) (controlBurst w)
    (serviceCursor w) (wake w) (stopped w).

(** ** Writing *)

Record RelayChunkMetadata : Type := mkMeta {
  m_GroupID : string;
  m_Index : Z;
  m_Count : Z;
  m_BulkCorrelationID : string
}.

(** A frame handed to the relay. *)
Record Frame : Type := mkFrame {
  f_device : string;
  f_payload : bytes;
  f_encoding : string;
  f_chunk : option RelayChunkMetadata
}.

(** [payload[start:end]] of a chunk. *)
Definition slice (start len : Z) (p : bytes) : bytes := take (Z.to_nat len) (drop (Z.to_nat start) p).

Definition chunk_frame (job : relayOutboundJob) (cur : relayChunkCursor) : Frame :=
  mkFrame (deviceID job) (slice (nextIndex cur * chunkBytes cur) (chunkBytes cur) (payload job))
    (contentEncoding job)
    (Some (mkMeta (groupID cur) (nextIndex cur) (count cur) (bulkCorrelationID cur))).

Definition set_cursor (cur : relayChunkCursor) (job : relayOutboundJob) : relayOutboundJob :=
  mkJob (jobID job) (conn job) (deviceID job) (payload job) (contentEncoding job) (class job) (waits job) (Some cur).

(** [cursor.nextIndex++] *)
Definition advance (cur : relayChunkCursor) : relayChunkCursor :=
  mkCursor (groupID cur) (wrap_u32 (nextIndex cur + 1)) (count cur) (chunkBytes cur) (handle cur)
    (cur_sessionID cur) (sessionGeneration cur) (channelGeneration cur) (expiresAt cur)
    (bulkCorrelationID cur) (cur_requestID cur).

(** The environment of one write: the time, the generation and openness of the
    connection, and whether [writeLogicalFrame] succeeds. *)
Record Env : Type := mkEnv { now : Z; generation : Z; isClosed : bool; sends : bool }.

(** The answer: error, completion, the job after it, the handles, the frames. *)
Record Written : Type := mkWritten {
  w_err : option WriterError;
  w_complete : bool;
  w_job : relayOutboundJob;
  w_handles : HandleStore;
  w_frames : list Frame
}.

Definition writeSelected (e : Env) (job : relayOutboundJob) (hs : HandleStore) : Written :=
  match cursor job with
  | None =>
      if sends e then mkWritten None true job hs [mkFrame (deviceID job) (payload job) (contentEncoding job) None]
      else mkWritten (Some ErrSend) true job hs []
  | Some cur =>
      let '(go, hs) := if nextIndex cur =? 0 then MarkIndex0Committed (handle cur) hs else (true, hs) in
      if negb go then mkWritten None true job hs []
      else if now e >? expiresAt cur then
        mkWritten (if nextIndex cur >? 0 then Some ErrExpired else None) true job hs []
      else if negb (generation e =? channelGeneration cur) || isClosed e then mkWritten None true job hs []
      else if nextIndex cur * chunkBytes cur >=? zlen (payload job) then mkWritten None true job hs []
      else if sends e then
        mkWritten None (nextIndex (advance cur) >=? count cur) (set_cursor (advance cur) job) hs
          [chunk_frame job cur]
      else mkWritten (Some ErrSend) true job hs []
  end.

(** ** The goroutines *)

(** What the writer touches of a connection. *)
Record ConnState : Type := mkConnState {
  bulk : BulkConn;
  correlations : CorrelatedRegistry;
  conn_generation : Z
}.

Inductive Worker : Type :=
| WIdle
| WDraining
| WHolding (job : relayOutboundJob)                                    (* before [writeSelected] *)
| WWritten (job : relayOutboundJob) (err : option WriterError) (complete : bool)
| WReturned.

Record System : Type := mkSystem {
  writer : relayOutboundWriter;
  worker : Worker;
  hstore : HandleStore;
  conns : gmap Z ConnState;
  wire : list Frame;
  answers : list (Z * option WriterError);
  signals : nat;
  admitted : list relayOutboundJob;       (* the bulk jobs accepted so far *)
  asked : list Z;                         (* the jobs [enqueue] accepted, whose callers wait *)
  plainPopped : list relayOutboundJob     (* the bulk jobs without cursor popped so far *)
}.

Definition init : System := mkSystem newRelayOutboundWriter WIdle ∅ ∅ [] [] 0 [] [] [].

Definition conn_after (job : relayOutboundJob) (err : option WriterError) (cs : ConnState) (hs : HandleStore)
  : ConnState * HandleStore :=
  let cs :=
    match cursor job with
    | None => cs
    | Some cur =>
        let b := if bool_decide (cur_sessionID cur <> "")
                 then completeBulkHandle (cur_sessionID cur) (handle cur) (bulk cs) else bulk cs in
        let b := if bool_decide (cur_requestID cur <> "")
                 then completeRequestBulkHandle (cur_requestID cur) (handle cur) b else b in
        let r := if bool_decide (bulkCorrelationID cur <> "")
                 then snd (Retire (bulkCorrelationID cur) (correlations cs)) else correlations cs in
        mkConnState b r (conn_generation cs)
    end in
  if bool_decide (err = None) then (cs, hs)
  else let '(b, hs) := close_bulk (bulk cs) hs in (mkConnState b (correlations cs) (conn_generation cs), hs).

(** The body of the inner loop of [run] after [writeSelected]. *)
Definition finish (job : relayOutboundJob) (err : option WriterError) (complete : bool) (s : System) : System :=
  if complete then
    let '(cns, hs) :=
      match conns s !! conn job with
      | None => (conns s, hstore s)
      | Some cs => let '(cs, hs) := conn_after job err cs (hstore s) in (<[conn job := cs]> (conns s), hs)
      end in
    mkSystem (completeBulkGroup job (writer s)) WDraining hs cns (wire s)
      (if waits job then answers s ++ [(jobID job, err)] else answers s)
      (signals s) (admitted s) (asked s) (plainPopped s)
  else
    mkSystem (requeueBulk job (writer s)) WDraining (hstore s) (conns s) (wire s) (answers s) (signals s)
      (admitted s) (asked s) (plainPopped s).

(** [failQueued]: every waiting caller is answered, every handle cancelled. *)
Definition fail_system (s : System) : System :=
  let jobs := all_jobs (writer s) in
  mkSystem (failQueued (writer s)) WReturned (cancel_all (cursor_handles jobs) (hstore s)) (conns s) (wire s)
    (answers s ++ map (fun j => (jobID j, Some ErrClosed)) (filter (fun j => waits j = true) jobs))
    (signals s) (admitted s) (asked s) (plainPopped s).

Definition set_writer (w : relayOutboundWriter) (wk : Worker) (s : System) : System :=
  mkSystem w wk (hstore s) (conns s) (wire s) (answers s) (signals s) (admitted s) (asked s) (plainPopped s).

(** [now] and [sends] are given; the rest of the environment is the connection. *)
Definition env_of (t : Z) (ok : bool) (job : relayOutboundJob) (s : System) : Env :=
  match conns s !! conn job with
  | Some cs => mkEnv t (conn_generation cs) (conn_closed (bulk cs)) (ok && negb (conn_closed (bulk cs)))
  | None => mkEnv t 0 true false
  end.

(** The worker's next step; when both channels are ready [stop_first] chooses. *)
Definition work (t : Z) (ok stop_first : bool) (s : System) : System :=
  let w := writer s in
  match worker s with
  | WIdle =>
      if stopped w && (stop_first || negb (wake w)) then fail_system s
      else if wake w then set_writer (set_flags false (stopped w) w) WDraining s else s
  | WDraining =>
      match pop w with
      | (Some job, w) =>
          mkSystem w (WHolding job) (hstore s) (conns s) (wire s) (answers s) (signals s) (admitted s) (asked s)
            (if (class job =? relayOutboundBulk) && bool_decide (cursor job = None)
             then plainPopped s ++ [job] else plainPopped s)
      | (None, w) => set_writer w WIdle s
      end
  | WHolding job =>
      let r := writeSelected (env_of t ok job s) job (hstore s) in
      mkSystem w (WWritten (w_job r) (w_err r) (w_complete r)) (w_handles r) (conns s) (wire s ++ w_frames r)
        (answers s) (signals s) (admitted s) (asked s) (plainPopped s)
  | WWritten job err complete => finish job err complete s
  | WReturned => s
  end.

Definition job_group (j : relayOutboundJob) : string :=
  match cursor j with Some cur => groupID cur | None => "" end.

(** A bulk job as [SendResult] builds it, with a group id of its own. *)
Definition well_cut (j : relayOutboundJob) : Prop :=
  match cursor j with
  | None => False
  | Some cur =>
      waits j = false /\ nextIndex cur = 0 /\ groupID cur <> "" /\ handle cur = groupID cur /\
      0 < chunkBytes cur /\ 0 < zlen (payload j) /\ count cur <= u32_max /\
      (count cur - 1) * chunkBytes cur < zlen (payload j) <= count cur * chunkBytes cur
  end.

#[export] Instance well_cut_dec j : Decision (well_cut j).
Proof. unfold well_cut. destruct (cursor j); apply _. Defined.

Inductive action : Type :=
| AEnqueue (job : relayOutboundJob)
| AAdmit (job : relayOutboundJob)
| ASignal
| ACancel (h : string)
| AConn (k : Z) (cs : ConnState)
| AWork (t : Z) (ok stop_first : bool)
| AClose.

Definition perform (a : action) (s : System) : System :=
  match a with
  | AEnqueue job =>
      if bool_decide (cursor job = None /\ 0 <= class job < 256) then
        match enqueue job (writer s) with
        | (None, w) => mkSystem w (worker s) (hstore s) (conns s) (wire s) (answers s) (S (signals s))
                         (admitted s) (asked s ++ [jobID job]) (plainPopped s)
        | (Some _, w) => set_writer w (worker s) s
        end
      else s
  | AAdmit job =>
      if bool_decide (well_cut job /\ job_group job ∉ map job_group (admitted s)) then
        match admitBulk job (writer s) with
        | (None, w) => mkSystem w (worker s) (hstore s) (conns s) (wire s) (answers s) (S (signals s))
                         (admitted s ++ [job]) (asked s) (plainPopped s)
        | (Some _, w) => set_writer w (worker s) s
        end
      else s
  | ASignal =>
      match signals s with
      | O => s
      | S n => mkSystem (set_flags true (stopped (writer s)) (writer s)) (worker s) (hstore s) (conns s)
                 (wire s) (answers s) n (admitted s) (asked s) (plainPopped s)
      end
  | ACancel h => mkSystem (writer s) (worker s) (snd (Cancel h (hstore s))) (conns s) (wire s) (answers s)
                   (signals s) (admitted s) (asked s) (plainPopped s)
  | AConn k cs => mkSystem (writer s) (worker s) (hstore s) (<[k := cs]> (conns s)) (wire s) (answers s)
                    (signals s) (admitted s) (asked s) (plainPopped s)
  | AWork t ok stop_first => work t ok stop_first s
  | AClose => set_writer (set_flags (wake (writer s)) true (writer s)) (worker s) s
  end.

Definition run (acts : list action) : System := fold_left (fun s a => perform a s) acts init.

(** ** Queues *)

Lemma sum_with_perm {A : Type} (f : A -> Z) l1 l2 : l1 ≡ₚ l2 -> sum_with f l1 = sum_with f l2.
Proof. induction 1; simpl; lia. Qed.

Definition is_class (c : Z) : Prop := 0 <= c < relayOutboundClassCount.

Lemma queue_set c c' q w :
  length (queues w) = 5%nat -> is_class c -> is_class c' ->
  queue c (set_queue c' q w) = if decide (c = c') then q else queue c w.
Proof.
  unfold is_class, relayOutboundClassCount. intros Hl Hc Hc'. unfold queue. simpl. case_decide as He.
  - subst. rewrite list_lookup_insert_eq by lia. done.
  - rewrite list_lookup_insert_ne by lia. done.
Qed.

Lemma queue_lookup c w : length (queues w) = 5%nat -> is_class c -> queues w !! Z.to_nat c = Some (queue c w).
Proof.
  unfold is_class, relayOutboundClassCount. intros Hl Hc. unfold queue.
  destruct (lookup_lt_is_Some_2 (queues w) (Z.to_nat c)) as [q Hq]; [lia|]. by rewrite Hq.
Qed.

Lemma concat_insert {A : Type} (ls : list (list A)) n q q' :
  ls !! n = Some q -> q ++ concat (<[n := q']> ls) ≡ₚ q' ++ concat ls.
Proof.
  revert n. induction ls as [|l ls IH]; intros [|n] Hn; simpl in *; [done|done| |].
  - injection Hn as ->. solve_Permutation.
  - rewrite (Permutation_app_comm l (concat _)), app_assoc, (IH n Hn). solve_Permutation.
Qed.

Lemma concat_member {A : Type} (ls : list (list A)) n q x : ls !! n = Some q -> x ∈ q -> x ∈ concat ls.
Proof.
  intros Hn Hx. apply list_elem_of_In, in_concat. exists q.
  split; apply list_elem_of_In; [by eapply list_elem_of_lookup_2|done].
Qed.

Lemma member_concat w j :
  length (queues w) = 5%nat -> j ∈ all_jobs w -> exists c, is_class c /\ j ∈ queue c w.
Proof.
  intros Hl Hj. unfold all_jobs in Hj. apply list_elem_of_In, in_concat in Hj as (q & Hq & Hj).
  apply list_elem_of_In, list_elem_of_lookup_1 in Hq as [n Hn]. exists (Z.of_nat n).
  pose proof (lookup_lt_Some _ _ _ Hn). unfold is_class, relayOutboundClassCount. split; [lia|].
  unfold queue. rewrite Nat2Z.id, Hn. by apply list_elem_of_In.
Qed.

Lemma existsb_ready w l : existsb (ready w) l = true <-> exists c, c ∈ l /\ queue c w <> [].
Proof.
  rewrite existsb_exists. unfold ready. split.
  - intros (c & Hc & Hr). zprop. exists c. by rewrite list_elem_of_In.
  - intros (c & Hc & Hr). exists c. rewrite <- list_elem_of_In. split; [done|].
    by rewrite bool_decide_eq_false_2.
Qed.

(** ** What the operations do to the queues *)

Record shape (w : relayOutboundWriter) : Prop := {
  sh_queues : length (queues w) = 5%nat;
  sh_class : forall c j, is_class c -> j ∈ queue c w -> class j = c;
  sh_service : 0 <= serviceCursor w < 4;
  sh_burst : 0 <= controlBurst w;
  sh_frames : queueFrames w = zlen (all_jobs w);
  sh_bytes : queueBytes w = sum_with (fun j => zlen (payload j)) (all_jobs w)
}.

(** [job] joins the queue of its class. *)
Record joined (j : relayOutboundJob) (w w' : relayOutboundWriter) : Prop := {
  jo_shape : shape w';
  jo_queue : forall c, is_class c -> queue c w' = queue c w ++ (if decide (c = class j) then [j] else []);
  jo_all : all_jobs w' ≡ₚ j :: all_jobs w;
  jo_active : activeBulkGroupByDevice w' = activeBulkGroupByDevice w;
  jo_service : serviceCursor w' = serviceCursor w /\ controlBurst w' = controlBurst w;
  jo_flags : wake w' = wake w /\ stopped w' = stopped w
}.

Lemma push_joined j w :
  shape w -> is_class (class j) ->
  joined j w (count_total 1 (zlen (payload j)) (push (class j) j w)).
Proof.
  intros [Hl Hc Hs Hb Hf Hby] Hj.
  set (w' := count_total 1 (zlen (payload j)) (push (class j) j w)).
  assert (forall c, is_class c -> queue c w' = queue c w ++ (if decide (c = class j) then [j] else [])) as Hq.
  { intros c Hic. change (queue c w') with (queue c (push (class j) j w)). unfold push.
    rewrite queue_set by done. case_decide; [by subst|by rewrite app_nil_r]. }
  assert (all_jobs w' ≡ₚ j :: all_jobs w) as Ha.
  { unfold all_jobs. simpl. apply (Permutation_app_inv_l (queue (class j) w)).
    rewrite concat_insert by (by apply queue_lookup). solve_Permutation. }
  split; try done. split; try done.
  - simpl. by rewrite length_insert.
  - intros c j' Hic. rewrite Hq by done. rewrite elem_of_app. intros [Hin|Hin]; [by apply Hc|].
    case_decide; [apply list_elem_of_singleton in Hin; congruence|set_solver].
  - simpl. rewrite Ha. simpl. lia.
  - simpl. rewrite (sum_with_perm _ _ _ Ha). simpl. lia.
Qed.

Lemma joined_count_bulk j w w' df db : joined j w w' -> joined j w (count_bulk df db w').
Proof. intros [[] ? ? ? ? ?]. by split. Qed.

(** [job] leaves the queue of its class. *)
Record left_queue (j : relayOutboundJob) (w w' : relayOutboundWriter) : Prop := {
  lq_shape : shape w';
  lq_class : is_class (class j);
  lq_queue : exists l1 l2, queue (class j) w = l1 ++ j :: l2 /\
    forall c, is_class c -> queue c w' = if decide (c = class j) then l1 ++ l2 else queue c w;
  lq_all : all_jobs w ≡ₚ j :: all_jobs w';
  lq_active : activeBulkGroupByDevice w' = activeBulkGroupByDevice (open_group (class j) j w);
  lq_bulk : bulkFrames w' = bulkFrames w - (if class j =? relayOutboundBulk then 1 else 0) /\
    bulkBytes w' = bulkBytes w - (if class j =? relayOutboundBulk then zlen (payload j) else 0);
  lq_flags : wake w' = wake w /\ stopped w' = stopped w
}.

Lemma take_at_left c i j w :
  shape w -> is_class c -> queue c w !! i = Some j -> left_queue j w (take_at c i j w).
Proof.
  intros [Hl Hc Hs Hb Hf Hby] Hic Hi.
  assert (class j = c) as Hj by (eapply Hc; [done|by eapply list_elem_of_lookup_2]). subst c.
  pose proof (take_drop_middle _ _ _ Hi) as Hsplit.
  set (l1 := take i (queue (class j) w)) in *. set (l2 := drop (S i) (queue (class j) w)) in *.
  set (w' := take_at (class j) i j w).
  assert (queues (open_group (class j) j w) = queues w) as Ho
    by (unfold open_group; destruct (cursor j); [by case_if|done]).
  assert (queues w' = <[Z.to_nat (class j) := l1 ++ l2]> (queues w)) as Hqs.
  { unfold w', take_at. subst l1 l2. unfold queue. rewrite Ho.
    destruct (class j =? relayOutboundBulk); simpl; by rewrite Ho. }
  assert (forall c, is_class c -> queue c w' = if decide (c = class j) then l1 ++ l2 else queue c w) as Hq.
  { intros c Hcc. rewrite <- (queue_set c (class j) (l1 ++ l2) w) by done. unfold queue. by rewrite Hqs. }
  assert (all_jobs w ≡ₚ j :: all_jobs w') as Ha.
  { unfold all_jobs. rewrite Hqs. apply (Permutation_app_inv_l (l1 ++ l2)).
    pose proof (concat_insert (queues w) (Z.to_nat (class j)) (queue (class j) w) (l1 ++ l2)
      (queue_lookup _ _ Hl Hic)) as Hp. rewrite <- Hp, <- Hsplit. solve_Permutation. }
  assert (serviceCursor w' = serviceCursor w /\ controlBurst w' = controlBurst w /\
    wake w' = wake w /\ stopped w' = stopped w /\ queueFrames w' = queueFrames w - 1 /\
    queueBytes w' = queueBytes w - zlen (payload j) /\
    activeBulkGroupByDevice w' = activeBulkGroupByDevice (open_group (class j) j w) /\
    (bulkFrames w' = bulkFrames w - (if class j =? relayOutboundBulk then 1 else 0) /\
     bulkBytes w' = bulkBytes w - (if class j =? relayOutboundBulk then zlen (payload j) else 0)))
    as (E1 & E2 & E3 & E4 & E5 & E6 & E7 & E8).
  { unfold w', take_at, open_group. destruct (cursor j); [destruct (_ && _)|];
      destruct (class j =? relayOutboundBulk); simpl; split_and!; lia || done. }
  split; try done; [|by exists l1, l2].
  split; rewrite ?E1, ?E2; try done.
  - by rewrite Hqs, length_insert.
  - intros c j' Hcc. rewrite Hq by done. case_decide as He; [|by apply Hc]. subst c. intros Hin.
    apply Hc; [done|]. rewrite <- Hsplit. set_solver.
  - rewrite E5, Hf, Ha. simpl. lia.
  - rewrite E6, Hby, (sum_with_perm _ _ _ Ha). simpl. lia.
Qed.

Lemma find_index_Some p l i : find_index p l = Some i -> exists j, l !! i = Some j /\ p j = true.
Proof.
  unfold find_index. destruct (list_find (fun j => p j = true) l) as [[k j]|] eqn:E; [|done].
  intros [= <-]. apply list_find_Some in E as (H1 & H2 & _). eauto.
Qed.

Lemma find_index_None p l : find_index p l = None -> forall j, j ∈ l -> p j = false.
Proof.
  unfold find_index. destruct (list_find (fun j => p j = true) l) as [[k j]|] eqn:E; [done|].
  intros _ j Hj. apply list_find_None in E. rewrite Forall_forall in E. specialize (E j Hj).
  by destruct (p j).
Qed.

Lemma select_Some c per w i :
  queue c w <> [] -> select_index c per w = Some i ->
  exists j, queue c w !! i = Some j /\ (c = relayOutboundBulk -> eligible w j = true).
Proof.
  intros Hne. assert (exists j, queue c w !! 0%nat = Some j) as [j0 H0]
    by (destruct (queue c w); [done|by eexists]).
  unfold select_index. destruct (Z.eqb_spec c relayOutboundBulk) as [->|Hc].
  - unfold selectBulkIndexLocked. destruct (find_index _ _) as [k|] eqn:E.
    + intros [= <-]. apply find_index_Some in E as (j & Hj & Hp). zprop. eauto.
    + intros (j & Hj & Hp)%find_index_Some. eauto.
  - case_if; intros [= <-]; [|by exists j0].
    destruct (find_index _ _) as [k|] eqn:E; simpl; [|by exists j0].
    apply find_index_Some in E as (j & Hj & _). by exists j.
Qed.

Lemma select_None c per w :
  select_index c per w = None ->
  c = relayOutboundBulk /\ forall j, j ∈ queue relayOutboundBulk w -> eligible w j = false.
Proof.
  unfold select_index. destruct (Z.eqb_spec c relayOutboundBulk) as [->|Hc]; [|by case_if].
  unfold selectBulkIndexLocked. destruct (find_index _ _) as [k|] eqn:E; [done|].
  intros Hn. split; [done|]. by apply find_index_None.
Qed.

(** Taking a job, from a state whose service counters were moved. *)
Lemma popClass_Some c per b cur w j w' :
  shape w -> is_class c -> 0 <= b -> 0 <= cur < 4 ->
  popClassLocked c per (set_service b cur w) = (Some j, w') ->
  left_queue j w w' /\ class j = c /\ (c = relayOutboundBulk -> eligible w j = true).
Proof.
  intros Hsh Hc Hb Hcur. unfold popClassLocked.
  destruct (select_index c per (set_service b cur w)) as [i|] eqn:Ei; [|done].
  destruct (queue c (set_service b cur w) !! i) as [j'|] eqn:Ej; [|done]. intros [= -> <-].
  assert (shape (set_service b cur w)) as Hsh' by (destruct Hsh; by split).
  pose proof (take_at_left c i j _ Hsh' Hc Ej) as [H1 H2 H3 H4 H5 H6 H7].
  assert (class j = c) as Hj by (eapply (sh_class w Hsh); [done|by eapply list_elem_of_lookup_2]).
  split; [|split; [done|]].
  - split; try done. rewrite H5. unfold open_group. destruct (cursor j); [|done].
    change (active_group (deviceID j) (set_service b cur w)) with (active_group (deviceID j) w). by case_if.
  - intros ->. apply select_Some in Ei as (j2 & Hj2 & He).
    + rewrite Ej in Hj2. injection Hj2 as <-. by apply He.
    + intros Hn. by rewrite Hn in Ej.
Qed.

Lemma popClass_None c per w w' :
  queue c w <> [] -> popClassLocked c per w = (None, w') ->
  w' = w /\ c = relayOutboundBulk /\ forall j, j ∈ queue relayOutboundBulk w -> eligible w j = false.
Proof.
  intros Hne. unfold popClassLocked. destruct (select_index c per w) as [i|] eqn:Ei.
  - destruct (select_Some c per w i Hne Ei) as (j & -> & _). done.
  - intros [= <-]. split; [done|]. by apply select_None in Ei.
Qed.

Lemma service_spec n cur w :
  0 <= cur < 4 ->
  0 <= snd (service n cur w) < 4 /\
  match fst (service n cur w) with
  | Some c => c ∈ serviceOrder /\ queue c w <> []
  | None => True
  end.
Proof.
  revert cur. induction n as [|n IH]; intros cur Hcur; [done|]. cbn [service].
  assert (0 <= (cur + 1) mod 4 < 4) as Hm by (apply Z.mod_pos_bound; lia).
  destruct (ready w _) eqn:E; [|by apply IH]. split; [done|]. split.
  - assert (cur mod 4 = 0 \/ cur mod 4 = 1 \/ cur mod 4 = 2 \/ cur mod 4 = 3) as Hc
      by (pose proof (Z.mod_pos_bound cur 4); lia).
    destruct Hc as [->|[->|[->| ->]]]; simpl; unfold serviceOrder; set_solver.
  - unfold ready in E. by zprop.
Qed.

Lemma service_class c : c ∈ serviceOrder -> is_class c /\ c <> relayOutboundBulk /\ c <> relayOutboundControl.
Proof.
  unfold serviceOrder, is_class, relayOutboundClassCount, relayOutboundBulk, relayOutboundControl.
  intros Hc. repeat (apply elem_of_cons in Hc as [->|Hc]; [unfold relayOutboundInteractive,
    relayOutboundMetadata, relayOutboundNormal; lia|]). by apply elem_of_nil in Hc.
Qed.

Lemma ready_false w c : ready w c = false <-> queue c w = [].
Proof. unfold ready. rewrite negb_false_iff. apply bool_decide_eq_true. Qed.

Lemma ready_true w c : ready w c = true <-> queue c w <> [].
Proof. unfold ready. rewrite negb_true_iff. apply bool_decide_eq_false. Qed.

Ltac cursor_cases cur :=
  assert (cur = 0 \/ cur = 1 \/ cur = 2 \/ cur = 3) as [->|[->|[->| ->]]] by lia.

(** The classes in the order four turns of the loop look at them, each with the
    cursor after it. *)
Definition turns (cur : Z) : list (Z * Z) :=
  let I := relayOutboundInteractive in let M := relayOutboundMetadata in let N := relayOutboundNormal in
  if cur =? 0 then [(I, 1); (I, 2); (M, 3); (N, 0)]
  else if cur =? 1 then [(I, 2); (M, 3); (N, 0); (I, 1)]
  else if cur =? 2 then [(M, 3); (N, 0); (I, 1); (I, 2)]
  else [(N, 0); (I, 1); (I, 2); (M, 3)].

Fixpoint first_turn (l : list (Z * Z)) (cur : Z) (w : relayOutboundWriter) : option Z * Z :=
  match l with
  | [] => (None, cur)
  | (c, cur') :: l => if ready w c then (Some c, cur') else first_turn l cur w
  end.

Lemma service_turns cur w : 0 <= cur < 4 -> service 4 cur w = first_turn (turns cur) cur w.
Proof. intros Hcur. cursor_cases cur; reflexivity. Qed.

(** Four turns of the service loop visit every class of the order. *)
Lemma service_None cur w :
  0 <= cur < 4 -> fst (service 4 cur w) = None -> forall c, c ∈ serviceOrder -> queue c w = [].
Proof.
  intros Hcur. rewrite service_turns by done. intros Hn c Hc. apply ready_false. revert Hn Hc.
  unfold serviceOrder. rewrite !elem_of_cons, elem_of_nil.
  cursor_cases cur; simpl; destruct (ready w relayOutboundInteractive) eqn:E1; try done;
    destruct (ready w relayOutboundMetadata) eqn:E2; try done;
    destruct (ready w relayOutboundNormal) eqn:E3; try done;
    intros _ [->|[->|[->|[->|[]]]]]; done.
Qed.

Lemma class_split c :
  is_class c -> c = relayOutboundControl \/ c = relayOutboundBulk \/ c ∈ serviceOrder.
Proof.
  unfold is_class, relayOutboundClassCount, serviceOrder, relayOutboundControl, relayOutboundBulk,
    relayOutboundInteractive, relayOutboundMetadata, relayOutboundNormal. intros Hc.
  assert (c = 0 \/ c = 1 \/ c = 2 \/ c = 3 \/ c = 4) as [->|[->|[->|[->| ->]]]] by lia; set_solver.
Qed.

Lemma control_class : is_class relayOutboundControl.
Proof. done. Qed.
Lemma bulk_class : is_class relayOutboundBulk.
Proof. done. Qed.

Lemma pop_left w j w' :
  shape w -> pop w = (Some j, w') ->
  left_queue j w w' /\ (class j = relayOutboundBulk -> eligible w j = true).
Proof.
  intros Hsh. pose proof (sh_service w Hsh). pose proof (sh_burst w Hsh). unfold pop.
  assert (forall c per b cur, is_class c -> 0 <= b -> 0 <= cur < 4 ->
    popClassLocked c per (set_service b cur w) = (Some j, w') ->
    left_queue j w w' /\ (class j = relayOutboundBulk -> eligible w j = true)) as Hcase.
  { intros c per b cur Hc Hb Hcur Hp. destruct (popClass_Some _ _ _ _ _ _ _ Hsh Hc Hb Hcur Hp) as (? & -> & ?).
    done. }
  case_if; [apply Hcase; [apply control_class|lia|done]|].
  pose proof (service_spec 4 (serviceCursor w) w ltac:(done)) as [Hcur Hsrv].
  destruct (service 4 (serviceCursor w) w) as [[c|] cur]; simpl in Hcur, Hsrv.
  - destruct Hsrv as [[Hc _]%service_class _]. by apply Hcase.
  - case_if; [by apply (Hcase relayOutboundBulk true 0 cur)|]. case_if; [|done].
    apply (Hcase relayOutboundControl false (controlBurst w + 1) cur); [apply control_class|lia|done].
Qed.

Lemma pop_nothing w w' :
  shape w -> pop w = (None, w') ->
  (exists b cur, 0 <= b /\ 0 <= cur < 4 /\ w' = set_service b cur w) /\
  ((forall c, is_class c -> queue c w = []) \/
   (queue relayOutboundBulk w <> [] /\
    forall j, j ∈ queue relayOutboundBulk w -> eligible w j = false)).
Proof.
  intros Hsh. pose proof (sh_service w Hsh) as Hsc. pose proof (sh_burst w Hsh) as Hbu. unfold pop.
  assert (0 <= controlBurst w + 1) as Hbu1 by lia. assert (0 <= 0) as H00 by lia.
  assert (forall c per b cur, 0 <= b -> 0 <= cur < 4 -> queue c w <> [] ->
    popClassLocked c per (set_service b cur w) = (None, w') ->
    (exists b cur, 0 <= b /\ 0 <= cur < 4 /\ w' = set_service b cur w) /\
    queue relayOutboundBulk w <> [] /\ forall j, j ∈ queue relayOutboundBulk w -> eligible w j = false)
    as Hcase.
  { intros c per b cur Hb Hcur Hne Hp.
    destruct (popClass_None c per (set_service b cur w) w' Hne Hp) as (-> & -> & Hall).
    split; [eauto|]. split; [exact Hne|exact Hall]. }
  case_if.
  { apply andb_prop in Hif as [Hr%ready_true _]. intros Hp. destruct (Hcase _ _ _ _ Hbu1 Hsc Hr Hp).
    eauto. }
  pose proof (service_spec 4 (serviceCursor w) w ltac:(done)) as [Hcur Hsrv].
  pose proof (service_None (serviceCursor w) w ltac:(done)) as Hnone.
  destruct (service 4 (serviceCursor w) w) as [[c|] cur]; simpl in Hcur, Hsrv, Hnone.
  - destruct Hsrv as [_ Hne]. intros Hp. destruct (Hcase c _ _ _ H00 Hcur Hne Hp). eauto.
  - case_if; [apply ready_true in Hif0; intros Hp;
      destruct (Hcase relayOutboundBulk true 0 cur H00 Hcur Hif0 Hp); eauto|].
    change (ready (set_service (controlBurst w) cur w) relayOutboundControl) with (ready w relayOutboundControl).
    case_if; [apply ready_true in Hif1; intros Hp;
      destruct (Hcase relayOutboundControl false (controlBurst w + 1) cur Hbu1 Hcur Hif1 Hp); eauto|].
    intros [= <-]. split; [eauto|]. left. intros c Hc.
    destruct (class_split c Hc) as [->|[->|Hs]]; [by apply ready_false|by apply ready_false|by apply Hnone].
Qed.

(** The job as [enqueue] queues it. *)
Definition enqueued_job (job : relayOutboundJob) : relayOutboundJob :=
  set_waits (if class job >=? relayOutboundClassCount then set_class relayOutboundNormal job else job).

Lemma enqueue_joined job w w' :
  shape w -> 0 <= class job -> enqueue job w = (None, w') ->
  joined (enqueued_job job) w w' /\ bulkFrames w' = bulkFrames w /\ bulkBytes w' = bulkBytes w /\
  stopped w = false /\ queueFrames w + 1 <= relayOutboundQueueFrames.
Proof.
  intros Hsh Hc. unfold enqueue. fold (enqueued_job job). destruct (stopped w) eqn:Es; [done|].
  destruct (_ || _) eqn:El; [done|]. zprop. intros [= <-]. split_and!; try done.
  apply (push_joined (enqueued_job job)); [done|]. unfold enqueued_job, is_class. case_if; zprop; simpl; unfold
    relayOutboundNormal, relayOutboundClassCount in *; lia.
Qed.

Lemma admitBulk_joined job w w' :
  shape w -> admitBulk job w = (None, w') ->
  joined (set_class relayOutboundBulk job) w w' /\
  bulkFrames w' = bulkFrames w + 1 /\ bulkBytes w' = bulkBytes w + zlen (payload job) /\
  stopped w = false /\ queueFrames w + 1 <= relayOutboundQueueFrames.
Proof.
  intros Hsh. unfold admitBulk. destruct (stopped w) eqn:Es; [done|].
  destruct (_ || _) eqn:El; [done|]. zprop. intros [= <-]. split_and!; try done.
  apply joined_count_bulk, (push_joined (set_class relayOutboundBulk job)); [done|apply bulk_class].
Qed.

Lemma requeue_joined job w :
  shape w -> class job = relayOutboundBulk ->
  joined job w (requeueBulk job w) /\ bulkFrames (requeueBulk job w) = bulkFrames w + 1 /\
  bulkBytes (requeueBulk job w) = bulkBytes w + zlen (payload job).
Proof.
  intros Hsh Hc. unfold requeueBulk. rewrite <- Hc. split; [|done].
  apply joined_count_bulk, push_joined; [done|]. rewrite Hc. apply bulk_class.
Qed.

(** ** Waiting *)

(** How many pops may still pass before a class of the service order is served. *)
Definition distance (c cur : Z) : Z :=
  if c =? relayOutboundInteractive then
    (if cur =? 2 then 2 else if cur =? 3 then 1 else 0)
  else if c =? relayOutboundMetadata then (if cur =? 3 then 3 else 2 - cur)
  else 3 - cur.

Definition delay (c : Z) (w : relayOutboundWriter) : Z :=
  9 * distance c (serviceCursor w) + Z.max 0 (relayControlBurstCap - controlBurst w).

Lemma distance_bound c cur : 0 <= cur < 4 -> 0 <= distance c cur <= 3.
Proof. intros Hcur. unfold distance. cursor_cases cur; simpl; repeat case_if; lia. Qed.

(** A turn given to another class brings the cursor nearer. *)
Lemma service_nearer c cur w :
  0 <= cur < 4 -> c ∈ serviceOrder -> queue c w <> [] ->
  exists c' cur', service 4 cur w = (Some c', cur') /\ 0 <= cur' < 4 /\
    (c' = c \/ distance c cur' + 1 <= distance c cur).
Proof.
  intros Hcur Hc Hr%ready_true. rewrite service_turns by done.
  unfold serviceOrder in Hc. rewrite !elem_of_cons, elem_of_nil in Hc.
  destruct Hc as [->|[->|[->|[->|[]]]]]; cursor_cases cur; simpl; rewrite ?Hr; eauto;
    repeat case_if; eexists _, _; (split; [done|]); (split; [done|]); try (by left); right; done.
Qed.

Lemma take_at_service c i j w :
  serviceCursor (take_at c i j w) = serviceCursor w /\ controlBurst (take_at c i j w) = controlBurst w.
Proof.
  unfold take_at, open_group. destruct (cursor j); [destruct (_ && _)|];
    destruct (c =? relayOutboundBulk); done.
Qed.

Lemma popClass_service c per w j w' :
  popClassLocked c per w = (Some j, w') ->
  serviceCursor w' = serviceCursor w /\ controlBurst w' = controlBurst w.
Proof.
  unfold popClassLocked. destruct (select_index c per w) as [i|]; [|done].
  destruct (queue c w !! i); [|done]. intros [= <- <-]. apply take_at_service.
Qed.

(** Every pop serves the class or shortens its delay. *)
Lemma pop_delay c w j w' :
  shape w -> c ∈ serviceOrder -> queue c w <> [] -> pop w = (Some j, w') ->
  class j = c \/ delay c w' + 1 <= delay c w.
Proof.
  intros Hsh Hc Hne. pose proof (sh_service w Hsh) as Hcur. pose proof (sh_burst w Hsh) as Hb. unfold pop.
  assert (existsb (ready w) [relayOutboundInteractive; relayOutboundMetadata; relayOutboundNormal;
    relayOutboundBulk] = true) as ->.
  { apply existsb_ready. exists c. split; [|done]. unfold serviceOrder in Hc. set_solver. }
  case_if.
  - apply andb_prop in Hif as [_ Hlt]. rewrite orb_false_r in Hlt. apply Z.ltb_lt in Hlt.
    intros [E1 E2]%popClass_service. right. unfold delay. rewrite E1, E2. simpl. lia.
  - destruct (service_nearer c (serviceCursor w) w Hcur Hc Hne) as (c' & cur' & -> & Hcur' & Hd).
    intros Hp. pose proof (popClass_service _ _ _ _ _ Hp) as [E1 E2]. destruct Hd as [->|Hd].
    + left. apply service_class in Hc as (Hic & _).
      by apply (popClass_Some c true 0 cur' w j w' Hsh Hic ltac:(done) Hcur') in Hp as (_ & ? & _).
    + right. unfold delay. rewrite E1, E2. simpl. unfold relayControlBurstCap. lia.
Qed.

(** ** The invariant of the system *)

Definition held (s : System) : list relayOutboundJob :=
  match worker s with WHolding j | WWritten j _ _ => [j] | _ => [] end.

(** The jobs in the queues and in the hands of the worker. *)
Definition present (s : System) : list relayOutboundJob := all_jobs (writer s) ++ held s.

Definition chunked (j : relayOutboundJob) : Prop := cursor j <> None.
#[export] Instance chunked_dec j : Decision (chunked j).
Proof. unfold chunked. destruct (cursor j); [by left|by right; intros H]. Defined.

Definition waiting (j : relayOutboundJob) : Prop := waits j = true.
#[export] Instance waiting_dec j : Decision (waiting j).
Proof. unfold waiting. apply _. Defined.

Definition size_of (j : relayOutboundJob) : Z := zlen (payload j).

(** The bulk counters: what they ought to be, less the bulk jobs that were
    counted when they left but not when they came. *)
Definition bulk_exact (s : System) : Prop :=
  bulkFrames (writer s) = zlen (filter chunked (all_jobs (writer s))) - zlen (plainPopped s) /\
  bulkBytes (writer s) =
    sum_with size_of (filter chunked (all_jobs (writer s))) - sum_with size_of (plainPopped s).

(** Somebody will look at the queues. *)
Definition attended (s : System) : Prop :=
  wake (writer s) = true \/ (0 < signals s)%nat \/
  match worker s with WIdle | WReturned => False | _ => True end.

Record base (s : System) : Prop := {
  ba_shape : shape (writer s);
  ba_bulk : forall j, j ∈ present s -> chunked j -> class j = relayOutboundBulk;
  ba_again : forall j e, worker s = WWritten j e false -> chunked j;
  ba_counters : worker s <> WReturned -> bulk_exact s;
  ba_room : queueFrames (writer s) + zlen (held s) <= relayOutboundQueueFrames + 1;
  ba_answers : asked s ≡ₚ map fst (answers s) ++ map jobID (filter waiting (present s));
  ba_returned : worker s = WReturned -> all_jobs (writer s) = [] /\ stopped (writer s) = true;
  ba_attended : all_jobs (writer s) = [] \/ attended s
}.

Lemma writeSelected_job e j hs :
  let r := writeSelected e j hs in
  jobID (w_job r) = jobID j /\ conn (w_job r) = conn j /\ deviceID (w_job r) = deviceID j /\
  payload (w_job r) = payload j /\ contentEncoding (w_job r) = contentEncoding j /\
  class (w_job r) = class j /\ waits (w_job r) = waits j /\
  (chunked (w_job r) <-> chunked j) /\ (w_complete r = false -> chunked j).
Proof.
  unfold writeSelected, chunked. destruct (cursor j) as [cur|] eqn:E.
  - destruct (if nextIndex cur =? 0 then _ else _) as [go hs']. cbv zeta.
    repeat case_if; simpl; rewrite ?E; split_and!; try done.
  - cbv zeta. case_if; simpl; rewrite ?E; split_and!; done.
Qed.

(** The jobs of a kind when one job is added. *)
Lemma filter_cons_perm (P : relayOutboundJob -> Prop) `{!forall j, Decision (P j)} j l l' :
  l' ≡ₚ j :: l -> filter P l' ≡ₚ (if decide (P j) then [j] else []) ++ filter P l.
Proof. intros ->. rewrite filter_cons. by case_decide. Qed.

Lemma filter_perm (P : relayOutboundJob -> Prop) `{!forall j, Decision (P j)} l l' :
  l ≡ₚ l' -> filter P l ≡ₚ filter P l'.
Proof. by intros ->. Qed.

Lemma chunked_cons j l l' :
  l' ≡ₚ j :: l ->
  zlen (filter chunked l') = zlen (filter chunked l) + (if decide (chunked j) then 1 else 0) /\
  sum_with size_of (filter chunked l') =
    sum_with size_of (filter chunked l) + (if decide (chunked j) then size_of j else 0).
Proof.
  intros Hp. apply (filter_cons_perm chunked) in Hp.
  rewrite (Permutation_length Hp), (sum_with_perm size_of _ _ Hp), length_app, sum_with_app.
  case_decide; simpl; lia.
Qed.

Lemma waiting_cons j l l' :
  l' ≡ₚ j :: l -> filter waiting l' ≡ₚ (if decide (waiting j) then [j] else []) ++ filter waiting l.
Proof. apply (filter_cons_perm waiting). Qed.

(** One job joins the queues from outside. *)
Lemma base_joined j s w' adm ask :
  base s -> joined j (writer s) w' ->
  queueFrames (writer s) + 1 <= relayOutboundQueueFrames -> stopped (writer s) = false ->
  (chunked j -> class j = relayOutboundBulk) ->
  bulkFrames w' = bulkFrames (writer s) + (if decide (chunked j) then 1 else 0) ->
  bulkBytes w' = bulkBytes (writer s) + (if decide (chunked j) then size_of j else 0) ->
  ask ≡ₚ asked s ++ (if decide (waiting j) then [jobID j] else []) ->
  base (mkSystem w' (worker s) (hstore s) (conns s) (wire s) (answers s) (S (signals s)) adm ask (plainPopped s)).
Proof.
  intros [Hsh Hb Hag Hcn Hro Hans Hret Hat] [Jsh Jq Ja Jac Jsv [Jw Jst]] Hroom Hst Hcl Hbf Hbb Hask.
  split; simpl; try done.
  - intros j'. unfold present. simpl. rewrite Ja. intros [->|Hin]%elem_of_cons; [done|]. by apply Hb.
  - intros Hnr. destruct (Hcn Hnr) as [H1 H2]. unfold bulk_exact. simpl.
    rewrite Hbf, Hbb, H1, H2. pose proof (chunked_cons j _ _ Ja) as [-> ->]. case_decide; lia.
  - change (held _) with (held s). pose proof (sh_frames _ Jsh) as H1. pose proof (sh_frames _ Hsh) as H2.
    rewrite H1, (Permutation_length Ja). simpl. unfold held in *. destruct (worker s); simpl in *; lia.
  - unfold present. simpl. change (held _) with (held s). rewrite Hask, Hans. unfold present.
    rewrite !filter_app, (waiting_cons j _ _ Ja), !map_app. case_decide; simpl; solve_Permutation.
  - intros Hr. rewrite (proj2 (Hret Hr)) in Hst. done.
  - right. right. left. simpl. lia.
Qed.

(** Steps that leave queues, counters and jobs alone. *)
Lemma base_quiet s s' :
  base s -> queues (writer s') = queues (writer s) -> shape (writer s') ->
  bulkFrames (writer s') = bulkFrames (writer s) -> bulkBytes (writer s') = bulkBytes (writer s) ->
  queueFrames (writer s') = queueFrames (writer s) ->
  held s' = held s -> (forall j e, worker s' = WWritten j e false -> worker s = WWritten j e false) ->
  (worker s' = WReturned <-> worker s = WReturned) ->
  (stopped (writer s) = true -> stopped (writer s') = true) ->
  answers s' = answers s -> asked s' = asked s -> plainPopped s' = plainPopped s ->
  (all_jobs (writer s) = [] \/ attended s -> all_jobs (writer s) = [] \/ attended s') -> base s'.
Proof.
  intros [Hsh Hb Hag Hcn Hro Hans Hret Hat] Eq Hsh' Ebf Ebb Eqf Eh Ew Er Est Ea Eas Ep Hat'.
  assert (all_jobs (writer s') = all_jobs (writer s)) as Eall by (unfold all_jobs; by rewrite Eq).
  split; unfold present, bulk_exact in *; rewrite ?Eall, ?Eh, ?Ebf, ?Ebb, ?Eqf, ?Ea, ?Eas, ?Ep; try done.
  - intros j e Hw. by eapply Hag, Ew.
  - intros Hnr. apply Hcn. by rewrite <- Er.
  - intros Hr%Er. destruct (Hret Hr). auto.
  - by apply Hat'.
Qed.

Lemma base_pop s j w' :
  base s -> worker s = WDraining -> pop (writer s) = (Some j, w') ->
  base (mkSystem w' (WHolding j) (hstore s) (conns s) (wire s) (answers s) (signals s) (admitted s) (asked s)
    (if (class j =? relayOutboundBulk) && bool_decide (cursor j = None)
     then plainPopped s ++ [j] else plainPopped s)).
Proof.
  intros [Hsh Hb Hag Hcn Hro Hans Hret Hat] Hw Hp.
  apply (pop_left _ _ _ Hsh) in Hp as [[Lsh Lc Lq La Lac [Lbf Lbb] Lfl] _].
  assert (present s = all_jobs (writer s)) as Epr by (unfold present, held; by rewrite Hw, app_nil_r).
  assert (forall P, present (mkSystem w' (WHolding j) (hstore s) (conns s) (wire s) (answers s) (signals s)
    (admitted s) (asked s) P) ≡ₚ all_jobs (writer s)) as Hpr
    by (intros P; unfold present, held; simpl; rewrite La; solve_Permutation).
  split; cbn [writer worker answers asked plainPopped]; try done.
  - intros j'. rewrite Hpr, <- Epr. by apply Hb.
  - intros _. destruct Hcn as [H1 H2]; [by rewrite Hw|]. unfold bulk_exact.
    cbn [writer plainPopped]. rewrite Lbf, Lbb, H1, H2.
    destruct (chunked_cons j _ _ La) as [-> ->].
    assert (chunked j -> class j = relayOutboundBulk) as Hcj
      by (intros; apply Hb; [rewrite Epr, La; by left|done]).
    destruct (Z.eqb_spec (class j) relayOutboundBulk) as [Ec|Ec]; simpl.
    + destruct (decide (chunked j)) as [Hch|Hch].
      * rewrite bool_decide_eq_false_2 by done. change (zlen (payload j)) with (size_of j). lia.
      * rewrite bool_decide_eq_true_2 by (unfold chunked in Hch; by destruct (cursor j); [destruct Hch|]).
        rewrite length_app, sum_with_app. simpl. change (zlen (payload j)) with (size_of j). lia.
    + destruct (decide (chunked j)) as [Hch|Hch]; [by destruct Ec; apply Hcj|]. lia.
  - unfold held in *. rewrite Hw in Hro. pose proof (sh_frames _ Lsh) as H1. pose proof (sh_frames _ Hsh) as H2.
    simpl in *. rewrite H1. pose proof (Permutation_length La) as Hlen. simpl in Hlen. lia.
  - etrans; [exact Hans|]. rewrite Epr. apply Permutation_app; [done|].
    apply Permutation_map, filter_perm. symmetry. apply Hpr.
  - by right; right; right.
Qed.

Lemma base_finish job err complete s :
  base s -> worker s = WWritten job err complete -> base (finish job err complete s).
Proof.
  intros Hbase Hw. pose proof Hbase as [Hsh Hb Hag Hcn Hro Hans Hret Hat].
  assert (present s = all_jobs (writer s) ++ [job]) as Epr by (unfold present, held; by rewrite Hw).
  unfold finish. destruct complete.
  - destruct (match conns s !! conn job with Some _ => _ | None => _ end) as [cns hs].
    assert (queues (completeBulkGroup job (writer s)) = queues (writer s) /\
      shape (completeBulkGroup job (writer s)) /\
      bulkFrames (completeBulkGroup job (writer s)) = bulkFrames (writer s) /\
      bulkBytes (completeBulkGroup job (writer s)) = bulkBytes (writer s) /\
      queueFrames (completeBulkGroup job (writer s)) = queueFrames (writer s)) as (Eq & Hsh' & Ebf & Ebb & Eqf).
    { unfold completeBulkGroup. destruct (cursor job); [|done]. case_if; [|done]. split; [done|].
      split; [|done]. destruct Hsh. by split. }
    assert (all_jobs (completeBulkGroup job (writer s)) = all_jobs (writer s)) as Eall
      by (unfold all_jobs; by rewrite Eq).
    split; unfold present, held, bulk_exact; simpl; rewrite ?Eall, ?app_nil_r, ?Ebf, ?Ebb, ?Eqf; try done.
    + intros j Hj. apply Hb. rewrite Epr. set_solver.
    + intros _. apply Hcn. by rewrite Hw.
    + unfold held in Hro. rewrite Hw in Hro. simpl in Hro. lia.
    + etrans; [exact Hans|]. rewrite Epr, filter_app, map_app. destruct (waits job) eqn:Ew.
      * rewrite map_app, filter_cons, decide_True, filter_nil by done. simpl. solve_Permutation.
      * rewrite filter_cons, decide_False, filter_nil by (unfold waiting; by rewrite Ew).
        by rewrite app_nil_r.
    + by right; right; right.
  - assert (chunked job) as Hch by (by eapply Hag).
    destruct (requeue_joined job (writer s) Hsh) as ([Jsh Jq Ja Jac Jsv Jfl] & Ebf & Ebb).
    { apply Hb; [|done]. rewrite Epr. set_solver. }
    split; unfold present, held, bulk_exact; cbn [writer worker answers asked plainPopped]; try done.
    + intros j. rewrite app_nil_r, Ja. intros Hj. apply Hb. rewrite Epr. set_solver.
    + intros _. destruct Hcn as [H1 H2]; [by rewrite Hw|]. rewrite Ebf, Ebb, H1, H2.
      destruct (chunked_cons job _ _ Ja) as [-> ->]. rewrite !decide_True by done. unfold size_of. lia.
    + unfold held in Hro. rewrite Hw in Hro. simpl in Hro. unfold requeueBulk. simpl. lia.
    + etrans; [exact Hans|]. rewrite Epr, app_nil_r. apply Permutation_app; [done|].
      apply Permutation_map, filter_perm. rewrite Ja. solve_Permutation.
    + by right; right; right.
Qed.

Lemma base_write t ok s job :
  base s -> worker s = WHolding job ->
  let r := writeSelected (env_of t ok job s) job (hstore s) in
  base (mkSystem (writer s) (WWritten (w_job r) (w_err r) (w_complete r)) (w_handles r) (conns s)
    (wire s ++ w_frames r) (answers s) (signals s) (admitted s) (asked s) (plainPopped s)).
Proof.
  intros [Hsh Hb Hag Hcn Hro Hans Hret Hat] Hw.
  destruct (writeSelected_job (env_of t ok job s) job (hstore s)) as (E1 & E2 & E3 & E4 & E5 & E6 & E7 & E8 & E9).
  set (r := writeSelected (env_of t ok job s) job (hstore s)) in *. cbv zeta.
  assert (present s = all_jobs (writer s) ++ [job]) as Epr by (unfold present, held; by rewrite Hw).
  split; unfold present, held, bulk_exact in *; cbn [writer worker answers asked plainPopped]; try done.
  - intros j [Hj|Hj%list_elem_of_singleton]%elem_of_app Hch; [apply Hb; [set_solver|done]|]. subst j.
    rewrite E6. apply Hb; [rewrite Hw; set_solver|by apply E8].
  - intros j e [= <- _ Hf]. by apply E8, E9.
  - intros _. apply Hcn. by rewrite Hw.
  - rewrite Hw in Hro. exact Hro.
  - etrans; [exact Hans|]. rewrite Hw. rewrite !filter_app, !map_app. do 2 (apply Permutation_app; [done|]).
    rewrite !filter_cons, filter_nil. assert (waiting (w_job r) <-> waiting job) as Hwt by (unfold waiting; by rewrite E7).
    destruct (decide (waiting job)), (decide (waiting (w_job r))); simpl; rewrite ?E1; naive_solver.
  - by right; right; right.
Qed.

Lemma base_fail s : base s -> worker s = WIdle -> stopped (writer s) = true -> base (fail_system s).
Proof.
  intros [Hsh Hb Hag Hcn Hro Hans Hret Hat] Hw Hst.
  assert (present s = all_jobs (writer s)) as Epr by (unfold present, held; by rewrite Hw, app_nil_r).
  split; unfold present, held, bulk_exact; simpl; try done.
  - split; simpl; try done; try apply Hsh. intros c j Hc. unfold queue. simpl.
    assert (c = 0 \/ c = 1 \/ c = 2 \/ c = 3 \/ c = 4) as [->|[->|[->|[->| ->]]]]
      by (unfold is_class, relayOutboundClassCount in Hc; lia); simpl; set_solver.
  - set_solver.
  - etrans; [exact Hans|]. rewrite Epr, map_app, app_nil_r, map_map. done.
  - by left.
Qed.

Lemma shape_flags wk st w : shape w -> shape (set_flags wk st w).
Proof. intros []. by split. Qed.

Lemma shape_service b cur w : shape w -> 0 <= b -> 0 <= cur < 4 -> shape (set_service b cur w).
Proof. intros [] ? ?. by split. Qed.

Lemma attended_idle s : attended s -> worker s = WIdle -> wake (writer s) = true \/ (0 < signals s)%nat.
Proof. unfold attended. intros Ha Hw. rewrite Hw in Ha. tauto. Qed.

Lemma all_jobs_empty w : shape w -> (forall c, is_class c -> queue c w = []) -> all_jobs w = [].
Proof.
  intros Hsh He. destruct (all_jobs w) as [|j l] eqn:E; [done|].
  destruct (member_concat w j (sh_queues w Hsh)) as (c & Hc & Hj); [rewrite E; by left|].
  rewrite He in Hj by done. by apply elem_of_nil in Hj.
Qed.

(** ** Chunk groups *)

Definition at_index (i : Z) (cur : relayChunkCursor) : relayChunkCursor :=
  mkCursor (groupID cur) i (count cur) (chunkBytes cur) (handle cur) (cur_sessionID cur)
    (sessionGeneration cur) (channelGeneration cur) (expiresAt cur) (bulkCorrelationID cur) (cur_requestID cur).

(** An admitted job after [k] of its chunks. *)
Definition progress (j0 : relayOutboundJob) (k : nat) : relayOutboundJob :=
  match cursor j0 with
  | Some cur => set_cursor (at_index (Z.of_nat k) cur) (set_class relayOutboundBulk j0)
  | None => j0
  end.

Definition count_of (j : relayOutboundJob) : Z := match cursor j with Some cur => count cur | None => 0 end.

(** The [i]-th chunk of a group, and the first [k] of them. *)
Definition nth_frame (j0 : relayOutboundJob) (i : nat) : list Frame :=
  match cursor j0 with
  | Some cur => [chunk_frame (set_class relayOutboundBulk j0) (at_index (Z.of_nat i) cur)]
  | None => []
  end.
Definition run_frames (r : relayOutboundJob * nat) : list Frame := concat (map (nth_frame r.1) (seq 0 r.2)).

Definition is_chunk (f : Frame) : Prop := f_chunk f <> None.
#[export] Instance is_chunk_dec f : Decision (is_chunk f).
Proof. unfold is_chunk. destruct (f_chunk f); [by left|by right; intros H]. Defined.

(** The chunks written for a device, in order. *)
Definition chunks_of (d : string) (wr : list Frame) : list Frame :=
  filter (fun f => f_device f = d /\ is_chunk f) wr.

Definition runs_of (d : string) (runs : list (relayOutboundJob * nat)) : list (relayOutboundJob * nat) :=
  filter (fun r => deviceID r.1 = d) runs.

Definition run_groups (runs : list (relayOutboundJob * nat)) : list string := map (fun r => job_group r.1) runs.

Record grouped (adm : list relayOutboundJob) (hs : HandleStore) (wr : list Frame) (act : string -> string)
    (P H : list relayOutboundJob) (runs : list (relayOutboundJob * nat)) : Prop := {
  g_cut : forall j, j ∈ adm -> well_cut j;
  g_adm : NoDup (map job_group adm);
  g_live : forall j, j ∈ P -> chunked j -> exists j0 k, j0 ∈ adm /\ j = progress j0 k;
  g_nodup : NoDup (map job_group (filter chunked P));
  g_groups : NoDup (run_groups runs);
  g_runs : forall r, r ∈ runs -> r.1 ∈ adm /\ Z.of_nat r.2 <= count_of r.1 /\
             state_of hs (job_group r.1) = bulkCommitted;
  g_wire : forall d, chunks_of d wr = concat (map run_frames (runs_of d runs));
  g_fresh : forall j0, j0 ∈ adm -> progress j0 0 ∈ P -> job_group j0 ∉ run_groups runs;
  g_last : forall j0 k, j0 ∈ adm -> progress j0 (S k) ∈ P ->
             act (deviceID j0) = job_group j0 /\ last (runs_of (deviceID j0) runs) = Some (j0, S k);
  g_held : forall j, j ∈ H -> chunked j -> j ∈ P /\ act (deviceID j) = job_group j
}.

Lemma well_cut_cursor j : well_cut j -> exists cur, cursor j = Some cur /\
  nextIndex cur = 0 /\ groupID cur <> "" /\ handle cur = groupID cur /\ 0 < chunkBytes cur /\
  0 < zlen (payload j) /\ count cur <= u32_max /\
  (count cur - 1) * chunkBytes cur < zlen (payload j) <= count cur * chunkBytes cur.
Proof. unfold well_cut. destruct (cursor j) as [cur|]; [|done]. intros (_ & H). exists cur. tauto. Qed.

Lemma job_group_cut j cur : cursor j = Some cur -> job_group j = groupID cur.
Proof. unfold job_group. by intros ->. Qed.

Lemma progress_facts j0 k :
  well_cut j0 ->
  deviceID (progress j0 k) = deviceID j0 /\ job_group (progress j0 k) = job_group j0 /\
  chunked (progress j0 k) /\ class (progress j0 k) = relayOutboundBulk.
Proof.
  intros (cur & E & _)%well_cut_cursor. unfold progress, chunked, job_group. rewrite E. simpl. done.
Qed.

Lemma progress_inj j0 k k' : well_cut j0 -> progress j0 k = progress j0 k' -> k = k'.
Proof.
  intros (cur & E & _)%well_cut_cursor. unfold progress. rewrite E. intros [= H]. lia.
Qed.

Lemma adm_inj adm j1 j2 :
  NoDup (map job_group adm) -> j1 ∈ adm -> j2 ∈ adm -> job_group j1 = job_group j2 -> j1 = j2.
Proof.
  intros Hnd H1 H2 He. induction adm as [|j adm IH]; [by apply elem_of_nil in H1|].
  simpl in Hnd. apply NoDup_cons in Hnd as [Hj Hnd].
  apply elem_of_cons in H1 as [->|H1], H2 as [->|H2]; [done| | |by apply IH];
    exfalso; apply Hj; [rewrite He|rewrite <- He]; by apply list_elem_of_fmap_2.
Qed.

Lemma runs_of_app d l1 l2 : runs_of d (l1 ++ l2) = runs_of d l1 ++ runs_of d l2.
Proof. apply filter_app. Qed.

Lemma chunks_of_app d l1 l2 : chunks_of d (l1 ++ l2) = chunks_of d l1 ++ chunks_of d l2.
Proof. apply filter_app. Qed.

Lemma run_frames_S j0 k : run_frames (j0, S k) = run_frames (j0, k) ++ nth_frame j0 k.
Proof.
  unfold run_frames. simpl fst. simpl snd. rewrite seq_S, map_app, concat_app. simpl. by rewrite app_nil_r.
Qed.

(** The invariant depends on the chunked jobs only, not on their order. *)
Lemma grouped_chunks adm hs wr act P P' H runs :
  filter chunked P' ≡ₚ filter chunked P -> grouped adm hs wr act P H runs ->
  grouped adm hs wr act P' H runs.
Proof.
  intros Hp [H1 H2 H3 H4 H5 H6 H7 H8 H9 H10].
  assert (forall j, chunked j -> j ∈ P' -> j ∈ P) as Hin.
  { intros j Hc Hj. assert (j ∈ filter chunked P') as Hf by by apply list_elem_of_filter.
    rewrite Hp in Hf. by apply list_elem_of_filter in Hf as [_ ?]. }
  assert (forall j, chunked j -> j ∈ P -> j ∈ P') as Hin'.
  { intros j Hc Hj. assert (j ∈ filter chunked P) as Hf by by apply list_elem_of_filter.
    rewrite <- Hp in Hf. by apply list_elem_of_filter in Hf as [_ ?]. }
  assert (forall j0 k, j0 ∈ adm -> chunked (progress j0 k)) as Hch
    by (intros j0 k Ha; by apply progress_facts, H1).
  split; try done.
  - intros j Hj Hc. apply H3; auto.
  - by rewrite (Permutation_map job_group Hp).
  - intros j0 Ha Hj. apply H8; auto.
  - intros j0 k Ha Hj. apply H9; auto.
  - intros j Hj Hc. destruct (H10 j Hj Hc). auto.
Qed.

(** Committed handles stay committed. *)
Lemma grouped_handles adm hs hs' wr act P H runs :
  (forall h, state_of hs h = bulkCommitted -> state_of hs' h = bulkCommitted) ->
  grouped adm hs wr act P H runs -> grouped adm hs' wr act P H runs.
Proof.
  intros Hh [H1 H2 H3 H4 H5 H6 H7 H8 H9 H10]. split; try done.
  intros r Hr. destruct (H6 r Hr) as (? & ? & ?). auto.
Qed.

Lemma Cancel_committed h hs h' : state_of hs h' = bulkCommitted -> state_of (snd (Cancel h hs)) h' = bulkCommitted.
Proof.
  intros Hs. rewrite Cancel_state. case_bool_decide as He; [|done]. subst. rewrite Hs. done.
Qed.

Lemma cancel_all_committed l hs h' :
  state_of hs h' = bulkCommitted -> state_of (cancel_all l hs) h' = bulkCommitted.
Proof.
  revert hs. induction l as [|x l IH]; intros hs Hs; [done|]. by apply IH, Cancel_committed.
Qed.

(** A job is admitted. *)
Lemma grouped_admit adm hs wr act P H runs j :
  grouped adm hs wr act P H runs -> well_cut j -> job_group j ∉ map job_group adm ->
  grouped (adm ++ [j]) hs wr act (set_class relayOutboundBulk j :: P) H runs.
Proof.
  intros [H1 H2 H3 H4 H5 H6 H7 H8 H9 H10] Hcut Hfresh.
  pose proof Hcut as (cur & E & E0 & _)%well_cut_cursor.
  assert (set_class relayOutboundBulk j = progress j 0) as Hp0.
  { unfold progress. rewrite E. unfold set_class, set_cursor. simpl. rewrite E. repeat f_equal.
    destruct cur. simpl in *. by subst. }
  rewrite Hp0. destruct (progress_facts j 0 Hcut) as (_ & Eg & Hch & _).
  assert (forall j', j' ∈ P -> chunked j' -> job_group j' <> job_group j) as Hne.
  { intros j' Hj' Hc. destruct (H3 j' Hj' Hc) as (j0 & k & Ha & ->).
    destruct (progress_facts j0 k (H1 j0 Ha)) as (_ & -> & _). intros He. apply Hfresh. rewrite <- He.
    by apply list_elem_of_fmap_2. }
  assert (forall j0 k, j0 ∈ adm ++ [j] -> progress j0 k ∈ progress j 0 :: P ->
    (j0 = j /\ k = 0%nat) \/ (j0 ∈ adm /\ progress j0 k ∈ P)) as Hcases.
  { intros j0 k [Ha|Ha%list_elem_of_singleton]%elem_of_app Hin.
    - right. split; [done|]. apply elem_of_cons in Hin as [He|Hin]; [|done]. exfalso. apply Hfresh.
      destruct (progress_facts j0 k (H1 j0 Ha)) as (_ & Eg' & _). rewrite <- Eg, <- He, Eg'.
      by apply list_elem_of_fmap_2.
    - subst j0. left. split; [done|]. apply elem_of_cons in Hin as [He|Hin]; [by eapply progress_inj|].
      exfalso. destruct (progress_facts j k Hcut) as (_ & Eg' & Hc' & _). by apply (Hne _ Hin Hc'). }
  split.
  - intros j' [Ha| ->%list_elem_of_singleton]%elem_of_app; auto.
  - rewrite map_app. apply NoDup_app. split; [done|]. split; [|apply NoDup_singleton].
    intros g Hg ->%list_elem_of_singleton. done.
  - intros j' [->|Hj']%elem_of_cons Hc; [exists j, 0%nat; split; [set_solver|done]|].
    destruct (H3 j' Hj' Hc) as (j0 & k & Ha & ->). exists j0, k. split; [set_solver|done].
  - rewrite filter_cons_True by done. simpl. apply NoDup_cons. split; [|done]. rewrite Eg.
    intros Hin. apply list_elem_of_fmap in Hin as (j' & He & Hj'). apply list_elem_of_filter in Hj' as [Hc Hj'].
    by apply (Hne j').
  - done.
  - intros r Hr. destruct (H6 r Hr) as (? & ? & ?). split; [set_solver|done].
  - done.
  - intros j0 Ha Hin. destruct (Hcases j0 0%nat Ha Hin) as [[-> _]|[Ha' Hin']]; [|by apply H8].
    intros Hg. apply list_elem_of_fmap in Hg as (r & He & Hr). destruct (H6 r Hr) as (Har & _).
    apply Hfresh. rewrite He. by apply list_elem_of_fmap_2.
  - intros j0 k Ha Hin. destruct (Hcases j0 (S k) Ha Hin) as [[_ ?]|[Ha' Hin']]; [done|by apply H9].
  - intros j' Hj' Hc. destruct (H10 j' Hj' Hc). split; [by right|done].
Qed.

(** The worker takes a job in hand: its group becomes, or is, the active one. *)
Lemma grouped_take adm hs wr act act' P runs j :
  grouped adm hs wr act P [] runs -> j ∈ P ->
  (chunked j -> act' (deviceID j) = job_group j /\ (act (deviceID j) = "" \/ act (deviceID j) = job_group j)) ->
  (forall d, ~ chunked j \/ d <> deviceID j -> act' d = act d) ->
  grouped adm hs wr act' P [j] runs.
Proof.
  intros [H1 H2 H3 H4 H5 H6 H7 H8 H9 H10] Hj Hch Hother. split; try done.
  - intros j0 k Ha Hin. destruct (H9 j0 k Ha Hin) as (Hact & Hr). split; [|done].
    destruct (decide (chunked j)) as [Hc|Hc]; [|rewrite Hother by (by left); done].
    destruct (decide (deviceID j0 = deviceID j)) as [Hd|Hd]; [|rewrite Hother by (by right); done].
    destruct (Hch Hc) as [Ha' Hor]. rewrite Hd, Ha'. destruct Hor as [He|He]; [|congruence].
    rewrite Hd, He in Hact. destruct (well_cut_cursor j0 (H1 j0 Ha)) as (cur & E & _ & Hne & _).
    rewrite (job_group_cut _ _ E) in Hact. congruence.
  - intros j' ->%list_elem_of_singleton Hc. split; [done|]. by apply Hch.
Qed.

(** The worker is done with a job, whose group is closed. *)
Lemma grouped_drop adm hs wr act act' P runs j :
  grouped adm hs wr act (j :: P) [j] runs ->
  (forall d, ~ chunked j \/ d <> deviceID j -> act' d = act d) ->
  grouped adm hs wr act' P [] runs.
Proof.
  intros [H1 H2 H3 H4 H5 H6 H7 H8 H9 H10] Hother. split; try done.
  - intros j' Hj'. apply H3. by right.
  - rewrite filter_cons in H4. case_decide; [|done]. by apply NoDup_cons in H4 as [_ ?].
  - intros j0 Ha Hin. apply H8; [done|by right].
  - intros j0 k Ha Hin. destruct (H9 j0 k Ha) as (Hact & Hr); [by right|]. split; [|done].
    destruct (progress_facts j0 (S k) (H1 j0 Ha)) as (_ & Eg & Hc0 & _).
    destruct (decide (chunked j)) as [Hc|Hc]; [|rewrite Hother by (by left); done].
    destruct (decide (deviceID j0 = deviceID j)) as [Hd|Hd]; [|rewrite Hother by (by right); done].
    exfalso. destruct (H10 j) as [_ Hact']; [by left|done|].
    rewrite filter_cons_True in H4 by done. apply NoDup_cons in H4 as [Hn _]. apply Hn.
    rewrite <- Hact', <- Hd, Hact, <- Eg. by apply list_elem_of_fmap_2, list_elem_of_filter.
  - intros j' Hj'. by apply elem_of_nil in Hj'.
Qed.

(** The worker puts a job back. *)
Lemma grouped_release adm hs wr act P H runs :
  grouped adm hs wr act P H runs -> grouped adm hs wr act P [] runs.
Proof. intros []. split; try done. intros j Hj. by apply elem_of_nil in Hj. Qed.

(** What a write may do. *)
Lemma writeSelected_cases e j hs :
  let r := writeSelected e j hs in
  (forall h, state_of hs h = bulkCommitted -> state_of (w_handles r) h = bulkCommitted) /\
  ((w_job r = j /\ (w_frames r = [] \/ ~ chunked j /\ exists f, w_frames r = [f] /\ ~ is_chunk f)) \/
   (exists cur, cursor j = Some cur /\ w_frames r = [chunk_frame j cur] /\
      w_job r = set_cursor (advance cur) j /\ nextIndex cur * chunkBytes cur < zlen (payload j) /\
      (nextIndex cur = 0 -> state_of (w_handles r) (handle cur) = bulkCommitted))).
Proof.
  unfold writeSelected, chunked. destruct (cursor j) as [cur|] eqn:E.
  - destruct (if nextIndex cur =? 0 then MarkIndex0Committed (handle cur) hs else (true, hs)) as [go hs'] eqn:Eg.
    assert (forall h, state_of hs h = bulkCommitted -> state_of hs' h = bulkCommitted) as Hmono.
    { intros h Hh. destruct (nextIndex cur =? 0); [|by injection Eg as <- <-].
      pose proof (swap_state (handle cur) bulkActive bulkCommitted hs h) as Hs.
      unfold MarkIndex0Committed in Eg. rewrite Eg in Hs. simpl in Hs. rewrite Hs. by case_if. }
    assert (go = true -> nextIndex cur = 0 -> state_of hs' (handle cur) = bulkCommitted) as Hgo.
    { intros -> Hz. rewrite Hz in Eg. unfold MarkIndex0Committed, CompareAndSwap in Eg. simpl in Eg.
      destruct (state_of hs (handle cur) =? bulkActive); [|done]. injection Eg as <-.
      unfold state_of. by rewrite lookup_insert_eq. }
    cbv zeta. destruct go; simpl negb; cbv iota; [|split; [done|left; split; [done|by left]]].
    repeat case_if; (split; [done|]); try (left; split; [done|by left]).
    right. exists cur. zprop. split_and!; try done. by apply Hgo.
  - cbv zeta. case_if; simpl; (split; [done|]); left; (split; [done|]); [right|by left].
    split; [by intros H|]. eexists. split; [done|]. by intros H.
Qed.

Lemma set_cursor_progress j0 k cur :
  cursor j0 = Some cur -> Z.of_nat k + 1 <= u32_max ->
  set_cursor (advance (at_index (Z.of_nat k) cur)) (progress j0 k) = progress j0 (S k).
Proof.
  intros E Hk. unfold progress. rewrite E. unfold set_cursor, advance, at_index. simpl.
  unfold wrap_u32. rewrite Z.mod_small by (unfold u32_max in Hk; lia). by rewrite Nat2Z.inj_succ.
Qed.

(** One more chunk of the job in hand, the runs being brought up to date. *)
Lemma grouped_written adm hs wr act Q runs j0 k runs' :
  grouped adm hs wr act (progress j0 k :: Q) [progress j0 k] runs -> j0 ∈ adm ->
  Z.of_nat (S k) <= count_of j0 -> state_of hs (job_group j0) = bulkCommitted ->
  NoDup (run_groups runs') ->
  (forall r, r ∈ runs' -> r = (j0, S k) \/ r ∈ runs) ->
  (forall d, concat (map run_frames (runs_of d runs')) =
     concat (map run_frames (runs_of d runs)) ++ (if decide (deviceID j0 = d) then nth_frame j0 k else [])) ->
  last (runs_of (deviceID j0) runs') = Some (j0, S k) ->
  (forall d, d <> deviceID j0 -> runs_of d runs' = runs_of d runs) ->
  grouped adm hs (wr ++ nth_frame j0 k) act (progress j0 (S k) :: Q) [progress j0 (S k)] runs'.
Proof.
  intros [H1 H2 H3 H4 H5 H6 H7 H8 H9 H10] Ha Hcount Hcom Hnd Hruns Hwire Hlast Hkeep.
  pose proof (H1 j0 Ha) as Hcut.
  destruct (progress_facts j0 k Hcut) as (Ed & Eg & Hch & _).
  destruct (progress_facts j0 (S k) Hcut) as (Ed' & Eg' & Hch' & _).
  assert (act (deviceID j0) = job_group j0) as Hact.
  { destruct (H10 (progress j0 k)) as [_ Hx]; [by left|done|]. by rewrite Ed, Eg in Hx. }
  rewrite filter_cons_True in H4 by done. simpl in H4. rewrite Eg in H4.
  assert (forall j1 n, j1 ∈ adm -> progress j1 n ∈ Q -> job_group j1 <> job_group j0) as Hother.
  { intros j1 n Ha1 Hin He. apply NoDup_cons in H4 as [Hn _]. apply Hn.
    destruct (progress_facts j1 n (H1 j1 Ha1)) as (_ & Eg1 & Hc1 & _). rewrite <- He, <- Eg1.
    by apply list_elem_of_fmap_2, list_elem_of_filter. }
  assert (forall j1 n, j1 ∈ adm -> progress j1 n ∈ progress j0 (S k) :: Q ->
    (j1 = j0 /\ n = S k) \/ (progress j1 n ∈ Q /\ job_group j1 <> job_group j0)) as Hcases.
  { intros j1 n Ha1 [He|Hin]%elem_of_cons; [left|right; split; [done|by apply (Hother j1 n)]].
    destruct (progress_facts j1 n (H1 j1 Ha1)) as (_ & Eg1 & _).
    assert (j1 = j0) as -> by (apply (adm_inj adm); [done..|congruence]).
    split; [done|by apply (progress_inj j0)]. }
  split; try done.
  - intros j [->|Hj]%elem_of_cons Hc; [by exists j0, (S k)|]. apply H3; [by right|done].
  - rewrite filter_cons_True by done. simpl. by rewrite Eg'.
  - intros r [->|Hr]%Hruns; [done|by apply H6].
  - intros d. rewrite chunks_of_app, H7, Hwire. f_equal. unfold nth_frame.
    destruct (well_cut_cursor j0 Hcut) as (cur & E & _). rewrite E. unfold chunks_of. simpl.
    rewrite filter_cons, filter_nil. simpl. destruct (decide (deviceID j0 = d)) as [Hd|Hd].
    + by rewrite decide_True.
    + rewrite decide_False; [done|]. by intros [? _].
  - intros j1 Ha1 Hin Hg. destruct (Hcases j1 0%nat Ha1 Hin) as [[_ ?]|[HQ Hne]]; [done|].
    apply list_elem_of_fmap in Hg as (r & He & Hr).
    destruct (Hruns r Hr) as [->|Hr']; [done|]. apply (H8 j1 Ha1); [by right|].
    rewrite He. by apply (list_elem_of_fmap_2 (fun r => job_group r.1)).
  - intros j1 n Ha1 Hin. destruct (Hcases j1 (S n) Ha1 Hin) as [[-> [= ->]]|[HQ Hne]]; [done|].
    destruct (H9 j1 n Ha1) as (Hact1 & Hl1); [by right|]. split; [done|].
    rewrite Hkeep; [done|]. congruence.
  - intros j ->%list_elem_of_singleton _. rewrite Ed', Eg'. split; [by left|done].
Qed.

Lemma runs_of_cons d r l : runs_of d (r :: l) = (if decide (deviceID r.1 = d) then [r] else []) ++ runs_of d l.
Proof. unfold runs_of. rewrite filter_cons. by case_decide. Qed.

Lemma grouped_start adm hs wr act Q runs j0 :
  grouped adm hs wr act (progress j0 0 :: Q) [progress j0 0] runs -> j0 ∈ adm ->
  1 <= count_of j0 -> state_of hs (job_group j0) = bulkCommitted ->
  grouped adm hs (wr ++ nth_frame j0 0) act (progress j0 1 :: Q) [progress j0 1] (runs ++ [(j0, 1%nat)]).
Proof.
  intros Hg Ha Hc Hcom. apply (grouped_written _ _ _ _ _ runs j0 0); try done.
  - unfold run_groups. rewrite map_app. apply NoDup_app. split; [apply Hg|]. split; [|apply NoDup_singleton].
    intros g Hin ->%list_elem_of_singleton. simpl in Hin. by eapply (g_fresh _ _ _ _ _ _ _ Hg j0 Ha); [left|].
  - intros r. rewrite elem_of_app, list_elem_of_singleton. tauto.
  - intros d. rewrite runs_of_app, runs_of_cons, map_app, concat_app. f_equal. simpl.
    case_decide; [|done]. simpl. unfold run_frames. simpl. by rewrite !app_nil_r.
  - rewrite runs_of_app, runs_of_cons. cbn [fst]. rewrite decide_True by done. by apply last_snoc.
  - intros d Hd. rewrite runs_of_app, runs_of_cons, decide_False by done. simpl. by rewrite app_nil_r.
Qed.

Lemma last_filter_split {A : Type} (P : A -> Prop) `{!forall x, Decision (P x)} (l : list A) x :
  last (filter P l) = Some x -> exists l1 l2, l = l1 ++ x :: l2 /\ P x /\ filter P l2 = [].
Proof.
  induction l as [|y l IH] using rev_ind; [done|]. rewrite filter_app, filter_cons, filter_nil.
  case_decide as Hy.
  - rewrite last_snoc. intros [= ->]. by exists l, [].
  - rewrite app_nil_r. intros (l1 & l2 & -> & Hx & Hl2)%IH. exists l1, (l2 ++ [y]).
    rewrite <- app_assoc. split; [done|]. split; [done|].
    by rewrite filter_app, Hl2, filter_cons, decide_False.
Qed.

Lemma grouped_extend adm hs wr act Q runs j0 k :
  grouped adm hs wr act (progress j0 (S k) :: Q) [progress j0 (S k)] runs -> j0 ∈ adm ->
  Z.of_nat (S (S k)) <= count_of j0 ->
  exists runs', grouped adm hs (wr ++ nth_frame j0 (S k)) act
    (progress j0 (S (S k)) :: Q) [progress j0 (S (S k))] runs'.
Proof.
  intros Hg Ha Hc. destruct (g_last _ _ _ _ _ _ _ Hg j0 k Ha) as (_ & Hl); [by left|].
  apply last_filter_split in Hl as (r1 & r2 & -> & _ & Hr2). fold (runs_of (deviceID j0) r2) in Hr2.
  exists (r1 ++ (j0, S (S k)) :: r2).
  assert (state_of hs (job_group j0) = bulkCommitted) as Hcom
    by (apply (g_runs _ _ _ _ _ _ _ Hg (j0, S k)); set_solver).
  apply (grouped_written _ _ _ _ _ (r1 ++ (j0, S k) :: r2)); try done.
  - pose proof (g_groups _ _ _ _ _ _ _ Hg) as Hnd. unfold run_groups in *. by rewrite map_app in *.
  - intros r. rewrite !elem_of_app, !elem_of_cons. tauto.
  - intros d. rewrite !runs_of_app, !runs_of_cons, !map_app, !concat_app. cbn [fst].
    case_decide as Hd; [|by rewrite app_nil_r]. subst d. rewrite Hr2. cbn [map concat app].
    rewrite !app_nil_r, run_frames_S. by rewrite app_assoc.
  - rewrite runs_of_app, runs_of_cons, Hr2. cbn [fst]. rewrite decide_True by done. by apply last_snoc.
  - intros d Hd. rewrite !runs_of_app, !runs_of_cons. cbn [fst]. by rewrite !decide_False by done.
Qed.

Lemma grouped_silent adm hs wr act P H runs f :
  ~ is_chunk f -> grouped adm hs wr act P H runs -> grouped adm hs (wr ++ [f]) act P H runs.
Proof.
  intros Hf [H1 H2 H3 H4 H5 H6 H7 H8 H9 H10]. split; try done. intros d.
  rewrite chunks_of_app, H7. unfold chunks_of. rewrite filter_cons, decide_False, filter_nil by (by intros [_ ?]).
  by rewrite app_nil_r.
Qed.

(** One write keeps the groups whole. *)
Lemma grouped_write adm hs wr act Q runs j e :
  grouped adm hs wr act (j :: Q) [j] runs ->
  let r := writeSelected e j hs in
  exists runs', grouped adm (w_handles r) (wr ++ w_frames r) act (w_job r :: Q) [w_job r] runs'.
Proof.
  intros Hg. cbv zeta.
  destruct (writeSelected_cases e j hs) as [Hmono [[-> [->|(_ & f & -> & Hf)]]|(cur & E & -> & -> & Hlt & Hcom)]].
  - exists runs. rewrite app_nil_r. by eapply grouped_handles.
  - exists runs. apply grouped_silent; [done|]. by eapply grouped_handles.
  - apply (grouped_handles _ _ _ _ _ _ _ _ Hmono) in Hg.
    destruct (g_live _ _ _ _ _ _ _ Hg j) as (j0 & k & Ha & ->);
      [by left|by unfold chunked; rewrite E|].
    destruct (well_cut_cursor j0 (g_cut _ _ _ _ _ _ _ Hg j0 Ha)) as
      (cur0 & E0 & _ & _ & Hh & Hcb & Hlen & Hmax & Hcut).
    assert (cur = at_index (Z.of_nat k) cur0) as -> by (unfold progress in E; rewrite E0 in E; by injection E).
    assert (payload (progress j0 k) = payload j0) as Hpay by (unfold progress; by rewrite E0).
    rewrite Hpay in Hlt. simpl in Hlt, Hcom.
    assert (Z.of_nat k < count cur0) as Hk by nia.
    assert (count_of j0 = count cur0) as Hco by (unfold count_of; by rewrite E0).
    rewrite (set_cursor_progress j0 k cur0 E0) by lia.
    assert ([chunk_frame (progress j0 k) (at_index (Z.of_nat k) cur0)] = nth_frame j0 k) as ->
      by (unfold nth_frame, progress; by rewrite E0).
    destruct k as [|k].
    + exists (runs ++ [(j0, 1%nat)]). apply grouped_start; [done|done|lia|].
      rewrite (job_group_cut _ _ E0), <- Hh. by apply Hcom.
    + eapply grouped_extend; [exact Hg|done|lia].
Qed.

(** *** The whole system *)

Definition act_of (s : System) : string -> string := fun d => active_group d (writer s).

(** Every open group belongs to a job that is still there. *)
Definition covered (s : System) : Prop :=
  forall d, active_group d (writer s) <> "" ->
    exists j, j ∈ present s /\ chunked j /\ deviceID j = d /\ job_group j = active_group d (writer s).

Definition grouping (s : System) (runs : list (relayOutboundJob * nat)) : Prop :=
  grouped (admitted s) (hstore s) (wire s) (act_of s) (present s) (held s) runs.

Record inv (s : System) : Prop := {
  inv_base : base s;
  inv_groups : exists runs, grouping s runs;
  inv_covered : worker s <> WReturned -> covered s
}.

Lemma covered_perm s s' :
  activeBulkGroupByDevice (writer s') = activeBulkGroupByDevice (writer s) ->
  (forall j, j ∈ present s -> chunked j -> exists j', j' ∈ present s' /\ chunked j' /\
     deviceID j' = deviceID j /\ job_group j' = job_group j) ->
  covered s -> covered s'.
Proof.
  intros Ha Hin Hc d. unfold active_group. rewrite Ha. intros Hd. destruct (Hc d Hd) as (j & H1 & H2 & H3 & H4).
  destruct (Hin j H1 H2) as (j' & ? & ? & E1 & E2). exists j'. rewrite E1, E2. done.
Qed.

(** Steps that leave writer queues, groups and jobs alone. *)
Lemma groups_quiet s s' :
  activeBulkGroupByDevice (writer s') = activeBulkGroupByDevice (writer s) ->
  queues (writer s') = queues (writer s) -> held s' = held s -> wire s' = wire s ->
  admitted s' = admitted s ->
  (forall h, state_of (hstore s) h = bulkCommitted -> state_of (hstore s') h = bulkCommitted) ->
  (worker s' <> WReturned -> worker s <> WReturned) ->
  (exists runs, grouping s runs) /\ (worker s <> WReturned -> covered s) ->
  (exists runs, grouping s' runs) /\ (worker s' <> WReturned -> covered s').
Proof.
  intros Ea Eq Eh Ew Ead Hh Hr [[runs Hg] Hc].
  assert (present s' = present s) as Ep by (unfold present, all_jobs; by rewrite Eq, Eh).
  assert (act_of s' = act_of s) as Eact by (unfold act_of, active_group; by rewrite Ea).
  split.
  - exists runs. unfold grouping in *. rewrite Ead, Ew, Eact, Ep, Eh. by eapply grouped_handles.
  - intros Hw. eapply covered_perm; [exact Ea| |by apply Hc, Hr]. rewrite Ep. eauto.
Qed.

Lemma present_queue s j :
  shape (writer s) -> j ∈ all_jobs (writer s) -> is_class (class j) /\ j ∈ queue (class j) (writer s).
Proof.
  intros Hsh Hj. destruct (member_concat _ j (sh_queues _ Hsh) Hj) as (c & Hc & Hin).
  by rewrite (sh_class _ Hsh c j Hc Hin).
Qed.

(** The worker goes to sleep only when nothing waits: a group that bars the others
    of its device has a chunk of its own in the queue. *)
Lemma no_stall s w' :
  inv s -> worker s = WDraining -> pop (writer s) = (None, w') -> all_jobs (writer s) = [].
Proof.
  intros [Hb [runs Hg] Hc] Hw Hp. pose proof (ba_shape s Hb) as Hsh.
  assert (present s = all_jobs (writer s)) as Epr by (unfold present, held; by rewrite Hw, app_nil_r).
  destruct (pop_nothing _ _ Hsh Hp) as [_ [He|[Hne Hall]]]; [by apply all_jobs_empty|]. exfalso.
  destruct (queue relayOutboundBulk (writer s)) as [|j q] eqn:Eq; [done|].
  pose proof (Hall j ltac:(by left)) as Hj. unfold eligible in Hj. destruct (cursor j) as [cur|]; [|done].
  apply orb_false_elim in Hj as [Hj1 Hj2]. zprop.
  destruct (Hc ltac:(by rewrite Hw) (deviceID j) Hj1) as (j' & Hin & Hch & Hd & Hgr).
  rewrite Epr in Hin. destruct (present_queue s j' Hsh Hin) as [_ Hq].
  assert (class j' = relayOutboundBulk) as Hcl by (apply (ba_bulk s Hb); [by rewrite Epr|done]).
  rewrite Hcl, Eq in Hq.
  specialize (Hall j' Hq). unfold eligible in Hall. unfold job_group in Hgr.
  destruct (cursor j') as [cur'|]; [|done]. rewrite Hd, <- Hgr in Hall.
  rewrite (bool_decide_eq_true_2 (groupID cur' = groupID cur')) in Hall by done.
  by rewrite orb_true_r in Hall.
Qed.

Lemma enqueue_refused job w w' e : enqueue job w = (Some e, w') -> w' = w.
Proof. unfold enqueue. destruct (stopped w); [by intros [= _ <-]|]. by case_if; intros [= _ <-]. Qed.

Lemma admitBulk_refused job w w' e : admitBulk job w = (Some e, w') -> w' = w.
Proof. unfold admitBulk. destruct (stopped w); [by intros [= _ <-]|]. by case_if; intros [= _ <-]. Qed.

Lemma inv_enqueue job s : inv s -> inv (perform (AEnqueue job) s).
Proof.
  intros Hinv. pose proof Hinv as [Hb [runs Hg] Hc]. cbn [perform]. case_bool_decide as Hok; [|done]. destruct Hok as [Hcur Hcl].
  destruct (enqueue job (writer s)) as [[e|] w'] eqn:E.
  { apply enqueue_refused in E as ->.
    by destruct s. }
  destruct (enqueue_joined job (writer s) w' (ba_shape s Hb) ltac:(lia) E) as (Hjo & Ebf & Ebb & Est & Ero).
  assert (~ chunked (enqueued_job job)) as Hnch.
  { unfold chunked, enqueued_job. case_if; simpl; rewrite Hcur; auto. }
  assert (jobID (enqueued_job job) = jobID job) as Eid by (unfold enqueued_job; by case_if).
  assert (waiting (enqueued_job job)) as Hwt by done.
  split.
  - apply (base_joined (enqueued_job job)); try done; rewrite ?decide_False by done; try lia.
    by rewrite decide_True, Eid by done.
  - exists runs. unfold grouping, act_of, active_group, present. cbn [admitted hstore wire writer].
    rewrite (jo_active _ _ _ Hjo). eapply (grouped_chunks _ _ _ _ (present s)); [|exact Hg].
    change (held _) with (held s) at 1. unfold present.
    rewrite !filter_app. apply Permutation_app; [|done].
    rewrite (filter_cons_perm chunked _ _ _ (jo_all _ _ _ Hjo)). by rewrite decide_False.
  - intros Hw. eapply covered_perm; [by apply (jo_active _ _ _ Hjo)| |by apply Hc].
    intros j Hj Hch. exists j. split; [|done]. unfold present in *. cbn [writer].
    rewrite (jo_all _ _ _ Hjo). set_solver.
Qed.

Lemma inv_admit job s : inv s -> inv (perform (AAdmit job) s).
Proof.
  intros Hinv. pose proof Hinv as [Hb [runs Hg] Hc]. cbn [perform]. case_bool_decide as Hok; [|done]. destruct Hok as [Hcut Hfresh].
  destruct (admitBulk job (writer s)) as [[e|] w'] eqn:E.
  { apply admitBulk_refused in E as ->.
    by destruct s. }
  destruct (admitBulk_joined job (writer s) w' (ba_shape s Hb) E) as (Hjo & Ebf & Ebb & Est & Ero).
  assert (chunked (set_class relayOutboundBulk job)) as Hch
    by (unfold chunked; unfold well_cut in Hcut; simpl; by destruct (cursor job)).
  assert (~ waiting (set_class relayOutboundBulk job)) as Hwt.
  { unfold waiting. simpl. unfold well_cut in Hcut. destruct (cursor job); [|done].
    destruct Hcut as [-> _]. done. }
  split.
  - apply (base_joined (set_class relayOutboundBulk job)); try done; rewrite ?decide_True by done; try done.
    by rewrite decide_False, app_nil_r by done.
  - exists runs. unfold grouping, act_of, active_group. cbn [admitted hstore wire writer].
    rewrite (jo_active _ _ _ Hjo).
    eapply (grouped_chunks _ _ _ _ (set_class relayOutboundBulk job :: present s)); [|by apply grouped_admit].
    apply filter_perm. unfold present. cbn [writer]. rewrite (jo_all _ _ _ Hjo). done.
  - intros Hw. eapply covered_perm; [by apply (jo_active _ _ _ Hjo)| |by apply Hc].
    intros j Hj Hcj. exists j. split; [|done]. unfold present in *. cbn [writer].
    rewrite (jo_all _ _ _ Hjo). set_solver.
Qed.

(** A step that only changes flags, signals, handles or connections. *)
Lemma inv_quiet s s' :
  inv s -> queues (writer s') = queues (writer s) -> shape (writer s') ->
  activeBulkGroupByDevice (writer s') = activeBulkGroupByDevice (writer s) ->
  bulkFrames (writer s') = bulkFrames (writer s) -> bulkBytes (writer s') = bulkBytes (writer s) ->
  queueFrames (writer s') = queueFrames (writer s) -> held s' = held s ->
  (forall j e, worker s' = WWritten j e false -> worker s = WWritten j e false) ->
  (worker s' = WReturned <-> worker s = WReturned) ->
  (stopped (writer s) = true -> stopped (writer s') = true) ->
  answers s' = answers s -> asked s' = asked s -> plainPopped s' = plainPopped s ->
  admitted s' = admitted s -> wire s' = wire s ->
  (forall h, state_of (hstore s) h = bulkCommitted -> state_of (hstore s') h = bulkCommitted) ->
  (all_jobs (writer s) = [] \/ attended s -> all_jobs (writer s) = [] \/ attended s') -> inv s'.
Proof.
  intros [Hb Hg Hc] Eq Hsh Ea Ebf Ebb Eqf Eh Ew Er Est Ean Eas Ep Ead Ewr Hh Hat.
  destruct (groups_quiet s s' Ea Eq Eh Ewr Ead Hh) as [Hg' Hc'].
  - intros Hn Hr. by apply Hn, Er.
  - by split.
  - split; [|done|done]. by eapply base_quiet.
Qed.

Lemma inv_pop s j w' :
  inv s -> worker s = WDraining -> pop (writer s) = (Some j, w') ->
  inv (mkSystem w' (WHolding j) (hstore s) (conns s) (wire s) (answers s) (signals s) (admitted s) (asked s)
    (if (class j =? relayOutboundBulk) && bool_decide (cursor j = None)
     then plainPopped s ++ [j] else plainPopped s)).
Proof.
  intros [Hb [runs Hg] Hc] Hw Hp. pose proof (base_pop s j w' Hb Hw Hp) as Hb'.
  destruct (pop_left _ _ _ (ba_shape s Hb) Hp) as [Hlq Hel].
  set (s' := mkSystem w' (WHolding j) _ _ _ _ _ _ _ _) in *.
  assert (present s = all_jobs (writer s)) as Epr by (unfold present, held; by rewrite Hw, app_nil_r).
  assert (present s' ≡ₚ present s) as Hpr.
  { rewrite Epr. unfold present, held. simpl. rewrite (lq_all _ _ _ Hlq). solve_Permutation. }
  assert (chunked j -> class j = relayOutboundBulk) as Hcl.
  { intros. apply (ba_bulk s Hb); [|done]. rewrite Epr, (lq_all _ _ _ Hlq). by left. }
  assert (forall d, act_of s' d =
    if decide (chunked j /\ d = deviceID j) then job_group j else act_of s d) as Hact.
  { intros d. unfold act_of, active_group. simpl. rewrite (lq_active _ _ _ Hlq). unfold open_group.
    destruct (cursor j) as [cur|] eqn:E.
    - assert (chunked j) as Hch by (unfold chunked; by rewrite E). specialize (Hcl Hch).
      rewrite (job_group_cut _ _ E). rewrite Hcl, Z.eqb_refl. simpl. case_bool_decide as Hem; simpl.
      + destruct (decide (d = deviceID j)) as [->|Hd].
        * by rewrite lookup_insert_eq, decide_True.
        * rewrite lookup_insert_ne by done. rewrite decide_False by tauto. done.
      + destruct (decide (d = deviceID j)) as [->|Hd]; [|by rewrite decide_False by tauto].
        rewrite decide_True by done. specialize (Hel Hcl). unfold eligible in Hel. rewrite E in Hel.
        rewrite (bool_decide_eq_false_2 _ Hem) in Hel. simpl in Hel. by zprop.
    - rewrite decide_False; [done|]. unfold chunked. rewrite E. by intros [? _]. }
  assert (chunked j -> job_group j <> "") as Hgne.
  { intros Hch. destruct (g_live _ _ _ _ _ _ _ Hg j) as (j0 & k & Ha & ->);
      [rewrite Epr, (lq_all _ _ _ Hlq); by left|done|].
    pose proof (g_cut _ _ _ _ _ _ _ Hg j0 Ha) as Hcut.
    destruct (progress_facts j0 k Hcut) as (_ & -> & _).
    destruct (well_cut_cursor j0 Hcut) as (cur & E & _ & Hne & _). by rewrite (job_group_cut _ _ E). }
  split; [done| |].
  - exists runs. unfold grouping. change (held s') with [j]. change (admitted s') with (admitted s).
    change (hstore s') with (hstore s). change (wire s') with (wire s).
    eapply (grouped_chunks _ _ _ _ (present s)); [by apply filter_perm|].
    eapply (grouped_take _ _ _ (act_of s)).
    + unfold grouping in Hg. unfold held in Hg. rewrite Hw in Hg. exact Hg.
    + rewrite Epr, (lq_all _ _ _ Hlq). by left.
    + intros Hch. rewrite Hact, decide_True by done. split; [done|].
      specialize (Hel (Hcl Hch)). unfold eligible in Hel. destruct (cursor j) as [cur|] eqn:E; [|done].
      rewrite (job_group_cut _ _ E). unfold act_of. apply orb_prop in Hel as [Hel|Hel]; zprop; auto.
    + intros d Hd. rewrite Hact, decide_False; [done|]. tauto.
  - intros _ d. change (active_group d (writer s')) with (act_of s' d). rewrite Hact. case_decide as Hd.
    + destruct Hd as [Hch ->]. intros _. exists j. split; [|done]. rewrite Hpr, Epr, (lq_all _ _ _ Hlq). by left.
    + intros Hne. destruct (Hc ltac:(by rewrite Hw) d Hne) as (j' & H1 & H2 & H3 & H4).
      exists j'. by rewrite Hpr.
Qed.

Lemma inv_write t ok s job :
  inv s -> worker s = WHolding job ->
  let r := writeSelected (env_of t ok job s) job (hstore s) in
  inv (mkSystem (writer s) (WWritten (w_job r) (w_err r) (w_complete r)) (w_handles r) (conns s)
    (wire s ++ w_frames r) (answers s) (signals s) (admitted s) (asked s) (plainPopped s)).
Proof.
  intros [Hb [runs Hg] Hc] Hw. cbv zeta.
  assert (present s ≡ₚ job :: all_jobs (writer s)) as Epr
    by (unfold present, held; rewrite Hw; solve_Permutation).
  split; [by apply base_write| |].
  - unfold grouping in *. unfold held in Hg. rewrite Hw in Hg.
    apply (grouped_chunks _ _ _ _ _ (job :: all_jobs (writer s))) in Hg; [|apply filter_perm; by rewrite Epr].
    destruct (grouped_write _ _ _ _ _ _ _ (env_of t ok job s) Hg) as [runs' Hg'].
    exists runs'. unfold held. cbn [worker admitted hstore wire].
    eapply grouped_chunks; [|exact Hg']. apply filter_perm. unfold present, held. cbn [writer worker].
    solve_Permutation.
  - intros _. eapply (covered_perm s); [done| |apply Hc; by rewrite Hw].
    destruct (writeSelected_job (env_of t ok job s) job (hstore s)) as (E1 & E2 & E3 & E4 & E5 & E6 & E7 & E8 & E9).
    set (r := writeSelected (env_of t ok job s) job (hstore s)) in *.
    intros j Hj Hch. rewrite Epr in Hj. apply elem_of_cons in Hj as [->|Hj].
    + exists (w_job r). split; [unfold present, held; simpl; set_solver|]. split; [by apply E8|]. split; [done|].
      destruct (writeSelected_cases (env_of t ok job s) job (hstore s)) as [_ [[Ej _]|(cur & Ec & _ & Ej & _)]];
        fold r in Ej; rewrite Ej; [done|]. unfold job_group. by rewrite Ec.
    + exists j. split; [|done]. unfold present. simpl. set_solver.
Qed.

Lemma conn_after_committed job err cs hs h :
  state_of hs h = bulkCommitted -> state_of (snd (conn_after job err cs hs)) h = bulkCommitted.
Proof.
  intros Hs. unfold conn_after. case_bool_decide; [done|]. by apply cancel_all_committed.
Qed.

Lemma complete_act job w d :
  active_group d (completeBulkGroup job w) =
  if decide (chunked job /\ d = deviceID job /\ active_group d w = job_group job) then "" else active_group d w.
Proof.
  unfold completeBulkGroup. destruct (cursor job) as [cur|] eqn:E.
  - rewrite <- (job_group_cut _ _ E). assert (chunked job) as Hch by (unfold chunked; by rewrite E).
    case_bool_decide as Ha; unfold active_group in *; simpl.
    + destruct (decide (d = deviceID job)) as [->|Hd].
      * by rewrite lookup_delete_eq, decide_True.
      * rewrite lookup_delete_ne by done. rewrite decide_False; [done|]. tauto.
    + rewrite decide_False; [done|]. intros (_ & -> & ?). done.
  - rewrite decide_False; [done|]. intros [Hch _]. by apply Hch.
Qed.

Lemma inv_finish job err complete s :
  inv s -> worker s = WWritten job err complete -> inv (finish job err complete s).
Proof.
  intros [Hb [runs Hg] Hc] Hw. pose proof (base_finish job err complete s Hb Hw) as Hb'.
  assert (present s ≡ₚ job :: all_jobs (writer s)) as Epr
    by (unfold present, held; rewrite Hw; solve_Permutation).
  unfold grouping in Hg. assert (held s = [job]) as Eh by (unfold held; by rewrite Hw). rewrite Eh in Hg.
  apply (grouped_chunks _ _ _ _ _ (job :: all_jobs (writer s))) in Hg; [|apply filter_perm; by rewrite Epr].
  revert Hb'. unfold finish. destruct complete.
  - destruct (match conns s !! conn job with Some cs => _ | None => _ end) as [cns hs] eqn:Ehs.
    assert (forall h, state_of (hstore s) h = bulkCommitted -> state_of hs h = bulkCommitted) as Hmono.
    { intros h Hh. destruct (conns s !! conn job) as [cs|]; [|by injection Ehs as _ <-].
      pose proof (conn_after_committed job err cs _ _ Hh) as Hca.
      destruct (conn_after job err cs (hstore s)) as [cs' hs']. by injection Ehs as _ <-. }
    assert (all_jobs (completeBulkGroup job (writer s)) = all_jobs (writer s)) as Eall
      by (unfold all_jobs, completeBulkGroup; destruct (cursor job); [by case_if|done]).
    intros Hb'. split; [done| |].
    + exists runs. unfold grouping, present, held. simpl. rewrite Eall, app_nil_r.
      eapply grouped_handles; [exact Hmono|]. eapply grouped_drop; [exact Hg|].
      intros d Hd. unfold act_of. simpl. rewrite complete_act, decide_False; [done|]. tauto.
    + intros _ d. simpl. rewrite complete_act. case_decide as Hd; [done|]. intros Hne.
      destruct (Hc ltac:(by rewrite Hw) d Hne) as (j' & H1 & H2 & H3 & H4).
      rewrite Epr in H1. exists j'. split; [|done]. unfold present, held. simpl. rewrite Eall, app_nil_r.
      apply elem_of_cons in H1 as [->|H1]; [|done]. destruct Hd. done.
  - intros Hb'. assert (class job = relayOutboundBulk) as Hcl.
    { apply (ba_bulk s Hb); [rewrite Epr; by left|]. by eapply (ba_again s Hb). }
    destruct (requeue_joined job (writer s) (ba_shape s Hb) Hcl) as (Hjo & _ & _).
    assert (all_jobs (requeueBulk job (writer s)) ≡ₚ job :: all_jobs (writer s)) as Eall by apply Hjo.
    split; [done| |].
    + exists runs. unfold grouping, act_of, active_group. cbn [admitted hstore wire writer].
      rewrite (jo_active _ _ _ Hjo).
      apply (grouped_chunks _ _ _ _ (job :: all_jobs (writer s))).
      * unfold present, held. cbn [writer worker]. rewrite app_nil_r. by apply filter_perm.
      * by eapply grouped_release.
    + intros _. eapply (covered_perm s); [by apply (jo_active _ _ _ Hjo)| |apply Hc; by rewrite Hw].
      intros j Hj Hch. exists j. split; [|done]. unfold present, held. cbn [writer worker].
      by rewrite app_nil_r, Eall, <- Epr.
Qed.

Lemma inv_fail s : inv s -> worker s = WIdle -> stopped (writer s) = true -> inv (fail_system s).
Proof.
  intros [Hb [runs Hg] Hc] Hw Hst. split; [by apply base_fail| |done].
  exists runs. unfold grouping, present, held. simpl. destruct Hg as [H1 H2 H3 H4 H5 H6 H7 H8 H9 H10].
  split; try done.
  - by intros j ?%elem_of_nil.
  - constructor.
  - intros r Hr. destruct (H6 r Hr) as (? & ? & ?). split; [done|]. split; [done|]. by apply cancel_all_committed.
  - by intros j0 _ ?%elem_of_nil.
  - by intros j0 k _ ?%elem_of_nil.
  - by intros j ?%elem_of_nil.
Qed.

Lemma perform_inv a s : inv s -> inv (perform a s).
Proof.
  intros Hinv. pose proof (inv_base s Hinv) as Hb. pose proof (ba_shape s Hb) as Hsh.
  destruct a as [job|job| |h|k cs|t ok stop_first|]; [by apply inv_enqueue|by apply inv_admit|..]; cbn [perform].
  - destruct (signals s) as [|n] eqn:En; [done|].
    eapply inv_quiet; [exact Hinv|..]; try done; [by apply shape_flags|]. intros _. right. by left.
  - eapply inv_quiet; [exact Hinv|..]; try done. intros h' Hh. by apply Cancel_committed.
  - eapply inv_quiet; [exact Hinv|..]; done.
  - unfold work. destruct (worker s) as [| |job|job err complete|] eqn:Ew.
    + destruct (stopped (writer s) && (stop_first || negb (wake (writer s)))) eqn:Est.
      { apply andb_prop in Est as [Est _]. by apply inv_fail. }
      destruct (wake (writer s)); [|done].
      eapply inv_quiet; [exact Hinv|..]; try done; try (by apply shape_flags); rewrite ?Ew; try done.
      * unfold held. by rewrite Ew.
      * intros _. by right; right; right.
    + destruct (pop (writer s)) as [[job|] w'] eqn:Ep; [by apply inv_pop|].
      pose proof (no_stall s w' Hinv Ew Ep) as Hempty.
      destruct (pop_nothing _ _ Hsh Ep) as [(b & cur & Hb0 & Hcur & ->) _].
      eapply inv_quiet; [exact Hinv|..]; try done; try (by apply shape_service); rewrite ?Ew; try done.
      * unfold held. by rewrite Ew.
      * intros _. by left.
    + by apply inv_write.
    + by apply inv_finish.
    + done.
  - eapply inv_quiet; [exact Hinv|..]; try done; try (by apply shape_flags).
Qed.

Lemma shape_new : shape newRelayOutboundWriter.
Proof.
  split; simpl; try done. intros c j Hc. unfold queue. simpl.
  assert (c = 0 \/ c = 1 \/ c = 2 \/ c = 3 \/ c = 4) as [->|[->|[->|[->| ->]]]]
    by (unfold is_class, relayOutboundClassCount in Hc; lia); simpl; by intros ?%elem_of_nil.
Qed.

Lemma inv_init : inv init.
Proof.
  split.
  - split; unfold present; simpl; try done; [apply shape_new|by intros j ?%elem_of_nil|by left].
  - exists []. split; unfold present, held; simpl; try done; try apply NoDup_nil_2; intros x; intros;
      repeat match goal with H : _ ∈ [] |- _ => by apply elem_of_nil in H end.
  - intros _ d. simpl. unfold active_group. simpl. by rewrite lookup_empty.
Qed.

Definition run_from (s : System) (acts : list action) : System := fold_left (fun s a => perform a s) acts s.

Lemma run_from_inv acts s : inv s -> inv (run_from s acts).
Proof. revert s. induction acts as [|a acts IH]; intros s Hs; [done|]. by apply IH, perform_inv. Qed.

Lemma run_inv acts : inv (run acts).
Proof. apply (run_from_inv acts init inv_init). Qed.

(** *** Payloads *)

Lemma slices_cover (p : bytes) cb n :
  0 < cb ->
  concat (map (fun i => slice (Z.of_nat i * cb) cb p) (seq 0 n)) = take (n * Z.to_nat cb) p.
Proof.
  intros Hcb. induction n as [|n IH]; [done|].
  rewrite seq_S, map_app, concat_app, IH. simpl. rewrite app_nil_r. unfold slice.
  replace (Z.to_nat (Z.of_nat n * cb)) with (n * Z.to_nat cb)%nat by lia.
  rewrite take_take_drop. f_equal. lia.
Qed.

Lemma run_payload j k cur :
  cursor j = Some cur -> 0 < chunkBytes cur ->
  concat (map f_payload (run_frames (j, k))) = take (k * Z.to_nat (chunkBytes cur)) (payload j).
Proof.
  intros E Hcb. rewrite <- slices_cover by done. unfold run_frames. cbn [fst snd].
  assert (forall l, map f_payload (concat (map (nth_frame j) l)) =
    map (fun i => slice (Z.of_nat i * chunkBytes cur) (chunkBytes cur) (payload j)) l) as ->; [|done].
  induction l as [|i l IH]; [done|]. cbn [map concat]. rewrite map_app, IH. unfold nth_frame. by rewrite E.
Qed.

Lemma run_frame_group r f :
  f ∈ run_frames r -> exists m, f_chunk f = Some m /\ m_GroupID m = job_group r.1.
Proof.
  unfold run_frames. intros Hf. apply list_elem_of_In, in_concat in Hf as (fs & Hfs & Hf).
  apply in_map_iff in Hfs as (i & <- & _). unfold nth_frame, job_group in *.
  destruct (cursor r.1) as [cur|]; [|done]. destruct Hf as [<-|[]]. eexists. by split.
Qed.

Lemma chunk_committed s f m :
  inv s -> f ∈ wire s -> f_chunk f = Some m -> state_of (hstore s) (m_GroupID m) = bulkCommitted.
Proof.
  intros [_ [runs Hg] _] Hf Hm.
  assert (f ∈ chunks_of (f_device f) (wire s)) as Hin.
  { apply list_elem_of_filter. split; [|done]. split; [done|]. unfold is_chunk. by rewrite Hm. }
  rewrite (g_wire _ _ _ _ _ _ _ Hg) in Hin. apply list_elem_of_In, in_concat in Hin as (fs & Hfs & Hin).
  apply in_map_iff in Hfs as (r & <- & Hr). apply list_elem_of_In in Hr, Hin.
  apply list_elem_of_filter in Hr as [_ Hr]. destruct (run_frame_group r f Hin) as (m' & Hm' & Hgr).
  assert (m' = m) as -> by congruence. rewrite Hgr. by apply (g_runs _ _ _ _ _ _ _ Hg).
Qed.

(** Cancelled handles stay cancelled. *)
Lemma Cancel_cancelled h hs h' : state_of hs h' = bulkCancelled -> state_of (snd (Cancel h hs)) h' = bulkCancelled.
Proof. intros Hs. rewrite Cancel_state. by case_if. Qed.

Lemma cancel_all_cancelled l hs h' :
  state_of hs h' = bulkCancelled -> state_of (cancel_all l hs) h' = bulkCancelled.
Proof. revert hs. induction l as [|x l IH]; intros hs Hs; [done|]. by apply IH, Cancel_cancelled. Qed.

Lemma writeSelected_cancelled e j hs h :
  state_of hs h = bulkCancelled -> state_of (w_handles (writeSelected e j hs)) h = bulkCancelled.
Proof.
  intros Hs. unfold writeSelected. destruct (cursor j) as [cur|]; [|by case_if].
  destruct (if nextIndex cur =? 0 then _ else _) as [go hs'] eqn:Eg.
  assert (state_of hs' h = bulkCancelled) as Hs'.
  { destruct (nextIndex cur =? 0); [|by injection Eg as _ <-]. unfold MarkIndex0Committed in Eg.
    pose proof (swap_state (handle cur) bulkActive bulkCommitted hs h) as Hsw. rewrite Eg in Hsw. simpl in Hsw.
    rewrite Hsw. case_bool_decide as Hh; [|done]. subst. by rewrite Hs. }
  repeat case_if; done.
Qed.

Lemma perform_cancelled a s h :
  state_of (hstore s) h = bulkCancelled -> state_of (hstore (perform a s)) h = bulkCancelled.
Proof.
  intros Hs. destruct a as [job|job| |h'|k cs|t ok stop_first|]; cbn [perform]; try done.
  - case_bool_decide; [|done]. by destruct (enqueue job (writer s)) as [[e|] w'].
  - case_bool_decide; [|done]. by destruct (admitBulk job (writer s)) as [[e|] w'].
  - by destruct (signals s).
  - by apply Cancel_cancelled.
  - unfold work. destruct (worker s) as [| |job|job err complete|]; [| | | |done].
    + case_if; [by apply cancel_all_cancelled|]. by case_if.
    + by destruct (pop (writer s)) as [[job|] w'].
    + by apply writeSelected_cancelled.
    + unfold finish. destruct complete; [|done].
      destruct (conns s !! conn job) as [cs|]; [|done]. unfold conn_after. case_bool_decide; [done|].
      simpl. by apply cancel_all_cancelled.
Qed.

(** *** Counting pops *)

(** The job the worker pops in a step. *)
Definition popped_now (a : action) (s : System) : option relayOutboundJob :=
  match a, worker s with AWork _ _ _, WDraining => fst (pop (writer s)) | _, _ => None end.

(** The number of pops of an execution in which a class is ready at every pop and
    never served; [None] for any other execution. *)
Fixpoint passed_over (c : Z) (acts : list action) (s : System) : option Z :=
  match acts with
  | [] => Some 0
  | a :: acts =>
      match popped_now a s with
      | None => passed_over c acts (perform a s)
      | Some job =>
          if ready (writer s) c && negb (class job =? c)
          then option_map (Z.add 1) (passed_over c acts (perform a s)) else None
      end
  end.

Lemma pop_idle w :
  0 <= serviceCursor w < 4 -> (forall c, is_class c -> queue c w = []) ->
  pop w = (None, set_service (controlBurst w) (serviceCursor w) w).
Proof.
  intros Hcur He.
  assert (forall c, is_class c -> ready w c = false) as Hr by (intros; by apply ready_false, He).
  unfold pop. rewrite (Hr relayOutboundControl) by done. cbn [andb].
  assert (service 4 (serviceCursor w) w = (None, serviceCursor w)) as ->.
  { rewrite service_turns by done.
    assert (forall c, c ∈ serviceOrder -> ready w c = false) as Hs by (intros c Hc; by apply Hr, service_class).
    unfold turns. repeat case_if; simpl; rewrite !Hs by (unfold serviceOrder; set_solver); done. }
  cbv zeta. change (ready (set_service (controlBurst w) (serviceCursor w) w)) with (ready w).
  rewrite (Hr relayOutboundBulk), (Hr relayOutboundControl); done.
Qed.

(** Only pops move the service. *)
Lemma service_unmoved a s c :
  inv s -> popped_now a s = None -> delay c (writer (perform a s)) = delay c (writer s).
Proof.
  intros Hinv. pose proof (inv_base s Hinv) as Hb. pose proof (ba_shape s Hb) as Hsh.
  unfold delay. destruct a as [job|job| |h|k cs|t ok stop_first|]; cbn [perform popped_now]; try done; intros Hp.
  - case_bool_decide as Hok; [|done]. destruct (enqueue job (writer s)) as [[e|] w'] eqn:E; simpl.
    + by apply enqueue_refused in E as ->.
    + destruct (enqueue_joined job (writer s) w' Hsh ltac:(lia) E) as (Hjo & _).
      by destruct (jo_service _ _ _ Hjo) as [-> ->].
  - case_bool_decide as Hok; [|done]. destruct (admitBulk job (writer s)) as [[e|] w'] eqn:E; simpl.
    + by apply admitBulk_refused in E as ->.
    + destruct (admitBulk_joined job (writer s) w' Hsh E) as (Hjo & _).
      by destruct (jo_service _ _ _ Hjo) as [-> ->].
  - by destruct (signals s).
  - unfold work. destruct (worker s) as [| |job|job err complete|] eqn:Ew; try done.
    + repeat case_if; done.
    + destruct (pop (writer s)) as [[job|] w'] eqn:E; [done|].
      pose proof (no_stall s w' Hinv Ew E) as Hempty.
      rewrite pop_idle in E; [by injection E as <-|apply Hsh|].
      intros c' Hc'. destruct (queue c' (writer s)) as [|j q] eqn:Eq; [done|].
      pose proof (concat_member _ _ _ j (queue_lookup c' _ (sh_queues _ Hsh) Hc')) as Hin.
      rewrite Eq in Hin. unfold all_jobs in Hempty. rewrite Hempty in Hin.
      destruct (proj1 (elem_of_nil j) (Hin ltac:(by left))).
    + unfold finish. destruct complete.
      * destruct (match conns s !! conn job with Some _ => _ | None => _ end). simpl.
        unfold completeBulkGroup. destruct (cursor job); [by case_if|done].
      * simpl. done.
Qed.

Lemma passed_over_bound c acts s n :
  inv s -> c ∈ serviceOrder -> passed_over c acts s = Some n -> n <= delay c (writer s).
Proof.
  intros Hinv Hc. revert s n Hinv. induction acts as [|a acts IH]; intros s n Hinv; cbn [passed_over].
  - intros [= <-]. pose proof (distance_bound c _ (sh_service _ (ba_shape _ (inv_base s Hinv)))).
    unfold delay. lia.
  - destruct (popped_now a s) as [job|] eqn:Ep.
    + destruct (ready (writer s) c && negb (class job =? c)) eqn:Er; [|done].
      destruct (passed_over c acts (perform a s)) as [m|] eqn:Em; [|done]. intros [= <-].
      apply andb_prop in Er as [Hr%ready_true Hne]. zprop.
      pose proof (IH _ _ (perform_inv a s Hinv) Em) as Hm.
      destruct a as [ | | | | |t ok stop_first| ]; try done. cbn [popped_now] in Ep.
      destruct (worker s) eqn:Ew; try done. destruct (pop (writer s)) as [o w'] eqn:Epop. simpl in Ep. subst o.
      destruct (pop_delay c (writer s) job w' (ba_shape _ (inv_base s Hinv)) Hc Hr Epop) as [?|Hd]; [done|].
      assert (writer (perform (AWork t ok stop_first) s) = w') as Ew'
        by (cbn [perform]; unfold work; by rewrite Ew, Epop).
      rewrite Ew' in Hm. lia.
    + intros Hm. rewrite <- (service_unmoved a s c Hinv Ep). by apply IH; [apply perform_inv|].
Qed.

(** ** Properties *)

(** Chunk groups reach the relay whole and apart: in every execution, the
    chunks written for a device are a sequence of groups, each of an admitted
    answer and none twice; a group's chunks are its first [k] slices in order,
    never interleaved with another group of the device; and the slices of a group
    whose count was reached concatenate to the payload. *)
Theorem chunk_groups acts :
  let s := run acts in
  exists runs,
    NoDup (run_groups runs) /\
    (forall j k, (j, k) ∈ runs -> j ∈ admitted s /\ Z.of_nat k <= count_of j) /\
    (forall d, chunks_of d (wire s) = concat (map run_frames (runs_of d runs))) /\
    (forall j k, (j, k) ∈ runs -> Z.of_nat k = count_of j ->
       concat (map f_payload (run_frames (j, k))) = payload j).
Proof.
  cbv zeta. destruct (run_inv acts) as [_ [runs Hg] _]. exists runs.
  assert (forall j k, (j, k) ∈ runs -> j ∈ admitted (run acts) /\ Z.of_nat k <= count_of j) as Hr
    by (intros j k Hin; destruct (g_runs _ _ _ _ _ _ _ Hg (j, k) Hin) as (? & ? & _); done).
  split; [apply Hg|]. split; [done|]. split; [apply Hg|].
  intros j k Hin Hk. destruct (Hr j k Hin) as [Ha _].
  destruct (well_cut_cursor j (g_cut _ _ _ _ _ _ _ Hg j Ha)) as (cur & E & _ & _ & _ & Hcb & _ & _ & _ & Hlen).
  rewrite (run_payload j k cur E Hcb). apply take_ge. unfold count_of in Hk. rewrite E in Hk. nia.
Qed.

(** A cancellation that was answered true is kept: whatever happens afterwards,
    no chunk of the group was or is ever written. *)
Theorem cancelled_never_written acts acts' h :
  fst (Cancel h (hstore (run acts))) = true ->
  let s := run_from (run acts) (ACancel h :: acts') in
  forall f m, f ∈ wire s -> f_chunk f = Some m -> m_GroupID m <> h.
Proof.
  intros Hc. cbv zeta. intros f m Hf Hm Heq.
  assert (inv (run_from (run acts) (ACancel h :: acts'))) as Hinv by (apply run_from_inv, run_inv).
  pose proof (chunk_committed _ f m Hinv Hf Hm) as Hcom. rewrite Heq in Hcom.
  assert (state_of (hstore (perform (ACancel h) (run acts))) h = bulkCancelled) as Hst.
  { simpl. rewrite Cancel_state, bool_decide_eq_true_2 by done. simpl. revert Hc. unfold Cancel, CompareAndSwap.
    destruct (Z.eqb_spec (state_of (hstore (run acts)) h) bulkCancelled) as [->|]; [done|].
    destruct (state_of (hstore (run acts)) h =? bulkCommitted); [done|].
    by destruct (state_of (hstore (run acts)) h =? bulkActive). }
  change (run_from (run acts) (ACancel h :: acts')) with (run_from (perform (ACancel h) (run acts)) acts') in Hcom.
  revert Hst Hcom. generalize (perform (ACancel h) (run acts)). clear.
  induction acts' as [|a acts' IH]; intros s Hst; simpl; [rewrite Hst; done|]. by apply IH, perform_cancelled.
Qed.

(** No class is starved by the ones above it: in every execution, a class of
    the service order that is ready at every pop is served within thirty-six
    pops, whatever is enqueued in between. *)
Theorem served_within acts0 acts c n :
  c ∈ serviceOrder -> passed_over c acts (run acts0) = Some n -> n <= 35.
Proof.
  intros Hc Hn. pose proof (run_inv acts0) as Hinv. pose proof (passed_over_bound c acts _ n Hinv Hc Hn) as Hb.
  pose proof (ba_shape _ (inv_base _ Hinv)) as Hsh. pose proof (sh_burst _ Hsh).
  pose proof (distance_bound c _ (sh_service _ Hsh)). unfold delay, relayControlBurstCap in Hb. lia.
Qed.

(** No job is stranded: the worker stops popping only when every queue is empty;
    while it sleeps and a job waits, a wake-up is pending; when it has returned
    nothing waits; and every caller [enqueue] let in was answered once or its job
    still waits. *)
Theorem nothing_stranded acts :
  let s := run acts in
  (worker s = WDraining -> fst (pop (writer s)) = None -> all_jobs (writer s) = []) /\
  (worker s = WIdle -> all_jobs (writer s) <> [] -> wake (writer s) = true \/ (0 < signals s)%nat) /\
  (worker s = WReturned -> all_jobs (writer s) = []) /\
  asked s ≡ₚ map fst (answers s) ++ map jobID (filter waiting (present s)).
Proof.
  cbv zeta. pose proof (run_inv acts) as Hinv. pose proof (inv_base _ Hinv) as Hb. split; [|split; [|split]].
  - intros Hw Hp. destruct (pop (writer (run acts))) as [o w'] eqn:E. simpl in Hp. subst. by eapply no_stall.
  - intros Hw Hne. destruct (ba_attended _ Hb) as [?|Ha]; [done|]. by apply attended_idle.
  - intros Hw. by apply (ba_returned _ Hb).
  - apply Hb.
Qed.

(** The counters: those of the whole queue are exact, within one frame of the
    limit; those of the bulk queue are too small by every bulk job without
    cursor the worker ever popped, because [enqueue] does not count it and
    [popClassLocked] does. *)
Theorem bulk_counters_drift acts :
  let s := run acts in
  worker s <> WReturned ->
  queueFrames (writer s) = zlen (all_jobs (writer s)) /\
  queueBytes (writer s) = sum_with size_of (all_jobs (writer s)) /\
  queueFrames (writer s) <= relayOutboundQueueFrames + 1 /\
  bulkFrames (writer s) = zlen (filter chunked (all_jobs (writer s))) - zlen (plainPopped s) /\
  bulkBytes (writer s) =
    sum_with size_of (filter chunked (all_jobs (writer s))) - sum_with size_of (plainPopped s).
Proof.
  cbv zeta. intros Hw. pose proof (inv_base _ (run_inv acts)) as Hb. pose proof (ba_shape _ Hb) as Hsh.
  destruct (ba_counters _ Hb Hw) as [H1 H2]. pose proof (ba_room _ Hb).
  split; [apply Hsh|]. split; [apply Hsh|]. split; [lia|]. done.
Qed.

(** ** Concrete executions *)

Definition plain_job (id c : Z) : relayOutboundJob :=
  mkJob id 0 "phone" [Byte.x01; Byte.x02] "" c false None.

(** An answer of five bytes in three chunks. *)
Definition cut_job (id : Z) (g : string) : relayOutboundJob :=
  mkJob id 0 "phone" [Byte.x01; Byte.x02; Byte.x03; Byte.x04; Byte.x05] "" relayOutboundBulk false
    (Some (mkCursor g 0 3 2 g "s" 1 7 1000 "" "r")).

Definition open_conn : ConnState := mkConnState new_bulk_conn (NewCorrelatedRegistry 4 4) 7.
Definition works (n : nat) : list action := repeat (AWork 10 true false) n.

Definition drift_sample : list action :=
  [AConn 0 open_conn; AEnqueue (plain_job 1 relayOutboundBulk); AEnqueue (plain_job 2 relayOutboundBulk);
   AEnqueue (plain_job 3 relayOutboundBulk); ASignal] ++ works 10.

Lemma bulk_counters_drift_witness :
  bulkFrames (writer (run drift_sample)) = -3 /\ bulkBytes (writer (run drift_sample)) = -6 /\
  zlen (plainPopped (run drift_sample)) = 3 /\
  bulkFrames (writer (run drift_sample)) =
    zlen (filter chunked (all_jobs (writer (run drift_sample)))) - zlen (plainPopped (run drift_sample)).
Proof.
  split; [vm_compute; reflexivity|]. split; [vm_compute; reflexivity|]. split; [vm_compute; reflexivity|].
  assert (worker (run drift_sample) <> WReturned) as Hw by (vm_compute; discriminate).
  exact (proj1 (proj2 (proj2 (proj2 (bulk_counters_drift drift_sample Hw))))).
Defined.

(** Two groups of one device: the second waits for the first, which a ping splits. *)
Definition groups_sample : list action :=
  [AConn 0 open_conn; AAdmit (cut_job 1 "g1"); AAdmit (cut_job 2 "g2"); ASignal] ++ works 4 ++
  [AEnqueue (plain_job 3 relayOutboundControl)] ++ works 21.

Example groups_sample_wire :
  map (fun f => option_map (fun m => (m_GroupID m, m_Index m)) (f_chunk f)) (wire (run groups_sample)) =
  [Some ("g1", 0); None; Some ("g1", 1); Some ("g1", 2); Some ("g2", 0); Some ("g2", 1); Some ("g2", 2)].
Proof. vm_compute. reflexivity. Qed.

Definition cancel_sample : list action :=
  [AConn 0 open_conn; AAdmit (cut_job 1 "g1"); AAdmit (cut_job 2 "g2"); ASignal].

Lemma cancelled_never_written_witness :
  let s := run_from (run cancel_sample) (ACancel "g1" :: works 20) in
  map (fun f => option_map m_GroupID (f_chunk f)) (wire s) = [Some "g2"; Some "g2"; Some "g2"] /\
  forall f m, f ∈ wire s -> f_chunk f = Some m -> m_GroupID m <> "g1".
Proof.
  split; [vm_compute; reflexivity|].
  apply (cancelled_never_written cancel_sample (works 20) "g1"). vm_compute; reflexivity.
Defined.

(** Nine control frames, one of which waits for a normal frame. *)
Definition service_sample : list action :=
  AConn 0 open_conn :: AEnqueue (plain_job 0 relayOutboundNormal) ::
  map (fun i => AEnqueue (plain_job i relayOutboundControl)) [1; 2; 3; 4; 5; 6; 7; 8; 9] ++ [ASignal].

Lemma served_within_witness :
  passed_over relayOutboundNormal (works 25) (run service_sample) = Some 8 /\ 8 <= 35.
Proof.
  assert (passed_over relayOutboundNormal (works 25) (run service_sample) = Some 8) as H
    by (vm_compute; reflexivity).
  split; [exact H|]. apply (served_within service_sample (works 25) relayOutboundNormal 8); [|exact H].
  apply (bool_decide_eq_true_1 (relayOutboundNormal ∈ serviceOrder)). vm_compute; reflexivity.
Defined.
