(* ===== verification/RelayConn.v ===== *)
(** * Sending on a relay connection (go-bridge/relay_conn.go)

    How a connection turns answers and events into jobs of the outbound writer:
    classification, compression, the cut of a long answer into chunks, and the
    registrations that go with it. Marshalling, compression and the random group
    id are arguments; so is whether the writer delivers a job whose caller
    waits. One call runs as one step of the connection. *)

From S2P Require Import Prelude.
From S2P Require Import RelayClass.
From S2P Require Import BulkState.
From S2P Require Import OutboundWriter.

Definition relayGzipThreshold : Z := 32 * 1024.
Definition relayChunkTargetBytes : Z := Z.shiftl 32 10.
Definition relayChunkMinimumBytes : Z := Z.shiftl 16 10.
Definition relayChunkMaximumCount : Z := 1024.
Definition relayLogicalMaximumBytes : Z := Z.shiftl 50 20.
Definition relayBulkCursorMaxAge : Z := 2 * minute.
Definition relayBulkCorrelationMaxActive : Z := 32.
Definition relayBulkCorrelationMaxRetired : Z := 64.

Record RelayDeviceConn : Type := mkRelayConn {
  rc_id : Z;
  rc_deviceID : string;
  rc_state : ConnState;                  (* handles, correlations, generation, closed *)
  rc_writer : bool;                      (* [writer] is not nil *)
  requestClasses : gmap string Z;
  requestMethods : gmap string string;
  requestBulkCorrelations : gmap string string;
  outboundGzip : bool;
  outboundChunks : bool;
  outboundChunkProgress : bool
}.

Definition NewRelayDeviceConn (id : Z) (deviceID : string) (generation : Z) : RelayDeviceConn :=
  mkRelayConn id deviceID
    (mkConnState new_bulk_conn
       (NewCorrelatedRegistry relayBulkCorrelationMaxActive relayBulkCorrelationMaxRetired) generation)
    false ∅ ∅ ∅ false false false.

Definition set_state (cs : ConnState) (rc : RelayDeviceConn) : RelayDeviceConn :=
  mkRelayConn (rc_id rc) (rc_deviceID rc) cs (rc_writer rc) (requestClasses rc) (requestMethods rc)
    (requestBulkCorrelations rc) (outboundGzip rc) (outboundChunks rc) (outboundChunkProgress rc).

Definition set_bulk (b : BulkConn) (rc : RelayDeviceConn) : RelayDeviceConn :=
  set_state (mkConnState b (correlations (rc_state rc)) (conn_generation (rc_state rc))) rc.

Definition set_correlations (r : CorrelatedRegistry) (rc : RelayDeviceConn) : RelayDeviceConn :=
  set_state (mkConnState (bulk (rc_state rc)) r (conn_generation (rc_state rc))) rc.

Definition rc_closed (rc : RelayDeviceConn) : bool := conn_closed (bulk (rc_state rc)).

Definition setOutboundWriter (present : bool) (rc : RelayDeviceConn) : RelayDeviceConn :=
  mkRelayConn (rc_id rc) (rc_deviceID rc) (rc_state rc) present (requestClasses rc) (requestMethods rc)
    (requestBulkCorrelations rc) (outboundGzip rc) (outboundChunks rc) (outboundChunkProgress rc).

Definition registerRequestClass (requestID method bulkCorrelationID : string) (rc : RelayDeviceConn)
  : RelayDeviceConn :=
  if bool_decide (requestID = "") then rc
  else
    mkRelayConn (rc_id rc) (rc_deviceID rc) (rc_state rc) (rc_writer rc)
      (<[requestID := classifyRelayRequest method]> (requestClasses rc))
      (<[requestID := method]> (requestMethods rc))
      (if bool_decide (method = "read_file_v2") && bool_decide (bulkCorrelationID <> "")
          && outboundChunkProgress rc
       then <[requestID := bulkCorrelationID]> (requestBulkCorrelations rc) else requestBulkCorrelations rc)
      (outboundGzip rc) (outboundChunks rc) (outboundChunkProgress rc).

Definition negotiateRelayChunkProgress (capabilities : list string) (rc : RelayDeviceConn)
  : bool * RelayDeviceConn :=
  if one_of "relay_chunk_progress_v1" capabilities then
    (true, mkRelayConn (rc_id rc) (rc_deviceID rc) (rc_state rc) (rc_writer rc) (requestClasses rc)
       (requestMethods rc) (requestBulkCorrelations rc) (outboundGzip rc) (outboundChunks rc) true)
  else (false, rc).

Definition negotiateRelayCancel (capabilities : list string) : bool := one_of "cancel_request_v1" capabilities.

Definition negotiateRelayGzip (capabilities : list string) (rc : RelayDeviceConn) : bool * RelayDeviceConn :=
  if one_of "relay_gzip_v1" capabilities then
    (true, mkRelayConn (rc_id rc) (rc_deviceID rc) (rc_state rc) (rc_writer rc) (requestClasses rc)
       (requestMethods rc) (requestBulkCorrelations rc) true (outboundChunks rc) (outboundChunkProgress rc))
  else (false, rc).

Definition negotiateRelayChunks (capabilities : list string) (rc : RelayDeviceConn) : bool * RelayDeviceConn :=
  if one_of "relay_chunks_v1" capabilities then
    (rc_writer rc, mkRelayConn (rc_id rc) (rc_deviceID rc) (rc_state rc) (rc_writer rc) (requestClasses rc)
       (requestMethods rc) (requestBulkCorrelations rc) (outboundGzip rc) (rc_writer rc)
       (outboundChunkProgress rc))
  else (false, rc).

Definition cleanupSupersededRequest (requestID : string) (rc : RelayDeviceConn) : RelayDeviceConn :=
  let b := bulk (rc_state rc) in
  let rc := set_bulk (mkConn (conn_closed b) (sessionBulkGenerations b)
                        (delete requestID (bulkRequestContexts b)) (activeBulkHandles b)
                        (requestBulkHandles b)) rc in
  mkRelayConn (rc_id rc) (rc_deviceID rc) (rc_state rc) (rc_writer rc) (delete requestID (requestClasses rc))
    (requestMethods rc) (requestBulkCorrelations rc) (outboundGzip rc) (outboundChunks rc)
    (outboundChunkProgress rc).

Definition Close (rc : RelayDeviceConn) (hs : HandleStore) : RelayDeviceConn * HandleStore :=
  let '(b, hs) := close_bulk (bulk (rc_state rc)) hs in
  let rc := set_bulk b rc in
  (mkRelayConn (rc_id rc) (rc_deviceID rc) (rc_state rc) false ∅ (requestMethods rc)
     (requestBulkCorrelations rc) (outboundGzip rc) (outboundChunks rc) (outboundChunkProgress rc), hs).

(** [SendResult] takes what was registered for the request. *)
Definition take_request (requestID : string) (rc : RelayDeviceConn) : RelayDeviceConn :=
  let rc := cleanupSupersededRequest requestID rc in
  mkRelayConn (rc_id rc) (rc_deviceID rc) (rc_state rc) (rc_writer rc) (requestClasses rc)
    (delete requestID (requestMethods rc)) (delete requestID (requestBulkCorrelations rc))
    (outboundGzip rc) (outboundChunks rc) (outboundChunkProgress rc).

(** The bytes of a chunk, and the number of chunks of [n] bytes. *)
Definition chunk_bytes (n : Z) : Z :=
  let needed := (n + relayChunkMaximumCount - 1) / relayChunkMaximumCount in
  let cb := if needed >? relayChunkTargetBytes then needed else relayChunkTargetBytes in
  if cb <? relayChunkMinimumBytes then relayChunkMinimumBytes else cb.
Definition chunk_count (n : Z) : Z := wrap_u32 ((n + chunk_bytes n - 1) / chunk_bytes n).

Section Sending.
(** [gzipPayload], [None] for an error. *)
Context (gzipPayload : bytes -> option bytes).

(** The payload to send and its encoding. *)
Definition compress (gzip : bool) (p : bytes) : option (bytes * string) :=
  if gzip && (zlen p >=? relayGzipThreshold) then
    match gzipPayload p with
    | None => None
    | Some c => if zlen c <? zlen p then Some (c, "gzip") else Some (p, "")
    end
  else Some (p, "").

(** The state a call works on. *)
Record SendState : Type := mkSend {
  ss_conn : RelayDeviceConn;
  ss_writer : relayOutboundWriter;
  ss_handles : HandleStore
}.

Definition close_conn (s : SendState) : SendState :=
  let '(rc, hs) := Close (ss_conn s) (ss_handles s) in mkSend rc (ss_writer s) hs.

Definition cancel_handle (h : string) (s : SendState) : SendState :=
  mkSend (ss_conn s) (ss_writer s) (snd (Cancel h (ss_handles s))).

(** [writer.enqueue]: queued and, when [delivered], answered without error. *)
Definition enqueue_wait (delivered : bool) (job : relayOutboundJob) (s : SendState) : bool * SendState :=
  match enqueue job (ss_writer s) with
  | (None, w) => (delivered, mkSend (ss_conn s) w (ss_handles s))
  | (Some _, w) => (false, mkSend (ss_conn s) w (ss_handles s))
  end.

Definition deliver (delivered : bool) (job : relayOutboundJob) (s : SendState) : SendState :=
  let '(ok, s) := enqueue_wait delivered job s in if ok then s else close_conn s.

(** What the caller of a send supplies. *)
Record SendEnv : Type := mkSendEnv {
  e_jobID : Z;
  e_groupID : string;                    (* [generateRelayID("grp_")] *)
  e_now : Z;
  e_delivered : bool;
  e_overload : bytes                     (* the marshalled answer [relay.overloaded] *)
}.

Definition bulk_job (e : SendEnv) (rc : RelayDeviceConn) (ctx : option relayBulkRequestContext)
    (p : bytes) (enc corr requestID : string) : relayOutboundJob :=
  mkJob (e_jobID e) (rc_id rc) (rc_deviceID rc) p enc 0 false
    (Some (mkCursor (e_groupID e) 0 (chunk_count (zlen p)) (chunk_bytes (zlen p)) (e_groupID e)
       (match ctx with Some c => ctx_sessionID c | None => "" end)
       (match ctx with Some c => ctx_generation c | None => 0 end)
       (conn_generation (rc_state rc)) (e_now e + relayBulkCursorMaxAge) corr requestID)).

(** [rc.completeBulkHandle] when the request has a bulk context. *)
Definition forget_context (ctx : option relayBulkRequestContext) (h : string) (s : SendState) : SendState :=
  match ctx with
  | Some c => mkSend (set_bulk (completeBulkHandle (ctx_sessionID c) h (bulk (rc_state (ss_conn s)))) (ss_conn s))
                (ss_writer s) (ss_handles s)
  | None => s
  end.

(** The admission of a chunked answer. *)
Definition admit_chunked (e : SendEnv) (job : relayOutboundJob) (ctx : option relayBulkRequestContext)
    (s : SendState) : SendState :=
  let h := e_groupID e in
  match admitBulk job (ss_writer s) with
  | (None, w) => mkSend (ss_conn s) w (ss_handles s)
  | (Some err, w) =>
      let s := cancel_handle h (mkSend (ss_conn s) w (ss_handles s)) in
      let s := forget_context ctx h s in
      match err with
      | ErrBulkOverflow =>
          deliver (e_delivered e)
            (mkJob (e_jobID e) (rc_id (ss_conn s)) (rc_deviceID (ss_conn s)) (e_overload e) ""
               relayOutboundInteractive false None) s
      | _ => close_conn s
      end
  end.

(** The chunked branch of [SendResult]. *)
Definition send_chunked (e : SendEnv) (requestID method corr : string)
    (ctx : option relayBulkRequestContext) (p : bytes) (enc : string) (s : SendState) : SendState :=
  let h := e_groupID e in
  let rc := ss_conn s in
  if zlen p >? relayLogicalMaximumBytes then close_conn s
  else
    let hs := newOutboundBulkHandle h (ss_handles s) in
    let '(ok, b, hs) :=
      match ctx with
      | Some c => installHandleIfSessionBulkGenerationCurrent (ctx_sessionID c) (ctx_generation c) h
                    (bulk (rc_state rc)) hs
      | None => (true, bulk (rc_state rc), hs)
      end in
    let s := mkSend (set_bulk b rc) (ss_writer s) hs in
    if negb ok then cancel_handle h s
    else
      let '(admitted, r) :=
        if bool_decide (corr <> "")
        then let '(ok, _, r) := PutIfAbsent corr (correlations (rc_state rc)) in (ok, r)
        else (true, correlations (rc_state rc)) in
      let s := mkSend (set_correlations r (ss_conn s)) (ss_writer s) (ss_handles s) in
      if negb admitted then close_conn (forget_context ctx h (cancel_handle h s))
      else
        let s :=
          if bool_decide (method = "read_file_v2") then
            let '(b, hs) := installRequestBulkHandle requestID h (bulk (rc_state (ss_conn s))) (ss_handles s) in
            mkSend (set_bulk b (ss_conn s)) (ss_writer s) hs
          else s in
        admit_chunked e (bulk_job e rc ctx p enc corr requestID) ctx s.

(** [plaintext] is the marshalled envelope of the result. *)
Definition SendResult (e : SendEnv) (requestID : string) (plaintext : bytes) (s : SendState) : SendState :=
  let rc0 := ss_conn s in
  let cls := default relayOutboundNormal (requestClasses rc0 !! requestID) in
  let method := default "" (requestMethods rc0 !! requestID) in
  let ctx := bulkRequestContexts (bulk (rc_state rc0)) !! requestID in
  let corr := default "" (requestBulkCorrelations rc0 !! requestID) in
  let rc := take_request requestID rc0 in
  let s := mkSend rc (ss_writer s) (ss_handles s) in
  if rc_closed rc then s
  else
    match compress (outboundGzip rc) plaintext with
    | None => s
    | Some (p, enc) =>
        if negb (rc_writer rc) then s                (* [writeLogicalFrame] of the legacy path *)
        else if outboundChunks rc && (cls =? relayOutboundBulk) && (zlen p >? relayChunkTargetBytes)
        then send_chunked e requestID method corr ctx p enc s
        else deliver (e_delivered e) (mkJob (e_jobID e) (rc_id rc) (rc_deviceID rc) p enc cls false None) s
    end.

(** [sendJSON] of a marshalled payload; [classHint] is nil or a class. *)
Definition sendJSON (decode_header : string -> option (string * string)) (text : bytes -> string)
    (e : SendEnv) (plaintext : bytes) (classHint : option Z) (s : SendState) : SendState :=
  let rc := ss_conn s in
  if rc_closed rc then s
  else
    let cls := classifyRelayPayload decode_header (text plaintext) in
    let cls := match classHint with
               | Some h => if h <? relayOutboundClassCount then h else cls
               | None => cls
               end in
    match compress (outboundGzip rc) plaintext with
    | None => s
    | Some (p, enc) =>
        if negb (rc_writer rc) then s
        else deliver (e_delivered e) (mkJob (e_jobID e) (rc_id rc) (rc_deviceID rc) p enc cls false None) s
    end.

(** ** The cut *)

Lemma chunk_bytes_bounds n :
  0 < n <= relayLogicalMaximumBytes ->
  relayChunkTargetBytes <= chunk_bytes n <= 51200 /\ n <= relayChunkMaximumCount * chunk_bytes n.
Proof.
  intros Hn. unfold chunk_bytes, relayChunkMaximumCount, relayLogicalMaximumBytes, relayChunkTargetBytes,
    relayChunkMinimumBytes in *. change (Z.shiftl 50 20) with 52428800 in Hn.
  change (Z.shiftl 32 10) with 32768. change (Z.shiftl 16 10) with 16384.
  set (q := (n + 1024 - 1) / 1024).
  assert (1024 * q <= n + 1024 - 1 < 1024 * q + 1024) as Hq.
  { subst q. pose proof (Z.div_mod (n + 1024 - 1) 1024). pose proof (Z.mod_pos_bound (n + 1024 - 1) 1024). lia. }
  destruct (Z.gtb_spec q 32768); [destruct (Z.ltb_spec q 16384)|destruct (Z.ltb_spec 32768 16384)]; lia.
Qed.

Lemma chunk_count_spec n :
  0 < n <= relayLogicalMaximumBytes ->
  1 <= chunk_count n <= relayChunkMaximumCount /\
  (chunk_count n - 1) * chunk_bytes n < n <= chunk_count n * chunk_bytes n.
Proof.
  intros Hn. destruct (chunk_bytes_bounds n Hn) as [Hb Hmax]. unfold chunk_count.
  unfold relayChunkTargetBytes, relayChunkMaximumCount in *. change (Z.shiftl 32 10) with 32768 in Hb.
  set (cb := chunk_bytes n) in *. set (q := (n + cb - 1) / cb).
  assert (cb * q <= n + cb - 1 < cb * q + cb) as Hq.
  { subst q. pose proof (Z.div_mod (n + cb - 1) cb). pose proof (Z.mod_pos_bound (n + cb - 1) cb). lia. }
  assert (1 <= q <= 1024) as Hq2 by nia. unfold wrap_u32. rewrite Z.mod_small by lia. nia.
Qed.

Lemma bulk_job_well_cut e rc ctx p enc corr requestID :
  e_groupID e <> "" -> 0 < zlen p <= relayLogicalMaximumBytes ->
  well_cut (bulk_job e rc ctx p enc corr requestID).
Proof.
  intros Hg Hn. destruct (chunk_bytes_bounds _ Hn) as [Hb _]. destruct (chunk_count_spec _ Hn) as [Hc Hcut].
  unfold well_cut, bulk_job. cbn [waits cursor nextIndex groupID handle chunkBytes count payload].
  unfold relayChunkTargetBytes, relayChunkMaximumCount, u32_max in *.
  change (Z.shiftl 32 10) with 32768 in Hb. split_and!; try done; lia.
Qed.

(** ** What a send leaves in the writer *)

(** The effect of one send on the writer, in the terms of [OutboundWriter]. *)
Definition writer_effect (e : SendEnv) (w w' : relayOutboundWriter) : Prop :=
  w' = w \/
  (exists j, cursor j = None /\ 0 <= class j < 256 /\ enqueue j w = (None, w')) \/
  (exists j, well_cut j /\ job_group j = e_groupID e /\ count_of j <= relayChunkMaximumCount /\
     zlen (payload j) <= relayLogicalMaximumBytes /\ admitBulk j w = (None, w')).

Lemma close_conn_writer s : ss_writer (close_conn s) = ss_writer s.
Proof. unfold close_conn. by destruct (Close (ss_conn s) (ss_handles s)). Qed.

Lemma deliver_effect e ok j s :
  cursor j = None -> 0 <= class j < 256 -> writer_effect e (ss_writer s) (ss_writer (deliver ok j s)).
Proof.
  intros Hj Hc. unfold deliver, enqueue_wait. destruct (enqueue j (ss_writer s)) as [[err|] w] eqn:E.
  - apply enqueue_refused in E as ->. rewrite close_conn_writer. by left.
  - right. left. exists j. split; [done|]. split; [done|]. destruct ok; [done|]. by rewrite close_conn_writer.
Qed.

Lemma forget_context_writer ctx h s : ss_writer (forget_context ctx h s) = ss_writer s.
Proof. by destruct ctx. Qed.

Lemma admit_chunked_effect e rc ctx0 p enc corr id ctx s :
  e_groupID e <> "" -> 0 < zlen p <= relayLogicalMaximumBytes ->
  writer_effect e (ss_writer s) (ss_writer (admit_chunked e (bulk_job e rc ctx0 p enc corr id) ctx s)).
Proof.
  intros Hg Hn. unfold admit_chunked.
  destruct (admitBulk (bulk_job e rc ctx0 p enc corr id) (ss_writer s)) as [[err|] w] eqn:E.
  - apply admitBulk_refused in E as ->.
    set (s1 := forget_context ctx (e_groupID e) (cancel_handle (e_groupID e)
      (mkSend (ss_conn s) (ss_writer s) (ss_handles s)))).
    assert (ss_writer s1 = ss_writer s) as Hw by (subst s1; by rewrite forget_context_writer).
    destruct err; try (rewrite close_conn_writer, Hw; by left).
    rewrite <- Hw. by apply deliver_effect.
  - right. right. exists (bulk_job e rc ctx0 p enc corr id). split; [by apply bulk_job_well_cut|].
    split; [done|]. split; [|split; [by simpl; lia|done]]. simpl. by apply chunk_count_spec.
Qed.

Lemma send_chunked_effect e id method corr ctx p enc s :
  e_groupID e <> "" -> 0 < zlen p ->
  writer_effect e (ss_writer s) (ss_writer (send_chunked e id method corr ctx p enc s)).
Proof.
  intros Hg Hp. unfold send_chunked. destruct (zlen p >? relayLogicalMaximumBytes) eqn:El;
    [rewrite close_conn_writer; by left|]. zprop.
  destruct (match ctx with Some _ => _ | None => _ end) as [[ok b] hs].
  destruct ok; cbn [negb]; [|by left].
  destruct (if bool_decide (corr <> "") then _ else _) as [adm r].
  destruct adm; cbn [negb]; [|rewrite close_conn_writer, forget_context_writer; by left].
  case_bool_decide.
  - destruct (installRequestBulkHandle _ _ _ _) as [b' hs'].
    by apply (admit_chunked_effect e _ _ _ _ _ _ ctx (mkSend _ (ss_writer s) hs')).
  - by apply (admit_chunked_effect e _ _ _ _ _ _ ctx (mkSend _ (ss_writer s) _)).
Qed.

(** What an answer becomes: whatever the connection and the writer hold, an
    answer leaves the writer as it was, or puts in one job of the registered
    class, or admits one group cut as the writer requires: at most 1024 chunks
    of the same size, but for the last, that cover the payload. *)
Theorem SendResult_effect e id plaintext s :
  e_groupID e <> "" ->
  (forall r c, requestClasses (ss_conn s) !! r = Some c -> 0 <= c < 256) ->
  writer_effect e (ss_writer s) (ss_writer (SendResult e id plaintext s)).
Proof.
  intros Hg Hcl. unfold SendResult. cbv zeta. case_if; [by left|].
  destruct (compress _ plaintext) as [[p enc]|]; [|by left].
  case_if; [by left|]. case_if.
  - zprop. apply (send_chunked_effect e _ _ _ _ _ _ (mkSend _ (ss_writer s) _)); [done|].
    unfold relayChunkTargetBytes in *. change (Z.shiftl 32 10) with 32768 in *. lia.
  - apply (deliver_effect e _ _ (mkSend _ (ss_writer s) _)); [done|]. simpl.
    destruct (requestClasses (ss_conn s) !! id) as [c|] eqn:E; simpl; [by eapply Hcl|done].
Qed.

(** What is registered when the group is handed to the writer. *)
Definition registered (e : SendEnv) (id method : string) (r : CorrelatedRegistry) (s : SendState) : SendState :=
  let hs := newOutboundBulkHandle (e_groupID e) (ss_handles s) in
  let rc := set_correlations r (set_bulk (bulk (rc_state (ss_conn s))) (ss_conn s)) in
  if bool_decide (method = "read_file_v2") then
    let '(b, hs) := installRequestBulkHandle id (e_groupID e) (bulk (rc_state rc)) hs in
    mkSend (set_bulk b rc) (ss_writer s) hs
  else mkSend rc (ss_writer s) hs.

Lemma send_chunked_registered e id method corr p enc s reason r :
  corr <> "" -> zlen p <= relayLogicalMaximumBytes ->
  PutIfAbsent corr (correlations (rc_state (ss_conn s))) = (true, reason, r) ->
  send_chunked e id method corr None p enc s =
  admit_chunked e (bulk_job e (ss_conn s) None p enc corr id) None (registered e id method r s).
Proof.
  intros Hc Hn Hput. unfold send_chunked, registered.
  replace (zlen p >? relayLogicalMaximumBytes) with false by (symmetry; zprop; lia).
  cbn [negb ss_conn]. rewrite bool_decide_eq_true_2 by done.
  change (correlations (rc_state (set_bulk _ (ss_conn s)))) with (correlations (rc_state (ss_conn s))).
  rewrite Hput. by destruct (bool_decide (method = "read_file_v2")).
Qed.

Lemma deliver_accepted e job s :
  fst (enqueue_wait (e_delivered e) job s) = true ->
  ss_conn (deliver (e_delivered e) job s) = ss_conn s /\
  ss_handles (deliver (e_delivered e) job s) = ss_handles s.
Proof.
  unfold deliver, enqueue_wait. destruct (enqueue job (ss_writer s)) as [[err|] w]; simpl; [done|]. by intros ->.
Qed.

Lemma registered_effect e id method r s :
  let s' := registered e id method r s in
  ss_writer s' = ss_writer s /\ rc_id (ss_conn s') = rc_id (ss_conn s) /\
  rc_deviceID (ss_conn s') = rc_deviceID (ss_conn s) /\ rc_closed (ss_conn s') = rc_closed (ss_conn s) /\
  correlations (rc_state (ss_conn s')) = r /\
  (method = "read_file_v2" ->
     lookupRequestBulkHandle id (bulk (rc_state (ss_conn s'))) = Some (e_groupID e)) /\
  (Cancelled (e_groupID e) (snd (Cancel (e_groupID e) (ss_handles s'))) = true).
Proof.
  assert (forall hs, state_of hs (e_groupID e) = bulkActive \/ state_of hs (e_groupID e) = bulkCancelled ->
    Cancelled (e_groupID e) (snd (Cancel (e_groupID e) hs)) = true) as Hcan.
  { intros hs [E|E]; unfold Cancelled; by rewrite Cancel_state, E, bool_decide_eq_true_2. }
  assert (state_of (newOutboundBulkHandle (e_groupID e) (ss_handles s)) (e_groupID e) = bulkActive) as Hnew
    by (unfold state_of, newOutboundBulkHandle; by rewrite lookup_insert_eq).
  cbv zeta. unfold registered. case_bool_decide as Hm; cbn; split_and!; try done.
  - intros _. unfold lookupRequestBulkHandle. cbn. by rewrite lookup_insert_eq.
  - apply Hcan. destruct (requestBulkHandles _ !! id) as [old|]; [|by left].
    rewrite Cancel_state, Hnew. case_if; auto.
  - apply Hcan. by left.
Qed.

(** A refused group keeps its registrations: when the bulk queue is full and the
    client is told so, the connection stays open with the correlation key still
    active and, for a file, the cancelled handle still registered; the job that
    would retire them was never queued. *)
Theorem overload_leaks e id method corr p enc s r w :
  corr <> "" -> zlen p <= relayLogicalMaximumBytes ->
  PutIfAbsent corr (correlations (rc_state (ss_conn s))) = (true, PutAdmitted, r) ->
  admitBulk (bulk_job e (ss_conn s) None p enc corr id) (ss_writer s) = (Some ErrBulkOverflow, w) ->
  fst (enqueue_wait (e_delivered e)
         (mkJob (e_jobID e) (rc_id (ss_conn s)) (rc_deviceID (ss_conn s)) (e_overload e) ""
            relayOutboundInteractive false None) s) = true ->
  let s' := send_chunked e id method corr None p enc s in
  rc_closed (ss_conn s') = rc_closed (ss_conn s) /\
  corr ∈ active (correlations (rc_state (ss_conn s'))) /\
  (method = "read_file_v2" ->
     lookupRequestBulkHandle id (bulk (rc_state (ss_conn s'))) = Some (e_groupID e) /\
     Cancelled (e_groupID e) (ss_handles s') = true).
Proof.
  intros Hc Hn Hput Hadm Hok s'. subst s'. rewrite (send_chunked_registered _ _ _ _ _ _ _ _ _ Hc Hn Hput).
  destruct (registered_effect e id method r s) as (Hw & Hid & Hdev & Hcl & Hcor & Hlook & Hcan).
  set (s1 := registered e id method r s) in *.
  unfold admit_chunked. rewrite Hw, Hadm. cbn [forget_context cancel_handle ss_conn ss_writer ss_handles]. rewrite Hid, Hdev.
  match goal with |- context [deliver _ ?j ?x] => destruct (deliver_accepted e j x) as [-> ->] end.
  { apply admitBulk_refused in Hadm as ->. unfold enqueue_wait in *. cbn [ss_writer].
    unfold cancel_handle. cbn [ss_writer]. by destruct (enqueue _ (ss_writer s)) as [[err|] w']. }
  cbn. split; [done|]. split; [|auto].
  unfold PutIfAbsent in Hput. destruct (bool_decide _); [done|]. destruct (bool_decide _); [done|].
  destruct (_ >=? _); [done|]. injection Hput as Hr. rewrite Hcor, <- Hr. apply elem_of_union_l, elem_of_singleton_2. done.
Qed.
End Sending.

(** ** Witnesses *)

Definition sample_payload (n : Z) : bytes := repeat Byte.x61 (Z.to_nat n).

Definition sample_env : SendEnv := mkSendEnv 7 "grp_1" 0 true (sample_payload 3).

(** A connection with chunks and progress, a file request registered. *)
Definition sample_conn : RelayDeviceConn :=
  registerRequestClass "r1" "read_file_v2" "c1"
    (snd (negotiateRelayChunkProgress ["relay_chunk_progress_v1"]
       (snd (negotiateRelayChunks ["relay_chunks_v1"] (setOutboundWriter true (NewRelayDeviceConn 1 "d1" 1)))))).

(** A writer whose bulk queue is full. *)
Definition full_writer : relayOutboundWriter :=
  let job := bulk_job sample_env sample_conn None (sample_payload 1) "" "" "r0" in
  @Nat.iter (Z.to_nat 2048) relayOutboundWriter (fun w => snd (admitBulk job w)) newRelayOutboundWriter.

Definition sample_state : SendState := mkSend sample_conn full_writer ∅.

Lemma SendResult_effect_witness :
  exists w : relayOutboundWriter, ss_writer (SendResult (fun _ => None) sample_env "r1" (sample_payload 40000)
                   (mkSend sample_conn newRelayOutboundWriter ∅)) = w /\
    writer_effect sample_env newRelayOutboundWriter w /\ map (fun j => option_map count (cursor j)) (queue 4 w) = [Some 2].
Proof.
  eexists. split; [reflexivity|]. split.
  - apply (SendResult_effect (fun _ => None) sample_env "r1" (sample_payload 40000)
             (mkSend sample_conn newRelayOutboundWriter ∅)); [done|].
    intros r c. change (requestClasses _) with ({["r1" := 4]} : gmap string Z).
    rewrite lookup_singleton. case_decide; intros [= <-]. done.
  - vm_compute. reflexivity.
Defined.

Lemma overload_leaks_witness :
  let s' := send_chunked sample_env "r1" "read_file_v2" "c1" None (sample_payload 40000) "" sample_state in
  rc_closed (ss_conn s') = false /\ "c1" ∈ active (correlations (rc_state (ss_conn s'))).
Proof.
  destruct (overload_leaks sample_env "r1" "read_file_v2" "c1" (sample_payload 40000) "" sample_state
    (snd (PutIfAbsent "c1" (correlations (rc_state sample_conn)))) full_writer) as (H1 & H2 & _).
  - done.
  - vm_compute. done.
  - vm_compute. reflexivity.
  - vm_compute. reflexivity.
  - vm_compute. reflexivity.
  - split; [|exact H2]. refine (eq_trans H1 _). vm_compute. reflexivity.
Defined.
