(* ===== verification/ReducerParts.v ===== *)
(** * The payloads and parts of the projection reducer (go-bridge/projection_reducer.go)

    Reading the dynamic payload of an event, and the operations of the reducer on
    the parts of one message: the user-input cards, the workflow cards, the tool
    rows, the trailing text and its presentation. An index of Go that is -1 when
    nothing is found is an option here. *)

From S2P Require Import Prelude.
From S2P Require Import GoText.
From S2P Require Import Wire.
From S2P Require Import Projection.
From S2P Require Import ProjectionFields.

(** ** Payloads *)

(** A payload: the fields of a [map[string]interface{}]; a nil map has none. *)
Abbreviation data_map := (list (string * value)).

Definition asDataMap (v : value) : data_map := match v with VMap m => m | _ => [] end.

(** [m[key]], nil when absent, and [_, ok := m[key]]. *)
Definition field (m : data_map) (key : string) : value := default VNil (value_field key m).
Definition has_field (m : data_map) (key : string) : bool :=
  match value_field key m with Some _ => true | None => false end.
Definition is_nil (v : value) : bool := match v with VNil => true | _ => false end.

Definition dataString (m : data_map) (key : string) : string :=
  match field m key with VString s => s | _ => "" end.

(** The strings of an array that are not empty. *)
Fixpoint nonempty_strings (l : list value) : list string :=
  match l with
  | [] => []
  | VString s :: l => if bool_decide (s = "") then nonempty_strings l else s :: nonempty_strings l
  | _ :: l => nonempty_strings l
  end.

Definition dataStringSlice (m : data_map) (key : string) : list string :=
  match field m key with VArray l => nonempty_strings l | _ => [] end.

Definition dataInt64 (m : data_map) (key : string) : Z :=
  match field m key with VNumber n _ => n | _ => 0 end.

Definition dataBool (m : data_map) (key : string) : bool :=
  match field m key with VBool b => b | _ => false end.

(** [m[key].(string)] with its [ok]. *)
Definition string_field (m : data_map) (key : string) : option string :=
  match field m key with VString s => Some s | _ => None end.

(** The elements of an array, in either of its Go types. *)
Definition wireSlice (raw : value) : list value := match raw with VArray l => l | _ => [] end.

(** ** Workflow phases *)

Definition member_of_wire (v : value) : option WorkflowMemberProjection :=
  match v with
  | VMap mm => Some (mkWorkflowMemberProjection (dataInt64 mm "seq") (dataString mm "label")
                       (dataString mm "childSessionId") (dataString mm "status"))
  | _ => None
  end.

Definition phase_of_wire (v : value) : option WorkflowPhaseProjection :=
  match v with
  | VMap m => Some (mkWorkflowPhaseProjection (string_field m "phase")
                      (omap member_of_wire (wireSlice (field m "members"))))
  | _ => None
  end.

Definition workflowPhasesFromWire (raw : value) : list WorkflowPhaseProjection :=
  omap phase_of_wire (wireSlice raw).

(** ** Question options *)

Definition option_of_wire (i : nat) (v : value) : option value :=
  match v with
  | VMap m =>
      let label := dataString m "label" in
      let id := dataString m "id" in
      let id := if bool_decide (id = "") then label else id in
      let id := if bool_decide (id = "") then ("opt-" +:+ format_int (Z.of_nat i))%string else id in
      Some (VMap [("id", VString id); ("label", VString label);
                  ("description", VString (dataString m "description"))])
  | _ => None
  end.

Definition questionOptionsToUserInputOptions (raw : value) : list value :=
  omap id (imap option_of_wire (wireSlice raw)).

(** ** Views *)

Definition sessionModeViewEqual (a b : SessionModeView) : bool :=
  bool_decide (sm_Status a = sm_Status b) && eqb (sm_CanSet a) (sm_CanSet b)
  && bool_decide (sm_Reason a = sm_Reason b) && bool_decide (sm_Mode a = sm_Mode b).

Definition collaborationModeViewEqual (a b : CollaborationModeView) : bool :=
  bool_decide (cm_Mode a = cm_Mode b) && bool_decide (cm_Model a = cm_Model b)
  && bool_decide (cm_ReasoningEffort a = cm_ReasoningEffort b).

Definition codexGoalViewEqual (a b : CodexGoalView) : bool :=
  match cg_Goal a, cg_Goal b with
  | Some l, Some r =>
      bool_decide (cgr_ThreadID l = cgr_ThreadID r) && bool_decide (cgr_Objective l = cgr_Objective r)
      && bool_decide (cgr_Status l = cgr_Status r) && (cgr_TokensUsed l =? cgr_TokensUsed r)
      && (cgr_TimeUsedSeconds l =? cgr_TimeUsedSeconds r) && (cgr_CreatedAt l =? cgr_CreatedAt r)
      && (cgr_UpdatedAt l =? cgr_UpdatedAt r) && bool_decide (cgr_TokenBudget l = cgr_TokenBudget r)
  | None, None => true
  | _, _ => false
  end.

#[export] Instance GoalBlockedReasonView_eq_dec : EqDecision GoalBlockedReasonView.
Proof. solve_decision. Defined.

Definition goalViewEqualGo (a b : GoalView) : bool :=
  bool_decide (gv_ID a = gv_ID b) && (gv_Revision a =? gv_Revision b)
  && bool_decide (gv_Objective a = gv_Objective b) && bool_decide (gv_Phase a = gv_Phase b)
  && (gv_MaxGoalRounds a =? gv_MaxGoalRounds b)
  && eqb (gv_VerifyingCompletion a) (gv_VerifyingCompletion b)
  && bool_decide (gv_BlockedReason a = gv_BlockedReason b).

Definition one_of_words (words : list string) (s : string) : bool := bool_decide (s ∈ words).

Definition validCodexGoalStatus (status : string) : bool :=
  one_of_words ["active"; "paused"; "blocked"; "usageLimited"; "budgetLimited"; "complete"] status.

Definition exactInt64Value (v : value) : option Z :=
  match v with VNumber n true => Some n | _ => None end.
Definition exactInt64Field (m : data_map) (key : string) : option Z :=
  match value_field key m with Some v => exactInt64Value v | None => None end.

Definition decodeCodexGoalRecordView (m : data_map) : option CodexGoalRecordView :=
  match string_field m "threadId", string_field m "objective", string_field m "status" with
  | Some threadID, Some objective, Some status =>
      if blank threadID || blank objective || negb (validCodexGoalStatus status) then None
      else
        match exactInt64Field m "tokensUsed", exactInt64Field m "timeUsedSeconds",
              exactInt64Field m "createdAt", exactInt64Field m "updatedAt",
              value_field "tokenBudget" m with
        | Some tokensUsed, Some timeUsed, Some createdAt, Some updatedAt, Some budgetRaw =>
            let goal b := Some (mkCodexGoalRecordView threadID objective status b tokensUsed timeUsed
                                  createdAt updatedAt) in
            if is_nil budgetRaw then goal None
            else match exactInt64Value budgetRaw with Some b => goal (Some b) | None => None end
        | _, _, _, _, _ => None
        end
  | _, _, _ => None
  end.

(** ** Finding and replacing a part *)

(** The index of the first element that passes. *)
Definition find_part (p : ProjectionPart -> bool) (l : list ProjectionPart) : option nat :=
  fst <$> list_find (fun x => p x = true) l.

(** Replace the first part that passes, or append. *)
Definition upsert_part (p : ProjectionPart -> bool) (f : ProjectionPart -> ProjectionPart)
    (part : ProjectionPart) (l : list ProjectionPart) : list ProjectionPart :=
  match find_part p l with Some i => alter f i l | None => l ++ [part] end.

Definition is_user_input (interactionID : string) (p : ProjectionPart) : bool :=
  bool_decide (pp_Type p = "user_input") && bool_decide (pp_UserInputInteractionID p = interactionID).

Definition findUserInputPart (msg : option MessageProjection) (interactionID : string) : option nat :=
  match msg with
  | None => None
  | Some m =>
      if bool_decide (interactionID = "") then None
      else find_part (is_user_input interactionID) (mp_Parts m)
  end.

Definition upsertUserInputPart (m : MessageProjection) (part : ProjectionPart) : MessageProjection :=
  match findUserInputPart (Some m) (pp_UserInputInteractionID part) with
  | Some i => set_mp_Parts (<[i := part]> (mp_Parts m)) m
  | None => set_mp_Parts (mp_Parts m ++ [part]) m
  end.

Definition is_workflow (runID : string) (p : ProjectionPart) : bool :=
  bool_decide (pp_Type p = "workflow") && bool_decide (pp_WorkflowID p = runID).

Definition findWorkflowPart (msg : option MessageProjection) (runID : string) : option nat :=
  match msg with
  | None => None
  | Some m =>
      if bool_decide (runID = "") then None else find_part (is_workflow runID) (mp_Parts m)
  end.

Definition upsertWorkflowPart (m : MessageProjection) (part : ProjectionPart) (insertAt : Z)
  : MessageProjection :=
  match findWorkflowPart (Some m) (pp_WorkflowID part) with
  | Some i => set_mp_Parts (<[i := part]> (mp_Parts m)) m
  | None =>
      if insertAt >=? 0 then
        let i := if insertAt >? zlen (mp_Parts m) then length (mp_Parts m) else Z.to_nat insertAt in
        set_mp_Parts (take i (mp_Parts m) ++ part :: drop i (mp_Parts m)) m
      else set_mp_Parts (mp_Parts m ++ [part]) m
  end.

Definition is_tool (itemID : string) (p : ProjectionPart) : bool :=
  bool_decide (pp_Type p = "tool") && bool_decide (pp_ItemID p = itemID).

Definition hasPermissionTool (msg : option MessageProjection) (itemID : string) : bool :=
  match msg with
  | None => false
  | Some m => negb (bool_decide (itemID = "")) && existsb (is_tool itemID) (mp_Parts m)
  end.

(** ** User-input cards *)

Definition userInputStatusIsResolved (status : string) : bool :=
  one_of_words ["answered"; "rejected"; "auto_resolved"; "unavailable"; "failed"] status.

Definition userInputPartRank (p : ProjectionPart) : Z :=
  if userInputStatusIsResolved (pp_UserInputStatus p) then 4
  else if bool_decide (pp_UserInputStatus p = "pending")
          && bool_decide (pp_UserInputDiagnosticCode p = "turn_terminated") then 3
  else if bool_decide (pp_UserInputStatus p = "submitted") then 2
  else if bool_decide (pp_UserInputStatus p = "pending") then 1
  else 0.

(** One part of the loop of [hasPendingUserInput]. *)
Definition part_waits (p : ProjectionPart) : bool :=
  (bool_decide (pp_Type p = "user_input") && bool_decide (pp_UserInputStatus p = "pending"))
  || (bool_decide (pp_Type p = "tool") && pp_RequiresPermissionConfirmation p
      && (bool_decide (pp_ToolStatus p = "") || bool_decide (pp_ToolStatus p = "pending"))).

(** The loop of [markTurnUserInputsTerminated] on one part: whether it changes it. *)
Definition terminates (p : ProjectionPart) : bool :=
  bool_decide (pp_Type p = "user_input")
  && (bool_decide (pp_UserInputStatus p = "pending") || bool_decide (pp_UserInputStatus p = "submitted"))
  && negb (bool_decide (pp_UserInputDiagnosticCode p = "turn_terminated")).

Definition terminate_part (p : ProjectionPart) : ProjectionPart :=
  if terminates p then
    set_pp_UserInputCanReject false (set_pp_UserInputCanRespond false
      (set_pp_UserInputDiagnosticCode "turn_terminated" (set_pp_UserInputStatus "pending" p)))
  else p.

(** ** Workflow cards *)

Definition interrupt_member (m : WorkflowMemberProjection) : WorkflowMemberProjection :=
  if bool_decide (wm_Status m = "running")
  then mkWorkflowMemberProjection (wm_Seq m) (wm_Label m) (wm_ChildSessionID m) "interrupted" else m.

Definition interrupt_phase (p : WorkflowPhaseProjection) : WorkflowPhaseProjection :=
  mkWorkflowPhaseProjection (wp_Phase p) (map interrupt_member (wp_Members p)).

(** The loop of [interruptRunningWorkflowParts] on one part. *)
Definition interrupts (p : ProjectionPart) : bool :=
  bool_decide (pp_Type p = "workflow") && bool_decide (pp_WorkflowStatus p = "running")
  && negb (bool_decide (pp_WorkflowID p = "")).

Definition interrupt_part (p : ProjectionPart) : ProjectionPart :=
  if interrupts p then
    set_pp_WorkflowPhases (map interrupt_phase (pp_WorkflowPhases p)) (set_pp_WorkflowStatus "interrupted" p)
  else p.

(** ** Tool rows *)

Definition mergeToolPart (dst src : ProjectionPart) : ProjectionPart :=
  let str g set d := if bool_decide (g src = "") then d else set (g src) d in
  let val g set d := if is_nil (g src) then d else set (g src) d in
  let strs g set d := if bool_decide (g src = []) then d else set (g src) d in
  let d := str pp_ToolName set_pp_ToolName dst in
  let d := val pp_ToolInput set_pp_ToolInput d in
  let d := val pp_ToolResult set_pp_ToolResult d in
  let d := val pp_Matches set_pp_Matches d in
  let d := str pp_Title set_pp_Title d in
  let d := val pp_FileChanges set_pp_FileChanges d in
  let d := val pp_FileDisplay set_pp_FileDisplay d in
  let d := val pp_EditRegions set_pp_EditRegions d in
  let d := val pp_DetailUnavailable set_pp_DetailUnavailable d in
  let d := val pp_ActivityActions set_pp_ActivityActions d in
  let d := str pp_ToolStatus set_pp_ToolStatus d in
  let d := str pp_PermissionKind set_pp_PermissionKind d in
  let d := strs pp_PermissionPatterns set_pp_PermissionPatterns d in
  let d := strs pp_PermissionActions set_pp_PermissionActions d in
  let d := val pp_PermissionPlan set_pp_PermissionPlan d in
  if pp_RequiresPermissionConfirmation src then set_pp_RequiresPermissionConfirmation true d
  else if negb (bool_decide (pp_ToolStatus src = "")) && negb (bool_decide (pp_ToolStatus src = "pending"))
  then set_pp_RequiresPermissionConfirmation false d
  else d.

(** The loop of [settleResolvedPermissionCards] on one part. *)
Definition settles (cards : gset string) (p : ProjectionPart) : bool :=
  bool_decide (pp_Type p = "tool") && bool_decide (pp_ItemID p ∈ cards)
  && negb (pp_RequiresPermissionConfirmation p)
  && one_of_words ["running"; "pending"; ""] (pp_ToolStatus p).

Definition settle_part (cards : gset string) (p : ProjectionPart) : ProjectionPart :=
  if settles cards p then set_pp_ToolStatus "completed" p else p.

(** ** Text *)

Definition is_text (p : ProjectionPart) : bool := bool_decide (pp_Type p = "text").

(** [trailingTextPartForItem] and [ensureTrailingTextPart] answer a pointer to the
    last part: here, whether there is one to use. *)
Definition trailingTextPartForItem (parts : list ProjectionPart) (itemID : string) : option ProjectionPart :=
  match last parts with
  | None => None
  | Some tr =>
      if negb (is_text tr) then None
      else if negb (bool_decide (itemID = "")) && negb (bool_decide (pp_ItemID tr = ""))
              && negb (bool_decide (pp_ItemID tr = itemID)) then None
      else Some tr
  end.

Definition ensureTrailingTextPart (parts : list ProjectionPart) : list ProjectionPart :=
  match last parts with
  | Some tr => if is_text tr then parts else parts ++ [set_pp_Type "text" part0]
  | None => parts ++ [set_pp_Type "text" part0]
  end.

(** An assignment through the pointer to the last part. *)
Definition on_last (f : ProjectionPart -> ProjectionPart) (parts : list ProjectionPart) : list ProjectionPart :=
  alter f (pred (length parts)) parts.

(** ** Presentation *)

Definition visible_text (p : ProjectionPart) : bool := is_text p && negb (blank (pp_Text p)).

(** The index of the last visible text. *)
Fixpoint last_text (i : nat) (parts : list ProjectionPart) : option nat :=
  match parts with
  | [] => None
  | p :: parts =>
      match last_text (S i) parts with
      | Some j => Some j
      | None => if visible_text p then Some i else None
      end
  end.

Definition classify_parts (completed : bool) (parts : list ProjectionPart) : list ProjectionPart :=
  if existsb (fun p => visible_text p && pp_presentationExplicit p) parts then
    map (fun p => if is_text p && bool_decide (pp_Presentation p = "")
                  then set_pp_Presentation "progress" p else p) parts
  else
    let parts' := map (fun p => if is_text p then set_pp_Presentation "progress" p else p) parts in
    match last_text 0 parts with
    | Some i => if completed then alter (set_pp_Presentation "final") i parts' else parts'
    | None => parts'
    end.

Definition classifyProjectionTextPresentation (message : option MessageProjection) (completed : bool)
  : option MessageProjection :=
  (fun m => set_mp_Parts (classify_parts completed (mp_Parts m)) m) <$> message.

Definition claudeUserTextIsCommandEcho (user : option MessageProjection) : bool :=
  match user with
  | None => false
  | Some m =>
      forallb (fun p =>
        negb (is_text p)
        || match drop_while (fun c => (c =? 32) || (c =? 9) || (c =? 10)) (bytes_of (pp_Text p)) with
           | c :: _ => c =? 47
           | [] => false
           end) (mp_Parts m)
      && negb (bool_decide (mp_Parts m = []))
  end.
