(* ===== verification/Reducer.v ===== *)
(** * The projection reducer (go-bridge/projection_reducer.go)

    The authoritative projection of a session, reduced from its events, with what
    changed since the last patch. [projectionSession] is the state per session; a
    pointer to a turn is its index in [sp_Turns], which only grows while a pointer
    is live. The staged turns of [upsertTurns] are kept by value: the code shares
    their messages with the live turn, but reads a staged turn only when the live
    one is gone, which never happens ([ReducerInvariant.FlushPatch_live]). The clock is an
    argument of each call, one call is one step under the mutex, and the type
    assertions to the Go slices [[]core.EventAttachment] and [[]ProjectionPart] are
    parameters, since a payload does not spell those values out. *)

From S2P Require Import Prelude.
From S2P Require Import GoText.
From S2P Require Import Wire.
From S2P Require Import Projection.
From S2P Require Import ProjectionFields.
From S2P Require Import ReducerParts.

(** ** State *)

Record reasoningPending : Type := mkReasoningPending {
  rp_turnID : string;
  rp_itemID : string;
  rp_text : string
}.

Record toolPending : Type := mkToolPending { tpd_turnID : string; tpd_part : ProjectionPart }.
Record userInputPending : Type := mkUserInputPending { ui_turnID : string; ui_part : ProjectionPart }.
Record workflowPending : Type := mkWorkflowPending { wf_turnID : string; wf_part : ProjectionPart }.

Record projectionSession : Type := mkSession {
  projection : SessionProjection;
  lastAppliedRev : Z;
  lastFlushedRev : Z;
  largePatchObserved : bool;
  publishedTurnShells : gset string;
  textAppends : gmap string (list string);
  thinking : gmap string reasoningPending;
  tools : gmap string toolPending;
  upsertTurns : gmap string TurnProjection;
  removedTurns : list string;
  userInputs : gmap string userInputPending;
  workflows : gmap string workflowPending;
  permissionCards : gset string;
  execution : option ExecutionView;
  planMode : option PlanModeView;
  sessionMode : option SessionModeView;
  collaborationMode : option CollaborationModeView;
  codexGoal : option CodexGoalView;
  goal : option GoalView
}.

Definition session_eta (ps : projectionSession) : projectionSession :=
  mkSession
    (projection ps) (lastAppliedRev ps) (lastFlushedRev ps) (largePatchObserved ps) (publishedTurnShells ps)
    (textAppends ps) (thinking ps) (tools ps) (upsertTurns ps) (removedTurns ps) (userInputs ps)
    (workflows ps) (permissionCards ps) (execution ps) (planMode ps) (sessionMode ps) (collaborationMode ps)
    (codexGoal ps) (goal ps).

Definition set_projection (v : SessionProjection) (ps : projectionSession) : projectionSession :=
  ltac:(setter session_eta projection v ps).
Definition set_lastAppliedRev (v : Z) (ps : projectionSession) : projectionSession :=
  ltac:(setter session_eta lastAppliedRev v ps).
Definition set_lastFlushedRev (v : Z) (ps : projectionSession) : projectionSession :=
  ltac:(setter session_eta lastFlushedRev v ps).
Definition set_largePatchObserved (v : bool) (ps : projectionSession) : projectionSession :=
  ltac:(setter session_eta largePatchObserved v ps).
Definition set_publishedTurnShells (v : gset string) (ps : projectionSession) : projectionSession :=
  ltac:(setter session_eta publishedTurnShells v ps).
Definition set_textAppends (v : gmap string (list string)) (ps : projectionSession) : projectionSession :=
  ltac:(setter session_eta textAppends v ps).
Definition set_thinking (v : gmap string reasoningPending) (ps : projectionSession) : projectionSession :=
  ltac:(setter session_eta thinking v ps).
Definition set_tools (v : gmap string toolPending) (ps : projectionSession) : projectionSession :=
  ltac:(setter session_eta tools v ps).
Definition set_upsertTurns (v : gmap string TurnProjection) (ps : projectionSession) : projectionSession :=
  ltac:(setter session_eta upsertTurns v ps).
Definition set_removedTurns (v : list string) (ps : projectionSession) : projectionSession :=
  ltac:(setter session_eta removedTurns v ps).
Definition set_userInputs (v : gmap string userInputPending) (ps : projectionSession) : projectionSession :=
  ltac:(setter session_eta userInputs v ps).
Definition set_workflows (v : gmap string workflowPending) (ps : projectionSession) : projectionSession :=
  ltac:(setter session_eta workflows v ps).
Definition set_permissionCards (v : gset string) (ps : projectionSession) : projectionSession :=
  ltac:(setter session_eta permissionCards v ps).
Definition set_execution (v : option ExecutionView) (ps : projectionSession) : projectionSession :=
  ltac:(setter session_eta execution v ps).
Definition set_planMode (v : option PlanModeView) (ps : projectionSession) : projectionSession :=
  ltac:(setter session_eta planMode v ps).
Definition set_sessionMode (v : option SessionModeView) (ps : projectionSession) : projectionSession :=
  ltac:(setter session_eta sessionMode v ps).
Definition set_collaborationMode (v : option CollaborationModeView) (ps : projectionSession) : projectionSession :=
  ltac:(setter session_eta collaborationMode v ps).
Definition set_codexGoal (v : option CodexGoalView) (ps : projectionSession) : projectionSession :=
  ltac:(setter session_eta codexGoal v ps).
Definition set_goal (v : option GoalView) (ps : projectionSession) : projectionSession :=
  ltac:(setter session_eta goal v ps).

(** The session [Apply] creates. *)
Definition new_session (sessionID : string) : projectionSession :=
  mkSession (mkSessionProjection sessionID 0 "" 0 (mkExecutionView "idle" "") [] None None None None None)
    0 0 false ∅ ∅ ∅ ∅ ∅ [] ∅ ∅ ∅ None None None None None None.

(** ** Turns *)

Definition turns (ps : projectionSession) : list TurnProjection := sp_Turns (projection ps).
Definition set_turns (l : list TurnProjection) (ps : projectionSession) : projectionSession :=
  set_projection (set_sp_Turns l (projection ps)) ps.

Definition turn_index (turnID : string) (l : list TurnProjection) : option nat :=
  fst <$> list_find (fun t => tp_TurnID t = turnID) l.

(** The pointer, and the turn it points to. *)
Definition turnByID (turnID : string) (ps : projectionSession) : option nat := turn_index turnID (turns ps).
Definition the_turn (turnID : string) (ps : projectionSession) : option TurnProjection :=
  turnByID turnID ps ≫= fun i => turns ps !! i.

(** An assignment through the pointer. *)
Definition at_turn (i : nat) (f : TurnProjection -> TurnProjection) (ps : projectionSession)
  : projectionSession := set_turns (alter f i (turns ps)) ps.

(** [ps.upsertTurns[turnID] = *t] *)
Definition stage (turnID : string) (i : nat) (ps : projectionSession) : projectionSession :=
  match turns ps !! i with
  | Some t => set_upsertTurns (<[turnID := t]> (upsertTurns ps)) ps
  | None => ps
  end.

(** The fields of [turn] that [upsertTurnPersistOnly] merges. *)
Definition merge_turn (turn t : TurnProjection) : TurnProjection :=
  let t := if bool_decide (tp_Status turn = "") then t else set_tp_Status (tp_Status turn) t in
  let t := if tp_StartedAt turn =? 0 then t else set_tp_StartedAt (tp_StartedAt turn) t in
  let t := if tp_CompletedAt turn =? 0 then t else set_tp_CompletedAt (tp_CompletedAt turn) t in
  let t := if tp_DurationMs turn =? 0 then t else set_tp_DurationMs (tp_DurationMs turn) t in
  let t := match tp_User turn with None => t | Some m => set_tp_User (Some m) t end in
  let t := match tp_Assistant turn with None => t | Some m => set_tp_Assistant (Some m) t end in
  match tp_System turn with None => t | Some m => set_tp_System (Some m) t end.

(** Those [upsertTurn] merges besides. *)
Definition merge_turn_all (turn t : TurnProjection) : TurnProjection :=
  let t := merge_turn turn t in
  let t := if is_nil (tp_FileChanges turn) then t else set_tp_FileChanges (tp_FileChanges turn) t in
  match tp_Pending turn with None => t | Some b => set_tp_Pending (Some b) t end.

Definition upsertTurn (turn : TurnProjection) (ps : projectionSession) : projectionSession :=
  if bool_decide (tp_TurnID turn = "") then ps
  else
    match turnByID (tp_TurnID turn) ps with
    | Some i => stage (tp_TurnID turn) i (at_turn i (merge_turn_all turn) ps)
    | None =>
        let ps := set_turns (turns ps ++ [turn]) ps in
        set_upsertTurns (<[tp_TurnID turn := turn]> (upsertTurns ps)) ps
    end.

Definition upsertTurnPersistOnly (turn : TurnProjection) (ps : projectionSession) : projectionSession :=
  if bool_decide (tp_TurnID turn = "") then ps
  else
    match turnByID (tp_TurnID turn) ps with
    | Some i => at_turn i (merge_turn turn) ps
    | None => set_turns (turns ps ++ [turn]) ps
    end.

(** The row [removePendingPlaceholder] looks for. *)
Definition is_placeholder (itemID : string) (t : TurnProjection) : bool :=
  bool_decide (tp_TurnID t = itemID) && bool_decide (tp_Pending t = Some true).

Definition removePendingPlaceholder (itemID : string) (ps : projectionSession) : bool * projectionSession :=
  if bool_decide (itemID = "") then (false, ps)
  else
    match list_find (fun t => is_placeholder itemID t = true) (turns ps) with
    | None => (false, ps)
    | Some (i, _) =>
        let ps := set_turns (take i (turns ps) ++ drop (S i) (turns ps)) ps in
        let ps := set_publishedTurnShells (publishedTurnShells ps ∖ {[itemID]}) ps in
        let ps := set_upsertTurns (delete itemID (upsertTurns ps)) ps in
        (true, set_removedTurns (removedTurns ps ++ [itemID]) ps)
    end.

(** The loop that looks for the place of a command turn: the number of turns
    before it. *)
Fixpoint command_place (timestamp : Z) (idx : nat) (l : list TurnProjection) : nat :=
  match idx with
  | O => O
  | S idx' =>
      match l !! idx' with
      | None => idx
      | Some t =>
          let prev := tp_StartedAt t in
          if (prev =? 0) || (prev <=? timestamp) then idx else command_place timestamp idx' l
      end
  end.

Definition command_part (commandID name kind text inputLine : string) : ProjectionPart :=
  mkProjectionPart
    "command" "" "" false commandID "" VNil VNil "" VNil "" VNil VNil VNil VNil VNil false "" [] [] VNil
    "" "" "" "" "" "" "" 0 "" "" [] "" "" "" "" VNil false false 0 0 "" ""
    commandID name kind text inputLine "" "" "" "" "" "" "" "" "" [].

(** A completed turn that holds one system message. *)
Definition system_turn (turnID messageID : string) (timestamp : Z) (part : ProjectionPart) : TurnProjection :=
  set_tp_System (Some (set_mp_Parts [part] (message0 messageID "system")))
    (set_tp_CompletedAt timestamp (set_tp_StartedAt timestamp (turn0 turnID "completed"))).

Definition upsertSessionCommandTurn (commandID name kind text inputLine : string) (timestamp : Z)
    (ps : projectionSession) : projectionSession :=
  let turnID := "cmd:" +:+ commandID in
  let turn := system_turn turnID turnID timestamp (command_part commandID name kind text inputLine) in
  match turnByID turnID ps with
  | Some _ => upsertTurn turn ps
  | None =>
      let i := command_place timestamp (length (turns ps)) (turns ps) in
      let ps := set_turns (take i (turns ps) ++ turn :: drop i (turns ps)) ps in
      set_upsertTurns (<[turnID := turn]> (upsertTurns ps)) ps
  end.

(** ** Execution *)

Definition set_exec (e : ExecutionView) (ps : projectionSession) : projectionSession :=
  set_projection (set_sp_Execution e (projection ps)) ps.
Definition activeTurnID (ps : projectionSession) : string := ev_ActiveTurnID (sp_Execution (projection ps)).
(** [ps.projection.Execution = exec; ps.execution = &exec] *)
Definition publish_exec (e : ExecutionView) (ps : projectionSession) : projectionSession :=
  set_execution (Some e) (set_exec e ps).

Definition setActiveTurnPersistOnly (turnID : string) (ps : projectionSession) : projectionSession :=
  if bool_decide (turnID = "") then ps else set_exec (mkExecutionView "running" turnID) ps.

Definition terminal (status : string) : bool := one_of_words ["completed"; "aborted"; "error"] status.

(** [pending.part = *part] for a workflow of this turn. *)
Definition resync_workflow (turnID : string) (ws : gmap string workflowPending) (part : ProjectionPart)
  : gmap string workflowPending :=
  match ws !! pp_WorkflowID part with
  | Some w => if bool_decide (wf_turnID w = turnID)
              then <[pp_WorkflowID part := mkWorkflowPending turnID part]> ws else ws
  | None => ws
  end.

Definition assistant_parts (t : TurnProjection) : list ProjectionPart :=
  match tp_Assistant t with Some m => mp_Parts m | None => [] end.

(** The parts of the assistant message through its pointer. *)
Definition on_assistant_parts (f : list ProjectionPart -> list ProjectionPart) (t : TurnProjection)
  : TurnProjection :=
  match tp_Assistant t with
  | Some m => set_tp_Assistant (Some (set_mp_Parts (f (mp_Parts m)) m)) t
  | None => t
  end.

(** [interruptRunningWorkflowParts]: the turn, and the pending cards. *)
Definition interrupt_turn (t : TurnProjection) : TurnProjection := on_assistant_parts (map interrupt_part) t.
Definition interrupt_pending (t : TurnProjection) (ws : gmap string workflowPending)
  : gmap string workflowPending :=
  fold_left (resync_workflow (tp_TurnID t)) (map interrupt_part (filter (fun p => interrupts p = true) (assistant_parts t))) ws.

Definition interruptRunningWorkflowParts (i : nat) (ps : projectionSession) : projectionSession :=
  match turns ps !! i with
  | None => ps
  | Some t => set_workflows (interrupt_pending t (workflows ps)) (at_turn i interrupt_turn ps)
  end.

Definition classify_turn (completed : bool) (t : TurnProjection) : TurnProjection :=
  set_tp_Assistant (classifyProjectionTextPresentation (tp_Assistant t) completed) t.

(** The condition of [settleOtherOpenTurns], and what it does to a turn. *)
Definition open_other (activeTurnID : string) (t : TurnProjection) : bool :=
  negb (bool_decide (tp_TurnID t = "")) && negb (bool_decide (tp_TurnID t = activeTurnID))
  && negb (terminal (tp_Status t)).

Definition settle_turn (completedAt : Z) (t : TurnProjection) : TurnProjection :=
  let t := set_tp_Status "completed" t in
  let t := if completedAt =? 0 then t else set_tp_CompletedAt completedAt t in
  interrupt_turn (classify_turn true t).

(** One step of the loop. *)
Definition settle_at (activeTurnID : string) (completedAt : Z) (ps : projectionSession) (i : nat)
  : projectionSession :=
  match turns ps !! i with
  | None => ps
  | Some t =>
      if open_other activeTurnID t then
        let ps := set_workflows (interrupt_pending (classify_turn true t) (workflows ps)) ps in
        stage (tp_TurnID t) i (at_turn i (settle_turn completedAt) ps)
      else ps
  end.

Definition settleOtherOpenTurns (activeTurnID : string) (completedAt : Z) (ps : projectionSession)
  : projectionSession :=
  fold_left (settle_at activeTurnID completedAt) (seq 0 (length (turns ps))) ps.

Definition markRunning (turnID : string) (ps : projectionSession) : projectionSession :=
  if bool_decide (turnID = "") then ps
  else
    let ps := publish_exec (mkExecutionView "running" turnID) ps in
    let ps :=
      match turnByID turnID ps with
      | Some i =>
          match turns ps !! i with
          | Some t =>
              if terminal (tp_Status t) then ps
              else
                let changed := negb (bool_decide (tp_Status t = "running")) in
                let ps := at_turn i (set_tp_Status "running") ps in
                if changed then stage turnID i ps else ps
          | None => ps
          end
      | None => ps
      end in
    settleOtherOpenTurns turnID (sp_UpdatedAt (projection ps)) ps.

Definition stageTurnForFlush (turnID : string) (ps : projectionSession) : projectionSession :=
  if bool_decide (turnID = "") || bool_decide (turnID ∈ publishedTurnShells ps) then ps
  else match turnByID turnID ps with Some i => stage turnID i ps | None => ps end.

Definition stageOwningTurnsForPendingParts (ps : projectionSession) : projectionSession :=
  let ps := if bool_decide (tools ps = ∅) then ps else stageTurnForFlush (activeTurnID ps) ps in
  let ps := fold_left (fun ps u => stageTurnForFlush (ui_turnID u) ps) (map snd (map_to_list (userInputs ps))) ps in
  fold_left (fun ps w => stageTurnForFlush (wf_turnID w) ps) (map snd (map_to_list (workflows ps))) ps.

Definition latestRunningTurnID (ps : projectionSession) : string :=
  match find (fun t => one_of_words ["running"; "pending"] (tp_Status t)) (rev (turns ps)) with
  | Some t => tp_TurnID t
  | None => match last (turns ps) with Some t => tp_TurnID t | None => "" end
  end.

(** [Execution.ActiveTurnID], or else [latestRunningTurnID()]. *)
Definition attach_point (ps : projectionSession) : string :=
  if bool_decide (activeTurnID ps = "") then latestRunningTurnID ps else activeTurnID ps.

Definition settleResolvedPermissionCards (i : nat) (ps : projectionSession) : projectionSession :=
  match turns ps !! i with
  | None => ps
  | Some t =>
      let cards := permissionCards ps in
      let settled := map (settle_part cards) (filter (fun p => settles cards p = true) (assistant_parts t)) in
      set_tools (fold_left (fun m p => <[pp_ItemID p := mkToolPending (tp_TurnID t) p]> m) settled (tools ps))
        (at_turn i (on_assistant_parts (map (settle_part cards))) ps)
  end.

Definition hasPendingUserInput (turnID : string) (ps : projectionSession) : bool :=
  match the_turn turnID ps with
  | Some t => existsb part_waits (assistant_parts t)
  | None => false
  end.

Definition applyUserInputExecution (turnID : string) (ps : projectionSession) : projectionSession :=
  if bool_decide (turnID = "") then ps
  else if hasPendingUserInput turnID ps
  then publish_exec (mkExecutionView "requires_action" turnID) ps
  else
    match the_turn turnID ps with
    | Some t => if one_of_words ["running"; "pending"] (tp_Status t) then markRunning turnID ps else ps
    | None => ps
    end.

(** ** User-input cards across turns *)

Definition turnIDWithUserInputPart (interactionID : string) (ps : projectionSession) : string :=
  if bool_decide (interactionID = "") then ""
  else
    match find (fun t => match findUserInputPart (tp_Assistant t) interactionID with
                         | Some _ => true | None => false end) (turns ps) with
    | Some t => tp_TurnID t
    | None => ""
    end.

(** The copies of a card: the turn and the part, in the order of the projection. *)
Definition locateUserInputParts (interactionID : string) (ps : projectionSession)
  : list (string * ProjectionPart) :=
  if bool_decide (interactionID = "") then []
  else concat (map (fun t => map (fun p => (tp_TurnID t, p))
                                 (filter (fun p => is_user_input interactionID p = true) (assistant_parts t)))
                   (turns ps)).

(** The copy of highest rank, the later of two equals. *)
Definition best_copy (best : ProjectionPart * Z) (p : ProjectionPart) : ProjectionPart * Z :=
  if userInputPartRank p >=? snd best then (p, userInputPartRank p) else best.
Definition merged_copy (locs : list (string * ProjectionPart)) : ProjectionPart :=
  fst (fold_left best_copy (map snd locs) (part0, -1)).

(** The loop body over the copies. *)
Definition converge_at (interactionID canonical : string) (merged : ProjectionPart)
    (ps : projectionSession) (turnID : string) : projectionSession :=
  match turnByID turnID ps with
  | None => ps
  | Some i =>
      match turns ps !! i with
      | None => ps
      | Some t =>
          match findUserInputPart (tp_Assistant t) interactionID with
          | None => ps
          | Some k =>
              if bool_decide (turnID = canonical)
              then at_turn i (on_assistant_parts (fun l => <[k := merged]> l)) ps
              else at_turn i (on_assistant_parts (fun l => take k l ++ drop (S k) l)) ps
          end
      end
  end.

Definition stage_if_present (ps : projectionSession) (turnID : string) : projectionSession :=
  match turnByID turnID ps with Some i => stage turnID i ps | None => ps end.

Definition canonical_turn (interactionID : string) (locs : list (string * ProjectionPart))
    (ps : projectionSession) : string :=
  let registered := match userInputs ps !! interactionID with Some u => ui_turnID u | None => "" end in
  if bool_decide (registered = "") then match locs with (t, _) :: _ => t | [] => "" end else registered.

Definition convergeUserInputCopies (interactionID : string) (ps : projectionSession) : projectionSession :=
  let locs := locateUserInputParts interactionID ps in
  match locs with
  | [] => ps
  | _ =>
      let canonical := canonical_turn interactionID locs ps in
      let merged := merged_copy locs in
      let ps := fold_left (converge_at interactionID canonical merged) (map fst locs) ps in
      let ps := set_userInputs (<[interactionID := mkUserInputPending canonical merged]> (userInputs ps)) ps in
      fold_left stage_if_present (remove_dups (map fst locs)) ps
  end.

Definition markTurnUserInputsTerminated (turnID : string) (ps : projectionSession) : projectionSession :=
  match turnByID turnID ps with
  | None => ps
  | Some i =>
      match turns ps !! i with
      | None => ps
      | Some t =>
          let changed := filter (fun p => terminates p = true) (assistant_parts t) in
          if bool_decide (changed = []) then ps
          else
            let resync m p :=
              match m !! pp_UserInputInteractionID p with
              | Some u => if bool_decide (ui_turnID u = turnID)
                          then <[pp_UserInputInteractionID p := mkUserInputPending turnID p]> m else m
              | None => m
              end in
            let ps := set_userInputs (fold_left resync (map terminate_part changed) (userInputs ps)) ps in
            let ps := stage turnID i (at_turn i (on_assistant_parts (map terminate_part)) ps) in
            applyUserInputExecution turnID ps
      end
  end.

(** [ApplyExternalExecutionState] on the session. *)
Definition external_state (now : Z) (phase : string) (ps : projectionSession) : bool * projectionSession :=
  let current := sp_Execution (projection ps) in
  let refuse :=
    if bool_decide (phase = "running")
    then one_of_words ["running"; "requires_action"] (ev_Phase current)
    else negb (bool_decide (ev_Phase current = "running")) || negb (bool_decide (ev_ActiveTurnID current = "")) in
  if negb (one_of_words ["running"; "idle"] phase) || refuse then (false, ps)
  else
    let p := set_sp_UpdatedAt now (set_sp_SyncRev (sp_SyncRev (projection ps) + 1) (projection ps)) in
    (true, publish_exec (mkExecutionView phase "") (set_projection p ps)).

(** ** Applying an event *)

(** [commit()] *)
Definition commit (msg : EventMessage) (now : Z) (ps : projectionSession) : projectionSession :=
  let p := set_sp_SyncRev (sp_SyncRev (projection ps) + 1) (projection ps) in
  let p := if bool_decide (BridgeEpoch msg = "") then p else set_sp_BridgeEpoch (BridgeEpoch msg) p in
  set_projection (set_sp_UpdatedAt now p) (set_lastAppliedRev (PerSessionSeq msg) ps).

Definition updatedAt (ps : projectionSession) : Z := sp_UpdatedAt (projection ps).

(** [a], or [b] when it is empty. *)
Definition or_else (a b : string) : string := if bool_decide (a = "") then b else a.

Definition ensure_assistant (turnID : string) (t : TurnProjection) : TurnProjection :=
  match tp_Assistant t with
  | Some _ => t
  | None => set_tp_Assistant (Some (message0 turnID "assistant")) t
  end.

(** The turn of an event, made when it is missing. *)
Definition ensure_turn (turnID : string) (ps : projectionSession) : projectionSession :=
  match turnByID turnID ps with
  | Some _ => ps
  | None => upsertTurn (turn0 turnID "running") ps
  end.

Definition apply_turn_started (now : Z) (data : data_map) (ps : projectionSession) : projectionSession :=
  let turnID := dataString data "turnId" in
  if bool_decide (turnID = "") then ps
  else
    let ps := if negb (bool_decide (activeTurnID ps = "")) && negb (bool_decide (activeTurnID ps = turnID))
              then set_largePatchObserved false ps else ps in
    let startedAt :=
      match the_turn turnID ps with
      | Some t => if tp_StartedAt t =? 0 then now else tp_StartedAt t
      | None => now
      end in
    setActiveTurnPersistOnly turnID
      (upsertTurnPersistOnly (set_tp_StartedAt startedAt (turn0 turnID "running")) ps).

Definition text_part (text itemID : string) : ProjectionPart :=
  set_pp_ItemID itemID (set_pp_Text text (set_pp_Type "text" part0)).
Definition final_text (text : string) : ProjectionPart :=
  set_pp_Presentation "final" (set_pp_Text text (set_pp_Type "text" part0)).

(** [turnID + "\x00" + itemID] *)
Definition nul_key (a b : string) : string := a +:+ String.String (Ascii.ascii_of_nat 0) b.

(** [ProjectionReducer]: the sessions by key. *)
Abbreviation ProjectionReducer := (gmap string projectionSession).
Definition NewProjectionReducer : ProjectionReducer := ∅.
Definition projectionSessionKey (backendID sessionID : string) : string := nul_key backendID sessionID.

Section Apply.
(** [raw.([]core.EventAttachment)], copied field by field, and
    [raw.([]ProjectionPart)]; both nil for other values. *)
Context (event_attachments : value -> list ProjectionAttachment).
Context (part_blocks : value -> list ProjectionPart).

Definition dataAttachments (data : data_map) (key : string) : list ProjectionAttachment :=
  event_attachments (field data key).

(** The user message of an event; attachments only when there are any. *)
Definition user_message (data : data_map) : MessageProjection :=
  let itemID := dataString data "itemId" in
  let m := set_mp_Parts [text_part (dataString data "text") itemID] (message0 itemID "user") in
  set_mp_Attachments (dataAttachments data "attachments") m.

Definition apply_user_message (msg : EventMessage) (now : Z) (data : data_map) (ps : projectionSession)
  : projectionSession :=
  let itemID := dataString data "itemId" in
  if dataBool data "pending" then
    if bool_decide (itemID = "") then ps
    else
      upsertTurn (set_tp_User (Some (user_message data)) (set_tp_Pending (Some true) (turn0 itemID "pending")))
        (commit msg now ps)
  else
    let turnID := or_else (dataString data "turnId") itemID in
    if bool_decide (turnID = "") then ps
    else
      let ps := commit msg now ps in
      let ps := snd (removePendingPlaceholder itemID ps) in
      let upsert := set_tp_User (Some (user_message data)) (turn0 turnID "running") in
      markRunning turnID (upsertTurn (set_tp_FileChanges (field data "fileChanges") upsert) ps).

Definition apply_user_message_removed (msg : EventMessage) (now : Z) (data : data_map)
    (ps : projectionSession) : projectionSession :=
  let '(removed, ps') := removePendingPlaceholder (dataString data "itemId") ps in
  if removed then commit msg now ps' else ps.

Definition apply_turn_file_changes (msg : EventMessage) (now : Z) (data : data_map)
    (ps : projectionSession) : projectionSession :=
  let turnID := dataString data "turnId" in
  if bool_decide (turnID = "") then ps
  else
    match turnByID turnID ps with
    | None => ps
    | Some _ =>
        if has_field data "fileChanges"
        then upsertTurn (set_tp_FileChanges (field data "fileChanges") (turn0 turnID "")) (commit msg now ps)
        else ps
    end.

Definition apply_system_message (msg : EventMessage) (now : Z) (data : data_map) (ps : projectionSession)
  : projectionSession :=
  let itemID := dataString data "itemId" in
  let turnID := or_else (dataString data "turnId") itemID in
  let itemID := or_else itemID turnID in
  let text := dataString data "text" in
  if bool_decide (turnID = "") || blank text then ps
  else
    upsertTurn (system_turn turnID itemID (dataInt64 data "timestampMillis") (final_text text))
      (commit msg now ps).

(** A compaction item of a system message. *)
Definition is_compaction (itemID : string) (p : ProjectionPart) : bool :=
  bool_decide (pp_Type p = "context_compaction") && bool_decide (pp_ItemID p = itemID).

Definition compaction_part (itemID status : string) : ProjectionPart :=
  set_pp_ContextCompactionStatus status (set_pp_ItemID itemID (set_pp_Type "context_compaction" part0)).

Definition compact_system (turnID itemID status : string) (t : TurnProjection) : TurnProjection :=
  let m := default (message0 (turnID +:+ ":context-compaction") "system") (tp_System t) in
  let parts := upsert_part (is_compaction itemID) (set_pp_ContextCompactionStatus status)
                 (compaction_part itemID status) (mp_Parts m) in
  set_tp_System (Some (set_mp_Parts parts m)) t.

Definition apply_context_compaction (msg : EventMessage) (now : Z) (data : data_map)
    (ps : projectionSession) : projectionSession :=
  let turnID := dataString data "turnId" in
  let itemID := dataString data "itemId" in
  if bool_decide (turnID = "") || bool_decide (itemID = "") then ps
  else
    let t := the_turn turnID ps in
    let ended := match t with Some t => terminal (tp_Status t) | None => false end in
    let compressed := bool_decide (Event msg = "context_compressed") in
    let status := if compressed then "completed" else "running" in
    let parts := match t ≫= tp_System with Some m => mp_Parts m | None => [] end in
    let settled p := is_compaction itemID p
                     && (bool_decide (pp_ContextCompactionStatus p = status)
                         || bool_decide (pp_ContextCompactionStatus p = "completed")) in
    if existsb settled parts || (bool_decide (Event msg = "context_compressing") && ended) then ps
    else
      let ps := commit msg now ps in
      let ps := match t with
                | Some _ => ps
                | None => upsertTurn (set_tp_StartedAt (updatedAt ps) (turn0 turnID "running")) ps
                end in
      match turnByID turnID ps with
      | None => ps
      | Some i =>
          let ps := stage turnID i (at_turn i (compact_system turnID itemID status) ps) in
          if ended then ps else markRunning turnID ps
      end.

Definition apply_session_command (msg : EventMessage) (now : Z) (data : data_map) (ps : projectionSession)
  : projectionSession :=
  let commandID := dataString data "commandId" in
  let kind := dataString data "kind" in
  if bool_decide (commandID = "") || negb (one_of_words ["running"; "success"; "error"] kind) then ps
  else
    upsertSessionCommandTurn commandID (dataString data "name") kind (dataString data "text")
      (dataString data "inputLine") (dataInt64 data "timestampMillis") (commit msg now ps).

Definition injection_part (data : data_map) : ProjectionPart :=
  mkProjectionPart
    "context_injection" "" "" false (dataString data "itemId") "" VNil VNil "" VNil "" VNil VNil VNil VNil VNil
    false "" [] [] VNil "" "" "" "" "" "" "" 0 "" "" [] "" "" "" "" VNil false false 0 0 "" "" "" "" "" "" "" ""
    (dataString data "kind") (dataString data "form") (dataString data "summary") (dataString data "text")
    (dataString data "senderSessionId") "" "" "" [].

Definition is_injection (itemID : string) (p : ProjectionPart) : bool :=
  bool_decide (pp_Type p = "context_injection") && bool_decide (pp_ItemID p = itemID).

Definition apply_context_injection (msg : EventMessage) (now : Z) (data : data_map) (ps : projectionSession)
  : projectionSession :=
  let itemID := dataString data "itemId" in
  if bool_decide (itemID = "") || bool_decide (dataString data "kind" = "") then ps
  else
    let ps := commit msg now ps in
    let ownerID := dataString data "turnId" in
    match (if bool_decide (ownerID = "") then None else turnByID ownerID ps) with
    | Some i =>
        let part := injection_part data in
        stage ownerID i
          (at_turn i (fun t => on_assistant_parts (upsert_part (is_injection itemID) (fun _ => part) part)
                                 (ensure_assistant ownerID t)) ps)
    | None =>
        let turnID := "ctx:" +:+ itemID in
        upsertTurn (system_turn turnID turnID (dataInt64 data "timestampMillis") (injection_part data)) ps
    end.

Definition workflow_part (runID : string) (data : data_map) : ProjectionPart :=
  mkProjectionPart
    "workflow" "" "" false (or_else (dataString data "itemId") runID) "" VNil VNil "" VNil "" VNil VNil VNil VNil
    VNil false "" [] [] VNil "" "" "" "" "" "" "" 0 "" "" [] "" "" "" "" VNil false false 0 0 "" "" "" "" "" "" ""
    "" "" "" "" "" "" runID (dataString data "workflowName")
    (or_else (dataString data "workflowStatus") "running")
    (workflowPhasesFromWire (field data "workflowPhases")).

Definition apply_workflow_run (msg : EventMessage) (now : Z) (data : data_map) (ps : projectionSession)
  : projectionSession :=
  let runID := dataString data "workflowId" in
  if bool_decide (runID = "") then ps
  else
    let registered := match workflows ps !! runID with Some w => wf_turnID w | None => "" end in
    let turnID := or_else registered (dataString data "turnId") in
    match (if bool_decide (turnID = "") then None else turnByID turnID ps) with
    | None => ps
    | Some i =>
        let part := workflow_part runID data in
        let insertAt := if is_nil (field data "partIndex") then -1 else dataInt64 data "partIndex" in
        let ps := commit msg now ps in
        let ps := at_turn i (fun t => let t := ensure_assistant turnID t in
                    set_tp_Assistant ((fun m => upsertWorkflowPart m part insertAt) <$> tp_Assistant t) t) ps in
        stageTurnForFlush turnID (set_workflows (<[runID := mkWorkflowPending turnID part]> (workflows ps)) ps)
    end.

#[local] Instance PlanModeView_eq_dec : EqDecision PlanModeView.
Proof. solve_decision. Defined.

Definition apply_plan_mode (msg : EventMessage) (now : Z) (data : data_map) (ps : projectionSession)
  : projectionSession :=
  let view := mkPlanModeView (dataBool data "active") (dataBool data "pending") in
  if bool_decide (sp_PlanMode (projection ps) = Some view) then ps
  else
    let ps := commit msg now ps in
    set_planMode (Some view) (set_projection (set_sp_PlanMode (Some view) (projection ps)) ps).

Definition apply_session_mode (msg : EventMessage) (now : Z) (data : data_map) (ps : projectionSession)
  : projectionSession :=
  let status := dataString data "status" in
  if negb (one_of_words ["confirmed"; "pending"; "unknown"] status) then ps
  else
    let mode := match string_field data "mode" with
                | Some m => if bool_decide (m = "") then None else Some m | None => None end in
    let view := mkSessionModeView status mode (dataBool data "canSet") (dataString data "reason") in
    if match sp_SessionMode (projection ps) with Some v => sessionModeViewEqual v view | None => false end then ps
    else
      let ps := commit msg now ps in
      set_sessionMode (Some view) (set_projection (set_sp_SessionMode (Some view) (projection ps)) ps).

Definition apply_collaboration_mode (msg : EventMessage) (now : Z) (data : data_map) (ps : projectionSession)
  : projectionSession :=
  let mode := to_lower (dataString data "mode") in
  let model := trim_space (dataString data "model") in
  if bool_decide (model = "") || negb (one_of_words ["plan"; "default"] mode) then ps
  else
    let view := mkCollaborationModeView mode model (string_field data "reasoningEffort") in
    if match sp_CollaborationMode (projection ps) with
       | Some v => collaborationModeViewEqual v view | None => false end then ps
    else
      let ps := commit msg now ps in
      set_collaborationMode (Some view)
        (set_projection (set_sp_CollaborationMode (Some view) (projection ps)) ps).

(** The goal of a record event, [None] when the event is dropped. *)
Definition goal_record_view (msg : EventMessage) (data : data_map) : option CodexGoalView :=
  match field data "goal" with
  | VNil => Some (mkCodexGoalView None)
  | VMap m =>
      match decodeCodexGoalRecordView m with
      | Some g => if bool_decide (cgr_ThreadID g = SessionID msg) then Some (mkCodexGoalView (Some g)) else None
      | None => None
      end
  | _ => None
  end.

Definition goal_kind (status : string) : string :=
  if bool_decide (status = "complete") then "success"
  else if one_of_words ["blocked"; "usageLimited"; "budgetLimited"] status then "error" else "running".

Definition apply_goal_record (msg : EventMessage) (now : Z) (data : data_map) (ps : projectionSession)
  : projectionSession :=
  match goal_record_view msg data with
  | None => ps
  | Some view =>
      if match sp_CodexGoal (projection ps) with Some v => codexGoalViewEqual v view | None => false end then ps
      else
        let ps := commit msg now ps in
        let ps := set_codexGoal (Some view) (set_projection (set_sp_CodexGoal (Some view) (projection ps)) ps) in
        match cg_Goal view with
        | None => ps
        | Some g =>
            upsertSessionCommandTurn ("codex-goal:" +:+ format_int (cgr_CreatedAt g)) "goal"
              (goal_kind (cgr_Status g)) "" ("/goal " +:+ cgr_Objective g) (cgr_CreatedAt g * 1000) ps
        end
  end.

Definition goal_view (data : data_map) (phase : string) : GoalView :=
  if bool_decide (phase = "none") then mkGoalView "" 0 "" "none" None 0 false
  else
    mkGoalView (dataString data "id") (dataInt64 data "revision") (dataString data "objective") phase
      (match field data "blockedReason" with
       | VMap br => Some (mkGoalBlockedReasonView (dataString br "code") (dataString br "message"))
       | _ => None
       end)
      (dataInt64 data "maxGoalRounds") (dataBool data "verifyingCompletion").

Definition apply_session_goal (msg : EventMessage) (now : Z) (data : data_map) (ps : projectionSession)
  : projectionSession :=
  let phase := dataString data "phase" in
  if negb (one_of_words ["active"; "paused"; "blocked"; "complete"; "none"] phase) then ps
  else
    let view := goal_view data phase in
    if match sp_Goal (projection ps) with Some v => goalViewEqualGo v view | None => false end then ps
    else
      let ps := commit msg now ps in
      set_goal (Some view) (set_projection (set_sp_Goal (Some view) (projection ps)) ps).

(** The parts after a text delta, and whether a part was added that an
    [append_text] cannot express. *)
Definition text_delta_parts (itemID presentation delta : string) (newPart : bool)
    (parts : list ProjectionPart) : bool * list ProjectionPart :=
  let fresh := set_pp_ItemID itemID (set_pp_Presentation presentation (set_pp_Type "text" part0)) in
  let '(newPart, parts) :=
    if newPart then (true, parts ++ [fresh])
    else
      match trailingTextPartForItem parts itemID with
      | Some tr =>
          (false, if bool_decide (pp_ItemID tr = "") then on_last (set_pp_ItemID itemID) parts else parts)
      | None =>
          if match last parts with Some tr => is_text tr | None => false end
          then (true, parts ++ [fresh])
          else (false, on_last (set_pp_ItemID itemID) (ensureTrailingTextPart parts))
      end in
  let parts := if bool_decide (presentation = "") then parts
               else on_last (fun p => set_pp_presentationExplicit true (set_pp_Presentation presentation p)) parts in
  (newPart, on_last (fun p => set_pp_Text (pp_Text p +:+ delta) p) parts).

Definition has_assistant (t : TurnProjection) : bool := match tp_Assistant t with Some _ => true | None => false end.

Definition apply_text_delta (msg : EventMessage) (now : Z) (data : data_map) (ps : projectionSession)
  : projectionSession :=
  let itemID := dataString data "itemId" in
  let turnID := or_else (dataString data "turnId") itemID in
  let delta := dataString data "delta" in
  if bool_decide (turnID = "") then ps
  else
    let ps := ensure_turn turnID (commit msg now ps) in
    match turnByID turnID ps with
    | None => ps
    | Some i =>
        match turns ps !! i with
        | None => ps
        | Some t =>
            let presentation := dataString data "presentation" in
            let presentation := if one_of_words ["progress"; "final"] presentation then presentation else "" in
            let change := text_delta_parts itemID presentation delta (dataBool data "newPart") in
            let newPart := fst (change (assistant_parts t)) in
            let ps := at_turn i (fun t => on_assistant_parts (fun l => snd (change l))
                                            (ensure_assistant turnID t)) ps in
            let ps :=
              if newPart then stage turnID i ps
              else
                let appends := default [] (textAppends ps !! turnID) ++ [delta] in
                let ps := set_textAppends (<[turnID := appends]> (textAppends ps)) ps in
                if has_assistant t then ps else stage turnID i ps in
            markRunning turnID ps
        end
    end.

Definition is_reasoning (itemID : string) (p : ProjectionPart) : bool :=
  bool_decide (pp_Type p = "reasoning")
  && (bool_decide (itemID = "") || bool_decide (pp_ItemID p = itemID)).

(** The parts after a reasoning delta, the whole text of the item, and whether a
    part was added. *)
Definition reasoning_parts (itemID delta : string) (parts : list ProjectionPart)
  : bool * string * list ProjectionPart :=
  let '(added, i, parts) :=
    match find_part (is_reasoning itemID) parts with
    | Some i =>
        (false, i, alter (fun p => if bool_decide (pp_ItemID p = "") then set_pp_ItemID itemID p else p) i parts)
    | None =>
        (true, length parts, parts ++ [set_pp_ItemID itemID (set_pp_Type "reasoning" part0)])
    end in
  let parts := alter (fun p => set_pp_Text (pp_Text p +:+ delta) p) i parts in
  (added, match parts !! i with Some p => pp_Text p | None => "" end, parts).

Definition apply_reasoning_delta (msg : EventMessage) (now : Z) (data : data_map) (ps : projectionSession)
  : projectionSession :=
  let itemID := dataString data "itemId" in
  let turnID := or_else (dataString data "turnId") itemID in
  if bool_decide (turnID = "") then ps
  else
    let ps := ensure_turn turnID (commit msg now ps) in
    match turnByID turnID ps with
    | None => ps
    | Some i =>
        match turns ps !! i with
        | None => ps
        | Some t =>
            let change := reasoning_parts itemID (dataString data "delta") in
            let '(added, text, _) := change (assistant_parts t) in
            let ps := at_turn i (fun t => on_assistant_parts (fun l => snd (change l))
                                            (ensure_assistant turnID t)) ps in
            let ps := set_thinking (<[nul_key turnID itemID := mkReasoningPending turnID itemID text]>
                                      (thinking ps)) ps in
            let ps := if negb (has_assistant t) || added then stage turnID i ps else ps in
            markRunning turnID ps
        end
    end.

(** The tool part an event describes. *)
Definition tool_part (event : string) (data : data_map) : ProjectionPart :=
  let p := set_pp_ToolName (dataString data "toolName")
             (set_pp_ItemID (dataString data "itemId") (set_pp_Type "tool" part0)) in
  let p := set_pp_ToolResult (field data "toolResult") (set_pp_ToolInput (field data "toolInput") p) in
  let p := set_pp_Title (dataString data "title") (set_pp_Matches (field data "matches") p) in
  let p := set_pp_FileDisplay (field data "fileDisplay") (set_pp_FileChanges (field data "fileChanges") p) in
  let p := set_pp_DetailUnavailable (field data "detailUnavailable")
             (set_pp_EditRegions (field data "editRegions") p) in
  let p := set_pp_ActivityActions (field data "activityActions") p in
  set_pp_ToolStatus (or_else (dataString data "toolStatus")
    (if bool_decide (event = "tool_started") then "running" else "completed")) p.

(** [ps.tools[callID]] takes the tool's part of the turn at [i]. *)
Definition record_tool (callID turnID : string) (i : nat) (ps : projectionSession) : projectionSession :=
  match turns ps !! i ≫= (fun t => find (is_tool callID) (assistant_parts t)) with
  | Some p => set_tools (<[callID := mkToolPending turnID p]> (tools ps)) ps
  | None => ps
  end.

Definition apply_tool (msg : EventMessage) (now : Z) (data : data_map) (ps : projectionSession)
  : projectionSession :=
  let callID := dataString data "itemId" in
  let turnID := attach_point ps in
  match (if bool_decide (callID = "") || bool_decide (turnID = "") then None else turnByID turnID ps) with
  | None => ps
  | Some i =>
      let known := match turns ps !! i with
                   | Some t => existsb (is_tool callID) (assistant_parts t) | None => false end in
      if bool_decide (Event msg = "tool_finished") && negb known then ps
      else
        let ps := at_turn i (ensure_assistant turnID) (commit msg now ps) in
        let ps := markRunning turnID ps in
        let part := tool_part (Event msg) data in
        let ps := at_turn i (on_assistant_parts
                    (upsert_part (is_tool callID) (fun dst => mergeToolPart dst part) part)) ps in
        record_tool callID turnID i ps
  end.

Definition subagent_part (data : data_map) : ProjectionPart :=
  mkProjectionPart
    "subagent" "" "" false "" "" VNil VNil "" VNil "" VNil VNil VNil VNil VNil false "" [] [] VNil
    "" "" "" "" (dataString data "agentId") (dataString data "parentAgentId")
    (dataString data "spawnToolUseId") (dataInt64 data "spawnDepth") (dataString data "subagentType")
    (dataString data "subagentStatus") (part_blocks (field data "subagentBlocks"))
    (dataString data "subagentError") (dataString data "subagentDiagnostic")
    "" "" VNil false false 0 0 "" "" "" "" "" "" "" "" "" "" "" "" "" "" "" "" [].

Definition is_subagent (agentID : string) (p : ProjectionPart) : bool :=
  bool_decide (pp_Type p = "subagent") && bool_decide (pp_AgentID p = agentID).

Definition apply_subagent (msg : EventMessage) (now : Z) (data : data_map) (ps : projectionSession)
  : projectionSession :=
  let turnID := dataString data "turnId" in
  let agentID := dataString data "agentId" in
  match (if bool_decide (turnID = "") || bool_decide (agentID = "") then None else turnByID turnID ps) with
  | None => ps
  | Some i =>
      let part := subagent_part data in
      at_turn i (fun t => on_assistant_parts (upsert_part (is_subagent agentID) (fun _ => part) part)
                            (ensure_assistant turnID t)) (commit msg now ps)
  end.

(** The card of a permission request. *)
Definition permission_part (callID : string) (data : data_map) : ProjectionPart :=
  let p := set_pp_RequiresPermissionConfirmation true
             (set_pp_ToolStatus "pending" (set_pp_ItemID callID (set_pp_Type "tool" part0))) in
  let p := set_pp_Title (dataString data "reason") (set_pp_ToolName (dataString data "toolName") p) in
  let input :=
    if has_field data "toolInput" then
      match field data "toolInput" with
      | VString s => if bool_decide (s = "") then VNil else VString s
      | v => v
      end
    else field data "toolInputRaw" in
  let p := set_pp_PermissionKind (dataString data "permissionKind") (set_pp_ToolInput input p) in
  let p := set_pp_PermissionActions (dataStringSlice data "permissionActions")
             (set_pp_PermissionPatterns (dataStringSlice data "patterns") p) in
  set_pp_PermissionPlan (field data "plan") p.

Definition request_id (data : data_map) : string :=
  or_else (dataString data "requestId") (dataString data "itemId").

Definition apply_permission_request (msg : EventMessage) (now : Z) (data : data_map)
    (ps : projectionSession) : projectionSession :=
  let callID := request_id data in
  let turnID := attach_point ps in
  if bool_decide (callID = "") || bool_decide (turnID = "") then ps
  else
    let ps := commit msg now ps in
    let ps := set_permissionCards ({[callID]} ∪ permissionCards ps) ps in
    let ps := ensure_turn turnID ps in
    match turnByID turnID ps with
    | None => ps
    | Some i =>
        let part := permission_part callID data in
        let pend dst := set_pp_ToolStatus "pending"
                          (set_pp_RequiresPermissionConfirmation true (mergeToolPart dst part)) in
        let ps := at_turn i (fun t => on_assistant_parts (upsert_part (is_tool callID) pend part)
                                        (ensure_assistant turnID t)) ps in
        applyUserInputExecution turnID (stageTurnForFlush turnID (record_tool callID turnID i ps))
    end.

Definition resolve_permission (denied ended : bool) (p : ProjectionPart) : ProjectionPart :=
  let p := set_pp_RequiresPermissionConfirmation false p in
  if denied then set_pp_ToolStatus "rejected" p
  else if ended then set_pp_ToolStatus "completed" p
  else if one_of_words [""; "pending"] (pp_ToolStatus p) then set_pp_ToolStatus "running" p
  else p.

(** The turn that holds the card: the active one first. *)
Definition permission_turn (callID : string) (ps : projectionSession) : option nat :=
  let holds t := hasPermissionTool (tp_Assistant t) callID in
  match turnByID (activeTurnID ps) ps with
  | Some i =>
      if match turns ps !! i with Some t => holds t | None => false end then Some i
      else fst <$> list_find (fun t => holds t = true) (turns ps)
  | None => fst <$> list_find (fun t => holds t = true) (turns ps)
  end.

Definition apply_permission_resolved (msg : EventMessage) (now : Z) (data : data_map)
    (ps : projectionSession) : projectionSession :=
  let callID := request_id data in
  if bool_decide (callID = "") then ps
  else
    let behavior := or_else (to_lower (dataString data "behavior")) (to_lower (dataString data "outcome")) in
    let denied := one_of_words ["deny"; "rejected"; "cancelled"; "unavailable"] behavior in
    match permission_turn callID ps with
    | None => ps
    | Some i =>
        match turns ps !! i with
        | None => ps
        | Some t =>
            let turnID := tp_TurnID t in
            let ps := commit msg now ps in
            let resolve := resolve_permission denied (terminal (tp_Status t)) in
            let ps := at_turn i (on_assistant_parts (fun l =>
                        match find_part (is_tool callID) l with Some k => alter resolve k l | None => l end)) ps in
            applyUserInputExecution turnID (record_tool callID turnID i ps)
        end
    end.

(** [msg.Parts[idx]] of the assistant message changed in place, and the registry. *)
Definition update_card (turnID interactionID : string) (i : nat)
    (f : ProjectionPart -> ProjectionPart) (ps : projectionSession) : projectionSession :=
  match turns ps !! i with
  | None => ps
  | Some t =>
      match findUserInputPart (tp_Assistant t) interactionID with
      | None => ps
      | Some k =>
          let ps := at_turn i (on_assistant_parts (alter f k)) ps in
          match assistant_parts t !! k with
          | Some p => set_userInputs (<[interactionID := mkUserInputPending turnID (f p)]> (userInputs ps)) ps
          | None => ps
          end
      end
  end.

(** The card put in the assistant message, and the registry. *)
Definition put_card (turnID : string) (i : nat) (part : ProjectionPart) (ps : projectionSession)
  : projectionSession :=
  let ps := at_turn i (fun t => let t := ensure_assistant turnID t in
              set_tp_Assistant ((fun m => upsertUserInputPart m part) <$> tp_Assistant t) t) ps in
  set_userInputs (<[pp_UserInputInteractionID part := mkUserInputPending turnID part]> (userInputs ps)) ps.

Definition registered_turn (interactionID : string) (ps : projectionSession) : string :=
  match userInputs ps !! interactionID with Some u => ui_turnID u | None => "" end.

Definition card_part (interactionID status : string) (questions : value) (canRespond canReject : bool)
    (expiresAt : Z) (diagnosticCode : string) : ProjectionPart :=
  mkProjectionPart
    "user_input" "" "" false "" "" VNil VNil "" VNil "" VNil VNil VNil VNil VNil false "" [] [] VNil
    "" "" "" "" "" "" "" 0 "" "" [] "" "" interactionID status questions canRespond canReject expiresAt 0 ""
    diagnosticCode "" "" "" "" "" "" "" "" "" "" "" "" "" "" [].

Definition question_value (qid : string) (data : data_map) : value :=
  let mode := or_else (dataString data "answerMode")
                (if dataBool data "multiSelect" then "multiple" else "single") in
  VArray [VMap [("id", VString qid); ("header", VNil); ("prompt", VString (dataString data "questionText"));
                ("answerMode", VString mode);
                ("options", VArray (questionOptionsToUserInputOptions (field data "options")));
                ("allowsCustomAnswer", VBool true); ("isSecret", VBool false); ("required", VBool true)]].

Definition apply_question_asked (msg : EventMessage) (now : Z) (data : data_map) (ps : projectionSession)
  : projectionSession :=
  let qid := dataString data "questionId" in
  if bool_decide (qid = "") || bool_decide (attach_point ps = "") then ps
  else
    let turnID := or_else (registered_turn qid ps) (attach_point ps) in
    let ps := ensure_turn turnID (commit msg now ps) in
    match turnByID turnID ps with
    | None => ps
    | Some i =>
        let part := card_part qid "pending" (question_value qid data) true true 0 "" in
        applyUserInputExecution turnID (stageTurnForFlush turnID (put_card turnID i part ps))
    end.

Definition apply_question_resolved (msg : EventMessage) (now : Z) (data : data_map) (ps : projectionSession)
  : projectionSession :=
  let qid := dataString data "questionId" in
  if bool_decide (qid = "") then ps
  else
    let status := if one_of_words ["cancelled"; "rejected"] (to_lower (dataString data "result"))
                  then "rejected" else "answered" in
    let turnID := or_else (registered_turn qid ps) (activeTurnID ps) in
    match turnByID turnID ps with
    | None => ps
    | Some i =>
        match turns ps !! i ≫= (fun t => findUserInputPart (tp_Assistant t) qid) with
        | None => ps
        | Some _ =>
            let ps := commit msg now ps in
            let f p := set_pp_UserInputResolvedAt (updatedAt ps)
                         (set_pp_UserInputResolutionSource "backend" (set_pp_UserInputStatus status p)) in
            applyUserInputExecution turnID (update_card turnID qid i f ps)
        end
    end.

(** The turn that owns a card: the registry, then the projection, then [fallback]. *)
Definition owning_turn (interactionID fallback : string) (ps : projectionSession) : string :=
  or_else (registered_turn interactionID ps) (or_else (turnIDWithUserInputPart interactionID ps) fallback).

(** What a request becomes when its card exists: ended and submitted cards stay,
    a waiting one keeps what it allowed. *)
Definition request_over (part existing : ProjectionPart) : ProjectionPart :=
  if bool_decide (pp_UserInputDiagnosticCode existing = "turn_terminated")
     || bool_decide (pp_UserInputStatus existing = "submitted")
     || userInputStatusIsResolved (pp_UserInputStatus existing) then existing
  else
    set_pp_UserInputCanReject (pp_UserInputCanReject part || pp_UserInputCanReject existing)
      (set_pp_UserInputCanRespond (pp_UserInputCanRespond part || pp_UserInputCanRespond existing) part).

Definition is_claude (backendID : string) : bool := one_of_words ["claude"; "claudecode"] backendID.

Definition apply_user_input_requested (msg : EventMessage) (now : Z) (data : data_map)
    (ps : projectionSession) : projectionSession :=
  let iid := dataString data "interactionId" in
  if bool_decide (iid = "") then ps
  else
    let turnID := owning_turn iid (dataString data "turnId") ps in
    let turnID := if one_of_words ["dsh-web"; "grokbuild"] (BackendID msg)
                  then or_else turnID (attach_point ps) else turnID in
    if bool_decide (turnID = "") then ps
    else
      let ps := commit msg now ps in
      let turnID :=
        match turnByID turnID ps with
        | Some _ => turnID
        | None => if is_claude (BackendID msg) then or_else (attach_point ps) turnID else turnID
        end in
      let ps := ensure_turn turnID ps in
      match turnByID turnID ps with
      | None => ps
      | Some i =>
          let part := card_part iid (or_else (dataString data "status") "pending") (field data "questions")
                        (dataBool data "canRespond") (dataBool data "canReject") (dataInt64 data "expiresAt")
                        (dataString data "diagnosticCode") in
          let part :=
            match turns ps !! i ≫= (fun t => find (is_user_input iid) (assistant_parts t)) with
            | Some existing => request_over part existing
            | None => part
            end in
          let ps := put_card turnID i part ps in
          convergeUserInputCopies iid (applyUserInputExecution turnID (stageTurnForFlush turnID ps))
      end.

(** The turn of a submitted or resolved card, and the card. *)
Definition card_of (iid : string) (data : data_map) (ps : projectionSession)
  : option (string * nat * ProjectionPart) :=
  let turnID := or_else (owning_turn iid (dataString data "turnId") ps) (activeTurnID ps) in
  match turnByID turnID ps with
  | None => None
  | Some i =>
      match turns ps !! i ≫= (fun t => find (is_user_input iid) (assistant_parts t)) with
      | Some p => Some (turnID, i, p)
      | None => None
      end
  end.

Definition submit_card (p : ProjectionPart) : ProjectionPart :=
  set_pp_UserInputDiagnosticCode "" (set_pp_UserInputCanReject false
    (set_pp_UserInputCanRespond false (set_pp_UserInputStatus "submitted" p))).

Definition apply_user_input_submitted (msg : EventMessage) (now : Z) (data : data_map)
    (ps : projectionSession) : projectionSession :=
  let iid := dataString data "interactionId" in
  match (if bool_decide (iid = "") then None else card_of iid data ps) with
  | None => ps
  | Some (turnID, i, existing) =>
      if bool_decide (pp_UserInputDiagnosticCode existing = "turn_terminated")
         || userInputStatusIsResolved (pp_UserInputStatus existing)
         || bool_decide (pp_UserInputStatus existing = "submitted") then ps
      else
        let ps := update_card turnID iid i submit_card (commit msg now ps) in
        convergeUserInputCopies iid (applyUserInputExecution turnID (stageTurnForFlush turnID ps))
  end.

Definition resolve_card (status source : string) (resolvedAt : Z) (p : ProjectionPart) : ProjectionPart :=
  set_pp_UserInputResolvedAt resolvedAt (set_pp_UserInputDiagnosticCode "" (set_pp_UserInputCanReject false
    (set_pp_UserInputCanRespond false (set_pp_UserInputResolutionSource source
      (set_pp_UserInputStatus status p))))).

Definition apply_user_input_resolved (msg : EventMessage) (now : Z) (data : data_map)
    (ps : projectionSession) : projectionSession :=
  let iid := dataString data "interactionId" in
  match (if bool_decide (iid = "") then None else card_of iid data ps) with
  | None => ps
  | Some (turnID, i, _) =>
      let ps := commit msg now ps in
      let at_ := if dataInt64 data "resolvedAt" =? 0 then updatedAt ps else dataInt64 data "resolvedAt" in
      let ps := update_card turnID iid i
                  (resolve_card (dataString data "status") (dataString data "source") at_) ps in
      convergeUserInputCopies iid (applyUserInputExecution turnID ps)
  end.

(** The end of a turn, common to its three events: cards and workflows closed,
    every other turn settled, the session idle. *)
Definition end_turn (turnID : string) (ps : projectionSession) : projectionSession :=
  let ps := markTurnUserInputsTerminated turnID ps in
  let ps := settleOtherOpenTurns turnID (updatedAt ps) ps in
  publish_exec (mkExecutionView "idle" "") ps.

Definition preload_detail (t : TurnProjection) : TurnProjection :=
  set_tp_DetailInline true (set_tp_DetailReasonCode "" (set_tp_DetailLoadState "loaded" t)).

Definition apply_turn_completed (msg : EventMessage) (now : Z) (data : data_map) (ps : projectionSession)
  : projectionSession :=
  let turnID := or_else (dataString data "turnId") (activeTurnID ps) in
  if bool_decide (turnID = "") then ps
  else
    let ps := commit msg now ps in
    let status := if bool_decide (dataString data "stopReason" = "cancelled") then "aborted" else "completed" in
    let completed := set_tp_CompletedAt (updatedAt ps) (turn0 turnID status) in
    let durationMs := dataInt64 data "durationMs" in
    let completed := if durationMs >? 0 then set_tp_DurationMs durationMs completed else completed in
    let ps := upsertTurn completed ps in
    let ps :=
      match turnByID turnID ps with
      | None => ps
      | Some i =>
          let ps := if dataBool data "detailPreloaded" then at_turn i preload_detail ps else ps in
          let ps := interruptRunningWorkflowParts i (at_turn i (classify_turn true) ps) in
          stage turnID i (settleResolvedPermissionCards i ps)
      end in
    end_turn turnID ps.

Definition apply_turn_failed (msg : EventMessage) (now : Z) (data : data_map) (ps : projectionSession)
  : projectionSession :=
  let turnID := or_else (dataString data "turnId") (activeTurnID ps) in
  if bool_decide (turnID = "") then ps
  else
    let failed := bool_decide (Event msg = "turn_error") in
    let ps := commit msg now ps in
    let ended := set_tp_CompletedAt (updatedAt ps) (turn0 turnID (if failed then "error" else "aborted")) in
    let errorMessage := trim_space (dataString data "message") in
    let ended :=
      if failed && negb (bool_decide (errorMessage = "")) then
        set_tp_System (Some (set_mp_Parts [final_text errorMessage] (message0 (turnID +:+ "-error") "system"))) ended
      else ended in
    let ps := upsertTurn ended ps in
    let ps :=
      match turnByID turnID ps with
      | None => ps
      | Some i => stage turnID i (interruptRunningWorkflowParts i (at_turn i (classify_turn true) ps))
      end in
    end_turn turnID ps.

(** The [switch] of [Apply] on the session. *)
Definition apply_event (msg : EventMessage) (now : Z) (ps : projectionSession) : projectionSession :=
  let data := asDataMap (Data msg) in
  let on := one_of_words in
  let e := Event msg in
  if on ["turn_started"] e then apply_turn_started now data ps
  else if on ["user_message"] e then apply_user_message msg now data ps
  else if on ["user_message_removed"] e then apply_user_message_removed msg now data ps
  else if on ["turn_file_changes"] e then apply_turn_file_changes msg now data ps
  else if on ["system_message"] e then apply_system_message msg now data ps
  else if on ["context_compressing"; "context_compressed"] e then apply_context_compaction msg now data ps
  else if on ["session_command"] e then apply_session_command msg now data ps
  else if on ["context_injection"] e then apply_context_injection msg now data ps
  else if on ["workflow_run"] e then apply_workflow_run msg now data ps
  else if on ["session_plan_mode"] e then apply_plan_mode msg now data ps
  else if on ["session_mode"] e then apply_session_mode msg now data ps
  else if on ["session_collaboration_mode"] e then apply_collaboration_mode msg now data ps
  else if on ["session_goal_record"] e then apply_goal_record msg now data ps
  else if on ["session_goal"] e then apply_session_goal msg now data ps
  else if on ["text_delta"] e then apply_text_delta msg now data ps
  else if on ["reasoning_delta"] e then apply_reasoning_delta msg now data ps
  else if on ["tool_started"; "tool_finished"] e then apply_tool msg now data ps
  else if on ["subagent_part"] e then apply_subagent msg now data ps
  else if on ["permission_request"] e then apply_permission_request msg now data ps
  else if on ["permission_resolved"] e then apply_permission_resolved msg now data ps
  else if on ["question_asked"] e then apply_question_asked msg now data ps
  else if on ["question_resolved"] e then apply_question_resolved msg now data ps
  else if on ["user_input_requested"] e then apply_user_input_requested msg now data ps
  else if on ["user_input_submitted"] e then apply_user_input_submitted msg now data ps
  else if on ["user_input_resolved"] e then apply_user_input_resolved msg now data ps
  else if on ["turn_completed"] e then apply_turn_completed msg now data ps
  else if on ["turn_aborted"; "turn_error"] e then apply_turn_failed msg now data ps
  else ps.

(** [Apply] once the session is found or made: an event of an old sequence is
    ignored. *)
Definition apply_session (msg : EventMessage) (now : Z) (ps : projectionSession) : projectionSession :=
  if (lastAppliedRev ps >? 0) && (PerSessionSeq msg <=? lastAppliedRev ps) then ps
  else apply_event msg now ps.

Definition Apply (msg : EventMessage) (now : Z) (r : ProjectionReducer) : ProjectionReducer :=
  if bool_decide (BackendID msg = "") || bool_decide (SessionID msg = "") || (PerSessionSeq msg =? 0) then r
  else
    let key := projectionSessionKey (BackendID msg) (SessionID msg) in
    let ps := default (new_session (SessionID msg)) (r !! key) in
    <[key := apply_session msg now ps]> r.
End Apply.
