(* ===== verification/ReducerPatch.v ===== *)
(** * Patches, snapshots and restores of the projection reducer
    (go-bridge/projection_reducer.go)

    Draining what changed into a patch, dropping it, reading a snapshot,
    installing a checkpoint, prepending history, and the counters the hydrate path
    asks for. The order in which the code ranges over a map is not fixed: a patch
    lists the entries of each map in the order of [map_to_list], and [Restore]
    takes the order of its map of cards as an argument. An index out of range
    panics: [None]. *)

From S2P Require Import Prelude.
From S2P Require Import Wire.
From S2P Require Import Projection.
From S2P Require Import ProjectionFields.
From S2P Require Import ReducerParts.
From S2P Require Import Reducer.

(** ** Patches *)

Definition no_delta (ps : projectionSession) : bool :=
  bool_decide (textAppends ps = ∅) && bool_decide (thinking ps = ∅)
  && bool_decide (tools ps = ∅) && bool_decide (upsertTurns ps = ∅)
  && bool_decide (userInputs ps = ∅).

Definition no_view (ps : projectionSession) : bool :=
  let none {A} (o : option A) := match o with None => true | Some _ => false end in
  none (execution ps) && none (planMode ps) && none (goal ps) && none (sessionMode ps)
  && none (collaborationMode ps) && none (codexGoal ps).

(** A staged turn as it goes out: the live turn when there is one. *)
Definition outgoing_turn (ps : projectionSession) (e : string * TurnProjection) : TurnProjection :=
  cloneTurn (default (snd e) (the_turn (fst e) ps)).

Definition append_op (e : string * list string) : PartOp :=
  mkPartOp (fst e) (fst e) "append_text" "" (String.concat "" (snd e)) None [].
Definition thinking_op (e : string * reasoningPending) : PartOp :=
  let p := snd e in mkPartOp (rp_turnID p) (rp_turnID p) "set_thinking" (rp_itemID p) (rp_text p) None [].
Definition tool_op (e : string * toolPending) : PartOp :=
  let p := snd e in
  mkPartOp (tpd_turnID p) (tpd_turnID p) "upsert_tool" "" "" (Some (cloneProjectionPart (tpd_part p))) [].
Definition user_input_op (e : string * userInputPending) : PartOp :=
  let p := snd e in
  mkPartOp (ui_turnID p) (ui_turnID p) "upsert_user_input" "" "" (Some (cloneProjectionPart (ui_part p))) [].
Definition workflow_op (e : string * workflowPending) : PartOp :=
  let p := snd e in
  mkPartOp (wf_turnID p) (wf_turnID p) "upsert_workflow" "" "" (Some (cloneProjectionPart (wf_part p))) [].

(** The appends of turns whose shell does not go out. *)
Definition unshelled (ps : projectionSession) : list (string * list string) :=
  filter (fun e => upsertTurns ps !! fst e = None) (map_to_list (textAppends ps)).

Definition part_ops (ps : projectionSession) : list PartOp :=
  map append_op (unshelled ps) ++ map thinking_op (map_to_list (thinking ps))
  ++ map tool_op (map_to_list (tools ps)) ++ map user_input_op (map_to_list (userInputs ps))
  ++ map workflow_op (map_to_list (workflows ps)).

Definition build_patch (ps : projectionSession) : ProjectionPatch :=
  mkProjectionPatch (lastFlushedRev ps) (sp_SyncRev (projection ps)) (execution ps)
    (map (outgoing_turn ps) (map_to_list (upsertTurns ps))) (part_ops ps) [] [] (removedTurns ps)
    (planMode ps) (sessionMode ps) (collaborationMode ps) (codexGoal ps) (goal ps).

(** [publishedTurnShells] with the staged turns. *)
Definition publish_shells (ps : projectionSession) : gset string :=
  publishedTurnShells ps ∪ dom (upsertTurns ps).

(** The session with every pending delta cleared. *)
Definition cleared (ps : projectionSession) : projectionSession :=
  mkSession (projection ps) (lastAppliedRev ps) (sp_SyncRev (projection ps)) (largePatchObserved ps)
    (publish_shells ps) ∅ ∅ ∅ ∅ [] ∅ ∅ (permissionCards ps) None None None None None None.

Definition flushLocked (ps : projectionSession) : option ProjectionPatch * projectionSession :=
  let ps := stageOwningTurnsForPendingParts ps in
  if (sp_SyncRev (projection ps) =? lastFlushedRev ps) && no_delta ps
     && bool_decide (workflows ps = ∅) && bool_decide (removedTurns ps = []) && no_view ps
  then (None, ps)
  else (Some (build_patch ps), cleared ps).

Definition FlushPatch (backendID sessionID : string) (r : ProjectionReducer)
  : option ProjectionPatch * ProjectionReducer :=
  let key := projectionSessionKey backendID sessionID in
  match r !! key with
  | None => (None, r)
  | Some ps => let '(patch, ps) := flushLocked ps in (patch, <[key := ps]> r)
  end.

(** [DropPendingPatch] on the session: the workflow cards and the retracted rows
    stay pending. *)
Definition drop_pending (ps : projectionSession) : bool * projectionSession :=
  if (sp_SyncRev (projection ps) =? lastFlushedRev ps) && no_delta ps && no_view ps then (false, ps)
  else (true, set_workflows (workflows ps) (set_removedTurns (removedTurns ps) (cleared ps))).

Definition DropPendingPatch (backendID sessionID : string) (r : ProjectionReducer) : bool * ProjectionReducer :=
  let key := projectionSessionKey backendID sessionID in
  match r !! key with
  | None => (false, r)
  | Some ps => let '(dropped, ps) := drop_pending ps in (dropped, <[key := ps]> r)
  end.

(** ** Reading *)

Definition cloneGoalRecord (g : CodexGoalRecordView) : CodexGoalRecordView :=
  mkCodexGoalRecordView (cgr_ThreadID g) (cgr_Objective g) (cgr_Status g)
    (match cgr_TokenBudget g with Some b => Some b | None => None end) (cgr_TokensUsed g)
    (cgr_TimeUsedSeconds g) (cgr_CreatedAt g) (cgr_UpdatedAt g).

Definition cloneSessionProjection (s : SessionProjection) : SessionProjection :=
  set_sp_CodexGoal ((fun v => mkCodexGoalView (cloneGoalRecord <$> cg_Goal v)) <$> sp_CodexGoal s)
    (set_sp_Turns (map cloneTurn (sp_Turns s)) s).

Definition Snapshot (backendID sessionID : string) (r : ProjectionReducer) : option SessionProjection :=
  (fun ps => cloneSessionProjection (projection ps)) <$> r !! projectionSessionKey backendID sessionID.

Definition LastAppliedRev (backendID sessionID : string) (r : ProjectionReducer) : Z :=
  match r !! projectionSessionKey backendID sessionID with
  | Some ps => sp_SyncRev (projection ps) | None => 0 end.
Definition lastInputSequence (backendID sessionID : string) (r : ProjectionReducer) : Z :=
  match r !! projectionSessionKey backendID sessionID with Some ps => lastAppliedRev ps | None => 0 end.
Definition TurnCount (backendID sessionID : string) (r : ProjectionReducer) : Z :=
  match r !! projectionSessionKey backendID sessionID with Some ps => zlen (turns ps) | None => 0 end.

Definition has_parts (m : option MessageProjection) : bool :=
  match m with Some m => negb ((zlen (mp_Parts m) =? 0)) | None => false end.

Definition HasContentTurn (backendID sessionID : string) (r : ProjectionReducer) : bool :=
  match r !! projectionSessionKey backendID sessionID with
  | Some ps => existsb (fun t => has_parts (tp_User t) || has_parts (tp_Assistant t) || has_parts (tp_System t))
                 (turns ps)
  | None => false
  end.

Definition NonTerminalTurnCountInSet (backendID sessionID : string) (ids : gset string) (r : ProjectionReducer)
  : Z :=
  match r !! projectionSessionKey backendID sessionID with
  | Some ps => zlen (filter (fun t => tp_TurnID t ∈ ids /\ terminal (tp_Status t) = false) (turns ps))
  | None => 0
  end.

(** An echo of a local command that nothing will answer. *)
Definition unanswered_echo (t : TurnProjection) : bool :=
  match tp_User t, tp_Assistant t with
  | Some _, None => claudeUserTextIsCommandEcho (tp_User t)
  | _, _ => false
  end.

Definition NonTerminalTurnCountInSetIgnoringUnansweredCommandEchoTurns (backendID sessionID : string)
    (ids : gset string) (r : ProjectionReducer) : Z :=
  match r !! projectionSessionKey backendID sessionID with
  | Some ps => zlen (filter (fun t => tp_TurnID t ∈ ids /\ terminal (tp_Status t) = false
                                      /\ unanswered_echo t = false) (turns ps))
  | None => 0
  end.

Definition ApplyExternalExecutionState (now : Z) (backendID sessionID phase : string) (r : ProjectionReducer)
  : bool * ProjectionReducer :=
  if bool_decide (backendID = "") || bool_decide (sessionID = "") then (false, r)
  else
    let key := projectionSessionKey backendID sessionID in
    match r !! key with
    | None => (false, r)
    | Some ps => let '(ok, ps) := external_state now phase ps in (ok, <[key := ps]> r)
    end.

(** ** Restoring a checkpoint *)

(** The turn left open by [healProjectionTurnConsistency]. *)
Definition healed_active (s : SessionProjection) : string :=
  if one_of_words ["running"; "requires_action"] (ev_Phase (sp_Execution s))
  then ev_ActiveTurnID (sp_Execution s) else "".

Definition heal_turn (s : SessionProjection) (t : TurnProjection) : TurnProjection :=
  if open_other (healed_active s) t then
    let t := set_tp_Status "completed" t in
    let t := if negb (sp_UpdatedAt s =? 0) && (tp_CompletedAt t =? 0)
             then set_tp_CompletedAt (sp_UpdatedAt s) t else t in
    classify_turn true t
  else t.

Definition healProjectionTurnConsistency (s : SessionProjection) : SessionProjection :=
  set_sp_Turns (map (heal_turn s) (sp_Turns s)) s.

(** A copy of a card: its turn, its part, its rank. *)
Record copyLoc : Type := mkCopyLoc { cl_turnIdx : nat; cl_partIdx : nat; cl_rank : Z }.

(** [byInteraction[iid]]: the copies in the order of the projection. *)
Definition copies_in_parts (iid : string) (turnIdx : nat) (parts : list ProjectionPart) : list copyLoc :=
  omap (fun x => x) (imap (fun j p => if is_user_input iid p && negb (bool_decide (iid = ""))
                           then Some (mkCopyLoc turnIdx j (userInputPartRank p)) else None) parts).

Definition copies (iid : string) (s : SessionProjection) : list copyLoc :=
  concat (imap (fun i t => copies_in_parts iid i (assistant_parts t)) (sp_Turns s)).

(** [merged]: the copy of highest rank, the last of equals. *)
Definition best_loc (best loc : copyLoc) : copyLoc := if cl_rank loc >=? cl_rank best then loc else best.

(** [parts[i]] of the assistant message of a turn. *)
Definition part_at (s : SessionProjection) (loc : copyLoc) : option ProjectionPart :=
  sp_Turns s !! cl_turnIdx loc ≫= fun t => assistant_parts t !! cl_partIdx loc.

(** The parts of a turn's assistant message changed through an index in range. *)
Definition at_part (loc : copyLoc) (f : list ProjectionPart -> list ProjectionPart) (s : SessionProjection)
  : option SessionProjection :=
  match part_at s loc with
  | Some _ => Some (set_sp_Turns (alter (on_assistant_parts f) (cl_turnIdx loc) (sp_Turns s)) s)
  | None => None
  end.

Definition remove_part (s : option SessionProjection) (loc : copyLoc) : option SessionProjection :=
  s ≫= at_part loc (fun l => take (cl_partIdx loc) l ++ drop (S (cl_partIdx loc)) l).

(** The body of the loop over [byInteraction]: the copies were located before it. *)
Definition converge_copies (s : option SessionProjection) (locs : list copyLoc) : option SessionProjection :=
  match locs with
  | canonical :: other :: more =>
      let others := other :: more in
      s ≫= fun s =>
      part_at s (fold_left best_loc others canonical) ≫= fun merged =>
      fold_left remove_part (rev others) (at_part canonical (fun l => <[cl_partIdx canonical := merged]> l) s)
  | _ => s
  end.

(** [order] is the order in which the cards are visited. *)
Definition convergeUserInputCopiesInProjection (order : list string) (s : SessionProjection)
  : option SessionProjection :=
  fold_left converge_copies (map (fun iid => copies iid s) order) (Some s).

(** The registries of the restored session, filled in the order of the parts. *)
Definition register_part (turnID : string) (m : gmap string userInputPending * gmap string workflowPending)
    (p : ProjectionPart) : gmap string userInputPending * gmap string workflowPending :=
  let m := if bool_decide (pp_Type p = "user_input") && negb (bool_decide (pp_UserInputInteractionID p = ""))
           then (<[pp_UserInputInteractionID p := mkUserInputPending turnID p]> (fst m), snd m) else m in
  if bool_decide (pp_Type p = "workflow") && negb (bool_decide (pp_WorkflowID p = ""))
  then (fst m, <[pp_WorkflowID p := mkWorkflowPending turnID p]> (snd m)) else m.

Definition register_turn (m : gmap string userInputPending * gmap string workflowPending) (t : TurnProjection)
  : gmap string userInputPending * gmap string workflowPending :=
  fold_left (register_part (tp_TurnID t)) (assistant_parts t) m.

Definition restored_session (s : SessionProjection) : projectionSession :=
  let m := fold_left register_turn (sp_Turns s) (∅, ∅) in
  let published := list_to_set (filter (fun id => id <> "") (map tp_TurnID (sp_Turns s))) in
  mkSession s 0 (sp_SyncRev s) false published ∅ ∅ ∅ ∅ [] (fst m) (snd m) ∅ None None None None None None.

Definition Restore (order : list string) (backendID sessionID : string) (s : SessionProjection)
    (r : ProjectionReducer) : option ProjectionReducer :=
  if bool_decide (backendID = "") || bool_decide (sessionID = "") then Some r
  else
    let s := set_sp_SessionID sessionID (cloneSessionProjection s) in
    (fun s => <[projectionSessionKey backendID sessionID := restored_session s]> r) <$>
    convergeUserInputCopiesInProjection order (healProjectionTurnConsistency s).

(** ** Prepending history *)

Inductive PrependError : Type := ErrEmptyID | ErrNoSession | ErrEmptyTurnID (i : nat) | ErrDuplicateTurn (id : string).

(** The loop over the turns: what is prepared, or the error. *)
Fixpoint prepare_turns (i : nat) (existing : gset string) (l : list TurnProjection)
  : PrependError + list TurnProjection :=
  match l with
  | [] => inr []
  | t :: l =>
      if bool_decide (tp_TurnID t = "") then inl (ErrEmptyTurnID i)
      else if bool_decide (tp_TurnID t ∈ existing) then inl (ErrDuplicateTurn (tp_TurnID t))
      else
        let t' := if bool_decide (tp_Status t = "") then set_tp_Status "completed" t else t in
        match prepare_turns (S i) ({[tp_TurnID t]} ∪ existing ∖ {[""]}) l with
        | inl err => inl err
        | inr l => inr (t' :: l)
        end
  end.

(** [PrependHistoricalTurns] on the session, for turns that are not empty. *)
Definition prepend_turns (l : list TurnProjection) (ps : projectionSession)
  : PrependError + projectionSession :=
  match prepare_turns 0 (list_to_set (filter (fun id => id <> "") (map tp_TurnID (turns ps)))) (map cloneTurn l) with
  | inl err => inl err
  | inr prepared =>
      let p := set_sp_SyncRev (sp_SyncRev (projection ps) + 1)
                 (set_sp_Turns (prepared ++ turns ps) (projection ps)) in
      inr (set_lastFlushedRev (sp_SyncRev p)
             (set_publishedTurnShells (publishedTurnShells ps ∪ list_to_set (map tp_TurnID prepared))
                (set_projection p ps)))
  end.

Definition PrependHistoricalTurns (backendID sessionID : string) (l : list TurnProjection)
    (r : ProjectionReducer) : (PrependError + SessionProjection) * ProjectionReducer :=
  if bool_decide (backendID = "") || bool_decide (sessionID = "") then (inl ErrEmptyID, r)
  else
    let key := projectionSessionKey backendID sessionID in
    match r !! key with
    | None => (inl ErrNoSession, r)
    | Some ps =>
        match l with
        | [] => (inr (cloneSessionProjection (projection ps)), r)
        | _ =>
            match prepend_turns l ps with
            | inl err => (inl err, r)
            | inr ps => (inr (cloneSessionProjection (projection ps)), <[key := ps]> r)
            end
        end
    end.

(** ** Moving a session between reducers *)

Definition cloneProjectionSessionState (ps : projectionSession) : projectionSession :=
  let clone_tool t := mkToolPending (tpd_turnID t) (cloneProjectionPart (tpd_part t)) in
  let clone_input u := mkUserInputPending (ui_turnID u) (cloneProjectionPart (ui_part u)) in
  let clone_workflow w := mkWorkflowPending (wf_turnID w) (cloneProjectionPart (wf_part w)) in
  mkSession (cloneSessionProjection (projection ps)) (lastAppliedRev ps) (lastFlushedRev ps)
    (largePatchObserved ps) (publishedTurnShells ps) (textAppends ps) (thinking ps)
    (clone_tool <$> tools ps) (cloneTurn <$> upsertTurns ps) []
    (clone_input <$> userInputs ps) (clone_workflow <$> workflows ps) (permissionCards ps)
    (execution ps) (planMode ps) (sessionMode ps) (collaborationMode ps)
    ((fun v => mkCodexGoalView (cloneGoalRecord <$> cg_Goal v)) <$> codexGoal ps) (goal ps).

Definition cloneSessionReducer (backendID sessionID : string) (r : ProjectionReducer) : ProjectionReducer :=
  let key := projectionSessionKey backendID sessionID in
  match r !! key with
  | Some ps => {[key := cloneProjectionSessionState ps]}
  | None => ∅
  end.

Definition swapSessionFrom (backendID sessionID : string) (source r : ProjectionReducer) : ProjectionReducer :=
  let key := projectionSessionKey backendID sessionID in
  match source !! key with
  | Some ps => <[key := cloneProjectionSessionState ps]> r
  | None => delete key r
  end.
