(* ===== verification/ReducerSize.v ===== *)
(** * The size guard of a patch (go-bridge/projection_reducer.go)

    [PendingPatchExceeds] walks the turns a patch would carry with a budget it
    counts down, and stops as soon as the budget is spent. It answers what a plain
    sum of the lengths would. *)

From S2P Require Import Prelude.
From S2P Require Import Wire.
From S2P Require Import Projection.
From S2P Require Import ProjectionFields.
From S2P Require Import ReducerParts.
From S2P Require Import Reducer.

(** ** The walk *)

(** A step of the walk: from the budget, whether to stop and the budget left. *)
Abbreviation walk := (Z -> bool * Z).

Definition slen (s : string) : Z := Z.of_nat (String.length s).

Definition consume (s : string) : walk := fun budget => let budget := budget - slen s in (budget <=? 0, budget).

(** [a || b] *)
Definition or_then (f g : walk) : walk := fun budget =>
  let '(stop, budget) := f budget in if stop then (true, budget) else g budget.

(** A loop that returns at the first stop. *)
Definition each {A : Type} (f : A -> walk) : list A -> walk :=
  fix go l budget :=
    match l with
    | [] => (false, budget)
    | x :: l => let '(stop, budget) := f x budget in if stop then (true, budget) else go l budget
    end.

(** [budget <= 0] *)
Definition spent : walk := fun budget => (budget <=? 0, budget).

(** A []byte is a string of its length, a []string an array of strings, and a
    map[string]string a map of strings; the order of a map does not matter. *)
Fixpoint projectionValueExceeds (v : value) : walk := fun budget =>
  if budget <=? 0 then (true, budget)
  else
    match v with
    | VNil => (false, budget)
    | VString s => consume s budget
    | VArray items => or_then (each projectionValueExceeds items) spent budget
    | VMap fields =>
        or_then (each (fun e => or_then (consume (fst e)) (projectionValueExceeds (snd e))) fields) spent budget
    | _ => spent budget
    end.

Definition part_strings (p : ProjectionPart) : list string :=
  [pp_Type p; pp_Text p; pp_Presentation p; pp_ItemID p; pp_ToolName p; pp_ToolStatus p; pp_Title p; pp_Path p;
   pp_Kind p; pp_Diff p; pp_MovePath p; pp_AgentID p; pp_ParentAgentID p; pp_SpawnToolUseID p; pp_SubagentType p;
   pp_SubagentStatus p; pp_SubagentError p; pp_SubagentDiagnostic p; pp_UserInputInteractionID p;
   pp_UserInputStatus p; pp_UserInputResolutionSource p; pp_UserInputDiagnosticCode p].

Definition part_values (p : ProjectionPart) : list value :=
  [pp_ToolInput p; pp_ToolResult p; pp_Matches p; pp_FileChanges p; pp_FileDisplay p; pp_EditRegions p;
   pp_DetailUnavailable p; pp_ActivityActions p; pp_UserInputQuestions p].

Fixpoint consumePart (p : ProjectionPart) : walk := fun budget =>
  or_then (each consume (part_strings p))
    (or_then (each consumePart (pp_SubagentBlocks p))
       (or_then (each projectionValueExceeds (part_values p))
          (or_then (each consume (pp_PermissionActions p))
             (or_then (each consume (pp_PermissionPatterns p)) spent)))) budget.

Definition consumeMessage (m : option MessageProjection) : walk := fun budget =>
  match m with
  | None => (false, budget)
  | Some m => or_then (each consume [mp_ID m; mp_ClientID m; mp_Role m]) (each consumePart (mp_Parts m)) budget
  end.

Definition projectionTurnExceeds (t : TurnProjection) (limit : Z) : bool :=
  fst (or_then (each consume [tp_TurnID t; tp_Status t])
         (or_then (each consumeMessage [tp_User t; tp_Assistant t; tp_System t])
            (or_then (projectionValueExceeds (tp_FileChanges t)) spent)) limit).

(** The turns a flush would copy whole. *)
Definition pending_turns (ps : projectionSession) : list TurnProjection :=
  map snd (map_to_list (upsertTurns ps))
  ++ (if bool_decide (tools ps = ∅) then [] else match the_turn (activeTurnID ps) ps with Some t => [t] | None => [] end)
  ++ omap (fun u => the_turn (ui_turnID u) ps) (map snd (map_to_list (userInputs ps))).

Definition pending_exceeds (limit : Z) (ps : projectionSession) : bool * projectionSession :=
  if bool_decide (tools ps = ∅) && bool_decide (userInputs ps = ∅) && bool_decide (upsertTurns ps = ∅) then (false, ps)
  else if largePatchObserved ps then (true, ps)
  else if existsb (fun t => projectionTurnExceeds t limit) (pending_turns ps) then (true, set_largePatchObserved true ps)
  else (false, ps).

Definition PendingPatchExceeds (backendID sessionID : string) (limit : Z) (r : ProjectionReducer)
  : bool * ProjectionReducer :=
  if limit <=? 0 then (false, r)
  else
    let key := projectionSessionKey backendID sessionID in
    match r !! key with
    | None => (false, r)
    | Some ps => let '(big, ps) := pending_exceeds limit ps in (big, <[key := ps]> r)
    end.

(** ** The sum *)

Definition strings_size (l : list string) : Z := fold_right (fun s n => slen s + n) 0 l.

Fixpoint value_size (v : value) : Z :=
  match v with
  | VString s => slen s
  | VArray items => fold_right (fun v n => value_size v + n) 0 items
  | VMap fields => fold_right (fun e n => slen (fst e) + value_size (snd e) + n) 0 fields
  | _ => 0
  end.

Fixpoint part_size (p : ProjectionPart) : Z :=
  strings_size (part_strings p) + fold_right (fun p n => part_size p + n) 0 (pp_SubagentBlocks p)
  + fold_right (fun v n => value_size v + n) 0 (part_values p)
  + strings_size (pp_PermissionActions p) + strings_size (pp_PermissionPatterns p).

Definition message_size (m : option MessageProjection) : Z :=
  match m with
  | None => 0
  | Some m => strings_size [mp_ID m; mp_ClientID m; mp_Role m] + fold_right (fun p n => part_size p + n) 0 (mp_Parts m)
  end.

Definition turn_size (t : TurnProjection) : Z :=
  strings_size [tp_TurnID t; tp_Status t] + message_size (tp_User t) + message_size (tp_Assistant t)
  + message_size (tp_System t) + value_size (tp_FileChanges t).

(** ** The walk is the sum *)

(** From a budget, the walk stops when the sum reaches it and otherwise leaves the rest. *)
Definition walks (f : walk) (n : Z) : Prop :=
  0 <= n /\ forall b, 0 < b -> if b <=? n then fst (f b) = true else f b = (false, b - n).

Lemma walks_consume s : walks (consume s) (slen s).
Proof.
  split; [unfold slen; lia|]. intros b Hb. unfold consume. destruct (b <=? slen s) eqn:E; simpl.
  - apply Z.leb_le in E. apply Z.leb_le. lia.
  - apply Z.leb_gt in E. f_equal. apply Z.leb_gt. lia.
Qed.

Lemma walks_spent : walks spent 0.
Proof. split; [lia|]. intros b Hb. unfold spent. rewrite (proj2 (Z.leb_gt b 0)) by lia. f_equal. lia. Qed.

Lemma walks_or f g n m : walks f n -> walks g m -> walks (or_then f g) (n + m).
Proof.
  intros [Hn Hf] [Hm Hg]. split; [lia|]. intros b Hb. specialize (Hf b Hb). unfold or_then.
  destruct (b <=? n) eqn:E1.
  - apply Z.leb_le in E1. rewrite (proj2 (Z.leb_le b (n + m))) by lia. destruct (f b) as [[] ?]; done.
  - rewrite Hf. apply Z.leb_gt in E1. specialize (Hg (b - n) ltac:(lia)).
    destruct (b <=? n + m) eqn:E2.
    + apply Z.leb_le in E2. by rewrite (proj2 (Z.leb_le (b - n) m)) in Hg by lia.
    + apply Z.leb_gt in E2. rewrite (proj2 (Z.leb_gt (b - n) m)) in Hg by lia. rewrite Hg. f_equal. lia.
Qed.

Lemma walks_each {A : Type} (f : A -> walk) (size : A -> Z) l :
  Forall (fun x => walks (f x) (size x)) l -> walks (each f l) (fold_right (fun x n => size x + n) 0 l).
Proof.
  intros H. induction H as [|x l Hx _ IH]; [|exact (walks_or (f x) (each f l) _ _ Hx IH)].
  split; [simpl; lia|]. intros b Hb. simpl. rewrite (proj2 (Z.leb_gt b 0)) by lia. f_equal. lia.
Qed.

Lemma walks_ext f g n m : (forall b, 0 < b -> f b = g b) -> n = m -> walks f n -> walks g m.
Proof. intros Hfg <- [Hn Hf]. split; [done|]. intros b Hb. rewrite <- (Hfg b Hb). by apply Hf. Qed.

Lemma walks_strings l : walks (each consume l) (strings_size l).
Proof. apply (walks_each consume slen), Forall_true. intros s. apply walks_consume. Qed.

(** The guard at the head of [projectionValueExceeds] never fires while there is
    budget left. *)
Lemma walks_value v : walks (projectionValueExceeds v) (value_size v).
Proof.
  assert (forall (f : walk) n, walks f n -> walks (fun b => if b <=? 0 then (true, b) else f b) n) as Hg.
  { intros f n. apply walks_ext; [|done]. intros b Hb. cbv beta. by rewrite (proj2 (Z.leb_gt b 0)) by lia. }
  assert (walks (fun b => if b <=? 0 then (true, b) else spent b) 0) as Hs by apply Hg, walks_spent.
  induction v as [|s| | | |fields IH|items IH] using value_nested_ind; [|by apply Hg, walks_consume|exact Hs..| |].
  - apply (Hg (fun b => (false, b))). split; [done|]. intros b Hb. cbn [value_size]. rewrite (proj2 (Z.leb_gt b 0)) by lia. f_equal. lia.
  - apply Hg. rewrite <- (Z.add_0_r (value_size _)). apply walks_or; [|apply walks_spent].
    apply (walks_each _ (fun e => slen (fst e) + value_size (snd e))). eapply Forall_impl; [exact IH|].
    intros e He. apply walks_or; [apply walks_consume|exact He].
  - apply Hg. rewrite <- (Z.add_0_r (value_size _)). apply walks_or; [|apply walks_spent]. by apply walks_each.
Qed.

Fixpoint walks_part (p : ProjectionPart) : walks (consumePart p) (part_size p).
Proof.
  assert (walks (each consumePart (pp_SubagentBlocks p)) (fold_right (fun p n => part_size p + n) 0 (pp_SubagentBlocks p))) as Hb.
  { apply walks_each. destruct p; simpl.
    match goal with |- Forall _ ?l => induction l as [|b bs IH] end; constructor; [apply walks_part|exact IH]. }
  pose proof (walks_strings (part_strings p)) as Hs.
  assert (walks (each projectionValueExceeds (part_values p)) (fold_right (fun v n => value_size v + n) 0 (part_values p))) as Hv
    by (apply walks_each, Forall_true, walks_value).
  pose proof (walks_strings (pp_PermissionActions p)) as Ha. pose proof (walks_strings (pp_PermissionPatterns p)) as Hp.
  pose proof (walks_or _ _ _ _ Hs (walks_or _ _ _ _ Hb (walks_or _ _ _ _ Hv (walks_or _ _ _ _ Ha (walks_or _ _ _ _ Hp walks_spent))))) as H.
  revert H. apply walks_ext; [by destruct p|]. destruct p; cbn [part_size]. lia.
Qed.

Lemma walks_message m : walks (consumeMessage m) (message_size m).
Proof.
  destruct m as [m|].
  - apply walks_or; [apply walks_strings|]. apply walks_each, Forall_true, walks_part.
  - split; [done|]. intros b Hb. simpl. rewrite (proj2 (Z.leb_gt b 0)) by lia. f_equal. lia.
Qed.

Lemma turn_exceeds_size t limit : 0 < limit -> projectionTurnExceeds t limit = (limit <=? turn_size t).
Proof.
  intros Hl. pose proof (walks_strings [tp_TurnID t; tp_Status t]) as Hs.
  assert (walks (each consumeMessage [tp_User t; tp_Assistant t; tp_System t])
    (fold_right (fun m n => message_size m + n) 0 [tp_User t; tp_Assistant t; tp_System t])) as Hm
    by (apply walks_each, Forall_true, walks_message).
  destruct (walks_or _ _ _ _ Hs (walks_or _ _ _ _ Hm (walks_or _ _ _ _ (walks_value (tp_FileChanges t)) walks_spent))) as [_ H].
  specialize (H limit Hl). unfold projectionTurnExceeds.
  match type of H with (if limit <=? ?n then _ else _) => assert (n = turn_size t) as Hn by (unfold turn_size; cbn [fold_right]; lia) end.
  rewrite Hn in H. destruct (limit <=? turn_size t); [exact H|by rewrite H].
Qed.

(** The size guard is a sum: with a positive limit, a pending patch is reported
    large exactly when one of the turns it would copy whole weighs at least the
    limit, all its strings and values added up in whatever order the maps are
    walked, or when one did since the flag was last cleared; it never is when no
    turn would be copied. The flag is all that changes. *)
Theorem PendingPatchExceeds_sum backendID sessionID limit r ps :
  0 < limit -> r !! projectionSessionKey backendID sessionID = Some ps ->
  exists big, PendingPatchExceeds backendID sessionID limit r =
      (big, <[projectionSessionKey backendID sessionID := set_largePatchObserved (largePatchObserved ps || big) ps]> r) /\
    (big = true <->
      (tools ps <> ∅ \/ userInputs ps <> ∅ \/ upsertTurns ps <> ∅) /\
      (largePatchObserved ps = true \/ exists t, t ∈ pending_turns ps /\ limit <= turn_size t)).
Proof.
  intros Hl Hr. unfold PendingPatchExceeds. rewrite (proj2 (Z.leb_gt limit 0)) by lia. cbv zeta. rewrite Hr.
  assert (set_largePatchObserved (largePatchObserved ps) ps = ps) as Hsame by (by destruct ps).
  unfold pending_exceeds. destruct (bool_decide (tools ps = ∅) && _ && _) eqn:E.
  - exists false. rewrite orb_false_r, Hsame. split; [done|]. zprop. split; [done|]. intros [Hx _]. naive_solver.
  - assert (tools ps <> ∅ \/ userInputs ps <> ∅ \/ upsertTurns ps <> ∅) as Hne.
    { apply andb_false_iff in E as [E|E]; [|zprop; auto]. apply andb_false_iff in E as [E|E]; zprop; auto. }
    destruct (largePatchObserved ps) eqn:El.
    + exists true. cbn [orb]. split; [by rewrite Hsame|]. split; auto.
    + destruct (existsb _ (pending_turns ps)) eqn:Ex.
      * exists true. split; [done|]. split; [|done]. intros _. split; [done|]. right.
        apply existsb_exists in Ex as (t & Ht & Hx). rewrite turn_exceeds_size in Hx by done. exists t.
        split; [by apply list_elem_of_In|]. by apply Z.leb_le.
      * exists false. cbn [orb]. split; [by rewrite Hsame|]. split; [done|]. intros [_ [?|(t & Ht & Hx)]]; [done|].
        assert (existsb (fun t => projectionTurnExceeds t limit) (pending_turns ps) = true); [|congruence].
        apply existsb_exists. exists t. split; [by apply list_elem_of_In|]. rewrite turn_exceeds_size by done. by apply Z.leb_le.
Qed.

(** A pending tool card of a turn that weighs seven bytes and more. *)
Lemma PendingPatchExceeds_sum_witness :
  let ps := upsertTurn (turn0 "t1" "running") (new_session "s") in
  let r : ProjectionReducer := {[projectionSessionKey "codex" "s" := ps]} in
  turn_size (turn0 "t1" "running") = 9 /\
  (exists r', PendingPatchExceeds "codex" "s" 9 r = (true, r')) /\
  exists r', PendingPatchExceeds "codex" "s" 10 r = (false, r').
Proof.
  intros ps r. assert (lookup (projectionSessionKey "codex" "s") r = Some ps) as Hr by (apply lookup_singleton_eq).
  split; [vm_compute; reflexivity|]. split.
  - destruct (PendingPatchExceeds_sum "codex" "s" 9 r ps ltac:(lia) Hr) as (big & H & Hb).
    assert (fst (PendingPatchExceeds "codex" "s" 9 r) = true) as Hf by (vm_compute; reflexivity).
    rewrite H in Hf. simpl in Hf. subst big. eexists. exact H.
  - destruct (PendingPatchExceeds_sum "codex" "s" 10 r ps ltac:(lia) Hr) as (big & H & Hb).
    assert (fst (PendingPatchExceeds "codex" "s" 10 r) = false) as Hf by (vm_compute; reflexivity).
    rewrite H in Hf. simpl in Hf. subst big. eexists. exact H.
Defined.
