(* ===== verification/TurnDetail.v ===== *)
(** * Commits to the detail of a turn
    (go-bridge/projection_turn_state.go, projection_detail_merge.go,
    turn_detail_chunks.go, turn_detail_kernel_commit.go)

    The state of a turn's detail (not requested, loading, partial, loaded, failed),
    the batches of both protocol versions that move it, the merge of a fetched
    detail, and the recovery of loads whose leader died. Every commit first drains
    the pending delta, so that its revision strands nothing. An error is named by
    the sentinel it wraps. *)

From S2P Require Import Prelude.
From S2P Require Import Wire.
From S2P Require Import Projection.
From S2P Require Import ProjectionFields.
From S2P Require Import ReducerParts.
From S2P Require Import Reducer.
From S2P Require Import ReducerPatch.

Inductive DetailError : Type :=
| ErrTurnStateInvalid
| ErrTurnStateStale
| ErrDetailTargetMissing
| ErrDetailTargetRunning
| ErrProjectionPrependInvalid.

#[export] Instance DetailError_eq_dec : EqDecision DetailError.
Proof. solve_decision. Defined.

Definition DetailStateNotRequested : string := "".
Definition DetailStateLoading : string := "loading".
Definition DetailStateLoaded : string := "loaded".
Definition DetailStateFailed : string := "failed".
Definition DetailStatePartial : string := "partial".
Definition ReasonCodePageOversize : string := "page_oversize".

Definition TurnStateReasonCodes : list string :=
  ["upstream_error"; "unsupported_item_type"; "max_pages"; "max_bytes"; "timeout"; "stale_turn"; "interrupted"].
Definition TurnDetailChunksReasonCodes : list string :=
  ["upstream_error"; "timeout"; "stale_turn"; "interrupted"; "unsupported_item_type"; ReasonCodePageOversize].

(** ** Validation *)

(** The [switch] on the state, for the states and the codes of a version. *)
Definition valid_state (codes quiet : list string) (op : TurnStateOp) : bool :=
  if bool_decide (ts_DetailLoadState op = DetailStateFailed)
  then negb (bool_decide (ts_ReasonCode op = "")) && one_of_words codes (ts_ReasonCode op)
  else if one_of_words quiet (ts_DetailLoadState op) then bool_decide (ts_ReasonCode op = "")
  else false.

Definition valid_op (op : TurnStateOp) : bool :=
  negb (bool_decide (ts_TurnID op = "")) && negb (ts_TurnGeneration op <? 0)
  && valid_state TurnStateReasonCodes [DetailStateLoading; DetailStateLoaded] op.

Definition valid_op_v2 (op : TurnStateOp) : bool :=
  negb (bool_decide (ts_TurnID op = "")) && negb (ts_TurnGeneration op <? 0)
  && negb ((ts_ManifestRev op <? 0) || (ts_ItemCount op <? 0) || (ts_TotalBytes op <? 0))
  && negb ((ts_ItemCount op >? 0) && (ts_ManifestRev op <=? 0))
  && valid_state TurnDetailChunksReasonCodes [DetailStateLoading; DetailStatePartial; DetailStateLoaded] op.

(** Whether the batch passes; every violation is [ErrTurnStateInvalid]. *)
Definition ValidateTurnStateOps (ops : list TurnStateOp) : bool := forallb valid_op ops.
Definition ValidateTurnStateOpsV2 (ops : list TurnStateOp) : bool := forallb valid_op_v2 ops.

(** ** Applying a batch *)

(** [index]: the turns by identifier, the last of equals. *)
Definition index_of (l : list TurnProjection) : gmap string nat :=
  fold_left (fun m e => <[tp_TurnID (snd e) := fst e]> m) (imap pair l) ∅.

Definition check_op (op : TurnStateOp) (cur : TurnProjection) : option DetailError :=
  if negb (tp_TurnGeneration cur =? ts_TurnGeneration op) then Some ErrTurnStateStale else None.

Definition check_op_v2 (op : TurnStateOp) (cur : TurnProjection) : option DetailError :=
  if negb (tp_TurnGeneration cur =? ts_TurnGeneration op) then Some ErrTurnStateStale
  else if (ts_ManifestRev op <? tp_DetailManifestRev cur) || (ts_ItemCount op <? tp_DetailItemCount cur)
          || (ts_TotalBytes op <? tp_DetailTotalBytes cur) then Some ErrTurnStateInvalid
  else if bool_decide (tp_DetailLoadState cur = DetailStateLoaded)
          && negb (bool_decide (ts_DetailLoadState op = DetailStateLoaded) && (ts_ManifestRev op =? tp_DetailManifestRev cur))
  then Some ErrTurnStateInvalid
  else None.

(** The loop that checks the batch against the projection: the mutations, or the
    first error. *)
Fixpoint plan (check : TurnStateOp -> TurnProjection -> option DetailError) (index : gmap string nat)
    (l : list TurnProjection) (ops : list TurnStateOp) : DetailError + list (nat * TurnStateOp) :=
  match ops with
  | [] => inr []
  | op :: ops =>
      match index !! ts_TurnID op ≫= fun at_ => (fun t => (at_, t)) <$> l !! at_ with
      | None => inl ErrTurnStateInvalid
      | Some (at_, cur) =>
          match check op cur with
          | Some err => inl err
          | None =>
              match plan check index l ops with
              | inl err => inl err
              | inr muts => inr ((at_, op) :: muts)
              end
          end
      end
  end.

Definition mutate (op : TurnStateOp) (t : TurnProjection) : TurnProjection :=
  set_tp_DetailReasonCode (ts_ReasonCode op) (set_tp_DetailLoadState (ts_DetailLoadState op) t).

Definition mutate_v2 (op : TurnStateOp) (t : TurnProjection) : TurnProjection :=
  set_tp_DetailTotalBytes (ts_TotalBytes op) (set_tp_DetailItemCount (ts_ItemCount op)
    (set_tp_DetailManifestRev (ts_ManifestRev op) (mutate op t))).

Definition apply_batch (valid : list TurnStateOp -> bool) (check : TurnStateOp -> TurnProjection -> option DetailError)
    (mut : TurnStateOp -> TurnProjection -> TurnProjection) (s : SessionProjection) (ops : list TurnStateOp)
  : DetailError + SessionProjection :=
  if negb (valid ops) then inl ErrTurnStateInvalid
  else
    match plan check (index_of (sp_Turns s)) (sp_Turns s) ops with
    | inl err => inl err
    | inr muts => inr (set_sp_Turns (fold_left (fun l m => alter (mut (snd m)) (fst m) l) muts (sp_Turns s)) s)
    end.

Definition ApplyTurnStateOps : SessionProjection -> list TurnStateOp -> DetailError + SessionProjection :=
  apply_batch ValidateTurnStateOps check_op mutate.
Definition ApplyTurnStateOpsV2 : SessionProjection -> list TurnStateOp -> DetailError + SessionProjection :=
  apply_batch ValidateTurnStateOpsV2 check_op_v2 mutate_v2.

Definition EffectiveDetailLoadState (t : TurnProjection) : string :=
  if bool_decide (tp_DetailLoadState t = DetailStateNotRequested) then "notRequested" else tp_DetailLoadState t.

(** ** Commits *)

(** The next revision, with the fence at it. *)
Definition fence_commit (ps : projectionSession) : projectionSession :=
  let rev := sp_SyncRev (projection ps) + 1 in
  set_lastFlushedRev rev (set_projection (set_sp_SyncRev rev (projection ps)) ps).

Definition commit_patch (ops : list TurnStateOp) (partOps : list PartOp) (ps : projectionSession) : ProjectionPatch :=
  let base := sp_SyncRev (projection ps) in
  mkProjectionPatch base (base + 1) None [] partOps ops [] [] None None None None None.

(** What every commit does once the projection has changed: the pending delta goes
    out first. *)
Definition drain_and_commit (ops : list TurnStateOp) (partOps : list PartOp) (ps : projectionSession)
  : list ProjectionPatch * projectionSession :=
  let '(live, ps) := flushLocked ps in
  (match live with Some p => [p] | None => [] end ++ [commit_patch ops partOps ps], fence_commit ps).

Definition commit_batch (apply : SessionProjection -> list TurnStateOp -> DetailError + SessionProjection)
    (ops : list TurnStateOp) (ps : projectionSession) : DetailError + (list ProjectionPatch * projectionSession) :=
  match apply (projection ps) ops with
  | inl err => inl err
  | inr s => inr (drain_and_commit ops [] (set_projection s ps))
  end.

Definition messageID (t : TurnProjection) : string :=
  match tp_Assistant t with Some m => or_else (mp_ID m) (tp_TurnID t) | None => tp_TurnID t end.

(** What the merge makes of its target. *)
Definition merge_target (detailParts : list ProjectionPart) (t : TurnProjection) : TurnProjection :=
  let t := match tp_Assistant t, detailParts with
           | None, _ :: _ => set_tp_Assistant (Some (message0 (messageID t) "assistant")) t
           | _, _ => t
           end in
  let t := match detailParts with [] => t | _ => on_assistant_parts (fun _ => map cloneProjectionPart detailParts) t end in
  set_tp_DetailTotalBytes 0 (set_tp_DetailItemCount 0 (set_tp_DetailManifestRev 0
    (set_tp_TurnGeneration (tp_TurnGeneration t + 1)
      (set_tp_DetailReasonCode "" (set_tp_DetailLoadState DetailStateLoaded t))))).

Definition replace_op (turnID message : string) (detailParts : list ProjectionPart) : list PartOp :=
  match detailParts with
  | [] => []
  | _ => [mkPartOp turnID message "replace_parts" "" "" None (map cloneProjectionPart detailParts)]
  end.

Definition merge_detail (turnID : string) (generation : Z) (detailParts : list ProjectionPart)
    (ps : projectionSession) : DetailError + (list ProjectionPatch * projectionSession) :=
  match turnByID turnID ps ≫= fun i => (fun t => (i, t)) <$> turns ps !! i with
  | None => inl ErrDetailTargetMissing
  | Some (i, t) =>
      if negb (bool_decide (tp_Status t = "completed")) then inl ErrDetailTargetRunning
      else if negb (tp_TurnGeneration t =? generation) then inl ErrTurnStateStale
      else
        let op := mkTurnStateOp turnID DetailStateLoaded "" (tp_TurnGeneration t + 1) 0 0 0 in
        inr (drain_and_commit [op] (replace_op turnID (messageID t) detailParts)
               (at_turn i (merge_target detailParts) ps))
  end.

(** The commit on the reducer: the projection and the chain of patches. *)
Definition on_session (backendID sessionID : string)
    (f : projectionSession -> DetailError + (list ProjectionPatch * projectionSession)) (r : ProjectionReducer)
  : (DetailError + (SessionProjection * list ProjectionPatch)) * ProjectionReducer :=
  let key := projectionSessionKey backendID sessionID in
  match r !! key with
  | None => (inl ErrProjectionPrependInvalid, r)
  | Some ps =>
      match f ps with
      | inl err => (inl err, r)
      | inr (patches, ps) => (inr (cloneSessionProjection (projection ps), patches), <[key := ps]> r)
      end
  end.

Definition MergeHistoricalTurnDetail (backendID sessionID turnID : string) (generation : Z)
    (detailParts : list ProjectionPart) (r : ProjectionReducer) :=
  if bool_decide (backendID = "") || bool_decide (sessionID = "") || bool_decide (turnID = "")
  then (inl ErrProjectionPrependInvalid, r)
  else on_session backendID sessionID (merge_detail turnID generation detailParts) r.

Definition CommitTurnStateOps (backendID sessionID : string) (ops : list TurnStateOp) (r : ProjectionReducer) :=
  match ops with
  | [] => (inl ErrTurnStateInvalid, r)
  | _ => on_session backendID sessionID (commit_batch ApplyTurnStateOps ops) r
  end.

Definition CommitTurnStateOpsV2 (backendID sessionID : string) (ops : list TurnStateOp) (r : ProjectionReducer) :=
  match ops with
  | [] => (inl ErrTurnStateInvalid, r)
  | _ => on_session backendID sessionID (commit_batch ApplyTurnStateOpsV2 ops) r
  end.

(** ** Orphans *)

Definition orphan_op (t : TurnProjection) : TurnStateOp :=
  mkTurnStateOp (tp_TurnID t) DetailStateFailed "interrupted" (tp_TurnGeneration t) 0 0 0.
Definition orphan_op_v2 (t : TurnProjection) : TurnStateOp :=
  mkTurnStateOp (tp_TurnID t) DetailStateFailed "interrupted" (tp_TurnGeneration t)
    (tp_DetailManifestRev t) (tp_DetailItemCount t) (tp_DetailTotalBytes t).

Definition recover (apply : SessionProjection -> list TurnStateOp -> DetailError + SessionProjection)
    (op_of : TurnProjection -> TurnStateOp) (s : SessionProjection) : bool * SessionProjection :=
  match map op_of (filter (fun t => tp_DetailLoadState t = DetailStateLoading) (sp_Turns s)) with
  | [] => (false, s)
  | ops =>
      match apply s ops with
      | inl _ => (false, s)
      | inr s' => (true, set_sp_SyncRev (sp_SyncRev s' + 1) s')
      end
  end.

Definition RecoverOrphanDetailLoading : SessionProjection -> bool * SessionProjection :=
  recover ApplyTurnStateOps orphan_op.
Definition RecoverOrphanDetailLoadingV2 : SessionProjection -> bool * SessionProjection :=
  recover ApplyTurnStateOpsV2 orphan_op_v2.
