(* ===== verification/DetailChunks.v ===== *)
(** * Cutting turn detail into frames (go-bridge/turn_detail_chunks.go)

    The boundary table of a long output, cut so that each piece is a whole number
    of characters and fits its frame once escaped, and the packing of the entries
    of a page into frames. *)

From S2P Require Import Prelude.
From S2P Require Import GoText.
From S2P Require Import Wire.
From S2P Require Import Projection.
From S2P Require Import ProjectionFields.

(** [core.TurnDetailChunkTargetBytes], [TurnDetailChunkAdvisoryCapBytes] and
    [TurnDetailPatchHardCapBytes] *)
Definition TurnDetailChunkTargetBytes : Z := 128 * 1024.
Definition TurnDetailChunkAdvisoryCapBytes : Z := 256 * 1024.
Definition TurnDetailPatchHardCapBytes : Z := 512 * 1024.

(** ** UTF-8 *)

Definition cont (b : Z) : bool := within 128 191 b.

(** The width of the first character, [None] when its bytes are not UTF-8 (Go then
    reads one byte as the replacement character). *)
Definition rune_width (s : list Z) : option nat :=
  match s with
  | [] => None
  | b :: s =>
      if within 0 127 b then Some 1%nat
      else match s with
           | c1 :: s =>
               if within 194 223 b then if cont c1 then Some 2%nat else None
               else match s with
                    | c2 :: s =>
                        if within 224 239 b
                        then if within (if b =? 224 then 160 else 128) (if b =? 237 then 159 else 191) c1 && cont c2
                             then Some 3%nat else None
                        else match s with
                             | c3 :: _ =>
                                 if within 240 244 b
                                    && within (if b =? 240 then 144 else 128) (if b =? 244 then 143 else 191) c1
                                    && cont c2 && cont c3
                                 then Some 4%nat else None
                             | [] => None
                             end
                    | [] => None
                    end
           | [] => None
           end
  end.

(** [utf8.RuneStart] *)
Definition RuneStart (b : Z) : bool := negb (Z.land b 192 =? 128).

(** [utf8.ValidString], by characters. *)
Inductive valid_utf8 : list Z -> Prop :=
| valid_nil : valid_utf8 []
| valid_rune (r s : list Z) : rune_width (r ++ s) = Some (length r) -> valid_utf8 s -> valid_utf8 (r ++ s).

(** ** Escaping *)

(** What [json.Marshal] writes for an ASCII character: HTML characters and most
    controls as six bytes. *)
Definition escaped_ascii (b : Z) : Z :=
  if (b =? 34) || (b =? 92) || (b =? 8) || (b =? 12) || (b =? 10) || (b =? 13) || (b =? 9) then 2
  else if (b <? 32) || (b =? 60) || (b =? 62) || (b =? 38) then 6
  else 1.

(** U+2028 and U+2029 *)
Definition line_separator (s : list Z) : bool :=
  match s with b :: c1 :: c2 :: _ => (b =? 226) && (c1 =? 128) && within 168 169 c2 | _ => false end.

(** A wider character is itself but for the two line separators. *)
Definition escaped_rune (s : list Z) (n : nat) : Z :=
  if line_separator s then 6
  else match s with b :: _ => if within 0 127 b then escaped_ascii b else Z.of_nat n | [] => 0 end.

(** A character a step: the length of the text is enough fuel. *)
Fixpoint escaped_length (fuel : nat) (s : list Z) : Z :=
  match fuel, s with
  | S fuel, _ :: s' =>
      match rune_width s with
      | Some n => escaped_rune s n + escaped_length fuel (drop n s)
      | None => 6 + escaped_length fuel s'
      end
  | _, _ => 0
  end.
Definition jsonEscapedLen (s : list Z) : Z := escaped_length (length s) s.

(** ** The boundary table *)

(** [s[a:b]] *)
Definition slice (s : list Z) (a b : nat) : list Z := take (b - a) (drop a s).

Fixpoint alignBackToRuneStart (s : list Z) (cut : nat) : nat :=
  match cut with
  | O => O
  | S cut' => if (cut <? length s)%nat && negb (RuneStart (nth cut s 0)) then alignBackToRuneStart s cut' else cut
  end.

Section Offsets.
Context (target : nat) (advisory : Z).

(** The width of [[]rune(s[start:start+1])[0]]: an ASCII byte, or the replacement
    character a lone byte of a wider one is read as. *)
Definition lone_rune_len (b : Z) : nat := if within 0 127 b then 1 else 3.

Definition first_cut (s : list Z) (start : nat) : nat :=
  let cut := (start + target)%nat in
  if (length s <=? cut)%nat then length s
  else
    let cut := alignBackToRuneStart s cut in
    if (cut <=? start)%nat then Nat.min (start + lone_rune_len (nth start s 0)) (length s) else cut.

(** The loop that shortens a piece until it fits once escaped. *)
Fixpoint shrink (fuel : nat) (s : list Z) (start cut : nat) : option nat :=
  if (start + 1 <? cut)%nat && (advisory <? jsonEscapedLen (slice s start cut)) then
    match fuel with
    | O => None
    | S fuel =>
        let half := alignBackToRuneStart s (start + (cut - start) / 2)%nat in
        if (half <=? start)%nat || (cut <=? half)%nat then
          let half := alignBackToRuneStart s (cut - 1) in
          if (half <=? start)%nat then Some cut else shrink fuel s start half
        else shrink fuel s start half
    end
  else Some cut.

Fixpoint offsets_from (fuel : nat) (s : list Z) (start : nat) : option (list nat) :=
  if (start <? length s)%nat then
    match fuel with
    | O => None
    | S fuel =>
        match shrink (length s) s start (first_cut s start) with
        | Some cut => cons cut <$> offsets_from fuel s cut
        | None => None
        end
    end
  else Some [].

Definition offsets (s : list Z) : option (list nat) := cons O <$> offsets_from (length s) s O.
End Offsets.

Definition DetailChunkOffsets (s : list Z) : option (list nat) :=
  match s with
  | [] => Some [O]
  | _ => offsets (Z.to_nat TurnDetailChunkTargetBytes) TurnDetailChunkAdvisoryCapBytes s
  end.

Definition DetailChunkCount (s : list Z) : option Z := (fun l => zlen l - 1) <$> DetailChunkOffsets s.

(** ** Packing a page *)

Record TurnDetailOversizeRef : Type := mkTurnDetailOversizeRef {
  or_ItemID : string;
  or_Handle : string;
  or_Type : string;
  or_TotalBytes : Z;
  or_Preview : string;
  or_TotalChunks : Z
}.

Record DetailChunkEntry : Type := mkDetailChunkEntry {
  ce_Part : ProjectionPart;
  ce_Ref : option TurnDetailOversizeRef
}.

Record DetailChunkContent : Type := mkDetailChunkContent {
  cc_Items : list ProjectionPart;
  cc_Oversize : list TurnDetailOversizeRef
}.

Section Split.
(** [measure]: the length of the content encoded in JSON. *)
Context (measure : DetailChunkContent -> Z).

Definition ref_list (e : DetailChunkEntry) : list TurnDetailOversizeRef :=
  match ce_Ref e with Some r => [r] | None => [] end.
Definition single (e : DetailChunkEntry) : DetailChunkContent := mkDetailChunkContent [ce_Part e] (ref_list e).
Definition add_entry (c : DetailChunkContent) (e : DetailChunkEntry) : DetailChunkContent :=
  mkDetailChunkContent (cc_Items c ++ [ce_Part e]) (cc_Oversize c ++ ref_list e).
Definition empty_chunk : DetailChunkContent := mkDetailChunkContent [] [].

(** [flush()], as what it appends to the frames. *)
Definition flushed (cur : DetailChunkContent) : list DetailChunkContent :=
  if 0 <? zlen (cc_Items cur) + zlen (cc_Oversize cur) then [cur] else [].

Fixpoint split (entries : list DetailChunkEntry) (out : list DetailChunkContent) (cur : DetailChunkContent) (curSize : Z)
  : option (list DetailChunkContent) :=
  match entries with
  | [] => Some (out ++ flushed cur)
  | e :: entries =>
      let sz := measure (single e) in
      if TurnDetailPatchHardCapBytes <? sz then None
      else
        let full := (0 <? curSize) && (TurnDetailChunkAdvisoryCapBytes <? curSize + sz) in
        let flushes := full && (0 <? zlen (cc_Items cur) + zlen (cc_Oversize cur)) in
        let out := if full then out ++ flushed cur else out in
        let '(cur, curSize) := if flushes then (empty_chunk, 0) else (cur, curSize) in
        split entries out (add_entry cur e) (curSize + sz)
  end.

(** [None]: [ErrDetailChunkTooLarge]. *)
Definition SplitDetailChunks (entries : list DetailChunkEntry) : option (list DetailChunkContent) :=
  split entries [] empty_chunk 0.
End Split.

(** ** Characters *)

(** The bytes of one character. *)
Inductive rune : list Z -> Prop :=
| rune1 b : within 0 127 b = true -> rune [b]
| rune2 b c1 : within 194 223 b = true -> cont c1 = true -> rune [b; c1]
| rune3 b c1 c2 : within 224 239 b = true ->
    within (if b =? 224 then 160 else 128) (if b =? 237 then 159 else 191) c1 = true -> cont c2 = true -> rune [b; c1; c2]
| rune4 b c1 c2 c3 : within 240 244 b = true ->
    within (if b =? 240 then 144 else 128) (if b =? 244 then 143 else 191) c1 = true ->
    cont c2 = true -> cont c3 = true -> rune [b; c1; c2; c3].

Lemma within_iff lo hi c : within lo hi c = true <-> lo <= c <= hi.
Proof. unfold within. rewrite andb_true_iff, !Z.leb_le. done. Qed.

Lemma within_not lo hi c : c < lo \/ hi < c -> within lo hi c = false.
Proof. intros H. apply not_true_iff_false. rewrite within_iff. lia. Qed.

Lemma rune_width_rune r s : rune r -> rune_width (r ++ s) = Some (length r).
Proof.
  intros H. destruct H as [b H|b c1 H1 H2|b c1 c2 H1 H2 H3|b c1 c2 c3 H1 H2 H3 H4]; simpl.
  - by rewrite H.
  - rewrite within_not, H1, H2; [done|]. apply within_iff in H1. lia.
  - rewrite (within_not 0), (within_not 194), H1, H2, H3; [done|apply within_iff in H1; lia..].
  - rewrite (within_not 0), (within_not 194), (within_not 224), H1, H2, H3, H4; [done|apply within_iff in H1; lia..].
Qed.

Lemma rune_width_inv s n : rune_width s = Some n -> exists r s', s = r ++ s' /\ rune r /\ length r = n.
Proof.
  destruct s as [|b s]; simpl; [done|]. destruct (within 0 127 b) eqn:E1.
  { intros [= <-]. exists [b], s. split; [done|]. split; [by constructor|done]. }
  destruct s as [|c1 s]; [done|]. destruct (within 194 223 b) eqn:E2.
  { destruct (cont c1) eqn:E3; [|done]. intros [= <-]. exists [b; c1], s. split; [done|]. split; [by constructor|done]. }
  destruct s as [|c2 s]; [done|]. destruct (within 224 239 b) eqn:E3.
  { case_if; [|done]. zprop. intros [= <-]. exists [b; c1; c2], s. split; [done|]. split; [by constructor|done]. }
  destruct s as [|c3 s]; [done|]. case_if; [|done]. zprop. intros [= <-]. exists [b; c1; c2; c3], s.
  split; [done|]. split; [by constructor|done].
Qed.

Lemma valid_cons r s : rune r -> valid_utf8 s -> valid_utf8 (r ++ s).
Proof. intros Hr Hs. apply valid_rune; [by apply rune_width_rune|done]. Qed.

(** Induction on a text by characters. *)
Lemma valid_runes (P : list Z -> Prop) :
  P [] -> (forall r s, rune r -> valid_utf8 s -> P s -> P (r ++ s)) -> forall s, valid_utf8 s -> P s.
Proof.
  intros Hnil Hstep s Hs. induction Hs as [|r s Hr Hs IH]; [done|]. apply Hstep; [|done..].
  apply rune_width_inv in Hr as (r' & s' & He & Hr' & Hl). apply app_inj_1 in He as [-> _]; done.
Qed.

(** Only the first byte of a character starts one. *)
Lemma start_byte b : 0 <= b < 256 -> RuneStart b = negb (cont b).
Proof.
  intros Hb. assert (forallb (fun b => Bool.eqb (RuneStart b) (negb (cont b))) (seqZ 0 256) = true) as H by (vm_compute; reflexivity).
  rewrite forallb_forall in H. apply eqb_prop, (H b), list_elem_of_In, elem_of_seqZ. lia.
Qed.

Lemma rune_head r : rune r -> exists b l, r = b :: l /\ RuneStart b = true /\ Forall (fun c => RuneStart c = false) l /\ (length r <= 4)%nat.
Proof.
  assert (forall c lo hi, within lo hi c = true -> 128 <= lo -> hi <= 191 -> RuneStart c = false) as Hc.
  { intros c lo hi H H1 H2. apply within_iff in H. rewrite start_byte by lia. apply negb_false_iff, within_iff. lia. }
  assert (forall c lo hi, within lo hi c = true -> 0 <= lo -> hi <= 244 -> hi <= 127 \/ 192 <= lo -> RuneStart c = true) as Hs.
  { intros c lo hi H H1 H2 H3. apply within_iff in H. rewrite start_byte by lia. apply negb_true_iff, within_not. lia. }
  intros H. destruct H as [b H|b c1 H1 H2|b c1 c2 H1 H2 H3|b c1 c2 c3 H1 H2 H3 H4]; eexists _, _; (split; [done|]); simpl;
    (split; [eapply Hs; [eassumption|lia..]|]); (split; [|lia]); repeat constructor; eapply Hc; try eassumption; try done;
    repeat case_if; lia.
Qed.

Lemma rune_escaped r : rune r -> jsonEscapedLen r <= 6.
Proof.
  intros Hr. unfold jsonEscapedLen. pose proof (rune_width_rune r [] Hr) as Hw. rewrite app_nil_r in Hw.
  destruct (rune_head r Hr) as (b & l & -> & _ & _ & Hl). cbn [length escaped_length]. rewrite Hw.
  replace (drop (length (b :: l)) (b :: l)) with (@nil Z) by (symmetry; by apply drop_ge).
  assert (escaped_length (length l) [] = 0) as -> by (by destruct (length l)).
  unfold escaped_rune, escaped_ascii. cbn [length] in *. repeat case_if; lia.
Qed.

(** ** Boundaries *)

(** A place where a character ends, in a text in UTF-8. *)
Definition boundary (s : list Z) (i : nat) : Prop := i = length s \/ (i < length s)%nat /\ RuneStart (nth i s 0) = true.

Lemma valid_start s : valid_utf8 s -> s <> [] -> RuneStart (nth 0 s 0) = true.
Proof.
  intros Hs. pattern s. apply valid_runes; [done| |done]. intros r s' Hr _ _ _.
  destruct (rune_head r Hr) as (b & l & -> & H & _). done.
Qed.

Lemma valid_split s i : valid_utf8 s -> boundary s i -> valid_utf8 (take i s) /\ valid_utf8 (drop i s).
Proof.
  intros Hs. revert i. pattern s. apply valid_runes; [| |done]; clear s Hs.
  - intros i _. rewrite take_nil, drop_nil. split; constructor.
  - intros r s Hr Hs IH i Hi. destruct (rune_head r Hr) as (b & l & Heq & _ & Hl & _).
    destruct (decide (i = 0%nat)) as [->|Hi0]; [rewrite take_0, drop_0; split; [constructor|by apply valid_cons]|].
    assert (length r <= i)%nat as Hle.
    { destruct (decide (length r <= i)%nat); [done|]. destruct Hi as [->|[_ Hi]]; [rewrite length_app in *; lia|].
      exfalso. rewrite app_nth1 in Hi by lia. subst r. destruct i as [|i]; [done|]. simpl in *.
      rewrite Forall_forall in Hl. rewrite Hl in Hi; [done|]. apply list_elem_of_In, nth_In. lia. }
    destruct (IH (i - length r)%nat) as [H1 H2].
    { destruct Hi as [->|[H1 H2]]; [left; rewrite length_app; lia|right]. rewrite length_app in H1.
      split; [lia|]. by rewrite app_nth2 in H2 by lia. }
    rewrite take_app_ge, drop_app_ge by lia. split; [by apply valid_cons|done].
Qed.

Lemma nth_drop_add s a i : nth i (drop a s) 0 = nth (a + i) s 0.
Proof.
  revert a. induction s as [|x s IH]; intros a.
  - rewrite drop_nil. by destruct i, a.
  - destruct a as [|a]; [done|apply IH].
Qed.

Lemma slice_valid s a b : valid_utf8 s -> boundary s a -> boundary s b -> (a <= b)%nat -> valid_utf8 (slice s a b).
Proof.
  intros Hs Ha Hb Hab. unfold slice. apply valid_split; [by apply valid_split|].
  destruct Hb as [->|[H1 H2]]; [left; by rewrite length_drop|right]. rewrite length_drop. split; [lia|].
  rewrite nth_drop_add. by replace (a + (b - a))%nat with b by lia.
Qed.

Lemma align_spec s cut : let p := alignBackToRuneStart s cut in
  (p <= cut)%nat /\ ((cut < length s)%nat -> p = 0%nat \/ RuneStart (nth p s 0) = true) /\
  forall i, (p < i <= cut)%nat -> RuneStart (nth i s 0) = false.
Proof.
  cbv zeta. induction cut as [|cut IH]; cbn [alignBackToRuneStart].
  - split; [lia|]. split; [by left|]. intros i Hi. lia.
  - case_if.
    + zprop. destruct IH as (H1 & H2 & H3). split; [lia|]. split; [intros; apply H2; lia|].
      intros i Hi. destruct (decide (i = S cut)) as [->|Hne]; [|apply H3; lia]. by apply negb_true_iff in Hif0 || done.
    + split; [lia|]. split; [|intros i Hi; lia]. intros Hc. right. apply andb_false_iff in Hif as [Hif|Hif].
      * apply Nat.ltb_ge in Hif. lia.
      * by apply negb_false_iff in Hif.
Qed.

Lemma align_boundary s cut : valid_utf8 s -> (cut < length s)%nat -> boundary s (alignBackToRuneStart s cut).
Proof.
  intros Hs Hc. destruct (align_spec s cut) as (H1 & H2 & _). right. split; [lia|].
  destruct (H2 Hc) as [->|H]; [|done]. apply valid_start; [done|]. intros ->. simpl in Hc. lia.
Qed.

(** A text without an inner boundary is one character. *)
Lemma one_rune s a b : valid_utf8 s -> boundary s a -> boundary s b -> (a < b)%nat ->
  (forall i, (a < i < b)%nat -> RuneStart (nth i s 0) = false) -> rune (slice s a b).
Proof.
  intros Hs Ha Hb Hab Hno. pose proof (slice_valid s a b Hs Ha Hb ltac:(lia)) as Hv.
  assert (length (slice s a b) = b - a)%nat as Hlen.
  { unfold slice. rewrite length_take, length_drop. destruct Hb as [->|[]]; lia. }
  remember (slice s a b) as u eqn:Hu. destruct Hv as [|r u' Hr Hv]; [simpl in Hlen; lia|].
  apply rune_width_inv in Hr as (r' & s' & He & Hr & Hl). apply app_inj_1 in He as [-> ->]; [|done].
  destruct s' as [|c s']; [by rewrite app_nil_r|]. exfalso.
  assert (RuneStart (nth (a + length r') s 0) = true) as Hc.
  { rewrite nth_lookup, <- lookup_drop, <- (lookup_take_lt _ (b - a)), <- nth_lookup; [|rewrite length_app in Hlen; cbn in Hlen; lia].
    change (take (b - a) (drop a s)) with (slice s a b). rewrite <- Hu, app_nth2, Nat.sub_diag by lia.
    by apply (valid_start (c :: s')). }
  rewrite length_app in Hlen. cbn [length] in Hlen.
  assert (length r' <> 0)%nat by (destruct (rune_head r' Hr) as (x & l & -> & _); done).
  rewrite (Hno (a + length r')%nat) in Hc; [done|lia].
Qed.

(** ** The table *)

Section Table.
Context (target : nat) (advisory : Z).
Hypothesis target_pos : (4 <= target)%nat.
Hypothesis advisory_fits : 6 <= advisory.

Lemma first_cut_spec s start : (start < length s)%nat ->
  (start < first_cut target s start <= length s)%nat /\
  (valid_utf8 s -> boundary s start -> boundary s (first_cut target s start)).
Proof.
  intros Hs. unfold first_cut. cbv zeta. case_if.
  { split; [lia|]. intros _ _. by left. }
  apply Nat.leb_gt in Hif. destruct (align_spec s (start + target)) as (H1 & _ & H3). case_if.
  - apply Nat.leb_le in Hif0. split; [unfold lone_rune_len; case_if; lia|]. intros Hv Hb. exfalso.
    destruct (valid_split s start Hv Hb) as [_ Hd]. remember (drop start s) as u eqn:Hu.
    assert (length u = length s - start)%nat as Hlen by (subst u; apply length_drop).
    destruct Hd as [|r u' Hr Hd]; [simpl in Hlen; lia|].
    apply rune_width_inv in Hr as (r' & s' & He & Hr & Hl). apply app_inj_1 in He as [-> ->]; [|done].
    destruct (rune_head r' Hr) as (x & l & Hx & _ & _ & H4). rewrite length_app in Hlen.
    assert (RuneStart (nth (start + length r') s 0) = true) as Hc.
    { rewrite <- nth_drop_add, <- Hu, app_nth2, Nat.sub_diag by lia. apply valid_start; [done|].
      intros ->. simpl in Hlen. lia. }
    rewrite H3 in Hc; [done|]. subst r'. cbn [length] in *. lia.
  - apply Nat.leb_gt in Hif0. split; [lia|]. intros Hv _. by apply align_boundary.
Qed.

(** The piece that is kept: shorter than the one asked for, and for a text in UTF-8
    between two characters and within the frame. *)
Lemma shrink_spec fuel s start cut : (start < cut <= length s)%nat -> (cut - start <= S fuel)%nat ->
  exists c, shrink advisory fuel s start cut = Some c /\ (start < c <= cut)%nat /\
    (valid_utf8 s -> boundary s start -> boundary s cut -> boundary s c /\ jsonEscapedLen (slice s start c) <= advisory).
Proof.
  revert cut. induction fuel as [|fuel IH]; intros cut Hc Hf; cbn [shrink].
  all: destruct ((start + 1 <? cut)%nat && (advisory <? jsonEscapedLen (slice s start cut))) eqn:E.
  2, 4: exists cut; split; [done|]; split; [lia|]; intros Hv Ha Hb; split; [done|].
  2, 3: apply andb_false_iff in E as [E|E]; [apply Nat.ltb_ge in E|by apply Z.ltb_ge in E];
    (transitivity 6; [|done]); apply rune_escaped, one_rune; [done..|lia|intros i Hi; lia].
  - zprop. apply Nat.ltb_lt in H. lia.
  - apply andb_true_iff in E as [E1 E2]. apply Nat.ltb_lt in E1. apply Z.ltb_lt in E2. cbv zeta.
    set (half := alignBackToRuneStart s (start + (cut - start) / 2)).
    assert ((cut - start) / 2 < cut - start)%nat as Hdiv by (apply Nat.div_lt; lia).
    assert (half <= start + (cut - start) / 2)%nat as Hh by apply align_spec.
    destruct ((half <=? start)%nat || (cut <=? half)%nat) eqn:E3.
    + set (back := alignBackToRuneStart s (cut - 1)). destruct (align_spec s (cut - 1)) as (B1 & _ & B3). fold back in B1, B3.
      destruct (back <=? start)%nat eqn:E4.
      * apply Nat.leb_le in E4. exists cut. split; [done|]. split; [lia|]. intros Hv Ha Hb. exfalso.
        assert (rune (slice s start cut)) as Hr by (apply one_rune; [done..|lia|]; intros i Hi; apply B3; lia).
        apply rune_escaped in Hr. lia.
      * apply Nat.leb_gt in E4. destruct (IH back) as (c & H1 & H2 & H3); [lia..|]. exists c. split; [done|]. split; [lia|].
        intros Hv Ha _. apply H3; [done..|]. apply align_boundary; [done|lia].
    + apply orb_false_iff in E3 as [E3 E4]. apply Nat.leb_gt in E3, E4.
      destruct (IH half) as (c & H1 & H2 & H3); [lia..|]. exists c. split; [done|]. split; [lia|].
      intros Hv Ha _. apply H3; [done..|]. apply align_boundary; [done|lia].
Qed.

(** The pieces between the boundaries of a table. *)
Fixpoint pieces (s : list Z) (start : nat) (l : list nat) : list (list Z) :=
  match l with [] => [] | cut :: l => slice s start cut :: pieces s cut l end.

Lemma slice_drop s a b : (a <= b)%nat -> slice s a b ++ drop b s = drop a s.
Proof.
  intros H. unfold slice. rewrite <- (take_drop (b - a) (drop a s)) at 2. f_equal. rewrite drop_drop. f_equal. lia.
Qed.

Lemma offsets_from_spec fuel s start : (start <= length s)%nat -> (length s - start <= fuel)%nat ->
  exists l, offsets_from target advisory fuel s start = Some l /\
    Sorted lt (start :: l) /\ last (start :: l) = Some (length s) /\ concat (pieces s start l) = drop start s /\
    (valid_utf8 s -> boundary s start ->
     Forall (fun u => valid_utf8 u /\ jsonEscapedLen u <= advisory) (pieces s start l)).
Proof.
  revert start. induction fuel as [|fuel IH]; intros start Hs Hf; cbn [offsets_from].
  all: destruct (start <? length s)%nat eqn:E; [apply Nat.ltb_lt in E|apply Nat.ltb_ge in E].
  1: lia.
  1, 3: exists []; split; [done|]; split; [repeat constructor|]; split; [simpl; f_equal; lia|]; split; [|done];
    simpl; symmetry; apply drop_ge; lia.
  destruct (first_cut_spec s start E) as [Hc Hb].
  destruct (shrink_spec (length s) s start (first_cut target s start)) as (c & -> & Hc' & Hv); [done|lia|].
  destruct (IH c) as (l & -> & H1 & H2 & H3 & H4); [lia..|]. exists (c :: l). split; [done|].
  split; [constructor; [done|]; constructor; lia|]. split; [by rewrite last_cons_cons|]. split.
  - cbn [pieces concat]. rewrite H3. apply slice_drop. lia.
  - intros Hu Hbs. destruct (Hv Hu Hbs (Hb Hu Hbs)) as [Hbc Hle]. cbn [pieces]. constructor; [|by apply H4].
    split; [|done]. apply slice_valid; [done..|lia].
Qed.
End Table.

(** The boundary table of any text is found, by loops that end: it starts at zero,
    strictly increases to the length of the text, and its pieces are the text cut
    in order; and when the text is UTF-8, as the detail store checks, every piece
    is a whole number of characters and fits the advisory size of a frame once
    escaped for JSON. *)
Theorem DetailChunkOffsets_table s : exists l,
  DetailChunkOffsets s = Some (O :: l) /\ DetailChunkCount s = Some (zlen l) /\
  Sorted lt (O :: l) /\ last (O :: l) = Some (length s) /\ concat (pieces s O l) = s /\
  (valid_utf8 s ->
   Forall (fun u => valid_utf8 u /\ jsonEscapedLen u <= TurnDetailChunkAdvisoryCapBytes) (pieces s O l)).
Proof.
  assert (forall l, DetailChunkOffsets s = Some (O :: l) -> DetailChunkCount s = Some (zlen l)) as Hcount.
  { intros l E. unfold DetailChunkCount. rewrite E. cbn [fmap option_fmap option_map length]. f_equal. lia. }
  destruct s as [|b s].
  { exists []. split; [done|]. split; [by apply Hcount|]. split; [repeat constructor|]. done. }
  destruct (offsets_from_spec (Z.to_nat TurnDetailChunkTargetBytes) TurnDetailChunkAdvisoryCapBytes) with
    (fuel := length (b :: s)) (s := b :: s) (start := O) as (l & H & H1 & H2 & H3 & H4);
    [unfold TurnDetailChunkTargetBytes; lia|done|simpl; lia|simpl; lia|].
  assert (DetailChunkOffsets (b :: s) = Some (O :: l)) as E.
  { unfold DetailChunkOffsets, offsets. by rewrite H. }
  exists l. split; [done|]. split; [by apply Hcount|]. split; [done|]. split; [done|]. split; [done|].
  intros Hv. apply H4; [done|]. right. split; [simpl; lia|]. by apply valid_start.
Qed.

(** ** Packing *)

Section Packing.
Context (measure : DetailChunkContent -> Z).

(** A frame's content, from its entries. *)
Definition chunk_of (g : list DetailChunkEntry) : DetailChunkContent := fold_left add_entry g empty_chunk.

Lemma chunk_of_snoc g e : chunk_of (g ++ [e]) = add_entry (chunk_of g) e.
Proof. unfold chunk_of. by rewrite fold_left_app. Qed.

Lemma chunk_items g : cc_Items (chunk_of g) = map ce_Part g.
Proof.
  induction g as [|e g IH] using rev_ind; [done|]. rewrite chunk_of_snoc, map_app. simpl. by rewrite IH.
Qed.

Lemma flushed_chunk g : flushed (chunk_of g) = match g with [] => [] | _ => [chunk_of g] end.
Proof.
  unfold flushed. rewrite chunk_items, length_map. destruct g as [|e g]; [done|].
  cbn [length]. replace (0 <? _) with true; [done|]. symmetry. apply Z.ltb_lt. lia.
Qed.

(** What JSON gives: an entry has some length, and a frame is no longer than its
    parts alone. *)
Class Measure : Prop := {
  measure_pos e : 0 < measure (single e);
  measure_add c e : cc_Items c <> [] -> measure (add_entry c e) <= measure c + measure (single e)
}.
Context {HM : Measure}.

(** A frame within the advisory size, or one entry within the hard one. *)
Definition fits (g : list DetailChunkEntry) : Prop :=
  g <> [] /\ (measure (chunk_of g) <= TurnDetailChunkAdvisoryCapBytes \/
              exists e, g = [e] /\ measure (single e) <= TurnDetailPatchHardCapBytes).

(** The sum the loop keeps for the entries of the frame it fills. *)
Definition filled (g : list DetailChunkEntry) (size : Z) : Prop :=
  match g with
  | [] => size = 0
  | [e] => size = measure (single e) /\ size <= TurnDetailPatchHardCapBytes
  | _ => 0 < size <= TurnDetailChunkAdvisoryCapBytes /\ measure (chunk_of g) <= size
  end.

Lemma filled_fits g size : g <> [] -> filled g size -> fits g /\ 0 < size /\ measure (chunk_of g) <= size.
Proof.
  intros Hne. destruct g as [|e [|e' g]]; [done| |]; cbn [filled].
  - intros [-> H]. pose proof (measure_pos e). split; [split; [done|right; eauto]|]. split; [done|].
    change (chunk_of [e]) with (single e). lia.
  - intros [H1 H2]. split; [split; [done|left; lia]|]. lia.
Qed.

Lemma split_spec entries : forall done_ g size, Forall fits done_ -> filled g size ->
  match split measure entries (map chunk_of done_) (chunk_of g) size with
  | None => Exists (fun e => TurnDetailPatchHardCapBytes < measure (single e)) entries
  | Some out => exists groups, out = map chunk_of groups /\ concat groups = concat done_ ++ g ++ entries /\
      Forall fits groups /\ Forall (fun e => measure (single e) <= TurnDetailPatchHardCapBytes) entries
  end.
Proof.
  induction entries as [|e entries IH]; intros done_ g size Hd Hg; cbn [split].
  - rewrite flushed_chunk. rewrite app_nil_r. destruct g as [|e g].
    + exists done_. by rewrite !app_nil_r.
    + exists (done_ ++ [e :: g]). split; [by rewrite map_app|]. split; [by rewrite concat_app; simpl; rewrite app_nil_r|].
      split; [|done]. apply Forall_app. split; [done|]. constructor; [|done]. by apply (filled_fits (e :: g) size).
  - destruct (Z.ltb_spec TurnDetailPatchHardCapBytes (measure (single e))) as [Hh|Hh]; [by left|]. cbv zeta.
    rewrite chunk_items, length_map, flushed_chunk. pose proof (measure_pos e) as Hpos.
    destruct ((0 <? size) && (TurnDetailChunkAdvisoryCapBytes <? size + measure (single e))) eqn:E.
    + destruct g as [|e0 g]; [apply andb_prop in E as [E _]; apply Z.ltb_lt in E; simpl in Hg; lia|]. replace (0 <? _) with true by (symmetry; apply Z.ltb_lt; cbn; lia).
      cbn [andb]. specialize (IH (done_ ++ [e0 :: g]) [e] (measure (single e))). rewrite map_app in IH.
      cbn [map] in IH. change (chunk_of [e]) with (add_entry empty_chunk e) in IH.
      destruct (split measure entries _ (add_entry empty_chunk e) (0 + measure (single e))) as [out|] eqn:Es.
      * rewrite Z.add_0_l in Es. rewrite Es in IH. destruct IH as (groups & -> & Hc & Hf & Hm).
        { apply Forall_app. split; [done|]. constructor; [|done]. by apply (filled_fits (e0 :: g) size). }
        { done. }
        exists groups. split; [done|]. split; [|split; [done|by constructor]]. rewrite Hc, concat_app. simpl.
        rewrite app_nil_r, <- !app_assoc. done.
      * rewrite Z.add_0_l in Es. rewrite Es in IH. right. apply IH; [|done].
        apply Forall_app. split; [done|]. constructor; [|done]. by apply (filled_fits (e0 :: g) size).
    + cbn [andb]. rewrite <- chunk_of_snoc. specialize (IH done_ (g ++ [e]) (size + measure (single e)) Hd).
      assert (filled (g ++ [e]) (size + measure (single e))) as Hg'.
      { destruct g as [|e0 g]; [simpl in Hg; subst size; simpl; lia|].
        destruct (filled_fits (e0 :: g) size ltac:(done) Hg) as (_ & Hs & Hm). apply andb_false_iff in E as [E|E]; zprop; [lia|].
        assert (measure (chunk_of ((e0 :: g) ++ [e])) <= size + measure (single e)) as Hadd.
        { rewrite chunk_of_snoc. etransitivity; [apply measure_add|lia]. by rewrite chunk_items. }
        destruct g as [|e1 g]; simpl in *; lia. }
      specialize (IH Hg'). destruct (split _ _ _ _ _) as [out|]; [|by right].
      destruct IH as (groups & -> & Hc & Hf & Hm). exists groups. split; [done|]. split; [by rewrite Hc, <- !app_assoc|].
      split; [done|]. by constructor.
Qed.

(** A page is packed into frames in order: the frames are consecutive runs of the
    entries, none empty, each entry beside its reference, and each frame is within
    the advisory size or is one single entry within the hard cap; packing fails
    exactly when an entry alone exceeds the hard cap. *)
Theorem SplitDetailChunks_packs entries :
  match SplitDetailChunks measure entries with
  | None => Exists (fun e => TurnDetailPatchHardCapBytes < measure (single e)) entries
  | Some out => exists groups, out = map chunk_of groups /\ concat groups = entries /\ Forall fits groups /\
      Forall (fun e => measure (single e) <= TurnDetailPatchHardCapBytes) entries
  end.
Proof. apply (split_spec entries [] [] 0); [constructor|done]. Qed.
End Packing.

(** A packing of two small entries and a large one, by their number of parts. *)
Definition count_measure (c : DetailChunkContent) : Z := 100000 * (zlen (cc_Items c) + zlen (cc_Oversize c)).

Lemma count_measures : Measure count_measure.
Proof.
  unfold count_measure. split.
  - intros e. simpl. lia.
  - intros c e _. unfold add_entry, single. cbn. rewrite !length_app. cbn. lia.
Qed.

Definition sample_entry (id : string) (r : option TurnDetailOversizeRef) : DetailChunkEntry :=
  mkDetailChunkEntry (set_pp_ItemID id part0) r.

Lemma SplitDetailChunks_packs_witness :
  let page := [sample_entry "a" None; sample_entry "b" None;
               sample_entry "c" (Some (mkTurnDetailOversizeRef "c" "h" "tool" 300000 "" 3)); sample_entry "d" None] in
  option_map (map (fun c => map pp_ItemID (cc_Items c))) (SplitDetailChunks count_measure page) = Some [["a"; "b"]; ["c"]; ["d"]] /\
  match SplitDetailChunks count_measure page with
  | None => False
  | Some out => exists groups, out = map chunk_of groups /\ concat groups = page /\ Forall (fits count_measure) groups
  end.
Proof.
  cbv zeta. split; [vm_compute; reflexivity|].
  match goal with |- context [SplitDetailChunks count_measure ?page] =>
    pose proof (SplitDetailChunks_packs count_measure (HM := count_measures) page) as H;
    assert (option_map (fun _ => tt) (SplitDetailChunks count_measure page) = Some tt) as Hs by (vm_compute; reflexivity) end.
  destruct (SplitDetailChunks count_measure _); [|discriminate Hs].
  destruct H as (groups & H1 & H2 & H3 & _). exists groups. repeat split; assumption.
Defined.
