(* ===== verification/ReducerInvariant.v ===== *)
(** * What every call on the projection reducer keeps

    The well-formedness of a session, preserved by every event and every other
    call; the revision an event takes; and the chain of the patches. *)

From S2P Require Import Prelude.
From S2P Require Import Wire.
From S2P Require Import Projection.
From S2P Require Import RevisionJournal.
From S2P Require Import ProjectionFields.
From S2P Require Import ReducerParts.
From S2P Require Import Reducer.
From S2P Require Import ReducerPatch.
From S2P Require Import TurnDetail.

(** ** Turns by identifier *)

Definition ids (ps : projectionSession) : list string := map tp_TurnID (turns ps).

(** A function on turns that keeps their identifiers. *)
Definition keeps_id (f : TurnProjection -> TurnProjection) : Prop := forall t, tp_TurnID (f t) = tp_TurnID t.

Create HintDb reducer.
Create Rewrite HintDb reducer.
#[export] Hint Unfold keeps_id : reducer.

Lemma keeps_id_compose f g : keeps_id f -> keeps_id g -> keeps_id (fun t => f (g t)).
Proof. intros Hf Hg t. by rewrite Hf, Hg. Qed.

Lemma merge_turn_id u : keeps_id (merge_turn u).
Proof. intros t. unfold merge_turn. repeat case_if; by destruct (tp_User u), (tp_Assistant u), (tp_System u). Qed.
Lemma merge_turn_all_id u : keeps_id (merge_turn_all u).
Proof.
  intros t. unfold merge_turn_all. rewrite <- (merge_turn_id u t). case_if; by destruct (tp_Pending u).
Qed.
Lemma ensure_assistant_id s : keeps_id (ensure_assistant s).
Proof. intros t. unfold ensure_assistant. by destruct (tp_Assistant t). Qed.
Lemma on_assistant_parts_id f : keeps_id (on_assistant_parts f).
Proof. intros t. unfold on_assistant_parts. by destruct (tp_Assistant t). Qed.
Lemma settle_turn_id n : keeps_id (settle_turn n).
Proof. intros t. unfold settle_turn, interrupt_turn. rewrite on_assistant_parts_id. by case_if. Qed.
Lemma compact_system_id a b c : keeps_id (compact_system a b c).
Proof. done. Qed.
Lemma set_status_id s : keeps_id (set_tp_Status s).
Proof. done. Qed.
Lemma set_assistant_id f : keeps_id (fun t => set_tp_Assistant (f t) t).
Proof. done. Qed.
#[export] Hint Resolve keeps_id_compose merge_turn_id merge_turn_all_id ensure_assistant_id on_assistant_parts_id
  settle_turn_id compact_system_id set_status_id set_assistant_id : reducer.

Lemma turn_index_Some turnID l i :
  turn_index turnID l = Some i -> exists t, l !! i = Some t /\ tp_TurnID t = turnID.
Proof.
  unfold turn_index. intros H. apply fmap_Some in H as [[j t] [H ->]]. apply list_find_Some in H as (H1 & H2 & _).
  eauto.
Qed.

Lemma turn_index_None turnID l : turn_index turnID l = None -> turnID ∉ map tp_TurnID l.
Proof.
  unfold turn_index. intros H. apply fmap_None, list_find_None in H. intros Hin.
  apply list_elem_of_fmap in Hin as (t & -> & Ht). rewrite Forall_forall in H. by apply (H t Ht).
Qed.

Lemma turn_index_is_Some turnID l : turnID ∈ map tp_TurnID l -> is_Some (turn_index turnID l).
Proof. destruct (turn_index turnID l) eqn:E; [eauto|]. intros H. by apply turn_index_None in E. Qed.

Lemma ids_set_turns l ps : ids (set_turns l ps) = map tp_TurnID l.
Proof. done. Qed.

Lemma ids_at_turn i f ps : keeps_id f -> ids (at_turn i f ps) = ids ps.
Proof.
  intros Hf. unfold ids, at_turn. change (map tp_TurnID (alter f i (turns ps)) = map tp_TurnID (turns ps)).
  generalize (turns ps). intros l. revert i. induction l as [|t l IH]; intros [|i]; simpl; try done.
  - by rewrite Hf.
  - f_equal. apply IH.
Qed.

Lemma turn_index_ids turnID l l' : map tp_TurnID l = map tp_TurnID l' -> turn_index turnID l = turn_index turnID l'.
Proof.
  revert l'. induction l as [|t l IH]; intros [|t' l'] H; try done.
  injection H as Ht Hl. unfold turn_index in *. cbn [list_find]. rewrite Ht. specialize (IH l' Hl).
  destruct (decide (tp_TurnID t' = turnID)); [done|].
  destruct (list_find _ l) as [[]|], (list_find _ l') as [[]|]; simpl in *; congruence.
Qed.

(** With unique identifiers a turn is found where it is. *)
Lemma turn_index_here l i t : NoDup (map tp_TurnID l) -> l !! i = Some t -> turn_index (tp_TurnID t) l = Some i.
Proof.
  intros Hnd Ht. destruct (turn_index_is_Some (tp_TurnID t) l) as [j Hj].
  { apply list_elem_of_fmap_2. by eapply list_elem_of_lookup_2. }
  rewrite Hj. f_equal. destruct (turn_index_Some _ _ _ Hj) as (u & Hu & Hid).
  apply (NoDup_lookup _ j i (tp_TurnID t) Hnd); change (map tp_TurnID l) with (tp_TurnID <$> l);
    rewrite list_lookup_fmap, ?Hu, ?Ht; simpl; congruence.
Qed.

Lemma alter_by_id id i f l : NoDup (map tp_TurnID l) -> turn_index id l = Some i ->
  alter f i l = map (fun t => if decide (tp_TurnID t = id) then f t else t) l.
Proof.
  intros Hnd Hi. destruct (turn_index_Some _ _ _ Hi) as (t & Ht & Hid). apply list_eq. intros j.
  change (map ?g l) with (g <$> l). rewrite list_lookup_fmap. destruct (decide (i = j)) as [<-|Hij].
  - rewrite list_lookup_alter_eq, Ht. simpl. by rewrite decide_True.
  - rewrite list_lookup_alter_ne by done. destruct (l !! j) as [u|] eqn:Hu; [|done]. simpl. f_equal.
    rewrite decide_False; [done|]. intros Hu'. pose proof (turn_index_here l j u Hnd Hu). congruence.
Qed.

Lemma turnByID_at id ps i : turnByID id ps = Some i -> exists t, turns ps !! i = Some t /\ tp_TurnID t = id.
Proof. apply turn_index_Some. Qed.

Lemma turnByID_ids turnID ps i : turnByID turnID ps = Some i -> ids ps !! i = Some turnID.
Proof.
  intros H. apply turn_index_Some in H as (t & Ht & <-). unfold ids.
  change (map tp_TurnID (turns ps)) with (tp_TurnID <$> turns ps). by rewrite list_lookup_fmap, Ht.
Qed.

Lemma turnByID_None turnID ps : turnByID turnID ps = None -> turnID ∉ ids ps.
Proof. apply turn_index_None. Qed.

Lemma turnByID_same turnID ps ps' : ids ps = ids ps' -> turnByID turnID ps = turnByID turnID ps'.
Proof. apply turn_index_ids. Qed.

(** ** Well-formedness *)

Record session_ok (ps : projectionSession) : Prop := {
  ok_ids : NoDup (ids ps);
  ok_nonempty : "" ∉ ids ps;
  ok_staged : forall id, upsertTurns ps !! id <> None -> id ∈ ids ps;
  ok_phase : ev_Phase (sp_Execution (projection ps)) ∈ ["idle"; "running"; "requires_action"];
  ok_rev : lastFlushedRev ps <= sp_SyncRev (projection ps)
}.

(** Calls that touch none of this. *)
Lemma ok_ext ps ps' :
  session_ok ps -> ids ps' = ids ps -> upsertTurns ps' = upsertTurns ps ->
  sp_Execution (projection ps') = sp_Execution (projection ps) ->
  lastFlushedRev ps' = lastFlushedRev ps -> sp_SyncRev (projection ps) <= sp_SyncRev (projection ps') ->
  session_ok ps'.
Proof. intros [? ? ? ? ?] Hi Hu He Hf Hr. split; rewrite ?Hi, ?Hu, ?He, ?Hf; try done. lia. Qed.

Lemma ok_new sid : session_ok (new_session sid).
Proof.
  split; try done; unfold ids, turns; simpl.
  - constructor.
  - apply not_elem_of_nil.
  - set_solver.
Qed.

Lemma ok_at_turn i f ps : keeps_id f -> session_ok ps -> session_ok (at_turn i f ps).
Proof. intros Hf H. apply (ok_ext ps); try done. by apply ids_at_turn. Qed.

Lemma ids_stage id i ps : ids (stage id i ps) = ids ps.
Proof. unfold stage. by destruct (turns ps !! i). Qed.

Lemma ok_stage id i ps : ids ps !! i = Some id -> session_ok ps -> session_ok (stage id i ps).
Proof.
  intros Hi [H1 H2 H3 H4 H5]. unfold stage. destruct (turns ps !! i) as [t|]; [|done]. split; try done.
  cbn. intros id'. destruct (decide (id = id')) as [<-|Hne].
  - intros _. by eapply list_elem_of_lookup_2.
  - rewrite lookup_insert_ne by done. apply H3.
Qed.

(** A turn added anywhere, staged or not. *)
Lemma ok_add i t ps :
  tp_TurnID t <> "" -> tp_TurnID t ∉ ids ps -> session_ok ps ->
  session_ok (set_turns (take i (turns ps) ++ t :: drop i (turns ps)) ps) /\
  session_ok (set_upsertTurns (<[tp_TurnID t := t]> (upsertTurns ps))
                (set_turns (take i (turns ps) ++ t :: drop i (turns ps)) ps)).
Proof.
  intros Hne Hnew [H1 H2 H3 H4 H5].
  set (l := take i (turns ps) ++ t :: drop i (turns ps)).
  assert (map tp_TurnID l ≡ₚ tp_TurnID t :: ids ps) as Hp.
  { subst l. rewrite map_app. simpl. rewrite <- Permutation_middle, <- map_app, take_drop. done. }
  assert (forall id, id ∈ map tp_TurnID l <-> id = tp_TurnID t \/ id ∈ ids ps) as Hin
    by (intros id; rewrite Hp; apply elem_of_cons).
  assert (NoDup (map tp_TurnID l)) by (rewrite Hp; by constructor).
  assert ("" ∉ map tp_TurnID l) by (rewrite Hin; intros [?|?]; congruence).
  split; split; try done; rewrite ids_set_turns || change (ids _) with (map tp_TurnID l); try done.
  - intros id Hid. apply Hin. right. by apply H3.
  - intros id. cbn. rewrite Hin. destruct (decide (tp_TurnID t = id)) as [<-|Hd]; [auto|].
    rewrite lookup_insert_ne by done. auto.
Qed.

Lemma take_drop_end {A : Type} (l : list A) x : l ++ [x] = take (length l) l ++ x :: drop (length l) l.
Proof. by rewrite take_ge, drop_ge. Qed.

Lemma ok_upsertTurn t ps : session_ok ps -> session_ok (upsertTurn t ps).
Proof.
  intros H. unfold upsertTurn. case_bool_decide as Hne; [done|]. destruct (turnByID (tp_TurnID t) ps) as [i|] eqn:E.
  - apply ok_stage; [|apply ok_at_turn; auto with reducer].
    rewrite ids_at_turn by auto with reducer. by apply turnByID_ids.
  - rewrite take_drop_end. apply (ok_add (length (turns ps)) t ps); try done. by apply turnByID_None.
Qed.

Lemma ok_upsertTurnPersistOnly t ps : session_ok ps -> session_ok (upsertTurnPersistOnly t ps).
Proof.
  intros H. unfold upsertTurnPersistOnly. case_bool_decide as Hne; [done|].
  destruct (turnByID (tp_TurnID t) ps) as [i|] eqn:E; [apply ok_at_turn; auto with reducer|].
  rewrite take_drop_end. apply (ok_add (length (turns ps)) t ps); try done. by apply turnByID_None.
Qed.

Lemma ok_ensure_turn id ps : session_ok ps -> session_ok (ensure_turn id ps).
Proof. intros H. unfold ensure_turn. destruct (turnByID id ps); [done|]. by apply ok_upsertTurn. Qed.

Lemma ok_command a b c d e n ps : session_ok ps -> session_ok (upsertSessionCommandTurn a b c d e n ps).
Proof.
  intros H. unfold upsertSessionCommandTurn. destruct (turnByID _ ps) as [i|] eqn:E; [by apply ok_upsertTurn|].
  match goal with |- context [<[_ := ?t]> _] => apply (ok_add _ t ps); try done end.
  by apply turnByID_None in E.
Qed.

Lemma ok_remove_placeholder id ps : session_ok ps -> session_ok (snd (removePendingPlaceholder id ps)).
Proof.
  intros [H1 H2 H3 H4 H5]. unfold removePendingPlaceholder. case_bool_decide; [done|].
  destruct (list_find _ (turns ps)) as [[i t]|] eqn:E; [|done]. cbn [snd].
  apply list_find_Some in E as (Hi & Ht & _). apply andb_prop in Ht as [Ht _]. apply bool_decide_eq_true_1 in Ht.
  set (l := take i (turns ps) ++ drop (S i) (turns ps)).
  assert (ids ps ≡ₚ id :: map tp_TurnID l) as Hp.
  { subst l. unfold ids. rewrite <- (take_drop_middle (turns ps) i t Hi) at 1. rewrite !map_app. simpl.
    rewrite Ht. by rewrite <- Permutation_middle. }
  assert (forall x, x ∈ ids ps <-> x = id \/ x ∈ map tp_TurnID l) as Hin by (intros x; rewrite Hp; apply elem_of_cons).
  split; try done; change (ids _) with (map tp_TurnID l).
  - rewrite Hp in H1. by inversion H1.
  - intros Hx. apply H2, Hin. by right.
  - cbn. intros x. destruct (decide (id = x)) as [<-|Hne]; [by rewrite lookup_delete_eq|].
    rewrite lookup_delete_ne by done. intros Hx. apply H3, Hin in Hx as [->|]; done.
Qed.

(** ** Calls that keep the identifiers *)

Lemma ids_settle_at a n ps i : ids (settle_at a n ps i) = ids ps.
Proof.
  unfold settle_at. destruct (turns ps !! i); [|done]. case_if; [|done].
  by rewrite ids_stage, ids_at_turn by auto with reducer.
Qed.

Lemma ids_lookup ps i t : turns ps !! i = Some t -> ids ps !! i = Some (tp_TurnID t).
Proof.
  intros H. unfold ids. change (map tp_TurnID (turns ps)) with (tp_TurnID <$> turns ps).
  by rewrite list_lookup_fmap, H.
Qed.

Lemma ok_settle_at a n ps i : session_ok ps -> session_ok (settle_at a n ps i).
Proof.
  intros H. unfold settle_at. destruct (turns ps !! i) as [t|] eqn:E; [|done]. case_if; [|done].
  apply ok_stage.
  - rewrite ids_at_turn by auto with reducer. by apply (ids_lookup ps).
  - apply ok_at_turn; [auto with reducer|]. by apply (ok_ext ps).
Qed.

(** An invariant of the body is one of the loop. *)
Lemma fold_left_keeps {A B : Type} (P : A -> Prop) (f : A -> B -> A) l a :
  (forall a b, P a -> P (f a b)) -> P a -> P (fold_left f l a).
Proof. intros Hf. revert a. induction l; simpl; auto. Qed.

Lemma ids_settleOtherOpenTurns a n ps : ids (settleOtherOpenTurns a n ps) = ids ps.
Proof.
  unfold settleOtherOpenTurns. apply (fold_left_keeps (fun x => ids x = ids ps)); [|done].
  intros x i Hx. by rewrite ids_settle_at.
Qed.

Lemma ok_settleOtherOpenTurns a n ps : session_ok ps -> session_ok (settleOtherOpenTurns a n ps).
Proof. intros H. unfold settleOtherOpenTurns. apply fold_left_keeps; [|done]. intros. by apply ok_settle_at. Qed.

Lemma ok_set_exec e ps :
  ev_Phase e ∈ ["idle"; "running"; "requires_action"] -> session_ok ps -> session_ok (set_exec e ps).
Proof. intros He [H1 H2 H3 H4 H5]. by split. Qed.

Lemma ok_publish_exec e ps :
  ev_Phase e ∈ ["idle"; "running"; "requires_action"] -> session_ok ps -> session_ok (publish_exec e ps).
Proof. intros He H. unfold publish_exec. apply (ok_ext (set_exec e ps)); try done. by apply ok_set_exec. Qed.

Lemma phase_idle : "idle" ∈ ["idle"; "running"; "requires_action"].
Proof. by left. Qed.
Lemma phase_running : "running" ∈ ["idle"; "running"; "requires_action"].
Proof. right. by left. Qed.
Lemma phase_requires_action : "requires_action" ∈ ["idle"; "running"; "requires_action"].
Proof. right. right. by left. Qed.
#[export] Hint Resolve phase_idle phase_running phase_requires_action : reducer.

Lemma ids_markRunning id ps : ids (markRunning id ps) = ids ps.
Proof.
  unfold markRunning. case_if; [done|]. rewrite ids_settleOtherOpenTurns.
  destruct (turnByID id _) as [i|]; [|done]. destruct (turns _ !! i) as [t|]; [|done].
  destruct (terminal _); [done|]. case_if; rewrite ?ids_stage, ids_at_turn by auto with reducer; done.
Qed.

Lemma ok_markRunning id ps : session_ok ps -> session_ok (markRunning id ps).
Proof.
  intros H. unfold markRunning. case_if; [done|]. apply ok_settleOtherOpenTurns.
  assert (session_ok (publish_exec (mkExecutionView "running" id) ps)) as H' by (apply ok_publish_exec; auto with reducer).
  destruct (turnByID id _) as [i|] eqn:E; [|done]. destruct (turns _ !! i) as [t|]; [|done].
  destruct (terminal _); [done|].
  case_if; [apply ok_stage|]; try (apply ok_at_turn; auto with reducer).
  rewrite ids_at_turn by auto with reducer. by apply turnByID_ids.
Qed.

Lemma ids_stageTurnForFlush id ps : ids (stageTurnForFlush id ps) = ids ps.
Proof. unfold stageTurnForFlush. case_if; [done|]. destruct (turnByID id ps); [apply ids_stage|done]. Qed.

Lemma ok_stageTurnForFlush id ps : session_ok ps -> session_ok (stageTurnForFlush id ps).
Proof.
  intros H. unfold stageTurnForFlush. case_if; [done|]. destruct (turnByID id ps) eqn:E; [|done].
  apply ok_stage; [by apply turnByID_ids|done].
Qed.

Lemma ids_stage_if_present ps id : ids (stage_if_present ps id) = ids ps.
Proof. unfold stage_if_present. destruct (turnByID id ps); [apply ids_stage|done]. Qed.

Lemma ok_stage_if_present ps id : session_ok ps -> session_ok (stage_if_present ps id).
Proof.
  intros H. unfold stage_if_present. destruct (turnByID id ps) eqn:E; [|done].
  apply ok_stage; [by apply turnByID_ids|done].
Qed.

Lemma ids_converge_at iid c m ps id : ids (converge_at iid c m ps id) = ids ps.
Proof.
  unfold converge_at. destruct (turnByID id ps) as [i|]; [|done]. destruct (turns ps !! i); [|done].
  destruct (findUserInputPart _ _); [|done]. case_if; by rewrite ids_at_turn by auto with reducer.
Qed.

Lemma ok_converge_at iid c m ps id : session_ok ps -> session_ok (converge_at iid c m ps id).
Proof.
  intros H. unfold converge_at. destruct (turnByID id ps) as [i|]; [|done]. destruct (turns ps !! i); [|done].
  destruct (findUserInputPart _ _); [|done]. case_if; apply ok_at_turn; auto with reducer.
Qed.

Lemma ok_converge iid ps : session_ok ps -> session_ok (convergeUserInputCopies iid ps).
Proof.
  intros H. unfold convergeUserInputCopies. destruct (locateUserInputParts iid ps) as [|loc locs]; [done|].
  apply fold_left_keeps; [intros; by apply ok_stage_if_present|].
  match goal with |- context [fold_left (converge_at ?a ?b ?c) ?l ps] =>
    assert (session_ok (fold_left (converge_at a b c) l ps)) as H'
      by (apply fold_left_keeps; [intros; by apply ok_converge_at|done]) end.
  by apply (ok_ext _ _ H').
Qed.

Lemma ok_applyUserInputExecution id ps : session_ok ps -> session_ok (applyUserInputExecution id ps).
Proof.
  intros H. unfold applyUserInputExecution. case_if; [done|]. case_if; [apply ok_publish_exec; auto with reducer|].
  destruct (the_turn id ps); [|done]. case_if; [by apply ok_markRunning|done].
Qed.

Lemma ids_applyUserInputExecution id ps : ids (applyUserInputExecution id ps) = ids ps.
Proof.
  unfold applyUserInputExecution. case_if; [done|]. case_if; [done|]. destruct (the_turn id ps); [|done].
  case_if; [apply ids_markRunning|done].
Qed.

Lemma ok_markTurnUserInputsTerminated id ps : session_ok ps -> session_ok (markTurnUserInputsTerminated id ps).
Proof.
  intros H. unfold markTurnUserInputsTerminated. destruct (turnByID id ps) as [i|] eqn:E; [|done].
  destruct (turns ps !! i); [|done]. case_if; [done|].
  apply ok_applyUserInputExecution, ok_stage.
  - rewrite ids_at_turn by auto with reducer. by apply turnByID_ids in E.
  - apply ok_at_turn; [auto with reducer|]. by apply (ok_ext ps).
Qed.

Lemma ok_interrupt i ps : session_ok ps -> session_ok (interruptRunningWorkflowParts i ps).
Proof.
  intros H. unfold interruptRunningWorkflowParts. destruct (turns ps !! i); [|done].
  apply (ok_ext (at_turn i interrupt_turn ps)); try done. apply ok_at_turn; [apply on_assistant_parts_id|done].
Qed.
Lemma ids_interrupt i ps : ids (interruptRunningWorkflowParts i ps) = ids ps.
Proof.
  unfold interruptRunningWorkflowParts. destruct (turns ps !! i); [|done].
  apply (ids_at_turn i interrupt_turn). apply on_assistant_parts_id.
Qed.

Lemma ok_settle_cards i ps : session_ok ps -> session_ok (settleResolvedPermissionCards i ps).
Proof.
  intros H. unfold settleResolvedPermissionCards. destruct (turns ps !! i); [|done].
  eapply ok_ext; [apply ok_at_turn; [|exact H]|done..]. auto with reducer.
Qed.
Lemma ids_settle_cards i ps : ids (settleResolvedPermissionCards i ps) = ids ps.
Proof.
  unfold settleResolvedPermissionCards. destruct (turns ps !! i); [|done].
  apply ids_at_turn. auto with reducer.
Qed.

Lemma ok_record_tool a b i ps : session_ok ps -> session_ok (record_tool a b i ps).
Proof. intros H. unfold record_tool. destruct (_ ≫= _); [|done]. by apply (ok_ext ps). Qed.
Lemma ids_record_tool a b i ps : ids (record_tool a b i ps) = ids ps.
Proof. unfold record_tool. by destruct (_ ≫= _). Qed.

Lemma ok_commit msg now ps : session_ok ps -> session_ok (commit msg now ps).
Proof. intros H. apply (ok_ext ps); try done; unfold commit; case_bool_decide; try done; cbn; lia. Qed.
Lemma ids_commit msg now ps : ids (commit msg now ps) = ids ps.
Proof. unfold commit. by case_bool_decide. Qed.
Lemma turnByID_commit msg now id ps : turnByID id (commit msg now ps) = turnByID id ps.
Proof. apply turnByID_same, ids_commit. Qed.

#[export] Hint Resolve ok_commit ok_upsertTurn ok_upsertTurnPersistOnly ok_ensure_turn ok_command
  ok_remove_placeholder ok_markRunning ok_stageTurnForFlush ok_converge ok_applyUserInputExecution
  ok_markTurnUserInputsTerminated ok_interrupt ok_settle_cards ok_record_tool ok_settleOtherOpenTurns
  ok_at_turn : reducer.
#[export] Hint Rewrite ids_commit ids_stage ids_markRunning ids_stageTurnForFlush ids_interrupt
  ids_settle_cards ids_record_tool ids_applyUserInputExecution ids_settleOtherOpenTurns : reducer.

(** ** Every event *)

(** A part changed in a turn found by its identifier, and the turn staged. *)
Lemma ok_stage_changed id i f ps ps' :
  keeps_id f -> turnByID id ps = Some i -> session_ok ps' -> ids ps' = ids ps ->
  session_ok (stage id i (at_turn i f ps')).
Proof.
  intros Hf Hi H Hids. apply ok_stage; [|by apply ok_at_turn]. rewrite ids_at_turn, Hids by done.
  by apply turnByID_ids.
Qed.

Lemma ok_stage_same id i ps ps' :
  turnByID id ps = Some i -> ids ps' = ids ps -> session_ok ps' -> session_ok (stage id i ps').
Proof. intros Hi Hids H. apply ok_stage; [|done]. rewrite Hids. by apply turnByID_ids. Qed.

(** [ok_changed E]: a turn changed through the pointer [E] found, and staged. *)
Ltac ok_changed E := match goal with |- session_ok (stage ?a ?i (at_turn ?i ?f ?x)) =>
  apply (ok_stage_changed a i f x x ltac:(auto with reducer) E) end.

Lemma guarded_Some {A : Type} (b : bool) (o : option A) x :
  (if b then None else o) = Some x -> b = false /\ o = Some x.
Proof. by destruct b. Qed.

Section Events.
Context (ea : value -> list ProjectionAttachment) (pb : value -> list ProjectionPart).
Context (msg : EventMessage) (t : Z) (data : data_map) (ps : projectionSession).
Hypothesis Hok : session_ok ps.

Lemma ok_turn_started : session_ok (apply_turn_started t data ps).
Proof.
  unfold apply_turn_started. case_if; [done|]. unfold setActiveTurnPersistOnly.
  set (ps1 := if _ && _ then _ else _).
  assert (session_ok ps1) as H1 by (subst ps1; case_if; [by apply (ok_ext ps)|done]).
  clearbody ps1. set (x := match the_turn _ _ with Some _ => _ | None => _ end). clearbody x.
  rewrite bool_decide_eq_false_2 by (by zprop). apply ok_set_exec; [apply phase_running|].
  by apply ok_upsertTurnPersistOnly.
Qed.

Lemma ok_user_message : session_ok (apply_user_message ea msg t data ps).
Proof. unfold apply_user_message. repeat case_if; try done; eauto 8 with reducer. Qed.

Lemma ok_user_message_removed : session_ok (apply_user_message_removed msg t data ps).
Proof.
  unfold apply_user_message_removed. pose proof (ok_remove_placeholder (dataString data "itemId") ps Hok) as H.
  destruct (removePendingPlaceholder _ ps) as [[] ps']; [by apply ok_commit|done].
Qed.

Lemma ok_turn_file_changes : session_ok (apply_turn_file_changes msg t data ps).
Proof. unfold apply_turn_file_changes. case_if; [done|]. destruct (turnByID _ ps); [|done]. case_if; auto with reducer. Qed.

Lemma ok_system_message : session_ok (apply_system_message msg t data ps).
Proof. unfold apply_system_message. case_if; auto with reducer. Qed.

Lemma ok_context_compaction : session_ok (apply_context_compaction msg t data ps).
Proof.
  unfold apply_context_compaction. case_if; [done|]. case_if; [done|].
  match goal with |- context [turnByID ?id ?x] => set (ps1 := x) end.
  assert (session_ok ps1) as H1 by (subst ps1; destruct (the_turn _ ps); auto with reducer).
  destruct (turnByID _ ps1) eqn:E; [|done].
  assert (forall a b c, session_ok (stage a n (at_turn n (compact_system a b c) ps1)) \/ a <> dataString data "turnId") as H2.
  { intros a b c. destruct (decide (a = dataString data "turnId")) as [->|]; [left|by right].
    by apply (ok_stage_changed _ _ _ ps1); auto with reducer. }
  match goal with |- context [stage ?a n (at_turn n (compact_system _ ?b ?c) ps1)] => destruct (H2 a b c) as [H3|]; [|done] end.
  case_if; auto with reducer.
Qed.

Lemma ok_session_command : session_ok (apply_session_command msg t data ps).
Proof. unfold apply_session_command. case_if; auto with reducer. Qed.

Lemma ok_context_injection : session_ok (apply_context_injection msg t data ps).
Proof.
  unfold apply_context_injection. case_if; [done|]. cbv zeta.
  destruct (if bool_decide (dataString data "turnId" = "") then _ else _) as [i|] eqn:E; [|auto with reducer].
  apply guarded_Some in E as [_ E]. apply (ok_stage_changed _ _ _ (commit msg t ps)); auto with reducer.
Qed.

Lemma ok_workflow_run : session_ok (apply_workflow_run msg t data ps).
Proof.
  unfold apply_workflow_run. case_if; [done|]. cbv zeta.
  destruct (if bool_decide (or_else _ _ = "") then _ else _) as [i|]; [|done].
  apply ok_stageTurnForFlush.
  match goal with |- context [at_turn i ?f ?x] => assert (session_ok (at_turn i f x)) as H1 end.
  { apply ok_at_turn; auto with reducer. intros u. simpl. apply ensure_assistant_id. }
  by apply (ok_ext _ _ H1).
Qed.

Lemma ok_views :
  session_ok (apply_plan_mode msg t data ps) /\ session_ok (apply_session_mode msg t data ps) /\
  session_ok (apply_collaboration_mode msg t data ps) /\ session_ok (apply_session_goal msg t data ps).
Proof.
  pose proof (ok_commit msg t ps Hok) as H.
  split_and!; [unfold apply_plan_mode|unfold apply_session_mode|unfold apply_collaboration_mode|
    unfold apply_session_goal]; repeat (case_if; [done|]); by apply (ok_ext _ _ H).
Qed.

Lemma ok_goal_record : session_ok (apply_goal_record msg t data ps).
Proof.
  unfold apply_goal_record. destruct (goal_record_view msg data) as [view|]; [|done]. case_if; [done|].
  match goal with |- context [set_codexGoal ?v ?x] => assert (session_ok (set_codexGoal v x)) as H1 end.
  { by apply (ok_ext (commit msg t ps)); [apply ok_commit|..]. }
  destruct (cg_Goal view); auto with reducer.
Qed.

Lemma ok_text_delta : session_ok (apply_text_delta msg t data ps).
Proof.
  unfold apply_text_delta. case_if; [done|].
  assert (session_ok (ensure_turn (or_else (dataString data "turnId") (dataString data "itemId")) (commit msg t ps))) as H1
    by auto with reducer.
  destruct (turnByID _ _) as [i|] eqn:E; [|done]. destruct (turns _ !! i) as [u|]; [|done]. cbv zeta.
  apply ok_markRunning.
  case_if; [by ok_changed E|].
  match goal with |- context [set_textAppends ?v ?x] => assert (session_ok (set_textAppends v x)) as H2 end.
  { match goal with |- context [at_turn i ?f ?x] => assert (session_ok (at_turn i f x)) as H2 by auto with reducer end.
    by apply (ok_ext _ _ H2). }
  case_if; [done|]. apply (ok_stage_same _ _ _ _ E); [|done].
  match goal with |- context [at_turn i ?f ?x] => exact (ids_at_turn i f x ltac:(auto with reducer)) end.
Qed.

Lemma ok_reasoning_delta : session_ok (apply_reasoning_delta msg t data ps).
Proof.
  unfold apply_reasoning_delta. case_if; [done|].
  assert (session_ok (ensure_turn (or_else (dataString data "turnId") (dataString data "itemId")) (commit msg t ps))) as H1
    by auto with reducer.
  destruct (turnByID _ _) as [i|] eqn:E; [|done]. destruct (turns _ !! i) as [u|]; [|done]. cbv zeta.
  destruct (reasoning_parts _ _ _) as [[added text] parts]. apply ok_markRunning.
  match goal with |- context [set_thinking ?v ?x] => assert (session_ok (set_thinking v x)) as H2 end.
  { match goal with |- context [at_turn i ?f ?x] => assert (session_ok (at_turn i f x)) as H2 by auto with reducer end.
    by apply (ok_ext _ _ H2). }
  case_if; [|done]. apply (ok_stage_same _ _ _ _ E); [|done].
  match goal with |- context [at_turn i ?f ?x] => exact (ids_at_turn i f x ltac:(auto with reducer)) end.
Qed.

Lemma ok_tool : session_ok (apply_tool msg t data ps).
Proof.
  unfold apply_tool. destruct (if _ || _ then _ else _) as [i|] eqn:E; [|done]. cbv zeta.
  destruct (_ && negb _); [done|]. auto 8 with reducer.
Qed.

Lemma ok_subagent : session_ok (apply_subagent pb msg t data ps).
Proof.
  unfold apply_subagent. destruct (if _ || _ then _ else _) as [i|] eqn:E; [|done]. cbv zeta. auto 8 with reducer.
Qed.

Lemma ok_permission_request : session_ok (apply_permission_request msg t data ps).
Proof.
  unfold apply_permission_request. case_if; [done|]. cbv zeta.
  match goal with |- context [ensure_turn ?id ?x] => assert (session_ok (ensure_turn id x)) as H1 end.
  { apply ok_ensure_turn. by apply (ok_ext (commit msg t ps)); [apply ok_commit|..]. }
  destruct (turnByID _ _); [|done]. auto 8 with reducer.
Qed.

Lemma ok_permission_resolved : session_ok (apply_permission_resolved msg t data ps).
Proof.
  unfold apply_permission_resolved. case_if; [done|]. cbv zeta. destruct (permission_turn _ ps); [|done].
  destruct (turns ps !! n); [|done]. auto 8 with reducer.
Qed.

Lemma ok_put_card id i part x : session_ok x -> session_ok (put_card id i part x).
Proof.
  intros H. unfold put_card. match goal with |- context [at_turn i ?f x] => assert (session_ok (at_turn i f x)) as H1 end.
  { apply ok_at_turn; [|done]. intros u. apply ensure_assistant_id. }
  by apply (ok_ext _ _ H1).
Qed.

Lemma ok_update_card id iid i f x : session_ok x -> session_ok (update_card id iid i f x).
Proof.
  intros H. unfold update_card. destruct (turns x !! i) as [u|]; [|done].
  destruct (findUserInputPart _ _) as [k|]; [|done].
  assert (session_ok (at_turn i (on_assistant_parts (alter f k)) x)) as H1 by auto with reducer.
  destruct (assistant_parts u !! k); [|done]. by apply (ok_ext _ _ H1).
Qed.

Lemma ok_question_asked : session_ok (apply_question_asked msg t data ps).
Proof.
  unfold apply_question_asked. case_if; [done|]. cbv zeta. destruct (turnByID _ _); [|auto with reducer].
  apply ok_applyUserInputExecution, ok_stageTurnForFlush, ok_put_card. auto with reducer.
Qed.

Lemma ok_question_resolved : session_ok (apply_question_resolved msg t data ps).
Proof.
  unfold apply_question_resolved. case_if; [done|]. cbv zeta. destruct (turnByID _ ps); [|done].
  destruct (_ ≫= _); [|done]. apply ok_applyUserInputExecution, ok_update_card. auto with reducer.
Qed.

Lemma ok_user_input :
  session_ok (apply_user_input_requested msg t data ps) /\ session_ok (apply_user_input_submitted msg t data ps) /\
  session_ok (apply_user_input_resolved msg t data ps).
Proof.
  split_and!.
  - unfold apply_user_input_requested. case_if; [done|]. cbv zeta. case_if; [done|].
    destruct (turnByID _ (ensure_turn _ _)); [|auto with reducer].
    apply ok_converge, ok_applyUserInputExecution, ok_stageTurnForFlush, ok_put_card. auto with reducer.
  - unfold apply_user_input_submitted. destruct (if bool_decide _ then _ else card_of _ _ _) as [[[id i] p]|]; [|done]. case_if; [done|].
    apply ok_converge, ok_applyUserInputExecution, ok_stageTurnForFlush, ok_update_card. auto with reducer.
  - unfold apply_user_input_resolved. destruct (if bool_decide _ then _ else card_of _ _ _) as [[[id i] p]|]; [|done].
    apply ok_converge, ok_applyUserInputExecution, ok_update_card. auto with reducer.
Qed.

Lemma ok_end_turn id x : session_ok x -> session_ok (end_turn id x).
Proof. intros H. unfold end_turn. apply ok_publish_exec; auto with reducer. Qed.

Lemma ok_turn_completed : session_ok (apply_turn_completed msg t data ps).
Proof.
  unfold apply_turn_completed. case_if; [done|]. cbv zeta. apply ok_end_turn.
  destruct (turnByID _ _) as [i|] eqn:E; [|auto with reducer]. apply (ok_stage_same _ _ _ _ E).
  - rewrite ids_settle_cards, ids_interrupt, ids_at_turn by auto with reducer. case_if; [|done].
    by rewrite ids_at_turn.
  - apply ok_settle_cards, ok_interrupt, ok_at_turn; [auto with reducer|].
    case_if; [apply ok_at_turn; [done|]|]; auto with reducer.
Qed.

Lemma ok_turn_failed : session_ok (apply_turn_failed msg t data ps).
Proof.
  unfold apply_turn_failed. case_if; [done|]. cbv zeta. apply ok_end_turn.
  destruct (turnByID _ _) as [i|] eqn:E; [|auto with reducer]. apply (ok_stage_same _ _ _ _ E).
  - by rewrite ids_interrupt, ids_at_turn by auto with reducer.
  - apply ok_interrupt, ok_at_turn; auto with reducer.
Qed.
End Events.

Lemma ok_apply_event ea pb msg now ps : session_ok ps -> session_ok (apply_event ea pb msg now ps).
Proof.
  intros H. unfold apply_event. cbv zeta.
  pose proof (ok_views msg now (asDataMap (Data msg)) ps H) as (?&?&?&?).
  pose proof (ok_user_input msg now (asDataMap (Data msg)) ps H) as (?&?&?).
  case_if; [exact (ok_turn_started now _ ps H)|].
  case_if; [exact (ok_user_message ea msg now _ ps H)|].
  case_if; [exact (ok_user_message_removed msg now _ ps H)|].
  case_if; [exact (ok_turn_file_changes msg now _ ps H)|].
  case_if; [exact (ok_system_message msg now _ ps H)|].
  case_if; [exact (ok_context_compaction msg now _ ps H)|].
  case_if; [exact (ok_session_command msg now _ ps H)|].
  case_if; [exact (ok_context_injection msg now _ ps H)|].
  case_if; [exact (ok_workflow_run msg now _ ps H)|].
  case_if; [assumption|].
  case_if; [assumption|].
  case_if; [assumption|].
  case_if; [exact (ok_goal_record msg now _ ps H)|].
  case_if; [assumption|].
  case_if; [exact (ok_text_delta msg now _ ps H)|].
  case_if; [exact (ok_reasoning_delta msg now _ ps H)|].
  case_if; [exact (ok_tool msg now _ ps H)|].
  case_if; [exact (ok_subagent pb msg now _ ps H)|].
  case_if; [exact (ok_permission_request msg now _ ps H)|].
  case_if; [exact (ok_permission_resolved msg now _ ps H)|].
  case_if; [exact (ok_question_asked msg now _ ps H)|].
  case_if; [exact (ok_question_resolved msg now _ ps H)|].
  case_if; [assumption|].
  case_if; [assumption|].
  case_if; [assumption|].
  case_if; [exact (ok_turn_completed msg now _ ps H)|].
  case_if; [exact (ok_turn_failed msg now _ ps H)|].
  done.
Qed.

(** ** What one event can be *)

Lemma one_word w s : one_of_words [w] s = true -> s = w.
Proof. intros H. by apply bool_decide_eq_true_1, list_elem_of_singleton in H. Qed.

(** The handler of an event, by its name. *)
Section Handled.
Context (ea : value -> list ProjectionAttachment) (pb : value -> list ProjectionPart).
Context (msg : EventMessage) (now : Z) (ps : projectionSession).

Definition payload : data_map := asDataMap (Data msg).

Inductive handled : projectionSession -> Prop :=
| HTurnStarted : Event msg = "turn_started" -> handled (apply_turn_started now payload ps)
| HUserMessage : handled (apply_user_message ea msg now payload ps)
| HUserMessageRemoved : handled (apply_user_message_removed msg now payload ps)
| HTurnFileChanges : handled (apply_turn_file_changes msg now payload ps)
| HSystemMessage : handled (apply_system_message msg now payload ps)
| HContextCompaction : handled (apply_context_compaction msg now payload ps)
| HSessionCommand : handled (apply_session_command msg now payload ps)
| HContextInjection : handled (apply_context_injection msg now payload ps)
| HWorkflowRun : handled (apply_workflow_run msg now payload ps)
| HPlanMode : handled (apply_plan_mode msg now payload ps)
| HSessionMode : handled (apply_session_mode msg now payload ps)
| HCollaborationMode : handled (apply_collaboration_mode msg now payload ps)
| HGoalRecord : handled (apply_goal_record msg now payload ps)
| HSessionGoal : handled (apply_session_goal msg now payload ps)
| HTextDelta : handled (apply_text_delta msg now payload ps)
| HReasoningDelta : handled (apply_reasoning_delta msg now payload ps)
| HTool : handled (apply_tool msg now payload ps)
| HSubagent : Event msg = "subagent_part" -> handled (apply_subagent pb msg now payload ps)
| HPermissionRequest : handled (apply_permission_request msg now payload ps)
| HPermissionResolved : handled (apply_permission_resolved msg now payload ps)
| HQuestionAsked : Event msg = "question_asked" -> handled (apply_question_asked msg now payload ps)
| HQuestionResolved : handled (apply_question_resolved msg now payload ps)
| HUserInputRequested : handled (apply_user_input_requested msg now payload ps)
| HUserInputSubmitted : handled (apply_user_input_submitted msg now payload ps)
| HUserInputResolved : handled (apply_user_input_resolved msg now payload ps)
| HTurnCompleted : handled (apply_turn_completed msg now payload ps)
| HTurnFailed : handled (apply_turn_failed msg now payload ps)
| HOther : handled ps.

Lemma apply_event_handled : handled (apply_event ea pb msg now ps).
Proof.
  unfold apply_event. cbv zeta. fold payload.
  repeat (case_if; [constructor; match goal with H : one_of_words _ _ = true |- _ => exact (one_word _ _ H) end|]).
  constructor.
Qed.
End Handled.

(** ** Revisions *)

(** The numbers of a session: the last input sequence, the last flushed and the
    current revision, and when it was taken. *)
Definition meta (ps : projectionSession) : Z * Z * Z * Z :=
  (lastAppliedRev ps, lastFlushedRev ps, sp_SyncRev (projection ps), sp_UpdatedAt (projection ps)).

Lemma meta_at_turn i f ps : meta (at_turn i f ps) = meta ps.
Proof. done. Qed.
Lemma meta_stage id i ps : meta (stage id i ps) = meta ps.
Proof. unfold stage. by destruct (turns ps !! i). Qed.
Lemma meta_upsertTurn t ps : meta (upsertTurn t ps) = meta ps.
Proof. unfold upsertTurn. case_if; [done|]. destruct (turnByID _ ps); [by rewrite meta_stage|done]. Qed.
Lemma meta_ensure_turn id ps : meta (ensure_turn id ps) = meta ps.
Proof. unfold ensure_turn. destruct (turnByID id ps); [done|by rewrite meta_upsertTurn]. Qed.
Lemma meta_upsertTurnPersistOnly t ps : meta (upsertTurnPersistOnly t ps) = meta ps.
Proof. unfold upsertTurnPersistOnly. case_if; [done|]. by destruct (turnByID _ ps). Qed.
Lemma meta_remove id ps : meta (snd (removePendingPlaceholder id ps)) = meta ps.
Proof. unfold removePendingPlaceholder. case_if; [done|]. by destruct (list_find _ _) as [[]|]. Qed.
Lemma meta_command a b c d e n ps : meta (upsertSessionCommandTurn a b c d e n ps) = meta ps.
Proof. unfold upsertSessionCommandTurn. destruct (turnByID _ ps); [by rewrite meta_upsertTurn|done]. Qed.
Lemma meta_settleOtherOpenTurns a n ps : meta (settleOtherOpenTurns a n ps) = meta ps.
Proof.
  unfold settleOtherOpenTurns. apply (fold_left_keeps (fun x => meta x = meta ps)); [|done].
  intros x i <-. unfold settle_at. destruct (turns x !! i); [|done]. case_if; [|done]. by rewrite meta_stage.
Qed.
Lemma meta_markRunning id ps : meta (markRunning id ps) = meta ps.
Proof.
  unfold markRunning. case_if; [done|]. rewrite meta_settleOtherOpenTurns.
  destruct (turnByID id _) as [i|]; [|done]. destruct (turns _ !! i); [|done].
  destruct (terminal _); [done|]. case_if; [by rewrite meta_stage|done].
Qed.
Lemma meta_stageTurnForFlush id ps : meta (stageTurnForFlush id ps) = meta ps.
Proof. unfold stageTurnForFlush. case_if; [done|]. destruct (turnByID id ps); [by rewrite meta_stage|done]. Qed.
Lemma meta_exec id ps : meta (applyUserInputExecution id ps) = meta ps.
Proof.
  unfold applyUserInputExecution. case_if; [done|]. case_if; [done|]. destruct (the_turn id ps); [|done].
  case_if; [by rewrite meta_markRunning|done].
Qed.
Lemma meta_converge iid ps : meta (convergeUserInputCopies iid ps) = meta ps.
Proof.
  unfold convergeUserInputCopies. destruct (locateUserInputParts iid ps) as [|loc locs]; [done|].
  cbv zeta. match goal with |- context [fold_left stage_if_present ?l ?x] => assert (meta x = meta ps) as <- end.
  { match goal with |- meta (set_userInputs _ ?x) = _ => change (meta x = meta ps) end.
    apply (fold_left_keeps (fun x => meta x = meta ps)); [|done].
    intros x id <-. unfold converge_at. destruct (turnByID id x); [|done]. destruct (turns x !! n); [|done].
    destruct (findUserInputPart _ _); [|done]. by case_if. }
  match goal with |- meta (fold_left stage_if_present ?l ?x) = _ =>
    apply (fold_left_keeps (fun y => meta y = meta x)); [|done] end.
  intros y id <-. unfold stage_if_present. destruct (turnByID id y); [by rewrite meta_stage|done].
Qed.
Lemma meta_terminated id ps : meta (markTurnUserInputsTerminated id ps) = meta ps.
Proof.
  unfold markTurnUserInputsTerminated. destruct (turnByID id ps) as [i|]; [|done].
  destruct (turns ps !! i); [|done]. case_if; [done|]. cbv zeta. by rewrite meta_exec, meta_stage.
Qed.
Lemma meta_interrupt i ps : meta (interruptRunningWorkflowParts i ps) = meta ps.
Proof. unfold interruptRunningWorkflowParts. by destruct (turns ps !! i). Qed.
Lemma meta_settle_cards i ps : meta (settleResolvedPermissionCards i ps) = meta ps.
Proof. unfold settleResolvedPermissionCards. by destruct (turns ps !! i). Qed.
Lemma meta_record_tool a b i ps : meta (record_tool a b i ps) = meta ps.
Proof. unfold record_tool. by destruct (_ ≫= _). Qed.
Lemma meta_update_card a b i f ps : meta (update_card a b i f ps) = meta ps.
Proof.
  unfold update_card. destruct (turns ps !! i) as [t|]; [|done]. destruct (findUserInputPart _ _) as [k|]; [|done].
  by destruct (assistant_parts t !! k).
Qed.
Lemma meta_end_turn id ps : meta (end_turn id ps) = meta ps.
Proof.
  unfold end_turn. change (meta (publish_exec ?e ?x)) with (meta x).
  by rewrite meta_settleOtherOpenTurns, meta_terminated.
Qed.

Create Rewrite HintDb meta.
#[export] Hint Rewrite meta_at_turn meta_stage meta_upsertTurn meta_ensure_turn meta_upsertTurnPersistOnly
  meta_remove meta_command meta_settleOtherOpenTurns meta_markRunning meta_stageTurnForFlush meta_exec
  meta_converge meta_terminated meta_interrupt meta_settle_cards meta_record_tool meta_update_card
  meta_end_turn : meta.

(** An event either changes nothing or takes the next revision. *)
Definition one_revision (msg : EventMessage) (now : Z) (ps ps' : projectionSession) : Prop :=
  ps' = ps \/ meta ps' = (PerSessionSeq msg, lastFlushedRev ps, sp_SyncRev (projection ps) + 1, now).

Lemma meta_commit msg now ps :
  meta (commit msg now ps) = (PerSessionSeq msg, lastFlushedRev ps, sp_SyncRev (projection ps) + 1, now).
Proof. unfold commit. by case_bool_decide. Qed.

Lemma taken msg now ps ps' : meta ps' = meta (commit msg now ps) -> one_revision msg now ps ps'.
Proof. intros H. right. by rewrite H, meta_commit. Qed.

Lemma untouched msg now ps : one_revision msg now ps ps.
Proof. by left. Qed.

(** Setting fields that carry no number leaves [meta] as it is; then the calls. *)
Ltac meta_step :=
  match goal with
  | |- meta (?f ?x) = _ => change (meta (f x)) with (meta x)
  | |- meta (?f ?a ?x) = _ => change (meta (f a x)) with (meta x)
  | |- meta (?f ?a ?b ?x) = _ => change (meta (f a b x)) with (meta x)
  | |- meta (if ?c then _ else _) = _ => destruct c
  end.
Ltac metas := autorewrite with meta; repeat (meta_step; autorewrite with meta); reflexivity.
Ltac revision := first [apply untouched | apply taken; metas].

(** Case analysis on the option the goal matches on. *)
Ltac case_option := match goal with |- context [match ?x with Some _ => _ | None => _ end] => destruct x end.

Lemma event_one_revision ea pb msg now ps ps' :
  handled ea pb msg now ps ps' -> Event msg <> "turn_started" -> one_revision msg now ps ps'.
Proof.
  intros H Hne. destruct H; try done.
  - unfold apply_user_message. repeat case_if; revision.
  - unfold apply_user_message_removed.
    pose proof (meta_remove (dataString (payload msg) "itemId") ps) as Hm.
    destruct (removePendingPlaceholder _ ps) as [[] ps']; [|apply untouched]. right.
    rewrite meta_commit. simpl in Hm. injection Hm as _ -> -> _. done.
  - unfold apply_turn_file_changes. case_if; [revision|]. destruct (turnByID _ ps); [|revision]. case_if; revision.
  - unfold apply_system_message. cbv zeta. case_if; revision.
  - unfold apply_context_compaction. case_if; [revision|]. cbv zeta. case_if; [revision|].
    match goal with |- context [turnByID ?id ?x] => set (ps1 := x); assert (meta ps1 = meta (commit msg now ps)) as Hm end.
    { subst ps1. destruct (the_turn _ ps); metas. }
    destruct (turnByID _ ps1); [|by apply taken]. apply taken. rewrite <- Hm. case_if; metas.
  - unfold apply_session_command. cbv zeta. case_if; revision.
  - unfold apply_context_injection. case_if; [revision|]. cbv zeta. case_option; revision.
  - unfold apply_workflow_run. case_if; [revision|]. cbv zeta. case_option; revision.
  - unfold apply_plan_mode. cbv zeta. case_if; revision.
  - unfold apply_session_mode. cbv zeta. repeat (case_if; [revision|]). revision.
  - unfold apply_collaboration_mode. cbv zeta. repeat (case_if; [revision|]). revision.
  - unfold apply_goal_record. destruct (goal_record_view _ _) as [v|]; [|revision]. case_if; [revision|].
    destruct (cg_Goal v); revision.
  - unfold apply_session_goal. cbv zeta. repeat (case_if; [revision|]). revision.
  - unfold apply_text_delta. case_if; [revision|]. cbv zeta.
    destruct (turnByID _ _); [|revision]. destruct (turns _ !! n); revision.
  - unfold apply_reasoning_delta. case_if; [revision|]. cbv zeta.
    destruct (turnByID _ _); [|revision]. destruct (turns _ !! n); [|revision].
    destruct (reasoning_parts _ _ _) as [[]]. revision.
  - unfold apply_tool. cbv zeta. case_option; [|revision]. destruct (_ && negb _); revision.
  - unfold apply_subagent. cbv zeta. case_option; revision.
  - unfold apply_permission_request. case_if; [revision|]. cbv zeta. destruct (turnByID _ _); revision.
  - unfold apply_permission_resolved. case_if; [revision|]. cbv zeta. destruct (permission_turn _ ps); [|revision].
    destruct (turns ps !! n); revision.
  - unfold apply_question_asked. case_if; [revision|]. cbv zeta. destruct (turnByID _ _); revision.
  - unfold apply_question_resolved. case_if; [revision|]. cbv zeta. destruct (turnByID _ ps); [|revision].
    destruct (_ ≫= _); revision.
  - unfold apply_user_input_requested. case_if; [revision|]. cbv zeta. case_if; [revision|].
    destruct (turnByID _ (ensure_turn _ _)); revision.
  - unfold apply_user_input_submitted. destruct (if bool_decide _ then _ else card_of _ _ _) as [[[id i] p]|];
      [|revision]. case_if; revision.
  - unfold apply_user_input_resolved. destruct (if bool_decide _ then _ else card_of _ _ _) as [[[id i] p]|]; revision.
  - unfold apply_turn_completed. case_if; [revision|]. cbv zeta. destruct (turnByID _ _); revision.
  - unfold apply_turn_failed. case_if; [revision|]. cbv zeta. destruct (turnByID _ _); revision.
  - apply untouched.
Qed.

Lemma turn_started_meta now data ps : meta (apply_turn_started now data ps) = meta ps.
Proof.
  unfold apply_turn_started. case_if; [done|]. cbv zeta. unfold setActiveTurnPersistOnly. rewrite Hif.
  match goal with |- meta (set_exec ?e ?x) = _ => change (meta x = meta ps) end.
  rewrite meta_upsertTurnPersistOnly. by case_if.
Qed.

(** ** Every call on a session *)

Inductive session_op : Type :=
| SEvent (msg : EventMessage) (now : Z)
| SExternal (now : Z) (phase : string)
| SFlush
| SDrop
| SPrepend (l : list TurnProjection)
| SState (v2 : bool) (ops : list TurnStateOp)
| SMerge (turnID : string) (generation : Z) (detailParts : list ProjectionPart).

(** What moves the fence [lastFlushedRev]: a patch that is sent, or a stretch of
    revisions that never is. *)
Inductive fence : Type := Sent (p : ProjectionPatch) | Skipped (base sync : Z).
Definition fence_base (f : fence) : Z := match f with Sent p => pt_BaseRev p | Skipped b _ => b end.
Definition fence_sync (f : fence) : Z := match f with Sent p => pt_SyncRev p | Skipped _ s => s end.

(** Each fence starts where the one before it ended. *)
Fixpoint fences (r : Z) (l : list fence) (h : Z) : Prop :=
  match l with
  | [] => r = h
  | f :: l => fence_base f = r /\ r <= fence_sync f /\ fences (fence_sync f) l h
  end.

(** The patches of a commit, and the session after it. *)
Definition committed (res : DetailError + (list ProjectionPatch * projectionSession)) (ps : projectionSession)
  : list fence * projectionSession :=
  match res with inr (patches, ps') => (map Sent patches, ps') | inl _ => ([], ps) end.

Section Run.
Context (ea : value -> list ProjectionAttachment) (pb : value -> list ProjectionPart).

Definition exec_op (o : session_op) (ps : projectionSession) : list fence * projectionSession :=
  match o with
  | SEvent msg now => ([], apply_session ea pb msg now ps)
  | SExternal now phase => ([], snd (external_state now phase ps))
  | SFlush => match flushLocked ps with (Some p, ps') => ([Sent p], ps') | (None, ps') => ([], ps') end
  | SDrop =>
      match drop_pending ps with
      | (true, ps') => ([Skipped (lastFlushedRev ps) (sp_SyncRev (projection ps))], ps')
      | (false, ps') => ([], ps')
      end
  | SPrepend l =>
      match prepend_turns l ps with
      | inr ps' => ([Skipped (lastFlushedRev ps) (sp_SyncRev (projection ps'))], ps')
      | inl _ => ([], ps)
      end
  | SState v2 [] => ([], ps)
  | SState v2 ops => committed (commit_batch (if v2 then ApplyTurnStateOpsV2 else ApplyTurnStateOps) ops ps) ps
  | SMerge turnID generation detailParts => committed (merge_detail turnID generation detailParts ps) ps
  end.

Fixpoint run_ops (ops : list session_op) (ps : projectionSession) : list fence * projectionSession :=
  match ops with
  | [] => ([], ps)
  | o :: ops =>
      let '(l, ps) := exec_op o ps in
      let '(l', ps) := run_ops ops ps in (l ++ l', ps)
  end.

Lemma ok_apply_session msg now ps : session_ok ps -> session_ok (apply_session ea pb msg now ps).
Proof. intros H. unfold apply_session. case_if; [done|by apply ok_apply_event]. Qed.

Lemma ok_stageOwning ps : session_ok ps -> session_ok (stageOwningTurnsForPendingParts ps).
Proof.
  intros H. unfold stageOwningTurnsForPendingParts. cbv zeta.
  apply (fold_left_keeps session_ok); [intros; by apply ok_stageTurnForFlush|].
  apply (fold_left_keeps session_ok); [intros; by apply ok_stageTurnForFlush|].
  case_if; [done|by apply ok_stageTurnForFlush].
Qed.

Lemma meta_stageOwning ps : meta (stageOwningTurnsForPendingParts ps) = meta ps.
Proof.
  unfold stageOwningTurnsForPendingParts. cbv zeta.
  apply (fold_left_keeps (fun x => meta x = meta ps)); [intros x ? <-; apply meta_stageTurnForFlush|].
  apply (fold_left_keeps (fun x => meta x = meta ps)); [intros x ? <-; apply meta_stageTurnForFlush|].
  case_if; [done|apply meta_stageTurnForFlush].
Qed.

Lemma ok_cleared ps : session_ok ps -> session_ok (cleared ps).
Proof. intros [H1 H2 H3 H4 H5]. split; try done. Qed.

Lemma ok_flush ps : session_ok ps -> session_ok (snd (flushLocked ps)).
Proof. intros H. unfold flushLocked. apply ok_stageOwning in H. case_if; [done|by apply ok_cleared]. Qed.

Lemma ok_external now phase ps : session_ok ps -> session_ok (snd (external_state now phase ps)).
Proof.
  intros H. unfold external_state. cbv zeta. case_if; [done|]. zprop. cbn [snd].
  apply ok_publish_exec.
  - cbn. apply bool_decide_eq_true_1 in H0. set_solver.
  - apply (ok_ext ps); try done. cbn. lia.
Qed.

Lemma prepare_turns_ids i ex l l' :
  prepare_turns i ex l = inr l' ->
  map tp_TurnID l' = map tp_TurnID l /\ NoDup (map tp_TurnID l) /\
  forall id, id ∈ map tp_TurnID l -> id <> "" /\ id ∉ ex.
Proof.
  revert i ex l'. induction l as [|t l IH]; intros i ex l'; simpl.
  - intros [= <-]. split; [done|]. split; [constructor|]. intros id Hid. by apply not_elem_of_nil in Hid.
  - case_bool_decide as Hne; [done|]. case_bool_decide as Hex; [done|].
    destruct (prepare_turns (S i) _ l) as [|l''] eqn:E; [done|]. intros [= <-].
    destruct (IH _ _ _ E) as (Hm & Hnd & Hall). split; [|split].
    + simpl. rewrite Hm. f_equal. by case_if.
    + constructor; [|done]. intros Hin. apply Hall in Hin as [_ Hin]. apply Hin. set_solver.
    + intros id Hid. apply elem_of_cons in Hid as [->|Hid]; [done|]. apply Hall in Hid as [H1 H2]. split; [done|].
      intros Hx. apply H2, elem_of_union. right. apply elem_of_difference. split; [done|]. set_solver.
Qed.

Lemma ok_prepend l ps ps' : session_ok ps -> prepend_turns l ps = inr ps' ->
  session_ok ps' /\ lastFlushedRev ps' = sp_SyncRev (projection ps') /\
  sp_SyncRev (projection ps') = sp_SyncRev (projection ps) + 1.
Proof.
  intros [H1 H2 H3 H4 H5]. unfold prepend_turns. destruct (prepare_turns _ _ _) as [|l'] eqn:E; [done|].
  intros [= <-]. apply prepare_turns_ids in E as (Hm & Hnd & Hall).
  assert (map tp_TurnID (map cloneTurn l) = map tp_TurnID l) as Hc by (rewrite map_map; by apply map_ext).
  rewrite Hc in *.
  assert (forall id, id ∈ map tp_TurnID l -> id ∉ ids ps) as Hnew.
  { intros id Hid Hin. destruct (Hall id Hid) as [Hne Hex]. apply Hex, elem_of_list_to_set, list_elem_of_filter. done. }
  split; [|done]. split; try done.
  - change (NoDup (map tp_TurnID (l' ++ turns ps))). rewrite map_app, Hm. apply NoDup_app. done.
  - change ("" ∉ map tp_TurnID (l' ++ turns ps)). rewrite map_app, Hm, elem_of_app. intros [Hx|Hx]; [|done].
    by apply Hall in Hx as [? _].
  - intros id Hid. change (id ∈ map tp_TurnID (l' ++ turns ps)). rewrite map_app. apply elem_of_app. right. by apply H3.
Qed.

Lemma ok_drain ops partOps ps : session_ok ps -> session_ok (snd (drain_and_commit ops partOps ps)).
Proof.
  intros H. unfold drain_and_commit. pose proof (ok_flush ps H) as H1. destruct (flushLocked ps) as [live ps1].
  destruct H1 as [H1 H2 H3 H4 H5]. by split.
Qed.

Lemma ids_fold_alter (mut : TurnStateOp -> TurnProjection -> TurnProjection) muts l :
  (forall op, keeps_id (mut op)) ->
  map tp_TurnID (fold_left (fun l m => alter (mut (snd m)) (fst m) l) muts l) = map tp_TurnID l.
Proof.
  intros Hm. revert l. induction muts as [|[i op] muts IH]; intros l; simpl; [done|]. rewrite IH.
  clear IH. revert i. induction l as [|t l IH]; intros [|i]; simpl; try done; [by rewrite Hm|f_equal; apply IH].
Qed.

Lemma batch_frame valid check mut s ops s' :
  (forall op, keeps_id (mut op)) -> apply_batch valid check mut s ops = inr s' ->
  map tp_TurnID (sp_Turns s') = map tp_TurnID (sp_Turns s) /\ sp_SyncRev s' = sp_SyncRev s /\
  sp_Execution s' = sp_Execution s.
Proof.
  intros Hm. unfold apply_batch. case_if; [done|]. destruct (plan _ _ _ _) as [|muts]; [done|]. intros [= <-].
  split; [by apply ids_fold_alter|done].
Qed.

Lemma mutate_id op : keeps_id (mutate op) /\ keeps_id (mutate_v2 op).
Proof. done. Qed.

Lemma merge_target_id parts : keeps_id (merge_target parts).
Proof.
  intros t. unfold merge_target, on_assistant_parts. by destruct parts, (tp_Assistant t) eqn:E; cbn; try rewrite E.
Qed.

Lemma ok_commit_batch (v2 : bool) ops ps :
  session_ok ps -> session_ok (snd (committed (commit_batch (if v2 then ApplyTurnStateOpsV2 else ApplyTurnStateOps) ops ps) ps)).
Proof.
  intros H. unfold commit_batch. destruct (_ (projection ps) ops) as [|s] eqn:E; [done|].
  assert (map tp_TurnID (sp_Turns s) = ids ps /\ sp_SyncRev s = sp_SyncRev (projection ps) /\
    sp_Execution s = sp_Execution (projection ps)) as (H1 & H2 & H3).
  { destruct v2; apply batch_frame in E; try done; apply mutate_id. }
  unfold committed. pose proof (ok_drain ops [] (set_projection s ps)) as Hd.
  destruct (drain_and_commit _ _ _). apply Hd. apply (ok_ext ps); try done. cbn. lia.
Qed.

Lemma ok_merge turnID generation parts ps :
  session_ok ps -> session_ok (snd (committed (merge_detail turnID generation parts ps) ps)).
Proof.
  intros H. unfold merge_detail. destruct (_ ≫= _) as [[i t]|]; [|done]. case_if; [done|]. case_if; [done|]. cbv zeta.
  match goal with |- context [drain_and_commit ?o ?p ?x] => pose proof (ok_drain o p x) as Hd; destruct (drain_and_commit o p x) end.
  apply Hd, ok_at_turn; [apply merge_target_id|done].
Qed.

Lemma ok_exec_op o ps : session_ok ps -> session_ok (snd (exec_op o ps)).
Proof.
  intros H. destruct o as [msg now|now phase| | |l|v2 ops|turnID generation parts]; simpl.
  - by apply ok_apply_session.
  - by apply ok_external.
  - pose proof (ok_flush ps H) as H1. by destruct (flushLocked ps) as [[]].
  - unfold drop_pending. case_if; [done|]. apply (ok_ext (cleared ps)); try done. by apply ok_cleared.
  - destruct (prepend_turns l ps) eqn:E; [done|]. by apply (ok_prepend l ps).
  - destruct ops as [|op ops]; [done|]. by apply ok_commit_batch.
  - by apply ok_merge.
Qed.

Lemma ok_run_ops ops ps : session_ok ps -> session_ok (snd (run_ops ops ps)).
Proof.
  revert ps. induction ops as [|o ops IH]; intros ps H; simpl; [done|].
  pose proof (ok_exec_op o ps H) as H1. destruct (exec_op o ps) as [l ps1].
  specialize (IH ps1 H1). by destruct (run_ops ops ps1).
Qed.
End Run.

(** ** Patches *)

Lemma the_turn_live id ps : session_ok ps -> id ∈ ids ps ->
  exists t, the_turn id ps = Some t /\ t ∈ turns ps /\ tp_TurnID t = id.
Proof.
  intros _ Hin. destruct (turn_index_is_Some id (turns ps) Hin) as [i Hi].
  destruct (turn_index_Some _ _ _ Hi) as (t & Ht & Hid). exists t. split; [|split; [|done]].
  - unfold the_turn, turnByID. by rewrite Hi.
  - by eapply list_elem_of_lookup_2.
Qed.

(** The turns of a patch: live, one per staged identifier. *)
Lemma outgoing_live ps : session_ok ps ->
  map tp_TurnID (map (outgoing_turn ps) (map_to_list (upsertTurns ps))) = map fst (map_to_list (upsertTurns ps)) /\
  Forall (fun t => t ∈ turns ps) (map (outgoing_turn ps) (map_to_list (upsertTurns ps))).
Proof.
  intros H. assert (forall e, e ∈ map_to_list (upsertTurns ps) ->
    outgoing_turn ps e ∈ turns ps /\ tp_TurnID (outgoing_turn ps e) = fst e) as Hall.
  { intros [id t] He. apply elem_of_map_to_list in He.
    destruct (the_turn_live id ps H) as (u & Hu & Hin & Hid); [apply (ok_staged ps H); congruence|].
    unfold outgoing_turn. simpl. rewrite Hu. simpl. by rewrite cloneTurn_id. }
  split.
  - rewrite map_map. apply map_ext_in. intros e He. by apply Hall, list_elem_of_In.
  - apply Forall_forall. intros t Ht. apply list_elem_of_fmap in Ht as (e & -> & He). by apply Hall.
Qed.

Lemma stageOwning_frame ps :
  let ps' := stageOwningTurnsForPendingParts ps in
  turns ps' = turns ps /\ textAppends ps' = textAppends ps /\ removedTurns ps' = removedTurns ps.
Proof.
  assert (forall id x, turns (stageTurnForFlush id x) = turns x /\ textAppends (stageTurnForFlush id x) = textAppends x
    /\ removedTurns (stageTurnForFlush id x) = removedTurns x) as Hs.
  { intros id x. unfold stageTurnForFlush. case_if; [done|]. destruct (turnByID id x); [|done].
    unfold stage. by destruct (turns x !! n). }
  set (P x := turns x = turns ps /\ textAppends x = textAppends ps /\ removedTurns x = removedTurns ps).
  assert (forall id x, P x -> P (stageTurnForFlush id x)) as Hk.
  { intros id x (H1 & H2 & H3). destruct (Hs id x) as (E1 & E2 & E3). unfold P. rewrite E1, E2, E3. done. }
  cbv zeta. unfold stageOwningTurnsForPendingParts. cbv zeta. apply (fold_left_keeps P); [intros; by apply Hk|].
  apply (fold_left_keeps P); [intros; by apply Hk|]. case_if; [done|]. by apply Hk.
Qed.

(** Nothing is left to send. *)
Definition drained (ps : projectionSession) : Prop := flushLocked ps = (None, ps).

Lemma cleared_drained ps : drained (cleared ps).
Proof.
  unfold drained, flushLocked.
  assert (stageOwningTurnsForPendingParts (cleared ps) = cleared ps) as ->.
  { unfold stageOwningTurnsForPendingParts, cleared. cbn [tools userInputs workflows].
    rewrite bool_decide_eq_true_2 by done. cbn [userInputs workflows]. by rewrite !map_to_list_empty. }
  unfold cleared, no_delta, no_view. cbn. by rewrite Z.eqb_refl.
Qed.

(** C2. What a patch says is what the session holds: in every execution, each turn of
    a patch is a live turn of the projection, each at most once; text already
    inside a turn of the patch is not sent again as an append; and after the patch
    nothing more waits to be sent. *)
Theorem FlushPatch_live ea pb sid ops p ps' :
  let ps := snd (run_ops ea pb ops (new_session sid)) in
  flushLocked ps = (Some p, ps') ->
  Forall (fun t => t ∈ turns ps) (pt_UpsertTurns p) /\
  NoDup (map tp_TurnID (pt_UpsertTurns p)) /\
  (forall op, op ∈ pt_PartOps p -> po_Op op = "append_text" -> po_TurnID op ∉ map tp_TurnID (pt_UpsertTurns p)) /\
  turns ps' = turns ps /\ (forall t, t ∈ pt_UpsertTurns p -> tp_TurnID t ∈ publishedTurnShells ps') /\
  drained ps'.
Proof.
  intros ps Hf. assert (session_ok ps) as Hok by (apply ok_run_ops, ok_new). clearbody ps.
  pose proof (ok_stageOwning ps Hok) as Hok'. destruct (stageOwning_frame ps) as (Ht & _).
  unfold flushLocked in Hf. destruct (_ && no_view _); [done|]. injection Hf as <- <-.
  set (ps1 := stageOwningTurnsForPendingParts ps) in *. clearbody ps1. rewrite <- Ht.
  destruct (outgoing_live ps1 Hok') as [Hids Hlive]. unfold build_patch. cbn [pt_UpsertTurns pt_PartOps].
  split; [done|]. split; [|split; [|split; [done|split; [|apply cleared_drained]]]].
  - rewrite Hids. apply NoDup_fst_map_to_list.
  - intros op Hin Hop. rewrite Hids. intros Hid. unfold part_ops in Hin.
    assert (op ∈ map append_op (unshelled ps1)) as Ha.
    { rewrite !elem_of_app in Hin. destruct Hin as [Hin|[Hin|[Hin|[Hin|Hin]]]]; [done|..];
        apply list_elem_of_fmap in Hin as (e & -> & _); done. }
    apply list_elem_of_fmap in Ha as ([id ds] & -> & He). apply list_elem_of_filter in He as [Hnone _].
    apply list_elem_of_fmap in Hid as ([id' t] & Hid & Hin'). apply elem_of_map_to_list in Hin'.
    simpl in *. congruence.
  - intros t Hin. unfold cleared, publish_shells. cbn [publishedTurnShells]. apply elem_of_union_r, elem_of_dom.
    assert (tp_TurnID t ∈ map fst (map_to_list (upsertTurns ps1))) as He.
    { rewrite <- Hids. by apply list_elem_of_fmap_2. }
    apply list_elem_of_fmap in He as ([id u] & -> & He). apply elem_of_map_to_list in He. eauto.
Qed.

(** ** The chain of patches *)

Lemma fences_app r l1 m l2 h : fences r l1 m -> fences m l2 h -> fences r (l1 ++ l2) h.
Proof.
  revert r. induction l1 as [|f l1 IH]; intros r; simpl; [by intros ->|]. intros (? & ? & ?) H2. auto.
Qed.

Lemma drain_fences ops partOps ps :
  lastFlushedRev ps <= sp_SyncRev (projection ps) ->
  let '(l, ps') := drain_and_commit ops partOps ps in
  fences (lastFlushedRev ps) (map Sent l) (lastFlushedRev ps') /\
  lastFlushedRev ps' = sp_SyncRev (projection ps') /\ sp_SyncRev (projection ps') = sp_SyncRev (projection ps) + 1.
Proof.
  intros H. unfold drain_and_commit, flushLocked. pose proof (meta_stageOwning ps) as Hm. injection Hm as _ H2 H3 _.
  case_if; cbn.
  - apply andb_true_iff in Hif as [Hif _]. unfold no_delta in Hif. zprop. rewrite !H2, !H3 in *.
    split; [|done]. split; [|split; [|done]]; cbn; lia.
  - rewrite H2, H3. split; [|done]. split; [done|]. split; [done|]. split; [done|]. split; [lia|done].
Qed.

Lemma exec_op_fences ea pb o ps :
  lastFlushedRev ps <= sp_SyncRev (projection ps) ->
  let '(l, ps') := exec_op ea pb o ps in
  fences (lastFlushedRev ps) l (lastFlushedRev ps') /\
  lastFlushedRev ps' <= sp_SyncRev (projection ps') /\ sp_SyncRev (projection ps) <= sp_SyncRev (projection ps').
Proof.
  intros H. destruct o as [msg now|now phase| | |l|v2 ops|turnID generation parts]; simpl.
  - unfold apply_session. case_if; [done|].
    destruct (decide (Event msg = "turn_started")) as [He|He].
    + unfold apply_event. rewrite He. cbn [one_of_words].
      pose proof (turn_started_meta now (asDataMap (Data msg)) ps) as Hm. injection Hm as _ H2 H3 _.
      change (one_of_words ["turn_started"] "turn_started") with true. cbv iota. rewrite H2, H3. done.
    + destruct (event_one_revision ea pb msg now ps _ (apply_event_handled ea pb msg now ps) He) as [->|Hm]; [done|].
      injection Hm as _ H2 H3 _. rewrite H2, H3. split; [done|]. lia.
  - unfold external_state. cbv zeta. case_if; [done|]. cbn. split; [done|]. lia.
  - unfold flushLocked. pose proof (meta_stageOwning ps) as Hm. injection Hm as _ H2 H3 _.
    case_if; [cbn; rewrite H2, H3; done|]. cbn. rewrite H2, H3. split; [done|]. lia.
  - unfold drop_pending. case_if; [done|]. cbn. split; [done|]. lia.
  - destruct (prepend_turns l ps) as [|ps'] eqn:E; [done|]. unfold prepend_turns in E.
    destruct (prepare_turns _ _ _); [done|]. injection E as <-. cbn. split; [split; [done|]|]; lia.
  - destruct ops as [|op ops]; [done|]. unfold commit_batch.
    destruct (_ (projection ps) _) as [|s] eqn:E; [done|].
    assert (sp_SyncRev s = sp_SyncRev (projection ps)) as Hs by (destruct v2; apply batch_frame in E; try apply E; apply mutate_id).
    pose proof (drain_fences (op :: ops) [] (set_projection s ps)) as Hd. cbn [committed].
    destruct (drain_and_commit _ _ _). cbn in Hd. rewrite Hs in Hd. destruct Hd as (? & ? & ?); [done|]. split; [done|]. lia.
  - unfold merge_detail. destruct (_ ≫= _) as [[i t]|]; [|done]. case_if; [done|]. case_if; [done|]. cbv zeta.
    match goal with |- context [drain_and_commit ?o ?p ?x] =>
      pose proof (drain_fences o p x H) as Hd; destruct (drain_and_commit o p x) end.
    cbn in *. destruct Hd as (? & ? & ?). split; [done|]. lia.
Qed.

(** The patches that are sent. *)
Definition sent (l : list fence) : list ProjectionPatch :=
  omap (fun f => match f with Sent p => Some p | Skipped _ _ => None end) l.

(** Recorded in order, in a journal that holds nothing newer, each is kept exactly when
    it can be. *)
Lemma record_fences marshal bk s r l h nows j acc :
  bk <> "" -> s <> "" -> fences r l h -> RevisionJournal.wf j acc -> RevisionJournal.behind r (bk, s) j ->
  length nows = length (sent l) ->
  exists j', RevisionJournal.record_all marshal bk s (zip (sent l) nows) j =
    Some (map (RevisionJournal.recordable marshal (RevisionJournal.maxBytes j)) (sent l), j').
Proof.
  intros Hbk Hs. revert r nows j acc. induction l as [|f l IH]; intros r nows j acc Hl Hwf Hb Hlen; [by exists j|].
  destruct Hl as (Hbase & Hle & Hl). destruct f as [p|b s']; cbn in Hbase, Hle, Hl, Hlen |- *.
  - destruct nows as [|now nows]; [done|]. injection Hlen as Hlen. cbn [zip zip_with RevisionJournal.record_all].
    subst r. destruct (RevisionJournal.Record_in_order marshal bk s p now j acc Hbk Hs Hwf Hb Hle)
      as (j1 & acc1 & -> & Hwf1 & Hm & Hb1 & _).
    destruct (IH (pt_SyncRev p) nows j1 acc1 Hl Hwf1 Hb1 Hlen) as [j' Hj']. cbn [mbind option_bind].
    exists j'. change (zip (sent l) nows) with (zip_with pair (sent l) nows) in Hj'. unfold sent in Hj'.
    rewrite Hj'. cbn. by rewrite Hm.
  - apply (IH s' nows j acc Hl Hwf); [|done]. intros e He. apply Hb in He. lia.
Qed.


(** C14. An event takes one revision or none: with a sequence above the last applied it
    leaves the session as it is, takes exactly the next revision and becomes the last
    applied, or (a turn that starts) changes no number. Any event at or below the last
    applied changes nothing, whatever it says; so an event that was taken, and every
    older one, has no effect a second time. The last applied is moved by what is taken
    alone: an event that was not taken has no effect a second time either, but an older
    one may still be taken after it, and a turn's start is applied each time it comes. *)
Theorem Apply_once ea pb msg now r :
  BackendID msg <> "" -> SessionID msg <> "" -> 0 < PerSessionSeq msg ->
  let key := projectionSessionKey (BackendID msg) (SessionID msg) in
  let ps := default (new_session (SessionID msg)) (r !! key) in
  exists ps',
    Apply ea pb msg now r = <[key := ps']> r /\
    (ps' = ps \/ Event msg = "turn_started" /\ meta ps' = meta ps \/
     lastAppliedRev ps < PerSessionSeq msg /\
     meta ps' = (PerSessionSeq msg, lastFlushedRev ps, sp_SyncRev (projection ps) + 1, now)) /\
    (Event msg <> "turn_started" -> Apply ea pb msg now (Apply ea pb msg now r) = Apply ea pb msg now r) /\
    (forall msg' now', BackendID msg' = BackendID msg -> SessionID msg' = SessionID msg ->
       0 < PerSessionSeq msg' <= lastAppliedRev ps' ->
       Apply ea pb msg' now' (Apply ea pb msg now r) = Apply ea pb msg now r).
Proof.
  intros Hb Hs Hq key ps.
  assert (forall m n (r : ProjectionReducer), BackendID m = BackendID msg -> SessionID m = SessionID msg -> 0 < PerSessionSeq m ->
    Apply ea pb m n r = <[key := apply_session ea pb m n (default (new_session (SessionID msg)) (r !! key))]> r) as Happ.
  { intros m n r' H1 H2 H3. unfold Apply. rewrite H1, H2.
    rewrite !bool_decide_eq_false_2 by done. replace (PerSessionSeq m =? 0) with false by (symmetry; zprop; lia). done. }
  set (ps' := apply_session ea pb msg now ps). exists ps'.
  assert (Apply ea pb msg now r = <[key := ps']> r) as E by (by rewrite (Happ msg now r)).
  assert (forall m n, BackendID m = BackendID msg -> SessionID m = SessionID msg -> 0 < PerSessionSeq m ->
    apply_session ea pb m n ps' = ps' -> Apply ea pb m n (Apply ea pb msg now r) = Apply ea pb msg now r) as Hagain.
  { intros m n H1 H2 H3 H4. rewrite E, Happ by done. rewrite lookup_insert_eq. cbn. by rewrite H4, insert_insert_eq. }
  assert (ps' = ps \/ Event msg = "turn_started" /\ meta ps' = meta ps \/
     lastAppliedRev ps < PerSessionSeq msg /\
     meta ps' = (PerSessionSeq msg, lastFlushedRev ps, sp_SyncRev (projection ps) + 1, now)) as Hcases.
  { subst ps'. unfold apply_session. case_if; [auto|].
    destruct (decide (Event msg = "turn_started")) as [He|He].
    - right. left. split; [done|]. unfold apply_event. rewrite He.
      change (one_of_words ["turn_started"] "turn_started") with true. cbv iota. apply turn_started_meta.
    - destruct (event_one_revision ea pb msg now ps _ (apply_event_handled ea pb msg now ps) He) as [?|Hm]; [auto|].
      right. right. split; [|done]. apply andb_false_iff in Hif as [Hif|Hif]; zprop; lia. }
  assert (forall m n, 0 < PerSessionSeq m <= lastAppliedRev ps' -> apply_session ea pb m n ps' = ps') as Hold.
  { intros m n Hm. unfold apply_session. replace (_ && _) with true; [done|].
    symmetry. apply andb_true_iff. split; [apply Z.gtb_lt|apply Z.leb_le]; lia. }
  split; [done|]. split; [done|]. split.
  - intros He. apply Hagain; try done. destruct Hcases as [Heq|[[? _]|[_ Hm]]]; [|done|].
    + rewrite Heq at 1. done.
    + apply Hold. injection Hm as -> _ _ _. lia.
  - intros msg' now' H1 H2 Hq'. apply Hagain; try done; [lia|]. by apply Hold.
Qed.

(** ** A sample session *)

(** No attachments and no parts in the payloads. *)
Definition no_attachments (v : value) : list ProjectionAttachment := [].
Definition no_parts (v : value) : list ProjectionPart := [].

(** An event of session "s" of backend "codex". *)
Definition sample_event (seq : Z) (event : string) (data : list (string * value)) : EventMessage :=
  mkEventMessage "event" "" seq seq "" "s" "codex" event (VMap data) "" true 0.

(** A turn starts, is answered and flushed, answers further, a tool runs. *)
Definition sample_ops : list session_op :=
  [SEvent (sample_event 1 "turn_started" [("turnId", VString "t1")]) 10;
   SEvent (sample_event 2 "user_message" [("turnId", VString "t1"); ("itemId", VString "u1"); ("text", VString "hi")]) 11;
   SFlush;
   SEvent (sample_event 3 "text_delta" [("turnId", VString "t1"); ("itemId", VString "a1"); ("delta", VString "he")]) 12;
   SFlush;
   SEvent (sample_event 4 "text_delta" [("turnId", VString "t1"); ("itemId", VString "a1"); ("delta", VString "llo")]) 13;
   SEvent (sample_event 5 "tool_started" [("itemId", VString "c1"); ("toolName", VString "Bash")]) 14].

Definition is_Some_b {A : Type} (o : option A) : bool := match o with Some _ => true | None => false end.

(** At the end of the sample session a patch goes out: the shell of the turn,
    since the tool row was staged in it, and no text append beside it. *)
Lemma FlushPatch_live_witness :
  exists p ps', flushLocked (snd (run_ops no_attachments no_parts sample_ops (new_session "s"))) = (Some p, ps') /\
    NoDup (map tp_TurnID (pt_UpsertTurns p)) /\ drained ps'.
Proof.
  pose proof (FlushPatch_live no_attachments no_parts "s" sample_ops) as H. cbv zeta in H.
  assert (is_Some_b (fst (flushLocked (snd (run_ops no_attachments no_parts sample_ops (new_session "s"))))) = true) as Hs
    by (vm_compute; reflexivity).
  revert H Hs. generalize (flushLocked (snd (run_ops no_attachments no_parts sample_ops (new_session "s")))).
  intros [[p|] ps'] H Hs; [|discriminate Hs]. exists p, ps'. destruct (H p ps' eq_refl) as (_ & H2 & _ & _ & _ & H6).
  split; [reflexivity|]. split; assumption.
Defined.


(** The first text of a turn, and the same event again. *)
Lemma Apply_once_witness :
  let m := sample_event 3 "text_delta" [("turnId", VString "t1"); ("itemId", VString "a1"); ("delta", VString "he")] in
  let r := Apply no_attachments no_parts m 12 NewProjectionReducer in
  LastAppliedRev "codex" "s" r = 1 /\ Apply no_attachments no_parts m 13 r = r.
Proof.
  intros m r. split; [vm_compute; reflexivity|].
  destruct (Apply_once no_attachments no_parts m 12 NewProjectionReducer ltac:(discriminate) ltac:(discriminate)
    ltac:(reflexivity)) as (ps' & E & _ & _ & H).
  assert (lookup (projectionSessionKey "codex" "s") r = Some ps') as Hl by (unfold r; rewrite E; apply lookup_insert_eq).
  assert (lastAppliedRev <$> lookup (projectionSessionKey "codex" "s") r = Some 3) as H3 by (vm_compute; reflexivity).
  rewrite Hl in H3. injection H3 as H3. apply (H m 13); [reflexivity|reflexivity|].
  rewrite H3. split; [reflexivity|discriminate].
Defined.
