(* ===== verification/DetailCommits.v ===== *)
(** * What a commit to the detail of a turn does

    A batch either changes exactly the turns it names or nothing; along any batches
    and merges the detail of a turn only advances within a generation; a commit
    prolongs the chain of patches and strands nothing; a merge replaces the parts
    of its turn once; and no load survives the recovery of orphans. *)

From S2P Require Import Prelude.
From S2P Require Import Wire.
From S2P Require Import Projection.
From S2P Require Import ProjectionFields.
From S2P Require Import ReducerParts.
From S2P Require Import Reducer.
From S2P Require Import ReducerPatch.
From S2P Require Import TurnDetail.
From S2P Require Import ReducerInvariant.

(** ** A batch on a list of turns *)

(** What the operations of a batch that name a turn make of it. *)
Definition apply_ops (mut : TurnStateOp -> TurnProjection -> TurnProjection) (ops : list TurnStateOp)
    (t : TurnProjection) : TurnProjection :=
  fold_left (fun t op => if bool_decide (ts_TurnID op = tp_TurnID t) then mut op t else t) ops t.

Section Index.
Implicit Types (l : list TurnProjection).

Lemma index_fold (g : nat -> nat) l (m : gmap string nat) id :
  NoDup (map tp_TurnID l) ->
  fold_left (fun (m : gmap string nat) e => <[tp_TurnID (snd e) := fst e]> m) (imap (fun i t => (g i, t)) l) m !! id =
  match turn_index id l with Some j => Some (g j) | None => m !! id end.
Proof.
  revert g m. induction l as [|t l IH]; intros g m Hnd; [done|].
  apply NoDup_cons in Hnd as [Hn Hnd]. rewrite imap_cons. simpl.
  rewrite (IH (g ∘ S) _ Hnd). unfold turn_index. cbn [list_find]. destruct (decide (tp_TurnID t = id)) as [<-|Hne].
  - destruct (list_find (fun u => tp_TurnID u = tp_TurnID t) l) as [[j u]|] eqn:E; simpl.
    + apply list_find_Some in E as (E1 & E2 & _). exfalso. apply Hn. rewrite <- E2.
      apply list_elem_of_fmap_2. by eapply list_elem_of_lookup_2.
    + by rewrite lookup_insert_eq.
  - destruct (list_find (fun u => tp_TurnID u = id) l) as [[j u]|]; simpl; [done|].
    by rewrite lookup_insert_ne.
Qed.

(** With unique identifiers the index finds the turn. *)
Lemma index_of_turn l id : NoDup (map tp_TurnID l) -> index_of l !! id = turn_index id l.
Proof.
  intros H. unfold index_of. rewrite (index_fold (fun i => i) l ∅ id H), lookup_empty. by destruct (turn_index id l).
Qed.
End Index.

Section Plan.
Context (check : TurnStateOp -> TurnProjection -> option DetailError).
Context (mut : TurnStateOp -> TurnProjection -> TurnProjection).
Hypothesis mut_id : forall op, keeps_id (mut op).

Lemma turn_unique l t u : NoDup (map tp_TurnID l) -> t ∈ l -> u ∈ l -> tp_TurnID t = tp_TurnID u -> t = u.
Proof.
  intros Hnd Ht Hu Hid. apply list_elem_of_lookup in Ht as [i Hi]. apply list_elem_of_lookup in Hu as [j Hj].
  pose proof (turn_index_here l i t Hnd Hi). pose proof (turn_index_here l j u Hnd Hj). congruence.
Qed.

(** An operation is accepted when it names a turn that passes. *)
Definition accepted (l : list TurnProjection) (op : TurnStateOp) : Prop :=
  exists t, t ∈ l /\ tp_TurnID t = ts_TurnID op /\ check op t = None.

(** One mutation changes the turn it names. *)
Lemma alter_named op i l : NoDup (map tp_TurnID l) -> turn_index (ts_TurnID op) l = Some i ->
  alter (mut op) i l = map (fun t => if bool_decide (ts_TurnID op = tp_TurnID t) then mut op t else t) l.
Proof.
  intros Hnd Hi. rewrite (alter_by_id (ts_TurnID op)) by done. apply map_ext. intros t.
  by case_decide; [rewrite bool_decide_eq_true_2|rewrite bool_decide_eq_false_2].
Qed.

Lemma plan_accepts l l' ops :
  NoDup (map tp_TurnID l) -> map tp_TurnID l' = map tp_TurnID l ->
  match plan check (index_of l) l ops with
  | inr muts => Forall (accepted l) ops /\
      fold_left (fun l m => alter (mut (snd m)) (fst m) l) muts l' = map (apply_ops mut ops) l'
  | inl err => ~ Forall (accepted l) ops
  end.
Proof.
  intros Hnd. revert l'. induction ops as [|op ops IH]; intros l' Hl'; simpl.
  { split; [constructor|]. by rewrite map_id. }
  rewrite index_of_turn by done. destruct (turn_index (ts_TurnID op) l) as [i|] eqn:Ei; simpl.
  2: { intros H. apply Forall_cons in H as [(t & Ht & Hid & _) _]. apply turn_index_None in Ei. apply Ei.
       rewrite <- Hid. by apply list_elem_of_fmap_2. }
  destruct (turn_index_Some _ _ _ Ei) as (t & Ht & Hid). rewrite Ht. simpl.
  assert (forall u, u ∈ l -> tp_TurnID u = ts_TurnID op -> u = t) as Hu.
  { intros u Hu He. apply (turn_unique l); [done|done|by eapply list_elem_of_lookup_2|congruence]. }
  destruct (check op t) as [err|] eqn:Ec.
  { intros H. apply Forall_cons in H as [(u & Hin & He & Hc) _]. rewrite (Hu u Hin He) in Hc. congruence. }
  specialize (IH (map (fun t => if bool_decide (ts_TurnID op = tp_TurnID t) then mut op t else t) l')).
  rewrite map_map in IH. destruct (plan check (index_of l) l ops) as [err|muts].
  - intros H. apply Forall_cons in H as [_ H]. revert H. apply IH.
    rewrite <- Hl'. apply map_ext. intros u. case_if; [apply mut_id|done].
  - destruct IH as [H1 H2]. { rewrite <- Hl'. apply map_ext. intros u. case_if; [apply mut_id|done]. }
    split; [constructor; [|done]; exists t; repeat split; [by eapply list_elem_of_lookup_2|done..]|].
    simpl. rewrite (alter_named op i l'); [|by rewrite Hl'|by rewrite (turn_index_ids _ _ _ Hl')].
    rewrite H2. by rewrite map_map.
Qed.

(** A batch is carried out exactly when each of its operations is valid and
    accepted; then each turn is what the operations that name it make of it. *)
Lemma apply_batch_iff valid s ops s' : NoDup (map tp_TurnID (sp_Turns s)) ->
  apply_batch valid check mut s ops = inr s' <->
  valid ops = true /\ Forall (accepted (sp_Turns s)) ops /\ s' = set_sp_Turns (map (apply_ops mut ops) (sp_Turns s)) s.
Proof.
  intros Hnd. unfold apply_batch. destruct (valid ops); simpl; [|by split; [|intros (? & _)]].
  pose proof (plan_accepts (sp_Turns s) (sp_Turns s) ops Hnd eq_refl) as H.
  destruct (plan _ _ _ _) as [err|muts].
  - split; [done|]. by intros (_ & ? & _).
  - destruct H as [H1 ->]. split; [by intros [= <-]|]. by intros (_ & _ & ->).
Qed.
End Plan.

(** The last operation that names a turn decides. *)
Definition last_named (ops : list TurnStateOp) (t : TurnProjection) : option TurnStateOp :=
  last (filter (fun op => ts_TurnID op = tp_TurnID t) ops).

Lemma apply_ops_last mut ops t :
  (forall op, keeps_id (mut op)) -> (forall op op' t, mut op (mut op' t) = mut op t) ->
  apply_ops mut ops t = match last_named ops t with Some op => mut op t | None => t end.
Proof.
  intros Hid Habs. unfold apply_ops, last_named. induction ops as [|op ops IH] using rev_ind; [done|].
  rewrite fold_left_app, filter_app. cbn [fold_left]. rewrite IH. clear IH.
  set (l := filter _ ops). assert (tp_TurnID match last l with Some o => mut o t | None => t end = tp_TurnID t) as He.
  { destruct (last l); [apply Hid|done]. }
  rewrite He. case_bool_decide as Hop.
  - rewrite filter_cons_True, filter_nil, last_snoc by done. destruct (last l); [apply Habs|done].
  - by rewrite filter_cons_False, filter_nil, app_nil_r by done.
Qed.

Lemma mutate_absorbs op op' t : mutate op (mutate op' t) = mutate op t.
Proof. done. Qed.
Lemma mutate_v2_absorbs op op' t : mutate_v2 op (mutate_v2 op' t) = mutate_v2 op t.
Proof. done. Qed.

(** A turn after a batch. *)
Definition after_batch (mut : TurnStateOp -> TurnProjection -> TurnProjection) (ops : list TurnStateOp)
    (t : TurnProjection) : TurnProjection :=
  match last_named ops t with Some op => mut op t | None => t end.

Lemma apply_v2_iff s ops s' : NoDup (map tp_TurnID (sp_Turns s)) ->
  ApplyTurnStateOpsV2 s ops = inr s' <->
  ValidateTurnStateOpsV2 ops = true /\ Forall (accepted check_op_v2 (sp_Turns s)) ops /\
  s' = set_sp_Turns (map (after_batch mutate_v2 ops) (sp_Turns s)) s.
Proof.
  intros Hnd. unfold ApplyTurnStateOpsV2.
  rewrite (apply_batch_iff check_op_v2 mutate_v2 (fun op => proj2 (mutate_id op)) _ s ops s' Hnd).
  rewrite (map_ext (apply_ops mutate_v2 ops) (after_batch mutate_v2 ops)); [done|].
  intros t. apply apply_ops_last; [apply mutate_id|done].
Qed.

Lemma apply_v1_iff s ops s' : NoDup (map tp_TurnID (sp_Turns s)) ->
  ApplyTurnStateOps s ops = inr s' <->
  ValidateTurnStateOps ops = true /\ Forall (accepted check_op (sp_Turns s)) ops /\
  s' = set_sp_Turns (map (after_batch mutate ops) (sp_Turns s)) s.
Proof.
  intros Hnd. unfold ApplyTurnStateOps.
  rewrite (apply_batch_iff check_op mutate (fun op => proj1 (mutate_id op)) _ s ops s' Hnd).
  rewrite (map_ext (apply_ops mutate ops) (after_batch mutate ops)); [done|].
  intros t. apply apply_ops_last; [apply mutate_id|done].
Qed.

(** A batch of either version. *)
Definition batch (v2 : bool) : SessionProjection -> list TurnStateOp -> DetailError + SessionProjection :=
  if v2 then ApplyTurnStateOpsV2 else ApplyTurnStateOps.
Definition batch_valid (v2 : bool) : TurnStateOp -> bool := if v2 then valid_op_v2 else valid_op.
Definition batch_check (v2 : bool) : TurnStateOp -> TurnProjection -> option DetailError :=
  if v2 then check_op_v2 else check_op.
Definition batch_mutate (v2 : bool) : TurnStateOp -> TurnProjection -> TurnProjection :=
  if v2 then mutate_v2 else mutate.

Lemma batch_iff v2 s ops s' : NoDup (map tp_TurnID (sp_Turns s)) ->
  batch v2 s ops = inr s' <->
  forallb (batch_valid v2) ops = true /\ Forall (accepted (batch_check v2) (sp_Turns s)) ops /\
  s' = set_sp_Turns (map (after_batch (batch_mutate v2) ops) (sp_Turns s)) s.
Proof. destruct v2; [apply apply_v2_iff|apply apply_v1_iff]. Qed.

Lemma batch_keeps_ids v2 ops s s' : batch v2 s ops = inr s' ->
  map tp_TurnID (sp_Turns s') = map tp_TurnID (sp_Turns s).
Proof. destruct v2; intros H; apply batch_frame in H; try apply H; apply mutate_id. Qed.

Lemma forallb_Forall {A : Type} (f : A -> bool) l : forallb f l = true <-> Forall (fun x => f x = true) l.
Proof.
  induction l as [|x l IH]; simpl; [by split|]. rewrite andb_true_iff, IH, Forall_cons. done.
Qed.

(** A batch stops at the first operation that does not pass. *)
Lemma plan_error check l ops err : NoDup (map tp_TurnID l) -> plan check (index_of l) l ops = inl err ->
  err = ErrTurnStateInvalid \/
  exists op t, op ∈ ops /\ t ∈ l /\ tp_TurnID t = ts_TurnID op /\ check op t = Some err.
Proof.
  intros Hnd. induction ops as [|op ops IH]; simpl; [done|]. rewrite index_of_turn by done.
  destruct (turn_index (ts_TurnID op) l) as [i|] eqn:Ei; simpl; [|intros [= <-]; by left].
  destruct (turn_index_Some _ _ _ Ei) as (t & Ht & Hid). rewrite Ht. simpl.
  destruct (check op t) as [e|] eqn:Ec.
  - intros [= <-]. right. exists op, t. split; [by left|]. split; [by eapply list_elem_of_lookup_2|done].
  - destruct (plan check (index_of l) l ops) as [e|] eqn:Ep; [|done]. intros [= ->].
    destruct (IH eq_refl) as [?|(op' & u & H1 & H)]; [by left|]. right. exists op', u. split; [by right|done].
Qed.

Lemma check_stale v2 op t : batch_check v2 op t = Some ErrTurnStateStale -> tp_TurnGeneration t <> ts_TurnGeneration op.
Proof.
  destruct v2; simpl; unfold check_op, check_op_v2.
  - case_if; [intros _; zprop; done|]. case_if; [done|]. by case_if.
  - case_if; [intros _; zprop; done|done].
Qed.

(** A batch of turn states is all or nothing, and what it does is known: with
    unique turn identifiers it is carried out exactly when each of its operations
    passes the field rules and names a turn that the rules of its version let it
    move; then each turn has the state, the reason and (version 2) the manifest of
    the last operation that names it, and nothing else in the projection has
    changed. It is refused as stale only if one of its operations names a turn of
    another generation. *)
Theorem ApplyTurnStateOps_iff v2 s ops : NoDup (map tp_TurnID (sp_Turns s)) ->
  (forall s', batch v2 s ops = inr s' <->
    Forall (fun op => batch_valid v2 op = true /\
      exists t, t ∈ sp_Turns s /\ tp_TurnID t = ts_TurnID op /\ batch_check v2 op t = None) ops /\
    s' = set_sp_Turns (map (after_batch (batch_mutate v2) ops) (sp_Turns s)) s) /\
  (batch v2 s ops = inl ErrTurnStateStale ->
    exists op t, op ∈ ops /\ t ∈ sp_Turns s /\ tp_TurnID t = ts_TurnID op /\ tp_TurnGeneration t <> ts_TurnGeneration op).
Proof.
  intros Hnd. split.
  - intros s'. rewrite (batch_iff v2 s ops s' Hnd), forallb_Forall, Forall_and. unfold accepted. tauto.
  - intros H. assert (plan (batch_check v2) (index_of (sp_Turns s)) (sp_Turns s) ops = inl ErrTurnStateStale) as Hp.
    { destruct v2; simpl in *; unfold ApplyTurnStateOps, ApplyTurnStateOpsV2, apply_batch in H; destruct (negb _); try done;
        destruct (plan _ _ _ _) as [e|]; try done; by injection H as ->. }
    destruct (plan_error _ _ _ _ Hnd Hp) as [?|(op & t & H1 & H2 & H3 & H4)]; [done|].
    exists op, t. apply check_stale in H4. done.
Qed.

(** ** Progress within a generation *)

(** What may happen to the detail of a turn: a new generation, or the same content
    with a manifest that only grows and, when [strict], a load that stays complete. *)
Definition advances (strict : bool) (t t' : TurnProjection) : Prop :=
  tp_TurnID t' = tp_TurnID t /\
  (tp_TurnGeneration t < tp_TurnGeneration t' \/
   tp_TurnGeneration t' = tp_TurnGeneration t /\ assistant_parts t' = assistant_parts t /\
   tp_DetailManifestRev t <= tp_DetailManifestRev t' /\ tp_DetailItemCount t <= tp_DetailItemCount t' /\
   tp_DetailTotalBytes t <= tp_DetailTotalBytes t' /\
   (strict = true -> tp_DetailLoadState t = DetailStateLoaded ->
    tp_DetailLoadState t' = DetailStateLoaded /\ tp_DetailManifestRev t' = tp_DetailManifestRev t)).

#[export] Instance advances_preorder strict : PreOrder (advances strict).
Proof.
  split.
  - intros t. split; [done|]. right. repeat split; auto; lia.
  - intros t u v [H1 H2] [H3 H4]. split; [congruence|]. destruct H2 as [H2|(?&?&?&?&?&H2)], H4 as [H4|(?&?&?&?&?&H4)]; try (left; lia).
    right. do 5 (split; [first [congruence|lia]|]). intros Hs Hl.
    destruct (H2 Hs Hl) as [Hl' ?]. destruct (H4 Hs Hl'). split; congruence.
Qed.

Lemma advances_weaken t t' strict : advances true t t' -> advances strict t t'.
Proof. intros [H1 [H2|(?&?&?&?&?&H2)]]; (split; [done|]); [by left|]. right. do 5 (split; [done|]). auto. Qed.

Lemma check_op_v2_None op t : check_op_v2 op t = None ->
  tp_TurnGeneration t = ts_TurnGeneration op /\ tp_DetailManifestRev t <= ts_ManifestRev op /\
  tp_DetailItemCount t <= ts_ItemCount op /\ tp_DetailTotalBytes t <= ts_TotalBytes op /\
  (tp_DetailLoadState t = DetailStateLoaded ->
   ts_DetailLoadState op = DetailStateLoaded /\ ts_ManifestRev op = tp_DetailManifestRev t).
Proof.
  unfold check_op_v2. case_if; [done|]. case_if; [done|]. case_if; [done|]. intros _.
  apply andb_false_iff in Hif1. zprop. split; [done|]. split; [done|]. split; [done|]. split; [done|].
  intros Hl. destruct Hif1 as [Hn|Hn]; zprop; done.
Qed.

Lemma after_batch_advances ops l t : NoDup (map tp_TurnID l) -> t ∈ l -> Forall (accepted check_op_v2 l) ops ->
  advances true t (after_batch mutate_v2 ops t).
Proof.
  intros Hnd Hin Hacc. unfold after_batch. destruct (last_named ops t) as [op|] eqn:E; [|reflexivity].
  unfold last_named in E. apply last_Some_elem_of, list_elem_of_filter in E as [Hid Hop].
  rewrite Forall_forall in Hacc. destruct (Hacc op Hop) as (u & Hu & Hu' & Hc).
  assert (u = t) as ->.
  { apply (turn_unique l); [done..|congruence]. }
  apply check_op_v2_None in Hc as (Hg & H1 & H2 & H3 & H4).
  split; [done|]. right. unfold mutate_v2, assistant_parts. cbn. split; [done|]. split; [done|]. done.
Qed.

(** The state and the reason are all that a batch of version 1 sets. *)
Lemma after_batch_v1 ops t : advances false t (after_batch mutate ops t).
Proof.
  unfold after_batch. destruct (last_named ops t) as [op|]; [|reflexivity]. split; [done|]. right.
  unfold mutate, assistant_parts. cbn. do 5 (split; [first [done|lia]|]). done.
Qed.

(** ** Commits on a session *)

(** A call of the detail engine or of the loop that publishes, but no event. *)
Definition detail_call (o : session_op) : Prop :=
  match o with SEvent _ _ | SPrepend _ => False | _ => True end.

(** Not a batch of version 1. *)
Definition version_2 (o : session_op) : bool := match o with SState false _ => false | _ => true end.

Lemma turns_flush ps : turns (snd (flushLocked ps)) = turns ps.
Proof.
  unfold flushLocked. destruct (stageOwning_frame ps) as (H & _). by case_if.
Qed.

Lemma turns_drain ops partOps ps : turns (snd (drain_and_commit ops partOps ps)) = turns ps.
Proof.
  unfold drain_and_commit. pose proof (turns_flush ps) as H. by destruct (flushLocked ps).
Qed.

Lemma merge_target_advances strict parts t : advances strict t (merge_target parts t).
Proof.
  split; [apply merge_target_id|]. left. unfold merge_target, on_assistant_parts.
  destruct parts, (tp_Assistant t) eqn:E; cbn; rewrite ?E; cbn; lia.
Qed.

(** An answer of [merge_detail] and the turn it changed. *)
Lemma merge_detail_inr turnID generation parts ps patches ps' :
  merge_detail turnID generation parts ps = inr (patches, ps') ->
  exists i t, turnByID turnID ps = Some i /\ turns ps !! i = Some t /\ tp_Status t = "completed" /\
    tp_TurnGeneration t = generation /\
    drain_and_commit [mkTurnStateOp turnID DetailStateLoaded "" (generation + 1) 0 0 0]
      (replace_op turnID (messageID t) parts) (at_turn i (merge_target parts) ps) = (patches, ps').
Proof.
  unfold merge_detail. destruct (turnByID turnID ps) as [i|]; [|done]. simpl. destruct (turns ps !! i) as [t|] eqn:Et; [|done].
  simpl. case_if; [done|]. case_if; [done|]. cbv zeta. intros [= H]. zprop. subst generation. eauto 10.
Qed.

Lemma commit_batch_advances strict v2 ops ps : session_ok ps -> (strict = true -> v2 = true) ->
  Forall2 (advances strict) (turns ps) (turns (snd (committed (commit_batch (batch v2) ops ps) ps))).
Proof.
  intros Hok Hs. unfold commit_batch. destruct (batch v2 (projection ps) ops) as [|s] eqn:E; [by apply Forall_Forall2_diag, Forall_true|].
  apply batch_iff in E as (_ & Hacc & ->); [|by destruct Hok].
  unfold committed. match goal with |- context [drain_and_commit ?o ?p ?x] => pose proof (turns_drain o p x) as Ht; destruct (drain_and_commit o p x) as [l1 ps1] end.
  simpl in *. rewrite Ht. apply Forall2_fmap_r, Forall_Forall2_diag, Forall_forall. intros t Hin. destruct v2.
  - apply advances_weaken, (after_batch_advances _ (turns ps)); [by destruct Hok|done|done].
  - destruct strict; [by specialize (Hs eq_refl)|]. apply after_batch_v1.
Qed.

Lemma exec_op_advances ea pb o ps strict : session_ok ps -> detail_call o -> (strict = true -> version_2 o = true) ->
  Forall2 (advances strict) (turns ps) (turns (snd (exec_op ea pb o ps))).
Proof.
  intros Hok Ho Hs. assert (forall l, Forall2 (advances strict) l l) as Hrefl by (intros; by apply Forall_Forall2_diag, Forall_true).
  destruct o as [msg now|now phase| | |l|v2 ops|turnID generation parts]; simpl in *; try done.
  - unfold external_state. cbv zeta. case_if; apply Hrefl.
  - pose proof (turns_flush ps) as H. destruct (flushLocked ps) as [[] ps1]; simpl in *; rewrite H; apply Hrefl.
  - unfold drop_pending. case_if; apply Hrefl.
  - destruct ops as [|op ops]; [apply Hrefl|]. apply (commit_batch_advances strict v2); [done|].
    intros Ht. specialize (Hs Ht). by destruct v2.
  - destruct (merge_detail turnID generation parts ps) as [|[l1 ps1]] eqn:E; [apply Hrefl|].
    apply merge_detail_inr in E as (i & t & _ & _ & _ & _ & E).
    pose proof (turns_drain [mkTurnStateOp turnID DetailStateLoaded "" (generation + 1) 0 0 0]
      (replace_op turnID (messageID t) parts) (at_turn i (merge_target parts) ps)) as Ht.
    rewrite E in Ht. simpl in *. rewrite Ht. change (turns (at_turn i ?f ps)) with (alter f i (turns ps)).
    apply Forall2_same_length_lookup_2; [by rewrite length_alter|]. intros j x y Hx Hy.
    destruct (decide (j = i)) as [->|Hj].
    + rewrite list_lookup_alter_eq, Hx in Hy. injection Hy as <-. apply merge_target_advances.
    + rewrite list_lookup_alter_ne in Hy by done. replace y with x by congruence. reflexivity.
Qed.

(** C9. Within a generation the detail of a turn only advances: whatever batches of
    either version, merges, flushes, drops and execution states a session goes
    through while no event and no older turns arrive, accepted or refused, each turn
    either has a higher generation or has kept its content and its manifest numbers
    have not decreased; and when none of the batches is of version 1, a completed load
    has stayed complete at the same manifest revision (a batch of version 1 may take it
    back to loading). *)
Theorem detail_progress ea pb ops ps : session_ok ps -> Forall detail_call ops ->
  Forall2 (advances (forallb version_2 ops)) (turns ps) (turns (snd (run_ops ea pb ops ps))).
Proof.
  intros Hok Hops. assert (forall strict, (strict = true -> forallb version_2 ops = true) ->
    Forall2 (advances strict) (turns ps) (turns (snd (run_ops ea pb ops ps)))) as H; [|by apply H].
  intros strict. revert ps Hok. induction Hops as [|o ops Ho _ IH]; intros ps Hok Hs; simpl.
  { by apply Forall_Forall2_diag, Forall_true. }
  assert (strict = true -> version_2 o = true /\ forallb version_2 ops = true) as Hs'
    by (intros Ht; specialize (Hs Ht); cbn in Hs; by apply andb_true_iff in Hs).
  pose proof (exec_op_advances ea pb o ps strict Hok Ho (fun Ht => proj1 (Hs' Ht))) as H1.
  pose proof (ok_exec_op ea pb o ps Hok) as H2.
  destruct (exec_op ea pb o ps) as [l ps1]. specialize (IH ps1 H2 (fun Ht => proj2 (Hs' Ht))).
  destruct (run_ops ea pb ops ps1) as [l' ps2]. simpl in *. by transitivity (turns ps1).
Qed.

(** ** The chain *)

Lemma flush_none ps ps' : flushLocked ps = (None, ps') ->
  ps' = stageOwningTurnsForPendingParts ps /\ sp_SyncRev (projection ps') = lastFlushedRev ps' /\ no_delta ps' = true /\
  workflows ps' = ∅ /\ removedTurns ps' = [] /\ no_view ps' = true.
Proof.
  unfold flushLocked. case_if; [|done]. intros [= <-]. zprop. done.
Qed.

Lemma flush_some ps p ps' : flushLocked ps = (Some p, ps') ->
  p = build_patch (stageOwningTurnsForPendingParts ps) /\ ps' = cleared (stageOwningTurnsForPendingParts ps).
Proof. unfold flushLocked. case_if; [done|]. by intros [= <- <-]. Qed.

(** A session without registries stages nothing. *)
Lemma stageOwning_empty ps : tools ps = ∅ -> userInputs ps = ∅ -> workflows ps = ∅ ->
  stageOwningTurnsForPendingParts ps = ps.
Proof.
  intros H1 H2 H3. unfold stageOwningTurnsForPendingParts. rewrite bool_decide_eq_true_2 by done. cbv zeta.
  rewrite H2, map_to_list_empty. simpl. by rewrite H3, map_to_list_empty.
Qed.

(** After a drain and a commit nothing waits. *)
Lemma drain_drained ops partOps ps : drained (snd (drain_and_commit ops partOps ps)).
Proof.
  unfold drain_and_commit. destruct (flushLocked ps) as [[p|] ps1] eqn:E; cbn [snd].
  - apply flush_some in E as [_ ->].
    set (x := stageOwningTurnsForPendingParts ps). change (drained (fence_commit (cleared x))).
    unfold drained, flushLocked. rewrite stageOwning_empty by done. unfold fence_commit, cleared, no_delta, no_view. cbn.
    by rewrite Z.eqb_refl.
  - apply flush_none in E as (_ & _ & Hd & Hw & Hr & Hv). unfold no_delta in Hd. zprop.
    unfold drained, flushLocked. rewrite stageOwning_empty by done. unfold fence_commit, no_delta, no_view in *. cbn.
    rewrite Z.eqb_refl. rewrite Hv, !bool_decide_eq_true_2 by done. done.
Qed.

(** The patches of a drain: the pending delta when there is one, then the commit. *)
Lemma drain_patches ops partOps ps : lastFlushedRev ps <= sp_SyncRev (projection ps) ->
  let rev := sp_SyncRev (projection ps) in
  let '(patches, ps') := drain_and_commit ops partOps ps in
  exists live, patches = live ++ [mkProjectionPatch rev (rev + 1) None [] partOps ops [] [] None None None None None] /\
    (live = [] /\ lastFlushedRev ps = rev \/ exists p, live = [p] /\ fst (flushLocked ps) = Some p /\
       pt_BaseRev p = lastFlushedRev ps /\ pt_SyncRev p = rev) /\
    sp_SyncRev (projection ps') = rev + 1 /\ lastFlushedRev ps' = rev + 1.
Proof.
  intros H rev. unfold drain_and_commit. pose proof (meta_stageOwning ps) as Hm. injection Hm as _ H2 H3 _.
  destruct (flushLocked ps) as [[p|] ps1] eqn:E.
  - apply flush_some in E as [-> ->]. unfold commit_patch, fence_commit, cleared. cbn.
    rewrite H3. exists [build_patch (stageOwningTurnsForPendingParts ps)]. split; [done|]. split; [right|done].
    eexists. split; [done|]. split; [done|]. unfold build_patch. cbn. by rewrite H2, H3.
  - apply flush_none in E as (-> & Hrev & _). rewrite H2, H3 in Hrev. exists []. unfold commit_patch, fence_commit. cbn.
    rewrite H3. split; [done|]. split; [by left|done].
Qed.

(** The three entry points of the reducer. *)
Inductive detail_commit : Type :=
| CStates (v2 : bool) (ops : list TurnStateOp)
| CMerge (turnID : string) (generation : Z) (detailParts : list ProjectionPart).

Definition run_commit (c : detail_commit) (backendID sessionID : string) (r : ProjectionReducer) :=
  match c with
  | CStates true ops => CommitTurnStateOpsV2 backendID sessionID ops r
  | CStates false ops => CommitTurnStateOps backendID sessionID ops r
  | CMerge turnID generation detailParts => MergeHistoricalTurnDetail backendID sessionID turnID generation detailParts r
  end.

(** The operations and the part operations its patch carries. *)
Definition commit_ops (c : detail_commit) : list TurnStateOp :=
  match c with
  | CStates _ ops => ops
  | CMerge turnID generation _ => [mkTurnStateOp turnID DetailStateLoaded "" (generation + 1) 0 0 0]
  end.

Lemma run_commit_session c backendID sessionID r res r' : run_commit c backendID sessionID r = (res, r') ->
  match res with
  | inl _ => r' = r
  | inr (view, patches) => exists ps mid partOps ps',
      r !! projectionSessionKey backendID sessionID = Some ps /\
      r' = <[projectionSessionKey backendID sessionID := ps']> r /\ view = cloneSessionProjection (projection ps') /\
      meta mid = meta ps /\ drain_and_commit (commit_ops c) partOps mid = (patches, ps')
  end.
Proof.
  assert (forall f, on_session backendID sessionID f r = (res, r') ->
    (forall ps patches ps', f ps = inr (patches, ps') -> exists mid partOps, meta mid = meta ps /\
      drain_and_commit (commit_ops c) partOps mid = (patches, ps')) ->
    match res with
    | inl _ => r' = r
    | inr (view, patches) => exists ps mid partOps ps',
        r !! projectionSessionKey backendID sessionID = Some ps /\
        r' = <[projectionSessionKey backendID sessionID := ps']> r /\ view = cloneSessionProjection (projection ps') /\
        meta mid = meta ps /\ drain_and_commit (commit_ops c) partOps mid = (patches, ps')
    end) as Hon.
  { intros f. unfold on_session. destruct (r !! _) as [ps|]; [|by intros [= <- <-]].
    destruct (f ps) as [|[patches ps']] eqn:E; intros [= <- <-] Hf; [done|].
    destruct (Hf _ _ _ E) as (mid & partOps & Hm & Hd). by exists ps, mid, partOps, ps'. }
  assert (forall v2 ops ps patches ps', commit_batch (batch v2) ops ps = inr (patches, ps') -> exists mid partOps,
    meta mid = meta ps /\ drain_and_commit ops partOps mid = (patches, ps')) as Hb.
  { intros v2 ops ps patches ps'. unfold commit_batch. destruct (batch v2 _ ops) as [|s] eqn:E; [done|].
    intros [= H]. eexists _, _. split; [|exact H]. unfold meta. cbn.
    assert (sp_SyncRev s = sp_SyncRev (projection ps) /\ sp_UpdatedAt s = sp_UpdatedAt (projection ps)) as [-> Hu].
    { destruct v2; simpl in E; unfold ApplyTurnStateOps, ApplyTurnStateOpsV2, apply_batch in E; destruct (negb _); try done;
        destruct (plan _ _ _ _); try done; by injection E as <-. }
    by rewrite Hu. }
  destruct c as [[] ops|turnID generation parts]; simpl.
  - unfold CommitTurnStateOpsV2. destruct ops; [by intros [= <- <-]|]. intros H. apply (Hon _ H). apply (Hb true).
  - unfold CommitTurnStateOps. destruct ops; [by intros [= <- <-]|]. intros H. apply (Hon _ H). apply (Hb false).
  - unfold MergeHistoricalTurnDetail. case_if; [by intros [= <- <-]|]. intros H. apply (Hon _ H).
    intros ps patches ps' E. apply merge_detail_inr in E as (i & t & _ & _ & _ & _ & E). eexists _, _. split; [|exact E]. done.
Qed.

(** C8. A commit to the detail of a turn prolongs the chain of patches and strands
    nothing: a refused commit leaves the reducer as it was, so the pending delta
    keeps waiting; an accepted one answers the pending delta's patch, when there is
    one, from the last flushed revision to the session's, then one patch for
    exactly the next revision with the operations, and leaves nothing pending. *)
Theorem commit_chain c backendID sessionID r :
  (forall ps, r !! projectionSessionKey backendID sessionID = Some ps -> lastFlushedRev ps <= sp_SyncRev (projection ps)) ->
  match run_commit c backendID sessionID r with
  | (inl _, r') => r' = r
  | (inr (view, patches), r') => exists ps ps' live partOps,
      r !! projectionSessionKey backendID sessionID = Some ps /\
      r' = <[projectionSessionKey backendID sessionID := ps']> r /\ view = cloneSessionProjection (projection ps') /\
      let rev := sp_SyncRev (projection ps) in
      patches = live ++ [mkProjectionPatch rev (rev + 1) None [] partOps (commit_ops c) [] [] None None None None None] /\
      (live = [] /\ lastFlushedRev ps = rev \/
       exists p, live = [p] /\ pt_BaseRev p = lastFlushedRev ps /\ pt_SyncRev p = rev) /\
      sp_SyncRev (projection ps') = rev + 1 /\ lastFlushedRev ps' = rev + 1 /\ drained ps'
  end.
Proof.
  intros Hle. destruct (run_commit c backendID sessionID r) as [res r'] eqn:E. apply run_commit_session in E.
  destruct res as [err|[view patches]]; [done|]. destruct E as (ps & mid & partOps & ps' & Hps & Hr' & Hv & Hm & Hd).
  injection Hm as _ H2 H3 _. pose proof (drain_drained (commit_ops c) partOps mid) as Hdr.
  pose proof (drain_patches (commit_ops c) partOps mid) as Hp. rewrite H2, H3 in Hp. specialize (Hp (Hle ps Hps)).
  rewrite Hd in Hp, Hdr. destruct Hp as (live & H1 & H4 & H5 & H6). exists ps, ps', live, partOps.
  repeat (split; [done|]). split; [|done]. destruct H4 as [H4|(p & ? & _ & ?)]; [by left|right; eauto].
Qed.

(** ** The merge of a fetched detail *)

Lemma merge_detail_refused turnID generation parts ps :
  match merge_detail turnID generation parts ps with
  | inl ErrDetailTargetMissing => turnID ∉ ids ps
  | inl ErrDetailTargetRunning => exists t, the_turn turnID ps = Some t /\ tp_Status t <> "completed"
  | inl ErrTurnStateStale => exists t, the_turn turnID ps = Some t /\ tp_TurnGeneration t <> generation
  | inl _ => False
  | inr _ => exists t, the_turn turnID ps = Some t /\ tp_Status t = "completed" /\ tp_TurnGeneration t = generation
  end.
Proof.
  unfold merge_detail, the_turn. destruct (turnByID turnID ps) as [i|] eqn:Ei; simpl; [|by apply turn_index_None].
  destruct (turnByID_at _ _ _ Ei) as (t & Ht & _). rewrite Ht. simpl. case_if; [zprop; eauto|]. case_if; zprop; eauto.
Qed.

Lemma merge_target_fields parts t :
  let u := merge_target parts t in
  assistant_parts u = match parts with [] => assistant_parts t | _ => map cloneProjectionPart parts end /\
  (tp_TurnID u, tp_Status u, tp_User u, tp_System u) = (tp_TurnID t, tp_Status t, tp_User t, tp_System t) /\
  (tp_DetailLoadState u, tp_DetailReasonCode u, tp_TurnGeneration u) = (DetailStateLoaded, "", tp_TurnGeneration t + 1) /\
  (tp_DetailManifestRev u, tp_DetailItemCount u, tp_DetailTotalBytes u) = (0, 0, 0).
Proof.
  unfold merge_target, on_assistant_parts, assistant_parts.
  destruct parts, (tp_Assistant t) as [m|] eqn:E; cbn; rewrite ?E; done.
Qed.

Lemma turn_index_alter f i id l : keeps_id f -> turn_index id (alter f i l) = turn_index id l.
Proof.
  intros Hf. apply turn_index_ids. revert i. induction l as [|t l IH]; intros [|i]; simpl; try done.
  - by rewrite Hf.
  - f_equal. apply IH.
Qed.

(** C10. Fetched detail replaces the content of its turn, once: the merge is refused,
    leaving the reducer as it was, exactly when the turn is missing, not completed
    or of another generation than the fetch saw; accepted, it changes that turn
    only: its parts become the fetched ones (an empty fetch keeps the summary), the
    user's slot and the status stay, the load is complete, the generation is the
    next and the manifest starts from zero; the last patch carries the replacement
    and the state; and the same merge again is refused as stale. *)
Theorem MergeHistoricalTurnDetail_once backendID sessionID turnID generation parts r ps :
  backendID <> "" -> sessionID <> "" -> turnID <> "" -> session_ok ps ->
  r !! projectionSessionKey backendID sessionID = Some ps ->
  let merge := MergeHistoricalTurnDetail backendID sessionID turnID generation parts in
  match merge r with
  | (inl err, r') => r' = r /\
      match err with
      | ErrDetailTargetMissing => turnID ∉ ids ps
      | ErrDetailTargetRunning => exists t, the_turn turnID ps = Some t /\ tp_Status t <> "completed"
      | ErrTurnStateStale => exists t, the_turn turnID ps = Some t /\ tp_TurnGeneration t <> generation
      | _ => False
      end
  | (inr (view, patches), r') => exists t ps' commit,
      the_turn turnID ps = Some t /\ tp_Status t = "completed" /\ tp_TurnGeneration t = generation /\
      r' = <[projectionSessionKey backendID sessionID := ps']> r /\
      turns ps' = map (fun u => if decide (tp_TurnID u = turnID) then merge_target parts u else u) (turns ps) /\
      last patches = Some commit /\ pt_PartOps commit = replace_op turnID (messageID t) parts /\
      pt_TurnStateOps commit = [mkTurnStateOp turnID DetailStateLoaded "" (generation + 1) 0 0 0] /\
      merge r' = (inl ErrTurnStateStale, r')
  end.
Proof.
  intros Hb Hs Ht Hok Hps. cbv zeta. unfold MergeHistoricalTurnDetail. rewrite !bool_decide_eq_false_2 by done. simpl.
  unfold on_session. rewrite Hps. pose proof (merge_detail_refused turnID generation parts ps) as Hc.
  destruct (merge_detail turnID generation parts ps) as [err|[patches ps']] eqn:E; [by split|].
  apply merge_detail_inr in E as (i & t & Hi & Hti & Hst & Hg & E).
  set (op := mkTurnStateOp turnID DetailStateLoaded "" (generation + 1) 0 0 0) in *.
  set (target := at_turn i (merge_target parts) ps) in *.
  assert (turns ps' = alter (merge_target parts) i (turns ps)) as Hturns.
  { pose proof (turns_drain [op] (replace_op turnID (messageID t) parts) target) as H. rewrite E in H. exact H. }
  assert (exists commit, last patches = Some commit /\ pt_PartOps commit = replace_op turnID (messageID t) parts /\
    pt_TurnStateOps commit = [op]) as (commit & Hl & Hpo & Hso).
  { unfold drain_and_commit in E. apply (f_equal fst) in E.
    destruct (flushLocked target) as [[p|] ps1]; simpl in E; subst patches; by eexists. }
  exists t, ps', commit. split; [unfold the_turn; rewrite Hi; exact Hti|].
  split; [done|]. split; [done|]. split; [done|]. split.
  { rewrite Hturns. by apply alter_by_id; [destruct Hok|]. }
  split; [done|]. split; [done|]. split; [done|].
  rewrite lookup_insert_eq. unfold merge_detail, turnByID. rewrite Hturns, turn_index_alter by apply merge_target_id.
  unfold turnByID in Hi. rewrite Hi. cbn [mbind option_bind]. rewrite list_lookup_alter_eq, Hti.
  change (merge_target parts <$> Some t) with (Some (merge_target parts t)).
  destruct (merge_target_fields parts t) as (_ & H1 & H2 & _). set (u := merge_target parts t) in *. clearbody u.
  injection H1 as _ H1 _ _. injection H2 as _ _ H2. simpl. rewrite H1, bool_decide_eq_true_2 by done. simpl. rewrite H2.
  replace (tp_TurnGeneration t + 1 =? generation) with false by (symmetry; apply Z.eqb_neq; lia). done.
Qed.

(** ** Orphans *)

Definition detail_ok (t : TurnProjection) : Prop :=
  0 <= tp_TurnGeneration t /\ 0 <= tp_DetailManifestRev t /\ 0 <= tp_DetailItemCount t /\ 0 <= tp_DetailTotalBytes t /\
  (0 < tp_DetailItemCount t -> 0 < tp_DetailManifestRev t).

(** The calls that do not run an event or bring turns in. *)
Definition no_event (o : session_op) : Prop := match o with SEvent _ _ | SPrepend _ => False | _ => True end.

Lemma valid_op_v2_ok op t : valid_op_v2 op = true -> detail_ok t -> detail_ok (mutate_v2 op t).
Proof.
  unfold valid_op_v2. intros H (Hg & _). zprop. unfold detail_ok, mutate_v2. cbn.
  repeat (split; [done|]). intros Hc. destruct H1; zprop; lia.
Qed.

Lemma after_batch_ok v2 ops t : Forall (fun op => batch_valid v2 op = true) ops -> detail_ok t ->
  detail_ok (after_batch (batch_mutate v2) ops t).
Proof.
  intros Hv Ht. unfold after_batch. destruct (last_named ops t) as [op|] eqn:E; [|done].
  unfold last_named in E. apply last_Some_elem_of, list_elem_of_filter in E as [_ Hop].
  rewrite Forall_forall in Hv. specialize (Hv op Hop). destruct v2; [by apply valid_op_v2_ok|done].
Qed.

Lemma merge_target_ok parts t : detail_ok t -> detail_ok (merge_target parts t).
Proof.
  intros (H & _). unfold detail_ok, merge_target, on_assistant_parts.
  destruct parts, (tp_Assistant t) eqn:E; cbn; rewrite ?E; cbn; repeat split; lia.
Qed.

Lemma exec_op_detail_ok ea pb o ps : session_ok ps -> no_event o -> Forall detail_ok (turns ps) ->
  Forall detail_ok (turns (snd (exec_op ea pb o ps))).
Proof.
  intros Hok Ho Hd. destruct o as [msg now|now phase| | |l|v2 ops|turnID generation parts]; simpl in *; try done.
  - unfold external_state. cbv zeta. by case_if.
  - pose proof (turns_flush ps) as H. destruct (flushLocked ps) as [[] ps1]; simpl in *; by rewrite H.
  - unfold drop_pending. by case_if.
  - destruct ops as [|op ops]; [done|]. unfold commit_batch. change (if v2 then _ else _) with (batch v2).
    destruct (batch v2 (projection ps) _) as [|s] eqn:E; [done|].
    apply batch_iff in E as (Hv & _ & ->); [|by destruct Hok]. apply forallb_Forall in Hv.
    match goal with |- context [drain_and_commit ?o ?p ?x] => pose proof (turns_drain o p x) as Ht; destruct (drain_and_commit o p x) as [l1 ps1] end.
    simpl in *. rewrite Ht. apply Forall_fmap. eapply Forall_impl; [exact Hd|]. intros t. by apply after_batch_ok.
  - destruct (merge_detail turnID generation parts ps) as [|[l1 ps1]] eqn:E; [done|].
    apply merge_detail_inr in E as (i & t & _ & _ & _ & _ & E).
    pose proof (turns_drain [mkTurnStateOp turnID DetailStateLoaded "" (generation + 1) 0 0 0]
      (replace_op turnID (messageID t) parts) (at_turn i (merge_target parts) ps)) as Ht.
    rewrite E in Ht. simpl in *. rewrite Ht. apply Forall_alter; [done|]. intros u _ Hu.
    by apply merge_target_ok.
Qed.

(** [RecoverOrphanDetailLoading] of either version, and what it makes of a turn. *)
Definition recover_orphans (v2 : bool) : SessionProjection -> bool * SessionProjection :=
  if v2 then RecoverOrphanDetailLoadingV2 else RecoverOrphanDetailLoading.
Definition loading (t : TurnProjection) : Prop := tp_DetailLoadState t = DetailStateLoading.
Definition recovered (t : TurnProjection) : TurnProjection :=
  if decide (loading t) then set_tp_DetailReasonCode "interrupted" (set_tp_DetailLoadState DetailStateFailed t) else t.

Lemma orphan_mutates v2 t : batch_mutate v2 ((if v2 then orphan_op_v2 else orphan_op) t) t =
  set_tp_DetailReasonCode "interrupted" (set_tp_DetailLoadState DetailStateFailed t).
Proof. by destruct v2, t. Qed.

Lemma orphan_valid v2 t : tp_TurnID t <> "" -> detail_ok t -> batch_valid v2 ((if v2 then orphan_op_v2 else orphan_op) t) = true.
Proof.
  intros Hne (H1 & H2 & H3 & H4 & H5). destruct v2; simpl; unfold valid_op_v2, valid_op, orphan_op_v2, orphan_op;
    cbn [ts_TurnID ts_TurnGeneration ts_ManifestRev ts_ItemCount ts_TotalBytes]; rewrite bool_decide_eq_false_2 by done;
    rewrite ?(proj2 (Z.ltb_ge _ _)) by done; simpl; [|done].
  rewrite Z.gtb_ltb. destruct (Z.ltb_spec 0 (tp_DetailItemCount t)) as [Hc|Hc]; simpl; [|done].
  rewrite (proj2 (Z.leb_gt _ _)) by auto. done.
Qed.

Lemma orphan_checked v2 t : tp_DetailLoadState t = DetailStateLoading ->
  batch_check v2 ((if v2 then orphan_op_v2 else orphan_op) t) t = None.
Proof.
  intros Hl. destruct v2; simpl; unfold check_op_v2, check_op; cbn [ts_TurnGeneration orphan_op orphan_op_v2];
    rewrite Z.eqb_refl; [|done]. cbn [ts_ManifestRev ts_ItemCount ts_TotalBytes orphan_op_v2 negb].
  rewrite !Z.ltb_irrefl, Hl. done.
Qed.

Lemma recover_spec v2 s :
  NoDup (map tp_TurnID (sp_Turns s)) -> "" ∉ map tp_TurnID (sp_Turns s) -> Forall detail_ok (sp_Turns s) ->
  let '(changed, s') := recover_orphans v2 s in
  (changed = true <-> Exists loading (sp_Turns s)) /\
  sp_Turns s' = map recovered (sp_Turns s) /\ ~ Exists loading (sp_Turns s') /\
  sp_SyncRev s' = sp_SyncRev s + (if changed then 1 else 0) /\
  recover_orphans v2 s' = (false, s').
Proof.
  intros Hnd Hne Hd. set (op_of := if v2 then orphan_op_v2 else orphan_op).
  assert (forall s, recover_orphans v2 s = recover (batch v2) op_of s) as Hrec by (by destruct v2). rewrite Hrec.
  set (ts := sp_Turns s) in *. set (ops := map op_of (filter loading ts)).
  assert (forall t, ts_TurnID (op_of t) = tp_TurnID t) as Hid by (by destruct v2).
  assert (~ Exists loading (map recovered ts)) as Hnone.
  { rewrite <- Forall_Exists_neg. apply Forall_fmap, Forall_forall. intros t _. simpl. unfold recovered, loading.
    by case_decide. }
  destruct (decide (Exists loading ts)) as [Hex|Hno].
  - assert (batch v2 s ops = inr (set_sp_Turns (map recovered ts) s)) as Hb.
    { apply batch_iff; [done|]. split; [|split].
      - apply forallb_Forall, Forall_fmap, Forall_forall. intros t Ht. apply list_elem_of_filter in Ht as [_ Ht].
        apply orphan_valid; [intros E; apply Hne; rewrite <- E; by apply list_elem_of_fmap_2|].
        by rewrite Forall_forall in Hd; apply Hd.
      - apply Forall_fmap, Forall_forall. intros t Ht. apply list_elem_of_filter in Ht as [Hl Ht]. exists t.
        split; [done|]. split; [by rewrite Hid|]. by apply orphan_checked.
      - f_equal. apply map_ext_in. intros t Ht. apply list_elem_of_In in Ht. unfold after_batch, recovered, last_named.
        destruct (last (filter _ ops)) as [op|] eqn:E.
        + apply last_Some_elem_of, list_elem_of_filter in E as [He Hop]. apply list_elem_of_fmap in Hop as (u & -> & Hu).
          apply list_elem_of_filter in Hu as [Hl Hu]. rewrite Hid in He.
          assert (u = t) as -> by (by apply (turn_unique ts)). rewrite decide_True by done. symmetry. apply orphan_mutates.
        + rewrite decide_False; [done|]. intros Hl. apply last_None in E.
          assert (op_of t ∈ filter (fun op => ts_TurnID op = tp_TurnID t) ops) as Hin.
          { apply list_elem_of_filter. split; [apply Hid|]. by apply list_elem_of_fmap_2, list_elem_of_filter. }
          rewrite E in Hin. by apply not_elem_of_nil in Hin. }
    assert (ops <> []) as Hops.
    { intros E. apply Exists_exists in Hex as (t & Ht & Hl). apply fmap_nil_inv in E.
      assert (t ∈ filter loading ts) as Hin by (by apply list_elem_of_filter). rewrite E in Hin. by apply not_elem_of_nil in Hin. }
    unfold recover at 1. change (map op_of (filter _ (sp_Turns s))) with ops. destruct ops as [|op ops']; [done|]. rewrite Hb.
    split; [done|]. split; [done|]. split; [done|]. split; [done|]. rewrite Hrec. unfold recover.
    rewrite filter_none; [done|]. intros t Ht Hl. apply Hnone, Exists_exists. by exists t.
  - assert (forall t, t ∈ ts -> ~ loading t) as Hall by (intros t Ht Hl; apply Hno, Exists_exists; eauto).
    unfold recover at 1. rewrite filter_none by done. split; [done|]. split; [|split; [done|split; [lia|]]].
    + symmetry. apply map_id_Forall, Forall_forall. intros t Ht.
      unfold recovered. by rewrite decide_False by auto.
    + rewrite Hrec. unfold recover. by rewrite filter_none.
Qed.

(** No load outlives its leader: whatever states and merges a session with unique
    turns went through, the recovery of its checkpoint turns every load still in
    progress into failed(interrupted), with the same generation and manifest,
    leaves every other turn as it is, takes one revision exactly when there was
    one, and has nothing to do the second time. *)
Theorem orphans_recovered ea pb v2 ops ps :
  session_ok ps -> Forall detail_ok (turns ps) -> Forall no_event ops ->
  let s := projection (snd (run_ops ea pb ops ps)) in
  let '(changed, s') := recover_orphans v2 s in
  (changed = true <-> Exists loading (sp_Turns s)) /\
  sp_Turns s' = map recovered (sp_Turns s) /\ ~ Exists loading (sp_Turns s') /\
  sp_SyncRev s' = sp_SyncRev s + (if changed then 1 else 0) /\
  recover_orphans v2 s' = (false, s').
Proof.
  intros Hok Hd Hops. cbv zeta. revert ps Hok Hd. induction Hops as [|o ops Ho _ IH]; intros ps Hok Hd; simpl.
  - apply recover_spec; [by destruct Hok..|done].
  - pose proof (ok_exec_op ea pb o ps Hok) as H1. pose proof (exec_op_detail_ok ea pb o ps Hok Ho Hd) as H2.
    destruct (exec_op ea pb o ps) as [l ps1]. specialize (IH ps1 H1 H2). by destruct (run_ops ea pb ops ps1).
Qed.

(** ** Samples *)

(** Acceptance, evaluated. *)
Definition accepts (check : TurnStateOp -> TurnProjection -> option DetailError) (l : list TurnProjection)
    (op : TurnStateOp) : bool :=
  existsb (fun t => bool_decide (tp_TurnID t = ts_TurnID op)
                    && match check op t with None => true | Some _ => false end) l.

Lemma accepts_accepted check l op : accepts check l op = true -> accepted check l op.
Proof.
  intros H. apply existsb_exists in H as (t & Ht & H). zprop. exists t. split; [by apply list_elem_of_In|].
  split; [done|]. by destruct (check op t).
Qed.

(** A session with one completed turn and a second one that has begun to speak. *)
Definition spoken : list session_op :=
  [SEvent (sample_event 1 "turn_started" [("turnId", VString "t1")]) 1;
   SEvent (sample_event 2 "text_delta" [("turnId", VString "t1"); ("itemId", VString "m1"); ("delta", VString "hello")]) 2;
   SEvent (sample_event 3 "turn_completed" [("turnId", VString "t1")]) 3; SFlush;
   SEvent (sample_event 4 "turn_started" [("turnId", VString "t2")]) 4;
   SEvent (sample_event 5 "text_delta" [("turnId", VString "t2"); ("itemId", VString "m2"); ("delta", VString "more")]) 5].
Definition spoken_session : projectionSession := snd (run_ops no_attachments no_parts spoken (new_session "s")).
Definition spoken_reducer : ProjectionReducer := {[projectionSessionKey "codex" "s" := spoken_session]}.

Lemma ok_spoken : session_ok spoken_session.
Proof. apply ok_run_ops, ok_new. Qed.

Definition load_op (turn state : string) (rev items : Z) : TurnStateOp := mkTurnStateOp turn state "" 0 rev items (10 * items).

Definition detail_of (t : TurnProjection) : string * string * Z * Z * Z :=
  (tp_TurnID t, tp_DetailLoadState t, tp_TurnGeneration t, tp_DetailManifestRev t, tp_DetailItemCount t).

(** A batch on the sample, and one that names a turn of another generation. *)
Lemma ApplyTurnStateOps_iff_witness :
  (exists s', batch true (projection spoken_session) [load_op "t1" "partial" 1 2; load_op "t1" "loaded" 2 3] = inr s' /\
     map detail_of (sp_Turns s') = [("t1", "loaded", 0, 2, 3); ("t2", "", 0, 0, 0)]) /\
  exists op t, op ∈ [load_op "t2" "loading" 0 0; mkTurnStateOp "t1" "loading" "" 7 0 0 0] /\
    t ∈ sp_Turns (projection spoken_session) /\ tp_TurnID t = ts_TurnID op /\ tp_TurnGeneration t <> ts_TurnGeneration op.
Proof.
  assert (NoDup (map tp_TurnID (sp_Turns (projection spoken_session)))) as Hnd by (destruct ok_spoken; done).
  split.
  - eexists. split.
    + apply (ApplyTurnStateOps_iff true (projection spoken_session) _ Hnd). split; [|reflexivity].
      constructor; [|constructor; [|constructor]]; (split; [vm_compute; reflexivity|]; apply accepts_accepted; vm_compute; reflexivity).
    + vm_compute. reflexivity.
  - apply (ApplyTurnStateOps_iff true (projection spoken_session) _ Hnd). vm_compute. reflexivity.
Defined.

(** A load in three calls, one of them stale, and the fetched content. *)
Lemma detail_progress_witness :
  let ops := [SState true [load_op "t1" "partial" 1 2]; SState true [load_op "t1" "loading" 0 0]; SFlush;
              SMerge "t1" 0 [final_text "fetched"]] in
  map detail_of (turns (snd (run_ops no_attachments no_parts ops spoken_session))) = [("t1", "loaded", 1, 0, 0); ("t2", "", 0, 0, 0)] /\
  Forall2 (advances true) (turns spoken_session) (turns (snd (run_ops no_attachments no_parts ops spoken_session))).
Proof.
  split; [vm_compute; reflexivity|].
  refine (detail_progress no_attachments no_parts [SState true [load_op "t1" "partial" 1 2];
    SState true [load_op "t1" "loading" 0 0]; SFlush; SMerge "t1" 0 [final_text "fetched"]] spoken_session _ _);
    [apply ok_spoken|]. repeat constructor.
Defined.

(** A batch of version 1 takes a complete load back. *)
Example version_1_takes_back :
  map detail_of (turns (snd (run_ops no_attachments no_parts
    [SState true [load_op "t1" "loaded" 1 2]; SState false [load_op "t1" "loading" 0 0]] spoken_session)))
  = [("t1", "loading", 0, 1, 2); ("t2", "", 0, 0, 0)].
Proof. vm_compute. reflexivity. Qed.

(** The revisions and the operations of the patches of a commit. *)
Definition patch_spans (res : (DetailError + (SessionProjection * list ProjectionPatch)) * ProjectionReducer)
  : list (Z * Z * list string) :=
  match fst res with
  | inr (_, patches) => map (fun p => (pt_BaseRev p, pt_SyncRev p, map po_Op (pt_PartOps p) ++ map ts_DetailLoadState (pt_TurnStateOps p))) patches
  | inl _ => []
  end.

Lemma commit_chain_witness :
  patch_spans (run_commit (CMerge "t1" 0 [final_text "fetched"]) "codex" "s" spoken_reducer)
    = [(2, 3, []); (3, 4, ["replace_parts"; "loaded"])] /\
  match run_commit (CMerge "t1" 0 [final_text "fetched"]) "codex" "s" spoken_reducer with
  | (inl _, _) => False
  | (inr _, r') => exists ps', r' = <[projectionSessionKey "codex" "s" := ps']> spoken_reducer /\ drained ps'
  end.
Proof.
  split; [vm_compute; reflexivity|].
  assert (forall ps, spoken_reducer !! projectionSessionKey "codex" "s" = Some ps -> lastFlushedRev ps <= sp_SyncRev (projection ps)) as H.
  { intros ps. unfold spoken_reducer. rewrite lookup_singleton_eq. intros Hps.
    assert (ps = spoken_session) as -> by congruence. vm_compute. discriminate. }
  assert (patch_spans (run_commit (CMerge "t1" 0 [final_text "fetched"]) "codex" "s" spoken_reducer) <> []) as Hne by (vm_compute; discriminate).
  pose proof (commit_chain (CMerge "t1" 0 [final_text "fetched"]) "codex" "s" spoken_reducer H) as Hc. clear H.
  set (res := run_commit _ _ _ _) in *. clearbody res. destruct res as [[err|[view patches]] r']; [done|].
  destruct Hc as (ps & ps' & live & partOps & _ & Hr & _ & _ & _ & _ & _ & Hd). by exists ps'.
Defined.

Lemma MergeHistoricalTurnDetail_once_witness :
  let merge := MergeHistoricalTurnDetail "codex" "s" "t1" 0 [final_text "fetched"] in
  patch_spans (merge spoken_reducer) = [(2, 3, []); (3, 4, ["replace_parts"; "loaded"])] /\
  merge (snd (merge spoken_reducer)) = (inl ErrTurnStateStale, snd (merge spoken_reducer)).
Proof.
  cbv zeta. split; [vm_compute; reflexivity|].
  assert (patch_spans (MergeHistoricalTurnDetail "codex" "s" "t1" 0 [final_text "fetched"] spoken_reducer) <> []) as Hne
    by (vm_compute; discriminate).
  pose proof (MergeHistoricalTurnDetail_once "codex" "s" "t1" 0 [final_text "fetched"] spoken_reducer spoken_session
    ltac:(done) ltac:(done) ltac:(done) ok_spoken (lookup_singleton_eq _ _)) as Hm. cbv zeta in Hm.
  set (res := MergeHistoricalTurnDetail _ _ _ _ _ spoken_reducer) in *. clearbody res.
  destruct res as [[err|[view patches]] r']; [done|].
  destruct Hm as (t & ps' & commit & _ & _ & _ & _ & _ & _ & _ & _ & H). exact H.
Defined.

(** A load is under way when the bridge restarts. *)
Lemma orphans_recovered_witness :
  let s := projection (snd (run_ops no_attachments no_parts [SState true [load_op "t1" "loading" 1 2]] spoken_session)) in
  Exists loading (sp_Turns s) /\
  let '(changed, s') := recover_orphans true s in
  changed = true /\ map detail_of (sp_Turns s') = [("t1", "failed", 0, 1, 2); ("t2", "", 0, 0, 0)] /\
  ~ Exists loading (sp_Turns s') /\ recover_orphans true s' = (false, s').
Proof.
  assert (Forall detail_ok (turns spoken_session)) as Hd.
  { apply Forall_forall. intros t Ht.
    assert (forallb (fun t => bool_decide (detail_of t = (tp_TurnID t, "", 0, 0, 0)) && (tp_DetailTotalBytes t =? 0)) (turns spoken_session) = true) as H
      by (vm_compute; reflexivity).
    apply forallb_Forall in H. rewrite Forall_forall in H. specialize (H t Ht). simpl in H. zprop. injection H as H1 H2 H3 H4.
    unfold detail_ok. rewrite H2, H3, H4, H0. repeat split; lia. }
  pose proof (orphans_recovered no_attachments no_parts true [SState true [load_op "t1" "loading" 1 2]] spoken_session
    ok_spoken Hd ltac:(repeat constructor)) as H. cbv zeta in *.
  assert (existsb (fun t => bool_decide (loading t)) (sp_Turns (projection (snd (run_ops no_attachments no_parts
    [SState true [load_op "t1" "loading" 1 2]] spoken_session)))) = true) as He by (vm_compute; reflexivity).
  assert (map detail_of (sp_Turns (snd (recover_orphans true (projection (snd (run_ops no_attachments no_parts
    [SState true [load_op "t1" "loading" 1 2]] spoken_session)))))) = [("t1", "failed", 0, 1, 2); ("t2", "", 0, 0, 0)]) as Ho
    by (vm_compute; reflexivity).
  set (s := projection _) in *. clearbody s.
  assert (Exists loading (sp_Turns s)) as Hex.
  { apply existsb_exists in He as (t & Ht & Hl). zprop. apply Exists_exists. exists t. split; [by apply list_elem_of_In|done]. }
  split; [exact Hex|]. set (res := recover_orphans true s) in *. clearbody res. destruct res as [changed s'].
  destruct H as (H1 & _ & H3 & _ & H5). split; [by apply H1|]. split; [exact Ho|]. split; [exact H3|exact H5].
Defined.
