(* ===== verification/ReducerTurns.v ===== *)
(** * The end of a turn, and what a restore repairs

    After its last event a turn and everything in it is closed and no other turn
    is left open; a restored checkpoint has at most the active turn open. *)

From S2P Require Import Prelude.
From S2P Require Import GoText.
From S2P Require Import Wire.
From S2P Require Import Projection.
From S2P Require Import ProjectionFields.
From S2P Require Import ReducerParts.
From S2P Require Import Reducer.
From S2P Require Import ReducerPatch.
From S2P Require Import ReducerInvariant.

(** ** Turns through the calls *)

Lemma turns_at_turn i f ps : turns (at_turn i f ps) = alter f i (turns ps).
Proof. done. Qed.

Lemma turns_stage id i ps : turns (stage id i ps) = turns ps.
Proof. unfold stage. by destruct (turns ps !! i). Qed.

Lemma turns_stageTurnForFlush id ps : turns (stageTurnForFlush id ps) = turns ps.
Proof. unfold stageTurnForFlush. case_if; [done|]. destruct (turnByID id ps); [apply turns_stage|done]. Qed.

Lemma turns_commit msg now ps : turns (commit msg now ps) = turns ps.
Proof. unfold commit. by case_bool_decide. Qed.

Definition settled (a : string) (n : Z) (t : TurnProjection) : TurnProjection :=
  if open_other a t then settle_turn n t else t.

(** [settleOtherOpenTurns] settles every open turn but one, and no other. *)
Lemma turns_settleOtherOpenTurns a n ps : turns (settleOtherOpenTurns a n ps) = map (settled a n) (turns ps).
Proof.
  unfold settleOtherOpenTurns.
  assert (forall k l x, turns x = map (settled a n) (take k (turns ps)) ++ drop k (turns ps) ->
    (k + l = length (turns ps))%nat ->
    turns (fold_left (settle_at a n) (seq k l) x) = map (settled a n) (turns ps)) as H.
  { intros k l. revert k. induction l as [|l IH]; intros k x Hx Hl; simpl.
    - rewrite Hx, take_ge, drop_ge by lia. by rewrite app_nil_r.
    - apply IH; [|lia]. assert (k < length (turns ps))%nat as Hk by lia. apply lookup_lt_is_Some_2 in Hk as [t Ht].
      assert (length (map (settled a n) (take k (turns ps))) = k) as Hlen.
      { rewrite length_map, length_take. lia. }
      assert (turns x !! k = Some t) as Hxk.
      { rewrite Hx, lookup_app_r by lia. rewrite Hlen, lookup_drop. rewrite Nat.sub_diag, Nat.add_0_r. done. }
      rewrite (take_S_r _ _ _ Ht), map_app. simpl. unfold settle_at. rewrite Hxk.
      rewrite (drop_S _ _ _ Ht) in Hx. unfold settled at 2.
      destruct (open_other a t); [|by rewrite Hx, <- app_assoc].
      rewrite turns_stage, turns_at_turn. change (turns (set_workflows ?v ?y)) with (turns y).
      rewrite Hx, alter_app_r_alt by lia. rewrite Hlen, Nat.sub_diag. simpl. by rewrite <- app_assoc. }
  apply (H 0%nat); [done|lia].
Qed.

(** ** The assistant's parts *)

Lemma parts_on_assistant f t : f [] = [] -> assistant_parts (on_assistant_parts f t) = f (assistant_parts t).
Proof. intros Hf. unfold assistant_parts, on_assistant_parts. destruct (tp_Assistant t) as [m|] eqn:E; [done|]. by rewrite E, Hf. Qed.

Lemma parts_classify b t : assistant_parts (classify_turn b t) = classify_parts b (assistant_parts t).
Proof.
  unfold assistant_parts, classify_turn, classifyProjectionTextPresentation.
  destruct t as [? ? ? ? ? ? [m|] ? ? ? ? ? ? ? ? ? ?]; reflexivity.
Qed.

(** Presentation is all a classification changes. *)
Lemma classify_keeps {A : Type} (g : ProjectionPart -> A) b l :
  (forall s p, g (set_pp_Presentation s p) = g p) -> map g (classify_parts b l) = map g l.
Proof.
  intros Hg. assert (forall (c : ProjectionPart -> bool) s l, map g (map (fun p => if c p then set_pp_Presentation s p else p) l) = map g l) as Hm.
  { intros c s l'. rewrite map_map. apply map_ext. intros p. case_if; [apply Hg|done]. }
  assert (forall s i l, map g (alter (set_pp_Presentation s) i l) = map g l) as Ha.
  { intros s i l'. revert i. induction l' as [|p l' IH]; intros [|i]; simpl; try done; [by rewrite Hg|f_equal; apply IH]. }
  unfold classify_parts. case_if; [apply Hm|]. cbv zeta. destruct (last_text 0 l); [destruct b|]; rewrite ?Ha; apply Hm.
Qed.

Lemma Forall_map_eq {A B : Type} (P : B -> Prop) (g : A -> B) l l' :
  map g l = map g l' -> Forall (fun x => P (g x)) l' -> Forall (fun x => P (g x)) l.
Proof.
  revert l'. induction l as [|x l IH]; intros [|y l'] H HF; try done.
  injection H as Hx Hl. inversion HF; subst. constructor; [by rewrite Hx|by apply (IH l')].
Qed.

Lemma terminate_idle p : terminates (terminate_part p) = false.
Proof.
  unfold terminate_part. destruct (terminates p) eqn:E; [|done]. unfold terminates in *. cbn. zprop.
  by rewrite !andb_false_r.
Qed.

Lemma interrupt_idle p : interrupts (interrupt_part p) = false.
Proof. unfold interrupt_part. destruct (interrupts p) eqn:E; [|done]. unfold interrupts. cbn. by rewrite andb_false_r. Qed.

Lemma interrupts_terminate p : interrupts (terminate_part p) = interrupts p.
Proof. unfold terminate_part. by destruct (terminates p). Qed.
Lemma interrupts_settle c p : interrupts (settle_part c p) = interrupts p.
Proof. unfold settle_part. by destruct (settles c p). Qed.

(** ** The last event of a turn *)

Lemma terminal_cases s : terminal s = true -> s = "completed" \/ s = "aborted" \/ s = "error".
Proof.
  intros H. apply bool_decide_eq_true_1 in H. repeat (apply elem_of_cons in H as [->|H]; [auto|]).
  by apply not_elem_of_nil in H.
Qed.

Lemma turns_exec_terminal id ps t :
  the_turn id ps = Some t -> terminal (tp_Status t) = true -> turns (applyUserInputExecution id ps) = turns ps.
Proof.
  intros Ht Hs. unfold applyUserInputExecution. case_if; [done|]. case_if; [done|]. rewrite Ht.
  destruct (one_of_words ["running"; "pending"] (tp_Status t)) eqn:E; [|done].
  apply terminal_cases in Hs. by destruct Hs as [Hs|[Hs|Hs]]; rewrite Hs in E.
Qed.

Lemma alter_same {A : Type} (f : A -> A) (i : nat) (l : list A) x : l !! i = Some x -> f x = x -> alter f i l = l.
Proof. intros Hx Hf. apply list_eq. intros j. destruct (decide (i = j)) as [->|]; [|by rewrite list_lookup_alter_ne].
  by rewrite list_lookup_alter_eq, Hx; simpl; rewrite Hf. Qed.

Lemma the_turn_index id ps i t : turnByID id ps = Some i -> turns ps !! i = Some t -> the_turn id ps = Some t.
Proof. intros Hi Ht. unfold the_turn. by rewrite Hi. Qed.

Lemma turns_terminated id ps i t :
  turnByID id ps = Some i -> turns ps !! i = Some t -> terminal (tp_Status t) = true ->
  turns (markTurnUserInputsTerminated id ps) = alter (on_assistant_parts (map terminate_part)) i (turns ps).
Proof.
  intros Hi Ht Hs. unfold markTurnUserInputsTerminated. rewrite Hi, Ht. cbv zeta.
  set (f := on_assistant_parts (map terminate_part)).
  case_bool_decide as Hno.
  - symmetry. apply (alter_same _ _ _ t Ht). subst f. unfold on_assistant_parts, assistant_parts in *.
    destruct t as [? ? ? ? ? ? [[a b c ps' d]|] ? ? ? ? ? ? ? ? ? ?]; simpl in *; [|done].
    assert (map terminate_part ps' = ps') as Hm; [|unfold set_mp_Parts, set_tp_Assistant; simpl; by rewrite Hm].
    apply map_id_Forall, Forall_forall. intros p Hp. unfold terminate_part.
    destruct (terminates p) eqn:E; [|done].
    assert (p ∈ filter (fun p => terminates p = true) ps') as Hin by (by apply list_elem_of_filter).
    rewrite Hno in Hin. by apply not_elem_of_nil in Hin.
  - rewrite (turns_exec_terminal _ _ (f t)).
    + by rewrite turns_stage, turns_at_turn.
    + apply (the_turn_index _ _ i).
      * rewrite <- Hi. apply turnByID_same. rewrite ids_stage, ids_at_turn; [done|]. apply on_assistant_parts_id.
      * rewrite turns_stage, turns_at_turn, list_lookup_alter_eq.
        change (turns (set_userInputs ?v ?y)) with (turns y). by rewrite Ht.
    + subst f. unfold on_assistant_parts. by destruct (tp_Assistant t).
Qed.

Lemma terminal_settled a n t :
  tp_TurnID t <> "" -> terminal (tp_Status (settled a n t)) = true \/ tp_TurnID t = a.
Proof.
  intros Hne. unfold settled. destruct (open_other a t) eqn:E.
  - left. unfold settle_turn, interrupt_turn, on_assistant_parts. cbv zeta. destruct (tp_Assistant _); by case_if.
  - unfold open_other in E. apply andb_false_iff in E as [E|E]; [|apply negb_false_iff in E; auto].
    apply andb_false_iff in E as [E|E]; zprop; [done|auto].
Qed.

(** What a turn that ended is: in its status; a question still waiting for its answer is
    marked as terminated; no workflow that has an identity is running. *)
Definition closed_turn (status : string) (t : TurnProjection) : Prop :=
  tp_Status t = status /\
  Forall (fun p => pp_Type p = "user_input" -> pp_UserInputStatus p ∈ ["pending"; "submitted"] ->
            pp_UserInputDiagnosticCode p = "turn_terminated") (assistant_parts t) /\
  Forall (fun p => pp_Type p = "workflow" -> pp_WorkflowStatus p = "running" -> pp_WorkflowID p = "") (assistant_parts t).

Lemma terminates_false p : terminates p = false -> pp_Type p = "user_input" ->
  pp_UserInputStatus p ∈ ["pending"; "submitted"] -> pp_UserInputDiagnosticCode p = "turn_terminated".
Proof.
  unfold terminates. intros Hf Ht Hs. rewrite (bool_decide_eq_true_2 _ Ht) in Hf. cbn [andb] in Hf.
  assert (bool_decide (pp_UserInputStatus p = "pending") || bool_decide (pp_UserInputStatus p = "submitted") = true) as Hw.
  { apply elem_of_cons in Hs as [-> | ->%list_elem_of_singleton]; reflexivity. }
  rewrite Hw in Hf. cbn [andb] in Hf. apply negb_false_iff in Hf. by apply bool_decide_eq_true_1 in Hf.
Qed.

Lemma interrupts_false p : interrupts p = false -> pp_Type p = "workflow" -> pp_WorkflowStatus p = "running" ->
  pp_WorkflowID p = "".
Proof.
  unfold interrupts. intros Hf Ht Hs. rewrite (bool_decide_eq_true_2 _ Ht), (bool_decide_eq_true_2 _ Hs) in Hf.
  cbn [andb] in Hf. apply negb_false_iff in Hf. by apply bool_decide_eq_true_1 in Hf.
Qed.

Lemma end_turn_closes id status ps i t :
  session_ok ps -> turnByID id ps = Some i -> turns ps !! i = Some t -> tp_Status t = status ->
  terminal status = true -> Forall (fun p => interrupts p = false) (assistant_parts t) ->
  let ps' := end_turn id ps in
  Forall (fun u => terminal (tp_Status u) = true) (turns ps') /\
  exists u, the_turn id ps' = Some u /\ closed_turn status u.
Proof.
  intros Hok Hi Ht Hs Hterm Hint. cbv zeta. unfold end_turn.
  change (turns (publish_exec ?e ?x)) with (turns x).
  change (the_turn id (publish_exec ?e ?x)) with (the_turn id x).
  set (ps1 := markTurnUserInputsTerminated id ps). set (n := updatedAt ps1).
  assert (turns ps1 = alter (on_assistant_parts (map terminate_part)) i (turns ps)) as H1
    by (apply (turns_terminated id ps i t); congruence).
  assert (session_ok ps1) as Hok1 by (by apply ok_markTurnUserInputsTerminated).
  set (u := on_assistant_parts (map terminate_part) t).
  assert (tp_TurnID t = id) as Hid.
  { destruct (turn_index_Some _ _ _ Hi) as (t' & Ht' & ?). congruence. }
  assert (tp_TurnID u = id) as Hidu by (subst u; by rewrite on_assistant_parts_id).
  assert (tp_Status u = status) as Hsu by (subst u; unfold on_assistant_parts; by destruct (tp_Assistant t)).
  assert (turns ps1 !! i = Some u) as Hu by (by rewrite H1, list_lookup_alter_eq, Ht).
  rewrite turns_settleOtherOpenTurns. split.
  - apply Forall_forall. intros v Hv. apply list_elem_of_fmap in Hv as (w & -> & Hw).
    assert (tp_TurnID w <> "") as Hne.
    { intros He. apply (ok_nonempty _ Hok1). rewrite <- He. by apply list_elem_of_fmap_2. }
    destruct (terminal_settled id n w Hne) as [?|He]; [done|].
    assert (w = u) as ->.
    { apply list_elem_of_lookup in Hw as [j Hj].
      assert (ids ps1 !! j = ids ps1 !! i) as E by (rewrite (ids_lookup _ _ _ Hj), (ids_lookup _ _ _ Hu); congruence).
      assert (j = i) as -> by (eapply NoDup_lookup; [exact (ok_ids _ Hok1)|exact (ids_lookup _ _ _ Hj)|];
        rewrite <- E; by apply ids_lookup).
      congruence. }
    unfold settled, open_other. rewrite (bool_decide_eq_true_2 (tp_TurnID u = id)) by done.
    rewrite andb_false_r. simpl. congruence.
  - exists u. split; [|split; [done|]].
    + apply (the_turn_index _ _ i).
      * rewrite <- Hi. apply turnByID_same. rewrite ids_settleOtherOpenTurns. unfold ids. rewrite H1.
        change (ids (at_turn i (on_assistant_parts (map terminate_part)) ps) = ids ps). apply ids_at_turn, on_assistant_parts_id.
      * rewrite turns_settleOtherOpenTurns. rewrite list_lookup_fmap, Hu. simpl. f_equal.
        unfold settled, open_other. rewrite (bool_decide_eq_true_2 (tp_TurnID u = id)) by done. by rewrite andb_false_r.
    + subst u. rewrite parts_on_assistant by done. split.
      * apply Forall_forall. intros p Hp. apply list_elem_of_fmap in Hp as (q & -> & _). apply terminates_false, terminate_idle.
      * apply Forall_forall. intros p Hp. apply list_elem_of_fmap in Hp as (q & -> & Hq). apply interrupts_false.
        rewrite interrupts_terminate. rewrite Forall_forall in Hint. auto.
Qed.

Lemma turnByID_append id t l : turn_index id l = None -> tp_TurnID t = id -> turn_index id (l ++ [t]) = Some (length l).
Proof.
  intros Hn Ht. unfold turn_index in *. apply fmap_None in Hn. rewrite list_find_app_r by done. simpl.
  by rewrite decide_True.
Qed.

(** After an upsert with a status, the turn is there in that status. *)
Lemma upsertTurn_status c ps :
  tp_TurnID c <> "" -> tp_Status c <> "" ->
  exists i t, turnByID (tp_TurnID c) (upsertTurn c ps) = Some i /\ turns (upsertTurn c ps) !! i = Some t /\
    tp_Status t = tp_Status c.
Proof.
  intros Hne Hs. unfold upsertTurn. rewrite bool_decide_eq_false_2 by done.
  destruct (turnByID (tp_TurnID c) ps) as [i|] eqn:E.
  - destruct (turnByID_at _ _ _ E) as (t & Ht & _). exists i, (merge_turn_all c t). split; [|split].
    + rewrite <- E. apply turnByID_same. by rewrite ids_stage, ids_at_turn by auto with reducer.
    + by rewrite turns_stage, turns_at_turn, list_lookup_alter_eq, Ht.
    + unfold merge_turn_all, merge_turn. rewrite (bool_decide_eq_false_2 (tp_Status c = "")) by done. cbv zeta.
      repeat case_if; destruct (tp_User c), (tp_Assistant c), (tp_System c), (tp_Pending c); done.
  - exists (length (turns ps)), c. split; [|split; [|done]].
    + by apply turnByID_append.
    + cbn. unfold turns. rewrite lookup_app_r by done. by rewrite Nat.sub_diag.
Qed.

(** The status an event ends a turn in. *)
Definition ended_status (msg : EventMessage) : string :=
  if bool_decide (Event msg = "turn_completed")
  then if bool_decide (dataString (payload msg) "stopReason" = "cancelled") then "aborted" else "completed"
  else if bool_decide (Event msg = "turn_error") then "error" else "aborted".

(** Turns whose workflows are closed stay so when other parts change. *)
Lemma interrupted_turn t :
  Forall (fun p => interrupts p = false) (assistant_parts (interrupt_turn t)).
Proof.
  unfold interrupt_turn. rewrite parts_on_assistant by done. apply Forall_forall. intros p Hp.
  apply list_elem_of_fmap in Hp as (q & -> & _). apply interrupt_idle.
Qed.

Lemma turns_interrupt i ps : turns (interruptRunningWorkflowParts i ps) = alter interrupt_turn i (turns ps).
Proof.
  unfold interruptRunningWorkflowParts. destruct (turns ps !! i) eqn:E; [done|].
  apply list_eq. intros j. destruct (decide (i = j)) as [<-|]; [|by rewrite list_lookup_alter_ne].
  by rewrite list_lookup_alter_eq, E.
Qed.

Lemma turns_settle_cards i ps :
  turns (settleResolvedPermissionCards i ps) = alter (on_assistant_parts (map (settle_part (permissionCards ps)))) i (turns ps).
Proof.
  unfold settleResolvedPermissionCards. destruct (turns ps !! i) eqn:E; [done|].
  apply list_eq. intros j. destruct (decide (i = j)) as [<-|]; [|by rewrite list_lookup_alter_ne].
  by rewrite list_lookup_alter_eq, E.
Qed.

Lemma status_on_assistant f t : tp_Status (on_assistant_parts f t) = tp_Status t.
Proof. unfold on_assistant_parts. by destruct (tp_Assistant t). Qed.

(** What the handlers of the last event have made of the turn when they call
    [end_turn]. *)
Definition ending (id status : string) (x : projectionSession) : Prop :=
  session_ok x /\ exists i t, turnByID id x = Some i /\ turns x !! i = Some t /\ tp_Status t = status /\
    Forall (fun p => interrupts p = false) (assistant_parts t).

Lemma ending_upserted id status c ps (f : nat -> projectionSession) (g : TurnProjection -> TurnProjection) :
  session_ok ps -> tp_TurnID c = id -> id <> "" -> tp_Status c = status -> status <> "" ->
  (forall i, session_ok (upsertTurn c ps) -> session_ok (f i)) -> (forall i, ids (f i) = ids (upsertTurn c ps)) ->
  (forall i, turns (f i) = alter g i (turns (upsertTurn c ps))) -> (forall t, tp_Status (g t) = tp_Status t) ->
  (forall t, Forall (fun p => interrupts p = false) (assistant_parts (g t))) ->
  ending id status (match turnByID id (upsertTurn c ps) with
                    | None => upsertTurn c ps | Some i => stage id i (f i) end).
Proof.
  intros Hok Hc Hid Hs Hne Hfok Hfids Hft Hg Hint.
  destruct (upsertTurn_status c ps) as (i & t & Hi & Ht & Hst); [congruence|congruence|]. rewrite Hc in Hi.
  rewrite Hi. split.
  - apply (ok_stage_same _ _ _ _ Hi); [apply Hfids|apply Hfok, ok_upsertTurn, Hok].
  - exists i, (g t). split; [|split; [|split; [by rewrite Hg; congruence|apply Hint]]].
    + rewrite <- Hi. apply turnByID_same. by rewrite ids_stage, Hfids.
    + by rewrite turns_stage, Hft, list_lookup_alter_eq, Ht.
Qed.

Lemma alter_compose_id {A : Type} (f g : A -> A) (i : nat) (l : list A) :
  alter f i (alter g i l) = alter (fun x => f (g x)) i l.
Proof. revert i. induction l as [|x l IH]; intros [|i]; simpl; try done. f_equal. apply IH. Qed.

Lemma ended_status_terminal msg : terminal (ended_status msg) = true /\ ended_status msg <> "".
Proof. unfold ended_status. repeat case_if; done. Qed.

Lemma completed_ending msg now ps :
  session_ok ps -> Event msg = "turn_completed" ->
  let id := or_else (dataString (payload msg) "turnId") (activeTurnID ps) in
  id <> "" -> exists x, apply_turn_completed msg now (payload msg) ps = end_turn id x /\ ending id (ended_status msg) x.
Proof.
  intros Hok Hev id Hid. unfold apply_turn_completed. fold id. rewrite (bool_decide_eq_false_2 (id = "")) by done.
  cbv zeta. eexists. split; [reflexivity|].
  set (c := if _ >? 0 then _ else _).
  assert (tp_TurnID c = id /\ tp_Status c = ended_status msg) as [Hc Hs].
  { subst c. unfold ended_status. rewrite (bool_decide_eq_true_2 (Event msg = _)) by done. by case_if. }
  set (pre := fun t => if dataBool (payload msg) "detailPreloaded" then preload_detail t else t).
  set (cards := permissionCards (upsertTurn c (commit msg now ps))).
  apply (ending_upserted id _ c (commit msg now ps) _
    (fun t => on_assistant_parts (map (settle_part cards)) (interrupt_turn (classify_turn true (pre t))))); try done.
  - by apply ok_commit.
  - apply ended_status_terminal.
  - intros i Hx. apply ok_settle_cards, ok_interrupt, ok_at_turn; [done|]. case_if; [by apply ok_at_turn|done].
  - intros i. rewrite ids_settle_cards, ids_interrupt, ids_at_turn by done. case_if; [by rewrite ids_at_turn|done].
  - intros i. rewrite turns_settle_cards, turns_interrupt, turns_at_turn.
    match goal with |- context [permissionCards (interruptRunningWorkflowParts ?i ?x)] =>
      assert (permissionCards (interruptRunningWorkflowParts i x) = cards) as -> end.
    { unfold interruptRunningWorkflowParts. subst cards. destruct (turns _ !! i); by case_if. }
    assert (turns (if dataBool (payload msg) "detailPreloaded" then at_turn i preload_detail (upsertTurn c (commit msg now ps))
      else upsertTurn c (commit msg now ps)) = alter pre i (turns (upsertTurn c (commit msg now ps)))) as ->.
    { subst pre. cbv beta. case_if; [done|]. symmetry.
      destruct (turns (upsertTurn c (commit msg now ps)) !! i) eqn:E; [by eapply alter_same|].
      apply list_eq. intros j. destruct (decide (i = j)) as [<-|]; [by rewrite list_lookup_alter_eq, E|].
      by rewrite list_lookup_alter_ne. }
    by rewrite !alter_compose_id.
  - intros t. unfold interrupt_turn. rewrite !status_on_assistant. subst pre. cbv beta. by case_if.
  - intros t. rewrite parts_on_assistant by done. apply Forall_forall. intros p Hp.
    apply list_elem_of_fmap in Hp as (q & -> & Hq). rewrite interrupts_settle.
    pose proof (interrupted_turn (classify_turn true (pre t))) as H. rewrite Forall_forall in H. auto.
Qed.

Lemma failed_ending msg now ps :
  session_ok ps -> Event msg <> "turn_completed" ->
  let id := or_else (dataString (payload msg) "turnId") (activeTurnID ps) in
  id <> "" -> exists x, apply_turn_failed msg now (payload msg) ps = end_turn id x /\ ending id (ended_status msg) x.
Proof.
  intros Hok Hev id Hid. unfold apply_turn_failed. fold id. rewrite (bool_decide_eq_false_2 (id = "")) by done.
  cbv zeta. eexists. split; [reflexivity|].
  set (c := if _ && negb _ then _ else _).
  assert (tp_TurnID c = id /\ tp_Status c = ended_status msg) as [Hc Hs].
  { subst c. unfold ended_status. rewrite (bool_decide_eq_false_2 (Event msg = "turn_completed")) by done.
    by destruct (_ && negb _). }
  apply (ending_upserted id _ c (commit msg now ps) _ (fun t => interrupt_turn (classify_turn true t))); try done.
  - by apply ok_commit.
  - apply ended_status_terminal.
  - intros i Hx. by apply ok_interrupt, ok_at_turn.
  - intros i. by rewrite ids_interrupt, ids_at_turn.
  - intros i. by rewrite turns_interrupt, turns_at_turn, alter_compose_id.
  - intros t. unfold interrupt_turn. by rewrite status_on_assistant.
  - intros t. apply interrupted_turn.
Qed.

(** Which handler an event whose name is known takes. *)
Ltac dispatch Hev :=
  unfold apply_event; rewrite Hev; cbv zeta;
  repeat match goal with |- context [one_of_words ?l ?s] =>
    let b := eval vm_compute in (one_of_words l s) in change (one_of_words l s) with b; cbv iota end.

(** C16. The last event of a turn closes it: on a well-formed session, when a turn
    completes, is aborted or fails, it is in the status of the event, every question of
    it that still waited for an answer is marked as terminated, and none of its
    workflows is running; every turn of the session is completed, aborted or failed,
    and the session is idle. A request for permission that was not answered is not
    among what is closed: its card waits on ([approval_waits_on]). *)
Theorem turn_end_closes ea pb msg now ps :
  session_ok ps -> Event msg ∈ ["turn_completed"; "turn_aborted"; "turn_error"] ->
  let id := or_else (dataString (payload msg) "turnId") (activeTurnID ps) in
  id <> "" ->
  let ps' := apply_event ea pb msg now ps in
  sp_Execution (projection ps') = mkExecutionView "idle" "" /\
  Forall (fun t => terminal (tp_Status t) = true) (turns ps') /\
  exists t, the_turn id ps' = Some t /\ closed_turn (ended_status msg) t.
Proof.
  intros Hok Hev id Hid ps'.
  assert (exists x, ps' = end_turn id x /\ ending id (ended_status msg) x) as (x & -> & Hx & i & t & Hi & Ht & Hs & Hint).
  { subst ps'. apply elem_of_cons in Hev as [Hev|Hev].
    - destruct (completed_ending msg now ps Hok Hev Hid) as (x & Hx & ?). exists x. split; [|done].
      transitivity (apply_turn_completed msg now (payload msg) ps); [by dispatch Hev|done].
    - assert (Event msg <> "turn_completed") as Hne.
      { intros He. rewrite He in Hev. apply elem_of_cons in Hev as [?|Hev]; [done|]. by apply list_elem_of_singleton in Hev. }
      destruct (failed_ending msg now ps Hok Hne Hid) as (x & Hx & ?). exists x. split; [|done].
      transitivity (apply_turn_failed msg now (payload msg) ps); [|done].
      apply elem_of_cons in Hev as [Hev|Hev]; [by dispatch Hev|]. apply list_elem_of_singleton in Hev. by dispatch Hev. }
  split; [done|]. by apply (end_turn_closes id _ x i t); [..|apply ended_status_terminal|].
Qed.

(** ** Restoring *)

Lemma cloneSession_id s : cloneSessionProjection s = s.
Proof.
  destruct s as [sid rev ep up ex ts pm sm cm cgo go]. unfold cloneSessionProjection. cbn.
  rewrite (map_id_Forall cloneTurn ts) by (apply Forall_true; intros; apply cloneTurn_id).
  destruct cgo as [[[[? ? ? [?|] ? ? ? ?]|]]|]; reflexivity.
Qed.

(** What a repair leaves of a part, and of a turn that was left open. *)
Lemma heal_turn_parts {A : Type} (g : ProjectionPart -> A) s t :
  (forall v p, g (set_pp_Presentation v p) = g p) ->
  map g (assistant_parts (heal_turn s t)) = map g (assistant_parts t).
Proof.
  intros Hg. unfold heal_turn. destruct (open_other _ t); [|done]. cbv zeta. rewrite parts_classify, classify_keeps by done.
  by case_if.
Qed.

Lemma heal_turn_closed s t : open_other (healed_active s) (heal_turn s t) = false.
Proof.
  unfold heal_turn. destruct (open_other (healed_active s) t) eqn:E; [|done]. unfold open_other.
  apply andb_false_iff. right. cbv zeta. by case_if.
Qed.

Lemma heal_closed s : Forall (fun t => open_other (healed_active s) t = false) (sp_Turns s) ->
  healProjectionTurnConsistency s = s.
Proof.
  intros H. unfold healProjectionTurnConsistency. rewrite map_id_Forall; [by destruct s|].
  eapply Forall_impl; [exact H|]. intros t Ht. unfold heal_turn. simpl in Ht. by rewrite Ht.
Qed.

(** The copies of a card are where its identity says, whatever its presentation. *)
Definition copy_of (iid : string) (i j : nat) (k : bool * Z) : option copyLoc :=
  if fst k && negb (bool_decide (iid = "")) then Some (mkCopyLoc i j (snd k)) else None.

Lemma copies_keys iid i l :
  copies_in_parts iid i l = omap (fun x => x) (imap (copy_of iid i) (map (fun p => (is_user_input iid p, userInputPartRank p)) l)).
Proof.
  unfold copies_in_parts. apply (f_equal (omap (fun x => x))). symmetry. apply imap_fmap.
Qed.

Lemma copies_heal iid s : copies iid (healProjectionTurnConsistency s) = copies iid s.
Proof.
  unfold copies, healProjectionTurnConsistency. apply (f_equal (@concat _)).
  etransitivity; [apply (imap_fmap _ (heal_turn s))|]. apply imap_ext.
  intros i t _. cbn. by rewrite !copies_keys, heal_turn_parts by done.
Qed.

Lemma converge_none order s :
  Forall (fun iid => (length (copies iid s) <= 1)%nat) order -> convergeUserInputCopiesInProjection order s = Some s.
Proof.
  intros H. unfold convergeUserInputCopiesInProjection.
  induction H as [|iid order Hlen _ IH]; simpl; [done|]. by destruct (copies iid s) as [|? [|? ?]]; simpl in *; try lia.
Qed.

(** A turn but for the presentation of the assistant's parts. *)
Definition unpresented (t : TurnProjection) : TurnProjection :=
  on_assistant_parts (map (set_pp_Presentation "")) t.

(** What a restore makes of a turn that was left open. *)
Definition closed_up (s : SessionProjection) (t : TurnProjection) : TurnProjection :=
  set_tp_CompletedAt
    (if negb (sp_UpdatedAt s =? 0) && (tp_CompletedAt t =? 0) then sp_UpdatedAt s else tp_CompletedAt t)
    (set_tp_Status "completed" t).

Lemma unpresented_classify b t : unpresented (classify_turn b t) = unpresented t.
Proof.
  destruct t as [? ? ? ? ? ? [[a c d ps e]|] ? ? ? ? ? ? ? ? ? ?]; [|done].
  unfold unpresented, classify_turn, on_assistant_parts, classifyProjectionTextPresentation, set_tp_Assistant, set_mp_Parts. cbn.
  by rewrite classify_keeps by (by intros v []).
Qed.

Lemma heal_turn_exact s t :
  unpresented (heal_turn s t) = unpresented (if open_other (healed_active s) t then closed_up s t else t).
Proof.
  unfold heal_turn. destruct (open_other _ t); [|done]. cbv zeta. rewrite unpresented_classify. f_equal.
  unfold closed_up. change (tp_CompletedAt (set_tp_Status "completed" t)) with (tp_CompletedAt t).
  case_if; [done|]. by destruct t.
Qed.

(** C35. A checkpoint comes back whole and closed. When no card of it is there twice, a
    restore keeps every field of the session but its identifier, and every turn, in
    order, with every field and every message of it, up to the presentation of the
    assistant's parts: a turn other than the active one that was neither completed, aborted nor failed
    becomes completed, at the time of the session's last update when it had none; so at
    most the active turn is open. The session reads the checkpoint's revision and
    accepts the next event whatever its sequence; a checkpoint with nothing to close
    reads back as it was written; and restoring what a restored session reads changes
    nothing more. *)
Theorem Restore_checkpoint order backendID sessionID s r :
  backendID <> "" -> sessionID <> "" -> Forall (fun iid => (length (copies iid s) <= 1)%nat) order ->
  let key := projectionSessionKey backendID sessionID in
  exists s', Restore order backendID sessionID s r = Some (<[key := restored_session s']> r) /\
  s' = set_sp_Turns (sp_Turns s') (set_sp_SessionID sessionID s) /\
  map unpresented (sp_Turns s') =
    map (fun t => unpresented (if open_other (healed_active s) t then closed_up s t else t)) (sp_Turns s) /\
  Forall (fun t => tp_TurnID t = "" \/ tp_TurnID t = healed_active s \/ terminal (tp_Status t) = true) (sp_Turns s') /\
  LastAppliedRev backendID sessionID (<[key := restored_session s']> r) = sp_SyncRev s /\
  (forall ea pb msg now, apply_session ea pb msg now (restored_session s') = apply_event ea pb msg now (restored_session s')) /\
  (Forall (fun t => open_other (healed_active s) t = false) (sp_Turns s) -> sp_SessionID s = sessionID -> s' = s) /\
  Snapshot backendID sessionID (<[key := restored_session s']> r) = Some s' /\
  forall r', Restore order backendID sessionID s' r' = Some (<[key := restored_session s']> r').
Proof.
  intros Hb Hs Hc key. set (s' := healProjectionTurnConsistency (set_sp_SessionID sessionID s)). exists s'.
  assert (forall iid, copies iid s' = copies iid s) as Hcop by (intros; apply (copies_heal _ (set_sp_SessionID sessionID s))).
  assert (forall x q, sp_SessionID x = sessionID -> healProjectionTurnConsistency x = x ->
    Forall (fun iid => (length (copies iid x) <= 1)%nat) order ->
    Restore order backendID sessionID x q = Some (<[key := restored_session x]> q)) as Hback.
  { intros x q H1 H2 H3. unfold Restore. rewrite !bool_decide_eq_false_2 by done. cbn [orb]. cbv zeta.
    rewrite cloneSession_id. assert (set_sp_SessionID sessionID x = x) as -> by (by destruct x; simpl in *; subst).
    by rewrite H2, converge_none. }
  assert (Forall (fun t => open_other (healed_active s) t = false) (sp_Turns s')) as Hclosed.
  { apply Forall_map, Forall_true. intros t. apply (heal_turn_closed (set_sp_SessionID sessionID s)). }
  split; [|split; [|split; [|split; [|split; [|split; [|split; [|split]]]]]]].
  - unfold Restore. rewrite !bool_decide_eq_false_2 by done. cbn [orb]. cbv zeta. rewrite cloneSession_id. fold s'.
    rewrite converge_none; [done|]. eapply Forall_impl; [exact Hc|]. intros iid. cbn beta. by rewrite Hcop.
  - done.
  - subst s'. cbn. rewrite map_map. apply map_ext. intros t. apply (heal_turn_exact (set_sp_SessionID sessionID s)).
  - eapply Forall_impl; [exact Hclosed|]. intros t Ht. cbn beta in Ht. unfold open_other in Ht.
    destruct (bool_decide_reflect (tp_TurnID t = "")); [auto|].
    destruct (bool_decide_reflect (tp_TurnID t = healed_active s)); [auto|]. right. right.
    by destruct (terminal (tp_Status t)).
  - unfold LastAppliedRev. fold key. by rewrite lookup_insert_eq.
  - done.
  - intros Hall Hsid. subst s'. rewrite heal_closed; [by destruct s; simpl in *; subst|done].
  - unfold Snapshot. fold key. rewrite lookup_insert_eq. cbn. f_equal. apply cloneSession_id.
  - intros r'. apply Hback; [done|by apply heal_closed|]. eapply Forall_impl; [exact Hc|]. intros iid. cbn beta. by rewrite Hcop.
Qed.

(** ** Samples *)

(** The sample session with a question and a second open turn. *)
Definition open_session : projectionSession :=
  snd (run_ops no_attachments no_parts
    (sample_ops ++
     [SEvent (sample_event 6 "user_input_requested" [("turnId", VString "t1"); ("interactionId", VString "q1")]) 15;
      SEvent (sample_event 7 "workflow_run" [("workflowId", VString "w1"); ("turnId", VString "t1")]) 16;
      SEvent (sample_event 8 "user_message" [("itemId", VString "u2"); ("text", VString "next"); ("pending", VBool true)]) 17])
    (new_session "s")).

Definition end_event : EventMessage :=
  sample_event 9 "turn_completed" [("turnId", VString "t1"); ("stopReason", VString "cancelled")].

(** The cancelled turn: its question closed, its workflow interrupted. *)
Lemma turn_end_closes_witness :
  existsb terminates (concat (map assistant_parts (turns open_session))) = true /\
  existsb interrupts (concat (map assistant_parts (turns open_session))) = true /\
  exists t, the_turn "t1" (apply_event no_attachments no_parts end_event 20 open_session) = Some t /\ closed_turn "aborted" t.
Proof.
  split; [vm_compute; reflexivity|]. split; [vm_compute; reflexivity|].
  assert (session_ok open_session) as Hok by (apply ok_run_ops, ok_new).
  assert (or_else (dataString (payload end_event) "turnId") (activeTurnID open_session) = "t1") as Hid by (vm_compute; reflexivity).
  assert (Event end_event ∈ ["turn_completed"; "turn_aborted"; "turn_error"]) as Hev by (left; reflexivity).
  pose proof (turn_end_closes no_attachments no_parts end_event 20 open_session Hok Hev) as H. cbv zeta in H.
  rewrite Hid in H. destruct (H ltac:(discriminate)) as (_ & _ & t & Ht & Hc). exists t. split; [exact Ht|].
  assert (ended_status end_event = "aborted") as He by (vm_compute; reflexivity). rewrite He in Hc. exact Hc.
Defined.

(** The request for permission of a turn that ends without its answer. *)
Example approval_waits_on :
  let ps := snd (run_ops no_attachments no_parts
    (sample_ops ++ [SEvent (sample_event 6 "permission_request" [("requestId", VString "p1"); ("toolName", VString "Bash")]) 15])
    (new_session "s")) in
  map (fun p => (pp_ItemID p, pp_ToolStatus p, pp_RequiresPermissionConfirmation p))
    (concat (map assistant_parts (turns (apply_event no_attachments no_parts
       (sample_event 9 "turn_completed" [("turnId", VString "t1")]) 20 ps)))) =
  [("a1", "", false); ("c1", "running", false); ("p1", "pending", true)].
Proof. vm_compute. reflexivity. Qed.

(** A checkpoint of the open session: the queued turn is closed. *)
Lemma Restore_checkpoint_witness :
  existsb (fun t => bool_decide (tp_Status t = "pending")) (turns open_session) = true /\
  exists s', Restore ["q1"] "codex" "s" (projection open_session) NewProjectionReducer
             = Some {[projectionSessionKey "codex" "s" := restored_session s']} /\
    map unpresented (sp_Turns s') =
      map (fun t => unpresented (if open_other "t1" t then closed_up (projection open_session) t else t)) (turns open_session).
Proof.
  split; [vm_compute; reflexivity|].
  assert (Forall (fun iid => (length (copies iid (projection open_session)) <= 1)%nat) ["q1"]) as Hc.
  { apply Forall_singleton. assert (length (copies "q1" (projection open_session)) = 1%nat) as -> by (vm_compute; reflexivity).
    constructor. }
  destruct (Restore_checkpoint ["q1"] "codex" "s" (projection open_session) NewProjectionReducer ltac:(discriminate)
    ltac:(discriminate) Hc) as (s' & H1 & _ & H2 & _).
  exists s'. split; [exact H1|]. etransitivity; [exact H2|].
  assert (healed_active (projection open_session) = "t1") as -> by (vm_compute; reflexivity). reflexivity.
Defined.
