(* ===== verification/ReducerCards.v ===== *)
(** * One card per interaction

    Which turn holds the card of a question to the user, through every call of the
    reducer: the requested, submitted and resolved events of any source keep one
    card per interaction, and merging copies leaves the most advanced one. Then
    the cases in which the reducer's comments promise more than it does. *)

From S2P Require Import Prelude.
From S2P Require Import GoText.
From S2P Require Import Wire.
From S2P Require Import Projection.
From S2P Require Import ProjectionFields.
From S2P Require Import ReducerParts.
From S2P Require Import Reducer.
From S2P Require Import ReducerPatch.
From S2P Require Import TurnDetail.
From S2P Require Import ReducerInvariant.
From S2P Require Import ReducerTurns.

(** ** Where the cards are *)

Definition card_key (p : ProjectionPart) : option string :=
  if bool_decide (pp_Type p = "user_input") && negb (bool_decide (pp_UserInputInteractionID p = ""))
  then Some (pp_UserInputInteractionID p) else None.

Definition keys (l : list ProjectionPart) : list string := omap card_key l.
Definition card_keys (t : TurnProjection) : list string := keys (assistant_parts t).

(** The cards of the projection, each with its turn, in order. *)
Definition holders_in (l : list TurnProjection) : list (string * string) :=
  concat (map (fun t => map (pair (tp_TurnID t)) (card_keys t)) l).
Definition holders (ps : projectionSession) : list (string * string) := holders_in (turns ps).

(** The turn the registry of pending cards names. *)
Definition owners (ps : projectionSession) : gmap string string := ui_turnID <$> userInputs ps.

Definition card_frame (ps : projectionSession) : list (string * string) * gmap string string := (holders ps, owners ps).

(** One card per interaction, where the registry says. *)
Definition one_card (ps : projectionSession) : Prop :=
  NoDup (map snd (holders ps)) /\
  forall iid owner t, owners ps !! iid = Some owner -> (t, iid) ∈ holders ps -> t = owner.

Lemma one_card_frame ps ps' : card_frame ps' = card_frame ps -> one_card ps -> one_card ps'.
Proof. unfold card_frame, one_card. by intros [= -> ->]. Qed.

(** ** Parts that carry no card *)

Definition keeps_keys (f : list ProjectionPart -> list ProjectionPart) : Prop := forall l, keys (f l) = keys l.
Definition keeps_cards (f : TurnProjection -> TurnProjection) : Prop :=
  forall t, (tp_TurnID (f t), card_keys (f t)) = (tp_TurnID t, card_keys t).

Create HintDb cards.

Lemma keys_app l l' : keys (l ++ l') = keys l ++ keys l'.
Proof. apply omap_app. Qed.

Lemma keys_map f : (forall p, card_key (f p) = card_key p) -> keeps_keys (map f).
Proof. intros Hf l. induction l as [|p l IH]; [done|]. simpl. by rewrite Hf, IH. Qed.

Lemma keys_alter f i l : (forall p, l !! i = Some p -> card_key (f p) = card_key p) -> keys (alter f i l) = keys l.
Proof.
  revert i. induction l as [|p l IH]; intros [|i] Hf; try done; simpl.
  - by rewrite Hf.
  - destruct (card_key p); [f_equal|]; apply (IH i); auto.
Qed.

Lemma keys_on_last f : (forall p, card_key (f p) = card_key p) -> keeps_keys (on_last f).
Proof. intros Hf l. by apply keys_alter. Qed.

Lemma keys_snoc p l : card_key p = None -> keys (l ++ [p]) = keys l.
Proof. intros Hp. rewrite keys_app. simpl. by rewrite Hp, app_nil_r. Qed.

Lemma find_part_Some P l i : find_part P l = Some i -> exists p, l !! i = Some p /\ P p = true /\
  Forall (fun q => P q = false) (take i l).
Proof.
  unfold find_part. intros H. apply fmap_Some in H as [[j p] [H ->]]. apply list_find_Some in H as (H1 & H2 & H3).
  exists p. split; [done|]. split; [done|]. apply Forall_forall. intros q Hq.
  apply list_elem_of_lookup in Hq as [j' Hj]. apply lookup_take_Some in Hj as [Hj Hlt].
  pose proof (H3 _ _ Hj Hlt) as Hn. by apply not_true_is_false.
Qed.

Lemma find_part_None P l : find_part P l = None -> Forall (fun q => P q = false) l.
Proof.
  unfold find_part. intros H. apply fmap_None, list_find_None in H. eapply Forall_impl; [exact H|].
  intros q Hq. by apply not_true_is_false.
Qed.

Lemma keys_upsert P f part :
  card_key part = None -> (forall p, P p = true -> card_key (f p) = card_key p) -> keeps_keys (upsert_part P f part).
Proof.
  intros Hp Hf l. unfold upsert_part. destruct (find_part P l) as [i|] eqn:E; [|by apply keys_snoc].
  apply find_part_Some in E as (q & Hq & HP & _). apply keys_alter. intros p Hp'. apply Hf. congruence.
Qed.

Lemma keys_classify b : keeps_keys (classify_parts b).
Proof.
  intros l. assert (forall l, keys l = omap (fun x => x) (map card_key l)) as Hk.
  { intros l'. induction l' as [|p l' IH]; [done|]. simpl. rewrite IH. by destruct (card_key p). }
  by rewrite !Hk, classify_keeps.
Qed.

(** No field but the type and the interaction names the card. *)
Lemma card_key_same p p' :
  pp_Type p' = pp_Type p -> pp_UserInputInteractionID p' = pp_UserInputInteractionID p -> card_key p' = card_key p.
Proof. unfold card_key. by intros -> ->. Qed.

Lemma card_key_not p s : pp_Type p = s -> s <> "user_input" -> card_key p = None.
Proof. intros <- Hs. unfold card_key. by rewrite bool_decide_eq_false_2. Qed.

(** ** Turns *)

Lemma keeps_cards_parts f : keeps_keys f -> keeps_cards (on_assistant_parts f).
Proof.
  intros Hf t. rewrite on_assistant_parts_id. f_equal. unfold card_keys, assistant_parts, on_assistant_parts.
  destruct (tp_Assistant t) as [m|] eqn:E; [apply Hf|by rewrite E].
Qed.

Lemma keeps_cards_compose f g : keeps_cards f -> keeps_cards g -> keeps_cards (fun t => f (g t)).
Proof. intros Hf Hg t. by rewrite Hf, Hg. Qed.

Lemma keeps_cards_ensure id : keeps_cards (ensure_assistant id).
Proof. intros [? ? ? ? ? ? [m|] ? ? ? ? ? ? ? ? ? ?]; done. Qed.

Lemma keeps_cards_merge u : tp_Assistant u = None -> keeps_cards (merge_turn_all u).
Proof.
  intros Hu t. rewrite merge_turn_all_id. f_equal. unfold card_keys, assistant_parts, merge_turn_all, merge_turn.
  rewrite Hu. cbv zeta. destruct (tp_User u), (tp_System u), (tp_Pending u); repeat case_if; done.
Qed.

Lemma keeps_cards_merge_persist u : tp_Assistant u = None -> keeps_cards (merge_turn u).
Proof.
  intros Hu t. rewrite merge_turn_id. f_equal. unfold card_keys, assistant_parts, merge_turn.
  rewrite Hu. cbv zeta. destruct (tp_User u), (tp_System u); repeat case_if; done.
Qed.

Lemma keeps_cards_classify b : keeps_cards (classify_turn b).
Proof.
  intros t. unfold card_keys. rewrite parts_classify, keys_classify. done.
Qed.

Lemma keeps_cards_interrupt : keeps_cards interrupt_turn.
Proof. apply keeps_cards_parts, keys_map. intros p. unfold interrupt_part. by case_if. Qed.

Lemma keeps_cards_status s : keeps_cards (set_tp_Status s).
Proof. done. Qed.

Lemma keeps_cards_settle n : keeps_cards (settle_turn n).
Proof.
  intros t. unfold settle_turn. cbv zeta. rewrite keeps_cards_interrupt, keeps_cards_classify. by case_if.
Qed.

Lemma keeps_cards_settle_parts c : keeps_cards (on_assistant_parts (map (settle_part c))).
Proof. apply keeps_cards_parts, keys_map. intros p. unfold settle_part. by case_if. Qed.

Lemma keeps_cards_terminate : keeps_cards (on_assistant_parts (map terminate_part)).
Proof. apply keeps_cards_parts, keys_map. intros p. unfold terminate_part. by case_if. Qed.

#[export] Hint Resolve keeps_cards_ensure keeps_cards_classify keeps_cards_interrupt
  keeps_cards_status keeps_cards_settle keeps_cards_settle_parts keeps_cards_terminate : cards.

(** ** Calls that move no card *)

Lemma holders_in_app l l' : holders_in (l ++ l') = holders_in l ++ holders_in l'.
Proof. unfold holders_in. by rewrite map_app, concat_app. Qed.

Lemma holders_in_map f l : keeps_cards f -> holders_in (map f l) = holders_in l.
Proof.
  intros Hf. unfold holders_in. f_equal. rewrite map_map. apply map_ext. intros t. by injection (Hf t) as -> ->.
Qed.

(** A change of one turn that keeps its cards. *)
Lemma holders_in_alter f i l :
  (forall t, l !! i = Some t -> (tp_TurnID (f t), card_keys (f t)) = (tp_TurnID t, card_keys t)) ->
  holders_in (alter f i l) = holders_in l.
Proof.
  revert i. induction l as [|t l IH]; intros [|i] Hf; try done; unfold holders_in in *; simpl.
  - by injection (Hf t eq_refl) as -> ->.
  - f_equal. apply (IH i). intros u Hu. by apply Hf.
Qed.

Lemma frame_at_turn_here i f ps :
  (forall t, turns ps !! i = Some t -> (tp_TurnID (f t), card_keys (f t)) = (tp_TurnID t, card_keys t)) ->
  card_frame (at_turn i f ps) = card_frame ps.
Proof. intros Hf. unfold card_frame. f_equal. by apply holders_in_alter. Qed.

Lemma frame_at_turn i f ps : keeps_cards f -> card_frame (at_turn i f ps) = card_frame ps.
Proof. intros Hf. by apply frame_at_turn_here. Qed.

Lemma frame_stage id i ps : card_frame (stage id i ps) = card_frame ps.
Proof. unfold stage. by destruct (turns ps !! i). Qed.

Lemma holders_none t : tp_Assistant t = None -> holders_in [t] = [].
Proof. intros H. unfold holders_in, card_keys, assistant_parts. simpl. by rewrite H. Qed.

Lemma frame_append t ps : tp_Assistant t = None -> card_frame (set_turns (turns ps ++ [t]) ps) = card_frame ps.
Proof.
  intros H. unfold card_frame. f_equal. change (holders_in (turns ps ++ [t]) = holders_in (turns ps)).
  by rewrite holders_in_app, holders_none, app_nil_r.
Qed.

Lemma frame_upsertTurn t ps : tp_Assistant t = None -> card_frame (upsertTurn t ps) = card_frame ps.
Proof.
  intros H. unfold upsertTurn. case_if; [done|]. destruct (turnByID _ ps).
  - rewrite frame_stage. apply frame_at_turn. by apply keeps_cards_merge.
  - rewrite <- (frame_append t ps H). done.
Qed.

Lemma frame_upsertTurnPersistOnly t ps : tp_Assistant t = None -> card_frame (upsertTurnPersistOnly t ps) = card_frame ps.
Proof.
  intros H. unfold upsertTurnPersistOnly. case_if; [done|]. destruct (turnByID _ ps).
  - apply frame_at_turn. by apply keeps_cards_merge_persist.
  - by apply frame_append.
Qed.

Lemma frame_ensure_turn id ps : card_frame (ensure_turn id ps) = card_frame ps.
Proof. unfold ensure_turn. destruct (turnByID id ps); [done|by apply frame_upsertTurn]. Qed.

Lemma frame_command a b c d e n ps : card_frame (upsertSessionCommandTurn a b c d e n ps) = card_frame ps.
Proof.
  unfold upsertSessionCommandTurn. cbv zeta. destruct (turnByID _ ps); [by apply frame_upsertTurn|].
  match goal with |- card_frame (set_upsertTurns _ (set_turns (take ?k _ ++ ?u :: _) ps)) = _ => set (x := u); set (m := k) end.
  unfold card_frame. f_equal. change (holders_in (take m (turns ps) ++ [x] ++ drop m (turns ps)) = holders_in (turns ps)).
  rewrite !holders_in_app, (holders_none x) by done. simpl. by rewrite <- holders_in_app, take_drop.
Qed.

Lemma frame_settle a n ps : card_frame (settleOtherOpenTurns a n ps) = card_frame ps.
Proof.
  unfold card_frame. f_equal.
  - unfold holders. rewrite turns_settleOtherOpenTurns. apply holders_in_map. intros t. unfold settled.
    case_if; [apply keeps_cards_settle|done].
  - unfold settleOtherOpenTurns. apply (fold_left_keeps (fun x => owners x = owners ps)); [|done].
    intros x i <-. unfold settle_at. destruct (turns x !! i); [|done]. case_if; [|done]. cbv zeta.
    by match goal with |- owners (stage ?id i ?y) = _ => injection (frame_stage id i y) as _ -> end.
Qed.

Lemma frame_markRunning id ps : card_frame (markRunning id ps) = card_frame ps.
Proof.
  unfold markRunning. case_if; [done|]. rewrite frame_settle.
  destruct (turnByID id _) as [i|]; [|done]. destruct (turns _ !! i); [|done].
  destruct (terminal _); [done|]. case_if; rewrite ?frame_stage, frame_at_turn by auto with cards; done.
Qed.

Lemma frame_stageTurnForFlush id ps : card_frame (stageTurnForFlush id ps) = card_frame ps.
Proof. unfold stageTurnForFlush. case_if; [done|]. destruct (turnByID id ps); [by rewrite frame_stage|done]. Qed.

Lemma frame_exec id ps : card_frame (applyUserInputExecution id ps) = card_frame ps.
Proof.
  unfold applyUserInputExecution. case_if; [done|]. case_if; [done|]. destruct (the_turn id ps); [|done].
  case_if; [by rewrite frame_markRunning|done].
Qed.

Lemma frame_interrupt i ps : card_frame (interruptRunningWorkflowParts i ps) = card_frame ps.
Proof.
  unfold interruptRunningWorkflowParts. destruct (turns ps !! i); [|done].
  change (card_frame (at_turn i interrupt_turn ps) = card_frame ps). apply frame_at_turn, keeps_cards_interrupt.
Qed.

Lemma frame_settle_cards i ps : card_frame (settleResolvedPermissionCards i ps) = card_frame ps.
Proof.
  unfold settleResolvedPermissionCards. destruct (turns ps !! i); [|done].
  match goal with |- card_frame (set_tools _ ?x) = _ => change (card_frame x = card_frame ps) end.
  apply frame_at_turn, keeps_cards_settle_parts.
Qed.

Lemma frame_record_tool a b i ps : card_frame (record_tool a b i ps) = card_frame ps.
Proof. unfold record_tool. by destruct (_ ≫= _). Qed.

Lemma frame_commit msg now ps : card_frame (commit msg now ps) = card_frame ps.
Proof. unfold commit. by case_bool_decide. Qed.

(** Registry entries that only change their part keep their turn. *)
Lemma owners_resync turnID (l : list ProjectionPart) (m : gmap string userInputPending) :
  ui_turnID <$> fold_left (fun m p =>
      match m !! pp_UserInputInteractionID p with
      | Some u => if bool_decide (ui_turnID u = turnID)
                  then <[pp_UserInputInteractionID p := mkUserInputPending turnID p]> m else m
      | None => m
      end) l m = ui_turnID <$> m.
Proof.
  apply (fold_left_keeps (fun m' => ui_turnID <$> m' = ui_turnID <$> m)); [|done]. intros m' p <-.
  destruct (m' !! pp_UserInputInteractionID p) as [u|] eqn:E; [|done]. case_bool_decide as Hu; [|done].
  rewrite fmap_insert. simpl. apply insert_id. rewrite lookup_fmap, E. simpl. by f_equal.
Qed.

Lemma frame_terminated id ps : card_frame (markTurnUserInputsTerminated id ps) = card_frame ps.
Proof.
  unfold markTurnUserInputsTerminated. destruct (turnByID id ps) as [i|]; [|done].
  destruct (turns ps !! i) as [t|]; [|done]. cbv zeta. case_if; [done|].
  rewrite frame_exec, frame_stage, frame_at_turn by auto with cards.
  unfold card_frame. f_equal. apply owners_resync.
Qed.

Lemma frame_end_turn id ps : card_frame (end_turn id ps) = card_frame ps.
Proof.
  unfold end_turn. cbv zeta. change (card_frame (publish_exec ?e ?x)) with (card_frame x).
  by rewrite frame_settle, frame_terminated.
Qed.

(** A removed placeholder takes its cards with it. *)
Lemma one_card_remove id ps : one_card ps -> one_card (snd (removePendingPlaceholder id ps)).
Proof.
  unfold removePendingPlaceholder. case_if; [done|]. destruct (list_find _ _) as [[i t]|] eqn:E; [|done].
  apply list_find_Some in E as (E & _).
  intros [Hnd Hreg]. simpl.
  match goal with |- one_card ?x => assert (owners x = owners ps /\ holders x = holders_in (take i (turns ps)) ++ holders_in (drop (S i) (turns ps))) as [Ho Hh] end.
  { split; [done|]. by rewrite <- holders_in_app. }
  assert (holders ps = holders_in (take i (turns ps)) ++ holders_in [t] ++ holders_in (drop (S i) (turns ps))) as Hps.
  { rewrite <- !holders_in_app. unfold holders. f_equal. symmetry. by apply take_drop_middle. }
  split.
  - rewrite Hh. rewrite Hps, !map_app in Hnd. rewrite map_app.
    apply NoDup_app in Hnd as (H1 & H2 & H3). apply NoDup_app in H3 as (_ & _ & H3).
    apply NoDup_app. split; [done|]. split; [|done]. intros x Hx Hx'. apply (H2 x Hx). apply elem_of_app. by right.
  - intros iid owner u. rewrite Ho, Hh. intros H1 H2. apply (Hreg iid owner u H1). rewrite Hps, !elem_of_app in *.
    destruct H2; auto.
Qed.

(** ** What the other handlers write *)

Lemma keeps_cards_on f : (forall m, keys (mp_Parts (f m)) = keys (mp_Parts m)) ->
  keeps_cards (fun t => set_tp_Assistant (f <$> tp_Assistant t) t).
Proof.
  intros Hf [? ? ? ? ? ? [m|] ? ? ? ? ? ? ? ? ? ?]; [|done]. unfold card_keys, assistant_parts. simpl. by rewrite Hf.
Qed.

Lemma keys_insert k p l : (forall q, l !! k = Some q -> card_key p = card_key q) -> keys (<[k := p]> l) = keys l.
Proof.
  intros H. rewrite (list_insert_alter l k p). by apply keys_alter.
Qed.

Lemma keys_workflow m part n :
  pp_Type part = "workflow" -> keys (mp_Parts (upsertWorkflowPart m part n)) = keys (mp_Parts m).
Proof.
  intros Ht. assert (card_key part = None) as Hn by (by apply (card_key_not part _ Ht)).
  unfold upsertWorkflowPart, findWorkflowPart.
  destruct (if bool_decide (pp_WorkflowID part = "") then _ else _) as [i|] eqn:E.
  - apply guarded_Some in E as [_ E]. apply find_part_Some in E as (q & Hq & HP & _). simpl. apply keys_insert.
    intros q' Hq'. rewrite Hn. symmetry. apply (card_key_not q' "workflow"); [|done].
    apply andb_true_iff in HP as [HP _]. zprop. congruence.
  - case_if; simpl; [|by apply keys_snoc]. match goal with |- context [take ?i _] => set (n' := i) end.
    change (part :: ?l) with ([part] ++ l). rewrite !keys_app.
    assert (keys [part] = []) as -> by (simpl; by rewrite Hn). simpl. by rewrite <- keys_app, take_drop.
Qed.

Lemma keys_text_delta itemID presentation delta newPart :
  keeps_keys (fun l => snd (text_delta_parts itemID presentation delta newPart l)).
Proof.
  intros l. unfold text_delta_parts. cbv zeta.
  destruct (if newPart then _ else _) as [b l1] eqn:E. cbn [snd]. rewrite keys_on_last by done.
  assert (keys l1 = keys l) as <-; [|case_if; [done|by apply keys_on_last]].
  destruct newPart; [injection E as _ <-; by apply keys_snoc|].
  destruct (trailingTextPartForItem l itemID) as [tr|].
  - injection E as _ <-. case_if; [by apply keys_on_last|done].
  - destruct (match last l with Some tr => is_text tr | None => false end); injection E as _ <-; [by apply keys_snoc|].
    rewrite keys_on_last by done. unfold ensureTrailingTextPart.
    destruct (last l); [case_if; [done|]|]; by apply keys_snoc.
Qed.

Lemma keys_reasoning itemID delta : keeps_keys (fun l => snd (reasoning_parts itemID delta l)).
Proof.
  intros l. unfold reasoning_parts. destruct (find_part _ l) as [i|]; cbv zeta; cbn [snd].
  - rewrite (keys_alter (fun p => set_pp_Text _ p)) by done. apply keys_alter. intros p _. by case_if.
  - rewrite keys_alter by done. by apply keys_snoc.
Qed.

Lemma key_let (e r : option string) (x : ProjectionPart) (b : ProjectionPart -> ProjectionPart) :
  card_key x = r -> (forall d, card_key d = r -> card_key (b d) = r) -> card_key (b x) = r.
Proof. intros H1 H2. by apply H2. Qed.

Lemma key_mergeToolPart dst src : card_key (mergeToolPart dst src) = card_key dst.
Proof.
  cbv beta delta [mergeToolPart].
  repeat match goal with
  | |- card_key (let str := ?e in @?b str) = ?r =>
      match type of e with
      | ProjectionPart => refine (key_let r r e b _ _); [cbv beta; by case_if|intros ? ?; cbv beta]
      | _ => change (card_key (b e) = r); cbv beta
      end
  end.
  by repeat case_if.
Qed.

#[local] Opaque mergeToolPart.
Lemma key_pending_tool s b p src : card_key (set_pp_ToolStatus s (set_pp_RequiresPermissionConfirmation b (mergeToolPart p src))) = card_key p.
Proof. rewrite <- (key_mergeToolPart p src). by generalize (mergeToolPart p src). Qed.

Lemma tool_no_card callID p : is_tool callID p = true -> card_key p = None.
Proof. unfold is_tool. intros H. apply andb_true_iff in H as [H _]. zprop. by apply (card_key_not p "tool"). Qed.

Lemma keys_tool callID f part :
  card_key part = None -> (forall p, card_key (f p) = card_key p) -> keeps_keys (upsert_part (is_tool callID) f part).
Proof. intros Hp Hf. by apply keys_upsert. Qed.

Lemma key_tool_part e data : card_key (tool_part e data) = None.
Proof.
  apply (card_key_not _ "tool"); [|done]. unfold tool_part. cbv zeta. by repeat case_if.
Qed.

Lemma key_permission_part c data : card_key (permission_part c data) = None.
Proof. apply (card_key_not _ "tool"); [|done]. unfold permission_part. cbv zeta. done. Qed.

Lemma keys_at_tool callID f :
  (forall p, card_key (f p) = card_key p) ->
  keeps_keys (fun l => match find_part (is_tool callID) l with Some k => alter f k l | None => l end).
Proof. intros Hf l. destruct (find_part _ l); [|done]. by apply keys_alter. Qed.

Lemma key_resolve_permission a b p : card_key (resolve_permission a b p) = card_key p.
Proof. unfold resolve_permission. cbv zeta. by repeat case_if. Qed.

(** One call of the chain at the head of the goal. *)
Ltac frame_step :=
  match goal with
  | |- card_frame (if ?c then _ else _) = _ => destruct c
  | |- card_frame (at_turn ?i ?f ?x) = _ => rewrite (frame_at_turn i f x); [|by auto with cards]
  | |- card_frame (stage _ _ _) = _ => rewrite frame_stage
  | |- card_frame (upsertTurn _ _) = _ => rewrite frame_upsertTurn; [|reflexivity]
  | |- card_frame (upsertTurnPersistOnly _ _) = _ => rewrite frame_upsertTurnPersistOnly; [|reflexivity]
  | |- card_frame (ensure_turn _ _) = _ => rewrite frame_ensure_turn
  | |- card_frame (upsertSessionCommandTurn _ _ _ _ _ _ _) = _ => rewrite frame_command
  | |- card_frame (markRunning _ _) = _ => rewrite frame_markRunning
  | |- card_frame (stageTurnForFlush _ _) = _ => rewrite frame_stageTurnForFlush
  | |- card_frame (applyUserInputExecution _ _) = _ => rewrite frame_exec
  | |- card_frame (interruptRunningWorkflowParts _ _) = _ => rewrite frame_interrupt
  | |- card_frame (settleResolvedPermissionCards _ _) = _ => rewrite frame_settle_cards
  | |- card_frame (record_tool _ _ _ _) = _ => rewrite frame_record_tool
  | |- card_frame (commit _ _ _) = _ => rewrite frame_commit
  | |- card_frame (end_turn _ _) = _ => rewrite frame_end_turn
  | |- card_frame (?f ?a ?x) = _ => change (card_frame (f a x)) with (card_frame x)
  end.
Ltac framed := cbv zeta; repeat frame_step; reflexivity.
#[export] Hint Extern 5 (keeps_cards _) => (apply keeps_cards_parts) : cards.

Lemma frame_started now data ps : card_frame (apply_turn_started now data ps) = card_frame ps.
Proof.
  unfold apply_turn_started. case_if; [done|]. cbv zeta. unfold setActiveTurnPersistOnly. rewrite Hif.
  match goal with |- card_frame (set_exec ?e ?x) = _ => change (card_frame x = card_frame ps) end.
  rewrite frame_upsertTurnPersistOnly by done. by case_if.
Qed.

Section Handlers.
Context (ea : value -> list ProjectionAttachment) (pb : value -> list ProjectionPart).
Context (msg : EventMessage) (now : Z) (data : data_map) (ps : projectionSession).

Lemma frame_compaction : card_frame (apply_context_compaction msg now data ps) = card_frame ps.
Proof.
  unfold apply_context_compaction. case_if; [done|]. cbv zeta. case_if; [done|].
  match goal with |- context [turnByID ?id ?x] => set (ps1 := x); assert (card_frame ps1 = card_frame ps) as Hm end.
  { subst ps1. destruct (the_turn _ ps); framed. }
  destruct (turnByID _ ps1); [|done]. rewrite <- Hm. case_if; framed.
Qed.

Lemma frame_injection : card_frame (apply_context_injection msg now data ps) = card_frame ps.
Proof.
  unfold apply_context_injection. case_if; [done|]. cbv zeta. case_option; [|framed].
  rewrite frame_stage, frame_at_turn; [framed|].
  apply keeps_cards_compose; [|auto with cards]. apply keeps_cards_parts, keys_upsert; [by apply (card_key_not _ "context_injection")|].
  intros p Hp. unfold is_injection in Hp. apply andb_true_iff in Hp as [Hp _]. zprop.
  by rewrite !(card_key_not _ "context_injection").
Qed.

Lemma frame_workflow : card_frame (apply_workflow_run msg now data ps) = card_frame ps.
Proof.
  unfold apply_workflow_run. case_if; [done|]. cbv zeta. case_option; [|done].
  match goal with |- context [upsertWorkflowPart _ ?p ?n] => set (part := p); set (at_ := n) end.
  rewrite frame_stageTurnForFlush.
  match goal with |- card_frame (set_workflows _ ?x) = _ => change (card_frame x = card_frame ps) end.
  rewrite frame_at_turn; [framed|].
  intros t. rewrite (keeps_cards_on (fun m => upsertWorkflowPart m part at_) ltac:(intros; by apply keys_workflow)).
  apply keeps_cards_ensure.
Qed.

Lemma frame_text_delta : card_frame (apply_text_delta msg now data ps) = card_frame ps.
Proof.
  unfold apply_text_delta. case_if; [done|]. cbv zeta.
  destruct (turnByID _ _); [|framed]. destruct (turns _ !! n); [|framed]. rewrite frame_markRunning.
  match goal with |- context [at_turn n ?f ?x] => assert (card_frame (at_turn n f x) = card_frame ps) as Hf end.
  { rewrite frame_at_turn; [framed|]. apply keeps_cards_compose; [|auto with cards].
    apply keeps_cards_parts, keys_text_delta. }
  case_if; [by rewrite frame_stage|]. case_if; [exact Hf|]. by rewrite frame_stage.
Qed.

Lemma frame_reasoning : card_frame (apply_reasoning_delta msg now data ps) = card_frame ps.
Proof.
  unfold apply_reasoning_delta. case_if; [done|]. cbv zeta.
  destruct (turnByID _ _); [|framed]. destruct (turns _ !! n); [|framed].
  destruct (reasoning_parts _ _ (assistant_parts _)) as [[]]. rewrite frame_markRunning.
  match goal with |- context [at_turn n ?f ?x] => assert (card_frame (at_turn n f x) = card_frame ps) as Hf end.
  { rewrite frame_at_turn; [framed|]. apply keeps_cards_compose; [|auto with cards].
    apply keeps_cards_parts, keys_reasoning. }
  case_if; [by rewrite frame_stage|]. exact Hf.
Qed.

Lemma frame_tool : card_frame (apply_tool msg now data ps) = card_frame ps.
Proof.
  unfold apply_tool. cbv zeta. case_option; [|done]. destruct (_ && negb _); [done|].
  rewrite frame_record_tool, frame_at_turn; [framed|].
  apply keeps_cards_parts, keys_tool; [apply key_tool_part|]. intros p. apply key_mergeToolPart.
Qed.

Lemma frame_subagent : card_frame (apply_subagent pb msg now data ps) = card_frame ps.
Proof.
  unfold apply_subagent. cbv zeta. case_option; [|done]. rewrite frame_at_turn; [framed|].
  apply keeps_cards_compose; [|auto with cards]. apply keeps_cards_parts, keys_upsert; [by apply (card_key_not _ "subagent")|].
  intros p Hp. unfold is_subagent in Hp. apply andb_true_iff in Hp as [Hp _]. zprop.
  by rewrite !(card_key_not _ "subagent").
Qed.

Lemma frame_permission_request : card_frame (apply_permission_request msg now data ps) = card_frame ps.
Proof.
  unfold apply_permission_request. case_if; [done|]. cbv zeta. destruct (turnByID _ _); [|framed].
  rewrite frame_exec, frame_stageTurnForFlush, frame_record_tool, frame_at_turn; [framed|].
  apply keeps_cards_compose; [|auto with cards]. apply keeps_cards_parts, keys_tool; [apply key_permission_part|].
  intros p. apply key_pending_tool.
Qed.

Lemma frame_permission_resolved : card_frame (apply_permission_resolved msg now data ps) = card_frame ps.
Proof.
  unfold apply_permission_resolved. case_if; [done|]. cbv zeta. destruct (permission_turn _ ps); [|done].
  destruct (turns ps !! n); [|done]. rewrite frame_exec, frame_record_tool, frame_at_turn; [framed|].
  apply keeps_cards_parts, keys_at_tool. intros p. apply key_resolve_permission.
Qed.

Lemma frame_views :
  card_frame (apply_plan_mode msg now data ps) = card_frame ps /\
  card_frame (apply_session_mode msg now data ps) = card_frame ps /\
  card_frame (apply_collaboration_mode msg now data ps) = card_frame ps /\
  card_frame (apply_goal_record msg now data ps) = card_frame ps /\
  card_frame (apply_session_goal msg now data ps) = card_frame ps.
Proof.
  split_and!; [unfold apply_plan_mode|unfold apply_session_mode|unfold apply_collaboration_mode|
    unfold apply_goal_record|unfold apply_session_goal]; cbv zeta.
  1-3, 5: repeat (case_if; [done|]); framed.
  destruct (goal_record_view msg data) as [view|]; [|done]. case_if; [done|]. destruct (cg_Goal view); framed.
Qed.

Lemma frame_turn_ends :
  card_frame (apply_turn_completed msg now data ps) = card_frame ps /\
  card_frame (apply_turn_failed msg now data ps) = card_frame ps.
Proof.
  split; [unfold apply_turn_completed|unfold apply_turn_failed]; (case_if; [done|]); cbv zeta; rewrite frame_end_turn.
  - assert (forall n d, card_frame (upsertTurn (if d >? 0 then set_tp_DurationMs d (set_tp_CompletedAt n
      (turn0 (or_else (dataString data "turnId") (activeTurnID ps)) (if bool_decide (dataString data "stopReason" = "cancelled") then "aborted" else "completed")))
      else set_tp_CompletedAt n (turn0 (or_else (dataString data "turnId") (activeTurnID ps)) (if bool_decide (dataString data "stopReason" = "cancelled") then "aborted" else "completed"))) (commit msg now ps)) = card_frame ps) as Hu.
    { intros n d. rewrite frame_upsertTurn by (by case_if). framed. }
    destruct (turnByID _ _); [|apply Hu]. rewrite frame_stage, frame_settle_cards, frame_interrupt, frame_at_turn by auto with cards.
    case_if; [|apply Hu]. rewrite frame_at_turn; [apply Hu|done].
  - match goal with |- context [upsertTurn ?u ?x] => assert (card_frame (upsertTurn u x) = card_frame ps) as Hu end.
    { rewrite frame_upsertTurn; [framed|]. by destruct (_ && negb _). }
    destruct (turnByID _ _); [|exact Hu]. rewrite frame_stage, frame_interrupt, frame_at_turn by auto with cards. exact Hu.
Qed.
End Handlers.

(** ** Finding a card *)

Lemma is_user_input_key iid p : iid <> "" -> is_user_input iid p = true <-> card_key p = Some iid.
Proof.
  intros Hne. unfold is_user_input, card_key. split.
  - intros H. apply andb_true_iff in H as [H1 H2]. apply bool_decide_eq_true_1 in H1, H2. subst iid.
    rewrite H1. by rewrite (bool_decide_eq_false_2 (_ = "")).
  - case_if; [|done]. intros [= <-]. apply andb_true_iff in Hif as [H1 _]. rewrite H1. by rewrite bool_decide_eq_true_2.
Qed.

Lemma elem_of_keys iid l : iid ∈ keys l <-> exists p, p ∈ l /\ card_key p = Some iid.
Proof. apply list_elem_of_omap. Qed.

Lemma elem_of_holders t iid ps :
  (t, iid) ∈ holders ps <-> exists u, u ∈ turns ps /\ tp_TurnID u = t /\ iid ∈ card_keys u.
Proof.
  unfold holders, holders_in. rewrite list_elem_of_In, in_concat. split.
  - intros (l & Hl & Hin). apply in_map_iff in Hl as (u & <- & Hu). apply in_map_iff in Hin as (k & [= <- <-] & Hk).
    exists u. split; [by apply list_elem_of_In|]. split; [done|by apply list_elem_of_In].
  - intros (u & Hu & <- & Hk). exists (map (pair (tp_TurnID u)) (card_keys u)). split.
    + apply in_map_iff. exists u. split; [done|by apply list_elem_of_In].
    + apply in_map_iff. exists iid. split; [done|by apply list_elem_of_In].
Qed.

Lemma holder_live t iid ps : (t, iid) ∈ holders ps -> t ∈ ids ps.
Proof. rewrite elem_of_holders. intros (u & Hu & <- & _). by apply list_elem_of_fmap_2. Qed.

Lemma NoDup_snd {A B : Type} (l : list (A * B)) a a' b : NoDup (map snd l) -> (a, b) ∈ l -> (a', b) ∈ l -> a = a'.
Proof.
  induction l as [|[x y] l IH]; simpl; intros Hnd H1 H2; [by apply not_elem_of_nil in H1|].
  apply NoDup_cons in Hnd as [Hn Hnd]. apply elem_of_cons in H1, H2.
  destruct H1 as [[= -> ->]|H1], H2 as [[= ->]|H2]; try done; [..|by apply IH].
  - destruct Hn. by apply (list_elem_of_fmap_2 snd l (a', y)).
  - subst. destruct Hn. by apply (list_elem_of_fmap_2 snd l (a, y)).
Qed.

Lemma findUserInputPart_Some m iid k : findUserInputPart m iid = Some k ->
  iid <> "" /\ exists msg p, m = Some msg /\ mp_Parts msg !! k = Some p /\ card_key p = Some iid.
Proof.
  unfold findUserInputPart. destruct m as [msg|]; [|done]. case_if; [done|]. intros H. zprop.
  apply find_part_Some in H as (p & Hp & HP & _). split; [done|]. exists msg, p. split; [done|]. split; [done|].
  by apply is_user_input_key.
Qed.

Lemma findUserInputPart_None m iid p msg :
  findUserInputPart m iid = None -> iid <> "" -> m = Some msg -> p ∈ mp_Parts msg -> card_key p <> Some iid.
Proof.
  unfold findUserInputPart. intros H Hne -> Hp Hk. rewrite bool_decide_eq_false_2 in H by done.
  apply find_part_None in H. rewrite Forall_forall in H. apply H in Hp.
  apply (is_user_input_key iid p Hne) in Hk. congruence.
Qed.

Lemma find_card_Some t iid k : findUserInputPart (tp_Assistant t) iid = Some k -> iid ∈ card_keys t.
Proof.
  intros H. apply findUserInputPart_Some in H as (_ & m & p & Hm & Hp & Hk). apply elem_of_keys. exists p.
  unfold assistant_parts. rewrite Hm. split; [by eapply list_elem_of_lookup_2|done].
Qed.

Lemma find_card_None t iid : iid <> "" -> findUserInputPart (tp_Assistant t) iid = None -> iid ∉ card_keys t.
Proof.
  intros Hne H Hin. apply elem_of_keys in Hin as (p & Hp & Hk). unfold assistant_parts in Hp.
  destruct (tp_Assistant t) as [m|] eqn:E; [|by apply not_elem_of_nil in Hp].
  by apply (findUserInputPart_None _ iid p m H).
Qed.

(** Where the projection holds the card. *)
Lemma turnIDWithUserInputPart_holder iid t ps :
  one_card ps -> iid <> "" -> (t, iid) ∈ holders ps -> turnIDWithUserInputPart iid ps = t.
Proof.
  intros [Hnd _] Hne Hin. unfold turnIDWithUserInputPart. rewrite bool_decide_eq_false_2 by done.
  match goal with |- context [find ?f ?l] => destruct (find f l) as [u|] eqn:E end.
  - apply find_some in E as [Hu Hf]. destruct (findUserInputPart (tp_Assistant u) iid) as [k|] eqn:E; [|done].
    apply (NoDup_snd (holders ps) _ _ iid Hnd); [|done]. apply elem_of_holders. exists u.
    split; [by apply list_elem_of_In|]. split; [done|]. by apply (find_card_Some _ _ k).
  - apply elem_of_holders in Hin as (u & Hu & <- & Hk).
    pose proof (find_none _ _ E u (proj1 (list_elem_of_In _ _) Hu)) as Hf. cbv beta in Hf.
    destruct (findUserInputPart (tp_Assistant u) iid) as [k|] eqn:E'; [done|]. by apply find_card_None in E'.
Qed.

Lemma registered_owner iid ps : registered_turn iid ps = default "" (owners ps !! iid).
Proof. unfold registered_turn, owners. rewrite lookup_fmap. by destruct (userInputs ps !! iid). Qed.

(** The turn an event puts a card in is the turn that holds it. *)
Lemma owning_turn_holder iid fallback t ps :
  session_ok ps -> one_card ps -> iid <> "" -> (t, iid) ∈ holders ps ->
  t <> "" /\ owning_turn iid fallback ps = t.
Proof.
  intros Hok Hone Hne Hin. assert (t <> "") as Ht.
  { intros ->. apply (ok_nonempty _ Hok). by apply holder_live in Hin. }
  split; [done|]. unfold owning_turn. rewrite (turnIDWithUserInputPart_holder iid t ps Hone Hne Hin), registered_owner.
  unfold or_else. rewrite (bool_decide_eq_false_2 (t = "")) by done.
  destruct (owners ps !! iid) as [r|] eqn:E; simpl; [|done].
  rewrite <- (proj2 Hone iid r t E Hin). by rewrite bool_decide_eq_false_2.
Qed.

(** ** Writing a card *)

Lemma keys_upsertUserInputPart m part iid :
  card_key part = Some iid ->
  keys (mp_Parts (upsertUserInputPart m part)) =
    if bool_decide (iid ∈ keys (mp_Parts m)) then keys (mp_Parts m) else keys (mp_Parts m) ++ [iid].
Proof.
  intros Hk. assert (pp_UserInputInteractionID part = iid /\ iid <> "") as [Hid Hne].
  { unfold card_key in Hk. destruct (_ && _) eqn:Hif; [|done]. injection Hk as <-. split; [done|].
    by apply andb_true_iff in Hif as [_ H]; zprop. }
  unfold upsertUserInputPart. rewrite Hid. destruct (findUserInputPart (Some m) iid) as [k|] eqn:E.
  - apply findUserInputPart_Some in E as (_ & m' & p & [= <-] & Hp & Hkp). rewrite bool_decide_eq_true_2.
    + apply keys_insert. intros q Hq. congruence.
    + apply elem_of_keys. exists p. split; [by eapply list_elem_of_lookup_2|done].
  - rewrite bool_decide_eq_false_2.
    + cbn [mp_Parts set_mp_Parts]. rewrite keys_app. f_equal. simpl. by rewrite Hk.
    + intros Hin. apply elem_of_keys in Hin as (p & Hp & Hkp). by apply (findUserInputPart_None _ iid p m E).
Qed.

(** The card an event writes, in the turn it writes. *)
Definition with_card (id : string) (part : ProjectionPart) (t : TurnProjection) : TurnProjection :=
  let t := ensure_assistant id t in
  set_tp_Assistant ((fun m => upsertUserInputPart m part) <$> tp_Assistant t) t.

Lemma with_card_keys id part iid t :
  card_key part = Some iid ->
  tp_TurnID (with_card id part t) = tp_TurnID t /\
  card_keys (with_card id part t) = if bool_decide (iid ∈ card_keys t) then card_keys t else card_keys t ++ [iid].
Proof.
  intros Hk. destruct t as [? ? ? ? ? ? [m|] ? ? ? ? ? ? ? ? ? ?]; (split; [done|]);
    unfold with_card, card_keys, assistant_parts; cbn; by apply keys_upsertUserInputPart.
Qed.

Lemma holders_in_lookup i l t : l !! i = Some t ->
  holders_in l = holders_in (take i l) ++ map (pair (tp_TurnID t)) (card_keys t) ++ holders_in (drop (S i) l).
Proof.
  intros H. transitivity (holders_in (take i l ++ t :: drop (S i) l)); [f_equal; symmetry; by apply take_drop_middle|].
  by rewrite holders_in_app.
Qed.

(** A turn is known by its identifier. *)
Lemma same_turn i t u ps :
  session_ok ps -> turns ps !! i = Some t -> u ∈ turns ps -> tp_TurnID u = tp_TurnID t -> u = t.
Proof.
  intros Hok Ht Hu He. apply list_elem_of_lookup in Hu as [j Hj].
  assert (j = i) as ->; [|congruence].
  eapply NoDup_lookup; [exact (ok_ids _ Hok)|exact (ids_lookup _ _ _ Hj)|]. rewrite He. by apply ids_lookup.
Qed.

Lemma put_card_holders id i part iid t ps :
  session_ok ps -> turns ps !! i = Some t -> tp_TurnID t = id -> card_key part = Some iid ->
  (id, iid) ∈ holders ps /\ holders (put_card id i part ps) = holders ps \/
  ~ (id, iid) ∈ holders ps /\ holders (put_card id i part ps) ≡ₚ (id, iid) :: holders ps.
Proof.
  intros Hok Ht Hid Hk. destruct (with_card_keys id part iid t Hk) as [Hw1 Hw2].
  change (holders (put_card id i part ps)) with (holders_in (alter (with_card id part) i (turns ps))).
  case_bool_decide as Hin.
  - left. split; [apply elem_of_holders; exists t; split; [by eapply list_elem_of_lookup_2|done]|].
    apply holders_in_alter. intros u Hu. congruence.
  - right. split.
    + intros Hu. apply elem_of_holders in Hu as (v & Hv & Hvid & Hvk).
      assert (v = t) as -> by (apply (same_turn i t v ps); congruence). done.
    + assert (alter (with_card id part) i (turns ps) !! i = Some (with_card id part t)) as Ht'
        by (by rewrite list_lookup_alter_eq, Ht).
      unfold holders. rewrite (holders_in_lookup _ _ _ Ht'), (holders_in_lookup _ _ _ Ht).
      rewrite Hw1, Hw2, Hid, map_app. simpl. rewrite take_alter_ge, drop_alter_lt by lia.
      rewrite <- app_assoc. simpl. solve_Permutation.
Qed.

Lemma one_card_put id i part iid t ps :
  session_ok ps -> one_card ps -> turns ps !! i = Some t -> tp_TurnID t = id -> card_key part = Some iid ->
  (forall u, (u, iid) ∈ holders ps -> u = id) -> one_card (put_card id i part ps).
Proof.
  intros Hok [Hnd Hreg] Ht Hid Hk Hhold.
  assert (pp_UserInputInteractionID part = iid) as Hiid.
  { unfold card_key in Hk. destruct (_ && _); [by injection Hk|done]. }
  assert (owners (put_card id i part ps) = <[iid := id]> (owners ps)) as Ho.
  { unfold put_card, owners. cbn. rewrite fmap_insert. by rewrite Hiid. }
  assert (forall u k, (u, k) ∈ holders (put_card id i part ps) -> (u, k) = (id, iid) \/ (u, k) ∈ holders ps) as Hsub.
  { intros u k Hu. destruct (put_card_holders id i part iid t ps) as [[_ Hh]|[_ Hh]]; try done; rewrite Hh in Hu; [by right|].
    by apply elem_of_cons in Hu. }
  split.
  - destruct (put_card_holders id i part iid t ps) as [[_ Hh]|[Hn Hh]]; try done; rewrite Hh; [done|].
    simpl. apply NoDup_cons. split; [|done]. intros Hin. apply list_elem_of_fmap in Hin as ([u k] & E & Hu).
    simpl in E. subst k. pose proof (Hhold u Hu). by subst u.
  - intros k owner u. rewrite Ho. intros Hk' Hu. destruct (decide (k = iid)) as [->|Hne].
    + rewrite lookup_insert_eq in Hk'. injection Hk' as <-. destruct (Hsub u iid Hu) as [[= ->]|Hu']; [done|]. by apply Hhold.
    + rewrite lookup_insert_ne in Hk' by done. destruct (Hsub u k Hu) as [[= -> ->]|Hu']; [done|]. by apply (Hreg k).
Qed.

(** The registry renamed to the turn that holds the card. *)
Lemma one_card_register ps ps' iid t :
  one_card ps -> holders ps' = holders ps -> owners ps' = <[iid := t]> (owners ps) -> (t, iid) ∈ holders ps ->
  one_card ps'.
Proof.
  intros [Hnd Hreg] Hh Ho Hin. split; [by rewrite Hh|]. intros k owner u. rewrite Hh, Ho. intros Hk Hu.
  destruct (decide (k = iid)) as [->|Hne].
  - rewrite lookup_insert_eq in Hk. injection Hk as <-. by apply (NoDup_snd (holders ps) _ _ iid).
  - rewrite lookup_insert_ne in Hk by done. by apply (Hreg k).
Qed.

Lemma one_card_update id iid i f t ps :
  one_card ps -> turns ps !! i = Some t -> tp_TurnID t = id -> (forall p, card_key (f p) = card_key p) ->
  one_card (update_card id iid i f ps).
Proof.
  intros Hone Ht Hid Hf. unfold update_card. rewrite Ht.
  destruct (findUserInputPart (tp_Assistant t) iid) as [k|] eqn:E; [|done]. cbv zeta.
  set (ps1 := at_turn i (on_assistant_parts (alter f k)) ps).
  assert (card_frame ps1 = card_frame ps) as H1.
  { apply frame_at_turn, keeps_cards_parts. intros l. by apply keys_alter. }
  destruct (assistant_parts t !! k) as [p|]; [|by apply (one_card_frame ps)].
  pose proof (f_equal fst H1) as Hh. apply (one_card_register ps _ iid id Hone).
  - exact Hh.
  - unfold owners. change (userInputs (set_userInputs ?m ?x)) with m. by rewrite fmap_insert.
  - apply elem_of_holders. exists t. split; [by eapply list_elem_of_lookup_2|]. split; [done|]. by apply (find_card_Some _ _ k).
Qed.

(** ** Merging copies *)

Lemma located_holder iid t p ps :
  (t, p) ∈ locateUserInputParts iid ps ->
  card_key p = Some iid /\ exists u, u ∈ turns ps /\ tp_TurnID u = t /\ p ∈ assistant_parts u.
Proof.
  unfold locateUserInputParts. case_if; [intros H; by apply not_elem_of_nil in H|]. zprop.
  rewrite list_elem_of_In, in_concat. intros (l & Hl & Hin). apply in_map_iff in Hl as (u & <- & Hu).
  apply in_map_iff in Hin as (q & [= <- <-] & Hq). apply list_elem_of_In, list_elem_of_filter in Hq as [HP Hq].
  split; [by apply is_user_input_key|]. exists u. by rewrite list_elem_of_In.
Qed.

Lemma located_count iid ps : iid <> "" ->
  map fst (locateUserInputParts iid ps) = map fst (filter (fun h => snd h = iid) (holders ps)).
Proof.
  intros Hne. unfold locateUserInputParts, holders, holders_in. rewrite bool_decide_eq_false_2 by done.
  induction (turns ps) as [|t l IH]; [done|]. simpl. rewrite filter_app, !map_app. f_equal; [|exact IH].
  unfold card_keys. induction (assistant_parts t) as [|p ps' IHp]; [done|]. simpl.
  destruct (decide (is_user_input iid p = true)) as [Hu|Hu].
  - rewrite filter_cons_True by done. simpl. pose proof (proj1 (is_user_input_key iid p Hne) Hu) as Hk.
    rewrite Hk. simpl. rewrite filter_cons_True by done. simpl. by f_equal.
  - rewrite filter_cons_False by done. rewrite IHp. destruct (card_key p) as [k|] eqn:Hk; [|done]. simpl.
    rewrite filter_cons_False; [done|]. simpl. intros ->. by apply Hu, is_user_input_key.
Qed.

Lemma at_most_one (H : list (string * string)) iid : NoDup (map snd H) ->
  (length (filter (fun h => snd h = iid) H) <= 1)%nat.
Proof.
  intros Hnd. induction H as [|[t k] H IH]; simpl; [lia|]. apply NoDup_cons in Hnd as [Hn Hnd].
  destruct (decide (k = iid)) as [->|Hk]; [|rewrite filter_cons_False by done; by apply IH].
  rewrite filter_cons_True by done. simpl.
  assert (filter (fun h => snd h = iid) H = []) as ->; [|simpl; lia].
  destruct (filter _ H) as [|[t' k'] l] eqn:E; [done|]. destruct Hn.
  assert ((t', k') ∈ filter (fun h => snd h = iid) H) as Hin by (rewrite E; by left).
  apply list_elem_of_filter in Hin as [Hk Hin]. simpl in Hk. subst k'. by apply (list_elem_of_fmap_2 snd H (t', iid)).
Qed.

Lemma located_one iid ps : one_card ps -> iid <> "" ->
  locateUserInputParts iid ps = [] \/
  exists t p, locateUserInputParts iid ps = [(t, p)] /\ (t, iid) ∈ holders ps.
Proof.
  intros [Hnd _] Hne. pose proof (at_most_one (holders ps) iid Hnd) as Hlen.
  pose proof (located_count iid ps Hne) as Hc.
  destruct (locateUserInputParts iid ps) as [|[t p] [|? ?]] eqn:E; [by left|right|].
  - exists t, p. split; [done|]. destruct (located_holder iid t p ps) as (Hk & u & Hu & Ht & Hp); [rewrite E; by left|].
    apply elem_of_holders. exists u. split; [done|]. split; [done|]. apply elem_of_keys. by exists p.
  - apply (f_equal length) in Hc. rewrite !length_map in Hc. rewrite <- Hc in Hlen. simpl in Hlen. lia.
Qed.

Lemma rank_pos p : 0 <= userInputPartRank p <= 4.
Proof. unfold userInputPartRank. repeat case_if; lia. Qed.

Lemma one_card_converge iid ps : session_ok ps -> one_card ps -> iid <> "" -> one_card (convergeUserInputCopies iid ps).
Proof.
  intros Hok Hone Hne. unfold convergeUserInputCopies.
  destruct (located_one iid ps Hone Hne) as [->|(t & p & E & Hin)]; [done|]. rewrite E. cbv zeta.
  assert (canonical_turn iid [(t, p)] ps = t) as ->.
  { unfold canonical_turn. change (match userInputs ps !! iid with Some u => ui_turnID u | None => "" end)
      with (registered_turn iid ps). rewrite registered_owner.
    destruct (owners ps !! iid) as [r|] eqn:Eo; simpl; [|done]. rewrite <- (proj2 Hone iid r t Eo Hin). by case_if. }
  assert (merged_copy [(t, p)] = p) as ->.
  { unfold merged_copy. simpl. unfold best_copy. simpl. pose proof (rank_pos p).
    replace (userInputPartRank p >=? -1) with true by (symmetry; apply Z.geb_le; lia). done. }
  destruct (located_holder iid t p ps) as (Hk & u & Hu & Htu & Hp); [rewrite E; by left|].
  simpl. set (ps1 := converge_at iid t p ps t).
  assert (card_frame ps1 = card_frame ps) as H1.
  { subst ps1. unfold converge_at. destruct (turnByID t ps) as [i|] eqn:Ei; [|done].
    destruct (turnByID_at _ _ _ Ei) as (v & Hv & Hvt). rewrite Hv.
    destruct (findUserInputPart (tp_Assistant v) iid) as [k|] eqn:Ef; [|done]. rewrite bool_decide_eq_true_2 by done.
    apply frame_at_turn_here. intros w Hw. rewrite on_assistant_parts_id. f_equal.
    assert (w = v) as -> by congruence. unfold card_keys. rewrite parts_on_assistant by done. apply keys_insert.
    intros q Hq. rewrite Hk. apply findUserInputPart_Some in Ef as (_ & m & q' & Hm & Hq' & Hkq).
    unfold assistant_parts in Hq. rewrite Hm in Hq. congruence. }
  set (ps2 := set_userInputs _ ps1).
  assert (card_frame (fold_left stage_if_present (remove_dups [t]) ps2) = card_frame ps2) as H2.
  { apply (fold_left_keeps (fun x => card_frame x = card_frame ps2)); [|done]. intros x id <-.
    unfold stage_if_present. destruct (turnByID id x); [by rewrite frame_stage|done]. }
  apply (one_card_frame ps2 _ H2). pose proof (f_equal fst H1) as Hh. pose proof (f_equal snd H1) as Ho.
  apply (one_card_register ps _ iid t Hone); [exact Hh| |done]. simpl in Ho. subst ps2. unfold owners in *.
  change (userInputs (set_userInputs ?m ?x)) with m. by rewrite fmap_insert, Ho.
Qed.

(** ** The events on cards *)

Lemma key_request_over part existing iid :
  card_key part = Some iid -> card_key existing = Some iid -> card_key (request_over part existing) = Some iid.
Proof. intros H1 H2. unfold request_over. case_if; [done|]. exact H1. Qed.

Lemma key_card_part iid st q a b n d : iid <> "" -> card_key (card_part iid st q a b n d) = Some iid.
Proof. intros Hne. unfold card_key. simpl. by rewrite bool_decide_eq_false_2. Qed.

Lemma find_user_input iid l p : iid <> "" -> find (is_user_input iid) l = Some p -> card_key p = Some iid.
Proof. intros Hne H. apply find_some in H as [_ H]. by apply is_user_input_key. Qed.

Section CardEvents.
Context (msg : EventMessage) (now : Z) (data : data_map) (ps : projectionSession).
Hypotheses (Hok : session_ok ps) (Hone : one_card ps).

Lemma holders_commit : holders (commit msg now ps) = holders ps.
Proof. exact (f_equal fst (frame_commit msg now ps)). Qed.

Lemma one_card_requested : one_card (apply_user_input_requested msg now data ps).
Proof.
  unfold apply_user_input_requested. case_if; [done|]. cbv zeta. case_if; [done|]. zprop.
  set (iid := dataString data "interactionId") in *.
  set (t0 := if one_of_words _ (BackendID msg) then _ else _) in *.
  assert (forall u, (u, iid) ∈ holders ps -> u = t0) as H0.
  { intros u Hu. destruct (owning_turn_holder iid (dataString data "turnId") u ps Hok Hone Hif Hu) as [Hne Ho].
    subst t0. rewrite Ho. case_if; [|done]. unfold or_else. by rewrite bool_decide_eq_false_2. }
  set (ps1 := commit msg now ps).
  assert (holders ps1 = holders ps) as Hh1 by apply holders_commit.
  set (t1 := match turnByID t0 ps1 with Some _ => t0 | None => _ end).
  assert (forall u, (u, iid) ∈ holders ps1 -> u = t1) as H1.
  { intros u Hu. pose proof (holder_live _ _ _ Hu) as Hlive. rewrite Hh1 in Hu. pose proof (H0 u Hu) as ->.
    subst t1. destruct (turnByID t0 ps1) eqn:E; [done|]. by apply turnByID_None in E. }
  assert (session_ok (ensure_turn t1 ps1)) as Hok2 by (apply ok_ensure_turn, ok_commit, Hok).
  assert (one_card (ensure_turn t1 ps1)) as Hone2.
  { apply (one_card_frame ps); [|done]. rewrite frame_ensure_turn. apply frame_commit. }
  assert (holders (ensure_turn t1 ps1) = holders ps1) as Hh2 by exact (f_equal fst (frame_ensure_turn t1 ps1)).
  destruct (turnByID t1 (ensure_turn t1 ps1)) as [i|] eqn:Ei; [|done].
  destruct (turnByID_at _ _ _ Ei) as (t & Ht & Hid).
  match goal with |- context [put_card t1 i ?p ?x] => set (part := p) end.
  assert (card_key part = Some iid) as Hk.
  { subst part. pose proof (key_card_part iid (or_else (dataString data "status") "pending") (field data "questions")
      (dataBool data "canRespond") (dataBool data "canReject") (dataInt64 data "expiresAt")
      (dataString data "diagnosticCode") Hif) as Hp.
    destruct (turns _ !! i ≫= _) as [existing|] eqn:E; [|exact Hp].
    apply key_request_over; [exact Hp|]. rewrite Ht in E. by apply (find_user_input iid (assistant_parts t)). }
  assert (one_card (put_card t1 i part (ensure_turn t1 ps1))) as Hone3.
  { apply (one_card_put t1 i part iid t); try done. intros u. rewrite Hh2. apply H1. }
  apply one_card_converge; [|eapply one_card_frame; [|exact Hone3]|done].
  - by apply ok_applyUserInputExecution, ok_stageTurnForFlush, ok_put_card.
  - by rewrite frame_exec, frame_stageTurnForFlush.
Qed.

Lemma card_of_Some iid t i p : card_of iid data ps = Some (t, i, p) -> turnByID t ps = Some i.
Proof.
  unfold card_of. cbv zeta. destruct (turnByID _ ps) as [j|] eqn:E; [|done].
  destruct (_ ≫= _); [|done]. intros [= <- <- _]. exact E.
Qed.

Lemma one_card_update_commit t i f iid :
  turnByID t ps = Some i -> (forall p, card_key (f p) = card_key p) ->
  one_card (update_card t iid i f (commit msg now ps)).
Proof.
  intros Hi Hf. destruct (turnByID_at _ _ _ Hi) as (u & Hu & Hid). apply (one_card_update t iid i f u); try done.
  - apply (one_card_frame ps); [apply frame_commit|done].
  - by rewrite turns_commit.
Qed.

Lemma one_card_submitted : one_card (apply_user_input_submitted msg now data ps).
Proof.
  unfold apply_user_input_submitted. cbv zeta.
  destruct (if bool_decide _ then _ else card_of _ _ _) as [[[t i] p]|] eqn:E; [|done].
  apply guarded_Some in E as [Hne E]. case_if; [done|]. apply card_of_Some in E.
  apply one_card_converge; [| |by zprop].
  - apply ok_applyUserInputExecution, ok_stageTurnForFlush, ok_update_card, ok_commit, Hok.
  - eapply one_card_frame; [by rewrite frame_exec, frame_stageTurnForFlush|]. by apply one_card_update_commit.
Qed.

Lemma one_card_resolved : one_card (apply_user_input_resolved msg now data ps).
Proof.
  unfold apply_user_input_resolved. cbv zeta.
  destruct (if bool_decide _ then _ else card_of _ _ _) as [[[t i] p]|] eqn:E; [|done].
  apply guarded_Some in E as [Hne E]. apply card_of_Some in E.
  apply one_card_converge; [| |by zprop].
  - apply ok_applyUserInputExecution, ok_update_card, ok_commit, Hok.
  - eapply one_card_frame; [by rewrite frame_exec|]. by apply one_card_update_commit.
Qed.

Lemma one_card_question_resolved : one_card (apply_question_resolved msg now data ps).
Proof.
  unfold apply_question_resolved. case_if; [done|]. cbv zeta. destruct (turnByID _ ps) as [i|] eqn:E; [|done].
  destruct (_ ≫= _); [|done]. eapply one_card_frame; [by rewrite frame_exec|]. by apply one_card_update_commit.
Qed.

(** The question of another source goes to the registered turn; without one, to
    the active turn, whatever turn holds the card. *)
Lemma one_card_question_asked :
  (owners ps !! dataString data "questionId" <> None \/
   forall t, ~ (t, dataString data "questionId") ∈ holders ps) ->
  one_card (apply_question_asked msg now data ps).
Proof.
  intros Hreg. unfold apply_question_asked. case_if; [done|]. cbv zeta. apply orb_false_iff in Hif as [Hne Ha]. zprop.
  set (qid := dataString data "questionId") in *. set (t1 := or_else (registered_turn qid ps) (attach_point ps)).
  assert (forall u, (u, qid) ∈ holders ps -> u = t1) as H1.
  { intros u Hu. destruct Hreg as [Hreg|Hreg]; [|by destruct (Hreg u)]. subst t1.
    rewrite registered_owner. destruct (owners ps !! qid) as [r|] eqn:Eo; [|done]. simpl.
    rewrite <- (proj2 Hone qid r u Eo Hu). unfold or_else. rewrite bool_decide_eq_false_2; [done|].
    intros ->. apply (ok_nonempty _ Hok). by apply holder_live in Hu. }
  set (ps2 := ensure_turn t1 (commit msg now ps)).
  assert (card_frame ps2 = card_frame ps) as Hf by (subst ps2; rewrite frame_ensure_turn; apply frame_commit).
  destruct (turnByID t1 ps2) as [i|] eqn:Ei; [|by apply (one_card_frame ps)].
  destruct (turnByID_at _ _ _ Ei) as (t & Ht & Hid).
  eapply one_card_frame; [by rewrite frame_exec, frame_stageTurnForFlush|].
  apply (one_card_put t1 i _ qid t); try done.
  - apply ok_ensure_turn, ok_commit, Hok.
  - by apply (one_card_frame ps).
  - by apply key_card_part.
  - intros u. pose proof (f_equal fst Hf) as Hh. simpl in Hh. rewrite Hh. apply H1.
Qed.
End CardEvents.

(** ** Every event *)

Lemma one_card_event ea pb msg now ps :
  session_ok ps -> one_card ps ->
  (Event msg = "question_asked" -> owners ps !! dataString (payload msg) "questionId" <> None \/
    forall t, ~ (t, dataString (payload msg) "questionId") ∈ holders ps) ->
  one_card (apply_event ea pb msg now ps).
Proof.
  intros Hok Hone Hq. pose proof (apply_event_handled ea pb msg now ps) as H.
  pose proof (frame_views msg now (payload msg) ps) as (?&?&?&?&?).
  pose proof (frame_turn_ends msg now (payload msg) ps) as (?&?).
  assert (forall ps', card_frame ps' = card_frame ps -> one_card ps') as Hf by (intros; by apply (one_card_frame ps)).
  destruct H; try (by apply Hf).
  - apply Hf, frame_started.
  - unfold apply_user_message. cbv zeta. case_if; [case_if; [done|apply Hf; framed]|]. case_if; [done|].
    eapply one_card_frame; [by rewrite frame_markRunning, frame_upsertTurn|]. apply one_card_remove, Hf, frame_commit.
  - unfold apply_user_message_removed. pose proof (one_card_remove (dataString (payload msg) "itemId") ps Hone) as Hr.
    destruct (removePendingPlaceholder _ ps) as [[] ps']; [|done]. by apply (one_card_frame ps'); [apply frame_commit|].
  - apply Hf. unfold apply_turn_file_changes. cbv zeta. case_if; [done|]. destruct (turnByID _ ps); [|done]. case_if; framed.
  - apply Hf. unfold apply_system_message. cbv zeta. case_if; framed.
  - apply Hf, frame_compaction.
  - apply Hf. unfold apply_session_command. cbv zeta. case_if; framed.
  - apply Hf, frame_injection.
  - apply Hf, frame_workflow.
  - apply Hf, frame_text_delta.
  - apply Hf, frame_reasoning.
  - apply Hf, frame_tool.
  - apply Hf, frame_subagent.
  - apply Hf, frame_permission_request.
  - apply Hf, frame_permission_resolved.
  - apply one_card_question_asked; auto.
  - by apply one_card_question_resolved.
  - by apply one_card_requested.
  - by apply one_card_submitted.
  - by apply one_card_resolved.
Qed.

(** ** Every call *)

(** The calls that bring no card past the owner of its interaction. *)
Definition card_safe (o : session_op) : Prop :=
  match o with
  | SEvent msg _ => Event msg <> "question_asked"
  | SPrepend l => Forall (fun t => card_keys t = []) l
  | SMerge _ _ detailParts => keys detailParts = []
  | _ => True
  end.

Lemma frame_stageOwning ps : card_frame (stageOwningTurnsForPendingParts ps) = card_frame ps.
Proof.
  unfold stageOwningTurnsForPendingParts. cbv zeta.
  apply (fold_left_keeps (fun x => card_frame x = card_frame ps)); [intros x ? <-; apply frame_stageTurnForFlush|].
  apply (fold_left_keeps (fun x => card_frame x = card_frame ps)); [intros x ? <-; apply frame_stageTurnForFlush|].
  case_if; [done|apply frame_stageTurnForFlush].
Qed.

(** A flush keeps the cards and forgets their turns. *)
Lemma one_card_forget ps ps' : holders ps' = holders ps -> owners ps' = ∅ -> one_card ps -> one_card ps'.
Proof. intros Hh Ho [H1 H2]. split; [by rewrite Hh|]. intros iid owner t. by rewrite Ho, lookup_empty. Qed.

Lemma no_cards_in l : Forall (fun t => card_keys t = []) l -> holders_in l = [].
Proof. intros H. unfold holders_in. induction H as [|t l Ht _ IH]; [done|]. simpl. by rewrite Ht. Qed.

Lemma prepared_keys i ex l l' : prepare_turns i ex l = inr l' -> Forall (fun t => card_keys t = []) l ->
  Forall (fun t => card_keys t = []) l'.
Proof.
  revert i ex l'. induction l as [|t l IH]; intros i ex l'; simpl; [by intros [= <-]|].
  case_bool_decide; [done|]. case_bool_decide; [done|]. destruct (prepare_turns (S i) _ l) eqn:E; [done|].
  intros [= <-] Hall. inversion Hall; subst. constructor; [by case_bool_decide|]. by apply (IH _ _ _ E).
Qed.

(** Detail brings no card and may overwrite some. *)
Lemma one_card_sublist ps ps' : sublist (holders ps') (holders ps) -> owners ps' = owners ps -> one_card ps -> one_card ps'.
Proof.
  intros Hh Ho [H1 H2]. split.
  - eapply sublist_NoDup; [exact H1|]. by apply (fmap_sublist snd).
  - intros iid owner t. rewrite Ho. intros Hi Hin. apply (H2 iid owner t Hi). by apply (elem_of_sublist (holders ps')).
Qed.

Lemma holders_in_fewer f i l :
  (forall t, tp_TurnID (f t) = tp_TurnID t /\ (card_keys (f t) = card_keys t \/ card_keys (f t) = [])) ->
  sublist (holders_in (alter f i l)) (holders_in l).
Proof.
  intros Hf. revert i. induction l as [|t l IH]; intros [|i]; try done; unfold holders_in in *; simpl.
  - destruct (Hf t) as [-> [->| ->]]; [done|]. by apply sublist_inserts_l.
  - apply sublist_app; [done|apply IH].
Qed.

Lemma merge_target_cards parts t : keys parts = [] ->
  card_keys (merge_target parts t) = card_keys t \/ card_keys (merge_target parts t) = [].
Proof.
  intros Hk. assert (keys (map cloneProjectionPart parts) = []) as Hk'.
  { rewrite keys_map; [done|]. by intros []. }
  unfold merge_target, on_assistant_parts, card_keys, assistant_parts.
  destruct parts as [|p parts], (tp_Assistant t) as [m|] eqn:E; cbn; rewrite ?E; auto.
Qed.

Lemma one_card_flush ps : one_card ps -> one_card (snd (flushLocked ps)).
Proof.
  intros H. unfold flushLocked. pose proof (f_equal fst (frame_stageOwning ps)) as Hh.
  pose proof (one_card_frame ps _ (frame_stageOwning ps) H) as H1. case_if; [done|].
  by apply (one_card_forget (stageOwningTurnsForPendingParts ps)).
Qed.

Lemma one_card_drain ops partOps ps : one_card ps -> one_card (snd (drain_and_commit ops partOps ps)).
Proof. intros H. unfold drain_and_commit. pose proof (one_card_flush ps H) as H1. by destruct (flushLocked ps). Qed.

(** A batch moves no part. *)
Lemma batch_cards valid check mut s ops s' :
  (forall op, keeps_cards (mut op)) -> apply_batch valid check mut s ops = inr s' ->
  holders_in (sp_Turns s') = holders_in (sp_Turns s).
Proof.
  intros Hm. unfold apply_batch. case_if; [done|]. destruct (plan _ _ _ _) as [|muts]; [done|]. intros [= <-].
  change (holders_in (fold_left (fun l m => alter (mut (snd m)) (fst m) l) muts (sp_Turns s)) = holders_in (sp_Turns s)).
  apply (fold_left_keeps (fun l => holders_in l = holders_in (sp_Turns s))); [|done].
  intros l m <-. apply holders_in_alter. intros t _. apply Hm.
Qed.

Lemma one_card_op ea pb o ps : session_ok ps -> one_card ps -> card_safe o -> one_card (snd (exec_op ea pb o ps)).
Proof.
  intros Hok Hone Hs. destruct o as [msg now|now phase| | |l|v2 ops|turnID generation parts]; simpl in *.
  - unfold apply_session. case_if; [done|]. apply one_card_event; [done|done|]. by intros ?.
  - unfold external_state. cbv zeta. by case_if.
  - pose proof (one_card_flush ps Hone). by destruct (flushLocked ps) as [[]].
  - unfold drop_pending. case_if; [done|]. by apply (one_card_forget ps).
  - unfold prepend_turns. destruct (prepare_turns _ _ _) as [|l'] eqn:E; [done|]. apply prepared_keys in E.
    + apply (one_card_frame ps); [|done]. unfold card_frame. f_equal.
      change (holders_in (l' ++ turns ps) = holders_in (turns ps)). by rewrite holders_in_app, no_cards_in.
    + rewrite map_id_Forall; [done|]. apply Forall_true. intros t. apply cloneTurn_id.
  - destruct ops as [|op ops]; [done|]. unfold commit_batch. destruct (_ (projection ps) _) as [|s] eqn:E; [done|].
    assert (one_card (set_projection s ps)) as H1.
    { apply (one_card_frame ps); [|done]. unfold card_frame. f_equal. destruct v2; by apply batch_cards in E. }
    pose proof (one_card_drain (op :: ops) [] _ H1). unfold committed. by destruct (drain_and_commit _ _ _).
  - unfold merge_detail. destruct (_ ≫= _) as [[i t]|]; [|done]. case_if; [done|]. case_if; [done|]. cbv zeta.
    match goal with |- context [drain_and_commit ?o ?p ?x] =>
      pose proof (one_card_drain o p x) as Hd; destruct (drain_and_commit o p x) end.
    apply Hd, (one_card_sublist ps); [|done|done]. apply holders_in_fewer. intros u.
    split; [apply merge_target_id|by apply merge_target_cards].
Qed.

Lemma one_card_new sid : one_card (new_session sid).
Proof. split; [constructor|]. intros iid owner t H _. unfold owners in H. simpl in H. by rewrite fmap_empty, lookup_empty in H. Qed.

(** C23. A question is never shown twice: from a session in which each interaction
    has at most one card, every sequence of events of any source but
    [question_asked], of flushes, drops, phase changes, prepended history and
    fetched detail without cards, and detail states leaves each interaction with at most one card in the whole
    projection, and while the registry names a turn for it, the card is there. *)
Theorem one_card_per_interaction ea pb ops ps :
  session_ok ps -> one_card ps -> Forall card_safe ops ->
  let ps' := snd (run_ops ea pb ops ps) in
  forall iid, iid <> "" ->
    (length (locateUserInputParts iid ps') <= 1)%nat /\
    forall u t p, userInputs ps' !! iid = Some u -> (t, p) ∈ locateUserInputParts iid ps' -> t = ui_turnID u.
Proof.
  intros Hok Hone Hops. cbv zeta.
  assert (session_ok (snd (run_ops ea pb ops ps)) /\ one_card (snd (run_ops ea pb ops ps))) as [Hok' Hone'].
  { revert ps Hok Hone. induction Hops as [|o ops Ho _ IH]; intros ps Hok Hone; simpl; [done|].
    pose proof (ok_exec_op ea pb o ps Hok) as H1. pose proof (one_card_op ea pb o ps Hok Hone Ho) as H2.
    destruct (exec_op ea pb o ps) as [l ps1]. specialize (IH ps1 H1 H2). by destruct (run_ops ea pb ops ps1). }
  intros iid Hne. split.
  - destruct (located_one iid _ Hone' Hne) as [->|(t & p & -> & _)]; simpl; lia.
  - intros u t p Hu Hin. apply located_holder in Hin as (Hk & v & Hv & Ht & Hp).
    apply (proj2 Hone' iid); [unfold owners; by rewrite lookup_fmap, Hu|]. apply elem_of_holders. exists v.
    split; [done|]. split; [done|]. apply elem_of_keys. by exists p.
Qed.

(** A question asked by two sources, flushed between, then answered. *)
Lemma one_card_per_interaction_witness :
  let ask seq := SEvent (sample_event seq "user_input_requested" [("turnId", VString "t1"); ("interactionId", VString "q")]) seq in
  let ops := [ask 1; SFlush; SEvent (sample_event 2 "turn_started" [("turnId", VString "t2")]) 2; ask 3;
              SEvent (sample_event 4 "user_input_resolved" [("interactionId", VString "q"); ("status", VString "answered")]) 4] in
  map fst (locateUserInputParts "q" (snd (run_ops no_attachments no_parts ops (new_session "s")))) = ["t1"] /\
  (length (locateUserInputParts "q" (snd (run_ops no_attachments no_parts ops (new_session "s")))) <= 1)%nat.
Proof.
  split; [vm_compute; reflexivity|].
  apply (one_card_per_interaction no_attachments no_parts _ (new_session "s") (ok_new "s") (one_card_new "s")); [|discriminate].
  repeat constructor; discriminate.
Defined.
