(* ===== verification/ReducerDefects.v ===== *)
(** * Where the reducer does less than its comments say

    Executions of the reducer, evaluated: a question of a finished turn that brings
    the session back to waiting, a second card for one question, deltas that a
    drop, a prepend or a swap leaves behind, live text that fetched detail
    overwrites, and a restore that panics or takes the wrong part. *)

From S2P Require Import Prelude.
From S2P Require Import GoText.
From S2P Require Import Wire.
From S2P Require Import Projection.
From S2P Require Import ProjectionFields.
From S2P Require Import ReducerParts.
From S2P Require Import Reducer.
From S2P Require Import ReducerPatch.
From S2P Require Import TurnDetail.
From S2P Require Import ReducerInvariant.
From S2P Require Import DetailCommits.

Definition run_sample (ops : list session_op) (ps : projectionSession) : projectionSession :=
  snd (run_ops no_attachments no_parts ops ps).

Definition started (seq : Z) (turn : string) : session_op :=
  SEvent (sample_event seq "turn_started" [("turnId", VString turn)]) seq.
Definition completed_turn (seq : Z) (turn : string) : session_op :=
  SEvent (sample_event seq "turn_completed" [("turnId", VString turn)]) seq.
Definition said (seq : Z) (turn text : string) : session_op :=
  SEvent (sample_event seq "text_delta" [("turnId", VString turn); ("itemId", VString turn); ("delta", VString text)]) seq.
Definition requested (seq : Z) (turn card : string) : session_op :=
  SEvent (sample_event seq "user_input_requested" [("turnId", VString turn); ("interactionId", VString card)]) seq.
Definition resolved (seq : Z) (turn card : string) : session_op :=
  SEvent (sample_event seq "user_input_resolved"
    [("turnId", VString turn); ("interactionId", VString card); ("status", VString "answered")]) seq.
Definition submitted (seq : Z) (turn card : string) : session_op :=
  SEvent (sample_event seq "user_input_submitted" [("turnId", VString turn); ("interactionId", VString card)]) seq.
Definition asked (seq : Z) (card : string) : session_op :=
  SEvent (sample_event seq "question_asked" [("questionId", VString card); ("questionText", VString "?")]) seq.
Definition asked_resolved (seq : Z) (card : string) : session_op :=
  SEvent (sample_event seq "question_resolved" [("questionId", VString card)]) seq.

(** ** A question of a finished turn *)

Definition two_questions : list session_op :=
  [started 1 "t1"; requested 2 "t1" "q1"; requested 3 "t1" "q2"; completed_turn 4 "t1"; SFlush].

(** A finished turn can make its session wait for good: when a turn ends with two
    questions unanswered the session is idle, but the late answer to one of them
    puts it in requires_action on the finished turn, because the other, although
    marked as ended with its turn, still counts as pending; an answer to that
    other one is refused. *)
Theorem ended_card_blocks_session :
  let ps := run_sample two_questions (new_session "s") in
  let ps' := run_sample [resolved 5 "t1" "q2"] ps in
  sp_Execution (projection ps) = mkExecutionView "idle" "" /\
  sp_Execution (projection ps') = mkExecutionView "requires_action" "t1" /\
  option_map (fun t => terminal (tp_Status t)) (the_turn "t1" ps') = Some true /\
  run_sample [submitted 6 "t1" "q1"] ps' = ps'.
Proof. vm_compute. repeat split. Qed.

(** ** Two cards for one question *)

Definition card_statuses (iid : string) (ps : projectionSession) : list (string * string) :=
  map (fun l => (fst l, pp_UserInputStatus (snd l))) (locateUserInputParts iid ps).

(** A repeated [question_asked] makes a second card once a flush has cleared the
    registry and another turn is active, and the answer then reaches only the
    second: the first stays pending. Without the flush there is one card. *)
Theorem question_asked_again_duplicates :
  let ask := [started 1 "t1"; said 2 "t1" "a"; asked 3 "q"] in
  let again := [started 4 "t2"; said 5 "t2" "b"; asked 6 "q"] in
  card_statuses "q" (run_sample (ask ++ again) (new_session "s")) = [("t1", "pending")] /\
  card_statuses "q" (run_sample (ask ++ SFlush :: again) (new_session "s")) = [("t1", "pending"); ("t2", "pending")] /\
  card_statuses "q" (run_sample (ask ++ SFlush :: again ++ [SFlush; asked_resolved 7 "q"]) (new_session "s"))
    = [("t1", "pending"); ("t2", "answered")].
Proof. vm_compute. repeat split. Qed.

(** ** What a drop and a swap leave behind *)

Definition a_workflow : list session_op :=
  [started 1 "t1"; said 2 "t1" "a"; SFlush;
   SEvent (sample_event 3 "workflow_run" [("workflowId", VString "w"); ("turnId", VString "t1")]) 3].

Definition queued (seq : Z) (item : string) : session_op :=
  SEvent (sample_event seq "user_message" [("itemId", VString item); ("text", VString "next"); ("pending", VBool true)]) seq.
Definition unqueued (seq : Z) (item : string) : session_op :=
  SEvent (sample_event seq "user_message_removed" [("itemId", VString item)]) seq.

(** A dropped patch does not drop everything: the workflow card or the retracted
    row it held goes out with the next flush, in a patch that spans no revision,
    which the journal does not keep. *)
Theorem dropped_patch_resurfaces :
  let after ops := flushLocked (run_sample (ops ++ [SDrop]) (new_session "s")) in
  option_map (fun p => (pt_BaseRev p, pt_SyncRev p, map po_Op (pt_PartOps p))) (fst (after a_workflow))
    = Some (2, 2, ["upsert_workflow"]) /\
  option_map (fun p => (pt_BaseRev p, pt_SyncRev p, pt_RemovedTurnIDs p)) (fst (after [queued 1 "u"; SFlush; unqueued 2 "u"]))
    = Some (2, 2, ["u"]).
Proof. vm_compute. repeat split. Qed.

(** A row retracted before its session is swapped is never retracted for the
    clients: the copy of the session drops the pending retraction, so the next
    patch of the copy names no removed turn, while that of the original does. *)
Theorem swap_loses_retraction :
  let ps := run_sample [started 1 "t1"; said 2 "t1" "a"; queued 3 "u"; SFlush; unqueued 4 "u"] (new_session "s") in
  let r : ProjectionReducer := {[projectionSessionKey "codex" "s" := ps]} in
  let swapped := swapSessionFrom "codex" "s" (cloneSessionReducer "codex" "s" r) r in
  option_map pt_RemovedTurnIDs (fst (FlushPatch "codex" "s" r)) = Some ["u"] /\
  option_map pt_RemovedTurnIDs (fst (FlushPatch "codex" "s" swapped)) = Some [] /\
  option_map (map tp_TurnID) (option_map sp_Turns (Snapshot "codex" "s" swapped)) = Some ["t1"].
Proof. vm_compute. repeat split. Qed.

(** ** A prepend of history over pending text *)

(** A prepend of history strands the pending delta: it moves the last flushed
    revision past text that was applied and not yet sent, so that text goes out
    later in a patch that spans no revision, which the journal refuses. The
    commits of turn detail send the pending delta first. *)
Theorem prepend_strands_delta :
  let pending := run_sample [started 1 "t1"; said 2 "t1" "a"; SFlush; said 3 "t1" "b"] (new_session "s") in
  let sent ps := option_map (fun p => (pt_BaseRev p, pt_SyncRev p, map po_Text (pt_PartOps p))) (fst (flushLocked ps)) in
  sent pending = Some (1, 2, ["b"]) /\
  sent (run_sample [SPrepend [turn0 "t0" "completed"]] pending) = Some (3, 3, ["b"]) /\
  sent (run_sample [SState true [mkTurnStateOp "t1" "loading" "" 0 0 0 0]] pending) = None.
Proof. vm_compute. repeat split. Qed.

(** ** Live text after the fetch of the detail began *)

(** The generation of a turn does not see its live content: text that arrives
    for a completed turn after the fetch of its detail began leaves the generation
    as it is, so the merge of what was fetched before is not stale and replaces
    that text. *)
Theorem late_text_overwritten :
  let before := run_sample [started 1 "t1"; said 2 "t1" "a"; completed_turn 3 "t1"; SFlush] (new_session "s") in
  let late := run_sample [said 4 "t1" " late"] before in
  let texts ps := map (fun t => (tp_TurnGeneration t, map pp_Text (assistant_parts t))) (turns ps) in
  texts before = [(0, ["a"])] /\ texts late = [(0, ["a late"])] /\
  texts (run_sample [SMerge "t1" 0 [final_text "fetched"]] late) = [(1, ["fetched"])].
Proof. vm_compute. repeat split. Qed.

(** ** A restore of doubled cards *)

Definition a_card (iid status : string) : ProjectionPart := card_part iid status VNil true true 0 "".
Definition with_parts (id : string) (parts : list ProjectionPart) : TurnProjection :=
  set_tp_Assistant (Some (set_mp_Parts parts (message0 id "assistant"))) (turn0 id "completed").
Definition checkpoint (ts : list TurnProjection) : SessionProjection :=
  set_sp_Turns ts (projection (new_session "s")).
Definition shown (s : SessionProjection) : list (string * list string) :=
  map (fun t => (tp_TurnID t, map (fun p => or_else (pp_UserInputInteractionID p) (pp_Text p)) (assistant_parts t)))
    (sp_Turns s).

(** Restoring a checkpoint in which two cards are both there twice depends on the
    order of a Go map: with the cards side by side in two turns one order merges
    them and the other indexes past the end of a slice and panics; with a text
    after them, one order loses the text and leaves one card twice. *)
Theorem Restore_depends_on_map_order :
  let pair := checkpoint [with_parts "t1" [a_card "A" "answered"; a_card "B" "answered"];
                          with_parts "t2" [a_card "A" "pending"; a_card "B" "pending"]] in
  let text := checkpoint [with_parts "t1" [a_card "A" "answered"; a_card "B" "answered"];
                          with_parts "t2" [a_card "A" "pending"; a_card "B" "pending"; final_text "done"]] in
  let restored order s := option_map shown (convergeUserInputCopiesInProjection order s) in
  restored ["B"; "A"] pair = Some [("t1", ["A"; "B"]); ("t2", [])] /\
  restored ["A"; "B"] pair = None /\
  restored ["B"; "A"] text = Some [("t1", ["A"; "B"]); ("t2", ["done"])] /\
  restored ["A"; "B"] text = Some [("t1", ["A"; "B"]); ("t2", ["B"])].
Proof. vm_compute. repeat split. Qed.
