(* ===== verification/ReducerMerge.v ===== *)
(** * Merging the copies of a card

    [convergeUserInputCopies] on a session that does hold a card in several turns:
    one copy is left, in the turn that owns the interaction, and it is the most
    advanced of them. *)

From S2P Require Import Prelude.
From S2P Require Import GoText.
From S2P Require Import Wire.
From S2P Require Import Projection.
From S2P Require Import ProjectionFields.
From S2P Require Import ReducerParts.
From S2P Require Import Reducer.
From S2P Require Import ReducerPatch.
From S2P Require Import ReducerInvariant.
From S2P Require Import ReducerTurns.
From S2P Require Import ReducerCards.
From S2P Require Import ReducerDefects.

(** ** Lists with one match *)

Definition matches (P : ProjectionPart -> bool) (l : list ProjectionPart) : list ProjectionPart :=
  filter (fun p => P p = true) l.

Lemma matches_none P l : matches P l = [] <-> Forall (fun p => P p = false) l.
Proof.
  unfold matches. split.
  - intros H. apply Forall_forall. intros p Hp. destruct (P p) eqn:E; [|done].
    assert (p ∈ filter (fun p => P p = true) l) as Hin by (by apply list_elem_of_filter).
    rewrite H in Hin. by apply not_elem_of_nil in Hin.
  - intros H. induction H as [|p l Hp _ IH]; [done|]. by rewrite filter_cons_False by congruence.
Qed.

Lemma map_unmatched (P : ProjectionPart -> bool) (m : ProjectionPart) l :
  Forall (fun p => P p = false) l -> map (fun p => if P p then m else p) l = l.
Proof. intros H. apply map_id_Forall. eapply Forall_impl; [exact H|]. intros p Hp. simpl in Hp. by rewrite Hp. Qed.

Lemma filter_unmatched (P : ProjectionPart -> bool) l : Forall (fun p => P p = false) l -> filter (fun p => P p = false) l = l.
Proof. intros H. induction H as [|p l Hp _ IH]; [done|]. rewrite filter_cons_True by done. by rewrite IH. Qed.

(** A list around its only match. *)
Lemma single_match P l k :
  (length (matches P l) <= 1)%nat -> find_part P l = Some k ->
  exists p, l = take k l ++ p :: drop (S k) l /\ P p = true /\ (k < length l)%nat /\
    Forall (fun q => P q = false) (take k l) /\ Forall (fun q => P q = false) (drop (S k) l).
Proof.
  intros Hlen Hk. apply find_part_Some in Hk as (p & Hp & HP & Htake). exists p.
  pose proof (take_drop_middle l k p Hp) as Hl. split; [done|]. split; [done|].
  split; [by eapply lookup_lt_Some|]. split; [done|].
  apply matches_none. rewrite <- Hl in Hlen. unfold matches in *. rewrite filter_app, length_app in Hlen.
  rewrite filter_cons_True in Hlen by done. cbn [length] in Hlen.
  destruct (filter _ (drop (S k) l)); [done|]. simpl in Hlen. lia.
Qed.

Lemma replace_single P m l k :
  (length (matches P l) <= 1)%nat -> find_part P l = Some k -> <[k := m]> l = map (fun p => if P p then m else p) l.
Proof.
  intros Hlen Hk. destruct (single_match P l k Hlen Hk) as (p & Hl & HP & Hlt & H1 & H2).
  rewrite Hl at 2. rewrite map_app. cbn [map]. rewrite HP, !map_unmatched by done.
  rewrite insert_take_drop by done. done.
Qed.

Lemma remove_single P l k :
  (length (matches P l) <= 1)%nat -> find_part P l = Some k ->
  take k l ++ drop (S k) l = filter (fun p => P p = false) l.
Proof.
  intros Hlen Hk. destruct (single_match P l k Hlen Hk) as (p & Hl & HP & Hlt & H1 & H2).
  transitivity (filter (fun p => P p = false) (take k l ++ p :: drop (S k) l)); [|by rewrite <- Hl].
  rewrite filter_app, filter_cons_False by congruence. by rewrite !filter_unmatched.
Qed.

(** ** One turn *)

Section Merge.
Context (iid canonical : string) (merged : ProjectionPart).
Hypothesis Hne : iid <> "".

Definition copies_of (t : TurnProjection) : list ProjectionPart := matches (is_user_input iid) (assistant_parts t).

Definition merge_parts (t : TurnProjection) (l : list ProjectionPart) : list ProjectionPart :=
  if decide (tp_TurnID t = canonical) then map (fun p => if is_user_input iid p then merged else p) l
  else filter (fun p => is_user_input iid p = false) l.

Definition merge_copy (t : TurnProjection) : TurnProjection := on_assistant_parts (merge_parts t) t.

Definition merge_in (L : list string) (t : TurnProjection) : TurnProjection :=
  if decide (tp_TurnID t ∈ L) then merge_copy t else t.

Lemma merge_copy_id t : tp_TurnID (merge_copy t) = tp_TurnID t.
Proof. apply on_assistant_parts_id. Qed.

Lemma turns_converge_at ps id :
  NoDup (ids ps) -> Forall (fun t => (length (copies_of t) <= 1)%nat) (turns ps) ->
  turns (converge_at iid canonical merged ps id) = map (merge_in [id]) (turns ps).
Proof.
  intros Hnd Hone. unfold converge_at.
  assert (forall t, merge_in [id] t = if decide (tp_TurnID t = id) then merge_copy t else t) as Hin.
  { intros t. unfold merge_in. destruct (decide (tp_TurnID t = id)) as [H|H];
      [rewrite decide_True by (by apply list_elem_of_singleton)|rewrite decide_False by (by rewrite list_elem_of_singleton)]; done. }
  destruct (turnByID id ps) as [i|] eqn:Hi.
  - destruct (turnByID_at _ _ _ Hi) as (t & Ht & Hid). rewrite Ht.
    assert (forall f, (forall u, turns ps !! i = Some u -> f u = merge_copy u) ->
      alter f i (turns ps) = map (merge_in [id]) (turns ps)) as Hf.
    { intros f Hf. transitivity (alter merge_copy i (turns ps)).
      - apply list_eq. intros j. destruct (decide (i = j)) as [<-|]; [|by rewrite !list_lookup_alter_ne].
        rewrite !list_lookup_alter_eq. destruct (turns ps !! i) as [u|] eqn:Eu; simpl; [|done]. f_equal. by apply Hf.
      - rewrite (alter_by_id id i _ _ Hnd Hi). apply map_ext. intros u. by rewrite Hin. }
    assert ((length (copies_of t) <= 1)%nat) as Ht1.
    { rewrite Forall_forall in Hone. apply Hone. by eapply list_elem_of_lookup_2. }
    unfold copies_of, assistant_parts in Ht1. unfold findUserInputPart.
    destruct (tp_Assistant t) as [m|] eqn:Em.
    + rewrite (bool_decide_eq_false_2 (iid = "")) by done.
      destruct (find_part (is_user_input iid) (mp_Parts m)) as [k|] eqn:Ek.
      * case_bool_decide as Hc; rewrite turns_at_turn; apply Hf; intros u Hu; assert (u = t) as -> by congruence;
          unfold merge_copy, merge_parts, on_assistant_parts; rewrite Em.
        -- rewrite decide_True by congruence. by rewrite (replace_single (is_user_input iid) merged (mp_Parts m) k).
        -- rewrite decide_False by congruence. by rewrite (remove_single (is_user_input iid) (mp_Parts m) k).
      * rewrite <- (Hf (fun u => u)); [by rewrite (alter_same _ _ _ t Ht)|]. intros u Hu. assert (u = t) as -> by congruence.
        apply find_part_None in Ek. unfold merge_copy, merge_parts, on_assistant_parts. rewrite Em.
        destruct (decide _); [rewrite map_unmatched by done|rewrite filter_unmatched by done];
          destruct t, m; simpl in *; by subst.
    + rewrite <- (Hf (fun u => u)); [by rewrite (alter_same _ _ _ t Ht)|]. intros u Hu. assert (u = t) as -> by congruence.
      unfold merge_copy, on_assistant_parts. by rewrite Em.
  - symmetry. apply map_id_Forall, Forall_forall. intros t Ht. rewrite Hin, decide_False; [done|].
    intros Hid. apply turnByID_None in Hi. apply Hi. rewrite <- Hid. by apply list_elem_of_fmap_2.
Qed.

(** ** Every turn that holds a copy *)

Hypothesis Hmerged : is_user_input iid merged = true.

Lemma copies_of_merge t : copies_of (merge_copy t) =
  if decide (tp_TurnID t = canonical) then map (fun _ => merged) (copies_of t) else [].
Proof.
  unfold copies_of, merge_copy. rewrite parts_on_assistant by (unfold merge_parts; by destruct (decide _)).
  unfold merge_parts. destruct (decide _).
  - induction (assistant_parts t) as [|p l IH]; [done|]. simpl. unfold matches in *.
    destruct (is_user_input iid p) eqn:E.
    + rewrite !filter_cons_True by done. simpl. by rewrite IH.
    + rewrite !filter_cons_False by congruence. exact IH.
  - apply matches_none, Forall_forall. intros p Hp. by apply list_elem_of_filter in Hp as [? _].
Qed.

Lemma merge_in_single L t : (length (copies_of t) <= 1)%nat -> (length (copies_of (merge_in L t)) <= 1)%nat.
Proof.
  intros H. unfold merge_in. destruct (decide _); [|done]. rewrite copies_of_merge.
  destruct (decide _); [by rewrite length_map|simpl; lia].
Qed.

Lemma turns_converge_all L ps :
  NoDup L -> NoDup (ids ps) -> Forall (fun t => (length (copies_of t) <= 1)%nat) (turns ps) ->
  turns (fold_left (converge_at iid canonical merged) L ps) = map (merge_in L) (turns ps).
Proof.
  intros HL. revert ps. induction HL as [|id L Hid HL IH]; intros ps Hnd Hone; simpl.
  - symmetry. apply map_id_Forall, Forall_true. intros t. unfold merge_in. by rewrite decide_False by apply not_elem_of_nil.
  - pose proof (turns_converge_at ps id Hnd Hone) as H1. rewrite IH, H1, map_map.
    + apply map_ext. intros t. unfold merge_in at 2 3.
      destruct (decide (tp_TurnID t ∈ [id])) as [Ht|Ht].
      * apply list_elem_of_singleton in Ht. rewrite decide_True by (rewrite Ht; by left). unfold merge_in.
        by rewrite decide_False by (rewrite merge_copy_id; congruence).
      * unfold merge_in. destruct (decide (tp_TurnID t ∈ L)) as [HtL|HtL].
        -- by rewrite decide_True by (by right).
        -- rewrite decide_False; [done|]. intros Hc. apply elem_of_cons in Hc as [Hc|Hc]; [|done].
           by apply Ht, list_elem_of_singleton.
    + unfold ids. rewrite H1, map_map. erewrite map_ext; [exact Hnd|]. intros t. unfold merge_in.
      destruct (decide _); [apply merge_copy_id|done].
    + rewrite H1. apply Forall_map. eapply Forall_impl; [exact Hone|]. intros t. apply merge_in_single.
Qed.

Definition locate_in (l : list TurnProjection) : list (string * ProjectionPart) :=
  concat (map (fun t => map (fun p => (tp_TurnID t, p)) (copies_of t)) l).

Lemma locate_is_in ps : locateUserInputParts iid ps = locate_in (turns ps).
Proof. unfold locateUserInputParts. by rewrite bool_decide_eq_false_2. Qed.

Lemma elem_of_locate_in t p l : (t, p) ∈ locate_in l <-> exists u, u ∈ l /\ tp_TurnID u = t /\ p ∈ copies_of u.
Proof.
  unfold locate_in. rewrite list_elem_of_In, in_concat. split.
  - intros (x & Hx & Hin). apply in_map_iff in Hx as (u & <- & Hu). apply in_map_iff in Hin as (q & [= <- <-] & Hq).
    exists u. by rewrite !list_elem_of_In.
  - intros (u & Hu & <- & Hp). exists (map (fun p => (tp_TurnID u, p)) (copies_of u)).
    apply list_elem_of_In in Hu, Hp. split; [|by apply (in_map (fun p => (tp_TurnID u, p)))].
    by apply (in_map (fun u => map (fun p => (tp_TurnID u, p)) (copies_of u))).
Qed.

Lemma only_one l : NoDup (map tp_TurnID l) -> canonical ∈ map tp_TurnID l ->
  concat (map (fun t => if decide (tp_TurnID t = canonical) then [(canonical, merged)] else []) l) = [(canonical, merged)].
Proof.
  intros Hnd Hin. induction l as [|t l IH]; [by apply not_elem_of_nil in Hin|].
  simpl in *. apply NoDup_cons in Hnd as [Hn Hnd]. destruct (decide (tp_TurnID t = canonical)) as [Hc|Hc].
  - simpl. f_equal. subst. clear IH Hin Hnd. induction l as [|u l IH]; [done|]. simpl in *.
    apply not_elem_of_cons in Hn as [Hn1 Hn2]. rewrite decide_False by congruence. by apply IH.
  - apply IH; [done|]. apply elem_of_cons in Hin as [Hin|Hin]; [congruence|done].
Qed.

Lemma located_merge l :
  NoDup (map tp_TurnID l) -> Forall (fun t => (length (copies_of t) <= 1)%nat) l ->
  canonical ∈ map fst (locate_in l) ->
  locate_in (map (merge_in (map fst (locate_in l))) l) = [(canonical, merged)].
Proof.
  intros Hnd Hone Hc. set (L := map fst (locate_in l)) in *.
  assert (forall t, t ∈ l -> tp_TurnID t ∈ L <-> copies_of t <> []) as HL.
  { intros t Ht. subst L. split.
    - intros Hin Hnil. apply list_elem_of_fmap in Hin as ([u p] & E & Hin). simpl in E. subst u.
      apply elem_of_locate_in in Hin as (u & Hu & Hid & Hp). assert (u = t) as ->; [|by rewrite Hnil in Hp; apply not_elem_of_nil in Hp].
      apply list_elem_of_lookup in Hu as [i Hi], Ht as [j Hj].
      assert (i = j) as ->; [|congruence]. apply (NoDup_lookup (map tp_TurnID l) i j (tp_TurnID u) Hnd);
        change (map tp_TurnID l) with (tp_TurnID <$> l); rewrite list_lookup_fmap; [by rewrite Hi|rewrite Hj; simpl; congruence].
    - intros Hne'. destruct (copies_of t) as [|p ps] eqn:E; [done|]. apply (list_elem_of_fmap_2' fst _ (tp_TurnID t, p)); [|done].
      apply elem_of_locate_in. exists t. split; [done|]. split; [done|]. rewrite E. by left. }
  etransitivity; [|apply (only_one l Hnd)].
  - unfold locate_in. f_equal. rewrite map_map. apply map_ext_in. intros t Ht. apply list_elem_of_In in Ht.
    rewrite Forall_forall in Hone. specialize (Hone t Ht). specialize (HL t Ht). unfold merge_in.
    destruct (decide (tp_TurnID t ∈ L)) as [HtL|HtL].
    + rewrite merge_copy_id, copies_of_merge. destruct (decide (tp_TurnID t = canonical)) as [He|He]; [|done].
      apply HL in HtL. destruct (copies_of t) as [|p [|? ?]]; simpl in *; [done|by rewrite He|lia].
    + rewrite decide_False by congruence. destruct (copies_of t); [done|]. destruct HtL. by apply HL.
  - subst L. apply list_elem_of_fmap in Hc as ([u p] & -> & Hin). apply elem_of_locate_in in Hin as (v & Hv & <- & _).
    simpl. by apply list_elem_of_fmap_2.
Qed.
End Merge.

(** The copy that wins. *)
Lemma best_copies l acc :
  let best := fold_left best_copy l acc in
  snd acc <= snd best /\ Forall (fun p => userInputPartRank p <= snd best) l /\
  (best = acc \/ fst best ∈ l /\ snd best = userInputPartRank (fst best)).
Proof.
  revert acc. induction l as [|p l IH]; intros acc; simpl; [split; [lia|]; by split; [constructor|left]|].
  destruct (IH (best_copy acc p)) as (H1 & H2 & H3). unfold best_copy in H1 |- *. unfold best_copy in H2, H3.
  destruct (userInputPartRank p >=? snd acc) eqn:E.
  - apply Z.geb_le in E. simpl in H1. split; [lia|]. split; [by constructor|]. right.
    destruct H3 as [->|[H3 H4]]; [split; [by left|done]|]. split; [by right|done].
  - rewrite Z.geb_leb in E. apply Z.leb_gt in E. split; [lia|]. split; [constructor; [lia|done]|].
    destruct H3 as [->|[H3 H4]]; [by left|right]. split; [by right|done].
Qed.

Lemma merged_best locs : locs <> [] ->
  merged_copy locs ∈ map snd locs /\ forall p, p ∈ map snd locs -> userInputPartRank p <= userInputPartRank (merged_copy locs).
Proof.
  intros Hne. unfold merged_copy. pose proof (best_copies (map snd locs) (part0, -1)) as H. cbv zeta in H.
  destruct (fold_left best_copy (map snd locs) (part0, -1)) as [q r]. simpl in H |- *. destruct H as (H1 & H2 & H3).
  rewrite Forall_forall in H2. destruct locs as [|[t p] locs]; [done|].
  destruct H3 as [[= -> ->]|[H3 ->]]; [|by split].
  pose proof (H2 p ltac:(by left)). pose proof (rank_pos p). lia.
Qed.

(** ** The whole merge *)

Lemma turns_present ps id : turns (stage_if_present ps id) = turns ps.
Proof. unfold stage_if_present. destruct (turnByID id ps); [apply turns_stage|done]. Qed.

Lemma turns_stage_if_present l ps : turns (fold_left stage_if_present l ps) = turns ps.
Proof. apply (fold_left_keeps (fun x => turns x = turns ps)); [|done]. intros x id <-. apply turns_present. Qed.

Lemma userInputs_stage_if_present l ps : userInputs (fold_left stage_if_present l ps) = userInputs ps.
Proof.
  apply (fold_left_keeps (fun x => userInputs x = userInputs ps)); [|done]. intros x id <-. unfold stage_if_present, stage.
  destruct (turnByID id x); [|done]. by destruct (turns x !! n).
Qed.

Lemma the_turn_same id x y : turns x = turns y -> the_turn id x = the_turn id y.
Proof. intros H. unfold the_turn, turnByID. by rewrite H. Qed.

Lemma staged_present ps id : id ∈ ids ps -> upsertTurns (stage_if_present ps id) !! id = the_turn id ps.
Proof.
  intros Hid. destruct (turn_index_is_Some id (turns ps) Hid) as [i Hi].
  destruct (turn_index_Some _ _ _ Hi) as (t & Et & _). unfold stage_if_present, the_turn, turnByID. rewrite Hi.
  unfold stage. rewrite Et. simpl. by rewrite lookup_insert_eq, Et.
Qed.

Lemma staged_present_ne ps id j : j <> id -> upsertTurns (stage_if_present ps j) !! id = upsertTurns ps !! id.
Proof.
  intros Hj. unfold stage_if_present, stage. destruct (turnByID j ps); [|done]. destruct (turns ps !! n); [|done].
  simpl. by rewrite lookup_insert_ne.
Qed.

Lemma staged_after_fold l ps id : id ∈ l -> id ∈ ids ps ->
  upsertTurns (fold_left stage_if_present l ps) !! id = the_turn id ps.
Proof.
  intros Hl Hid.
  assert (forall k x, turns x = turns ps -> upsertTurns x !! id = the_turn id ps ->
    upsertTurns (fold_left stage_if_present k x) !! id = the_turn id ps) as Hkeep.
  { intros k. induction k as [|j k IH]; intros x Hx Hs; [done|]. apply IH; [by rewrite turns_present|].
    destruct (decide (j = id)) as [->|Hj]; [|by rewrite staged_present_ne].
    rewrite staged_present; [by apply the_turn_same|]. unfold ids. by rewrite Hx. }
  assert (forall x, turns x = turns ps -> upsertTurns (fold_left stage_if_present l x) !! id = the_turn id ps) as H; [|by apply H].
  induction l as [|j l IH]; intros x Hx; [by apply not_elem_of_nil in Hl|]. simpl.
  apply elem_of_cons in Hl as [->|Hl]; [|apply IH; [done|by rewrite turns_present]].
  apply Hkeep; [by rewrite turns_present|]. rewrite staged_present; [by apply the_turn_same|]. unfold ids. by rewrite Hx.
Qed.

Lemma NoDup_locate iid l :
  NoDup (map tp_TurnID l) -> Forall (fun t => (length (copies_of iid t) <= 1)%nat) l -> NoDup (map fst (locate_in iid l)).
Proof.
  intros Hnd Hone. induction Hone as [|t l Ht _ IH]; [constructor|]. simpl in Hnd. apply NoDup_cons in Hnd as [Hn Hnd].
  change (locate_in iid (t :: l)) with (map (fun p => (tp_TurnID t, p)) (copies_of iid t) ++ locate_in iid l).
  rewrite map_app. specialize (IH Hnd). destruct (copies_of iid t) as [|p [|? ?]]; simpl in *; [done| |lia].
  apply NoDup_cons. split; [|done]. intros Hin. apply Hn. apply list_elem_of_fmap in Hin as ([u q] & E & Hin). simpl in E.
  apply elem_of_locate_in in Hin as (v & Hv & Hid & _). rewrite E, <- Hid. by apply list_elem_of_fmap_2.
Qed.

(** Parts of other kinds are where they were. *)
Lemma merge_in_others iid c m L t : is_user_input iid m = true ->
  filter (fun p => is_user_input iid p = false) (assistant_parts (merge_in iid c m L t)) =
  filter (fun p => is_user_input iid p = false) (assistant_parts t).
Proof.
  intros Hm. unfold merge_in. destruct (decide (tp_TurnID t ∈ L)); [|done]. unfold merge_copy.
  rewrite parts_on_assistant by (unfold merge_parts; by destruct (decide _)). unfold merge_parts.
  induction (assistant_parts t) as [|p l IH]; [by destruct (decide _)|]. destruct (decide _); simpl in *.
  - destruct (is_user_input iid p) eqn:E; [rewrite !filter_cons_False by congruence|rewrite !filter_cons_True by done]; by rewrite IH.
  - destruct (is_user_input iid p) eqn:E.
    + rewrite (filter_cons_False _ p l) by congruence. exact IH.
    + rewrite (filter_cons_True _ p l) by done. rewrite filter_cons_True by done. by rewrite IH.
Qed.

(** Copies of a card converge: when the turn that owns an interaction holds it and
    no turn holds it twice, the merge leaves exactly one card, in that turn; it is
    one of the copies, none of which was further along (resolved, ended with its
    turn, submitted, waiting); the registry has it; every other part of every turn
    stays as it was; and every turn that held a copy is staged as it now is. *)
Theorem convergeUserInputCopies_merges iid ps :
  session_ok ps -> iid <> "" -> Forall (fun t => (length (copies_of iid t) <= 1)%nat) (turns ps) ->
  let locs := locateUserInputParts iid ps in
  let canonical := canonical_turn iid locs ps in
  canonical ∈ map fst locs ->
  let ps' := convergeUserInputCopies iid ps in
  exists p, locateUserInputParts iid ps' = [(canonical, p)] /\
    p ∈ map snd locs /\ (forall q, q ∈ map snd locs -> userInputPartRank q <= userInputPartRank p) /\
    userInputs ps' !! iid = Some (mkUserInputPending canonical p) /\
    map (fun t => filter (fun p => is_user_input iid p = false) (assistant_parts t)) (turns ps') =
      map (fun t => filter (fun p => is_user_input iid p = false) (assistant_parts t)) (turns ps) /\
    forall t, t ∈ map fst locs -> upsertTurns ps' !! t = the_turn t ps'.
Proof.
  intros Hok Hne Hone locs canonical Hc. cbv zeta.
  assert (locs <> []) as Hlocs by (intros Hn; rewrite Hn in Hc; by apply not_elem_of_nil in Hc).
  destruct (merged_best locs Hlocs) as [Hm Hmax]. set (p := merged_copy locs) in *. exists p.
  assert (is_user_input iid p = true) as Hp.
  { apply list_elem_of_fmap in Hm as ([t q] & -> & Hin). apply is_user_input_key; [done|].
    by apply located_holder in Hin as [? _]. }
  assert (locs = locate_in iid (turns ps)) as Hloc by (by apply locate_is_in).
  assert (NoDup (map fst locs)) as HndL by (rewrite Hloc; apply NoDup_locate; [exact (ok_ids _ Hok)|done]).
  set (ps1 := fold_left (converge_at iid canonical p) (map fst locs) ps).
  assert (turns ps1 = map (merge_in iid canonical p (map fst locs)) (turns ps)) as H1.
  { apply turns_converge_all; try done. exact (ok_ids _ Hok). }
  set (ps2 := set_userInputs (<[iid := mkUserInputPending canonical p]> (userInputs ps1)) ps1).
  set (L := remove_dups (map fst locs)).
  assert (convergeUserInputCopies iid ps = fold_left stage_if_present L ps2) as ->.
  { unfold convergeUserInputCopies. subst ps2 ps1 L p canonical locs.
    destruct (locateUserInputParts iid ps); [by destruct Hlocs|done]. }
  assert (turns (fold_left stage_if_present L ps2) = turns ps1) as H2.
  { transitivity (turns ps2); [apply turns_stage_if_present|done]. }
  split; [|split; [done|split; [done|split; [|split]]]].
  - rewrite (locate_is_in iid Hne), H2, H1, Hloc. apply located_merge; try done; [exact (ok_ids _ Hok)|by rewrite <- Hloc].
  - rewrite userInputs_stage_if_present. apply lookup_insert_eq.
  - rewrite H2, H1, map_map. apply map_ext. intros t. by apply merge_in_others.
  - intros t Ht. rewrite (the_turn_same t (fold_left stage_if_present L ps2) ps2) by (rewrite H2; done). apply staged_after_fold; [by apply elem_of_remove_dups|].
    assert (ids ps2 = ids ps) as ->.
    { unfold ids. change (turns ps2) with (turns ps1). rewrite H1, map_map. apply map_ext. intros u. unfold merge_in.
      destruct (decide _); [apply merge_copy_id|done]. }
    rewrite Hloc in Ht. apply list_elem_of_fmap in Ht as ([u q] & -> & Hin). apply elem_of_locate_in in Hin as (v & Hv & <- & _).
    simpl. by apply list_elem_of_fmap_2.
Qed.

(** ** Sample *)

(** The doubled card of a repeated question, the first copy answered meanwhile. *)
Definition doubled : projectionSession :=
  run_sample [started 1 "t1"; said 2 "t1" "a"; asked 3 "q"; asked_resolved 4 "q"; SFlush;
              started 5 "t2"; said 6 "t2" "b"; asked 7 "q"] (new_session "s").

Lemma at_most_one_copy iid l : forallb (fun t => (length (copies_of iid t) <=? 1)%nat) l = true ->
  Forall (fun t => (length (copies_of iid t) <= 1)%nat) l.
Proof. intros H. apply Forall_forall. intros t Ht. rewrite forallb_forall in H. by apply Nat.leb_le, H, list_elem_of_In. Qed.

Lemma convergeUserInputCopies_merges_witness :
  card_statuses "q" doubled = [("t1", "answered"); ("t2", "pending")] /\
  exists p, locateUserInputParts "q" (convergeUserInputCopies "q" doubled) = [("t2", p)] /\ 4 <= userInputPartRank p.
Proof.
  split; [vm_compute; reflexivity|].
  assert (session_ok doubled) as Hok by (apply ok_run_ops, ok_new).
  assert (forallb (fun t => (length (copies_of "q" t) <=? 1)%nat) (turns doubled) = true) as Hb by (vm_compute; reflexivity).
  assert (Forall (fun t => (length (copies_of "q" t) <= 1)%nat) (turns doubled)) as Hone.
  { exact (at_most_one_copy _ _ Hb). }
  assert (canonical_turn "q" (locateUserInputParts "q" doubled) doubled = "t2") as Hc by (vm_compute; reflexivity).
  assert (map fst (locateUserInputParts "q" doubled) = ["t1"; "t2"]) as Hl by (vm_compute; reflexivity).
  assert (map (fun l => userInputPartRank (snd l)) (locateUserInputParts "q" doubled) = [4; 1]) as Hr by (vm_compute; reflexivity).
  pose proof (convergeUserInputCopies_merges "q" doubled Hok ltac:(discriminate) Hone) as H. cbv zeta in H.
  rewrite Hc, Hl in H. destruct (H ltac:(right; left)) as (p & H1 & _ & H2 & _). exists p. split; [exact H1|].
  clear H H1. destruct (locateUserInputParts "q" doubled) as [|[t q] l]; [discriminate Hr|].
  injection Hr as <- _. apply H2. left.
Defined.
