(* ===== verification/SourceLedger.v ===== *)
(** * The ledger of a Claude transcript (go-bridge/claude_source_state.go)

    What the bridge has taken from the files of a Claude session: a cursor per
    segment, the occurrences of each logical record, and for each record the
    content blocks already handed to the projection. A transition is proposed on a
    copy and committed by compare and swap on the revision. SHA-256 (in
    hexadecimal) and the two uses of encoding/json, canonical JSON and a list of
    strings, are parameters. A copy made through JSON is the value itself; an error
    message is a constructor, the cause it wraps left out. *)

From S2P Require Import Prelude.
From S2P Require Import GoText.
From S2P Require Import Reducer.

(** ** Data *)

Definition ClaudeSourceStateSchemaVersion : Z := 1.

Record ClaudeSourceCursor : Type := mkCursor {
  cc_SegmentStableKey : string;
  cc_SegmentGeneration : string;
  cc_RawByteEnd : Z;
  cc_MembershipDigest : string
}.

Record ClaudeSourceParserFlags : Type := mkParserFlags { SkipNextResumeNoResponse : bool }.

Record ClaudeGraphOccurrence : Type := mkOccurrence {
  go_SourceStateRev : Z;
  go_ParentUUID : string;
  go_StructuralKind : string;
  go_GraphResolvedTurn : string;
  go_SegmentStableKey : string;
  go_SourceGeneration : string;
  go_RawByteStart : Z;
  go_RawByteEnd : Z
}.

Record ClaudeProjectionContribution : Type := mkContribution { pc_TurnID : string; pc_PartID : string }.

Record ClaudeLogicalRecord : Type := mkLogicalRecord {
  lr_ContentSequenceHash : string;
  lr_SemanticLifecycleHash : string;
  lr_BlockOccurrenceIDs : list string;
  lr_Contribution : ClaudeProjectionContribution
}.

(** A map that JSON left out is nil: [None]. *)
Record ClaudeSourceState : Type := mkSourceState {
  cs_SchemaVersion : Z;
  cs_SourceGeneration : string;
  cs_SourceStateRev : Z;
  cs_CursorVector : list ClaudeSourceCursor;
  cs_ParserFlags : ClaudeSourceParserFlags;
  cs_GraphNodes : option (gmap string (list ClaudeGraphOccurrence));
  cs_LogicalRecords : option (gmap string ClaudeLogicalRecord)
}.

Record ClaudeSourceRecordTransition : Type := mkRecordTransition {
  rt_LogicalRecordUUID : string;
  rt_ParentUUID : string;
  rt_StructuralKind : string;
  rt_GraphResolvedTurn : string;
  rt_SegmentStableKey : string;
  rt_SegmentGeneration : string;
  rt_SourceGeneration : string;
  rt_RawByteStart : Z;
  rt_RawByteEnd : Z;
  rt_ContentBlocks : list string;
  rt_SemanticLifecycle : string;
  rt_Contribution : ClaudeProjectionContribution;
  rt_ControlOperation : string
}.

Inductive ClaudeSourceTransitionResult : Type :=
  ClaudeTransitionAcceptedProjection | ClaudeTransitionAcceptedSourceOnly.

Record ClaudeSourceTransitionProposal : Type := mkProposal {
  BaseGeneration : string;
  BaseSourceStateRev : Z;
  Next : ClaudeSourceState;
  Result : ClaudeSourceTransitionResult;
  NewBlockOccurrenceIDs : list string
}.

Inductive LedgerError : Type :=
| ErrSchema | ErrIncomplete | ErrCursorVector | ErrGraph | ErrLogicalRecord
| ErrTransition | ErrGap | ErrUnknownSegment | ErrUUIDMissing | ErrQueueOperationMissing
| ErrSemanticJSON | ErrContributionMissing | ErrNonMonotonic | ErrStaleCAS | ErrInitialInput.

Definition set_cursors (rev : Z) (l : list ClaudeSourceCursor) (s : ClaudeSourceState) : ClaudeSourceState :=
  mkSourceState (cs_SchemaVersion s) (cs_SourceGeneration s) rev l (cs_ParserFlags s) (cs_GraphNodes s)
    (cs_LogicalRecords s).
Definition set_graph (g : gmap string (list ClaudeGraphOccurrence)) (s : ClaudeSourceState) : ClaudeSourceState :=
  mkSourceState (cs_SchemaVersion s) (cs_SourceGeneration s) (cs_SourceStateRev s) (cs_CursorVector s)
    (cs_ParserFlags s) (Some g) (cs_LogicalRecords s).
Definition set_logical (m : gmap string ClaudeLogicalRecord) (s : ClaudeSourceState) : ClaudeSourceState :=
  mkSourceState (cs_SchemaVersion s) (cs_SourceGeneration s) (cs_SourceStateRev s) (cs_CursorVector s)
    (cs_ParserFlags s) (cs_GraphNodes s) (Some m).
Definition set_end (n : Z) (c : ClaudeSourceCursor) : ClaudeSourceCursor :=
  mkCursor (cc_SegmentStableKey c) (cc_SegmentGeneration c) n (cc_MembershipDigest c).

(** Reading a map that may be nil. *)
Definition graph (s : ClaudeSourceState) : gmap string (list ClaudeGraphOccurrence) := default ∅ (cs_GraphNodes s).
Definition logical (s : ClaudeSourceState) : gmap string ClaudeLogicalRecord := default ∅ (cs_LogicalRecords s).
Definition occurrences (uuid : string) (s : ClaudeSourceState) : list ClaudeGraphOccurrence :=
  default [] (graph s !! uuid).

(** ** Validation *)

Definition unset (s : string) : bool := bool_decide (s = "").

Definition cursor_valid (c : ClaudeSourceCursor) : bool :=
  negb (unset (cc_SegmentStableKey c) || unset (cc_SegmentGeneration c)
        || unset (cc_MembershipDigest c) || (cc_RawByteEnd c <? 0)).

(** The inner loop over the occurrences of a record; [previous] is the revision of
    the one before. *)
Fixpoint occurrences_valid (generation : string) (previous : option Z) (l : list ClaudeGraphOccurrence) : bool :=
  match l with
  | [] => true
  | o :: l =>
      negb (negb (bool_decide (go_SourceGeneration o = generation)) || unset (go_SegmentStableKey o)
            || (go_RawByteStart o <? 0) || (go_RawByteEnd o <=? go_RawByteStart o)
            || match previous with Some p => go_SourceStateRev o <=? p | None => false end)
      && occurrences_valid generation (Some (go_SourceStateRev o)) l
  end.

Definition node_valid (generation : string) (e : string * list ClaudeGraphOccurrence) : bool :=
  negb (unset (fst e)) && occurrences_valid generation None (snd e).

Definition record_valid (e : string * ClaudeLogicalRecord) : bool :=
  let r := snd e in
  negb (unset (fst e) || unset (lr_ContentSequenceHash r) || unset (lr_SemanticLifecycleHash r)
        || unset (pc_TurnID (lr_Contribution r)) || unset (pc_PartID (lr_Contribution r)))
  && forallb (fun id => negb (unset id)) (lr_BlockOccurrenceIDs r).

Definition is_nil_map {A : Type} (m : option A) : bool := match m with None => true | Some _ => false end.

Definition ValidateClaudeSourceState (s : ClaudeSourceState) : option LedgerError :=
  if negb (cs_SchemaVersion s =? ClaudeSourceStateSchemaVersion) then Some ErrSchema
  else if unset (cs_SourceGeneration s) || is_nil_map (cs_GraphNodes s) || is_nil_map (cs_LogicalRecords s)
  then Some ErrIncomplete
  else if negb (forallb cursor_valid (cs_CursorVector s)) then Some ErrCursorVector
  else if negb (forallb (node_valid (cs_SourceGeneration s)) (map_to_list (graph s))) then Some ErrGraph
  else if negb (forallb record_valid (map_to_list (logical s))) then Some ErrLogicalRecord
  else None.

(** ** Transitions *)

Definition claudeGraphOnlyStructuralKind (kind : string) : bool :=
  bool_decide (kind ∈ ["attachment"; "system.stop_hook_summary"; "system.api_error"; "system.informational"]).

Fixpoint prefix_of_strings (old new : list string) : bool :=
  match old, new with
  | [], _ => true
  | a :: old, b :: new => bool_decide (a = b) && prefix_of_strings old new
  | _ :: _, [] => false
  end.

Definition strictClaudePrefix (oldValues newValues : list string) : bool :=
  (zlen oldValues <? zlen newValues) && prefix_of_strings oldValues newValues.

(** The first cursor of a segment, with its place. *)
Definition cursor_at (key : string) (l : list ClaudeSourceCursor) : option (nat * ClaudeSourceCursor) :=
  list_find (fun c => cc_SegmentStableKey c = key) l.

Section Ledger.
Context (sha256hex : string -> string).
Context (recode_json : string -> option string) (marshal_strings : list string -> string).

Definition canonicalClaudeJSON (raw : string) : option string :=
  recode_json (if unset raw then "null" else raw).

Definition hashClaudeStrings (values : list string) : string := sha256hex (marshal_strings values).

(** The identity of a content block: its record, its ordinal, its content. *)
Definition block_id (uuid : string) (ordinal : nat) (canonical : string) : string :=
  sha256hex (nul_key uuid (nul_key (format_int (Z.of_nat ordinal)) (sha256hex canonical))).

Fixpoint block_ids (uuid : string) (ordinal : nat) (blocks : list string) : option (list string) :=
  match blocks with
  | [] => Some []
  | b :: blocks =>
      match canonicalClaudeJSON b with
      | None => None
      | Some c => cons (block_id uuid ordinal c) <$> block_ids uuid (S ordinal) blocks
      end
  end.

Definition occurrence_of (rev : Z) (r : ClaudeSourceRecordTransition) : ClaudeGraphOccurrence :=
  mkOccurrence rev (rt_ParentUUID r) (rt_StructuralKind r) (rt_GraphResolvedTurn r) (rt_SegmentStableKey r)
    (rt_SourceGeneration r) (rt_RawByteStart r) (rt_RawByteEnd r).

(** The part of the transition that concerns the logical record, on the state
    that has the new occurrence. *)
Definition record_content (r : ClaudeSourceRecordTransition) (next : ClaudeSourceState)
  : LedgerError + (ClaudeSourceState * ClaudeSourceTransitionResult * list string) :=
  let uuid := rt_LogicalRecordUUID r in
  match block_ids uuid 0 (rt_ContentBlocks r) with
  | None => inl ErrSemanticJSON
  | Some blockIDs =>
      let contentSequenceHash := hashClaudeStrings blockIDs in
      match canonicalClaudeJSON (rt_SemanticLifecycle r) with
      | None => inl ErrSemanticJSON
      | Some lifecycle =>
          let semanticLifecycleHash := sha256hex lifecycle in
          match logical next !! uuid with
          | None =>
              if unset (pc_TurnID (rt_Contribution r)) || unset (pc_PartID (rt_Contribution r))
              then inl ErrContributionMissing
              else
                inr (set_logical (<[uuid := mkLogicalRecord contentSequenceHash semanticLifecycleHash blockIDs
                                              (rt_Contribution r)]> (logical next)) next,
                     ClaudeTransitionAcceptedProjection, blockIDs)
          | Some existing =>
              if bool_decide (lr_ContentSequenceHash existing = contentSequenceHash)
                 && bool_decide (lr_SemanticLifecycleHash existing = semanticLifecycleHash)
              then inr (next, ClaudeTransitionAcceptedSourceOnly, [])
              else if negb (strictClaudePrefix (lr_BlockOccurrenceIDs existing) blockIDs) then inl ErrNonMonotonic
              else
                inr (set_logical (<[uuid := mkLogicalRecord contentSequenceHash semanticLifecycleHash blockIDs
                                              (lr_Contribution existing)]> (logical next)) next,
                     ClaudeTransitionAcceptedProjection, drop (length (lr_BlockOccurrenceIDs existing)) blockIDs)
          end
      end
  end.

(** The copy with the cursor moved past the record. *)
Definition advanced (i : nat) (r : ClaudeSourceRecordTransition) (s : ClaudeSourceState) : ClaudeSourceState :=
  set_cursors (wrap_u64 (cs_SourceStateRev s + 1)) (alter (set_end (rt_RawByteEnd r)) i (cs_CursorVector s)) s.

(** The rest of the transition: what becomes of the copy. *)
Definition transition_body (r : ClaudeSourceRecordTransition) (next : ClaudeSourceState)
  : LedgerError + (ClaudeSourceState * ClaudeSourceTransitionResult * list string) :=
  let uuid := rt_LogicalRecordUUID r in
  if unset uuid then
    if negb (bool_decide (rt_StructuralKind r = "queue-operation"))
       && negb (bool_decide (rt_StructuralKind r = "last-prompt")) then inl ErrUUIDMissing
    else if bool_decide (rt_StructuralKind r = "queue-operation") && unset (rt_ControlOperation r)
    then inl ErrQueueOperationMissing
    else inr (next, ClaudeTransitionAcceptedSourceOnly, [])
  else
    let occurrence := occurrence_of (cs_SourceStateRev next) r in
    let next := set_graph (<[uuid := occurrences uuid next ++ [occurrence]]> (graph next)) next in
    if claudeGraphOnlyStructuralKind (rt_StructuralKind r)
    then inr (next, ClaudeTransitionAcceptedSourceOnly, [])
    else record_content r next.

Definition ProposeClaudeSourceTransition (current : ClaudeSourceState) (r : ClaudeSourceRecordTransition)
  : LedgerError + ClaudeSourceTransitionProposal :=
  match ValidateClaudeSourceState current with
  | Some e => inl e
  | None =>
      if negb (bool_decide (rt_SourceGeneration r = cs_SourceGeneration current))
         || unset (rt_SegmentStableKey r) || unset (rt_SegmentGeneration r)
         || (rt_RawByteStart r <? 0) || (rt_RawByteEnd r <=? rt_RawByteStart r)
      then inl ErrTransition
      else
        match cursor_at (rt_SegmentStableKey r) (cs_CursorVector current) with
        | None => inl ErrUnknownSegment
        | Some (i, cursor) =>
            if negb (bool_decide (cc_SegmentGeneration cursor = rt_SegmentGeneration r))
               || negb (cc_RawByteEnd cursor =? rt_RawByteStart r)
            then inl ErrGap
            else
              match transition_body r (advanced i r current) with
              | inl e => inl e
              | inr (next, result, ids) =>
                  inr (mkProposal (cs_SourceGeneration current) (cs_SourceStateRev current) next result ids)
              end
        end
  end.

(** The compare and swap; nil states do not occur. *)
Definition CommitClaudeSourceTransition (current : ClaudeSourceState) (p : ClaudeSourceTransitionProposal)
  : LedgerError + ClaudeSourceState :=
  if negb (bool_decide (cs_SourceGeneration current = BaseGeneration p))
     || negb (cs_SourceStateRev current =? BaseSourceStateRev p)
  then inl ErrStaleCAS
  else inr (Next p).

Definition newInitialClaudeSourceState (segmentStableKey segmentGeneration : string) (admissionCut : Z)
  : LedgerError + ClaudeSourceState :=
  if unset segmentStableKey || unset segmentGeneration || (admissionCut <? 0) then inl ErrInitialInput
  else
    inr (mkSourceState ClaudeSourceStateSchemaVersion
           (sha256hex (nul_key "claude-source-generation" segmentStableKey)) 0
           [mkCursor segmentStableKey segmentGeneration admissionCut
              (sha256hex (nul_key segmentStableKey (nul_key segmentGeneration (format_int admissionCut))))]
           (mkParserFlags false) (Some ∅) (Some ∅)).

(** ** What the kernel does with the ledger (projection_source_transaction.go) *)

Definition claudeSourceCursorForSegment (s : ClaudeSourceState) (key : string) : option ClaudeSourceCursor :=
  snd <$> cursor_at key (cs_CursorVector s).

Definition same_occurrence (r : ClaudeSourceRecordTransition) (o : ClaudeGraphOccurrence) : bool :=
  bool_decide (go_SegmentStableKey o = rt_SegmentStableKey r)
  && bool_decide (go_SourceGeneration o = rt_SourceGeneration r)
  && (go_RawByteStart o =? rt_RawByteStart r) && (go_RawByteEnd o =? rt_RawByteEnd r).

Definition claudeSourceOccurrenceExists (s : ClaudeSourceState) (r : ClaudeSourceRecordTransition) : bool :=
  negb (unset (rt_LogicalRecordUUID r)) && existsb (same_occurrence r) (occurrences (rt_LogicalRecordUUID r) s).

Inductive AckError : Type := AckInput | AckNotInstalled | AckGeneration.

(** [AcknowledgeClaudeSourceRange] on an installed ledger. *)
Definition acknowledge (key generation : string) (byteEnd : Z) (s : ClaudeSourceState)
  : AckError + ClaudeSourceState :=
  if unset key || (byteEnd <? 0) then inl AckInput
  else
  match cursor_at key (cs_CursorVector s) with
  | None => inl AckGeneration
  | Some (i, cursor) =>
      if negb (bool_decide (cc_SegmentGeneration cursor = generation)) then inl AckGeneration
      else if byteEnd <=? cc_RawByteEnd cursor then inr s
      else inr (set_cursors (wrap_u64 (cs_SourceStateRev s + 1)) (alter (set_end byteEnd) i (cs_CursorVector s)) s)
  end.
End Ledger.

(** ** Runs *)

Inductive ledger_op : Type :=
| LTake (r : ClaudeSourceRecordTransition)
| LAcknowledge (key generation : string) (byteEnd : Z).

Section Runs.
Context (sha256hex : string -> string).
Context (recode_json : string -> option string) (marshal_strings : list string -> string).

Abbreviation propose := (ProposeClaudeSourceTransition sha256hex recode_json marshal_strings).

(** An operation: the blocks it hands to the projection, by record, and the
    ledger after it. A refused one changes nothing. *)
Definition exec_ledger (op : ledger_op) (s : ClaudeSourceState) : list (string * list string) * ClaudeSourceState :=
  match op with
  | LTake r =>
      match propose s r with
      | inl _ => ([], s)
      | inr p =>
          match CommitClaudeSourceTransition s p with
          | inl _ => ([], s)
          | inr s' => ([(rt_LogicalRecordUUID r, NewBlockOccurrenceIDs p)], s')
          end
      end
  | LAcknowledge key generation byteEnd =>
      match acknowledge key generation byteEnd s with inl _ => ([], s) | inr s' => ([], s') end
  end.

Fixpoint run_ledger (ops : list ledger_op) (s : ClaudeSourceState)
  : list (string * list string) * ClaudeSourceState :=
  match ops with
  | [] => ([], s)
  | op :: ops =>
      let '(out, s) := exec_ledger op s in
      let '(out', s) := run_ledger ops s in (out ++ out', s)
  end.

(** What was handed over for one record, in order. *)
Definition handed (uuid : string) (out : list (string * list string)) : list string :=
  concat (map snd (filter (fun e => fst e = uuid) out)).

(** ** The invariant *)

Definition u64_limit : Z := 18446744073709551616.

Record ledger_ok (s : ClaudeSourceState) : Prop := {
  lo_valid : ValidateClaudeSourceState s = None;
  lo_rev : 0 <= cs_SourceStateRev s;
  lo_keys : NoDup (map cc_SegmentStableKey (cs_CursorVector s));
  lo_revs : forall uuid o, o ∈ occurrences uuid s -> go_SourceStateRev o <= cs_SourceStateRev s;
  lo_within : forall uuid o, o ∈ occurrences uuid s ->
    exists c, c ∈ cs_CursorVector s /\ cc_SegmentStableKey c = go_SegmentStableKey o /\ go_RawByteEnd o <= cc_RawByteEnd c;
  lo_order : forall u1 u2 o1 o2, o1 ∈ occurrences u1 s -> o2 ∈ occurrences u2 s ->
    go_SegmentStableKey o1 = go_SegmentStableKey o2 -> go_SourceStateRev o1 < go_SourceStateRev o2 ->
    go_RawByteEnd o1 <= go_RawByteStart o2;
  lo_single : forall u1 u2 o1 o2, o1 ∈ occurrences u1 s -> o2 ∈ occurrences u2 s ->
    go_SourceStateRev o1 = go_SourceStateRev o2 -> u1 = u2 /\ o1 = o2
}.

Lemma unset_true s : unset s = true <-> s = "".
Proof. apply bool_decide_eq_true. Qed.
Lemma unset_false s : unset s = false <-> s <> "".
Proof. apply bool_decide_eq_false. Qed.

(** What validation asks of an occurrence and of a record. *)
Definition occurrence_fine (generation : string) (o : ClaudeGraphOccurrence) : Prop :=
  go_SourceGeneration o = generation /\ go_SegmentStableKey o <> "" /\ 0 <= go_RawByteStart o < go_RawByteEnd o.

Lemma occurrences_valid_app generation o l previous :
  occurrences_valid generation previous l = true -> occurrence_fine generation o ->
  (forall p, previous = Some p -> p < go_SourceStateRev o) ->
  Forall (fun x => go_SourceStateRev x < go_SourceStateRev o) l ->
  occurrences_valid generation previous (l ++ [o]) = true.
Proof.
  intros Hv (H1 & H2 & H3) Hp Hl. revert previous Hv Hp. induction Hl as [|x l Hx Hl IH]; intros previous Hv Hp; simpl.
  - rewrite bool_decide_eq_true_2 by done. apply unset_false in H2. rewrite H2. rewrite andb_true_r.
    apply negb_true_iff. simpl. apply orb_false_iff. split; [apply orb_false_iff; split; zbool; lia|].
    destruct previous as [p|]; [|done]. specialize (Hp p eq_refl). zbool; lia.
  - simpl in Hv. apply andb_true_iff in Hv as [-> Hv]. apply IH; [done|]. intros p [= <-]. lia.
Qed.

Lemma occurrences_valid_fine generation o l previous :
  occurrences_valid generation previous l = true -> o ∈ l -> occurrence_fine generation o.
Proof.
  revert previous. induction l as [|x l IH]; intros previous Hv Hin; [by apply not_elem_of_nil in Hin|].
  simpl in Hv. apply andb_true_iff in Hv as [Hx Hv]. apply elem_of_cons in Hin as [->|Hin]; [|by eapply IH].
  rewrite negb_true_iff, !orb_false_iff in Hx. destruct Hx as ((((H1 & H2) & H3) & H4) & _).
  zprop. apply unset_false in H2. split; [done|]. split; [done|]. lia.
Qed.

(** Validation, field by field. *)
Lemma valid_iff s :
  ValidateClaudeSourceState s = None <->
  cs_SchemaVersion s = ClaudeSourceStateSchemaVersion /\ cs_SourceGeneration s <> "" /\
  cs_GraphNodes s = Some (graph s) /\ cs_LogicalRecords s = Some (logical s) /\
  forallb cursor_valid (cs_CursorVector s) = true /\
  (forall uuid l, graph s !! uuid = Some l -> node_valid (cs_SourceGeneration s) (uuid, l) = true) /\
  (forall uuid r, logical s !! uuid = Some r -> record_valid (uuid, r) = true).
Proof.
  assert (forall {A} (f : string * A -> bool) (m : gmap string A),
    forallb f (map_to_list m) = true <-> forall k x, m !! k = Some x -> f (k, x) = true) as Hall.
  { intros A f m. rewrite forallb_forall. split.
    - intros H k x Hk. apply H, list_elem_of_In. by apply elem_of_map_to_list.
    - intros H [k x] Hk. apply H. apply elem_of_map_to_list. by apply list_elem_of_In. }
  unfold ValidateClaudeSourceState. repeat case_if; zprop; split; try done.
  - intros (? & _). done.
  - intros (_ & H1 & H2 & H3 & _). unfold is_nil_map in *. rewrite H2, H3 in Hif0.
    apply unset_false in H1. rewrite H1 in Hif0. by destruct Hif0.
  - intros (_ & _ & _ & _ & ? & _). congruence.
  - intros (_ & _ & _ & _ & _ & Hg & _). apply Hall in Hg. congruence.
  - intros (_ & _ & _ & _ & _ & _ & Hg). apply Hall in Hg. congruence.
  - intros _. apply unset_false in H. unfold is_nil_map, graph, logical in *.
    destruct (cs_GraphNodes s); [|done]. destruct (cs_LogicalRecords s); [|done].
    repeat split; try done; by apply Hall.
Qed.

(** ** One transition *)

Section Digest.
Context (Hsha : forall s, sha256hex s <> "").

Lemma block_ids_set uuid i blocks ids :
  block_ids sha256hex recode_json uuid i blocks = Some ids -> forallb (fun id => negb (unset id)) ids = true.
Proof.
  revert i ids. induction blocks as [|b blocks IH]; intros i ids; simpl; [by intros [= <-]|].
  destruct (canonicalClaudeJSON _ b); [|done]. intros H. apply fmap_Some in H as (l & Hl & ->). simpl.
  rewrite (IH _ _ Hl), andb_true_r. apply negb_true_iff, unset_false, Hsha.
Qed.

Lemma prefix_app old new : prefix_of_strings old new = true -> new = old ++ drop (length old) new.
Proof.
  revert new. induction old as [|a old IH]; intros [|b new]; simpl; try done.
  intros H. zprop. subst. f_equal. by apply IH.
Qed.

Definition blocks_of (uuid : string) (s : ClaudeSourceState) : list string :=
  default [] (lr_BlockOccurrenceIDs <$> logical s !! uuid).

(** The logical record either stays, and nothing is handed over, or is replaced
    by a valid one whose blocks are those before with the ones handed over. *)
Lemma record_content_inr r s s' result ids :
  record_content sha256hex recode_json marshal_strings r s = inr (s', result, ids) ->
  rt_LogicalRecordUUID r <> "" ->
  (forall rec, logical s !! rt_LogicalRecordUUID r = Some rec -> record_valid (rt_LogicalRecordUUID r, rec) = true) ->
  s' = s /\ ids = [] \/
  exists rec, s' = set_logical (<[rt_LogicalRecordUUID r := rec]> (logical s)) s /\
    record_valid (rt_LogicalRecordUUID r, rec) = true /\
    lr_BlockOccurrenceIDs rec = blocks_of (rt_LogicalRecordUUID r) s ++ ids.
Proof.
  unfold record_content, blocks_of. intros Hr Hne Hv. revert Hr. apply unset_false in Hne.
  destruct (block_ids _ _ _ _ _) as [blockIDs|] eqn:Eb; [|done]. apply block_ids_set in Eb.
  destruct (canonicalClaudeJSON _ _) as [lifecycle|]; [|done].
  assert (forall x, unset (sha256hex x) = false) as Hd by (intros; by apply unset_false).
  destruct (logical s !! _) as [old|] eqn:El.
  - specialize (Hv old eq_refl). case_if; [intros [= <- _ <-]; auto|].
    case_if; [done|]. intros [= <- _ <-]. unfold strictClaudePrefix in *. zprop.
    right. eexists. split; [done|]. split; [|simpl; by apply prefix_app].
    unfold record_valid in *. simpl in *. unfold hashClaudeStrings. rewrite !Hd, Eb. rewrite !Hne in *. simpl in *.
    apply andb_true_iff in Hv as [Hv _]. rewrite negb_true_iff, !orb_false_iff in Hv.
    by destruct Hv as ((_ & ->) & ->).
  - case_if; [done|]. intros [= <- _ <-]. right. eexists. split; [done|]. split; [|done].
    unfold record_valid, hashClaudeStrings. simpl. rewrite !Hd, Eb, Hne. simpl. by rewrite Hif.
Qed.

(** An accepted proposal: the cursor was where the record starts, and the state
    proposed. *)
Lemma propose_inr s r p : propose s r = inr p ->
  exists i c,
    cursor_at (rt_SegmentStableKey r) (cs_CursorVector s) = Some (i, c) /\
    ValidateClaudeSourceState s = None /\
    cc_RawByteEnd c = rt_RawByteStart r /\ 0 <= rt_RawByteStart r < rt_RawByteEnd r /\
    rt_SourceGeneration r = cs_SourceGeneration s /\ rt_SegmentStableKey r <> "" /\
    BaseGeneration p = cs_SourceGeneration s /\ BaseSourceStateRev p = cs_SourceStateRev s /\
    transition_body sha256hex recode_json marshal_strings r (advanced i r s)
      = inr (Next p, Result p, NewBlockOccurrenceIDs p).
Proof.
  unfold ProposeClaudeSourceTransition. destruct (ValidateClaudeSourceState s); [done|]. case_if; [done|].
  destruct (cursor_at _ _) as [[i c]|]; [|done]. case_if; [done|].
  destruct (transition_body _ _ _ _ _) as [|[[next result] ids]] eqn:E; [done|]. intros [= <-].
  zprop. exists i, c.
  assert (rt_SegmentStableKey r <> "") by (by apply unset_false). repeat split; try done; lia.
Qed.

(** ** The invariant holds in every run *)

Definition grown (o : option (string * ClaudeGraphOccurrence)) (s : ClaudeSourceState)
  : gmap string (list ClaudeGraphOccurrence) :=
  match o with None => graph s | Some (u, x) => <[u := occurrences u s ++ [x]]> (graph s) end.

Lemma grown_occurrences o s s' u x :
  graph s' = grown o s -> x ∈ occurrences u s' -> x ∈ occurrences u s \/ o = Some (u, x).
Proof.
  unfold occurrences at 1. intros ->. destruct o as [[v y]|]; simpl; [|by left].
  destruct (decide (u = v)) as [->|Hne].
  - rewrite lookup_insert_eq. simpl. rewrite elem_of_app, list_elem_of_singleton. intros [?|Hx]; [auto|subst; auto].
  - rewrite lookup_insert_ne by done. by left.
Qed.

Lemma cursor_at_Some key l i c :
  cursor_at key l = Some (i, c) -> l !! i = Some c /\ cc_SegmentStableKey c = key.
Proof. intros H. apply list_find_Some in H as (? & ? & _). done. Qed.

Lemma cursors_advance n i l c : l !! i = Some c -> cc_RawByteEnd c <= n -> 0 <= n ->
  map cc_SegmentStableKey (alter (set_end n) i l) = map cc_SegmentStableKey l /\
  (forallb cursor_valid l = true -> forallb cursor_valid (alter (set_end n) i l) = true) /\
  (forall d, d ∈ l -> exists d', d' ∈ alter (set_end n) i l /\ cc_SegmentStableKey d' = cc_SegmentStableKey d /\
    cc_RawByteEnd d <= cc_RawByteEnd d').
Proof.
  revert i. induction l as [|x l IH]; intros [|i] Hi Hn Hz; try done; simpl in *.
  - injection Hi as ->. split; [done|]. split.
    + intros Hv. apply andb_true_iff in Hv as [Hv ->]. rewrite andb_true_r. unfold cursor_valid in *. simpl.
      rewrite negb_true_iff, !orb_false_iff in *. destruct Hv as [Hv _]. split; [done|]. by apply Z.ltb_ge.
    + intros d [->|Hd]%elem_of_cons; [exists (set_end n c)|exists d]; (split; [|by auto with lia]); [by left|by right].
  - destruct (IH i Hi Hn Hz) as (H1 & H2 & H3). split; [by f_equal|]. split.
    + intros [-> Hv]%andb_true_iff. by apply H2.
    + intros d [->|Hd]%elem_of_cons; [exists x; split; [by left|by auto with lia]|].
      destruct (H3 d Hd) as (d' & Hin & ?). exists d'. split; [by right|done].
Qed.

(** A step that moves one cursor to [n] and takes at most one occurrence there. *)
Record ledger_step (key : string) (c : ClaudeSourceCursor) (n : Z) (o : option (string * ClaudeGraphOccurrence))
    (s s' : ClaudeSourceState) : Prop := {
  ls_forward : cc_RawByteEnd c <= n /\ 0 <= n;
  ls_schema : cs_SchemaVersion s' = cs_SchemaVersion s;
  ls_generation : cs_SourceGeneration s' = cs_SourceGeneration s;
  ls_rev : cs_SourceStateRev s' = cs_SourceStateRev s + 1;
  ls_cursor : exists i, cursor_at key (cs_CursorVector s) = Some (i, c) /\
    cs_CursorVector s' = alter (set_end n) i (cs_CursorVector s);
  ls_graph : cs_GraphNodes s' = Some (grown o s);
  ls_logical : cs_LogicalRecords s' = Some (logical s');
  ls_records : forall uuid r, logical s' !! uuid = Some r -> record_valid (uuid, r) = true;
  ls_taken : match o with
    | None => True
    | Some (u, x) => u <> "" /\ occurrence_fine (cs_SourceGeneration s) x /\
        go_SourceStateRev x = cs_SourceStateRev s + 1 /\ go_SegmentStableKey x = key /\
        cc_RawByteEnd c <= go_RawByteStart x /\ go_RawByteEnd x = n
    end
}.

Lemma step_graph key c n o s s' : ledger_step key c n o s s' -> graph s' = grown o s.
Proof. intros H. unfold graph. by rewrite (ls_graph _ _ _ _ _ _ H). Qed.

Lemma step_valid key c n o s s' :
  ledger_ok s -> ledger_step key c n o s s' -> ValidateClaudeSourceState s' = None.
Proof.
  intros Hok H. pose proof (lo_valid _ Hok) as Hv. apply valid_iff in Hv as (V1 & V2 & V3 & V4 & V5 & V6 & V7).
  pose proof (step_graph _ _ _ _ _ _ H) as Hg. destruct H as [[H1 H1'] H2 H3 H4 (i & Hi & H5) H6 H7 H8 H9].
  apply cursor_at_Some in Hi as [Hi _]. destruct (cursors_advance n i _ c Hi H1 H1') as (_ & Hc & _).
  apply valid_iff. rewrite H2, H3, H5, Hg. repeat split; try done; [by apply Hc|].
  intros uuid l Hl. destruct o as [[u x]|]; [|by apply V6]. simpl in Hl. destruct H9 as (Hu & Hx & Hr & _).
  destruct (decide (uuid = u)) as [->|Hne]; [|rewrite lookup_insert_ne in Hl by done; by apply V6].
  rewrite lookup_insert_eq in Hl. injection Hl as <-. unfold node_valid. cbn [fst snd].
  apply unset_false in Hu. rewrite Hu. simpl. unfold occurrences. destruct (graph s !! u) as [l0|] eqn:E; simpl.
  - pose proof (V6 u l0 E) as Hn. unfold node_valid in Hn. cbn [fst snd] in Hn. apply andb_true_iff in Hn as [_ Hn].
    apply occurrences_valid_app; try done. apply Forall_forall. intros y Hy.
    pose proof (lo_revs _ Hok u y) as Hle. unfold occurrences in Hle. rewrite E in Hle. specialize (Hle Hy). lia.
  - by apply (occurrences_valid_app _ x [] None).
Qed.

Lemma step_ok key c n o s s' : ledger_ok s -> ledger_step key c n o s s' -> ledger_ok s'.
Proof.
  intros Hok H. pose proof (step_valid _ _ _ _ _ _ Hok H) as Hv. pose proof (step_graph _ _ _ _ _ _ H) as Hg.
  destruct H as [[H1 H1'] _ _ H4 (i & Hi & H5) _ _ _ H9]. apply cursor_at_Some in Hi as [Hi Hkey].
  destruct (cursors_advance n i _ c Hi H1 H1') as (Hids & _ & Hadv). destruct Hok as [_ O1 O2 O3 O4 O5 O6].
  assert (forall u x, x ∈ occurrences u s' -> x ∈ occurrences u s \/ o = Some (u, x)) as Hocc
    by (intros u x Hx; by eapply grown_occurrences).
  assert (forall u x, x ∈ occurrences u s -> go_SegmentStableKey x = key -> go_RawByteEnd x <= cc_RawByteEnd c) as Hbelow.
  { intros u x Hx Hk. destruct (O4 u x Hx) as (d & Hd & Hdk & Hle). replace d with c in Hle; [done|].
    apply list_elem_of_lookup in Hd as [j Hj].
    assert (j = i) as ->; [|congruence]. apply (NoDup_lookup _ _ _ key O2).
    - change (map cc_SegmentStableKey) with (fmap (M:=list) cc_SegmentStableKey). rewrite list_lookup_fmap, Hj. simpl. congruence.
    - change (map cc_SegmentStableKey) with (fmap (M:=list) cc_SegmentStableKey). rewrite list_lookup_fmap, Hi. simpl. congruence. }
  split; [done|lia|by rewrite H5, Hids|..]; rewrite ?H4.
  - intros u x [Hx| ->]%Hocc; [specialize (O3 u x Hx); lia|]. destruct H9 as (_ & _ & -> & _). lia.
  - intros u x [Hx| ->]%Hocc.
    + destruct (O4 u x Hx) as (d & Hd & Hdk & Hle). destruct (Hadv d Hd) as (d' & Hd' & Hk' & Hle'). exists d'.
      rewrite H5. split; [done|]. split; [congruence|lia].
    + destruct H9 as (_ & _ & _ & Hk & _ & He). exists (set_end n c). rewrite H5. split; [|split; [simpl; congruence|simpl; lia]].
      apply list_elem_of_lookup. exists i. rewrite list_lookup_alter_eq, Hi. done.
  - intros u1 u2 o1 o2 [Hx1| ->]%Hocc [Hx2|E2]%Hocc Hk Hr; [by eapply O5| | |].
    + subst o. destruct H9 as (_ & _ & _ & Hk2 & Hs & _). specialize (Hbelow u1 o1 Hx1 ltac:(congruence)). lia.
    + destruct H9 as (_ & _ & Hr1 & _). specialize (O3 u2 o2 Hx2). lia.
    + injection E2 as -> ->. lia.
  - intros u1 u2 o1 o2 [Hx1| ->]%Hocc [Hx2|E2]%Hocc Hr; [by eapply O6| | |].
    + subst o. destruct H9 as (_ & _ & Hr2 & _). specialize (O3 u1 o1 Hx1). lia.
    + destruct H9 as (_ & _ & Hr1 & _). specialize (O3 u2 o2 Hx2). lia.
    + by injection E2 as -> ->.
Qed.

Definition taken_occurrence (r : ClaudeSourceRecordTransition) (s : ClaudeSourceState)
  : option (string * ClaudeGraphOccurrence) :=
  if unset (rt_LogicalRecordUUID r) then None
  else Some (rt_LogicalRecordUUID r, occurrence_of (cs_SourceStateRev s + 1) r).

Lemma nil_if {A : Type} (P : Prop) `{!Decision P} (l : list A) : l = l ++ if decide P then [] else [].
Proof. case_decide; by rewrite app_nil_r. Qed.

(** The state a transition proposes: what the body does to the copy whose cursor
    moved. *)
Lemma body_inr r s s' result ids :
  cs_LogicalRecords s = Some (logical s) -> cs_GraphNodes s = Some (graph s) ->
  (forall uuid rec, logical s !! uuid = Some rec -> record_valid (uuid, rec) = true) ->
  transition_body sha256hex recode_json marshal_strings r s = inr (s', result, ids) ->
  cs_SchemaVersion s' = cs_SchemaVersion s /\ cs_SourceGeneration s' = cs_SourceGeneration s /\
  cs_SourceStateRev s' = cs_SourceStateRev s /\ cs_CursorVector s' = cs_CursorVector s /\
  cs_GraphNodes s' = Some (if unset (rt_LogicalRecordUUID r) then graph s
    else <[rt_LogicalRecordUUID r := occurrences (rt_LogicalRecordUUID r) s
             ++ [occurrence_of (cs_SourceStateRev s) r]]> (graph s)) /\
  cs_LogicalRecords s' = Some (logical s') /\
  (forall uuid rec, logical s' !! uuid = Some rec -> record_valid (uuid, rec) = true) /\
  (forall uuid, blocks_of uuid s' = blocks_of uuid s ++ if decide (rt_LogicalRecordUUID r = uuid) then ids else []).
Proof.
  intros HL HG HR. unfold transition_body. destruct (unset (rt_LogicalRecordUUID r)) eqn:Eu.
  - case_if; [done|]. case_if; [done|]. intros [= <- _ <-]. repeat split; try done. intros uuid. apply nil_if.
  - cbv zeta. case_if; [intros [= <- _ <-]; repeat split; try done; intros uuid; apply nil_if|].
    intros H. apply record_content_inr in H as [[-> ->]|(rec & -> & Hv & Hb)].
    + repeat split; try done. intros uuid. apply nil_if.
    + repeat split; try done.
      * intros uuid r'. unfold logical at 1. simpl. destruct (decide (rt_LogicalRecordUUID r = uuid)) as [<-|Hne].
        -- rewrite lookup_insert_eq. by intros [= <-].
        -- rewrite lookup_insert_ne by done. apply HR.
      * intros uuid. unfold blocks_of at 1, logical at 1. simpl. case_decide as Hd.
        -- subst uuid. rewrite lookup_insert_eq. simpl. exact Hb.
        -- rewrite lookup_insert_ne by done. by rewrite app_nil_r.
    + by apply unset_false.
    + apply HR.
Qed.

Lemma take_step r s p :
  ledger_ok s -> cs_SourceStateRev s + 1 < u64_limit -> propose s r = inr p ->
  CommitClaudeSourceTransition s p = inr (Next p) /\
  (exists c, cc_RawByteEnd c = rt_RawByteStart r /\
    ledger_step (rt_SegmentStableKey r) c (rt_RawByteEnd r) (taken_occurrence r s) s (Next p)) /\
  (forall uuid, blocks_of uuid (Next p) =
     blocks_of uuid s ++ if decide (rt_LogicalRecordUUID r = uuid) then NewBlockOccurrenceIDs p else []).
Proof.
  intros Hok Hlim H. pose proof (lo_rev _ Hok) as Hrev. pose proof (lo_valid _ Hok) as Hv.
  apply valid_iff in Hv as (_ & _ & V3 & V4 & _ & _ & V7).
  apply propose_inr in H as (i & c & Hi & _ & He & Hr & Hg & Hk & Hbg & Hbr & Hbody).
  apply body_inr in Hbody as (B1 & B2 & B3 & B4 & B5 & B6 & B7 & B8); [|done..].
  assert (wrap_u64 (cs_SourceStateRev s + 1) = cs_SourceStateRev s + 1) as Hw.
  { unfold wrap_u64, u64_limit in *. apply Z.mod_small. lia. }
  split; [|split; [|done]].
  - unfold CommitClaudeSourceTransition. rewrite Hbg, Hbr, bool_decide_eq_true_2, Z.eqb_refl by done. done.
  - exists c. split; [done|]. split; try done; [lia|by rewrite B3|eauto|..]; unfold taken_occurrence.
    + rewrite B5. simpl. rewrite Hw. by destruct (unset _).
    + destruct (unset (rt_LogicalRecordUUID r)) eqn:Eu; [done|]. apply unset_false in Eu. repeat split; try done; simpl; lia.
Qed.

Lemma acknowledge_step key generation n s s' :
  ledger_ok s -> cs_SourceStateRev s + 1 < u64_limit -> acknowledge key generation n s = inr s' ->
  s' = s \/ exists c, ledger_step key c n None s s' /\ logical s' = logical s.
Proof.
  intros Hok Hlim. pose proof (lo_rev _ Hok) as Hrev. pose proof (lo_valid _ Hok) as Hv.
  apply valid_iff in Hv as (_ & _ & V3 & V4 & _ & _ & V7). unfold acknowledge.
  case_if; [done|].
  destruct (cursor_at _ _) as [[i c]|] eqn:Ec; [|done]. case_if; [done|]. case_if; intros [= <-]; [by left|right].
  exists c. split; [|done]. zprop. split; simpl; try done; [lia| |eauto].
  unfold wrap_u64, u64_limit in *. apply Z.mod_small. lia.
Qed.

(** The cursors of [s'] are at those of [s] or past them. *)
Definition forward (s s' : ClaudeSourceState) : Prop :=
  forall c, c ∈ cs_CursorVector s -> exists c', c' ∈ cs_CursorVector s' /\
    cc_SegmentStableKey c' = cc_SegmentStableKey c /\ cc_RawByteEnd c <= cc_RawByteEnd c'.

Lemma forward_refl s : forward s s.
Proof. intros c Hc. exists c. auto with lia. Qed.

Lemma forward_trans s1 s2 s3 : forward s1 s2 -> forward s2 s3 -> forward s1 s3.
Proof.
  intros H1 H2 c Hc. destruct (H1 c Hc) as (c2 & Hc2 & ? & ?). destruct (H2 c2 Hc2) as (c3 & ? & ? & ?).
  exists c3. split; [done|]. split; [congruence|lia].
Qed.

Lemma step_forward key c n o s s' : ledger_step key c n o s s' -> forward s s'.
Proof.
  intros [[H1 H2] _ _ _ (i & Hi & H5) _ _ _ _]. apply cursor_at_Some in Hi as [Hi _].
  destruct (cursors_advance n i _ c Hi H1 H2) as (_ & _ & H). unfold forward. by rewrite H5.
Qed.

Lemma handed_app uuid l1 l2 : handed uuid (l1 ++ l2) = handed uuid l1 ++ handed uuid l2.
Proof. unfold handed. by rewrite filter_app, map_app, concat_app. Qed.

Lemma ledger_exec_ok op s :
  ledger_ok s -> cs_SourceStateRev s + 1 < u64_limit ->
  let '(out, s') := exec_ledger op s in
  ledger_ok s' /\ cs_SourceStateRev s' <= cs_SourceStateRev s + 1 /\ forward s s' /\
  forall uuid, blocks_of uuid s' = blocks_of uuid s ++ handed uuid out.
Proof.
  intros Hok Hlim. assert (forall x, x = x ++ handed "" []) as Hnil by (intros; by rewrite app_nil_r).
  assert (ledger_ok s /\ cs_SourceStateRev s <= cs_SourceStateRev s + 1 /\ forward s s /\
    forall uuid, blocks_of uuid s = blocks_of uuid s ++ handed uuid []) as Hsame.
  { split; [done|]. split; [lia|]. split; [apply forward_refl|]. intros uuid. apply Hnil. }
  destruct op as [r|key generation n]; simpl.
  - destruct (propose s r) as [|p] eqn:Ep; [done|]. destruct (take_step r s p Hok Hlim Ep) as (-> & (c & _ & H) & Hb).
    split; [by eapply step_ok|]. split; [rewrite (ls_rev _ _ _ _ _ _ H); lia|]. split; [by eapply step_forward|].
    intros uuid. rewrite Hb. f_equal. unfold handed. rewrite filter_cons. simpl.
    repeat case_decide; simpl; by rewrite ?app_nil_r.
  - destruct (acknowledge key generation n s) as [|s'] eqn:Ea; [done|].
    apply acknowledge_step in Ea as [->|(c & H & Hl)]; [done| |done..].
    split; [by eapply step_ok|]. split; [rewrite (ls_rev _ _ _ _ _ _ H); lia|]. split; [by eapply step_forward|].
    intros uuid. unfold blocks_of. rewrite Hl. apply Hnil.
Qed.

Lemma ledger_run_ok ops s :
  ledger_ok s -> cs_SourceStateRev s + zlen ops < u64_limit ->
  let '(out, s') := run_ledger ops s in
  ledger_ok s' /\ cs_SourceStateRev s' <= cs_SourceStateRev s + zlen ops /\ forward s s' /\
  forall uuid, blocks_of uuid s' = blocks_of uuid s ++ handed uuid out.
Proof.
  revert s. induction ops as [|op ops IH]; intros s Hok Hlim; simpl.
  - split; [done|]. split; [lia|]. split; [apply forward_refl|]. intros uuid. by rewrite app_nil_r.
  - simpl in Hlim. pose proof (ledger_exec_ok op s Hok ltac:(lia)) as He. destruct (exec_ledger op s) as [out s1].
    destruct He as (H1 & H2 & H3 & H4). specialize (IH s1 H1 ltac:(lia)). destruct (run_ledger ops s1) as [out' s2].
    destruct IH as (I1 & I2 & I3 & I4). split; [done|]. split; [lia|]. split; [by eapply forward_trans|].
    intros uuid. by rewrite I4, H4, handed_app, app_assoc.
Qed.

Lemma initial_ok key generation cut s :
  newInitialClaudeSourceState sha256hex key generation cut = inr s ->
  ledger_ok s /\ cs_SourceStateRev s = 0 /\ (forall uuid, blocks_of uuid s = []) /\
  cs_CursorVector s <> [] /\ forall c, c ∈ cs_CursorVector s -> cc_SegmentStableKey c = key /\ cc_RawByteEnd c = cut.
Proof.
  unfold newInitialClaudeSourceState. case_if; [done|]. intros [= <-]. zprop.
  assert (forall uuid o s, graph s = ∅ -> o ∈ occurrences uuid s -> False) as Hno.
  { intros uuid o s Hs. unfold occurrences. rewrite Hs, lookup_empty. apply not_elem_of_nil. }
  split; [|split; [done|split; [done|split; [done|]]]].
  - split; try done; try (intros; exfalso; match goal with H : _ ∈ occurrences _ _ |- _ => by refine (Hno _ _ _ _ H) end).
    + apply valid_iff. simpl. split; [done|]. split; [apply Hsha|]. split; [done|]. split; [done|].
      split; [|by split; intros ? ?; unfold graph, logical; simpl; rewrite lookup_empty].
      unfold cursor_valid. simpl. rewrite andb_true_r. apply negb_true_iff. rewrite !orb_false_iff.
      repeat split; try done; [by apply unset_false, Hsha|by apply Z.ltb_ge].
    + simpl. apply NoDup_singleton.
  - simpl. intros c [->|Hc]%elem_of_cons; [done|]. by apply not_elem_of_nil in Hc.
Qed.

(** A row that was taken is behind the cursor of its segment, so it cannot be
    taken again. *)
Lemma taken_is_behind r s c p :
  ledger_ok s -> c ∈ cs_CursorVector s -> cc_SegmentStableKey c = rt_SegmentStableKey r ->
  rt_RawByteStart r < cc_RawByteEnd c -> propose s r <> inr p.
Proof.
  intros Hok Hc Hk Hlt H. apply propose_inr in H as (i & d & Hi & _ & He & _). apply cursor_at_Some in Hi as [Hi Hd].
  assert (c = d); [|subst; lia]. apply list_elem_of_lookup in Hc as [j Hj].
  assert (j = i) as ->; [|congruence].
  apply (NoDup_lookup (cc_SegmentStableKey <$> cs_CursorVector s) _ _ (rt_SegmentStableKey r) (lo_keys _ Hok));
    rewrite list_lookup_fmap; [rewrite Hj|rewrite Hi]; simpl; congruence.
Qed.

(** C31. Each byte of a transcript is taken at most once. From the first ledger of a
    session, through any rows offered and ranges acknowledged, the ledger is one
    that validation accepts; the rows taken from a segment occupy disjoint ranges
    before its cursor; and a row that was taken is refused whenever it comes back. *)
Theorem bytes_once key generation cut s0 ops :
  newInitialClaudeSourceState sha256hex key generation cut = inr s0 -> zlen ops < u64_limit ->
  let s := snd (run_ledger ops s0) in
  ValidateClaudeSourceState s = None /\
  (forall u1 u2 o1 o2, o1 ∈ occurrences u1 s -> o2 ∈ occurrences u2 s ->
     go_SegmentStableKey o1 = go_SegmentStableKey o2 ->
     u1 = u2 /\ o1 = o2 \/ go_RawByteEnd o1 <= go_RawByteStart o2 \/ go_RawByteEnd o2 <= go_RawByteStart o1) /\
  (forall uuid o, o ∈ occurrences uuid s -> exists c, c ∈ cs_CursorVector s /\
     cc_SegmentStableKey c = go_SegmentStableKey o /\ go_RawByteEnd o <= cc_RawByteEnd c) /\
  (forall r p later p', zlen ops + 1 + zlen later < u64_limit -> propose s r = inr p ->
     propose (snd (run_ledger later (Next p))) r <> inr p').
Proof.
  intros Hi Hlim s. destruct (initial_ok _ _ _ _ Hi) as (Hok0 & Hr0 & _).
  pose proof (ledger_run_ok ops s0 Hok0) as Hrun. rewrite Hr0 in Hrun. specialize (Hrun ltac:(lia)).
  subst s. destruct (run_ledger ops s0) as [out s]. destruct Hrun as (Hok & Hr & _). cbn [snd] in *.
  split; [apply Hok|]. split; [|split; [apply (lo_within _ Hok)|]].
  - intros u1 u2 o1 o2 H1 H2 Hk.
    destruct (Z.lt_trichotomy (go_SourceStateRev o1) (go_SourceStateRev o2)) as [Hc|[Hc|Hc]].
    + right. left. by eapply (lo_order _ Hok).
    + left. by eapply (lo_single _ Hok).
    + right. right. symmetry in Hk. by eapply (lo_order _ Hok).
  - intros r p later p' Hl Hp. destruct (take_step r s p Hok ltac:(lia) Hp) as (_ & (c & Hc & Hs) & _).
    pose proof (step_ok _ _ _ _ _ _ Hok Hs) as Hok1. pose proof (ls_rev _ _ _ _ _ _ Hs) as Hr1.
    pose proof (ledger_run_ok later (Next p) Hok1 ltac:(lia)) as Hrun. destruct (run_ledger later (Next p)) as [out2 s2].
    destruct Hrun as (Hok2 & _ & Hf & _). cbn [snd].
    destruct (ls_cursor _ _ _ _ _ _ Hs) as (i & Hi2 & Hv). apply cursor_at_Some in Hi2 as [Hi2 Hk].
    destruct (Hf (set_end (rt_RawByteEnd r) c)) as (c' & Hin & Hk' & Hle).
    { rewrite Hv. apply list_elem_of_lookup. exists i. by rewrite list_lookup_alter_eq, Hi2. }
    apply propose_inr in Hp as (? & ? & _ & _ & _ & Hrange & _). simpl in *.
    apply (taken_is_behind r s2 c'); [done|done|congruence|lia].
Qed.

(** Each content block is handed to the projection exactly once. Claude writes a
    record again each time it has more content; whatever is taken, refused or
    acknowledged, the blocks handed over for a record are, in order, the blocks the
    ledger holds for it. *)
Theorem blocks_once key generation cut s0 ops :
  newInitialClaudeSourceState sha256hex key generation cut = inr s0 -> zlen ops < u64_limit ->
  let '(out, s) := run_ledger ops s0 in
  forall uuid, handed uuid out = default [] (lr_BlockOccurrenceIDs <$> logical s !! uuid).
Proof.
  intros Hi Hlim. destruct (initial_ok _ _ _ _ Hi) as (Hok0 & Hr0 & Hb0 & _).
  pose proof (ledger_run_ok ops s0 Hok0) as Hrun. rewrite Hr0 in Hrun. specialize (Hrun ltac:(lia)).
  destruct (run_ledger ops s0) as [out s]. destruct Hrun as (_ & _ & _ & Hb). intros uuid.
  pose proof (Hb uuid) as E. by rewrite Hb0 in E.
Qed.
End Digest.
End Runs.

(** ** A sample transcript *)

(** Stand-ins for the digest and the two encodings. *)
Definition sample_sha (s : string) : string := "#" +:+ s.
Definition sample_recode (s : string) : option string := Some s.
Definition sample_marshal (l : list string) : string := String.concat "," l.

Lemma sample_sha_set s : sample_sha s <> "".
Proof. done. Qed.

(** A row of record [uuid] at bytes [from, to) with the given blocks. *)
Definition sample_row (uuid : string) (from to : Z) (blocks : list string) : ClaudeSourceRecordTransition :=
  mkRecordTransition uuid "" "assistant" "t1" "seg" "gen" (sample_sha (nul_key "claude-source-generation" "seg"))
    from to blocks "" (mkContribution "t1" "p1") "".

(** A record is written, its bytes up to the next row are acknowledged, then it is
    written again with one more block, and that row is offered twice. *)
Definition sample_rows : list ledger_op :=
  [LTake (sample_row "u" 100 150 ["a"]); LAcknowledge "seg" "gen" 160; LTake (sample_row "u" 160 230 ["a"; "b"]);
   LTake (sample_row "u" 160 230 ["a"; "b"])].

Definition sample_ledger : ClaudeSourceState :=
  match newInitialClaudeSourceState sample_sha "seg" "gen" 100 with
  | inr s => s
  | inl _ => mkSourceState 0 "" 0 [] (mkParserFlags false) None None
  end.

Definition run_sample := run_ledger sample_sha sample_recode sample_marshal.

Lemma bytes_once_witness :
  let s := snd (run_sample sample_rows sample_ledger) in
  length (occurrences "u" s) = 2%nat /\ ValidateClaudeSourceState s = None.
Proof.
  split; [vm_compute; reflexivity|].
  refine (proj1 (bytes_once sample_sha sample_recode sample_marshal sample_sha_set "seg" "gen" 100 sample_ledger
    sample_rows _ _)); reflexivity.
Defined.

Lemma blocks_once_witness :
  let '(out, s) := run_sample sample_rows sample_ledger in
  length out = 2%nat /\ length (handed "u" out) = 2%nat /\
  handed "u" out = default [] (lr_BlockOccurrenceIDs <$> logical s !! "u").
Proof.
  assert (length (fst (run_sample sample_rows sample_ledger)) = 2%nat /\
    length (handed "u" (fst (run_sample sample_rows sample_ledger))) = 2%nat) as Hl
    by (split; vm_compute; reflexivity).
  assert (newInitialClaudeSourceState sample_sha "seg" "gen" 100 = inr sample_ledger) as Hi by reflexivity.
  pose proof (blocks_once sample_sha sample_recode sample_marshal sample_sha_set "seg" "gen" 100 sample_ledger
    sample_rows Hi ltac:(reflexivity)) as H.
  revert H Hl. unfold run_sample. generalize (run_ledger sample_sha sample_recode sample_marshal sample_rows sample_ledger).
  intros [out s] H [H1 H2]. split; [exact H1|]. split; [exact H2|]. apply H.
Defined.
