(* ===== verification/Checkpoint.v ===== *)
(** * Projection checkpoints (go-bridge/projection_kernel.go, the checkpoint store)

    What the kernel keeps on disk of a session's projection: its data, what makes a
    checkpoint valid for a source, and the store that writes it next to itself and
    renames it. The disk is a map from paths to files or to the error reading one
    gives. SHA-256 in hexadecimal and the JSON encodings are parameters; an instant
    is in nanoseconds, zero for the zero [time.Time]. The contents of the temporary
    file while it is written are not kept apart. *)

From S2P Require Import Prelude.
From S2P Require Import Projection.
From S2P Require Import ProjectionFields.
From S2P Require Import ReducerParts.
From S2P Require Import Reducer.
From S2P Require Import ReducerPatch.
From S2P Require Import TurnDetail.
From S2P Require Import SourceLedger.

(** ** Data *)

Definition projectionCheckpointSchemaVersion : Z := 13.

Definition ProjectionHydrateAbsent : string := "absent".
Definition ProjectionHydrateHydrating : string := "hydrating".
Definition ProjectionHydrateReady : string := "ready".
Definition ProjectionHydrateFailed : string := "failed".

Record ProjectionSourceSegment : Type := mkSegment {
  sg_Identity : string; sg_Path : string; sg_Cursor : Z
}.

Record ProjectionSourceDescriptor : Type := mkSource {
  sd_Identity : string;
  sd_Path : string;
  sd_Cursor : Z;
  sd_Segments : list ProjectionSourceSegment
}.

Record ProjectionSourceCheckpoint : Type := mkSourceCheckpoint {
  sk_Identity : string;
  sk_Cursor : Z;
  sk_PrefixSHA256 : string;
  sk_ObservedSize : Z;
  sk_ObservedMTimeN : Z
}.
Definition no_source : ProjectionSourceCheckpoint := mkSourceCheckpoint "" 0 "" 0 0.

Record CodexProducerState : Type := mkProducerState {
  HasOlderUpstream : bool;
  UpstreamNextCursor : string;
  BoundaryTurnID : string;
  HistoryMode : string;
  ps_UpdatedAt : Z
}.

Record ProjectionCheckpoint : Type := mkCheckpoint {
  cp_SchemaVersion : Z;
  cp_BackendID : string;
  cp_SessionID : string;
  cp_Source : ProjectionSourceCheckpoint;
  cp_Sources : list ProjectionSourceCheckpoint;
  cp_Projection : SessionProjection;
  cp_ProjectionRev : Z;
  cp_HydrateState : string;
  cp_UpdatedAt : Z;
  cp_ClaudeSourceState : option ClaudeSourceState;
  cp_CodexProducerState : option CodexProducerState
}.

(** [os.ErrNotExist], [ErrProjectionCheckpointInvalid], [ErrProjectionCheckpointDisabled],
    any other error. *)
Inductive StoreError : Type := ENotExist | EInvalid | EDisabled | EOther.

Definition set_cp_Projection (p : SessionProjection) (c : ProjectionCheckpoint) : ProjectionCheckpoint :=
  mkCheckpoint (cp_SchemaVersion c) (cp_BackendID c) (cp_SessionID c) (cp_Source c) (cp_Sources c) p
    (cp_ProjectionRev c) (cp_HydrateState c) (cp_UpdatedAt c) (cp_ClaudeSourceState c) (cp_CodexProducerState c).

Definition NewReadyProjectionCheckpoint (backendID sessionID : string) (source : ProjectionSourceCheckpoint)
    (projection : SessionProjection) (now : Z) : ProjectionCheckpoint :=
  let projection := cloneSessionProjection projection in
  mkCheckpoint projectionCheckpointSchemaVersion backendID sessionID source [] projection (sp_SyncRev projection)
    ProjectionHydrateReady now None None.

Definition NewReadyCompositeProjectionCheckpoint (backendID sessionID : string)
    (sources : list ProjectionSourceCheckpoint) (projection : SessionProjection) (now : Z) : ProjectionCheckpoint :=
  let projection := cloneSessionProjection projection in
  mkCheckpoint projectionCheckpointSchemaVersion backendID sessionID no_source sources projection
    (sp_SyncRev projection) ProjectionHydrateReady now None None.

(** ** Validation *)

Definition ValidateCodexProducerState (s : CodexProducerState) : bool :=
  negb (HasOlderUpstream s) || negb (unset (BoundaryTurnID s)).

(** The loop body of [validateTurnDetailCheckpointFields]. *)
Definition detail_fields_valid (t : TurnProjection) : bool :=
  one_of_words [DetailStateNotRequested; DetailStateLoading; DetailStatePartial; DetailStateLoaded; DetailStateFailed]
    (tp_DetailLoadState t)
  && (if bool_decide (tp_DetailLoadState t = DetailStateFailed) then negb (unset (tp_DetailReasonCode t))
      else unset (tp_DetailReasonCode t))
  && negb (tp_DetailInline t && negb (bool_decide (tp_DetailLoadState t = DetailStateLoaded)))
  && negb ((tp_DetailManifestRev t <? 0) || (tp_DetailItemCount t <? 0) || (tp_DetailTotalBytes t <? 0))
  && negb (((tp_DetailItemCount t >? 0) || (tp_DetailTotalBytes t >? 0)) && (tp_DetailManifestRev t <=? 0)).

Definition validateTurnDetailCheckpointFields (l : list TurnProjection) : bool := forallb detail_fields_valid l.

Definition source_complete (s : ProjectionSourceCheckpoint) : bool :=
  negb (unset (sk_Identity s)) && (0 <=? sk_Cursor s) && negb (unset (sk_PrefixSHA256 s)).

Definition projectionCheckpointHasCompleteSource (c : ProjectionCheckpoint) : bool :=
  if bool_decide (cp_Sources c = []) then source_complete (cp_Source c) else forallb source_complete (cp_Sources c).

(** The first check of [LoadValidated]. *)
Definition identity_matches (backendID sessionID : string) (c : ProjectionCheckpoint) : bool :=
  (cp_SchemaVersion c =? projectionCheckpointSchemaVersion) && bool_decide (cp_BackendID c = backendID)
  && bool_decide (cp_SessionID c = sessionID) && bool_decide (sp_SessionID (cp_Projection c) = sessionID)
  && bool_decide (cp_HydrateState c = ProjectionHydrateReady) && (cp_ProjectionRev c =? sp_SyncRev (cp_Projection c)).

(** The checks that do not look at the source. *)
Definition contents_valid (c : ProjectionCheckpoint) : bool :=
  match cp_ClaudeSourceState c with Some s => is_nil_map (ValidateClaudeSourceState s) | None => true end
  && validateTurnDetailCheckpointFields (sp_Turns (cp_Projection c))
  && match cp_CodexProducerState c with Some s => ValidateCodexProducerState s | None => true end.

(** The check of [Save]. *)
Definition save_refused (c : ProjectionCheckpoint) : bool :=
  negb (cp_SchemaVersion c =? projectionCheckpointSchemaVersion)
  || negb (bool_decide (cp_HydrateState c = ProjectionHydrateReady))
  || negb (bool_decide (sp_SessionID (cp_Projection c) = cp_SessionID c))
  || negb (projectionCheckpointHasCompleteSource c)
  || negb (cp_ProjectionRev c =? sp_SyncRev (cp_Projection c)).

(** ** The disk *)

Record file : Type := mkFile { f_content : string; f_mtime : Z }.
Abbreviation disk := (gmap string (StoreError + file)).

Definition read_file (path : string) (d : disk) : StoreError + file := default (inl ENotExist) (d !! path).

Definition file_size (f : file) : Z := Z.of_nat (String.length (f_content f)).

(** [ProjectionCheckpointStore]: its directory, empty when there is none. *)
Record ProjectionCheckpointStore : Type := mkStore { baseDir : string }.

(** [filepath.Join] of a clean directory and a name. *)
Definition join (dir name : string) : string := dir +:+ "/" +:+ name.

Definition NewProjectionCheckpointStore (dataDir : string) : ProjectionCheckpointStore :=
  mkStore (if unset dataDir then "" else join (join dataDir "session-projection") "checkpoints").

Section Store.
Context (sha256hex : string -> string).
Context (encode : ProjectionCheckpoint -> string) (decode : string -> option ProjectionCheckpoint).

Definition projectionCheckpointFilename (backendID sessionID : string) : string :=
  sha256hex (nul_key backendID sessionID) +:+ ".json".

Definition checkpointPath (st : ProjectionCheckpointStore) (backendID sessionID : string) : StoreError + string :=
  if unset (baseDir st) then inl EDisabled
  else if unset backendID || unset sessionID then inl EInvalid
  else inr (join (baseDir st) (projectionCheckpointFilename backendID sessionID)).

Definition digestProjectionSourcePrefix (content : string) (cursor : Z) : StoreError + string :=
  if cursor <? 0 then inl EInvalid
  else if Z.of_nat (String.length content) <? cursor then inl EInvalid
  else inr (sha256hex (String.substring 0 (Z.to_nat cursor) content)).

Definition validateProjectionSourceCheckpoint (path : string) (c : ProjectionSourceCheckpoint) (d : disk)
  : option StoreError :=
  match read_file path d with
  | inl e => Some e
  | inr f =>
      if file_size f <? sk_Cursor c then Some EInvalid
      else
        match digestProjectionSourcePrefix (f_content f) (sk_Cursor c) with
        | inl e => Some e
        | inr digest => if bool_decide (digest = sk_PrefixSHA256 c) then None else Some EInvalid
        end
  end.

Definition BuildProjectionSourceCheckpoint (source : ProjectionSourceDescriptor) (d : disk)
  : StoreError + ProjectionSourceCheckpoint :=
  if unset (sd_Identity source) || unset (sd_Path source) || (sd_Cursor source <? 0) then inl EInvalid
  else
    match read_file (sd_Path source) d with
    | inl e => inl e
    | inr f =>
        if file_size f <? sd_Cursor source then inl EInvalid
        else
          match digestProjectionSourcePrefix (f_content f) (sd_Cursor source) with
          | inl e => inl e
          | inr digest =>
              inr (mkSourceCheckpoint (sd_Identity source) (sd_Cursor source) digest (file_size f) (f_mtime f))
          end
    end.

Definition buildProjectionSegmentCheckpoint (segment : ProjectionSourceSegment) (d : disk)
  : StoreError + ProjectionSourceCheckpoint :=
  BuildProjectionSourceCheckpoint (mkSource (sg_Identity segment) (sg_Path segment) (sg_Cursor segment) []) d.

Fixpoint build_segments (l : list ProjectionSourceSegment) (d : disk)
  : StoreError + list ProjectionSourceCheckpoint :=
  match l with
  | [] => inr []
  | s :: l =>
      match buildProjectionSegmentCheckpoint s d with
      | inl e => inl e
      | inr c => match build_segments l d with inl e => inl e | inr cs => inr (c :: cs) end
      end
  end.

Definition BuildProjectionSourceCheckpoints (source : ProjectionSourceDescriptor) (d : disk)
  : StoreError + list ProjectionSourceCheckpoint :=
  match sd_Segments source with
  | [] => match BuildProjectionSourceCheckpoint source d with inl e => inl e | inr c => inr [c] end
  | l => build_segments l d
  end.

(** ** Loading *)

(** The loop over the segments, each with its stored checkpoint. *)
Fixpoint segments_match (segments : list ProjectionSourceSegment) (stored : list ProjectionSourceCheckpoint) (d : disk)
  : option StoreError :=
  match segments, stored with
  | s :: segments, c :: stored =>
      if negb (bool_decide (sk_Identity c = sg_Identity s)) || negb (sk_Cursor c =? sg_Cursor s) then Some EInvalid
      else
        match validateProjectionSourceCheckpoint (sg_Path s) c d with
        | Some e => Some e
        | None => segments_match segments stored d
        end
  | _, _ => None
  end.

Definition source_matches (source : ProjectionSourceDescriptor) (c : ProjectionCheckpoint) (d : disk)
  : option StoreError :=
  if unset (sd_Identity source) then Some EInvalid
  else
    match sd_Segments source with
    | _ :: _ =>
        if negb (zlen (cp_Sources c) =? zlen (sd_Segments source)) then Some EInvalid
        else segments_match (sd_Segments source) (cp_Sources c) d
    | [] =>
        if negb (bool_decide (sk_Identity (cp_Source c) = sd_Identity source)) then Some EInvalid
        else if unset (sd_Path source) then Some EInvalid
        else validateProjectionSourceCheckpoint (sd_Path source) (cp_Source c) d
    end.

Definition LoadValidated (st : ProjectionCheckpointStore) (backendID sessionID : string)
    (source : ProjectionSourceDescriptor) (d : disk) : StoreError + ProjectionCheckpoint :=
  match checkpointPath st backendID sessionID with
  | inl e => inl e
  | inr path =>
      match read_file path d with
      | inl e => inl e
      | inr f =>
          match decode (f_content f) with
          | None => inl EInvalid
          | Some c =>
              if negb (identity_matches backendID sessionID c) then inl EInvalid
              else if negb (contents_valid c) then inl EInvalid
              else
                match source_matches source c d with
                | Some e => inl e
                | None => inr (set_cp_Projection (cloneSessionProjection (cp_Projection c)) c)
                end
          end
      end
  end.

(** ** Saving *)

(** Where a save can fail. *)
Inductive save_fault : Type :=
  FMkdir | FCreateTemp | FChmod | FWrite | FSync | FClose | FBeforeRename | FRename | FOpenDir | FSyncDir.

Definition step_number (f : save_fault) : Z :=
  match f with
  | FMkdir => 1 | FCreateTemp => 2 | FChmod => 3 | FWrite => 4 | FSync => 5 | FClose => 6 | FBeforeRename => 7
  | FRename => 8 | FOpenDir => 9 | FSyncDir => 10
  end.
Definition fails (fault : option save_fault) (f : save_fault) : bool :=
  match fault with Some g => step_number g =? step_number f | None => false end.

(** [os.Rename] *)
Definition rename (from to : string) (d : disk) : disk :=
  match d !! from with Some f => <[to := f]> (delete from d) | None => d end.
Arguments rename : simpl never.

(** The calls of [Save] after the checks, each with what it does to the disk. *)
Definition save_steps (path tmp raw : string) (now : Z) : list (save_fault * (disk -> disk)) :=
  [(FMkdir, fun d => d); (FCreateTemp, <[tmp := inr (mkFile "" now)]>); (FChmod, fun d => d);
   (FWrite, <[tmp := inr (mkFile raw now)]>); (FSync, fun d => d); (FClose, fun d => d);
   (FBeforeRename, fun d => d); (FRename, rename tmp path); (FOpenDir, fun d => d); (FSyncDir, fun d => d)].

(** The calls up to the one that fails: the disks passed through, whether all were
    made, and whether the file was renamed ([keepTemp = false]). *)
Fixpoint run_steps (fault : option save_fault) (steps : list (save_fault * (disk -> disk))) (renamed : bool)
    (d : disk) : list disk * (bool * bool) :=
  match steps with
  | [] => ([d], (true, renamed))
  | (f, g) :: steps =>
      if fails fault f then ([d], (false, renamed))
      else
        let '(l, r) := run_steps fault steps (match f with FRename => true | _ => renamed end) (g d) in (d :: l, r)
  end.

(** [Save]: [fault] is the call that fails, [tmp] the name [os.CreateTemp] chose.
    The disks it passes through, the last one the disk it leaves, and the error. *)
Definition Save (st : ProjectionCheckpointStore) (fault : option save_fault) (tmp : string) (now : Z)
    (c : ProjectionCheckpoint) (d : disk) : list disk * option StoreError :=
  match checkpointPath st (cp_BackendID c) (cp_SessionID c) with
  | inl e => ([d], Some e)
  | inr path =>
      if save_refused c then ([d], Some EInvalid)
      else if negb (match cp_ClaudeSourceState c with Some s => is_nil_map (ValidateClaudeSourceState s) | None => true end)
      then ([d], Some EInvalid)
      else
        let raw := encode (set_cp_Projection (cloneSessionProjection (cp_Projection c)) c) in
        let '(l, (all, renamed)) := run_steps fault (save_steps path tmp raw now) false d in
        (if renamed then l else l ++ [delete tmp (default d (last l))], if all then None else Some EOther)
  end.

Definition disk_after (r : list disk * option StoreError) (d : disk) : disk := default d (last (fst r)).
End Store.

(** ** The producer state of codex-remote *)

Definition producerStateSchema : Z := 1.

Section Producer.
Context (sha256hex : string -> string).
(** The envelope in JSON: the schema and the state, which may be missing. *)
Context (encode_producer : Z * CodexProducerState -> string)
  (decode_producer : string -> option (Z * option CodexProducerState)).

Definition producerStatePath (st : ProjectionCheckpointStore) (backendID sessionID : string) : StoreError + string :=
  match checkpointPath sha256hex st backendID sessionID with
  | inl e => inl e
  | inr path => inr (path +:+ ".producer.json")
  end.

Definition LoadCodexProducerState (st : ProjectionCheckpointStore) (backendID sessionID : string) (d : disk)
  : StoreError + option CodexProducerState :=
  match producerStatePath st backendID sessionID with
  | inl e => inl e
  | inr path =>
      match read_file path d with
      | inl ENotExist => inr None
      | inl e => inl e
      | inr f =>
          match decode_producer (f_content f) with
          | None => inl EInvalid
          | Some (schema, state) =>
              if negb (schema =? producerStateSchema) then inl EInvalid
              else
                match state with
                | None => inl EInvalid
                | Some s => if ValidateCodexProducerState s then inr (Some s) else inl EInvalid
                end
          end
      end
  end.

Definition SaveCodexProducerState (st : ProjectionCheckpointStore) (backendID sessionID : string) (now : Z)
    (s : CodexProducerState) (d : disk) : option StoreError * disk :=
  if negb (ValidateCodexProducerState s) then (Some EInvalid, d)
  else
    match producerStatePath st backendID sessionID with
    | inl e => (Some e, d)
    | inr path =>
        let temp := path +:+ ".tmp" in
        let d := <[temp := inr (mkFile (encode_producer (producerStateSchema, s)) now)]> d in
        (None, rename temp path d)
    end.
End Producer.

(** ** Copies *)

Lemma cloneSessionProjection_id s : cloneSessionProjection s = s.
Proof.
  unfold cloneSessionProjection.
  rewrite (map_id_Forall cloneTurn) by (apply Forall_forall; intros; apply cloneTurn_id).
  destruct s as [a b c d e f g h i [[[goal|]]|] k]; simpl; [|done|done].
  by destruct goal as [? ? ? [?|] ? ? ? ?].
Qed.

Lemma set_cp_Projection_id c : set_cp_Projection (cloneSessionProjection (cp_Projection c)) c = c.
Proof. rewrite cloneSessionProjection_id. by destruct c. Qed.

(** ** A save is atomic *)

Section Theorems.
Context (sha256hex : string -> string).
Context (encode : ProjectionCheckpoint -> string) (decode : string -> option ProjectionCheckpoint).

Abbreviation path_of := (checkpointPath sha256hex).

(** The fault, if any, comes after the rename. *)
Definition renames (fault : option save_fault) : bool :=
  match fault with None | Some FOpenDir | Some FSyncDir => true | Some _ => false end.

(** The disks a save can pass through. *)
Inductive save_disk (path tmp : string) (f : StoreError + file) (d : disk) : disk -> Prop :=
| Before : save_disk path tmp f d d
| Writing x : save_disk path tmp f d (<[tmp := x]> d)
| After : save_disk path tmp f d (<[path := f]> d).

Lemma run_save fault path tmp raw now d :
  tmp <> path -> d !! tmp = None ->
  let f := inr (mkFile raw now) in
  let '(l, (all, renamed)) := run_steps fault (save_steps path tmp raw now) false d in
  let l := if renamed then l else l ++ [delete tmp (default d (last l))] in
  Forall (save_disk path tmp f d) l /\
  last l = Some (if renames fault then <[path := f]> d else d) /\
  all = match fault with None => true | Some _ => false end.
Proof.
  intros Hne Hd f.
  assert (forall x y, <[tmp := x]> (<[tmp := y]> d) = <[tmp := x]> d) as H1 by (intros; apply insert_insert_eq).
  assert (forall x, rename tmp path (<[tmp := x]> d) = <[path := x]> d) as H2.
  { intros x. unfold rename. rewrite lookup_insert_eq, delete_insert_id by done. done. }
  assert (forall x, delete tmp (<[tmp := x]> d) = d) as H3 by (intros; by apply delete_insert_id).
  assert (delete tmp d = d) as H4 by (by apply delete_id).
  destruct fault as [[]|]; cbn; rewrite ?H1, ?H2; cbn; rewrite ?H1, ?H2, ?H3, ?H4;
    (split; [repeat (constructor; try (by constructor))|done]).
Qed.

(** C38. A save is atomic. Whatever call fails, every disk a save passes through, where
    a crash would leave it, differs from the one before only in the temporary file
    or by the whole new checkpoint; the temporary file is gone when it returns; the
    new checkpoint is there when it reports no error; and an error of any call
    before the rename leaves the disk as it was. *)
Theorem Save_atomic st fault tmp now c d path :
  path_of st (cp_BackendID c) (cp_SessionID c) = inr path -> tmp <> path -> d !! tmp = None ->
  let new := inr (mkFile (encode c) now) in
  let r := Save sha256hex encode st fault tmp now c d in
  (forall d', d' ∈ fst r -> (d' !! path = d !! path \/ d' !! path = Some new) /\
     forall q, q <> tmp -> q <> path -> d' !! q = d !! q) /\
  disk_after r d !! tmp = None /\
  (snd r = None -> disk_after r d = <[path := new]> d) /\
  (snd r <> None -> renames fault = false -> disk_after r d = d).
Proof.
  intros Hp Hne Hd new. unfold Save. rewrite Hp, set_cp_Projection_id. cbv zeta.
  assert (forall d', d' ∈ [d] -> (d' !! path = d !! path \/ d' !! path = Some new) /\
    forall q, q <> tmp -> q <> path -> d' !! q = d !! q) as Hsame.
  { intros d' ->%list_elem_of_singleton. auto. }
  case_if; [done|]. case_if; [done|].
  pose proof (run_save fault path tmp (encode c) now d Hne Hd) as H. cbv zeta in H.
  destruct (run_steps _ _ _ _) as [l [all renamed]]. destruct H as (H1 & H2 & ->).
  set (l' := if renamed then l else _) in *. clearbody l'. cbn [fst snd]. unfold disk_after. cbn [fst]. rewrite H2.
  cbn [default]. split; [|split; [|split]].
  - intros d' Hin. rewrite Forall_forall in H1. destruct (H1 d' Hin) as [|x|].
    + auto.
    + rewrite lookup_insert_ne by done. split; [by left|]. intros. by rewrite lookup_insert_ne.
    + rewrite lookup_insert_eq. split; [by right|]. intros. by rewrite lookup_insert_ne.
  - destruct (renames fault); cbn; [by rewrite lookup_insert_ne|done].
  - destruct fault; [done|]. done.
  - intros _ ->. done.
Qed.

(** ** Loading what was saved *)

Definition source_paths (source : ProjectionSourceDescriptor) : list string :=
  sd_Path source :: map sg_Path (sd_Segments source).

Lemma source_matches_ext source c d d' :
  (forall p, p ∈ source_paths source -> d' !! p = d !! p) ->
  source_matches sha256hex source c d' = source_matches sha256hex source c d.
Proof.
  intros Hp.
  assert (forall p k, p ∈ source_paths source ->
    validateProjectionSourceCheckpoint sha256hex p k d' = validateProjectionSourceCheckpoint sha256hex p k d) as Hv.
  { intros p k Hin. unfold validateProjectionSourceCheckpoint, read_file. by rewrite Hp. }
  unfold source_matches. case_if; [done|]. destruct (sd_Segments source) as [|s0 l0] eqn:Es.
  - rewrite Hv by (by left). done.
  - case_if; [done|]. rewrite <- Es. assert (forall s, s ∈ sd_Segments source -> sg_Path s ∈ source_paths source) as Hin.
    { intros s Hs. right. by apply list_elem_of_fmap_2. }
    clear Es Hif0. revert Hin. generalize (cp_Sources c). induction (sd_Segments source) as [|s l IH]; intros [|k ks] Hin; try done.
    simpl. rewrite Hv by (apply Hin; by left). rewrite IH; [done|]. intros x Hx. apply Hin. by right.
Qed.

(** What was saved is what is loaded: a checkpoint whose contents are valid, saved
    without an error, is loaded unchanged for its session and any source it matched
    before, as long as its encoding decodes to it and the source files are other
    files. *)
Theorem Save_LoadValidated st tmp now c d source path (Hcodec : decode (encode c) = Some c) :
  path_of st (cp_BackendID c) (cp_SessionID c) = inr path -> tmp <> path -> d !! tmp = None ->
  contents_valid c = true -> path ∉ source_paths source -> source_matches sha256hex source c d = None ->
  let r := Save sha256hex encode st None tmp now c d in
  snd r = None ->
  LoadValidated sha256hex decode st (cp_BackendID c) (cp_SessionID c) source (disk_after r d) = inr c.
Proof.
  intros Hp Hne Hd Hv Hns Hm r Hr. subst r. revert Hr. unfold Save. rewrite Hp, set_cp_Projection_id. cbv zeta.
  case_if; [done|]. case_if; [done|].
  pose proof (run_save None path tmp (encode c) now d Hne Hd) as H. cbv zeta in H.
  destruct (run_steps _ _ _ _) as [l [all renamed]]. destruct H as (_ & H2 & ->).
  set (l' := if renamed then l else _) in *. clearbody l'. intros _. unfold disk_after. cbn [fst]. rewrite H2. cbn [from_option id renames].
  unfold LoadValidated. rewrite Hp. unfold read_file. rewrite lookup_insert_eq. cbn [from_option id f_content]. rewrite Hcodec.
  assert (identity_matches (cp_BackendID c) (cp_SessionID c) c = true) as ->.
  { unfold save_refused in Hif. rewrite !orb_false_iff, !negb_false_iff in Hif. destruct Hif as ((((E1 & E2) & E3) & _) & E5).
    unfold identity_matches. rewrite E1, E2, E3, E5. by rewrite !bool_decide_eq_true_2. }
  rewrite Hv. cbn [negb].
  rewrite (source_matches_ext source c d), Hm; [by rewrite set_cp_Projection_id|].
  intros p Hin. apply lookup_insert_ne. intros ->. done.
Qed.

(** A checkpoint is restored exactly for a source that still begins with the bytes
    the checkpoint consumed: built from a file at one time, it matches a
    descriptor later if and only if the descriptor has the same identity and its
    file is at least as long as the cursor with the same bytes before it. A source
    that grew is accepted, one that was truncated or rewritten is not. *)
Theorem restored_iff_prefix (Hinj : forall x y, sha256hex x = sha256hex y -> x = y) source d0 k c later d1 :
  BuildProjectionSourceCheckpoint sha256hex source d0 = inr k -> cp_Source c = k -> sd_Segments later = [] ->
  source_matches sha256hex later c d1 = None <->
  sd_Identity later = sd_Identity source /\ sd_Path later <> "" /\
  exists f0 f1, read_file (sd_Path source) d0 = inr f0 /\ read_file (sd_Path later) d1 = inr f1 /\
    sd_Cursor source <= file_size f1 /\
    String.substring 0 (Z.to_nat (sd_Cursor source)) (f_content f1) =
    String.substring 0 (Z.to_nat (sd_Cursor source)) (f_content f0).
Proof.
  intros Hb Hc Hs. revert Hb. unfold BuildProjectionSourceCheckpoint. case_if; [done|].
  destruct (read_file (sd_Path source) d0) as [|f0] eqn:E0; [done|]. case_if; [done|].
  unfold digestProjectionSourcePrefix. rewrite !orb_false_iff in Hif. destruct Hif as ((Hi & Hp) & Hn). rewrite Hn.
  unfold file_size in Hif0. rewrite Hif0. intros [= Hk]. subst k. zprop.
  unfold source_matches. rewrite Hs, <- Hk. cbn [sk_Identity].
  assert (sd_Identity source <> "") as Hid by (by apply unset_false).
  split.
  - case_if; [done|]. case_if; [done|]. case_if; [done|]. zprop. apply unset_false in Hif2.
    unfold validateProjectionSourceCheckpoint, digestProjectionSourcePrefix.
    destruct (read_file (sd_Path later) d1) as [|f1]; [done|]. cbn [sk_Cursor sk_PrefixSHA256]. case_if; [done|].
    case_if; [done|]. case_if; [done|]. case_bool_decide as He; [|done]. intros _.
    split; [done|]. split; [done|]. exists f0, f1. unfold file_size in *. zprop. repeat split; try done. by apply Hinj.
  - intros (H1 & H2 & f0' & f1 & E0' & E1 & H3 & H4). assert (f0' = f0) as -> by congruence. rewrite H1.
    apply unset_false in Hid. rewrite Hid. rewrite bool_decide_eq_true_2 by done. cbn [negb].
    apply unset_false in H2. rewrite H2. unfold validateProjectionSourceCheckpoint, digestProjectionSourcePrefix.
    rewrite E1. cbn [sk_Cursor sk_PrefixSHA256]. unfold file_size in *.
    replace (Z.of_nat (String.length (f_content f1)) <? sd_Cursor source) with false by (symmetry; zbool; lia).
    replace (sd_Cursor source <? 0) with false by (symmetry; zbool; lia).
    rewrite H4, bool_decide_eq_true_2 by done. done.
Qed.
End Theorems.

(** ** A sample store *)

Definition sample_projection : SessionProjection :=
  mkSessionProjection "s" 7 "e" 100 (mkExecutionView "idle" "") [turn0 "t1" "completed"] None None None None None.

Definition sample_source : ProjectionSourceDescriptor := mkSource "file-1" "/t.jsonl" 3 [].
Definition sample_disk : disk := {["/t.jsonl" := inr (mkFile "abcdef" 5)]}.

Definition sample_checkpoint : ProjectionCheckpoint :=
  match BuildProjectionSourceCheckpoint sample_sha sample_source sample_disk with
  | inr k => NewReadyProjectionCheckpoint "codex" "s" k sample_projection 9
  | inl _ => NewReadyProjectionCheckpoint "" "" no_source sample_projection 9
  end.

Definition sample_store : ProjectionCheckpointStore := NewProjectionCheckpointStore "/data".

Lemma Save_atomic_witness :
  let r := Save sample_sha (fun _ => "text") sample_store (Some FSync) "/data/tmp" 10 sample_checkpoint sample_disk in
  length (fst r) = 6%nat /\ disk_after r sample_disk = sample_disk.
Proof.
  split; [vm_compute; reflexivity|].
  destruct (checkpointPath sample_sha sample_store "codex" "s") as [e|path] eqn:E; [discriminate E|].
  pose proof (Save_atomic sample_sha (fun _ => "text") sample_store (Some FSync) "/data/tmp" 10 sample_checkpoint
    sample_disk path E) as H.
  destruct H as (_ & _ & _ & H); [injection E as <-; discriminate|reflexivity|]. apply H; [discriminate|reflexivity].
Defined.

(** A file that grew by three bytes still matches the checkpoint made of its first
    three; the digest is the text itself. *)
Lemma restored_iff_prefix_witness :
  source_matches sample_sha (mkSource "file-1" "/t.jsonl" 9 []) sample_checkpoint
    {["/t.jsonl" := inr (mkFile "abcdefghi" 6)]} = None.
Proof.
  destruct (BuildProjectionSourceCheckpoint sample_sha sample_source sample_disk) as [e|k] eqn:E; [discriminate E|].
  assert (cp_Source sample_checkpoint = k) as Hk by (unfold sample_checkpoint; rewrite E; reflexivity).
  apply (restored_iff_prefix sample_sha (fun x y H => ltac:(injection H as H; exact H)) sample_source sample_disk k
    sample_checkpoint (mkSource "file-1" "/t.jsonl" 9 []) {["/t.jsonl" := inr (mkFile "abcdefghi" 6)]} E Hk eq_refl).
  split; [reflexivity|]. split; [discriminate|]. exists (mkFile "abcdef" 5), (mkFile "abcdefghi" 6).
  repeat split; vm_compute; discriminate.
Defined.

Lemma Save_LoadValidated_witness :
  let r := Save sample_sha (fun _ => "text") sample_store None "/data/tmp" 10 sample_checkpoint sample_disk in
  LoadValidated sample_sha (fun _ => Some sample_checkpoint) sample_store "codex" "s" sample_source
    (disk_after r sample_disk) = inr sample_checkpoint.
Proof.
  destruct (checkpointPath sample_sha sample_store "codex" "s") as [e|path] eqn:E; [discriminate E|].
  apply (Save_LoadValidated sample_sha (fun _ => "text") (fun _ => Some sample_checkpoint) sample_store "/data/tmp" 10
    sample_checkpoint sample_disk sample_source path eq_refl E);
    try reflexivity; injection E as <-; [discriminate|].
  intros H. unfold source_paths in H. apply elem_of_cons in H as [H|H]; [discriminate H|by apply not_elem_of_nil in H].
Defined.
