(* ===== verification/CheckpointWriter.v ===== *)
(** * Writing checkpoints, and when to try again (go-bridge/projection_kernel.go)

    The part of a kernel session that keeps at most one checkpoint to write, writes
    it in a goroutine, waits for more changes before it does, and wakes those who
    wait for it; and the delay before a failed hydrate is tried again. Around the
    fields of the session are what the code leaves to the runtime: the writes under
    way, the timers that tick, the callbacks of expired timers that wait for the
    lock. A call, a callback or the end of a write is one step under the lock. *)

From S2P Require Import Prelude.
From S2P Require Import Projection.
From S2P Require Import ProjectionFields.
From S2P Require Import ReducerPatch.
From S2P Require Import Checkpoint.

(** ** Policy *)

Record ProjectionCheckpointPolicy : Type := mkCheckpointPolicy { MaxInterval : Z; MaxRevisions : Z }.

Definition DefaultProjectionCheckpointPolicy : ProjectionCheckpointPolicy := mkCheckpointPolicy (2 * second) 128.

(** [JitterFraction] is zero or the jitter a parameter computes. *)
Record ProjectionRetryPolicy : Type := mkRetryPolicy { Initial : Z; Maximum : Z }.

(** The loop of [delay]: [n] doublings are left. *)
Fixpoint double (n : nat) (maximum delay : Z) : Z :=
  match n with
  | O => delay
  | S n =>
      if delay <? maximum then
        if delay >? Z.quot maximum 2 then maximum else double n maximum (delay * 2)
      else delay
  end.

Definition clamped (p : ProjectionRetryPolicy) : ProjectionRetryPolicy :=
  let initial := if Initial p <=? 0 then second else Initial p in
  mkRetryPolicy initial (if Maximum p <? initial then initial else Maximum p).

(** [delay] up to the jitter. *)
Definition base_delay (p : ProjectionRetryPolicy) (attempts : Z) : Z :=
  let p := clamped p in
  let attempts := if attempts <? 1 then 1 else attempts in
  let delay := double (Z.to_nat (attempts - 1)) (Maximum p) (Initial p) in
  if delay >? Maximum p then Maximum p else delay.

(** [delay]: [jitter] is the floating-point product with the random factor, [None]
    when the fraction is not positive. *)
Definition delay (p : ProjectionRetryPolicy) (attempts : Z) (jitter : option (Z -> Z)) : Z :=
  let d := base_delay p attempts in
  match jitter with
  | None => d
  | Some f => if f d >? Maximum (clamped p) then Maximum (clamped p) else f d
  end.

(** ** State *)

(** The fields of [projectionKernelSession] that concern the checkpoint; [timer] is
    the number of the timer it points to, a waiter is the number of its channel. *)
Record checkpointWriter : Type := mkWriter {
  lastPersistedRev : Z;
  pending : option ProjectionCheckpoint;
  writeInFlight : bool;
  timer : option nat;
  forceWrite : bool;
  waiters : list nat;
  lastWriteErr : option StoreError
}.

Definition new_writer : checkpointWriter := mkWriter 0 None false None false [] None.

(** With the runtime: writes under way (with the store they captured, if any),
    ticking timers with their delay, callbacks that wait, the next timer number,
    closed channels, and the checkpoints saved so far. *)
Record writer_system : Type := mkSystem {
  writer : checkpointWriter;
  running : list (bool * ProjectionCheckpoint);
  ticking : list (nat * Z);
  callbacks : nat;
  next_timer : nat;
  closed : list nat;
  saved : list ProjectionCheckpoint
}.

Definition new_system : writer_system := mkSystem new_writer [] [] 0 0 [] [].

Definition set_writer (w : checkpointWriter) (s : writer_system) : writer_system :=
  mkSystem w (running s) (ticking s) (callbacks s) (next_timer s) (closed s) (saved s).

Definition set_pending (p : option ProjectionCheckpoint) (w : checkpointWriter) : checkpointWriter :=
  mkWriter (lastPersistedRev w) p (writeInFlight w) (timer w) (forceWrite w) (waiters w) (lastWriteErr w).
Definition set_timer (t : option nat) (w : checkpointWriter) : checkpointWriter :=
  mkWriter (lastPersistedRev w) (pending w) (writeInFlight w) t (forceWrite w) (waiters w) (lastWriteErr w).
Definition set_forceWrite (b : bool) (w : checkpointWriter) : checkpointWriter :=
  mkWriter (lastPersistedRev w) (pending w) (writeInFlight w) (timer w) b (waiters w) (lastWriteErr w).
Definition set_waiters (l : list nat) (w : checkpointWriter) : checkpointWriter :=
  mkWriter (lastPersistedRev w) (pending w) (writeInFlight w) (timer w) (forceWrite w) l (lastWriteErr w).

(** ** Scheduling *)

Section Writer.
Context (policy : ProjectionCheckpointPolicy).

(** [startCheckpointWriteLocked]; [has_store] is whether the kernel has a store. *)
Definition startCheckpointWriteLocked (has_store : bool) (s : writer_system) : writer_system :=
  let w := writer s in
  match pending w with
  | None => s
  | Some checkpoint =>
      if writeInFlight w then s
      else
        let checkpoint := set_cp_Projection (cloneSessionProjection (cp_Projection checkpoint)) checkpoint in
        mkSystem (mkWriter (lastPersistedRev w) None true (timer w) false (waiters w) (lastWriteErr w))
          (running s ++ [(has_store, checkpoint)]) (ticking s) (callbacks s) (next_timer s) (closed s) (saved s)
  end.

(** [session.timer.Stop(); session.timer = nil] *)
Definition stop_timer (s : writer_system) : writer_system :=
  match timer (writer s) with
  | None => s
  | Some t =>
      mkSystem (set_timer None (writer s)) (running s) (filter (fun x => fst x <> t) (ticking s)) (callbacks s)
        (next_timer s) (closed s) (saved s)
  end.

(** [time.AfterFunc] *)
Definition arm_timer (s : writer_system) : writer_system :=
  let delay := if MaxInterval policy <=? 0 then 2 * second else MaxInterval policy in
  mkSystem (set_timer (Some (next_timer s)) (writer s)) (running s) (ticking s ++ [(next_timer s, delay)])
    (callbacks s) (S (next_timer s)) (closed s) (saved s).

Definition immediate (w : checkpointWriter) (checkpoint : ProjectionCheckpoint) : bool :=
  forceWrite w || (MaxRevisions policy <=? 0)
  || (cp_ProjectionRev checkpoint - lastPersistedRev w >=? MaxRevisions policy).

Definition scheduleCheckpointLocked (has_store : bool) (s : writer_system) : writer_system :=
  let w := writer s in
  match pending w with
  | None => s
  | Some checkpoint =>
      if writeInFlight w then s
      else if immediate w checkpoint then startCheckpointWriteLocked has_store (stop_timer s)
      else match timer w with Some _ => s | None => arm_timer s end
  end.

(** ** Calls *)

(** The defaults [StageCheckpoint] fills in. *)
Definition completed (now : Z) (c : ProjectionCheckpoint) : ProjectionCheckpoint :=
  mkCheckpoint (if cp_SchemaVersion c =? 0 then projectionCheckpointSchemaVersion else cp_SchemaVersion c)
    (cp_BackendID c) (cp_SessionID c) (cp_Source c) (cp_Sources c) (cloneSessionProjection (cp_Projection c))
    (cp_ProjectionRev c) (if bool_decide (cp_HydrateState c = "") then ProjectionHydrateReady else cp_HydrateState c)
    (if cp_UpdatedAt c =? 0 then now else cp_UpdatedAt c) (cp_ClaudeSourceState c) (cp_CodexProducerState c).

Definition StageCheckpoint (has_store : bool) (now : Z) (checkpoint : ProjectionCheckpoint) (settled : bool)
    (s : writer_system) : option StoreError * writer_system :=
  let checkpoint := completed now checkpoint in
  if negb has_store then (Some EDisabled, s)
  else
    let w := writer s in
    let newer := match pending w with None => true | Some p => cp_ProjectionRev checkpoint >=? cp_ProjectionRev p end in
    if (cp_ProjectionRev checkpoint <=? lastPersistedRev w) && match pending w with None => true | Some _ => false end
    then (None, s)
    else
      let w := if newer then set_pending (Some checkpoint) w else w in
      let w := if settled then set_forceWrite true w else w in
      (None, scheduleCheckpointLocked has_store (set_writer w s)).

(** The part of [FlushCheckpoint] before it blocks: the error at once, or the
    channel it waits on. *)
Definition FlushCheckpoint (has_store : bool) (waiter : nat) (s : writer_system)
  : (option StoreError + nat) * writer_system :=
  let w := writer s in
  if match pending w with None => true | Some _ => false end && negb (writeInFlight w)
  then (inl (lastWriteErr w), s)
  else
    (inr waiter, scheduleCheckpointLocked has_store
       (set_writer (set_waiters (waiters w ++ [waiter]) (set_forceWrite true w)) s)).

(** The callback of a timer, once it has the lock. *)
Definition timer_callback (has_store : bool) (s : writer_system) : writer_system :=
  scheduleCheckpointLocked has_store (set_writer (set_forceWrite true (set_timer None (writer s))) s).

(** The end of the goroutine: [outcome] is what [store.Save] returned. *)
Definition finish_write (has_store : bool) (outcome : option StoreError) (s : writer_system) : writer_system :=
  match running s with
  | [] => s
  | (had_store, checkpoint) :: rest =>
      let err := if had_store then outcome else Some EDisabled in
      let w := writer s in
      let ok := match err with None => true | Some _ => false end in
      let persisted := if ok && (cp_ProjectionRev checkpoint >? lastPersistedRev w) then cp_ProjectionRev checkpoint
                       else lastPersistedRev w in
      let pending := match pending w with
        | Some p => if cp_ProjectionRev p <=? persisted then None else Some p
        | None => None
        end in
      let saved := if ok then saved s ++ [checkpoint] else saved s in
      match pending with
      | Some _ =>
          scheduleCheckpointLocked has_store
            (mkSystem (mkWriter persisted pending false (timer w) (forceWrite w) (waiters w) err) rest (ticking s)
               (callbacks s) (next_timer s) (closed s) saved)
      | None =>
          mkSystem (mkWriter persisted None false (timer w) (forceWrite w) [] err) rest (ticking s) (callbacks s)
            (next_timer s) (closed s ++ waiters w) saved
      end
  end.

(** ** Steps *)

Inductive writer_op : Type :=
| WStage (now : Z) (checkpoint : ProjectionCheckpoint) (settled : bool)
| WFlush (waiter : nat)
| WFire (t : nat)
| WCallback
| WDone (outcome : option StoreError).

(** A timer that ticks may expire, a callback that waits may run, a write under way
    may end; an operation that is not possible changes nothing. *)
Definition exec_writer (op : writer_op) (s : writer_system) : writer_system :=
  match op with
  | WStage now checkpoint settled => snd (StageCheckpoint true now checkpoint settled s)
  | WFlush waiter => snd (FlushCheckpoint true waiter s)
  | WFire t =>
      if bool_decide (t ∈ map fst (ticking s)) then
        mkSystem (writer s) (running s) (filter (fun x => fst x <> t) (ticking s)) (S (callbacks s)) (next_timer s)
          (closed s) (saved s)
      else s
  | WCallback =>
      match callbacks s with
      | O => s
      | S n => timer_callback true (mkSystem (writer s) (running s) (ticking s) n (next_timer s) (closed s) (saved s))
      end
  | WDone outcome => finish_write true outcome s
  end.

Definition run_writer (ops : list writer_op) (s : writer_system) : writer_system :=
  fold_left (fun s op => exec_writer op s) ops s.
End Writer.

(** ** The delay before a retry *)

Lemma double_min n maximum d : 0 < d <= maximum -> double n maximum d = Z.min maximum (d * 2 ^ Z.of_nat n).
Proof.
  revert d. induction n as [|n IH]; intros d Hd; [change (2 ^ Z.of_nat 0) with 1; cbn [double]; lia|].
  rewrite Nat2Z.inj_succ, Z.pow_succ_r by lia. cbn [double].
  assert (1 <= 2 ^ Z.of_nat n) by (apply (Z.pow_le_mono_r 2 0); lia).
  pose proof (Z.quot_rem maximum 2 ltac:(lia)) as Hq. pose proof (Z.rem_bound_pos maximum 2 ltac:(lia) ltac:(lia)).
  zbool; [symmetry; apply Z.min_l; nia|rewrite IH by lia; f_equal; lia|].
  assert (d = maximum) as -> by lia. symmetry. apply Z.min_l. nia.
Qed.

(** The delay after [n] failures is the initial delay doubled [n - 1] times, at most
    the maximum, whatever the policy says; with jitter it is still at most the
    maximum, and no doubling passes it on the way. *)
Theorem delay_doubles p attempts jitter :
  let p' := clamped p in
  0 < Initial p' <= Maximum p' /\
  base_delay p attempts = Z.min (Maximum p') (Initial p' * 2 ^ (Z.max 1 attempts - 1)) /\
  (forall n, attempts <= n -> base_delay p attempts <= base_delay p n) /\
  delay p attempts jitter <= Maximum p' /\
  (forall n d, 0 < d <= Maximum p' -> 0 < double n (Maximum p') d <= Maximum p').
Proof.
  intros p'. assert (0 < Initial p' <= Maximum p') as Hp.
  { subst p'. unfold clamped, second. cbn. zbool; lia. }
  assert (forall a, base_delay p a = Z.min (Maximum p') (Initial p' * 2 ^ (Z.max 1 a - 1))) as Hb.
  { intros a. unfold base_delay. fold p'. cbv zeta. rewrite double_min by done.
    replace (Z.of_nat (Z.to_nat ((if a <? 1 then 1 else a) - 1))) with (Z.max 1 a - 1) by (zbool; lia).
    zbool; lia. }
  split; [done|]. split; [apply Hb|]. split; [|split].
  - intros n Hn. rewrite !Hb. apply Z.min_le_compat_l. apply Z.mul_le_mono_nonneg_l; [lia|].
    apply Z.pow_le_mono_r; lia.
  - unfold delay. fold p'. destruct jitter as [f|]; [zbool; lia|]. rewrite Hb. lia.
  - intros n d Hd. rewrite double_min by done.
    assert (1 <= 2 ^ Z.of_nat n) by (apply (Z.pow_le_mono_r 2 0); lia). nia.
Qed.

(** ** The invariant of the writer *)

Definition rev_of (c : ProjectionCheckpoint) : Z := cp_ProjectionRev c.

(** What every call keeps; [writer_ok] adds that a pending checkpoint has a write or
    a timer to wait for. *)
Record writer_wf (s : writer_system) : Prop := {
  ww_running : length (running s) = if writeInFlight (writer s) then 1%nat else 0%nat;
  ww_pending : forall p, pending (writer s) = Some p -> lastPersistedRev (writer s) < rev_of p;
  ww_written : forall b c, (b, c) ∈ running s -> lastPersistedRev (writer s) < rev_of c;
  ww_timer : forall t, timer (writer s) = Some t -> t ∈ map fst (ticking s) \/ (0 < callbacks s)%nat;
  ww_waiters : waiters (writer s) <> [] -> writeInFlight (writer s) = true \/ pending (writer s) <> None;
  ww_saved : StronglySorted Z.lt (map rev_of (saved s));
  ww_last : lastPersistedRev (writer s) = default 0 (last (map rev_of (saved s)))
}.

Definition awake (s : writer_system) : Prop :=
  pending (writer s) <> None -> writeInFlight (writer s) = true \/ timer (writer s) <> None.

Definition writer_ok (s : writer_system) : Prop := writer_wf s /\ awake s.

Lemma writer_new_ok : writer_ok new_system.
Proof.
  split; [|by intros H].
  split; try done; cbn; [intros b c Hc; by apply not_elem_of_nil in Hc|constructor].
Qed.

Section Run.
Context (policy : ProjectionCheckpointPolicy).

Lemma start_ok s : writer_wf s -> writeInFlight (writer s) = false ->
  writer_wf (startCheckpointWriteLocked true s) /\
  (pending (writer s) <> None -> writeInFlight (writer (startCheckpointWriteLocked true s)) = true) /\
  pending (writer (startCheckpointWriteLocked true s)) = None.
Proof.
  intros [H1 H2 H3 H4 H5 H6 H7] Hf. unfold startCheckpointWriteLocked. rewrite Hf in *.
  destruct (pending (writer s)) as [c|] eqn:Ep; [|by repeat split; rewrite ?Hf, ?Ep].
  split; [|done]. split; cbn; try done.
  - rewrite length_app. cbn. lia.
  - intros b c' [Hc|Hc]%elem_of_app; [by eapply H3|]. apply list_elem_of_singleton in Hc. injection Hc as -> ->.
    exact (H2 c eq_refl).
  - auto.
Qed.

Lemma stop_ok s : writer_wf s ->
  writer_wf (stop_timer s) /\ writeInFlight (writer (stop_timer s)) = writeInFlight (writer s) /\
  pending (writer (stop_timer s)) = pending (writer s).
Proof.
  intros H. unfold stop_timer. destruct (timer (writer s)) as [t|]; [|done].
  split; [|done]. destruct H. by split.
Qed.

Lemma schedule_ok s : writer_wf s -> writer_ok (scheduleCheckpointLocked policy true s).
Proof.
  intros H. unfold scheduleCheckpointLocked. destruct (pending (writer s)) as [c|] eqn:Ep; [|split; [done|]; intros Hx; congruence].
  destruct (writeInFlight (writer s)) eqn:Ef; [split; [done|intros _; by left]|].
  destruct (stop_ok s H) as (Hs & Hf & Hp). case_if.
  - destruct (start_ok _ Hs ltac:(congruence)) as (Hst & _ & Hn). split; [done|]. intros Hx. by rewrite Hn in Hx.
  - destruct (timer (writer s)) as [t|] eqn:Et; [split; [done|intros _; right; congruence]|].
    unfold arm_timer. split; [|intros _; right; done]. destruct H as [H1 H2 H3 H4 H5 H6 H7]. split; try done.
    cbn. intros t [= <-]. left. rewrite map_app. apply elem_of_app. right. by left.
Qed.

Lemma finish_ok outcome s : writer_ok s -> writer_ok (finish_write policy true outcome s).
Proof.
  intros [H Ha]. unfold finish_write. destruct (running s) as [|[b c] rest] eqn:Er; [done|].
  destruct H as [H1 H2 H3 H4 H5 H6 H7]. rewrite Er in *. cbn in H1.
  destruct (writeInFlight (writer s)) eqn:Ef; [|done]. assert (rest = []) as -> by (by destruct rest).
  pose proof (H3 b c ltac:(by left)) as Hc. unfold rev_of in Hc.
  set (err := if b then outcome else Some EDisabled).
  set (ok := match err with None => true | Some _ => false end).
  set (persisted := if ok && _ then _ else _).
  set (left := match pending (writer s) with Some p => _ | None => _ end).
  set (saved' := if ok then _ else _).
  assert (StronglySorted Z.lt (map rev_of saved') /\ persisted = default 0 (last (map rev_of saved'))) as [Hsort Hlast].
  { subst saved' persisted. destruct ok; cbn [andb]; [|done].
    rewrite map_app. cbn [map]. rewrite last_snoc. split; [|cbn; unfold rev_of; zbool; lia]. apply StronglySorted_app_2; [|done|by repeat constructor].
    intros x y Hx ->%list_elem_of_singleton. unfold rev_of.
    destruct (last (map rev_of (saved s))) as [z|] eqn:El; [|apply last_None in El; rewrite El in Hx; by apply not_elem_of_nil in Hx].
    cbn in H7. assert (x <= z); [|lia]. apply last_Some in El as [l El]. rewrite El in *.
    apply elem_of_app in Hx as [Hx| ->%list_elem_of_singleton]; [|lia].
    pose proof (StronglySorted_app_1_elem_of Z.lt l [z] x z H6 Hx ltac:(by left)). lia. }
  assert (forall p, left = Some p -> persisted < rev_of p) as Hleft.
  { subst left. intros p. destruct (pending (writer s)) as [q|]; [|by intros Hx].
    destruct (cp_ProjectionRev q <=? persisted) eqn:Hq; [by intros Hx|]. intros [= <-]. unfold rev_of. by apply Z.leb_gt. }
  destruct left as [p|]; [apply schedule_ok|split; [|by intros Hx]]; split; try done; cbn;
    first [by intros ? ? Hin%not_elem_of_nil|by right|by intros Hx].
Qed.

Lemma writer_exec_ok op s : writer_ok s -> writer_ok (exec_writer policy op s).
Proof.
  intros Hok. pose proof Hok as [H Ha]. destruct op as [now c settled|waiter|t| |outcome]; cbn [exec_writer].
  - unfold StageCheckpoint. cbn [negb]. cbv zeta. case_if; [done|]. cbn [snd]. apply schedule_ok.
    destruct H as [H1 H2 H3 H4 H5 H6 H7].
    set (newer := match pending (writer s) with None => _ | Some _ => _ end).
    assert (newer = true -> lastPersistedRev (writer s) < cp_ProjectionRev c) as Hn.
    { subst newer. destruct (pending (writer s)) as [p|] eqn:Ep.
      - intros Hge. zprop. specialize (H2 p eq_refl). unfold rev_of in H2. cbn in Hge. lia.
      - rewrite andb_true_r in Hif. zprop. cbn in Hif. lia. }
    assert (pending (writer s) = None -> newer = true) as Hnone by (subst newer; by intros ->).
    destruct newer, settled; split; cbn; try done; intros;
      try (match goal with E : Some _ = Some _ |- _ => injection E as <-; by apply Hn end);
      destruct (H5 ltac:(done)) as [?|?]; auto; right; done.
  - unfold FlushCheckpoint. case_if; [done|]. cbn [snd]. apply schedule_ok.
    destruct H as [H1 H2 H3 H4 H5 H6 H7]. split; cbn; try done. intros _.
    destruct (pending (writer s)); [by right|]. left. cbn in Hif. by destruct (writeInFlight (writer s)).
  - case_bool_decide; [|done]. destruct H as [H1 H2 H3 H4 H5 H6 H7]. split; [|done]. split; try done. cbn.
    intros. right. lia.
  - destruct (callbacks s) as [|n] eqn:Ec; [done|]. unfold timer_callback. apply schedule_ok.
    destruct H as [H1 H2 H3 H4 H5 H6 H7]. by split.
  - by apply finish_ok.
Qed.

Lemma writer_run_ok ops s : writer_ok s -> writer_ok (run_writer policy ops s).
Proof. revert s. induction ops as [|op ops IH]; intros s H; [done|]. apply IH. by apply writer_exec_ok. Qed.

(** Checkpoints never go back. In every run of stages, flushes, expired timers and
    writes that end well or badly, at most one write is under way; the revisions
    saved increase strictly; the revision the session takes for persisted is the
    last one saved; and what is pending or being written is newer than it. *)
Theorem saved_increase ops :
  let s := run_writer policy ops new_system in
  (length (running s) <= 1)%nat /\ StronglySorted Z.lt (map rev_of (saved s)) /\
  lastPersistedRev (writer s) = default 0 (last (map rev_of (saved s))) /\
  (forall b c, (b, c) ∈ running s -> lastPersistedRev (writer s) < rev_of c) /\
  (forall c, pending (writer s) = Some c -> lastPersistedRev (writer s) < rev_of c).
Proof.
  intros s. destruct (writer_run_ok ops new_system writer_new_ok) as [[H1 H2 H3 H4 H5 H6 H7] _]. fold s in H1, H2, H3, H6, H7.
  split; [rewrite H1; case_if; lia|]. auto.
Qed.

(** ** The runtime lets it settle *)

(** What the runtime can do by itself, writes ending well. *)
Definition enabled (op : writer_op) (s : writer_system) : bool :=
  match op with
  | WFire t => bool_decide (t ∈ map fst (ticking s))
  | WCallback => negb (callbacks s =? 0)%nat
  | WDone None => negb (length (running s) =? 0)%nat
  | _ => false
  end.

Fixpoint all_enabled (ops : list writer_op) (s : writer_system) : bool :=
  match ops with
  | [] => true
  | op :: ops => enabled op s && all_enabled ops (exec_writer policy op s)
  end.

Definition is_pending (s : writer_system) : nat := match pending (writer s) with Some _ => 1 | None => 0 end.

(** What is left to do. *)
Definition weight (s : writer_system) : nat :=
  (3 * is_pending s + 3 * length (running s) + 2 * length (ticking s) + callbacks s)%nat.

Lemma schedule_weight s :
  (weight (scheduleCheckpointLocked policy true s) <= weight s + 2)%nat /\
  (forceWrite (writer s) = true -> (weight (scheduleCheckpointLocked policy true s) <= weight s)%nat).
Proof.
  assert (forall t l, (length (filter (fun x : nat * Z => fst x <> t) l) <= length l)%nat) as Hf.
  { intros. apply length_filter. }
  unfold scheduleCheckpointLocked. destruct (pending (writer s)) as [c|] eqn:Ep; [|split; lia].
  destruct (writeInFlight (writer s)) eqn:Ei; [split; lia|]. case_if.
  - assert (weight (startCheckpointWriteLocked true (stop_timer s)) <= weight s)%nat; [|split; [lia|done]].
    unfold stop_timer. destruct (timer (writer s)) as [t|]; unfold startCheckpointWriteLocked, weight, is_pending; cbn;
      rewrite ?Ep, ?Ei; cbn; rewrite ?Ei; cbn; rewrite length_app; cbn; [specialize (Hf t (ticking s))|]; lia.
  - unfold immediate in Hif. split; [|intros Hw; rewrite Hw in Hif; done]. destruct (timer (writer s)); [lia|].
    unfold arm_timer, weight, is_pending. cbn. rewrite Ep, length_app. cbn. lia.
Qed.

Lemma enabled_decreases op s : enabled op s = true -> (weight (exec_writer policy op s) < weight s)%nat.
Proof.
  destruct op as [| |t| |[]]; cbn [enabled exec_writer]; try done.
  - intros Ht. rewrite Ht. zprop. unfold weight, is_pending. cbn.
    assert (length (filter (fun x : nat * Z => fst x <> t) (ticking s)) < length (ticking s))%nat; [|lia].
    apply list_elem_of_fmap in Ht as (x & -> & Hx). by eapply length_filter_lt with (x := x); [|intros []].
  - destruct (callbacks s) as [|n] eqn:Ec; [done|]. intros _. unfold timer_callback.
    match goal with |- context [scheduleCheckpointLocked _ _ ?x] => destruct (schedule_weight x) as [_ H] end.
    specialize (H eq_refl). unfold weight, is_pending in *. cbn in H |- *. lia.
  - destruct (running s) as [|[b c] rest] eqn:Er; [done|]. intros _. unfold finish_write. rewrite Er.
    set (persisted := if _ && _ then _ else _).
    set (left := match pending (writer s) with Some p => _ | None => _ end).
    assert (left <> None -> is_pending s = 1%nat) as Hl.
    { subst left. unfold is_pending. by destruct (pending (writer s)). }
    destruct left as [p|] eqn:El.
    + match goal with |- context [scheduleCheckpointLocked _ _ ?x] => destruct (schedule_weight x) as [H _] end.
      specialize (Hl ltac:(done)). unfold weight, is_pending in *. cbn in H |- *. rewrite Er. cbn. lia.
    + unfold weight at 1, is_pending. cbn. unfold weight. rewrite Er. cbn. lia.
Qed.

(** The checkpoint [c] is saved, or a checkpoint at least as new is pending or being
    written. *)
Definition covered (s : writer_system) (c : ProjectionCheckpoint) : Prop :=
  rev_of c <= lastPersistedRev (writer s) \/ (exists p, pending (writer s) = Some p /\ rev_of c <= rev_of p) \/
  (exists x, (true, x) ∈ running s /\ rev_of c <= rev_of x).

Definition stores (s : writer_system) : Prop := forall b c, (b, c) ∈ running s -> b = true.

Lemma schedule_covered s c :
  covered s c -> covered (scheduleCheckpointLocked policy true s) c.
Proof.
  unfold scheduleCheckpointLocked. destruct (pending (writer s)) as [q|] eqn:Ep; [|done].
  destruct (writeInFlight (writer s)) eqn:Ei; [done|]. case_if.
  - assert (covered s c -> covered (stop_timer s) c) as Hs by (unfold stop_timer; by destruct (timer (writer s))).
    intros H%Hs. assert (pending (writer (stop_timer s)) = Some q /\ writeInFlight (writer (stop_timer s)) = false) as [Hq Hi].
    { unfold stop_timer. by destruct (timer (writer s)). }
    unfold startCheckpointWriteLocked. rewrite Hq, Hi. unfold covered. cbn. destruct H as [H|[(p & Hp & H)|(x & Hx & H)]].
    + by left.
    + right. right. exists (set_cp_Projection (cloneSessionProjection (cp_Projection q)) q).
      split; [apply elem_of_app; right; by left|]. assert (p = q) as -> by congruence. done.
    + right. right. exists x. split; [apply elem_of_app; by left|done].
  - by destruct (timer (writer s)).
Qed.

Lemma schedule_stores s : stores s -> stores (scheduleCheckpointLocked policy true s).
Proof.
  intros H. assert (stores (startCheckpointWriteLocked true (stop_timer s))) as Hst.
  { assert (stores (stop_timer s)) as H' by (unfold stop_timer; by destruct (timer (writer s))).
    unfold startCheckpointWriteLocked. destruct (pending _); [|done]. case_if; [done|].
    intros b c [Hb|Hb]%elem_of_app; [by eapply H'|]. apply list_elem_of_singleton in Hb. congruence. }
  unfold scheduleCheckpointLocked. destruct (pending (writer s)); [|done]. case_if; [done|]. case_if; [done|].
  by destruct (timer (writer s)).
Qed.

(** Operations in which no write fails, and the checkpoints they stage. *)
Definition well (op : writer_op) : bool := match op with WDone (Some _) => false | _ => true end.
Definition staged (ops : list writer_op) : list ProjectionCheckpoint :=
  omap (fun op => match op with WStage now c _ => Some (completed now c) | _ => None end) ops.

Lemma exec_covered op s c :
  writer_ok s -> stores s -> well op = true -> covered s c \/ (exists now b, op = WStage now c b) ->
  covered (exec_writer policy op s) c /\ stores (exec_writer policy op s).
Proof.
  intros Hok Hst Hw Hc. destruct op as [now c' settled|waiter|t| |outcome]; cbn [exec_writer].
  - unfold StageCheckpoint. cbn [negb]. cbv zeta. set (cc := completed now c').
    assert (rev_of cc = rev_of c') as Hcc by done.
    destruct (_ && _) eqn:Hif.
    { split; [|done]. destruct Hc as [Hc|(? & ? & [= <- <- <-])]; [done|]. left. zprop. unfold rev_of in *. cbn [snd]. lia. }
    cbn [snd]. match goal with |- context [scheduleCheckpointLocked _ _ (set_writer ?w _)] =>
      assert (covered (set_writer w s) c) as Hcov; [|split; [by apply schedule_covered|by apply schedule_stores]] end.
    assert (forall w, covered (set_writer (set_forceWrite true w) s) c <-> covered (set_writer w s) c) as Hforce by done.
    assert (covered (set_writer (if match pending (writer s) with None => true
       | Some p => cp_ProjectionRev cc >=? cp_ProjectionRev p end then set_pending (Some cc) (writer s) else writer s) s) c) as Hcov;
      [|by destruct settled].
    destruct Hc as [[Hc|[(p & Hp & Hc)|Hc]]|(? & ? & [= <- <- <-])].
    + left. by case_if.
    + right. left. rewrite Hp. case_if; [exists cc|by exists p]. split; [done|]. zprop. unfold rev_of in *. cbn in *. lia.
    + right. right. done.
    + right. left. destruct (pending (writer s)) as [p|] eqn:Ep; [|exists cc; by split; [|lia]].
      case_if; [exists cc; by split; [|lia]|]. exists p. split; [done|]. zprop. unfold rev_of. cbn in *. lia.
  - destruct Hc as [Hc|(? & ? & ?)]; [|done]. unfold FlushCheckpoint. destruct (_ && _); [done|]. cbn [snd].
    split; [by apply schedule_covered|by apply schedule_stores].
  - destruct Hc as [Hc|(? & ? & ?)]; [|done]. by case_bool_decide.
  - destruct Hc as [Hc|(? & ? & ?)]; [|done]. destruct (callbacks s); [done|]. unfold timer_callback.
    split; [by apply schedule_covered|by apply schedule_stores].
  - destruct Hc as [Hc|(? & ? & ?)]; [|done]. destruct outcome; [done|]. unfold finish_write.
    destruct (running s) as [|[b x] rest] eqn:Er; [done|]. assert (b = true) as -> by (eapply Hst; rewrite Er; by left).
    destruct Hok as [[H1 _ H3 _ _ _ _] _]. rewrite Er in H1. cbn in H1. destruct (writeInFlight (writer s)); [|done].
    assert (rest = []) as -> by (by destruct rest). specialize (H3 true x ltac:(rewrite Er; by left)).
    unfold rev_of in H3. apply Z.gtb_lt in H3 as Hgt. cbn [andb]. rewrite Hgt.
    set (left := match pending (writer s) with Some p => _ | None => _ end).
    assert (forall w l, lastPersistedRev w = cp_ProjectionRev x -> pending w = left -> running l = [] -> covered (set_writer w l) c) as Hcov.
    { intros w l Hw1 Hw2 Hl. unfold covered. cbn. rewrite Hw1, Hw2, Hl.
      destruct Hc as [Hc|[(p & Hp & Hc)|(y & Hy & Hc)]].
      - left. unfold rev_of in *. lia.
      - subst left. rewrite Hp. case_if; [left|right; left; by exists p]. zprop. unfold rev_of in *. lia.
      - left. rewrite Er in Hy. apply list_elem_of_singleton in Hy. injection Hy as ->. done. }
    assert (forall l, running l = [] -> stores l) as Hno by (intros l Hl b' y Hb; rewrite Hl in Hb; by apply not_elem_of_nil in Hb).
    destruct left as [p|] eqn:El.
    + split; [apply schedule_covered|by apply schedule_stores, Hno].
      match goal with |- covered ?y _ => exact (Hcov (writer y) y eq_refl eq_refl eq_refl) end.
    + split; [|by apply Hno].
      match goal with |- covered ?y _ => exact (Hcov (writer y) y eq_refl eq_refl eq_refl) end.
Qed.

Lemma run_covered ops s :
  writer_ok s -> stores s -> forallb well ops = true ->
  stores (run_writer policy ops s) /\
  (forall c, covered s c \/ (exists now b, WStage now c b ∈ ops) -> covered (run_writer policy ops s) c).
Proof.
  revert s. induction ops as [|op ops IH]; intros s Hok Hst Hw.
  - split; [done|]. intros c [Hc|(? & ? & Hc)]; [done|by apply not_elem_of_nil in Hc].
  - cbn [forallb] in Hw. zprop. assert (forall c, covered s c \/ (exists now b, op = WStage now c b) ->
      covered (exec_writer policy op s) c) as Hone by (intros; by apply exec_covered).
    assert (stores (exec_writer policy op s)) as Hst'.
    { destruct op as [now c b|w|t| |o]; [apply (exec_covered (WStage now c b) s c); try done; right; eauto|..].
      - cbn. unfold FlushCheckpoint. destruct (_ && _); [done|]. by apply schedule_stores.
      - cbn. by case_bool_decide.
      - cbn. destruct (callbacks s); [done|]. by apply schedule_stores.
      - destruct (running s) as [|[b x] rest] eqn:Er; [cbn; unfold finish_write; by rewrite Er|].
        assert (b = true) as -> by (eapply Hst; rewrite Er; by left).
        apply (exec_covered (WDone o) s x); try done. left. right. right. exists x. rewrite Er. split; [by left|lia]. }
    destruct (IH (exec_writer policy op s)) as [I1 I2]; [by apply writer_exec_ok|done|done|]. split; [done|].
    intros c Hc. apply I2. destruct Hc as [Hc|(now & b & [Hc|Hc]%elem_of_cons)]; [auto|subst op; left; apply Hone; eauto|eauto].
Qed.

(** Nothing staged is forgotten. Whatever was staged and flushed, and however timers
    and writes interleave, the runtime alone can only take boundedly many more
    steps; and once it can take none, nothing is pending, nobody waits, and, unless
    a write failed on the way, every checkpoint that was staged is saved or a newer
    one is. *)
Theorem writer_settles ops more :
  let s := run_writer policy ops new_system in
  all_enabled more s = true ->
  let s' := run_writer policy more s in
  (length more <= weight s)%nat /\
  ((forall op, enabled op s' = false) ->
     pending (writer s') = None /\ writeInFlight (writer s') = false /\ waiters (writer s') = [] /\
     (forallb well ops = true -> forall now c b, WStage now c b ∈ ops -> rev_of c <= lastPersistedRev (writer s'))).
Proof.
  intros s Hall s'. assert (writer_ok s) as Hok by (apply writer_run_ok, writer_new_ok). split.
  - clear s'. clearbody s. revert s Hall Hok. induction more as [|op more IH]; intros s Hall Hok; cbn [length all_enabled] in *; [lia|]. zprop.
    pose proof (enabled_decreases op s H) as Hd. specialize (IH _ H0 (writer_exec_ok _ _ Hok)). lia.
  - intros Hdone. assert (writer_ok s') as Hok' by (by apply writer_run_ok). pose proof Hok' as [[H1 H2 H3 H4 H5 H6 H7] Ha].
    assert (running s' = []) as Hr by (specialize (Hdone (WDone None)); cbn in Hdone; by destruct (running s')).
    assert (callbacks s' = 0%nat) as Hc by (specialize (Hdone WCallback); cbn in Hdone; by destruct (callbacks s')).
    assert (writeInFlight (writer s') = false) as Hf by (rewrite Hr in H1; by destruct (writeInFlight (writer s'))).
    assert (pending (writer s') = None) as Hp.
    { destruct (pending (writer s')) as [c|] eqn:Ep; [|done]. destruct (Ha ltac:(congruence)) as [?|Ht]; [congruence|].
      destruct (timer (writer s')) as [t|] eqn:Et; [|done]. destruct (H4 t eq_refl) as [Hin|?]; [|lia].
      specialize (Hdone (WFire t)). cbn in Hdone. zprop. done. }
    split; [done|]. split; [done|]. split.
    + destruct (waiters (writer s')) eqn:Ew; [done|]. destruct (H5 ltac:(done)); congruence.
    + intros Hw now c b Hin. assert (stores new_system) as Hs0 by (intros b' x Hx; by apply not_elem_of_nil in Hx).
      assert (forallb well more = true) as Hwm.
      { clear -Hall. clearbody s. clear ops. revert s Hall. induction more as [|op more IH]; intros s Hall; [done|].
        cbn in *. zprop. rewrite (IH _ H0), andb_true_r. by destruct op as [| | | |[]]. }
      destruct (run_covered ops new_system writer_new_ok Hs0 Hw) as [Hst Hcov].
      destruct (run_covered more s Hok Hst Hwm) as [_ Hcov'].
      destruct (Hcov' c) as [Hle|[(p & Hpp & _)|(x & Hx & _)]]; [left; apply Hcov; right; eauto|done| |].
      * fold s' in Hpp. congruence.
      * fold s' in Hx. rewrite Hr in Hx. by apply not_elem_of_nil in Hx.
Qed.
End Run.

(** ** A sample run *)

Definition sample_at (rev : Z) : ProjectionCheckpoint :=
  mkCheckpoint 13 "codex" "s" no_source [] sample_projection rev "ready" 1 None None.

(** Two checkpoints are staged, the first write begins when the timer expires; a
    third is staged and awaited while it runs. *)
Definition sample_writes : list writer_op :=
  [WStage 1 (sample_at 3) false; WStage 2 (sample_at 5) false; WFire 0; WCallback; WStage 3 (sample_at 6) false;
   WFlush 9].

Lemma delay_doubles_sample : map (fun n => base_delay (mkRetryPolicy second (10 * second)) n) [0; 1; 2; 4; 5; 90]
  = [second; second; 2 * second; 8 * second; 10 * second; 10 * second].
Proof. vm_compute. reflexivity. Qed.

Lemma writer_settles_witness :
  let s := run_writer DefaultProjectionCheckpointPolicy sample_writes new_system in
  let s' := run_writer DefaultProjectionCheckpointPolicy [WDone None; WDone None] s in
  closed s' = [9%nat] /\ pending (writer s') = None /\ 6 <= lastPersistedRev (writer s').
Proof.
  cbv zeta. split; [vm_compute; reflexivity|].
  pose proof (writer_settles DefaultProjectionCheckpointPolicy sample_writes [WDone None; WDone None]) as H. cbv zeta in H.
  destruct (H ltac:(vm_compute; reflexivity)) as [_ H2]. destruct H2 as (Hp & _ & _ & Hl).
  - intros [| |t| |[]]; try reflexivity.
  - split; [exact Hp|]. apply (Hl ltac:(reflexivity) 3 (sample_at 6) false). apply list_elem_of_lookup. exists 4%nat. reflexivity.
Defined.
