(* ===== verification/Kernel.v ===== *)
(** * The projection kernel (go-bridge/projection_kernel.go)

    One kernel holds the authoritative reducer of all sessions and, for each, how far
    it has been hydrated. A hydrate folds the cold source of a session on a reducer
    of its own while live events wait in a queue; the commit installs the result and
    applies the queue. A pointer to a transaction, and the channel closed when it
    ends, is its number; [BeginHydrateTransaction] releases the lock to read the
    checkpoint, so it is two steps. The entry that a mere read makes for an unknown
    session is not kept. The clock and the random factor are arguments, an instant
    per event where several are applied; [None] is the panic of a restore. *)

From S2P Require Import Prelude.
From S2P Require Import Wire.
From S2P Require Import Projection.
From S2P Require Import ProjectionFields.
From S2P Require Import ReducerParts.
From S2P Require Import Reducer.
From S2P Require Import ReducerPatch.
From S2P Require Import TurnDetail.
From S2P Require Import SourceLedger.
From S2P Require Import Checkpoint.
From S2P Require Import CheckpointWriter.

(** ** State *)

Record ProjectionHydrateFailure : Type := mkFailure {
  hf_Code : string; hf_Message : string; hf_Retryable : bool; hf_RetryAt : Z; hf_Attempts : Z
}.

Record ProjectionHydrationStatus : Type := mkStatus {
  Phase : string;
  Failure : option ProjectionHydrateFailure
}.

Definition liveOnlyAdmissionSourcePrefix : string := "live-only:".

Record projectionHydrateTransaction : Type := mkTransaction {
  tx_number : nat;
  tx_source : ProjectionSourceDescriptor;
  tx_startCursor : Z;
  tx_startCut : Z;
  tx_reducer : ProjectionReducer;
  nextInput : Z;
  pendingLive : list EventMessage;
  liveArrived : bool;
  sourceIsLive : bool;
  liveOnlyAdmission : bool;
  unionLiveTurns : bool;
  reconcile : bool;
  sourceIngestComplete : bool;
  coldArmedTurnIDs : gset string
}.

Definition tx_eta (t : projectionHydrateTransaction) : projectionHydrateTransaction :=
  mkTransaction (tx_number t) (tx_source t) (tx_startCursor t) (tx_startCut t) (tx_reducer t) (nextInput t)
    (pendingLive t) (liveArrived t) (sourceIsLive t) (liveOnlyAdmission t) (unionLiveTurns t) (reconcile t)
    (sourceIngestComplete t) (coldArmedTurnIDs t).
Definition set_tx_startCursor (v : Z) (t : projectionHydrateTransaction) : projectionHydrateTransaction :=
  ltac:(setter tx_eta tx_startCursor v t).
Definition set_tx_reducer (v : ProjectionReducer) (t : projectionHydrateTransaction) : projectionHydrateTransaction :=
  ltac:(setter tx_eta tx_reducer v t).
Definition set_nextInput (v : Z) (t : projectionHydrateTransaction) : projectionHydrateTransaction :=
  ltac:(setter tx_eta nextInput v t).
Definition set_pendingLive (v : list EventMessage) (t : projectionHydrateTransaction) : projectionHydrateTransaction :=
  ltac:(setter tx_eta pendingLive v t).
Definition set_liveArrived (v : bool) (t : projectionHydrateTransaction) : projectionHydrateTransaction :=
  ltac:(setter tx_eta liveArrived v t).
Definition set_sourceIngestComplete (v : bool) (t : projectionHydrateTransaction) : projectionHydrateTransaction :=
  ltac:(setter tx_eta sourceIngestComplete v t).
Definition set_coldArmedTurnIDs (v : gset string) (t : projectionHydrateTransaction) : projectionHydrateTransaction :=
  ltac:(setter tx_eta coldArmedTurnIDs v t).

(** The fields about the checkpoint are in [ks_writer]. *)
Record projectionKernelSession : Type := mkKernelSession {
  status : ProjectionHydrationStatus;
  failureAttempts : Z;
  hydrate : option projectionHydrateTransaction;
  hydrateDone : option nat;
  coldBaseline : bool;
  committedSourceCursor : Z;
  committedSource : ProjectionSourceDescriptor;
  claudeSourceState : option ClaudeSourceState;
  ks_writer : writer_system
}.

Definition ks_eta (s : projectionKernelSession) : projectionKernelSession :=
  mkKernelSession (status s) (failureAttempts s) (hydrate s) (hydrateDone s) (coldBaseline s)
    (committedSourceCursor s) (committedSource s) (claudeSourceState s) (ks_writer s).
Definition set_status (v : ProjectionHydrationStatus) (s : projectionKernelSession) : projectionKernelSession :=
  ltac:(setter ks_eta status v s).
Definition set_failureAttempts (v : Z) (s : projectionKernelSession) : projectionKernelSession :=
  ltac:(setter ks_eta failureAttempts v s).
Definition set_hydrate (v : option projectionHydrateTransaction) (s : projectionKernelSession) : projectionKernelSession :=
  ltac:(setter ks_eta hydrate v s).
Definition set_hydrateDone (v : option nat) (s : projectionKernelSession) : projectionKernelSession :=
  ltac:(setter ks_eta hydrateDone v s).
Definition set_coldBaseline (v : bool) (s : projectionKernelSession) : projectionKernelSession :=
  ltac:(setter ks_eta coldBaseline v s).
Definition set_committedSourceCursor (v : Z) (s : projectionKernelSession) : projectionKernelSession :=
  ltac:(setter ks_eta committedSourceCursor v s).
Definition set_committedSource (v : ProjectionSourceDescriptor) (s : projectionKernelSession) : projectionKernelSession :=
  ltac:(setter ks_eta committedSource v s).
Definition set_claudeSourceState (v : option ClaudeSourceState) (s : projectionKernelSession) : projectionKernelSession :=
  ltac:(setter ks_eta claudeSourceState v s).
Definition set_ks_writer (v : writer_system) (s : projectionKernelSession) : projectionKernelSession :=
  ltac:(setter ks_eta ks_writer v s).

Definition no_descriptor : ProjectionSourceDescriptor := mkSource "" "" 0 [].

Definition new_kernel_session : projectionKernelSession :=
  mkKernelSession (mkStatus ProjectionHydrateAbsent None) 0 None None false 0 no_descriptor None new_system.

(** [next_tx] numbers the transactions; [closed_done] are the channels closed. *)
Record ProjectionKernel : Type := mkKernel {
  k_reducer : ProjectionReducer;
  k_has_store : bool;
  k_sessions : gmap string projectionKernelSession;
  retryPolicy : ProjectionRetryPolicy;
  checkpointPolicy : ProjectionCheckpointPolicy;
  stages_turns : bool;
  seqIssuer : gmap string Z;
  next_tx : nat;
  closed_done : gset nat
}.

Definition kernel_eta (k : ProjectionKernel) : ProjectionKernel :=
  mkKernel (k_reducer k) (k_has_store k) (k_sessions k) (retryPolicy k) (checkpointPolicy k) (stages_turns k)
    (seqIssuer k) (next_tx k) (closed_done k).
Definition set_k_reducer (v : ProjectionReducer) (k : ProjectionKernel) : ProjectionKernel :=
  ltac:(setter kernel_eta k_reducer v k).
Definition set_k_has_store (v : bool) (k : ProjectionKernel) : ProjectionKernel :=
  ltac:(setter kernel_eta k_has_store v k).
Definition set_k_sessions (v : gmap string projectionKernelSession) (k : ProjectionKernel) : ProjectionKernel :=
  ltac:(setter kernel_eta k_sessions v k).
Definition set_stages_turns (v : bool) (k : ProjectionKernel) : ProjectionKernel :=
  ltac:(setter kernel_eta stages_turns v k).
Definition set_seqIssuer (v : gmap string Z) (k : ProjectionKernel) : ProjectionKernel :=
  ltac:(setter kernel_eta seqIssuer v k).
Definition set_next_tx (v : nat) (k : ProjectionKernel) : ProjectionKernel :=
  ltac:(setter kernel_eta next_tx v k).
Definition set_closed_done (v : gset nat) (k : ProjectionKernel) : ProjectionKernel :=
  ltac:(setter kernel_eta closed_done v k).

Definition DefaultProjectionRetryPolicy : ProjectionRetryPolicy := mkRetryPolicy second (30 * second).

(** [NewProjectionKernel], then [SetCheckpointStore] and [SetTurnCheckpointStager]. *)
Definition NewProjectionKernel (r : ProjectionReducer) (has_store : bool) : ProjectionKernel :=
  mkKernel r has_store ∅ DefaultProjectionRetryPolicy DefaultProjectionCheckpointPolicy false ∅ 0 ∅.
Definition SetCheckpointStore (has_store : bool) (k : ProjectionKernel) : ProjectionKernel :=
  set_k_has_store has_store k.
Definition SetReducer (r : ProjectionReducer) (k : ProjectionKernel) : ProjectionKernel := set_k_reducer r k.
Definition SetTurnCheckpointStager (present : bool) (k : ProjectionKernel) : ProjectionKernel :=
  set_stages_turns present k.

Definition sessionLocked (backendID sessionID : string) (k : ProjectionKernel) : projectionKernelSession :=
  default new_kernel_session (k_sessions k !! projectionSessionKey backendID sessionID).

Definition put_session (backendID sessionID : string) (s : projectionKernelSession) (k : ProjectionKernel)
  : ProjectionKernel := set_k_sessions (<[projectionSessionKey backendID sessionID := s]> (k_sessions k)) k.

Definition phase_of (backendID sessionID : string) (k : ProjectionKernel) : string :=
  Phase (status (sessionLocked backendID sessionID k)).
Definition is_phase (p : string) (s : projectionKernelSession) : bool := bool_decide (Phase (status s) = p).

(** [session.status.Phase == Hydrating && session.hydrate != nil] *)
Definition active_tx (s : projectionKernelSession) : option projectionHydrateTransaction :=
  if is_phase ProjectionHydrateHydrating s then hydrate s else None.

(** ** Reading *)

Definition IssueSessionSeq (backendID sessionID : string) (k : ProjectionKernel) : Z * ProjectionKernel :=
  if unset backendID || unset sessionID then (0, k)
  else
    let key := projectionSessionKey backendID sessionID in
    let n := seqIssuer k !!0 key + 1 in (n, set_seqIssuer (<[key := n]> (seqIssuer k)) k).

Definition Status (backendID sessionID : string) (k : ProjectionKernel) : ProjectionHydrationStatus :=
  status (sessionLocked backendID sessionID k).
Definition CommittedSnapshot (backendID sessionID : string) (k : ProjectionKernel) : option SessionProjection :=
  Snapshot backendID sessionID (k_reducer k).
Definition HasReducerState (backendID sessionID : string) (k : ProjectionKernel) : bool :=
  match CommittedSnapshot backendID sessionID k with Some _ => true | None => false end.
Definition HasColdBaseline (backendID sessionID : string) (k : ProjectionKernel) : bool :=
  coldBaseline (sessionLocked backendID sessionID k).

Definition empty_projection (sessionID : string) : SessionProjection :=
  mkSessionProjection sessionID 0 "" 0 (mkExecutionView "idle" "") [] None None None None None.

(** [Snapshot] of the kernel: only of a READY session. *)
Definition KernelSnapshot (backendID sessionID : string) (k : ProjectionKernel) : option SessionProjection :=
  if is_phase ProjectionHydrateReady (sessionLocked backendID sessionID k)
  then Some (default (empty_projection sessionID) (CommittedSnapshot backendID sessionID k))
  else None.

(** The last turn that runs. *)
Definition last_running (l : list TurnProjection) : string :=
  match last (filter (fun t => tp_Status t = "running") l) with Some t => tp_TurnID t | None => "" end.

Definition ActiveTurnID (backendID sessionID : string) (k : ProjectionKernel) : string :=
  match CommittedSnapshot backendID sessionID k with
  | None => ""
  | Some p =>
      if unset (ev_ActiveTurnID (sp_Execution p)) then last_running (sp_Turns p)
      else ev_ActiveTurnID (sp_Execution p)
  end.

Definition HydrateSource (backendID sessionID : string) (k : ProjectionKernel) : option ProjectionSourceDescriptor :=
  tx_source <$> hydrate (sessionLocked backendID sessionID k).
Definition HydrateSnapshot (backendID sessionID : string) (k : ProjectionKernel) : option SessionProjection :=
  hydrate (sessionLocked backendID sessionID k) ≫= fun tx => Snapshot backendID sessionID (tx_reducer tx).

Definition CommittedSourceSegments (backendID sessionID : string) (k : ProjectionKernel)
  : option (list ProjectionSourceSegment) :=
  let s := sessionLocked backendID sessionID k in
  match hydrate s with
  | Some tx => Some (sd_Segments (tx_source tx))
  | None =>
      match sd_Segments (committedSource s) with
      | _ :: _ as l => Some l
      | [] =>
          if unset (sd_Path (committedSource s)) then None
          else Some [mkSegment (sd_Identity (committedSource s)) (sd_Path (committedSource s))
                       (sd_Cursor (committedSource s))]
      end
  end.

Definition CommittedSourceCursor (backendID sessionID : string) (k : ProjectionKernel) : option Z :=
  let s := sessionLocked backendID sessionID k in
  if negb (is_phase ProjectionHydrateReady s) || unset (sd_Identity (committedSource s)) then None
  else
    match last (sd_Segments (committedSource s)) with
    | Some segment => Some (sg_Cursor segment)
    | None => Some (committedSourceCursor s)
    end.

#[export] Instance segment_eq_dec : EqDecision ProjectionSourceSegment.
Proof. solve_decision. Defined.
#[export] Instance descriptor_eq_dec : EqDecision ProjectionSourceDescriptor.
Proof. solve_decision. Defined.

Definition projectionSourceDescriptorsEqual (lhs rhs : ProjectionSourceDescriptor) : bool := bool_decide (lhs = rhs).

(** ** Plain state changes *)

Definition kernel_external (now : Z) (backendID sessionID phase : string) (k : ProjectionKernel)
  : bool * ProjectionKernel :=
  if negb (is_phase ProjectionHydrateReady (sessionLocked backendID sessionID k)) then (false, k)
  else
    let '(ok, r) := ApplyExternalExecutionState now backendID sessionID phase (k_reducer k) in (ok, set_k_reducer r k).

(** The retry gate of a failed session: is it closed? *)
Definition retry_refused (now : Z) (explicitRetry sourceChanged : bool) (s : projectionKernelSession) : bool :=
  match Failure (status s) with
  | None => false
  | Some f =>
      (negb (hf_Retryable f) && negb sourceChanged)
      || (hf_Retryable f && negb explicitRetry && (now <? hf_RetryAt f))
  end.

Definition BeginHydrate (now : Z) (backendID sessionID : string) (explicitRetry sourceChanged : bool)
    (k : ProjectionKernel) : bool * ProjectionKernel :=
  let s := sessionLocked backendID sessionID k in
  if is_phase ProjectionHydrateHydrating s || is_phase ProjectionHydrateReady s then (false, k)
  else if is_phase ProjectionHydrateFailed s && retry_refused now explicitRetry sourceChanged s then (false, k)
  else (true, put_session backendID sessionID (set_status (mkStatus ProjectionHydrateHydrating None) s) k).

(** [finishHydrateLocked], and the channel it closes. *)
Definition finishHydrateLocked (s : projectionKernelSession) : projectionKernelSession := set_hydrateDone None s.
Definition close_done (s : projectionKernelSession) (k : ProjectionKernel) : ProjectionKernel :=
  match hydrateDone s with Some c => set_closed_done ({[c]} ∪ closed_done k) k | None => k end.

Definition MarkReady (backendID sessionID : string) (k : ProjectionKernel) : ProjectionKernel :=
  let s := sessionLocked backendID sessionID k in
  let s' := finishHydrateLocked (set_hydrate None (set_status (mkStatus ProjectionHydrateReady None) s)) in
  put_session backendID sessionID (set_failureAttempts 0 s') (close_done s k).

Definition MarkFailed (now : Z) (jitter : option (Z -> Z)) (backendID sessionID code message : string)
    (retryable : bool) (k : ProjectionKernel) : (ProjectionHydrationStatus * list string) * ProjectionKernel :=
  let s := sessionLocked backendID sessionID k in
  let attempts := failureAttempts s + 1 in
  let retryAt := if retryable then now + delay (retryPolicy k) attempts jitter else 0 in
  let failed := mkStatus ProjectionHydrateFailed (Some (mkFailure code message retryable retryAt attempts)) in
  let deferred := match hydrate s with
    | Some tx => filter (fun id => id <> "") (map EventID (pendingLive tx))
    | None => []
    end in
  let s' := finishHydrateLocked (set_hydrate None (set_status failed (set_failureAttempts attempts s))) in
  ((failed, deferred), put_session backendID sessionID s' (close_done s k)).

(** ** Sources *)

Definition pathlessRichHistoryBackend (backendID : string) : bool :=
  one_of_words ["opencode"; "grokbuild"; "claude"; "claudecode"; "opencode-web"; "codex-web"] backendID.

Definition no_segments (source : ProjectionSourceDescriptor) : bool := bool_decide (sd_Segments source = []).

Definition pathlessFullRebuildSource (backendID : string) (source : ProjectionSourceDescriptor) : bool :=
  unset (sd_Path source) && no_segments source && pathlessRichHistoryBackend backendID.

(** ** Merging a cold baseline with what is live *)

Definition executionInFlight (e : ExecutionView) : bool := one_of_words ["running"; "requires_action"] (ev_Phase e).

(** A turn settled before it is published. *)
Definition settle_echo (ids : gset string) (t : TurnProjection) : bool :=
  bool_decide (tp_TurnID t ∈ ids) && negb (terminal (tp_Status t)) && unanswered_echo t.

Definition settleUnansweredCommandEchoTurns (baseline : SessionProjection) (ids : gset string) : SessionProjection :=
  if bool_decide (ids = ∅) || bool_decide (sp_Turns baseline = []) then baseline
  else
    let settled := map tp_TurnID (filter (fun t => settle_echo ids t = true) (sp_Turns baseline)) in
    let turns := map (fun t => if settle_echo ids t then set_tp_Status "completed" t else t) (sp_Turns baseline) in
    match settled with
    | [] => baseline
    | _ =>
        let baseline := set_sp_Turns turns baseline in
        let e := sp_Execution baseline in
        if bool_decide (ev_Phase e = "running") && negb (unset (ev_ActiveTurnID e))
           && bool_decide (ev_ActiveTurnID e ∈ settled)
        then set_sp_Execution (mkExecutionView "idle" "") baseline
        else baseline
    end.

Definition settleStaleCheckpointCommandEchoTurns (restored : SessionProjection) : SessionProjection :=
  settleUnansweredCommandEchoTurns restored (list_to_set (map tp_TurnID (sp_Turns restored))).

Definition reopen_turn (active : string) (t : TurnProjection) : TurnProjection :=
  if bool_decide (tp_TurnID t = active) && terminal (tp_Status t)
  then set_tp_CompletedAt 0 (set_tp_Status "running" t) else t.

Definition close_turn (at_ : Z) (t : TurnProjection) : TurnProjection :=
  if bool_decide (tp_Status t = "running") then
    let t := set_tp_Status "completed" t in
    if tp_CompletedAt t =? 0 then set_tp_CompletedAt at_ t else t
  else t.

Definition mergeHydrateBaselineWithLiveExecution (cold : SessionProjection) (live : option SessionProjection)
  : SessionProjection :=
  match live with
  | None => cold
  | Some live =>
      if executionInFlight (sp_Execution live) && negb (executionInFlight (sp_Execution cold)) then
        let active := ev_ActiveTurnID (sp_Execution live) in
        let cold := set_sp_Execution (sp_Execution live) cold in
        if unset active then cold else set_sp_Turns (map (reopen_turn active) (sp_Turns cold)) cold
      else if negb (executionInFlight (sp_Execution live)) && executionInFlight (sp_Execution cold) then
        set_sp_Turns (map (close_turn (sp_UpdatedAt cold)) (sp_Turns cold))
          (set_sp_Execution (sp_Execution live) cold)
      else cold
  end.

(** The live turns that are missing, each at most once. *)
Fixpoint missing_turns (have : gset string) (l : list TurnProjection) : list TurnProjection :=
  match l with
  | [] => []
  | t :: l =>
      if bool_decide (tp_TurnID t ∈ have) then missing_turns have l
      else t :: missing_turns ({[tp_TurnID t]} ∪ have) l
  end.

Definition unionColdBaselineWithLiveTurns (cold : SessionProjection) (live : option SessionProjection)
  : SessionProjection :=
  let merged := mergeHydrateBaselineWithLiveExecution cold live in
  match live with
  | None => merged
  | Some live =>
      let have := list_to_set (map tp_TurnID (sp_Turns merged)) in
      let merged := set_sp_Turns (sp_Turns merged ++ missing_turns have (sp_Turns live)) merged in
      if sp_SyncRev merged <? sp_SyncRev live then set_sp_SyncRev (sp_SyncRev live) merged else merged
  end.

(** ** Opening a hydrate *)

Record ProjectionHydrateAdmission : Type := mkAdmission {
  Leader : bool;
  AlreadyReady : bool;
  StartCursor : Z;
  StartCut : Z;
  CheckpointHit : bool;
  Done : option nat;
  StartCursors : list Z
}.
Definition no_admission : ProjectionHydrateAdmission := mkAdmission false false 0 0 false None [].

Inductive KernelError : Type :=
| KInvalidAdmission | KSuperseded | KStore (e : StoreError) | KNotActive | KReconcileNotReady | KNoCommittedState
| KReconcileNotActive | KNotReady (phase : string).

(** What the leader carries from the first step to the second: its transaction and
    channel, whether it catches up from memory and from where, and the store. *)
Record hydrate_leader : Type := mkLeader {
  ld_tx : nat; ld_catchUp : bool; ld_from : Z; ld_store : bool
}.

Section Kernel.
Context (event_attachments : value -> list ProjectionAttachment) (part_blocks : value -> list ProjectionPart).

Abbreviation apply_event_to := (Apply event_attachments part_blocks).

(** The READY session is good enough for the source. *)
Definition already_ready (source : ProjectionSourceDescriptor) (sourceChanged : bool) (s : projectionKernelSession)
  : bool :=
  negb (negb (no_segments source) && negb (projectionSourceDescriptorsEqual source (committedSource s)))
  && negb (negb (unset (sd_Path source)) && (sd_Cursor source >? committedSourceCursor s))
  && negb (unset (sd_Path source) && sourceChanged).

(** The reducer a transaction starts from. *)
Definition start_reducer (order : list string) (backendID sessionID : string) (source : ProjectionSourceDescriptor)
    (sourceChanged union catchUp : bool) (k : ProjectionKernel) : option ProjectionReducer :=
  let existing := CommittedSnapshot backendID sessionID k in
  let restore := match existing with
    | Some p => Restore order backendID sessionID p NewProjectionReducer
    | None => Some NewProjectionReducer
    end in
  if catchUp then restore
  else if unset (sd_Path source) && negb (pathlessFullRebuildSource backendID source) && negb union
          && negb sourceChanged && no_segments source then restore
  else Some NewProjectionReducer.

(** [BeginHydrateTransaction] up to the release of the lock: an answer, or the
    leader whose transaction is now installed. *)
Definition BeginHydrateTransaction (order : list string) (now : Z) (backendID sessionID : string)
    (source : ProjectionSourceDescriptor) (explicitRetry sourceChanged isLive : bool) (k : ProjectionKernel)
  : option ((KernelError + ProjectionHydrateAdmission + hydrate_leader) * ProjectionKernel) :=
  let s := sessionLocked backendID sessionID k in
  if unset backendID || unset sessionID || (sd_Cursor source <? 0) then Some (inl (inl KInvalidAdmission), k)
  else if is_phase ProjectionHydrateReady s && already_ready source sourceChanged s
  then Some (inl (inr (mkAdmission false true 0 0 false None [])), k)
  else if is_phase ProjectionHydrateHydrating s then
    Some (inl (inr (match hydrate s with
                    | Some tx => mkAdmission false false (tx_startCursor tx) (tx_startCut tx) false (hydrateDone s) []
                    | None => mkAdmission false false 0 0 false (hydrateDone s) []
                    end)), k)
  else if is_phase ProjectionHydrateFailed s && retry_refused now explicitRetry sourceChanged s
  then Some (inl (inr no_admission), k)
  else
    let catchUpFrom := committedSourceCursor s in
    let catchUp := is_phase ProjectionHydrateReady s && negb (unset (sd_Path source))
                   && (sd_Cursor source >? catchUpFrom) in
    let union := bool_decide (backendID = "dsh-web") && unset (sd_Path source) && no_segments source
                 && negb (coldBaseline s) && HasReducerState backendID sessionID k in
    (fun r =>
       let tx := mkTransaction (next_tx k) source 0 (sd_Cursor source) r 0 [] false isLive
                   (String.prefix liveOnlyAdmissionSourcePrefix (sd_Identity source)) union false false ∅ in
       let s := set_hydrateDone (Some (next_tx k)) (set_hydrate (Some tx)
                  (set_status (mkStatus ProjectionHydrateHydrating None) s)) in
       (inr (mkLeader (next_tx k) catchUp catchUpFrom (k_has_store k)),
        set_next_tx (S (next_tx k)) (put_session backendID sessionID s k)))
    <$> start_reducer order backendID sessionID source sourceChanged union catchUp k.

(** The projection of a checkpoint as it is restored. *)
Definition restored_checkpoint (backendID : string) (c : ProjectionCheckpoint) : SessionProjection :=
  let restored := cp_Projection c in
  let restored := if bool_decide (backendID = "codex-remote") then snd (RecoverOrphanDetailLoadingV2 restored)
                  else restored in
  settleStaleCheckpointCommandEchoTurns restored.

Definition start_cursors (source : ProjectionSourceDescriptor) (c : ProjectionCheckpoint) : list Z :=
  if no_segments source then [] else map sk_Cursor (cp_Sources c).

Definition start_cursor (source : ProjectionSourceDescriptor) (c : ProjectionCheckpoint) : Z :=
  if no_segments source then sk_Cursor (cp_Source c) else sum_with sk_Cursor (cp_Sources c).

(** The second critical section: the answer of the leader, unless its transaction
    was superseded. [restored] is the projection to restore into the transaction. *)
Definition admit_leader (order : list string) (backendID sessionID : string) (ld : hydrate_leader) (hit : bool)
    (cursor : Z) (cursors : list Z) (restored : option SessionProjection) (k : ProjectionKernel)
  : option ((KernelError + ProjectionHydrateAdmission) * ProjectionKernel) :=
  let s := sessionLocked backendID sessionID k in
  match active_tx s with
  | None => Some (inl KSuperseded, k)
  | Some tx =>
      if negb (bool_decide (tx_number tx = ld_tx ld)) then Some (inl KSuperseded, k)
      else
        (fun r =>
           let tx := set_tx_startCursor cursor (set_tx_reducer r tx) in
           (inr (mkAdmission true false cursor (tx_startCut tx) hit (Some (ld_tx ld)) cursors),
            put_session backendID sessionID (set_hydrate (Some tx) s) k))
        <$> match restored with
            | Some p => Restore order backendID sessionID p (tx_reducer tx)
            | None => Some (tx_reducer tx)
            end
  end.

(** After the lock was released: [loaded] is the answer of the store, which is asked
    when there is one and nothing is caught up from memory. *)
Definition LoadHydrateCheckpoint (order : list string) (now : Z) (jitter : option (Z -> Z))
    (backendID sessionID : string) (source : ProjectionSourceDescriptor)
    (loaded : StoreError + ProjectionCheckpoint) (message : string) (ld : hydrate_leader) (k : ProjectionKernel)
  : option ((KernelError + ProjectionHydrateAdmission) * ProjectionKernel) :=
  if ld_catchUp ld then admit_leader order backendID sessionID ld true (ld_from ld) [] None k
  else if negb (ld_store ld) then admit_leader order backendID sessionID ld false 0 [] None k
  else
    match loaded with
    | inr c =>
        admit_leader order backendID sessionID ld true (start_cursor source c) (start_cursors source c)
          (if pathlessFullRebuildSource backendID source then None else Some (restored_checkpoint backendID c)) k
    | inl EOther =>
        let '(_, k) := MarkFailed now jitter backendID sessionID "projection.checkpoint_read_failed" message true k in
        Some (inl (KStore EOther), k)
    | inl _ => admit_leader order backendID sessionID ld false 0 [] None k
    end.

(** ** Feeding it *)

(** The turn a cold event refers to. *)
Definition armed_turn (data : data_map) : option string :=
  match string_field data "turnId" with
  | Some t =>
      if unset t then match string_field data "itemId" with
                      | Some i => if unset i then None else Some i | None => None end
      else Some t
  | None => match string_field data "itemId" with Some i => if unset i then None else Some i | None => None end
  end.

Definition hydrate_event (backendID sessionID bridgeEpoch event : string) (data : data_map) (seq : Z) : EventMessage :=
  mkEventMessage "" "" 0 seq bridgeEpoch sessionID backendID event (cloneProjectionJSONValue (VMap data)) "" false 0.

Definition ApplyHydrateEvent (now : Z) (backendID sessionID bridgeEpoch event : string) (data : data_map)
    (k : ProjectionKernel) : bool * ProjectionKernel :=
  let s := sessionLocked backendID sessionID k in
  match active_tx s with
  | None => (false, k)
  | Some tx =>
      let armed := match armed_turn data with
        | Some t => {[t]} ∪ coldArmedTurnIDs tx | None => coldArmedTurnIDs tx end in
      let n := nextInput tx + 1 in
      let before := LastAppliedRev backendID sessionID (tx_reducer tx) in
      let r := apply_event_to (hydrate_event backendID sessionID bridgeEpoch event data n) now (tx_reducer tx) in
      let tx := set_coldArmedTurnIDs armed (set_nextInput n (set_tx_reducer r tx)) in
      (negb (LastAppliedRev backendID sessionID r =? before), put_session backendID sessionID (set_hydrate (Some tx) s) k)
  end.

Inductive ProjectionIngestResult : Type :=
  ProjectionIngestNoChange | ProjectionIngestApplied | ProjectionIngestDeferred.

(** The event with its payload copied. *)
Definition queued (msg : EventMessage) : EventMessage :=
  mkEventMessage (Type_ msg) (EventID msg) (Seq msg) (PerSessionSeq msg) (BridgeEpoch msg) (SessionID msg)
    (BackendID msg) (Event msg) (cloneProjectionJSONValue (Data msg)) (Message msg) (Replayable msg) (Timestamp msg).

(** [IngestLive]: what became of the event, and the turn whose git checkpoint it
    stages, if any. *)
Definition IngestLive (now : Z) (msg : EventMessage) (k : ProjectionKernel)
  : (ProjectionIngestResult * option Z) * ProjectionKernel :=
  let s := sessionLocked (BackendID msg) (SessionID msg) k in
  match active_tx s with
  | Some tx =>
      let tx := set_liveArrived true (set_pendingLive (pendingLive tx ++ [queued msg]) tx) in
      ((ProjectionIngestDeferred, None), put_session (BackendID msg) (SessionID msg) (set_hydrate (Some tx) s) k)
  | None =>
      let before := LastAppliedRev (BackendID msg) (SessionID msg) (k_reducer k) in
      let r := apply_event_to msg now (k_reducer k) in
      let advanced := negb (LastAppliedRev (BackendID msg) (SessionID msg) r =? before) in
      let turnN := TurnCount (BackendID msg) (SessionID msg) r in
      let staged := if advanced && bool_decide (Event msg = "turn_completed") && stages_turns k && (turnN >? 0)
                    then Some turnN else None in
      ((if advanced then ProjectionIngestApplied else ProjectionIngestNoChange, staged), set_k_reducer r k)
  end.

Definition MarkHydrateSourceIngestComplete (backendID sessionID : string) (k : ProjectionKernel) : ProjectionKernel :=
  let s := sessionLocked backendID sessionID k in
  match active_tx s with
  | None => k
  | Some tx =>
      put_session backendID sessionID
        (set_hydrate (Some (set_liveArrived true (set_sourceIngestComplete true tx))) s) k
  end.

(** ** Waiting for it *)

(** Live events applied in order, each at its instant; the reducer and the
    identities of those that advanced it. *)
Fixpoint drain_live (now : nat -> Z) (l : list EventMessage) (r : ProjectionReducer)
  : list string * ProjectionReducer :=
  match l with
  | [] => ([], r)
  | msg :: l =>
      let before := LastAppliedRev (BackendID msg) (SessionID msg) r in
      let r := apply_event_to msg (now O) r in
      let advanced := negb (LastAppliedRev (BackendID msg) (SessionID msg) r =? before) in
      let '(ids, r) := drain_live (fun i => now (S i)) l r in
      ((if advanced && negb (unset (EventID msg)) then [EventID msg] else []) ++ ids, r)
  end.

(** The condition [WaitHydrateCommitReady] evaluates under the lock: [None] when no
    transaction is active. *)
Definition hydrate_ready (order : list string) (now : nat -> Z) (backendID sessionID : string) (k : ProjectionKernel)
  : option (option bool) :=
  match active_tx (sessionLocked backendID sessionID k) with
  | None => Some None
  | Some tx =>
      (fun preview =>
         let preview := snd (drain_live now (pendingLive tx) preview) in
         Some (sourceIngestComplete tx
               && (sourceIsLive tx
                   || (NonTerminalTurnCountInSetIgnoringUnansweredCommandEchoTurns backendID sessionID
                         (coldArmedTurnIDs tx) preview =? 0))))
      <$> match Snapshot backendID sessionID (tx_reducer tx) with
          | Some baseline => Restore order backendID sessionID baseline NewProjectionReducer
          | None => Some NewProjectionReducer
          end
  end.

(** The waiter takes the token of the channel, if there is one. *)
Definition take_token (backendID sessionID : string) (k : ProjectionKernel) : option ProjectionKernel :=
  let s := sessionLocked backendID sessionID k in
  match hydrate s with
  | Some tx =>
      if liveArrived tx then Some (put_session backendID sessionID (set_hydrate (Some (set_liveArrived false tx)) s) k)
      else None
  | None => None
  end.

(** ** Ending it *)

Record ProjectionHydrateCommit : Type := mkCommit {
  hc_Projection : SessionProjection;
  hc_PendingLive : Z;
  hc_PendingPatch : option ProjectionPatch;
  hc_AppliedPendingEventIDs : list string
}.

Definition tx_baseline (backendID sessionID : string) (tx : projectionHydrateTransaction) : SessionProjection :=
  default (empty_projection sessionID) (Snapshot backendID sessionID (tx_reducer tx)).

(** The baseline a commit publishes. *)
Definition commit_baseline (backendID sessionID : string) (tx : projectionHydrateTransaction) (r : ProjectionReducer)
  : SessionProjection :=
  let live := Snapshot backendID sessionID r in
  let cold := tx_baseline backendID sessionID tx in
  let merged :=
    if reconcile tx then cold
    else if unionLiveTurns tx then unionColdBaselineWithLiveTurns cold live
    else mergeHydrateBaselineWithLiveExecution cold live in
  settleUnansweredCommandEchoTurns merged (coldArmedTurnIDs tx).

Definition zero_projection : SessionProjection :=
  mkSessionProjection "" 0 "" 0 (mkExecutionView "" "") [] None None None None None.

(** Draining the queue into a reducer and flushing what it changed. *)
Definition drain_and_flush (now : nat -> Z) (backendID sessionID : string) (tx : projectionHydrateTransaction)
    (r : ProjectionReducer) : ProjectionHydrateCommit * ProjectionReducer :=
  let '(ids, r) := drain_live now (pendingLive tx) r in
  let committed := default zero_projection (Snapshot backendID sessionID r) in
  let '(patch, r) := FlushPatch backendID sessionID r in
  (mkCommit committed (zlen (pendingLive tx)) patch ids, r).

Definition CommitHydrateTransaction (order : list string) (now : nat -> Z) (backendID sessionID : string)
    (k : ProjectionKernel) : option ((KernelError + ProjectionHydrateCommit) * ProjectionKernel) :=
  let s := sessionLocked backendID sessionID k in
  match active_tx s with
  | None => Some (inl KNotActive, k)
  | Some tx =>
      (fun r =>
         let '(commit, r) := drain_and_flush now backendID sessionID tx r in
         let s' := set_status (mkStatus ProjectionHydrateReady None) s in
         let s' := if liveOnlyAdmission tx then s' else set_coldBaseline true s' in
         let s' := set_committedSource (tx_source tx) (set_committedSourceCursor (tx_startCut tx) s') in
         let s' := set_failureAttempts 0 (finishHydrateLocked (set_hydrate None s')) in
         (inr commit, put_session backendID sessionID s' (close_done s (set_k_reducer r k))))
      <$> Restore order backendID sessionID (commit_baseline backendID sessionID tx (k_reducer k)) (k_reducer k)
  end.

(** ** Reconciling a READY session *)

Definition BeginReconcileTransaction (order : list string) (backendID sessionID : string) (k : ProjectionKernel)
  : option ((KernelError + ProjectionHydrateAdmission) * ProjectionKernel) :=
  let s := sessionLocked backendID sessionID k in
  if unset backendID || unset sessionID then Some (inl KInvalidAdmission, k)
  else if negb (is_phase ProjectionHydrateReady s) then Some (inl KReconcileNotReady, k)
  else
    match CommittedSnapshot backendID sessionID k with
    | None => Some (inl KNoCommittedState, k)
    | Some committed =>
        (fun r =>
           let cursor := committedSourceCursor s in
           let tx := mkTransaction (next_tx k) (committedSource s) cursor cursor r 0 [] false false false false true
                       false ∅ in
           let s := set_hydrateDone (Some (next_tx k)) (set_hydrate (Some tx)
                      (set_status (mkStatus ProjectionHydrateHydrating None) s)) in
           (inr (mkAdmission true false cursor cursor false (Some (next_tx k)) []),
            set_next_tx (S (next_tx k)) (put_session backendID sessionID s k)))
        <$> Restore order backendID sessionID committed NewProjectionReducer
    end.

Definition AbortReconcileTransaction (now : nat -> Z) (backendID sessionID : string) (k : ProjectionKernel)
  : (KernelError + ProjectionHydrateCommit) * ProjectionKernel :=
  let s := sessionLocked backendID sessionID k in
  match active_tx s with
  | None => (inl KReconcileNotActive, k)
  | Some tx =>
      if negb (reconcile tx) then (inl KReconcileNotActive, k)
      else
        let '(commit, r) := drain_and_flush now backendID sessionID tx (k_reducer k) in
        let s' := finishHydrateLocked (set_hydrate None (set_status (mkStatus ProjectionHydrateReady None) s)) in
        (inr commit, put_session backendID sessionID s' (close_done s (set_k_reducer r k)))
  end.

(** ** What a READY session accepts *)

(** A call of the reducer behind the READY gate. *)
Definition ready_gate {E A : Type} (f : ProjectionReducer -> (E + A) * ProjectionReducer)
    (backendID sessionID : string) (k : ProjectionKernel) : (KernelError + (E + A)) * ProjectionKernel :=
  let s := sessionLocked backendID sessionID k in
  if negb (is_phase ProjectionHydrateReady s) then (inl (KNotReady (Phase (status s))), k)
  else let '(res, r) := f (k_reducer k) in (inr res, set_k_reducer r k).

Definition kernel_prepend (backendID sessionID : string) (turns : list TurnProjection) :=
  ready_gate (PrependHistoricalTurns backendID sessionID turns) backendID sessionID.
Definition kernel_merge_detail (backendID sessionID turnID : string) (generation : Z) (parts : list ProjectionPart) :=
  ready_gate (MergeHistoricalTurnDetail backendID sessionID turnID generation parts) backendID sessionID.

(** An empty batch answers nothing; the gate is not asked. *)
Definition kernel_commit_states (v2 : bool) (backendID sessionID : string) (ops : list TurnStateOp)
    (k : ProjectionKernel) :=
  match ops with
  | [] => (None, k)
  | _ =>
      let '(res, k) := ready_gate ((if v2 then CommitTurnStateOpsV2 else CommitTurnStateOps) backendID sessionID ops)
                         backendID sessionID k in (Some res, k)
  end.

Definition FlushProjectionPatch (backendID sessionID : string) (k : ProjectionKernel)
  : option ProjectionPatch * ProjectionKernel :=
  let '(patch, r) := FlushPatch backendID sessionID (k_reducer k) in (patch, set_k_reducer r k).

(** ** Checkpoints of the kernel *)

Definition kernel_stage (now : Z) (c : ProjectionCheckpoint) (settled : bool) (k : ProjectionKernel)
  : option StoreError * ProjectionKernel :=
  let s := sessionLocked (cp_BackendID c) (cp_SessionID c) k in
  let '(err, w) := StageCheckpoint (checkpointPolicy k) (k_has_store k) now c settled (ks_writer s) in
  (err, put_session (cp_BackendID c) (cp_SessionID c) (set_ks_writer w s) k).

Definition kernel_flush (backendID sessionID : string) (waiter : nat) (k : ProjectionKernel)
  : (option StoreError + nat) * ProjectionKernel :=
  let s := sessionLocked backendID sessionID k in
  let '(res, w) := FlushCheckpoint (checkpointPolicy k) (k_has_store k) waiter (ks_writer s) in
  (res, put_session backendID sessionID (set_ks_writer w s) k).

(** The producer state of a session, through the store if there is one: [answer] is
    the store's. *)
Definition kernel_load_producer (answer : StoreError + option CodexProducerState) (k : ProjectionKernel)
  : StoreError + option CodexProducerState := if k_has_store k then answer else inr None.
Definition kernel_save_producer (answer : option StoreError) (k : ProjectionKernel) : option StoreError :=
  if k_has_store k then answer else None.

(** The session fields [RestoreCheckpoint] sets. *)
Definition restored_writer (rev : Z) (w : writer_system) : writer_system :=
  set_writer (mkWriter rev (pending (writer w)) (writeInFlight (writer w)) (timer (writer w)) (forceWrite (writer w))
                (waiters (writer w)) None) w.

Definition RestoreCheckpoint (order : list string) (backendID sessionID : string)
    (source : ProjectionSourceDescriptor) (loaded : StoreError + ProjectionCheckpoint) (k : ProjectionKernel)
  : option ((StoreError + ProjectionCheckpoint) * ProjectionKernel) :=
  if negb (k_has_store k) then Some (inl EDisabled, k)
  else
    match loaded with
    | inl e => Some (inl e, k)
    | inr c =>
        (fun r =>
           let s := sessionLocked backendID sessionID k in
           let s := set_status (mkStatus ProjectionHydrateReady None) (set_failureAttempts 0 s) in
           let s := set_ks_writer (restored_writer (cp_ProjectionRev c) (ks_writer s)) s in
           let cursor := if no_segments source then sk_Cursor (cp_Source c) else sd_Cursor source in
           let s := set_committedSource source (set_committedSourceCursor cursor s) in
           let s := set_claudeSourceState (cp_ClaudeSourceState c) s in
           (inr (set_cp_Projection (cloneSessionProjection (cp_Projection c)) c),
            put_session backendID sessionID s (set_k_reducer r k)))
        <$> Restore order backendID sessionID (cp_Projection c) (k_reducer k)
    end.

(** ** The Claude ledger and its batches (projection_source_transaction.go) *)

Inductive ClaudeSourceBatchStatus : Type :=
| ClaudeSourceBatchAcceptedProjection | ClaudeSourceBatchAcceptedSourceOnly | ClaudeSourceBatchAlreadyApplied
| ClaudeSourceBatchRejected.

Inductive claudeSourceRowContentClass : Type :=
  claudeRowContentProjectable | claudeRowContentProvenNoDisplay | claudeRowContentUnsupported.

Record projectionHydrateEvent : Type := mkHydrateEvent {
  he_Event : string; he_Data : data_map; he_TurnDone : bool; he_SourceBlockOrdinal : option Z
}.

Record ClaudeSourceRecordBatch : Type := mkBatch {
  bt_BackendID : string;
  bt_SessionID : string;
  bt_BridgeEpoch : string;
  bt_Record : ClaudeSourceRecordTransition;
  bt_Events : list projectionHydrateEvent;
  bt_RowClass : claudeSourceRowContentClass
}.

(** [ClaudeSourceBatchResult] of a batch that is not rejected. *)
Record ClaudeSourceBatchResult : Type := mkBatchResult {
  br_Status : ClaudeSourceBatchStatus;
  br_SourceStateRev : Z;
  br_PhysicalRowsAcknowledged : Z;
  br_LogicalRecordsChanged : Z;
  br_ProjectionSubeventsApplied : Z;
  br_TraceIdentity : string * string
}.

Inductive BatchError : Type :=
| BInput | BNotInstalled | BRange | BGeneration | BUnproven | BGap | BLedger (e : LedgerError) | BNoSubevents.

Context (sha256hex : string -> string).
Context (recode_json : string -> option string) (marshal_strings : list string -> string).

Definition InstallClaudeSourceState (backendID sessionID : string) (state : ClaudeSourceState) (k : ProjectionKernel)
  : option BatchError * ProjectionKernel :=
  if unset backendID || unset sessionID then (Some BInput, k)
  else
    match ValidateClaudeSourceState state with
    | Some e => (Some (BLedger e), k)
    | None =>
        let s := sessionLocked backendID sessionID k in
        (None, put_session backendID sessionID (set_claudeSourceState (Some state) s) k)
    end.

Definition ClaudeSourceStateSnapshot (backendID sessionID : string) (k : ProjectionKernel) : option ClaudeSourceState :=
  claudeSourceState (sessionLocked backendID sessionID k).

Definition event_string (key : string) (data : data_map) : string := default "" (string_field data key).

Fixpoint claudeProjectionTraceIdentity (events : list projectionHydrateEvent) : string * string :=
  match events with
  | [] => ("", "")
  | e :: events =>
      let turnID := event_string "turnId" (he_Data e) in
      let partID := event_string "itemId" (he_Data e) in
      if unset turnID && unset partID then claudeProjectionTraceIdentity events else (turnID, partID)
  end.

(** The subevents of the blocks that are new. *)
Definition new_events (p : ClaudeSourceTransitionProposal) (b : ClaudeSourceRecordBatch) : list projectionHydrateEvent :=
  let newCount := zlen (NewBlockOccurrenceIDs p) in
  let blocks := zlen (rt_ContentBlocks (bt_Record b)) in
  if newCount <? blocks then
    filter (fun e => match he_SourceBlockOrdinal e with None => true | Some n => blocks - newCount <=? n end = true)
      (bt_Events b)
  else bt_Events b.

(** The loop over the subevents on the copied reducer: each takes its number from
    the issuer of the kernel. *)
Fixpoint apply_batch_events (now : nat -> Z) (b : ClaudeSourceRecordBatch) (events : list projectionHydrateEvent)
    (r : ProjectionReducer) (k : ProjectionKernel) : Z * ProjectionReducer * ProjectionKernel :=
  match events with
  | [] => (0, r, k)
  | e :: events =>
      let '(seq, k) := IssueSessionSeq (bt_BackendID b) (bt_SessionID b) k in
      let before := LastAppliedRev (bt_BackendID b) (bt_SessionID b) r in
      let msg := hydrate_event (bt_BackendID b) (bt_SessionID b) (bt_BridgeEpoch b) (he_Event e) (he_Data e) seq in
      let r := apply_event_to msg (now O) r in
      let advanced := negb (LastAppliedRev (bt_BackendID b) (bt_SessionID b) r =? before) in
      let '(applied, r, k) := apply_batch_events (fun i => now (S i)) b events r k in
      ((if advanced then applied + 1 else applied), r, k)
  end.

(** The commit of the ledger alone. *)
Definition commit_source_only (b : ClaudeSourceRecordBatch) (s : projectionKernelSession) (state : ClaudeSourceState)
    (p : ClaudeSourceTransitionProposal) (changed : Z) (k : ProjectionKernel)
  : (BatchError + ClaudeSourceBatchResult) * ProjectionKernel :=
  match CommitClaudeSourceTransition state p with
  | inl e => (inl (BLedger e), k)
  | inr next =>
      (inr (mkBatchResult ClaudeSourceBatchAcceptedSourceOnly (cs_SourceStateRev (Next p)) 1 changed 0 ("", "")),
       put_session (bt_BackendID b) (bt_SessionID b) (set_claudeSourceState (Some next) s) k)
  end.

Definition ApplyClaudeSourceRecordBatch (now : nat -> Z) (b : ClaudeSourceRecordBatch) (k : ProjectionKernel)
  : (BatchError + ClaudeSourceBatchResult) * ProjectionKernel :=
  let r := bt_Record b in
  let s := sessionLocked (bt_BackendID b) (bt_SessionID b) k in
  if unset (bt_BackendID b) || unset (bt_SessionID b) then (inl BInput, k)
  else
    match claudeSourceState s with
    | None => (inl BNotInstalled, k)
    | Some current =>
        if (rt_RawByteStart r <? 0) || (rt_RawByteEnd r <=? rt_RawByteStart r) then (inl BRange, k)
        else
          match claudeSourceCursorForSegment current (rt_SegmentStableKey r) with
          | None => (inl BGeneration, k)
          | Some cursor =>
              if negb (bool_decide (cc_SegmentGeneration cursor = rt_SegmentGeneration r)) then (inl BGeneration, k)
              else if rt_RawByteEnd r <=? cc_RawByteEnd cursor then
                if negb (rt_RawByteEnd r =? cc_RawByteEnd cursor) && negb (claudeSourceOccurrenceExists current r)
                then (inl BUnproven, k)
                else (inr (mkBatchResult ClaudeSourceBatchAlreadyApplied (cs_SourceStateRev current) 0 0 0 ("", "")), k)
              else if negb (rt_RawByteStart r =? cc_RawByteEnd cursor) then (inl BGap, k)
              else
                match ProposeClaudeSourceTransition sha256hex recode_json marshal_strings current r with
                | inl e => (inl (BLedger e), k)
                | inr p =>
                    match Result p with
                    | ClaudeTransitionAcceptedSourceOnly => commit_source_only b s current p 0 k
                    | ClaudeTransitionAcceptedProjection =>
                        match bt_Events b, bt_RowClass b with
                        | [], claudeRowContentProvenNoDisplay => commit_source_only b s current p 1 k
                        | [], _ => (inl BNoSubevents, k)
                        | _, _ =>
                            let events := new_events p b in
                            let clone := cloneSessionReducer (bt_BackendID b) (bt_SessionID b) (k_reducer k) in
                            let '(applied, reduced, k) := apply_batch_events now b events clone k in
                            if applied =? 0 then commit_source_only b s current p 1 k
                            else
                              let reducer := swapSessionFrom (bt_BackendID b) (bt_SessionID b) reduced (k_reducer k) in
                              (inr (mkBatchResult ClaudeSourceBatchAcceptedProjection (cs_SourceStateRev (Next p)) 1 1
                                      applied (claudeProjectionTraceIdentity events)),
                               put_session (bt_BackendID b) (bt_SessionID b)
                                 (set_claudeSourceState (Some (Next p)) s) (set_k_reducer reducer k))
                        end
                    end
                end
          end
    end.

Definition AcknowledgeClaudeSourceRange (backendID sessionID key generation : string) (byteEnd : Z)
    (k : ProjectionKernel) : option AckError * ProjectionKernel :=
  let s := sessionLocked backendID sessionID k in
  if unset backendID || unset sessionID || unset key || (byteEnd <? 0) then (Some AckInput, k)
  else
    match claudeSourceState s with
    | None => (Some AckNotInstalled, k)
    | Some state =>
        match acknowledge key generation byteEnd state with
        | inl e => (Some e, k)
        | inr next => (None, put_session backendID sessionID (set_claudeSourceState (Some next) s) k)
        end
    end.

Definition PrepareClaudeCheckpointCandidate (now : Z) (c : ProjectionCheckpoint) (k : ProjectionKernel)
  : StoreError + ProjectionCheckpoint :=
  if unset (cp_BackendID c) || unset (cp_SessionID c) then inl EInvalid
  else
    match claudeSourceState (sessionLocked (cp_BackendID c) (cp_SessionID c) k),
          CommittedSnapshot (cp_BackendID c) (cp_SessionID c) k with
    | Some state, Some projection =>
        inr (mkCheckpoint (if cp_SchemaVersion c =? 0 then projectionCheckpointSchemaVersion else cp_SchemaVersion c)
               (cp_BackendID c) (cp_SessionID c) (cp_Source c) (cp_Sources c) projection (sp_SyncRev projection)
               ProjectionHydrateReady (if cp_UpdatedAt c =? 0 then now else cp_UpdatedAt c) (Some state)
               (cp_CodexProducerState c))
    | _, _ => inl EInvalid
    end.
End Kernel.
