(* ===== verification/KernelProps.v ===== *)
(** * What the projection kernel guarantees (theorems on [Kernel])

    Through a hydrate or a reconcile of a session, live events are neither lost,
    reordered nor applied twice, and nobody sees a half-built baseline; one caller
    leads a hydrate and everyone who waits for it is woken; a batch of a Claude
    transcript moves the ledger and the projection together or not at all. *)

From S2P Require Import Prelude.
From S2P Require Import Wire.
From S2P Require Import Projection.
From S2P Require Import ProjectionFields.
From S2P Require Import ReducerParts.
From S2P Require Import Reducer.
From S2P Require Import ReducerPatch.
From S2P Require Import TurnDetail.
From S2P Require Import ReducerInvariant.
From S2P Require Import ReducerTurns.
From S2P Require Import SourceLedger.
From S2P Require Import Checkpoint.
From S2P Require Import CheckpointWriter.
From S2P Require Import Kernel.

Abbreviation key_of := (fun msg => projectionSessionKey (BackendID msg) (SessionID msg)).

(** ** The reducer, one session at a time *)

Section Local.
Context (ea : value -> list ProjectionAttachment) (pb : value -> list ProjectionPart).

Abbreviation apply := (Apply ea pb).
Abbreviation drain := (drain_live ea pb).

Definition refused_event (msg : EventMessage) : bool :=
  bool_decide (BackendID msg = "") || bool_decide (SessionID msg = "") || (PerSessionSeq msg =? 0).

Lemma Apply_lookup msg now r key :
  apply msg now r !! key =
    if bool_decide (key_of msg = key) && negb (refused_event msg)
    then Some (apply_session ea pb msg now (default (new_session (SessionID msg)) (r !! key))) else r !! key.
Proof.
  unfold Apply, refused_event. destruct (_ || _); [by rewrite andb_false_r|]. rewrite andb_true_r. cbv zeta.
  case_bool_decide as Hk; [subst key; by rewrite lookup_insert_eq|by rewrite lookup_insert_ne].
Qed.

(** Two reducers that agree on a session. *)
Definition agree (key : string) (r r' : ProjectionReducer) : Prop := r !! key = r' !! key.

Lemma LastAppliedRev_agree b s r r' :
  agree (projectionSessionKey b s) r r' -> LastAppliedRev b s r = LastAppliedRev b s r'.
Proof. unfold agree, LastAppliedRev. by intros ->. Qed.

Lemma Apply_agree key msg now r r' : agree key r r' -> agree key (apply msg now r) (apply msg now r').
Proof. unfold agree. intros H. rewrite !Apply_lookup. by rewrite H. Qed.

Lemma Apply_other key msg now r : key_of msg <> key -> agree key (apply msg now r) r.
Proof. intros H. unfold agree. rewrite Apply_lookup, bool_decide_eq_false_2; done. Qed.

(** What a drain does to a session depends on that session alone. *)
Lemma drain_agree key now l r r' :
  Forall (fun msg => key_of msg = key) l -> agree key r r' ->
  fst (drain now l r) = fst (drain now l r') /\ agree key (snd (drain now l r)) (snd (drain now l r')).
Proof.
  intros Hl. revert now r r'. induction Hl as [|msg l Hm Hl IH]; intros now r r' H; simpl; [done|].
  pose proof (Apply_agree key msg (now O) r r' H) as Ha.
  assert (forall x y, agree key x y -> LastAppliedRev (BackendID msg) (SessionID msg) x =
    LastAppliedRev (BackendID msg) (SessionID msg) y) as Hr by (intros x y Hxy; apply LastAppliedRev_agree; by rewrite Hm).
  destruct (IH (fun i => now (S i)) _ _ Ha) as [I1 I2].
  rewrite (Hr _ _ H), (Hr _ _ Ha). destruct (drain _ l (apply msg (now O) r)), (drain _ l (apply msg (now O) r')).
  cbn in *. by rewrite I1.
Qed.

Lemma FlushPatch_agree b s r r' :
  agree (projectionSessionKey b s) r r' ->
  fst (FlushPatch b s r) = fst (FlushPatch b s r') /\
  agree (projectionSessionKey b s) (snd (FlushPatch b s r)) (snd (FlushPatch b s r')).
Proof.
  unfold agree, FlushPatch. intros H. rewrite H. destruct (r' !! _) as [ps|] eqn:E; [|cbn; split; congruence].
  destruct (flushLocked ps). cbn. by rewrite !lookup_insert_eq.
Qed.

Lemma Snapshot_agree b s r r' : agree (projectionSessionKey b s) r r' -> Snapshot b s r = Snapshot b s r'.
Proof. unfold agree, Snapshot. by intros ->. Qed.

Lemma projection_stageOwning ps : projection (stageOwningTurnsForPendingParts ps) = projection ps.
Proof.
  assert (forall id x, projection (stageTurnForFlush id x) = projection x) as Hf.
  { intros id x. unfold stageTurnForFlush, stage. repeat case_match; reflexivity. }
  unfold stageOwningTurnsForPendingParts. cbv zeta.
  apply (fold_left_keeps (fun x => projection x = projection ps)); [intros x ? <-; apply Hf|].
  apply (fold_left_keeps (fun x => projection x = projection ps)); [intros x ? <-; apply Hf|].
  case_if; [done|apply Hf].
Qed.

(** A flush does not change what a session reads. *)
Lemma Snapshot_FlushPatch b s r : Snapshot b s (snd (FlushPatch b s r)) = Snapshot b s r.
Proof.
  unfold FlushPatch, Snapshot. destruct (r !! _) as [ps|] eqn:E; [|cbn; by rewrite E].
  destruct (flushLocked ps) as [p ps'] eqn:Ef. cbn. rewrite lookup_insert_eq. cbn. do 2 f_equal.
  unfold flushLocked in Ef. destruct (_ && no_view _); injection Ef as _ <-; apply projection_stageOwning.
Qed.

Lemma queued_id msg : queued msg = msg.
Proof. unfold queued. rewrite cloneProjectionJSONValue_id. by destruct msg. Qed.
End Local.

(** ** The window of a transaction *)

(** What can happen to a session, and to others, while its transaction is open:
    live events, cold events, the end of the source, a waiter that takes its token,
    and calls that need a READY session. *)
Inductive window_op : Type :=
| WLive (now : Z) (msg : EventMessage)
| WCold (now : Z) (bridgeEpoch event : string) (data : data_map)
| WComplete
| WToken
| WExternal (now : Z) (phase : string)
| WPrepend (turns : list TurnProjection)
| WStates (v2 : bool) (ops : list TurnStateOp).

Section Kernel.
Context (ea : value -> list ProjectionAttachment) (pb : value -> list ProjectionPart).
Context (backendID sessionID : string).

Abbreviation key := (projectionSessionKey backendID sessionID).
Abbreviation drain := (drain_live ea pb).
Abbreviation session := (sessionLocked backendID sessionID).

Definition exec_window (op : window_op) (k : ProjectionKernel) : ProjectionKernel :=
  match op with
  | WLive now msg => snd (IngestLive ea pb now msg k)
  | WCold now bridgeEpoch event data => snd (ApplyHydrateEvent ea pb now backendID sessionID bridgeEpoch event data k)
  | WComplete => MarkHydrateSourceIngestComplete backendID sessionID k
  | WToken => default k (take_token backendID sessionID k)
  | WExternal now phase => snd (kernel_external now backendID sessionID phase k)
  | WPrepend turns => snd (kernel_prepend backendID sessionID turns k)
  | WStates v2 ops => snd (kernel_commit_states v2 backendID sessionID ops k)
  end.

Definition run_window (ops : list window_op) (k : ProjectionKernel) : ProjectionKernel :=
  fold_left (fun k op => exec_window op k) ops k.

(** The live events of the session, and the cold events it folds. *)
Definition own_live (ops : list window_op) : list EventMessage :=
  omap (fun op => match op with
    | WLive _ msg => if bool_decide (key_of msg = key) then Some msg else None | _ => None end) ops.

Lemma put_get s k : session (put_session backendID sessionID s k) = s.
Proof. unfold sessionLocked, put_session. cbn. by rewrite lookup_insert_eq. Qed.

Lemma put_other b' s' x k : projectionSessionKey b' s' <> key -> session (put_session b' s' x k) = session k.
Proof. intros H. unfold sessionLocked, put_session. cbn. by rewrite lookup_insert_ne. Qed.

Lemma session_key b' s' k : projectionSessionKey b' s' = key -> sessionLocked b' s' k = session k.
Proof. unfold sessionLocked. by intros ->. Qed.

Lemma put_key b' s' x k : projectionSessionKey b' s' = key -> put_session b' s' x k = put_session backendID sessionID x k.
Proof. unfold put_session. by intros ->. Qed.

Lemma close_done_frame s k :
  k_reducer (close_done s k) = k_reducer k /\ k_sessions (close_done s k) = k_sessions k /\
  next_tx (close_done s k) = next_tx k.
Proof. unfold close_done. by destruct (hydrateDone s). Qed.

Lemma active_phase s tx : active_tx s = Some tx -> is_phase ProjectionHydrateHydrating s = true /\ hydrate s = Some tx.
Proof. unfold active_tx. by destruct (is_phase _ s). Qed.

Lemma active_not_ready s tx : active_tx s = Some tx -> is_phase ProjectionHydrateReady s = false.
Proof.
  intros H. apply active_phase in H as [H _]. unfold is_phase in *. apply bool_decide_eq_true in H.
  apply bool_decide_eq_false. by rewrite H.
Qed.

Lemma active_put s tx tx' k : active_tx s = Some tx ->
  active_tx (session (put_session backendID sessionID (set_hydrate (Some tx') s) k)) = Some tx'.
Proof.
  intros H. rewrite put_get. apply active_phase in H as [H _]. unfold active_tx, is_phase in *. cbn. by rewrite H.
Qed.

(** What the operations of a window keep of a transaction. *)
Definition tx_frame (tx tx' : projectionHydrateTransaction) : Prop :=
  tx_number tx' = tx_number tx /\ tx_source tx' = tx_source tx /\ tx_startCut tx' = tx_startCut tx /\
  reconcile tx' = reconcile tx /\ unionLiveTurns tx' = unionLiveTurns tx /\
  liveOnlyAdmission tx' = liveOnlyAdmission tx.

Lemma window_step op k tx :
  active_tx (session k) = Some tx ->
  let k' := exec_window op k in
  agree key (k_reducer k') (k_reducer k) /\ closed_done k' = closed_done k /\ next_tx k' = next_tx k /\
  exists tx', session k' = set_hydrate (Some tx') (session k) /\ active_tx (session k') = Some tx' /\
    tx_frame tx tx' /\ pendingLive tx' = pendingLive tx ++ own_live [op].
Proof.
  intros Htx k'. pose proof (active_phase _ _ Htx) as [Hp Hh]. pose proof (active_not_ready _ _ Htx) as Hr.
  assert (session k = set_hydrate (Some tx) (session k)) as Hself.
  { rewrite <- Hh. by destruct (session k). }
  assert (agree key (k_reducer k) (k_reducer k) /\ closed_done k = closed_done k /\ next_tx k = next_tx k /\
    exists tx', session k = set_hydrate (Some tx') (session k) /\ active_tx (session k) = Some tx' /\
      tx_frame tx tx' /\ pendingLive tx' = pendingLive tx ++ []) as Hsame.
  { split; [done|]. split; [done|]. split; [done|]. exists tx. rewrite app_nil_r. done. }
  assert (forall tx', tx_frame tx tx' -> pendingLive tx' = pendingLive tx ++ own_live [op] ->
    k' = put_session backendID sessionID (set_hydrate (Some tx') (session k)) k ->
    agree key (k_reducer k') (k_reducer k) /\ closed_done k' = closed_done k /\ next_tx k' = next_tx k /\
    exists tx', session k' = set_hydrate (Some tx') (session k) /\ active_tx (session k') = Some tx' /\
      tx_frame tx tx' /\ pendingLive tx' = pendingLive tx ++ own_live [op]) as Hput.
  { intros tx' Hf Hl ->. split; [done|]. split; [done|]. split; [done|]. exists tx'.
    split; [by rewrite put_get|]. split; [by apply active_put with tx|done]. }
  destruct op as [now msg|now epoch event data| | |now phase|l|v2 ops]; subst k'; cbn [exec_window] in *.
  - unfold IngestLive in *. destruct (decide (projectionSessionKey (BackendID msg) (SessionID msg) = key)) as [Hk|Hk].
    + rewrite (session_key _ _ _ Hk), Htx in *. cbn [snd] in *. rewrite (put_key _ _ _ _ Hk) in *.
      eapply Hput; [| |reflexivity]; [done|]. cbn. rewrite bool_decide_eq_true_2 by done. by rewrite queued_id.
    + clear Hput. unfold own_live. cbn [omap list_omap]. rewrite (bool_decide_eq_false_2 (_ = key)) by done.
      destruct (active_tx (sessionLocked (BackendID msg) (SessionID msg) k)) as [tx'|]; cbn [snd].
      * rewrite put_other by done. exact Hsame.
      * split; [by apply Apply_other|]. exact (proj2 Hsame).
  - unfold ApplyHydrateEvent in *. rewrite Htx in *. cbn [snd] in *. eapply Hput; [| |reflexivity]; [done|].
    cbn. by rewrite app_nil_r.
  - unfold MarkHydrateSourceIngestComplete in *. rewrite Htx in *. eapply Hput; [| |reflexivity]; [done|].
    cbn. by rewrite app_nil_r.
  - unfold take_token in *. rewrite Hh in *. destruct (liveArrived tx); cbn [from_option id] in *; [|exact Hsame].
    eapply Hput; [| |reflexivity]; [done|]. cbn. by rewrite app_nil_r.
  - unfold kernel_external. rewrite Hr. exact Hsame.
  - unfold kernel_prepend, ready_gate. rewrite Hr. exact Hsame.
  - unfold kernel_commit_states, ready_gate. destruct ops; [exact Hsame|]. rewrite Hr. exact Hsame.
Qed.

Lemma own_live_cons op ops : own_live (op :: ops) = own_live [op] ++ own_live ops.
Proof. unfold own_live. apply (omap_app _ [op] ops). Qed.

Lemma own_live_key ops : Forall (fun msg => key_of msg = key) (own_live ops).
Proof.
  induction ops as [|op ops IH]; [constructor|]. rewrite own_live_cons. apply Forall_app. split; [|done].
  destruct op; cbn; try constructor. case_bool_decide; repeat constructor. done.
Qed.

Lemma window_run ops k tx :
  active_tx (session k) = Some tx ->
  let k' := run_window ops k in
  agree key (k_reducer k') (k_reducer k) /\ closed_done k' = closed_done k /\ next_tx k' = next_tx k /\
  exists tx', session k' = set_hydrate (Some tx') (session k) /\ active_tx (session k') = Some tx' /\
    tx_frame tx tx' /\ pendingLive tx' = pendingLive tx ++ own_live ops.
Proof.
  revert k tx. induction ops as [|op ops IH]; intros k tx Htx; cbv zeta.
  - split; [done|]. split; [done|]. split; [done|]. exists tx. cbn. rewrite app_nil_r.
    apply active_phase in Htx as Hh. destruct Hh as [_ Hh]. split; [rewrite <- Hh; by destruct (session k)|]. done.
  - destruct (window_step op k tx Htx) as (A1 & A2 & A3 & tx1 & S1 & T1 & F1 & P1).
    destruct (IH _ tx1 T1) as (B1 & B2 & B3 & tx2 & S2 & T2 & F2 & P2).
    change (run_window (op :: ops) k) with (run_window ops (exec_window op k)).
    split; [unfold agree in *; congruence|]. split; [congruence|]. split; [congruence|]. exists tx2.
    split; [rewrite S2, S1; by destruct (session k)|]. split; [done|].
    split; [unfold tx_frame in *; intuition congruence|]. rewrite P2, P1, (own_live_cons op ops). by rewrite app_assoc.
Qed.

(** ** A reconcile that is called off *)

(** The events handed to the kernel directly: what advanced, and the kernel. *)
Fixpoint ingest_all (now : nat -> Z) (l : list EventMessage) (k : ProjectionKernel) : list string * ProjectionKernel :=
  match l with
  | [] => ([], k)
  | msg :: l =>
      let '((res, _), k) := IngestLive ea pb (now O) msg k in
      let '(ids, k) := ingest_all (fun i => now (S i)) l k in
      (match res with
       | ProjectionIngestApplied => if unset (EventID msg) then [] else [EventID msg]
       | _ => [] end ++ ids, k)
  end.

Lemma ingest_drain now l k :
  Forall (fun msg => key_of msg = key) l -> active_tx (session k) = None ->
  ingest_all now l k = (fst (drain now l (k_reducer k)), set_k_reducer (snd (drain now l (k_reducer k))) k).
Proof.
  intros Hl. revert now k. induction Hl as [|msg l Hm Hl IH]; intros now k Hn; simpl; [by destruct k|].
  unfold IngestLive. rewrite (session_key _ _ _ Hm), Hn. rewrite IH by done. cbn [k_reducer set_k_reducer].
  destruct (drain _ l _) as [ids r]. cbn [fst snd]. f_equal.
  - f_equal. destruct (_ =? _); cbn [negb andb]; [done|]. by destruct (unset (EventID msg)).
Qed.

Lemma reconcile_opened order k adm k1 :
  BeginReconcileTransaction order backendID sessionID k = Some (inr adm, k1) ->
  is_phase ProjectionHydrateReady (session k) = true /\
  k_reducer k1 = k_reducer k /\ Done adm = Some (next_tx k) /\ Leader adm = true /\ closed_done k1 = closed_done k /\
  exists tx, session k1 = set_hydrateDone (Some (next_tx k)) (set_hydrate (Some tx)
      (set_status (mkStatus ProjectionHydrateHydrating None) (session k))) /\
    reconcile tx = true /\ pendingLive tx = [] /\ tx_number tx = next_tx k /\
    exists committed, CommittedSnapshot backendID sessionID k = Some committed /\
      Restore order backendID sessionID committed NewProjectionReducer = Some (tx_reducer tx).
Proof.
  unfold BeginReconcileTransaction. intros H. destruct (unset backendID || unset sessionID); [done|].
  destruct (is_phase ProjectionHydrateReady (session k)); [cbn [negb] in H|done].
  destruct (CommittedSnapshot _ _ k) as [p|]; [|done].
  destruct (Restore order backendID sessionID p NewProjectionReducer) as [r|] eqn:Er; [|done]. cbn in H.
  injection H as <- <-. split; [done|]. split; [done|]. split; [done|]. split; [done|]. split; [done|].
  eexists. split; [unfold sessionLocked at 1; cbn; rewrite lookup_insert_eq; reflexivity|].
  split; [done|]. split; [done|]. split; [done|]. by exists p.
Qed.

(** C6. A reconcile that is called off leaves no trace: whatever happened to the session
    while it was open, calling it off brings the session to the very state it
    would have reached had its live events been handed to it directly and flushed,
    reports the same events as applied and the same patch to publish, makes the
    session READY as it was, and wakes everyone who waited; until then nobody is
    served a snapshot. *)
Theorem reconcile_abort_lossless order now k adm k1 ops :
  BeginReconcileTransaction order backendID sessionID k = Some (inr adm, k1) ->
  let k2 := run_window ops k1 in
  let '(ids, kd) := ingest_all now (own_live ops) k in
  let '(patch, kf) := FlushProjectionPatch backendID sessionID kd in
  exists commit k3 done_channel,
    AbortReconcileTransaction ea pb now backendID sessionID k2 = (inr commit, k3) /\
    KernelSnapshot backendID sessionID k2 = None /\
    hc_AppliedPendingEventIDs commit = ids /\ hc_PendingPatch commit = patch /\
    hc_PendingLive commit = zlen (own_live ops) /\
    k_reducer k3 !! key = k_reducer kf !! key /\
    session k3 = set_hydrateDone None (set_hydrate None (set_status (mkStatus ProjectionHydrateReady None) (session k))) /\
    KernelSnapshot backendID sessionID k3 =
      Some (default (empty_projection sessionID) (CommittedSnapshot backendID sessionID kd)) /\
    Done adm = Some done_channel /\ done_channel ∈ closed_done k3.
Proof.
  intros Hb k2. destruct (reconcile_opened _ _ _ _ Hb) as (Hr & Hk & Hd & _ & _ & tx & Hs & Hrec & Hp & Hn & _).
  assert (active_tx (session k1) = Some tx) as Htx by (by rewrite Hs).
  destruct (window_run ops k1 tx Htx) as (A & _ & _ & tx' & S' & T' & F' & P'). fold k2 in A, S', T'.
  rewrite Hp in P'. cbn [app] in P'. destruct F' as (_ & _ & _ & Frec & _).
  assert (active_tx (session k) = None) as Hnone.
  { unfold active_tx. unfold is_phase in *. apply bool_decide_eq_true in Hr. by rewrite Hr. }
  rewrite ingest_drain by (done || apply own_live_key). unfold FlushProjectionPatch. cbn [k_reducer set_k_reducer].
  assert (agree key (k_reducer k2) (k_reducer k)) as A' by (unfold agree in *; congruence).
  destruct (drain_agree ea pb key now (own_live ops) _ _ (own_live_key ops) A') as [D1 D2].
  pose proof (FlushPatch_agree _ _ _ _ D2) as [F1 F2]. pose proof (Snapshot_agree _ _ _ _ D2) as F3.
  unfold AbortReconcileTransaction. rewrite T'. replace (reconcile tx') with true by congruence. cbn [negb].
  unfold drain_and_flush. rewrite P'. clear Hb.
  destruct (drain now (own_live ops) (k_reducer k2)) as [ids r2], (drain now (own_live ops) (k_reducer k)) as [ids' r].
  cbn [fst snd] in *. subst ids'.
  destruct (FlushPatch backendID sessionID r2) as [patch r2'], (FlushPatch backendID sessionID r) as [patch' r'] eqn:Ef.
  cbn [fst snd] in *. subst patch'. do 2 eexists. exists (next_tx k). split; [reflexivity|].
  split; [unfold KernelSnapshot; by rewrite (active_not_ready _ _ T')|]. split; [done|]. split; [done|]. split; [done|].
  split; [cbn; by rewrite (proj1 (close_done_frame _ _))|]. split; [rewrite put_get, S', Hs; by destruct (session k)|].
  split; [|split; [done|]].
  - unfold KernelSnapshot. rewrite put_get. cbn. f_equal. f_equal. unfold CommittedSnapshot, Snapshot in *. cbn.
    rewrite (proj1 (close_done_frame _ _)). cbn.
    pose proof (Snapshot_FlushPatch backendID sessionID r) as Hfp. rewrite Ef in Hfp. cbn in Hfp.
    unfold agree in F2. rewrite F2. exact Hfp.
  - rewrite S', Hs. cbn. set_solver.
Qed.
End Kernel.

(** ** A sample kernel *)

(** Session "s" of backend "codex": its transcript read up to byte 10. *)
Definition sample_source : ProjectionSourceDescriptor := mkSource "ino1" "/rollout.jsonl" 10 [].

Definition sample_start : ProjectionKernel :=
  match BeginHydrateTransaction [] 0 "codex" "s" sample_source false false false (NewProjectionKernel ∅ false) with
  | Some (inr ld, k) =>
      match LoadHydrateCheckpoint [] 0 None "codex" "s" sample_source (inl ENotExist) "" ld k with
      | Some (_, k) => k
      | None => k
      end
  | _ => NewProjectionKernel ∅ false
  end.

Definition live_event (id : string) (seq : Z) (event : string) (data : list (string * value)) : EventMessage :=
  mkEventMessage "event" id seq seq "" "s" "codex" event (VMap data) "" true 0.

(** Two cold turns; meanwhile a third is sent and answered. *)
Definition sample_cold : list window_op :=
  [WCold 1 "ep" "user_message" [("turnId", VString "t1"); ("itemId", VString "u1"); ("text", VString "one")];
   WCold 2 "ep" "turn_completed" [("turnId", VString "t1")];
   WLive 3 (live_event "e7" 7 "user_message" [("turnId", VString "t3"); ("itemId", VString "u3"); ("text", VString "three")]);
   WCold 4 "ep" "user_message" [("turnId", VString "t2"); ("itemId", VString "u2"); ("text", VString "two")];
   WCold 5 "ep" "turn_completed" [("turnId", VString "t2")];
   WComplete;
   WLive 6 (live_event "e8" 8 "text_delta" [("turnId", VString "t3"); ("itemId", VString "a3"); ("delta", VString "hello")])].

Definition sample_ready : ProjectionKernel :=
  match CommitHydrateTransaction no_attachments no_parts [] (fun _ => 9) "codex" "s"
          (run_window no_attachments no_parts "codex" "s" sample_cold sample_start) with
  | Some (_, k) => k
  | None => sample_start
  end.

(** What the session reads then. *)
Example sample_ready_turns :
  (fun p => (sp_SyncRev p, map (fun t => (tp_TurnID t, tp_Status t)) (sp_Turns p))) <$> KernelSnapshot "codex" "s" sample_ready
  = Some (6, [("t1", "completed"); ("t2", "completed"); ("t3", "running")]).
Proof. vm_compute. reflexivity. Qed.

(** A turn ends while the session is reconciled; the reconcile is called off. *)
Definition sample_window : list window_op :=
  [WLive 20 (live_event "e9" 9 "text_delta" [("turnId", VString "t3"); ("itemId", VString "a3"); ("delta", VString " you")]);
   WPrepend []; WToken;
   WLive 21 (live_event "e9" 9 "text_delta" [("turnId", VString "t3"); ("itemId", VString "a3"); ("delta", VString " you")]);
   WLive 22 (live_event "e10" 10 "turn_completed" [("turnId", VString "t3")])].

Definition opened (o : option ((KernelError + ProjectionHydrateAdmission) * ProjectionKernel)) : bool :=
  match o with Some (inr _, _) => true | _ => false end.

Lemma reconcile_abort_lossless_witness :
  exists adm k1 commit k3,
    BeginReconcileTransaction [] "codex" "s" sample_ready = Some (inr adm, k1) /\
    AbortReconcileTransaction no_attachments no_parts (fun _ => 30) "codex" "s"
      (run_window no_attachments no_parts "codex" "s" sample_window k1) = (inr commit, k3) /\
    hc_AppliedPendingEventIDs commit = ["e9"; "e10"] /\ hc_PendingLive commit = 3.
Proof.
  assert (opened (BeginReconcileTransaction [] "codex" "s" sample_ready) = true) as Ho by (vm_compute; reflexivity).
  assert (fst (ingest_all no_attachments no_parts (fun _ => 30) (own_live "codex" "s" sample_window) sample_ready) = ["e9"; "e10"])
    as Hi by (vm_compute; reflexivity).
  assert (zlen (own_live "codex" "s" sample_window) = 3) as Hl by (vm_compute; reflexivity).
  pose proof (fun adm k1 => reconcile_abort_lossless no_attachments no_parts "codex" "s" [] (fun _ => 30) sample_ready adm k1
    sample_window) as H. cbv zeta in H. rewrite Hl in H. revert Ho Hi H.
  generalize (ingest_all no_attachments no_parts (fun _ => 30) (own_live "codex" "s" sample_window) sample_ready).
  generalize (BeginReconcileTransaction [] "codex" "s" sample_ready).
  intros [[[e|adm] k1]|] [ids kd] Ho Hi H; [discriminate Ho| |discriminate Ho].
  cbn [fst] in Hi. subst ids. specialize (H adm k1 eq_refl).
  destruct (FlushProjectionPatch "codex" "s" kd) as [patch kf].
  destruct H as (commit & k3 & c & H1 & _ & H2 & _ & H3 & _).
  exists adm, k1, commit, k3. split; [reflexivity|]. split; [exact H1|]. split; [exact H2|exact H3].
Defined.
