(* ===== verification/KernelHydrate.v ===== *)
(** * How a hydrate ends (theorems on [Kernel])

    A commit installs the cold baseline and then every live event that waited, in
    order; a failure gives them back by identity and closes the retry gate. *)

From S2P Require Import Prelude.
From S2P Require Import Wire.
From S2P Require Import Projection.
From S2P Require Import ProjectionFields.
From S2P Require Import ReducerParts.
From S2P Require Import Reducer.
From S2P Require Import ReducerPatch.
From S2P Require Import TurnDetail.
From S2P Require Import ReducerInvariant.
From S2P Require Import ReducerTurns.
From S2P Require Import SourceLedger.
From S2P Require Import Checkpoint.
From S2P Require Import CheckpointWriter.
From S2P Require Import Kernel.
From S2P Require Import KernelProps.

Section Hydrate.
Context (ea : value -> list ProjectionAttachment) (pb : value -> list ProjectionPart).
Context (backendID sessionID : string).

Abbreviation key := (projectionSessionKey backendID sessionID).
Abbreviation drain := (drain_live ea pb).
Abbreviation session := (sessionLocked backendID sessionID).

(** Events in the order they were numbered, all of them after [n]. *)
Fixpoint numbered_after (n : Z) (l : list EventMessage) : Prop :=
  match l with
  | [] => True
  | msg :: l => BackendID msg <> "" /\ SessionID msg <> "" /\ n < PerSessionSeq msg /\ numbered_after (PerSessionSeq msg) l
  end.

(** The events applied to a session with no sequence gate at all, and the identities
    of those that took a revision. *)
Fixpoint apply_all (now : nat -> Z) (l : list EventMessage) (ps : projectionSession)
  : list string * projectionSession :=
  match l with
  | [] => ([], ps)
  | msg :: l =>
      let ps' := apply_event ea pb msg (now O) ps in
      let advanced := negb (sp_SyncRev (projection ps') =? sp_SyncRev (projection ps)) in
      let '(ids, last) := apply_all (fun i => now (S i)) l ps' in
      ((if advanced && negb (unset (EventID msg)) then [EventID msg] else []) ++ ids, last)
  end.

Lemma apply_event_last msg now ps n :
  lastAppliedRev ps <= n -> n < PerSessionSeq msg ->
  lastAppliedRev (apply_event ea pb msg now ps) <= PerSessionSeq msg.
Proof.
  intros H1 H2. destruct (decide (Event msg = "turn_started")) as [He|He].
  - unfold apply_event. rewrite He. change (one_of_words ["turn_started"] "turn_started") with true. cbv iota.
    pose proof (turn_started_meta now (asDataMap (Data msg)) ps) as Hm. injection Hm as -> _ _ _. lia.
  - destruct (event_one_revision ea pb msg now ps _ (apply_event_handled ea pb msg now ps) He) as [->|Hm]; [lia|].
    injection Hm as -> _ _ _. lia.
Qed.

(** Numbered events pass the gate, every one. *)
Lemma drain_all now l ps n r :
  Forall (fun msg => key_of msg = key) l -> numbered_after n l -> 0 <= n -> lastAppliedRev ps <= n ->
  r !! key = Some ps ->
  fst (drain now l r) = fst (apply_all now l ps) /\ snd (drain now l r) !! key = Some (snd (apply_all now l ps)).
Proof.
  intros Hl. revert now ps n r. induction Hl as [|msg l Hm Hl IH]; intros now ps n r Hn Hpos Hlast Hr; simpl; [done|].
  destruct Hn as (Hb & Hs & Hq & Hn).
  assert (Apply ea pb msg (now O) r !! key = Some (apply_event ea pb msg (now O) ps)) as Hap.
  { rewrite Apply_lookup, bool_decide_eq_true_2 by done. unfold refused_event.
    rewrite !bool_decide_eq_false_2 by done. replace (PerSessionSeq msg =? 0) with false by (symmetry; zprop; lia).
    cbn [orb negb andb]. rewrite Hr. cbn [from_option id]. unfold apply_session.
    replace (PerSessionSeq msg <=? lastAppliedRev ps) with false by (symmetry; zprop; lia). by rewrite andb_false_r. }
  destruct (IH (fun i => now (S i)) _ (PerSessionSeq msg) _ Hn ltac:(lia) ltac:(by eapply apply_event_last) Hap) as [I1 I2].
  unfold LastAppliedRev. rewrite Hm, Hr, Hap.
  destruct (drain _ l _) as [ids r'], (apply_all _ l _) as [ids' ps']. cbn in *. by rewrite I1.
Qed.

(** A restore of a projection whose cards are each there once. *)
Lemma Restore_once order p r :
  backendID <> "" -> sessionID <> "" -> Forall (fun iid => (length (copies iid p) <= 1)%nat) order ->
  Restore order backendID sessionID p r =
    Some (<[key := restored_session (healProjectionTurnConsistency (set_sp_SessionID sessionID p))]> r).
Proof.
  intros Hb Hs H. unfold Restore. rewrite !bool_decide_eq_false_2 by done. cbn [orb]. cbv zeta. rewrite cloneSession_id.
  rewrite converge_none; [done|]. eapply Forall_impl; [exact H|]. intros iid. cbn beta.
  by rewrite (copies_heal iid (set_sp_SessionID sessionID p)).
Qed.

(** C1. A hydrate is published whole: while it is open the committed state of the session
    is untouched and nobody is served a snapshot, whatever happens; and the commit
    installs the cold baseline (merged with what was live) and then every live
    event that arrived meanwhile, in order, none refused for its number and none
    twice. The commit reports as applied just the events that took a revision,
    its patch is what that session has to publish, and the session is READY at the
    cut of its source, with everyone who waited woken. *)
Theorem hydrate_commit order now k tx c ops :
  active_tx (session k) = Some tx -> pendingLive tx = [] -> hydrateDone (session k) = Some c ->
  backendID <> "" -> sessionID <> "" -> numbered_after 0 (own_live backendID sessionID ops) ->
  let k2 := run_window ea pb backendID sessionID ops k in
  CommittedSnapshot backendID sessionID k2 = CommittedSnapshot backendID sessionID k /\
  KernelSnapshot backendID sessionID k2 = None /\
  exists tx', active_tx (session k2) = Some tx' /\ tx_startCut tx' = tx_startCut tx /\ tx_source tx' = tx_source tx /\
    let base := commit_baseline backendID sessionID tx' (k_reducer k) in
    let restored := restored_session (healProjectionTurnConsistency (set_sp_SessionID sessionID base)) in
    let '(ids, ps) := apply_all now (own_live backendID sessionID ops) restored in
    Forall (fun iid => (length (copies iid base) <= 1)%nat) order ->
    exists commit k3,
      CommitHydrateTransaction ea pb order now backendID sessionID k2 = Some (inr commit, k3) /\
      k_reducer k3 !! key = Some (snd (flushLocked ps)) /\
      hc_Projection commit = projection ps /\ hc_PendingPatch commit = fst (flushLocked ps) /\
      hc_AppliedPendingEventIDs commit = ids /\ hc_PendingLive commit = zlen (own_live backendID sessionID ops) /\
      KernelSnapshot backendID sessionID k3 = Some (projection ps) /\
      committedSourceCursor (session k3) = tx_startCut tx /\ committedSource (session k3) = tx_source tx /\
      hydrate (session k3) = None /\ hydrateDone (session k3) = None /\ c ∈ closed_done k3.
Proof.
  intros Htx Hp Hc Hb Hs Hn k2.
  destruct (window_run ea pb backendID sessionID ops k tx Htx) as (A & _ & _ & tx' & S' & T' & F' & P').
  fold k2 in A, S', T'. rewrite Hp in P'. cbn [app] in P'. destruct F' as (_ & F1 & F2 & _).
  split; [by apply Snapshot_agree|]. split; [unfold KernelSnapshot; by rewrite (active_not_ready _ _ T')|].
  exists tx'. split; [done|]. split; [done|]. split; [done|]. cbv zeta.
  set (base := commit_baseline backendID sessionID tx' (k_reducer k)).
  set (restored := restored_session (healProjectionTurnConsistency (set_sp_SessionID sessionID base))).
  destruct (apply_all now (own_live backendID sessionID ops) restored) as [ids ps] eqn:Ea. intros Hcards.
  unfold CommitHydrateTransaction. rewrite T'.
  replace (commit_baseline backendID sessionID tx' (k_reducer k2)) with base
    by (unfold base, commit_baseline; by rewrite (Snapshot_agree _ _ _ _ A)).
  rewrite Restore_once by done. fold restored. cbn [fmap option_fmap option_map]. unfold drain_and_flush. rewrite P'.
  destruct (drain_all now (own_live backendID sessionID ops) restored 0 (<[key:=restored]> (k_reducer k2))
    (own_live_key _ _ ops) Hn ltac:(lia) ltac:(cbn; lia) (lookup_insert_eq _ _ _)) as [D1 D2].
  rewrite Ea in D1, D2. destruct (drain now _ _) as [ids' r] eqn:Ed. cbn in D1, D2. subst ids'.
  assert (Snapshot backendID sessionID r = Some (projection ps)) as Hsnap
    by (unfold Snapshot; rewrite D2; cbn; by rewrite cloneSession_id).
  rewrite Hsnap. pose proof (Snapshot_FlushPatch backendID sessionID r) as Hfs.
  assert (FlushPatch backendID sessionID r = (fst (flushLocked ps), <[key := snd (flushLocked ps)]> r)) as Hf
    by (unfold FlushPatch; rewrite D2; by destruct (flushLocked ps)).
  rewrite Hf in *. cbn [fst snd from_option id] in *. do 2 eexists. split; [reflexivity|]. rewrite put_get. cbn.
  rewrite (proj1 (close_done_frame _ _)). cbn. rewrite lookup_insert_eq. split; [done|]. split; [done|].
  split; [done|]. split; [done|]. split; [done|]. split.
  { unfold KernelSnapshot. rewrite put_get. 
    match goal with |- context [is_phase ?p ?s] =>
      assert (is_phase p s = true) as -> by (by destruct (liveOnlyAdmission tx')) end.
    unfold CommittedSnapshot. cbn. rewrite (proj1 (close_done_frame _ _)). cbn. by rewrite Hfs, Hsnap. }
  split; [done|]. split; [done|]. split; [done|]. split; [done|].
  unfold close_done. rewrite S'. cbn. rewrite Hc. cbn. set_solver.
Qed.

(** ** The cold events *)

Lemma window_cold op k tx tx' :
  active_tx (session k) = Some tx -> active_tx (session (exec_window ea pb backendID sessionID op k)) = Some tx' ->
  (tx_reducer tx', nextInput tx') =
    match op with
    | WCold now epoch event data =>
        (Apply ea pb (hydrate_event backendID sessionID epoch event data (nextInput tx + 1)) now (tx_reducer tx),
         nextInput tx + 1)
    | _ => (tx_reducer tx, nextInput tx)
    end.
Proof.
  intros Htx. pose proof (active_phase _ _ Htx) as [Hp Hh]. pose proof (active_not_ready _ _ Htx) as Hr.
  assert (forall t, active_tx (session (put_session backendID sessionID (set_hydrate (Some t) (session k)) k)) = Some tx' ->
    tx' = t) as Hput by (intros t; rewrite (active_put _ _ _ tx) by done; congruence).
  assert (active_tx (session k) = Some tx' -> tx' = tx) as Hsame by congruence.
  destruct op as [now msg|now epoch event data| | |now phase|l|v2 ops]; cbn [exec_window].
  - unfold IngestLive. destruct (decide (key_of msg = key)) as [Hk|Hk].
    + rewrite (session_key _ _ _ _ _ Hk), Htx. cbn [snd]. rewrite (put_key _ _ _ _ _ _ Hk). by intros ->%Hput.
    + destruct (active_tx (sessionLocked (BackendID msg) (SessionID msg) k)); cbn [snd].
      * rewrite put_other by done. by intros ->%Hsame.
      * by intros ->%Hsame.
  - unfold ApplyHydrateEvent. rewrite Htx. cbn [snd]. by intros ->%Hput.
  - unfold MarkHydrateSourceIngestComplete. rewrite Htx. by intros ->%Hput.
  - unfold take_token. rewrite Hh. destruct (liveArrived tx); cbn [from_option id]; [by intros ->%Hput|by intros ->%Hsame].
  - unfold kernel_external. rewrite Hr. by intros ->%Hsame.
  - unfold kernel_prepend, ready_gate. rewrite Hr. by intros ->%Hsame.
  - unfold kernel_commit_states, ready_gate. destruct ops; [by intros ->%Hsame|]. rewrite Hr. by intros ->%Hsame.
Qed.

(** The cold events of a window, each with the instant it is read at. *)
Definition own_cold (ops : list window_op) : list (Z * (string * string * data_map)) :=
  omap (fun op => match op with WCold now epoch event data => Some (now, (epoch, event, data)) | _ => None end) ops.

(** They are numbered from [n + 1] and folded with no gate. *)
Fixpoint fold_cold (n : Z) (l : list (Z * (string * string * data_map))) (ps : projectionSession) : projectionSession :=
  match l with
  | [] => ps
  | (now, (epoch, event, data)) :: l =>
      fold_cold (n + 1) l (apply_event ea pb (hydrate_event backendID sessionID epoch event data (n + 1)) now ps)
  end.

Abbreviation of_session := (fun r : ProjectionReducer => default (new_session sessionID) (r !! key)).

(** The cold baseline is the cold source and nothing else: a transaction's own
    reducer is, at every moment, the events of the source read so far, in order,
    folded on what it started from; each has a number of its own, none is refused,
    and no live event, token or other call of the window reaches it. *)
Theorem hydrate_cold_fold k tx ops :
  active_tx (session k) = Some tx -> backendID <> "" -> sessionID <> "" ->
  0 <= nextInput tx -> lastAppliedRev (of_session (tx_reducer tx)) <= nextInput tx ->
  exists tx', active_tx (session (run_window ea pb backendID sessionID ops k)) = Some tx' /\
    of_session (tx_reducer tx') = fold_cold (nextInput tx) (own_cold ops) (of_session (tx_reducer tx)) /\
    nextInput tx' = nextInput tx + zlen (own_cold ops).
Proof.
  intros Htx Hb Hs. revert k tx Htx. induction ops as [|op ops IH]; intros k tx Htx Hn Hl.
  { exists tx. split; [done|]. split; [done|]. cbn. lia. }
  destruct (window_step ea pb backendID sessionID op k tx Htx) as (_ & _ & _ & tx1 & _ & T1 & _).
  pose proof (window_cold op k tx tx1 Htx T1) as Hc.
  change (run_window ea pb backendID sessionID (op :: ops) k)
    with (run_window ea pb backendID sessionID ops (exec_window ea pb backendID sessionID op k)).
  assert (forall n r, of_session (tx_reducer tx1) = r -> nextInput tx1 = n -> nextInput tx <= n -> lastAppliedRev r <= n ->
    exists tx', active_tx (session (run_window ea pb backendID sessionID ops (exec_window ea pb backendID sessionID op k))) = Some tx' /\
      of_session (tx_reducer tx') = fold_cold n (own_cold ops) r /\ nextInput tx' = n + zlen (own_cold ops)) as Hnext.
  { intros n r <- <- H1 H2. apply IH; [done|lia|done]. }
  destruct op as [| now epoch event data| | | | |]; injection Hc as Hr Hi;
    try (destruct (Hnext _ _ (f_equal of_session Hr) Hi) as (tx' & ? & ? & ?); [lia|done|]; by exists tx').
  set (msg := hydrate_event backendID sessionID epoch event data (nextInput tx + 1)) in *.
  assert (of_session (tx_reducer tx1) = apply_event ea pb msg now (of_session (tx_reducer tx))) as Hr1.
  { rewrite Hr. rewrite Apply_lookup, bool_decide_eq_true_2 by done. unfold refused_event. subst msg. cbn [hydrate_event BackendID SessionID PerSessionSeq].
    rewrite !bool_decide_eq_false_2 by done. replace (nextInput tx + 1 =? 0) with false by (symmetry; zprop; lia).
    cbn [orb negb andb from_option id]. unfold apply_session. cbn [PerSessionSeq hydrate_event].
    replace (nextInput tx + 1 <=? _) with false by (symmetry; zprop; lia). by rewrite andb_false_r. }
  destruct (Hnext _ _ Hr1 Hi) as (tx' & T' & R' & N'); [lia| |].
  { eapply apply_event_last; [exact Hl|cbn; lia]. }
  exists tx'. split; [done|]. split; [done|]. rewrite N'.
  assert (length (own_cold (WCold now epoch event data :: ops)) = S (length (own_cold ops))) as -> by done. lia.
Qed.

(** ** Failing *)

(** A hydrate that fails gives back what it held: the committed state stays as it
    was, the identities of the live events that waited are reported, in order,
    everyone who waited is woken, and the session serves nothing. Until the retry
    gate opens a new hydrate is refused and changes nothing: a failure that can
    be retried waits for its instant unless a client asks for it, one that cannot
    waits for another source. *)
Theorem hydrate_failed now jitter k tx c ops code message retryable :
  active_tx (session k) = Some tx -> pendingLive tx = [] -> hydrateDone (session k) = Some c ->
  let k2 := run_window ea pb backendID sessionID ops k in
  let '((st, ids), k3) := MarkFailed now jitter backendID sessionID code message retryable k2 in
  let gate t explicit changed :=
    if retryable then negb explicit && (t <? now + delay (retryPolicy k2) (failureAttempts (session k) + 1) jitter)
    else negb changed in
  ids = filter (fun id => id <> "") (map EventID (own_live backendID sessionID ops)) /\
  k_reducer k3 !! key = k_reducer k !! key /\ KernelSnapshot backendID sessionID k3 = None /\
  Status backendID sessionID k3 = st /\ Phase st = ProjectionHydrateFailed /\
  hydrate (session k3) = None /\ c ∈ closed_done k3 /\
  forall order t source explicit changed isLive,
    backendID <> "" -> sessionID <> "" -> 0 <= sd_Cursor source -> gate t explicit changed = true ->
    BeginHydrateTransaction order t backendID sessionID source explicit changed isLive k3 = Some (inl (inr no_admission), k3).
Proof.
  intros Htx Hp Hc k2.
  destruct (window_run ea pb backendID sessionID ops k tx Htx) as (A & _ & _ & tx' & S' & T' & _ & P').
  fold k2 in A, S', T'. rewrite Hp in P'. cbn [app] in P'. apply active_phase in T' as [_ Hh].
  unfold MarkFailed. rewrite Hh, P'. cbv zeta. split; [done|].
  assert (Hd : hydrateDone (session k2) = Some c) by (rewrite S'; done).
  assert (Ha : failureAttempts (session k2) = failureAttempts (session k)) by (by rewrite S').
  split; [cbn; rewrite (proj1 (close_done_frame _ _)); exact A|].
  split; [unfold KernelSnapshot; by rewrite put_get|]. split; [unfold Status; by rewrite put_get|]. split; [done|].
  split; [by rewrite put_get|]. split; [unfold close_done; rewrite Hd; cbn; set_solver|].
  intros order t source explicit changed isLive Hb Hs Hcur Hg. unfold BeginHydrateTransaction.
  rewrite !put_get. unfold unset. rewrite !bool_decide_eq_false_2 by done.
  replace (sd_Cursor source <? 0) with false by (symmetry; zprop; lia). cbn [orb].
  change (is_phase ProjectionHydrateReady _) with false. change (is_phase ProjectionHydrateHydrating _) with false.
  change (is_phase ProjectionHydrateFailed _) with true. cbn [andb].
  assert (forall s, Failure (status s) = Some (mkFailure code message retryable
      (if retryable then now + delay (retryPolicy k2) (failureAttempts (session k) + 1) jitter else 0) (failureAttempts (session k) + 1)) ->
    retry_refused t explicit changed s = true) as Hgate.
  { intros s Hf. unfold retry_refused. rewrite Hf. cbn. destruct retryable; cbn in *; rewrite ?andb_true_r, ?orb_false_r, ?orb_true_r; done. }
  rewrite Hgate; [done|]. cbn. by rewrite Ha.
Qed.
(** ** Waiting for the commit *)

Lemma ready_same order now k k' tx tx' :
  active_tx (session k) = Some tx -> active_tx (session k') = Some tx' ->
  tx_reducer tx' = tx_reducer tx -> pendingLive tx' = pendingLive tx -> sourceIsLive tx' = sourceIsLive tx ->
  sourceIngestComplete tx' = sourceIngestComplete tx -> coldArmedTurnIDs tx' = coldArmedTurnIDs tx ->
  hydrate_ready ea pb order now backendID sessionID k' = hydrate_ready ea pb order now backendID sessionID k.
Proof. intros H H' E1 E2 E3 E4 E5. unfold hydrate_ready. by rewrite H, H', E1, E2, E3, E4, E5. Qed.

(** C37. No wakeup is lost between the end of a source and its commit: a waiter looks at the
    condition under the lock and sleeps when it does not hold; any call that makes
    it hold leaves a token in the channel the waiter sleeps on. The cold events of
    a source are read before its end is marked, as its readers do. *)
Theorem wakeup_not_lost order now k tx op :
  active_tx (session k) = Some tx ->
  hydrate_ready ea pb order now backendID sessionID k = Some (Some false) ->
  (sourceIngestComplete tx = true -> forall t epoch event data, op <> WCold t epoch event data) ->
  let k' := exec_window ea pb backendID sessionID op k in
  hydrate_ready ea pb order now backendID sessionID k' = Some (Some true) ->
  exists tx', active_tx (session k') = Some tx' /\ liveArrived tx' = true.
Proof.
  intros Htx Hf Hcold k' Ht. pose proof (active_phase _ _ Htx) as [Hp Hh]. pose proof (active_not_ready _ _ Htx) as Hr.
  assert (forall t, k' = put_session backendID sessionID (set_hydrate (Some t) (session k)) k -> active_tx (session k') = Some t)
    as Hput by (intros t ->; by apply (active_put _ _ _ tx)).
  assert (session k' = session k -> exists tx', active_tx (session k') = Some tx' /\ liveArrived tx' = true) as Hsame.
  { intros E. exfalso. assert (active_tx (session k') = Some tx) as H' by (by rewrite E).
    rewrite (ready_same order now k k' tx tx) in Ht by done. congruence. }
  destruct op as [t msg|t epoch event data| | |t phase|l|v2 ops]; subst k'; cbn [exec_window] in *.
  - unfold IngestLive in *. destruct (decide (key_of msg = key)) as [Hk|Hk].
    + rewrite (session_key _ _ _ _ _ Hk), Htx in *. cbn [snd] in *. rewrite (put_key _ _ _ _ _ _ Hk) in *.
      eexists. split; [by apply Hput|done].
    + destruct (active_tx (sessionLocked (BackendID msg) (SessionID msg) k)); cbn [snd] in *; apply Hsame; [by apply put_other|done].
  - exfalso. unfold ApplyHydrateEvent in *. rewrite Htx in *. cbn [snd] in *.
    destruct (sourceIngestComplete tx) eqn:Hs; [by eapply (Hcold eq_refl)|].
    unfold hydrate_ready in Ht. rewrite (Hput _ eq_refl) in Ht. cbn [set_coldArmedTurnIDs set_nextInput set_tx_reducer sourceIngestComplete] in Ht.
    rewrite Hs in Ht. by destruct (match Snapshot _ _ _ with Some _ => _ | None => _ end).
  - unfold MarkHydrateSourceIngestComplete in *. rewrite Htx in *. eexists. split; [by apply Hput|done].
  - unfold take_token in *. rewrite Hh in *. destruct (liveArrived tx); cbn [from_option id] in *; [|by apply Hsame].
    exfalso. rewrite (ready_same order now k _ tx _ Htx (Hput _ eq_refl)) in Ht by done. congruence.
  - apply Hsame. unfold kernel_external. by rewrite Hr.
  - apply Hsame. unfold kernel_prepend, ready_gate. by rewrite Hr.
  - apply Hsame. unfold kernel_commit_states, ready_gate. destruct ops; [done|]. by rewrite Hr.
Qed.
End Hydrate.

(** ** The baseline that is published *)

Lemma missing_turns_spec have l :
  missing_turns have l `sublist_of` l /\ NoDup (map tp_TurnID (missing_turns have l)) /\
  (forall t, t ∈ missing_turns have l -> tp_TurnID t ∉ have) /\
  (forall t, t ∈ l -> tp_TurnID t ∈ have \/ tp_TurnID t ∈ map tp_TurnID (missing_turns have l)).
Proof.
  revert have. induction l as [|t l IH]; intros have; simpl.
  { split; [done|]. split; [constructor|]. split; by intros t ?%elem_of_nil. }
  case_bool_decide as Ht.
  - destruct (IH have) as (I1 & I2 & I3 & I4). split; [by apply sublist_cons|]. split; [done|]. split; [done|].
    intros u [->|Hu]%elem_of_cons; [by left|by apply I4].
  - destruct (IH ({[tp_TurnID t]} ∪ have)) as (I1 & I2 & I3 & I4). split; [by apply sublist_skip|]. cbn. split; [|split].
    + constructor; [|done]. change (map tp_TurnID) with (fmap (M:=list) tp_TurnID).
      intros (u & Hu & Hin)%list_elem_of_fmap. apply I3 in Hin. rewrite <- Hu in Hin. set_solver.
    + intros u [->|Hu]%elem_of_cons; [done|]. apply I3 in Hu. set_solver.
    + intros u [->|Hu]%elem_of_cons; [right; by apply elem_of_cons; left|].
      destruct (I4 u Hu) as [Hin|Hin]; [|right; by apply elem_of_cons; right].
      apply elem_of_union in Hin as [->%elem_of_singleton|Hin]; [right; apply elem_of_cons; by left|by left].
Qed.

Lemma map_same_ids (f : TurnProjection -> TurnProjection) l :
  (forall t, tp_TurnID (f t) = tp_TurnID t) -> map tp_TurnID (map f l) = map tp_TurnID l.
Proof. intros H. rewrite map_map. by apply map_ext. Qed.

Lemma merge_frame cold live :
  let m := mergeHydrateBaselineWithLiveExecution cold (Some live) in
  map tp_TurnID (sp_Turns m) = map tp_TurnID (sp_Turns cold) /\ sp_SyncRev m = sp_SyncRev cold /\
  executionInFlight (sp_Execution m) = executionInFlight (sp_Execution live) /\
  (executionInFlight (sp_Execution live) = executionInFlight (sp_Execution cold) -> m = cold) /\
  (executionInFlight (sp_Execution live) = false -> executionInFlight (sp_Execution cold) = true ->
   Forall (fun t => tp_Status t <> "running") (sp_Turns m)) /\
  (executionInFlight (sp_Execution live) = true -> executionInFlight (sp_Execution cold) = false ->
   Forall (fun t => tp_TurnID t = ev_ActiveTurnID (sp_Execution live) -> tp_TurnID t <> "" -> terminal (tp_Status t) = false)
     (sp_Turns m)).
Proof.
  unfold mergeHydrateBaselineWithLiveExecution.
  destruct (executionInFlight (sp_Execution live)) eqn:El, (executionInFlight (sp_Execution cold)) eqn:Ec; cbn [andb negb].
  - repeat split; try done; congruence.
  - unfold unset. case_bool_decide as Ha; cbn.
    + split; [done|]. split; [done|]. split; [done|]. split; [done|]. split; [done|]. intros _ _. apply Forall_true. congruence.
    + split; [apply map_same_ids; intros t; unfold reopen_turn; by case_if|]. split; [done|]. split; [done|]. split; [done|].
      split; [done|]. intros _ _. apply Forall_map, Forall_true. intros t. unfold reopen_turn.
      case_bool_decide as Ht; cbn [andb]; [destruct (terminal (tp_Status t)) eqn:E; done|done].
  - cbn. split; [apply map_same_ids; intros t; unfold close_turn; by repeat case_if|]. split; [done|]. split; [done|].
    split; [done|]. split; [|done]. intros _ _. apply Forall_map, Forall_true. intros t. unfold close_turn.
    case_bool_decide; [by case_if|done].
  - repeat split; try done; congruence.
Qed.

(** What a commit publishes agrees with what clients saw live. Merging the cold
    baseline with the live execution keeps the cold turns, in order, and the cold
    revision, and puts the session in flight exactly when it is live: a session
    that has ended live shows no running turn, one that runs live shows its active
    turn open, and where both agree the baseline is published as it is. With the
    union no live turn is lost: the turns that the cold source does not have yet
    follow, each once, in order, and the revision never falls behind the live one. *)
Theorem baseline_agrees cold live :
  let base := mergeHydrateBaselineWithLiveExecution cold (Some live) in
  let all := unionColdBaselineWithLiveTurns cold (Some live) in
  let in_flight p := executionInFlight (sp_Execution p) in
  (in_flight base = in_flight live /\ map tp_TurnID (sp_Turns base) = map tp_TurnID (sp_Turns cold) /\
   sp_SyncRev base = sp_SyncRev cold) /\
  (in_flight live = in_flight cold -> base = cold) /\
  (in_flight live = false -> in_flight cold = true -> Forall (fun t => tp_Status t <> "running") (sp_Turns base)) /\
  (in_flight live = true -> in_flight cold = false ->
   Forall (fun t => tp_TurnID t = ev_ActiveTurnID (sp_Execution live) -> tp_TurnID t <> "" -> terminal (tp_Status t) = false)
     (sp_Turns base)) /\
  sp_Execution all = sp_Execution base /\ sp_SyncRev all = Z.max (sp_SyncRev cold) (sp_SyncRev live) /\
  (exists extra, sp_Turns all = sp_Turns base ++ extra /\ extra `sublist_of` sp_Turns live /\
     Forall (fun t => tp_TurnID t ∉ map tp_TurnID (sp_Turns cold)) extra) /\
  (forall t, t ∈ sp_Turns live -> tp_TurnID t ∈ map tp_TurnID (sp_Turns all)) /\
  (NoDup (map tp_TurnID (sp_Turns cold)) -> NoDup (map tp_TurnID (sp_Turns all))).
Proof.
  intros base all in_flight. destruct (merge_frame cold live) as (M1 & M2 & M3 & M4 & M5 & M6). fold base in M1, M2, M3, M4, M5, M6.
  split; [done|]. split; [done|]. split; [done|]. split; [done|].
  subst all. unfold unionColdBaselineWithLiveTurns. fold base. cbv zeta.
  set (have := list_to_set (map tp_TurnID (sp_Turns base)) : gset string).
  destruct (missing_turns_spec have (sp_Turns live)) as (S1 & S2 & S3 & S4). set (extra := missing_turns have (sp_Turns live)) in *.
  set (m := set_sp_Turns (sp_Turns base ++ extra) base).
  assert (forall x, x = (if sp_SyncRev m <? sp_SyncRev live then set_sp_SyncRev (sp_SyncRev live) m else m) ->
    sp_Execution x = sp_Execution base /\ sp_SyncRev x = Z.max (sp_SyncRev cold) (sp_SyncRev live) /\
    sp_Turns x = sp_Turns base ++ extra) as Hm.
  { intros x ->. case_if; cbn in *; zprop; repeat split; lia. }
  destruct (Hm _ eq_refl) as (H1 & H2 & H3). split; [done|]. split; [done|]. rewrite H3.
  assert (forall id, id ∈ have <-> id ∈ map tp_TurnID (sp_Turns cold)) as Hhave
    by (intros id; subst have; by rewrite elem_of_list_to_set, M1).
  split; [|split].
  - exists extra. split; [done|]. split; [done|]. apply Forall_forall. intros t Ht. rewrite <- Hhave. by apply S3.
  - intros t Ht. rewrite map_app, elem_of_app, M1. destruct (S4 t Ht) as [Hin|]; [left; by apply Hhave|by right].
  - intros Hnd. rewrite map_app, M1. apply NoDup_app. split; [done|]. split; [|done].
    intros id Hid (t & -> & Ht)%list_elem_of_fmap. apply S3 in Ht. by rewrite Hhave in Ht.
Qed.

(** ** Samples *)

Definition sample_tx : option projectionHydrateTransaction := active_tx (sessionLocked "codex" "s" sample_start).

Lemma sample_started : exists tx,
  active_tx (sessionLocked "codex" "s" sample_start) = Some tx /\ pendingLive tx = [] /\
  hydrateDone (sessionLocked "codex" "s" sample_start) = Some 0%nat /\ nextInput tx = 0 /\
  lastAppliedRev (default (new_session "s") (tx_reducer tx !! projectionSessionKey "codex" "s")) = 0.
Proof.
  assert ((fun tx => (pendingLive tx, nextInput tx,
      lastAppliedRev (default (new_session "s") (tx_reducer tx !! projectionSessionKey "codex" "s")))) <$> sample_tx
    = Some ([], 0, 0)) as H by (vm_compute; reflexivity).
  assert (hydrateDone (sessionLocked "codex" "s" sample_start) = Some 0%nat) as Hd by (vm_compute; reflexivity).
  unfold sample_tx in H. revert H. generalize (active_tx (sessionLocked "codex" "s" sample_start)).
  intros [tx|] H; [|discriminate H]. exists tx. cbn [fmap option_fmap option_map] in H. injection H as H1 H2 H3.
  split; [reflexivity|]. split; [exact H1|]. split; [exact Hd|]. split; [exact H2|exact H3].
Defined.

(** The sample hydrate: two live events waited and both are in what is published. *)
Lemma hydrate_commit_witness :
  exists commit k3,
    CommitHydrateTransaction no_attachments no_parts [] (fun _ => 9) "codex" "s"
      (run_window no_attachments no_parts "codex" "s" sample_cold sample_start) = Some (inr commit, k3) /\
    hc_PendingLive commit = 2 /\ 0%nat ∈ closed_done k3 /\
    KernelSnapshot "codex" "s" k3 = Some (hc_Projection commit).
Proof.
  destruct sample_started as (tx & Htx & Hp & Hc & _).
  assert (own_live "codex" "s" sample_cold =
    [live_event "e7" 7 "user_message" [("turnId", VString "t3"); ("itemId", VString "u3"); ("text", VString "three")];
     live_event "e8" 8 "text_delta" [("turnId", VString "t3"); ("itemId", VString "a3"); ("delta", VString "hello")]])
    as Hl by (vm_compute; reflexivity).
  destruct (hydrate_commit no_attachments no_parts "codex" "s" [] (fun _ => 9) sample_start tx 0%nat sample_cold Htx Hp Hc
    ltac:(discriminate) ltac:(discriminate)) as (_ & _ & tx' & _ & _ & _ & H).
  { rewrite Hl. cbn. repeat split; discriminate. }
  cbv zeta in H. rewrite Hl in H. revert H. destruct (apply_all no_attachments no_parts _ _ _) as [ids ps]. intros H.
  destruct (H ltac:(constructor)) as (commit & k3 & H1 & _ & H2 & _ & _ & H3 & H4 & _ & _ & _ & _ & H5).
  exists commit, k3. split; [exact H1|]. split; [exact H3|]. split; [exact H5|]. rewrite H2. exact H4.
Defined.

Lemma hydrate_cold_fold_witness :
  exists tx', active_tx (sessionLocked "codex" "s" (run_window no_attachments no_parts "codex" "s" sample_cold sample_start))
      = Some tx' /\ nextInput tx' = 4.
Proof.
  destruct sample_started as (tx & Htx & _ & _ & Hn & Hl).
  destruct (hydrate_cold_fold no_attachments no_parts "codex" "s" sample_start tx sample_cold Htx
    ltac:(discriminate) ltac:(discriminate)) as (tx' & H1 & _ & H2).
  { rewrite Hn. lia. }
  { rewrite Hn, Hl. lia. }
  assert (zlen (own_cold sample_cold) = 4) as Hz by (vm_compute; reflexivity).
  exists tx'. split; [exact H1|]. rewrite H2, Hn, Hz. reflexivity.
Defined.

(** The same hydrate, failed: the two events come back. *)
Lemma hydrate_failed_witness :
  let '((st, ids), k3) := MarkFailed 10 None "codex" "s" "projection.source_failed" "" true
    (run_window no_attachments no_parts "codex" "s" sample_cold sample_start) in
  ids = ["e7"; "e8"] /\ 0%nat ∈ closed_done k3 /\
  BeginHydrateTransaction [] 11 "codex" "s" sample_source false true false k3 = Some (inl (inr no_admission), k3).
Proof.
  destruct sample_started as (tx & Htx & Hp & Hc & _).
  pose proof (hydrate_failed no_attachments no_parts "codex" "s" 10 None sample_start tx 0%nat sample_cold
    "projection.source_failed" "" true Htx Hp Hc) as H. cbv zeta in H.
  assert (filter (fun id => id <> "") (map EventID (own_live "codex" "s" sample_cold)) = ["e7"; "e8"]) as Hi
    by (vm_compute; reflexivity).
  assert ((11 <? 10 + delay (retryPolicy (run_window no_attachments no_parts "codex" "s" sample_cold sample_start))
    (failureAttempts (sessionLocked "codex" "s" sample_start) + 1) None) = true) as Hd by (vm_compute; reflexivity).
  rewrite Hi in H. revert H.
  destruct (MarkFailed 10 None "codex" "s" "projection.source_failed" "" true _) as [[st ids] k3].
  intros (H1 & _ & _ & _ & _ & _ & H2 & H3). split; [exact H1|]. split; [exact H2|].
  apply H3; [discriminate|discriminate|cbn; lia|cbn [negb andb]; exact Hd].
Defined.

(** The source of the sample is at its end, with its turns closed; the waiter that
    slept while it was being read finds a token. *)
Lemma wakeup_not_lost_witness :
  let k := run_window no_attachments no_parts "codex" "s" (firstn 5 sample_cold) sample_start in
  hydrate_ready no_attachments no_parts [] (fun _ => 9) "codex" "s" k = Some (Some false) /\
  exists tx', active_tx (sessionLocked "codex" "s" (exec_window no_attachments no_parts "codex" "s" WComplete k)) = Some tx' /\
    liveArrived tx' = true.
Proof.
  set (k := run_window no_attachments no_parts "codex" "s" (firstn 5 sample_cold) sample_start).
  assert (hydrate_ready no_attachments no_parts [] (fun _ => 9) "codex" "s" k = Some (Some false)) as H1 by (vm_compute; reflexivity).
  assert (hydrate_ready no_attachments no_parts [] (fun _ => 9) "codex" "s"
    (exec_window no_attachments no_parts "codex" "s" WComplete k) = Some (Some true)) as H2 by (vm_compute; reflexivity).
  split; [exact H1|]. destruct sample_started as (tx & Htx & _).
  destruct (window_run no_attachments no_parts "codex" "s" (firstn 5 sample_cold) sample_start tx Htx)
    as (_ & _ & _ & tx1 & _ & T1 & _).
  apply (wakeup_not_lost no_attachments no_parts "codex" "s" [] (fun _ => 9) k tx1 WComplete T1 H1); [|exact H2].
  intros _ t epoch event data. discriminate.
Defined.
