(* ===== verification/KernelBatch.v ===== *)
(** * Batches of a Claude transcript (projection_source_transaction.go, theorems on [Kernel])

    A row of the transcript moves the ledger of consumed bytes and the projection of
    its session in one step or not at all; handing the same row in again is
    recognised. *)

From S2P Require Import Prelude.
From S2P Require Import Wire.
From S2P Require Import Projection.
From S2P Require Import ProjectionFields.
From S2P Require Import ReducerParts.
From S2P Require Import Reducer.
From S2P Require Import ReducerPatch.
From S2P Require Import ReducerInvariant.
From S2P Require Import ReducerTurns.
From S2P Require Import SourceLedger.
From S2P Require Import Checkpoint.
From S2P Require Import CheckpointWriter.
From S2P Require Import Kernel.
From S2P Require Import KernelProps.
From S2P Require Import KernelHydrate.

(** ** What a copy of a session keeps *)

Lemma cloneState_id ps : cloneProjectionSessionState ps = set_removedTurns [] ps.
Proof.
  unfold cloneProjectionSessionState. rewrite cloneSession_id.
  assert ((fun t => mkToolPending (tpd_turnID t) (cloneProjectionPart (tpd_part t))) <$> tools ps = tools ps) as ->.
  { rewrite <- (map_fmap_id (tools ps)) at 2. apply map_fmap_ext. intros _ [] _. cbn. by rewrite cloneProjectionPart_id. }
  assert (cloneTurn <$> upsertTurns ps = upsertTurns ps) as ->.
  { rewrite <- (map_fmap_id (upsertTurns ps)) at 2. apply map_fmap_ext. intros _ t _. apply cloneTurn_id. }
  assert ((fun u => mkUserInputPending (ui_turnID u) (cloneProjectionPart (ui_part u))) <$> userInputs ps = userInputs ps) as ->.
  { rewrite <- (map_fmap_id (userInputs ps)) at 2. apply map_fmap_ext. intros _ [] _. cbn. by rewrite cloneProjectionPart_id. }
  assert ((fun w => mkWorkflowPending (wf_turnID w) (cloneProjectionPart (wf_part w))) <$> workflows ps = workflows ps) as ->.
  { rewrite <- (map_fmap_id (workflows ps)) at 2. apply map_fmap_ext. intros _ [] _. cbn. by rewrite cloneProjectionPart_id. }
  destruct ps as [p a f b s t th tl u rm ui wf pc ex pm sm cm [[[[? ? ? [?|] ? ? ? ?]|]]|] g]; reflexivity.
Qed.

(** ** The cursor of a segment after its row is taken *)

Section Ledger.
Context (sha256hex : string -> string).
Context (recode_json : string -> option string) (marshal_strings : list string -> string).

Lemma body_cursors r s s' result ids :
  transition_body sha256hex recode_json marshal_strings r s = inr (s', result, ids) -> cs_CursorVector s' = cs_CursorVector s.
Proof.
  unfold transition_body, record_content. cbv zeta. intros H.
  repeat (case_match; try discriminate H); injection H as <- _ _; reflexivity.
Qed.

Lemma cursor_at_alter key n l i c :
  cursor_at key l = Some (i, c) -> cursor_at key (alter (set_end n) i l) = Some (i, set_end n c).
Proof.
  unfold cursor_at. rewrite !list_find_Some. intros (Hi & Hk & Hb). split; [by rewrite list_lookup_alter_eq, Hi|].
  split; [done|]. intros j y Hj Hlt. rewrite list_lookup_alter_ne in Hj by lia. by eapply Hb.
Qed.

(** A row that is taken leaves its cursor at its end, in the same generation. *)
Lemma propose_cursor r s p :
  ProposeClaudeSourceTransition sha256hex recode_json marshal_strings s r = inr p ->
  CommitClaudeSourceTransition s p = inr (Next p) /\
  exists c, claudeSourceCursorForSegment (Next p) (rt_SegmentStableKey r) = Some c /\
    cc_SegmentGeneration c = rt_SegmentGeneration r /\ cc_RawByteEnd c = rt_RawByteEnd r /\
    0 <= rt_RawByteStart r < rt_RawByteEnd r.
Proof.
  intros H. unfold ProposeClaudeSourceTransition in H. destruct (ValidateClaudeSourceState s); [done|].
  destruct (_ || (rt_RawByteEnd r <=? rt_RawByteStart r)) eqn:Hr; [done|]. destruct (cursor_at _ _) as [[i c]|] eqn:Hc; [|done].
  destruct (negb _ || negb _) eqn:Hg; [done|].
  destruct (transition_body _ _ _ _ _) as [|[[next result] ids]] eqn:Hb; [done|]. injection H as <-.
  unfold CommitClaudeSourceTransition. cbn [BaseGeneration BaseSourceStateRev Next]. rewrite bool_decide_eq_true_2, Z.eqb_refl by done.
  split; [done|]. exists (set_end (rt_RawByteEnd r) c). unfold claudeSourceCursorForSegment.
  rewrite (body_cursors _ _ _ _ _ Hb). cbn [advanced set_cursors cs_CursorVector]. rewrite (cursor_at_alter _ _ _ _ _ Hc).
  zprop. split; [done|]. split; [done|]. split; [done|lia].
Qed.
End Ledger.

(** ** The subevents of a row *)

Section Batch.
Context (ea : value -> list ProjectionAttachment) (pb : value -> list ProjectionPart).
Context (sha256hex : string -> string).
Context (recode_json : string -> option string) (marshal_strings : list string -> string).
Context (b : ClaudeSourceRecordBatch).

Abbreviation key := (projectionSessionKey (bt_BackendID b) (bt_SessionID b)).
Abbreviation session := (sessionLocked (bt_BackendID b) (bt_SessionID b)).
Abbreviation propose := (ProposeClaudeSourceTransition sha256hex recode_json marshal_strings).
Abbreviation apply_batch := (ApplyClaudeSourceRecordBatch ea pb sha256hex recode_json marshal_strings).

Definition batch_event (e : projectionHydrateEvent) (seq : Z) : EventMessage :=
  hydrate_event (bt_BackendID b) (bt_SessionID b) (bt_BridgeEpoch b) (he_Event e) (he_Data e) seq.

(** The subevents folded with no gate, numbered from [n + 1]. *)
Fixpoint fold_batch (now : nat -> Z) (n : Z) (events : list projectionHydrateEvent) (ps : projectionSession)
  : projectionSession :=
  match events with
  | [] => ps
  | e :: events =>
      fold_batch (fun i => now (S i)) (n + 1) events (apply_event ea pb (batch_event e (n + 1)) (now O) ps)
  end.

(** How many of them take a revision. *)
Fixpoint advancing (now : nat -> Z) (n : Z) (events : list projectionHydrateEvent) (ps : projectionSession) : Z :=
  match events with
  | [] => 0
  | e :: events =>
      let ps' := apply_event ea pb (batch_event e (n + 1)) (now O) ps in
      (if sp_SyncRev (projection ps') =? sp_SyncRev (projection ps) then 0 else 1) +
      advancing (fun i => now (S i)) (n + 1) events ps'
  end.

Abbreviation of_session := (fun r : ProjectionReducer => default (new_session (bt_SessionID b)) (r !! key)).

Lemma batch_events_spec now events r k :
  bt_BackendID b <> "" -> bt_SessionID b <> "" ->
  let '(applied, r', k') := apply_batch_events ea pb now b events r k in
  k' = set_seqIssuer (seqIssuer k') k /\
  (forall key', key' <> key -> r' !! key' = r !! key') /\
  (is_Some (r !! key) \/ 0 < applied -> is_Some (r' !! key)) /\ 0 <= applied /\
  (0 <= seqIssuer k !!0 key -> lastAppliedRev (of_session r) <= seqIssuer k !!0 key ->
   of_session r' = fold_batch now (seqIssuer k !!0 key) events (of_session r) /\
   applied = advancing now (seqIssuer k !!0 key) events (of_session r) /\
   seqIssuer k' !!0 key = seqIssuer k !!0 key + zlen events).
Proof.
  assert (forall r : ProjectionReducer, LastAppliedRev (bt_BackendID b) (bt_SessionID b) r = sp_SyncRev (projection (of_session r))) as Hla
    by (intros r'; unfold LastAppliedRev; by destruct (r' !! key)).
  intros Hb Hs. revert now r k. induction events as [|e events IH]; intros now r k; simpl.
  { split; [by destruct k|]. split; [done|]. split; [by intros [?|?]; [|lia]|]. split; [done|]. intros _ _. split; [done|split; [done|lia]]. }
  unfold IssueSessionSeq, unset. rewrite !bool_decide_eq_false_2 by done. cbn [orb]. cbv zeta.
  set (n := seqIssuer k !!0 key). set (k1 := set_seqIssuer (<[key := n + 1]> (seqIssuer k)) k).
  fold (batch_event e (n + 1)). set (r1 := Apply ea pb (batch_event e (n + 1)) (now O) r).
  assert (seqIssuer k1 !!0 key = n + 1) as Hn1 by (subst k1; cbn; by rewrite lookup_insert_eq).
  specialize (IH (fun i => now (S i)) r1 k1). destruct (apply_batch_events ea pb _ b events r1 k1) as [[applied r'] k'].
  destruct IH as (I1 & I2 & I3 & I4 & I5).
  assert (forall key', key' <> key -> r1 !! key' = r !! key') as Hr1.
  { intros key' Hne. subst r1. rewrite Apply_lookup, bool_decide_eq_false_2; [done|]. cbn. congruence. }
  split; [rewrite I1; subst k1; by destruct k|]. split; [intros; rewrite I2, Hr1; done|]. split; [|split; [case_if; lia|]].
  - intros Hp. apply I3. destruct (0 <? applied) eqn:Ha; [right; zprop; lia|]. left.
    subst r1. rewrite Apply_lookup, bool_decide_eq_true_2 by done. destruct (refused_event _) eqn:Hf; [|by eexists].
    cbn [negb andb]. destruct Hp as [Hp|Hp]; [done|]. exfalso. revert Hp.
    unfold LastAppliedRev. rewrite Apply_lookup, Hf, andb_false_r, Z.eqb_refl. cbn. zprop. lia.
  - intros Hn Hl. rewrite Hn1 in I5.
    assert (of_session r1 = apply_event ea pb (batch_event e (n + 1)) (now O) (of_session r)) as Hap.
    { subst r1. rewrite Apply_lookup, bool_decide_eq_true_2 by done. unfold refused_event. cbn [batch_event hydrate_event BackendID SessionID PerSessionSeq].
      rewrite !bool_decide_eq_false_2 by done. replace (n + 1 =? 0) with false by (symmetry; zprop; lia).
      cbn [orb negb andb from_option id]. unfold apply_session. cbn [PerSessionSeq hydrate_event batch_event].
      replace (n + 1 <=? _) with false by (symmetry; zprop; lia). by rewrite andb_false_r. }
    destruct I5 as [I5 I6]; [lia| |].
    + rewrite Hap. eapply apply_event_last; [exact Hl|]. cbn. lia.
    + split; [by rewrite I5, Hap|]. destruct I6 as [-> ->]. split; [|lia]. rewrite !Hla, Hap. destruct (_ =? _); cbn [negb]; lia.
Qed.

(** Nothing of the kernel but the sequence numbers it has issued moved. *)
Definition only_numbers (k k' : ProjectionKernel) : Prop := k' = set_seqIssuer (seqIssuer k') k.

Lemma only_numbers_refl k : only_numbers k k.
Proof. unfold only_numbers. by destruct k. Qed.

(** The row is recognised once its cursor is at its end. *)
Lemma batch_again now k state c :
  bt_BackendID b <> "" -> bt_SessionID b <> "" -> claudeSourceState (session k) = Some state ->
  claudeSourceCursorForSegment state (rt_SegmentStableKey (bt_Record b)) = Some c ->
  cc_SegmentGeneration c = rt_SegmentGeneration (bt_Record b) -> cc_RawByteEnd c = rt_RawByteEnd (bt_Record b) ->
  0 <= rt_RawByteStart (bt_Record b) < rt_RawByteEnd (bt_Record b) ->
  apply_batch now b k =
    (inr (mkBatchResult ClaudeSourceBatchAlreadyApplied (cs_SourceStateRev state) 0 0 0 ("", "")), k).
Proof.
  intros Hb Hs Hst Hc Hg He Hr. unfold ApplyClaudeSourceRecordBatch, unset. rewrite !bool_decide_eq_false_2 by done.
  cbn [orb]. rewrite Hst.
  replace ((rt_RawByteStart (bt_Record b) <? 0) || (rt_RawByteEnd (bt_Record b) <=? rt_RawByteStart (bt_Record b)))
    with false by (symmetry; apply orb_false_iff; split; zprop; lia).
  rewrite Hc, bool_decide_eq_true_2 by done. cbn [negb].
  replace (rt_RawByteEnd (bt_Record b) <=? cc_RawByteEnd c) with true by (symmetry; zprop; lia).
  replace (rt_RawByteEnd (bt_Record b) =? cc_RawByteEnd c) with true by (symmetry; zprop; lia). done.
Qed.

(** The numbers of the session are the issuer's. *)
Definition numbered (k : ProjectionKernel) : Prop :=
  0 <= seqIssuer k !!0 key /\ lastAppliedRev (of_session (k_reducer k)) <= seqIssuer k !!0 key.

(** The new subevents of a row, from the session as a copy carries it: what they make
    of it, and how many take a revision. *)
Definition folded now k p : projectionSession :=
  fold_batch now (seqIssuer k !!0 key) (new_events p b) (set_removedTurns [] (of_session (k_reducer k))).
Definition taken now k p : Z :=
  advancing now (seqIssuer k !!0 key) (new_events p b) (set_removedTurns [] (of_session (k_reducer k))).

(** When the ledger moves alone: the row shows nothing, or none of its new subevents
    takes a revision. *)
Definition shows_nothing now k p : Prop :=
  Result p = ClaudeTransitionAcceptedSourceOnly \/
  bt_Events b = [] /\ bt_RowClass b = claudeRowContentProvenNoDisplay \/
  bt_Events b <> [] /\ (numbered k -> taken now k p = 0).

(** What a batch that was taken did. *)
Definition took (now : nat -> Z) (k k' : ProjectionKernel) (res : ClaudeSourceBatchResult) : Prop :=
  exists state p, claudeSourceState (session k) = Some state /\ propose state (bt_Record b) = inr p /\
    k' = set_k_reducer (k_reducer k') (set_seqIssuer (seqIssuer k')
           (put_session (bt_BackendID b) (bt_SessionID b) (set_claudeSourceState (Some (Next p)) (session k)) k)) /\
    (br_Status res = ClaudeSourceBatchAcceptedSourceOnly /\ br_ProjectionSubeventsApplied res = 0 /\
       k_reducer k' = k_reducer k /\ shows_nothing now k p \/
     br_Status res = ClaudeSourceBatchAcceptedProjection /\ 0 < br_ProjectionSubeventsApplied res /\
       Result p = ClaudeTransitionAcceptedProjection /\ bt_Events b <> [] /\
       (forall key', key' <> key -> k_reducer k' !! key' = k_reducer k !! key') /\
       (numbered k -> br_ProjectionSubeventsApplied res = taken now k p /\
        k_reducer k' !! key = Some (set_removedTurns [] (folded now k p)))).

Lemma took_session now k k' res : took now k k' res -> bt_BackendID b <> "" -> bt_SessionID b <> "" ->
  forall now', exists rev, apply_batch now' b k' =
    (inr (mkBatchResult ClaudeSourceBatchAlreadyApplied rev 0 0 0 ("", "")), k').
Proof.
  intros (state & p & _ & Hp & Hk & _) Hb Hs now'. apply propose_cursor in Hp as (_ & c & H1 & H2 & H3 & H4).
  exists (cs_SourceStateRev (Next p)). apply batch_again with c; try done.
  rewrite Hk. unfold sessionLocked. cbn. rewrite lookup_insert_eq. done.
Qed.

Lemma source_only_took now state p changed k k1 :
  claudeSourceState (session k) = Some state -> propose state (bt_Record b) = inr p -> only_numbers k k1 ->
  shows_nothing now k p ->
  exists res k', commit_source_only b (session k) state p changed k1 = (inr res, k') /\ took now k k' res.
Proof.
  intros Hst Hp -> Hno. pose proof (propose_cursor _ _ _ _ _ _ Hp) as [Hc _]. unfold commit_source_only. rewrite Hc.
  do 2 eexists. split; [reflexivity|]. exists state, p. split; [done|]. split; [done|]. split; [done|]. by left.
Qed.

Lemma projected_took now state p k :
  bt_BackendID b <> "" -> bt_SessionID b <> "" ->
  claudeSourceState (session k) = Some state -> propose state (bt_Record b) = inr p ->
  Result p = ClaudeTransitionAcceptedProjection -> bt_Events b <> [] ->
  let '(applied, reduced, k1) := apply_batch_events ea pb now b (new_events p b)
    (cloneSessionReducer (bt_BackendID b) (bt_SessionID b) (k_reducer k)) k in
  only_numbers k k1 /\ ((applied =? 0) = true -> shows_nothing now k p) /\
  ((applied =? 0) = false -> forall rev rows changed trace,
   took now k (put_session (bt_BackendID b) (bt_SessionID b) (set_claudeSourceState (Some (Next p)) (session k))
     (set_k_reducer (swapSessionFrom (bt_BackendID b) (bt_SessionID b) reduced (k_reducer k1)) k1))
     (mkBatchResult ClaudeSourceBatchAcceptedProjection rev rows changed applied trace)).
Proof.
  intros Hb Hs Hst Hp Hres Hev. set (r := cloneSessionReducer _ _ _).
  assert (of_session r = set_removedTurns [] (of_session (k_reducer k))) as Hr.
  { subst r. unfold cloneSessionReducer. cbv zeta. destruct (k_reducer k !! key); [|by rewrite lookup_empty].
    rewrite lookup_singleton_eq. apply cloneState_id. }
  pose proof (batch_events_spec now (new_events p b) r k Hb Hs) as H.
  destruct (apply_batch_events ea pb now b (new_events p b) r k) as [[applied reduced] k1].
  destruct H as (H1 & H2 & H3 & H4 & H5). rewrite Hr in H5. fold (folded now k p) in H5. fold (taken now k p) in H5.
  split; [done|]. split.
  { intros Ha. right. right. split; [done|]. intros [Hn Hl]. destruct (H5 Hn Hl) as (_ & H6 & _). zprop. lia. }
  intros Ha rev rows changed trace.
  assert (0 < applied) as Hpos by (zprop; lia). destruct (H3 ltac:(auto)) as [ps Hps].
  exists state, p. split; [done|]. split; [done|].
  split; [by rewrite H1|]. right. cbn. do 4 (split; [done|]).
  unfold swapSessionFrom. cbv zeta. rewrite Hps, H1. split; [intros; by rewrite lookup_insert_ne|].
  intros [Hn Hl]. destruct (H5 Hn Hl) as (H6 & H7 & _). split; [done|].
  rewrite lookup_insert_eq, cloneState_id. do 2 f_equal. rewrite Hps in H6. exact H6.
Qed.

Definition batch_outcome (now : nat -> Z) (k : ProjectionKernel) (res : BatchError + ClaudeSourceBatchResult)
    (k' : ProjectionKernel) : Prop :=
  match res with
  | inl _ => only_numbers k k'
  | inr res =>
      br_Status res = ClaudeSourceBatchAlreadyApplied /\ k' = k /\
        (forall now', exists rev, apply_batch now' b k =
          (inr (mkBatchResult ClaudeSourceBatchAlreadyApplied rev 0 0 0 ("", "")), k)) \/
      took now k k' res /\ bt_BackendID b <> "" /\ bt_SessionID b <> ""
  end.

(** A row that is ahead of its cursor and that the ledger would take. *)
Lemma batch_proposed now k state p res k' :
  bt_BackendID b <> "" -> bt_SessionID b <> "" ->
  claudeSourceState (session k) = Some state -> propose state (bt_Record b) = inr p ->
  match Result p with
  | ClaudeTransitionAcceptedSourceOnly => commit_source_only b (session k) state p 0 k
  | ClaudeTransitionAcceptedProjection =>
      match bt_Events b, bt_RowClass b with
      | [], claudeRowContentProvenNoDisplay => commit_source_only b (session k) state p 1 k
      | [], _ => (inl BNoSubevents, k)
      | _, _ =>
          let events := new_events p b in
          let clone := cloneSessionReducer (bt_BackendID b) (bt_SessionID b) (k_reducer k) in
          let '(applied, reduced, k1) := apply_batch_events ea pb now b events clone k in
          if applied =? 0 then commit_source_only b (session k) state p 1 k1
          else
            let reducer := swapSessionFrom (bt_BackendID b) (bt_SessionID b) reduced (k_reducer k1) in
            (inr (mkBatchResult ClaudeSourceBatchAcceptedProjection (cs_SourceStateRev (Next p)) 1 1
                    applied (claudeProjectionTraceIdentity events)),
             put_session (bt_BackendID b) (bt_SessionID b)
               (set_claudeSourceState (Some (Next p)) (session k)) (set_k_reducer reducer k1))
      end
  end = (res, k') ->
  batch_outcome now k res k'.
Proof.
  intros Hb Hs Hst Hp E.
  assert (forall changed k1, only_numbers k k1 -> shows_nothing now k p ->
    commit_source_only b (session k) state p changed k1 = (res, k') -> batch_outcome now k res k') as Honly.
  { intros changed k1 Hk Hno Hx. destruct (source_only_took now state p changed k k1 Hst Hp Hk Hno) as (z & w & Hz & Hw).
    rewrite Hz in Hx. injection Hx as <- <-. by right. }
  pose proof (only_numbers_refl k) as Hrefl.
  destruct (Result p) eqn:Hres; [|exact (Honly 0 k Hrefl (or_introl Hres) E)].
  assert (forall events, bt_Events b = events -> batch_outcome now k res k') as Hgoal; [|by eapply Hgoal].
  intros events He. rewrite He in E. destruct events as [|e events].
  { destruct (bt_RowClass b) eqn:Hc; try (by injection E as <- <-).
    exact (Honly 1 k Hrefl (or_intror (or_introl (conj He Hc))) E). }
  cbv zeta in E. pose proof (projected_took now state p k Hb Hs Hst Hp Hres ltac:(congruence)) as H.
  destruct (apply_batch_events ea pb now b (new_events p b) _ k) as [[applied reduced] k1]. destruct H as (H1 & H3 & H2).
  destruct (applied =? 0) eqn:Ha; [exact (Honly 1 k1 H1 (H3 eq_refl) E)|]. injection E as <- <-. right. split; [by apply H2|done].
Qed.

Lemma batch_cases now k : let '(res, k') := apply_batch now b k in batch_outcome now k res k'.
Proof.
  destruct (apply_batch now b k) as [res k'] eqn:E. pose proof (only_numbers_refl k) as Hrefl.
  unfold ApplyClaudeSourceRecordBatch, unset in E.
  destruct (bool_decide_reflect (bt_BackendID b = "")) as [|Hb]; [by injection E as <- <-|].
  destruct (bool_decide_reflect (bt_SessionID b = "")) as [|Hs]; [by injection E as <- <-|]. cbn [orb] in E.
  destruct (claudeSourceState (session k)) as [state|] eqn:Hst; [|by injection E as <- <-].
  destruct ((rt_RawByteStart _ <? 0) || _) eqn:Hrange; [by injection E as <- <-|].
  destruct (claudeSourceCursorForSegment state _) as [c|] eqn:Hc; [|by injection E as <- <-].
  destruct (negb (bool_decide (cc_SegmentGeneration c = _))) eqn:Hg; [by injection E as <- <-|].
  destruct (rt_RawByteEnd _ <=? cc_RawByteEnd c) eqn:Hbehind.
  { destruct (_ && negb (claudeSourceOccurrenceExists state _)) eqn:Hu; injection E as <- <-; [done|].
    left. split; [done|]. split; [done|]. intros now'. exists (cs_SourceStateRev state). unfold ApplyClaudeSourceRecordBatch, unset.
    rewrite !bool_decide_eq_false_2 by done. cbn [orb]. by rewrite Hst, Hrange, Hc, Hg, Hbehind, Hu. }
  destruct (negb (rt_RawByteStart _ =? _)); [by injection E as <- <-|].
  destruct (propose state (bt_Record b)) as [e|p] eqn:Hp; [by injection E as <- <-|].
  by apply (batch_proposed now k state p).
Qed.

(** A row that continues its cursor, that the ledger takes, and that either is not for
    the projection, or shows something, or is known to show nothing. *)
Definition acceptable k : Prop := exists state c p,
  bt_BackendID b <> "" /\ bt_SessionID b <> "" /\ claudeSourceState (session k) = Some state /\
  claudeSourceCursorForSegment state (rt_SegmentStableKey (bt_Record b)) = Some c /\
  cc_SegmentGeneration c = rt_SegmentGeneration (bt_Record b) /\ rt_RawByteStart (bt_Record b) = cc_RawByteEnd c /\
  propose state (bt_Record b) = inr p /\
  (Result p = ClaudeTransitionAcceptedSourceOnly \/ bt_Events b <> [] \/ bt_RowClass b = claudeRowContentProvenNoDisplay).

Lemma source_only_answers s state p changed k :
  propose state (bt_Record b) = inr p -> exists res, fst (commit_source_only b s state p changed k) = inr res.
Proof. intros Hp. apply propose_cursor in Hp as [Hc _]. unfold commit_source_only. rewrite Hc. eauto. Qed.

Lemma acceptable_taken now k : acceptable k -> exists res, fst (apply_batch now b k) = inr res.
Proof.
  intros (state & c & p & Hb & Hs & Hst & Hc & Hg & Hstart & Hp & Hshow).
  destruct (propose_cursor _ _ _ _ _ _ Hp) as (_ & _ & _ & _ & _ & Hrange).
  unfold ApplyClaudeSourceRecordBatch, unset. rewrite !bool_decide_eq_false_2 by done. cbn [orb]. rewrite Hst.
  replace ((rt_RawByteStart (bt_Record b) <? 0) || (rt_RawByteEnd (bt_Record b) <=? rt_RawByteStart (bt_Record b)))
    with false by (symmetry; apply orb_false_iff; split; zprop; lia).
  rewrite Hc, bool_decide_eq_true_2 by done. cbn [negb].
  replace (rt_RawByteEnd (bt_Record b) <=? cc_RawByteEnd c) with false by (symmetry; zprop; lia).
  rewrite Hstart, Z.eqb_refl. cbn [negb]. rewrite Hp.
  destruct (Result p) eqn:Hres; [|by apply source_only_answers].
  destruct (bt_Events b) as [|e events].
  - destruct Hshow as [?|[?| ->]]; [done|done|]. by apply source_only_answers.
  - cbv zeta. destruct (apply_batch_events _ _ _ _ _ _ _) as [[applied reduced] k1].
    destruct (applied =? 0); [by apply source_only_answers|eauto].
Qed.

(** C15. A row of a Claude transcript moves the ledger and the projection together or not
    at all. A batch that is refused leaves the session and the projection as they were
    (it can at most have used sequence numbers), and only a batch that is not acceptable
    is refused; one that is recognised as already applied changes nothing; one that is
    taken moves the ledger by exactly the proposed transition, with no other session
    touched. With the numbers of the session issued by the kernel, the ledger moves alone
    exactly when it keeps the row from the projection, the row is known to show nothing,
    or none of its new subevents takes a revision; otherwise every new subevent is folded
    into the projection, in order, none refused for its number, as many being reported as
    take a revision. Handing the
    same row in again after it was taken is recognised and changes nothing. *)
Theorem batch_atomic now k :
  let '(res, k') := apply_batch now b k in
  match res with
  | inl _ => only_numbers k k' /\ ~ acceptable k
  | inr res =>
      (br_Status res = ClaudeSourceBatchAlreadyApplied /\ k' = k \/ took now k k' res) /\
      forall now', exists rev, apply_batch now' b k' =
        (inr (mkBatchResult ClaudeSourceBatchAlreadyApplied rev 0 0 0 ("", "")), k')
  end.
Proof.
  pose proof (batch_cases now k) as H. pose proof (acceptable_taken now k) as Hacc.
  destruct (apply_batch now b k) as [[e|res] k'].
  { split; [exact H|]. intros Ha. by destruct (Hacc Ha). }
  destruct H as [(H1 & -> & H2)|(H & Hb & Hs)]; [auto|]. split; [by right|]. by eapply took_session.
Qed.
End Batch.
