(* ===== verification/KernelFlight.v ===== *)
(** * One hydrate at a time (theorems on [Kernel])

    Whatever calls of whatever sessions interleave, a session has at most one open
    transaction, one caller leads it, and every channel that was handed out is
    closed or belongs to a transaction still open: nobody waits for nothing. *)

From S2P Require Import Prelude.
From S2P Require Import Wire.
From S2P Require Import Projection.
From S2P Require Import ProjectionFields.
From S2P Require Import ReducerParts.
From S2P Require Import Reducer.
From S2P Require Import ReducerPatch.
From S2P Require Import TurnDetail.
From S2P Require Import ReducerInvariant.
From S2P Require Import SourceLedger.
From S2P Require Import Checkpoint.
From S2P Require Import CheckpointWriter.
From S2P Require Import Kernel.
From S2P Require Import KernelProps.
From S2P Require Import KernelBatch.

Section Flight.
Context (ea : value -> list ProjectionAttachment) (pb : value -> list ProjectionPart).
Context (sha256hex : string -> string).
Context (recode_json : string -> option string) (marshal_strings : list string -> string).

(** ** The calls of the kernel

    Every method that changes the kernel, the timers and the writes of the checkpoint
    writer, and [RestoreCheckpoint] while its session has no hydrate under way: it sets
    the session READY without ending one ([restore_strands_waiters] at the end of this
    file). The methods that replace a part of the kernel when it is put together
    (SetCheckpointStore, SetReducer, SetTurnCheckpointStager) are not calls. *)

(** A channel that was handed out, and whether to the leader. *)
Abbreviation handout := (list (bool * nat)).

Definition to_caller (adm : ProjectionHydrateAdmission) : handout :=
  match Done adm with Some c => [(false, c)] | None => [] end.

Inductive kernel_step : ProjectionKernel -> handout -> ProjectionKernel -> Prop :=
| step_follow order now b s source explicit changed isLive k adm k' :
    BeginHydrateTransaction order now b s source explicit changed isLive k = Some (inl (inr adm), k') ->
    kernel_step k (to_caller adm) k'
| step_lead order now b s source explicit changed isLive k ld k' :
    BeginHydrateTransaction order now b s source explicit changed isLive k = Some (inr ld, k') ->
    kernel_step k [(true, ld_tx ld)] k'
| step_load order now jitter b s source loaded message ld k res k' :
    LoadHydrateCheckpoint order now jitter b s source loaded message ld k = Some (res, k') -> kernel_step k [] k'
| step_window b s op k : kernel_step k [] (exec_window ea pb b s op k)
| step_commit order now b s k res k' :
    CommitHydrateTransaction ea pb order now b s k = Some (res, k') -> kernel_step k [] k'
| step_reconcile order b s k adm k' :
    BeginReconcileTransaction order b s k = Some (inr adm, k') ->
    kernel_step k (match Done adm with Some c => [(true, c)] | None => [] end) k'
| step_call_off now b s k : kernel_step k [] (snd (AbortReconcileTransaction ea pb now b s k))
| step_fail now jitter b s code message retryable k :
    kernel_step k [] (snd (MarkFailed now jitter b s code message retryable k))
| step_ready b s k : kernel_step k [] (MarkReady b s k)
| step_hydrate now b s explicit changed k : kernel_step k [] (snd (BeginHydrate now b s explicit changed k))
| step_merge b s turnID generation parts k : kernel_step k [] (snd (kernel_merge_detail b s turnID generation parts k))
| step_flush b s k : kernel_step k [] (snd (FlushProjectionPatch b s k))
| step_number b s k : kernel_step k [] (snd (IssueSessionSeq b s k))
| step_stage now c settled k : kernel_step k [] (snd (kernel_stage now c settled k))
| step_store b s waiter k : kernel_step k [] (snd (kernel_flush b s waiter k))
| step_install b s state k : kernel_step k [] (snd (InstallClaudeSourceState b s state k))
| step_batch now batch k :
    kernel_step k [] (snd (ApplyClaudeSourceRecordBatch ea pb sha256hex recode_json marshal_strings now batch k))
| step_ack b s seg gen byteEnd k : kernel_step k [] (snd (AcknowledgeClaudeSourceRange b s seg gen byteEnd k))
| step_writer b s op k :
    kernel_step k [] (put_session b s (set_ks_writer (exec_writer (checkpointPolicy k) op (ks_writer (sessionLocked b s k)))
                        (sessionLocked b s k)) k)
| step_restore order b s source loaded k res k' :
    hydrate (sessionLocked b s k) = None ->
    RestoreCheckpoint order b s source loaded k = Some (res, k') -> kernel_step k [] k'.

Inductive kernel_run : ProjectionKernel -> handout -> ProjectionKernel -> Prop :=
| run_nil k : kernel_run k [] k
| run_snoc k l k' l' k'' : kernel_run k l k' -> kernel_step k' l' k'' -> kernel_run k (l ++ l') k''.

(** ** The invariant *)

Definition sess (k : ProjectionKernel) (key : string) : projectionKernelSession :=
  default new_kernel_session (k_sessions k !! key).

Record flight_ok (k : ProjectionKernel) : Prop := {
  fo_number : forall key, hydrateDone (sess k key) = tx_number <$> hydrate (sess k key);
  fo_phase : forall key, hydrate (sess k key) <> None -> Phase (status (sess k key)) = ProjectionHydrateHydrating;
  fo_one : forall key1 key2 c, hydrateDone (sess k key1) = Some c -> hydrateDone (sess k key2) = Some c -> key1 = key2;
  fo_open : forall key c, hydrateDone (sess k key) = Some c -> (c < next_tx k)%nat /\ c ∉ closed_done k;
  fo_ended : forall c, (c < next_tx k)%nat -> c ∈ closed_done k \/ exists key, hydrateDone (sess k key) = Some c;
  fo_closed : forall c, c ∈ closed_done k -> (c < next_tx k)%nat
}.

Lemma flight_new_ok r has_store : flight_ok (NewProjectionKernel r has_store).
Proof. split; unfold sess; cbn; intros; try rewrite lookup_empty in *; cbn in *; try done; try lia; set_solver. Qed.

(** A session whose transaction stays what it is. *)
Definition same_flight (s s' : projectionKernelSession) : Prop :=
  hydrateDone s' = hydrateDone s /\ tx_number <$> hydrate s' = tx_number <$> hydrate s /\
  (hydrate s' <> None -> Phase (status s') = Phase (status s)).

Lemma same_flight_refl s : same_flight s s.
Proof. done. Qed.

Lemma quiet_ok k k' :
  flight_ok k -> (forall key, same_flight (sess k key) (sess k' key)) ->
  next_tx k' = next_tx k -> closed_done k' = closed_done k -> flight_ok k'.
Proof.
  intros [F1 F2 F3 F4 F5 F6] H Hn Hc. split.
  - intros key. destruct (H key) as (-> & -> & _). done.
  - intros key Hk. destruct (H key) as (_ & H2 & H3). rewrite (H3 Hk). apply F2.
    destruct (hydrate (sess k' key)), (hydrate (sess k key)); done.
  - intros key1 key2 c. destruct (H key1) as (-> & _), (H key2) as (-> & _). apply F3.
  - intros key c. destruct (H key) as (-> & _). rewrite Hn, Hc. apply F4.
  - intros c. rewrite Hn, Hc. intros [|[key Hk]]%F5; [by left|]. right. exists key. by destruct (H key) as (-> & _).
  - intros c. rewrite Hn, Hc. apply F6.
Qed.

Lemma sess_put b s x k key : sess (put_session b s x k) key =
  if decide (projectionSessionKey b s = key) then x else sess k key.
Proof. unfold sess, put_session. cbn. case_decide as H; [by rewrite H, lookup_insert_eq|by rewrite lookup_insert_ne]. Qed.

Lemma quiet_put b s x k k0 :
  flight_ok k -> same_flight (sessionLocked b s k) x -> k_sessions k0 = k_sessions k -> next_tx k0 = next_tx k ->
  closed_done k0 = closed_done k -> flight_ok (put_session b s x k0).
Proof.
  intros Hok Hs H1 H2 H3. eapply quiet_ok; [exact Hok|..|done|done]. intros key. rewrite sess_put. unfold sess. rewrite H1.
  case_decide as H; [|done]. unfold sessionLocked in Hs. by rewrite <- H.
Qed.

(** Only the reducer, the numbers or the policies moved. *)
Lemma quiet_kernel k k' : flight_ok k -> k_sessions k' = k_sessions k -> next_tx k' = next_tx k ->
  closed_done k' = closed_done k -> flight_ok k'.
Proof. intros Hok H1 H2 H3. eapply quiet_ok; [exact Hok|..|done|done]. intros key. unfold sess. by rewrite H1. Qed.

(** A transaction opens where there was none. *)
Lemma opens_ok b s tx k st :
  flight_ok k -> hydrate (sessionLocked b s k) = None -> tx_number tx = next_tx k ->
  flight_ok (set_next_tx (S (next_tx k)) (put_session b s
    (set_hydrateDone (Some (next_tx k)) (set_hydrate (Some tx)
      (set_status (mkStatus ProjectionHydrateHydrating st) (sessionLocked b s k)))) k)).
Proof.
  intros [F1 F2 F3 F4 F5 F6] Hn Ht. set (k' := set_next_tx _ _).
  assert (forall key, hydrateDone (sess k' key) =
    if decide (projectionSessionKey b s = key) then Some (next_tx k) else hydrateDone (sess k key)) as Hd.
  { intros key. subst k'. change (sess (set_next_tx ?n ?x) key) with (sess x key). rewrite sess_put. by case_decide. }
  assert (forall key c, hydrateDone (sess k' key) = Some c ->
    projectionSessionKey b s = key /\ c = next_tx k \/ projectionSessionKey b s <> key /\ hydrateDone (sess k key) = Some c)
    as Hcase by (intros key c; rewrite Hd; case_decide; [left; split; congruence|by right]).
  assert (hydrateDone (sess k (projectionSessionKey b s)) = None) as Hnone by (rewrite F1; unfold sessionLocked in Hn; unfold sess; by rewrite Hn).
  split.
  - intros key. rewrite Hd. subst k'. change (sess (set_next_tx ?n ?x) key) with (sess x key). rewrite sess_put.
    case_decide; [cbn; by rewrite Ht|done].
  - intros key. subst k'. change (sess (set_next_tx ?n ?x) key) with (sess x key). rewrite sess_put. case_decide; [done|apply F2].
  - intros key1 key2 c [[<- ->]|[N1 H1]]%Hcase [[<- Hc]|[N2 H2]]%Hcase; [done| | |by eapply F3].
    + apply F4 in H2 as [? _]. lia.
    + subst c. apply F4 in H1 as [? _]. lia.
  - intros key c [[<- ->]|[N1 H1]]%Hcase; cbn.
    + split; [lia|]. intros Hin%F6. lia.
    + apply F4 in H1 as [? ?]. split; [lia|done].
  - intros c Hc. destruct (decide (c = next_tx k)) as [->|Hne].
    + right. exists (projectionSessionKey b s). rewrite Hd. by case_decide.
    + destruct (F5 c) as [|[key Hk]]; [cbn in Hc; lia|by left|]. right. exists key. rewrite Hd. case_decide; [congruence|done].
  - intros c Hc%F6. cbn. lia.
Qed.

(** A transaction ends, and its channel is closed. *)
Lemma closes_ok b s x k k0 :
  flight_ok k -> hydrate x = None -> hydrateDone x = None ->
  k_sessions k0 = k_sessions k -> next_tx k0 = next_tx k -> closed_done k0 = closed_done k ->
  flight_ok (put_session b s x (close_done (sessionLocked b s k) k0)).
Proof.
  intros [F1 F2 F3 F4 F5 F6] Hx Hd Es En Ec. set (key0 := projectionSessionKey b s). set (k' := put_session _ _ _ _).
  assert (forall key, sess k' key = if decide (key0 = key) then x else sess k key) as Hs.
  { intros key. subst k' key0. rewrite sess_put. case_decide; [done|]. unfold sess. by rewrite (proj1 (proj2 (close_done_frame _ _))), Es. }
  assert (next_tx k' = next_tx k) as Hn by (subst k'; cbn; by rewrite (proj2 (proj2 (close_done_frame _ _)))).
  assert (forall c, c ∈ closed_done k' <-> c ∈ closed_done k \/ hydrateDone (sess k key0) = Some c) as Hc.
  { intros c. subst k'. unfold close_done. change (sessionLocked b s k) with (sess k key0).
    destruct (hydrateDone (sess k key0)) as [c'|]; cbn; rewrite Ec; [set_solver|]. split; [by left|by intros [?|?]]. }
  assert (forall key c, hydrateDone (sess k' key) = Some c -> key0 <> key /\ hydrateDone (sess k key) = Some c) as Hcase
    by (intros key c; rewrite Hs; case_decide; [congruence|done]).
  split.
  - intros key. rewrite Hs. case_decide; [by rewrite Hx, Hd|done].
  - intros key. rewrite Hs. case_decide; [done|apply F2].
  - intros key1 key2 c [_ H1]%Hcase [_ H2]%Hcase. by eapply F3.
  - intros key c [Hne H1]%Hcase. rewrite Hn. destruct (F4 _ _ H1) as [H2 H3]. split; [done|].
    intros [?|H4]%Hc; [done|]. apply Hne. by eapply F3.
  - intros c. rewrite Hn. intros [Hin|[key Hk]]%F5; [left; apply Hc; by left|].
    destruct (decide (key0 = key)) as [Heq|Hne]; [left; apply Hc; right; by rewrite Heq|].
    right. exists key. rewrite Hs. by rewrite decide_False by done.
  - intros c. rewrite Hn. intros [?|H]%Hc; [by apply F6|]. destruct (F4 _ _ H). done.
Qed.

(** ** Every call keeps it *)

Lemma active_none b s k : flight_ok k -> is_phase ProjectionHydrateHydrating (sessionLocked b s k) = false ->
  hydrate (sessionLocked b s k) = None.
Proof.
  intros Hok Hp. destruct (hydrate (sessionLocked b s k)) eqn:E; [|done]. exfalso.
  unfold is_phase in Hp. apply bool_decide_eq_false in Hp. apply Hp.
  apply (fo_phase _ Hok (projectionSessionKey b s)). unfold sessionLocked in E. unfold sess. by rewrite E.
Qed.

Lemma same_hydrate s tx tx' : hydrate s = Some tx -> tx_number tx' = tx_number tx -> same_flight s (set_hydrate (Some tx') s).
Proof. intros H Ht. split; [done|]. split; [rewrite H; cbn; by rewrite Ht|done]. Qed.

Lemma window_ok b s op k : flight_ok k -> flight_ok (exec_window ea pb b s op k).
Proof.
  intros Hok. destruct op as [now msg|now epoch event data| | |now phase|l|v2 ops]; cbn [exec_window].
  - unfold IngestLive. destruct (active_tx _) as [tx|] eqn:E; [|by apply (quiet_kernel k)].
    apply active_phase in E as [_ E]. cbn. apply (quiet_put _ _ _ k); try done. by eapply same_hydrate.
  - unfold ApplyHydrateEvent. destruct (active_tx _) as [tx|] eqn:E; [|done].
    apply active_phase in E as [_ E]. cbn. apply (quiet_put _ _ _ k); try done. by eapply same_hydrate.
  - unfold MarkHydrateSourceIngestComplete. destruct (active_tx _) as [tx|] eqn:E; [|done].
    apply active_phase in E as [_ E]. cbn. apply (quiet_put _ _ _ k); try done. by eapply same_hydrate.
  - unfold take_token. destruct (hydrate _) as [tx|] eqn:E; [|done]. destruct (liveArrived tx); [|done].
    cbn. apply (quiet_put _ _ _ k); try done. by eapply same_hydrate.
  - unfold kernel_external. case_match; [done|]. destruct (ApplyExternalExecutionState _ _ _ _ _). by apply (quiet_kernel k).
  - unfold kernel_prepend, ready_gate. case_match; [done|]. destruct (PrependHistoricalTurns _ _ _ _). by apply (quiet_kernel k).
  - unfold kernel_commit_states, ready_gate. destruct ops; [done|]. destruct (is_phase _ _); [|done]. cbn [negb].
    destruct ((if v2 then CommitTurnStateOpsV2 else CommitTurnStateOps) _ _ _ _). by apply (quiet_kernel k).
Qed.

Lemma window_next b s op k : next_tx (exec_window ea pb b s op k) = next_tx k.
Proof.
  destruct op; cbn [exec_window];
    [unfold IngestLive|unfold ApplyHydrateEvent|unfold MarkHydrateSourceIngestComplete|unfold take_token
    |unfold kernel_external|unfold kernel_prepend, ready_gate|unfold kernel_commit_states, ready_gate];
    repeat (case_match; simplify_eq/=; try reflexivity).
Qed.

Lemma begin_ok order now b s source explicit changed isLive k res k' :
  flight_ok k -> BeginHydrateTransaction order now b s source explicit changed isLive k = Some (res, k') ->
  flight_ok k' /\
  match res with
  | inl (inl _) => k' = k
  | inl (inr adm) => k' = k /\ forall c, Done adm = Some c -> (c < next_tx k)%nat
  | inr ld => ld_tx ld = next_tx k /\ next_tx k' = S (next_tx k)
  end.
Proof.
  intros Hok H. unfold BeginHydrateTransaction in H.
  destruct (unset b || unset s || _); [by injection H as <- <-|]. destruct (_ && already_ready _ _ _); [by injection H as <- <-|].
  destruct (is_phase ProjectionHydrateHydrating (sessionLocked b s k)) eqn:Hp.
  { injection H as <- <-. split; [done|]. split; [done|]. intros c Hc.
    destruct (fo_open _ Hok (projectionSessionKey b s) c) as [? _]; [|done].
    unfold sess. unfold sessionLocked in Hc. by destruct (hydrate (default _ _)). }
  destruct (_ && retry_refused _ _ _ _); [by injection H as <- <-|].
  destruct (start_reducer _ _ _ _ _ _ _ _) as [r|]; [|done]. cbn in H. injection H as <- <-. split; [|done].
  apply opens_ok; [done|by apply active_none|done].
Qed.

Lemma fail_ok now jitter b s code message retryable k :
  flight_ok k -> flight_ok (snd (MarkFailed now jitter b s code message retryable k)).
Proof. intros Hok. unfold MarkFailed. cbn [snd]. by apply closes_ok. Qed.

Lemma load_ok order now jitter b s source loaded message ld k res k' :
  flight_ok k -> LoadHydrateCheckpoint order now jitter b s source loaded message ld k = Some (res, k') ->
  flight_ok k' /\ next_tx k' = next_tx k.
Proof.
  intros Hok. assert (forall hit cursor cursors restored,
    admit_leader order b s ld hit cursor cursors restored k = Some (res, k') -> flight_ok k' /\ next_tx k' = next_tx k) as Ha.
  { intros hit cursor cursors restored H. unfold admit_leader in H.
    destruct (active_tx _) as [tx|] eqn:E; [|by injection H as <- <-]. apply active_phase in E as [_ E].
    case_match; [by injection H as <- <-|]. destruct (match restored with Some _ => _ | None => _ end) as [r|]; [|done].
    cbn in H. injection H as <- <-. split; [|done]. apply (quiet_put _ _ _ k); try done. by eapply same_hydrate. }
  intros H. unfold LoadHydrateCheckpoint in H. case_match; [by eapply Ha|]. case_match; [by eapply Ha|].
  destruct loaded as [[]|c]; try (by eapply Ha). injection H as <- <-. split; [exact (fail_ok now jitter b s _ message true k Hok)|].
  cbn. by rewrite (proj2 (proj2 (close_done_frame _ _))).
Qed.

Lemma commit_ok order now b s k res k' :
  flight_ok k -> CommitHydrateTransaction ea pb order now b s k = Some (res, k') ->
  flight_ok k' /\ next_tx k' = next_tx k.
Proof.
  intros Hok H. unfold CommitHydrateTransaction in H. destruct (active_tx _) as [tx|]; [|by injection H as <- <-].
  destruct (Restore _ _ _ _ _) as [r|]; [|done]. cbn in H. destruct (drain_and_flush _ _ _ _ _ _ _) as [commit r'].
  injection H as <- <-. split; [by apply closes_ok|]. cbn. by rewrite (proj2 (proj2 (close_done_frame _ _))).
Qed.

Lemma call_off_ok now b s k :
  flight_ok k -> flight_ok (snd (AbortReconcileTransaction ea pb now b s k)) /\
  next_tx (snd (AbortReconcileTransaction ea pb now b s k)) = next_tx k.
Proof.
  intros Hok. unfold AbortReconcileTransaction. destruct (active_tx _) as [tx|]; [|done]. case_match; [done|].
  destruct (drain_and_flush _ _ _ _ _ _ _) as [commit r']. cbn [snd]. split; [by apply closes_ok|].
  cbn. by rewrite (proj2 (proj2 (close_done_frame _ _))).
Qed.

Lemma batch_quiet now batch k :
  let k' := snd (ApplyClaudeSourceRecordBatch ea pb sha256hex recode_json marshal_strings now batch k) in
  flight_ok k -> flight_ok k' /\ next_tx k' = next_tx k.
Proof.
  intros k' Hok. pose proof (batch_cases ea pb sha256hex recode_json marshal_strings batch now k) as H.
  subst k'. destruct (ApplyClaudeSourceRecordBatch _ _ _ _ _ _ _ _) as [[e|res] k']; cbn in H |- *.
  { rewrite H. split; [by apply (quiet_kernel k)|done]. }
  destruct H as [(_ & -> & _)|[(state & p & _ & _ & Hk & _) _]]; [done|]. rewrite Hk.
  split; [|done]. apply (quiet_kernel (put_session (bt_BackendID batch) (bt_SessionID batch)
    (set_claudeSourceState (Some (Next p)) (sessionLocked (bt_BackendID batch) (bt_SessionID batch) k)) k)); try done.
  by apply (quiet_put _ _ _ k).
Qed.

Lemma reconcile_ok order b s k adm k' :
  flight_ok k -> BeginReconcileTransaction order b s k = Some (inr adm, k') ->
  flight_ok k' /\ Done adm = Some (next_tx k) /\ next_tx k' = S (next_tx k).
Proof.
  intros Hok H. pose proof (reconcile_opened _ _ _ _ _ _ H) as (Hr & _ & Hd & _). unfold BeginReconcileTransaction in H.
  destruct (unset b || unset s); [done|]. rewrite Hr in H. cbn [negb] in H.
  destruct (CommittedSnapshot b s k) as [p|]; [|done]. destruct (Restore _ _ _ _ _) as [r|]; [|done]. cbn in H.
  injection H as <- <-. split; [|done]. apply opens_ok; [done| |done]. apply active_none; [done|].
  unfold is_phase in *. apply bool_decide_eq_true in Hr. by rewrite Hr.
Qed.

Lemma restore_ok order b s source loaded k res k' :
  flight_ok k -> hydrate (sessionLocked b s k) = None ->
  RestoreCheckpoint order b s source loaded k = Some (res, k') -> flight_ok k' /\ next_tx k' = next_tx k.
Proof.
  intros Hok Hn H. unfold RestoreCheckpoint in H. destruct (negb _); [by injection H as <- <-|].
  destruct loaded as [e|c]; [by injection H as <- <-|]. destruct (Restore _ _ _ _ _) as [r|]; [|done]. cbn in H.
  injection H as <- <-. split; [|done]. by apply (quiet_put _ _ _ k).
Qed.

Lemma step_keeps k l k' : flight_ok k -> kernel_step k l k' ->
  flight_ok k' /\ (next_tx k <= next_tx k')%nat /\
  (forall leads c, (leads, c) ∈ l -> (c < next_tx k')%nat) /\
  (forall c, (true, c) ∈ l -> (next_tx k <= c)%nat) /\ (length (filter (fun h => h.1 = true) l) <= 1)%nat.
Proof.
  intros Hok H. assert (forall k', flight_ok k' -> next_tx k' = next_tx k -> flight_ok k' /\ (next_tx k <= next_tx k')%nat /\
    (forall leads c, (leads, c) ∈ ([] : handout) -> (c < next_tx k')%nat) /\
    (forall c, (true, c) ∈ ([] : handout) -> (next_tx k <= c)%nat) /\
    (length (filter (fun h => h.1 = true) ([] : handout)) <= 1)%nat) as Hquiet.
  { intros k0 H0 Hn. split; [done|]. split; [lia|]. split; [by intros ? ? ?%elem_of_nil|]. split; [by intros ? ?%elem_of_nil|cbn; lia]. }
  destruct H as [order now b s source explicit changed isLive k adm k' H|order now b s source explicit changed isLive k ld k' H
    |order now jitter b s source loaded message ld k res k' H|b s op k|order now b s k res k' H|order b s k adm k' H|now b s k
    |now jitter b s code message retryable k|b s k|now b s explicit changed k|b s turnID generation parts k|b s k|b s k
    |now c settled k|b s waiter k|b s state k|now batch k|b s seg gen byteEnd k|b s op k
    |order b s source loaded k res k' Hn H].
  - destruct (begin_ok _ _ _ _ _ _ _ _ _ _ _ Hok H) as (_ & -> & Hc). split; [done|]. split; [lia|]. unfold to_caller.
    destruct (Done adm) as [c|]; (split; [|split; [|first [exact (length_filter _ [_])|cbn; lia]]]).
    + intros leads c' [= -> ->]%list_elem_of_singleton. by apply Hc.
    + by intros c' ?%list_elem_of_singleton.
    + by intros ? ? ?%elem_of_nil.
    + by intros ? ?%elem_of_nil.
  - destruct (begin_ok _ _ _ _ _ _ _ _ _ _ _ Hok H) as (Hok' & Hld & Hn). split; [done|]. split; [lia|].
    split; [|split; [|exact (length_filter _ [_])]]; [intros leads c [= -> ->]%list_elem_of_singleton; lia|intros c [= ->]%list_elem_of_singleton; lia].
  - destruct (load_ok _ _ _ _ _ _ _ _ _ _ _ _ Hok H). by apply Hquiet.
  - apply Hquiet; [by apply window_ok|apply window_next].
  - destruct (commit_ok _ _ _ _ _ _ _ Hok H). by apply Hquiet.
  - destruct (reconcile_ok _ _ _ _ _ _ Hok H) as (Hok' & -> & Hn). split; [done|]. split; [lia|].
    split; [|split; [|exact (length_filter _ [_])]]; [intros leads c [= -> ->]%list_elem_of_singleton; lia|intros c [= ->]%list_elem_of_singleton; lia].
  - destruct (call_off_ok now b s k Hok). by apply Hquiet.
  - apply Hquiet; [by apply fail_ok|]. cbn. by rewrite (proj2 (proj2 (close_done_frame _ _))).
  - apply Hquiet; [by apply closes_ok|]. cbn. by rewrite (proj2 (proj2 (close_done_frame _ _))).
  - unfold BeginHydrate. destruct (_ || _) eqn:Hp; [by apply Hquiet|]. destruct (_ && _); [by apply Hquiet|].
    apply Hquiet; [|done]. apply (quiet_put _ _ _ k); try done. split; [done|]. split; [done|]. intros Hh.
    apply orb_false_iff in Hp as [Hp _]. destruct Hh. by apply (active_none b s k Hok) in Hp.
  - unfold kernel_merge_detail, ready_gate. destruct (is_phase _ _); [|by apply Hquiet]. cbn [negb].
    destruct (MergeHistoricalTurnDetail _ _ _ _ _ _). apply Hquiet; [by apply (quiet_kernel k)|done].
  - unfold FlushProjectionPatch. destruct (FlushPatch _ _ _). apply Hquiet; [by apply (quiet_kernel k)|done].
  - unfold IssueSessionSeq. case_match; apply Hquiet; try done. by apply (quiet_kernel k).
  - unfold kernel_stage. destruct (StageCheckpoint _ _ _ _ _ _). apply Hquiet; [by apply (quiet_put _ _ _ k)|done].
  - unfold kernel_flush. destruct (FlushCheckpoint _ _ _ _). apply Hquiet; [by apply (quiet_put _ _ _ k)|done].
  - unfold InstallClaudeSourceState. repeat case_match; apply Hquiet; try done. by apply (quiet_put _ _ _ k).
  - destruct (batch_quiet now batch k Hok). by apply Hquiet.
  - unfold AcknowledgeClaudeSourceRange. repeat case_match; apply Hquiet; try done. by apply (quiet_put _ _ _ k).
  - apply Hquiet; [by apply (quiet_put _ _ _ k)|]. reflexivity.
  - destruct (restore_ok _ _ _ _ _ _ _ _ Hok Hn H). by apply Hquiet.
Qed.

(** C13. One hydrate at a time, and nobody waits for nothing. Whatever calls of whatever
    sessions are interleaved from a new kernel: every channel has at most one
    leader; every channel handed out to a caller is closed or is the channel of
    the one session whose transaction is open under that number, which is then
    hydrating; a session that is not hydrating has no transaction and no channel;
    and the leader of a transaction that has ended is told that it was superseded. The
    calls are all that change the kernel, [RestoreCheckpoint] only while its session has
    no hydrate under way (nothing but tests calls it at this commit). *)
Theorem single_flight r has_store l k :
  kernel_run (NewProjectionKernel r has_store) l k ->
  NoDup (map snd (filter (fun h => h.1 = true) l)) /\
  (forall leads c, (leads, c) ∈ l -> c ∈ closed_done k \/
     exists key tx, hydrate (sess k key) = Some tx /\ tx_number tx = c /\ hydrateDone (sess k key) = Some c /\
       Phase (status (sess k key)) = ProjectionHydrateHydrating /\
       forall key', hydrateDone (sess k key') = Some c -> key' = key) /\
  (forall key, Phase (status (sess k key)) <> ProjectionHydrateHydrating ->
     hydrate (sess k key) = None /\ hydrateDone (sess k key) = None) /\
  (forall order b s ld hit cursor cursors restored, ld_tx ld ∈ closed_done k ->
     admit_leader order b s ld hit cursor cursors restored k = Some (inl KSuperseded, k)).
Proof.
  intros Hrun.
  assert (flight_ok k /\ (forall leads c, (leads, c) ∈ l -> (c < next_tx k)%nat) /\ NoDup (map snd (filter (fun h => h.1 = true) l)))
    as (Hok & Hl & Hnd).
  { remember (NewProjectionKernel r has_store) as k0 eqn:E. induction Hrun as [k|k l k' l' k'' _ IH Hstep].
    { subst k. split; [apply flight_new_ok|]. split; [by intros ? ? ?%elem_of_nil|constructor]. }
    destruct (IH E) as (Hok & Hl & Hnd). destruct (step_keeps _ _ _ Hok Hstep) as (Hok' & Hn & H1 & H2 & H3).
    split; [done|]. split; [intros leads c [?%Hl|?]%elem_of_app; [lia|by eapply H1]|].
    rewrite filter_app, map_app. apply NoDup_app. split; [done|]. split.
    - intros c Hc Hc'. change (map snd) with (fmap (M:=list) (@snd bool nat)) in *.
      apply list_elem_of_fmap in Hc as ([b1 c1] & -> & [Hb1 Hc1]%list_elem_of_filter).
      apply list_elem_of_fmap in Hc' as ([b2 c2] & Heq & [Hb2 Hc2]%list_elem_of_filter). cbn in *. subst.
      apply Hl in Hc1. apply H2 in Hc2. lia.
    - destruct (filter _ l') as [|x [|? ?]]; cbn in *; [constructor|by apply NoDup_singleton|lia]. }
  split; [done|]. split; [|split].
  - intros leads c Hc%Hl. destruct (fo_ended _ Hok c Hc) as [|[key Hk]]; [by left|]. right.
    pose proof (fo_number _ Hok key) as Hnum. rewrite Hk in Hnum. destruct (hydrate (sess k key)) as [tx|] eqn:Htx; [|done].
    exists key, tx. split; [done|]. split; [by injection Hnum|]. split; [done|].
    split; [apply (fo_phase _ Hok); by rewrite Htx|]. intros key' Hk'. by eapply (fo_one _ Hok).
  - intros key Hp. rewrite (fo_number _ Hok). destruct (hydrate (sess k key)) eqn:E; [|done].
    destruct Hp. apply (fo_phase _ Hok). by rewrite E.
  - intros order b s ld hit cursor cursors restored Hc. unfold admit_leader.
    destruct (active_tx (sessionLocked b s k)) as [tx|] eqn:E; [|done]. apply active_phase in E as [_ E].
    rewrite bool_decide_eq_false_2; [done|]. intros Hn.
    pose proof (fo_number _ Hok (projectionSessionKey b s)) as Hd. unfold sess, sessionLocked in *. rewrite E in Hd.
    apply (fo_open _ Hok) in Hd as [_ Hd]. by rewrite Hn in Hd.
Qed.

End Flight.

Lemma single_flight_witness :
  exists l k, kernel_run no_attachments no_parts sample_sha sample_recode sample_marshal (NewProjectionKernel ∅ false) l k /\
    l = [(true, 0%nat); (false, 0%nat)] /\ NoDup (map snd (filter (fun h => h.1 = true) l)) /\ 0%nat ∈ closed_done k.
Proof.
  assert (exists ld k1, BeginHydrateTransaction [] 0 "codex" "s" sample_source false false false (NewProjectionKernel ∅ false)
    = Some (inr ld, k1) /\ ld_tx ld = 0%nat /\ exists adm, Done adm = Some 0%nat /\
    BeginHydrateTransaction [] 1 "codex" "s" sample_source false false false k1 = Some (inl (inr adm), k1) /\
    closed_done (snd (MarkFailed 2 None "codex" "s" "" "" true k1)) = {[0%nat]}) as (ld & k1 & H1 & Hl & adm & Hd & H2 & H3).
  { do 2 eexists. split; [vm_compute; reflexivity|]. split; [reflexivity|]. eexists.
    split; [|split; [vm_compute; reflexivity|vm_compute; reflexivity]]. reflexivity. }
  set (k := snd (MarkFailed 2 None "codex" "s" "" "" true k1)) in *.
  assert (kernel_run no_attachments no_parts sample_sha sample_recode sample_marshal (NewProjectionKernel ∅ false)
    [(true, 0%nat); (false, 0%nat)] k) as Hrun.
  { eapply (run_snoc _ _ _ _ _ _ [(true, 0%nat); (false, 0%nat)] k1 []); [|apply step_fail].
    eapply (run_snoc _ _ _ _ _ _ [(true, 0%nat)] k1 [(false, 0%nat)]).
    - eapply (run_snoc _ _ _ _ _ _ [] _ [(true, 0%nat)]); [constructor|]. rewrite <- Hl. eapply step_lead. exact H1.
    - replace [(false, 0%nat)] with (to_caller adm) by (unfold to_caller; rewrite Hd; reflexivity).
      eapply step_follow. exact H2. }
  pose proof (single_flight no_attachments no_parts sample_sha sample_recode sample_marshal ∅ false _ _ Hrun) as (Hn & _).
  exists [(true, 0%nat); (false, 0%nat)], k. split; [exact Hrun|]. split; [reflexivity|]. split; [exact Hn|].
  rewrite H3. apply elem_of_singleton. reflexivity.
Defined.

(** A checkpoint restored while a hydrate of its session is under way strands the
    callers of the hydrate: the session is READY at once, the next reconcile takes the
    place of the transaction, and when it is called off nothing is open, but the channel
    that was handed to the leader and to those who follow it is not closed, and the
    leader's commit is refused. *)
Theorem restore_strands_waiters : exists ld k1 adm k2 res k3 adm' k4 k5,
  BeginHydrateTransaction [] 0 "codex" "s" sample_source false false false (NewProjectionKernel ∅ true)
    = Some (inr ld, k1) /\
  BeginHydrateTransaction [] 0 "codex" "s" sample_source false false false k1 = Some (inl (inr adm), k2) /\
  Done adm = Some (ld_tx ld) /\
  RestoreCheckpoint [] "codex" "s" sample_source (inr sample_checkpoint) k2 = Some (inr res, k3) /\
  BeginReconcileTransaction [] "codex" "s" k3 = Some (inr adm', k4) /\
  k5 = snd (AbortReconcileTransaction no_attachments no_parts (fun _ => 1) "codex" "s" k4) /\
  Phase (status (sessionLocked "codex" "s" k5)) = ProjectionHydrateReady /\
  hydrate (sessionLocked "codex" "s" k5) = None /\ hydrateDone (sessionLocked "codex" "s" k5) = None /\
  (ld_tx ld ∉ closed_done k5) /\
  CommitHydrateTransaction no_attachments no_parts [] (fun _ => 1) "codex" "s" k5 = Some (inl KNotActive, k5).
Proof.
  do 9 eexists.
  split; [vm_compute; reflexivity|]. split; [vm_compute; reflexivity|]. split; [vm_compute; reflexivity|].
  split; [vm_compute; reflexivity|]. split; [vm_compute; reflexivity|]. split; [vm_compute; reflexivity|].
  split; [vm_compute; reflexivity|]. split; [vm_compute; reflexivity|]. split; [vm_compute; reflexivity|].
  split; [|vm_compute; reflexivity]. apply (bool_decide_unpack _). vm_compute. exact I.
Qed.
