(* ===== verification/KernelDefects.v ===== *)
(** * Where the kernel falls short (executions of [Kernel])

    Four closed executions: a reconcile whose result reaches nobody, a row of a
    transcript that is consumed and lost, a live event refused for a number it was
    given in good order, and a commit that takes the revision back. *)

From S2P Require Import Prelude.
From S2P Require Import Wire.
From S2P Require Import Projection.
From S2P Require Import ProjectionFields.
From S2P Require Import ReducerParts.
From S2P Require Import Reducer.
From S2P Require Import ReducerPatch.
From S2P Require Import ReducerInvariant.
From S2P Require Import SourceLedger.
From S2P Require Import Checkpoint.
From S2P Require Import CheckpointWriter.
From S2P Require Import Kernel.
From S2P Require Import KernelProps.

(** What a reader of the committed state sees: revision, last revision sent, turns. *)
Definition seen (b s : string) (k : ProjectionKernel) : option (Z * Z * list (string * string)) :=
  (fun ps => (sp_SyncRev (projection ps), lastFlushedRev ps,
              map (fun t => (tp_TurnID t, tp_Status t)) (sp_Turns (projection ps))))
  <$> k_reducer k !! projectionSessionKey b s.

Definition run_sample_window := run_window no_attachments no_parts "codex" "s".

(** What a commit or the calling off of a transaction answers. *)
Definition committed (o : option ((KernelError + ProjectionHydrateCommit) * ProjectionKernel))
  : option (ProjectionHydrateCommit * ProjectionKernel) :=
  match o with Some (inr c, k) => Some (c, k) | _ => None end.

Definition after_reconcile (k : ProjectionKernel) (ops : list window_op) : option (ProjectionHydrateCommit * ProjectionKernel) :=
  match BeginReconcileTransaction [] "codex" "s" k with
  | Some (inr _, k) =>
      committed (CommitHydrateTransaction no_attachments no_parts [] (fun _ => 40) "codex" "s" (run_sample_window ops k))
  | _ => None
  end.

(** ** A reconcile publishes nothing *)

(** A reconcile that closes a turn publishes nothing: the closure moves the revision
    of its own reducer, the commit restores that as already sent, and with no live
    event waiting there is no patch, so the clients keep showing the turn as
    running while the committed state has it completed. *)
Theorem reconcile_publishes_nothing :
  let closure := [WCold 30 "ep" "turn_completed" [("turnId", VString "t3")]] in
  seen "codex" "s" sample_ready = Some (6, 6, [("t1", "completed"); ("t2", "completed"); ("t3", "running")]) /\
  (fun c => (hc_PendingPatch c.1, seen "codex" "s" c.2)) <$> after_reconcile sample_ready closure =
    Some (None, Some (7, 7, [("t1", "completed"); ("t2", "completed"); ("t3", "completed")])).
Proof. vm_compute. repeat split. Qed.

(** ** A row consumed and lost *)

Definition lost_batch : ClaudeSourceRecordBatch :=
  mkBatch "codex" "s" "ep" (sample_row "row1" 0 10 ["a"])
    [mkHydrateEvent "user_message" [("turnId", VString "t9"); ("itemId", VString "u9"); ("text", VString "mine")] false (Some 0)]
    claudeRowContentProjectable.

Definition apply_sample_batch := ApplyClaudeSourceRecordBatch no_attachments no_parts sample_sha sample_recode sample_marshal.

(** The sample session with an empty ledger; eight numbers have been issued. *)
Definition with_ledger (k : ProjectionKernel) : ProjectionKernel :=
  match newInitialClaudeSourceState sample_sha "seg" "gen" 0 with
  | inr state =>
      set_seqIssuer {[projectionSessionKey "codex" "s" := 8]} (snd (InstallClaudeSourceState "codex" "s" state k))
  | inl _ => k
  end.

Definition consumed (k : ProjectionKernel) : option (list Z) :=
  (fun st => map cc_RawByteEnd (cs_CursorVector st)) <$> ClaudeSourceStateSnapshot "codex" "s" k.

Definition turn_ids (k : ProjectionKernel) : option (list string) :=
  (fun p => map tp_TurnID (sp_Turns p)) <$> CommittedSnapshot "codex" "s" k.

(** The session reads its source again, from memory up to byte 20. *)
Definition grown_source : ProjectionSourceDescriptor := mkSource "ino1" "/rollout.jsonl" 20 [].

Definition start_grown (k : ProjectionKernel) : ProjectionKernel :=
  match BeginHydrateTransaction [] 50 "codex" "s" grown_source false true false k with
  | Some (inr ld, k) =>
      match LoadHydrateCheckpoint [] 50 None "codex" "s" grown_source (inl ENotExist) "" ld k with
      | Some (_, k) => k | None => k
      end
  | _ => k
  end.

Definition batch_status (res : BatchError + ClaudeSourceBatchResult) : option ClaudeSourceBatchStatus :=
  match res with inr r => Some (br_Status r) | inl _ => None end.

(** A row applied while a hydrate is open is lost: the batch does not look at the
    phase of the session (its caller did, before it took the lock), so it swaps the
    committed session and moves the ledger; the commit then overwrites the session
    with the baseline of the transaction. The ledger says that the row is consumed,
    the same row is answered as already applied, and its turn is nowhere. *)
Theorem batch_lost_in_hydrate :
  let hydrating := start_grown (with_ledger sample_ready) in
  let '(res, k1) := apply_sample_batch (fun _ => 51) lost_batch hydrating in
  Phase (Status "codex" "s" hydrating) = ProjectionHydrateHydrating /\
  batch_status res = Some ClaudeSourceBatchAcceptedProjection /\ turn_ids k1 = Some ["t1"; "t2"; "t3"; "t9"] /\
  match committed (CommitHydrateTransaction no_attachments no_parts [] (fun _ => 52) "codex" "s" k1) with
  | Some (_, k2) =>
      turn_ids k2 = Some ["t1"; "t2"; "t3"] /\ consumed k2 = Some [10] /\
      batch_status (fst (apply_sample_batch (fun _ => 53) lost_batch k2)) = Some ClaudeSourceBatchAlreadyApplied
  | None => False
  end.
Proof. vm_compute. repeat split. Qed.

(** ** A number given too early *)

(** A live event can be refused for its number although numbers are issued in order
    from one place: the publisher takes the number of an event before it hands the
    event to the kernel, a batch that gets the lock in between takes the next one
    and is folded first, and the event then arrives with a number the reducer has
    passed. Its text is in no projection and no patch. *)
Theorem stamped_event_refused :
  let '(number, k1) := IssueSessionSeq "codex" "s" (with_ledger sample_ready) in
  let msg := live_event "e" number "text_delta" [("turnId", VString "t3"); ("itemId", VString "a3"); ("delta", VString "lost")] in
  let '(res, k2) := apply_sample_batch (fun _ => 60) lost_batch k1 in
  number = 9 /\ batch_status res = Some ClaudeSourceBatchAcceptedProjection /\
  fst (IngestLive no_attachments no_parts 61 msg k1) = (ProjectionIngestApplied, None) /\
  fst (IngestLive no_attachments no_parts 61 msg k2) = (ProjectionIngestNoChange, None).
Proof. vm_compute. repeat split. Qed.

(** ** A commit that takes the revision back *)

Definition pathless (cursor : Z) : ProjectionSourceDescriptor := mkSource "id1" "" cursor [].

(** A hydrate of session "s" of backend "opencode-web" from its two history rows. *)
Definition rebuild (changed : bool) (k : ProjectionKernel) : ProjectionKernel :=
  match BeginHydrateTransaction [] 0 "opencode-web" "s" (pathless 1) false changed false k with
  | Some (inr ld, k) =>
      match LoadHydrateCheckpoint [] 0 None "opencode-web" "s" (pathless 1) (inl ENotExist) "" ld k with
      | Some (_, k) =>
          match CommitHydrateTransaction no_attachments no_parts [] (fun _ => 9) "opencode-web" "s"
                  (run_window no_attachments no_parts "opencode-web" "s"
                     [WCold 1 "ep" "user_message" [("turnId", VString "t1"); ("itemId", VString "u1"); ("text", VString "one")];
                      WCold 2 "ep" "turn_completed" [("turnId", VString "t1")]; WComplete] k) with
          | Some (_, k) => k | None => k
          end
      | None => k
      end
  | _ => k
  end.

Definition web_event (seq : Z) (event : string) (data : list (string * value)) : EventMessage :=
  mkEventMessage "event" "" seq seq "" "s" "opencode-web" event (VMap data) "" true 0.

Definition web_live (k : ProjectionKernel) : ProjectionKernel :=
  fold_left (fun k msg => snd (IngestLive no_attachments no_parts 20 msg k))
    [web_event 3 "user_message" [("turnId", VString "t2"); ("itemId", VString "u2"); ("text", VString "two")];
     web_event 4 "text_delta" [("turnId", VString "t2"); ("itemId", VString "a2"); ("delta", VString "he")];
     web_event 5 "text_delta" [("turnId", VString "t2"); ("itemId", VString "a2"); ("delta", VString "llo")]] k.

(** A full rebuild takes the revision back: it folds the history on an empty reducer,
    whose revisions start at zero, and outside the one backend whose baseline is
    united with the live turns the commit restores that number. Clients that hold a
    later revision are then sent an earlier one. *)
Theorem rebuild_takes_revision_back :
  let ready := web_live (rebuild false (NewProjectionKernel ∅ false)) in
  let again := rebuild true ready in
  seen "opencode-web" "s" ready = Some (5, 2, [("t1", "completed"); ("t2", "running")]) /\
  Phase (Status "opencode-web" "s" again) = ProjectionHydrateReady /\
  (fun x => x.1.1) <$> seen "opencode-web" "s" again = Some 2.
Proof. vm_compute. repeat split. Qed.
