(* ===== verification/Broadcaster.v ===== *)
(** * The subscription table (go-bridge/types.go, [Broadcaster])

    Which connection listens to which session: the two maps kept under one lock,
    subscribers by key and keys by connection, with the set of every connection.
    A connection is a number; whether it is closed and which device it was
    authenticated for are the two functions the code asks of it. A [nil]
    connection, which the operations ignore, is not a connection of the model. *)

From S2P Require Import Prelude.
From S2P Require Import Wire.

Definition Connection : Type := nat.

Record Broadcaster : Type := mkBroadcaster {
  allConns : gset Connection;
  subscribers : gmap SubscriptionKey (gset Connection);
  connSubs : gmap Connection (gset SubscriptionKey)
}.

Definition NewBroadcaster : Broadcaster := mkBroadcaster ∅ ∅ ∅.

(** Reading a map of sets: a missing key reads the empty set. *)
Definition set_at `{Countable K, Countable V} (m : gmap K (gset V)) (k : K) : gset V :=
  default ∅ (m !! k).

(** [m[k][v] = struct{}{}], the inner map made when it is missing. *)
Definition add_at `{Countable K, Countable V} (k : K) (v : V) (m : gmap K (gset V))
  : gmap K (gset V) := <[k := {[v]} ∪ set_at m k]> m.

(** [delete(m[k], v)], the entry kept. *)
Definition remove_at `{Countable K, Countable V} (k : K) (v : V) (m : gmap K (gset V))
  : gmap K (gset V) :=
  match m !! k with
  | Some s => <[k := s ∖ {[v]}]> m
  | None => m
  end.

(** [delete(b.subscribers[key], conn)], and the key with its last subscriber. *)
Definition drop_subscriber (conn : Connection) (key : SubscriptionKey)
  (m : gmap SubscriptionKey (gset Connection)) : gmap SubscriptionKey (gset Connection) :=
  let m := remove_at key conn m in
  if decide (set_at m key = ∅) then delete key m else m.

Definition RegisterConn (conn : Connection) (b : Broadcaster) : Broadcaster :=
  mkBroadcaster ({[conn]} ∪ allConns b) (subscribers b) (connSubs b).

Definition Subscribe (conn : Connection) (key : SubscriptionKey) (b : Broadcaster)
  : Broadcaster :=
  mkBroadcaster ({[conn]} ∪ allConns b) (add_at key conn (subscribers b))
    (add_at conn key (connSubs b)).

Definition UnsubscribeAll (conn : Connection) (b : Broadcaster) : Broadcaster :=
  mkBroadcaster (allConns b ∖ {[conn]})
    (fold_left (fun m key => drop_subscriber conn key m) (elements (set_at (connSubs b) conn))
       (subscribers b))
    (delete conn (connSubs b)).

(** The observation keys of a backend whose session the client no longer keeps open. *)
Definition stale_key (backendID : string) (keep : gset string) (key : SubscriptionKey) : Prop :=
  sk_BackendID key = backendID /\ sk_Directory key = "" /\ sk_SessionID key ∉ keep.

#[export] Instance stale_key_dec backendID keep key : Decision (stale_key backendID keep key).
Proof. unfold stale_key. apply _. Defined.

Definition ReconcileObservationSubscriptions (conn : Connection) (backendID : string)
  (keep : gset string) (b : Broadcaster) : Broadcaster :=
  fold_left
    (fun b key =>
       if decide (stale_key backendID keep key)
       then mkBroadcaster (allConns b) (drop_subscriber conn key (subscribers b))
              (remove_at conn key (connSubs b))
       else b)
    (elements (set_at (connSubs b) conn)) b.

Definition TransferSubscriptions (old new : Connection) (b : Broadcaster) : Broadcaster :=
  if decide (old = new) then b
  else
    let keys := set_at (connSubs b) old in
    let all := {[new]} ∪ (allConns b ∖ {[old]}) in
    if decide (keys = ∅) then mkBroadcaster all (subscribers b) (connSubs b)
    else
      let b :=
        fold_left
          (fun b key =>
             mkBroadcaster (allConns b) (add_at key new (remove_at key old (subscribers b)))
               (add_at new key (connSubs b)))
          (elements keys) b in
      mkBroadcaster all (subscribers b) (delete old (connSubs b)).

(** One move of [Rebind]: the subscribers of the old key join the new one. *)
Definition rebind_move (newID : string)
  (b : Broadcaster) (m : SubscriptionKey * gset Connection) : Broadcaster :=
  let '(oldKey, conns) := m in
  let newKey := mkSubscriptionKey (sk_BackendID oldKey) newID (sk_Directory oldKey) in
  let b :=
    fold_left
      (fun b conn =>
         mkBroadcaster (allConns b) (add_at newKey conn (subscribers b))
           (remove_at conn oldKey (add_at conn newKey (connSubs b))))
      (elements conns) b in
  mkBroadcaster (allConns b) (delete oldKey (subscribers b)) (connSubs b).

Definition rebind_moves (oldID backendID : string) (b : Broadcaster)
  : list (SubscriptionKey * gset Connection) :=
  filter (fun m : SubscriptionKey * gset Connection =>
            sk_BackendID m.1 = backendID /\ sk_SessionID m.1 = oldID /\ m.2 <> ∅)
    (map_to_list (subscribers b)).

Definition Rebind (oldID newID backendID : string) (b : Broadcaster) : Broadcaster :=
  fold_left (rebind_move newID) (rebind_moves oldID backendID b) b.

(** The union of the subscribers of the keys that satisfy [P]. *)
Definition subscribers_of (P : SubscriptionKey -> Prop) `{!forall k, Decision (P k)}
  (b : Broadcaster) : gset Connection :=
  map_fold (fun k s acc => if decide (P k) then s ∪ acc else acc) ∅ (subscribers b).

Definition of_session (backendID sessionID : string) (k : SubscriptionKey) : Prop :=
  sk_BackendID k = backendID /\ sk_SessionID k = sessionID.

#[export] Instance of_session_dec backendID sessionID k :
  Decision (of_session backendID sessionID k).
Proof. unfold of_session. apply _. Defined.

Section conns.
Context (isClosed : Connection -> bool) (AuthedDevice : Connection -> option string).

Definition live (conns : gset Connection) : gset Connection :=
  filter (fun c => isClosed c = false) conns.

Definition HasConnections (b : Broadcaster) : bool :=
  existsb (fun c => negb (isClosed c)) (elements (allConns b)).

Definition devices_of (conns : gset Connection) : gset string :=
  list_to_set (omap AuthedDevice (elements (live conns))).

Definition ActiveDeviceIDs (b : Broadcaster) : gset string := devices_of (allConns b).

Definition SubscriberDeviceIDs (backendID sessionID : string) (b : Broadcaster) : gset string :=
  devices_of (subscribers_of (of_session backendID sessionID) b).

Definition HasSessionSubscriber (backendID sessionID : string) (b : Broadcaster) : bool :=
  existsb (fun c => negb (isClosed c))
    (elements (subscribers_of (of_session backendID sessionID) b)).

Definition SubscribedSessionIDs (backendID : string) (b : Broadcaster) : gset string :=
  list_to_set
    (omap (fun m : SubscriptionKey * gset Connection =>
             if bool_decide (sk_BackendID m.1 = backendID)
                && existsb (fun c => negb (isClosed c)) (elements m.2)
             then Some (sk_SessionID m.1) else None)
       (map_to_list (subscribers b))).

(** The two fallbacks: any subscriber of the backend, then every connection. *)
Definition or_else (s t : gset Connection) : gset Connection := if decide (s = ∅) then t else s.

Definition Targets (backendID sessionID directory : string) (b : Broadcaster)
  : list Connection :=
  let exact := set_at (subscribers b) (mkSubscriptionKey backendID sessionID directory) in
  let targets :=
    if decide (directory = "")
    then exact ∪ subscribers_of
           (fun k => of_session backendID sessionID k /\ sk_Directory k <> "") b
    else exact ∪ set_at (subscribers b) (session_key backendID sessionID) in
  let targets := or_else targets (subscribers_of (fun k => sk_BackendID k = backendID) b) in
  let targets := or_else targets (allConns b) in
  elements (live targets).

(** [Send]: the messages it writes, connection by connection. *)
Definition Send {M : Type} (backendID sessionID directory : string) (message : M)
  (b : Broadcaster) : list (Connection * M) :=
  map (fun conn => (conn, message)) (Targets backendID sessionID directory b).
End conns.

(** ** Executions *)

Inductive broadcast_op : Type :=
| OpRegister (conn : Connection)
| OpSubscribe (conn : Connection) (key : SubscriptionKey)
| OpUnsubscribeAll (conn : Connection)
| OpReconcile (conn : Connection) (backendID : string) (keep : gset string)
| OpTransfer (old new : Connection)
| OpRebind (oldID newID backendID : string).

Definition broadcast_exec (b : Broadcaster) (o : broadcast_op) : Broadcaster :=
  match o with
  | OpRegister c => RegisterConn c b
  | OpSubscribe c k => Subscribe c k b
  | OpUnsubscribeAll c => UnsubscribeAll c b
  | OpReconcile c bk keep => ReconcileObservationSubscriptions c bk keep b
  | OpTransfer o n => TransferSubscriptions o n b
  | OpRebind o n bk => Rebind o n bk b
  end.

(** Rebinding a session to itself is not an operation of the program: its caller
    returns before when the two names agree. *)
Definition op_allowed (o : broadcast_op) : Prop :=
  match o with OpRebind o n _ => o <> n | _ => True end.

Definition subscribed (b : Broadcaster) (c : Connection) (k : SubscriptionKey) : Prop :=
  c ∈ set_at (subscribers b) k.

#[export] Instance subscribed_dec b c k : Decision (subscribed b c k).
Proof. unfold subscribed. apply _. Defined.

(** The two maps are each other's inverse, no key is kept without subscribers. *)
Record broadcast_wf (b : Broadcaster) : Prop := {
  bw_inverse : forall c k, subscribed b c k <-> k ∈ set_at (connSubs b) c;
  bw_nonempty : forall k s, subscribers b !! k = Some s -> s <> ∅;
  bw_known : forall c k, subscribed b c k -> c ∈ allConns b
}.

(** ** Reading the maps of sets *)

Section set_at.
Context `{Countable K, Countable V}.
Implicit Types m : gmap K (gset V).

Lemma elem_add_at k v m k' v' :
  v' ∈ set_at (add_at k v m) k' <-> (k' = k /\ v' = v) \/ v' ∈ set_at m k'.
Proof.
  unfold add_at, set_at at 1. destruct (decide (k' = k)) as [->|Hne].
  - rewrite lookup_insert_eq. cbn. set_solver.
  - rewrite lookup_insert_ne by done. fold (set_at m k'). naive_solver.
Qed.

Lemma elem_remove_at k v m k' v' :
  v' ∈ set_at (remove_at k v m) k' <-> v' ∈ set_at m k' /\ ~ (k' = k /\ v' = v).
Proof.
  unfold remove_at, set_at. destruct (m !! k) as [s|] eqn:Hk.
  - destruct (decide (k' = k)) as [->|Hne].
    + rewrite lookup_insert_eq, Hk. cbn. set_solver.
    + rewrite lookup_insert_ne by done. naive_solver.
  - destruct (decide (k' = k)) as [->|Hne]; [rewrite Hk; cbn; set_solver|naive_solver].
Qed.

Lemma elem_delete_at k m k' v' :
  v' ∈ set_at (delete k m) k' <-> v' ∈ set_at m k' /\ k' <> k.
Proof.
  unfold set_at. destruct (decide (k' = k)) as [->|Hne].
  - rewrite lookup_delete_eq. cbn. set_solver.
  - rewrite lookup_delete_ne by done. naive_solver.
Qed.

Lemma set_at_empty k : set_at (∅ : gmap K (gset V)) k = ∅.
Proof. unfold set_at. by rewrite lookup_empty. Qed.
End set_at.

#[export] Hint Rewrite @elem_add_at @elem_remove_at @elem_delete_at : bridge.

Lemma elem_drop_subscriber conn key m k c :
  c ∈ set_at (drop_subscriber conn key m) k <-> c ∈ set_at m k /\ ~ (k = key /\ c = conn).
Proof.
  unfold drop_subscriber. case_decide as He; [|apply elem_remove_at].
  rewrite elem_delete_at, elem_remove_at. split; [naive_solver|].
  intros [Hc Hne]. split; [done|]. intros ->.
  assert (c ∈ set_at (remove_at key conn m) key) as Hin by (apply elem_remove_at; naive_solver).
  rewrite He in Hin. set_solver.
Qed.

#[export] Hint Rewrite elem_drop_subscriber : bridge.

(** Keys without subscribers are not kept. *)
Definition no_empty (m : gmap SubscriptionKey (gset Connection)) : Prop :=
  forall k s, m !! k = Some s -> s <> ∅.

Lemma no_empty_add k v m : no_empty m -> no_empty (add_at k v m).
Proof.
  intros Hm k' s. unfold add_at. destruct (decide (k' = k)) as [->|Hne].
  - rewrite lookup_insert_eq. intros [= <-]. set_solver.
  - rewrite lookup_insert_ne by done. apply Hm.
Qed.

Lemma no_empty_delete k m : no_empty m -> no_empty (delete k m).
Proof. intros Hm k' s [_ Hs]%lookup_delete_Some. by apply (Hm k'). Qed.

Lemma no_empty_drop c k m : no_empty m -> no_empty (drop_subscriber c k m).
Proof.
  intros Hm k' s. unfold drop_subscriber. case_decide as He; intros Hs.
  - apply lookup_delete_Some in Hs as [Hne Hs]. unfold remove_at in Hs.
    destruct (m !! k) as [s0|] eqn:Hk; [rewrite lookup_insert_ne in Hs by done|]; by apply (Hm k').
  - unfold remove_at in Hs, He. destruct (m !! k) as [s0|] eqn:Hk; [|by apply (Hm k')].
    destruct (decide (k' = k)) as [->|Hne].
    + intros ->. apply He. unfold set_at. by rewrite Hs.
    + rewrite lookup_insert_ne in Hs by done. by apply (Hm k').
Qed.

#[export] Hint Resolve no_empty_add no_empty_delete no_empty_drop : bridge.

(** ** The loops of the operations *)

Lemma drop_all_elem conn keys m k c :
  c ∈ set_at (fold_left (fun m key => drop_subscriber conn key m) keys m) k <->
  c ∈ set_at m k /\ ~ (k ∈ keys /\ c = conn).
Proof.
  revert m. induction keys as [|key keys IH]; intros m; cbn.
  - split; [|naive_solver]. intros Hc. split; [done|]. intros [Hk _]. by apply not_elem_of_nil in Hk.
  - rewrite IH, elem_drop_subscriber. set_solver.
Qed.

Lemma drop_all_no_empty conn keys m :
  no_empty m -> no_empty (fold_left (fun m key => drop_subscriber conn key m) keys m).
Proof. revert m. induction keys; cbn; eauto with bridge. Qed.

Lemma reconcile_elem conn backendID keep keys b :
  let b' := fold_left
    (fun b key =>
       if decide (stale_key backendID keep key)
       then mkBroadcaster (allConns b) (drop_subscriber conn key (subscribers b))
              (remove_at conn key (connSubs b))
       else b) keys b in
  (forall c k, subscribed b' c k <->
     subscribed b c k /\ ~ (c = conn /\ k ∈ keys /\ stale_key backendID keep k)) /\
  (forall c k, k ∈ set_at (connSubs b') c <->
     k ∈ set_at (connSubs b) c /\ ~ (c = conn /\ k ∈ keys /\ stale_key backendID keep k)) /\
  allConns b' = allConns b /\ (no_empty (subscribers b) -> no_empty (subscribers b')).
Proof.
  revert b. induction keys as [|key keys IH]; intros b; cbn.
  - repeat split; intros; set_solver.
  - destruct (decide (stale_key backendID keep key)) as [Hk|Hk].
    + destruct (IH (mkBroadcaster (allConns b) (drop_subscriber conn key (subscribers b))
        (remove_at conn key (connSubs b)))) as (IH1 & IH2 & IH3 & IH4).
      split_and!.
      * intros c k. rewrite IH1. unfold subscribed. cbn. rewrite elem_drop_subscriber.
        set_solver.
      * intros c k. rewrite IH2. cbn. rewrite elem_remove_at. set_solver.
      * done.
      * intros Hm. apply IH4. cbn. by apply no_empty_drop.
    + destruct (IH b) as (IH1 & IH2 & IH3 & IH4). split_and!; [| |done|done].
      * intros c k. rewrite IH1. set_solver.
      * intros c k. rewrite IH2. set_solver.
Qed.

Lemma no_empty_move k v w m : no_empty m -> no_empty (add_at k v (remove_at k w m)).
Proof.
  intros Hm k' s. unfold add_at, remove_at. destruct (decide (k' = k)) as [->|Hne].
  - rewrite lookup_insert_eq. intros [= <-]. set_solver.
  - rewrite lookup_insert_ne by done. destruct (m !! k); [rewrite lookup_insert_ne by done|];
      apply Hm.
Qed.

Lemma transfer_elem old new keys b :
  old <> new ->
  let b' := fold_left
    (fun b key => mkBroadcaster (allConns b) (add_at key new (remove_at key old (subscribers b)))
                    (add_at new key (connSubs b))) keys b in
  (forall c k, subscribed b' c k <->
     (c = new /\ k ∈ keys) \/ (subscribed b c k /\ ~ (c = old /\ k ∈ keys))) /\
  (forall c k, k ∈ set_at (connSubs b') c <->
     (c = new /\ k ∈ keys) \/ k ∈ set_at (connSubs b) c) /\
  allConns b' = allConns b /\ (no_empty (subscribers b) -> no_empty (subscribers b')).
Proof.
  intros Hne. revert b. induction keys as [|key keys IH]; intros b; cbn.
  - repeat split; intros; set_solver.
  - destruct (IH (mkBroadcaster (allConns b) (add_at key new (remove_at key old (subscribers b)))
        (add_at new key (connSubs b)))) as (IH1 & IH2 & IH3 & IH4).
    split_and!; [| |done|].
    + intros c k. rewrite IH1. unfold subscribed. cbn. rewrite elem_add_at, elem_remove_at.
      set_solver.
    + intros c k. rewrite IH2. cbn. rewrite elem_add_at. set_solver.
    + intros Hm. apply IH4. by apply no_empty_move.
Qed.

(** The inner loop of one rebind move. *)
Lemma rebind_conns_elem oldKey newKey conns b :
  oldKey <> newKey ->
  let b' := fold_left
    (fun b conn => mkBroadcaster (allConns b) (add_at newKey conn (subscribers b))
                     (remove_at conn oldKey (add_at conn newKey (connSubs b)))) conns b in
  (forall c k, subscribed b' c k <-> (k = newKey /\ c ∈ conns) \/ subscribed b c k) /\
  (forall c k, k ∈ set_at (connSubs b') c <->
     (k = newKey /\ c ∈ conns) \/ (k ∈ set_at (connSubs b) c /\ ~ (k = oldKey /\ c ∈ conns))) /\
  allConns b' = allConns b /\ (no_empty (subscribers b) -> no_empty (subscribers b')).
Proof.
  intros Hne. revert b. induction conns as [|conn conns IH]; intros b; cbn.
  - repeat split; intros; set_solver.
  - destruct (IH (mkBroadcaster (allConns b) (add_at newKey conn (subscribers b))
        (remove_at conn oldKey (add_at conn newKey (connSubs b))))) as (IH1 & IH2 & IH3 & IH4).
    split_and!; [| |done|].
    + intros c k. rewrite IH1. unfold subscribed. cbn. rewrite elem_add_at. set_solver.
    + intros c k. rewrite IH2. cbn. rewrite elem_remove_at, elem_add_at.
      destruct (decide (c = conn)), (decide (k = newKey)), (decide (k = oldKey)); set_solver.
    + intros Hm. apply IH4. by apply no_empty_add.
Qed.

Definition rebound_key (newID : string) (k : SubscriptionKey) : SubscriptionKey :=
  mkSubscriptionKey (sk_BackendID k) newID (sk_Directory k).

Lemma rebind_move_spec newID oldKey conns b :
  sk_SessionID oldKey <> newID ->
  let b' := rebind_move newID b (oldKey, conns) in
  let newKey := rebound_key newID oldKey in
  (forall c k, subscribed b' c k <->
     ((k = newKey /\ c ∈ conns) \/ subscribed b c k) /\ k <> oldKey) /\
  (forall c k, k ∈ set_at (connSubs b') c <->
     (k = newKey /\ c ∈ conns) \/ (k ∈ set_at (connSubs b) c /\ ~ (k = oldKey /\ c ∈ conns))) /\
  allConns b' = allConns b /\ (no_empty (subscribers b) -> no_empty (subscribers b')).
Proof.
  intros Hne. unfold rebind_move. cbv zeta beta iota.
  assert (oldKey <> rebound_key newID oldKey) as Hk by (intros He; apply Hne; by rewrite He).
  destruct (rebind_conns_elem oldKey (rebound_key newID oldKey) (elements conns) b Hk)
    as (H1 & H2 & H3 & H4).
  split_and!; [| |done|].
  - intros c k. specialize (H1 c k). unfold subscribed in *. cbn [subscribers].
    rewrite elem_delete_at. rewrite elem_of_elements in H1. unfold rebound_key in *. tauto.
  - intros c k. specialize (H2 c k). rewrite elem_of_elements in H2. exact H2.
  - intros Hm. apply no_empty_delete. by apply H4.
Qed.

(** What is left to move: entries of the table, each once. *)
Record moves_ok (oldID : string) (moves : list (SubscriptionKey * gset Connection))
  (b : Broadcaster) : Prop := {
  mv_nodup : NoDup moves.*1;
  mv_entry : forall k s, (k, s) ∈ moves -> subscribers b !! k = Some s /\ sk_SessionID k = oldID
}.

Lemma rebind_moves_ok oldID backendID b :
  moves_ok oldID (rebind_moves oldID backendID b) b.
Proof.
  unfold rebind_moves. split.
  - eapply sublist_NoDup; [apply (NoDup_fst_map_to_list (subscribers b))|].
    apply fmap_sublist, sublist_filter.
  - intros k s (Hf & Hk)%list_elem_of_filter. apply elem_of_map_to_list in Hk. naive_solver.
Qed.

Lemma moves_ok_step oldID newID k s moves b :
  oldID <> newID -> moves_ok oldID ((k, s) :: moves) b ->
  moves_ok oldID moves (rebind_move newID b (k, s)).
Proof.
  intros Hne [Hnd He]. cbn in Hnd. apply NoDup_cons in Hnd as [Hk Hnd].
  split; [done|]. intros k' s' Hin.
  destruct (He k' s') as [Hs' Hid]; [by constructor|]. split; [|done].
  assert (k' <> k) as Hkk by (intros ->; apply Hk; by apply (list_elem_of_fmap_2 fst _ (k, s'))).
  assert (k' <> rebound_key newID k) as Hkn by (intros ->; cbn in Hid; congruence).
  unfold rebind_move. cbv zeta beta iota. cbn [subscribers].
  rewrite lookup_delete_ne by done. fold (rebound_key newID k).
  clear -Hs' Hkn. revert b Hs'. induction (elements s) as [|c conns IH]; intros b Hs'; [done|].
  cbn. apply IH. cbn. unfold add_at. by rewrite lookup_insert_ne.
Qed.

Lemma rebind_all_spec oldID newID moves b :
  oldID <> newID -> moves_ok oldID moves b -> no_empty (subscribers b) ->
  (forall c k, subscribed b c k <-> k ∈ set_at (connSubs b) c) ->
  let b' := fold_left (rebind_move newID) moves b in
  (forall c k, subscribed b' c k <->
     (subscribed b c k /\ k ∉ moves.*1) \/
     (exists k0, k0 ∈ moves.*1 /\ k = rebound_key newID k0 /\ subscribed b c k0)) /\
  (forall c k, subscribed b' c k <-> k ∈ set_at (connSubs b') c) /\
  allConns b' = allConns b /\ no_empty (subscribers b').
Proof.
  intros Hne. revert b. induction moves as [|[k0 s0] moves IH]; intros b Hok Hnon Hinv;
    cbn [fold_left fmap list_fmap fst].
  { split_and!; [|done..]. intros c k. set_solver. }
  destruct (mv_entry _ _ _ Hok k0 s0) as [Hs0 Hid0]; [by constructor|].
  destruct (rebind_move_spec newID k0 s0 b) as (H1 & H2 & H3 & H4); [congruence|].
  assert (forall c, c ∈ s0 <-> subscribed b c k0) as Hc0
    by (intros c; unfold subscribed, set_at; by rewrite Hs0).
  assert (k0 <> rebound_key newID k0) as Hk0 by (intros He; rewrite He in Hid0; cbn in Hid0; done).
  destruct (IH (rebind_move newID b (k0, s0))) as (I1 & I2 & I3 & I4).
  - by apply (moves_ok_step oldID).
  - by apply H4.
  - intros c k. rewrite H1, H2, Hinv, Hc0, Hinv.
    destruct (decide (k = k0)) as [->|Hk]; naive_solver.
  - split_and!; [|exact I2|congruence|done].
    assert (forall k, k ∈ moves.*1 -> sk_SessionID k = oldID /\ k <> k0) as Hmv.
    { intros k ([k1 s1] & -> & Hin)%list_elem_of_fmap.
      destruct (mv_entry _ _ _ Hok k1 s1) as [_ Hid]; [by constructor|]. split; [done|].
      cbn [fst]. intros ->. pose proof (mv_nodup _ _ _ Hok) as Hnd. cbn in Hnd.
      apply NoDup_cons in Hnd as [Hnin _]. apply Hnin.
      by apply (list_elem_of_fmap_2 fst _ (k0, s1)). }
    intros c k. rewrite I1, not_elem_of_cons. setoid_rewrite elem_of_cons.
    setoid_rewrite H1. setoid_rewrite Hc0. split.
    + intros [[[[[-> Hc]|Hc] Hkk] Hnin]|(k1 & Hin & -> & [[[-> Hc]|Hc] Hkk])].
      * right. exists k0. naive_solver.
      * left. naive_solver.
      * exfalso. destruct (Hmv _ Hin) as [Hid _]. cbn in Hid. done.
      * right. exists k1. naive_solver.
    + intros [[Hc [Hkk Hnin]]|(k1 & [->|Hin] & -> & Hc)].
      * left. naive_solver.
      * left. split; [split; [by left|done]|]. intros Hin.
        destruct (Hmv _ Hin) as [Hid _]. cbn in Hid. done.
      * right. exists k1. destruct (Hmv _ Hin) as [_ Hkk]. naive_solver.
Qed.

(** Which keys are moved: the keys of the old session. *)
Lemma rebind_moves_keys oldID backendID b k :
  no_empty (subscribers b) ->
  k ∈ (rebind_moves oldID backendID b).*1 <->
  of_session backendID oldID k /\ set_at (subscribers b) k <> ∅.
Proof.
  intros Hnon. unfold rebind_moves. rewrite list_elem_of_fmap. split.
  - intros ([k' s] & -> & [(Hb & Hs & He) Hin]%list_elem_of_filter).
    apply elem_of_map_to_list in Hin. cbn in *. split; [done|]. unfold set_at. by rewrite Hin.
  - intros [[Hb Hs] He]. unfold set_at in He.
    destruct (subscribers b !! k) as [s|] eqn:Hk; [|done].
    exists (k, s). split; [done|]. apply list_elem_of_filter. split; [done|].
    by apply elem_of_map_to_list.
Qed.

(** ** Well-formedness *)

Lemma broadcast_wf_new : broadcast_wf NewBroadcaster.
Proof. split; unfold subscribed; cbn; intros *; rewrite ?set_at_empty; set_solver. Qed.

Lemma wf_subscribe conn key b : broadcast_wf b -> broadcast_wf (Subscribe conn key b).
Proof.
  intros [W1 W2 W3]. split; unfold subscribed in *; cbn.
  - intros c k. rewrite !elem_add_at, W1. naive_solver.
  - by apply no_empty_add.
  - intros c k. rewrite elem_add_at. intros [[_ ->]|Hc]; [set_solver|]. apply W3 in Hc. set_solver.
Qed.

Lemma wf_unsubscribe conn b : broadcast_wf b -> broadcast_wf (UnsubscribeAll conn b).
Proof.
  intros [W1 W2 W3]. split; unfold subscribed in *; cbn.
  - intros c k. rewrite drop_all_elem, elem_delete_at, elem_of_elements, W1.
    destruct (decide (c = conn)) as [->|]; naive_solver.
  - by apply drop_all_no_empty.
  - intros c k [Hc Hn]%drop_all_elem. rewrite elem_of_elements in Hn.
    assert (c <> conn) by (intros ->; apply Hn; split; [|done]; by apply W1).
    apply W3 in Hc. set_solver.
Qed.

Lemma wf_reconcile conn backendID keep b :
  broadcast_wf b -> broadcast_wf (ReconcileObservationSubscriptions conn backendID keep b).
Proof.
  intros [W1 W2 W3]. unfold ReconcileObservationSubscriptions.
  destruct (reconcile_elem conn backendID keep (elements (set_at (connSubs b) conn)) b)
    as (H1 & H2 & H3 & H4).
  split.
  - intros c k. by rewrite H1, H2, W1.
  - by apply H4.
  - intros c k [Hc _]%H1. rewrite H3. by apply (W3 c k).
Qed.

Lemma wf_transfer old new b : broadcast_wf b -> broadcast_wf (TransferSubscriptions old new b).
Proof.
  intros [W1 W2 W3]. unfold TransferSubscriptions. case_decide as Hne; [done|].
  destruct (decide (set_at (connSubs b) old = ∅)) as [He|He].
  - split; [exact W1|exact W2|]. intros c k Hc. cbn.
    assert (c <> old) by (intros ->; apply W1 in Hc; rewrite He in Hc; set_solver).
    apply W3 in Hc. set_solver.
  - destruct (transfer_elem old new (elements (set_at (connSubs b) old)) b Hne)
      as (H1 & H2 & H3 & H4).
    split.
    + intros c k. specialize (H1 c k). specialize (H2 c k). unfold subscribed in *.
      cbn [subscribers connSubs]. rewrite H1, elem_delete_at, H2, elem_of_elements, <- (W1 c k).
      unfold subscribed. destruct (decide (c = old)) as [->|]; [|naive_solver].
      pose proof (W1 old k) as Ho. unfold subscribed in Ho. naive_solver.
    + by apply H4.
    + intros c k. specialize (H1 c k). unfold subscribed in H1 |- *. cbn [subscribers allConns].
      rewrite H1, elem_of_elements. intros [[-> _]|[Hc Hn]]; [set_solver|].
      assert (c <> old) by (intros ->; apply Hn; split; [done|]; by apply W1).
      apply W3 in Hc. set_solver.
Qed.

Lemma rebind_spec oldID newID backendID b :
  oldID <> newID -> broadcast_wf b ->
  let b' := Rebind oldID newID backendID b in
  broadcast_wf b' /\
  (forall c k, subscribed b' c k <->
     (subscribed b c k /\ ~ of_session backendID oldID k) \/
     (of_session backendID newID k /\
      subscribed b c (mkSubscriptionKey backendID oldID (sk_Directory k)))).
Proof.
  intros Hne [W1 W2 W3] b'.
  destruct (rebind_all_spec oldID newID (rebind_moves oldID backendID b) b Hne
    (rebind_moves_ok _ _ _) W2 W1) as (H1 & H2 & H3 & H4).
  fold (Rebind oldID newID backendID b) in H1, H2, H3, H4. fold b' in H1, H2, H3, H4.
  assert (forall c k, subscribed b c k -> set_at (subscribers b) k <> ∅) as Hset
    by (unfold subscribed; intros c k Hc He; rewrite He in Hc; set_solver).
  assert (forall c k, subscribed b' c k <->
     (subscribed b c k /\ ~ of_session backendID oldID k) \/
     (of_session backendID newID k /\
      subscribed b c (mkSubscriptionKey backendID oldID (sk_Directory k)))) as Hspec.
  { intros c k. rewrite H1. setoid_rewrite (rebind_moves_keys oldID backendID b); [|done..].
    split.
    - intros [[Hc Hn]|([bk s d] & [[Hb Hs] He] & -> & Hc)]; [left; naive_solver|].
      cbn in Hb, Hs. subst. right. done.
    - intros [[Hc Hn]|[[Hb Hs] Hc]]; [left; naive_solver|].
      destruct k as [bk s d]. cbn in *. subst. right.
      exists (mkSubscriptionKey backendID oldID d). split; [|done].
      split; [done|]. apply (Hset c), Hc. }
  split; [|exact Hspec]. split; [exact H2|exact H4|].
  intros c k Hc. rewrite H3. apply Hspec in Hc as [[Hc _]|[_ Hc]]; by apply W3 in Hc.
Qed.

Theorem broadcast_exec_wf b o : op_allowed o -> broadcast_wf b -> broadcast_wf (broadcast_exec b o).
Proof.
  intros Ho Hw. destruct o as [c|c k|c|c bk keep|o n|o n bk]; cbn [broadcast_exec].
  - destruct Hw as [W1 W2 W3]. split; [exact W1|exact W2|]. intros c' k Hc. cbn.
    apply W3 in Hc. set_solver.
  - by apply wf_subscribe.
  - by apply wf_unsubscribe.
  - by apply wf_reconcile.
  - by apply wf_transfer.
  - by apply rebind_spec.
Qed.

Lemma broadcast_run_wf ops :
  Forall op_allowed ops -> broadcast_wf (fold_left broadcast_exec ops NewBroadcaster).
Proof.
  assert (forall b, broadcast_wf b -> Forall op_allowed ops ->
    broadcast_wf (fold_left broadcast_exec ops b)) as Hgen.
  { induction ops as [|o ops IH]; intros b Hb Hall; [done|]. inversion Hall; subst. cbn.
    apply IH; [|done]. by apply broadcast_exec_wf. }
  intros Hall. apply Hgen; [apply broadcast_wf_new|done].
Qed.

(** ** Who an event reaches *)

Lemma elem_subscribers_of (P : SubscriptionKey -> Prop) `{!forall k, Decision (P k)} b c :
  c ∈ subscribers_of P b <-> exists k, P k /\ subscribed b c k.
Proof.
  unfold subscribers_of, subscribed, set_at. generalize (subscribers b). clear b. intros m.
  induction m as [|k s m Hk Hfold IH] using map_first_key_ind.
  - rewrite map_fold_empty. setoid_rewrite lookup_empty. set_solver.
  - rewrite map_fold_insert_L; [|intros; repeat case_decide; set_solver|done].
    assert (forall k', P k' -> k' <> k -> c ∈ default ∅ (<[k:=s]> m !! k') <->
              c ∈ default ∅ (m !! k')) as Hne
      by (intros k' _ Hkk; by rewrite lookup_insert_ne).
    split.
    + case_decide as HP; [rewrite elem_of_union; intros [Hc|Hc]|intros Hc].
      * exists k. split; [done|]. by rewrite lookup_insert_eq.
      * apply IH in Hc as (k' & HP' & Hc). exists k'. split; [done|]. apply Hne; [done| |done].
        intros ->. rewrite Hk in Hc. cbn in Hc. set_solver.
      * apply IH in Hc as (k' & HP' & Hc). exists k'. split; [done|]. apply Hne; [done| |done].
        intros ->. done.
    + intros (k' & HP' & Hc). destruct (decide (k' = k)) as [->|Hkk].
      * rewrite lookup_insert_eq in Hc. cbn in Hc. rewrite decide_True by done. set_solver.
      * rewrite Hne in Hc by done. assert (c ∈ map_fold (fun k s acc =>
          if decide (P k) then s ∪ acc else acc) (∅ : gset Connection) m) as Hin
          by (apply IH; eauto).
        case_decide; set_solver.
Qed.

(** The keys an event of a directory is matched against. *)
Definition matching (backendID sessionID directory : string) (k : SubscriptionKey) : Prop :=
  of_session backendID sessionID k /\
  (directory = "" \/ sk_Directory k = directory \/ sk_Directory k = "").

Definition listens (P : SubscriptionKey -> Prop) (b : Broadcaster) (c : Connection) : Prop :=
  exists k, P k /\ subscribed b c k.

Section targets.
Context (isClosed : Connection -> bool).

Lemma elem_live c s : c ∈ live isClosed s <-> isClosed c = false /\ c ∈ s.
Proof. unfold live. set_solver. Qed.

Lemma elem_or_else c s t : c ∈ or_else s t <-> c ∈ s \/ (s = ∅ /\ c ∈ t).
Proof. unfold or_else. case_decide; set_solver. Qed.

Lemma set_empty_iff (s : gset Connection) (P : Connection -> Prop) :
  (forall c, c ∈ s <-> P c) -> (s = ∅ <-> forall c, ~ P c).
Proof.
  intros Hs. split.
  - intros -> c Hc. apply Hs in Hc. set_solver.
  - intros Hn. apply set_eq. intros c. rewrite Hs. split; [by intros ?%Hn|set_solver].
Qed.

Lemma elem_matching b backendID sessionID directory c :
  c ∈ (let exact := set_at (subscribers b) (mkSubscriptionKey backendID sessionID directory) in
       if decide (directory = "")
       then exact ∪ subscribers_of
              (fun k => of_session backendID sessionID k /\ sk_Directory k <> "") b
       else exact ∪ set_at (subscribers b) (session_key backendID sessionID)) <->
  listens (matching backendID sessionID directory) b c.
Proof.
  cbv zeta. unfold listens, matching, of_session. destruct (decide (directory = "")) as [->|Hd].
  - rewrite elem_of_union, elem_subscribers_of. split.
    + intros [Hc|(k & [Hk _] & Hc)]; [|eauto]. exists (mkSubscriptionKey backendID sessionID "").
      auto.
    + intros ([b0 s0 d0] & [[Hb Hs] _] & Hc). cbn in Hb, Hs. subst.
      destruct (decide (d0 = "")) as [->|]; [by left|]. right. eexists. split; [|exact Hc]. done.
  - rewrite elem_of_union. split.
    + intros [Hc|Hc]; [exists (mkSubscriptionKey backendID sessionID directory)
        |exists (session_key backendID sessionID)]; cbn; auto.
    + intros ([b0 s0 d0] & [[Hb Hs] [Hd0|[Hd0|Hd0]]] & Hc); cbn in Hb, Hs, Hd0; subst; auto.
      done.
Qed.

(** An event reaches the open connections that subscribed to its session in its
    directory or in none (in any directory, for an event without one); when there
    is no such subscription, those that subscribed to any session of the backend;
    when there is none either, every open connection. *)
Theorem Targets_spec b backendID sessionID directory c :
  c ∈ Targets isClosed backendID sessionID directory b <->
  isClosed c = false /\
  (listens (matching backendID sessionID directory) b c \/
   ((forall c', ~ listens (matching backendID sessionID directory) b c') /\
    (listens (fun k => sk_BackendID k = backendID) b c \/
     ((forall c', ~ listens (fun k => sk_BackendID k = backendID) b c') /\ c ∈ allConns b)))).
Proof.
  unfold Targets. cbv zeta. rewrite elem_of_elements, elem_live, !elem_or_else.
  rewrite elem_subscribers_of. fold (listens (fun k => sk_BackendID k = backendID) b c).
  set (first := if decide (directory = "") then _ else _).
  assert (forall x, x ∈ first <-> listens (matching backendID sessionID directory) b x) as Hfirst
    by (intros x; apply elem_matching).
  assert (forall x, x ∈ or_else first (subscribers_of (fun k => sk_BackendID k = backendID) b) <->
    listens (matching backendID sessionID directory) b x \/
    ((forall c', ~ listens (matching backendID sessionID directory) b c') /\
     listens (fun k => sk_BackendID k = backendID) b x)) as Hsecond.
  { intros x. rewrite elem_or_else, Hfirst, elem_subscribers_of, (set_empty_iff _ _ Hfirst). done. }
  rewrite Hfirst, (set_empty_iff _ _ Hfirst), (set_empty_iff _ _ Hsecond).
  split; intros [Hopen Hc]; (split; [done|]).
  - destruct Hc as [[Hm|[Hn Hb]]|[Hn Ha]]; [by left|by right; auto|].
    right. split; [intros c' Hm; apply (Hn c'); by left|]. right. split; [|done].
    intros c' Hb. apply (Hn c'). right. split; [|done]. intros c'' Hm. apply (Hn c''). by left.
  - destruct Hc as [Hm|[Hn [Hb|[Hnb Ha]]]]; [by left; left|by left; right|].
    right. split; [|done]. intros c' [Hm|[_ Hb]]; [by apply (Hn c')|by apply (Hnb c')].
Qed.

(** When a connection of a device replaces another, the new one is reached by
    every event of the sessions the old one had open, and no event reaches the
    old one any more. *)
Theorem Transfer_hands_over old new b backendID sessionID :
  broadcast_wf b -> old <> new -> isClosed new = false ->
  let b' := TransferSubscriptions old new b in
  broadcast_wf b' /\
  (forall directory, listens (matching backendID sessionID directory) b old ->
     new ∈ Targets isClosed backendID sessionID directory b') /\
  (forall directory, old ∉ Targets isClosed backendID sessionID directory b').
Proof.
  intros Hw Hne Hopen b'. pose proof (wf_transfer old new b Hw) as Hw'. fold b' in Hw'.
  split; [done|].
  assert (forall k, subscribed b old k -> subscribed b' new k) as Hgain.
  { intros k Hk. unfold b', TransferSubscriptions. rewrite decide_False by done.
    pose proof (proj1 (bw_inverse _ Hw _ _) Hk) as Hk'.
    rewrite decide_False by (intros He; rewrite He in Hk'; set_solver).
    destruct (transfer_elem old new (elements (set_at (connSubs b) old)) b Hne) as (H1 & _).
    apply H1. left. split; [done|]. by apply elem_of_elements. }
  assert (old ∉ allConns b') as Hgone.
  { unfold b', TransferSubscriptions. rewrite decide_False by done. case_decide; cbn; set_solver. }
  assert (forall P, ~ listens P b' old) as Hnot.
  { intros P (k & _ & Hk). apply Hgone. by apply (bw_known _ Hw' _ k). }
  split; intros directory; rewrite Targets_spec.
  - intros (k & HP & Hk). split; [done|]. left. exists k. auto.
  - intros [_ [Hl|[_ [Hl|[_ Hl]]]]]; [by apply Hnot in Hl..|done].
Qed.

(** When a provisional session learns its real name, the listeners of the
    provisional one, and nobody else, are added to those of the real one, and
    the provisional one is left with none; every other session keeps its own. *)
Theorem Rebind_moves_listeners oldID newID backendID b :
  broadcast_wf b -> oldID <> newID ->
  let b' := Rebind oldID newID backendID b in
  broadcast_wf b' /\
  (forall c, listens (of_session backendID newID) b' c <->
     listens (of_session backendID newID) b c \/ listens (of_session backendID oldID) b c) /\
  (forall c, ~ listens (of_session backendID oldID) b' c) /\
  (forall bk sid c, (bk, sid) <> (backendID, oldID) -> (bk, sid) <> (backendID, newID) ->
     listens (of_session bk sid) b' c <-> listens (of_session bk sid) b c).
Proof.
  intros Hw Hne b'. destruct (rebind_spec oldID newID backendID b Hne Hw) as [Hw' Hspec].
  fold b' in Hw', Hspec. split; [done|]. unfold listens. setoid_rewrite Hspec.
  split_and!.
  - intros c. split.
    + intros ([bk s d] & [Hb Hs] & [[Hc _]|[_ Hc]]); cbn in *; subst.
      * left. exists (mkSubscriptionKey backendID newID d). done.
      * right. exists (mkSubscriptionKey backendID oldID d). done.
    + intros [([bk s d] & [Hb Hs] & Hc)|([bk s d] & [Hb Hs] & Hc)]; cbn in Hb, Hs; subst;
        exists (mkSubscriptionKey backendID newID d); (split; [done|]).
      * left. split; [done|]. intros [_ Hs]. cbn in Hs. congruence.
      * right. done.
  - intros c (k & Hk & [[_ Hn]|[[_ Hs] _]]); [done|]. destruct Hk as [_ Hk]. congruence.
  - intros bk sid c H1 H2. split.
    + intros (k & Hk & [[Hc _]|[[Hb Hs] _]]); [eauto|]. destruct Hk as [Hk1 Hk2]. congruence.
    + intros (k & Hk & Hc). exists k. split; [done|]. left. split; [done|].
      destruct Hk as [Hk1 Hk2]. intros [Hb Hs]. congruence.
Qed.
End targets.

(** ** Concrete instances *)

Definition bc_ops : list broadcast_op :=
  [OpSubscribe 1%nat (mkSubscriptionKey "claude" "pending-1" ""); OpRegister 2%nat;
   OpSubscribe 3%nat (mkSubscriptionKey "claude" "s" "/w")].

Definition bc_state : Broadcaster := fold_left broadcast_exec bc_ops NewBroadcaster.

Lemma bc_state_wf : broadcast_wf bc_state.
Proof. apply broadcast_run_wf. repeat constructor. Qed.

Lemma Transfer_hands_over_witness :
  2%nat ∈ Targets (fun _ => false) "claude" "pending-1" "" (TransferSubscriptions 1%nat 2%nat bc_state).
Proof.
  apply (Transfer_hands_over (fun _ => false) 1%nat 2%nat bc_state "claude" "pending-1");
    [apply bc_state_wf|discriminate|reflexivity|].
  exists (mkSubscriptionKey "claude" "pending-1" "").
  split; [split; [split; reflexivity|by left]|by apply (bool_decide_unpack _); vm_compute].
Defined.

Lemma Rebind_moves_listeners_witness :
  listens (of_session "claude" "real") (Rebind "pending-1" "real" "claude" bc_state) 1%nat.
Proof.
  destruct (Rebind_moves_listeners "pending-1" "real" "claude" bc_state) as (_ & Hnew & _);
    [apply bc_state_wf|discriminate|].
  apply Hnew. right. exists (mkSubscriptionKey "claude" "pending-1" "").
  split; [split; reflexivity|by apply (bool_decide_unpack _); vm_compute].
Defined.
