(* ===== verification/Observation.v ===== *)
(** * What a device watches, and the outbox kept for it (go-bridge/relay_observation.go)

    Two managers of one file. The observation manager keeps, per device and
    backend, the sessions the device has open and how much of them it wants, and
    decides for each event whether the device is sent it. The outbox manager keeps
    the sealed envelopes of a device while the relay is unreachable, within fixed
    bounds. The store of pending notifications of types.go, a third table by
    device, is modelled beside them. Instants are nanoseconds; a lease, which the
    code compares as floating-point seconds, is compared exactly. The loop that
    looks at the leases only logs, and is not modelled. *)

From S2P Require Import Prelude.
From S2P Require Import Wire.
From S2P Require Import Mailbox.

Definition scopeFullStream : string := "full_stream".
Definition scopeMilestonesOnly : string := "milestones_only".
Definition defaultLeaseSeconds : Z := 90.
Definition outboxMaxFrames : Z := 1000.
Definition outboxMaxBytes : Z := 16 * 1024 * 1024.

(** ** The observation manager *)

Record ObservationScope : Type := mkScope {
  os_BackendID : string;
  os_SessionIDs : list string;
  os_DeliveryMode : string;
  os_IncludeRunningSignals : bool;
  os_LeaseSeconds : Z;
  os_leasedAt : Z
}.

(** [DeviceObservation]: the scope of each backend. *)
Abbreviation DeviceObservation := (gmap string ObservationScope).

Record ObservationManager : Type := mkObservation {
  om_devices : gmap string DeviceObservation;
  om_rebinds : gmap string (gmap string string)
}.

Definition NewObservationManager : ObservationManager := mkObservation ∅ ∅.

(** The chain of rebinds from a session id, at most four hops. *)
Fixpoint rebound (hops : nat) (rebinds : gmap string string) (sid : string) : string :=
  match hops with
  | O => sid
  | S hops =>
      match rebinds !! sid with
      | Some next => rebound hops rebinds next
      | None => sid
      end
  end.

Definition rebinds_of (backendID : string) (om : ObservationManager) : gmap string string :=
  default ∅ (om_rebinds om !! backendID).

Definition SetScope (deviceID : string) (scope : ObservationScope) (now : Z)
  (om : ObservationManager) : ObservationManager :=
  let dev := default ∅ (om_devices om !! deviceID) in
  let scope :=
    mkScope (os_BackendID scope)
      (map (rebound 4 (rebinds_of (os_BackendID scope) om)) (os_SessionIDs scope))
      (os_DeliveryMode scope) (os_IncludeRunningSignals scope)
      (if os_LeaseSeconds scope <=? 0 then defaultLeaseSeconds else os_LeaseSeconds scope) now in
  mkObservation (<[deviceID := <[os_BackendID scope := scope]> dev]> (om_devices om))
    (om_rebinds om).

(** The ids without the empty ones and the repetitions, in order of first occurrence. *)
Fixpoint dedup (seen : gset string) (ids : list string) : list string :=
  match ids with
  | [] => []
  | sid :: ids =>
      if decide (sid = "" \/ sid ∈ seen) then dedup seen ids
      else sid :: dedup ({[sid]} ∪ seen) ids
  end.

Definition set_session_ids (ids : list string) (s : ObservationScope) : ObservationScope :=
  mkScope (os_BackendID s) ids (os_DeliveryMode s) (os_IncludeRunningSignals s)
    (os_LeaseSeconds s) (os_leasedAt s).

(** The rewriting of one scope, when it lists the old session. *)
Definition rebind_scope (old new : string) (s : ObservationScope) : ObservationScope :=
  if decide (old ∈ os_SessionIDs s)
  then set_session_ids
         (dedup ∅ (map (fun sid => if decide (sid = old) then new else sid) (os_SessionIDs s))) s
  else s.

(** The answer counts the scopes rewritten. *)
Definition RebindSessionID (backendID old new : string) (om : ObservationManager)
  : Z * ObservationManager :=
  if bool_decide (backendID = "" \/ old = "" \/ new = "" \/ old = new) then (0, om)
  else
    let rebinds := <[backendID := <[old := new]> (rebinds_of backendID om)]> (om_rebinds om) in
    let rewritten :=
      map_sum (fun dev : DeviceObservation =>
                 match dev !! backendID with
                 | Some s => if decide (old ∈ os_SessionIDs s) then 1 else 0
                 | None => 0
                 end) (om_devices om) in
    (rewritten,
     mkObservation ((fun dev : DeviceObservation => alter (rebind_scope old new) backendID dev)
                      <$> om_devices om) rebinds).

Definition isLiveControlPlaneEvent (eventType : string) : bool :=
  bool_decide (eventType ∈ ["turn_started"; "session_state_changed"; "session_running_signal";
                            "user_message"; "user_message_removed"]).

Definition lists_session (sessionID : string) (s : ObservationScope) : bool :=
  existsb (fun sid => bool_decide (sid = sessionID \/ sid = "*")) (os_SessionIDs s).

(** The session filter: an empty list observes every session. *)
Definition observes_session (sessionID : string) (s : ObservationScope) : bool :=
  match os_SessionIDs s with [] => true | _ => lists_session sessionID s end.

(** A full stream holds for twice its lease. *)
Definition effectiveMode (now : Z) (s : ObservationScope) : string :=
  if bool_decide (os_DeliveryMode s = scopeFullStream)
     && (now - os_leasedAt s >? os_LeaseSeconds s * 2 * second)
  then scopeMilestonesOnly else os_DeliveryMode s.

(** What a scope answers for an event of an observed, or not observed, session. *)
Definition scope_answer (observed : bool) (eventType : string) (now : Z) (s : ObservationScope)
  : bool :=
  if isLiveControlPlaneEvent eventType then
    if observed then true else os_IncludeRunningSignals s
  else if negb observed then os_IncludeRunningSignals s && IsDurableMilestone eventType
  else if bool_decide (effectiveMode now s = scopeFullStream) then true
  else IsDurableMilestone eventType.

Definition ShouldSendEvent (deviceID backendID sessionID eventType : string) (now : Z)
  (om : ObservationManager) : bool :=
  if bool_decide (eventType = "sessions_changed") then true
  else
    match om_devices om !! deviceID ≫= (!!) backendID with
    | None => IsDurableMilestone eventType || isLiveControlPlaneEvent eventType
    | Some s => scope_answer (observes_session sessionID s) eventType now s
    end.

Definition RemoveDevice (deviceID : string) (om : ObservationManager) : ObservationManager :=
  mkObservation (delete deviceID (om_devices om)) (om_rebinds om).

Definition HasSessionInterest (backendID sessionID : string) (om : ObservationManager) : bool :=
  if bool_decide (backendID = "" \/ sessionID = "") then false
  else existsb (fun d : string * DeviceObservation =>
                  match d.2 !! backendID with
                  | Some s => observes_session sessionID s
                  | None => false
                  end) (map_to_list (om_devices om)).

Definition DeviceIDs (om : ObservationManager) : gset string := dom (om_devices om).

Definition GetScope (deviceID backendID : string) (om : ObservationManager)
  : option ObservationScope := om_devices om !! deviceID ≫= (!!) backendID.

(** ** The outbox of a device *)

Record OutboxEntry (Envelope : Type) : Type := mkOutboxEntry {
  oe_Counter : Z;
  oe_Envelope : Envelope;
  oe_Size : Z;
  oe_CreatedAt : Z
}.
Arguments mkOutboxEntry {Envelope}.
Arguments oe_Counter {Envelope}.
Arguments oe_Envelope {Envelope}.
Arguments oe_Size {Envelope}.
Arguments oe_CreatedAt {Envelope}.

Record DeviceOutbox (Envelope : Type) : Type := mkOutbox {
  ob_entries : list (OutboxEntry Envelope);
  ob_totalBytes : Z;
  ob_overflowed : bool
}.
Arguments mkOutbox {Envelope}.
Arguments ob_entries {Envelope}.
Arguments ob_totalBytes {Envelope}.
Arguments ob_overflowed {Envelope}.

Section outbox.
Context {Envelope : Type} (len : Envelope -> nat).
Implicit Types om : gmap string (DeviceOutbox Envelope).

Definition empty_outbox : DeviceOutbox Envelope := mkOutbox [] 0 false.

(** What [Enqueue] answers: stored, refused because the outbox had overflowed, or
    refused and overflowed now, when the callback is run for the device. *)
Inductive OutboxAnswer : Type := OutboxStored | OutboxRefused | OutboxOverflows.

Definition Enqueue (deviceID : string) (counter : Z) (envelope : Envelope) (now : Z) om
  : OutboxAnswer * gmap string (DeviceOutbox Envelope) :=
  let ob := default empty_outbox (om !! deviceID) in
  if ob_overflowed ob then (OutboxRefused, <[deviceID := ob]> om)
  else
    let size := Z.of_nat (len envelope) in
    if (zlen (ob_entries ob) >=? outboxMaxFrames) || (ob_totalBytes ob + size >? outboxMaxBytes)
    then (OutboxOverflows,
          <[deviceID := mkOutbox (ob_entries ob) (ob_totalBytes ob) true]> om)
    else (OutboxStored,
          <[deviceID := mkOutbox (ob_entries ob ++ [mkOutboxEntry counter envelope size now])
                          (ob_totalBytes ob + size) false]> om).

Definition Drain (deviceID : string) om
  : list (OutboxEntry Envelope) * gmap string (DeviceOutbox Envelope) :=
  match om !! deviceID with
  | None => ([], om)
  | Some ob => (ob_entries ob, <[deviceID := empty_outbox]> om)
  end.

(** The loop of [Flush]: [send] answers whether it failed; the entries sent, and
    those left from the first failure on. *)
Fixpoint flush_loop (send : OutboxEntry Envelope -> bool) (entries : list (OutboxEntry Envelope))
  : list (OutboxEntry Envelope) * list (OutboxEntry Envelope) :=
  match entries with
  | [] => ([], [])
  | e :: rest =>
      if send e then let '(sent, kept) := flush_loop send rest in (e :: sent, kept)
      else ([], entries)
  end.

(** The entries sent, and whether an error is returned. *)
Definition Flush (deviceID : string) (send : OutboxEntry Envelope -> bool) om
  : (list (OutboxEntry Envelope) * bool) * gmap string (DeviceOutbox Envelope) :=
  match om !! deviceID with
  | None => (([], false), om)
  | Some ob =>
      match flush_loop send (ob_entries ob) with
      | (sent, []) => ((sent, false), <[deviceID := empty_outbox]> om)
      | ([], _) => (([], true), om)
      | (sent, remaining) =>
          ((sent, true),
           <[deviceID := mkOutbox remaining (sum_with oe_Size remaining) (ob_overflowed ob)]> om)
      end
  end.

Definition IsOverflowed (deviceID : string) om : bool :=
  match om !! deviceID with Some ob => ob_overflowed ob | None => false end.

Definition ResetOverflow (deviceID : string) om : gmap string (DeviceOutbox Envelope) :=
  match om !! deviceID with Some _ => <[deviceID := empty_outbox]> om | None => om end.

Definition Stats (deviceID : string) om : Z * Z * bool :=
  match om !! deviceID with
  | Some ob => (zlen (ob_entries ob), ob_totalBytes ob, ob_overflowed ob)
  | None => (0, 0, false)
  end.
End outbox.

(** ** Pending notifications (types.go) *)

Record PendingNotification : Type := mkPending {
  pn_SessionID : string;
  pn_BackendID : string;
  pn_Directory : string;
  pn_Title : string;
  pn_Reason : string;
  pn_Message : string;
  pn_CompletedAt : Z
}.

Definition RecordNotification (deviceID : string) (n : PendingNotification)
  (items : gmap string (list PendingNotification)) : gmap string (list PendingNotification) :=
  let l := default [] (items !! deviceID) ++ [n] in
  <[deviceID := if zlen l >? 50 then drop (length l - 50) l else l]> items.

Definition Consume (deviceID : string) (items : gmap string (list PendingNotification))
  : list PendingNotification * gmap string (list PendingNotification) :=
  (default [] (items !! deviceID), delete deviceID items).

(** ** The session filter under a rebind *)

Lemma elem_dedup seen ids x : x ∈ dedup seen ids <-> x ∈ ids /\ x <> "" /\ x ∉ seen.
Proof.
  revert seen. induction ids as [|y ids IH]; intros seen; cbn; [set_solver|].
  case_decide as Hy.
  - rewrite IH, elem_of_cons. split; [naive_solver|].
    intros [[->|Hx] [Hne Hs]]; [destruct Hy; done|done].
  - rewrite !elem_of_cons, IH, elem_of_union, elem_of_singleton.
    destruct (decide (x = y)) as [->|]; naive_solver.
Qed.

Lemma lists_session_iff sid s :
  lists_session sid s = true <-> sid ∈ os_SessionIDs s \/ "*" ∈ os_SessionIDs s.
Proof.
  unfold lists_session. rewrite existsb_exists. setoid_rewrite <- list_elem_of_In.
  setoid_rewrite bool_decide_eq_true. naive_solver.
Qed.

Lemma observes_session_iff sid s :
  observes_session sid s = true <->
  os_SessionIDs s = [] \/ sid ∈ os_SessionIDs s \/ "*" ∈ os_SessionIDs s.
Proof.
  unfold observes_session. rewrite <- lists_session_iff.
  destruct (os_SessionIDs s) eqn:He; [naive_solver|]. naive_solver.
Qed.

Lemma elem_rebind_scope old new s x :
  new <> "" -> old ∈ os_SessionIDs s ->
  x ∈ os_SessionIDs (rebind_scope old new s) <->
  x <> "" /\ (x = new \/ (x <> old /\ x ∈ os_SessionIDs s)).
Proof.
  intros Hnew Hold. unfold rebind_scope. rewrite decide_True by done. cbn.
  rewrite elem_dedup, list_elem_of_fmap. split.
  - intros ((y & -> & Hy) & Hne & _). split; [done|]. case_decide; [by left|by right].
  - intros (Hne & [->|[Hx Hin]]); (split; [|set_solver]).
    + exists old. by rewrite decide_True.
    + exists x. by rewrite decide_False.
Qed.

Lemma rebind_scope_new old new s :
  new <> "" -> observes_session old s = true ->
  observes_session new (rebind_scope old new s) = true.
Proof.
  intros Hnew. rewrite !observes_session_iff. intros Ho.
  destruct (decide (old ∈ os_SessionIDs s)) as [Hin|Hin].
  - right. left. apply elem_rebind_scope; auto.
  - unfold rebind_scope. rewrite decide_False by done. naive_solver.
Qed.

Lemma rebind_scope_other old new s sid :
  new <> "" -> sid <> "" -> sid <> old -> sid <> new -> old <> "*" -> new <> "*" ->
  observes_session sid (rebind_scope old new s) = observes_session sid s.
Proof.
  intros Hnew Hsid Ho Hn Hos Hns. apply eq_bool_prop_intro. rewrite !Is_true_true.
  rewrite !observes_session_iff.
  destruct (decide (old ∈ os_SessionIDs s)) as [Hin|Hin];
    [|unfold rebind_scope; by rewrite decide_False].
  assert (os_SessionIDs (rebind_scope old new s) <> []) as Hne.
  { intros He. assert (new ∈ os_SessionIDs (rebind_scope old new s)) as Hx
      by (apply elem_rebind_scope; auto). rewrite He in Hx. by apply not_elem_of_nil in Hx. }
  assert (os_SessionIDs s <> []) as Hne' by (intros He; rewrite He in Hin; by apply not_elem_of_nil in Hin).
  rewrite !elem_rebind_scope by done. naive_solver.
Qed.

Lemma scope_answer_mono ev now s : scope_answer false ev now s = true -> scope_answer true ev now s = true.
Proof.
  unfold scope_answer. destruct (isLiveControlPlaneEvent ev); [done|]. cbn [negb].
  intros [_ Hd]%andb_prop. rewrite Hd. by case_match.
Qed.

(** The settings of a scope but for its sessions. *)
Lemma rebind_scope_answer old new s o ev now :
  scope_answer o ev now (rebind_scope old new s) = scope_answer o ev now s.
Proof. unfold rebind_scope. by case_decide. Qed.

Lemma rebound_stop hops rebinds sid : rebinds !! sid = None -> rebound hops rebinds sid = sid.
Proof. destruct hops; cbn; [done|]. by intros ->. Qed.

Definition rebind_valid (backendID old new : string) : Prop :=
  backendID <> "" /\ old <> "" /\ new <> "" /\ old <> new.

Lemma RebindSessionID_state backendID old new om :
  rebind_valid backendID old new ->
  snd (RebindSessionID backendID old new om) =
  mkObservation ((fun dev : DeviceObservation => alter (rebind_scope old new) backendID dev)
                   <$> om_devices om)
    (<[backendID := <[old := new]> (rebinds_of backendID om)]> (om_rebinds om)).
Proof.
  intros (H1 & H2 & H3 & H4). unfold RebindSessionID. rewrite bool_decide_false; [done|].
  naive_solver.
Qed.

Lemma rebind_lookup backendID old new om dev bk :
  rebind_valid backendID old new ->
  om_devices (snd (RebindSessionID backendID old new om)) !! dev ≫= (!!) bk =
  (if decide (bk = backendID) then rebind_scope old new else id) <$>
    (om_devices om !! dev ≫= (!!) bk).
Proof.
  intros Hv. rewrite RebindSessionID_state by done. cbn [om_devices]. rewrite lookup_fmap.
  destruct (om_devices om !! dev) as [d|]; [|done]. cbn. case_decide as Hb.
  - subst. by rewrite lookup_alter_eq.
  - rewrite lookup_alter_ne by done. by destruct (d !! bk).
Qed.

(** C29. When a provisional session learns its real name: a device that was sent an
    event of the provisional session is sent it of the real one; the answer is
    the same for every other session and backend; and a renewal that still
    names the provisional session stores the same scope for the real one as if it
    had named it (unless the real name has itself been rebound). *)
Theorem rebind_keeps_stream backendID old new om :
  rebind_valid backendID old new -> old <> "*" -> new <> "*" ->
  let om' := snd (RebindSessionID backendID old new om) in
  (forall dev ev now, ShouldSendEvent dev backendID old ev now om = true ->
     ShouldSendEvent dev backendID new ev now om' = true) /\
  (forall dev bk sid ev now, sid <> "" -> (bk = backendID -> sid <> old /\ sid <> new) ->
     ShouldSendEvent dev bk sid ev now om' = ShouldSendEvent dev bk sid ev now om) /\
  (forall dev ids mode signals lease at_ ev t now,
     rebinds_of backendID om !! new = None -> old ∈ ids ->
     ShouldSendEvent dev backendID new ev now
       (SetScope dev (mkScope backendID ids mode signals lease at_) t om') =
     ShouldSendEvent dev backendID new ev now
       (SetScope dev (mkScope backendID [new] mode signals lease at_) t om')).
Proof.
  intros Hv Hos Hns om'. destruct Hv as (Hb & Ho & Hn & Hne).
  assert (rebind_valid backendID old new) as Hv by done.
  split_and!.
  - intros dev ev now. unfold ShouldSendEvent. case_match; [done|].
    unfold om'. rewrite rebind_lookup, decide_True by done.
    destruct (om_devices om !! dev ≫= _) as [s|]; [|done]. cbn. rewrite rebind_scope_answer.
    destruct (observes_session old s) eqn:Hobs.
    + by rewrite rebind_scope_new.
    + intros Ha. destruct (observes_session new _); [by apply scope_answer_mono|done].
  - intros dev bk sid ev now Hsid Hnot. unfold ShouldSendEvent. case_match; [done|].
    unfold om'. rewrite rebind_lookup by done.
    destruct (om_devices om !! dev ≫= _) as [s|]; [|done]. cbn.
    destruct (decide (bk = backendID)) as [Hbk|_]; [|reflexivity].
    destruct (Hnot Hbk) as [H1 H2].
    by rewrite rebind_scope_answer, rebind_scope_other.
  - intros dev ids mode signals lease at_ ev t now Hnew Hin.
    unfold ShouldSendEvent, SetScope. cbn [os_BackendID os_SessionIDs os_DeliveryMode
      os_IncludeRunningSignals os_LeaseSeconds om_devices].
    case_match; [done|]. rewrite !lookup_insert_eq. cbn [mbind option_bind].
    rewrite !lookup_insert_eq.
    assert (rebinds_of backendID om' = <[old := new]> (rebinds_of backendID om)) as Hr.
    { unfold om'. rewrite RebindSessionID_state by done. unfold rebinds_of at 1.
      cbn [om_rebinds]. by rewrite lookup_insert_eq. }
    rewrite Hr. set (R := <[old:=new]> _).
    assert (R !! new = None) as HR by (unfold R; by rewrite lookup_insert_ne).
    assert (forall l, new ∈ map (rebound 4 R) l ->
      observes_session new (mkScope backendID (map (rebound 4 R) l) mode signals
        (if lease <=? 0 then defaultLeaseSeconds else lease) t) = true) as Hobs
      by (intros l Hl; apply observes_session_iff; by auto).
    rewrite !Hobs; [done| |].
    + cbn [map]. rewrite rebound_stop by done. constructor.
    + apply list_elem_of_fmap. exists old. split; [|done].
      change (rebound 4 R old) with
        (match R !! old with Some next => rebound 3 R next | None => old end).
      assert (R !! old = Some new) as -> by (unfold R; apply lookup_insert_eq).
      by rewrite rebound_stop.
Qed.

(** ** The outbox keeps every accepted envelope, in order, within its bounds *)

Section outbox_run.
Context {Envelope : Type} (len : Envelope -> nat).

Inductive outbox_op : Type :=
| OutEnqueue (deviceID : string) (counter : Z) (envelope : Envelope) (now : Z)
| OutFlush (deviceID : string) (send : OutboxEntry Envelope -> bool).

(** The envelopes of each device that [Enqueue] accepted and [Flush] sent. *)
Record outbox_run : Type := mkOutRun {
  or_state : gmap string (DeviceOutbox Envelope);
  or_accepted : string -> list Envelope;
  or_sent : string -> list Envelope
}.

Definition extend (d : string) (l : list Envelope) (f : string -> list Envelope)
  : string -> list Envelope := fun x => if decide (x = d) then f x ++ l else f x.

Definition outbox_exec (r : outbox_run) (o : outbox_op) : outbox_run :=
  match o with
  | OutEnqueue d c e now =>
      let '(answer, om) := Enqueue len d c e now (or_state r) in
      mkOutRun om
        (match answer with
         | OutboxStored => extend d [e] (or_accepted r)
         | _ => or_accepted r
         end) (or_sent r)
  | OutFlush d send =>
      let '((sent, _), om) := Flush d send (or_state r) in
      mkOutRun om (or_accepted r) (extend d (map oe_Envelope sent) (or_sent r))
  end.

Definition outbox_start : outbox_run := mkOutRun ∅ (fun _ => []) (fun _ => []).

Definition outbox_of (r : outbox_run) (d : string) : DeviceOutbox Envelope :=
  default empty_outbox (or_state r !! d).

Record outbox_ok (ob : DeviceOutbox Envelope) : Prop := {
  oo_sizes : Forall (fun e => 0 <= oe_Size e) (ob_entries ob);
  oo_total : ob_totalBytes ob = sum_with oe_Size (ob_entries ob);
  oo_frames : zlen (ob_entries ob) <= outboxMaxFrames;
  oo_bytes : ob_totalBytes ob <= outboxMaxBytes
}.

Definition outbox_inv (r : outbox_run) : Prop :=
  forall d, outbox_ok (outbox_of r d) /\
    or_accepted r d = or_sent r d ++ map oe_Envelope (ob_entries (outbox_of r d)).

Lemma outbox_ok_empty : outbox_ok empty_outbox.
Proof. split; cbn; [constructor|done|unfold outboxMaxFrames; lia|unfold outboxMaxBytes; lia]. Qed.

Lemma outbox_of_insert om acc sent d ob d' :
  outbox_of (mkOutRun (<[d := ob]> om) acc sent) d' =
  if decide (d' = d) then ob else outbox_of (mkOutRun om acc sent) d'.
Proof.
  unfold outbox_of. cbn. case_decide as Hd; [subst; by rewrite lookup_insert_eq|].
  by rewrite lookup_insert_ne.
Qed.

Lemma outbox_ok_append ob c e now :
  outbox_ok ob -> zlen (ob_entries ob) < outboxMaxFrames ->
  ob_totalBytes ob + Z.of_nat (len e) <= outboxMaxBytes ->
  outbox_ok (mkOutbox (ob_entries ob ++ [mkOutboxEntry c e (Z.of_nat (len e)) now])
               (ob_totalBytes ob + Z.of_nat (len e)) false).
Proof.
  intros [H1 H2 H3 H4] Hf Hb. split; cbn.
  - apply Forall_app. split; [done|]. constructor; [cbn; lia|constructor].
  - rewrite sum_with_app. cbn. lia.
  - rewrite length_app. cbn. lia.
  - done.
Qed.

Lemma outbox_enqueue_inv r d c e now :
  outbox_inv r -> outbox_inv (outbox_exec r (OutEnqueue d c e now)).
Proof.
  intros Hr. pose proof (Hr d) as [Hok Hacc]. cbn [outbox_exec].
  unfold Enqueue. fold (outbox_of r d). destruct (ob_overflowed (outbox_of r d)).
  - intros d'. rewrite outbox_of_insert. case_decide as Hd; [by subst|]. apply (Hr d').
  - destruct (_ || _)%bool eqn:Hfull.
    + intros d'. rewrite outbox_of_insert. case_decide as Hd; [|apply (Hr d')]. subst.
      split; [|done]. destruct Hok. by split.
    + zprop. intros d'. rewrite outbox_of_insert. cbn [or_accepted or_sent]. unfold extend.
      case_decide as Hd; [|apply (Hr d')]. subst. split.
      * apply outbox_ok_append; [done|lia|lia].
      * cbn [ob_entries]. rewrite map_app, app_assoc, <- Hacc. done.
Qed.

Lemma flush_loop_split send es :
  es = (flush_loop send es).1 ++ (flush_loop send es).2 :> list (OutboxEntry Envelope).
Proof.
  induction es as [|e es IH]; cbn; [done|]. destruct (send e); [|done].
  destruct (flush_loop send es) as [sent kept]. cbn in *. by rewrite IH at 1.
Qed.

Lemma outbox_ok_suffix ob sent kept :
  outbox_ok ob -> ob_entries ob = sent ++ kept ->
  outbox_ok (mkOutbox kept (sum_with oe_Size kept) (ob_overflowed ob)).
Proof.
  intros [H1 H2 H3 H4] He. rewrite He in *. apply Forall_app in H1 as [Hs Hk].
  rewrite sum_with_app in H2. rewrite length_app in H3.
  pose proof (sum_with_nonneg oe_Size sent Hs). split; cbn; [done|done|lia|lia].
Qed.

Lemma outbox_flush_inv r d send : outbox_inv r -> outbox_inv (outbox_exec r (OutFlush d send)).
Proof.
  intros Hr. pose proof (Hr d) as [Hok Hacc]. cbn [outbox_exec]. unfold Flush.
  destruct (or_state r !! d) as [ob|] eqn:Hd.
  2: { intros d'. cbn [or_accepted or_sent]. unfold extend. cbn [map].
       rewrite app_nil_r. case_decide; apply (Hr d'). }
  assert (outbox_of r d = ob) as Hob by (unfold outbox_of; by rewrite Hd).
  rewrite Hob in Hok, Hacc. pose proof (flush_loop_split send (ob_entries ob)) as Hsplit.
  destruct (flush_loop send (ob_entries ob)) as [sent kept]. cbn [fst snd] in Hsplit.
  assert (forall ob' : DeviceOutbox Envelope, outbox_ok ob' -> ob_entries ob' = kept ->
    outbox_inv (mkOutRun (<[d := ob']> (or_state r)) (or_accepted r)
                  (extend d (map oe_Envelope sent) (or_sent r)))) as Hgen.
  { intros ob' Hok' Hk d'. rewrite outbox_of_insert. cbn [or_accepted or_sent]. unfold extend.
    case_decide as Hdd; [|apply (Hr d')]. subst. split; [done|].
    by rewrite <- app_assoc, <- map_app, <- Hsplit. }
  destruct kept as [|e kept]; [destruct sent; (apply Hgen; [apply outbox_ok_empty|done])|].
  destruct sent as [|e' sent].
  - intros d'. cbn [or_accepted or_sent]. unfold extend. cbn [map]. rewrite app_nil_r.
    case_decide; apply (Hr d').
  - apply Hgen; [|done]. by apply (outbox_ok_suffix ob (e' :: sent)).
Qed.

(** Whatever the order of stores and of complete or interrupted flushes, the
    envelopes a device was sent, followed by those its outbox holds, are exactly
    those it accepted, in order; the outbox never holds more than its frames and
    bytes, and its byte counter is the size of what it holds. *)
Theorem outbox_lossless ops d :
  let r := fold_left outbox_exec ops outbox_start in
  or_accepted r d = or_sent r d ++ map oe_Envelope (ob_entries (outbox_of r d)) /\
  outbox_ok (outbox_of r d).
Proof.
  assert (forall r, outbox_inv r -> outbox_inv (fold_left outbox_exec ops r)) as Hgen.
  { induction ops as [|o ops IH]; intros r Hr; [done|]. cbn. apply IH.
    destruct o; [by apply outbox_enqueue_inv|by apply outbox_flush_inv]. }
  destruct (Hgen outbox_start) with (d := d) as [Hok Hacc]; [|done].
  intros d'. split; [apply outbox_ok_empty|done].
Qed.
End outbox_run.

(** [Drain] hands out the envelopes in the order they were stored, which is not
    the order of their counters when two stores raced. *)
Theorem Drain_unsorted :
  let om := snd (Enqueue (fun _ : unit => 1%nat) "d" 5 tt 0
                   (snd (Enqueue (fun _ : unit => 1%nat) "d" 7 tt 0 ∅))) in
  map oe_Counter (Drain "d" om).1 = [7; 5].
Proof. vm_compute. reflexivity. Qed.

(** ** Pending notifications are the most recent fifty *)

Lemma RecordNotification_suffix d n items :
  exists dropped, default [] (items !! d) ++ [n] =
    dropped ++ default [] (RecordNotification d n items !! d) /\
  (zlen (default [] (items !! d)) <= 50 ->
     zlen (default [] (RecordNotification d n items !! d)) <= 50).
Proof.
  unfold RecordNotification. rewrite lookup_insert_eq. cbn [from_option id].
  set (l := default [] (items !! d) ++ [n]). destruct (zlen l >? 50) eqn:Hl; zprop.
  - exists (take (length l - 50) l). split; [by rewrite take_drop|].
    rewrite length_drop. lia.
  - exists []. split; [done|lia].
Qed.

(** ** Concrete instances *)

Definition obs_state : ObservationManager :=
  SetScope "d" (mkScope "codex" ["pending-1"] "full_stream" false 90 0) 0 NewObservationManager.

Lemma rebind_keeps_stream_witness :
  ShouldSendEvent "d" "codex" "real" "projection_patch" 0
    (snd (RebindSessionID "codex" "pending-1" "real" obs_state)) = true.
Proof.
  destruct (rebind_keeps_stream "codex" "pending-1" "real" obs_state) as (Hfollow & _);
    [repeat split; discriminate|discriminate|discriminate|].
  apply Hfollow. vm_compute. reflexivity.
Defined.
