(* ===== verification/OutboundSink.v ===== *)
(** * The outbound sink of a connection (go-bridge/event_publisher.go)

    One ordered queue per connection between the publisher, which puts frames in
    under its own lock, and the goroutine that writes them. A frame holds one of
    the slots from the moment it is put until its write is over, so the queue and
    the frame being written share the capacity. Besides the code's fields a sink
    carries two histories, of the frames put in the queue and of those written. *)

From S2P Require Import Prelude.
From S2P Require Import Wire.
From S2P Require Import Projection.
From S2P Require Import RelayClass.
From S2P Require Import Broadcaster.

Definition eventOutboundQueueCapacity : Z := 2048.

(** ** Frames *)

(** The payload of the two projection events: a committed patch, or the request to
    pull again. *)
Inductive projection_data : Type :=
| PatchData (p : ProjectionPatch)
| InvalidateData (reason bridgeEpoch : string).

(** The fields of [EventMessage] that a projection event sets. *)
Record projection_event : Type := mkProjectionEvent {
  pe_Type : string;
  pe_Event : string;
  pe_BackendID : string;
  pe_SessionID : string;
  pe_PerSessionSeq : Z;
  pe_BridgeEpoch : string;
  pe_Data : projection_data
}.

Definition projectionPatchEvent (bridgeEpoch backendID sessionID : string)
  (patch : ProjectionPatch) : projection_event :=
  mkProjectionEvent "event" "projection_patch" backendID sessionID (pt_SyncRev patch) bridgeEpoch
    (PatchData patch).

Definition projectionInvalidateEvent (bridgeEpoch backendID sessionID : string)
  : projection_event :=
  mkProjectionEvent "event" "sync_invalidate" backendID sessionID 0 bridgeEpoch
    (InvalidateData "gap" bridgeEpoch).

(** What a frame carries: a control value, an event, a projection event, or the
    result of a request. A snapshot result is annotated with the session and the
    revision of the snapshot it was built from. *)
Inductive frame_content : Type :=
| ControlContent (v : value)
| EventContent (m : EventMessage)
| ProjectionContent (e : projection_event)
| ResultContent (requestID : string) (data : value) (err : option value)
    (backendID sessionID : string) (cutRev : Z).

(** [of_waited]: a caller waits on the frame's channels. *)
Record eventOutboundFrame : Type := mkFrame {
  of_content : frame_content;
  of_waited : bool;
  of_classHint : Z;
  of_classified : bool
}.

Definition event_frame (m : EventMessage) (waited : bool) (class : Z) : eventOutboundFrame :=
  mkFrame (EventContent m) waited class true.
Definition patch_frame (bridgeEpoch backendID sessionID : string) (patch : ProjectionPatch)
  : eventOutboundFrame :=
  mkFrame (ProjectionContent (projectionPatchEvent bridgeEpoch backendID sessionID patch)) false
    (classifyRelayEvent "projection_patch") true.
Definition invalidate_frame (bridgeEpoch backendID sessionID : string) : eventOutboundFrame :=
  mkFrame (ProjectionContent (projectionInvalidateEvent bridgeEpoch backendID sessionID)) false
    relayOutboundControl true.
Definition control_frame (v : value) (waited : bool) : eventOutboundFrame :=
  mkFrame (ControlContent v) waited relayOutboundControl false.
Definition result_frame (requestID : string) (data : value) (err : option value)
  (backendID sessionID : string) (cutRev : Z) : eventOutboundFrame :=
  mkFrame (ResultContent requestID data err backendID sessionID cutRev) true
    relayOutboundControl false.

(** ** The sink *)

Record eventOutboundSink : Type := mkSink {
  sk_queue : list eventOutboundFrame;
  sk_slots : Z;
  sk_stopped : bool;
  sk_writing : option eventOutboundFrame;
  sk_log : list eventOutboundFrame;
  sk_sent : list eventOutboundFrame
}.

Definition newEventOutboundSink : eventOutboundSink := mkSink [] 0 false None [] [].

(** [sink.slots <- struct{}{}; sink.queue <- frame] *)
Definition put_frame (f : eventOutboundFrame) (s : eventOutboundSink) : eventOutboundSink :=
  mkSink (sk_queue s ++ [f]) (sk_slots s + 1) (sk_stopped s) (sk_writing s) (sk_log s ++ [f])
    (sk_sent s).

Definition free_slots (s : eventOutboundSink) : Z := eventOutboundQueueCapacity - sk_slots s.

Inductive EnqueueFailure : Type := FailNone | FailConnClosed | FailSinkStopped | FailQueueFull.

(** [tryEnqueue]: accepted or not, why, and the frames queued. *)
Definition tryEnqueue (isClosed : bool) (f : eventOutboundFrame) (s : eventOutboundSink)
  : (bool * EnqueueFailure * Z) * eventOutboundSink :=
  if isClosed then ((false, FailConnClosed, zlen (sk_queue s)), s)
  else if sk_stopped s then ((false, FailSinkStopped, zlen (sk_queue s)), s)
  else if sk_slots s <? eventOutboundQueueCapacity
  then let s := put_frame f s in ((true, FailNone, zlen (sk_queue s)), s)
  else ((false, FailQueueFull, zlen (sk_queue s)), s).

Definition sink_close (s : eventOutboundSink) : eventOutboundSink :=
  mkSink (sk_queue s) (sk_slots s) true (sk_writing s) (sk_log s) (sk_sent s).

(** [run] takes the next frame: one of a closed connection is dropped. *)
Definition run_take (isClosed : bool) (s : eventOutboundSink) : eventOutboundSink :=
  match sk_writing s, sk_queue s with
  | None, f :: rest =>
      if isClosed
      then mkSink rest (sk_slots s - 1) (sk_stopped s) None (sk_log s) (sk_sent s)
      else mkSink rest (sk_slots s) (sk_stopped s) (Some f) (sk_log s) (sk_sent s)
  | _, _ => s
  end.

(** The write is over: the frame's slot is given back. *)
Definition run_written (s : eventOutboundSink) : eventOutboundSink :=
  match sk_writing s with
  | Some f => mkSink (sk_queue s) (sk_slots s - 1) (sk_stopped s) None (sk_log s) (sk_sent s ++ [f])
  | None => s
  end.

(** [case <-s.stop]: what is queued is dropped without a write. *)
Definition run_drain (s : eventOutboundSink) : eventOutboundSink :=
  match sk_writing s with
  | None =>
      if sk_stopped s
      then mkSink [] (sk_slots s - zlen (sk_queue s)) true None (sk_log s) (sk_sent s)
      else s
  | Some _ => s
  end.

(** ** What a sink keeps *)

(** The slots in use are the frames not yet written, within the capacity. *)
Record sink_ok (s : eventOutboundSink) : Prop := {
  so_slots : sk_slots s = zlen (sk_queue s) + match sk_writing s with Some _ => 1 | None => 0 end;
  so_bound : sk_slots s <= eventOutboundQueueCapacity
}.

Lemma sink_ok_new : sink_ok newEventOutboundSink.
Proof. split; cbn; [done|unfold eventOutboundQueueCapacity; lia]. Qed.

Lemma sink_ok_put f s : sink_ok s -> 0 < free_slots s -> sink_ok (put_frame f s).
Proof.
  unfold free_slots. intros [H1 H2] Hf. split; cbn; [|lia]. rewrite length_app. cbn. lia.
Qed.

(** The sink after some frames were put. *)
Definition put_frames (fs : list eventOutboundFrame) (s : eventOutboundSink) : eventOutboundSink :=
  fold_left (fun s f => put_frame f s) fs s.

Lemma put_frames_app fs gs s : put_frames (fs ++ gs) s = put_frames gs (put_frames fs s).
Proof. apply fold_left_app. Qed.

Lemma put_frames_log fs s : sk_log (put_frames fs s) = sk_log s ++ fs.
Proof.
  revert s. induction fs as [|f fs IH]; intros s; cbn; [by rewrite app_nil_r|].
  rewrite IH. cbn. by rewrite <- app_assoc.
Qed.

Lemma put_frames_slots fs s : sk_slots (put_frames fs s) = sk_slots s + zlen fs.
Proof. revert s. induction fs as [|f fs IH]; intros s; cbn; [lia|]. rewrite IH. cbn. lia. Qed.

Lemma put_frames_stopped fs s : sk_stopped (put_frames fs s) = sk_stopped s.
Proof. revert s. induction fs as [|f fs IH]; intros s; cbn; [done|]. by rewrite IH. Qed.

Lemma tryEnqueue_ok s closed f :
  sink_ok s -> sink_ok (snd (tryEnqueue closed f s)).
Proof.
  intros Hs. unfold tryEnqueue. destruct closed, (sk_stopped s); try done.
  destruct (sk_slots s <? _) eqn:Hfull; [|done]. zprop. apply sink_ok_put; [done|].
  unfold free_slots. lia.
Qed.

(** Room and an open connection are enough. *)
Lemma tryEnqueue_room s f :
  sk_stopped s = false -> 0 < free_slots s ->
  tryEnqueue false f s = ((true, FailNone, zlen (sk_queue s ++ [f])), put_frame f s).
Proof.
  unfold free_slots. intros Hs Hf. unfold tryEnqueue. rewrite Hs.
  by rewrite (proj2 (Z.ltb_lt _ _)) by lia.
Qed.

(** What [tryEnqueue] does to the log: it puts the frame or leaves the sink. *)
Lemma tryEnqueue_cases s closed f :
  (fst (tryEnqueue closed f s)).1.1 = true /\ closed = false /\
    snd (tryEnqueue closed f s) = put_frame f s \/
  (fst (tryEnqueue closed f s)).1.1 = false /\ snd (tryEnqueue closed f s) = s.
Proof.
  unfold tryEnqueue. destruct closed; [by right|]. destruct (sk_stopped s); [by right|].
  destruct (_ <? _); [by left|by right].
Qed.

(** The steps of the goroutine. *)
Inductive sink_step (isClosed : bool) : eventOutboundSink -> eventOutboundSink -> Prop :=
| step_take s : sink_step isClosed s (run_take isClosed s)
| step_written s : sink_step isClosed s (run_written s)
| step_drain s : sink_step isClosed s (run_drain s).

Lemma sink_step_ok isClosed s s' :
  sink_step isClosed s s' -> sink_ok s ->
  sink_ok s' /\ sk_log s' = sk_log s /\ sk_stopped s' = sk_stopped s /\ sk_slots s' <= sk_slots s.
Proof.
  intros Hstep Hok. pose proof Hok as [H1 H2].
  assert (sink_ok s /\ sk_log s = sk_log s /\ sk_stopped s = sk_stopped s /\
    sk_slots s <= sk_slots s) as Hsame by (split_and!; [done|done|done|lia]).
  inversion Hstep; subst; clear Hstep.
  - unfold run_take. destruct (sk_writing s) eqn:Hw; [exact Hsame|].
    destruct (sk_queue s) as [|f rest] eqn:Hq; [exact Hsame|]. cbn in H1.
    destruct isClosed; split_and!; try done; cbn; try lia; split; cbn; lia.
  - unfold run_written. destruct (sk_writing s) eqn:Hw; [|exact Hsame].
    split_and!; try done; cbn; try lia; split; cbn; lia.
  - unfold run_drain. destruct (sk_writing s) eqn:Hw; [exact Hsame|].
    destruct (sk_stopped s) eqn:Hst; [|by split_and!; [done|done|done|lia]].
    split_and!; try done; cbn; try lia; split; cbn; lia.
Qed.

(** The frames of an open connection are written in the order they were put, each
    once, none skipped. *)
Definition in_order (s : eventOutboundSink) : Prop :=
  sk_log s = sk_sent s ++ match sk_writing s with Some f => [f] | None => [] end ++ sk_queue s.

Lemma in_order_put f s : in_order s -> in_order (put_frame f s).
Proof. unfold in_order. cbn. intros ->. by rewrite <- !app_assoc. Qed.

Inductive sink_action : Type :=
| ActEnqueue (f : eventOutboundFrame)
| ActTake
| ActWritten.

Definition sink_exec (s : eventOutboundSink) (a : sink_action) : eventOutboundSink :=
  match a with
  | ActEnqueue f => snd (tryEnqueue false f s)
  | ActTake => run_take false s
  | ActWritten => run_written s
  end.

(** While a connection is open, whatever the interleaving of the publisher and of
    the writing goroutine, the frames written are a prefix of those put in the
    queue, in order and without a hole, the rest being in flight or queued; the
    slots in use count exactly that rest, within the capacity. *)
Theorem sink_in_order acts :
  let s := fold_left sink_exec acts newEventOutboundSink in in_order s /\ sink_ok s.
Proof.
  assert (forall s, in_order s /\ sink_ok s ->
    let s' := fold_left sink_exec acts s in in_order s' /\ sink_ok s') as Hgen.
  { induction acts as [|a acts IH]; intros s [Ho Hok]; [done|]. cbn. apply IH.
    destruct a as [f| |]; cbn [sink_exec].
    - split; [|by apply tryEnqueue_ok].
      destruct (tryEnqueue_cases s false f) as [(_ & _ & ->)|(_ & ->)]; [by apply in_order_put|done].
    - split; [|by apply (sink_step_ok false s); [constructor|]].
      unfold run_take. destruct (sk_writing s) eqn:Hw; [done|].
      destruct (sk_queue s) as [|f rest] eqn:Hq; [done|].
      unfold in_order in *. rewrite Hw, Hq in Ho. done.
    - split; [|by apply (sink_step_ok false s); [constructor|]].
      unfold run_written. destruct (sk_writing s) eqn:Hw; [|done].
      unfold in_order in *. rewrite Hw in Ho. cbn. rewrite Ho. by rewrite <- app_assoc. }
  apply Hgen. split; [done|apply sink_ok_new].
Qed.
