(* ===== verification/Publisher.v ===== *)
(** * The event publisher: state, connections and projection delivery
    (go-bridge/event_publisher.go, projection_delivery.go, projection_snapshot_fence.go)

    The process-scoped owner of ordered publication. This file models its state,
    the registration and capabilities of connections, and the delivery of
    committed projection patches: the snapshot fences that hold patches back while
    a pull is answered, the revision each connection has been brought to, and the
    routing of detail commits. Every operation runs under the publisher's lock, so
    each is one step. The reducer behind the kernel is an interface, [ProjectionHead];
    the JSON encoding of a patch and the device of a connection are parameters. A
    call of [conn.Close()], which the code makes after the lock is released, is the
    connection's entry in [closing]; the connection is in [closedConns] from the
    moment its [isClosed] answers true. *)

From S2P Require Import Prelude.
From S2P Require Import GoText.
From S2P Require Import Wire.
From S2P Require Import EventBuffer.
From S2P Require Import Projection.
From S2P Require Import RevisionJournal.
From S2P Require Import LiveFrameBuffer.
From S2P Require Import RelayClass.
From S2P Require Import ReducerParts.
From S2P Require Import Reducer.
From S2P Require Import ReducerPatch.
From S2P Require Import ReducerSize.
From S2P Require Import TurnDetail.
From S2P Require Import Kernel.
From S2P Require Import Broadcaster.
From S2P Require Import Observation.
From S2P Require Import OutboundSink.

Definition recoveryPendingMaxEvents : Z := 1000.
Definition recoveryPendingMaxBytes : Z := Z.shiftl 2 20.
Definition recoveryPendingTimeout : Z := 30 * second.
Definition projectionFenceMaxPatches : Z := 128.
Definition projectionFenceMaxBytes : Z := Z.shiftl 2 20.
Definition projectionNoObserverDropThreshold : Z := Z.shiftl 256 10.
Definition rebindAttemptCooldown : Z := second.
Definition projectionMaxBytesDefault : Z := Z.shiftl 50 20.

(** ** The reducer the publisher flushes *)

(** What the publisher asks of the kernel, or of the bare reducer when no kernel is
    set: the per-session number of an event, the ingestion of an event, the
    committed snapshot, the pending patch and its size. *)
Class ProjectionHead (K : Type) : Type := {
  head_is_kernel : bool;
  head_issue : string -> string -> K -> Z * K;
  head_ingest : Z -> EventMessage -> K -> ProjectionIngestResult * K;
  head_snapshot : string -> string -> K -> option SessionProjection;
  head_flush : string -> string -> K -> option ProjectionPatch * K;
  head_exceeds : string -> string -> Z -> K -> bool * K;
  head_drop : string -> string -> K -> bool * K
}.

Section heads.
Context (event_attachments : value -> list ProjectionAttachment)
  (part_blocks : value -> list ProjectionPart).

(** The kernel, with the reducer it shares with the publisher. *)
#[export] Instance kernel_head : ProjectionHead ProjectionKernel := {|
  head_is_kernel := true;
  head_issue := IssueSessionSeq;
  head_ingest now msg k :=
    let '((res, _), k) := IngestLive event_attachments part_blocks now msg k in (res, k);
  head_snapshot := KernelSnapshot;
  head_flush := FlushProjectionPatch;
  head_exceeds bk s limit k :=
    let '(big, r) := PendingPatchExceeds bk s limit (k_reducer k) in (big, set_k_reducer r k);
  head_drop bk s k :=
    let '(dropped, r) := DropPendingPatch bk s (k_reducer k) in (dropped, set_k_reducer r k)
|}.

(** Without a kernel: the publisher numbers the events itself and applies them to its
    reducer; there is no committed snapshot. *)
#[export] Instance reducer_head : ProjectionHead (gmap string Z * ProjectionReducer) := {|
  head_is_kernel := false;
  head_issue bk s k :=
    let key := nul_key bk s in
    let n := k.1 !!0 key + 1 in (n, (<[key := n]> k.1, k.2));
  head_ingest now msg k :=
    let before := LastAppliedRev (BackendID msg) (SessionID msg) k.2 in
    let r := Apply event_attachments part_blocks msg now k.2 in
    (if LastAppliedRev (BackendID msg) (SessionID msg) r =? before
     then ProjectionIngestNoChange else ProjectionIngestApplied, (k.1, r));
  head_snapshot _ _ _ := None;
  head_flush bk s k := let '(p, r) := FlushPatch bk s k.2 in (p, (k.1, r));
  head_exceeds bk s limit k :=
    let '(big, r) := PendingPatchExceeds bk s limit k.2 in (big, (k.1, r));
  head_drop bk s k := let '(dropped, r) := DropPendingPatch bk s k.2 in (dropped, (k.1, r))
|}.
End heads.

(** ** State *)

(** The capabilities negotiated in hello: one map of marked connections each. *)
Inductive ConnCapability : Type :=
| CapSyncV2
| CapSessionStateEventsV1
| CapProjectionEpochMismatch
| CapReadFileV2
| CapCatalogCursorEpochV2
| CapProjectionWindowV1
| CapProjectionWindowV2
| CapProjectionAnchorNewerV1
| CapProjectionWindowScalarV1
| CapTurnDetailV1
| CapTurnDetailChunksV1.

#[export] Instance ConnCapability_eq_dec : EqDecision ConnCapability.
Proof. solve_decision. Defined.

Definition cap_index (c : ConnCapability) : nat :=
  match c with
  | CapSyncV2 => 0 | CapSessionStateEventsV1 => 1 | CapProjectionEpochMismatch => 2
  | CapReadFileV2 => 3 | CapCatalogCursorEpochV2 => 4 | CapProjectionWindowV1 => 5
  | CapProjectionWindowV2 => 6 | CapProjectionAnchorNewerV1 => 7
  | CapProjectionWindowScalarV1 => 8 | CapTurnDetailV1 => 9 | CapTurnDetailChunksV1 => 10
  end%nat.

Definition all_caps : list ConnCapability :=
  [CapSyncV2; CapSessionStateEventsV1; CapProjectionEpochMismatch; CapReadFileV2;
   CapCatalogCursorEpochV2; CapProjectionWindowV1; CapProjectionWindowV2;
   CapProjectionAnchorNewerV1; CapProjectionWindowScalarV1; CapTurnDetailV1;
   CapTurnDetailChunksV1].

#[export] Instance ConnCapability_countable : Countable ConnCapability.
Proof. refine (inj_countable cap_index (fun n => all_caps !! n) _). by intros []. Defined.

Inductive ProjectionDeliveryMode : Type := ProjectionDeliveryWindow | ProjectionDeliveryFull.

#[export] Instance ProjectionDeliveryMode_eq_dec : EqDecision ProjectionDeliveryMode.
Proof. solve_decision. Defined.

(** [projectionFenceKey]: connection, backend, session. *)
Abbreviation projectionFenceKey := (Connection * string * string)%type.

Definition fence_key (conn : Connection) (backendID sessionID : string) : projectionFenceKey :=
  (conn, backendID, sessionID).

(** [decide]: content or no-op is chosen when the fence completes. *)
Record projectionFencePendingPatch : Type := mkPendingPatch {
  fp_patch : ProjectionPatch;
  fp_decide : bool
}.

Record projectionSnapshotFence : Type := mkFence {
  fe_id : Z;
  fe_generation : Z;
  fe_cutRev : Z;
  fe_expectedRev : Z;
  fe_pending : list projectionFencePendingPatch;
  fe_pendingBytes : Z;
  fe_invalidated : bool
}.

(** [ProjectionSnapshotAdmission]: one pull fence on one connection. *)
Record ProjectionSnapshotAdmission : Type := mkSnapshotAdmission {
  ad_BridgeEpoch : string;
  ad_ConnectionGeneration : Z;
  ad_BackendID : string;
  ad_SessionID : string;
  ad_CutRev : Z;
  ad_fenceID : Z
}.

(** [BridgeSessionCutMap]: a cut per backend and session. *)
Abbreviation BridgeSessionCutMap := (gmap string (gmap string BridgeSessionCut)).

Record publisherRecovery : Type := mkRecovery {
  rc_recoveryID : string;
  rc_pending : list EventMessage;
  rc_pendingBytes : Z;
  rc_startedAt : Z;
  rc_cutBySession : option BridgeSessionCutMap
}.

Section publisher.
Context {K : Type} `{!ProjectionHead K}.

(** [ep_head] is the kernel and the reducer; the last two fields are the
    connections, and not the publisher's. *)
Record EventPublisher : Type := mkPublisher {
  bridgeEpoch : string;
  ep_seq : Z;
  sinks : gmap Connection eventOutboundSink;
  offlineQueue : list EventMessage;
  recoveries : gmap Connection publisherRecovery;
  ep_buffer : EventBuffer;
  liveBuffer : LiveFrameBuffer;
  completed : gmap Connection string;
  caps : gmap ConnCapability (gset Connection);
  projectionMaxBytes : gmap Connection Z;
  nextConnectionGeneration : Z;
  connectionGenerations : gmap Connection Z;
  nextProjectionFenceID : Z;
  projectionFences : gmap projectionFenceKey projectionSnapshotFence;
  projectionSnapshotCuts : gmap projectionFenceKey Z;
  projectionDeliveryModes : gmap Connection (gmap string ProjectionDeliveryMode);
  projectionHeldTurns : gmap Connection (gmap string (gset string));
  projectionInvalidated : gset projectionFenceKey;
  projectionJournal : ProjectionRevisionJournal;
  rebindLastAttempt : gmap string Z;
  broadcaster : option Broadcaster;
  observation : option ObservationManager;
  ep_head : K;
  closedConns : gset Connection;
  closing : gset Connection
}.

Definition publisher_eta (p : EventPublisher) : EventPublisher :=
  mkPublisher (bridgeEpoch p) (ep_seq p) (sinks p) (offlineQueue p) (recoveries p) (ep_buffer p)
    (liveBuffer p) (completed p) (caps p) (projectionMaxBytes p) (nextConnectionGeneration p) (connectionGenerations p)
    (nextProjectionFenceID p) (projectionFences p) (projectionSnapshotCuts p) (projectionDeliveryModes p) (projectionHeldTurns p) (projectionInvalidated p)
    (projectionJournal p) (rebindLastAttempt p) (broadcaster p) (observation p) (ep_head p) (closedConns p)
    (closing p).
Definition set_ep_seq (v : Z) (p : EventPublisher) : EventPublisher :=
  ltac:(setter publisher_eta ep_seq v p).
Definition set_sinks (v : gmap Connection eventOutboundSink) (p : EventPublisher) : EventPublisher :=
  ltac:(setter publisher_eta sinks v p).
Definition set_offlineQueue (v : list EventMessage) (p : EventPublisher) : EventPublisher :=
  ltac:(setter publisher_eta offlineQueue v p).
Definition set_recoveries (v : gmap Connection publisherRecovery) (p : EventPublisher) : EventPublisher :=
  ltac:(setter publisher_eta recoveries v p).
Definition set_ep_buffer (v : EventBuffer) (p : EventPublisher) : EventPublisher :=
  ltac:(setter publisher_eta ep_buffer v p).
Definition set_liveBuffer (v : LiveFrameBuffer) (p : EventPublisher) : EventPublisher :=
  ltac:(setter publisher_eta liveBuffer v p).
Definition set_completed (v : gmap Connection string) (p : EventPublisher) : EventPublisher :=
  ltac:(setter publisher_eta completed v p).
Definition set_caps (v : gmap ConnCapability (gset Connection)) (p : EventPublisher) : EventPublisher :=
  ltac:(setter publisher_eta caps v p).
Definition set_projectionMaxBytes (v : gmap Connection Z) (p : EventPublisher) : EventPublisher :=
  ltac:(setter publisher_eta projectionMaxBytes v p).
Definition set_nextConnectionGeneration (v : Z) (p : EventPublisher) : EventPublisher :=
  ltac:(setter publisher_eta nextConnectionGeneration v p).
Definition set_connectionGenerations (v : gmap Connection Z) (p : EventPublisher) : EventPublisher :=
  ltac:(setter publisher_eta connectionGenerations v p).
Definition set_nextProjectionFenceID (v : Z) (p : EventPublisher) : EventPublisher :=
  ltac:(setter publisher_eta nextProjectionFenceID v p).
Definition set_projectionFences (v : gmap projectionFenceKey projectionSnapshotFence) (p : EventPublisher) : EventPublisher :=
  ltac:(setter publisher_eta projectionFences v p).
Definition set_projectionSnapshotCuts (v : gmap projectionFenceKey Z) (p : EventPublisher) : EventPublisher :=
  ltac:(setter publisher_eta projectionSnapshotCuts v p).
Definition set_projectionDeliveryModes (v : gmap Connection (gmap string ProjectionDeliveryMode)) (p : EventPublisher) : EventPublisher :=
  ltac:(setter publisher_eta projectionDeliveryModes v p).
Definition set_projectionHeldTurns (v : gmap Connection (gmap string (gset string))) (p : EventPublisher) : EventPublisher :=
  ltac:(setter publisher_eta projectionHeldTurns v p).
Definition set_projectionInvalidated (v : gset projectionFenceKey) (p : EventPublisher) : EventPublisher :=
  ltac:(setter publisher_eta projectionInvalidated v p).
Definition set_projectionJournal (v : ProjectionRevisionJournal) (p : EventPublisher) : EventPublisher :=
  ltac:(setter publisher_eta projectionJournal v p).
Definition set_rebindLastAttempt (v : gmap string Z) (p : EventPublisher) : EventPublisher :=
  ltac:(setter publisher_eta rebindLastAttempt v p).
Definition set_broadcaster (v : option Broadcaster) (p : EventPublisher) : EventPublisher :=
  ltac:(setter publisher_eta broadcaster v p).
Definition set_observation (v : option ObservationManager) (p : EventPublisher) : EventPublisher :=
  ltac:(setter publisher_eta observation v p).
Definition set_ep_head (v : K) (p : EventPublisher) : EventPublisher :=
  ltac:(setter publisher_eta ep_head v p).
Definition set_closedConns (v : gset Connection) (p : EventPublisher) : EventPublisher :=
  ltac:(setter publisher_eta closedConns v p).
Definition set_closing (v : gset Connection) (p : EventPublisher) : EventPublisher :=
  ltac:(setter publisher_eta closing v p).

Definition NewEventPublisher (epoch : string) (b : option Broadcaster) (head : K)
  : EventPublisher :=
  mkPublisher epoch 0 ∅ [] ∅ (NewEventBuffer (EventBuffer.mkConfig 0 0 0)) NewLiveFrameBuffer ∅ ∅ ∅
    0 ∅ 0 ∅ ∅ ∅ ∅ ∅ (NewProjectionRevisionJournal 0 0 []) ∅ b None head ∅ ∅.

Definition BridgeEpoch_of (p : EventPublisher) : string := bridgeEpoch p.
Definition SetObservationManager (o : option ObservationManager) (p : EventPublisher)
  : EventPublisher := set_observation o p.

Definition conn_isClosed (conn : Connection) (p : EventPublisher) : bool :=
  bool_decide (conn ∈ closedConns p).

(** [conn.Close()] is due. *)
Definition close_conn (conn : Connection) (p : EventPublisher) : EventPublisher :=
  set_closing ({[conn]} ∪ closing p) p.

(** ** Connections and sinks *)

Definition sink_of (conn : Connection) (p : EventPublisher) : eventOutboundSink :=
  default newEventOutboundSink (sinks p !! conn).

Definition put_sink (conn : Connection) (s : eventOutboundSink) (p : EventPublisher)
  : EventPublisher := set_sinks (<[conn := s]> (sinks p)) p.

Definition sinkLocked (conn : Connection) (p : EventPublisher) : EventPublisher :=
  put_sink conn (sink_of conn p) p.

Definition registerConnectionLocked (conn : Connection) (p : EventPublisher)
  : Z * EventPublisher :=
  let generation := connectionGenerations p !!0 conn in
  if negb (generation =? 0) then (generation, p)
  else
    let generation := nextConnectionGeneration p + 1 in
    (generation,
     set_connectionGenerations (<[conn := generation]> (connectionGenerations p))
       (set_nextConnectionGeneration generation p)).

Definition RegisterConnection (conn : Connection) (p : EventPublisher) : EventPublisher :=
  sinkLocked conn (snd (registerConnectionLocked conn p)).

Definition ConnectionGeneration (conn : Connection) (p : EventPublisher) : option Z :=
  connectionGenerations p !! conn.

Definition ActiveRecoveryID (conn : Connection) (p : EventPublisher) : string :=
  match recoveries p !! conn with Some r => rc_recoveryID r | None => "" end.

Definition not_of (conn : Connection) {A : Type} (kv : projectionFenceKey * A) : Prop :=
  kv.1.1.1 <> conn.

#[export] Instance not_of_dec conn A (kv : projectionFenceKey * A) : Decision (not_of conn kv).
Proof. unfold not_of. apply _. Defined.

(** The sink is taken out with what it queued: its goroutine drains it without I/O. *)
Definition UnregisterConnection (conn : Connection) (p : EventPublisher) : EventPublisher :=
  mkPublisher (bridgeEpoch p) (ep_seq p) (delete conn (sinks p)) (offlineQueue p)
    (delete conn (recoveries p)) (ep_buffer p) (liveBuffer p) (delete conn (completed p))
    ((fun s : gset Connection => s ∖ {[conn]}) <$> caps p) (delete conn (projectionMaxBytes p))
    (nextConnectionGeneration p) (delete conn (connectionGenerations p))
    (nextProjectionFenceID p)
    (filter (not_of conn) (projectionFences p)) (filter (not_of conn) (projectionSnapshotCuts p))
    (delete conn (projectionDeliveryModes p)) (delete conn (projectionHeldTurns p))
    (filter (fun key : projectionFenceKey => key.1.1 <> conn) (projectionInvalidated p))
    (projectionJournal p) (rebindLastAttempt p) (broadcaster p) (observation p) (ep_head p)
    (closedConns p) (closing p).

(** [sink.tryEnqueue] on the connection's sink. *)
Definition enqueue (conn : Connection) (f : eventOutboundFrame) (p : EventPublisher)
  : (bool * EnqueueFailure * Z) * EventPublisher :=
  let '(answer, s) := tryEnqueue (conn_isClosed conn p) f (sink_of conn p) in
  (answer, put_sink conn s p).

(** [EnqueueControl]: the frame, or a timeout when no slot is freed, after which the
    connection is closed. The wait for the write, of the callers that ask for it,
    is [EnqueueControl_timeout]. *)
Definition EnqueueControl (conn : Connection) (frame : value) (wait : bool) (p : EventPublisher)
  : bool * EventPublisher :=
  let s := sink_of conn p in
  if 0 <? free_slots s then (true, put_sink conn (put_frame (control_frame frame wait) s) p)
  else (false, close_conn conn (put_sink conn s p)).

Definition EnqueueControl_timeout (conn : Connection) (p : EventPublisher) : EventPublisher :=
  close_conn conn p.

(** ** Capabilities *)

Definition SetConn (cap : ConnCapability) (conn : Connection) (enabled : bool)
  (p : EventPublisher) : EventPublisher :=
  set_caps ((if enabled then add_at else remove_at) cap conn (caps p)) p.

Definition ConnHas (cap : ConnCapability) (conn : Connection) (p : EventPublisher) : bool :=
  bool_decide (conn ∈ set_at (caps p) cap).

Definition SetConnSessionStateEvents := SetConn CapSessionStateEventsV1.
Definition SetConnSyncV2 := SetConn CapSyncV2.
Definition SetConnProjectionEpoch (conn : Connection) (lastBridgeEpoch : string)
  (p : EventPublisher) : EventPublisher :=
  SetConn CapProjectionEpochMismatch conn
    (bool_decide (lastBridgeEpoch <> "" /\ lastBridgeEpoch <> bridgeEpoch p)) p.
Definition ConnSyncV2 := ConnHas CapSyncV2.
Definition SetConnReadFileV2 := SetConn CapReadFileV2.
Definition ConnReadFileV2 := ConnHas CapReadFileV2.
Definition SetConnCatalogCursorEpochV2 := SetConn CapCatalogCursorEpochV2.
Definition ConnCatalogCursorEpochV2 := ConnHas CapCatalogCursorEpochV2.
Definition SetConnProjectionWindowV1 := SetConn CapProjectionWindowV1.
Definition ConnProjectionWindowV1 := ConnHas CapProjectionWindowV1.
Definition SetConnProjectionWindowV2 := SetConn CapProjectionWindowV2.
Definition ConnProjectionWindowV2 := ConnHas CapProjectionWindowV2.
Definition SetConnAnchorNewerV1 := SetConn CapProjectionAnchorNewerV1.
Definition ConnAnchorNewerV1 := ConnHas CapProjectionAnchorNewerV1.
Definition SetConnProjectionWindowScalarV1 := SetConn CapProjectionWindowScalarV1.
Definition ConnProjectionWindowScalarV1 := ConnHas CapProjectionWindowScalarV1.
Definition SetConnTurnDetailV1 := SetConn CapTurnDetailV1.
Definition ConnTurnDetailV1 := ConnHas CapTurnDetailV1.
Definition SetConnTurnDetailChunksV1 := SetConn CapTurnDetailChunksV1.
Definition ConnTurnDetailChunksV1 := ConnHas CapTurnDetailChunksV1.

Definition SetConnProjectionMaxBytes (conn : Connection) (granted : Z) (p : EventPublisher)
  : EventPublisher := set_projectionMaxBytes (<[conn := granted]> (projectionMaxBytes p)) p.

Definition ProjectionMaxBytes (conn : Connection) (p : EventPublisher) : Z :=
  match projectionMaxBytes p !! conn with
  | Some v => if v >? 0 then v else projectionMaxBytesDefault
  | None => projectionMaxBytesDefault
  end.

(** [PublishTurnDetailChunk]: a frame of the given type on the control queue of a
    connection that negotiated the chunks. *)
Definition PublishTurnDetailChunk (conn : Connection) (frameType : string) (frame : value)
  (p : EventPublisher) : bool * EventPublisher :=
  if negb (bool_decide (frameType = "turn_detail_chunk")) || negb (ConnTurnDetailChunksV1 conn p)
  then (false, p)
  else EnqueueControl conn frame false p.

(** ** Which raw events a connection is sent *)

Definition isSessionSyncV2RawTimelineEvent (event : string) : bool :=
  one_of event
    ["turn_started"; "turn_completed"; "user_message"; "system_message"; "user_message_removed";
     "text_delta"; "message_updated"; "message_content"; "reasoning_delta"; "thinking_delta";
     "tool_started"; "tool_finished"; "tool_content"; "permission_request";
     "permission_resolved"; "permission_asked"; "context_compressing"; "context_compressed";
     "session_state_changed"; "session_running_signal"; "delivery_reconcile_required";
     "session_command"; "session_plan_mode"; "session_goal"; "session_collaboration_mode";
     "session_goal_record"; "context_injection"; "workflow_run"; "error"].

Definition isProjectionOnlyCanonicalEvent (event : string) : bool :=
  one_of event ["user_input_requested"; "user_input_resolved"; "user_input_submitted"].

Definition isDerivedLegacyQuestionEvent (event : string) : bool :=
  one_of event ["question_asked"; "question_resolved"].

Definition shouldDeliverRawEventLocked (conn : Connection) (backendID sessionID event : string)
  (p : EventPublisher) : bool :=
  let scoped := negb (bool_decide (backendID = "")) && negb (bool_decide (sessionID = "")) in
  if scoped && isProjectionOnlyCanonicalEvent event then false
  else if scoped && isDerivedLegacyQuestionEvent event && ConnSyncV2 conn p then false
  else if bool_decide (event = "session_state_changed") && ConnHas CapSessionStateEventsV1 conn p
  then true
  else negb (ConnSyncV2 conn p) || bool_decide (backendID = "") || bool_decide (sessionID = "")
       || negb (isSessionSyncV2RawTimelineEvent event).

(** ** Delivery modes and held turns *)

Definition projectionDeliveryKey (backendID sessionID : string) : string :=
  backendID +:+ "|" +:+ sessionID.

Definition SetConnProjectionDeliveryMode (conn : Connection) (backendID sessionID : string)
  (mode : ProjectionDeliveryMode) (p : EventPublisher) : EventPublisher :=
  let modes := default ∅ (projectionDeliveryModes p !! conn) in
  set_projectionDeliveryModes
    (<[conn := <[projectionDeliveryKey backendID sessionID := mode]> modes]>
       (projectionDeliveryModes p)) p.

Definition connDeliveryModeLocked (conn : Connection) (backendID sessionID : string)
  (p : EventPublisher) : ProjectionDeliveryMode :=
  default ProjectionDeliveryFull
    (projectionDeliveryModes p !! conn ≫= (!!) (projectionDeliveryKey backendID sessionID)).

Definition recordConnWindowTurnsLocked (conn : Connection) (backendID sessionID : string)
  (turnIDs : list string) (p : EventPublisher) : EventPublisher :=
  let key := projectionDeliveryKey backendID sessionID in
  let per := default ∅ (projectionHeldTurns p !! conn) in
  let held := default ∅ (per !! key) in
  let held := held ∪ list_to_set (filter (fun id => id <> "") turnIDs) in
  set_projectionHeldTurns (<[conn := <[key := held]> per]> (projectionHeldTurns p)) p.

Definition RecordConnWindowTurns (conn : Connection) (backendID sessionID : string)
  (turnIDs : list string) (p : EventPublisher) : EventPublisher :=
  match turnIDs with
  | [] => p
  | _ => recordConnWindowTurnsLocked conn backendID sessionID turnIDs p
  end.

Definition clearConnWindowTurnsLocked (conn : Connection) (backendID sessionID : string)
  (p : EventPublisher) : EventPublisher :=
  set_projectionHeldTurns
    (alter (delete (projectionDeliveryKey backendID sessionID)) conn (projectionHeldTurns p)) p.

Definition ClearConnWindowTurns := clearConnWindowTurnsLocked.

(** The turns a connection holds of a session. *)
Definition held_turns (conn : Connection) (backendID sessionID : string) (p : EventPublisher)
  : gset string :=
  default ∅ (projectionHeldTurns p !! conn ≫= (!!) (projectionDeliveryKey backendID sessionID)).

Definition connHoldsAnyTurnLocked (conn : Connection) (backendID sessionID : string)
  (turnIDs : list string) (p : EventPublisher) : bool :=
  existsb (fun id => bool_decide (id ∈ held_turns conn backendID sessionID p)) turnIDs.

(** [add] on the ids in order: the empty and the repeated ones are skipped. *)
Definition patchTurnIDs (patch : ProjectionPatch) : list string :=
  dedup ∅ (map ts_TurnID (pt_TurnStateOps patch) ++ map po_TurnID (pt_PartOps patch)
             ++ map tp_TurnID (pt_UpsertTurns patch)).

(** ** Projection delivery *)

Section delivery.
(** [json.Marshal] of a patch ([None]: an error), and the device a connection is
    authenticated for. *)
Context (marshal : ProjectionPatch -> option nat) (AuthedDevice : Connection -> option string).

(** [recordProjectionPatchLocked]; the index panic of the journal never happens
    (a well-formed journal always answers, [RevisionJournal.Record_spec]). *)
Definition recordProjectionPatchLocked (backendID sessionID : string) (patch : ProjectionPatch)
  (now : Z) (p : EventPublisher) : EventPublisher :=
  match Record_ marshal backendID sessionID patch now (projectionJournal p) with
  | Some (_, j) => set_projectionJournal j p
  | None => p
  end.

(** [enqueueProjectionInvalidateLocked]: a connection told to pull again holds no turns. *)
Definition enqueueProjectionInvalidateLocked (conn : Connection) (backendID sessionID : string)
  (p : EventPublisher) : EventPublisher :=
  let p := clearConnWindowTurnsLocked conn backendID sessionID p in
  snd (enqueue conn (invalidate_frame (bridgeEpoch p) backendID sessionID) p).

Definition encoded_length (patch : ProjectionPatch) : Z := Z.of_nat (default 0%nat (marshal patch)).

Definition invalid_fence (f : projectionSnapshotFence) : projectionSnapshotFence :=
  mkFence (fe_id f) (fe_generation f) (fe_cutRev f) (fe_expectedRev f) [] 0 true.

(** [appendFencePatchLocked] on the fence. *)
Definition appendFencePatch (patch : ProjectionPatch) (decide_ : bool)
  (f : projectionSnapshotFence) : projectionSnapshotFence :=
  if (pt_SyncRev patch <=? fe_expectedRev f) || fe_invalidated f then f
  else if negb (pt_BaseRev patch =? fe_expectedRev f) then invalid_fence f
  else
    let encoded := encoded_length patch in
    if (zlen (fe_pending f) + 1 >? projectionFenceMaxPatches)
       || (fe_pendingBytes f + encoded >? projectionFenceMaxBytes)
    then invalid_fence f
    else mkFence (fe_id f) (fe_generation f) (fe_cutRev f) (pt_SyncRev patch)
           (fe_pending f ++ [mkPendingPatch patch decide_]) (fe_pendingBytes f + encoded) false.

Definition put_fence (key : projectionFenceKey) (f : projectionSnapshotFence)
  (p : EventPublisher) : EventPublisher :=
  set_projectionFences (<[key := f]> (projectionFences p)) p.

Definition set_cut (key : projectionFenceKey) (rev : Z) (p : EventPublisher) : EventPublisher :=
  set_projectionSnapshotCuts (<[key := rev]> (projectionSnapshotCuts p)) p.

Definition mark_invalidated (key : projectionFenceKey) (p : EventPublisher) : EventPublisher :=
  set_projectionInvalidated ({[key]} ∪ projectionInvalidated p) p.

Definition unmark_invalidated (key : projectionFenceKey) (p : EventPublisher) : EventPublisher :=
  set_projectionInvalidated (projectionInvalidated p ∖ {[key]}) p.

(** The guards both delivery paths share, for a connection without a fence: nothing
    to do, a gap, or the patch is due. *)
Inductive due : Type := DueNothing | DueInvalidate | DuePatch.

Definition patch_due (key : projectionFenceKey) (patch : ProjectionPatch) (p : EventPublisher)
  : due :=
  if bool_decide (key ∈ projectionInvalidated p) then DueNothing
  else
    let cut := projectionSnapshotCuts p !!0 key in
    if pt_SyncRev patch <=? cut then DueNothing
    else if negb (cut =? 0) && negb (pt_BaseRev patch =? cut) then DueInvalidate
    else DuePatch.

Definition deliverSingleConnPatchLocked (conn : Connection) (backendID sessionID : string)
  (patch : ProjectionPatch) (p : EventPublisher) : EventPublisher :=
  let key := fence_key conn backendID sessionID in
  match projectionFences p !! key with
  | Some f => put_fence key (appendFencePatch patch false f) p
  | None =>
      match patch_due key patch p with
      | DueNothing => p
      | DueInvalidate =>
          mark_invalidated key (enqueueProjectionInvalidateLocked conn backendID sessionID p)
      | DuePatch =>
          let '((ok, _, _), p) :=
            enqueue conn (patch_frame (bridgeEpoch p) backendID sessionID patch) p in
          if ok then set_cut key (pt_SyncRev patch) p else p
      end
  end.

(** The observation filter, for a connection of a known device. *)
Definition observed (event : string) (conn : Connection) (backendID sessionID : string) (now : Z)
  (p : EventPublisher) : bool :=
  match observation p, AuthedDevice conn with
  | Some om, Some device => ShouldSendEvent device backendID sessionID event now om
  | _, _ => true
  end.

(** One target of the broadcast: a missing sink is made before the fence is looked at. *)
Definition deliver_target (backendID sessionID : string) (patch : ProjectionPatch) (now : Z)
  (p : EventPublisher) (conn : Connection) : EventPublisher :=
  if negb (ConnSyncV2 conn p) then p
  else if negb (observed "projection_patch" conn backendID sessionID now p) then p
  else
    let p := sinkLocked conn p in
    let key := fence_key conn backendID sessionID in
    match projectionFences p !! key with
    | Some f =>
        if (pt_SyncRev patch <=? fe_expectedRev f) || fe_invalidated f then p
        else put_fence key (appendFencePatch patch false f) p
    | None =>
        match patch_due key patch p with
        | DueNothing => p
        | DueInvalidate =>
            mark_invalidated key (enqueueProjectionInvalidateLocked conn backendID sessionID p)
        | DuePatch =>
            let '((ok, _, _), p) :=
              enqueue conn (patch_frame (bridgeEpoch p) backendID sessionID patch) p in
            if ok then set_cut key (pt_SyncRev patch) p else mark_invalidated key p
        end
    end.

(** The broadcaster's targets for a session event without a directory. *)
Definition session_targets (backendID sessionID : string) (p : EventPublisher) : list Connection :=
  match broadcaster p with
  | Some b => Targets (fun c => conn_isClosed c p) backendID sessionID "" b
  | None => []
  end.

Definition has_v2_conns (p : EventPublisher) : bool :=
  negb (bool_decide (set_at (caps p) CapSyncV2 = ∅)).

Definition deliverProjectionPatchLocked (backendID sessionID : string) (patch : ProjectionPatch)
  (now : Z) (p : EventPublisher) : EventPublisher :=
  if negb (has_v2_conns p) then p
  else fold_left (deliver_target backendID sessionID patch now)
         (session_targets backendID sessionID p) p.

Definition hasProjectionPatchTargetLocked (backendID sessionID : string) (now : Z)
  (p : EventPublisher) : bool :=
  has_v2_conns p
  && existsb (fun conn => ConnSyncV2 conn p
                          && observed "projection_patch" conn backendID sessionID now p)
       (session_targets backendID sessionID p).

Definition PublishProjectionPatch (backendID sessionID : string) (patch : ProjectionPatch)
  (now : Z) (p : EventPublisher) : EventPublisher :=
  deliverProjectionPatchLocked backendID sessionID patch now
    (recordProjectionPatchLocked backendID sessionID patch now p).

Definition FlushPatchAndRecord (backendID sessionID : string) (now : Z) (p : EventPublisher)
  : option ProjectionPatch * EventPublisher :=
  let '(patch, k) := head_flush backendID sessionID (ep_head p) in
  let p := set_ep_head k p in
  match patch with
  | None => (None, p)
  | Some patch => (Some patch, PublishProjectionPatch backendID sessionID patch now p)
  end.

(** A patch that advances the revision and carries nothing. *)
Definition noop_patch (base rev : Z) : ProjectionPatch :=
  mkProjectionPatch base rev None [] [] [] [] [] None None None None None.

(** The revision a no-op for the connection starts from: what its fence has reached,
    or its cut. *)
Definition prepend_base (key : projectionFenceKey) (p : EventPublisher) : Z :=
  match projectionFences p !! key with
  | Some f => if fe_invalidated f then projectionSnapshotCuts p !!0 key else fe_expectedRev f
  | None => projectionSnapshotCuts p !!0 key
  end.

Definition prepend_target (backendID sessionID : string) (syncRev : Z)
  (requester : option Connection) (p : EventPublisher) (conn : Connection) : EventPublisher :=
  if negb (ConnSyncV2 conn p) || bool_decide (requester = Some conn) then p
  else if bool_decide (connDeliveryModeLocked conn backendID sessionID p = ProjectionDeliveryWindow)
  then
    let base := prepend_base (fence_key conn backendID sessionID) p in
    if (base =? 0) || (base >=? syncRev) then p
    else deliverSingleConnPatchLocked conn backendID sessionID (noop_patch base syncRev) p
  else enqueueProjectionInvalidateLocked conn backendID sessionID p.

Definition PublishProjectionPrepend (backendID sessionID : string) (syncRev : Z)
  (requester : option Connection) (p : EventPublisher) : EventPublisher :=
  if negb (has_v2_conns p) then p
  else fold_left (prepend_target backendID sessionID syncRev requester)
         (session_targets backendID sessionID p) p.

Definition detail_target (backendID sessionID : string) (commit : ProjectionPatch)
  (requester : option Connection) (p : EventPublisher) (conn : Connection) : EventPublisher :=
  if negb (ConnSyncV2 conn p) then p
  else if bool_decide (requester = Some conn)
     || negb (bool_decide (connDeliveryModeLocked conn backendID sessionID p
                           = ProjectionDeliveryWindow))
     || connHoldsAnyTurnLocked conn backendID sessionID (patchTurnIDs commit) p
  then deliverSingleConnPatchLocked conn backendID sessionID commit p
  else
    let key := fence_key conn backendID sessionID in
    let base := projectionSnapshotCuts p !!0 key in
    let noop :=
      if (base =? 0) || (base >=? pt_SyncRev commit) then p
      else deliverSingleConnPatchLocked conn backendID sessionID
             (noop_patch base (pt_SyncRev commit)) p in
    match projectionFences p !! key with
    | Some f =>
        if fe_invalidated f then noop
        else put_fence key (appendFencePatch commit true f) p
    | None => noop
    end.

(** [PublishProjectionDetail]: the prefixes go to everyone, the last patch by the
    delivery rules. The patches that advance are recorded, in order. *)
Definition PublishProjectionDetail (backendID sessionID : string) (patches : list ProjectionPatch)
  (requester : option Connection) (now : Z) (p : EventPublisher) : EventPublisher :=
  if bool_decide (broadcaster p = None) || negb (has_v2_conns p) then p
  else
    match last patches with
    | None => p
    | Some commit =>
        if pt_SyncRev commit <=? pt_BaseRev commit then p
        else
          let p :=
            fold_left (fun p patch =>
                         if pt_SyncRev patch <=? pt_BaseRev patch then p
                         else recordProjectionPatchLocked backendID sessionID patch now p)
              patches p in
          let p :=
            fold_left (fun p live => deliverProjectionPatchLocked backendID sessionID live now p)
              (removelast patches) p in
          fold_left (detail_target backendID sessionID commit requester)
            (session_targets backendID sessionID p) p
    end.

(** The revision of the commit that loaded a turn, from the newest entry back. *)
Definition LoadedDetailRev (backendID sessionID turnID : string) (p : EventPublisher) : option Z :=
  first_some
    (fun e => if existsb (fun op => bool_decide (ts_TurnID op = turnID
                                      /\ ts_DetailLoadState op = DetailStateLoaded))
                   (pt_TurnStateOps (patch e))
              then Some (pt_SyncRev (patch e)) else None)
    (rev (entries_of (backendID, sessionID) (projectionJournal p))).

(** ** Snapshot fences *)

Inductive SnapshotError : Type :=
| SnapshotIdentityRequired
| SnapshotAlreadyPending
| SnapshotNotReady
| SnapshotGenerationChanged
| SnapshotQueueFull.

Definition beginProjectionSnapshotLocked (conn : Connection) (backendID sessionID : string)
  (p : EventPublisher)
  : (SnapshotError + SessionProjection * ProjectionSnapshotAdmission) * EventPublisher :=
  let key := fence_key conn backendID sessionID in
  match projectionFences p !! key with
  | Some _ => (inl SnapshotAlreadyPending, p)
  | None =>
      match head_snapshot backendID sessionID (ep_head p) with
      | None => (inl SnapshotNotReady, p)
      | Some projection =>
          let '(generation, p) := registerConnectionLocked conn p in
          let p := sinkLocked conn p in
          let fenceID := nextProjectionFenceID p + 1 in
          let p := set_nextProjectionFenceID fenceID p in
          let rev := sp_SyncRev projection in
          let p := put_fence key (mkFence fenceID generation rev rev [] 0 false) p in
          (inr (projection,
                mkSnapshotAdmission (bridgeEpoch p) generation backendID sessionID rev fenceID),
           unmark_invalidated key p)
      end
  end.

Definition BeginProjectionSnapshot (conn : Connection) (backendID sessionID : string)
  (p : EventPublisher)
  : (SnapshotError + SessionProjection * ProjectionSnapshotAdmission) * EventPublisher :=
  if bool_decide (backendID = "" \/ sessionID = "") then (inl SnapshotIdentityRequired, p)
  else beginProjectionSnapshotLocked conn backendID sessionID p.

Record ProjectionResumeSelection : Type := mkSelection {
  rs_Patches : list ProjectionPatch;
  rs_Available : bool;
  rs_FallbackReason : ProjectionResumeFallbackReason;
  rs_EpochChanged : bool
}.

Definition BeginProjectionSnapshotWithResume (conn : Connection) (backendID sessionID : string)
  (sinceRev now : Z) (p : EventPublisher)
  : (SnapshotError + SessionProjection * ProjectionSnapshotAdmission * ProjectionResumeSelection)
    * EventPublisher :=
  if bool_decide (backendID = "" \/ sessionID = "") then (inl SnapshotIdentityRequired, p)
  else
    match beginProjectionSnapshotLocked conn backendID sessionID p with
    | (inl e, p) => (inl e, p)
    | (inr (projection, admission), p) =>
        if ConnHas CapProjectionEpochMismatch conn p
        then (inr (projection, admission, mkSelection [] false NoFallback true), p)
        else
          let '((patches, ok, reason), j) :=
            ContiguousRangeAt backendID sessionID sinceRev (ad_CutRev admission) now
              (projectionJournal p) in
          (inr (projection, admission, mkSelection patches ok reason false),
           set_projectionJournal j p)
    end.

(** What a connection that holds none of the turns gets of an undecided patch. *)
Definition strip_turns (keep_scalar : bool) (patch : ProjectionPatch) : ProjectionPatch :=
  mkProjectionPatch (pt_BaseRev patch) (pt_SyncRev patch)
    (if keep_scalar then pt_Execution patch else None) [] [] []
    (pt_ReplacesClientIDs patch) (pt_RemovedTurnIDs patch) (pt_PlanMode patch)
    (pt_SessionMode patch) (pt_CollaborationMode patch) (pt_CodexGoal patch) (pt_Goal patch).

Definition resolve_pending (conn : Connection) (backendID sessionID : string) (p : EventPublisher)
  (f : projectionFencePendingPatch) : ProjectionPatch :=
  if fp_decide f
     && negb (connHoldsAnyTurnLocked conn backendID sessionID (patchTurnIDs (fp_patch f)) p)
  then strip_turns (ConnHas CapProjectionWindowScalarV1 conn p) (fp_patch f)
  else fp_patch f.

(** The fence of the admission, when neither it nor the connection was replaced. *)
Definition admitted_fence (conn : Connection) (adm : ProjectionSnapshotAdmission)
  (p : EventPublisher) : option projectionSnapshotFence :=
  match projectionFences p !! fence_key conn (ad_BackendID adm) (ad_SessionID adm) with
  | Some f =>
      if bool_decide (fe_id f = ad_fenceID adm /\ fe_generation f = ad_ConnectionGeneration adm /\
                      connectionGenerations p !!0 conn = ad_ConnectionGeneration adm /\
                      ad_BridgeEpoch adm = bridgeEpoch p)
      then Some f else None
  | None => None
  end.

(** [completeProjectionSnapshot] up to the wait for the write of the response: the
    result, then the held patches or the request to pull again, in one batch. *)
Definition completeProjectionSnapshot (conn : Connection) (adm : ProjectionSnapshotAdmission)
  (requestID : string) (data : value) (heldTurnIDs : list string) (resultErr : option value)
  (p : EventPublisher) : option SnapshotError * EventPublisher :=
  if bool_decide (requestID = "") then (Some SnapshotIdentityRequired, p)
  else
    let bk := ad_BackendID adm in
    let sid := ad_SessionID adm in
    let key := fence_key conn bk sid in
    match admitted_fence conn adm p with
    | None => (Some SnapshotGenerationChanged, close_conn conn p)
    | Some f =>
        let p :=
          if bool_decide (heldTurnIDs <> []) && negb (fe_invalidated f)
          then recordConnWindowTurnsLocked conn bk sid heldTurnIDs p else p in
        let pending :=
          if fe_invalidated f then [] else map (resolve_pending conn bk sid p) (fe_pending f) in
        let required := if fe_invalidated f then 2 else 1 + zlen pending in
        let p := sinkLocked conn p in
        let p' := set_projectionFences (delete key (projectionFences p)) p in
        let s := sink_of conn p in
        if free_slots s <? required
        then (Some SnapshotQueueFull, close_conn conn (clearConnWindowTurnsLocked conn bk sid p'))
        else
          let s := put_frame (result_frame requestID data resultErr bk sid (fe_cutRev f)) s in
          if fe_invalidated f
          then (None, mark_invalidated key
                        (put_sink conn (put_frame (invalidate_frame (bridgeEpoch p) bk sid) s) p'))
          else
            let s := put_frames (map (patch_frame (bridgeEpoch p) bk sid) pending) s in
            (None, unmark_invalidated key (set_cut key (fe_expectedRev f) (put_sink conn s p')))
    end.

Definition CompleteProjectionSnapshot (conn : Connection) (adm : ProjectionSnapshotAdmission)
  (requestID : string) (data : value) :=
  completeProjectionSnapshot conn adm requestID data [] None.
Definition CompleteProjectionSnapshotWithHeldTurns (conn : Connection)
  (adm : ProjectionSnapshotAdmission) (requestID : string) (data : value)
  (heldTurnIDs : list string) :=
  completeProjectionSnapshot conn adm requestID data heldTurnIDs None.
Definition CompleteProjectionSnapshotError (conn : Connection)
  (adm : ProjectionSnapshotAdmission) (requestID : string) (resultErr : value) :=
  completeProjectionSnapshot conn adm requestID VNil [] (Some resultErr).

(** The end of the wait when the response was not written: the sink dropped it, or
    the write took too long, and then the connection is closed. *)
Definition completion_failed (conn : Connection) (adm : ProjectionSnapshotAdmission)
  (timeout : bool) (p : EventPublisher) : EventPublisher :=
  let p := ClearConnWindowTurns conn (ad_BackendID adm) (ad_SessionID adm) p in
  if timeout then close_conn conn p else p.
End delivery.
End publisher.
