(* ===== verification/PublisherLink.v ===== *)
(** * The delivery machine of one connection and one session

    What the publisher keeps for one connection and one session is a small machine:
    its sink, its fence, the revision it was brought to and whether it was told to
    pull again. This file states that machine and shows that the publisher's
    operations refine it: each target of a broadcast takes the machine's step, every
    other connection and session is left alone. *)

From S2P Require Import Prelude.
From S2P Require Import Wire.
From S2P Require Import Projection.
From S2P Require Import RevisionJournal.
From S2P Require Import Broadcaster.
From S2P Require Import Observation.
From S2P Require Import OutboundSink.
From S2P Require Import Publisher.

Record link : Type := mkLink {
  lk_sink : eventOutboundSink;
  lk_fence : option projectionSnapshotFence;
  lk_cut : Z;
  lk_invalidated : bool
}.

Definition set_lk_sink (s : eventOutboundSink) (l : link) : link :=
  mkLink s (lk_fence l) (lk_cut l) (lk_invalidated l).
Definition set_lk_fence (f : option projectionSnapshotFence) (l : link) : link :=
  mkLink (lk_sink l) f (lk_cut l) (lk_invalidated l).
Definition set_lk_cut (r : Z) (l : link) : link :=
  mkLink (lk_sink l) (lk_fence l) r (lk_invalidated l).
Definition set_lk_invalidated (b : bool) (l : link) : link :=
  mkLink (lk_sink l) (lk_fence l) (lk_cut l) b.

(** A frame offered to the sink, and whether it was taken. *)
Definition link_enqueue (closed : bool) (f : eventOutboundFrame) (l : link) : bool * link :=
  let '((ok, _, _), s) := tryEnqueue closed f (lk_sink l) in (ok, set_lk_sink s l).

Section link.
Context (marshal : ProjectionPatch -> option nat).

(** A patch for the connection, from the broadcast or addressed to it alone: the two
    differ only when the sink refuses it. *)
Definition link_patch (closed : bool) (epoch backendID sessionID : string) (broadcast : bool)
  (patch : ProjectionPatch) (l : link) : link :=
  match lk_fence l with
  | Some f => set_lk_fence (Some (appendFencePatch marshal patch false f)) l
  | None =>
      if lk_invalidated l || (pt_SyncRev patch <=? lk_cut l) then l
      else if negb (lk_cut l =? 0) && negb (pt_BaseRev patch =? lk_cut l)
      then set_lk_invalidated true
             (snd (link_enqueue closed (invalidate_frame epoch backendID sessionID) l))
      else
        let '(ok, l) := link_enqueue closed (patch_frame epoch backendID sessionID patch) l in
        if ok then set_lk_cut (pt_SyncRev patch) l
        else if broadcast then set_lk_invalidated true l else l
  end.
End link.

Section refine.
Context {K : Type} `{!ProjectionHead K}.
Context (marshal : ProjectionPatch -> option nat).
Implicit Types p : EventPublisher (K := K).

Definition link_of (conn : Connection) (backendID sessionID : string) p : link :=
  let key := fence_key conn backendID sessionID in
  mkLink (sink_of conn p) (projectionFences p !! key) (projectionSnapshotCuts p !!0 key)
    (bool_decide (key ∈ projectionInvalidated p)).

(** What every delivery leaves alone. *)
Definition same_world p p' : Prop :=
  caps p' = caps p /\ observation p' = observation p /\ broadcaster p' = broadcaster p /\
  closedConns p' = closedConns p /\ bridgeEpoch p' = bridgeEpoch p /\
  projectionDeliveryModes p' = projectionDeliveryModes p /\
  closing p' = closing p /\ connectionGenerations p' = connectionGenerations p.

Lemma same_world_refl p : same_world p p.
Proof. done. Qed.

Lemma same_world_trans p1 p2 p3 : same_world p1 p2 -> same_world p2 p3 -> same_world p1 p3.
Proof. unfold same_world. intros (?&?&?&?&?&?&?&?) (?&?&?&?&?&?&?&?). split_and!; congruence. Qed.

(** The rest of the state, connection by connection and session by session: the
    sink of a connection is the sessions' common part. *)
Definition other_link_same (conn : Connection) (backendID sessionID : string) p p' : Prop :=
  (forall c, c <> conn -> sink_of c p' = sink_of c p) /\
  (forall c bk s, (c, bk, s) <> (conn, backendID, sessionID) ->
     projectionFences p' !! fence_key c bk s = projectionFences p !! fence_key c bk s /\
     projectionSnapshotCuts p' !!0 fence_key c bk s = projectionSnapshotCuts p !!0 fence_key c bk s /\
     (fence_key c bk s ∈ projectionInvalidated p' <-> fence_key c bk s ∈ projectionInvalidated p)).

Lemma other_link_refl conn bk s p : other_link_same conn bk s p p.
Proof. done. Qed.

Lemma other_link_trans conn bk s p1 p2 p3 :
  other_link_same conn bk s p1 p2 -> other_link_same conn bk s p2 p3 ->
  other_link_same conn bk s p1 p3.
Proof.
  intros [A1 A2] [B1 B2]. split.
  - intros c Hc. by rewrite B1, A1.
  - intros c b' s' Hne. destruct (A2 c b' s' Hne) as (E1 & E2 & E3).
    destruct (B2 c b' s' Hne) as (F1 & F2 & F3). split_and!; [congruence|congruence|].
    by rewrite F3.
Qed.

Lemma other_link_of conn bk s p p' c :
  other_link_same conn bk s p p' -> c <> conn -> link_of c bk s p' = link_of c bk s p.
Proof.
  intros [H1 H2] Hc. unfold link_of. rewrite H1 by done.
  destruct (H2 c bk s) as (-> & -> & H3); [congruence|]. f_equal.
  by apply bool_decide_ext.
Qed.

(** An operation on a connection and a session: it takes a step of their machine. *)
Record link_op (conn : Connection) (backendID sessionID : string) p p' (l : link) : Prop := {
  lo_world : same_world p p';
  lo_other : other_link_same conn backendID sessionID p p';
  lo_link : link_of conn backendID sessionID p' = l
}.

Lemma link_op_refl conn bk s p : link_op conn bk s p p (link_of conn bk s p).
Proof. split; [done|done|done]. Qed.

Lemma sink_of_put conn s p c :
  sink_of c (put_sink conn s p) = if decide (c = conn) then s else sink_of c p.
Proof.
  unfold sink_of, put_sink. cbn. case_decide; [subst; by rewrite lookup_insert_eq|].
  by rewrite lookup_insert_ne.
Qed.

Lemma link_op_put_sink conn bk s sk p :
  link_op conn bk s p (put_sink conn sk p) (set_lk_sink sk (link_of conn bk s p)).
Proof.
  split; [done| |].
  - split; [|done]. intros c Hc. rewrite sink_of_put. by rewrite decide_False.
  - unfold link_of, set_lk_sink. cbn. f_equal. rewrite sink_of_put. by rewrite decide_True.
Qed.

Lemma link_op_fence conn bk s f p :
  link_op conn bk s p (put_fence (fence_key conn bk s) f p)
    (set_lk_fence (Some f) (link_of conn bk s p)).
Proof.
  split; [done| |].
  - split; [done|]. intros c b' s' Hne. cbn. rewrite lookup_insert_ne; [done|].
    unfold fence_key. congruence.
  - unfold link_of, set_lk_fence. cbn. by rewrite lookup_insert_eq.
Qed.

Lemma link_op_cut conn bk s r p :
  link_op conn bk s p (set_cut (fence_key conn bk s) r p)
    (set_lk_cut r (link_of conn bk s p)).
Proof.
  split; [done| |].
  - split; [done|]. intros c b' s' Hne. cbn. rewrite lookup_insert_ne; [done|].
    unfold fence_key. congruence.
  - unfold link_of, set_lk_cut. cbn. by rewrite lookup_insert_eq.
Qed.

Lemma link_op_mark conn bk s p :
  link_op conn bk s p (mark_invalidated (fence_key conn bk s) p)
    (set_lk_invalidated true (link_of conn bk s p)).
Proof.
  split; [done| |].
  - split; [done|]. intros c b' s' Hne. cbn. split_and!; [done|done|].
    unfold fence_key. set_solver.
  - unfold link_of, set_lk_invalidated. cbn. f_equal. apply bool_decide_eq_true_2. set_solver.
Qed.

Lemma link_op_unmark conn bk s p :
  link_op conn bk s p (unmark_invalidated (fence_key conn bk s) p)
    (set_lk_invalidated false (link_of conn bk s p)).
Proof.
  split; [done| |].
  - split; [done|]. intros c b' s' Hne. cbn. split_and!; [done|done|].
    unfold fence_key. set_solver.
  - unfold link_of, set_lk_invalidated. cbn. f_equal. apply bool_decide_eq_false_2. set_solver.
Qed.

(** Composition of two operations on the same connection and session. *)
Lemma link_op_then conn bk s p p' p'' l l' :
  link_op conn bk s p p' l -> link_op conn bk s p' p'' l' -> link_op conn bk s p p'' l'.
Proof.
  intros [W1 O1 L1] [W2 O2 L2]. split; [by eapply same_world_trans|by eapply other_link_trans|done].
Qed.

(** Changing only what no link sees. *)
Lemma link_op_held conn bk s v p : link_op conn bk s p (set_projectionHeldTurns v p) (link_of conn bk s p).
Proof. split; [done|done|done]. Qed.

Lemma link_op_enqueue conn bk s f p :
  link_op conn bk s p (snd (enqueue conn f p))
    (snd (link_enqueue (conn_isClosed conn p) f (link_of conn bk s p))) /\
  (fst (enqueue conn f p)).1.1 = fst (link_enqueue (conn_isClosed conn p) f (link_of conn bk s p)).
Proof.
  unfold enqueue, link_enqueue. cbn [lk_sink link_of].
  destruct (tryEnqueue (conn_isClosed conn p) f (sink_of conn p)) as [[[ok why] n] sk].
  split; [apply link_op_put_sink|done].
Qed.

Lemma link_op_invalidate conn bk s p :
  link_op conn bk s p (enqueueProjectionInvalidateLocked conn bk s p)
    (snd (link_enqueue (conn_isClosed conn p) (invalidate_frame (bridgeEpoch p) bk s)
            (link_of conn bk s p))).
Proof.
  unfold enqueueProjectionInvalidateLocked, clearConnWindowTurnsLocked. cbv zeta.
  eapply link_op_then; [apply link_op_held|].
  destruct (link_op_enqueue conn bk s (invalidate_frame (bridgeEpoch p) bk s)
    (set_projectionHeldTurns
       (alter (delete (projectionDeliveryKey bk s)) conn (projectionHeldTurns p)) p)) as [H _].
  exact H.
Qed.

(** The common part of the two delivery paths, without a fence. *)
Lemma link_op_due conn bk s patch broadcast p :
  projectionFences p !! fence_key conn bk s = None ->
  link_op conn bk s p
    (match patch_due (fence_key conn bk s) patch p with
     | DueNothing => p
     | DueInvalidate => mark_invalidated (fence_key conn bk s) (enqueueProjectionInvalidateLocked conn bk s p)
     | DuePatch =>
         let '((ok, _, _), p') := enqueue conn (patch_frame (bridgeEpoch p) bk s patch) p in
         if ok then set_cut (fence_key conn bk s) (pt_SyncRev patch) p'
         else if broadcast : bool then mark_invalidated (fence_key conn bk s) p' else p'
     end)
    (link_patch marshal (conn_isClosed conn p) (bridgeEpoch p) bk s broadcast patch
       (link_of conn bk s p)).
Proof.
  intros Hf. unfold link_patch.
  assert (lk_fence (link_of conn bk s p) = None) as -> by exact Hf.
  unfold patch_due. cbv zeta.
  change (bool_decide (fence_key conn bk s ∈ projectionInvalidated p))
    with (lk_invalidated (link_of conn bk s p)).
  change (projectionSnapshotCuts p !!0 fence_key conn bk s) with (lk_cut (link_of conn bk s p)).
  destruct (lk_invalidated (link_of conn bk s p)); cbn [orb]; [apply link_op_refl|].
  destruct (pt_SyncRev patch <=? _); [apply link_op_refl|].
  destruct (_ && _).
  - eapply link_op_then; [apply link_op_invalidate|].
    pose proof (link_op_mark conn bk s (enqueueProjectionInvalidateLocked conn bk s p)) as Hm.
    by rewrite (lo_link _ _ _ _ _ _ (link_op_invalidate conn bk s p)) in Hm.
  - destruct (link_op_enqueue conn bk s (patch_frame (bridgeEpoch p) bk s patch) p) as [H1 H2].
    destruct (enqueue _ _ p) as [[[ok why] n] p']. cbn [fst snd] in H1, H2.
    destruct (link_enqueue _ _ _) as [ok' l']. cbn [fst snd] in H1, H2. subst ok'.
    destruct ok; [|destruct broadcast; [|exact H1]].
    + eapply link_op_then; [exact H1|]. rewrite <- (lo_link _ _ _ _ _ _ H1).
      apply link_op_cut.
    + eapply link_op_then; [exact H1|]. rewrite <- (lo_link _ _ _ _ _ _ H1).
      apply link_op_mark.
Qed.

Lemma deliverSingle_link conn bk s patch p :
  link_op conn bk s p (deliverSingleConnPatchLocked marshal conn bk s patch p)
    (link_patch marshal (conn_isClosed conn p) (bridgeEpoch p) bk s false patch
       (link_of conn bk s p)).
Proof.
  unfold deliverSingleConnPatchLocked. cbv zeta.
  destruct (projectionFences p !! fence_key conn bk s) as [f|] eqn:Hf.
  - assert (link_patch marshal (conn_isClosed conn p) (bridgeEpoch p) bk s false patch
      (link_of conn bk s p) = set_lk_fence (Some (appendFencePatch marshal patch false f))
      (link_of conn bk s p)) as -> by (unfold link_patch; cbn [lk_fence link_of]; by rewrite Hf).
    apply link_op_fence.
  - exact (link_op_due conn bk s patch false p Hf).
Qed.

(** ** The broadcast *)

Context (AuthedDevice : Connection -> option string).

(** A live patch is for the connections that negotiated the projection stream and
    whose device observes the session. *)
Definition wants_patch (backendID sessionID : string) (now : Z) p (conn : Connection) : bool :=
  ConnSyncV2 conn p && observed AuthedDevice "projection_patch" conn backendID sessionID now p.

Lemma link_op_sinkLocked conn bk s p :
  link_op conn bk s p (sinkLocked conn p) (link_of conn bk s p).
Proof.
  pose proof (link_op_put_sink conn bk s (sink_of conn p) p) as H. exact H.
Qed.

Lemma deliver_target_link conn bk s patch now p :
  link_op conn bk s p (deliver_target marshal AuthedDevice bk s patch now p conn)
    (if wants_patch bk s now p conn
     then link_patch marshal (conn_isClosed conn p) (bridgeEpoch p) bk s true patch (link_of conn bk s p)
     else link_of conn bk s p).
Proof.
  unfold deliver_target, wants_patch. destruct (ConnSyncV2 conn p); [|apply link_op_refl].
  destruct (observed _ _ _ _ _ _ _); [|apply link_op_refl]. cbn [negb andb]. cbv zeta.
  pose proof (link_op_sinkLocked conn bk s p) as Hsink.
  assert (forall q l, link_op conn bk s (sinkLocked conn p) q l -> link_op conn bk s p q l) as Hthen
    by (intros q l Hq; by eapply link_op_then).
  change (projectionFences (sinkLocked conn p)) with (projectionFences p).
  destruct (projectionFences p !! fence_key conn bk s) as [f|] eqn:Hf.
  - assert (link_patch marshal (conn_isClosed conn p) (bridgeEpoch p) bk s true patch
      (link_of conn bk s p) = set_lk_fence (Some (appendFencePatch marshal patch false f))
      (link_of conn bk s p)) as -> by (unfold link_patch; cbn [lk_fence link_of]; by rewrite Hf).
    destruct ((_ <=? _) || _) eqn:Hstale.
    + unfold appendFencePatch. rewrite Hstale.
      assert (set_lk_fence (Some f) (link_of conn bk s p) = link_of conn bk s p) as ->
        by (unfold set_lk_fence, link_of; cbn; by rewrite Hf).
      exact Hsink.
    + apply Hthen. rewrite <- (lo_link _ _ _ _ _ _ Hsink). apply link_op_fence.
  - apply Hthen. rewrite <- (lo_link _ _ _ _ _ _ Hsink).
    apply (link_op_due conn bk s patch true (sinkLocked conn p)). exact Hf.
Qed.

(** A run over several connections, each taking one step of its own machine. *)
Definition fan_out (bk s : string) (f : Connection -> link -> link) (cs : list Connection) p p'
  : Prop :=
  same_world p p' /\
  (forall c, link_of c bk s p' = if decide (c ∈ cs) then f c (link_of c bk s p) else link_of c bk s p) /\
  (forall c b' s', (b', s') <> (bk, s) ->
     projectionFences p' !! fence_key c b' s' = projectionFences p !! fence_key c b' s' /\
     projectionSnapshotCuts p' !!0 fence_key c b' s' = projectionSnapshotCuts p !!0 fence_key c b' s' /\
     (fence_key c b' s' ∈ projectionInvalidated p' <-> fence_key c b' s' ∈ projectionInvalidated p)).

Lemma fan_out_nil bk s f p : fan_out bk s f [] p p.
Proof. split_and!; [done| |done]. intros c. by rewrite decide_False by apply not_elem_of_nil. Qed.

(** The fold of an operation that is a step of each connection's machine, the step
    depending on nothing the other connections' steps change. *)
Lemma fan_out_fold bk s (op : EventPublisher -> Connection -> EventPublisher)
  (step : EventPublisher -> Connection -> link -> link) cs p :
  (forall q c, link_op c bk s q (op q c) (step q c (link_of c bk s q))) ->
  (forall q q' c l, same_world q q' -> step q' c l = step q c l) ->
  NoDup cs -> fan_out bk s (step p) cs p (fold_left op cs p).
Proof.
  intros Hop Hstep. revert p. induction cs as [|c cs IH]; intros p Hnd; [apply fan_out_nil|].
  apply NoDup_cons in Hnd as [Hnin Hnd]. cbn [fold_left].
  destruct (Hop p c) as [W1 O1 L1]. destruct (IH (op p c) Hnd) as (W2 & L2 & O2).
  split_and!; [by eapply same_world_trans| |].
  - intros c'. rewrite L2. destruct (decide (c' = c)) as [->|Hne].
    + rewrite decide_False by done. rewrite decide_True by constructor. exact L1.
    + rewrite (other_link_of c bk s p (op p c) c' O1 Hne).
      destruct (decide (c' ∈ cs)) as [Hin|Hin].
      * rewrite decide_True by (by constructor). by apply Hstep.
      * rewrite decide_False; [done|]. by rewrite elem_of_cons; intros [?|?].
  - intros c' b' s' Hne. destruct (O2 c' b' s' Hne) as (E1 & E2 & E3).
    destruct O1 as [_ O1]. destruct (O1 c' b' s') as (F1 & F2 & F3); [congruence|].
    split_and!; [congruence|congruence|by rewrite E3].
Qed.

Lemma wants_patch_world bk s now p p' c :
  same_world p p' -> wants_patch bk s now p' c = wants_patch bk s now p c.
Proof.
  intros (H1 & H2 & _). unfold wants_patch, ConnSyncV2, ConnHas, observed. by rewrite H1, H2.
Qed.

Lemma session_targets_nodup bk s p : NoDup (session_targets bk s p).
Proof.
  unfold session_targets. destruct (broadcaster p); [|constructor].
  unfold Targets. apply NoDup_elements.
Qed.

Lemma deliver_link bk s patch now p c :
  let p' := deliverProjectionPatchLocked marshal AuthedDevice bk s patch now p in
  link_of c bk s p' =
    (if bool_decide (c ∈ session_targets bk s p) && wants_patch bk s now p c
     then link_patch marshal (conn_isClosed c p) (bridgeEpoch p) bk s true patch (link_of c bk s p)
     else link_of c bk s p) /\
  same_world p p' /\
  (forall b' s', (b', s') <> (bk, s) ->
     lk_fence (link_of c b' s' p') = lk_fence (link_of c b' s' p) /\
     lk_cut (link_of c b' s' p') = lk_cut (link_of c b' s' p) /\
     lk_invalidated (link_of c b' s' p') = lk_invalidated (link_of c b' s' p)).
Proof.
  intros p'. unfold p', deliverProjectionPatchLocked. destruct (has_v2_conns p) eqn:Hv2; cbn [negb].
  - set (step := fun q c l => if wants_patch bk s now q c
      then link_patch marshal (conn_isClosed c q) (bridgeEpoch q) bk s true patch l else l).
    destruct (fan_out_fold bk s (deliver_target marshal AuthedDevice bk s patch now) step
      (session_targets bk s p) p) as (H1 & H2 & H3).
    + intros q c'. apply deliver_target_link.
    + intros q q' c' l Hw. unfold step. rewrite (wants_patch_world _ _ _ _ _ _ Hw).
      destruct Hw as (_ & _ & _ & Hc & He & _). unfold conn_isClosed. by rewrite Hc, He.
    + apply session_targets_nodup.
    + split_and!; [|done|].
      * rewrite H2. destruct (decide (c ∈ _)) as [Hin|Hin];
          [rewrite bool_decide_true by done|rewrite bool_decide_false by done]; done.
      * intros b' s' Hne. destruct (H3 c b' s' Hne) as (E1 & E2 & E3). unfold link_of. cbn.
        split_and!; [done|done|]. by apply bool_decide_ext.
  - split_and!; [|done|done]. unfold wants_patch.
    assert (ConnSyncV2 c p = false) as ->; [|by rewrite andb_false_r].
    unfold has_v2_conns in Hv2. zprop. unfold ConnSyncV2, ConnHas.
    apply bool_decide_eq_false. rewrite Hv2. apply not_elem_of_empty.
Qed.
(** C12. The publication of a live patch is, for every connection, one step of that
    connection's delivery machine when the broadcaster targets it, it negotiated
    the stream and its device observes the session, and nothing otherwise; no
    other session of any connection is touched. *)
Theorem deliver_refines bk s patch now p c :
  let p' := deliverProjectionPatchLocked marshal AuthedDevice bk s patch now p in
  link_of c bk s p' =
    (if bool_decide (c ∈ session_targets bk s p) && wants_patch bk s now p c
     then link_patch marshal (conn_isClosed c p) (bridgeEpoch p) bk s true patch (link_of c bk s p)
     else link_of c bk s p) /\
  same_world p p' /\
  (forall b' s', (b', s') <> (bk, s) ->
     lk_fence (link_of c b' s' p') = lk_fence (link_of c b' s' p) /\
     lk_cut (link_of c b' s' p') = lk_cut (link_of c b' s' p) /\
     lk_invalidated (link_of c b' s' p') = lk_invalidated (link_of c b' s' p)).
Proof. apply deliver_link. Qed.
End refine.
