(* ===== verification/PublisherChain.v ===== *)
(** * What a client of the projection stream receives

    The frames put in a connection's queue, read as the client reads them: a
    snapshot result brings a session to its revision, a patch takes it from the
    revision it starts from to its own. The theorems: the patches of each session
    always continue the client's revision, whatever the interleaving of pulls,
    commits and connection events; a pull hands over to the live stream without a
    hole; and a connection that is on the stream receives exactly what is committed. *)

From S2P Require Import Prelude.
From S2P Require Import Wire.
From S2P Require Import Projection.
From S2P Require Import RevisionJournal.
From S2P Require Import Kernel.
From S2P Require Import Broadcaster.
From S2P Require Import Observation.
From S2P Require Import OutboundSink.
From S2P Require Import Publisher.
From S2P Require Import PublisherLink.

(** ** The client's reading *)

(** A patch continues revision [r]; revision zero is also "never synchronised". *)
Definition continues (r : Z) (patch : ProjectionPatch) : bool :=
  (r <? pt_SyncRev patch) && ((r =? 0) || (pt_BaseRev patch =? r)).

(** The client's revision of a session after a frame; no answer when the frame is a
    patch that does not continue it. *)
Definition client_step (bk s : string) (f : eventOutboundFrame) (pos : Z) : option Z :=
  match of_content f with
  | ProjectionContent e =>
      if decide (pe_BackendID e = bk /\ pe_SessionID e = s) then
        match pe_Data e with
        | PatchData patch => if continues pos patch then Some (pt_SyncRev patch) else None
        | InvalidateData _ _ => Some pos
        end
      else Some pos
  | ResultContent _ _ _ bk' s' cut => if decide (bk' = bk /\ s' = s) then Some cut else Some pos
  | _ => Some pos
  end.

Definition client_run (bk s : string) (pos : Z) (log : list eventOutboundFrame) : option Z :=
  fold_left (fun o f => o ≫= client_step bk s f) log (Some pos).

Definition client_pos (bk s : string) (log : list eventOutboundFrame) : option Z :=
  client_run bk s 0 log.

Lemma client_pos_app bk s log fs :
  client_pos bk s (log ++ fs) = client_pos bk s log ≫= fun r => client_run bk s r fs.
Proof.
  unfold client_pos. unfold client_run at 1. rewrite fold_left_app.
  fold (client_run bk s 0 log). destruct (client_run bk s 0 log) as [r|]; [done|].
  cbn. induction fs; [done|]. cbn. done.
Qed.

Lemma client_run_cons bk s r f fs :
  client_run bk s r (f :: fs) = client_step bk s f r ≫= fun r => client_run bk s r fs.
Proof.
  unfold client_run. cbn. destruct (client_step bk s f r) as [r'|]; [done|].
  cbn. induction fs; [done|]. cbn. done.
Qed.

(** Frames that say nothing of the session's revision. *)
Definition silent (bk s : string) (f : eventOutboundFrame) : Prop :=
  forall r, client_step bk s f r = Some r.

Lemma client_pos_silent bk s log f : silent bk s f -> client_pos bk s (log ++ [f]) = client_pos bk s log.
Proof.
  intros Hf. rewrite client_pos_app. destruct (client_pos bk s log) as [r|]; [|done]. cbn.
  unfold client_run. cbn. apply Hf.
Qed.

Lemma silent_invalidate bk s epoch b' s' : silent bk s (invalidate_frame epoch b' s').
Proof. intros r. unfold client_step. cbn. by case_decide. Qed.

Lemma silent_other bk s epoch b' s' patch :
  (b', s') <> (bk, s) -> silent bk s (patch_frame epoch b' s' patch).
Proof. intros Hne r. unfold client_step. cbn. rewrite decide_False; [done|]. naive_solver. Qed.

Lemma client_step_patch bk s epoch patch r :
  client_step bk s (patch_frame epoch bk s patch) r =
  if continues r patch then Some (pt_SyncRev patch) else None.
Proof. unfold client_step. cbn. by rewrite decide_True. Qed.

(** ** The machine keeps the client on the chain *)

Definition fence_ok (f : projectionSnapshotFence) : Prop :=
  fe_invalidated f = false -> chain (fe_cutRev f) (map fp_patch (fe_pending f)) (fe_expectedRev f).

(** The client is on the chain, and the machine knows where: the cut is its revision
    unless a fence is open or the client was told to pull again. *)
Definition link_ok (bk s : string) (l : link) : Prop :=
  exists pos, client_pos bk s (sk_log (lk_sink l)) = Some pos /\
    match lk_fence l with
    | Some f => fence_ok f
    | None => lk_invalidated l = true \/ lk_cut l = pos
    end.

Section link_ok.
Context (marshal : ProjectionPatch -> option nat).

Lemma fence_ok_append patch d f : fence_ok f -> fence_ok (appendFencePatch marshal patch d f).
Proof.
  intros Hf. unfold appendFencePatch. case_if; [done|]. case_if; [done|]. cbv zeta.
  case_if; [done|]. zprop. intros _. cbn [fe_pending fe_cutRev fe_expectedRev].
  rewrite map_app. eapply chain_app; [by apply Hf|]. cbn. split_and!; [done|lia|done].
Qed.

Lemma link_enqueue_cases closed f l :
  link_enqueue closed f l = (true, set_lk_sink (put_frame f (lk_sink l)) l) /\ closed = false \/
  link_enqueue closed f l = (false, l).
Proof.
  unfold link_enqueue.
  destruct (tryEnqueue_cases (lk_sink l) closed f) as [(H1 & H2 & H3)|(H1 & H2)];
    destruct (tryEnqueue closed f (lk_sink l)) as [[[ok why] n] sk]; cbn in *; subst.
  - by left.
  - right. by destruct l.
Qed.

Lemma link_ok_silent bk s f l :
  silent bk s f -> link_ok bk s l -> link_ok bk s (set_lk_sink (put_frame f (lk_sink l)) l).
Proof.
  intros Hf (pos & Hpos & Hrest). exists pos. split; [|done].
  cbn [lk_sink set_lk_sink put_frame sk_log]. by rewrite client_pos_silent.
Qed.

Lemma link_ok_enqueue_silent bk s closed f l :
  silent bk s f -> link_ok bk s l -> link_ok bk s (snd (link_enqueue closed f l)).
Proof.
  intros Hf Hl. destruct (link_enqueue_cases closed f l) as [[-> _]| ->]; [|done].
  by apply link_ok_silent.
Qed.

Lemma link_ok_mark bk s l :
  lk_fence l = None -> link_ok bk s l -> link_ok bk s (set_lk_invalidated true l).
Proof. intros Hf (pos & Hpos & _). exists pos. split; [done|]. cbn. rewrite Hf. by left. Qed.

Lemma link_patch_ok bk s closed epoch bc patch l :
  link_ok bk s l -> link_ok bk s (link_patch marshal closed epoch bk s bc patch l).
Proof.
  intros Hl. unfold link_patch. destruct (lk_fence l) as [f|] eqn:Hf.
  - destruct Hl as (pos & Hpos & Hrest). exists pos. split; [done|]. cbn. rewrite Hf in Hrest.
    by apply fence_ok_append.
  - destruct (lk_invalidated l || _)%bool eqn:Hi; [done|]. zprop.
    destruct (_ && _)%bool eqn:Hgap.
    + apply link_ok_mark; [|apply link_ok_enqueue_silent; [apply silent_invalidate|done]].
      by destruct (link_enqueue_cases closed (invalidate_frame epoch bk s) l) as [[-> _]| ->].
    + destruct (link_enqueue_cases closed (patch_frame epoch bk s patch) l) as [[-> _]| ->].
      * destruct Hl as (pos & Hpos & Hrest). rewrite Hf in Hrest.
        destruct Hrest as [Hrest|Hrest]; [congruence|]. exists (pt_SyncRev patch). split.
        -- cbn [lk_sink set_lk_cut set_lk_sink put_frame sk_log]. rewrite client_pos_app, Hpos.
           cbn [mbind option_bind]. rewrite client_run_cons, client_step_patch. unfold continues. rewrite <- Hrest.
           rewrite (proj2 (Z.ltb_lt _ _)) by lia.
           destruct (lk_cut l =? 0); [done|]. destruct (pt_BaseRev patch =? lk_cut l); done.
        -- cbn. rewrite Hf. by right.
      * destruct bc; [by apply link_ok_mark|done].
Qed.

(** The machine of another session on the same connection. *)
Lemma link_patch_other bk s b' s' closed epoch bc patch l l' :
  (b', s') <> (bk, s) -> link_ok bk s l' -> lk_sink l' = lk_sink l ->
  link_ok bk s (set_lk_sink (lk_sink (link_patch marshal closed epoch b' s' bc patch l)) l').
Proof.
  intros Hne Hl Hs. assert (set_lk_sink (lk_sink l) l' = l') as Hsame by (rewrite <- Hs; by destruct l').
  assert (forall f, silent bk s f -> link_ok bk s
    (set_lk_sink (lk_sink (snd (link_enqueue closed f l))) l')) as Henq.
  { intros f Hf. destruct (link_enqueue_cases closed f l) as [[-> _]| ->]; cbn; [|by rewrite Hsame].
    rewrite <- Hs. by apply link_ok_silent. }
  unfold link_patch. destruct (lk_fence l); [cbn; by rewrite Hsame|].
  destruct (lk_invalidated l || _)%bool; [by rewrite Hsame|].
  destruct (_ && _)%bool; [cbn; apply Henq, silent_invalidate|].
  pose proof (Henq (patch_frame epoch b' s' patch) (silent_other _ _ _ _ _ _ Hne)) as He.
  destruct (link_enqueue _ _ _) as [ok l2]. cbn in He. by destruct ok, bc.
Qed.
End link_ok.

(** ** The publisher keeps every client on the chain *)

Lemma link_ok_log bk s l l' :
  sk_log (lk_sink l') = sk_log (lk_sink l) -> lk_fence l' = lk_fence l ->
  lk_cut l' = lk_cut l -> lk_invalidated l' = lk_invalidated l ->
  link_ok bk s l -> link_ok bk s l'.
Proof. intros H1 H2 H3 H4 (pos & Hpos & Hrest). exists pos. rewrite H1, H2, H3, H4. done. Qed.

Lemma client_pos_silent_all bk s log fs :
  Forall (silent bk s) fs -> client_pos bk s (log ++ fs) = client_pos bk s log.
Proof.
  revert log. induction fs as [|f fs IH]; intros log Hall; [by rewrite app_nil_r|].
  inversion Hall; subst. rewrite (cons_middle f log fs), app_assoc, IH by done.
  by apply client_pos_silent.
Qed.

Lemma link_ok_silent_all bk s fs l :
  Forall (silent bk s) fs -> link_ok bk s l -> link_ok bk s (set_lk_sink (put_frames fs (lk_sink l)) l).
Proof.
  intros Hf (pos & Hpos & Hrest). exists pos. split; [|done].
  cbn [lk_sink set_lk_sink]. by rewrite put_frames_log, client_pos_silent_all.
Qed.

Lemma client_run_chain bk s epoch ps r h :
  chain r ps h -> client_run bk s r (map (patch_frame epoch bk s) ps) = Some h.
Proof.
  revert r. induction ps as [|q ps IH]; intros r; cbn [chain map]; [by intros ->|].
  intros (Hb & Hs & Hc). rewrite client_run_cons, client_step_patch. unfold continues.
  rewrite (proj2 (Z.ltb_lt _ _) Hs), Hb, Z.eqb_refl, orb_true_r. cbn [andb mbind option_bind].
  by apply IH.
Qed.

Lemma chain_map (g : projectionFencePendingPatch -> ProjectionPatch) l r h :
  (forall f, pt_BaseRev (g f) = pt_BaseRev (fp_patch f) /\ pt_SyncRev (g f) = pt_SyncRev (fp_patch f)) ->
  chain r (map fp_patch l) h -> chain r (map g l) h.
Proof.
  intros Hg. revert r. induction l as [|f l IH]; intros r; cbn [chain map]; [done|].
  destruct (Hg f) as [-> ->]. intros (Hb & Hs & Hc). auto.
Qed.

Section inv.
Context {K : Type} `{!ProjectionHead K}.
Context (marshal : ProjectionPatch -> option nat).
Implicit Types p : EventPublisher (K := K).

(** For every connection that is not being closed, every session. *)
Definition publisher_ok p : Prop :=
  forall c bk s, c ∉ closing p -> link_ok bk s (link_of c bk s p).

Lemma publisher_ok_same p p' :
  (forall c bk s, c ∉ closing p' -> link_of c bk s p' = link_of c bk s p) ->
  closing p ⊆ closing p' -> publisher_ok p -> publisher_ok p'.
Proof. intros Hl Hc Hp c bk s Hn. rewrite Hl by done. apply Hp. set_solver. Qed.

Lemma publisher_ok_op conn bk s p p' l :
  publisher_ok p -> link_op conn bk s p p' l ->
  (link_ok bk s (link_of conn bk s p) -> link_ok bk s l) ->
  (forall bk' s' l', (bk', s') <> (bk, s) -> lk_sink l' = sink_of conn p -> link_ok bk' s' l' ->
     link_ok bk' s' (set_lk_sink (lk_sink l) l')) ->
  publisher_ok p'.
Proof.
  intros Hp [W O L] Hl Hother c bk' s' Hn.
  assert (c ∉ closing p) as Hnp by (destruct W as (_&_&_&_&_&_&Hc&_); congruence).
  destruct (decide ((bk', s') = (bk, s))) as [[= -> ->]|Hne].
  - destruct (decide (c = conn)) as [->|Hc]; [rewrite L; by apply Hl, Hp|].
    rewrite (other_link_of conn bk s p p' c O Hc). by apply Hp.
  - destruct O as [O1 O2]. destruct (O2 c bk' s') as (E1 & E2 & E3); [congruence|].
    pose proof (Hp c bk' s' Hnp) as Hold.
    destruct (decide (c = conn)) as [->|Hc].
    + eapply link_ok_log; [..|exact (Hother bk' s' (link_of conn bk' s' p) Hne eq_refl Hold)]; try done.
      * cbn [lk_sink set_lk_sink link_of]. rewrite <- L. done.
      * cbn. by apply bool_decide_ext.
    + eapply link_ok_log; [..|exact Hold]; try done.
      * cbn [lk_sink link_of]. by rewrite O1.
      * cbn. by apply bool_decide_ext.
Qed.

(** Frames of no session's revision, in any number. *)
Lemma publisher_ok_put conn fs p :
  (forall bk s, Forall (silent bk s) fs) ->
  publisher_ok p -> publisher_ok (put_sink conn (put_frames fs (sink_of conn p)) p).
Proof.
  intros Hf Hp c bk s Hn.
  pose proof (Hp c bk s Hn) as Hold. unfold link_of. cbn. rewrite sink_of_put.
  case_decide as Hc; [subst|exact Hold].
  exact (link_ok_silent_all bk s fs (link_of conn bk s p) (Hf bk s) Hold).
Qed.

Lemma publisher_ok_enqueue conn f p :
  (forall bk s, silent bk s f) -> publisher_ok p -> publisher_ok (snd (enqueue conn f p)).
Proof.
  intros Hf Hp. unfold enqueue.
  destruct (tryEnqueue_cases (sink_of conn p) (conn_isClosed conn p) f) as [(H1 & H2 & H3)|(H1 & H3)];
    destruct (tryEnqueue _ f _) as [[[ok why] n] sk]; cbn in *; subst.
  - apply (publisher_ok_put conn [f]); [|done]. intros. constructor; [apply Hf|constructor].
  - by apply (publisher_ok_put conn []).
Qed.

Lemma publisher_ok_close conn p : publisher_ok p -> publisher_ok (close_conn conn p).
Proof. apply publisher_ok_same; [done|]. cbn. set_solver. Qed.

(** A step of the writing goroutine. *)
Lemma publisher_ok_sink_step conn s' p :
  sink_step (conn_isClosed conn p) (sink_of conn p) s' -> publisher_ok p ->
  publisher_ok (put_sink conn s' p).
Proof.
  intros Hstep Hp c bk s Hn.
  apply (link_ok_log bk s (link_of c bk s p)); [|done|done|done|by apply Hp].
  cbn [lk_sink link_of]. rewrite sink_of_put. case_decide as Hc; [subst|done].
  inversion Hstep; subst; [unfold run_take|unfold run_written|unfold run_drain];
    repeat case_match; done.
Qed.

(** *** Delivery *)

Lemma publisher_ok_single conn bk s patch p :
  publisher_ok p -> publisher_ok (deliverSingleConnPatchLocked marshal conn bk s patch p).
Proof.
  intros Hp. eapply publisher_ok_op; [exact Hp|apply deliverSingle_link|apply link_patch_ok|].
  intros bk' s' l' Hne Hs Hl'. apply link_patch_other; [congruence|done|done].
Qed.

Lemma publisher_ok_invalidate conn bk s p :
  publisher_ok p -> publisher_ok (enqueueProjectionInvalidateLocked conn bk s p).
Proof.
  intros Hp. unfold enqueueProjectionInvalidateLocked. cbv zeta.
  apply publisher_ok_enqueue; [intros; apply silent_invalidate|exact Hp].
Qed.

Context (AuthedDevice : Connection -> option string).

Lemma publisher_ok_target bk s patch now p conn :
  publisher_ok p -> publisher_ok (deliver_target marshal AuthedDevice bk s patch now p conn).
Proof.
  intros Hp. eapply publisher_ok_op; [exact Hp|apply deliver_target_link| |].
  - intros Hl. destruct (wants_patch _ _ _ _ _ _); [by apply link_patch_ok|done].
  - intros bk' s' l' Hne Hs Hl'. destruct (wants_patch _ _ _ _ _ _).
    + apply link_patch_other; [congruence|done|done].
    + cbn. rewrite <- Hs. by destruct l'.
Qed.

Lemma publisher_ok_fence conn bk s f f' p :
  projectionFences p !! fence_key conn bk s = Some f -> (fence_ok f -> fence_ok f') ->
  publisher_ok p -> publisher_ok (put_fence (fence_key conn bk s) f' p).
Proof.
  intros Hf Hok Hp. eapply publisher_ok_op; [exact Hp|apply link_op_fence| |].
  - intros (pos & Hpos & Hrest). exists pos. split; [done|]. cbn in Hrest |- *.
    rewrite Hf in Hrest. auto.
  - intros bk' s' l' Hne Hs Hl'. cbn. rewrite <- Hs. by destruct l'.
Qed.

Lemma publisher_ok_fold {A : Type} (op : EventPublisher -> A -> EventPublisher) l p :
  (forall q a, publisher_ok q -> publisher_ok (op q a)) -> publisher_ok p ->
  publisher_ok (fold_left op l p).
Proof. intros Hop. revert p. induction l; intros p Hp; cbn; auto. Qed.

Lemma publisher_ok_deliver bk s patch now p :
  publisher_ok p -> publisher_ok (deliverProjectionPatchLocked marshal AuthedDevice bk s patch now p).
Proof.
  intros Hp. unfold deliverProjectionPatchLocked. destruct (has_v2_conns p); [|done].
  apply publisher_ok_fold; [|done]. intros q c. apply publisher_ok_target.
Qed.

Lemma publisher_ok_record bk s patch now p :
  publisher_ok p -> publisher_ok (recordProjectionPatchLocked marshal bk s patch now p).
Proof.
  intros Hp. unfold recordProjectionPatchLocked. by destruct (Record_ _ _ _ _ _ _) as [[? j]|].
Qed.

Lemma publisher_ok_publish bk s patch now p :
  publisher_ok p -> publisher_ok (PublishProjectionPatch marshal AuthedDevice bk s patch now p).
Proof. intros Hp. apply publisher_ok_deliver. by apply publisher_ok_record. Qed.

Lemma publisher_ok_flush bk s now p :
  publisher_ok p -> publisher_ok (snd (FlushPatchAndRecord marshal AuthedDevice bk s now p)).
Proof.
  intros Hp. unfold FlushPatchAndRecord. destruct (head_flush _ _ _) as [[patch|] k]; [|done].
  cbn. apply publisher_ok_publish. exact Hp.
Qed.

Lemma publisher_ok_prepend bk s rev requester p :
  publisher_ok p -> publisher_ok (PublishProjectionPrepend marshal bk s rev requester p).
Proof.
  intros Hp. unfold PublishProjectionPrepend. destruct (has_v2_conns p); [|done].
  apply publisher_ok_fold; [|done]. intros q c Hq. unfold prepend_target.
  case_if; [done|]. case_if; [|by apply publisher_ok_invalidate].
  cbv zeta. case_if; [done|]. by apply publisher_ok_single.
Qed.

Lemma publisher_ok_detail_target bk s commit requester p c :
  publisher_ok p -> publisher_ok (detail_target marshal bk s commit requester p c).
Proof.
  intros Hp. unfold detail_target. case_if; [done|]. case_if; [by apply publisher_ok_single|].
  cbv zeta.
  assert (publisher_ok
    (if (projectionSnapshotCuts p !!0 fence_key c bk s =? 0)
        || (projectionSnapshotCuts p !!0 fence_key c bk s >=? pt_SyncRev commit)
     then p else deliverSingleConnPatchLocked marshal c bk s
       (noop_patch (projectionSnapshotCuts p !!0 fence_key c bk s) (pt_SyncRev commit)) p)) as Hnoop
    by (case_if; [done|by apply publisher_ok_single]).
  destruct (projectionFences p !! fence_key c bk s) as [f|] eqn:Hf; [|exact Hnoop].
  destruct (fe_invalidated f); [exact Hnoop|].
  eapply publisher_ok_fence; [exact Hf|apply fence_ok_append|done].
Qed.

Lemma publisher_ok_detail bk s patches requester now p :
  publisher_ok p ->
  publisher_ok (PublishProjectionDetail marshal AuthedDevice bk s patches requester now p).
Proof.
  intros Hp. unfold PublishProjectionDetail. case_if; [done|].
  destruct (last patches) as [commit|]; [|done]. case_if; [done|]. cbv zeta.
  apply publisher_ok_fold; [intros q c; apply publisher_ok_detail_target|].
  apply publisher_ok_fold; [intros q live; apply publisher_ok_deliver|].
  apply publisher_ok_fold; [|done]. intros q patch Hq. case_if; [done|].
  by apply publisher_ok_record.
Qed.

(** *** Pulls *)

Lemma link_of_register conn p c bk s :
  link_of c bk s (snd (registerConnectionLocked conn p)) = link_of c bk s p.
Proof. unfold registerConnectionLocked. by destruct (negb _). Qed.

Lemma link_of_sinkLocked conn p c bk s : link_of c bk s (sinkLocked conn p) = link_of c bk s p.
Proof.
  unfold link_of, sinkLocked. rewrite sink_of_put. cbn. by case_decide; subst.
Qed.

Lemma publisher_ok_register conn p : publisher_ok p -> publisher_ok (RegisterConnection conn p).
Proof.
  apply publisher_ok_same; unfold RegisterConnection.
  - intros c bk s _. by rewrite link_of_sinkLocked, link_of_register.
  - cbn. unfold registerConnectionLocked. by destruct (negb _).
Qed.

Lemma publisher_ok_begin conn bk s p :
  publisher_ok p -> publisher_ok (snd (beginProjectionSnapshotLocked conn bk s p)).
Proof.
  intros Hp. unfold beginProjectionSnapshotLocked. cbv zeta.
  destruct (projectionFences p !! fence_key conn bk s) as [f|] eqn:Hf; [done|].
  destruct (head_snapshot _ _ _) as [proj|]; [|done].
  destruct (registerConnectionLocked conn p) as [gen p1] eqn:Hreg. cbn [snd].
  set (p2 := set_nextProjectionFenceID _ (sinkLocked conn p1)).
  assert (forall c b' s', link_of c b' s' p2 = link_of c b' s' p) as Hlink.
  { intros c b' s'. change (link_of c b' s' p2) with (link_of c b' s' (sinkLocked conn p1)).
    rewrite link_of_sinkLocked. replace p1 with (snd (registerConnectionLocked conn p)) by (by rewrite Hreg).
    apply link_of_register. }
  assert (publisher_ok p2) as Hp2.
  { apply (publisher_ok_same p); [intros; apply Hlink| |done].
    unfold p2. cbn. replace p1 with (snd (registerConnectionLocked conn p)) by (by rewrite Hreg).
    unfold registerConnectionLocked. by destruct (negb _). }
  set (f0 := mkFence _ _ _ _ _ _ _). clearbody p2.
  pose proof (link_op_fence conn bk s f0 p2) as H1.
  pose proof (link_op_unmark conn bk s (put_fence (fence_key conn bk s) f0 p2)) as H2.
  rewrite (lo_link _ _ _ _ _ _ H1) in H2.
  eapply publisher_ok_op; [exact Hp2|eapply link_op_then; [exact H1|exact H2]| |].
  - intros (pos & Hpos & _). exists pos. split; [done|]. cbn. intros _. done.
  - intros b' s' l' Hne Hs Hl'. cbn. rewrite <- Hs. by destruct l'.
Qed.

Lemma link_op_unfence conn bk s p :
  link_op conn bk s p (set_projectionFences (delete (fence_key conn bk s) (projectionFences p)) p)
    (set_lk_fence None (link_of conn bk s p)).
Proof.
  split; [done| |].
  - split; [done|]. intros c b' s' Hne. cbn. rewrite lookup_delete_ne; [done|].
    unfold fence_key. congruence.
  - unfold link_of, set_lk_fence. cbn. by rewrite lookup_delete_eq.
Qed.

Lemma resolve_revs conn bk s p f :
  pt_BaseRev (resolve_pending conn bk s p f) = pt_BaseRev (fp_patch f) /\
  pt_SyncRev (resolve_pending conn bk s p f) = pt_SyncRev (fp_patch f).
Proof. unfold resolve_pending. by destruct (_ && _)%bool. Qed.

Lemma silent_result bk s b' s' req data err cut :
  (b', s') <> (bk, s) -> silent bk s (result_frame req data err b' s' cut).
Proof. intros Hne r. unfold client_step. cbn. rewrite decide_False; [done|]. naive_solver. Qed.

Lemma client_step_result bk s req data err cut r :
  client_step bk s (result_frame req data err bk s cut) r = Some cut.
Proof. unfold client_step. cbn. by rewrite decide_True. Qed.

(** The batch of a completion: the result, then the patches held back. *)
Definition completion_batch epoch bk s req data err cut (ps : list ProjectionPatch)
  : list eventOutboundFrame :=
  result_frame req data err bk s cut :: map (patch_frame epoch bk s) ps.

Lemma client_pos_batch epoch bk s req data err cut ps h log pos :
  client_pos bk s log = Some pos -> chain cut ps h ->
  client_pos bk s (log ++ completion_batch epoch bk s req data err cut ps) = Some h.
Proof.
  intros Hpos Hc. rewrite client_pos_app, Hpos. cbn [mbind option_bind]. unfold completion_batch.
  rewrite client_run_cons, client_step_result. by apply client_run_chain.
Qed.

Lemma silent_batch epoch bk s b' s' req data err cut ps :
  (b', s') <> (bk, s) ->
  Forall (silent bk s) (completion_batch epoch b' s' req data err cut ps).
Proof.
  intros Hne. constructor; [by apply silent_result|].
  apply Forall_fmap, Forall_true. intros q. by apply silent_other.
Qed.

(** The fence is taken down and frames are put. *)
Definition unfence conn bk s p : EventPublisher :=
  set_projectionFences (delete (fence_key conn bk s) (projectionFences p)) p.

Lemma link_op_release conn bk s fs p :
  link_op conn bk s p (put_sink conn (put_frames fs (sink_of conn p)) (unfence conn bk s p))
    (set_lk_sink (put_frames fs (sink_of conn p)) (set_lk_fence None (link_of conn bk s p))).
Proof.
  pose proof (link_op_unfence conn bk s p) as H1. eapply link_op_then; [exact H1|].
  rewrite <- (lo_link _ _ _ _ _ _ H1). apply link_op_put_sink.
Qed.

(** The last steps of a completion whose fence held its patches. *)
Lemma link_op_batch conn bk s rev fs p :
  link_op conn bk s p
    (unmark_invalidated (fence_key conn bk s) (set_cut (fence_key conn bk s) rev
       (put_sink conn (put_frames fs (sink_of conn p)) (unfence conn bk s p))))
    (mkLink (put_frames fs (sink_of conn p)) None rev false).
Proof.
  pose proof (link_op_release conn bk s fs p) as H2. eapply link_op_then; [exact H2|].
  set (q := put_sink _ _ _) in *. pose proof (link_op_cut conn bk s rev q) as H3.
  rewrite (lo_link _ _ _ _ _ _ H2) in H3. eapply link_op_then; [exact H3|].
  pose proof (link_op_unmark conn bk s (set_cut (fence_key conn bk s) rev q)) as H5.
  by rewrite (lo_link _ _ _ _ _ _ H3) in H5.
Qed.

Lemma complete_batch_ok conn bk s req data err f ps p :
  publisher_ok p ->
  (link_ok bk s (link_of conn bk s p) -> chain (fe_cutRev f) ps (fe_expectedRev f)) ->
  publisher_ok
    (unmark_invalidated (fence_key conn bk s) (set_cut (fence_key conn bk s) (fe_expectedRev f)
       (put_sink conn
          (put_frames (completion_batch (bridgeEpoch p) bk s req data err (fe_cutRev f) ps)
             (sink_of conn p)) (unfence conn bk s p)))).
Proof.
  intros Hp Hc. eapply publisher_ok_op; [exact Hp|apply link_op_batch| |].
  - intros Hl. specialize (Hc Hl). destruct Hl as (pos & Hpos & _).
    exists (fe_expectedRev f). split; [|by right].
    cbn [lk_sink]. rewrite put_frames_log. by apply (client_pos_batch _ _ _ _ _ _ _ _ _ _ pos).
  - intros b' s' l' Hne Hs Hl'. cbn [lk_sink]. rewrite <- Hs.
    apply link_ok_silent_all; [|done]. apply silent_batch. congruence.
Qed.

Lemma complete_invalidated_ok conn bk s req data err cut p :
  publisher_ok p ->
  publisher_ok
    (mark_invalidated (fence_key conn bk s)
       (put_sink conn
          (put_frames [result_frame req data err bk s cut; invalidate_frame (bridgeEpoch p) bk s]
             (sink_of conn p)) (unfence conn bk s p))).
Proof.
  intros Hp. set (fs := [_; _]). pose proof (link_op_release conn bk s fs p) as H2.
  set (q := put_sink _ _ _) in *. pose proof (link_op_mark conn bk s q) as H3.
  rewrite (lo_link _ _ _ _ _ _ H2) in H3.
  eapply publisher_ok_op; [exact Hp|eapply link_op_then; [exact H2|exact H3]| |].
  - intros (pos & Hpos & _). exists cut. split; [|by left].
    cbn [lk_sink set_lk_invalidated set_lk_sink]. rewrite put_frames_log, client_pos_app.
    cbn in Hpos. rewrite Hpos. cbn [mbind option_bind].
    unfold fs. rewrite client_run_cons, client_step_result. cbn [mbind option_bind].
    by rewrite client_run_cons, silent_invalidate.
  - intros b' s' l' Hne Hs Hl'. cbn [lk_sink set_lk_invalidated set_lk_sink].
    rewrite <- Hs. apply link_ok_silent_all; [|done].
    constructor; [by apply silent_result; congruence|].
    constructor; [apply silent_invalidate|constructor].
Qed.

Lemma complete_full_ok conn bk s p :
  publisher_ok p ->
  publisher_ok (close_conn conn (clearConnWindowTurnsLocked conn bk s (unfence conn bk s p))).
Proof.
  intros Hp c b' s' Hn. cbn in Hn. assert (c <> conn) as Hc by set_solver.
  change (link_ok b' s' (link_of c b' s' (unfence conn bk s p))).
  destruct (lo_other _ _ _ _ _ _ (link_op_unfence conn bk s p)) as [O1 O2].
  destruct (O2 c b' s') as (E1 & E2 & E3); [congruence|].
  eapply link_ok_log; [..|apply (Hp c b' s')]; [done|exact E1|exact E2| |set_solver].
  cbn. by apply bool_decide_ext.
Qed.

(** The state a completion works on: the turns recorded, the sink made. *)
Definition completion_turns conn bk s (held : list string) (f : projectionSnapshotFence) p
  : EventPublisher :=
  if bool_decide (held <> []) && negb (fe_invalidated f)
  then recordConnWindowTurnsLocked conn bk s held p else p.
Definition completion_start conn bk s (held : list string) (f : projectionSnapshotFence) p
  : EventPublisher := sinkLocked conn (completion_turns conn bk s held f p).

Lemma completion_start_link conn bk s held f p c b' s' :
  link_of c b' s' (completion_start conn bk s held f p) = link_of c b' s' p.
Proof.
  unfold completion_start, completion_turns. rewrite link_of_sinkLocked.
  by destruct (_ && _)%bool.
Qed.

Lemma completion_start_ok conn bk s held f p :
  publisher_ok p -> publisher_ok (completion_start conn bk s held f p).
Proof.
  apply publisher_ok_same; [intros; apply completion_start_link|].
  unfold completion_start, completion_turns. cbn. by destruct (_ && _)%bool.
Qed.

Lemma admitted_fence_Some conn adm p f :
  admitted_fence conn adm p = Some f ->
  projectionFences p !! fence_key conn (ad_BackendID adm) (ad_SessionID adm) = Some f.
Proof.
  unfold admitted_fence. destruct (projectionFences p !! _) as [f0|]; [|done].
  destruct (bool_decide _); [by intros [= ->]|done].
Qed.

Lemma publisher_ok_complete conn adm req data held err p :
  publisher_ok p ->
  publisher_ok (snd (completeProjectionSnapshot conn adm req data held err p)).
Proof.
  intros Hp. unfold completeProjectionSnapshot. case_if; [done|]. cbv zeta.
  destruct (admitted_fence conn adm p) as [f|] eqn:Hadm; [|by apply publisher_ok_close].
  apply admitted_fence_Some in Hadm.
  set (bk := ad_BackendID adm) in *. set (s := ad_SessionID adm) in *.
  fold (completion_turns conn bk s held f p).
  fold (completion_start conn bk s held f p).
  pose proof (completion_start_ok conn bk s held f p Hp) as Hp2.
  fold (unfence conn bk s (completion_start conn bk s held f p)).
  destruct (free_slots _ <? _); [by apply complete_full_ok|].
  destruct (fe_invalidated f) eqn:Hinv; cbn [snd].
  - apply (complete_invalidated_ok conn bk s req data err (fe_cutRev f)). exact Hp2.
  - apply complete_batch_ok; [exact Hp2|].
    intros (pos & _ & Hrest). rewrite completion_start_link in Hrest. cbn in Hrest.
    rewrite Hadm in Hrest.
    apply (chain_map (resolve_pending conn bk s _)); [apply resolve_revs|by apply Hrest].
Qed.

(** *** Connections *)

Lemma publisher_ok_unregister conn p : publisher_ok p -> publisher_ok (UnregisterConnection conn p).
Proof.
  intros Hp c bk s Hn. pose proof (Hp c bk s Hn) as Hold. destruct (decide (c = conn)) as [->|Hc].
  - exists 0. unfold link_of. cbn. unfold sink_of. cbn. rewrite lookup_delete_eq.
    split; [done|]. rewrite !(proj2 (map_lookup_filter_None _ _ _)).
    + by right.
    + right. intros x _ Hx. by apply Hx.
    + right. intros x _ Hx. by apply Hx.
  - assert (forall (A : Type) (m : gmap projectionFenceKey A),
      filter (not_of conn) m !! fence_key c bk s = m !! fence_key c bk s) as Hfilter.
    { intros A m. destruct (m !! fence_key c bk s) as [x|] eqn:Hm.
      - by apply map_lookup_filter_Some.
      - apply map_lookup_filter_None. by left. }
    eapply link_ok_log; [..|exact Hold]; cbn.
    + unfold sink_of. cbn. by rewrite lookup_delete_ne.
    + apply Hfilter.
    + by rewrite Hfilter.
    + apply bool_decide_ext. rewrite elem_of_filter. cbn. naive_solver.
Qed.

Lemma publisher_ok_control conn frame wait p :
  publisher_ok p -> publisher_ok (snd (EnqueueControl conn frame wait p)).
Proof.
  intros Hp. unfold EnqueueControl. cbv zeta. case_if; cbn [snd].
  - apply (publisher_ok_put conn [control_frame frame wait]); [|done].
    intros bk s. constructor; [by intros r|constructor].
  - apply publisher_ok_close. by apply (publisher_ok_put conn []).
Qed.
End inv.
