(* ===== verification/PublisherStream.v ===== *)
(** * From a pull to the live stream

    The effect of a run of commits on a connection: behind a fence they are held
    back, or the fence gives up; on the stream they are queued. With the completion
    of the pull this gives the hand-over of one connection, whatever the other
    connections do. *)

From S2P Require Import Prelude.
From S2P Require Import Wire.
From S2P Require Import Projection.
From S2P Require Import RevisionJournal.
From S2P Require Import Kernel.
From S2P Require Import Broadcaster.
From S2P Require Import Observation.
From S2P Require Import OutboundSink.
From S2P Require Import Publisher.
From S2P Require Import PublisherLink.
From S2P Require Import PublisherChain.

Section machine.
Context (marshal : ProjectionPatch -> option nat).

Definition patches_bytes (ps : list ProjectionPatch) : Z := sum_with (encoded_length marshal) ps.

(** The patches a fence can hold. *)
Definition fits (f : projectionSnapshotFence) (ps : list ProjectionPatch) : bool :=
  (zlen (fe_pending f) + zlen ps <=? projectionFenceMaxPatches)
  && (fe_pendingBytes f + patches_bytes ps <=? projectionFenceMaxBytes).

Lemma patches_bytes_nonneg ps : 0 <= patches_bytes ps.
Proof. apply sum_with_nonneg, Forall_true. intros q. unfold encoded_length. lia. Qed.

Lemma append_invalid ps f :
  fe_invalidated f = true ->
  fold_left (fun f q => appendFencePatch marshal q false f) ps f = f.
Proof.
  intros Hf. induction ps as [|q ps IH]; [done|]. cbn. unfold appendFencePatch at 2.
  by rewrite Hf, orb_true_r.
Qed.

Definition has_no_room (q : ProjectionPatch) (f : projectionSnapshotFence) : bool :=
  (zlen (fe_pending f) + 1 >? projectionFenceMaxPatches)
  || (fe_pendingBytes f + encoded_length marshal q >? projectionFenceMaxBytes).

(** The next patch of the chain. *)
Lemma append_next q f :
  fe_invalidated f = false -> pt_BaseRev q = fe_expectedRev f -> fe_expectedRev f < pt_SyncRev q ->
  appendFencePatch marshal q false f =
  if has_no_room q f then invalid_fence f
  else mkFence (fe_id f) (fe_generation f) (fe_cutRev f) (pt_SyncRev q)
         (fe_pending f ++ [mkPendingPatch q false]) (fe_pendingBytes f + encoded_length marshal q)
         false.
Proof.
  intros Hinv Hbase Hsync. unfold appendFencePatch.
  by rewrite Hinv, (proj2 (Z.leb_gt _ _)), Hbase, Z.eqb_refl by lia.
Qed.

(** A fence takes the commits in order, or gives up at the first it has no room for. *)
Lemma append_run ps f h :
  fe_invalidated f = false -> chain (fe_expectedRev f) ps h ->
  zlen (fe_pending f) <= projectionFenceMaxPatches ->
  fe_pendingBytes f <= projectionFenceMaxBytes ->
  let f' := fold_left (fun f q => appendFencePatch marshal q false f) ps f in
  if fits f ps
  then f' = mkFence (fe_id f) (fe_generation f) (fe_cutRev f) h
              (fe_pending f ++ map (fun q => mkPendingPatch q false) ps)
              (fe_pendingBytes f + patches_bytes ps) false
  else fe_invalidated f' = true /\ fe_id f' = fe_id f /\ fe_generation f' = fe_generation f
       /\ fe_cutRev f' = fe_cutRev f.
Proof.
  revert f. induction ps as [|q ps IH]; intros f Hinv Hc Hn Hb; cbn [fold_left].
  - unfold fits, patches_bytes. cbn [sum_with length] in *. cbn in Hc.
    rewrite (proj2 (Z.leb_le _ _)), (proj2 (Z.leb_le _ _)) by lia. cbn [andb map].
    rewrite app_nil_r, Z.add_0_r, <- Hc, <- Hinv. by destruct f.
  - destruct Hc as (Hbase & Hsync & Hc). rewrite (append_next q f Hinv Hbase Hsync).
    pose proof (patches_bytes_nonneg ps) as Hps.
    assert (0 <= encoded_length marshal q) as Hq by (unfold encoded_length; lia).
    destruct (has_no_room q f) eqn:Hover; unfold has_no_room in Hover.
    + rewrite append_invalid by done.
      assert (fits f (q :: ps) = false) as ->.
      { unfold fits, patches_bytes in *. cbn [sum_with length].
        zprop; destruct Hover; zprop; apply andb_false_iff; [left|right]; apply Z.leb_gt; lia. }
      done.
    + zprop. specialize (IH (mkFence (fe_id f) (fe_generation f) (fe_cutRev f) (pt_SyncRev q)
        (fe_pending f ++ [mkPendingPatch q false]) (fe_pendingBytes f + encoded_length marshal q)
        false)). cbn [fe_invalidated fe_expectedRev fe_pending fe_pendingBytes fe_id fe_generation
        fe_cutRev] in IH. rewrite length_app in IH. cbn [length] in IH.
      specialize (IH eq_refl Hc ltac:(lia) ltac:(lia)).
      assert (fits (mkFence (fe_id f) (fe_generation f) (fe_cutRev f) (pt_SyncRev q)
        (fe_pending f ++ [mkPendingPatch q false]) (fe_pendingBytes f + encoded_length marshal q)
        false) ps = fits f (q :: ps)) as Hfits.
      { unfold fits, patches_bytes. cbn [fe_pending fe_pendingBytes sum_with length].
        rewrite length_app. cbn [length]. f_equal; f_equal; lia. }
      rewrite Hfits in IH. destruct (fits f (q :: ps)); [|exact IH].
      rewrite IH. unfold patches_bytes. cbn [sum_with map]. rewrite <- app_assoc. f_equal. lia.
Qed.

Lemma pending_le ps f :
  fe_pending f = [] -> zlen (fe_pending (fold_left (fun f q => appendFencePatch marshal q false f) ps f))
    <= zlen ps.
Proof.
  assert (forall f, zlen (fe_pending (fold_left (fun f q => appendFencePatch marshal q false f) ps f))
    <= zlen (fe_pending f) + zlen ps) as Hgen.
  { clear f. induction ps as [|q ps IH]; intros f; cbn [fold_left length]; [lia|].
    specialize (IH (appendFencePatch marshal q false f)).
    assert (zlen (fe_pending (appendFencePatch marshal q false f)) <= zlen (fe_pending f) + 1); [|lia].
    unfold appendFencePatch. case_if; [lia|]. case_if; [cbn; lia|]. cbv zeta. case_if; [cbn; lia|].
    cbn [fe_pending]. rewrite length_app. cbn. lia. }
  intros Hf. specialize (Hgen f). rewrite Hf in Hgen. exact Hgen.
Qed.

(** A connection marked as told to pull again takes no patch. *)
Lemma marked_takes_nothing closed epoch bk s bc q l :
  lk_fence l = None -> lk_invalidated l = true -> link_patch marshal closed epoch bk s bc q l = l.
Proof. intros Hf Hi. unfold link_patch. by rewrite Hf, Hi. Qed.

Lemma marked_takes_none closed epoch bk s bc ps l :
  lk_fence l = None -> lk_invalidated l = true ->
  fold_left (fun l q => link_patch marshal closed epoch bk s bc q l) ps l = l.
Proof.
  intros Hf Hi. induction ps as [|q ps IH]; [done|]. cbn [fold_left]. by rewrite marked_takes_nothing.
Qed.

(** The revision a run of commits leads to. *)
Definition run_end (r : Z) (ps : list ProjectionPatch) : Z := from_option pt_SyncRev r (last ps).

Lemma run_end_cons r q ps : run_end r (q :: ps) = run_end (pt_SyncRev q) ps.
Proof. unfold run_end. rewrite last_cons. by destruct (last ps). Qed.

Lemma run_end_chain r ps h : chain r ps h -> run_end r ps = h.
Proof.
  revert r. induction ps as [|q ps IH]; intros r; [done|]. intros (_ & _ & Hc). rewrite run_end_cons. auto.
Qed.

(** A commit that finds no room marks the connection. *)
Lemma full_marks closed epoch bk s q l :
  lk_fence l = None -> lk_invalidated l = false -> lk_cut l < pt_SyncRev q -> pt_BaseRev q = lk_cut l ->
  free_slots (lk_sink l) <= 0 -> link_patch marshal closed epoch bk s true q l = set_lk_invalidated true l.
Proof.
  intros Hf Hi Hsync Hbase Hfull. unfold link_patch. rewrite Hf, Hi, (proj2 (Z.leb_gt _ _)), Hbase, Z.eqb_refl by done.
  rewrite andb_false_r. cbn [orb]. unfold link_enqueue, tryEnqueue.
  destruct closed; [by destruct l|]. destruct (sk_stopped _); [by destruct l|].
  unfold free_slots in Hfull. rewrite (proj2 (Z.ltb_ge _ _)) by lia. by destruct l.
Qed.

(** On the stream: the commits are queued, as many as there is room for; the first that
    finds none marks the connection. *)
Lemma stream_run epoch bk s ps l h :
  lk_fence l = None -> lk_invalidated l = false -> chain (lk_cut l) ps h -> sk_stopped (lk_sink l) = false ->
  let n := Z.to_nat (free_slots (lk_sink l)) in
  fold_left (fun l q => link_patch marshal false epoch bk s true q l) ps l =
  mkLink (put_frames (map (patch_frame epoch bk s) (take n ps)) (lk_sink l)) None
    (run_end (lk_cut l) (take n ps)) (bool_decide (n < length ps)%nat).
Proof.
  revert l. induction ps as [|q ps IH]; intros l Hf Hi Hc Hs n; cbn [fold_left].
  - rewrite take_nil, bool_decide_false by (cbn; lia). destruct l; cbn in *; by subst.
  - destruct Hc as (Hbase & Hsync & Hc). destruct (decide (free_slots (lk_sink l) <= 0)) as [Hfull|Hroom].
    + rewrite full_marks by done. rewrite marked_takes_none by done.
      replace n with 0%nat by (unfold n; lia). rewrite bool_decide_true by (cbn; lia). cbn. by rewrite <- Hf.
    + assert (link_patch marshal false epoch bk s true q l =
        set_lk_cut (pt_SyncRev q) (set_lk_sink (put_frame (patch_frame epoch bk s q) (lk_sink l)) l)) as ->.
      { unfold link_patch. rewrite Hf, Hi, (proj2 (Z.leb_gt _ _)), Hbase, Z.eqb_refl by lia.
        cbn [orb negb]. rewrite andb_false_r. unfold link_enqueue.
        by rewrite tryEnqueue_room by (done || lia). }
      set (l' := set_lk_cut _ _). specialize (IH l' Hf Hi Hc Hs). cbv zeta in IH.
      assert (n = S (Z.to_nat (free_slots (lk_sink l')))) as ->
        by (unfold n, l', free_slots in *; cbn; lia).
      rewrite IH. cbn [take map length]. rewrite run_end_cons. f_equal. apply bool_decide_ext. lia.
Qed.
End machine.

Section stream.
Context {K : Type} `{!ProjectionHead K}.
Context (marshal : ProjectionPatch -> option nat) (AuthedDevice : Connection -> option string).
Implicit Types p : EventPublisher (K := K).

(** A run of commits, published one after the other. *)
Definition publish_all (bk s : string) (now : Z) (ps : list ProjectionPatch) p : EventPublisher :=
  fold_left (fun p q => PublishProjectionPatch marshal AuthedDevice bk s q now p) ps p.

Lemma publish_link bk s now q p c :
  let p' := PublishProjectionPatch marshal AuthedDevice bk s q now p in
  c ∈ session_targets bk s p -> wants_patch AuthedDevice bk s now p c = true ->
  same_world p p' /\
  link_of c bk s p' =
    link_patch marshal (conn_isClosed c p) (bridgeEpoch p) bk s true q (link_of c bk s p).
Proof.
  intros p' Hin Hw. unfold p', PublishProjectionPatch.
  assert (forall r, same_world p r -> link_of c bk s r = link_of c bk s p ->
    same_world p (deliverProjectionPatchLocked marshal AuthedDevice bk s q now r) /\
    link_of c bk s (deliverProjectionPatchLocked marshal AuthedDevice bk s q now r) =
    link_patch marshal (conn_isClosed c p) (bridgeEpoch p) bk s true q (link_of c bk s p)) as Hgen.
  { intros r Hr Hl. destruct (deliver_link marshal AuthedDevice bk s q now r c) as (H1 & H2 & _).
    split; [by eapply same_world_trans|]. rewrite H1, Hl, (wants_patch_world _ _ _ _ _ _ _ Hr), Hw.
    destruct Hr as (_ & _ & Hb & Hc & He & _). unfold conn_isClosed. rewrite Hc, He.
    rewrite bool_decide_true; [done|].
    unfold session_targets, conn_isClosed in Hin |- *. by rewrite Hb, Hc. }
  unfold recordProjectionPatchLocked.
  destruct (Record_ _ _ _ _ _ _) as [[b j]|]; by apply Hgen.
Qed.

Lemma publish_all_link bk s now ps p c :
  c ∈ session_targets bk s p -> wants_patch AuthedDevice bk s now p c = true ->
  same_world p (publish_all bk s now ps p) /\
  link_of c bk s (publish_all bk s now ps p) =
  fold_left (fun l q => link_patch marshal (conn_isClosed c p) (bridgeEpoch p) bk s true q l) ps
    (link_of c bk s p).
Proof.
  revert p. induction ps as [|q ps IH]; intros p Hin Hw; [done|].
  destruct (publish_link bk s now q p c Hin Hw) as [Hsame Hl]. cbn [publish_all fold_left].
  destruct (IH (PublishProjectionPatch marshal AuthedDevice bk s q now p)) as [I1 I2].
  - destruct Hsame as (_ & _ & Hb & Hc & _). unfold session_targets, conn_isClosed in Hin |- *.
    by rewrite Hb, Hc.
  - by rewrite (wants_patch_world _ _ _ _ _ _ _ Hsame).
  - split; [by eapply same_world_trans|]. unfold publish_all in I2. rewrite I2, Hl.
    destruct Hsame as (_ & _ & _ & Hc & He & _). unfold conn_isClosed. by rewrite Hc, He.
Qed.

Lemma fence_run epoch closed bk s ps l f :
  lk_fence l = Some f ->
  fold_left (fun l q => link_patch marshal closed epoch bk s true q l) ps l =
  set_lk_fence (Some (fold_left (fun f q => appendFencePatch marshal q false f) ps f)) l.
Proof.
  revert l f. induction ps as [|q ps IH]; intros l f Hf; cbn [fold_left].
  - destruct l; cbn in *. by subst.
  - rewrite (IH _ (appendFencePatch marshal q false f)).
    + unfold link_patch. by rewrite Hf.
    + unfold link_patch. by rewrite Hf.
Qed.

(** C25. A connection on the stream of a session, open, not behind a fence and not told
    to pull again, receives exactly what is committed while its queue has room: after a
    run of commits from its revision on, its queue has grown by the frames of the first
    of them, in order, as many as there is room for, and its revision is that of the
    last one queued; it is marked as told to pull again exactly when one was left out,
    and then none of those after it is queued. *)
Theorem live_stream_exact bk s now ps h p c :
  c ∈ session_targets bk s p -> wants_patch AuthedDevice bk s now p c = true ->
  conn_isClosed c p = false ->
  let l := link_of c bk s p in
  lk_fence l = None -> lk_invalidated l = false -> chain (lk_cut l) ps h ->
  sk_stopped (lk_sink l) = false ->
  let n := Z.to_nat (free_slots (lk_sink l)) in
  link_of c bk s (publish_all bk s now ps p) =
    mkLink (put_frames (map (patch_frame (bridgeEpoch p) bk s) (take n ps)) (lk_sink l)) None
      (run_end (lk_cut l) (take n ps)) (bool_decide (n < length ps)%nat) /\
  ((length ps <= n)%nat -> take n ps = ps /\ run_end (lk_cut l) (take n ps) = h).
Proof.
  intros Hin Hw Hopen l Hf Hi Hc Hs n.
  destruct (publish_all_link bk s now ps p c Hin Hw) as [_ ->]. rewrite Hopen.
  split; [by eapply stream_run|]. intros Hlen. rewrite take_ge by done. split; [done|by apply run_end_chain].
Qed.

(** ** The pull *)

(** What [BeginProjectionSnapshot] does to the connection's machine. *)
Lemma begin_spec conn bk s p proj adm p1 :
  beginProjectionSnapshotLocked conn bk s p = (inr (proj, adm), p1) ->
  head_snapshot bk s (ep_head p) = Some proj /\
  projectionFences p !! fence_key conn bk s = None /\
  (exists f, link_of conn bk s p1 =
     mkLink (sink_of conn p) (Some f) (projectionSnapshotCuts p !!0 fence_key conn bk s) false /\
   f = mkFence (ad_fenceID adm) (ad_ConnectionGeneration adm) (sp_SyncRev proj) (sp_SyncRev proj)
         [] 0 false) /\
  connectionGenerations p1 !!0 conn = ad_ConnectionGeneration adm /\
  ad_BackendID adm = bk /\ ad_SessionID adm = s /\ ad_BridgeEpoch adm = bridgeEpoch p /\
  caps p1 = caps p /\ observation p1 = observation p /\ broadcaster p1 = broadcaster p /\
  closedConns p1 = closedConns p /\ bridgeEpoch p1 = bridgeEpoch p.
Proof.
  unfold beginProjectionSnapshotLocked. cbv zeta.
  destruct (projectionFences p !! fence_key conn bk s) as [f|] eqn:Hf; [done|].
  destruct (head_snapshot bk s (ep_head p)) as [pr|] eqn:Hs; [|done].
  unfold registerConnectionLocked. destruct (negb _) eqn:Hg; intros [= <- <- <-].
  - split_and!; try done. eexists. split; [|done]. unfold link_of. cbn.
    unfold sink_of. cbn. rewrite !lookup_insert_eq. f_equal. apply bool_decide_eq_false_2. set_solver.
  - split_and!; try done.
    + eexists. split; [|done]. unfold link_of. cbn.
      unfold sink_of. cbn. rewrite !lookup_insert_eq. f_equal. apply bool_decide_eq_false_2. set_solver.
    + cbn. by rewrite lookup_insert_eq.
Qed.

(** What a completion puts in the queue of a connection with room for it. *)
Lemma complete_spec conn adm req data held err f p :
  req <> "" -> admitted_fence conn adm p = Some f ->
  (if fe_invalidated f then 2 else 1 + zlen (fe_pending f)) <= free_slots (sink_of conn p) ->
  let bk := ad_BackendID adm in
  let s := ad_SessionID adm in
  let ps := map (resolve_pending conn bk s (completion_turns conn bk s held f p)) (fe_pending f) in
  let '(e, p') := completeProjectionSnapshot conn adm req data held err p in
  e = None /\
  link_of conn bk s p' =
    if fe_invalidated f
    then mkLink (put_frames [result_frame req data err bk s (fe_cutRev f);
                             invalidate_frame (bridgeEpoch p) bk s] (sink_of conn p))
           None (projectionSnapshotCuts p !!0 fence_key conn bk s) true
    else mkLink (put_frames (completion_batch (bridgeEpoch p) bk s req data err (fe_cutRev f) ps)
                   (sink_of conn p)) None (fe_expectedRev f) false.
Proof.
  intros Hreq Hadm Hroom bk s ps. unfold completeProjectionSnapshot.
  rewrite bool_decide_false by done. cbv zeta. rewrite Hadm. fold bk s.
  fold (completion_turns conn bk s held f p).
  fold (completion_start conn bk s held f p).
  pose proof (completion_start_link conn bk s held f p conn bk s) as Hl.
  assert (sink_of conn (completion_start conn bk s held f p) = sink_of conn p) as Hs by
    exact (f_equal lk_sink Hl).
  assert (bridgeEpoch (completion_start conn bk s held f p) = bridgeEpoch p) as He
    by (unfold completion_start, completion_turns; cbn; by destruct (_ && _)%bool).
  fold (unfence conn bk s (completion_start conn bk s held f p)).
  change (bridgeEpoch (unfence conn bk s (completion_start conn bk s held f p)))
    with (bridgeEpoch (completion_start conn bk s held f p)).
  rewrite Hs. unfold completion_start at 1. cbn [fst].
  rewrite (proj2 (Z.ltb_ge _ _)).
  2: { destruct (fe_invalidated f); [lia|]. by rewrite length_map. }
  destruct (fe_invalidated f) eqn:Hinv; (split; [done|]).
  - pose proof (link_op_release conn bk s [result_frame req data err bk s (fe_cutRev f);
      invalidate_frame (bridgeEpoch p) bk s] (completion_start conn bk s held f p)) as H2.
    rewrite Hs in H2. set (q := put_sink _ _ _) in H2.
    pose proof (link_op_mark conn bk s q) as H3.
    rewrite (lo_link _ _ _ _ _ _ H2), Hl in H3. rewrite He.
    exact (lo_link _ _ _ _ _ _ H3).
  - pose proof (link_op_batch conn bk s (fe_expectedRev f)
      (completion_batch (bridgeEpoch p) bk s req data err (fe_cutRev f) ps)
      (completion_start conn bk s held f p)) as H2.
    rewrite Hs in H2. rewrite He. exact (lo_link _ _ _ _ _ _ H2).
Qed.

(** Without the room nothing of it is put, and the connection is to be closed. *)
Lemma complete_full conn adm req data held err f p :
  req <> "" -> admitted_fence conn adm p = Some f ->
  free_slots (sink_of conn p) < (if fe_invalidated f then 2 else 1 + zlen (fe_pending f)) ->
  let '(e, p') := completeProjectionSnapshot conn adm req data held err p in
  e = Some SnapshotQueueFull /\ conn ∈ closing p' /\ sink_of conn p' = sink_of conn p /\
  projectionFences p' !! fence_key conn (ad_BackendID adm) (ad_SessionID adm) = None.
Proof.
  clear AuthedDevice marshal. intros Hreq Hadm Hfull. unfold completeProjectionSnapshot.
  rewrite bool_decide_false by done. cbv zeta. rewrite Hadm.
  fold (completion_turns conn (ad_BackendID adm) (ad_SessionID adm) held f p).
  fold (completion_start conn (ad_BackendID adm) (ad_SessionID adm) held f p).
  set (q := completion_start _ _ _ held f p).
  assert (sink_of conn q = sink_of conn p) as Hs by
    exact (f_equal lk_sink (completion_start_link conn (ad_BackendID adm) (ad_SessionID adm) held f p conn "" "")).
  rewrite Hs, (proj2 (Z.ltb_lt _ _)).
  - split_and!; [done|cbn; set_solver|exact Hs|cbn; by rewrite lookup_delete_eq].
  - destruct (fe_invalidated f); [lia|]. by rewrite length_map.
Qed.

Lemma resolve_live conn bk s p ps :
  map (resolve_pending conn bk s p) (map (fun q => mkPendingPatch q false) ps) = ps.
Proof. induction ps as [|q ps IH]; [done|]. cbn [map]. by rewrite IH. Qed.

(** The commits published while a pull is open gather behind its fence. *)
Lemma pull_open conn bk s now ps h p proj adm p1 :
  beginProjectionSnapshotLocked conn bk s p = (inr (proj, adm), p1) ->
  conn ∈ session_targets bk s p -> wants_patch AuthedDevice bk s now p conn = true ->
  chain (sp_SyncRev proj) ps h ->
  let fs := (zlen ps <=? projectionFenceMaxPatches)
            && (patches_bytes marshal ps <=? projectionFenceMaxBytes) in
  let p2 := publish_all bk s now ps p1 in
  exists f, admitted_fence conn adm p2 = Some f /\
    ad_BackendID adm = bk /\ ad_SessionID adm = s /\ bridgeEpoch p2 = bridgeEpoch p /\
    sink_of conn p2 = sink_of conn p /\
    projectionSnapshotCuts p2 !!0 fence_key conn bk s = projectionSnapshotCuts p !!0 fence_key conn bk s /\
    fe_cutRev f = sp_SyncRev proj /\ zlen (fe_pending f) <= zlen ps /\ fe_invalidated f = negb fs /\
    (fs = true -> fe_pending f = map (fun q => mkPendingPatch q false) ps /\ fe_expectedRev f = h).
Proof.
  intros Hbegin Hin Hw Hc fs p2.
  destruct (begin_spec _ _ _ _ _ _ _ Hbegin) as (_ & _ & (f & Hl1 & Hf) & Hgen & Hbk & Hsid & Hep &
    Hcaps & Hobs & Hbr & Hcl & He).
  assert (conn ∈ session_targets bk s p1) as Hin1
    by (unfold session_targets, conn_isClosed in *; by rewrite Hbr, Hcl).
  assert (wants_patch AuthedDevice bk s now p1 conn = true) as Hw1
    by (unfold wants_patch, ConnSyncV2, ConnHas, observed in *; by rewrite Hcaps, Hobs).
  destruct (publish_all_link bk s now ps p1 conn Hin1 Hw1) as [Hsame Hl2]. fold p2 in Hsame, Hl2.
  rewrite (fence_run (bridgeEpoch p1) (conn_isClosed conn p1) bk s ps (link_of conn bk s p1) f) in Hl2
    by (by rewrite Hl1).
  pose proof (append_run marshal ps f h) as Hrun. rewrite Hf in Hrun at 1 2 3 4.
  specialize (Hrun eq_refl Hc ltac:(by vm_compute) ltac:(by vm_compute)). cbv zeta in Hrun.
  pose proof (pending_le marshal ps f) as Hle. rewrite Hf in Hle at 1. specialize (Hle eq_refl).
  set (f' := fold_left _ ps f) in *. rewrite Hl1 in Hl2.
  assert (projectionFences p2 !! fence_key conn bk s = Some f') as Hf2 by exact (f_equal lk_fence Hl2).
  destruct Hsame as (_ & _ & _ & _ & He2 & _ & _ & Hgen2).
  assert (fits marshal f ps = fs) as Hfits
    by (unfold fits, fs; rewrite Hf; cbn [fe_pending fe_pendingBytes length]; by rewrite !Z.add_0_l).
  rewrite Hfits in Hrun. clearbody f'.
  assert (fe_id f' = ad_fenceID adm /\ fe_generation f' = ad_ConnectionGeneration adm /\
          fe_cutRev f' = sp_SyncRev proj /\ fe_invalidated f' = negb fs /\
          (fs = true -> fe_pending f' = map (fun q => mkPendingPatch q false) ps /\
             fe_expectedRev f' = h)) as (Hid & Hge & Hcut & Hinv & Hpend).
  { destruct fs; [rewrite Hrun, Hf; by split_and!|].
    destruct Hrun as (Hi & -> & -> & ->). rewrite Hf. by split_and!. }
  exists f'. split_and!; try done; [|congruence|exact (f_equal lk_sink Hl2)|exact (f_equal lk_cut Hl2)].
  unfold admitted_fence. rewrite Hbk, Hsid, Hf2. rewrite bool_decide_true; [done|].
  rewrite Hgen2, Hgen, He2, He. auto.
Qed.

(** C5. A pull hands over to the live stream without a hole. Whatever is committed in an
    unbroken run between the cut of a pull and its answer, and whatever room the queue
    has: when it holds the answer and the commits, the connection is sent the answer,
    then exactly those commits in order, its revision being the last one's; when the
    commits are more than the fence may hold (128 patches, 2 MiB) and the queue has room
    for two frames, it is sent the answer, then the request to pull again, and nothing
    more until it does; and without the room nothing is put in the queue, the fence is
    gone and the connection is closed. *)
Theorem pull_hands_over conn bk s now ps h req data held err p proj adm p1 :
  beginProjectionSnapshotLocked conn bk s p = (inr (proj, adm), p1) ->
  conn ∈ session_targets bk s p -> wants_patch AuthedDevice bk s now p conn = true ->
  chain (sp_SyncRev proj) ps h -> req <> "" ->
  let fs := (zlen ps <=? projectionFenceMaxPatches)
            && (patches_bytes marshal ps <=? projectionFenceMaxBytes) in
  let required := if fs then 1 + zlen ps else 2 in
  let '(e, p3) := completeProjectionSnapshot conn adm req data held err
                    (publish_all bk s now ps p1) in
  if required <=? free_slots (sink_of conn p) then
    e = None /\
    link_of conn bk s p3 =
      if fs
      then mkLink (put_frames (completion_batch (bridgeEpoch p) bk s req data err (sp_SyncRev proj) ps)
                     (sink_of conn p)) None h false
      else mkLink (put_frames [result_frame req data err bk s (sp_SyncRev proj);
                               invalidate_frame (bridgeEpoch p) bk s] (sink_of conn p))
             None (projectionSnapshotCuts p !!0 fence_key conn bk s) true
  else
    e = Some SnapshotQueueFull /\ conn ∈ closing p3 /\ sink_of conn p3 = sink_of conn p /\
    projectionFences p3 !! fence_key conn bk s = None.
Proof.
  intros Hbegin Hin Hw Hc Hreq fs required.
  destruct (pull_open conn bk s now ps h p proj adm p1 Hbegin Hin Hw Hc)
    as (f & Hadm & Hbk & Hsid & He & Hs & Hcut0 & Hcut & Hlen & Hinv & Hpend). fold fs in Hinv, Hpend.
  set (p2 := publish_all bk s now ps p1) in *.
  assert ((if fe_invalidated f then 2 else 1 + zlen (fe_pending f)) = required) as Hneed.
  { unfold required. rewrite Hinv. destruct fs; [|done]. destruct (Hpend eq_refl) as [-> _]. cbn [negb]. by rewrite length_map. }
  pose proof (complete_spec conn adm req data held err f p2 Hreq Hadm) as Hspec.
  pose proof (complete_full conn adm req data held err f p2 Hreq Hadm) as Hfull.
  rewrite Hs, Hneed in Hspec, Hfull. cbv zeta in Hspec.
  rewrite Hbk, Hsid in Hspec, Hfull. rewrite Hcut0, He, Hcut, Hinv in Hspec.
  destruct (completeProjectionSnapshot conn adm req data held err p2) as [e p3].
  destruct (Z.leb_spec required (free_slots (sink_of conn p))) as [Hle|Hlt].
  - destruct (Hspec Hle) as [He3 Hl3]. split; [exact He3|]. rewrite Hl3.
    destruct fs; [|done]. destruct (Hpend eq_refl) as [-> ->]. cbn [negb]. by rewrite resolve_live.
  - by apply Hfull.
Qed.
End stream.
