(* ===== verification/PublisherDetail.v ===== *)
(** * Detail commits and the turns a window connection holds

    A detail commit concerns turns that a window connection may not have. The
    theorem of this file is the race the publisher was written against: a commit
    published while the connection's window is still being answered is decided when
    the answer, and with it the turns it carries, is sent. *)

From S2P Require Import Prelude.
From S2P Require Import Wire.
From S2P Require Import Projection.
From S2P Require Import RevisionJournal.
From S2P Require Import Kernel.
From S2P Require Import Broadcaster.
From S2P Require Import Observation.
From S2P Require Import OutboundSink.
From S2P Require Import Publisher.
From S2P Require Import PublisherLink.
From S2P Require Import PublisherChain.
From S2P Require Import PublisherStream.

Section detail.
Context {K : Type} `{!ProjectionHead K}.
Context (marshal : ProjectionPatch -> option nat).
Implicit Types p : EventPublisher (K := K).

(** An operation that concerns one connection: another's machine and turns are kept. *)
Definition local_op (bk s : string) (c : Connection) p p' : Prop :=
  (exists l, link_op c bk s p p' l) /\
  (forall conn, conn <> c -> projectionHeldTurns p' !! conn = projectionHeldTurns p !! conn).

Lemma local_op_refl bk s c p : local_op bk s c p p.
Proof. split; [eexists; apply link_op_refl|done]. Qed.

Lemma invalidate_local bk s c p : local_op bk s c p (enqueueProjectionInvalidateLocked c bk s p).
Proof.
  split; [eexists; apply link_op_invalidate|]. intros conn Hne.
  unfold enqueueProjectionInvalidateLocked, enqueue. cbv zeta.
  destruct (tryEnqueue _ _ _) as [a sk]. cbn. by rewrite lookup_alter_ne.
Qed.

Lemma single_local bk s c patch p :
  local_op bk s c p (deliverSingleConnPatchLocked marshal c bk s patch p).
Proof.
  split; [eexists; apply deliverSingle_link|]. intros conn Hne.
  unfold deliverSingleConnPatchLocked. cbv zeta.
  destruct (projectionFences p !! fence_key c bk s); [done|].
  destruct (patch_due _ _ _); [done| |].
  - by apply (invalidate_local bk s c p).
  - unfold enqueue. destruct (tryEnqueue _ _ _) as [[[ok why] n] sk]. by destruct ok.
Qed.

Lemma detail_target_local bk s commit requester p c :
  local_op bk s c p (detail_target marshal bk s commit requester p c).
Proof.
  unfold detail_target. case_if; [apply local_op_refl|]. case_if; [apply single_local|]. cbv zeta.
  match goal with |- context [if ?b then p else ?x] =>
    assert (local_op bk s c p (if b then p else x)) as Hnoop end.
  { case_if; [apply local_op_refl|apply single_local]. }
  destruct (projectionFences p !! fence_key c bk s) as [f|]; [|exact Hnoop].
  destruct (fe_invalidated f); [exact Hnoop|].
  split; [eexists; apply link_op_fence|done].
Qed.

(** A fold over connections, seen from one of them. *)
Lemma local_fold bk s op cs conn p :
  (forall q c, local_op bk s c q (op q c)) -> NoDup cs -> conn ∈ cs ->
  exists q,
    same_world p q /\ link_of conn bk s q = link_of conn bk s p /\
    projectionHeldTurns q !! conn = projectionHeldTurns p !! conn /\
    same_world p (fold_left op cs p) /\
    link_of conn bk s (fold_left op cs p) = link_of conn bk s (op q conn) /\
    projectionHeldTurns (fold_left op cs p) !! conn = projectionHeldTurns (op q conn) !! conn.
Proof.
  intros Hop Hnd Hin. apply list_elem_of_split in Hin as (l1 & l2 & ->).
  assert (forall l r, conn ∉ l -> same_world r (fold_left op l r) /\
    link_of conn bk s (fold_left op l r) = link_of conn bk s r /\
    projectionHeldTurns (fold_left op l r) !! conn = projectionHeldTurns r !! conn) as Hskip.
  { induction l as [|c l IH]; intros r Hn; [done|]. apply not_elem_of_cons in Hn as [Hc Hn].
    cbn [fold_left]. destruct (IH (op r c) Hn) as (I1 & I2 & I3).
    destruct (Hop r c) as [[l' [W O L]] Hheld].
    split_and!; [by eapply same_world_trans| |by rewrite I3, Hheld].
    rewrite I2. by eapply other_link_of. }
  apply NoDup_app in Hnd as (_ & Hdisj & Hnd). apply NoDup_cons in Hnd as [Hn2 _].
  assert (conn ∉ l1) as Hn1 by (intros Hc; apply (Hdisj conn Hc); constructor).
  rewrite fold_left_app. cbn [fold_left]. exists (fold_left op l1 p).
  destruct (Hskip l1 p Hn1) as (A1 & A2 & A3).
  destruct (Hskip l2 (op (fold_left op l1 p) conn) Hn2) as (B1 & B2 & B3).
  split_and!; try done. eapply same_world_trans; [exact A1|].
  eapply same_world_trans; [|exact B1]. by destruct (Hop (fold_left op l1 p) conn) as [[l' [W _ _]] _].
Qed.

Context (AuthedDevice : Connection -> option string).

(** Whom a detail commit reaches in full whatever the answer carries: the connection
    that asked for it, one that is not in window mode, one that holds one of its turns. *)
Definition takes_in_full bk s commit requester p conn : bool :=
  bool_decide (requester = Some conn)
  || negb (bool_decide (connDeliveryModeLocked conn bk s p = ProjectionDeliveryWindow))
  || connHoldsAnyTurnLocked conn bk s (patchTurnIDs commit) p.

(** The commit of a pull in flight is held behind its fence; undecided, unless the
    connection takes it in full. *)
Lemma detail_deferred bk s commit requester now p conn f :
  conn ∈ session_targets bk s p -> ConnSyncV2 conn p = true ->
  pt_BaseRev commit < pt_SyncRev commit ->
  projectionFences p !! fence_key conn bk s = Some f -> fe_invalidated f = false ->
  let p1 := PublishProjectionDetail marshal AuthedDevice bk s [commit] requester now p in
  link_of conn bk s p1 =
    set_lk_fence (Some (appendFencePatch marshal commit (negb (takes_in_full bk s commit requester p conn)) f))
      (link_of conn bk s p) /\
  projectionHeldTurns p1 !! conn = projectionHeldTurns p !! conn /\ same_world p p1.
Proof.
  intros Hin Hv2 Hrev Hf Hinv p1. unfold p1, PublishProjectionDetail.
  assert (broadcaster p <> None) as Hb
    by (intros Hb; unfold session_targets in Hin; rewrite Hb in Hin; by apply not_elem_of_nil in Hin).
  assert (has_v2_conns p = true) as Hany.
  { unfold has_v2_conns. apply negb_true_iff, bool_decide_eq_false_2. intros He.
    unfold ConnSyncV2, ConnHas in Hv2. zprop. rewrite He in Hv2. set_solver. }
  rewrite bool_decide_false by done. rewrite Hany. cbn [negb orb last].
  rewrite (proj2 (Z.leb_gt _ _)) by lia. cbv zeta. cbn [removelast fold_left].
  rewrite (proj2 (Z.leb_gt _ _)) by lia.
  set (r := recordProjectionPatchLocked marshal bk s commit now p).
  assert (same_world p r /\ link_of conn bk s r = link_of conn bk s p /\
    projectionHeldTurns r = projectionHeldTurns p /\
    session_targets bk s r = session_targets bk s p) as (Hr1 & Hr2 & Hr3 & Hr4)
    by (unfold r, recordProjectionPatchLocked; by destruct (Record_ _ _ _ _ _ _) as [[b j]|]).
  rewrite Hr4. destruct (local_fold bk s (detail_target marshal bk s commit requester)
    (session_targets bk s p) conn r) as (q & W1 & L1 & T1 & W2 & L2 & T2).
  { intros q c. apply detail_target_local. } { apply session_targets_nodup. } { done. }
  rewrite L2, T2. pose proof (same_world_trans _ _ _ Hr1 W1) as Hq.
  destruct Hq as (Hcaps & _ & _ & _ & _ & Hmodes & _).
  assert (takes_in_full bk s commit requester q conn = takes_in_full bk s commit requester p conn) as Htake
    by (unfold takes_in_full, connDeliveryModeLocked, connHoldsAnyTurnLocked, held_turns; by rewrite T1, Hr3, Hmodes).
  assert (detail_target marshal bk s commit requester q conn =
    put_fence (fence_key conn bk s)
      (appendFencePatch marshal commit (negb (takes_in_full bk s commit requester p conn)) f) q) as Hstep.
  { rewrite <- Htake. unfold detail_target, ConnSyncV2, ConnHas. rewrite Hcaps. unfold ConnSyncV2, ConnHas in Hv2.
    rewrite Hv2. cbn [negb]. fold (takes_in_full bk s commit requester q conn). cbv zeta.
    unfold deliverSingleConnPatchLocked at 1. cbv zeta.
    assert (projectionFences q !! fence_key conn bk s = Some f) as ->
      by (change (lk_fence (link_of conn bk s q) = Some f); rewrite L1, Hr2; exact Hf).
    rewrite Hinv. by destruct (takes_in_full bk s commit requester q conn). }
  rewrite Hstep. split_and!.
  - rewrite (lo_link _ _ _ _ _ _ (link_op_fence conn bk s
      (appendFencePatch marshal commit (negb (takes_in_full bk s commit requester p conn)) f) q)).
    by rewrite L1, Hr2.
  - cbn. by rewrite T1, Hr3.
  - by eapply same_world_trans.
Qed.

(** What a fence makes of the next patch. *)
Lemma append_held q d f :
  fe_invalidated f = false -> fe_expectedRev f < pt_SyncRev q ->
  appendFencePatch marshal q d f =
  if (pt_BaseRev q =? fe_expectedRev f) && negb (has_no_room marshal q f)
  then mkFence (fe_id f) (fe_generation f) (fe_cutRev f) (pt_SyncRev q)
         (fe_pending f ++ [mkPendingPatch q d]) (fe_pendingBytes f + encoded_length marshal q) false
  else invalid_fence f.
Proof.
  intros Hinv Hsync. unfold appendFencePatch. rewrite Hinv, (proj2 (Z.leb_gt _ _)) by lia. cbn [orb]. cbv zeta.
  fold (has_no_room marshal q f). by destruct (_ =? _), (has_no_room marshal q f).
Qed.

(** The admission holds while the fence and the connection are not replaced. *)
Lemma admitted_same conn adm p p1 f f1 :
  admitted_fence conn adm p = Some f ->
  projectionFences p1 !! fence_key conn (ad_BackendID adm) (ad_SessionID adm) = Some f1 ->
  fe_id f1 = fe_id f -> fe_generation f1 = fe_generation f ->
  connectionGenerations p1 = connectionGenerations p -> bridgeEpoch p1 = bridgeEpoch p ->
  admitted_fence conn adm p1 = Some f1.
Proof.
  unfold admitted_fence. intros Hadm Hf1 Hid Hg Hgen He. rewrite Hf1, Hid, Hg, Hgen, He.
  destruct (projectionFences p !! _) as [f0|]; [|done]. case_bool_decide as H; [|done]. injection Hadm as <-. by rewrite bool_decide_true.
Qed.

(** The turns of an answer are held from its completion on. *)
Lemma carried_turns conn bk s held f p ids0 :
  fe_invalidated f = false ->
  let ids := dedup ∅ ids0 in
  connHoldsAnyTurnLocked conn bk s ids p = false ->
  connHoldsAnyTurnLocked conn bk s ids (completion_turns conn bk s held f p) =
  existsb (fun id => bool_decide (id ∈ held)) ids.
Proof.
  intros Hinv ids Hno. unfold completion_turns. rewrite Hinv, andb_true_r.
  destruct (decide (held = [])) as [->|Hne].
  { rewrite bool_decide_false by naive_solver. rewrite Hno. clear. induction ids; [done|].
    cbn. by rewrite bool_decide_false by apply not_elem_of_nil. }
  rewrite bool_decide_true by done. unfold connHoldsAnyTurnLocked in *.
  assert (held_turns conn bk s (recordConnWindowTurnsLocked conn bk s held p) =
    held_turns conn bk s p ∪ list_to_set (filter (fun id => id <> "") held)) as ->.
  { unfold held_turns, recordConnWindowTurnsLocked. cbn. rewrite lookup_insert_eq. cbn.
    rewrite lookup_insert_eq. cbn. by destruct (projectionHeldTurns p !! conn). }
  assert (Forall (fun id => id <> "") ids) as Hids.
  { apply Forall_forall. intros id Hid. unfold ids in Hid. apply elem_dedup in Hid. tauto. }
  induction Hids as [|id l Hid Hl IH]; [done|]. cbn in Hno |- *. apply orb_false_elim in Hno as [H1 H2].
  rewrite IH by done. f_equal. zprop. apply bool_decide_ext.
  rewrite elem_of_union, elem_of_list_to_set, list_elem_of_filter. tauto.
Qed.

End detail.
