(* ===== verification/PublishRaw.v ===== *)
(** * Publication of events (go-bridge/event_publisher.go, [publish])

    The single stamping and delivery primitive: it numbers an event, has it reduced,
    buffers it, offers it to each target connection or to the recovery it is in,
    and flushes the projection patch it produced. When nobody could be reached the
    publisher releases its lock, asks the handlers to rebind the session's
    subscriptions, and offers the event again; the operation is therefore given in
    the parts the lock delimits, so that other operations can come between them.
    With it: recovery transactions, the offline queue and the replay of buffered
    live frames to a device that comes back. *)

From S2P Require Import Prelude.
From S2P Require Import GoText.
From S2P Require Import Wire.
From S2P Require Import EventBuffer.
From S2P Require Import Projection.
From S2P Require Import LiveFrameBuffer.
From S2P Require Import RelayClass.
From S2P Require Import ReducerParts.
From S2P Require Import Reducer.
From S2P Require Import Kernel.
From S2P Require Import Broadcaster.
From S2P Require Import Observation.
From S2P Require Import OutboundSink.
From S2P Require Import Publisher.

(** ** Logical events *)

Record PushIntent : Type := mkPushIntent {
  pi_Kind : string;
  pi_NotificationKey : string;
  pi_AnchorKind : string;
  pi_AnchorID : string;
  pi_SessionTitle : string;
  pi_ContentPreview : string
}.

Record WebPushCandidate : Type := mkCandidate {
  wc_BackendID : string;
  wc_SessionID : string;
  wc_EventID : string;
  wc_Intent : PushIntent;
  wc_ReceivedAt : Z
}.

Record LogicalEvent : Type := mkLogical {
  le_BackendID : string;
  le_SessionID : string;
  le_Directory : string;
  le_Event : string;
  le_Data : value;
  le_Message : string;
  le_Broadcast : bool;
  le_Targets : list Connection;
  le_WaitTargets : list Connection;
  le_Offline : bool;
  le_PushIntent : option PushIntent
}.

Inductive eventPublishMode : Type :=
| publishTimelineEvent
| publishControlPlaneEvent
| publishPreReducedTimelineEvent.

#[export] Instance eventPublishMode_eq_dec : EqDecision eventPublishMode.
Proof. solve_decision. Defined.

Definition validateControlPlaneEvent (logical : LogicalEvent) : bool :=
  one_of (le_Event logical) ["sessions_changed"; "background_tasks_changed"]
  && negb (bool_decide (le_BackendID logical = "")) && bool_decide (le_SessionID logical = "").

Definition isReplayableEvent (eventName : string) : bool :=
  negb (one_of eventName ["text_delta"; "reasoning_delta"; "tool_output_delta"]).

(** ** Cut maps *)

Definition cloneCutMap (input : option BridgeSessionCutMap) : option BridgeSessionCutMap :=
  match input with
  | None => None
  | Some m => Some ((fun sessions => sessions) <$> m)
  end.

Definition lookupCut (cuts : option BridgeSessionCutMap) (backendID sessionID : string)
  : option BridgeSessionCut :=
  default ∅ cuts !! backendID ≫= (!!) sessionID.

Definition zero_cut : BridgeSessionCut := mkCut "" 0.

#[export] Instance BridgeSessionCut_eq_dec : EqDecision BridgeSessionCut.
Proof. solve_decision. Defined.

Definition cutMapsEqual (left_ right_ : BridgeSessionCutMap) : bool :=
  if negb (Nat.eqb (size left_) (size right_)) then false
  else
    forallb (fun bs : string * gmap string BridgeSessionCut =>
               match right_ !! bs.1 with
               | None => false
               | Some other =>
                   Nat.eqb (size bs.2) (size other)
                   && forallb (fun sc : string * BridgeSessionCut =>
                                 bool_decide (default zero_cut (other !! sc.1) = sc.2))
                        (map_to_list bs.2)
               end) (map_to_list left_).

Section raw.
Context {K : Type} `{!ProjectionHead K}.
(** Encodings, the decimal of an integer, and the device of a connection. *)
Context (marshal : ProjectionPatch -> option nat) (marshal_event : EventMessage -> nat)
  (decimal : Z -> string) (AuthedDevice : Connection -> option string).
Implicit Types p : EventPublisher (K := K).

(** ** Recovery transactions *)

Definition put_recovery (conn : Connection) (r : publisherRecovery) p : EventPublisher :=
  set_recoveries (<[conn := r]> (recoveries p)) p.
Definition drop_recovery (conn : Connection) p : EventPublisher :=
  set_recoveries (delete conn (recoveries p)) p.

(** [None] is the error of a second transaction on the connection, or of an empty id. *)
Definition BeginRecovery (conn : Connection) (recoveryID : string)
  (cuts : option BridgeSessionCutMap) (now : Z) p : option (string * Z) * EventPublisher :=
  if bool_decide (recoveryID = "") then (None, p)
  else
    match recoveries p !! conn with
    | Some _ => (None, p)
    | None =>
        let p := sinkLocked conn p in
        (Some (bridgeEpoch p, ep_seq p),
         put_recovery conn (mkRecovery recoveryID [] 0 now (cloneCutMap cuts)) p)
    end.

Definition recovery_value (type recoveryID : string) : value :=
  VMap [("type", VString type); ("recoveryId", VString recoveryID)].

(** The pending events past the cut of their session. *)
Definition past_cut (cuts : option BridgeSessionCutMap) (msg : EventMessage) : bool :=
  match lookupCut cuts (BackendID msg) (SessionID msg) with
  | Some cut => Seq msg >? cut_Seq cut
  | None => true
  end.

Definition raw_frame (msg : EventMessage) : eventOutboundFrame :=
  event_frame msg false (classifyRelayEvent (Event msg)).

(** What [CompleteRecovery] did: nothing (already completed, unknown or abandoned),
    abandoned for other cuts than its own (and the client is then told),
    refused for want of room (and the connection is closed), or completed. *)
Inductive RecoveryOutcome : Type :=
| RecoveryUnknown | RecoveryAborted | RecoveryNoRoom | RecoveryCompleted.

Definition completion_frames (recoveryID : string) (pending : list EventMessage)
  : list eventOutboundFrame :=
  mkFrame (ControlContent (recovery_value "recovery_complete" recoveryID)) false
    relayOutboundControl true :: map raw_frame pending.

Definition CompleteRecovery (conn : Connection) (recoveryID : string)
  (applied : list BridgeSessionCutMap) p : RecoveryOutcome * EventPublisher :=
  match recoveries p !! conn with
  | None => (RecoveryUnknown, p)
  | Some r =>
      if negb (bool_decide (rc_recoveryID r = recoveryID)) then (RecoveryUnknown, p)
      else
        let done_ p := set_completed (<[conn := recoveryID]> (completed p)) (drop_recovery conn p) in
        let mismatch :=
          match rc_cutBySession r with
          | None => false
          | Some cuts =>
              match applied with [a] => negb (cutMapsEqual cuts a) | _ => true end
          end in
        if mismatch
        then (RecoveryAborted,
              snd (EnqueueControl conn (recovery_value "recovery_aborted" recoveryID) false (done_ p)))
        else
          let p := sinkLocked conn p in
          let s := sink_of conn p in
          let pending := List.filter (past_cut (rc_cutBySession r)) (rc_pending r) in
          if free_slots s <? 1 + zlen pending
          then (RecoveryNoRoom, close_conn conn (drop_recovery conn p))
          else (RecoveryCompleted,
                done_ (put_sink conn (put_frames (completion_frames recoveryID pending) s) p))
  end.

Definition FailRecovery (conn : Connection) (recoveryID : string) p : EventPublisher :=
  match recoveries p !! conn with
  | Some r => if bool_decide (rc_recoveryID r = recoveryID) then drop_recovery conn p else p
  | None => p
  end.

(** The cut of a snapshot, advanced to the latest event of the session; the lock is
    kept until the caller has read its history. Without a cut map the assignment
    panics. *)
Inductive FreezeAnswer : Type :=
| FreezeMismatch | FreezeNotAffected | FreezePanic | Frozen (cut : BridgeSessionCut).

Definition FreezeRecoverySnapshot (conn : Connection) (recoveryID backendID sessionID : string)
  (now : Z) p : FreezeAnswer * EventPublisher :=
  match recoveries p !! conn with
  | None => (FreezeMismatch, p)
  | Some r =>
      if negb (bool_decide (rc_recoveryID r = recoveryID)) then (FreezeMismatch, p)
      else
        let '(latest, b) :=
          default (None, ep_buffer p) (LatestCut now backendID sessionID (ep_buffer p)) in
        let p := set_ep_buffer b p in
        let cut :=
          match latest with
          | Some c => Some c
          | None => lookupCut (rc_cutBySession r) backendID sessionID
          end in
        match cut, rc_cutBySession r with
        | None, _ => (FreezeNotAffected, p)
        | Some _, None => (FreezePanic, p)
        | Some c, Some cuts =>
            let sessions := default ∅ (cuts !! backendID) in
            let cuts := <[backendID := <[sessionID := c]> sessions]> cuts in
            (Frozen c,
             put_recovery conn (mkRecovery (rc_recoveryID r) (rc_pending r) (rc_pendingBytes r)
                                  (rc_startedAt r) (Some cuts)) p)
        end
  end.

(** ** Publication *)

(** What is known of one publication while it runs. *)
Record publication : Type := mkPublication {
  pb_logical : LogicalEvent;
  pb_mode : eventPublishMode;
  pb_msg : EventMessage;
  pb_applied : bool;
  pb_candidate : option (WebPushCandidate * ProjectionIngestResult);
  pb_targets : gset Connection;
  pb_rawEligible : gset Connection;
  pb_enqueued : Z;
  pb_overflowed : list Connection;
  pb_degraded : list (Connection * string);
  pb_waits : list Connection
}.

Definition publication_eta (b : publication) : publication :=
  mkPublication (pb_logical b) (pb_mode b) (pb_msg b) (pb_applied b) (pb_candidate b)
    (pb_targets b) (pb_rawEligible b) (pb_enqueued b) (pb_overflowed b) (pb_degraded b) (pb_waits b).
Definition set_pb_targets v b : publication := ltac:(setter publication_eta pb_targets v b).
Definition set_pb_rawEligible v b : publication := ltac:(setter publication_eta pb_rawEligible v b).
Definition set_pb_enqueued v b : publication := ltac:(setter publication_eta pb_enqueued v b).
Definition set_pb_overflowed v b : publication := ltac:(setter publication_eta pb_overflowed v b).
Definition set_pb_degraded v b : publication := ltac:(setter publication_eta pb_degraded v b).
Definition set_pb_waits v b : publication := ltac:(setter publication_eta pb_waits v b).

Definition scoped (l : LogicalEvent) : bool :=
  negb (bool_decide (le_BackendID l = "")) && negb (bool_decide (le_SessionID l = "")).

(** The stamped event: the next process number, and the next number of its session. *)
Definition stamp (l : LogicalEvent) (millis : Z) p : EventMessage * EventPublisher :=
  let seq := ep_seq p + 1 in
  let p := set_ep_seq seq p in
  let '(perSessionSeq, p) :=
    if scoped l
    then let '(n, k) := head_issue (le_BackendID l) (le_SessionID l) (ep_head p) in
         (n, set_ep_head k p)
    else (0, p) in
  (mkEventMessage "event" (bridgeEpoch p +:+ ":" +:+ decimal seq) seq perSessionSeq (bridgeEpoch p)
     (le_SessionID l) (le_BackendID l) (le_Event l) (le_Data l) (le_Message l)
     (isReplayableEvent (le_Event l)) millis, p).

(** The reduction: whether it ran, and what it answered. *)
Definition reduce (mode : eventPublishMode) (l : LogicalEvent) (msg : EventMessage) (now : Z) p
  : option ProjectionIngestResult * EventPublisher :=
  if negb (bool_decide (mode = publishTimelineEvent)) || isDerivedLegacyQuestionEvent (le_Event l)
  then (None, p)
  else let '(res, k) := head_ingest now msg (ep_head p) in (Some res, set_ep_head k p).

Definition ProjectionIngestResult_applied (r : option ProjectionIngestResult) : bool :=
  match r with Some ProjectionIngestApplied => true | _ => false end.

(** Replay the pending events of an abandoned recovery until one is refused; the
    number enqueued, and whether all were. *)
Fixpoint replay_pending (conn : Connection) (pending : list EventMessage) (n : Z) p
  : (Z * bool) * EventPublisher :=
  match pending with
  | [] => ((n, true), p)
  | m :: pending =>
      let '((ok, _, _), p) := enqueue conn (raw_frame m) p in
      if ok then replay_pending conn pending (n + 1) p else ((n, false), p)
  end.

(** The live delivery of the event to one connection. *)
Definition publish_live (now : Z) (conn : Connection) (b : publication) p
  : publication * EventPublisher :=
  let msg := pb_msg b in
  let waited := bool_decide (conn ∈ le_WaitTargets (pb_logical b)) in
  let b := if waited then set_pb_waits (pb_waits b ++ [conn]) b else b in
  let '((ok, _, _), p) := enqueue conn (event_frame msg waited (classifyRelayEvent (Event msg))) p in
  if ok then
    let p :=
      match AuthedDevice conn with
      | Some d => set_liveBuffer (NoteInterest d (BackendID msg) (SessionID msg) now (liveBuffer p)) p
      | None => p
      end in
    (set_pb_enqueued (pb_enqueued b + 1) b, p)
  else (set_pb_overflowed (pb_overflowed b ++ [conn]) b, p).

(** A recovery takes the event until it is too old or too full. *)
Definition recovery_gives_up (now : Z) (r : publisherRecovery) (encoded : Z) : bool :=
  (now - rc_startedAt r >=? recoveryPendingTimeout)
  || (zlen (rc_pending r) + 1 >? recoveryPendingMaxEvents)
  || (rc_pendingBytes r + encoded >? recoveryPendingMaxBytes).

Definition publish_target (now : Z) (bp : publication * EventPublisher (K := K)) (conn : Connection)
  : publication * EventPublisher :=
  let '(b, p) := bp in
  let msg := pb_msg b in
  if negb (shouldDeliverRawEventLocked conn (BackendID msg) (SessionID msg) (Event msg) p) then (b, p)
  else
    let b := set_pb_rawEligible ({[conn]} ∪ pb_rawEligible b) b in
    if negb (observed AuthedDevice (Event msg) conn (BackendID msg) (SessionID msg) now p) then (b, p)
    else
      match recoveries p !! conn with
      | None => publish_live now conn b p
      | Some r =>
          let encoded := Z.of_nat (marshal_event msg) in
          if recovery_gives_up now r encoded then
            let p := sinkLocked conn (drop_recovery conn p) in
            let b := set_pb_degraded (pb_degraded b ++ [(conn, rc_recoveryID r)]) b in
            let '((n, all), p) := replay_pending conn (rc_pending r) (pb_enqueued b) p in
            let b := set_pb_enqueued n b in
            if all then publish_live now conn b p
            else (set_pb_overflowed (pb_overflowed b ++ [conn]) b, p)
          else
            (set_pb_enqueued (pb_enqueued b + 1) b,
             put_recovery conn (mkRecovery (rc_recoveryID r) (rc_pending r ++ [msg])
                                  (rc_pendingBytes r + encoded) (rc_startedAt r) (rc_cutBySession r)) p)
      end.

Definition broadcast_targets (l : LogicalEvent) p : gset Connection :=
  match broadcaster p with
  | Some b =>
      if le_Broadcast l
      then list_to_set (Targets (fun c => conn_isClosed c p) (le_BackendID l) (le_SessionID l)
                          (le_Directory l) b)
      else ∅
  | None => ∅
  end.

(** The part under the lock up to the first offer: stamp, reduce, buffer, offer. *)
Definition publish_start (mode : eventPublishMode) (l : LogicalEvent) (now millis : Z) p
  : publication * EventPublisher :=
  let '(msg, p) := stamp l millis p in
  let '(ingested, p) := reduce mode l msg now p in
  let p := set_ep_buffer (default (ep_buffer p) (EventBuffer.Append marshal_event now msg (ep_buffer p))) p in
  let candidate :=
    match le_PushIntent l, ingested with
    | Some intent, Some res =>
        if negb head_is_kernel then None else Some (mkCandidate (BackendID msg) (SessionID msg) (EventID msg) intent (Timestamp msg), res)
    | _, _ => None
    end in
  let targets := list_to_set (le_Targets l) ∪ list_to_set (le_WaitTargets l) ∪ broadcast_targets l p in
  fold_left (publish_target now) (elements targets)
    (mkPublication l mode msg (ProjectionIngestResult_applied ingested) candidate targets ∅ 0 [] [] [], p).

Definition nobody_reached (b : publication) : bool :=
  (pb_enqueued b =? 0) && bool_decide (pb_overflowed b = []).

(** Whether the subscriptions are to be rebound, with the attempt of the session
    recorded: at most one in a second, and only while some connection is open. *)
Definition wants_rebind (has_rebind : bool) (now : Z) (b : publication) p : bool * EventPublisher :=
  let l := pb_logical b in
  let has_conns :=
    match broadcaster p with
    | Some bc => HasConnections (fun c => conn_isClosed c p) bc
    | None => true
    end in
  if nobody_reached b
     && (bool_decide (pb_targets b = ∅) || negb (bool_decide (pb_rawEligible b = ∅)))
     && negb (le_Offline l) && has_rebind && scoped l && has_conns
  then
    let key := nul_key (le_BackendID l) (le_SessionID l) in
    match rebindLastAttempt p !! key with
    | Some last => if now <? last + rebindAttemptCooldown then (false, p)
                   else (true, set_rebindLastAttempt (<[key := now]> (rebindLastAttempt p)) p)
    | None => (true, set_rebindLastAttempt (<[key := now]> (rebindLastAttempt p)) p)
    end
  else (false, p).

(** One connection of the second offer: a connection in recovery is passed over, and
    a refusal is only logged. *)
Definition retry_target (now : Z) (bp : publication * EventPublisher (K := K)) (conn : Connection)
  : publication * EventPublisher :=
  let '(b, p) := bp in
  let msg := pb_msg b in
  if negb (shouldDeliverRawEventLocked conn (BackendID msg) (SessionID msg) (Event msg) p) then (b, p)
  else
    let b := set_pb_rawEligible ({[conn]} ∪ pb_rawEligible b) b in
    if negb (observed AuthedDevice (Event msg) conn (BackendID msg) (SessionID msg) now p) then (b, p)
    else
      match recoveries p !! conn with
      | Some _ => (b, p)
      | None =>
          let '((ok, _, _), p) :=
            enqueue conn (event_frame msg false (classifyRelayEvent (Event msg))) p in
          if ok then
            let p :=
              match AuthedDevice conn with
              | Some d => set_liveBuffer (NoteInterest d (BackendID msg) (SessionID msg) now (liveBuffer p)) p
              | None => p
              end in
            (set_pb_enqueued (pb_enqueued b + 1) b, p)
          else (b, p)
      end.

(** The second offer, when the callback rebound [n] connections. *)
Definition publish_retry (n : Z) (now : Z) (b : publication) p : publication * EventPublisher :=
  if n >? 0 then
    let l := pb_logical b in
    let p := set_rebindLastAttempt
               (delete (nul_key (le_BackendID l) (le_SessionID l)) (rebindLastAttempt p)) p in
    let b := set_pb_targets (pb_targets b ∪ broadcast_targets l p) b in
    fold_left (retry_target now) (elements (pb_targets b)) (b, p)
  else (b, p).

(** The patch the event produced: dropped when it is large and nobody watches, and
    otherwise recorded and delivered. *)
Definition flush_projection (now : Z) (b : publication) p : EventPublisher :=
  let bk := BackendID (pb_msg b) in
  let s := SessionID (pb_msg b) in
  if pb_applied b && scoped (pb_logical b) then
    let '(big, k) :=
      if hasProjectionPatchTargetLocked AuthedDevice bk s now p then (false, ep_head p)
      else head_exceeds bk s projectionNoObserverDropThreshold (ep_head p) in
    let p := set_ep_head k p in
    if big then set_ep_head (snd (head_drop bk s (ep_head p))) p
    else snd (FlushPatchAndRecord marshal AuthedDevice bk s now p)
  else p.

(** The devices that should have seen the event and are not among its targets. *)
Definition degraded_device (l : LogicalEvent) (now : Z) p (deviceID : string) : bool :=
  match observation p ≫= GetScope deviceID (le_BackendID l) with
  | None => true
  | Some sc =>
      observes_session (le_SessionID l) sc
      && (bool_decide (os_DeliveryMode sc = scopeFullStream) || isLiveControlPlaneEvent (le_Event l))
  end.

Definition degradedDeviceIDsLocked (l : LogicalEvent) (targets : gset Connection) (now : Z) p
  : list string :=
  if negb (scoped l) then []
  else
    let online : gset string := list_to_set (omap AuthedDevice (elements targets)) in
    let cand : gset string :=
      match observation p with Some om => DeviceIDs om | None => ∅ end
      ∪ list_to_set (InterestedDevices (le_BackendID l) (le_SessionID l) now (liveBuffer p)) in
    List.filter (degraded_device l now p) (elements (cand ∖ online)).

Definition buffer_missed (now : Z) (b : publication) p : EventPublisher :=
  if nobody_reached b && isLiveBufferableEvent (Event (pb_msg b)) then
    set_liveBuffer
      (LiveFrameBuffer.Append (degradedDeviceIDsLocked (pb_logical b) (pb_targets b) now p) (pb_msg b) now
         (liveBuffer p)) p
  else p.

(** The offline route: the message is dropped when its queue is full. *)
Definition offline_route (b : publication) p : EventPublisher :=
  if le_Offline (pb_logical b) && (zlen (offlineQueue p) <? eventOutboundQueueCapacity)
  then set_offlineQueue (offlineQueue p ++ [pb_msg b]) p else p.

(** The rest of the part under the lock. *)
Definition publish_finish (now : Z) (b : publication) p : EventPublisher :=
  offline_route b (buffer_missed now b (flush_projection now b p)).

(** After the lock: the abandoned recoveries are told, the connections that refused
    the event are closed. *)
Definition publish_after (b : publication) p : EventPublisher :=
  let p :=
    fold_left (fun p (d : Connection * string) =>
                 snd (EnqueueControl d.1 (recovery_value "recovery_aborted" d.2) false p))
      (pb_degraded b) p in
  fold_left (fun p c => close_conn c p) (pb_overflowed b) p.

(** The whole publication when no other operation comes between its parts; the
    callback [rebind] is the handlers'. *)
Definition publish (mode : eventPublishMode) (l : LogicalEvent) (now millis : Z)
  (rebind : option (string -> string -> EventPublisher (K := K) -> Z * EventPublisher (K := K))) p
  : publication * EventPublisher :=
  let '(b, p) := publish_start mode l now millis p in
  let '(again, p) :=
    wants_rebind (match rebind with Some _ => true | None => false end) now b p in
  let '(b, p) :=
    match again, rebind with
    | true, Some f =>
        let '(n, p) := f (le_BackendID l) (le_SessionID l) p in publish_retry n now b p
    | _, _ => (b, p)
    end in
  (b, publish_after b (publish_finish now b p)).

Definition PublishLogical (l : LogicalEvent) := publish publishTimelineEvent l.
Definition publishPreReducedTimeline (l : LogicalEvent) := publish publishPreReducedTimelineEvent l.

(** [None]: the validation's error, nothing done. *)
Definition PublishControlPlane (l : LogicalEvent) (now millis : Z)
  (rebind : option (string -> string -> EventPublisher (K := K) -> Z * EventPublisher (K := K))) p
  : option publication * EventPublisher :=
  if validateControlPlaneEvent l
  then let '(b, p) := publish publishControlPlaneEvent l now millis rebind p in (Some b, p)
  else (None, p).

(** [PublishSessionStateControlPlane]: [None] for an empty id or an unknown state. *)
Definition PublishSessionStateControlPlane (backendID sessionID state : string) (now millis : Z)
  (rebind : option (string -> string -> EventPublisher (K := K) -> Z * EventPublisher (K := K))) p
  : option publication * EventPublisher :=
  let backendID := trim_space backendID in
  let sessionID := trim_space sessionID in
  let state := trim_space state in
  if bool_decide (backendID = "") || bool_decide (sessionID = "")
     || negb (one_of state ["running"; "requiresAction"; "idle"])
  then (None, p)
  else
    let l := mkLogical backendID sessionID "" "session_state_changed"
               (VMap [("state", VString state)]) "" true [] [] false None in
    let '(b, p) := publish publishControlPlaneEvent l now millis rebind p in (Some b, p).

(** ** The live frames of a device that comes back *)

Definition NoteLiveInterest (deviceID backendID sessionID : string) (now : Z) p : EventPublisher :=
  set_liveBuffer (NoteInterest deviceID backendID sessionID now (liveBuffer p)) p.

(** A frame the device does not observe is sent anyway to a full stream. *)
Definition flush_wanted (device : string) (now : Z) (msg : EventMessage) p : bool :=
  match observation p with
  | None => true
  | Some om =>
      ShouldSendEvent device (BackendID msg) (SessionID msg) (Event msg) now om
      || isLiveControlPlaneEvent (Event msg)
      || match GetScope device (BackendID msg) om with
         | Some sc => bool_decide (os_DeliveryMode sc = scopeFullStream)
         | None => false
         end
  end.

Fixpoint flush_frames (conn : Connection) (device : string) (now : Z) (msgs : list EventMessage) p
  : EventPublisher :=
  match msgs with
  | [] => p
  | m :: msgs =>
      if flush_wanted device now m p then
        let '((ok, _, _), p) := enqueue conn (raw_frame m) p in
        if ok then flush_frames conn device now msgs p else p
      else flush_frames conn device now msgs p
  end.

Definition FlushLiveFrameBufferForDevice (conn : Connection) (now : Z) p : EventPublisher :=
  match AuthedDevice conn with
  | None => p
  | Some device =>
      let '(msgs, lb) := LiveFrameBuffer.Snapshot device now (liveBuffer p) in
      flush_frames conn device now msgs (set_liveBuffer lb p)
  end.

(** [runOffline]: the next message, for the route. *)
Definition run_offline p : option EventMessage * EventPublisher :=
  match offlineQueue p with
  | [] => (None, p)
  | m :: rest => (Some m, set_offlineQueue rest p)
  end.
End raw.
