(* ===== verification/PublisherRuns.v ===== *)
(** * Every execution of the publisher

    The operations of the publisher as the steps of one system: each is what runs
    under one hold of its lock, so that a list of operations is any interleaving of
    the handlers' calls, of the writing goroutines and of the other components'
    changes. Two invariants of every execution: the clients of the projection
    stream stay on the chain, and no queue overflows its capacity. *)

From S2P Require Import Prelude.
From S2P Require Import Wire.
From S2P Require Import EventBuffer.
From S2P Require Import Projection.
From S2P Require Import LiveFrameBuffer.
From S2P Require Import Kernel.
From S2P Require Import Broadcaster.
From S2P Require Import Observation.
From S2P Require Import OutboundSink.
From S2P Require Import Publisher.
From S2P Require Import PublisherLink.
From S2P Require Import PublisherChain.
From S2P Require Import PublisherStream.
From S2P Require Import PublisherDetail.
From S2P Require Import PublishRaw.

Section runs.
Context {K : Type} `{!ProjectionHead K}.
Context (marshal : ProjectionPatch -> option nat) (marshal_event : EventMessage -> nat)
  (decimal : Z -> string) (AuthedDevice : Connection -> option string).
Implicit Types p : EventPublisher (K := K).

(** The parts of a publication are separate steps, for any state of its own. *)
Inductive pub_op : Type :=
| PRegister (c : Connection)
| PUnregister (c : Connection)
| PClosed (c : Connection)
| PTake (c : Connection)
| PWritten (c : Connection)
| PControl (c : Connection) (v : value) (wait : bool)
| PControlTimeout (c : Connection)
| PCap (cap : ConnCapability) (c : Connection) (enabled : bool)
| PMaxBytes (c : Connection) (granted : Z)
| PMode (c : Connection) (bk s : string) (mode : ProjectionDeliveryMode)
| PRecordTurns (c : Connection) (bk s : string) (ids : list string)
| PClearTurns (c : Connection) (bk s : string)
| PBegin (c : Connection) (bk s : string)
| PBeginResume (c : Connection) (bk s : string) (since now : Z)
| PComplete (c : Connection) (adm : ProjectionSnapshotAdmission) (req : string) (data : value)
    (held : list string) (err : option value)
| PCompletionFailed (c : Connection) (adm : ProjectionSnapshotAdmission) (timeout : bool)
| PPatch (bk s : string) (q : ProjectionPatch) (now : Z)
| PFlush (bk s : string) (now : Z)
| PPrepend (bk s : string) (rev : Z) (requester : option Connection)
| PDetail (bk s : string) (ps : list ProjectionPatch) (requester : option Connection) (now : Z)
| PBeginRecovery (c : Connection) (id : string) (cuts : option BridgeSessionCutMap) (now : Z)
| PCompleteRecovery (c : Connection) (id : string) (applied : list BridgeSessionCutMap)
| PFailRecovery (c : Connection) (id : string)
| PFreeze (c : Connection) (id bk s : string) (now : Z)
| PPublish (mode : eventPublishMode) (l : LogicalEvent) (now millis : Z)
| PRebind (has_rebind : bool) (now : Z) (b : publication)
| PRetry (n now : Z) (b : publication)
| PFinish (now : Z) (b : publication)
| PAfter (b : publication)
| PFlushLive (c : Connection) (now : Z)
| PNoteInterest (device bk s : string) (now : Z)
| POffline
| PWorld (bc : option Broadcaster) (om : option ObservationManager) (head : K).

Definition pub_exec p (o : pub_op) : EventPublisher :=
  match o with
  | PRegister c => RegisterConnection c p
  | PUnregister c => UnregisterConnection c p
  | PClosed c => set_closedConns ({[c]} ∪ closedConns p) p
  | PTake c => put_sink c (run_take (conn_isClosed c p) (sink_of c p)) p
  | PWritten c => put_sink c (run_written (sink_of c p)) p
  | PControl c v wait => snd (EnqueueControl c v wait p)
  | PControlTimeout c => EnqueueControl_timeout c p
  | PCap cap c enabled => SetConn cap c enabled p
  | PMaxBytes c granted => SetConnProjectionMaxBytes c granted p
  | PMode c bk s mode => SetConnProjectionDeliveryMode c bk s mode p
  | PRecordTurns c bk s ids => RecordConnWindowTurns c bk s ids p
  | PClearTurns c bk s => ClearConnWindowTurns c bk s p
  | PBegin c bk s => snd (BeginProjectionSnapshot c bk s p)
  | PBeginResume c bk s since now => snd (BeginProjectionSnapshotWithResume c bk s since now p)
  | PComplete c adm req data held err => snd (completeProjectionSnapshot c adm req data held err p)
  | PCompletionFailed c adm timeout => completion_failed c adm timeout p
  | PPatch bk s q now => PublishProjectionPatch marshal AuthedDevice bk s q now p
  | PFlush bk s now => snd (FlushPatchAndRecord marshal AuthedDevice bk s now p)
  | PPrepend bk s rev r => PublishProjectionPrepend marshal bk s rev r p
  | PDetail bk s ps r now => PublishProjectionDetail marshal AuthedDevice bk s ps r now p
  | PBeginRecovery c id cuts now => snd (BeginRecovery c id cuts now p)
  | PCompleteRecovery c id applied => snd (CompleteRecovery c id applied p)
  | PFailRecovery c id => FailRecovery c id p
  | PFreeze c id bk s now => snd (FreezeRecoverySnapshot c id bk s now p)
  | PPublish mode l now millis =>
      snd (publish_start marshal_event decimal AuthedDevice mode l now millis p)
  | PRebind has_rebind now b => snd (wants_rebind has_rebind now b p)
  | PRetry n now b => snd (publish_retry AuthedDevice n now b p)
  | PFinish now b => publish_finish marshal AuthedDevice now b p
  | PAfter b => publish_after b p
  | PFlushLive c now => FlushLiveFrameBufferForDevice AuthedDevice c now p
  | PNoteInterest device bk s now => NoteLiveInterest device bk s now p
  | POffline => snd (run_offline p)
  | PWorld bc om head => set_ep_head head (set_observation om (set_broadcaster bc p))
  end.

Definition pub_run (ops : list pub_op) p : EventPublisher := fold_left pub_exec ops p.

(** ** What an operation without projection frames keeps

    Events and control frames are put in queues, recoveries begin and end, and no
    session's fence, revision or mark is touched: whatever holds of the links, and
    however such frames are added to the queues, still holds. *)

(** Neither a projection event nor the result of a pull. *)
Definition plain (f : eventOutboundFrame) : Prop :=
  match of_content f with ProjectionContent _ | ResultContent _ _ _ _ _ _ => False | _ => True end.

Lemma plain_silent bk s fs : Forall plain fs -> Forall (silent bk s) fs.
Proof.
  intros Hfs. eapply Forall_impl; [exact Hfs|]. intros f Hf r. unfold client_step. unfold plain in Hf. by destruct (of_content f).
Qed.

Section plain.
Context (P : EventPublisher (K := K) -> Prop).
Context (P_same : forall p p', (forall c bk s, link_of c bk s p' = link_of c bk s p) -> closing p ⊆ closing p' ->
                    P p -> P p').
Context (P_write : forall c sk p, sk_log sk = sk_log (sink_of c p) -> P p -> P (put_sink c sk p)).
Context (P_put : forall c fs p, Forall plain fs -> P p -> P (put_sink c (put_frames fs (sink_of c p)) p)).

#[local] Ltac same :=
  first [assumption
        | match goal with H : P ?q |- P _ => solve [apply (P_same q); [intros; reflexivity|cbn; set_solver|exact H]] end].

Lemma ok_enqueue_event c m w class p : P p -> P (snd (enqueue c (event_frame m w class) p)).
Proof.
  intros Hp. unfold enqueue. pose proof (tryEnqueue_cases (sink_of c p) (conn_isClosed c p) (event_frame m w class)) as H.
  destruct (tryEnqueue _ _ _) as [[[ok why] n] sk]. cbn in *. destruct H as [(_ & _ & ->)|[_ ->]].
  - apply (P_put c [event_frame m w class]); [by repeat constructor|done].
  - by apply (P_put c []).
Qed.

Lemma ok_live v p : P p -> P (set_liveBuffer v p).
Proof. intros Hp. same. Qed.

Lemma ok_sinkLocked c p : P p -> P (sinkLocked c p).
Proof. apply (P_put c []). constructor. Qed.

Lemma ok_close c p : P p -> P (close_conn c p).
Proof. intros Hp. same. Qed.

Lemma ok_control c frame wait p : P p -> P (snd (EnqueueControl c frame wait p)).
Proof.
  intros Hp. unfold EnqueueControl. cbv zeta. case_if; cbn [snd].
  - apply (P_put c [control_frame frame wait]); [by repeat constructor|done].
  - apply ok_close. by apply (P_put c []).
Qed.

Lemma ok_fold {A : Type} (op : EventPublisher (K := K) -> A -> EventPublisher (K := K)) l p :
  (forall q a, P q -> P (op q a)) -> P p -> P (fold_left op l p).
Proof. intros Hop. revert p. induction l; intros p Hp; cbn; auto. Qed.

Lemma ok_replay c pending n p :
  P p -> P (snd (replay_pending c pending n p)).
Proof.
  revert n p. induction pending as [|m pending IH]; intros n p Hp; [done|]. cbn [replay_pending].
  pose proof (ok_enqueue_event c m false (RelayClass.classifyRelayEvent (Event m)) p Hp) as He.
  fold (raw_frame m) in He. destruct (enqueue c (raw_frame m) p) as [[[ok why] k] p'].
  destruct ok; [by apply IH|done].
Qed.

Lemma ok_publish_live now c b p :
  P p -> P (snd (publish_live AuthedDevice now c b p)).
Proof.
  intros Hp. unfold publish_live. cbv zeta.
  match goal with |- context [enqueue c (event_frame ?m ?w ?k) p] =>
    pose proof (ok_enqueue_event c m w k p Hp) as He;
    destruct (enqueue c (event_frame m w k) p) as [[[ok why] n] p'] end.
  destruct ok; [|exact He]. cbn in He |- *. destruct (AuthedDevice c); same.
Qed.

Lemma ok_publish_target now b p c :
  P p -> P (snd (publish_target marshal_event AuthedDevice now (b, p) c)).
Proof.
  intros Hp. unfold publish_target. case_if; [done|]. cbv zeta. case_if; [done|].
  destruct (recoveries p !! c) as [r|]; [|by apply ok_publish_live]. case_if; [|cbn; same].
  assert (P (drop_recovery c p)) as Hd by same.
  pose proof (ok_replay c (rc_pending r) (pb_enqueued b) (sinkLocked c (drop_recovery c p))
    (ok_sinkLocked c _ Hd)) as Hr. cbn [pb_enqueued set_pb_degraded set_pb_rawEligible].
  destruct (replay_pending c (rc_pending r) (pb_enqueued b) (sinkLocked c (drop_recovery c p)))
    as [[n all] p']. destruct all; [by apply ok_publish_live|done].
Qed.

Lemma ok_retry_target now b p c :
  P p -> P (snd (retry_target AuthedDevice now (b, p) c)).
Proof.
  intros Hp. unfold retry_target. case_if; [done|]. cbv zeta. case_if; [done|].
  destruct (recoveries p !! c) as [r|]; [done|].
  match goal with |- context [enqueue c (event_frame ?m ?w ?k) p] =>
    pose proof (ok_enqueue_event c m w k p Hp) as He;
    destruct (enqueue c (event_frame m w k) p) as [[[ok why] n] p'] end.
  destruct ok; [|exact He]. cbn in He |- *. destruct (AuthedDevice c); same.
Qed.

(** A fold that threads a publication beside the publisher. *)
Lemma fold_snd
  (f : publication * EventPublisher (K := K) -> Connection -> publication * EventPublisher (K := K))
  l bp :
  (forall b p c, P p -> P (snd (f (b, p) c))) -> P (snd bp) -> P (snd (fold_left f l bp)).
Proof.
  intros Hf. revert bp. induction l as [|c l IH]; intros [b p] Hp; [done|]. cbn [fold_left].
  apply IH. by apply Hf.
Qed.

Lemma ok_publish_start mode l now millis p :
  P p ->
  P (snd (publish_start marshal_event decimal AuthedDevice mode l now millis p)).
Proof.
  intros Hp. unfold publish_start.
  assert (P (snd (stamp decimal l millis p))) as H1.
  { unfold stamp. cbv zeta. destruct (scoped l); [|cbn; same].
    destruct (head_issue _ _ _) as [n k]. cbn. same. }
  destruct (stamp decimal l millis p) as [msg p1].
  assert (P (snd (reduce mode l msg now p1))) as H2.
  { unfold reduce. case_if; [done|]. destruct (head_ingest _ _ _) as [res k]. cbn. same. }
  destruct (reduce mode l msg now p1) as [ing p2]. cbv zeta.
  apply fold_snd; [intros; by apply ok_publish_target|]. cbn in H2 |- *. same.
Qed.

Lemma ok_publish_after b p : P p -> P (publish_after b p).
Proof.
  intros Hp. unfold publish_after. cbv zeta.
  apply ok_fold; [intros; by apply ok_close|].
  apply ok_fold; [|done]. intros q [c id] Hq. by apply ok_control.
Qed.

Lemma ok_flush_frames c device now msgs p :
  P p -> P (flush_frames c device now msgs p).
Proof.
  revert p. induction msgs as [|m msgs IH]; intros p Hp; [done|]. cbn [flush_frames].
  case_if; [|by apply IH].
  pose proof (ok_enqueue_event c m false (RelayClass.classifyRelayEvent (Event m)) p Hp) as He.
  fold (raw_frame m) in He. destruct (enqueue c (raw_frame m) p) as [[[ok why] k] p'].
  destruct ok; [by apply IH|done].
Qed.

Lemma ok_complete_recovery c id applied p :
  P p -> P (snd (CompleteRecovery c id applied p)).
Proof.
  intros Hp. unfold CompleteRecovery. destruct (recoveries p !! c) as [r|]; [|done].
  case_if; [done|]. cbv zeta. case_if; [apply ok_control; first [same | by apply ok_sinkLocked]|].
  pose proof (ok_sinkLocked c p Hp) as Hs. case_if; [apply ok_close; same|].
  pose proof (P_put c (completion_frames id
    (List.filter (past_cut (rc_cutBySession r)) (rc_pending r))) (sinkLocked c p)) as H.
  cbn [snd]. eapply P_same; [| |apply H; [|exact Hs]]; [intros; reflexivity|cbn; set_solver|].
  constructor; [done|]. apply Forall_fmap, Forall_true. done.
Qed.

(** The operations that put no projection frame and open or close no pull. *)
Definition plain_op (o : pub_op) : bool :=
  match o with
  | PUnregister _ | PBegin _ _ _ | PBeginResume _ _ _ _ _ | PComplete _ _ _ _ _ _ | PPatch _ _ _ _ | PFlush _ _ _
  | PPrepend _ _ _ _ | PDetail _ _ _ _ _ | PFinish _ _ => false
  | _ => true
  end.

Lemma ok_plain_op o p : plain_op o = true -> P p -> P (pub_exec p o).
Proof.
  intros Ho Hp. destruct o; try discriminate Ho; clear Ho; cbn [pub_exec]; try same.
  - apply ok_sinkLocked. unfold registerConnectionLocked. case_if; same.
  - apply P_write; [|done]. unfold run_take. by repeat case_match.
  - apply P_write; [|done]. unfold run_written. by repeat case_match.
  - by apply ok_control.
  - unfold RecordConnWindowTurns. destruct ids; same.
  - unfold completion_failed. cbv zeta. destruct timeout; same.
  - unfold BeginRecovery. case_if; [same|]. destruct (recoveries p !! c); [same|]. cbn [snd].
    pose proof (ok_sinkLocked c p Hp) as H. same.
  - by apply ok_complete_recovery.
  - unfold FailRecovery. destruct (recoveries p !! c); [|same]. case_if; same.
  - unfold FreezeRecoverySnapshot. destruct (recoveries p !! c) as [r|]; [|same]. case_if; [same|].
    destruct (default _ _) as [latest b]. cbv zeta. repeat case_match; same.
  - by apply ok_publish_start.
  - unfold wants_rebind. cbv zeta. case_if; [|same]. destruct (rebindLastAttempt p !! _); [|same].
    case_if; same.
  - unfold publish_retry. case_if; [|same]. cbv zeta. apply fold_snd; [intros; by apply ok_retry_target|].
    cbn. same.
  - by apply ok_publish_after.
  - unfold FlushLiveFrameBufferForDevice. destruct (AuthedDevice c); [|same].
    destruct (LiveFrameBuffer.Snapshot _ _ _) as [msgs lb]. apply ok_flush_frames. same.
  - unfold run_offline. destruct (offlineQueue p); same.
Qed.
End plain.

(** ** The chain *)

Lemma ok_flush_projection now b p :
  publisher_ok p -> publisher_ok (flush_projection marshal AuthedDevice now b p).
Proof.
  intros Hp. unfold flush_projection. cbv zeta. case_if; [|done].
  destruct (if hasProjectionPatchTargetLocked _ _ _ _ _ then _ else _) as [big k].
  destruct big; [done|]. by apply publisher_ok_flush.
Qed.

Lemma ok_publish_finish now b p :
  publisher_ok p -> publisher_ok (publish_finish marshal AuthedDevice now b p).
Proof.
  intros Hp. pose proof (ok_flush_projection now b p Hp) as H1.
  unfold publish_finish, offline_route, buffer_missed.
  repeat case_if; exact H1.
Qed.

Lemma ok_write c sk p : sk_log sk = sk_log (sink_of c p) -> publisher_ok p -> publisher_ok (put_sink c sk p).
Proof.
  intros Hlog Hp c' bk s Hn. apply (link_ok_log bk s (link_of c' bk s p)); [|done|done|done|by apply Hp].
  cbn [lk_sink link_of]. rewrite PublisherLink.sink_of_put. by case_decide; subst.
Qed.

Theorem pub_exec_ok p o : publisher_ok p -> publisher_ok (pub_exec p o).
Proof.
  intros Hp. destruct (plain_op o) eqn:Ho.
  { apply (ok_plain_op publisher_ok); try done; [|apply ok_write|].
    - intros q q' Hl. apply publisher_ok_same. intros. apply Hl.
    - intros c fs q Hfs. apply publisher_ok_put. intros. by apply plain_silent. }
  destruct o; try discriminate Ho; clear Ho; cbn [pub_exec].
  - by apply publisher_ok_unregister.
  - unfold BeginProjectionSnapshot. case_if; [done|]. by apply publisher_ok_begin.
  - unfold BeginProjectionSnapshotWithResume. case_if; [done|].
    pose proof (publisher_ok_begin c bk s p Hp) as H1.
    destruct (beginProjectionSnapshotLocked c bk s p) as [[e|[proj adm]] p']; [done|].
    case_if; [done|]. by destruct (RevisionJournal.ContiguousRangeAt _ _ _ _ _ _) as [[[? ?] ?] j].
  - by apply publisher_ok_complete.
  - by apply publisher_ok_publish.
  - by apply publisher_ok_flush.
  - by apply publisher_ok_prepend.
  - by apply publisher_ok_detail.
  - by apply ok_publish_finish.
Qed.

Lemma new_publisher_ok epoch bc (head : K) : publisher_ok (NewEventPublisher epoch bc head).
Proof. intros c bk s _. exists 0. split; [done|]. by right. Qed.

End runs.
