(* ===== verification/PublisherOrder.v ===== *)
(** * Order and capacity of the queues, in every execution

    What an operation does to the queues is one of a few moves: nothing, or some
    frames put where they fit. Two invariants follow by induction on the moves: no
    queue exceeds its capacity, so that the sends the publisher makes under its
    lock never wait; and the events of each connection are put in the order they
    were numbered, recoveries included, as long as no publication is retried. *)

From S2P Require Import Prelude.
From S2P Require Import Wire.
From S2P Require Import EventBuffer.
From S2P Require Import Projection.
From S2P Require Import LiveFrameBuffer.
From S2P Require Import Kernel.
From S2P Require Import Broadcaster.
From S2P Require Import Observation.
From S2P Require Import OutboundSink.
From S2P Require Import Publisher.
From S2P Require Import PublishRaw.
From S2P Require Import PublisherRuns.

(** The numbers of the events among some frames. *)
Definition event_seqs (fs : list eventOutboundFrame) : list Z :=
  omap (fun f => match of_content f with EventContent m => Some (Seq m) | _ => None end) fs.

Lemma event_seqs_app fs gs : event_seqs (fs ++ gs) = event_seqs fs ++ event_seqs gs.
Proof. apply omap_app. Qed.

Section moves.
Context {K : Type} `{!ProjectionHead K}.
Implicit Types p : EventPublisher (K := K).

Definition quiet p p' : Prop :=
  (forall c, sink_of c p' = sink_of c p) /\ recoveries p' = recoveries p /\ ep_seq p' = ep_seq p.

(** Nothing, or frames that fit, none of them an event. *)
Inductive move p p' : Prop :=
| move_quiet : quiet p p' -> move p p'
| move_frames c fs :
    event_seqs fs = [] -> zlen fs <= free_slots (sink_of c p) ->
    sink_of c p' = put_frames fs (sink_of c p) ->
    (forall c', c' <> c -> sink_of c' p' = sink_of c' p) ->
    recoveries p' = recoveries p -> ep_seq p' = ep_seq p -> move p p'.

Abbreviation moves := (rtc move).

Lemma quiet_refl p : quiet p p.
Proof. done. Qed.

Lemma moves_quiet p p' : quiet p p' -> moves p p'.
Proof. intros H. apply rtc_once. by apply move_quiet. Qed.

(** A further step that keeps the sinks, the recoveries and the number. *)
Lemma moves_then p p' p'' : moves p p' -> quiet p' p'' -> moves p p''.
Proof. intros H Hq. etrans; [exact H|by apply moves_quiet]. Qed.

Lemma moves_put c fs p :
  event_seqs fs = [] -> zlen fs <= free_slots (sink_of c p) ->
  moves p (put_sink c (put_frames fs (sink_of c p)) p).
Proof.
  intros He Hf. apply rtc_once. apply (move_frames p _ c fs); try done.
  - rewrite PublisherLink.sink_of_put. by rewrite decide_True.
  - intros c' Hc. rewrite PublisherLink.sink_of_put. by rewrite decide_False.
Qed.

Lemma quiet_put_same c p : quiet p (put_sink c (sink_of c p) p).
Proof.
  split; [|done]. intros c'. rewrite PublisherLink.sink_of_put. by case_decide; subst.
Qed.

(** The room [tryEnqueue] found. *)
Lemma tryEnqueue_put c f p :
  snd (tryEnqueue (conn_isClosed c p) f (sink_of c p)) = sink_of c p \/
  (snd (tryEnqueue (conn_isClosed c p) f (sink_of c p)) = put_frame f (sink_of c p) /\
   0 < free_slots (sink_of c p)).
Proof.
  unfold tryEnqueue. destruct (conn_isClosed c p); [by left|]. destruct (sk_stopped _); [by left|].
  destruct (_ <? _) eqn:Hlt; [|by left]. right. zprop. split; [done|]. unfold free_slots. lia.
Qed.

Lemma moves_enqueue c f p : event_seqs [f] = [] -> moves p (snd (enqueue c f p)).
Proof.
  intros Hf. unfold enqueue. pose proof (tryEnqueue_put c f p) as Hput.
  destruct (tryEnqueue _ f _) as [[[ok why] n] sk]. cbn [snd] in *.
  destruct Hput as [-> |[-> Hroom]].
  - apply moves_quiet, quiet_put_same.
  - apply (moves_put c [f]); [done|cbn; lia].
Qed.

Lemma moves_fold {A : Type} (op : EventPublisher -> A -> EventPublisher) l p :
  (forall q a, moves q (op q a)) -> moves p (fold_left op l p).
Proof.
  intros Hop. revert p. induction l as [|a l IH]; intros p; [done|]. cbn [fold_left].
  etrans; [apply Hop|apply IH].
Qed.

(** ** The delivery operations *)

Context (marshal : ProjectionPatch -> option nat) (AuthedDevice : Connection -> option string).

Lemma moves_invalidate c bk s p : moves p (enqueueProjectionInvalidateLocked c bk s p).
Proof.
  unfold enqueueProjectionInvalidateLocked. cbv zeta.
  etrans; [|by apply moves_enqueue]. by apply moves_quiet.
Qed.

Lemma moves_due c bk s q broadcast p :
  moves p
    (match patch_due (fence_key c bk s) q p with
     | DueNothing => p
     | DueInvalidate => mark_invalidated (fence_key c bk s) (enqueueProjectionInvalidateLocked c bk s p)
     | DuePatch =>
         let '((ok, _, _), p') := enqueue c (patch_frame (bridgeEpoch p) bk s q) p in
         if ok then set_cut (fence_key c bk s) (pt_SyncRev q) p'
         else if broadcast : bool then mark_invalidated (fence_key c bk s) p' else p'
     end).
Proof.
  destruct (patch_due _ _ _); [done| |].
  - eapply moves_then; [apply moves_invalidate|done].
  - pose proof (moves_enqueue c (patch_frame (bridgeEpoch p) bk s q) p eq_refl) as He.
    destruct (enqueue _ _ p) as [[[ok why] n] p']. cbn [snd] in He.
    destruct ok; [|destruct broadcast]; (eapply moves_then; [exact He|done]).
Qed.

Lemma moves_single c bk s q p : moves p (deliverSingleConnPatchLocked marshal c bk s q p).
Proof.
  unfold deliverSingleConnPatchLocked. cbv zeta.
  destruct (projectionFences p !! fence_key c bk s); [by apply moves_quiet|].
  apply (moves_due c bk s q false).
Qed.

Lemma moves_target bk s q now p c : moves p (deliver_target marshal AuthedDevice bk s q now p c).
Proof.
  unfold deliver_target. case_if; [done|]. case_if; [done|]. cbv zeta.
  etrans; [apply moves_quiet, (quiet_put_same c)|].
  change (put_sink c (sink_of c p) p) with (sinkLocked c p).
  destruct (projectionFences (sinkLocked c p) !! fence_key c bk s);
    [by case_if; [|apply moves_quiet]|].
  apply (moves_due c bk s q true).
Qed.

Lemma moves_deliver bk s q now p : moves p (deliverProjectionPatchLocked marshal AuthedDevice bk s q now p).
Proof.
  unfold deliverProjectionPatchLocked. case_if; [done|]. apply moves_fold. intros r c.
  apply moves_target.
Qed.

Lemma moves_record bk s q now p : moves p (recordProjectionPatchLocked marshal bk s q now p).
Proof.
  unfold recordProjectionPatchLocked.
  by destruct (RevisionJournal.Record_ _ _ _ _ _ _) as [[b j]|]; apply moves_quiet.
Qed.

Lemma moves_publish bk s q now p : moves p (PublishProjectionPatch marshal AuthedDevice bk s q now p).
Proof. etrans; [apply moves_record|apply moves_deliver]. Qed.

Lemma moves_flush bk s now p : moves p (snd (FlushPatchAndRecord marshal AuthedDevice bk s now p)).
Proof.
  unfold FlushPatchAndRecord. destruct (head_flush _ _ _) as [[q|] k]; [|by apply moves_quiet].
  etrans; [|apply moves_publish]. by apply moves_quiet.
Qed.

Lemma moves_prepend bk s rev r p : moves p (PublishProjectionPrepend marshal bk s rev r p).
Proof.
  unfold PublishProjectionPrepend. case_if; [done|]. apply moves_fold. intros q c.
  unfold prepend_target. case_if; [done|]. case_if; [|apply moves_invalidate].
  cbv zeta. case_if; [done|apply moves_single].
Qed.

Lemma moves_detail bk s ps r now p :
  moves p (PublishProjectionDetail marshal AuthedDevice bk s ps r now p).
Proof.
  unfold PublishProjectionDetail. case_if; [done|]. destruct (last ps) as [commit|]; [|done].
  case_if; [done|]. cbv zeta.
  match goal with |- rtc move p (fold_left ?op1 ?l1 (fold_left ?op2 ?l2 (fold_left ?op3 ?l3 p))) =>
    transitivity (fold_left op3 l3 p);
      [|transitivity (fold_left op2 l2 (fold_left op3 l3 p))] end.
  { apply moves_fold. intros q patch. case_if; [done|apply moves_record]. }
  { apply moves_fold. intros q live. apply moves_deliver. }
  apply moves_fold. intros q c. unfold detail_target. case_if; [done|]. case_if; [apply moves_single|].
  cbv zeta. match goal with |- context [if ?b then q else ?x] =>
    assert (moves q (if b then q else x)) as Hnoop by (case_if; [done|apply moves_single]) end.
  destruct (projectionFences q !! fence_key c bk s) as [f|]; [|exact Hnoop].
  destruct (fe_invalidated f); [exact Hnoop|by apply moves_quiet].
Qed.

Lemma moves_control c v w p : moves p (snd (EnqueueControl c v w p)).
Proof.
  unfold EnqueueControl. cbv zeta. case_if; cbn [snd].
  - zprop. apply (moves_put c [control_frame v w]); [done|cbn; lia].
  - eapply moves_then; [apply moves_quiet, (quiet_put_same c)|done].
Qed.

Lemma event_seqs_patches epoch bk s ps : event_seqs (map (patch_frame epoch bk s) ps) = [].
Proof. induction ps; [done|]. cbn. done. Qed.

Lemma moves_complete c adm req data held err p :
  moves p (snd (completeProjectionSnapshot c adm req data held err p)).
Proof.
  unfold completeProjectionSnapshot. case_if; [done|]. cbv zeta.
  destruct (admitted_fence c adm p) as [f|]; [|by apply moves_quiet].
  set (bk := ad_BackendID adm). set (s := ad_SessionID adm).
  set (p1 := if bool_decide (held <> []) && _ then _ else p).
  assert (moves p (sinkLocked c p1)) as H1.
  { eapply moves_then; [apply moves_quiet|apply quiet_put_same].
    unfold p1. by destruct (_ && _)%bool. }
  set (pending := if fe_invalidated f then [] else _).
  destruct (free_slots _ <? _) eqn:Hroom; [eapply moves_then; [exact H1|done]|]. zprop.
  etrans; [exact H1|]. set (p2 := sinkLocked c p1) in *. clearbody p1 p2.
  destruct (fe_invalidated f); cbn [snd].
  - eapply moves_then; [apply (moves_put c [result_frame req data err bk s (fe_cutRev f);
      invalidate_frame (bridgeEpoch p2) bk s] p2); [done|cbn; lia]|done].
  - eapply moves_then; [apply (moves_put c (result_frame req data err bk s (fe_cutRev f)
      :: map (patch_frame (bridgeEpoch p2) bk s) pending) p2)|done].
    + apply event_seqs_patches.
    + cbn [length]. rewrite length_map. lia.
Qed.

Lemma moves_begin c bk s p : moves p (snd (beginProjectionSnapshotLocked c bk s p)).
Proof.
  unfold beginProjectionSnapshotLocked. cbv zeta.
  destruct (projectionFences p !! _); [done|]. destruct (head_snapshot _ _ _); [|done].
  destruct (registerConnectionLocked c p) as [g p1] eqn:Hr. cbn [snd].
  assert (quiet p p1) as Hq by (unfold registerConnectionLocked in Hr; destruct (negb _); by injection Hr as <- <-).
  etrans; [by apply moves_quiet|].
  eapply moves_then; [apply moves_quiet, (quiet_put_same c p1)|done].
Qed.
End moves.

(** ** Increasing lists of numbers *)

Definition increasing (l : list Z) : Prop := StronglySorted Z.lt l.

Lemma increasing_snoc l n : increasing l -> Forall (fun x => x < n) l -> increasing (l ++ [n]).
Proof.
  intros Hl Hn. apply StronglySorted_app. split_and!; [|done|repeat constructor].
  intros x y Hx Hy. apply list_elem_of_singleton in Hy as ->. rewrite Forall_forall in Hn. auto.
Qed.

Lemma increasing_sublist l l' : l `sublist_of` l' -> increasing l' -> increasing l.
Proof.
  induction 1 as [|x l1 l2 Hs IH|x l1 l2 Hs IH]; intros Hi; [constructor| |];
    inversion Hi as [|? ? Hi' Hall]; subst.
  - constructor; [by apply IH|]. rewrite Forall_forall in Hall |- *. intros y Hy. apply Hall.
    by eapply elem_of_sublist.
  - by apply IH.
Qed.

Lemma Forall_sublist_lt (P : Z -> Prop) l l' : l `sublist_of` l' -> Forall P l' -> Forall P l.
Proof. intros Hs Hl. rewrite Forall_forall in *. intros x Hx. apply Hl. by eapply elem_of_sublist. Qed.

Lemma filter_sublist {A : Type} (f : A -> bool) (l : list A) : List.filter f l `sublist_of` l.
Proof. induction l as [|x l IH]; [constructor|]. cbn. by destruct (f x); constructor. Qed.

Lemma event_seqs_raw (l : list EventMessage) : event_seqs (map raw_frame l) = map Seq l.
Proof. induction l; [done|]. cbn. by f_equal. Qed.

(** ** The events of a connection: those put, then those its recovery holds *)

Section order.
Context {K : Type} `{!ProjectionHead K}.
Context (marshal : ProjectionPatch -> option nat) (marshal_event : EventMessage -> nat)
  (decimal : Z -> string) (AuthedDevice : Connection -> option string).
Implicit Types p : EventPublisher (K := K).

Definition held_back (c : Connection) p : list Z :=
  match recoveries p !! c with Some r => map Seq (rc_pending r) | None => [] end.

Definition line (c : Connection) p : list Z := event_seqs (sk_log (sink_of c p)) ++ held_back c p.

Definition ordered p : Prop :=
  forall c, increasing (line c p) /\ Forall (fun n => n <= ep_seq p) (line c p).

Lemma ordered_sub p p' :
  (forall c, line c p' `sublist_of` line c p) -> ep_seq p' = ep_seq p -> ordered p -> ordered p'.
Proof.
  intros Hs Hn Hp c. destruct (Hp c) as [H1 H2]. rewrite Hn. split.
  - exact (increasing_sublist _ _ (Hs c) H1).
  - exact (Forall_sublist_lt _ _ _ (Hs c) H2).
Qed.

Lemma ordered_same p p' :
  (forall c, line c p' = line c p) -> ep_seq p' = ep_seq p -> ordered p -> ordered p'.
Proof. intros Hs. apply ordered_sub. intros c. by rewrite Hs. Qed.

Lemma ordered_quiet p p' : quiet p p' -> ordered p -> ordered p'.
Proof.
  intros (H1 & H2 & H3). apply ordered_same; [|done]. intros c. unfold line, held_back.
  by rewrite H1, H2.
Qed.

Lemma ordered_move p p' : move p p' -> ordered p -> ordered p'.
Proof.
  intros [Hq|c fs He Hf Hs Ho Hr Hn]; [by apply ordered_quiet|].
  apply ordered_same; [|done]. intros c'. unfold line, held_back. rewrite Hr.
  destruct (decide (c' = c)) as [->|Hc]; [|by rewrite Ho].
  by rewrite Hs, put_frames_log, event_seqs_app, He, app_nil_r.
Qed.

Lemma ordered_moves p p' : rtc move p p' -> ordered p -> ordered p'.
Proof. induction 1; eauto using ordered_move. Qed.

(** *** One publication *)

(** The line of one connection grows at its end by numbers up to [n]. *)
Record one_line (c : Connection) (n : Z) p p' : Prop := {
  ol_seq : ep_seq p' = ep_seq p;
  ol_other : forall c', c' <> c -> line c' p' = line c' p;
  ol_line : line c p' `sublist_of` line c p ++ [n]
}.

Lemma line_of_sink c p p' :
  sk_log (sink_of c p') = sk_log (sink_of c p) -> recoveries p' !! c = recoveries p !! c ->
  line c p' = line c p.
Proof. intros H1 H2. unfold line, held_back. by rewrite H1, H2. Qed.

Lemma enqueue_effect c f p :
  let p' := snd (enqueue c f p) in
  (forall c', c' <> c -> sink_of c' p' = sink_of c' p) /\
  recoveries p' = recoveries p /\ ep_seq p' = ep_seq p /\
  sk_log (sink_of c p') = sk_log (sink_of c p) ++ (if (fst (enqueue c f p)).1.1 then [f] else []).
Proof.
  unfold enqueue. destruct (tryEnqueue_cases (sink_of c p) (conn_isClosed c p) f)
    as [(H1 & _ & H3)|(H1 & H3)];
    destruct (tryEnqueue _ _ _) as [[[ok why] n] sk]; cbn [fst snd] in *; subst;
    (split_and!; [intros c' Hc; rewrite PublisherLink.sink_of_put; by rewrite decide_False|done|done|]);
    rewrite PublisherLink.sink_of_put, decide_True by done; [done|by rewrite app_nil_r].
Qed.

Lemma replay_effect c pending n p :
  let p' := snd (replay_pending c pending n p) in
  exists sent rest, pending = sent ++ rest /\
    (forall c', c' <> c -> sink_of c' p' = sink_of c' p) /\
    recoveries p' = recoveries p /\ ep_seq p' = ep_seq p /\
    sk_log (sink_of c p') = sk_log (sink_of c p) ++ map raw_frame sent.
Proof.
  revert n p. induction pending as [|m pending IH]; intros n p; cbn [replay_pending].
  - exists [], []. split_and!; try done. by rewrite app_nil_r.
  - destruct (enqueue_effect c (raw_frame m) p) as (E1 & E2 & E3 & E4).
    destruct (enqueue c (raw_frame m) p) as [[[ok why] k] p1]. cbn [fst snd] in *. destruct ok.
    + destruct (IH (n + 1) p1) as (sent & rest & -> & I1 & I2 & I3 & I4).
      exists (m :: sent), rest. split_and!; [done| |congruence|congruence|].
      * intros c' Hc. by rewrite I1, E1.
      * rewrite I4, E4, <- app_assoc. done.
    + exists [], (m :: pending). split_and!; try done.
Qed.

Lemma publish_live_effect now c b p :
  let bp := publish_live AuthedDevice now c b p in
  pb_msg (fst bp) = pb_msg b /\ recoveries (snd bp) = recoveries p /\ ep_seq (snd bp) = ep_seq p /\
  (forall c', c' <> c -> sink_of c' (snd bp) = sink_of c' p) /\
  exists fs, sk_log (sink_of c (snd bp)) = sk_log (sink_of c p) ++ fs /\
    event_seqs fs `sublist_of` [Seq (pb_msg b)].
Proof.
  unfold publish_live. cbv zeta.
  match goal with |- context [enqueue c ?f p] =>
    pose proof (enqueue_effect c f p) as (E1 & E2 & E3 & E4);
    assert (event_seqs [f] = [Seq (pb_msg b)]) as Hf by (by case_bool_decide);
    destruct (enqueue c f p) as [[[ok why] k] p1] end.
  cbn [fst snd] in *.
  assert (pb_msg (if bool_decide (c ∈ le_WaitTargets (pb_logical b))
                  then set_pb_waits (pb_waits b ++ [c]) b else b) = pb_msg b) as Hm by (by case_if).
  destruct ok; cbn [fst snd].
  - split; [exact Hm|]. destruct (AuthedDevice c); (split_and!; [done|done|exact E1|]);
      (eexists; split; [exact E4|by rewrite Hf]).
  - split_and!; [exact Hm|done|done|exact E1|]. exists []. split; [exact E4|]. apply sublist_nil_l.
Qed.

Lemma one_line_refl c n p : one_line c n p p.
Proof. constructor; [done|done|]. by apply sublist_inserts_r. Qed.

(** What is put in the queue of [c] while its recovery is dropped or absent. *)
Lemma one_line_put c n p p' fs :
  ep_seq p' = ep_seq p -> (forall c', c' <> c -> sink_of c' p' = sink_of c' p) ->
  (forall c', c' <> c -> recoveries p' !! c' = recoveries p !! c') -> recoveries p' !! c = None ->
  sk_log (sink_of c p') = sk_log (sink_of c p) ++ fs ->
  event_seqs fs `sublist_of` held_back c p ++ [n] -> one_line c n p p'.
Proof.
  intros Hn Hs Hr Hc Hlog Hfs. constructor; [done| |].
  - intros c' Hc'. apply line_of_sink; [by rewrite Hs|by apply Hr].
  - unfold line. rewrite Hlog, event_seqs_app, <- !app_assoc.
    apply sublist_app; [done|]. unfold held_back at 1. by rewrite Hc, app_nil_r.
Qed.

Lemma publish_target_line now b p c :
  let bp := publish_target marshal_event AuthedDevice now (b, p) c in
  pb_msg (fst bp) = pb_msg b /\ one_line c (Seq (pb_msg b)) p (snd bp).
Proof.
  unfold publish_target. case_if; [by split; [|apply one_line_refl]|]. cbv zeta.
  case_if; [by split; [|apply one_line_refl]|].
  destruct (recoveries p !! c) as [r|] eqn:Hr; [case_if|].
  - set (p0 := sinkLocked c (drop_recovery c p)).
    destruct (replay_effect c (rc_pending r) (pb_enqueued b) p0) as (sent & rest & Hp & R1 & R2 & R3 & R4).
    cbn [pb_enqueued set_pb_degraded set_pb_rawEligible].
    destruct (replay_pending c (rc_pending r) (pb_enqueued b) p0) as [[k all] p1]. cbn [fst snd] in *.
    assert (recoveries p1 = delete c (recoveries p)) as Hr1 by done.
    assert (forall c', sink_of c' p0 = sink_of c' p) as Hs0 
      by exact (proj1 (quiet_put_same c (drop_recovery c p))).
    assert (ep_seq p1 = ep_seq p) as Hn1 by done.
    assert (held_back c p = map Seq sent ++ map Seq rest) as Hh
      by (unfold held_back; by rewrite Hr, Hp, map_app).
    destruct all.
    + match goal with |- context [publish_live _ now c ?b' p1] =>
        destruct (publish_live_effect now c b' p1) as (L1 & L2 & L3 & L4 & fs & L5 & L6);
        destruct (publish_live AuthedDevice now c b' p1) as [b2 p2] end.
      cbn [fst snd] in *. split; [exact L1|].
      apply (one_line_put c _ p p2 (map raw_frame sent ++ fs)).
      * congruence.
      * intros c' Hc. by rewrite L4, R1, Hs0.
      * intros c' Hc. by rewrite L2, Hr1, lookup_delete_ne.
      * by rewrite L2, Hr1, lookup_delete_eq.
      * by rewrite L5, R4, Hs0, app_assoc.
      * rewrite event_seqs_app, event_seqs_raw, Hh, <- app_assoc. apply sublist_app; [done|].
        by apply sublist_inserts_l.
    + cbn [fst snd]. split; [done|]. apply (one_line_put c _ p p1 (map raw_frame sent)).
      * done.
      * intros c' Hc. by rewrite R1, Hs0.
      * intros c' Hc. by rewrite Hr1, lookup_delete_ne.
      * by rewrite Hr1, lookup_delete_eq.
      * by rewrite R4, Hs0.
      * rewrite event_seqs_raw, Hh, <- app_assoc. by apply sublist_inserts_r.
  - cbn [fst snd]. split; [done|]. constructor; [done| |].
    + intros c' Hc. apply line_of_sink; [done|]. cbn. by apply lookup_insert_ne.
    + unfold line, held_back. cbn [recoveries put_recovery set_recoveries].
      rewrite lookup_insert_eq, Hr. cbn [rc_pending]. rewrite map_app, app_assoc. done.
  - match goal with |- context [publish_live _ now c ?b' p] =>
      destruct (publish_live_effect now c b' p) as (L1 & L2 & L3 & L4 & fs & L5 & L6);
      destruct (publish_live AuthedDevice now c b' p) as [b2 p2] end.
    cbn [fst snd] in *. split; [exact L1|].
    apply (one_line_put c _ p p2 fs); [done|done|by intros; rewrite L2|by rewrite L2|done|].
    by apply sublist_inserts_l.
Qed.

(** Over distinct connections, each line grows by at most the one number. *)
Lemma publish_targets_line now l b p :
  NoDup l ->
  let bp := fold_left (publish_target marshal_event AuthedDevice now) l (b, p) in
  ep_seq (snd bp) = ep_seq p /\
  forall c, line c (snd bp) `sublist_of` line c p ++ (if decide (c ∈ l) then [Seq (pb_msg b)] else []).
Proof.
  revert b p. induction l as [|c l IH]; intros b p Hnd.
  - split; [done|]. intros c. cbn. by rewrite app_nil_r.
  - cbn [fold_left]. apply NoDup_cons in Hnd as [Hc Hnd].
    destruct (publish_target_line now b p c) as (Hm & [T1 T2 T3]).
    destruct (publish_target marshal_event AuthedDevice now (b, p) c) as [b1 p1]. cbn [fst snd] in *.
    destruct (IH b1 p1 Hnd) as [I1 I2]. split; [congruence|]. intros c'. etrans; [apply I2|].
    rewrite Hm. destruct (decide (c' = c)) as [->|Hne].
    + rewrite decide_False, app_nil_r by done. rewrite decide_True by set_solver. exact T3.
    + rewrite T2 by done. destruct (decide (c' ∈ l)).
      * by rewrite decide_True by set_solver.
      * by rewrite decide_False by set_solver.
Qed.

Lemma ordered_publish mode l now millis p :
  ordered p ->
  ordered (snd (publish_start marshal_event decimal AuthedDevice mode l now millis p)).
Proof.
  intros Hp. unfold publish_start.
  assert (forall c, line c (snd (stamp decimal l millis p)) = line c p) as H1
    by (unfold stamp; cbv zeta; destruct (scoped l); [|done]; by destruct (head_issue _ _ _)).
  assert (ep_seq (snd (stamp decimal l millis p)) = ep_seq p + 1 /\
          Seq (fst (stamp decimal l millis p)) = ep_seq p + 1) as [N1 M1]
    by (unfold stamp; cbv zeta; destruct (scoped l); [|done]; by destruct (head_issue _ _ _)).
  destruct (stamp decimal l millis p) as [msg p1]. cbn [fst snd] in *.
  assert ((forall c, line c (snd (reduce mode l msg now p1)) = line c p1) /\
          ep_seq (snd (reduce mode l msg now p1)) = ep_seq p1) as [H2 N2]
    by (unfold reduce; case_if; [done|]; by destruct (head_ingest _ _ _)).
  destruct (reduce mode l msg now p1) as [ing p2]. cbn [fst snd] in *. cbv zeta.
  match goal with |- context [fold_left _ (elements ?T) (?b, ?q)] =>
    destruct (publish_targets_line now (elements T) b q (NoDup_elements T)) as [F1 F2] end.
  intros c. destruct (Hp c) as [C1 C2].
  assert (increasing (line c p ++ [ep_seq p + 1])) as Hi.
  { apply increasing_snoc; [done|]. eapply Forall_impl; [exact C2|]. cbn. lia. }
  assert (Forall (fun n => n <= ep_seq p + 1) (line c p ++ [ep_seq p + 1])) as Ha.
  { apply Forall_app. split; [|repeat constructor; lia]. eapply Forall_impl; [exact C2|]. cbn. lia. }
  match type of F1 with ep_seq ?r = _ =>
    assert (line c r `sublist_of` line c p ++ [ep_seq p + 1]) as Hs end.
  { etrans; [apply F2|]. cbn [pb_msg]. rewrite M1.
    match goal with |- line c ?r ++ _ `sublist_of` _ => change (line c r) with (line c p2) end.
    rewrite H2, H1. destruct (decide _); [done|]. by apply sublist_app; [|apply sublist_nil_l]. }
  rewrite F1. cbn [ep_seq set_ep_buffer]. rewrite N2, N1.
  split; [exact (increasing_sublist _ _ Hs Hi)|exact (Forall_sublist_lt _ _ _ Hs Ha)].
Qed.

(** ** The recoveries *)

Lemma line_dropped c c' p : line c' (drop_recovery c p) `sublist_of` line c' p.
Proof.
  unfold line. apply sublist_app; [done|]. unfold held_back. cbn.
  destruct (decide (c' = c)) as [->|Hc].
  - rewrite lookup_delete_eq. apply sublist_nil_l.
  - by rewrite lookup_delete_ne.
Qed.

Lemma ordered_drop c p : ordered p -> ordered (drop_recovery c p).
Proof. apply ordered_sub; [intros; apply line_dropped|done]. Qed.

Lemma ordered_begin_recovery c id cuts now p :
  ordered p -> ordered (snd (BeginRecovery c id cuts now p)).
Proof.
  unfold BeginRecovery. case_if; [done|]. destruct (recoveries p !! c) as [r|] eqn:Hr; [done|].
  cbv zeta. apply ordered_same; [|done]. intros c'. unfold line.
  assert (held_back c' (snd (Some (bridgeEpoch (sinkLocked c p), ep_seq (sinkLocked c p)),
    put_recovery c (mkRecovery id [] 0 now (cloneCutMap cuts)) (sinkLocked c p))) = held_back c' p) as ->.
  { unfold held_back. cbn. destruct (decide (c' = c)) as [->|Hc].
    - by rewrite lookup_insert_eq, Hr.
    - by rewrite lookup_insert_ne. }
  f_equal. cbn [snd]. f_equal. f_equal. exact (proj1 (quiet_put_same c p) c').
Qed.

Lemma ordered_freeze c id bk s now p :
  ordered p -> ordered (snd (FreezeRecoverySnapshot c id bk s now p)).
Proof.
  unfold FreezeRecoverySnapshot. destruct (recoveries p !! c) as [r|] eqn:Hr; [|done]. case_if; [done|].
  destruct (default _ _) as [latest b]. cbv zeta.
  destruct (match latest with Some x => _ | None => _ end) as [cut|]; [|done].
  destruct (rc_cutBySession r) as [cuts|]; [|done]. apply ordered_same; [|done]. intros c'.
  unfold line, held_back. cbn. destruct (decide (c' = c)) as [->|Hc].
  - by rewrite lookup_insert_eq, Hr.
  - by rewrite lookup_insert_ne.
Qed.

Lemma ordered_complete_recovery c id applied p :
  ordered p -> ordered (snd (CompleteRecovery c id applied p)).
Proof.
  intros Hp. unfold CompleteRecovery. destruct (recoveries p !! c) as [r|] eqn:Hr; [|done].
  case_if; [done|]. cbv zeta. case_if.
  { apply (ordered_moves (drop_recovery c p)); [|by apply ordered_drop].
    etrans; [|apply moves_control]. by apply moves_quiet. }
  case_if; cbn [snd].
  { apply (ordered_quiet (drop_recovery c p)); [|by apply ordered_drop].
    split; [|done]. exact (proj1 (quiet_put_same c (drop_recovery c p))). }
  set (fs := completion_frames _ _). revert Hp. apply ordered_sub; [|done]. intros c'.
  unfold line. destruct (decide (c' = c)) as [->|Hc].
  - match goal with |- event_seqs (sk_log (sink_of c ?q)) ++ held_back c ?q `sublist_of` _ =>
      assert (sink_of c q = put_frames fs (sink_of c p)) as -> end.
    { unfold sink_of at 1. cbn [sinks set_completed put_sink set_sinks drop_recovery set_recoveries].
      rewrite lookup_insert_eq. exact (f_equal (put_frames fs) (proj1 (quiet_put_same c p) c)). }
    rewrite put_frames_log, event_seqs_app, <- app_assoc. apply sublist_app; [done|].
    unfold held_back. cbn [recoveries set_completed drop_recovery set_recoveries].
    rewrite lookup_delete_eq, Hr, app_nil_r.
    change (event_seqs fs) with (event_seqs (map raw_frame
      (List.filter (past_cut (rc_cutBySession r)) (rc_pending r)))).
    rewrite event_seqs_raw. apply fmap_sublist, filter_sublist.
  - unfold held_back, sink_of. cbn. by rewrite !lookup_insert_ne, lookup_delete_ne.
Qed.

(** ** Every execution *)

(** The operations that send an event again under its old number are left out: the
    second offer of a publication, and the frames kept for a device that comes back. *)
Definition sends_once (o : pub_op (K := K)) : bool :=
  match o with PRetry _ _ _ | PFlushLive _ _ => false | _ => true end.

(** A step of the writing goroutine leaves the log. *)
Lemma ordered_writer c sk p :
  sk_log sk = sk_log (sink_of c p) -> ordered p -> ordered (put_sink c sk p).
Proof.
  intros Hlog. apply ordered_same; [|done]. intros c'. apply line_of_sink; [|done].
  rewrite PublisherLink.sink_of_put. by case_decide; subst.
Qed.

Lemma ordered_unregister c p : ordered p -> ordered (UnregisterConnection c p).
Proof.
  apply ordered_sub; [|done]. intros c'. unfold line, held_back, sink_of. cbn.
  destruct (decide (c' = c)) as [->|Hc].
  - rewrite !lookup_delete_eq. apply sublist_nil_l.
  - by rewrite !lookup_delete_ne.
Qed.

Lemma moves_register c p : rtc move p (RegisterConnection c p).
Proof.
  apply moves_quiet. unfold RegisterConnection, registerConnectionLocked. cbv zeta.
  case_if; split; [exact (proj1 (quiet_put_same c p))|done|exact (proj1 (quiet_put_same c p))|done].
Qed.

Lemma moves_finish now b p : rtc move p (publish_finish marshal AuthedDevice now b p).
Proof.
  assert (rtc move p (flush_projection marshal AuthedDevice now b p)) as H.
  { unfold flush_projection. cbv zeta. case_if; [|done].
    destruct (if hasProjectionPatchTargetLocked _ _ _ _ _ then _ else _) as [big k].
    destruct big; [by apply moves_quiet|]. etrans; [|apply moves_flush]. by apply moves_quiet. }
  eapply moves_then; [exact H|]. unfold publish_finish, offline_route, buffer_missed.
  repeat case_if; done.
Qed.

Lemma moves_after b p : rtc move p (publish_after b p).
Proof.
  unfold publish_after. cbv zeta.
  match goal with |- rtc move p (fold_left ?f ?l (fold_left ?g ?k p)) =>
    transitivity (fold_left g k p) end.
  - apply moves_fold. intros q [c id]. apply moves_control.
  - apply moves_fold. intros q c. by apply moves_quiet.
Qed.

Lemma ordered_exec p o :
  sends_once o = true -> ordered p ->
  ordered (pub_exec marshal marshal_event decimal AuthedDevice p o).
Proof.
  intros Ho Hp. destruct o; try discriminate Ho; clear Ho; cbn [pub_exec];
    try exact Hp; try (by apply (ordered_moves p); [|done];
      first [apply moves_register | apply moves_control | apply moves_publish | apply moves_flush
            | apply moves_prepend | apply moves_detail | apply moves_complete | apply moves_finish
            | apply moves_after]).
  - by apply ordered_unregister.
  - apply ordered_writer; [|done]. unfold run_take. by repeat case_match.
  - apply ordered_writer; [|done]. unfold run_written. by repeat case_match.
  - unfold RecordConnWindowTurns. by destruct ids.
  - unfold BeginProjectionSnapshot. case_if; [done|].
    apply (ordered_moves p); [apply moves_begin|done].
  - unfold BeginProjectionSnapshotWithResume. case_if; [done|].
    pose proof (ordered_moves _ _ (moves_begin c bk s p) Hp) as H1.
    destruct (beginProjectionSnapshotLocked c bk s p) as [[e|[proj adm]] p']; [done|].
    case_if; [done|]. by destruct (RevisionJournal.ContiguousRangeAt _ _ _ _ _ _) as [[[? ?] ?] j].
  - unfold completion_failed. by destruct timeout.
  - by apply ordered_begin_recovery.
  - by apply ordered_complete_recovery.
  - unfold FailRecovery. destruct (recoveries p !! c); [|done]. case_if; [by apply ordered_drop|done].
  - by apply ordered_freeze.
  - by apply ordered_publish.
  - unfold wants_rebind. cbv zeta. case_if; [|done]. destruct (rebindLastAttempt p !! _); [|done].
    by case_if.
  - unfold run_offline. by destruct (offlineQueue p).
Qed.

End order.
