(* ===== verification/PublisherSilence.v ===== *)
(** * A connection marked as told to pull again

    Such a connection, not behind a fence, is sent no projection frame of the session,
    whatever the publisher does, until it pulls, is unregistered or history is put
    before the session: the mark is not taken back when its queue empties. *)

From S2P Require Import Prelude.
From S2P Require Import Wire.
From S2P Require Import EventBuffer.
From S2P Require Import Projection.
From S2P Require Import RevisionJournal.
From S2P Require Import Kernel.
From S2P Require Import Broadcaster.
From S2P Require Import Observation.
From S2P Require Import OutboundSink.
From S2P Require Import Publisher.
From S2P Require Import PublisherLink.
From S2P Require Import PublisherChain.
From S2P Require Import PublisherStream.
From S2P Require Import PublishRaw.
From S2P Require Import PublisherRuns.

(** The frames of a session's projection: patches, requests to pull again, results. *)
Definition session_frame (bk s : string) (f : eventOutboundFrame) : bool :=
  match of_content f with
  | ProjectionContent e => bool_decide (pe_BackendID e = bk /\ pe_SessionID e = s)
  | ResultContent _ _ _ bk' s' _ => bool_decide (bk' = bk /\ s' = s)
  | _ => false
  end.
Definition session_frames (bk s : string) (log : list eventOutboundFrame) : list eventOutboundFrame :=
  List.filter (session_frame bk s) log.

Lemma session_frames_app bk s l l' : session_frames bk s (l ++ l') = session_frames bk s l ++ session_frames bk s l'.
Proof. apply List.filter_app. Qed.

Lemma session_frames_plain bk s fs : Forall plain fs -> session_frames bk s fs = [].
Proof.
  induction 1 as [|f fs Hf _ IH]; [done|]. cbn. unfold session_frames in IH. rewrite IH.
  unfold plain, session_frame in *. by destruct (of_content f).
Qed.

(** A patch of another session puts no frame of this one. *)
Lemma link_patch_frames marshal closed epoch b' s' bc q bk s l :
  (b', s') <> (bk, s) ->
  session_frames bk s (sk_log (lk_sink (link_patch marshal closed epoch b' s' bc q l))) =
  session_frames bk s (sk_log (lk_sink l)).
Proof.
  intros Hne. assert (~ (b' = bk /\ s' = s)) as Hn by naive_solver.
  assert (forall f, session_frame bk s f = false ->
    session_frames bk s (sk_log (lk_sink (snd (link_enqueue closed f l)))) = session_frames bk s (sk_log (lk_sink l)))
    as Henq.
  { intros f Hf. destruct (link_enqueue_cases closed f l) as [[-> _]| ->]; [|done].
    cbn [snd lk_sink set_lk_sink put_frame sk_log]. rewrite session_frames_app. cbn. rewrite Hf. apply app_nil_r. }
  unfold link_patch. destruct (lk_fence l); [done|]. destruct (_ || _)%bool; [done|]. destruct (_ && _)%bool.
  - apply (Henq (invalidate_frame epoch b' s')). unfold session_frame. cbn. by rewrite bool_decide_false.
  - pose proof (Henq (patch_frame epoch b' s' q)) as He. unfold session_frame in He. cbn in He.
    rewrite bool_decide_false in He by done. destruct (link_enqueue _ _ _) as [ok l']. cbn in He.
    destruct ok, bc; by apply He.
Qed.

Section silence.
Context {K : Type} `{!ProjectionHead K}.
Context (marshal : ProjectionPatch -> option nat) (marshal_event : EventMessage -> nat)
  (decimal : Z -> string) (AuthedDevice : Connection -> option string).
Context (c : Connection) (bk s : string) (L : list eventOutboundFrame).
Implicit Types p : EventPublisher (K := K).

(** Marked, without a fence, and its frames of the session are [L]. *)
Record hushed p : Prop := {
  hu_fence : lk_fence (link_of c bk s p) = None;
  hu_mark : lk_invalidated (link_of c bk s p) = true;
  hu_log : session_frames bk s (sk_log (sink_of c p)) = L
}.

Lemma hushed_same p p' : link_of c bk s p' = link_of c bk s p -> hushed p -> hushed p'.
Proof.
  intros Hl [H1 H2 H3]. split; [by rewrite Hl|by rewrite Hl|].
  change (session_frames bk s (sk_log (lk_sink (link_of c bk s p'))) = L). by rewrite Hl.
Qed.

(** Operations on a connection and a session. *)
Lemma hushed_op conn b' s' p p' l :
  link_op conn b' s' p p' l ->
  (lk_fence (link_of conn b' s' p) = None -> lk_invalidated (link_of conn b' s' p) = true ->
     (conn, b', s') = (c, bk, s) -> l = link_of conn b' s' p) ->
  (conn = c -> (b', s') <> (bk, s) ->
     session_frames bk s (sk_log (lk_sink l)) = session_frames bk s (sk_log (sink_of conn p))) ->
  hushed p -> hushed p'.
Proof.
  intros [W [O1 O2] Hl] Hown Hother Hp. destruct (decide ((conn, b', s') = (c, bk, s))) as [Heq|Hne].
  - injection Heq as -> -> ->. apply (hushed_same p); [|done]. rewrite Hl. by apply Hown; destruct Hp.
  - destruct (O2 c bk s) as (E1 & E2 & E3); [congruence|]. destruct Hp as [H1 H2 H3].
    split; cbn in *; [by rewrite E1|by rewrite (bool_decide_ext _ _ E3)|].
    destruct (decide (conn = c)) as [->|Hc]; [|by rewrite O1]. rewrite <- H3, <- Hother; [|done|congruence].
    f_equal. f_equal. exact (f_equal lk_sink Hl).
Qed.

Lemma hushed_patch conn b' s' p p' epoch closed bc q :
  link_op conn b' s' p p' (link_patch marshal closed epoch b' s' bc q (link_of conn b' s' p)) -> hushed p -> hushed p'.
Proof.
  intros H. apply (hushed_op _ _ _ _ _ _ H).
  - intros. by apply marked_takes_nothing.
  - intros. by apply link_patch_frames.
Qed.

Lemma hushed_single conn b' s' q p : hushed p -> hushed (deliverSingleConnPatchLocked marshal conn b' s' q p).
Proof. intros Hp. eapply hushed_patch; [apply deliverSingle_link|exact Hp]. Qed.

Lemma hushed_target b' s' q now p conn : hushed p -> hushed (deliver_target marshal AuthedDevice b' s' q now p conn).
Proof.
  intros Hp. pose proof (deliver_target_link marshal AuthedDevice conn b' s' q now p) as H.
  destruct (wants_patch _ _ _ _ _ _); [by eapply hushed_patch|].
  exact (hushed_op _ _ _ _ _ _ H (fun _ _ _ => eq_refl) (fun _ _ => eq_refl) Hp).
Qed.

Lemma hushed_fold {A : Type} (op : EventPublisher (K := K) -> A -> EventPublisher (K := K)) l p :
  (forall q a, hushed q -> hushed (op q a)) -> hushed p -> hushed (fold_left op l p).
Proof. intros Hop. revert p. induction l; intros p Hp; cbn; auto. Qed.

Lemma hushed_deliver b' s' q now p : hushed p -> hushed (deliverProjectionPatchLocked marshal AuthedDevice b' s' q now p).
Proof.
  intros Hp. unfold deliverProjectionPatchLocked. case_if; [done|]. apply hushed_fold; [|done].
  intros r conn. apply hushed_target.
Qed.

Lemma hushed_record b' s' q now p : hushed p -> hushed (recordProjectionPatchLocked marshal b' s' q now p).
Proof.
  intros Hp. unfold recordProjectionPatchLocked.
  destruct (RevisionJournal.Record_ _ _ _ _ _ _) as [[n j]|]; by apply (hushed_same p).
Qed.

Lemma hushed_publish b' s' q now p : hushed p -> hushed (PublishProjectionPatch marshal AuthedDevice b' s' q now p).
Proof. intros Hp. apply hushed_deliver. by apply hushed_record. Qed.

Lemma hushed_flush b' s' now p : hushed p -> hushed (snd (FlushPatchAndRecord marshal AuthedDevice b' s' now p)).
Proof.
  intros Hp. unfold FlushPatchAndRecord. destruct (head_flush _ _ _) as [[q|] k]; [|by apply (hushed_same p)].
  apply hushed_publish. by apply (hushed_same p).
Qed.

Lemma hushed_detail_target b' s' commit r p conn : hushed p -> hushed (detail_target marshal b' s' commit r p conn).
Proof.
  intros Hp. unfold detail_target. case_if; [done|]. case_if; [by apply hushed_single|]. cbv zeta.
  match goal with |- context [if ?x then p else ?y] => assert (hushed (if x then p else y)) as Hnoop end.
  { case_if; [done|by apply hushed_single]. }
  destruct (projectionFences p !! fence_key conn b' s') as [f|] eqn:Hf; [|exact Hnoop].
  destruct (fe_invalidated f); [exact Hnoop|].
  eapply hushed_op; [apply link_op_fence| | |exact Hp]; [|done]. cbn. by rewrite Hf.
Qed.

Lemma hushed_detail b' s' ps r now p : hushed p -> hushed (PublishProjectionDetail marshal AuthedDevice b' s' ps r now p).
Proof.
  intros Hp. unfold PublishProjectionDetail. case_if; [done|]. destruct (last ps); [|done]. case_if; [done|]. cbv zeta.
  apply hushed_fold; [intros q conn; apply hushed_detail_target|].
  apply hushed_fold; [intros q live; apply hushed_deliver|].
  apply hushed_fold; [|done]. intros q patch Hq. case_if; [done|by apply hushed_record].
Qed.

Lemma hushed_prepend b' s' rev r p :
  (b', s') <> (bk, s) -> hushed p -> hushed (PublishProjectionPrepend marshal b' s' rev r p).
Proof.
  intros Hne Hp. unfold PublishProjectionPrepend. case_if; [done|]. apply hushed_fold; [|done].
  intros q conn Hq. unfold prepend_target. case_if; [done|].
  case_if; [cbv zeta; case_if; [done|by apply hushed_single]|].
  eapply hushed_op; [apply link_op_invalidate| | |exact Hq]; [congruence|]. intros _ _.
  destruct (link_enqueue_cases (conn_isClosed conn q) (invalidate_frame (bridgeEpoch q) b' s') (link_of conn b' s' q))
    as [[-> _]| ->]; [|done].
  cbn [snd lk_sink set_lk_sink put_frame sk_log link_of]. rewrite session_frames_app. cbn.
  unfold session_frame. cbn. rewrite bool_decide_false by naive_solver. apply app_nil_r.
Qed.
(** The operations of another connection's pulls leave this one's machine. *)
Lemma hushed_begin conn b' s' p :
  conn <> c -> hushed p -> hushed (snd (beginProjectionSnapshotLocked conn b' s' p)).
Proof.
  intros Hne Hp. unfold beginProjectionSnapshotLocked. cbv zeta.
  destruct (projectionFences p !! fence_key conn b' s'); [done|].
  destruct (head_snapshot _ _ _); [|done].
  destruct (registerConnectionLocked conn p) as [g p1] eqn:Hreg. cbn [snd].
  apply (hushed_same p); [|done]. rewrite <- (link_of_register conn p c bk s), Hreg. cbn [snd].
  rewrite <- (link_of_sinkLocked conn p1 c bk s). unfold link_of. cbn.
  rewrite lookup_insert_ne by (unfold fence_key; congruence). f_equal. apply bool_decide_ext.
  unfold fence_key. set_solver.
Qed.

Lemma hushed_complete conn adm req data held err p :
  conn <> c -> hushed p -> hushed (snd (completeProjectionSnapshot conn adm req data held err p)).
Proof.
  intros Hne Hp. unfold completeProjectionSnapshot. case_if; [done|]. cbv zeta.
  destruct (admitted_fence conn adm p) as [f|]; [|by apply (hushed_same p)].
  set (b' := ad_BackendID adm). set (s' := ad_SessionID adm).
  fold (completion_turns conn b' s' held f p). fold (completion_start conn b' s' held f p).
  set (q := completion_start conn b' s' held f p).
  assert (link_of c bk s q = link_of c bk s p) as Hq by apply completion_start_link.
  clearbody q. apply (hushed_same p); [|done]. rewrite <- Hq.
  assert (forall sk, sink_of c (put_sink conn sk q) = sink_of c q) as Hs
    by (intros sk; rewrite PublisherLink.sink_of_put; by rewrite decide_False).
  unfold sink_of in Hs. repeat case_match; unfold link_of, sink_of; cbn in Hs |- *; rewrite ?Hs;
    rewrite ?lookup_delete_ne, ?lookup_insert_ne by (unfold fence_key; congruence); f_equal;
    apply bool_decide_ext; unfold fence_key; set_solver.
Qed.

Lemma hushed_unregister conn p : conn <> c -> hushed p -> hushed (UnregisterConnection conn p).
Proof.
  intros Hne [H1 H2 H3]. split; cbn in *.
  - apply map_lookup_filter_None. by left.
  - zprop. apply bool_decide_eq_true_2, elem_of_filter. done.
  - unfold sink_of in *. cbn. by rewrite lookup_delete_ne.
Qed.

(** All but a pull of the connection, its end, and a change of the session's past. *)
Definition leaves_silent (o : pub_op (K := K)) : bool :=
  match o with
  | PUnregister conn | PBegin conn _ _ | PBeginResume conn _ _ _ _ | PComplete conn _ _ _ _ _ =>
      negb (bool_decide (conn = c))
  | PPrepend b' s' _ _ => negb (bool_decide ((b', s') = (bk, s)))
  | _ => true
  end.

Lemma hushed_finish now b p : hushed p -> hushed (publish_finish marshal AuthedDevice now b p).
Proof.
  intros Hp. assert (hushed (flush_projection marshal AuthedDevice now b p)) as H.
  { unfold flush_projection. cbv zeta. case_if; [|done].
    destruct (if hasProjectionPatchTargetLocked _ _ _ _ _ then _ else _) as [big k].
    destruct big; [by apply (hushed_same p)|]. apply hushed_flush. by apply (hushed_same p). }
  eapply hushed_same; [|exact H]. unfold publish_finish, offline_route, buffer_missed. by repeat case_if.
Qed.

Lemma hushed_exec p o :
  leaves_silent o = true -> hushed p -> hushed (pub_exec marshal marshal_event decimal AuthedDevice p o).
Proof.
  intros Ho Hp. destruct (plain_op o) eqn:Hpl.
  { apply (ok_plain_op marshal marshal_event decimal AuthedDevice hushed); try done.
    - intros q q' Hl _. apply hushed_same, Hl.
    - intros conn sk q Hlog [H1 H2 H3]. split; [done|done|]. rewrite <- H3.
      rewrite PublisherLink.sink_of_put. by case_decide; subst; [rewrite Hlog|].
    - intros conn fs q Hfs [H1 H2 H3]. split; [done|done|]. rewrite <- H3.
      rewrite PublisherLink.sink_of_put. case_decide; [|done]. subst.
      rewrite put_frames_log, session_frames_app, (session_frames_plain _ _ _ Hfs). apply app_nil_r. }
  destruct o; try discriminate Hpl; clear Hpl; cbn [pub_exec leaves_silent] in *; zprop.
  - by apply hushed_unregister.
  - unfold BeginProjectionSnapshot. case_if; [done|]. by apply hushed_begin.
  - unfold BeginProjectionSnapshotWithResume. case_if; [done|].
    pose proof (hushed_begin c0 bk0 s0 p Ho Hp) as H1.
    destruct (beginProjectionSnapshotLocked c0 bk0 s0 p) as [[e|[proj adm]] p']; [done|].
    case_if; [done|]. destruct (RevisionJournal.ContiguousRangeAt _ _ _ _ _ _) as [[[? ?] ?] j].
    by apply (hushed_same p').
  - by apply hushed_complete.
  - by apply hushed_publish.
  - by apply hushed_flush.
  - by apply hushed_prepend.
  - by apply hushed_detail.
  - by apply hushed_finish.
Qed.

Lemma hushed_run ops p :
  forallb leaves_silent ops = true -> hushed p ->
  hushed (pub_run marshal marshal_event decimal AuthedDevice ops p).
Proof.
  revert p. induction ops as [|o ops IH]; intros p Ho Hp; [done|]. cbn in Ho. zprop.
  apply IH; [done|]. by apply hushed_exec.
Qed.
End silence.
