(* ===== verification/PublisherDefects.v ===== *)
(** * Publisher behaviours its comments rule out

    Three executions or families of executions of the projection delivery that
    differ from what the code's comments promise, and the witnesses of the theorems
    of the publisher files at a concrete state. *)

From S2P Require Import Prelude.
From S2P Require Import Wire.
From S2P Require Import EventBuffer.
From S2P Require Import Projection.
From S2P Require Import RevisionJournal.
From S2P Require Import Kernel.
From S2P Require Import Broadcaster.
From S2P Require Import Observation.
From S2P Require Import OutboundSink.
From S2P Require Import Publisher.
From S2P Require Import PublisherLink.
From S2P Require Import PublisherChain.
From S2P Require Import PublisherStream.
From S2P Require Import PublisherDetail.
From S2P Require Import PublishRaw.
From S2P Require Import PublisherRuns.
From S2P Require Import PublisherOrder.
From S2P Require Import PublisherSilence.

(** ** A refused patch silences the connection *)

Section silence.
Context {K : Type} `{!ProjectionHead K}.
Context (marshal : ProjectionPatch -> option nat) (marshal_event : EventMessage -> nat)
  (decimal : Z -> string) (AuthedDevice : Connection -> option string).
Implicit Types p : EventPublisher (K := K).

(** C30. When the queue of a connection on the stream is full, the next commit marks the
    connection as told to pull again without telling it. From then on it is sent no
    frame of the session, neither patch nor request to pull again, whatever the
    publisher does and although the queue may have emptied (commits, detail commits,
    events, recoveries, the writes of the queue, pulls of other connections): until it
    pulls by itself, is unregistered, or history is put before the session. *)
Theorem refused_patch_silences bk s now q p c ops :
  c ∈ session_targets bk s p -> wants_patch AuthedDevice bk s now p c = true ->
  let l := link_of c bk s p in
  lk_fence l = None -> lk_invalidated l = false -> lk_cut l < pt_SyncRev q ->
  pt_BaseRev q = lk_cut l -> free_slots (lk_sink l) <= 0 ->
  forallb (leaves_silent c bk s) ops = true ->
  let p1 := PublishProjectionPatch marshal AuthedDevice bk s q now p in
  let p2 := pub_run marshal marshal_event decimal AuthedDevice ops p1 in
  link_of c bk s p1 = set_lk_invalidated true l /\
  fence_key c bk s ∈ projectionInvalidated p2 /\ projectionFences p2 !! fence_key c bk s = None /\
  session_frames bk s (sk_log (sink_of c p2)) = session_frames bk s (sk_log (sink_of c p)).
Proof.
  intros Hin Hw l Hf Hi Hsync Hbase Hfull Hops p1 p2.
  assert (link_of c bk s p1 = set_lk_invalidated true l) as Hl1.
  { destruct (publish_link marshal AuthedDevice bk s now q p c Hin Hw) as [_ Hl]. etrans; [exact Hl|]. by apply full_marks. }
  split; [exact Hl1|].
  destruct (hushed_run marshal marshal_event decimal AuthedDevice c bk s (session_frames bk s (sk_log (sink_of c p)))
    ops p1 Hops) as [H1 H2 H3]; [|by apply bool_decide_eq_true_1 in H2].
  split; [by rewrite Hl1|by rewrite Hl1|].
  change (session_frames bk s (sk_log (lk_sink (link_of c bk s p1))) = session_frames bk s (sk_log (sink_of c p))).
  by rewrite Hl1.
Qed.

(** Without a v2 connection a detail commit is not recorded: the journal, from which
    a client that comes back is to resume, has a hole at its revision. *)
Theorem detail_unrecorded bk s patches requester now p :
  has_v2_conns p = false ->
  projectionJournal (PublishProjectionDetail marshal AuthedDevice bk s patches requester now p) =
  projectionJournal p.
Proof. intros Hv. unfold PublishProjectionDetail. by rewrite Hv, orb_true_r. Qed.
End silence.

(** ** Concrete publishers *)

(** A head that knows the projections of a table, and has nothing pending. *)
#[local] Instance table_head : ProjectionHead (gmap string Z) := {|
  head_is_kernel := true;
  head_issue _ _ k := (0, k);
  head_ingest _ _ k := (ProjectionIngestNoChange, k);
  head_snapshot bk s k :=
    (fun rev => mkSessionProjection s rev "" 0 (mkExecutionView "idle" "") [] None None None None None)
      <$> k !! s;
  head_flush _ _ k := (None, k);
  head_exceeds _ _ _ k := (false, k);
  head_drop _ _ k := (false, k)
|}.

Definition wit_marshal (_ : ProjectionPatch) : option nat := Some 100%nat.
Definition wit_device (c : Connection) : option string := Some "d".

Definition content_patch (base rev : Z) : ProjectionPatch :=
  mkProjectionPatch base rev (Some (mkExecutionView "running" "t")) [] [] [] [] [] None None None None None.

Definition detail_patch (base rev : Z) (turn : string) : ProjectionPatch :=
  mkProjectionPatch base rev None [] [] [mkTurnStateOp turn "loaded" "" 0 0 0 0] [] [] None None None None None.

(** Connection 1 of device [d], in window mode on session [s] at revision 5. *)
Definition wit_publisher : EventPublisher (K := gmap string Z) :=
  let p := NewEventPublisher "e" (Some (Subscribe 1%nat (mkSubscriptionKey "claude" "s" "") NewBroadcaster))
             {["s" := 5]} in
  SetConnProjectionDeliveryMode 1%nat "claude" "s" ProjectionDeliveryWindow
    (SetConnSyncV2 1%nat true (RegisterConnection 1%nat p)).

Definition wit_begin := beginProjectionSnapshotLocked 1%nat "claude" "s" wit_publisher.
Definition wit_proj : SessionProjection :=
  mkSessionProjection "s" 5 "" 0 (mkExecutionView "idle" "") [] None None None None None.
Definition wit_admission : ProjectionSnapshotAdmission := mkSnapshotAdmission "e" 1 "claude" "s" 5 1.
Definition wit_pulling : EventPublisher := snd wit_begin.
Definition wit_synced : EventPublisher :=
  snd (completeProjectionSnapshot 1%nat wit_admission "r" VNil ["t1"] None wit_pulling).

(** The device looks at another session: live patches are filtered out. *)
Definition wit_away : EventPublisher :=
  SetObservationManager
    (Some (SetScope "d" (mkScope "claude" ["other"] "full_stream" false 90 0) 0 NewObservationManager))
    wit_synced.

(** The revisions of the patches in a queue, and whether they carry the execution. *)
Definition patch_trace (log : list eventOutboundFrame) : list (Z * Z * bool) :=
  omap (fun f => match of_content f with
                 | ProjectionContent e =>
                     match pe_Data e with
                     | PatchData q => Some (pt_BaseRev q, pt_SyncRev q,
                         match pt_Execution q with Some _ => true | None => false end)
                     | _ => None
                     end
                 | _ => None
                 end) log.

(** A commit the device did not observe is skipped for its connection; the no-op of
    the next detail commit then starts from the connection's revision and jumps over
    it: the connection is brought past a commit it was never sent, and when the
    device observes the session again its next patch continues from there. *)
Theorem noop_jumps_over_a_commit :
  let p := PublishProjectionPatch wit_marshal wit_device "claude" "s" (content_patch 5 6) 0 wit_away in
  let p := PublishProjectionDetail wit_marshal wit_device "claude" "s" [detail_patch 6 7 "t9"] None 0 p in
  let p := SetObservationManager None p in
  let p := PublishProjectionPatch wit_marshal wit_device "claude" "s" (content_patch 7 8) 0 p in
  patch_trace (sk_log (sink_of 1%nat p)) = [(5, 7, false); (7, 8, true)] /\
  client_pos "claude" "s" (sk_log (sink_of 1%nat p)) = Some 8.
Proof. split; vm_compute; reflexivity. Qed.

(** *** Events *)

Definition wit_encode (_ : EventMessage) : nat := 100%nat.
Definition wit_decimal (_ : Z) : string := "1".

(** An event of the session for whoever is subscribed to it. *)
Definition wit_broadcast (name : string) : LogicalEvent :=
  mkLogical "claude" "s" "" name VNil "" true [] [] false None.

(** Connection 1 was closed while it was subscribed to the session; connection 2 took
    its place and is subscribed to nothing yet. *)
Definition wit_listener (c : Connection) : Broadcaster :=
  RegisterConn 2%nat (Subscribe c (mkSubscriptionKey "claude" "s" "") NewBroadcaster).

Definition wit_replaced : EventPublisher (K := gmap string Z) :=
  set_closedConns {[1%nat]}
    (RegisterConnection 2%nat (NewEventPublisher "e" (Some (wit_listener 1%nat)) ∅)).

(** The publisher is to stamp and enqueue under one lock, but it releases the lock
    around the rebinding of the subscriptions: an event published meanwhile overtakes
    the one that is offered again, and the queue holds event 2 before event 1. *)
Theorem rebinding_reorders :
  let publish_ := publish_start wit_encode wit_decimal wit_device publishControlPlaneEvent in
  let '(b1, p) := publish_ (wit_broadcast "todos_updated") 0 0 wit_replaced in
  let '(again, p) := wants_rebind true 0 b1 p in
  let p := set_broadcaster (Some (wit_listener 2%nat)) p in
  let '(b2, p) := publish_ (wit_broadcast "todos_updated") 0 0 p in
  let '(_, p) := publish_retry wit_device 1 0 b1 p in
  again = true /\ event_seqs (sk_log (sink_of 2%nat p)) = [2; 1].
Proof. vm_compute. split; reflexivity. Qed.

(** A text delta is never to reach a connection on the projection stream as a raw
    event, and [publish] never sends it one; the frames kept for a device that was
    away are sent to such a connection all the same, again at each flush. *)
Theorem kept_frames_pass_the_seal :
  let p := NewEventPublisher "e" (Some NewBroadcaster) (∅ : gmap string Z) in
  let p := NoteLiveInterest "d" "claude" "s" 0 p in
  let '(b, p) := publish_start wit_encode wit_decimal wit_device publishTimelineEvent
                   (wit_broadcast "text_delta") 0 0 p in
  let p := publish_finish wit_marshal wit_device 0 b p in
  let p := SetConnSyncV2 1%nat true (RegisterConnection 1%nat p) in
  let p := FlushLiveFrameBufferForDevice wit_device 1%nat 0 p in
  let p := FlushLiveFrameBufferForDevice wit_device 1%nat 0 p in
  shouldDeliverRawEventLocked 1%nat "claude" "s" "text_delta" p = false /\
  event_seqs (sk_log (sink_of 1%nat p)) = [1; 1].
Proof. vm_compute. split; reflexivity. Qed.

(** ** The theorems at these publishers *)

Definition wit_cut := link_of 1%nat "claude" "s" wit_synced.

Lemma live_stream_exact_witness :
  link_of 1%nat "claude" "s"
    (publish_all wit_marshal wit_device "claude" "s" 0 [content_patch 5 6; content_patch 6 8] wit_synced) =
  mkLink (put_frames (map (patch_frame "e" "claude" "s") [content_patch 5 6; content_patch 6 8])
            (lk_sink wit_cut)) None 8 false.
Proof.
  refine (proj1 (live_stream_exact wit_marshal wit_device "claude" "s" 0 [content_patch 5 6; content_patch 6 8] 8
    wit_synced 1%nat _ _ _ _ _ _ _)); try (vm_compute; reflexivity).
  - apply (bool_decide_unpack _). vm_compute. reflexivity.
  - change (lk_cut _) with 5. cbn. lia.
Defined.

Lemma pull_hands_over_witness :
  let '(e, p3) := completeProjectionSnapshot 1%nat wit_admission "r" VNil ["t1"] None
    (publish_all wit_marshal wit_device "claude" "s" 0 [content_patch 5 6; content_patch 6 8] wit_pulling) in
  e = None /\
  link_of 1%nat "claude" "s" p3 =
    mkLink (put_frames (completion_batch "e" "claude" "s" "r" VNil None 5 [content_patch 5 6; content_patch 6 8])
              (sink_of 1%nat wit_publisher)) None 8 false.
Proof.
  apply (pull_hands_over wit_marshal wit_device 1%nat "claude" "s" 0 [content_patch 5 6; content_patch 6 8] 8
    "r" VNil ["t1"] None wit_publisher wit_proj wit_admission wit_pulling).
  - vm_compute. reflexivity.
  - apply (bool_decide_unpack _). vm_compute. reflexivity.
  - vm_compute. reflexivity.
  - cbn. lia.
  - discriminate.
Defined.


(** The connection with a full queue of control frames. *)
Definition wit_full : EventPublisher (K := gmap string Z) :=
  put_sink 1%nat (put_frames (repeat (control_frame VNil false) (Z.to_nat eventOutboundQueueCapacity)) newEventOutboundSink)
    wit_synced.

(** The queue is written to its end, then another commit is published. *)
Definition wit_drained : list (pub_op (K := gmap string Z)) :=
  concat (repeat [PTake 1%nat; PWritten 1%nat] (Z.to_nat eventOutboundQueueCapacity)) ++
  [PPatch "claude" "s" (content_patch 6 8) 0].

Lemma refused_patch_silences_witness :
  let p1 := PublishProjectionPatch wit_marshal wit_device "claude" "s" (content_patch 5 6) 0 wit_full in
  let p2 := pub_run wit_marshal (fun _ => 100%nat) (fun _ => "1") wit_device wit_drained p1 in
  sk_slots (sink_of 1%nat p2) = 0 /\ fence_key 1%nat "claude" "s" ∈ projectionInvalidated p2 /\
  session_frames "claude" "s" (sk_log (sink_of 1%nat p2)) =
  session_frames "claude" "s" (sk_log (sink_of 1%nat wit_full)).
Proof.
  intros p1 p2. split; [vm_compute; reflexivity|].
  destruct (refused_patch_silences wit_marshal (fun _ => 100%nat) (fun _ => "1") wit_device "claude" "s" 0
    (content_patch 5 6) wit_full 1%nat wit_drained) as (_ & H1 & _ & H2); try (vm_compute; reflexivity).
  - apply (bool_decide_unpack _). vm_compute. reflexivity.
  - apply Z.leb_le. vm_compute. reflexivity.
  - split; [exact H1|exact H2].
Defined.

(** No connection negotiated the stream. *)
Lemma detail_unrecorded_witness :
  projectionJournal (PublishProjectionDetail wit_marshal wit_device "claude" "s" [detail_patch 5 6 "t1"] None 0
    (NewEventPublisher "e" None (∅ : gmap string Z))) = projectionJournal (NewEventPublisher "e" None (∅ : gmap string Z)).
Proof. apply detail_unrecorded. vm_compute. reflexivity. Defined.

(** Registered, pulled, answered after a commit, and then live. *)
Definition wit_ops : list (pub_op (K := gmap string Z)) :=
  [PWorld (Some (Subscribe 1%nat (mkSubscriptionKey "claude" "s" "") NewBroadcaster)) None {["s" := 5]};
   PRegister 1%nat; PCap CapSyncV2 1%nat true; PMode 1%nat "claude" "s" ProjectionDeliveryWindow;
   PBegin 1%nat "claude" "s"; PPatch "claude" "s" (content_patch 5 6) 0;
   PComplete 1%nat wit_admission "r" VNil ["t1"] None; PPatch "claude" "s" (content_patch 6 7) 0].

Definition wit_run : EventPublisher (K := gmap string Z) :=
  pub_run wit_marshal (fun _ => 100%nat) (fun _ => "1") wit_device wit_ops (NewEventPublisher "e" None ∅).


(** One event offered live, two held by a recovery that completes, one after it. *)
Definition wit_event : LogicalEvent :=
  mkLogical "claude" "s" "" "turn_completed" VNil "" false [1%nat] [] false None.

Definition wit_events : list (pub_op (K := gmap string Z)) :=
  let publish_ := PPublish publishControlPlaneEvent wit_event 0 0 in
  [PRegister 1%nat; publish_; PBeginRecovery 1%nat "r1" None 0; publish_; publish_;
   PCompleteRecovery 1%nat "r1" []; publish_].


Example wit_events_put :
  event_seqs (sk_log (sink_of 1%nat
    (pub_run wit_marshal (fun _ => 100%nat) (fun _ => "1") wit_device wit_events
       (NewEventPublisher "e" None ∅)))) = [1; 2; 3; 4].
Proof. vm_compute. reflexivity. Qed.

Example wit_run_position :
  client_pos "claude" "s" (sk_log (sink_of 1%nat wit_run)) = Some 7.
Proof. vm_compute. reflexivity. Qed.
