(* ===== verification/TextOrder.v ===== *)
(** * The byte order of texts

    [strings.Compare] and the comparison operators of Go's strings are
    [String.compare]; the order laws the sorted lists of the components rest on. *)

From Stdlib Require Import Ascii.
From S2P Require Import Prelude.

Definition text_le (a b : string) : Prop := String.leb a b = true.
Definition text_lt (a b : string) : Prop := String.ltb a b = true.

#[export] Instance text_le_dec a b : Decision (text_le a b).
Proof. unfold text_le. apply _. Defined.

Lemma ascii_compare_eq c d : Ascii.compare c d = Eq -> c = d.
Proof.
  unfold Ascii.compare. intros H%N.compare_eq_iff.
  rewrite <-(Ascii.ascii_N_embedding c), <-(Ascii.ascii_N_embedding d). by rewrite H.
Qed.

Lemma compare_refl a : String.compare a a = Eq.
Proof. induction a as [|c a IH]; [done|]. cbn. unfold Ascii.compare. by rewrite N.compare_refl. Qed.

Lemma compare_lt_trans a : forall b c,
  String.compare a b = Lt -> String.compare b c = Lt -> String.compare a c = Lt.
Proof.
  induction a as [|x a IH]; intros [|y b] [|z c]; cbn; try done.
  destruct (Ascii.compare x y) eqn:Exy; [|intros _|done].
  - apply ascii_compare_eq in Exy as ->. destruct (Ascii.compare y z); [apply IH|done|done].
  - destruct (Ascii.compare y z) eqn:Eyz; [intros _|intros _|done].
    + apply ascii_compare_eq in Eyz as ->. by rewrite Exy.
    + unfold Ascii.compare in *. rewrite N.compare_lt_iff in Exy. rewrite N.compare_lt_iff in Eyz.
      pose proof (N.lt_trans _ _ _ Exy Eyz) as H%N.compare_lt_iff. by rewrite H.
Qed.

Lemma text_lt_compare a b : text_lt a b <-> String.compare a b = Lt.
Proof. unfold text_lt, String.ltb. by destruct (String.compare a b). Qed.

Lemma text_le_lt a b : text_le a b <-> a = b \/ text_lt a b.
Proof.
  rewrite text_lt_compare. unfold text_le, String.leb. destruct (String.compare a b) eqn:E.
  - apply String.compare_eq_iff in E as ->. naive_solver.
  - naive_solver.
  - split; [done|]. intros [-> |]; [|done]. by rewrite compare_refl in E.
Qed.

Lemma text_not_lt a b : String.ltb a b = false <-> text_le b a.
Proof.
  unfold text_le, String.leb, String.ltb. rewrite (String.compare_antisym b a).
  destruct (String.compare a b); cbn; split; congruence.
Qed.

#[export] Instance text_le_po : PartialOrder text_le.
Proof.
  split; [split|].
  - intros a. apply text_le_lt. by left.
  - intros a b c. rewrite !text_le_lt. intros [-> | H1] [-> | H2]; auto. right.
    apply text_lt_compare in H1, H2. apply text_lt_compare. by eapply compare_lt_trans.
  - intros a b. rewrite !text_le_lt. intros [-> | H1] [H2|H2]; auto.
    apply text_lt_compare in H1, H2. pose proof (compare_lt_trans _ _ _ H1 H2) as H.
    by rewrite compare_refl in H.
Qed.

#[export] Instance text_le_total : Total text_le.
Proof. intros a b. unfold text_le. apply String.leb_total. Qed.
