(* ===== verification/BitText.v ===== *)
(** * Texts that survive encoding

    The texts JSON can carry, and an injective text for every value of a countable type:
    what the concrete instances of the encodings that are parameters of the model are
    made of. *)

From Stdlib Require Import Ascii.
From S2P Require Import Prelude.
From S2P Require Import GoText.
From S2P Require Import DetailChunks.

(** A text in UTF-8: [json.Marshal] keeps it as it is. *)
Definition text (s : string) : Prop := valid_utf8 (bytes_of s).

(** ASCII is UTF-8. *)
Lemma ascii_text s : forallb (within 0 127) (bytes_of s) = true -> text s.
Proof.
  unfold text. induction (bytes_of s) as [|b l IH]; intros H; [constructor|].
  cbn in H. apply andb_prop in H as [Hb Hl]. apply (valid_rune [b] l); [|by apply IH].
  cbn. by rewrite Hb.
Qed.

(** ** Bits *)

Fixpoint bits (p : positive) : string :=
  match p with
  | xH => "e"
  | xO p => String "0"%char (bits p)
  | xI p => String "1"%char (bits p)
  end.

(** What follows the last bit is not read. *)
Fixpoint unbits (s : string) : option positive :=
  match s with
  | EmptyString => None
  | String c s =>
      if bool_decide (c = "0"%char) then xO <$> unbits s
      else if bool_decide (c = "1"%char) then xI <$> unbits s
      else Some xH
  end.

Lemma unbits_app p s : unbits (bits p +:+ s) = Some p.
Proof.
  induction p as [p IH|p IH|]; cbn -[String.app]; [change (xI <$> unbits (bits p +:+ s) = Some (xI p))|
    change (xO <$> unbits (bits p +:+ s) = Some (xO p))|done]; by rewrite IH.
Qed.

Lemma unbits_bits p : unbits (bits p) = Some p.
Proof. induction p as [p IH|p IH|]; cbn; by rewrite ?IH. Qed.

(** The text of a value, and the value of a text. *)
Definition text_of `{Countable A} (a : A) : string := bits (encode a).
Definition of_text `{Countable A} (s : string) : option A := unbits s ≫= decode.

Lemma of_text_app `{Countable A} (a : A) s : of_text (text_of a +:+ s) = Some a.
Proof. unfold of_text, text_of. rewrite unbits_app. cbn [mbind option_bind]. apply decode_encode. Qed.

Lemma of_text_of `{Countable A} (a : A) : of_text (text_of a) = Some a.
Proof. unfold of_text, text_of. rewrite unbits_bits. cbn [mbind option_bind]. apply decode_encode. Qed.

Lemma text_of_nonempty `{Countable A} (a : A) : text_of a <> "".
Proof. unfold text_of. by destruct (encode a). Qed.
