(* ===== verification/Windows.v ===== *)
(** * Windows over a committed projection (go-bridge/projection_window.go)

    A client that does not want a whole session asks for a window of its turns: the
    last ones, those before or after a cursor, or those around a turn. The window is
    cut out of one committed snapshot within a number of turns and of encoded bytes.
    A cursor is the identity of a turn at the boundary; its wire form, base64 of a
    JSON object, and the encoding of a turn are parameters. Indices are natural
    numbers, byte counts integers. *)

From S2P Require Import Prelude.
From S2P Require Import GoText.
From S2P Require Import Wire.
From S2P Require Import Projection.

Definition maxWindowTurns : Z := 256.
Definition maxWindowEncodedBytes : Z := Z.shiftl 4 20.
Definition defaultWindowTurns : Z := 100.
Definition windowEncodingOverhead : Z := Z.shiftl 4 10.

Definition window_budget : Z := maxWindowEncodedBytes - windowEncodingOverhead.

Definition directionWindow0 : string := "window_0".
Definition directionOlder : string := "older".
Definition directionNewer : string := "newer".
Definition directionLatest : string := "latest".
Definition directionLocate : string := "locate".

Inductive WindowError : Type :=
| ScopeMismatch | CursorStale | LocateOut | UnknownDirection | EncodeError.

Record projectionWindowCursor : Type := mkWindowCursor {
  wc_V : Z;
  wc_BridgeEpoch : string;
  wc_BackendID : string;
  wc_SessionID : string;
  wc_AnchorTurnID : string;
  wc_Side : string
}.

#[export] Instance projectionWindowCursor_eq_dec : EqDecision projectionWindowCursor.
Proof. solve_decision. Defined.

Fixpoint indexOfTurn_from (i : nat) (turns : list TurnProjection) (turnID : string) : option nat :=
  match turns with
  | [] => None
  | t :: turns =>
      if bool_decide (tp_TurnID t = turnID) then Some i else indexOfTurn_from (S i) turns turnID
  end.

(** [None] stands for -1. *)
Definition indexOfTurn (turns : list TurnProjection) (turnID : string) : option nat :=
  indexOfTurn_from 0 turns turnID.

(** ** Growing a range *)

Definition size_at (sizes : list Z) (i : nat) : Z := nth i sizes 0.

(** The downward loop: [start] is the front of the range so far. *)
Fixpoint grow_down (sizes : list Z) (limit count bytes : Z) (start : nat) : nat :=
  match start with
  | O => O
  | S index =>
      if (count >=? limit) || (bytes + size_at sizes index >? window_budget) then start
      else grow_down sizes limit (count + 1) (bytes + size_at sizes index) index
  end.

(** The upward loop, over the sizes after the range so far. *)
Fixpoint grow_up (limit count bytes : Z) (rest : list Z) (end_ : nat) : nat :=
  match rest with
  | [] => end_
  | size :: rest =>
      if (count >=? limit) || (bytes + size >? window_budget) then end_
      else grow_up limit (count + 1) (bytes + size) rest (S end_)
  end.

Definition growWindowRange (sizes : list Z) (limit : Z) (boundaryIndex : nat) (endAnchored : bool)
  : nat * nat :=
  if endAnchored then
    match boundaryIndex with
    | O => (O, O)
    | S index => (grow_down sizes limit 1 (size_at sizes index) index, boundaryIndex)
    end
  else
    match drop boundaryIndex sizes with
    | [] => (boundaryIndex, boundaryIndex)
    | size :: rest => (boundaryIndex, grow_up limit 1 size rest (S boundaryIndex))
    end.

(** *** Around a turn *)

(** The bytes of [start..end], the end included. *)
Definition range_bytes (sizes : list Z) (start end_ : nat) : Z :=
  sum_with (size_at sizes) (seq start (S end_ - start)).

(** The two shrinking loops; the fuel is the distance to the anchor, at which they
    stop. *)
Fixpoint shrink_front (sizes : list Z) (fuel start : nat) (bytes : Z) : nat * Z :=
  match fuel with
  | O => (start, bytes)
  | S fuel =>
      if bytes >? window_budget then shrink_front sizes fuel (S start) (bytes - size_at sizes start)
      else (start, bytes)
  end.

Fixpoint shrink_back (sizes : list Z) (fuel end_ : nat) (bytes : Z) : nat :=
  match fuel with
  | O => end_
  | S fuel =>
      if bytes >? window_budget then shrink_back sizes fuel (pred end_) (bytes - size_at sizes end_)
      else end_
  end.

Definition locate_range (sizes : list Z) (limit : Z) (anchor : nat) : nat * nat :=
  let last_ := zlen sizes - 1 in
  let end_ := Z.min (Z.of_nat anchor + limit / 2) last_ in
  let start := Z.max 0 (end_ - limit + 1) in
  let start := Z.to_nat start in
  let end_ := Z.to_nat end_ in
  let '(start, bytes) := shrink_front sizes (anchor - start) start (range_bytes sizes start end_) in
  (start, S (shrink_back sizes (end_ - anchor) end_ bytes)).

(** ** The window *)

Section windows.
Context {Wire : Type} (encode_cursor : projectionWindowCursor -> Wire)
  (unmarshal_cursor : Wire -> option projectionWindowCursor)
  (marshal_turn : TurnProjection -> option N).

Record GetSessionProjectionWindowParams : Type := mkWindowParams {
  wp_SessionID : string;
  wp_BackendID : string;
  wp_Direction : string;
  wp_Cursor : Wire;
  wp_Limit : Z;
  wp_AnchorTurnID : string
}.

Record ProjectionWindowDescriptor : Type := mkDescriptor {
  wd_WindowID : string;
  wd_Generation : Z;
  wd_Coverage : string;
  wd_HeadTurnID : option string;
  wd_TailTurnID : option string;
  wd_HasOlder : bool;
  wd_HasNewer : bool;
  wd_NextOlderCursor : option Wire;
  wd_NextNewerCursor : option Wire
}.

(** [Resume] is ["at_head"] when it is there. *)
Record ProjectionWindowResponse : Type := mkWindowResponse {
  wr_Window : ProjectionWindowDescriptor;
  wr_Turns : list TurnProjection;
  wr_SyncRev : Z;
  wr_Resume : bool
}.

Definition decodeProjectionWindowCursor (raw : Wire) : WindowError + projectionWindowCursor :=
  match unmarshal_cursor raw with
  | Some c =>
      if negb (wc_V c =? 1) || bool_decide (wc_AnchorTurnID c = "")
         || (negb (bool_decide (wc_Side c = "o")) && negb (bool_decide (wc_Side c = "n")))
      then inl CursorStale else inr c
  | None => inl CursorStale
  end.

Definition validateProjectionWindowCursorScope (c : projectionWindowCursor)
  (backendID sessionID bridgeEpoch : string) : option WindowError :=
  if negb (bool_decide (wc_BackendID c = backendID)) || negb (bool_decide (wc_SessionID c = sessionID))
  then Some ScopeMismatch
  else if negb (bool_decide (wc_BridgeEpoch c = bridgeEpoch)) then Some CursorStale
  else None.

(** The sizes of the turns; [None] when one has no encoding. *)
Definition turnEncodedSizes (turns : list TurnProjection) : option (list Z) :=
  mapM (fun t => Z.of_N <$> marshal_turn t) turns.

(** What the direction chose: the range, the two flags, and the anchor at which the
    newer chain resumes when the page is empty. *)
Record choice : Type := mkChoice {
  ch_start : nat;
  ch_end : nat;
  ch_hasOlder : bool;
  ch_hasNewer : bool;
  ch_emptyNewerAnchor : string
}.

(** The turn a cursor is at. *)
Definition cursor_boundary (raw : Wire) (backendID sessionID bridgeEpoch : string)
  (turns : list TurnProjection) : WindowError + (string * nat) :=
  match decodeProjectionWindowCursor raw with
  | inl e => inl e
  | inr c =>
      match validateProjectionWindowCursorScope c backendID sessionID bridgeEpoch with
      | Some e => inl e
      | None =>
          match indexOfTurn turns (wc_AnchorTurnID c) with
          | None => inl CursorStale
          | Some boundary => inr (wc_AnchorTurnID c, boundary)
          end
      end
  end.

Definition choose (backendID sessionID bridgeEpoch : string) (turns : list TurnProjection)
  (sizes : list Z) (limit : Z) (params : GetSessionProjectionWindowParams) : WindowError + choice :=
  let d := wp_Direction params in
  if bool_decide (d = directionWindow0) || bool_decide (d = directionLatest) then
    let '(s, e) := growWindowRange sizes limit (length turns) true in
    inr (mkChoice s e (negb (Nat.eqb s 0)) false "")
  else if bool_decide (d = directionOlder) then
    match cursor_boundary (wp_Cursor params) backendID sessionID bridgeEpoch turns with
    | inl e => inl e
    | inr (anchor, boundary) =>
        let '(s, e) := growWindowRange sizes limit boundary true in
        inr (mkChoice s e (negb (Nat.eqb s 0)) true anchor)
    end
  else if bool_decide (d = directionNewer) then
    match cursor_boundary (wp_Cursor params) backendID sessionID bridgeEpoch turns with
    | inl e => inl e
    | inr (_, boundary) =>
        let '(s, e) := growWindowRange sizes limit (S boundary) false in
        inr (mkChoice s e (negb (Nat.eqb s 0)) (Nat.ltb e (length turns)) "")
    end
  else if bool_decide (d = directionLocate) then
    match indexOfTurn turns (wp_AnchorTurnID params) with
    | None => inl LocateOut
    | Some anchor =>
        let '(s, e) := locate_range sizes limit anchor in
        inr (mkChoice s e (negb (Nat.eqb s 0)) (Nat.ltb e (length turns)) "")
    end
  else inl UnknownDirection.

Definition turn_id_at (turns : list TurnProjection) (i : nat) : string :=
  match turns !! i with Some t => tp_TurnID t | None => "" end.

Definition next_cursor (backendID sessionID bridgeEpoch anchor side : string) : Wire :=
  encode_cursor (mkWindowCursor 1 bridgeEpoch backendID sessionID anchor side).

(** The answer made of a choice. *)
Definition window_response (backendID sessionID bridgeEpoch : string) (proj : SessionProjection)
  (hasOlderUpstream : bool) (generation : Z) (ch : choice) : ProjectionWindowResponse :=
  let turns := sp_Turns proj in
  let empty := bool_decide (turns = []) in
  let s := if empty then 0%nat else ch_start ch in
  let e := if empty then 0%nat else ch_end ch in
  let hasOlder := negb empty && ch_hasOlder ch in
  let hasNewer := negb empty && ch_hasNewer ch in
  let hasOlder := hasOlder || (negb empty && hasOlderUpstream && Nat.eqb s 0) in
  let nonempty := Nat.ltb s e in
  let olderAnchor := if nonempty then turn_id_at turns s else if empty then "" else turn_id_at turns 0 in
  let newerAnchor :=
    if nonempty then turn_id_at turns (pred e) else if empty then "" else ch_emptyNewerAnchor ch in
  let descriptor :=
    mkDescriptor
      ("pw:" +:+ backendID +:+ "|" +:+ bridgeEpoch +:+ "|" +:+ sessionID +:+ "|" +:+ format_int generation)
      generation
      (if empty || negb hasOlder then "full" else "window")
      (if nonempty then Some (turn_id_at turns s) else None)
      (if nonempty then Some (turn_id_at turns (pred e)) else None)
      hasOlder hasNewer
      (if hasOlder then Some (next_cursor backendID sessionID bridgeEpoch olderAnchor "o") else None)
      (if hasNewer then Some (next_cursor backendID sessionID bridgeEpoch newerAnchor "n") else None) in
  mkWindowResponse descriptor (take (e - s) (drop s turns)) (sp_SyncRev proj) (negb hasNewer && negb empty).

(** The counter of generations is threaded; it moves only when a window is made. *)
Definition sliceProjectionWindowWithBudget (backendID sessionID bridgeEpoch : string)
  (proj : SessionProjection) (params : GetSessionProjectionWindowParams) (hasOlderUpstream : bool)
  (sizesOverride : option (list Z)) (generation : Z)
  : (WindowError + ProjectionWindowResponse) * Z :=
  let turns := sp_Turns proj in
  let limit := if wp_Limit params <=? 0 then defaultWindowTurns else wp_Limit params in
  let sizes :=
    match sizesOverride with
    | Some sizes => if Nat.eqb (length sizes) (length turns) then Some sizes else turnEncodedSizes turns
    | None => turnEncodedSizes turns
    end in
  match sizes with
  | None => (inl EncodeError, generation)
  | Some sizes =>
      match choose backendID sessionID bridgeEpoch turns sizes limit params with
      | inl e => (inl e, generation)
      | inr ch =>
          let generation := wrap_u64 (generation + 1) in
          (inr (window_response backendID sessionID bridgeEpoch proj hasOlderUpstream generation ch),
           generation)
      end
  end.

Definition sliceProjectionWindowWithUpstream (backendID sessionID bridgeEpoch : string)
  (proj : SessionProjection) (params : GetSessionProjectionWindowParams) (hasOlderUpstream : bool) :=
  sliceProjectionWindowWithBudget backendID sessionID bridgeEpoch proj params hasOlderUpstream None.

Definition sliceProjectionWindow (backendID sessionID bridgeEpoch : string)
  (proj : SessionProjection) (params : GetSessionProjectionWindowParams) :=
  sliceProjectionWindowWithUpstream backendID sessionID bridgeEpoch proj params false.
End windows.
