(* ===== verification/WindowWalk.v ===== *)
(** * What a client sees through windows

    Bounds on every window, and walks: a client that opens a session at its tail and
    follows the older cursors sees every turn once, in order, while the session
    grows under it. *)

From S2P Require Import Prelude.
From S2P Require Import Wire.
From S2P Require Import Projection.
From S2P Require Import Windows.

(** ** Ranges *)

Section ranges.
Context (sizes : list Z).

(** The bytes of [[i, j)]. *)
Definition bytes_between (i j : nat) : Z := sum_with (size_at sizes) (seq i (j - i)).

Lemma bytes_between_cons i j : (i < j)%nat -> bytes_between i j = size_at sizes i + bytes_between (S i) j.
Proof. intros H. unfold bytes_between. by replace (j - i)%nat with (S (j - S i)) by lia. Qed.

Lemma bytes_between_snoc i j : (i <= j)%nat -> bytes_between i (S j) = bytes_between i j + size_at sizes j.
Proof.
  intros H. unfold bytes_between. replace (S j - i)%nat with ((j - i) + 1)%nat by lia.
  rewrite seq_app, sum_with_app. cbn [seq sum_with]. replace (i + (j - i))%nat with j by lia. lia.
Qed.

Lemma bytes_between_one i : bytes_between i (S i) = size_at sizes i.
Proof. rewrite bytes_between_snoc by lia. unfold bytes_between. by rewrite Nat.sub_diag. Qed.

(** A range within its bounds: it has at most [limit] turns, and more than one only
    within the budget of bytes. *)
Definition range_ok (limit : Z) (i j : nat) : Prop :=
  (i <= j)%nat /\ Z.of_nat (j - i) <= limit /\ ((j <= S i)%nat \/ bytes_between i j <= window_budget).

Lemma grow_down_spec limit start b :
  (start < b)%nat -> range_ok limit start b ->
  let s := grow_down sizes limit (Z.of_nat (b - start)) (bytes_between start b) start in
  (s <= start)%nat /\ range_ok limit s b.
Proof.
  revert b. induction start as [|index IH]; intros b Hb Hok; [by split|]. cbn zeta. cbn [grow_down].
  case_if; [by split|]. zprop.
  replace (Z.of_nat (b - S index) + 1) with (Z.of_nat (b - index)) by lia.
  replace (bytes_between (S index) b + size_at sizes index) with (bytes_between index b)
    by (rewrite (bytes_between_cons index b) by lia; lia).
  destruct (IH b) as [H1 H2]; [lia| |by split; [lia|]].
  destruct Hok as (Hle & Hc & Hbytes). split_and!; [lia|lia|]. right.
  rewrite bytes_between_cons by lia. lia.
Qed.

Lemma grow_up_spec limit rest b e :
  (b < e)%nat -> drop e sizes = rest -> range_ok limit b e ->
  let e' := grow_up limit (Z.of_nat (e - b)) (bytes_between b e) rest e in
  (e <= e' <= e + length rest)%nat /\ range_ok limit b e'.
Proof.
  revert e. induction rest as [|size rest IH]; intros e He Hd Hok; cbn zeta.
  - cbn. split; [lia|done].
  - cbn [grow_up length]. case_if; [by split; [lia|]|]. zprop.
    assert (size_at sizes e = size) as Hs.
    { unfold size_at. rewrite <- (take_drop e sizes), Hd. rewrite app_nth2; rewrite length_take.
      - destruct (Nat.le_gt_cases e (length sizes)) as [Hle|Hgt].
        + replace (e - min e (length sizes))%nat with 0%nat by lia. done.
        + by rewrite drop_ge in Hd by lia.
      - lia. }
    replace (Z.of_nat (e - b) + 1) with (Z.of_nat (S e - b)) by lia.
    replace (bytes_between b e + size) with (bytes_between b (S e))
      by (rewrite bytes_between_snoc by lia; lia).
    destruct (IH (S e)) as [H1 H2]; [lia| | |split; [lia|done]].
    + replace (S e) with (e + 1)%nat by lia. by rewrite <- drop_drop, Hd.
    + destruct Hok as (Hle & Hc & Hbytes). split_and!; [lia|lia|]. right.
      rewrite bytes_between_snoc by lia. lia.
Qed.

Lemma range_ok_one limit i : 1 <= limit -> range_ok limit i (S i).
Proof. intros H. split_and!; [lia|lia|by left]. Qed.

Lemma range_ok_none limit i : 1 <= limit -> range_ok limit i i.
Proof. intros H. split_and!; [lia|lia|left; lia]. Qed.

(** Below a boundary: the range ends there, and is empty only at the front. *)
Lemma grow_older limit b :
  1 <= limit ->
  let '(s, e) := growWindowRange sizes limit b true in
  e = b /\ range_ok limit s e /\ ((0 < b)%nat -> (s < e)%nat).
Proof.
  intros Hl. destruct b as [|index]; cbn -[grow_down].
  - split_and!; [done|by apply range_ok_none|lia].
  - destruct (grow_down_spec limit index (S index)) as [H1 H2]; [lia|by apply range_ok_one|].
    replace (S index - index)%nat with 1%nat in * by lia. change (Z.of_nat 1) with 1 in *.
    rewrite bytes_between_one in *.
    split_and!; [done|exact H2|]. intros _. lia.
Qed.

Lemma grow_newer limit b :
  1 <= limit ->
  let '(s, e) := growWindowRange sizes limit b false in
  s = b /\ range_ok limit s e /\
  ((b < length sizes)%nat -> (s < e <= length sizes)%nat) /\ ((length sizes <= b)%nat -> e = b).
Proof.
  intros Hl. unfold growWindowRange. destruct (drop b sizes) as [|size rest] eqn:Hd.
  - assert (length sizes <= b)%nat by (apply (f_equal length) in Hd; rewrite length_drop in Hd; cbn in Hd; lia).
    split_and!; [done|by apply range_ok_none|lia|done].
  - pose proof (f_equal length Hd) as Hlen. rewrite length_drop in Hlen. cbn in Hlen.
    assert (drop (S b) sizes = rest) as Hd'
      by (replace (S b) with (b + 1)%nat by lia; by rewrite <- drop_drop, Hd).
    assert (size = size_at sizes b) as ->.
    { unfold size_at. rewrite <- (take_drop b sizes), Hd, app_nth2; rewrite length_take; [|lia].
      by replace (b - min b (length sizes))%nat with 0%nat by lia. }
    destruct (grow_up_spec limit rest b (S b)) as [H1 H2]; [lia|done|by apply range_ok_one|].
    replace (S b - b)%nat with 1%nat in * by lia. change (Z.of_nat 1) with 1 in *.
    rewrite bytes_between_one in *.
    split_and!; [done|exact H2|lia|lia].
Qed.

(** Around a turn: the turn stays inside. *)
Lemma shrink_front_spec fuel start e bytes :
  (start + fuel <= e)%nat -> bytes = bytes_between start (S e) ->
  let '(s, b) := shrink_front sizes fuel start bytes in
  (start <= s <= start + fuel)%nat /\ b = bytes_between s (S e) /\
  (s = (start + fuel)%nat \/ b <= window_budget).
Proof.
  revert start bytes. induction fuel as [|fuel IH]; intros start bytes Hle Hb; cbn [shrink_front].
  - split_and!; [lia|lia|done|left; lia].
  - case_if; zprop; [|split_and!; [lia|lia|done|right; lia]].
    specialize (IH (S start) (bytes - size_at sizes start)).
    destruct (shrink_front sizes fuel (S start) _) as [s b].
    destruct IH as (I1 & I2 & I3); [lia| |].
    + rewrite Hb, bytes_between_cons by lia. lia.
    + split_and!; [lia|lia|done|]. destruct I3; [left; lia|by right].
Qed.

Lemma shrink_back_spec fuel s e bytes :
  (s + fuel <= e)%nat -> bytes = bytes_between s (S e) ->
  let e' := shrink_back sizes fuel e bytes in
  (e - fuel <= e' <= e)%nat /\ (e' = (e - fuel)%nat \/ bytes_between s (S e') <= window_budget) /\
  (bytes <= window_budget -> e' = e).
Proof.
  revert e bytes. induction fuel as [|fuel IH]; intros e bytes Hle Hb; cbn zeta; cbn [shrink_back].
  - split_and!; [lia|lia|left; lia|done].
  - case_if; zprop; [|split_and!; [lia|lia|right; lia|done]]. destruct e as [|e]; [lia|]. cbn [pred].
    destruct (IH e (bytes - size_at sizes (S e))) as (I1 & I2 & _); [lia| |].
    + rewrite Hb, bytes_between_snoc by lia. lia.
    + split_and!; [lia|lia| |lia]. destruct I2; [left; lia|by right].
Qed.

Lemma locate_spec limit anchor :
  1 <= limit -> (anchor < length sizes)%nat ->
  let '(s, e) := locate_range sizes limit anchor in
  (s <= anchor < e)%nat /\ (e <= length sizes)%nat /\ range_ok limit s e.
Proof.
  intros Hl Ha. unfold locate_range.
  set (e0 := Z.to_nat (Z.min (Z.of_nat anchor + limit / 2) (zlen sizes - 1))).
  set (s0 := Z.to_nat (Z.max 0 (Z.min (Z.of_nat anchor + limit / 2) (zlen sizes - 1) - limit + 1))).
  assert (0 <= limit / 2 /\ limit / 2 <= limit - 1) as [Hh1 Hh2].
  { split; [apply Z.div_pos; lia|]. assert (limit / 2 < limit) by (apply Z.div_lt; lia). lia. }
  assert (anchor <= e0 < length sizes)%nat as He0 by (unfold e0; lia).
  assert (s0 <= anchor)%nat as Hs0 by (unfold s0; lia).
  assert (Z.of_nat (S e0 - s0) <= limit) as Hc by (unfold e0, s0; lia).
  pose proof (shrink_front_spec (anchor - s0) s0 e0 (range_bytes sizes s0 e0)) as Hf.
  destruct (shrink_front sizes (anchor - s0) s0 (range_bytes sizes s0 e0)) as [s b].
  destruct Hf as (F1 & F2 & F3); [lia|done|].
  destruct (shrink_back_spec (e0 - anchor) s e0 b) as (B1 & B2 & B3); [lia|done|].
  assert (s <= anchor)%nat by lia.
  set (e1 := shrink_back sizes (e0 - anchor) e0 b) in *.
  unfold range_ok. split_and!; [lia|lia|lia|lia|lia|].
  destruct B2 as [HB|B2]; [|by right]. rewrite HB.
  destruct F3 as [->|F3]; [left; lia|]. right.
  rewrite <- HB, B3 by done. by rewrite <- F2.
Qed.
End ranges.

(** ** Every window is bounded *)

Lemma indexOfTurn_from_spec k turns id i :
  indexOfTurn_from k turns id = Some i ->
  (k <= i)%nat /\ map tp_TurnID turns !! (i - k)%nat = Some id.
Proof.
  revert k. induction turns as [|t turns IH]; intros k; cbn [indexOfTurn_from]; [done|].
  case_bool_decide as Ht; intros H.
  - injection H as <-. split; [lia|]. rewrite Nat.sub_diag. cbn. by rewrite Ht.
  - destruct (IH (S k) H) as [H1 H2]. split; [lia|].
    replace (i - k)%nat with (S (i - S k)) by lia. exact H2.
Qed.

Lemma indexOfTurn_some turns id i :
  indexOfTurn turns id = Some i -> map tp_TurnID turns !! i = Some id.
Proof. intros H. apply indexOfTurn_from_spec in H as [_ H]. by rewrite Nat.sub_0_r in H. Qed.

Lemma indexOfTurn_lt turns id i : indexOfTurn turns id = Some i -> (i < length turns)%nat.
Proof.
  intros H%indexOfTurn_some. apply lookup_lt_Some in H. by rewrite length_map in H.
Qed.

(** The first turn with the identity. *)
Lemma indexOfTurn_first turns pre id post :
  map tp_TurnID turns = pre ++ id :: post -> id ∉ pre -> indexOfTurn turns id = Some (length pre).
Proof.
  unfold indexOfTurn.
  assert (forall k turns, map tp_TurnID turns = pre ++ id :: post -> id ∉ pre ->
    indexOfTurn_from k turns id = Some (k + length pre)%nat) as Hgen; [|by apply (Hgen 0%nat)].
  clear turns. induction pre as [|x pre IH]; intros k turns Hm Hn; destruct turns as [|t turns]; try done.
  - injection Hm as Ht _. cbn [indexOfTurn_from]. rewrite bool_decide_true by done. f_equal. cbn. lia.
  - injection Hm as Ht Hm. cbn [indexOfTurn_from]. rewrite bool_decide_false by set_solver.
    rewrite (IH (S k) turns Hm) by set_solver. f_equal. cbn. lia.
Qed.

Section windows.
Context {Wire : Type} (encode_cursor : projectionWindowCursor -> Wire)
  (unmarshal_cursor : Wire -> option projectionWindowCursor)
  (marshal_turn : TurnProjection -> option N).

Abbreviation choose := (choose unmarshal_cursor).

Lemma cursor_boundary_lt raw bk s ep turns anchor b :
  cursor_boundary unmarshal_cursor raw bk s ep turns = inr (anchor, b) -> (b < length turns)%nat.
Proof.
  unfold cursor_boundary. destruct (decodeProjectionWindowCursor _ raw) as [e|c]; [done|].
  destruct (validateProjectionWindowCursorScope c bk s ep); [done|].
  destruct (indexOfTurn turns _) as [i|] eqn:Hi; [|done]. intros [= _ <-]. by apply indexOfTurn_lt in Hi.
Qed.

Lemma choose_ok bk s ep turns sizes limit params ch :
  length sizes = length turns -> 1 <= limit -> choose bk s ep turns sizes limit params = inr ch ->
  range_ok sizes limit (ch_start ch) (ch_end ch) /\ (ch_end ch <= length turns)%nat.
Proof.
  intros Hlen Hl. unfold choose. cbv zeta. case_if.
  { pose proof (grow_older sizes limit (length turns) Hl) as Hg.
    destruct (growWindowRange _ _ _ _) as [a e]. destruct Hg as (-> & Hok & _).
    intros [= <-]. by split. }
  case_if.
  { destruct (cursor_boundary _ _ _ _ _ _) as [e|[anchor b]] eqn:Hc; [done|].
    apply cursor_boundary_lt in Hc. pose proof (grow_older sizes limit b Hl) as Hg.
    destruct (growWindowRange _ _ _ _) as [a e]. destruct Hg as (-> & Hok & _).
    intros [= <-]. split; [done|]. cbn. lia. }
  case_if.
  { destruct (cursor_boundary _ _ _ _ _ _) as [e|[anchor b]] eqn:Hc; [done|].
    apply cursor_boundary_lt in Hc. pose proof (grow_newer sizes limit (S b) Hl) as Hg.
    destruct (growWindowRange _ _ _ _) as [a e]. destruct Hg as (-> & Hok & H1 & H2).
    intros [= <-]. split; [done|]. cbn. lia. }
  case_if; [|done].
  destruct (indexOfTurn turns _) as [i|] eqn:Hi; [|done]. apply indexOfTurn_lt in Hi.
  pose proof (locate_spec sizes limit i Hl ltac:(lia)) as Hg.
  destruct (locate_range _ _ _) as [a e]. destruct Hg as (_ & He & Hok). intros [= <-].
  split; [done|]. cbn. lia.
Qed.

(** A window is a run of consecutive turns of the projection, of at most as many
    turns as asked for (100 when nothing is), and of more than one turn only within
    the budget of encoded bytes; a cursor is there exactly when its flag is, and a
    window that reaches the committed tail says so. *)
Theorem window_bounded bk s ep proj params up g resp g' :
  sliceProjectionWindowWithUpstream encode_cursor unmarshal_cursor marshal_turn bk s ep proj params up g
    = (inr resp, g') ->
  exists i j sizes,
    turnEncodedSizes marshal_turn (sp_Turns proj) = Some sizes /\
    wr_Turns resp = take (j - i) (drop i (sp_Turns proj)) /\ (i <= j <= length (sp_Turns proj))%nat /\
    zlen (wr_Turns resp) <= (if wp_Limit params <=? 0 then defaultWindowTurns else wp_Limit params) /\
    ((j <= S i)%nat \/ bytes_between sizes i j <= window_budget) /\
    (wd_HasOlder (wr_Window resp) = true <-> wd_NextOlderCursor (wr_Window resp) <> None) /\
    (wd_HasNewer (wr_Window resp) = true <-> wd_NextNewerCursor (wr_Window resp) <> None) /\
    (wr_Resume resp = true <-> wd_HasNewer (wr_Window resp) = false /\ sp_Turns proj <> []).
Proof.
  unfold sliceProjectionWindowWithUpstream, sliceProjectionWindowWithBudget. cbv zeta.
  destruct (turnEncodedSizes marshal_turn (sp_Turns proj)) as [sizes|] eqn:Hsz; [|done].
  set (limit := if wp_Limit params <=? 0 then defaultWindowTurns else wp_Limit params).
  assert (1 <= limit) as Hl by (unfold limit, defaultWindowTurns; destruct (_ <=? 0) eqn:Hz; zprop; lia).
  clearbody limit.
  assert (length sizes = length (sp_Turns proj)) as Hlen by (symmetry; by eapply length_mapM).
  destruct (Windows.choose unmarshal_cursor bk s ep (sp_Turns proj) sizes limit params) as [e|ch] eqn:Hch; [done|].
  intros [= <- _]. destruct (choose_ok _ _ _ _ _ _ _ _ Hlen Hl Hch) as [(H1 & H2 & H3) H4].
  assert (forall (b : bool) (w : Wire), b = true <-> (if b then Some w else None) <> None) as Hflag
    by (intros [] w; by split).
  unfold window_response. cbv zeta. cbn [wr_Turns wr_Window wr_Resume wd_HasOlder wd_HasNewer
    wd_NextOlderCursor wd_NextNewerCursor].
  assert (forall b : bool, (negb b && negb (bool_decide (sp_Turns proj = [])))%bool = true <->
    b = false /\ sp_Turns proj <> []) as Hres
    by (intros b; rewrite andb_true_iff, !negb_true_iff, bool_decide_eq_false; done).
  destruct (bool_decide (sp_Turns proj = [])) eqn:He.
  - zprop. exists 0%nat, 0%nat, sizes. split_and!; try done; try lia; try (by apply Hflag).
    change (0 <= limit). lia.
  - exists (ch_start ch), (ch_end ch), sizes. split_and!; try done; try lia; try (by apply Hflag).
    rewrite length_take, length_drop. lia.
Qed.
End windows.

(** ** Walking back through a growing session *)

Section walk.
Context {Wire : Type} (encode_cursor : projectionWindowCursor -> Wire)
  (unmarshal_cursor : Wire -> option projectionWindowCursor)
  (marshal_turn : TurnProjection -> option N).
(** A cursor is read back as it was written: its fields are valid UTF-8. *)
Context (cursor_roundtrip : forall c, unmarshal_cursor (encode_cursor c) = Some c).
Context (backendID sessionID bridgeEpoch : string).

Definition turn_ids (proj : SessionProjection) : list string := map tp_TurnID (sp_Turns proj).

(** Identities are distinct and none is empty. *)
Definition well_identified (proj : SessionProjection) : Prop :=
  NoDup (turn_ids proj) /\ "" ∉ turn_ids proj.

Definition ask (params : GetSessionProjectionWindowParams) (upstream : bool) (proj : SessionProjection)
  (g : Z) : WindowError + ProjectionWindowResponse :=
  fst (sliceProjectionWindowWithUpstream encode_cursor unmarshal_cursor marshal_turn backendID sessionID
         bridgeEpoch proj params upstream g).

Definition page_ids (r : ProjectionWindowResponse (Wire := Wire)) : list string :=
  map tp_TurnID (wr_Turns r).

(** The projection of the session and the pages a client received, the last one
    first. The session gains turns at its end at any moment, and at its front, from
    older history, while the client still holds an older cursor. *)
Inductive walk : SessionProjection -> list (ProjectionWindowResponse (Wire := Wire)) -> Prop :=
| walk_open proj params upstream g r :
    well_identified proj -> wp_Direction params = directionWindow0 \/ wp_Direction params = directionLatest ->
    ask params upstream proj g = inr r -> walk proj [r]
| walk_grow proj proj' front back r pages :
    walk proj (r :: pages) -> well_identified proj' ->
    turn_ids proj' = front ++ turn_ids proj ++ back ->
    front = [] \/ wd_NextOlderCursor (wr_Window r) <> None -> walk proj' (r :: pages)
| walk_older proj params upstream g r r' pages :
    walk proj (r :: pages) -> wp_Direction params = directionOlder ->
    wd_NextOlderCursor (wr_Window r) = Some (wp_Cursor params) ->
    ask params upstream proj g = inr r' -> walk proj (r' :: r :: pages).

(** What the client shows, and where it would go on from. *)
Record walk_ok (proj : SessionProjection) (shown : list string) (last_ : ProjectionWindowResponse (Wire := Wire))
  : Prop := {
  wk_ids : well_identified proj;
  wk_segment : exists pre post, turn_ids proj = pre ++ shown ++ post /\
    (wd_NextOlderCursor (wr_Window last_) = None -> pre = []);
  wk_cursor : forall c, wd_NextOlderCursor (wr_Window last_) = Some c ->
    exists a rest, shown = a :: rest /\ c = next_cursor encode_cursor backendID sessionID bridgeEpoch a "o"
}.

Lemma turn_id_at_ids (turns : list TurnProjection) i a :
  map tp_TurnID turns !! i = Some a -> turn_id_at turns i = a.
Proof.
  intros H. change (map tp_TurnID turns) with (tp_TurnID <$> turns) in H.
  rewrite list_lookup_fmap in H. unfold turn_id_at. by destruct (turns !! i) as [t|]; [injection H|].
Qed.

(** The answer to a choice below a boundary [b]: the ids from [s] to [b]. *)
Lemma older_page proj upstream g b s newer anchor shown post :
  well_identified proj -> turn_ids proj = take b (turn_ids proj) ++ shown ++ post ->
  (b <= length (turn_ids proj))%nat -> (s <= b)%nat -> ((0 < b)%nat -> (s < b)%nat) ->
  (b = 0%nat -> shown <> []) ->
  let r := window_response encode_cursor backendID sessionID bridgeEpoch proj upstream g
             (mkChoice s b (negb (Nat.eqb s 0)) newer anchor) in
  sp_Turns proj <> [] ->
  walk_ok proj (page_ids r ++ shown) r.
Proof.
  intros Hwi Hids Hb Hs Hpos Hshown r Hne.
  assert (page_ids r = drop s (take b (turn_ids proj))) as Hpage.
  { unfold page_ids, r, window_response. cbn. rewrite bool_decide_false by done. cbn.
    change (tp_TurnID <$> take (b - s) (drop s (sp_Turns proj)) = drop s (take b (tp_TurnID <$> sp_Turns proj))).
    by rewrite fmap_take, fmap_drop, skipn_firstn_comm. }
  assert (turn_ids proj = take s (turn_ids proj) ++ (page_ids r ++ shown) ++ post) as Hseg.
  { rewrite Hids at 1. rewrite Hpage. rewrite <- (take_drop s (take b (turn_ids proj))) at 1.
    rewrite take_take, Nat.min_l by lia. by rewrite !app_assoc. }
  assert (wd_NextOlderCursor (wr_Window r) =
    if (negb (Nat.eqb s 0) || (upstream && Nat.eqb s 0))%bool
    then Some (next_cursor encode_cursor backendID sessionID bridgeEpoch
                 (turn_id_at (sp_Turns proj) (if Nat.ltb s b then s else 0%nat)) "o")
    else None) as Hcur.
  { unfold r, window_response. cbv zeta. cbn [wr_Window wd_NextOlderCursor ch_start ch_end ch_hasOlder].
    rewrite bool_decide_false by done. cbn [negb andb]. by destruct (Nat.ltb s b). }
  clearbody r. split; [done| |]; rewrite Hcur.
  - exists (take s (turn_ids proj)), post. split; [exact Hseg|]. by destruct s as [|s].
  - intros c. destruct (negb (Nat.eqb s 0) || (upstream && Nat.eqb s 0))%bool; [|done].
    intros [= <-]. destruct (Nat.ltb s b) eqn:Hlt.
    + apply Nat.ltb_lt in Hlt. destruct (page_ids r) as [|a rest] eqn:Hd.
      { symmetry in Hpage. apply (f_equal length) in Hpage. rewrite length_drop, length_take in Hpage.
        cbn in Hpage. lia. }
      exists a, (rest ++ shown). split; [done|]. f_equal. apply turn_id_at_ids. fold (turn_ids proj).
      rewrite Hseg, lookup_app_r by (rewrite length_take; lia).
      rewrite length_take. by replace (s - s `min` length (turn_ids proj))%nat with 0%nat by lia.
    + apply Nat.ltb_ge in Hlt. assert (b = 0%nat) as -> by lia. assert (s = 0%nat) as -> by lia.
      destruct shown as [|a rest]; [by destruct (Hshown eq_refl)|]. exists a, rest.
      rewrite Hpage. split; [done|]. f_equal. apply turn_id_at_ids. fold (turn_ids proj). by rewrite Hids.
Qed.

Lemma ask_inr params upstream proj g r :
  ask params upstream proj g = inr r ->
  exists sizes ch, turnEncodedSizes marshal_turn (sp_Turns proj) = Some sizes /\
    choose unmarshal_cursor backendID sessionID bridgeEpoch (sp_Turns proj) sizes
      (if wp_Limit params <=? 0 then defaultWindowTurns else wp_Limit params) params = inr ch /\
    r = window_response encode_cursor backendID sessionID bridgeEpoch proj upstream (wrap_u64 (g + 1)) ch.
Proof.
  unfold ask, sliceProjectionWindowWithUpstream, sliceProjectionWindowWithBudget. cbv zeta.
  destruct (turnEncodedSizes marshal_turn (sp_Turns proj)) as [sizes|]; [|done].
  destruct (choose _ _ _ _ _ _ _ _) as [e|ch] eqn:Hch; [done|]. cbn. intros [= <-]. by exists sizes, ch.
Qed.

Lemma limit_pos (l : Z) : 1 <= (if l <=? 0 then defaultWindowTurns else l).
Proof. unfold defaultWindowTurns. destruct (l <=? 0) eqn:H; zprop; lia. Qed.

(** The older request of a client that shows [a] first. *)
Lemma older_choice proj params sizes a rest pre post c limit :
  well_identified proj -> turn_ids proj = pre ++ (a :: rest) ++ post ->
  c = next_cursor encode_cursor backendID sessionID bridgeEpoch a "o" ->
  wp_Direction params = directionOlder -> wp_Cursor params = c ->
  length sizes = length (sp_Turns proj) -> 1 <= limit ->
  exists s, choose unmarshal_cursor backendID sessionID bridgeEpoch (sp_Turns proj) sizes limit params =
      inr (mkChoice s (length pre) (negb (Nat.eqb s 0)) true a) /\
    (s <= length pre)%nat /\ ((0 < length pre)%nat -> (s < length pre)%nat).
Proof.
  intros [Hnd Hne] Hids -> Hdir Hcur Hlen Hl. unfold choose. cbv zeta. rewrite Hdir.
  rewrite !bool_decide_false by done. cbn [orb]. rewrite bool_decide_true by done.
  unfold cursor_boundary, decodeProjectionWindowCursor. rewrite Hcur. unfold next_cursor.
  rewrite cursor_roundtrip. cbn [wc_V wc_AnchorTurnID wc_Side]. change (1 =? 1) with true.
  rewrite (bool_decide_false (a = "")) by (intros ->; apply Hne; rewrite Hids; set_solver).
  rewrite (bool_decide_true ("o" = "o")) by done. cbn [negb orb andb].
  unfold validateProjectionWindowCursorScope. cbn [wc_BackendID wc_SessionID wc_BridgeEpoch wc_AnchorTurnID].
  rewrite !bool_decide_true by done. cbn [negb orb].
  rewrite (indexOfTurn_first (sp_Turns proj) pre a (rest ++ post)).
  - pose proof (grow_older sizes limit (length pre) Hl) as Hg.
    destruct (growWindowRange sizes limit (length pre) true) as [s e]. destruct Hg as (-> & (H1 & _) & H2).
    by exists s.
  - unfold turn_ids in Hids. by rewrite Hids.
  - rewrite Hids in Hnd. apply NoDup_app in Hnd as (_ & Hd & _). intros Hin. apply (Hd _ Hin). set_solver.
Qed.

Lemma walk_invariant proj pages :
  walk proj pages -> exists r rest, pages = r :: rest /\ walk_ok proj (concat (map page_ids pages)) r.
Proof.
  induction 1 as [proj params upstream g r Hwi Hdir Hr
                 |proj proj' front back r pages Hw (r0 & rest & [= <- <-] & [Hok1 Hok2 Hok3]) Hwi Hids Hfront
                 |proj params upstream g r r' pages Hw (r0 & rest & [= <- <-] & [Hok1 Hok2 Hok3]) Hdir Hcur Hr].
  - exists r, []. split; [done|]. cbn [map concat].
    apply ask_inr in Hr as (sizes & ch & Hsz & Hch & ->).
    assert (length sizes = length (sp_Turns proj)) as Hlen by (symmetry; by eapply length_mapM).
    unfold choose in Hch. cbv zeta in Hch.
    assert (bool_decide (wp_Direction params = directionWindow0)
            || bool_decide (wp_Direction params = directionLatest) = true)%bool as Hd
      by (apply orb_true_iff; rewrite !bool_decide_eq_true; done).
    rewrite Hd in Hch.
    pose proof (grow_older sizes _ (length (sp_Turns proj)) (limit_pos (wp_Limit params))) as Hg.
    destruct (growWindowRange _ _ _ _) as [s e]. destruct Hg as (-> & (H1 & _) & H2).
    injection Hch as <-. destruct (decide (sp_Turns proj = [])) as [He|He].
    + split; [done| |].
      * exists [], []. split; [|done]. unfold turn_ids, page_ids, window_response. cbn. by rewrite He.
      * intros c. unfold window_response. cbn. by rewrite bool_decide_true.
    + apply (older_page proj upstream _ (length (sp_Turns proj)) s false "" [] []); try done.
      * rewrite take_ge by (unfold turn_ids; rewrite length_map; lia). by rewrite app_nil_r.
      * unfold turn_ids. by rewrite length_map.
      * intros Hz. by apply nil_length_inv in Hz.
  - exists r, pages. split; [done|]. destruct Hok2 as (pre & post & Hseg & Hnone). split; [done| |done].
    exists (front ++ pre), (post ++ back). split; [rewrite Hids, Hseg; by rewrite <- !app_assoc|].
    intros Hn. destruct Hfront as [->|]; [|done]. by rewrite Hnone.
  - exists r', (r :: pages). split; [done|]. cbn [map concat].
    destruct (Hok3 _ Hcur) as (a & rest & Hshown & Hc). destruct Hok2 as (pre & post & Hseg & _).
    cbn [map concat] in Hshown, Hseg.
    apply ask_inr in Hr as (sizes & ch & Hsz & Hch & ->).
    assert (length sizes = length (sp_Turns proj)) as Hlen by (symmetry; by eapply length_mapM).
    rewrite Hshown in Hseg.
    destruct (older_choice proj params sizes a rest pre post _ _ Hok1 Hseg Hc Hdir eq_refl Hlen
      (limit_pos (wp_Limit params))) as (s & Hs & H1 & H2).
    rewrite Hs in Hch. injection Hch as <-.
    rewrite Hshown. apply (older_page proj upstream _ (length pre) s true a (a :: rest) post); try done.
    + by rewrite Hseg, take_app_length.
    + rewrite Hseg, length_app. lia.
    + intros Hz. unfold turn_ids in Hseg. rewrite Hz in Hseg. cbn in Hseg. by destruct pre.
Qed.

(** C17. A client that opens a session at its tail and follows the older cursors shows,
    at every moment of the walk and however the session grows meanwhile, a run of
    consecutive turns of the session, each once and in order; the run starts at the
    very first turn once no older cursor is left. The next older request is always
    answered, and it brings at least one turn or finds the client at the front. *)
Theorem older_walk_exact proj r pages :
  walk proj (r :: pages) ->
  let shown := concat (map page_ids (r :: pages)) in
  (exists pre post, turn_ids proj = pre ++ shown ++ post /\
     (wd_NextOlderCursor (wr_Window r) = None -> pre = [])) /\
  NoDup shown /\
  forall params upstream g,
    wd_NextOlderCursor (wr_Window r) = Some (wp_Cursor params) -> wp_Direction params = directionOlder ->
    turnEncodedSizes marshal_turn (sp_Turns proj) <> None ->
    exists r', ask params upstream proj g = inr r' /\
      (wr_Turns r' <> [] \/ exists post, turn_ids proj = shown ++ post).
Proof.
  intros Hw shown. destruct (walk_invariant _ _ Hw) as (r0 & rest & [= <- <-] & [Hwi Hseg Hcur]).
  fold shown in Hseg, Hcur. split_and!; [done| |].
  - destruct Hseg as (pre & post & Hids & _), Hwi as [Hnd _]. rewrite Hids in Hnd.
    apply NoDup_app in Hnd as (_ & _ & Hnd). by apply NoDup_app in Hnd as (Hnd & _ & _).
  - intros params upstream g Hc Hdir Hsz. destruct (Hcur _ Hc) as (a & rest & Hshown & Hc').
    destruct Hseg as (pre & post & Hids & _). rewrite Hshown in Hids.
    destruct (turnEncodedSizes marshal_turn (sp_Turns proj)) as [sizes|] eqn:He; [|done].
    assert (length sizes = length (sp_Turns proj)) as Hlen by (symmetry; by eapply length_mapM).
    destruct (older_choice proj params sizes a rest pre post _ _ Hwi Hids Hc' Hdir eq_refl Hlen
      (limit_pos (wp_Limit params))) as (s & Hs & H1 & H2).
    unfold ask, sliceProjectionWindowWithUpstream, sliceProjectionWindowWithBudget. cbv zeta.
    rewrite He, Hs. cbn [fst]. eexists. split; [done|].
    assert (sp_Turns proj <> []) as Hne
      by (intros Hz; unfold turn_ids in Hids; rewrite Hz in Hids; by destruct pre).
    destruct pre as [|x pre]; [right; exists post; by rewrite Hids, Hshown|left].
    unfold window_response. cbn. rewrite bool_decide_false by done. cbn.
    intros Hz. apply (f_equal length) in Hz. rewrite length_take, length_drop in Hz.
    apply (f_equal length) in Hids. unfold turn_ids in Hids. rewrite length_map, length_app in Hids.
    cbn in Hids, H2, Hz. lia.
Qed.
End walk.

(** ** At concrete sessions *)

Definition wit_turn (id : string) : TurnProjection :=
  mkTurnProjection id "completed" 0 0 0 None None None "" "" false 0 None 0 0 0 VNil.

Definition wit_session (ids : list string) : SessionProjection :=
  mkSessionProjection "s" 1 "e" 0 (mkExecutionView "idle" "") (map wit_turn ids) None None None None None.

(** Cursors travel as they are. *)
Definition wit_ask (direction : string) (cursor : projectionWindowCursor) (limit : Z)
  (proj : SessionProjection) : WindowError + ProjectionWindowResponse :=
  ask (fun c => c) Some (fun _ => Some 10%N) "claude" "s" "e"
    (mkWindowParams "s" "claude" direction cursor limit "") false proj 0.

Definition wit_cursor (anchor side : string) : projectionWindowCursor :=
  mkWindowCursor 1 "e" "claude" "s" anchor side.

Lemma window_bounded_witness :
  exists resp, wit_ask "window_0" (wit_cursor "" "") 2 (wit_session ["t1"; "t2"; "t3"]) = inr resp /\
    zlen (wr_Turns resp) <= 2.
Proof.
  eexists. split; [vm_compute; reflexivity|].
  destruct (window_bounded (fun c : projectionWindowCursor => c) Some (fun _ => Some 10%N) "claude" "s" "e"
    (wit_session ["t1"; "t2"; "t3"])
    (mkWindowParams "s" "claude" "window_0" (wit_cursor "" "") 2 "") false 0
    _ 1 ltac:(vm_compute; reflexivity)) as (i & j & sizes & _ & _ & _ & Hn & _).
  exact Hn.
Defined.

(** Opened on the last two turns of three; a fourth comes; one step back. *)
Lemma older_walk_exact_witness :
  exists r1 r2,
    walk (fun c => c) Some (fun _ => Some 10%N) "claude" "s" "e" (wit_session ["t1"; "t2"; "t3"; "t4"]) [r2; r1] /\
    NoDup (concat (map page_ids [r2; r1])).
Proof.
  assert (forall ids, bool_decide (NoDup ids) = true -> bool_decide ("" ∉ ids) = true ->
    well_identified (wit_session ids)) as Hwi.
  { intros ids H1%bool_decide_eq_true_1 H2%bool_decide_eq_true_1. unfold well_identified, turn_ids. cbn.
    rewrite map_map, map_id. by split. }
  assert (exists r1 r2,
    walk (fun c => c) Some (fun _ => Some 10%N) "claude" "s" "e" (wit_session ["t1"; "t2"; "t3"; "t4"]) [r2; r1])
    as (r1 & r2 & Hw).
  { do 2 eexists.
    eapply (walk_older _ _ _ _ _ _ _ (mkWindowParams "s" "claude" "older" (wit_cursor "t2" "o") 2 "") false 1);
      [eapply (walk_grow _ _ _ _ _ _ (wit_session ["t1"; "t2"; "t3"]) _ [] ["t4"]);
        [eapply (walk_open _ _ _ _ _ _ _ (mkWindowParams "s" "claude" "window_0" (wit_cursor "" "") 2 "") false 0);
          [by apply Hwi|by left|vm_compute; reflexivity]
        |by apply Hwi|reflexivity|by left]
      |reflexivity|reflexivity|vm_compute; reflexivity]. }
  exists r1, r2. split; [exact Hw|].
  exact (proj1 (proj2 (older_walk_exact (fun c : projectionWindowCursor => c) Some (fun _ => Some 10%N)
    (fun c => eq_refl) "claude" "s" "e" _ _ _ Hw))).
Defined.

(** When the turn a newer cursor is at has become the last one (the turns after it
    were retracted), the answer is an empty page whose older cursor is at the front
    of the session: followed, it answers that nothing is older, and every turn is
    skipped. *)
Theorem empty_newer_page_skips_history :
  exists r r',
    wit_ask "newer" (wit_cursor "t2" "n") 2 (wit_session ["t1"; "t2"]) = inr r /\
    wr_Turns r = [] /\ wd_HasOlder (wr_Window r) = true /\
    wd_NextOlderCursor (wr_Window r) = Some (wit_cursor "t1" "o") /\
    wit_ask "older" (wit_cursor "t1" "o") 2 (wit_session ["t1"; "t2"]) = inr r' /\
    wr_Turns r' = [] /\ wd_HasOlder (wr_Window r') = false.
Proof. do 2 eexists. repeat split; vm_compute; reflexivity. Qed.
