(* ===== verification/AnchorNewer.v ===== *)
(** * Reconciliation of a client's cache (go-bridge/projection_anchor_newer.go)

    A client that reopens a session holds some of its turns, with the opaque token each
    came with. It sends the tokens and the last turn it holds, and gets what differs:
    the turns after that one, the ones whose token is not the committed turn's, the ids
    that are gone. A page is bounded; the rest is asked for with a cursor and, each
    time, the whole review set, so that the bridge keeps nothing about the client. The
    encoding of a turn, SHA-256 and the wire form of the cursor are parameters. *)

From S2P Require Import Prelude.
From S2P Require Import GoText.
From S2P Require Import Wire.
From S2P Require Import Projection.
From S2P Require Import Windows.

Definition anchorNewerTotalHardCapBytes : Z := Z.shiftl 48 20.
Definition anchorNewerMandatoryReserve : Z := Z.shiftl 2 20.
Definition anchorNewerNeverSplitQuota : Z := Z.shiftl 46 20.
Definition anchorNewerPageBudget : Z := Z.shiftl 8 20.
Definition anchorNewerMaxDigestEntries : Z := 256.
Definition anchorNewerDefaultTurns : Z := 100.

(** The two last ones are an encoding failure and the final check of the size. *)
Inductive AnchorError : Type :=
| AnchorStale | AnchorOversized | AnchorCursor | AnchorEncode | AnchorHardCap.

#[export] Instance AnchorError_eq_dec : EqDecision AnchorError.
Proof. solve_decision. Defined.

Record AnchorNewerParams : Type := mkAnchorParams {
  an_SessionID : string;
  an_BackendID : string;
  an_AnchorTurnID : string;
  an_BaseDigests : gmap string (option string);
  an_Limit : Z;
  an_CorrectionCursor : string;
  an_ItemsView : string
}.

Record AnchorNewerCorrectionsPending : Type := mkPending {
  cp_Cursor : string;
  cp_Remaining : Z
}.

Record AnchorNewerScalarState : Type := mkScalarState {
  ss_Execution : ExecutionView;
  ss_PlanMode : option PlanModeView;
  ss_SessionMode : option SessionModeView;
  ss_CollaborationMode : option CollaborationModeView;
  ss_CodexGoal : option CodexGoalView;
  ss_Goal : option GoalView
}.

Record AnchorNewerResult : Type := mkAnchorResult {
  ar_Turns : list TurnProjection;
  ar_AnchorRefresh : option TurnProjection;
  ar_ChangedTurns : list TurnProjection;
  ar_RemovedTurnIDs : list string;
  ar_ScalarState : AnchorNewerScalarState;
  ar_CorrectionsPending : option AnchorNewerCorrectionsPending;
  ar_TurnTokens : gmap string string;
  ar_SyncRev : Z;
  ar_ItemsView : string
}.

Record anchorNewerCursorState : Type := mkAnchorCursor {
  ac_V : Z;
  ac_LastTurnID : string;
  ac_ChangedThrough : string
}.

(** [sort.Strings]: the byte order. *)
Definition string_le (a b : string) : Prop := String.leb a b = true.
#[export] Instance string_le_dec a b : Decision (string_le a b).
Proof. unfold string_le. apply _. Defined.

Definition sort_strings : list string -> list string := merge_sort string_le.

Definition hexDigits : list Z := bytes_of "0123456789abcdef".

Definition hex_of (sum : list Z) : string :=
  string_of_bytes
    (concat (map (fun b => [nth (Z.to_nat (Z.shiftr b 4)) hexDigits 0;
                            nth (Z.to_nat (Z.land b 15)) hexDigits 0]) sum)).

(** [scalarStateFromProjection] of projection_window_v2.go is the same. *)
Definition scalar_state (proj : SessionProjection) : AnchorNewerScalarState :=
  mkScalarState (sp_Execution proj) (sp_PlanMode proj) (sp_SessionMode proj)
    (sp_CollaborationMode proj) (sp_CodexGoal proj) (sp_Goal proj).

Section anchor.
Context (encode_cursor : anchorNewerCursorState -> string)
  (unmarshal_cursor : string -> option anchorNewerCursorState)
  {Bytes : Type} (marshal_turn : TurnProjection -> option Bytes) (len : Bytes -> N)
  (sha256 : Bytes -> list Z).

Definition turn_size (t : TurnProjection) : option N := len <$> marshal_turn t.

Definition decodeAnchorNewerCursor (encoded : string) : AnchorError + anchorNewerCursorState :=
  match unmarshal_cursor encoded with
  | None => inl AnchorCursor
  | Some state => if negb (ac_V state =? 1) then inl AnchorCursor else inr state
  end.

Definition AnchorNewerTurnToken (turn : TurnProjection) : option string :=
  raw ← marshal_turn turn; Some (hex_of (sha256 raw)).

Fixpoint tokens_into (tokens : gmap string string) (turns : list TurnProjection)
  : option (gmap string string) :=
  match turns with
  | [] => Some tokens
  | turn :: turns =>
      token ← AnchorNewerTurnToken turn; tokens_into (<[tp_TurnID turn := token]> tokens) turns
  end.

Definition BuildAnchorNewerTurnTokens (turns : list TurnProjection) : option (gmap string string) :=
  tokens_into ∅ turns.

(** ** What differs *)

Definition removedIDs (currentTokens : gmap string string) (baseDigests : gmap string (option string))
  : list string :=
  sort_strings (map fst (filter (fun kd => currentTokens !! fst kd = None) (map_to_list baseDigests))).

Definition coveredByTurnPhase (turns : list TurnProjection) (turnStart : nat) (turnID : string) : bool :=
  match indexOfTurn turns turnID with Some idx => Nat.leb turnStart idx | None => false end.

Definition is_changed (turns : list TurnProjection) (currentTokens : gmap string string) (turnStart : nat)
  (isFirstPage : bool) (anchorTurnID : string) (kd : string * option string) : bool :=
  match currentTokens !! fst kd with
  | None => false
  | Some current =>
      negb (bool_decide (snd kd = Some current))
      && negb (coveredByTurnPhase turns turnStart (fst kd))
      && negb (isFirstPage && bool_decide (fst kd = anchorTurnID))
  end.

Definition changedIDs (turns : list TurnProjection) (currentTokens : gmap string string) (turnStart : nat)
  (isFirstPage : bool) (anchorTurnID : string) (baseDigests : gmap string (option string)) : list string :=
  sort_strings
    (map fst (filter (fun kd => is_changed turns currentTokens turnStart isFirstPage anchorTurnID kd = true)
                (map_to_list baseDigests))).

(** ** The page *)

Definition neverSplitFits (anchorSize size : Z) (pageHasReconciliationContent : bool) : bool :=
  negb pageHasReconciliationContent
  && (size <=? anchorNewerNeverSplitQuota)
  && (anchorSize + size + anchorNewerMandatoryReserve <=? anchorNewerTotalHardCapBytes).

(** The turns delivered, and the bytes of the page after them. *)
Fixpoint turn_phase (limit pageBudget anchorSize : Z) (rest : list (TurnProjection * Z))
  (turnsOnPage pageConsumed : Z) : list TurnProjection * Z :=
  match rest with
  | [] => ([], pageConsumed)
  | (turn, size) :: rest =>
      if turnsOnPage >=? limit then ([], pageConsumed)
      else if (pageConsumed + size >? pageBudget) && negb (neverSplitFits anchorSize size (turnsOnPage >? 0))
      then ([], pageConsumed)
      else
        let '(delivered, consumed) :=
          turn_phase limit pageBudget anchorSize rest (turnsOnPage + 1) (pageConsumed + size) in
        (turn :: delivered, consumed)
  end.

Fixpoint correction_phase (turns : list TurnProjection) (sizes : list Z) (pageBudget anchorSize : Z)
  (ids : list string) (pageHasContent : bool) (pageConsumed : Z)
  : AnchorError + (list TurnProjection * Z) :=
  match ids with
  | [] => inr ([], pageConsumed)
  | changedID :: ids =>
      match indexOfTurn turns changedID with
      | None => correction_phase turns sizes pageBudget anchorSize ids pageHasContent pageConsumed
      | Some idx =>
          let size := size_at sizes idx in
          if size >? anchorNewerNeverSplitQuota then inl AnchorOversized
          else if (pageConsumed + size >? pageBudget) && negb (neverSplitFits anchorSize size pageHasContent)
          then inr ([], pageConsumed)
          else
            match turns !! idx with
            | None => inr ([], pageConsumed)
            | Some turn =>
                match correction_phase turns sizes pageBudget anchorSize ids true (pageConsumed + size) with
                | inl e => inl e
                | inr (delivered, consumed) => inr (turn :: delivered, consumed)
                end
            end
      end
  end.

(** The entries of [TurnTokens] for the turns of the page. *)
Definition put_tokens (currentTokens : gmap string string) (delivered : list TurnProjection)
  (tokens : gmap string string) : gmap string string :=
  foldl (fun tokens turn =>
           <[tp_TurnID turn := default "" (currentTokens !! tp_TurnID turn)]> tokens) tokens delivered.

(** The last delivered turn, or what the cursor said. *)
Definition last_id (delivered : list TurnProjection) (otherwise : string) : string :=
  match last delivered with Some turn => tp_TurnID turn | None => otherwise end.

(** What a request starts from: the size of the turns, the cursor, the tokens. *)
Record reconciliation : Type := mkReconciliation {
  rc_anchorIdx : nat;
  rc_sizes : list Z;
  rc_cursor : anchorNewerCursorState;
  rc_turnStart : nat;
  rc_tokens : gmap string string
}.

Definition start_reconciliation (proj : SessionProjection) (params : AnchorNewerParams)
  : AnchorError + reconciliation :=
  let turns := sp_Turns proj in
  match indexOfTurn turns (an_AnchorTurnID params) with
  | None => inl AnchorStale
  | Some anchorIdx =>
      match turnEncodedSizes turn_size turns with
      | None => inl AnchorEncode
      | Some sizes =>
          match (if bool_decide (an_CorrectionCursor params = "")
                 then inr (mkAnchorCursor 1 (an_AnchorTurnID params) "")
                 else decodeAnchorNewerCursor (an_CorrectionCursor params)) with
          | inl e => inl e
          | inr cursorState =>
              match (if bool_decide (ac_LastTurnID cursorState = "") then Some 0%nat
                     else S <$> indexOfTurn turns (ac_LastTurnID cursorState)) with
              | None => inl AnchorCursor
              | Some turnStart =>
                  match BuildAnchorNewerTurnTokens turns with
                  | None => inl AnchorEncode
                  | Some tokens => inr (mkReconciliation anchorIdx sizes cursorState turnStart tokens)
                  end
              end
          end
      end
  end.

Definition sliceAnchorNewerReconciliation (proj : SessionProjection) (params : AnchorNewerParams)
  : AnchorError + AnchorNewerResult :=
  match start_reconciliation proj params with
  | inl e => inl e
  | inr rc =>
      let turns := sp_Turns proj in
      let limit := if an_Limit params <=? 0 then anchorNewerDefaultTurns else an_Limit params in
      let isFirstPage := bool_decide (an_CorrectionCursor params = "") in
      let changed :=
        changedIDs turns (rc_tokens rc) (rc_turnStart rc) isFirstPage (an_AnchorTurnID params)
          (an_BaseDigests params) in
      let anchorSize := if isFirstPage then size_at (rc_sizes rc) (rc_anchorIdx rc) else 0 in
      if isFirstPage && (anchorSize >? anchorNewerNeverSplitQuota) then inl AnchorOversized
      else
        let anchorRefresh := if isFirstPage then turns !! rc_anchorIdx rc else None in
        let remaining := anchorNewerTotalHardCapBytes - anchorNewerMandatoryReserve - anchorSize in
        let pageBudget :=
          if isFirstPage && (remaining <? anchorNewerPageBudget) then remaining else anchorNewerPageBudget in
        let '(delivered, pageConsumed) :=
          turn_phase limit pageBudget anchorSize
            (drop (rc_turnStart rc) (zip turns (rc_sizes rc))) 0 0 in
        let turnCursor := (rc_turnStart rc + length delivered)%nat in
        let reachedTail := Nat.leb (length turns) turnCursor in
        match (if reachedTail
               then correction_phase turns (rc_sizes rc) pageBudget anchorSize changed
                      (bool_decide (delivered <> [])) pageConsumed
               else inr ([], pageConsumed)) with
        | inl e => inl e
        | inr (corrected, pageConsumed) =>
            if anchorSize + pageConsumed + anchorNewerMandatoryReserve >? anchorNewerTotalHardCapBytes
            then inl AnchorHardCap
            else
              let remainingTurns := zlen turns - Z.of_nat turnCursor in
              let remainingChanged :=
                zlen (filter (fun id => (id ∉ map tp_TurnID corrected) /\ is_Some (rc_tokens rc !! id)) changed) in
              let pending :=
                if (remainingTurns >? 0) || (remainingChanged >? 0) then
                  Some (mkPending
                    (encode_cursor (mkAnchorCursor 1 (last_id delivered (ac_LastTurnID (rc_cursor rc)))
                       (last_id corrected (ac_ChangedThrough (rc_cursor rc)))))
                    (remainingTurns + remainingChanged))
                else None in
              inr (mkAnchorResult delivered anchorRefresh corrected
                     (removedIDs (rc_tokens rc) (an_BaseDigests params)) (scalar_state proj) pending
                     (put_tokens (rc_tokens rc) corrected
                        (put_tokens (rc_tokens rc) delivered
                           (put_tokens (rc_tokens rc) (option_list anchorRefresh) ∅)))
                     (sp_SyncRev proj) "")
        end
  end.
End anchor.
