(* ===== verification/WindowSummary.v ===== *)
(** * Summary rows of a window (go-bridge/projection_window_v2.go)

    Instead of whole turns a window may carry a row per turn: the beginnings of what
    was said, the size of what is folded away, and the turn itself when it must be
    seen. The rows share a soft budget, given up from the oldest on. Texts are bytes;
    the lengths of the JSON of a part and of a turn are parameters. *)

From S2P Require Import Prelude.
From S2P Require Import GoText.
From S2P Require Import Wire.
From S2P Require Import Projection.
From S2P Require Import DetailChunks.

Definition summaryViewPayloadBudget : Z := Z.shiftl 1 20.
Definition summaryBriefMaxChars : nat := 1024.
Definition summaryBriefHeadChars : nat := 256.

(** [[]rune(s)], each as [string(r)] writes it: a byte that is no character is read as
    U+FFFD. *)
Fixpoint runes_of (fuel : nat) (s : list Z) : list (list Z) :=
  match fuel with
  | O => []
  | S fuel =>
      match s with
      | [] => []
      | _ :: rest =>
          match rune_width s with
          | Some n => take n s :: runes_of fuel (drop n s)
          | None => [239; 191; 189] :: runes_of fuel rest
          end
      end
  end.

Definition runes (s : list Z) : list (list Z) := runes_of (length s) s.

Record TurnSummaryBrief : Type := mkBrief {
  sb_Text : list Z;
  sb_Truncated : bool
}.

Definition briefFromText (text : list Z) (maxChars : nat) : option TurnSummaryBrief :=
  match text with
  | [] => None
  | _ =>
      if Nat.leb (length (runes text)) maxChars then Some (mkBrief text false)
      else Some (mkBrief (concat (take maxChars (runes text))) true)
  end.

(** [agentBriefHead] *)
Definition brief_head (text : list Z) (maxChars : nat) : list Z :=
  if Nat.ltb maxChars (length (runes text)) then concat (take maxChars (runes text)) else text.

Record TurnSummaryDescriptor : Type := mkRow {
  sd_TurnID : string;
  sd_Status : string;
  sd_StartedAt : Z;
  sd_CompletedAt : Z;
  sd_DurationMs : Z;
  sd_UserBrief : option TurnSummaryBrief;
  sd_AgentBrief : option TurnSummaryBrief;
  sd_AgentBriefHead : list Z;
  sd_Folded : bool;
  sd_FoldReason : string;
  sd_ToolProcessCount : Z;
  sd_ToolProcessBytes : Z;
  sd_LiveState : option TurnProjection;
  sd_TurnGeneration : Z
}.

Record ProjectionSummaryBudget : Type := mkSummaryBudget {
  sg_PayloadBytes : Z;
  sg_FoldedTurnIds : list string;
  sg_Exceptions : list string
}.

Definition summaryPartIsToolProcess (partType : string) : bool :=
  negb (bool_decide (partType ∈ ["text"; "permission_request"; "permission_resolved"; "user_input";
                                 "user_input_resolved"; "system"])).

(** The test on one part. *)
Definition part_always_visible (part : ProjectionPart) : bool :=
  pp_RequiresPermissionConfirmation part
  || bool_decide (pp_Type part = "permission_request")
  || (bool_decide (pp_Type part = "user_input")
      && (bool_decide (pp_UserInputStatus part = "") || bool_decide (pp_UserInputStatus part = "pending"))).

Definition message_parts (m : option MessageProjection) : list ProjectionPart :=
  match m with Some m => mp_Parts m | None => [] end.

Definition summaryTurnRequiresAlwaysVisible (turn : TurnProjection) : bool :=
  negb (bool_decide (tp_Status turn = "completed"))
  || existsb part_always_visible (message_parts (tp_Assistant turn) ++ message_parts (tp_User turn)).

(** A part with something to read. *)
Definition is_text (part : ProjectionPart) : bool :=
  bool_decide (pp_Type part = "text") && negb (bool_decide (pp_Text part = "")).

Definition text_parts (parts : list ProjectionPart) : list (list Z) :=
  map (fun part => bytes_of (pp_Text part)) (List.filter is_text parts).

Definition tool_parts (parts : list ProjectionPart) : list ProjectionPart :=
  List.filter (fun part => negb (is_text part) && summaryPartIsToolProcess (pp_Type part)) parts.

Section summary.
Context (marshal_part : ProjectionPart -> option N) (marshal_turn : TurnProjection -> option N).

Definition summary_duration (turn : TurnProjection) : Z :=
  if tp_CompletedAt turn =? 0 then 0
  else if negb (tp_StartedAt turn =? 0) then tp_CompletedAt turn - tp_StartedAt turn
  else tp_DurationMs turn.

(** The fold reason; a row that must be seen and has none is not folded. *)
Definition fold_reason (hasTool longBody : bool) : string :=
  if hasTool && longBody then "both"
  else if hasTool then "tool_process"
  else if longBody then "long_body" else "".

Definition truncated (brief : option TurnSummaryBrief) : bool :=
  match brief with Some b => sb_Truncated b | None => false end.

Definition summarizeTurn (turn : TurnProjection) : TurnSummaryDescriptor :=
  let live := if summaryTurnRequiresAlwaysVisible turn then Some turn else None in
  let userBrief :=
    match text_parts (message_parts (tp_User turn)) with
    | [] => None
    | text :: _ => briefFromText text summaryBriefMaxChars
    end in
  let texts := text_parts (message_parts (tp_Assistant turn)) in
  let tools := tool_parts (message_parts (tp_Assistant turn)) in
  let agentBrief := tail ← last texts; briefFromText tail summaryBriefMaxChars in
  let agentBriefHead :=
    match texts with [] => [] | head_ :: _ => brief_head head_ summaryBriefHeadChars end in
  let hasTool := bool_decide (tools <> []) in
  let longBody := truncated userBrief || truncated agentBrief in
  let reason := fold_reason hasTool longBody in
  let folded := hasTool || longBody in
  let folded := match live with Some _ => if bool_decide (reason = "") then false else folded | None => folded end in
  mkRow (tp_TurnID turn) (tp_Status turn) (tp_StartedAt turn) (tp_CompletedAt turn) (summary_duration turn)
    userBrief agentBrief agentBriefHead folded reason (zlen tools)
    (sum_with (fun part => match marshal_part part with Some n => Z.of_N n | None => 0 end) tools)
    live (tp_TurnGeneration turn).

Definition brief_bytes (brief : option TurnSummaryBrief) : Z :=
  match brief with Some b => zlen (sb_Text b) | None => 0 end.

Definition descriptorPayloadBytes (d : TurnSummaryDescriptor) : Z :=
  brief_bytes (sd_UserBrief d) + brief_bytes (sd_AgentBrief d) + zlen (sd_AgentBriefHead d).

(** ** The rows of a window *)

Inductive SummaryError : Type := SummaryOversized | SummaryEncode.

(** The first loop: the rows, and the turns shown whole. *)
Fixpoint summarize_rows (maxExceptionBytes : Z) (turns : list TurnProjection)
  : SummaryError + (list TurnSummaryDescriptor * list string) :=
  match turns with
  | [] => inr ([], [])
  | turn :: turns =>
      let row := summarizeTurn turn in
      match sd_LiveState row with
      | Some live =>
          match marshal_turn live with
          | None => inl SummaryEncode
          | Some encoded =>
              if (maxExceptionBytes >? 0) && (Z.of_N encoded >? maxExceptionBytes) then inl SummaryOversized
              else match summarize_rows maxExceptionBytes turns with
                   | inl e => inl e
                   | inr (rows, exceptions) => inr (row :: rows, sd_TurnID row :: exceptions)
                   end
          end
      | None =>
          match summarize_rows maxExceptionBytes turns with
          | inl e => inl e
          | inr (rows, exceptions) => inr (row :: rows, exceptions)
          end
      end
  end.

(** What is left of a row the budget gives up. *)
Definition fold_away (row : TurnSummaryDescriptor) : TurnSummaryDescriptor :=
  mkRow (sd_TurnID row) (sd_Status row) (sd_StartedAt row) (sd_CompletedAt row) (sd_DurationMs row)
    None None [] true "budget" (sd_ToolProcessCount row) (sd_ToolProcessBytes row) (sd_LiveState row)
    (sd_TurnGeneration row).

Fixpoint fold_to_budget (total : Z) (rows : list TurnSummaryDescriptor) : list TurnSummaryDescriptor :=
  match rows with
  | [] => []
  | row :: rows' =>
      if total >? summaryViewPayloadBudget then
        if bool_decide (is_Some (sd_LiveState row)) || bool_decide (sd_FoldReason row = "budget")
        then row :: fold_to_budget total rows'
        else fold_away row :: fold_to_budget (total - descriptorPayloadBytes row) rows'
      else rows
  end.

Definition summarizeWindowTurns (turns : list TurnProjection) (maxExceptionBytes : Z)
  : SummaryError + (list TurnSummaryDescriptor * ProjectionSummaryBudget) :=
  match summarize_rows maxExceptionBytes turns with
  | inl e => inl e
  | inr (rows, exceptions) =>
      let rows := fold_to_budget (sum_with descriptorPayloadBytes rows) rows in
      inr (rows,
           mkSummaryBudget
             (sum_with descriptorPayloadBytes
                (List.filter (fun row => negb (bool_decide (sd_FoldReason row = "budget"))) rows))
             (map sd_TurnID (List.filter sd_Folded rows)) exceptions)
  end.

Definition summarizeAnchorRows (turns : list TurnProjection) (maxExceptionBytes : Z)
  : SummaryError + list TurnSummaryDescriptor :=
  match summarizeWindowTurns turns maxExceptionBytes with
  | inl e => inl e
  | inr (rows, _) => inr rows
  end.
End summary.
