(* ===== verification/SummaryBudget.v ===== *)
(** * The rows of a summary: faithful beginnings within a budget *)

From S2P Require Import Prelude.
From S2P Require Import GoText.
From S2P Require Import Wire.
From S2P Require Import Projection.
From S2P Require Import DetailChunks.
From S2P Require Import WindowSummary.

(** ** Characters *)

Lemma rune_width_le s n : rune_width s = Some n -> (1 <= n <= 4)%nat /\ (n <= length s)%nat.
Proof.
  intros H. apply rune_width_inv in H as (r & s' & -> & Hr & <-).
  destruct (rune_head r Hr) as (b & l & -> & _ & _ & Hl). rewrite length_app. cbn in *. lia.
Qed.

Lemma runes_of_enough fuel s : (length s <= fuel)%nat -> runes_of fuel s = runes s.
Proof.
  unfold runes. revert s. induction fuel as [fuel IH] using lt_wf_ind. intros s Hs.
  destruct s as [|b s]; [by destruct fuel|]. destruct fuel as [|fuel]; cbn [length] in *; [lia|].
  cbn [runes_of]. destruct (rune_width (b :: s)) as [n|] eqn:Hw.
  - apply rune_width_le in Hw as [H1 H2]. f_equal.
    assert (length (drop n (b :: s)) <= length s)%nat as Hd by (rewrite length_drop; cbn [length] in *; lia).
    rewrite (IH fuel) by lia. symmetry. apply IH; lia.
  - f_equal. rewrite (IH fuel) by lia. done.
Qed.

Lemma runes_nil : runes [] = [].
Proof. done. Qed.

Lemma runes_some s n : rune_width s = Some n -> runes s = take n s :: runes (drop n s).
Proof.
  intros Hw. pose proof (rune_width_le _ _ Hw) as [H1 H2]. unfold runes at 1.
  destruct s as [|b s]; [done|]. cbn [length runes_of]. rewrite Hw. f_equal.
  apply runes_of_enough. rewrite length_drop. cbn [length] in *. lia.
Qed.

Lemma runes_none b s : rune_width (b :: s) = None -> runes (b :: s) = [239; 191; 189] :: runes s.
Proof. intros Hw. unfold runes at 1. cbn [length runes_of]. by rewrite Hw. Qed.

Lemma runes_cons r s : rune r -> runes (r ++ s) = r :: runes s.
Proof. intros Hr. rewrite (runes_some _ _ (rune_width_rune r s Hr)). by rewrite take_app_length, drop_app_length. Qed.

(** Induction on any text, by what is read of it. *)
Lemma runes_ind (P : list Z -> Prop) :
  P [] -> (forall s n, rune_width s = Some n -> P (drop n s) -> P s) ->
  (forall b s, rune_width (b :: s) = None -> P s -> P (b :: s)) -> forall s, P s.
Proof.
  intros Hnil Hsome Hnone s. remember (length s) as len eqn:Hlen. revert s Hlen.
  induction len as [len IH] using lt_wf_ind. intros s ->. destruct s as [|b s]; [done|].
  destruct (rune_width (b :: s)) as [n|] eqn:Hw.
  - apply (Hsome _ n Hw). pose proof (rune_width_le _ _ Hw) as [H1 H2].
    eapply IH; [|reflexivity]. rewrite length_drop. cbn [length] in *. lia.
  - apply (Hnone _ _ Hw). eapply IH; [|reflexivity]. cbn. lia.
Qed.

Lemma length_runes s : (length s <= 4 * length (runes s))%nat.
Proof.
  pattern s. apply runes_ind; clear s; [done| |].
  - intros s n Hw IH. rewrite (runes_some _ _ Hw). pose proof (rune_width_le _ _ Hw) as [H1 H2].
    rewrite length_drop in IH. cbn [length]. lia.
  - intros b s Hw IH. rewrite (runes_none _ _ Hw). cbn [length]. lia.
Qed.

Lemma runes_short s : Forall (fun r => (length r <= 4)%nat) (runes s).
Proof.
  pattern s. apply runes_ind; clear s; [constructor| |].
  - intros s n Hw IH. rewrite (runes_some _ _ Hw). constructor; [|done].
    pose proof (rune_width_le _ _ Hw). rewrite length_take. lia.
  - intros b s Hw IH. rewrite (runes_none _ _ Hw). constructor; [cbn; lia|done].
Qed.

Lemma length_concat_short (l : list (list Z)) :
  Forall (fun r => (length r <= 4)%nat) l -> (length (concat l) <= 4 * length l)%nat.
Proof. induction 1; [done|]. cbn [concat length]. rewrite length_app. lia. Qed.

(** A text in UTF-8 is the characters read of it, and so is every beginning. *)
Lemma runes_concat s : valid_utf8 s -> concat (runes s) = s /\ Forall rune (runes s).
Proof.
  intros Hs. pattern s. apply valid_runes; [by split| |done]. intros r s' Hr _ [IH1 IH2].
  rewrite (runes_cons _ _ Hr). cbn. rewrite IH1. split; [done|by constructor].
Qed.

Lemma runes_of_runes l : Forall rune l -> runes (concat l) = l.
Proof. induction 1 as [|r l Hr _ IH]; [done|]. cbn [concat]. by rewrite (runes_cons _ _ Hr), IH. Qed.

Lemma valid_of_runes l : Forall rune l -> valid_utf8 (concat l).
Proof. induction 1; cbn [concat]; [constructor|]. by apply valid_cons. Qed.

(** A brief of a text in UTF-8 is a beginning of it that ends between characters and
    is no longer than the limit; it is marked as cut exactly when something follows, and
    then it is as long as the limit allows. Only an empty text has none. *)
Theorem brief_is_beginning text maxChars :
  valid_utf8 text -> text <> [] ->
  exists b rest, briefFromText text maxChars = Some b /\ text = sb_Text b ++ rest /\ valid_utf8 (sb_Text b) /\
    (length (runes (sb_Text b)) <= maxChars)%nat /\
    if sb_Truncated b then rest <> [] /\ length (runes (sb_Text b)) = maxChars else rest = [].
Proof.
  intros Hv Hne. destruct (runes_concat text Hv) as [Hcat Hall]. unfold briefFromText.
  destruct text as [|c text]; [done|]. set (s := c :: text) in *. clearbody s.
  destruct (Nat.leb (length (runes s)) maxChars) eqn:Hle.
  - apply Nat.leb_le in Hle. exists (mkBrief s false), []. cbn. by rewrite app_nil_r.
  - apply Nat.leb_gt in Hle.
    exists (mkBrief (concat (take maxChars (runes s))) true), (concat (drop maxChars (runes s))).
    cbn [sb_Text sb_Truncated]. rewrite <- concat_app, take_drop.
    assert (Forall rune (take maxChars (runes s))) as Ht by by apply Forall_take.
    rewrite (runes_of_runes _ Ht), length_take. split_and!; [done|done|by apply valid_of_runes|lia| |lia].
    assert (Forall rune (drop maxChars (runes s))) as Hd by by apply Forall_drop.
    intros Hz. destruct (drop maxChars (runes s)) as [|r l] eqn:Hdrop.
    + apply (f_equal length) in Hdrop. rewrite length_drop in Hdrop. cbn in Hdrop. lia.
    + inversion Hd as [|? ? Hr _]; subst. destruct (rune_head r Hr) as (b & l' & -> & _). done.
Qed.

(** ** Rows *)

Lemma brief_bound text maxChars : brief_bytes (briefFromText text maxChars) <= 4 * Z.of_nat maxChars.
Proof.
  unfold briefFromText. destruct text as [|c text]; [cbn; lia|]. set (s := c :: text). clearbody s.
  destruct (Nat.leb (length (runes s)) maxChars) eqn:Hle; cbn [brief_bytes sb_Text].
  - apply Nat.leb_le in Hle. pose proof (length_runes s). change (zlen s) with (Z.of_nat (length s)). lia.
  - pose proof (length_concat_short _ (Forall_take _ maxChars _ (runes_short s))) as H. rewrite length_take in H.
    match goal with |- zlen ?l <= _ => change (zlen l) with (Z.of_nat (length l)) end. lia.
Qed.

Lemma head_bound text maxChars : zlen (brief_head text maxChars) <= 4 * Z.of_nat maxChars.
Proof.
  match goal with |- zlen ?l <= _ => change (zlen l) with (Z.of_nat (length l)) end. unfold brief_head.
  destruct (Nat.ltb maxChars (length (runes text))) eqn:Hlt.
  - pose proof (length_concat_short _ (Forall_take _ maxChars _ (runes_short text))) as H. rewrite length_take in H. lia.
  - apply Nat.ltb_ge in Hlt. pose proof (length_runes text). lia.
Qed.

(** A row that carries its turn. *)
Definition seen (row : TurnSummaryDescriptor) : bool := bool_decide (is_Some (sd_LiveState row)).

Section rows.
Context (marshal_part : ProjectionPart -> option N) (marshal_turn : TurnProjection -> option N).

(** Whatever a turn says, its row carries at most 9216 bytes of text: below the
    10 KiB by which the window counts a row. *)
Theorem row_payload_bounded turn :
  0 <= descriptorPayloadBytes (summarizeTurn marshal_part turn) <= 9216.
Proof.
  unfold descriptorPayloadBytes, summarizeTurn. cbv zeta. cbn [sd_UserBrief sd_AgentBrief sd_AgentBriefHead].
  assert (forall l : list Z, 0 <= zlen l) as Hz by (intros l; apply Nat2Z.is_nonneg).
  assert (forall b, 0 <= brief_bytes b) as Hnn by (intros [b|]; [apply Hz|done]).
  match goal with |- 0 <= brief_bytes ?u + brief_bytes ?a + zlen ?h <= _ =>
    assert (brief_bytes u <= 4096) as Hu; [|assert (brief_bytes a <= 4096) as Ha; [|assert (zlen h <= 1024) as Hh; [|
      pose proof (Hnn u); pose proof (Hnn a); pose proof (Hz h); lia]]] end.
  - destruct (text_parts (message_parts (tp_User turn))) as [|text ?]; [cbn; lia|]. apply (brief_bound text summaryBriefMaxChars).
  - destruct (last _) as [text|]; [|cbn; lia]. apply (brief_bound text summaryBriefMaxChars).
  - destruct (text_parts (message_parts (tp_Assistant turn))) as [|text ?]; [cbn; lia|]. apply (head_bound text summaryBriefHeadChars).
Qed.

Abbreviation row_of := (summarizeTurn marshal_part).

Lemma row_reason turn : sd_FoldReason (row_of turn) <> "budget".
Proof. cbn. unfold fold_reason. by repeat case_if. Qed.

Lemma fold_away_payload row : descriptorPayloadBytes (fold_away row) = 0.
Proof. done. Qed.

(** The first [n] rows given up, but for those that must be seen. *)
Definition rows_after (n : nat) (raw : list TurnSummaryDescriptor) : list TurnSummaryDescriptor :=
  map (fun row => if seen row then row else fold_away row) (take n raw) ++ drop n raw.

Definition payload (rows : list TurnSummaryDescriptor) : Z := sum_with descriptorPayloadBytes rows.

Lemma fold_spec c raw :
  Forall (fun row => sd_FoldReason row <> "budget") raw ->
  exists n, fold_to_budget (c + payload raw) raw = rows_after n raw /\ (n <= length raw)%nat /\
    (forall k, (k < n)%nat -> summaryViewPayloadBudget < c + payload (rows_after k raw)) /\
    (c + payload (rows_after n raw) <= summaryViewPayloadBudget \/ n = length raw).
Proof.
  revert c. induction raw as [|row raw IH]; intros c Hr.
  { exists 0%nat. cbn. split_and!; [done|lia|lia|by right]. }
  inversion Hr as [|? ? Hrow Hr']; subst. cbn [fold_to_budget].
  destruct (c + payload (row :: raw) >? summaryViewPayloadBudget) eqn:Hb.
  2: { zprop. exists 0%nat. split_and!; [done|cbn; lia|lia|left; change (rows_after 0 (row :: raw)) with (row :: raw); lia]. }
  rewrite (bool_decide_false (sd_FoldReason row = "budget")) by done. rewrite orb_false_r.
  set (kept := if seen row then row else fold_away row).
  destruct (IH (c + descriptorPayloadBytes kept) Hr') as (n & Hn & Hle & Hmin & Hend).
  exists (S n).
  assert (forall k, rows_after (S k) (row :: raw) = kept :: rows_after k raw) as Hcons by done.
  assert (forall k, c + payload (rows_after (S k) (row :: raw)) =
    c + descriptorPayloadBytes kept + payload (rows_after k raw)) as Hsum.
  { intros k. rewrite Hcons. unfold payload. cbn [sum_with]. lia. }
  split_and!; [|cbn; lia| |].
  - rewrite Hcons, <- Hn. unfold kept, payload. cbn [sum_with]. rewrite Z.add_assoc.
    fold (seen row). destruct (seen row); [done|]. rewrite fold_away_payload, Z.add_0_r.
    by replace (c + descriptorPayloadBytes row + sum_with descriptorPayloadBytes raw - descriptorPayloadBytes row)
      with (c + sum_with descriptorPayloadBytes raw) by lia.
  - intros [|k] Hk; [change (rows_after 0 (row :: raw)) with (row :: raw); zprop; lia|]. rewrite Hsum. apply Hmin. lia.
  - rewrite Hsum. destruct Hend as [Hend|Hend]; [by left|right]. cbn. lia.
Qed.

Lemma summarize_rows_inr maxBytes turns rows exceptions :
  summarize_rows marshal_part marshal_turn maxBytes turns = inr (rows, exceptions) ->
  rows = map row_of turns /\ exceptions = map sd_TurnID (List.filter seen rows) /\
  Forall (fun turn => summaryTurnRequiresAlwaysVisible turn = true ->
            exists n, marshal_turn turn = Some n /\ (maxBytes <= 0 \/ Z.of_N n <= maxBytes)) turns.
Proof.
  revert rows exceptions. induction turns as [|turn turns IH]; intros rows exceptions; cbn [summarize_rows].
  { intros [= <- <-]. by split_and!. }
  assert (sd_LiveState (row_of turn) = if summaryTurnRequiresAlwaysVisible turn then Some turn else None) as Hlive by done.
  rewrite Hlive. destruct (summaryTurnRequiresAlwaysVisible turn) eqn:Hv.
  - destruct (marshal_turn turn) as [n|] eqn:Hm; [|done]. destruct (_ && _)%bool eqn:Hbig; [done|].
    destruct (summarize_rows _ _ _ turns) as [e|[rows' exc']]; [done|]. intros [= <- <-].
    destruct (IH _ _ eq_refl) as (-> & -> & Hall). cbn [map List.filter]. unfold seen at 2. rewrite Hlive. cbn [map].
    split_and!; [done|done|]. constructor; [|done]. intros _. exists n. split; [done|].
    apply andb_false_iff in Hbig as [H|H]; zprop; lia.
  - destruct (summarize_rows _ _ _ turns) as [e|[rows' exc']]; [done|]. intros [= <- <-].
    destruct (IH _ _ eq_refl) as (-> & -> & Hall). cbn [map List.filter]. unfold seen at 2. rewrite Hlive.
    assert (bool_decide (is_Some (@None TurnProjection)) = false) as -> by (apply bool_decide_eq_false_2, is_Some_None).
    split; [done|]. split; [done|]. constructor; [congruence|done].
Qed.

Lemma rows_after_payload_kept n raw :
  Forall (fun row => sd_FoldReason row <> "budget") raw ->
  sum_with descriptorPayloadBytes
    (List.filter (fun row => negb (bool_decide (sd_FoldReason row = "budget"))) (rows_after n raw)) =
  payload (rows_after n raw).
Proof.
  intros Hr. unfold payload, rows_after. rewrite List.filter_app, !sum_with_app. f_equal.
  - pose proof (Forall_take _ n _ Hr) as Ht. induction Ht as [|row rows Hrow _ IH]; [done|].
    cbn [map List.filter]. destruct (seen row).
    + rewrite bool_decide_false by done. cbn [negb sum_with]. by rewrite IH.
    + rewrite bool_decide_true by done. cbn [negb sum_with]. by rewrite IH, fold_away_payload.
  - pose proof (Forall_drop _ n _ Hr) as Hd. induction Hd as [|row rows Hrow _ IH]; [done|].
    cbn [List.filter]. rewrite bool_decide_false by done. cbn [negb sum_with]. by rewrite IH.
Qed.

Lemma fold_away_seen row : seen (fold_away row) = seen row.
Proof. done. Qed.

Lemma rows_after_seen n raw :
  map sd_TurnID (List.filter seen (rows_after n raw)) = map sd_TurnID (List.filter seen raw).
Proof.
  rewrite <- (take_drop n raw) at 2. unfold rows_after. rewrite !List.filter_app, !map_app. f_equal.
  generalize (take n raw). induction l as [|row rows IH]; [done|]. cbn [map List.filter].
  destruct (seen row) eqn:Hs; [|by rewrite fold_away_seen, Hs].
  rewrite Hs. cbn [map]. by rewrite IH.
Qed.

(** What a row says of its turn outlives the budget. *)
Lemma rows_after_turns n turns :
  (forall turn, sd_TurnID (row_of turn) = tp_TurnID turn /\
     sd_LiveState (row_of turn) = if summaryTurnRequiresAlwaysVisible turn then Some turn else None) ->
  Forall2 (fun turn row => sd_TurnID row = tp_TurnID turn /\
    sd_LiveState row = if summaryTurnRequiresAlwaysVisible turn then Some turn else None)
    turns (rows_after n (map row_of turns)).
Proof.
  intros Hrow. unfold rows_after. rewrite <- (take_drop n turns) at 1. rewrite firstn_map, skipn_map.
  apply Forall2_app; rewrite ?map_map.
  - apply Forall2_fmap_r, Forall_Forall2_diag, Forall_forall. intros turn _. unfold compose.
    destruct (seen (row_of turn)); exact (Hrow turn).
  - apply Forall2_fmap_r, Forall_Forall2_diag, Forall_forall. intros turn _. exact (Hrow turn).
Qed.

(** C33. A summarized window has a row per turn, in order. The budget gives up whole rows,
    the oldest first, no more of them than needed, and never one that must be seen; no
    brief is shortened for it. What is reported is what the rows carry: it is within the
    budget, or only rows that must be seen have text left. A turn that must be seen is in
    its row as it is, within the limit, and reported. *)
Theorem summary_within_budget maxBytes turns rows budget :
  summarizeWindowTurns marshal_part marshal_turn turns maxBytes = inr (rows, budget) ->
  let raw := map row_of turns in
  (exists n, rows = rows_after n raw /\ (n <= length raw)%nat /\
     forall k, (k < n)%nat -> summaryViewPayloadBudget < payload (rows_after k raw)) /\
  sg_PayloadBytes budget = payload rows /\
  (payload rows <= summaryViewPayloadBudget \/
   Forall (fun row => is_Some (sd_LiveState row) \/ descriptorPayloadBytes row = 0) rows) /\
  sg_Exceptions budget = map sd_TurnID (List.filter seen rows) /\
  Forall2 (fun turn row => sd_TurnID row = tp_TurnID turn /\
             sd_LiveState row = if summaryTurnRequiresAlwaysVisible turn then Some turn else None) turns rows /\
  Forall (fun turn => summaryTurnRequiresAlwaysVisible turn = true ->
            exists n, marshal_turn turn = Some n /\ (maxBytes <= 0 \/ Z.of_N n <= maxBytes)) turns.
Proof.
  unfold summarizeWindowTurns. destruct (summarize_rows _ _ _ _) as [e|[raw exceptions]] eqn:Hrows; [done|].
  apply summarize_rows_inr in Hrows as (-> & -> & Hall). cbv zeta.
  assert (Forall (fun row => sd_FoldReason row <> "budget") (map row_of turns)) as Hr.
  { apply Forall_map, Forall_forall. intros turn _. apply row_reason. }
  destruct (fold_spec 0 _ Hr) as (n & Hn & Hle & Hmin & Hend). rewrite !Z.add_0_l in *. unfold payload in Hn at 1.
  rewrite Hn. intros [= <- <-]. cbn [sg_PayloadBytes sg_Exceptions]. rewrite rows_after_payload_kept by done.
  split_and!; [by exists n|done| | | |done].
  - destruct Hend as [|Hend]; [by left|right]. unfold rows_after. rewrite Hend, take_ge, drop_ge, app_nil_r by done.
    apply Forall_map, Forall_forall. intros row _. cbn beta. destruct (seen row) eqn:Hs.
    + left. by apply bool_decide_eq_true_1 in Hs.
    + by right.
  - by rewrite rows_after_seen.
  - apply rows_after_turns. intros turn. by split.
Qed.
End rows.

(** ** At concrete windows *)

Lemma brief_is_beginning_witness :
  valid_utf8 [104; 195; 169; 108] /\
  exists b rest, briefFromText [104; 195; 169; 108] 2 = Some b /\ [104; 195; 169; 108] = sb_Text b ++ rest /\
    sb_Truncated b = true.
Proof.
  assert (valid_utf8 [104; 195; 169; 108]) as Hv.
  { apply (valid_of_runes [[104]; [195; 169]; [108]]). by repeat constructor. }
  split; [exact Hv|]. destruct (brief_is_beginning [104; 195; 169; 108] 2 Hv ltac:(discriminate))
    as (b & rest & Hb & Ht & _). exists b, rest. split; [exact Hb|]. split; [exact Ht|].
  vm_compute in Hb. injection Hb as <-. reflexivity.
Defined.

Definition wit_row_turn (id status : string) : TurnProjection :=
  mkTurnProjection id status 0 0 0 None None None "" "" false 0 None 0 0 0 VNil.

Lemma summary_within_budget_witness :
  exists rows budget,
    summarizeWindowTurns (fun _ => Some 1%N) (fun _ => Some 100%N)
      [wit_row_turn "t1" "completed"; wit_row_turn "t2" "running"] 4096 = inr (rows, budget) /\
    sg_PayloadBytes budget = payload rows.
Proof.
  do 2 eexists. split; [vm_compute; reflexivity|].
  exact (proj1 (proj2 (summary_within_budget (fun _ => Some 1%N) (fun _ => Some 100%N) 4096
    [wit_row_turn "t1" "completed"; wit_row_turn "t2" "running"] _ _ ltac:(vm_compute; reflexivity)))).
Defined.
