(* ===== verification/WindowHandlers.v ===== *)
(** * The handlers that answer with windows (projection_window_handler.go,
    projection_window_v2_handler.go, projection_anchor_newer_handler.go)

    A request is checked, the session is subscribed to and hydrated, and one committed
    snapshot is admitted under a fence, cut, and answered through the fence, which
    releases the patches held meanwhile. Subscription, the relay and hydration are an
    argument, as is the fetch of older history; so are the JSON values of the answers.
    Messages of errors are left out. *)

From S2P Require Import Prelude.
From S2P Require Import Wire.
From S2P Require Import Projection.
From S2P Require Import Publisher.
From S2P Require Import Broadcaster.
From S2P Require Import Windows.
From S2P Require Import AnchorNewer.
From S2P Require Import WindowSummary.

Record WireError : Type := mkWireError {
  we_Code : string;
  we_Retryable : option bool
}.

#[export] Instance WireError_eq_dec : EqDecision WireError.
Proof. solve_decision. Defined.

(** What ends a request: an answer sent on the connection, or one put in the ordered
    queue of the publisher, with the outcome of putting it. *)
Inductive reply : Type :=
| SendResult (e : WireError)
| Completed (failure : option SnapshotError).

(** ** Before the kernel is asked *)

Section gates.
Context {Wire : Type} (unmarshal_cursor : Wire -> option projectionWindowCursor).

Definition known_direction (d : string) : bool :=
  bool_decide (d ∈ [directionWindow0; directionOlder; directionNewer; directionLatest; directionLocate]).

Definition scope_error (e : WindowError) : WireError :=
  match e with
  | CursorStale => mkWireError "cursor_stale" (Some true)
  | _ => mkWireError "projection_window.cursor_scope_mismatch" (Some false)
  end.

(** The cursor of an older or newer request. *)
Definition cursor_gate (backendID bridgeEpoch : string)
  (params : GetSessionProjectionWindowParams (Wire := Wire)) : option WireError :=
  if bool_decide (wp_Direction params = directionOlder) || bool_decide (wp_Direction params = directionNewer) then
    match decodeProjectionWindowCursor unmarshal_cursor (wp_Cursor params) with
    | inl _ => Some (mkWireError "cursor_stale" (Some true))
    | inr cursor =>
        scope_error <$> validateProjectionWindowCursorScope cursor backendID (wp_SessionID params) bridgeEpoch
    end
  else None.

Definition request_gates (backendID bridgeEpoch : string)
  (params : GetSessionProjectionWindowParams (Wire := Wire)) : option WireError :=
  if negb (known_direction (wp_Direction params)) then Some (mkWireError "invalid_params" None)
  else if wp_Limit params >? maxWindowTurns
  then Some (mkWireError "projection_window.limit_exceeded" (Some false))
  else cursor_gate backendID bridgeEpoch params.

Definition window_gates (capable : bool) (backendID bridgeEpoch : string)
  (params : GetSessionProjectionWindowParams (Wire := Wire)) : option WireError :=
  if negb capable then Some (mkWireError "protocol.capability_required" (Some false))
  else request_gates backendID bridgeEpoch params.

Definition is_claude (backendID : string) : bool :=
  bool_decide (backendID = "claude") || bool_decide (backendID = "claudecode").

Definition window_v2_gates (capable : bool) (backendID bridgeEpoch itemsView : string)
  (params : GetSessionProjectionWindowParams (Wire := Wire)) : option WireError :=
  if negb capable then Some (mkWireError "protocol.capability_required" (Some false))
  else if negb (is_claude backendID) then Some (mkWireError "invalid_params" (Some false))
  else if negb (bool_decide (itemsView = "summary") || bool_decide (itemsView = "full"))
  then Some (mkWireError "invalid_params" None)
  else request_gates backendID bridgeEpoch params.
End gates.

Definition anchor_gates (capable : bool) (params : AnchorNewerParams) : option WireError :=
  if negb capable then Some (mkWireError "protocol.capability_required" (Some false))
  else if bool_decide (an_AnchorTurnID params = "") then Some (mkWireError "invalid_params" None)
  else if Z.of_nat (size (an_BaseDigests params)) >? anchorNewerMaxDigestEntries
  then Some (mkWireError "invalid_params" (Some false))
  else if an_Limit params >? maxWindowTurns
  then Some (mkWireError "projection_window.limit_exceeded" (Some false))
  else None.

(** The errors of hydration the handlers tell apart. *)
Inductive HydrateError : Type := Hydrating | BackendNotMigrated | SessionNotFound | HydrateOther.

Definition hydrate_refusal (e : HydrateError) : WireError :=
  match e with
  | Hydrating => mkWireError "projection.hydrating" (Some true)
  | BackendNotMigrated => mkWireError "projection.not_migrated" (Some false)
  | SessionNotFound => mkWireError "projection.not_found" (Some false)
  | HydrateOther => mkWireError "projection.hydrate_failed" (Some false)
  end.

Inductive OlderError : Type := UpstreamCursorStale | OlderOther.

Definition older_refusal (e : OlderError) : WireError :=
  match e with
  | UpstreamCursorStale => mkWireError "cursor_stale" (Some true)
  | OlderOther => mkWireError "projection.hydrate_failed" None
  end.

(** ** The answers *)

Definition slice_error (e : WindowError) : WireError :=
  match e with
  | ScopeMismatch => mkWireError "projection_window.cursor_scope_mismatch" (Some false)
  | CursorStale => mkWireError "cursor_stale" (Some true)
  | LocateOut => mkWireError "projection_window.locate_out_of_window" (Some false)
  | UnknownDirection | EncodeError => mkWireError "rpc.error" (Some false)
  end.

Definition reconcile_error (e : AnchorError) : WireError :=
  match e with
  | AnchorStale | AnchorCursor => mkWireError "cursor_stale" (Some true)
  | AnchorOversized => mkWireError "reconciliation.oversized" (Some false)
  | AnchorEncode | AnchorHardCap => mkWireError "rpc.error" (Some false)
  end.

Definition summary_error (e : SummaryError) : WireError :=
  match e with
  | SummaryOversized => mkWireError "summary.oversized" (Some false)
  | SummaryEncode => mkWireError "rpc.error" (Some false)
  end.

Section answers.
Context {K : Type} `{!ProjectionHead K}.
Context {Wire : Type} (encode_cursor : projectionWindowCursor -> Wire)
  (unmarshal_cursor : Wire -> option projectionWindowCursor).
Context (encode_anchor : anchorNewerCursorState -> string)
  (unmarshal_anchor : string -> option anchorNewerCursorState).
Context {Bytes : Type} (marshal_turn : TurnProjection -> option Bytes) (len : Bytes -> N)
  (sha256 : Bytes -> list Z) (marshal_part : ProjectionPart -> option N).

Abbreviation turn_size := (turn_size marshal_turn len).

(** [ProjectionWindowV2SummaryResponse], [ProjectionWindowV2FullResponse] and
    [anchorNewerSummaryWire]. *)
Record ProjectionWindowV2SummaryResponse : Type := mkV2Summary {
  v2_Window : ProjectionWindowDescriptor (Wire := Wire);
  v2_Turns : list TurnSummaryDescriptor;
  v2_ScalarState : AnchorNewerScalarState;
  v2_SyncRev : Z;
  v2_SummaryBudget : ProjectionSummaryBudget
}.

Record ProjectionWindowV2FullResponse : Type := mkV2Full {
  v2f_Window : ProjectionWindowDescriptor (Wire := Wire);
  v2f_Turns : list TurnProjection;
  v2f_ScalarState : AnchorNewerScalarState;
  v2f_SyncRev : Z
}.

Record anchorNewerSummaryWire : Type := mkAnchorSummary {
  as_Turns : list TurnSummaryDescriptor;
  as_AnchorRefresh : option TurnSummaryDescriptor;
  as_ChangedTurns : list TurnSummaryDescriptor;
  as_Full : AnchorNewerResult
}.

(** What is sent, before it is JSON. *)
Inductive payload : Type :=
| WindowPayload (r : ProjectionWindowResponse (Wire := Wire))
| SummaryPayload (r : ProjectionWindowV2SummaryResponse)
| FullPayload (r : ProjectionWindowV2FullResponse)
| AnchorPayload (r : AnchorNewerResult)
| AnchorSummaryPayload (r : anchorNewerSummaryWire).

Context (json : payload -> value) (json_error : WireError -> value).

Definition complete (conn : Connection) (adm : ProjectionSnapshotAdmission) (requestID : string)
  (data : payload) (held : list string) (p : EventPublisher (K := K)) : reply * EventPublisher (K := K) :=
  let '(failure, p) := CompleteProjectionSnapshotWithHeldTurns conn adm requestID (json data) held p in
  (Completed failure, p).

Definition complete_error (conn : Connection) (adm : ProjectionSnapshotAdmission) (requestID : string)
  (e : WireError) (p : EventPublisher (K := K)) : reply * EventPublisher (K := K) :=
  let '(failure, p) := CompleteProjectionSnapshotError conn adm requestID (json_error e) p in
  (Completed failure, p).

Definition not_ready : WireError := mkWireError "projection.not_ready" None.

(** From the snapshot on; the counter of window generations is threaded. *)
Definition answer_window (conn : Connection) (backendID bridgeEpoch requestID : string)
  (params : GetSessionProjectionWindowParams (Wire := Wire)) (hasOlderUpstream : bool)
  (p : EventPublisher (K := K)) (generation : Z) : reply * EventPublisher (K := K) * Z :=
  match BeginProjectionSnapshot conn backendID (wp_SessionID params) p with
  | (inl _, p) => (SendResult not_ready, p, generation)
  | (inr (proj, adm), p) =>
      let '(sliced, generation) :=
        sliceProjectionWindowWithUpstream encode_cursor unmarshal_cursor turn_size backendID
          (wp_SessionID params) bridgeEpoch proj params hasOlderUpstream generation in
      (match sliced with
       | inl e => complete_error conn adm requestID (slice_error e) p
       | inr response =>
           complete conn adm requestID (WindowPayload response) (map tp_TurnID (wr_Turns response)) p
       end, generation)
  end.

Definition summary_row_size : Z := 10 * 1024.

Definition answer_window_v2 (conn : Connection) (backendID bridgeEpoch requestID itemsView : string)
  (params : GetSessionProjectionWindowParams (Wire := Wire)) (hasOlderUpstream : bool)
  (p : EventPublisher (K := K)) (generation : Z) : reply * EventPublisher (K := K) * Z :=
  match BeginProjectionSnapshot conn backendID (wp_SessionID params) p with
  | (inl _, p) => (SendResult not_ready, p, generation)
  | (inr (proj, adm), p) =>
      let summarySizes :=
        if bool_decide (itemsView = "summary") then Some (map (fun _ => summary_row_size) (sp_Turns proj))
        else None in
      let '(sliced, generation) :=
        sliceProjectionWindowWithBudget encode_cursor unmarshal_cursor turn_size backendID
          (wp_SessionID params) bridgeEpoch proj params hasOlderUpstream summarySizes generation in
      (match sliced with
       | inl e => complete_error conn adm requestID (slice_error e) p
       | inr response =>
           let held := map tp_TurnID (wr_Turns response) in
           if bool_decide (itemsView = "full") then
             complete conn adm requestID
               (FullPayload (mkV2Full (wr_Window response) (wr_Turns response) (scalar_state proj)
                               (wr_SyncRev response))) held p
           else
             match summarizeWindowTurns marshal_part turn_size (wr_Turns response) (ProjectionMaxBytes conn p) with
             | inl e => complete_error conn adm requestID (summary_error e) p
             | inr (rows, budget) =>
                 complete conn adm requestID
                   (SummaryPayload (mkV2Summary (wr_Window response) rows (scalar_state proj)
                                      (wr_SyncRev response) budget)) held p
             end
       end, generation)
  end.

(** The rows in place of the turns of a page. *)
Definition summarize_page (maxExceptionBytes : Z) (result : AnchorNewerResult)
  : SummaryError + anchorNewerSummaryWire :=
  match summarizeAnchorRows marshal_part turn_size (ar_Turns result) maxExceptionBytes with
  | inl e => inl e
  | inr turns =>
      match summarizeAnchorRows marshal_part turn_size (ar_ChangedTurns result) maxExceptionBytes with
      | inl e => inl e
      | inr changed =>
          match ar_AnchorRefresh result with
          | None => inr (mkAnchorSummary turns None changed result)
          | Some refresh =>
              match summarizeAnchorRows marshal_part turn_size [refresh] maxExceptionBytes with
              | inl e => inl e
              | inr rows => inr (mkAnchorSummary turns (match rows with [row] => Some row | _ => None end) changed result)
              end
          end
      end
  end.

(** The turns of a page the connection is recorded to hold. *)
Definition page_held (result : AnchorNewerResult) : list string :=
  map tp_TurnID (ar_Turns result) ++ map tp_TurnID (ar_ChangedTurns result)
    ++ map tp_TurnID (option_list (ar_AnchorRefresh result)).

Definition answer_anchor_newer (conn : Connection) (backendID requestID : string) (params : AnchorNewerParams)
  (p : EventPublisher (K := K)) : reply * EventPublisher (K := K) :=
  match BeginProjectionSnapshot conn backendID (an_SessionID params) p with
  | (inl _, p) => (SendResult not_ready, p)
  | (inr (proj, adm), p) =>
      if bool_decide (an_ItemsView params = "summary") && negb (is_claude backendID)
      then (SendResult (mkWireError "invalid_params" (Some false)), p)
      else if negb (bool_decide (an_ItemsView params = "")) && negb (bool_decide (an_ItemsView params = "summary"))
      then (SendResult (mkWireError "invalid_params" None), p)
      else
        match sliceAnchorNewerReconciliation encode_anchor unmarshal_anchor marshal_turn len sha256 proj params with
        | inl e => complete_error conn adm requestID (reconcile_error e) p
        | inr result =>
            if bool_decide (an_ItemsView params = "summary") then
              match summarize_page (ProjectionMaxBytes conn p) result with
              | inl e => complete_error conn adm requestID (summary_error e) p
              | inr wire => complete conn adm requestID (AnchorSummaryPayload wire) (page_held result) p
              end
            else complete conn adm requestID (AnchorPayload result) (page_held result) p
        end
  end.

(** ** The handlers

    [prepare] subscribes the connection, starts the relay and hydrates the session;
    [older_fact] and [hydrate_older] are [producerHasOlderUpstreamFact] and
    [hydrateOlderFromUpstream]. The session id of the request is already resolved. *)
Context (prepare : EventPublisher (K := K) -> option HydrateError * EventPublisher (K := K))
  (older_fact : EventPublisher (K := K) -> bool)
  (hydrate_older : EventPublisher (K := K) -> (OlderError + bool) * EventPublisher (K := K)).

(** [hasOlderUpstream], or the error of the fetch. *)
Definition older_upstream (direction : string) (p : EventPublisher (K := K))
  : (OlderError + bool) * EventPublisher (K := K) :=
  if bool_decide (direction = directionOlder) then hydrate_older p else (inr (older_fact p), p).

(** Between the gates and the snapshot. *)
Definition window_prepared (conn : Connection) (backendID sessionID direction : string)
  (p : EventPublisher (K := K)) : (WireError + bool) * EventPublisher (K := K) :=
  match prepare p with
  | (Some e, p) => (inl (hydrate_refusal e), p)
  | (None, p) =>
      let p := SetConnProjectionDeliveryMode conn backendID sessionID ProjectionDeliveryWindow p in
      match older_upstream direction p with
      | (inl e, p) => (inl (older_refusal e), p)
      | (inr hasOlderUpstream, p) => (inr hasOlderUpstream, p)
      end
  end.

Definition handleGetSessionProjectionWindow (conn : Connection) (backendID requestID : string)
  (params : GetSessionProjectionWindowParams (Wire := Wire)) (p : EventPublisher (K := K)) (generation : Z)
  : reply * EventPublisher (K := K) * Z :=
  let bridgeEpoch := BridgeEpoch_of p in
  match window_gates unmarshal_cursor (ConnProjectionWindowV1 conn p) backendID bridgeEpoch params with
  | Some e => (SendResult e, p, generation)
  | None =>
      match window_prepared conn backendID (wp_SessionID params) (wp_Direction params) p with
      | (inl e, p) => (SendResult e, p, generation)
      | (inr hasOlderUpstream, p) =>
          answer_window conn backendID bridgeEpoch requestID params hasOlderUpstream p generation
      end
  end.

Definition handleGetSessionProjectionWindowV2 (conn : Connection) (backendID requestID itemsView : string)
  (params : GetSessionProjectionWindowParams (Wire := Wire)) (p : EventPublisher (K := K)) (generation : Z)
  : reply * EventPublisher (K := K) * Z :=
  let bridgeEpoch := BridgeEpoch_of p in
  match window_v2_gates unmarshal_cursor (ConnProjectionWindowV2 conn p) backendID bridgeEpoch itemsView params with
  | Some e => (SendResult e, p, generation)
  | None =>
      match window_prepared conn backendID (wp_SessionID params) (wp_Direction params) p with
      | (inl e, p) => (SendResult e, p, generation)
      | (inr hasOlderUpstream, p) =>
          answer_window_v2 conn backendID bridgeEpoch requestID itemsView params hasOlderUpstream p generation
      end
  end.

Definition handleGetSessionProjectionAnchorNewer (conn : Connection) (backendID requestID : string)
  (params : AnchorNewerParams) (p : EventPublisher (K := K)) : reply * EventPublisher (K := K) :=
  match anchor_gates (ConnAnchorNewerV1 conn p) params with
  | Some e => (SendResult e, p)
  | None =>
      match prepare p with
      | (Some e, p) => (SendResult (hydrate_refusal e), p)
      | (None, p) =>
          answer_anchor_newer conn backendID requestID params
            (SetConnProjectionDeliveryMode conn backendID (an_SessionID params) ProjectionDeliveryWindow p)
      end
  end.
End answers.
