(* ===== verification/AnchorWalk.v ===== *)
(** * Reconciliation converges

    Every page is within its budgets, so the final check of its size never fails; a
    page with nothing left to ask for leaves the client in agreement with the committed
    session; and a client that asks again as the protocol says gets there, within the cap
    of what it may review, unless a turn after its anchor exceeds the quota: then no page
    is ever the last. *)

From S2P Require Import Prelude.
From S2P Require Import Wire.
From S2P Require Import Projection.
From S2P Require Import Windows.
From S2P Require Import WindowWalk.
From S2P Require Import AnchorNewer.
From S2P Require Import WindowHandlers.

(** ** Sorting and lookups *)

#[local] Instance string_le_total : Total string_le.
Proof.
  intros a b. unfold string_le. destruct (String.leb a b) eqn:E; [by left|right].
  unfold String.leb in *. rewrite String.compare_antisym. by destruct (String.compare a b).
Qed.

Lemma sort_strings_perm l : sort_strings l ≡ₚ l.
Proof. apply merge_sort_Permutation. Qed.

Lemma elem_of_sort id l : id ∈ sort_strings l <-> id ∈ l.
Proof. by rewrite sort_strings_perm. Qed.

Lemma elem_of_digests (P : string * option string -> Prop) `{!forall x, Decision (P x)}
  (m : gmap string (option string)) id :
  id ∈ map fst (filter P (map_to_list m)) <-> exists d, m !! id = Some d /\ P (id, d).
Proof.
  rewrite list_elem_of_fmap. split.
  - intros ([id' d] & -> & [HP Hin]%list_elem_of_filter). apply elem_of_map_to_list in Hin. by exists d.
  - intros (d & Hm & HP). exists (id, d). split; [done|]. apply list_elem_of_filter.
    split; [done|]. by apply elem_of_map_to_list.
Qed.

Lemma NoDup_digests (P : string * option string -> Prop) `{!forall x, Decision (P x)}
  (m : gmap string (option string)) : NoDup (map fst (filter P (map_to_list m))).
Proof.
  pose proof (NoDup_fst_map_to_list m) as Hnd. revert Hnd.
  generalize (map_to_list m). intros l. change (map fst (filter P l)) with ((filter P l).*1).
  induction l as [|kd l IH]; intros Hnd; [constructor|]. inversion Hnd as [|? ? Hn Hnd']; subst.
  destruct (decide (P kd)).
  - rewrite filter_cons_True by done. cbn. constructor; [|by apply IH].
    intros (x & Hx & [_ Hin]%list_elem_of_filter)%list_elem_of_fmap. apply Hn.
    apply list_elem_of_fmap. by exists x.
  - rewrite filter_cons_False by done. by apply IH.
Qed.

(** Where a turn is, when identities are distinct. *)
Lemma index_at turns i id :
  NoDup (map tp_TurnID turns) -> map tp_TurnID turns !! i = Some id -> indexOfTurn turns id = Some i.
Proof.
  intros Hnd Hi. pose proof (take_drop_middle _ _ _ Hi) as Hsplit.
  assert (length (take i (map tp_TurnID turns)) = i) as Hlen.
  { rewrite length_take. apply lookup_lt_Some in Hi. lia. }
  rewrite <- Hlen at 1. eapply indexOfTurn_first; [by symmetry|].
  rewrite <- Hsplit in Hnd. apply NoDup_app in Hnd as (_ & Hd & _). intros Hin. apply (Hd _ Hin). set_solver.
Qed.

Lemma index_in turns id : id ∈ map tp_TurnID turns -> is_Some (indexOfTurn turns id).
Proof.
  unfold indexOfTurn. generalize 0%nat. induction turns as [|t turns IH]; intros k Hin; [by apply elem_of_nil in Hin|].
  cbn [indexOfTurn_from]. case_bool_decide as H; [done|]. apply IH. cbn in Hin. set_solver.
Qed.

(** The turn found under its identity is this one. *)
Definition stands_in (turns : list TurnProjection) (t : TurnProjection) : Prop :=
  exists i, indexOfTurn turns (tp_TurnID t) = Some i /\ turns !! i = Some t.

(** ** The two phases of a page *)

Lemma never_split_alone size : size <= anchorNewerNeverSplitQuota -> neverSplitFits 0 size false = true.
Proof.
  intros H. unfold neverSplitFits. cbn [negb andb]. rewrite (proj2 (Z.leb_le _ _) H). cbn [andb].
  apply Z.leb_le. change (0 + size + Z.shiftl 2 20 <= Z.shiftl 48 20).
  change (size <= Z.shiftl 46 20) in H. change (size <= 48234496) in H.
  change (0 + size + 2097152 <= 50331648). lia.
Qed.

Section phases.
Context (limit budget anchor : Z).

(** What is on a page so far: [n] turns of [c] bytes. *)
Record room (n c : Z) : Prop := {
  room_empty : n = 0 -> c = 0;
  room_count : 0 <= n;
  room_bytes : anchor + c + anchorNewerMandatoryReserve <= anchorNewerTotalHardCapBytes;
  room_budget : c <= budget \/ n = 1
}.

Context (Hbudget : anchor + budget + anchorNewerMandatoryReserve <= anchorNewerTotalHardCapBytes).

(** The guard of both phases. *)
Lemma fits_room n c size :
  room n c -> 0 <= size ->
  ((c + size >? budget) && negb (neverSplitFits anchor size (n >? 0)))%bool = false ->
  room (n + 1) (c + size).
Proof.
  intros [He Hn Hb Hc] Hs H. unfold neverSplitFits in H. apply andb_false_iff in H as [H|H].
  - zprop. split; [lia|lia|lia|by left].
  - apply negb_false_iff, andb_true_iff in H as [[H1 H2]%andb_true_iff H3]. zprop. assert (n = 0) as -> by lia. rewrite (He eq_refl) in *.
    split; [lia|lia|lia|by right].
Qed.

Lemma turn_phase_spec rest n c :
  Forall (fun ts => 0 <= snd ts) rest -> room n c ->
  exists k, (k <= length rest)%nat /\
    turn_phase limit budget anchor rest n c =
      (map fst (take k rest), c + sum_with snd (take k rest)) /\
    room (n + Z.of_nat k) (c + sum_with snd (take k rest)) /\
    (n <= limit -> n + Z.of_nat k <= limit).
Proof.
  revert n c. induction rest as [|[t size] rest IH]; intros n c Hs Hr.
  { exists 0%nat. cbn. rewrite !Z.add_0_r. split_and!; [lia|done|done|done]. }
  assert (exists k, (k <= length ((t, size) :: rest))%nat /\
    ([], c) = (map fst (take k ((t, size) :: rest)), c + sum_with snd (take k ((t, size) :: rest))) /\
    room (n + Z.of_nat k) (c + sum_with snd (take k ((t, size) :: rest))) /\
    (n <= limit -> n + Z.of_nat k <= limit)) as Hstop.
  { exists 0%nat. cbn. rewrite !Z.add_0_r. split_and!; [lia|done|done|done]. }
  inversion Hs as [|? ? Hsize Hs']; subst. cbn [snd] in Hsize. cbn [turn_phase].
  destruct (n >=? limit) eqn:Hl; [exact Hstop|].
  destruct (_ && _)%bool eqn:Hfit; [exact Hstop|]. clear Hstop.
  assert (n < limit) as Hl' by (zprop; lia).
  destruct (IH (n + 1) (c + size) Hs' (fits_room _ _ _ Hr Hsize Hfit)) as (k & Hk & -> & Hroom & Hlim).
  exists (S k). cbn [length take map fst sum_with snd].
  replace (n + Z.of_nat (S k)) with (n + 1 + Z.of_nat k) by lia.
  rewrite Z.add_assoc. split_and!; [lia|done|done|]. intros _. apply Hlim. lia.
Qed.

(** The first turn of an empty page with no anchor on it. *)
Lemma turn_phase_some t size rest :
  anchor = 0 -> 1 <= limit -> size <= anchorNewerNeverSplitQuota ->
  fst (turn_phase limit budget anchor ((t, size) :: rest) 0 0) <> [].
Proof.
  clear Hbudget. intros -> Hl Hq. cbn [turn_phase]. destruct (0 >=? limit) eqn:E; zprop; [lia|].
  change (0 >? 0) with false. rewrite (never_split_alone size) by done.
  rewrite andb_false_r. by destruct (turn_phase _ _ _ _ _ _).
Qed.

Context (turns : list TurnProjection) (sizes : list Z).
Context (Hsizes : Forall (fun size => 0 <= size) sizes).

Lemma size_at_nonneg i : 0 <= size_at sizes i.
Proof.
  unfold size_at. destruct (nth_in_or_default i sizes 0) as [H| ->]; [|done].
  rewrite Forall_forall in Hsizes. apply Hsizes. by apply list_elem_of_In.
Qed.

Definition turn_bytes (ids : list string) : Z :=
  sum_with (fun id => match indexOfTurn turns id with Some i => size_at sizes i | None => 0 end) ids.

Lemma correction_phase_spec ids n c :
  (forall id, id ∈ ids -> id ∈ map tp_TurnID turns) -> room n c ->
  match correction_phase turns sizes budget anchor ids (n >? 0) c with
  | inl e => e = AnchorOversized /\
      exists id i, id ∈ ids /\ indexOfTurn turns id = Some i /\ anchorNewerNeverSplitQuota < size_at sizes i
  | inr (corrected, c') =>
      exists k, (k <= length ids)%nat /\ map tp_TurnID corrected = take k ids /\
        Forall (stands_in turns) corrected /\
        c' = c + turn_bytes (take k ids) /\ room (n + Z.of_nat k) c'
  end.
Proof.
  revert n c. induction ids as [|id ids IH]; intros n c Hin Hr; cbn [correction_phase].
  { exists 0%nat. cbn. rewrite !Z.add_0_r. split_and!; [lia|done|constructor|done|done]. }
  assert (is_Some (indexOfTurn turns id)) as [i Hi] by (apply index_in, Hin; set_solver). rewrite Hi. cbv zeta.
  destruct (size_at sizes i >? anchorNewerNeverSplitQuota) eqn:Hq.
  { zprop. split; [done|]. exists id, i. split; [set_solver|]. split; [done|lia]. }
  destruct (_ && _)%bool eqn:Hfit.
  { exists 0%nat. cbn. rewrite !Z.add_0_r. split_and!; [lia|done|constructor|done|done]. }
  pose proof (fits_room _ _ _ Hr (size_at_nonneg i) Hfit) as Hr'.
  apply indexOfTurn_some in Hi as Hid. change (map tp_TurnID turns) with (tp_TurnID <$> turns) in Hid.
  rewrite list_lookup_fmap in Hid. destruct (turns !! i) as [t|] eqn:Ht; [|done]. injection Hid as Hid.
  pose proof (IH (n + 1) (c + size_at sizes i)) as IH1.
  rewrite (proj2 (Z.gtb_lt (n + 1) 0)) in IH1 by (destruct Hr; lia).
  specialize (IH1 ltac:(set_solver) Hr').
  destruct (correction_phase _ _ _ _ _ true _) as [e|[corrected c']].
  - destruct IH1 as (-> & id' & i' & H1 & H2 & H3). split; [done|]. exists id', i'. split; [set_solver|done].
  - destruct IH1 as (k & Hk & Hids & Hall & -> & Hroom). exists (S k). cbn [map length take]. rewrite Hids, Hid.
    split_and!; [lia|done| | |].
    + constructor; [by exists i; rewrite Hid|done].
    + unfold turn_bytes. cbn [sum_with]. rewrite Hi. lia.
    + by replace (n + Z.of_nat (S k)) with (n + 1 + Z.of_nat k) by lia.
Qed.

(** And the first correction of an empty one. *)
Lemma correction_phase_some id ids corrected c' :
  anchor = 0 -> (forall id', id' ∈ id :: ids -> id' ∈ map tp_TurnID turns) ->
  correction_phase turns sizes budget anchor (id :: ids) false 0 = inr (corrected, c') -> corrected <> [].
Proof.
  clear Hbudget Hsizes. intros -> Hin. cbn [correction_phase].
  assert (is_Some (indexOfTurn turns id)) as [i Hi] by (apply index_in, Hin; set_solver). rewrite Hi. cbv zeta.
  destruct (size_at sizes i >? anchorNewerNeverSplitQuota) eqn:Hq; [done|].
  rewrite (never_split_alone (size_at sizes i)) by (zprop; lia).
  rewrite andb_false_r. apply indexOfTurn_lt in Hi. apply lookup_lt_is_Some in Hi as [t ->].
  destruct (correction_phase _ _ _ _ _ _ _) as [e|[cs c2]]; [done|]. by intros [= <- _].
Qed.
End phases.

(** ** What a page says *)

Section pages.
Context (encode_cursor : anchorNewerCursorState -> string)
  (unmarshal_cursor : string -> option anchorNewerCursorState)
  {Bytes : Type} (marshal_turn : TurnProjection -> option Bytes) (len : Bytes -> N)
  (sha256 : Bytes -> list Z).

Abbreviation token_of := (AnchorNewerTurnToken marshal_turn sha256).
Abbreviation slice := (sliceAnchorNewerReconciliation encode_cursor unmarshal_cursor marshal_turn len sha256).
Abbreviation start_of := (start_reconciliation unmarshal_cursor marshal_turn len sha256).
Abbreviation build_tokens := (BuildAnchorNewerTurnTokens marshal_turn sha256).
Abbreviation sizes_of := (turnEncodedSizes (turn_size marshal_turn len)).

Lemma tokens_into_other turns tokens tokens' id :
  tokens_into marshal_turn sha256 tokens turns = Some tokens' -> id ∉ map tp_TurnID turns ->
  tokens' !! id = tokens !! id.
Proof.
  revert tokens. induction turns as [|t turns IH]; intros tokens; cbn [tokens_into].
  - by intros [= ->].
  - destruct (token_of t) as [tok|] eqn:Ht; cbn; [|done]. intros H Hid.
    rewrite (IH _ H) by set_solver. apply lookup_insert_ne. set_solver.
Qed.

Lemma tokens_into_dom turns tokens tokens' id :
  tokens_into marshal_turn sha256 tokens turns = Some tokens' -> id ∈ map tp_TurnID turns ->
  is_Some (tokens' !! id).
Proof.
  revert tokens. induction turns as [|t turns IH]; intros tokens; cbn [tokens_into].
  - by rewrite elem_of_nil.
  - destruct (token_of t) as [tok|] eqn:Ht; cbn; [|done]. intros H Hid.
    destruct (decide (id ∈ map tp_TurnID turns)); [by eapply IH|].
    rewrite (tokens_into_other _ _ _ _ H) by done. assert (tp_TurnID t = id) as -> by set_solver.
    by rewrite lookup_insert_eq.
Qed.

Lemma build_tokens_dom turns tokens id :
  build_tokens turns = Some tokens -> is_Some (tokens !! id) <-> id ∈ map tp_TurnID turns.
Proof.
  intros H. split; [|by eapply tokens_into_dom].
  intros [tok Htok]. destruct (decide (id ∈ map tp_TurnID turns)) as [|Hn]; [done|].
  rewrite (tokens_into_other _ _ _ _ H Hn) in Htok. done.
Qed.

Lemma build_tokens_turn turns tokens t :
  build_tokens turns = Some tokens -> NoDup (map tp_TurnID turns) -> t ∈ turns ->
  exists tok, token_of t = Some tok /\ tokens !! tp_TurnID t = Some tok.
Proof.
  unfold BuildAnchorNewerTurnTokens. generalize (∅ : gmap string string) as m.
  induction turns as [|t' turns IH]; intros m; cbn [tokens_into]; [by rewrite elem_of_nil|].
  destruct (token_of t') as [tok|] eqn:Ht; cbn; [|done]. intros H Hnd Hin.
  inversion Hnd as [|? ? Hn Hnd']; subst. apply elem_of_cons in Hin as [->|Hin].
  - exists tok. split; [done|]. rewrite (tokens_into_other _ _ _ _ H Hn). apply lookup_insert_eq.
  - by eapply IH.
Qed.

Lemma put_tokens_lookup current delivered tokens id :
  put_tokens current delivered tokens !! id =
    if decide (id ∈ map tp_TurnID delivered) then Some (default "" (current !! id)) else tokens !! id.
Proof.
  unfold put_tokens. revert tokens. induction delivered as [|t ts IH]; intros tokens; [done|].
  cbn [foldl map]. rewrite IH. destruct (decide (id ∈ map tp_TurnID ts)) as [H|H].
  - rewrite decide_True by set_solver. done.
  - destruct (decide (tp_TurnID t = id)) as [<-|Hne].
    + by rewrite lookup_insert_eq, decide_True by set_solver.
    + rewrite lookup_insert_ne by done. by rewrite decide_False by set_solver.
Qed.

Lemma sizes_nonneg turns sizes : sizes_of turns = Some sizes -> Forall (fun size => 0 <= size) sizes.
Proof.
  unfold turnEncodedSizes. intros H%mapM_Some. apply Forall_lookup. intros i size Hi.
  destruct (Forall2_lookup_r _ _ _ _ _ H Hi) as (t & _ & Ht).
  destruct (turn_size marshal_turn len t); [|done]. cbn in Ht. injection Ht as <-. lia.
Qed.

Lemma sizes_length turns sizes : sizes_of turns = Some sizes -> length sizes = length turns.
Proof. intros H. symmetry. by eapply length_mapM. Qed.

(** ** A page, taken apart *)

Definition first_page (p : AnchorNewerParams) : bool := bool_decide (an_CorrectionCursor p = "").

Definition changed_of (proj : SessionProjection) (p : AnchorNewerParams) (rc : reconciliation) : list string :=
  changedIDs (sp_Turns proj) (rc_tokens rc) (rc_turnStart rc) (first_page p) (an_AnchorTurnID p)
    (an_BaseDigests p).

Lemma elem_of_changed proj p rc id :
  id ∈ changed_of proj p rc <->
    exists d, an_BaseDigests p !! id = Some d /\
      is_changed (sp_Turns proj) (rc_tokens rc) (rc_turnStart rc) (first_page p) (an_AnchorTurnID p) (id, d) = true.
Proof. unfold changed_of, changedIDs. rewrite elem_of_sort. apply elem_of_digests. Qed.

Lemma NoDup_changed proj p rc : NoDup (changed_of proj p rc).
Proof. unfold changed_of, changedIDs. rewrite sort_strings_perm. apply NoDup_digests. Qed.

Record started (proj : SessionProjection) (p : AnchorNewerParams) (rc : reconciliation) : Prop := {
  st_anchor : indexOfTurn (sp_Turns proj) (an_AnchorTurnID p) = Some (rc_anchorIdx rc);
  st_sizes : sizes_of (sp_Turns proj) = Some (rc_sizes rc);
  st_tokens : build_tokens (sp_Turns proj) = Some (rc_tokens rc);
  st_cursor : if first_page p then rc_cursor rc = mkAnchorCursor 1 (an_AnchorTurnID p) ""
    else unmarshal_cursor (an_CorrectionCursor p) = Some (rc_cursor rc);
  st_start : if bool_decide (ac_LastTurnID (rc_cursor rc) = "") then rc_turnStart rc = 0%nat
    else exists i, indexOfTurn (sp_Turns proj) (ac_LastTurnID (rc_cursor rc)) = Some i /\ rc_turnStart rc = S i
}.

Lemma start_inr proj p rc : start_of proj p = inr rc -> started proj p rc.
Proof.
  unfold start_reconciliation. cbv zeta.
  destruct (indexOfTurn _ (an_AnchorTurnID p)) as [i|] eqn:Ha; [|done].
  destruct (sizes_of _) as [sizes|] eqn:Hs; [|done].
  destruct (if bool_decide (an_CorrectionCursor p = "") then _ else _) as [e|cur] eqn:Hc; [done|].
  destruct (if bool_decide (ac_LastTurnID cur = "") then _ else _) as [n|] eqn:Hn; [|done].
  destruct (build_tokens _) as [tokens|] eqn:Ht; [|done]. intros [= <-]. split; cbn; try done.
  - revert Hc. unfold first_page. destruct (bool_decide (an_CorrectionCursor p = "")); intros Hc; [by injection Hc as <-|].
    unfold decodeAnchorNewerCursor in Hc. destruct (unmarshal_cursor _) as [s|]; [|done].
    destruct (negb _); [done|]. by injection Hc as <-.
  - revert Hn. destruct (bool_decide (ac_LastTurnID cur = "")); intros Hn; [by injection Hn as <-|].
    destruct (indexOfTurn _ (ac_LastTurnID cur)) as [j|] eqn:Hj; [|done]. cbn in Hn. injection Hn as <-. by exists j.
Qed.

Lemma start_le proj p rc : started proj p rc -> (rc_turnStart rc <= length (sp_Turns proj))%nat.
Proof.
  intros [_ _ _ _ H]. destruct (bool_decide (ac_LastTurnID (rc_cursor rc) = "")); [lia|]. destruct H as (i & Hi & ->).
  apply indexOfTurn_lt in Hi. lia.
Qed.

Lemma changed_in proj p rc id :
  started proj p rc -> id ∈ changed_of proj p rc -> id ∈ map tp_TurnID (sp_Turns proj).
Proof.
  intros Hst (d & Hd & Hc)%elem_of_changed. unfold is_changed in Hc. cbn [fst] in Hc.
  destruct (rc_tokens rc !! id) eqn:Ht; [|done]. apply (build_tokens_dom _ _ _ (st_tokens _ _ _ Hst)). by rewrite Ht.
Qed.

Definition anchor_size (p : AnchorNewerParams) (rc : reconciliation) : Z :=
  if first_page p then size_at (rc_sizes rc) (rc_anchorIdx rc) else 0.

Definition page_budget (p : AnchorNewerParams) (rc : reconciliation) : Z :=
  let remaining := anchorNewerTotalHardCapBytes - anchorNewerMandatoryReserve - anchor_size p rc in
  if first_page p && (remaining <? anchorNewerPageBudget) then remaining else anchorNewerPageBudget.

Definition page_limit (p : AnchorNewerParams) : Z :=
  if an_Limit p <=? 0 then anchorNewerDefaultTurns else an_Limit p.

Definition rest_of (proj : SessionProjection) (rc : reconciliation) : list (TurnProjection * Z) :=
  drop (rc_turnStart rc) (zip (sp_Turns proj) (rc_sizes rc)).

(** [k] turns and [m] corrections are on the page. *)
Record page (proj : SessionProjection) (p : AnchorNewerParams) (r : AnchorNewerResult) (rc : reconciliation)
  (k m : nat) : Prop := {
  pg_start : start_of proj p = inr rc;
  pg_started : started proj p rc;
  pg_turns : ar_Turns r = take k (drop (rc_turnStart rc) (sp_Turns proj));
  pg_k : (rc_turnStart rc + k <= length (sp_Turns proj))%nat;
  pg_corrected : map tp_TurnID (ar_ChangedTurns r) = take m (changed_of proj p rc);
  pg_corrected_in : Forall (stands_in (sp_Turns proj)) (ar_ChangedTurns r);
  pg_m : (m <= length (changed_of proj p rc))%nat;
  pg_phase : (rc_turnStart rc + k < length (sp_Turns proj))%nat -> m = 0%nat;
  pg_refresh : ar_AnchorRefresh r = if first_page p then sp_Turns proj !! rc_anchorIdx rc else None;
  pg_removed : ar_RemovedTurnIDs r = removedIDs (rc_tokens rc) (an_BaseDigests p);
  pg_tokens : forall id, ar_TurnTokens r !! id =
    if decide (id ∈ map tp_TurnID (option_list (ar_AnchorRefresh r) ++ ar_Turns r ++ ar_ChangedTurns r))
    then Some (default "" (rc_tokens rc !! id)) else None;
  pg_pending : match ar_CorrectionsPending r with
    | None => (rc_turnStart rc + k = length (sp_Turns proj))%nat /\ m = length (changed_of proj p rc)
    | Some pd =>
        ((rc_turnStart rc + k < length (sp_Turns proj))%nat \/ (m < length (changed_of proj p rc))%nat) /\
        cp_Cursor pd = encode_cursor (mkAnchorCursor 1 (last_id (ar_Turns r) (ac_LastTurnID (rc_cursor rc)))
                         (last_id (ar_ChangedTurns r) (ac_ChangedThrough (rc_cursor rc))))
    end;
  pg_rev : ar_SyncRev r = sp_SyncRev proj;
  pg_room : exists bytes, room (page_budget p rc) (anchor_size p rc) (Z.of_nat (k + m)) bytes /\
    bytes = sum_with snd (take k (rest_of proj rc)) +
            turn_bytes (sp_Turns proj) (rc_sizes rc) (take m (changed_of proj p rc));
  pg_limit : Z.of_nat k <= page_limit p;
  pg_anchor : anchor_size p rc <= anchorNewerNeverSplitQuota;
  pg_some : first_page p = false -> Forall (fun size => size <= anchorNewerNeverSplitQuota) (rc_sizes rc) ->
    (rc_turnStart rc + k = length (sp_Turns proj))%nat /\ m = length (changed_of proj p rc) \/ (0 < k + m)%nat;
  pg_turn : first_page p = false ->
    (exists t size rest, rest_of proj rc = (t, size) :: rest /\ size <= anchorNewerNeverSplitQuota) -> (0 < k)%nat
}.

Lemma budget_ok p rc :
  anchor_size p rc <= anchorNewerNeverSplitQuota ->
  anchor_size p rc + page_budget p rc + anchorNewerMandatoryReserve <= anchorNewerTotalHardCapBytes.
Proof.
  unfold page_budget, anchor_size. cbv zeta.
  change anchorNewerTotalHardCapBytes with 50331648. change anchorNewerMandatoryReserve with 2097152.
  change anchorNewerPageBudget with 8388608. change anchorNewerNeverSplitQuota with 48234496.
  destruct (first_page p); cbn [andb]; intros H; [|lia]. case_if; zprop; lia.
Qed.

Lemma room_none p rc :
  anchor_size p rc <= anchorNewerNeverSplitQuota -> room (page_budget p rc) (anchor_size p rc) 0 0.
Proof.
  intros H. pose proof (budget_ok p rc H) as Hb. revert H Hb. unfold page_budget. cbv zeta.
  change anchorNewerTotalHardCapBytes with 50331648. change anchorNewerMandatoryReserve with 2097152.
  change anchorNewerPageBudget with 8388608. change anchorNewerNeverSplitQuota with 48234496.
  generalize (anchor_size p rc) as a. intros a H Hb.
  split; [done|lia| |left; case_if; lia].
  change anchorNewerTotalHardCapBytes with 50331648. change anchorNewerMandatoryReserve with 2097152. lia.
Qed.

Lemma rest_of_spec proj p rc k :
  started proj p rc ->
  map fst (take k (rest_of proj rc)) = take k (drop (rc_turnStart rc) (sp_Turns proj)) /\
  length (rest_of proj rc) = (length (sp_Turns proj) - rc_turnStart rc)%nat /\
  Forall (fun ts => 0 <= snd ts) (rest_of proj rc).
Proof.
  intros Hst. pose proof (sizes_length _ _ (st_sizes _ _ _ Hst)) as Hlen.
  pose proof (sizes_nonneg _ _ (st_sizes _ _ _ Hst)) as Hnn. unfold rest_of. split_and!.
  - change (fst <$> take k (drop (rc_turnStart rc) (zip (sp_Turns proj) (rc_sizes rc))) =
      take k (drop (rc_turnStart rc) (sp_Turns proj))).
    rewrite fmap_take, fmap_drop, fst_zip by lia. done.
  - rewrite length_drop, length_zip. lia.
  - apply Forall_drop, Forall_forall. intros [t size] Hin. cbn. apply elem_of_zip_r in Hin.
    by rewrite Forall_forall in Hnn; apply Hnn.
Qed.

(** Nothing of the set is left when every one is among the first [m]. *)
Lemma left_over (l : list string) (m : nat) (P : string -> Prop) `{!forall x, Decision (P x)} :
  NoDup l -> (m <= length l)%nat -> (forall x, x ∈ l -> P x) ->
  length (filter (fun id => (id ∉ take m l) /\ P id) l) = (length l - m)%nat.
Proof.
  intros Hnd Hm HP. set (Q := fun id => (id ∉ take m l) /\ P id).
  replace (filter Q l) with (filter Q (take m l ++ drop m l)) by (f_equal; apply take_drop).
  rewrite <- (take_drop m l) in Hnd. apply NoDup_app in Hnd as (_ & Hd & _).
  rewrite filter_app, filter_none, filter_all; [cbn; by rewrite length_drop| |].
  - apply Forall_forall. intros x Hx. split; [intros Hx'; by apply (Hd x)|].
    apply HP. rewrite <- (take_drop m l). set_solver.
  - intros x Hx [Hn _]. done.
Qed.

(** The correction phase of a page. *)
Lemma corrections_of proj p rc k c :
  started proj p rc ->
  anchor_size p rc + page_budget p rc + anchorNewerMandatoryReserve <= anchorNewerTotalHardCapBytes ->
  room (page_budget p rc) (anchor_size p rc) (0 + Z.of_nat k) c ->
  match (if Nat.leb (length (sp_Turns proj)) (rc_turnStart rc + k)
         then correction_phase (sp_Turns proj) (rc_sizes rc) (page_budget p rc) (anchor_size p rc)
                (changed_of proj p rc) (Z.of_nat k >? 0) c
         else inr ([], c)) with
  | inl e => e = AnchorOversized /\ (length (sp_Turns proj) <= rc_turnStart rc + k)%nat /\
      exists i, anchorNewerNeverSplitQuota < size_at (rc_sizes rc) i
  | inr (corrected, c') => exists m, (m <= length (changed_of proj p rc))%nat /\
      map tp_TurnID corrected = take m (changed_of proj p rc) /\ Forall (stands_in (sp_Turns proj)) corrected /\
      ((rc_turnStart rc + k < length (sp_Turns proj))%nat -> m = 0%nat) /\
      c' = c + turn_bytes (sp_Turns proj) (rc_sizes rc) (take m (changed_of proj p rc)) /\
      room (page_budget p rc) (anchor_size p rc) (Z.of_nat (k + m)) c'
  end.
Proof.
  intros Hst Hb Hroom. rewrite Z.add_0_l in Hroom. destruct (Nat.leb _ _) eqn:Hle.
  - apply Nat.leb_le in Hle. pose proof (correction_phase_spec (page_budget p rc) (anchor_size p rc) Hb
      (sp_Turns proj) (rc_sizes rc) (sizes_nonneg _ _ (st_sizes _ _ _ Hst)) (changed_of proj p rc) _ _
      (fun id => changed_in proj p rc id Hst) Hroom) as Hc.
    destruct (correction_phase _ _ _ _ _ _ _) as [e|[corrected c']].
    + destruct Hc as (-> & id & i & _ & _ & Hi). split_and!; [done|done|]. by exists i.
    + destruct Hc as (m & Hm & Hids & Hin & Hc' & Hr). exists m. rewrite Nat2Z.inj_add. split_and!; try done. lia.
  - exists 0%nat. cbn. rewrite Nat.add_0_r, Z.add_0_r. split_and!; [lia|done|constructor|done|done|done].
Qed.

Lemma zgt_of_nat (n : nat) : (Z.of_nat n >? 0) = negb (Nat.eqb n 0).
Proof. rewrite Z.gtb_ltb. destruct n; [done|]. cbn [Nat.eqb negb]. apply Z.ltb_lt. lia. Qed.

Lemma page_limit_pos p : 1 <= page_limit p.
Proof. unfold page_limit, anchorNewerDefaultTurns. case_if; zprop; lia. Qed.

(** A page without an anchor has something on it, or there is nothing to put. *)
Lemma page_some proj p rc k :
  started proj p rc -> forall corrected c' m,
  first_page p = false -> Forall (fun size => size <= anchorNewerNeverSplitQuota) (rc_sizes rc) ->
  turn_phase (page_limit p) (page_budget p rc) (anchor_size p rc) (rest_of proj rc) 0 0 =
    (map fst (take k (rest_of proj rc)), 0 + sum_with snd (take k (rest_of proj rc))) ->
  (if Nat.leb (length (sp_Turns proj)) (rc_turnStart rc + k)
   then correction_phase (sp_Turns proj) (rc_sizes rc) (page_budget p rc) (anchor_size p rc)
          (changed_of proj p rc) (Z.of_nat k >? 0) (0 + sum_with snd (take k (rest_of proj rc)))
   else inr ([], 0 + sum_with snd (take k (rest_of proj rc)))) = inr (corrected, c') ->
  map tp_TurnID corrected = take m (changed_of proj p rc) ->
  (rc_turnStart rc + k = length (sp_Turns proj))%nat /\ m = length (changed_of proj p rc) \/ (0 < k + m)%nat.
Proof.
  intros Hst corrected c' m Hf Hq Hturns Hcor Hids.
  destruct k as [|k]; [|right; lia]. destruct m as [|m]; [|right; lia]. left.
  assert (anchor_size p rc = 0) as Ha by (unfold anchor_size; by rewrite Hf).
  destruct (rest_of_spec proj p rc 0 Hst) as (_ & Hlen & _). pose proof (start_le _ _ _ Hst) as Hle.
  destruct (rest_of proj rc) as [|[t size] rest] eqn:Hrest.
  - cbn [length] in Hlen. split; [lia|].
    rewrite (proj2 (Nat.leb_le _ _)) in Hcor by lia.
    destruct (changed_of proj p rc) as [|id ids] eqn:Hch; [done|].
    eapply correction_phase_some in Hcor; [by destruct corrected|exact Ha|].
    intros id' Hid. rewrite <- Hch in Hid. by eapply changed_in.
  - exfalso. apply (turn_phase_some (page_limit p) (page_budget p rc) (anchor_size p rc) t size rest Ha (page_limit_pos p)).
    + rewrite Forall_forall in Hq. apply Hq.
      assert ((t, size) ∈ rest_of proj rc) as Hin by (rewrite Hrest; by left).
      unfold rest_of in Hin. eapply elem_of_zip_r.
      rewrite <- (take_drop (rc_turnStart rc) (zip (sp_Turns proj) (rc_sizes rc))). apply elem_of_app. by right.
    + by rewrite Hturns.
Qed.

Lemma delivered_k (turns : list TurnProjection) s k : (s + k <= length turns)%nat ->
  length (take k (drop s turns)) = k /\ bool_decide (take k (drop s turns) <> []) = (Z.of_nat k >? 0).
Proof.
  intros Hk. assert (length (take k (drop s turns)) = k) as Hlen by (rewrite length_take, length_drop; lia).
  split; [done|]. rewrite zgt_of_nat. destruct k as [|k]; [done|]. rewrite bool_decide_true; [done|].
  intros Hz. apply (f_equal length) in Hz. rewrite Hlen in Hz. done.
Qed.

Lemma changed_left proj p rc m : started proj p rc -> (m <= length (changed_of proj p rc))%nat ->
  length (filter (fun id => (id ∉ take m (changed_of proj p rc)) /\ is_Some (rc_tokens rc !! id))
    (changed_of proj p rc)) = (length (changed_of proj p rc) - m)%nat.
Proof.
  intros Hst Hm. apply left_over; [apply NoDup_changed|done|]. intros id Hid.
  apply (build_tokens_dom _ _ _ (st_tokens _ _ _ Hst)). by eapply changed_in.
Qed.

(** The turns from the cursor on are all on the page. *)
Definition tail_fits (proj : SessionProjection) (p : AnchorNewerParams) (rc : reconciliation) : Prop :=
  exists n, room (page_budget p rc) (anchor_size p rc) n (sum_with snd (rest_of proj rc)).

Lemma slice_cases proj p :
  match slice proj p with
  | inr r => exists rc k m, page proj p r rc k m
  | inl e => start_of proj p = inl e \/
      (e = AnchorOversized /\ exists rc i, start_of proj p = inr rc /\ anchorNewerNeverSplitQuota < size_at (rc_sizes rc) i /\
         (anchorNewerNeverSplitQuota < anchor_size p rc \/ tail_fits proj p rc))
  end.
Proof.
  unfold sliceAnchorNewerReconciliation. destruct (start_of proj p) as [e|rc] eqn:Hstart; [by left|].
  pose proof (start_inr _ _ _ Hstart) as Hst. cbv zeta. fold (first_page p) (anchor_size p rc) (page_limit p) (rest_of proj rc)
    (page_budget p rc) (changed_of proj p rc).
  destruct (first_page p && (anchor_size p rc >? anchorNewerNeverSplitQuota))%bool eqn:Ha.
  { right. split; [done|]. exists rc, (rc_anchorIdx rc). split; [done|]. unfold anchor_size in *.
    destruct (first_page p); cbn [andb] in Ha; [|done]. zprop. split; [lia|left; lia]. }
  assert (anchor_size p rc <= anchorNewerNeverSplitQuota) as Hanchor.
  { unfold anchor_size in *. destruct (first_page p); cbn [andb] in Ha; [by zprop|by vm_compute]. }
  pose proof (budget_ok p rc Hanchor) as Hb.
  destruct (rest_of_spec proj p rc 0 Hst) as (_ & Hlen & Hnn).
  destruct (turn_phase_spec (page_limit p) (page_budget p rc) (anchor_size p rc) Hb (rest_of proj rc) 0 0 Hnn
    (room_none p rc Hanchor)) as (k & Hk & Hturns & Hroom & Hlim).
  rewrite Hturns.
  destruct (rest_of_spec proj p rc k Hst) as (-> & _ & _).
  pose proof (start_le _ _ _ Hst) as Hle.
  destruct (delivered_k (sp_Turns proj) (rc_turnStart rc) k ltac:(lia)) as [-> ->].
  pose proof (corrections_of proj p rc k (0 + sum_with snd (take k (rest_of proj rc))) Hst Hb Hroom) as Hc.
  pose proof (page_some proj p rc k Hst) as Hsome.
  destruct (if Nat.leb _ _ then _ else _) as [e|[corrected c']].
  { destruct Hc as (-> & Hall & i & Hi). right. split; [done|]. exists rc, i. split_and!; [done|done|right].
    exists (0 + Z.of_nat k). rewrite take_ge in Hroom by lia. exact Hroom. }
  destruct Hc as (m & Hm & Hids & Hin & Hphase & -> & Hroom').
  rewrite Z.add_0_l in *. pose proof (room_bytes _ _ _ _ Hroom') as Hbytes.
  destruct (_ >? anchorNewerTotalHardCapBytes) eqn:Hcap; [zprop; lia|]. clear Hcap.
  exists rc, k, m. rewrite Hids.
  pose proof (changed_left proj p rc m Hst Hm) as Hleft.
  split; cbn [ar_Turns ar_AnchorRefresh ar_ChangedTurns ar_RemovedTurnIDs ar_CorrectionsPending ar_TurnTokens ar_SyncRev];
    try done; [lia| | |by exists (sum_with snd (take k (rest_of proj rc)) +
      turn_bytes (sp_Turns proj) (rc_sizes rc) (take m (changed_of proj p rc)))| | |].
  - intros id. rewrite !put_tokens_lookup, lookup_empty. rewrite !map_app.
    repeat case_decide; try done; set_solver.
  - match goal with |- context [zlen (filter ?P ?l) >? 0] =>
      change (zlen (filter P l)) with (Z.of_nat (length (filter P l))) end.
    rewrite Hleft, zgt_of_nat. change (zlen (sp_Turns proj)) with (Z.of_nat (length (sp_Turns proj))).
    destruct (_ || _)%bool eqn:Hp.
    + split; [|done]. apply orb_true_iff in Hp as [Hp|Hp]; zprop; [left; lia|right].
      apply Nat.eqb_neq in Hp. lia.
    + zprop. apply Nat.eqb_eq in H0. lia.
  - apply Hlim. pose proof (page_limit_pos p). lia.
  - intros Hf Hq. apply (Hsome _ _ _ Hf Hq Hturns eq_refl Hids).
  - intros Hf (t & size & rest & Hrest & Hq). destruct k as [|k]; [|lia]. exfalso. cbn [take map] in Hturns.
    apply (turn_phase_some (page_limit p) (page_budget p rc) (anchor_size p rc) t size rest);
      [unfold anchor_size; by rewrite Hf|apply page_limit_pos|done|]. by rewrite <- Hrest, Hturns.
Qed.

(** ** Every page is bounded *)

Definition size_of (t : TurnProjection) : Z :=
  match turn_size marshal_turn len t with Some n => Z.of_N n | None => 0 end.

Lemma sizes_map turns sizes : sizes_of turns = Some sizes -> sizes = map size_of turns.
Proof.
  unfold turnEncodedSizes. intros H%mapM_Some. induction H as [|t size turns sizes Ht _ IH]; [done|].
  cbn [map]. rewrite <- IH. f_equal. unfold size_of. destruct (turn_size marshal_turn len t); [|done].
  cbn in Ht. by injection Ht.
Qed.

Lemma size_at_turn turns i t : turns !! i = Some t -> size_at (map size_of turns) i = size_of t.
Proof.
  intros H. unfold size_at. apply nth_lookup_Some. change (map size_of turns) with (size_of <$> turns).
  by rewrite list_lookup_fmap, H.
Qed.

Lemma zip_sizes turns s k :
  sum_with snd (take k (drop s (zip turns (map size_of turns)))) = sum_with size_of (take k (drop s turns)).
Proof.
  assert (zip turns (map size_of turns) = (fun t => (t, size_of t)) <$> turns) as ->.
  { induction turns as [|t turns IH]; [done|]. cbn. by rewrite <- IH. }
  rewrite <- fmap_drop, <- fmap_take.
  change (sum_with snd (map (fun t => (t, size_of t)) (take k (drop s turns))) = sum_with size_of (take k (drop s turns))).
  by rewrite sum_with_map.
Qed.

Lemma corrections_size turns ts :
  Forall (stands_in turns) ts ->
  turn_bytes turns (map size_of turns) (map tp_TurnID ts) = sum_with size_of ts.
Proof.
  unfold turn_bytes. induction 1 as [|t ts (i & Hi & Ht) _ IH]; [done|].
  cbn [map sum_with]. by rewrite IH, Hi, (size_at_turn _ _ _ Ht).
Qed.

Lemma start_inl_cap proj p : start_of proj p <> inl AnchorHardCap.
Proof.
  unfold start_reconciliation. cbv zeta. destruct (indexOfTurn _ _); [|done]. destruct (sizes_of _); [|done].
  unfold decodeAnchorNewerCursor.
  destruct (bool_decide (an_CorrectionCursor p = "")); [|destruct (unmarshal_cursor _) as [s|]; [|done];
    destruct (negb _); [done|]];
  match goal with |- context [match (if ?b then _ else _) with _ => _ end] => destruct (if b then _ else _) end;
  try done; by destruct (build_tokens _).
Qed.

(** C32. The final check of the size of a page never fails: with the refreshed anchor and
    the reserve every page is within the hard cap. Its turns and corrections are within
    the page budget unless there is a single one, and the turns within the limit. *)
Theorem pages_bounded proj p :
  slice proj p <> inl AnchorHardCap /\
  forall r, slice proj p = inr r ->
    let content := ar_Turns r ++ ar_ChangedTurns r in
    sum_with size_of (option_list (ar_AnchorRefresh r) ++ content) + anchorNewerMandatoryReserve
      <= anchorNewerTotalHardCapBytes /\
    (sum_with size_of content <= anchorNewerPageBudget \/ length content = 1%nat) /\
    zlen (ar_Turns r) <= (if an_Limit p <=? 0 then anchorNewerDefaultTurns else an_Limit p).
Proof.
  pose proof (slice_cases proj p) as Hc. split.
  { intros Hcap. rewrite Hcap in Hc. destruct Hc as [Hc|[Hc _]]; [|done]. by apply start_inl_cap in Hc. }
  intros r Hr. rewrite Hr in Hc. destruct Hc as (rc & k & m & Hpg). cbv zeta.
  destruct (pg_room _ _ _ _ _ _ Hpg) as (bytes & Hroom & Hbytes).
  pose proof (sizes_map _ _ (st_sizes _ _ _ (pg_started _ _ _ _ _ _ Hpg))) as Hsizes.
  unfold rest_of in Hbytes. rewrite <- (pg_corrected _ _ _ _ _ _ Hpg), Hsizes, zip_sizes,
    corrections_size, <- (pg_turns _ _ _ _ _ _ Hpg), <- sum_with_app in Hbytes by apply Hpg.
  assert (length (ar_Turns r ++ ar_ChangedTurns r) = (k + m)%nat) as Hlen.
  { pose proof (pg_k _ _ _ _ _ _ Hpg). pose proof (pg_m _ _ _ _ _ _ Hpg).
    pose proof (f_equal length (pg_corrected _ _ _ _ _ _ Hpg)) as Hm. rewrite length_map, length_take in Hm.
    rewrite length_app, (pg_turns _ _ _ _ _ _ Hpg), length_take, length_drop. lia. }
  assert (sum_with size_of (option_list (ar_AnchorRefresh r)) = anchor_size p rc) as Hanchor.
  { rewrite (pg_refresh _ _ _ _ _ _ Hpg). unfold anchor_size. destruct (first_page p); [|done].
    pose proof (indexOfTurn_lt _ _ _ (st_anchor _ _ _ (pg_started _ _ _ _ _ _ Hpg))) as [t Ht]%lookup_lt_is_Some.
    rewrite Hsizes, (size_at_turn _ _ _ Ht), Ht. cbn. lia. }
  rewrite sum_with_app, Hanchor, <- Hbytes. destruct Hroom as [_ _ Hcap Hbudget]. split_and!; [lia| |].
  - rewrite Hlen. destruct Hbudget as [Hb|Hb]; [left|right; lia]. revert Hb. unfold page_budget. cbv zeta.
    case_if; zprop; lia.
  - change (zlen (ar_Turns r)) with (Z.of_nat (length (ar_Turns r))).
    rewrite (pg_turns _ _ _ _ _ _ Hpg), length_take. pose proof (pg_limit _ _ _ _ _ _ Hpg) as Hl.
    unfold page_limit in Hl. lia.
Qed.

(** ** The exchange of a client that follows the protocol *)

(** Its next request: the review set and what the page brought, under the cursor. *)
Definition next_request (p : AnchorNewerParams) (r : AnchorNewerResult) (cursor : string) : AnchorNewerParams :=
  mkAnchorParams (an_SessionID p) (an_BackendID p) (an_AnchorTurnID p)
    ((Some <$> ar_TurnTokens r) ∪ an_BaseDigests p) (an_Limit p) cursor (an_ItemsView p).

(** The tokens held after a page. *)
Definition held_after (p : AnchorNewerParams) (r : AnchorNewerResult) : gmap string (option string) :=
  (Some <$> ar_TurnTokens r) ∪ an_BaseDigests p.

(** The session may change between two pages. *)
Inductive exchange : AnchorNewerParams -> list (SessionProjection * AnchorNewerResult) ->
  gmap string (option string) -> Prop :=
| exchange_last proj p r :
    slice proj p = inr r -> ar_CorrectionsPending r = None -> exchange p [(proj, r)] (held_after p r)
| exchange_more proj p r pd pages held :
    slice proj p = inr r -> ar_CorrectionsPending r = Some pd ->
    exchange (next_request p r (cp_Cursor pd)) pages held -> exchange p ((proj, r) :: pages) held.

Lemma held_after_lookup proj p r rc k m id :
  page proj p r rc k m ->
  held_after p r !! id =
    if decide (id ∈ map tp_TurnID (option_list (ar_AnchorRefresh r) ++ ar_Turns r ++ ar_ChangedTurns r))
    then Some (Some (default "" (rc_tokens rc !! id))) else an_BaseDigests p !! id.
Proof.
  intros Hpg. unfold held_after. rewrite lookup_union, lookup_fmap, (pg_tokens _ _ _ _ _ _ Hpg).
  case_decide; cbn; [by destruct (an_BaseDigests p !! id)|]. by destruct (an_BaseDigests p !! id).
Qed.

(** What is on a page is in the session. *)
Lemma page_in proj p r rc k m t :
  page proj p r rc k m ->
  t ∈ option_list (ar_AnchorRefresh r) ++ ar_Turns r ++ ar_ChangedTurns r -> t ∈ sp_Turns proj.
Proof.
  intros Hpg. rewrite !elem_of_app, (pg_turns _ _ _ _ _ _ Hpg), (pg_refresh _ _ _ _ _ _ Hpg).
  intros [Ht|[Ht|Ht]].
  - destruct (first_page p); [|by apply elem_of_nil in Ht].
    destruct (sp_Turns proj !! rc_anchorIdx rc) as [a|] eqn:Ha; [|by apply elem_of_nil in Ht].
    cbn in Ht. apply list_elem_of_singleton in Ht as ->. by eapply list_elem_of_lookup_2.
  - eapply elem_of_sublist; [exact Ht|]. etrans; [apply sublist_take|apply sublist_drop].
  - destruct (proj1 (Forall_forall _ _) (pg_corrected_in _ _ _ _ _ _ Hpg) t Ht) as (i & _ & Hi).
    by eapply list_elem_of_lookup_2.
Qed.

(** A page with nothing left to ask for settles every turn that is held. *)
Lemma last_page_agrees proj p r rc k m t tok :
  page proj p r rc k m -> NoDup (turn_ids proj) -> ar_CorrectionsPending r = None ->
  t ∈ sp_Turns proj -> token_of t = Some tok -> is_Some (held_after p r !! tp_TurnID t) ->
  held_after p r !! tp_TurnID t = Some (Some tok).
Proof.
  intros Hpg Hnd Hnone Hin Htok. pose proof (pg_started _ _ _ _ _ _ Hpg) as Hst.
  destruct (build_tokens_turn _ _ _ (st_tokens _ _ _ Hst) Hnd Hin) as (tok' & Htok' & Hcur).
  rewrite Htok in Htok'. injection Htok' as <-.
  rewrite (held_after_lookup _ _ _ _ _ _ _ Hpg). case_decide as Hd; [by rewrite Hcur|].
  intros [d Hbase]. rewrite Hbase. f_equal.
  pose proof (pg_pending _ _ _ _ _ _ Hpg) as Hp. rewrite Hnone in Hp. destruct Hp as [Hk Hm].
  destruct (decide (d = Some tok)) as [|Hne]; [done|exfalso].
  apply Hd. rewrite !map_app, !elem_of_app. clear Hd.
  apply list_elem_of_lookup in Hin as [i Hi].
  assert (indexOfTurn (sp_Turns proj) (tp_TurnID t) = Some i) as Hidx.
  { apply index_at; [exact Hnd|]. change (map tp_TurnID (sp_Turns proj)) with (tp_TurnID <$> sp_Turns proj).
    by rewrite list_lookup_fmap, Hi. }
  destruct (decide (rc_turnStart rc <= i)%nat) as [Hle|Hlt].
  { right. left. rewrite (pg_turns _ _ _ _ _ _ Hpg).
    apply list_elem_of_fmap. exists t. split; [done|]. apply list_elem_of_lookup. exists (i - rc_turnStart rc)%nat.
    apply lookup_lt_Some in Hi as Hlen. rewrite lookup_take, lookup_drop, decide_True by lia.
    by replace (rc_turnStart rc + (i - rc_turnStart rc))%nat with i by lia. }
  destruct (decide (first_page p = true /\ tp_TurnID t = an_AnchorTurnID p)) as [[Hf Ha]|Hna].
  { left. rewrite (pg_refresh _ _ _ _ _ _ Hpg), Hf.
    pose proof (st_anchor _ _ _ Hst) as Hi'. rewrite <- Ha, Hidx in Hi'. injection Hi' as <-. rewrite Hi. cbn. by left. }
  right. right. rewrite (pg_corrected _ _ _ _ _ _ Hpg), Hm, take_ge by lia.
  apply elem_of_changed. exists d. split; [done|]. unfold is_changed, coveredByTurnPhase. cbn [fst snd].
  rewrite Hcur, Hidx, bool_decide_false by done. rewrite (proj2 (Nat.leb_gt _ _)) by lia.
  apply negb_true_iff, andb_false_iff. destruct (first_page p) eqn:Hf; [right|by left].
  apply bool_decide_eq_false_2. intros Ha. by apply Hna.
Qed.

Lemma removed_spec proj p r rc k m id :
  page proj p r rc k m ->
  id ∈ ar_RemovedTurnIDs r <-> is_Some (held_after p r !! id) /\ id ∉ turn_ids proj.
Proof.
  intros Hpg. pose proof (st_tokens _ _ _ (pg_started _ _ _ _ _ _ Hpg)) as Hdom.
  rewrite (pg_removed _ _ _ _ _ _ Hpg), (held_after_lookup _ _ _ _ _ _ _ Hpg). unfold removedIDs.
  rewrite elem_of_sort, elem_of_digests. cbn [fst]. unfold turn_ids.
  rewrite <- (build_tokens_dom _ _ id Hdom). case_decide as Hd.
  - assert (is_Some (rc_tokens rc !! id)) as [tok Htok].
    { apply (build_tokens_dom _ _ id Hdom). apply list_elem_of_fmap in Hd as (t & -> & Ht).
      apply list_elem_of_fmap. exists t. split; [done|]. by eapply page_in. }
    rewrite Htok. split; [by intros (d & _ & ?)|]. intros [_ Hn]. by destruct Hn.
  - split.
    + intros (d & -> & Hn%eq_None_not_Some). by split.
    + intros [[d Hd'] Hn%eq_None_not_Some]. by exists d.
Qed.

Lemma exchange_last_page p pages held :
  exchange p pages held ->
  exists p' proj r rc k m, last pages = Some (proj, r) /\ page proj p' r rc k m /\
    ar_CorrectionsPending r = None /\ held = held_after p' r /\
    forall id, is_Some (an_BaseDigests p !! id) -> is_Some (held !! id).
Proof.
  induction 1 as [proj p r Hr Hnone|proj p r pd pages held Hr Hpd Hex (p' & proj' & r' & rc & k & m & Hlast & Hpg & Hnone & Hheld & Hdom)].
  - pose proof (slice_cases proj p) as Hc. rewrite Hr in Hc. destruct Hc as (rc & k & m & Hpg).
    exists p, proj, r, rc, k, m. split_and!; try done.
    intros id Hid. rewrite (held_after_lookup _ _ _ _ _ _ _ Hpg). by case_decide.
  - exists p', proj', r', rc, k, m. split_and!; try done.
    + by destruct pages.
    + intros id Hid. apply Hdom. cbn [next_request an_BaseDigests].
      pose proof (slice_cases proj p) as Hc. rewrite Hr in Hc. destruct Hc as (rc0 & k0 & m0 & Hpg0).
      change (is_Some (held_after p r !! id)). rewrite (held_after_lookup _ _ _ _ _ _ _ Hpg0). by case_decide.
Qed.

(** C19. However the session changes between the pages of an exchange, once a page has
    nothing left the client holds, for every turn it knows of, the token of the turn as
    it is committed at that page, and is told exactly the ids that are gone. Nothing it
    knew of is forgotten. *)
Theorem exchange_agrees p pages held proj r :
  exchange p pages held -> last pages = Some (proj, r) -> NoDup (turn_ids proj) ->
  (forall t tok, t ∈ sp_Turns proj -> token_of t = Some tok -> is_Some (held !! tp_TurnID t) ->
     held !! tp_TurnID t = Some (Some tok)) /\
  (forall id, id ∈ ar_RemovedTurnIDs r <-> is_Some (held !! id) /\ id ∉ turn_ids proj) /\
  (forall id, is_Some (an_BaseDigests p !! id) -> is_Some (held !! id)).
Proof.
  intros Hex Hlast Hnd.
  destruct (exchange_last_page _ _ _ Hex) as (p' & proj' & r' & rc & k & m & Hlast' & Hpg & Hnone & -> & Hdom).
  rewrite Hlast in Hlast'. injection Hlast' as <- <-. split_and!; [|intros id; by eapply removed_spec|done].
  intros t tok Ht Htok Hheld. by eapply last_page_agrees.
Qed.

(** ** A session at rest *)

(** A cursor is read back as it was written, and is not empty. *)
Context (cursor_roundtrip : forall c, unmarshal_cursor (encode_cursor c) = Some c).
Context (cursor_nonempty : forall c, encode_cursor c <> "").

Lemma tokens_exist turns sizes tokens :
  sizes_of turns = Some sizes -> is_Some (tokens_into marshal_turn sha256 tokens turns).
Proof.
  unfold turnEncodedSizes. intros H%mapM_Some. revert tokens.
  induction H as [|t size turns sizes Ht _ IH]; intros tokens; cbn [tokens_into]; [done|].
  unfold AnchorNewerTurnToken. unfold turn_size in Ht. destruct (marshal_turn t); [|done]. cbn. apply IH.
Qed.

(** Where the next request starts. *)
Lemma next_start proj p r rc k m pd :
  page proj p r rc k m -> well_identified proj -> ar_CorrectionsPending r = Some pd ->
  exists rc', start_of proj (next_request p r (cp_Cursor pd)) = inr rc' /\
    rc_turnStart rc' = (rc_turnStart rc + k)%nat /\ rc_tokens rc' = rc_tokens rc.
Proof.
  intros Hpg [Hnd Hne] Hpd. pose proof (pg_started _ _ _ _ _ _ Hpg) as Hst.
  pose proof (pg_pending _ _ _ _ _ _ Hpg) as Hp. rewrite Hpd in Hp. destruct Hp as [_ Hcur].
  unfold start_reconciliation. cbn [next_request an_AnchorTurnID an_CorrectionCursor].
  rewrite (st_anchor _ _ _ Hst), (st_sizes _ _ _ Hst), (st_tokens _ _ _ Hst).
  rewrite bool_decide_false by (rewrite Hcur; apply cursor_nonempty).
  unfold decodeAnchorNewerCursor. rewrite Hcur, cursor_roundtrip. cbn [ac_V ac_LastTurnID].
  change (negb (1 =? 1)) with false. cbn iota. cbn [ac_LastTurnID].
  pose proof (pg_turns _ _ _ _ _ _ Hpg) as Hturns. pose proof (pg_k _ _ _ _ _ _ Hpg) as Hk. unfold last_id.
  destruct k as [|k].
  - rewrite Hturns. rewrite take_0. cbn [last]. rewrite Nat.add_0_r.
    pose proof (st_start _ _ _ Hst) as Hs.
    destruct (bool_decide (ac_LastTurnID (rc_cursor rc) = "")); [|destruct Hs as (i & Hi & Hs); rewrite Hi; cbn [fmap option_fmap option_map]];
      rewrite Hs; (eexists; split; [reflexivity|by split]).
  - assert (last (ar_Turns r) = sp_Turns proj !! (rc_turnStart rc + k)%nat) as ->.
    { rewrite last_lookup, Hturns, length_take, length_drop, Nat.min_l by lia. cbn [pred].
      by rewrite lookup_take, lookup_drop, decide_True by lia. }
    destruct (lookup_lt_is_Some_2 (sp_Turns proj) (rc_turnStart rc + k)%nat) as [t Ht]; [lia|]. rewrite Ht.
    assert (map tp_TurnID (sp_Turns proj) !! (rc_turnStart rc + k)%nat = Some (tp_TurnID t)) as Hid.
    { change (map tp_TurnID (sp_Turns proj)) with (tp_TurnID <$> sp_Turns proj). by rewrite list_lookup_fmap, Ht. }
    rewrite bool_decide_false; cycle 1.
    { intros Hz. apply Hne. rewrite <- Hz. by eapply list_elem_of_lookup_2. }
    rewrite (index_at _ _ _ Hnd Hid). cbn. eexists. split; [done|]. cbn. split; [lia|done].
Qed.

(** What the page brought differs no more. *)
Lemma next_changed proj p r rc k m pd rc' :
  page proj p r rc k m -> NoDup (turn_ids proj) -> ar_CorrectionsPending r = Some pd ->
  started proj (next_request p r (cp_Cursor pd)) rc' ->
  rc_turnStart rc' = (rc_turnStart rc + k)%nat -> rc_tokens rc' = rc_tokens rc ->
  forall id, id ∈ changed_of proj (next_request p r (cp_Cursor pd)) rc' ->
    id ∈ changed_of proj p rc /\ id ∉ take m (changed_of proj p rc).
Proof.
  intros Hpg Hnd Hpd Hst' Hs' Ht' id (d & Hd & Hch)%elem_of_changed.
  pose proof (pg_started _ _ _ _ _ _ Hpg) as Hst.
  cbn [next_request an_BaseDigests an_AnchorTurnID] in Hd, Hch. fold (held_after p r) in Hd.
  rewrite (held_after_lookup _ _ _ _ _ _ _ Hpg) in Hd. unfold is_changed in Hch. cbn [fst snd] in Hch.
  rewrite Ht' in Hch. destruct (rc_tokens rc !! id) as [cur|] eqn:Hcur; [|done].
  rewrite !andb_true_iff, !negb_true_iff in Hch. destruct Hch as [[Hne Hcov] _].
  apply bool_decide_eq_false_1 in Hne. case_decide as Hpage; [by injection Hd as <-|].
  rewrite !map_app, !not_elem_of_app in Hpage. destruct Hpage as (Hrefresh & Hturns & Hcorr).
  split; [|by rewrite <- (pg_corrected _ _ _ _ _ _ Hpg)].
  apply elem_of_changed. exists d. split; [done|]. unfold is_changed. cbn [fst snd]. rewrite Hcur.
  rewrite !andb_true_iff, !negb_true_iff. split_and!; [by apply bool_decide_eq_false_2| |].
  - unfold coveredByTurnPhase in *. destruct (indexOfTurn _ id) as [i|] eqn:Hi; [|done].
    rewrite Hs' in Hcov. apply Nat.leb_gt in Hcov. apply Nat.leb_gt. apply indexOfTurn_some in Hi as Hid.
    destruct (decide (i < rc_turnStart rc)%nat) as [|Hge]; [done|]. exfalso. apply Hturns.
    rewrite (pg_turns _ _ _ _ _ _ Hpg).
    change (map tp_TurnID (take k (drop (rc_turnStart rc) (sp_Turns proj)))) with
      (tp_TurnID <$> take k (drop (rc_turnStart rc) (sp_Turns proj))).
    rewrite fmap_take, fmap_drop. apply list_elem_of_lookup. exists (i - rc_turnStart rc)%nat.
    rewrite lookup_take, lookup_drop, decide_True by lia.
    by replace (rc_turnStart rc + (i - rc_turnStart rc))%nat with i by lia.
  - apply andb_false_iff. destruct (first_page p) eqn:Hf; [right|by left].
    apply bool_decide_eq_false_2. intros ->. apply Hrefresh. rewrite (pg_refresh _ _ _ _ _ _ Hpg), Hf.
    pose proof (st_anchor _ _ _ Hst) as Ha. apply indexOfTurn_some in Ha.
    change (map tp_TurnID (sp_Turns proj)) with (tp_TurnID <$> sp_Turns proj) in Ha.
    rewrite list_lookup_fmap in Ha. destruct (sp_Turns proj !! rc_anchorIdx rc); [|done].
    injection Ha as <-. cbn. by left.
Qed.

(** The turns of the session from the cursor on, and those that differ. *)
Definition work (proj : SessionProjection) (p : AnchorNewerParams) (rc : reconciliation) : nat :=
  (length (sp_Turns proj) - rc_turnStart rc + length (changed_of proj p rc))%nat.

Lemma changed_size proj p rc : (length (changed_of proj p rc) <= size (an_BaseDigests p))%nat.
Proof.
  unfold changed_of, changedIDs. rewrite sort_strings_perm, length_map, length_filter.
  by rewrite length_map_to_list.
Qed.

Lemma next_work proj p r rc k m pd rc' :
  page proj p r rc k m -> NoDup (turn_ids proj) -> ar_CorrectionsPending r = Some pd ->
  started proj (next_request p r (cp_Cursor pd)) rc' ->
  rc_turnStart rc' = (rc_turnStart rc + k)%nat -> rc_tokens rc' = rc_tokens rc ->
  (work proj (next_request p r (cp_Cursor pd)) rc' + (k + m) <= work proj p rc)%nat.
Proof.
  intros Hpg Hnd Hpd Hst' Hs' Ht'. pose proof (pg_k _ _ _ _ _ _ Hpg) as Hk. pose proof (pg_m _ _ _ _ _ _ Hpg) as Hm.
  assert (length (changed_of proj (next_request p r (cp_Cursor pd)) rc') <= length (drop m (changed_of proj p rc)))%nat.
  { apply submseteq_length, NoDup_submseteq; [apply NoDup_changed|]. intros id Hid.
    destruct (next_changed _ _ _ _ _ _ _ _ Hpg Hnd Hpd Hst' Hs' Ht' id Hid) as [Hin Hn].
    rewrite <- (take_drop m (changed_of proj p rc)) in Hin. apply elem_of_app in Hin as [|]; done. }
  rewrite length_drop in *. unfold work. rewrite Hs'. lia.
Qed.

(** Every turn from the cursor on comes to be held. *)
Lemma page_holds proj p r rc k m t i :
  page proj p r rc k m -> sp_Turns proj !! i = Some t -> (rc_turnStart rc <= i < rc_turnStart rc + k)%nat ->
  is_Some (held_after p r !! tp_TurnID t).
Proof.
  intros Hpg Hi Hrange. rewrite (held_after_lookup _ _ _ _ _ _ _ Hpg), decide_True; [done|].
  apply list_elem_of_fmap. exists t. split; [done|]. apply elem_of_app. right. apply elem_of_app. left.
  rewrite (pg_turns _ _ _ _ _ _ Hpg). apply list_elem_of_lookup. exists (i - rc_turnStart rc)%nat.
  rewrite lookup_take, lookup_drop, decide_True by lia.
  by replace (rc_turnStart rc + (i - rc_turnStart rc))%nat with i by lia.
Qed.

(** ** The review set of an exchange *)

(** The requests of an exchange, in order. *)
Fixpoint requests (p : AnchorNewerParams) (pages : list (SessionProjection * AnchorNewerResult))
  : list AnchorNewerParams :=
  match pages with
  | [] => []
  | (_, r) :: pages =>
      p :: match ar_CorrectionsPending r with
           | Some pd => requests (next_request p r (cp_Cursor pd)) pages
           | None => []
           end
  end.

Definition ids_from (proj : SessionProjection) (i : nat) : gset string :=
  list_to_set (map tp_TurnID (drop i (sp_Turns proj))).

Lemma in_ids_from proj i j t : sp_Turns proj !! j = Some t -> (i <= j)%nat -> tp_TurnID t ∈ ids_from proj i.
Proof.
  intros Hj Hle. apply elem_of_list_to_set, list_elem_of_fmap. exists t. split; [done|].
  apply list_elem_of_lookup. exists (j - i)%nat. rewrite lookup_drop. by replace (i + (j - i))%nat with j by lia.
Qed.

Lemma ids_from_size proj i : (size (ids_from proj i) <= length (sp_Turns proj) - i)%nat.
Proof.
  unfold ids_from. induction (drop i (sp_Turns proj)) as [|t l IH] eqn:E in i |- *; [cbn; rewrite size_empty; lia|].
  assert (drop (S i) (sp_Turns proj) = l) as Hl by (rewrite <- Nat.add_1_r, <- drop_drop, E; done).
  specialize (IH _ Hl). cbn [map list_to_set]. pose proof (size_union_alt {[tp_TurnID t]} (list_to_set (map tp_TurnID l) : gset string)) as Hu.
  assert (length (drop i (sp_Turns proj)) = S (length l)) as Hlen by (by rewrite E). rewrite length_drop in Hlen. rewrite Hu, size_singleton.
  pose proof (subseteq_size (list_to_set (map tp_TurnID l) ∖ {[tp_TurnID t]} : gset string) (list_to_set (map tp_TurnID l)) ltac:(set_solver)). lia.
Qed.

(** A page adds to the review set only turns from the anchor on. *)
Lemma page_reviews proj p r rc k m :
  page proj p r rc k m -> (rc_anchorIdx rc <= rc_turnStart rc)%nat ->
  dom (held_after p r) ⊆ dom (an_BaseDigests p) ∪ ids_from proj (rc_anchorIdx rc).
Proof.
  intros Hpg Hle id Hid. apply elem_of_dom in Hid. rewrite (held_after_lookup _ _ _ _ _ _ _ Hpg) in Hid.
  apply elem_of_union. destruct (decide (is_Some (an_BaseDigests p !! id))) as [Hb|Hb]; [left; by apply elem_of_dom|right].
  case_decide as Hin; [|done]. rewrite !map_app, !elem_of_app in Hin. destruct Hin as [Hin|[Hin|Hin]].
  - rewrite (pg_refresh _ _ _ _ _ _ Hpg) in Hin. destruct (first_page p); [|by apply elem_of_nil in Hin].
    destruct (sp_Turns proj !! rc_anchorIdx rc) as [a|] eqn:Ha; [|by apply elem_of_nil in Hin].
    cbn in Hin. apply list_elem_of_singleton in Hin as ->. by eapply in_ids_from.
  - rewrite (pg_turns _ _ _ _ _ _ Hpg) in Hin. apply list_elem_of_fmap in Hin as (t & -> & (j & Hj)%list_elem_of_lookup).
    rewrite lookup_take, lookup_drop in Hj. case_decide; [|done]. eapply in_ids_from; [exact Hj|lia].
  - rewrite (pg_corrected _ _ _ _ _ _ Hpg) in Hin. exfalso. apply Hb.
    assert (id ∈ changed_of proj p rc) as (d & Hd & _)%elem_of_changed by (eapply elem_of_sublist; [exact Hin|apply sublist_take]).
    by exists d.
Qed.

Lemma exchange_reviews proj p pages held :
  exchange p pages held -> Forall (fun pr => fst pr = proj) pages -> well_identified proj ->
  forall rc, start_of proj p = inr rc -> (rc_anchorIdx rc <= rc_turnStart rc)%nat ->
  Forall (fun q => dom (an_BaseDigests q) ⊆ dom (an_BaseDigests p) ∪ ids_from proj (rc_anchorIdx rc) /\
    an_AnchorTurnID q = an_AnchorTurnID p /\ an_Limit q = an_Limit p) (requests p pages).
Proof.
  induction 1 as [proj' p r Hr Hnone|proj' p r pd pages held Hr Hpd Hex IH]; intros Hall Hwi rc Hstart Hle; cbn [requests].
  { rewrite Hnone. repeat constructor; set_solver. }
  rewrite Hpd. inversion Hall as [|? ? Hproj Hall']; subst. cbn [fst] in *.
  pose proof (slice_cases proj' p) as Hc. rewrite Hr in Hc. destruct Hc as (rc1 & k & m & Hpg).
  pose proof (pg_start _ _ _ _ _ _ Hpg) as Hs. rewrite Hstart in Hs. injection Hs as <-.
  destruct (next_start _ _ _ _ _ _ _ Hpg Hwi Hpd) as (rc' & Hstart' & Hs' & _).
  assert (rc_anchorIdx rc' = rc_anchorIdx rc) as Ha.
  { pose proof (st_anchor _ _ _ (start_inr _ _ _ Hstart')) as H1. pose proof (st_anchor _ _ _ (start_inr _ _ _ Hstart)) as H2.
    cbn [next_request an_AnchorTurnID] in H1. rewrite H2 in H1. by injection H1. }
  constructor; [split_and!; set_solver|].
  pose proof (page_reviews _ _ _ _ _ _ Hpg Hle) as Hdom.
  eapply Forall_impl; [apply (IH Hall' Hwi _ Hstart'); lia|]. cbn [next_request an_BaseDigests an_AnchorTurnID an_Limit].
  fold (held_after p r). rewrite Ha. intros q (Hq & Hqa & Hql). split_and!; [set_solver|done|done].
Qed.

Lemma requests_length p pages held : exchange p pages held -> length (requests p pages) = length pages.
Proof. induction 1 as [proj p r _ H|proj p r pd pages held _ H _ IH]; cbn; rewrite H; cbn; congruence. Qed.

Lemma gates_open proj p q ai :
  Z.of_nat (size (an_BaseDigests p) + (length (sp_Turns proj) - ai)) <= anchorNewerMaxDigestEntries ->
  an_Limit p <= maxWindowTurns -> an_AnchorTurnID p <> "" ->
  dom (an_BaseDigests q) ⊆ dom (an_BaseDigests p) ∪ ids_from proj ai ->
  an_AnchorTurnID q = an_AnchorTurnID p -> an_Limit q = an_Limit p -> anchor_gates true q = None.
Proof.
  intros Hcap Hlim Hane Hq Hqa Hql. unfold anchor_gates. rewrite Hqa, Hql. cbn [negb].
  rewrite bool_decide_false by done. apply subseteq_size in Hq. rewrite size_union_alt, !size_dom in Hq.
  pose proof (subseteq_size (ids_from proj ai ∖ dom (an_BaseDigests p)) (ids_from proj ai) ltac:(set_solver)).
  pose proof (ids_from_size proj ai).
  destruct (_ >? anchorNewerMaxDigestEntries) eqn:E1; [zprop; lia|]. destruct (_ >? maxWindowTurns) eqn:E2; [zprop; lia|done].
Qed.

Section rest.
Context (proj : SessionProjection) (Hwi : well_identified proj) (sizes : list Z).
Context (Hsizes : sizes_of (sp_Turns proj) = Some sizes).

(** A first request starts after its anchor. *)
Lemma start_first p ai :
  an_CorrectionCursor p = "" -> indexOfTurn (sp_Turns proj) (an_AnchorTurnID p) = Some ai ->
  an_AnchorTurnID p <> "" /\
  exists tokens, start_of proj p =
    inr (mkReconciliation ai sizes (mkAnchorCursor 1 (an_AnchorTurnID p) "") (S ai) tokens).
Proof.
  intros Hfirst Hai. pose proof (tokens_exist _ _ ∅ Hsizes) as [tokens Htokens].
  assert (an_AnchorTurnID p <> "") as Hane.
  { intros Hz. apply (proj2 Hwi). rewrite Hz in Hai. apply indexOfTurn_some in Hai. by eapply list_elem_of_lookup_2. }
  split; [done|]. exists tokens.
  unfold start_reconciliation, BuildAnchorNewerTurnTokens. cbv zeta. rewrite Hai, Hsizes, Htokens.
  rewrite bool_decide_true by done. cbn [ac_LastTurnID]. rewrite bool_decide_false by done. by rewrite Hai.
Qed.

Context (Hquota : Forall (fun size => size <= anchorNewerNeverSplitQuota) sizes).

(** The request is answered, since no turn is too large. *)
Lemma answered p rc : start_of proj p = inr rc -> exists r k m, slice proj p = inr r /\ page proj p r rc k m.
Proof.
  intros Hs. pose proof (slice_cases proj p) as Hc. destruct (slice proj p) as [e|r].
  - destruct Hc as [Hc|(_ & rc' & i & Hst & Hi & _)]; [by rewrite Hs in Hc|exfalso].
    pose proof (st_sizes _ _ _ (start_inr _ _ _ Hst)) as Hz. rewrite Hsizes in Hz. injection Hz as Hz.
    rewrite <- Hz in Hi. unfold size_at in Hi. destruct (nth_in_or_default i sizes 0) as [Hin|Hd].
    + apply list_elem_of_In in Hin. rewrite Forall_forall in Hquota. specialize (Hquota _ Hin). lia.
    + rewrite Hd in Hi. by vm_compute in Hi.
  - destruct Hc as (rc' & k & m & Hpg). exists r, k, m. split; [done|].
    pose proof (pg_start _ _ _ _ _ _ Hpg) as Hs'. rewrite Hs in Hs'. by injection Hs' as <-.
Qed.

Lemma converges_from n p rc :
  start_of proj p = inr rc -> first_page p = false -> (work proj p rc <= n)%nat ->
  exists pages held, exchange p pages held /\ Forall (fun pr => fst pr = proj) pages /\
    (length pages <= S n)%nat /\
    forall i t, sp_Turns proj !! i = Some t -> (rc_turnStart rc <= i)%nat -> is_Some (held !! tp_TurnID t).
Proof.
  revert p rc. induction n as [n IH] using lt_wf_ind. intros p rc Hstart Hf Hwork.
  destruct (answered p rc Hstart) as (r & k & m & Hr & Hpg). pose proof (pg_pending _ _ _ _ _ _ Hpg) as Hp.
  destruct (ar_CorrectionsPending r) as [pd|] eqn:Hpd.
  - destruct (next_start _ _ _ _ _ _ _ Hpg Hwi Hpd) as (rc' & Hstart' & Hs' & Ht').
    pose proof (next_work _ _ _ _ _ _ _ _ Hpg (proj1 Hwi) Hpd (start_inr _ _ _ Hstart') Hs' Ht') as Hw.
    assert (0 < k + m)%nat as Hprog.
    { pose proof (st_sizes _ _ _ (pg_started _ _ _ _ _ _ Hpg)) as Hz. rewrite Hsizes in Hz. injection Hz as Hz.
      rewrite Hz in Hquota. destruct (pg_some _ _ _ _ _ _ Hpg Hf Hquota) as [[Hk Hm]|]; [|done].
      destruct Hp as [[Hp|Hp] _]; lia. }
    destruct (IH (n - (k + m))%nat ltac:(lia) _ _ Hstart') as (pages & held & Hex & Hall & Hlen & Hheld).
    + apply bool_decide_eq_false_2. cbn. destruct Hp as [_ ->]. apply cursor_nonempty.
    + lia.
    + exists ((proj, r) :: pages), held. split_and!; [by eapply exchange_more|by constructor|cbn; lia|].
      intros i t Hi Hge. destruct (decide (rc_turnStart rc + k <= i)%nat) as [Hle|Hlt].
      * apply (Hheld i t Hi). lia.
      * destruct (exchange_last_page _ _ _ Hex) as (_ & _ & _ & _ & _ & _ & _ & _ & _ & _ & Hdom).
        apply Hdom. cbn. eapply (page_holds _ _ _ _ _ _ _ _ Hpg Hi). lia.
  - exists [(proj, r)], (held_after p r). split_and!; [by apply exchange_last|by constructor|cbn; lia|].
    intros i t Hi Hge. eapply (page_holds _ _ _ _ _ _ _ _ Hpg Hi). apply lookup_lt_Some in Hi. lia.
Qed.

(** The whole exchange, from the first page on. *)
Lemma first_exchange p ai :
  an_CorrectionCursor p = "" -> indexOfTurn (sp_Turns proj) (an_AnchorTurnID p) = Some ai ->
  exists pages held, exchange p pages held /\ Forall (fun pr => fst pr = proj) pages /\
    (length pages <= 2 + length (sp_Turns proj) + size (an_BaseDigests p))%nat /\
    (forall i t, sp_Turns proj !! i = Some t -> (ai <= i)%nat -> is_Some (held !! tp_TurnID t)).
Proof.
  intros Hfirst Hai. destruct (start_first p ai Hfirst Hai) as (Hane & tokens & Hstart).
  destruct (answered p _ Hstart) as (r & k & m & Hr & Hpg).
  assert (forall t, sp_Turns proj !! ai = Some t -> is_Some (held_after p r !! tp_TurnID t)) as Hanchor.
  { intros t Ht. rewrite (held_after_lookup _ _ _ _ _ _ _ Hpg), decide_True; [done|].
    rewrite (pg_refresh _ _ _ _ _ _ Hpg). unfold first_page. rewrite bool_decide_true by done.
    cbn [rc_anchorIdx]. rewrite Ht. cbn. by left. }
  destruct (ar_CorrectionsPending r) as [pd|] eqn:Hpd.
  - destruct (next_start _ _ _ _ _ _ _ Hpg Hwi Hpd) as (rc' & Hstart' & Hs' & Ht'). cbn [rc_turnStart] in Hs'.
    destruct (converges_from (work proj p (mkReconciliation ai sizes (mkAnchorCursor 1 (an_AnchorTurnID p) "") (S ai) tokens))
      _ _ Hstart') as (pages & held & Hex & Hall & Hlen & Hheld).
    + apply bool_decide_eq_false_2. cbn. pose proof (pg_pending _ _ _ _ _ _ Hpg) as Hp. rewrite Hpd in Hp.
      destruct Hp as [_ ->]. apply cursor_nonempty.
    + pose proof (next_work _ _ _ _ _ _ _ _ Hpg (proj1 Hwi) Hpd (start_inr _ _ _ Hstart') Hs' Ht'). lia.
    + exists ((proj, r) :: pages), held. split_and!; [by eapply exchange_more|by constructor| |].
      * cbn [length]. pose proof (changed_size proj p (mkReconciliation ai sizes (mkAnchorCursor 1 (an_AnchorTurnID p) "") (S ai) tokens)). unfold work in Hlen.
        cbn [rc_turnStart] in Hlen. lia.
      * intros i t Hi Hge. destruct (exchange_last_page _ _ _ Hex) as (_ & _ & _ & _ & _ & _ & _ & _ & _ & _ & Hdom).
        destruct (decide (i = ai)) as [->|Hne]; [by apply Hdom, Hanchor|].
        destruct (decide (S ai + k <= i)%nat); [apply (Hheld i t Hi); lia|].
        apply Hdom. eapply (page_holds _ _ _ _ _ _ _ _ Hpg Hi). cbn. lia.
  - exists [(proj, r)], (held_after p r). split_and!; [by apply exchange_last|by constructor|cbn; lia|].
    intros i t Hi Hge. destruct (decide (i = ai)) as [->|Hne]; [by apply Hanchor|].
    eapply (page_holds _ _ _ _ _ _ _ _ Hpg Hi). pose proof (pg_pending _ _ _ _ _ _ Hpg) as Hp. rewrite Hpd in Hp.
    cbn in *. apply lookup_lt_Some in Hi. lia.
Qed.

(** C18. While the session is at rest and none of its turns exceeds the quota, a client
    that asks again as the protocol says is done after finitely many pages, at most two
    more than there are turns and reviewed ids; it then holds the committed token of its
    anchor, of every turn after it, and of every turn it asked to review. That is what
    the slice answers; the handler lets a request through to it only when at most 256
    ids are reviewed, and a request reviews again what was delivered. When the set the
    client starts with, the anchor and the turns after it make at most 256, every
    request of the exchange is let through ([HandlerFences.full_review_set_refused] is
    what happens beyond it). *)
Theorem reconciliation_converges p ai :
  an_CorrectionCursor p = "" -> indexOfTurn (sp_Turns proj) (an_AnchorTurnID p) = Some ai ->
  exists pages held, exchange p pages held /\
    (length pages <= 2 + length (sp_Turns proj) + size (an_BaseDigests p))%nat /\
    (forall i t tok, sp_Turns proj !! i = Some t -> token_of t = Some tok ->
       (ai <= i)%nat \/ is_Some (an_BaseDigests p !! tp_TurnID t) -> held !! tp_TurnID t = Some (Some tok)) /\
    (Z.of_nat (size (an_BaseDigests p) + (length (sp_Turns proj) - ai)) <= anchorNewerMaxDigestEntries ->
     an_Limit p <= maxWindowTurns ->
     length (requests p pages) = length pages /\
     Forall (fun q => anchor_gates true q = None) (requests p pages)).
Proof.
  intros Hfirst Hai. destruct (first_exchange p ai Hfirst Hai) as (pages & held & Hex & Hall & Hlen & Hheld).
  exists pages, held. split_and!; [done|done| |].
  - intros i t tok Hi Htok Hcase.
    destruct (exchange_last_page _ _ _ Hex) as (p' & proj' & r' & rc & k' & m' & Hlast & Hpg' & Hnone & -> & Hdom).
    assert (proj' = proj) as ->.
    { rewrite Forall_forall in Hall. apply (Hall (proj', r')). apply last_Some in Hlast as [l ->]. set_solver. }
    eapply last_page_agrees; [exact Hpg'|exact (proj1 Hwi)|done|by eapply list_elem_of_lookup_2|done|].
    destruct Hcase as [Hge|Hbase]; [by eapply Hheld|by apply Hdom].
  - intros Hcap Hlim. split; [by eapply requests_length|].
    destruct (start_first p ai Hfirst Hai) as (Hane & tokens & Hstart).
    eapply Forall_impl; [by apply (exchange_reviews _ _ _ _ Hex Hall Hwi _ Hstart); cbn; lia|].
    cbn [rc_anchorIdx]. intros q (Hq & Hqa & Hql). by apply (gates_open proj p q ai).
Qed.
End rest.

(** ** A turn over the quota *)

(** The request that follows the answer to this one, and the one after [n] answers. *)
Definition follow_up (proj : SessionProjection) (p : AnchorNewerParams) : option AnchorNewerParams :=
  match slice proj p with
  | inr r => (fun pd => next_request p r (cp_Cursor pd)) <$> ar_CorrectionsPending r
  | inl _ => None
  end.

Fixpoint nth_request (proj : SessionProjection) (n : nat) (p : AnchorNewerParams) : option AnchorNewerParams :=
  match n with
  | O => Some p
  | S n => q ← nth_request proj n p; follow_up proj q
  end.

(** A finished exchange over one session is a chain of follow-ups that ends. *)
Lemma exchange_ends proj p pages held n q :
  exchange p pages held -> Forall (fun pr => fst pr = proj) pages -> nth_request proj n q = Some p ->
  exists m q', nth_request proj m q = Some q' /\ follow_up proj q' = None.
Proof.
  intros Hex. revert n. induction Hex as [proj' p r Hr Hnone|proj' p r pd pages held Hr Hpd Hex IH]; intros n Hall Hn;
    inversion Hall as [|? ? Hproj Hall']; subst; cbn [fst] in *.
  - exists n, p. split; [done|]. unfold follow_up. by rewrite Hr, Hnone.
  - apply (IH (S n) Hall'). cbn [nth_request]. rewrite Hn. cbn. unfold follow_up. by rewrite Hr, Hpd.
Qed.

Section stuck.
Context (proj : SessionProjection) (Hwi : well_identified proj) (sizes : list Z).
Context (Hsizes : sizes_of (sp_Turns proj) = Some sizes).
Context (ai big : nat) (Hbig : (ai < big < length (sp_Turns proj))%nat).
Context (Hover : anchorNewerNeverSplitQuota < size_at sizes big).

(** The bytes of the turns a page would have to carry to get past the large one. *)
Lemma past_big p rc k :
  started proj p rc -> (rc_turnStart rc <= big < rc_turnStart rc + k)%nat ->
  anchorNewerNeverSplitQuota < sum_with snd (take k (rest_of proj rc)).
Proof.
  intros Hst Hrange. pose proof (st_sizes _ _ _ Hst) as Hz. rewrite Hsizes in Hz. injection Hz as Hz.
  destruct (rest_of_spec proj p rc 0 Hst) as (_ & _ & Hnn).
  pose proof (sizes_length _ _ Hsizes) as Hlen.
  destruct (lookup_lt_is_Some_2 (sp_Turns proj) big ltac:(lia)) as [t Ht].
  destruct (lookup_lt_is_Some_2 sizes big ltac:(lia)) as [size Hs].
  assert (take k (rest_of proj rc) !! (big - rc_turnStart rc)%nat = Some (t, size)) as Hin.
  { rewrite lookup_take, decide_True by lia. unfold rest_of. rewrite lookup_drop, <- Hz.
    replace (rc_turnStart rc + (big - rc_turnStart rc))%nat with big by lia. apply lookup_zip_Some. by split. }
  apply take_drop_middle in Hin. rewrite <- Hin, sum_with_app. cbn [sum_with snd].
  unfold size_at in Hover. erewrite nth_lookup_Some in Hover by exact Hs.
  pose proof (sum_with_nonneg snd (take (big - rc_turnStart rc) (take k (rest_of proj rc)))) as H1.
  pose proof (sum_with_nonneg snd (drop (S (big - rc_turnStart rc)) (take k (rest_of proj rc)))) as H2.
  specialize (H1 (Forall_take _ _ _ (Forall_take _ _ _ Hnn))). specialize (H2 (Forall_drop _ _ _ (Forall_take _ _ _ Hnn))). lia.
Qed.

Lemma room_quota budget anchor n c :
  0 <= anchor -> room budget anchor n c -> c <= anchorNewerNeverSplitQuota.
Proof.
  intros Ha [_ _ H _]. change anchorNewerTotalHardCapBytes with 50331648 in H.
  change anchorNewerMandatoryReserve with 2097152 in H. change anchorNewerNeverSplitQuota with 48234496. lia.
Qed.

Lemma anchor_size_nonneg p rc : started proj p rc -> 0 <= anchor_size p rc.
Proof.
  intros Hst. unfold anchor_size. destruct (first_page p); [|done].
  apply size_at_nonneg. eapply sizes_nonneg, st_sizes, Hst.
Qed.

(** So no page gets past it. *)
Lemma page_before p r rc k m :
  page proj p r rc k m -> (rc_turnStart rc <= big)%nat -> (rc_turnStart rc + k <= big)%nat /\ m = 0%nat.
Proof.
  intros Hpg Hle. pose proof (pg_started _ _ _ _ _ _ Hpg) as Hst.
  destruct (pg_room _ _ _ _ _ _ Hpg) as (bytes & Hroom & Hbytes).
  assert (rc_turnStart rc + k <= big)%nat as Hk.
  { destruct (decide (rc_turnStart rc + k <= big)%nat) as [|Hn]; [done|exfalso].
    pose proof (past_big p rc k Hst ltac:(lia)). pose proof (room_quota _ _ _ _ (anchor_size_nonneg _ _ Hst) Hroom).
    assert (0 <= turn_bytes (sp_Turns proj) (rc_sizes rc) (take m (changed_of proj p rc))); [|lia].
    apply sum_with_nonneg, Forall_forall. intros id _. destruct (indexOfTurn _ _); [|done].
    apply size_at_nonneg. eapply sizes_nonneg, st_sizes, Hst. }
  split; [done|]. apply (pg_phase _ _ _ _ _ _ Hpg). lia.
Qed.

(** And none is refused. *)
Lemma answered_before p rc :
  start_of proj p = inr rc -> (rc_turnStart rc <= big)%nat ->
  (first_page p = true -> size_at sizes (rc_anchorIdx rc) <= anchorNewerNeverSplitQuota) ->
  exists r k pd, slice proj p = inr r /\ page proj p r rc k 0 /\ (rc_turnStart rc + k <= big)%nat /\
    ar_CorrectionsPending r = Some pd.
Proof.
  intros Hs Hle Hfits. pose proof (start_inr _ _ _ Hs) as Hst. pose proof (slice_cases proj p) as Hc.
  pose proof (st_sizes _ _ _ Hst) as Hz. rewrite Hsizes in Hz. injection Hz as Hz.
  destruct (slice proj p) as [e|r].
  - exfalso. destruct Hc as [Hc|(_ & rc' & i & Hs' & _ & Hcase)]; [by rewrite Hs in Hc|].
    rewrite Hs in Hs'. injection Hs' as <-. destruct Hcase as [Hcase|[n Hcase]].
    + unfold anchor_size in Hcase. rewrite <- Hz in Hcase. destruct (first_page p); [by specialize (Hfits eq_refl); lia|].
      by vm_compute in Hcase.
    + pose proof (past_big p rc (length (sp_Turns proj) - rc_turnStart rc) Hst ltac:(lia)) as Hp.
      destruct (rest_of_spec proj p rc 0 Hst) as (_ & Hlen & _). rewrite take_ge in Hp by lia.
      pose proof (room_quota _ _ _ _ (anchor_size_nonneg _ _ Hst) Hcase). lia.
  - destruct Hc as (rc' & k & m & Hpg). pose proof (pg_start _ _ _ _ _ _ Hpg) as Hs'. rewrite Hs in Hs'. injection Hs' as <-.
    destruct (page_before _ _ _ _ _ Hpg Hle) as [Hk ->]. pose proof (pg_pending _ _ _ _ _ _ Hpg) as Hp.
    destruct (ar_CorrectionsPending r) as [pd|] eqn:Hpd; [|lia]. by exists r, k, pd.
Qed.

(** How far the turns before the large one fit on pages of their own. *)
Definition small_between : Prop :=
  forall i, (ai < i < big)%nat -> size_at sizes i <= anchorNewerNeverSplitQuota.

(** A page that is not the first brings a turn, unless it has come to the large one. *)
Lemma page_progress p r rc k :
  page proj p r rc k 0 -> first_page p = false -> small_between -> (ai < rc_turnStart rc < big)%nat -> (0 < k)%nat.
Proof.
  intros Hpg Hf Hsmall Hrange. pose proof (pg_started _ _ _ _ _ _ Hpg) as Hst.
  pose proof (st_sizes _ _ _ Hst) as Hz. rewrite Hsizes in Hz. injection Hz as Hz.
  pose proof (sizes_length _ _ Hsizes) as Hlen.
  destruct (lookup_lt_is_Some_2 (sp_Turns proj) (rc_turnStart rc) ltac:(lia)) as [t Ht].
  destruct (lookup_lt_is_Some_2 sizes (rc_turnStart rc) ltac:(lia)) as [size Hs].
  apply (pg_turn _ _ _ _ _ _ Hpg Hf). exists t, size, (drop (S (rc_turnStart rc)) (zip (sp_Turns proj) sizes)). split.
  - unfold rest_of. rewrite <- Hz. apply drop_S. apply lookup_zip_Some. by split.
  - specialize (Hsmall _ Hrange). unfold size_at in Hsmall. by erewrite nth_lookup_Some in Hsmall by exact Hs.
Qed.

(** An empty page that is not the first is asked for again as it was. *)
Lemma empty_page_repeats p r rc pd c :
  page proj p r rc 0 0 -> first_page p = false -> an_CorrectionCursor p = encode_cursor c -> ac_V c = 1 ->
  ar_CorrectionsPending r = Some pd -> ar_Turns r = [] /\ next_request p r (cp_Cursor pd) = p.
Proof.
  intros Hpg Hf Hc Hv Hpd.
  assert (ar_Turns r = []) as Hturns by (rewrite (pg_turns _ _ _ _ _ _ Hpg); apply take_0).
  assert (ar_ChangedTurns r = []) as Hcorr.
  { pose proof (pg_corrected _ _ _ _ _ _ Hpg) as H. rewrite take_0 in H. by destruct (ar_ChangedTurns r). }
  assert (ar_AnchorRefresh r = None) as Hrefresh by (rewrite (pg_refresh _ _ _ _ _ _ Hpg), Hf; done).
  split; [done|]. pose proof (pg_pending _ _ _ _ _ _ Hpg) as Hp. rewrite Hpd in Hp. destruct Hp as [_ Hcur].
  pose proof (st_cursor _ _ _ (pg_started _ _ _ _ _ _ Hpg)) as Hst. rewrite Hf, Hc, cursor_roundtrip in Hst.
  injection Hst as Hcc. rewrite Hturns, Hcorr, <- Hcc in Hcur. unfold last_id in Hcur. cbn [last] in Hcur.
  assert (ar_TurnTokens r = ∅) as Htok.
  { apply map_eq. intros id. rewrite (pg_tokens _ _ _ _ _ _ Hpg), Hrefresh, Hturns, Hcorr, lookup_empty. done. }
  unfold next_request. rewrite Htok, fmap_empty, (left_id_L ∅ (∪)), Hcur.
  destruct c as [v last_ through]. cbn in Hv. subst v. cbn [ac_LastTurnID ac_ChangedThrough].
  rewrite <- Hc. by destruct p.
Qed.

(** Where the requests of the chain start. *)
Record short_of (n : nat) (q : AnchorNewerParams) (rc : reconciliation) : Prop := {
  so_start : start_of proj q = inr rc;
  so_range : (ai < rc_turnStart rc <= big)%nat;
  so_first : first_page q = true -> n = 0%nat /\ rc_anchorIdx rc = ai;
  so_cursor : first_page q = false -> exists c, an_CorrectionCursor q = encode_cursor c /\ ac_V c = 1;
  so_far : small_between -> (Nat.min big (ai + n) <= rc_turnStart rc)%nat
}.

Lemma short_of_next n q rc :
  short_of n q rc -> size_at sizes ai <= anchorNewerNeverSplitQuota ->
  exists r k pd q' rc', slice proj q = inr r /\ page proj q r rc k 0 /\ (rc_turnStart rc + k <= big)%nat /\
    ar_CorrectionsPending r = Some pd /\ q' = next_request q r (cp_Cursor pd) /\ follow_up proj q = Some q' /\
    short_of (S n) q' rc'.
Proof.
  intros [Hs Hrange Hfirst Hcur Hfar] Hfits.
  destruct (answered_before q rc Hs ltac:(lia)) as (r & k & pd & Hr & Hpg & Hk & Hpd).
  { intros Hf. by destruct (Hfirst Hf) as [_ ->]. }
  destruct (next_start _ _ _ _ _ _ _ Hpg Hwi Hpd) as (rc' & Hs' & Hstart' & _).
  pose proof (pg_pending _ _ _ _ _ _ Hpg) as Hp. rewrite Hpd in Hp. destruct Hp as [_ Hc].
  assert (first_page (next_request q r (cp_Cursor pd)) = false) as Hf'.
  { apply bool_decide_eq_false_2. cbn. rewrite Hc. apply cursor_nonempty. }
  exists r, k, pd, (next_request q r (cp_Cursor pd)), rc'. split_and!; try done.
  { unfold follow_up. by rewrite Hr, Hpd. }
  split; [done|lia|by rewrite Hf'|by eauto|]. intros Hsmall. specialize (Hfar Hsmall).
  destruct (decide (rc_turnStart rc = big)) as [|Hne]; [lia|].
  destruct (first_page q) eqn:Hf; [destruct (Hfirst eq_refl) as [-> _]; lia|].
  pose proof (page_progress q r rc k Hpg Hf Hsmall ltac:(lia)). lia.
Qed.

Lemma short_of_nth p n :
  an_CorrectionCursor p = "" -> indexOfTurn (sp_Turns proj) (an_AnchorTurnID p) = Some ai ->
  size_at sizes ai <= anchorNewerNeverSplitQuota ->
  exists q rc, nth_request proj n p = Some q /\ short_of n q rc.
Proof.
  intros Hfirst Hai Hfits. induction n as [|n (q & rc & Hq & Hso)].
  - destruct (start_first proj Hwi sizes Hsizes p ai Hfirst Hai) as (_ & tokens & Hs).
    exists p, (mkReconciliation ai sizes (mkAnchorCursor 1 (an_AnchorTurnID p) "") (S ai) tokens).
    split; [done|]. split; cbn; [done|lia|done| |lia].
    unfold first_page. by rewrite bool_decide_true.
  - destruct (short_of_next n q rc Hso Hfits) as (r & k & pd & q' & rc' & _ & _ & _ & _ & _ & Hf & Hso').
    exists q', rc'. split; [|done]. cbn [nth_request]. by rewrite Hq.
Qed.

End stuck.
End pages.
