(* ===== verification/AnchorWitness.v ===== *)
(** * Reconciliation at concrete sessions, and where it does not end *)

From S2P Require Import Prelude.
From S2P Require Import BitText.
From S2P Require Import GoText.
From S2P Require Import Wire.
From S2P Require Import Projection.
From S2P Require Import Windows.
From S2P Require Import WindowWalk.
From S2P Require Import AnchorNewer.
From S2P Require Import WindowHandlers.
From S2P Require Import AnchorWalk.

(** A cursor as a text of its bits. *)
Definition cursor_text (c : anchorNewerCursorState) : string :=
  text_of (ac_V c, ac_LastTurnID c, ac_ChangedThrough c).

Definition text_cursor (s : string) : option anchorNewerCursorState :=
  vlc ← (of_text s : option (Z * string * string));
  let '(v, last_, through) := vlc in Some (mkAnchorCursor v last_ through).

Lemma cursor_text_roundtrip c : text_cursor (cursor_text c) = Some c.
Proof. unfold text_cursor, cursor_text. rewrite of_text_of. by destruct c. Qed.

Lemma cursor_text_nonempty c : cursor_text c <> "".
Proof. apply text_of_nonempty. Qed.

(** A turn is its own encoding, of 10 bytes, or 50 MB when its status is ["huge"]; its
    digest is made of its identity and status. *)
Definition wit_len (t : TurnProjection) : N := if bool_decide (tp_Status t = "huge") then 50000000%N else 10%N.
Definition wit_sha (t : TurnProjection) : list Z := bytes_of (tp_TurnID t +:+ tp_Status t).

Definition turn_in (id status : string) : TurnProjection :=
  mkTurnProjection id status 0 0 0 None None None "" "" false 0 None 0 0 0 VNil.

Definition session_of (turns : list TurnProjection) : SessionProjection :=
  mkSessionProjection "s" 1 "e" 0 (mkExecutionView "idle" "") turns None None None None None.

Definition wit_slice := sliceAnchorNewerReconciliation cursor_text text_cursor Some wit_len wit_sha.
Definition wit_exchange := exchange cursor_text text_cursor Some wit_len wit_sha.

Definition wit_token (id status : string) : string := hex_of (bytes_of (id +:+ status)).

(** The cache knows [t1] as it is, [t2] as it was, and [t0], which is gone. *)
Definition wit_request : AnchorNewerParams :=
  mkAnchorParams "s" "claude" "t2"
    {[ "t0" := Some "x"; "t1" := Some (wit_token "t1" "completed"); "t2" := Some (wit_token "t2" "running") ]} 1 "" "".

Definition wit_before : SessionProjection :=
  session_of [turn_in "t1" "completed"; turn_in "t2" "completed"; turn_in "t3" "running"; turn_in "t4" "running"].
(** Before the second page [t3] ends, and [t1] is told otherwise. *)
Definition wit_after : SessionProjection :=
  session_of [turn_in "t1" "error"; turn_in "t2" "completed"; turn_in "t3" "completed"; turn_in "t4" "running"].

Lemma pages_bounded_witness :
  exists r, wit_slice wit_before wit_request = inr r /\ zlen (ar_Turns r) <= 1.
Proof.
  eexists. split; [vm_compute; reflexivity|].
  destruct (pages_bounded cursor_text text_cursor Some wit_len wit_sha wit_before wit_request) as [_ H].
  specialize (H _ ltac:(vm_compute; reflexivity)). exact (proj2 (proj2 H)).
Defined.

Lemma wit_two_pages :
  exists r1 r2 held, wit_exchange wit_request [(wit_before, r1); (wit_after, r2)] held.
Proof.
  do 3 eexists. eapply exchange_more; [vm_compute; reflexivity|vm_compute; reflexivity|].
  eapply exchange_last; vm_compute; reflexivity.
Qed.

Lemma exchange_agrees_witness :
  exists pages held, wit_exchange wit_request pages held /\
    held !! "t1" = Some (Some (wit_token "t1" "error")).
Proof.
  destruct wit_two_pages as (r1 & r2 & held & Hex). do 2 eexists. split; [exact Hex|].
  destruct (exchange_agrees cursor_text text_cursor Some wit_len wit_sha _ _ _ wit_after r2 Hex eq_refl
    ltac:(apply (bool_decide_unpack _); vm_compute; exact I)) as (Hagree & _ & Hknown).
  apply (Hagree (turn_in "t1" "error")); [cbn; by left|vm_compute; reflexivity|].
  apply Hknown. vm_compute. by eexists.
Defined.

Lemma wit_before_identified : well_identified wit_before.
Proof.
  split; [apply (bool_decide_unpack (NoDup _))|apply (bool_decide_unpack (_ ∉ _))]; vm_compute; exact I.
Qed.

Lemma reconciliation_converges_witness :
  exists pages held, wit_exchange wit_request pages held /\ (length pages <= 9)%nat /\
    Forall (fun q => anchor_gates true q = None) (requests wit_request pages).
Proof.
  destruct (reconciliation_converges cursor_text text_cursor Some wit_len wit_sha cursor_text_roundtrip
    cursor_text_nonempty wit_before
    wit_before_identified [10; 10; 10; 10] eq_refl) with (p := wit_request) (ai := 1%nat)
    as (pages & held & Hex & Hlen & _ & Hopen).
  - repeat constructor; vm_compute; discriminate.
  - reflexivity.
  - reflexivity.
  - exists pages, held. split; [exact Hex|]. split; [by vm_compute in Hlen|].
    apply Hopen; vm_compute; discriminate.
Defined.

(** ** A turn over the quota *)

Definition huge_session : SessionProjection := session_of [turn_in "t1" "completed"; turn_in "t2" "completed"; turn_in "t3" "huge"; turn_in "t4" "running"].
Definition huge_request : AnchorNewerParams := mkAnchorParams "s" "claude" "t1" ∅ 0 "" "".

Lemma huge_identified : well_identified huge_session.
Proof.
  split; [apply (bool_decide_unpack (NoDup _))|apply (bool_decide_unpack (_ ∉ _))]; vm_compute; exact I.
Qed.

