(* ===== verification/HandlerFences.v ===== *)
(** * No answer leaves a fence behind, but for two

    A pull holds the live patches of its connection behind a fence, which its answer
    releases. Every way through the handlers of windows releases it, except for a
    request without an id and a reconciliation asked in an unknown form. *)

From S2P Require Import Prelude.
From S2P Require Import Wire.
From S2P Require Import Projection.
From S2P Require Import Kernel.
From S2P Require Import Broadcaster.
From S2P Require Import Observation.
From S2P Require Import OutboundSink.
From S2P Require Import Publisher.
From S2P Require Import PublisherLink.
From S2P Require Import PublisherStream.
From S2P Require Import Windows.
From S2P Require Import AnchorNewer.
From S2P Require Import AnchorWalk.
From S2P Require Import BitText.
From S2P Require Import AnchorWitness.
From S2P Require Import WindowSummary.
From S2P Require Import WindowHandlers.

Section fences.
Context {K : Type} `{!ProjectionHead K}.
Implicit Types p : EventPublisher (K := K).

Lemma begin_refused conn bk s p e p1 :
  BeginProjectionSnapshot conn bk s p = (inl e, p1) -> p1 = p.
Proof.
  unfold BeginProjectionSnapshot, beginProjectionSnapshotLocked. cbv zeta. case_if; [by intros [= _ <-]|].
  destruct (projectionFences p !! _); [by intros [= _ <-]|].
  destruct (head_snapshot _ _ _); [|by intros [= _ <-]]. by destruct (registerConnectionLocked conn p).
Qed.

(** A snapshot opens one fence. *)
Lemma begin_fences conn bk s p proj adm p1 :
  BeginProjectionSnapshot conn bk s p = (inr (proj, adm), p1) ->
  head_snapshot bk s (ep_head p) = Some proj /\ projectionFences p !! fence_key conn bk s = None /\
  exists f, projectionFences p1 = <[fence_key conn bk s := f]> (projectionFences p) /\
    ad_BackendID adm = bk /\ ad_SessionID adm = s /\ admitted_fence conn adm p1 = Some f.
Proof.
  unfold BeginProjectionSnapshot. case_if; [done|]. intros Hb.
  destruct (begin_spec (fun _ => None) _ _ _ _ _ _ _ Hb) as (Hs & Hnone & (f & Hl & ->) & Hg & Hbk & Hsid & He & _ & _ & _ & _ & He1).
  split; [done|]. split; [done|].
  exists (mkFence (ad_fenceID adm) (ad_ConnectionGeneration adm) (sp_SyncRev proj) (sp_SyncRev proj) [] 0 false).
  split; [|split; [exact Hbk|split; [exact Hsid|]]].
  - revert Hb. unfold beginProjectionSnapshotLocked. cbv zeta. rewrite Hnone, Hs.
    unfold registerConnectionLocked. cbv zeta. destruct (negb _); intros [= <- <-]; reflexivity.
  - unfold admitted_fence. rewrite Hbk, Hsid. pose proof (f_equal lk_fence Hl) as Hf. cbn in Hf. rewrite Hf.
    rewrite bool_decide_true; [done|]. cbn. rewrite Hg, He, He1. done.
Qed.

(** And an answer closes it. *)
Lemma complete_fences conn adm req data held err p f :
  req <> "" -> admitted_fence conn adm p = Some f ->
  projectionFences (snd (completeProjectionSnapshot conn adm req data held err p)) =
  delete (fence_key conn (ad_BackendID adm) (ad_SessionID adm)) (projectionFences p).
Proof.
  intros Hreq Hadm. unfold completeProjectionSnapshot. rewrite bool_decide_false by done. cbv zeta. rewrite Hadm.
  destruct (bool_decide _ && _)%bool; (destruct (_ <? _); [done|]); by destruct (fe_invalidated f).
Qed.

Section answers.
Context {Wire : Type} (encode_cursor : projectionWindowCursor -> Wire)
  (unmarshal_cursor : Wire -> option projectionWindowCursor).
Context (encode_anchor : anchorNewerCursorState -> string)
  (unmarshal_anchor : string -> option anchorNewerCursorState).
Context {Bytes : Type} (marshal_turn : TurnProjection -> option Bytes) (len : Bytes -> N)
  (sha256 : Bytes -> list Z) (marshal_part : ProjectionPart -> option N).
Context (json : payload (Wire := Wire) -> value) (json_error : WireError -> value).

Lemma complete_releases conn bk s p proj adm p1 req data held :
  req <> "" -> BeginProjectionSnapshot conn bk s p = (inr (proj, adm), p1) ->
  projectionFences (snd (complete json conn adm req data held p1)) = projectionFences p.
Proof.
  intros Hreq Hb. destruct (begin_fences _ _ _ _ _ _ _ Hb) as (_ & Hnone & f & Hf & Hbk & Hs & Hadm).
  unfold complete. pose proof (complete_fences conn adm req (json data) held None p1 f Hreq Hadm) as Hc.
  unfold CompleteProjectionSnapshotWithHeldTurns. destruct (completeProjectionSnapshot _ _ _ _ _ _ _) as [e p2].
  cbn [snd] in *. by rewrite Hc, Hf, Hbk, Hs, delete_insert_id.
Qed.

Lemma complete_error_releases conn bk s p proj adm p1 req e :
  req <> "" -> BeginProjectionSnapshot conn bk s p = (inr (proj, adm), p1) ->
  projectionFences (snd (complete_error json_error conn adm req e p1)) = projectionFences p.
Proof.
  intros Hreq Hb. destruct (begin_fences _ _ _ _ _ _ _ Hb) as (_ & Hnone & f & Hf & Hbk & Hs & Hadm).
  unfold complete_error.
  pose proof (complete_fences conn adm req VNil [] (Some (json_error e)) p1 f Hreq Hadm) as Hc.
  unfold CompleteProjectionSnapshotError. destruct (completeProjectionSnapshot _ _ _ _ _ _ _) as [e' p2].
  cbn [snd] in *. by rewrite Hc, Hf, Hbk, Hs, delete_insert_id.
Qed.

Abbreviation answer_window := (answer_window encode_cursor unmarshal_cursor marshal_turn len json json_error).
Abbreviation answer_window_v2 :=
  (answer_window_v2 encode_cursor unmarshal_cursor marshal_turn len marshal_part json json_error).
Abbreviation answer_anchor_newer :=
  (answer_anchor_newer encode_anchor unmarshal_anchor marshal_turn len sha256 marshal_part json json_error).

(** The forms a reconciliation may be asked in: whole turns, or on claude rows. *)
Definition known_form (bk : string) (itemsView : string) : Prop :=
  itemsView = "" \/ itemsView = "summary" /\ is_claude bk = true.

(** C20. From the snapshot on, whatever a request with an id asks for, and whether it is
    answered with a window, a page or an error, it leaves the fences as they were: the
    connection goes on receiving patches and may pull again. A window may be asked for in
    any form; a reconciliation in one the handler knows, which are no [itemsView] and, on
    claude, the summary ([unknown_view_leaves_fence] is what the others do). *)
Theorem answers_release_fences conn bk epoch req view p :
  req <> "" ->
  (forall params upstream g,
     projectionFences (snd (fst (answer_window conn bk epoch req params upstream p g))) = projectionFences p) /\
  (forall params upstream g,
     projectionFences (snd (fst (answer_window_v2 conn bk epoch req view params upstream p g))) = projectionFences p) /\
  (forall params, known_form bk (an_ItemsView params) ->
     projectionFences (snd (answer_anchor_newer conn bk req params p)) = projectionFences p).
Proof.
  intros Hreq. split; [|split].
  - intros params upstream g. unfold WindowHandlers.answer_window.
    destruct (BeginProjectionSnapshot conn bk _ p) as [[e|[proj adm]] p1] eqn:Hb.
    + by rewrite (begin_refused _ _ _ _ _ _ Hb).
    + destruct (sliceProjectionWindowWithUpstream _ _ _ _ _ _ _ _ _ _) as [[e|r] g']; cbn [fst].
      * by eapply complete_error_releases.
      * by eapply complete_releases.
  - intros params upstream g. unfold WindowHandlers.answer_window_v2.
    destruct (BeginProjectionSnapshot conn bk _ p) as [[e|[proj adm]] p1] eqn:Hb.
    + by rewrite (begin_refused _ _ _ _ _ _ Hb).
    + cbv zeta. destruct (sliceProjectionWindowWithBudget _ _ _ _ _ _ _ _ _ _ _) as [[e|r] g']; cbn [fst].
      * by eapply complete_error_releases.
      * destruct (bool_decide (view = "full")); [by eapply complete_releases|].
        destruct (summarizeWindowTurns _ _ _ _) as [e|[rows budget]];
          [by eapply complete_error_releases|by eapply complete_releases].
  - intros params Hview. unfold WindowHandlers.answer_anchor_newer.
    destruct (BeginProjectionSnapshot conn bk _ p) as [[e|[proj adm]] p1] eqn:Hb.
    + by rewrite (begin_refused _ _ _ _ _ _ Hb).
    + assert ((bool_decide (an_ItemsView params = "summary") && negb (is_claude bk))%bool = false) as ->.
      { destruct Hview as [->|[-> ->]]; [done|]. by rewrite andb_false_r. }
      assert ((negb (bool_decide (an_ItemsView params = "")) && negb (bool_decide (an_ItemsView params = "summary")))%bool = false) as ->.
      { by destruct Hview as [->|[-> _]]. }
      destruct (sliceAnchorNewerReconciliation _ _ _ _ _ _ _) as [e|result]; [by eapply complete_error_releases|].
      destruct (bool_decide (an_ItemsView params = "summary")); [|by eapply complete_releases].
      destruct (summarize_page _ _ _ _ _) as [e|wire]; [by eapply complete_error_releases|by eapply complete_releases].
Qed.

(** While its fence is there, a session is not read again for the connection. *)
Lemma fenced_refused conn bk s p :
  bk <> "" -> s <> "" -> is_Some (projectionFences p !! fence_key conn bk s) ->
  BeginProjectionSnapshot conn bk s p = (inl SnapshotAlreadyPending, p) /\
  forall since now, BeginProjectionSnapshotWithResume conn bk s since now p = (inl SnapshotAlreadyPending, p).
Proof.
  intros Hbk Hs [f Hf]. unfold BeginProjectionSnapshot, BeginProjectionSnapshotWithResume.
  rewrite bool_decide_false by tauto. unfold beginProjectionSnapshotLocked. cbv zeta. by rewrite Hf.
Qed.

(** A window, a page or a pull of the session on the connection is refused. *)
Definition shut_out (conn : Connection) (bk s : string) (p : EventPublisher (K := K)) : Prop :=
  (forall epoch req params upstream g, wp_SessionID params = s ->
     answer_window conn bk epoch req params upstream p g = (SendResult not_ready, p, g)) /\
  (forall epoch req view params upstream g, wp_SessionID params = s ->
     answer_window_v2 conn bk epoch req view params upstream p g = (SendResult not_ready, p, g)) /\
  (forall req params, an_SessionID params = s ->
     answer_anchor_newer conn bk req params p = (SendResult not_ready, p)) /\
  (forall since now, BeginProjectionSnapshotWithResume conn bk s since now p = (inl SnapshotAlreadyPending, p)).

Lemma fenced_shut_out conn bk s p :
  bk <> "" -> s <> "" -> is_Some (projectionFences p !! fence_key conn bk s) -> shut_out conn bk s p.
Proof.
  intros Hbk Hs Hf. destruct (fenced_refused conn bk s p Hbk Hs Hf) as [Hb Hr].
  split_and!; [| | |exact Hr].
  - intros epoch req params upstream g Hsid. unfold WindowHandlers.answer_window. by rewrite Hsid, Hb.
  - intros epoch req view params upstream g Hsid. unfold WindowHandlers.answer_window_v2. by rewrite Hsid, Hb.
  - intros req params Hsid. unfold WindowHandlers.answer_anchor_newer. by rewrite Hsid, Hb.
Qed.

(** C21. A reconciliation asked in a form the handler does not know - any [itemsView] but
    none and the summary, and the summary on another backend than claude - is refused
    as invalid after its fence was opened, and leaves it. For as long as the fence is
    there, whatever else has happened, the session is shut to the connection: every
    window of either version and every page is answered that it is not ready, and every
    pull is refused as already pending. *)
Theorem unknown_view_leaves_fence conn bk req params p proj :
  bk <> "" -> an_SessionID params <> "" -> head_snapshot bk (an_SessionID params) (ep_head p) = Some proj ->
  projectionFences p !! fence_key conn bk (an_SessionID params) = None ->
  ~ known_form bk (an_ItemsView params) ->
  let '(r, p') := answer_anchor_newer conn bk req params p in
  r = SendResult (mkWireError "invalid_params"
        (if bool_decide (an_ItemsView params = "summary") then Some false else None)) /\
  is_Some (projectionFences p' !! fence_key conn bk (an_SessionID params)) /\
  forall later, is_Some (projectionFences later !! fence_key conn bk (an_SessionID params)) ->
    shut_out conn bk (an_SessionID params) later.
Proof.
  intros Hbk Hs Hproj Hnone Hform. unfold WindowHandlers.answer_anchor_newer.
  destruct (BeginProjectionSnapshot conn bk _ p) as [[e|[proj' adm]] p1] eqn:Hb.
  - exfalso. revert Hb. unfold BeginProjectionSnapshot, beginProjectionSnapshotLocked. cbv zeta.
    rewrite bool_decide_false by tauto. rewrite Hnone, Hproj. by destruct (registerConnectionLocked conn p).
  - destruct (begin_fences _ _ _ _ _ _ _ Hb) as (_ & _ & f & Hf & _).
    assert (is_Some (projectionFences p1 !! fence_key conn bk (an_SessionID params))) as Hkey
      by by rewrite Hf, lookup_insert_eq.
    assert (forall later, is_Some (projectionFences later !! fence_key conn bk (an_SessionID params)) ->
      shut_out conn bk (an_SessionID params) later) as Hlater by (intros; by apply fenced_shut_out).
    assert (an_ItemsView params <> "") as Hv by (intros Hv; apply Hform; by left).
    rewrite (bool_decide_false (an_ItemsView params = "")) by done. case_bool_decide as Hsum.
    + assert (is_claude bk = false) as -> by (destruct (is_claude bk) eqn:E; [exfalso; apply Hform; by right|done]).
      by split_and!.
    + by split_and!.
Qed.

(** So does a request without an id, although it is answered to nobody. *)
Theorem unnamed_request_leaves_fence conn bk epoch params upstream p g proj :
  bk <> "" -> wp_SessionID params <> "" -> head_snapshot bk (wp_SessionID params) (ep_head p) = Some proj ->
  projectionFences p !! fence_key conn bk (wp_SessionID params) = None ->
  let '(r, p', g') := answer_window conn bk epoch "" params upstream p g in
  r = Completed (Some SnapshotIdentityRequired) /\
  exists f, projectionFences p' !! fence_key conn bk (wp_SessionID params) = Some f.
Proof.
  intros Hbk Hs Hproj Hnone. unfold WindowHandlers.answer_window.
  destruct (BeginProjectionSnapshot conn bk _ p) as [[e|[proj' adm]] p1] eqn:Hb.
  - exfalso. revert Hb. unfold BeginProjectionSnapshot, beginProjectionSnapshotLocked. cbv zeta.
    rewrite bool_decide_false by tauto. rewrite Hnone, Hproj. by destruct (registerConnectionLocked conn p).
  - destruct (begin_fences _ _ _ _ _ _ _ Hb) as (_ & _ & f & Hf & _).
    destruct (sliceProjectionWindowWithUpstream _ _ _ _ _ _ _ _ _ _) as [[e|r] g'];
      (split; [done|exists f; cbn; by rewrite Hf, lookup_insert_eq]).
Qed.
End answers.
End fences.

(** ** At a concrete bridge *)

(** A head that knows the sessions of a table, and has nothing pending. *)
#[local] Instance session_head : ProjectionHead (gmap string SessionProjection) := {|
  head_is_kernel := true;
  head_issue _ _ k := (0, k);
  head_ingest _ _ k := (ProjectionIngestNoChange, k);
  head_snapshot _ s k := k !! s;
  head_flush _ _ k := (None, k);
  head_exceeds _ _ _ k := (false, k);
  head_drop _ _ k := (false, k)
|}.

Definition wit_bridge : EventPublisher (K := gmap string SessionProjection) :=
  RegisterConnection 1%nat
    (NewEventPublisher "e" (Some NewBroadcaster)
       {["s" := session_of [turn_in "t1" "completed"; turn_in "t2" "completed"]]}).

(** Cursors travel as they are, and answers are empty. *)
Definition wit_window :=
  answer_window (K := gmap string SessionProjection) (fun c => c) Some Some wit_len (fun _ => VNil) (fun _ => VNil).
Definition wit_anchor :=
  answer_anchor_newer (K := gmap string SessionProjection) (Wire := projectionWindowCursor) cursor_text text_cursor
    Some wit_len wit_sha (fun _ => Some 1%N) (fun _ => VNil) (fun _ => VNil).

Definition first_window : GetSessionProjectionWindowParams (Wire := projectionWindowCursor) :=
  mkWindowParams "s" "claude" "window_0" (mkWindowCursor 1 "" "" "" "" "") 0 "".

Lemma answers_release_fences_witness :
  let '(r, p', _) := wit_window 1%nat "claude" "e" "r1" first_window false wit_bridge 0 in
  r = Completed None /\ projectionFences p' = projectionFences wit_bridge.
Proof.
  pose proof (proj1 (answers_release_fences (K := gmap string SessionProjection) (fun c => c) Some cursor_text text_cursor
    Some wit_len wit_sha (fun _ => Some 1%N) (fun _ => VNil) (fun _ => VNil) 1%nat "claude" "e" "r1" "summary" wit_bridge
    ltac:(discriminate)) first_window false 0) as H.
  assert (fst (fst (wit_window 1%nat "claude" "e" "r1" first_window false wit_bridge 0)) = Completed None) as Hr
    by (vm_compute; reflexivity).
  fold wit_window in H. destruct (wit_window _ _ _ _ _ _ _ _) as [[r p'] g']. by split.
Defined.

Definition detailed_request : AnchorNewerParams := mkAnchorParams "s" "claude" "t1" ∅ 0 "" "detail".

Definition wit_window_v2 :=
  answer_window_v2 (K := gmap string SessionProjection) (fun c => c) Some Some wit_len (fun _ => Some 1%N)
    (fun _ => VNil) (fun _ => VNil).

Lemma unknown_view_leaves_fence_witness :
  let '(r, p') := wit_anchor 1%nat "claude" "r1" detailed_request wit_bridge in
  r = SendResult (mkWireError "invalid_params" None) /\
  wit_window 1%nat "claude" "e" "r2" first_window false p' 0 = (SendResult not_ready, p', 0) /\
  wit_window_v2 1%nat "claude" "e" "r3" "full" first_window false p' 0 = (SendResult not_ready, p', 0) /\
  BeginProjectionSnapshotWithResume 1%nat "claude" "s" 0 0 p' = (inl SnapshotAlreadyPending, p').
Proof.
  pose proof (unknown_view_leaves_fence (K := gmap string SessionProjection) (fun c => c) Some cursor_text text_cursor
    Some wit_len wit_sha (fun _ => Some 1%N) (fun _ => VNil) (fun _ => VNil) 1%nat "claude" "r1" detailed_request wit_bridge
    _ ltac:(discriminate) ltac:(discriminate) eq_refl eq_refl ltac:(intros [H|[H _]]; discriminate H)) as H.
  fold wit_anchor in H. destruct (wit_anchor _ _ _ _ _) as [r p']. destruct H as (Hr & Hfence & Hshut).
  destruct (Hshut p' Hfence) as (Hw & Hw2 & _ & Hpull).
  split_and!; [exact Hr|exact (Hw "e" "r2" first_window false 0 eq_refl)|
    exact (Hw2 "e" "r3" "full" first_window false 0 eq_refl)|exact (Hpull 0 0)].
Defined.

(** ** The review set outgrows its cap *)

Definition numbered (n : nat) : string := bits (Pos.of_nat n).

(** A cache of 256 turns of a session that has gained two. *)
Definition full_cache : SessionProjection :=
  session_of (map (fun n => turn_in (numbered n) "completed") (seq 1 258)).

Definition full_cache_request : AnchorNewerParams :=
  mkAnchorParams "s" "claude" (numbered 256)
    (list_to_map (map (fun n => (numbered n, Some (wit_token (numbered n) "completed"))) (seq 1 256))) 1 "" "".

(** A client whose review set is at the cap is answered a first page that asks to be
    continued with everything reviewed and delivered: that request exceeds the cap, and
    is refused. *)
Theorem full_review_set_refused :
  exists r pd,
    anchor_gates true full_cache_request = None /\
    wit_slice full_cache full_cache_request = inr r /\ length (ar_Turns r) = 1%nat /\
    ar_CorrectionsPending r = Some pd /\
    anchor_gates true (next_request full_cache_request r (cp_Cursor pd)) =
      Some (mkWireError "invalid_params" (Some false)).
Proof.
  do 2 eexists. do 4 (split; [vm_compute; reflexivity|]). vm_compute. reflexivity.
Qed.
