(* ===== verification/PinStore.v ===== *)
(** * The pin store (pinstore/store.go)

    The pins of the sessions, kept in one JSON file: every operation loads the file,
    works on the map it holds and, when it changes something, replaces the file. The
    operations hold one mutex throughout, so that each is one step. The file is
    missing, unreadable, or a text; the JSON of a pin file is a pair of parameters,
    and whether a write succeeds is an argument ([AtomicWriteFile] replaces the file
    by a rename, so a write that fails leaves it). A Go map is ranged over in an
    arbitrary order, an argument of the operations that do. A nil entry, which a JSON
    [null] decodes to, makes the code that reads its fields panic. An instant is in
    nanoseconds, [None] for the zero [time.Time]. *)

From S2P Require Import Prelude.
From S2P Require Import TextOrder.
From S2P Require Import BitText.
From S2P Require Import GoText.

(** ** Data *)

Record Entry : Type := mkEntry {
  BackendID : string;
  SessionID : string;
  Directory : string;
  PinnedAtMillis : Z
}.
Definition no_entry : Entry := mkEntry "" "" "" 0.

#[export] Instance Entry_eq_dec : EqDecision Entry.
Proof. solve_decision. Defined.

(** [core.SessionPin] *)
Record SessionPin : Type := mkPin {
  pin_BackendID : string;
  pin_SessionID : string;
  pin_Directory : string;
  pin_PinnedAt : option Z
}.

Definition PinnedAt (e : Entry) : option Z :=
  if PinnedAtMillis e <=? 0 then None else Some (PinnedAtMillis e * millisecond).

Definition ToPin (e : Entry) : SessionPin :=
  mkPin (BackendID e) (SessionID e) (Directory e) (PinnedAt e).

(** The map of a pin file; an entry may be nil. *)
Abbreviation pins := (gmap string (option Entry)).

Record pinFile : Type := mkPinFile { pf_Version : Z; pf_Pins : option pins }.

Definition fileVersion : Z := 1.

(** What is at the store's path. *)
Inductive File : Type := Missing | Unreadable | Content (text : string).

Inductive StoreError : Type :=
| ErrRequired      (** backendId and sessionId are required *)
| ErrRead
| ErrDecode
| ErrWrite.

(** An operation ends in a value, or in a panic. *)
Inductive outcome (A : Type) : Type := Done (a : A) | Panic.
Arguments Done {A} _.
Arguments Panic {A}.

Definition key (backendID scope sessionID : string) : string :=
  backendID +:+ "|" +:+ scope +:+ "|" +:+ sessionID.
Definition ScopeKey (backendID scope sessionID : string) : string := key backendID scope sessionID.

(** ** Sorting *)

Definition before (a b : Entry) : bool :=
  if negb (PinnedAtMillis a =? PinnedAtMillis b) then PinnedAtMillis b <? PinnedAtMillis a
  else String.ltb (SessionID a) (SessionID b).

(** The inner loop: the entry at [j] sinks while it comes before its neighbour. *)
Fixpoint sink (j : nat) (es : list Entry) : list Entry :=
  match j with
  | O => es
  | S j' =>
      match es !! j, es !! j' with
      | Some a, Some b => if before a b then sink j' (<[j' := a]> (<[j := b]> es)) else es
      | _, _ => es
      end
  end.

Definition sortEntriesDesc (es : list Entry) : list Entry :=
  fold_left (fun es i => sink i es) (seq 1 (length es - 1)) es.

(** ** The store *)

Section Store.
Context (marshal : pinFile -> string) (unmarshal : string -> option pinFile).

(** The loaded file has a map and a version. *)
Definition load (f : File) : StoreError + (Z * pins) :=
  match f with
  | Missing => inr (fileVersion, ∅)
  | Unreadable => inl ErrRead
  | Content text =>
      match unmarshal text with
      | None => inl ErrDecode
      | Some pf => inr (if pf_Version pf =? 0 then fileVersion else pf_Version pf, default ∅ (pf_Pins pf))
      end
  end.

Definition newline : string := string_of_bytes [10].

(** The file after a save, and the error. *)
Definition save (f : File) (v : Z) (m : pins) (write_ok : bool) : File * option StoreError :=
  let v := if v =? 0 then fileVersion else v in
  if write_ok then (Content (marshal (mkPinFile v (Some m)) +:+ newline), None) else (f, Some ErrWrite).

(** [pinnedAt.UTC().UnixMilli()] *)
Definition unix_milli (t : Z) : Z := t / millisecond.

Definition SetPinned (f : File) (backendID scope sessionID directory : string) (pinned : bool)
    (pinnedAt : option Z) (now : Z) (write_ok : bool) : File * option StoreError :=
  if String.eqb backendID "" || String.eqb sessionID "" then (f, Some ErrRequired)
  else
    match load f with
    | inl err => (f, Some err)
    | inr (v, m) =>
        let k := key backendID scope sessionID in
        if negb pinned then save f v (delete k m) write_ok
        else
          let pinnedAt := default now pinnedAt in
          save f v (<[k := Some (mkEntry backendID sessionID directory (unix_milli pinnedAt))]> m) write_ok
    end.

(** [(entry, found)] *)
Definition Get (f : File) (backendID scope sessionID : string) : outcome (Entry * bool) :=
  match load f with
  | inl _ => Done (no_entry, false)
  | inr (_, m) =>
      match m !! key backendID scope sessionID with
      | None => Done (no_entry, false)
      | Some (Some e) => Done (e, true)
      | Some None => Panic
      end
  end.

Definition same_session (backendID sessionID : string) (e : Entry) : bool :=
  String.eqb (BackendID e) backendID && String.eqb (SessionID e) sessionID.

(** The loop of [GetAnyScope] over the entries in the order of the range. *)
Fixpoint latest (backendID sessionID : string) (best : Entry) (found : bool)
    (order : list (string * option Entry)) : outcome (Entry * bool) :=
  match order with
  | [] => Done (best, found)
  | (_, None) :: _ => Panic
  | (_, Some e) :: rest =>
      if same_session backendID sessionID e && (negb found || (PinnedAtMillis best <? PinnedAtMillis e))
      then latest backendID sessionID e true rest
      else latest backendID sessionID best found rest
  end.

Definition GetAnyScope (order : pins -> list (string * option Entry)) (f : File)
    (backendID sessionID : string) : outcome (Entry * bool) :=
  match load f with
  | inl _ => Done (no_entry, false)
  | inr (_, m) => latest backendID sessionID no_entry false (order m)
  end.

(** The loop of [List]. *)
Fixpoint collect (backendID : string) (out : list Entry) (order : list (string * option Entry)) :
    outcome (list Entry) :=
  match order with
  | [] => Done out
  | (_, None) :: _ => Panic
  | (_, Some e) :: rest =>
      collect backendID (if String.eqb (BackendID e) backendID then out ++ [e] else out) rest
  end.

Definition List (order : pins -> list (string * option Entry)) (f : File) (backendID : string) :
    outcome (list Entry) :=
  match load f with
  | inl _ => Done []
  | inr (_, m) =>
      match collect backendID [] (order m) with
      | Done out => Done (sortEntriesDesc out)
      | Panic => Panic
      end
  end.

Definition Remove (f : File) (backendID scope sessionID : string) (write_ok : bool) :
    File * option StoreError :=
  match load f with
  | inl err => (f, Some err)
  | inr (v, m) => save f v (delete (key backendID scope sessionID) m) write_ok
  end.

(** The loop of [RemoveEntry]: the key of the first match. *)
Fixpoint first_match (backendID sessionID directory : string) (order : list (string * option Entry)) :
    outcome (option string) :=
  match order with
  | [] => Done None
  | (_, None) :: _ => Panic
  | (k, Some e) :: rest =>
      if same_session backendID sessionID e && String.eqb (Directory e) directory then Done (Some k)
      else first_match backendID sessionID directory rest
  end.

Definition RemoveEntry (order : pins -> list (string * option Entry)) (f : File)
    (backendID sessionID directory : string) (write_ok : bool) : outcome (File * bool) :=
  match load f with
  | inl _ => Done (f, false)
  | inr (v, m) =>
      match first_match backendID sessionID directory (order m) with
      | Panic => Panic
      | Done None => Done (f, false)
      | Done (Some k) =>
          let '(f', err) := save f v (delete k m) write_ok in
          Done (f', bool_decide (err = None))
      end
  end.

(** The loop of [RemoveAll]: a range over a map may delete from it. *)
Fixpoint sweep (backendID sessionID : string) (m : pins) (n : Z) (order : list (string * option Entry)) :
    outcome (pins * Z) :=
  match order with
  | [] => Done (m, n)
  | (_, None) :: _ => Panic
  | (k, Some e) :: rest =>
      if same_session backendID sessionID e then sweep backendID sessionID (delete k m) (n + 1) rest
      else sweep backendID sessionID m n rest
  end.

Definition RemoveAll (order : pins -> list (string * option Entry)) (f : File)
    (backendID sessionID : string) (write_ok : bool) : outcome (File * Z) :=
  match load f with
  | inl _ => Done (f, 0)
  | inr (v, m) =>
      match sweep backendID sessionID m 0 (order m) with
      | Panic => Panic
      | Done (m', n) => Done (if 0 <? n then fst (save f v m' write_ok) else f, n)
      end
  end.

End Store.
(** ** Sorting: the insertion sort sorts *)

(** The order of a listing: no entry comes before the one in front of it. *)
Definition listed (a b : Entry) : Prop := before b a = false.

Lemma listed_iff a b : listed a b <->
  PinnedAtMillis b < PinnedAtMillis a \/
  PinnedAtMillis a = PinnedAtMillis b /\ text_le (SessionID a) (SessionID b).
Proof.
  unfold listed, before. destruct (Z.eqb_spec (PinnedAtMillis b) (PinnedAtMillis a)); cbn [negb].
  - rewrite text_not_lt. intuition lia.
  - rewrite Z.ltb_ge. intuition lia.
Qed.

#[local] Instance listed_trans : Transitive listed.
Proof.
  intros a b c. rewrite !listed_iff. intros [?|[? Hab]] [?|[? Hbc]]; try (left; lia).
  right. split; [lia|]. by trans (SessionID b).
Qed.

Lemma before_listed a b : before a b = true -> listed a b.
Proof.
  intros H. destruct (before b a) eqn:E; [|done]. exfalso. revert H E. unfold before.
  rewrite (Z.eqb_sym (PinnedAtMillis b)). destruct (Z.eqb_spec (PinnedAtMillis a) (PinnedAtMillis b)); cbn [negb].
  - intros H1%text_lt_compare H2%text_lt_compare.
    pose proof (compare_lt_trans _ _ _ H1 H2) as H. by rewrite compare_refl in H.
  - rewrite !Z.ltb_lt. lia.
Qed.

(** Where an entry that sinks from behind a sorted beginning comes to rest. *)
Lemma sink_rests l1 x l2 : StronglySorted listed l1 ->
  exists a b, l1 = a ++ b /\ sink (length l1) (l1 ++ x :: l2) = a ++ x :: b ++ l2 /\
    Forall (listed x) b /\ Forall (fun y => listed y x) a.
Proof.
  revert x l2. induction l1 as [|y l1 IH] using rev_ind; intros x l2 Hs; [by exists [], []|].
  rewrite length_app, Nat.add_comm. cbn [length Nat.add sink].
  replace ((l1 ++ [y]) ++ x :: l2) with (l1 ++ y :: x :: l2) by by rewrite <-app_assoc.
  assert ((l1 ++ y :: x :: l2) !! length l1 = Some y) as -> by by apply list_lookup_middle.
  assert ((l1 ++ y :: x :: l2) !! S (length l1) = Some x) as ->.
  { rewrite lookup_app_r by lia. by replace (S (length l1) - length l1)%nat with 1%nat by lia. }
  apply StronglySorted_app in Hs as (Hyall & Hs1 & _).
  destruct (before x y) eqn:E.
  - destruct (IH x (y :: l2) Hs1) as (a & b & -> & Hsink & Hb & Ha).
    exists a, (b ++ [y]). split_and!.
    + by rewrite app_assoc.
    + replace (<[length (a ++ b) := x]> _) with ((a ++ b) ++ x :: y :: l2); [rewrite Hsink; by rewrite <-app_assoc|].
      symmetry. rewrite (insert_app_r_alt _ _ (S _)) by lia.
      replace (S (length (a ++ b)) - length (a ++ b))%nat with 1%nat by lia. cbn.
      rewrite insert_app_r_alt by lia. by rewrite Nat.sub_diag.
    + apply Forall_app. split; [done|]. by constructor; [apply before_listed|].
    + done.
  - exists (l1 ++ [y]), []. split_and!.
    + by rewrite app_nil_r.
    + cbn. by rewrite <-app_assoc.
    + constructor.
    + apply Forall_app. split; [|by constructor].
      apply Forall_forall. intros z Hz. trans y; [|done].
      apply Hyall; [done|by apply list_elem_of_singleton].
Qed.

Lemma sink_sorts l1 x l2 : StronglySorted listed l1 ->
  exists l, sink (length l1) (l1 ++ x :: l2) = l ++ l2 /\ l ≡ₚ l1 ++ [x] /\ StronglySorted listed l.
Proof.
  intros Hs. destruct (sink_rests l1 x l2 Hs) as (a & b & -> & Hsink & Hb & Ha).
  exists (a ++ x :: b). split_and!.
  - rewrite Hsink. by rewrite <-app_assoc.
  - rewrite <-app_assoc. f_equiv. apply Permutation_cons_append.
  - apply StronglySorted_app in Hs as (Hab & Hsa & Hsb). apply StronglySorted_app. split_and!; [|done|by constructor].
    intros y z Hy [-> | Hz]%elem_of_cons; [by eapply Forall_forall in Ha|by apply Hab].
Qed.

Lemma sort_from k : forall l1 l2, length l2 = k -> StronglySorted listed l1 ->
  let r := fold_left (fun es i => sink i es) (seq (length l1) k) (l1 ++ l2) in
  r ≡ₚ l1 ++ l2 /\ StronglySorted listed r.
Proof.
  induction k as [|k IH]; intros l1 [|x l2] Hlen Hs; try done; cbn.
  - by rewrite app_nil_r.
  - destruct (sink_sorts l1 x l2 Hs) as (l & -> & Hperm & Hsl).
    assert (S (length l1) = length l) as -> by (rewrite Hperm, length_app; cbn; lia).
    destruct (IH l l2) as [H1 H2]; [cbn in Hlen; lia|done|]. split; [|done].
    rewrite H1, Hperm. by rewrite <-app_assoc.
Qed.

Lemma sortEntriesDesc_sorts es : sortEntriesDesc es ≡ₚ es /\ StronglySorted listed (sortEntriesDesc es).
Proof.
  unfold sortEntriesDesc. destruct es as [|e es]; [by repeat constructor|].
  replace (length (e :: es) - 1)%nat with (length es) by (cbn; lia).
  apply (sort_from (length es) [e] es); [done|by repeat constructor].
Qed.

(** ** What the file holds *)

(** A number survives encoding when it is an [int64]. *)
Definition int64 (z : Z) : Prop := -9223372036854775808 <= z < 9223372036854775808.
Definition entry_text (e : Entry) : Prop :=
  text (BackendID e) /\ text (SessionID e) /\ text (Directory e) /\ int64 (PinnedAtMillis e).
Definition storable (P : gmap string Entry) : Prop := map_Forall (fun k e => text k /\ entry_text e) P.

(** The calls of the store. *)
Inductive call : Type :=
| CPin (backendID scope sessionID directory : string) (at_ : option Z)
| CUnpin (backendID scope sessionID directory : string)
| CGet (backendID scope sessionID : string)
| CGetAnyScope (backendID sessionID : string)
| CList (backendID : string)
| CRemove (backendID scope sessionID : string)
| CRemoveEntry (backendID sessionID directory : string)
| CRemoveAll (backendID sessionID : string).

Inductive reply : Type :=
| RErr (err : option StoreError)
| REntry (e : Entry) (found : bool)
| REntries (l : list Entry)
| RBool (b : bool)
| RCount (n : Z).

(** A call, the time it is made at, and whether a write of it succeeds. *)
Record request : Type := mkRequest { rq_call : call; rq_now : Z; rq_write_ok : bool }.

Definition entry_of (backendID sessionID directory : string) (at_ : option Z) (now : Z) : Entry :=
  mkEntry backendID sessionID directory (unix_milli (default now at_)).

(** What the abstract store, a map from keys to entries, promises: the reply and the
    map after the call. *)
Definition promises (q : request) (P : gmap string Entry) (r : reply) (P' : gmap string Entry) : Prop :=
  let ok := rq_write_ok q in
  let written (P1 : gmap string Entry) :=
    if ok then r = RErr None /\ P' = P1 else r = RErr (Some ErrWrite) /\ P' = P in
  match rq_call q with
  | CPin b sc s d at_ =>
      if String.eqb b "" || String.eqb s "" then r = RErr (Some ErrRequired) /\ P' = P
      else written (<[key b sc s := entry_of b s d at_ (rq_now q)]> P)
  | CUnpin b sc s _ =>
      if String.eqb b "" || String.eqb s "" then r = RErr (Some ErrRequired) /\ P' = P
      else written (delete (key b sc s) P)
  | CRemove b sc s => written (delete (key b sc s) P)
  | CGet b sc s =>
      P' = P /\ r = match P !! key b sc s with Some e => REntry e true | None => REntry no_entry false end
  | CGetAnyScope b s =>
      P' = P /\ exists e found, r = REntry e found /\
        if found then same_session b s e = true /\ (exists k, P !! k = Some e) /\
          forall k e', P !! k = Some e' -> same_session b s e' = true -> PinnedAtMillis e' <= PinnedAtMillis e
        else e = no_entry /\ forall k e', P !! k = Some e' -> same_session b s e' = false
  | CList b =>
      P' = P /\ exists l, r = REntries l /\ StronglySorted listed l /\
        l ≡ₚ filter (fun e => BackendID e = b) (map snd (map_to_list P))
  | CRemoveEntry b s d =>
      (exists k e, P !! k = Some e /\ same_session b s e = true /\ Directory e = d /\
         r = RBool ok /\ P' = if ok then delete k P else P) \/
      (r = RBool false /\ P' = P /\
         forall k e, P !! k = Some e -> same_session b s e = true -> Directory e <> d)
  | CRemoveAll b s =>
      let matching := filter (fun ke => same_session b s (snd ke) = true) P in
      r = RCount (Z.of_nat (size matching)) /\
      P' = if ok then filter (fun ke => same_session b s (snd ke) = false) P else P
  end.

(** ** The store keeps its promises *)

Section Refinement.
Context (marshal : pinFile -> string) (unmarshal : string -> option pinFile)
  (order : pins -> list (string * option Entry)).

(** One call of the store, under its mutex. *)
Definition serve (f : File) (q : request) : outcome (File * reply) :=
  let ok := rq_write_ok q in
  let wrote (r : File * option StoreError) := Done (fst r, RErr (snd r)) in
  match rq_call q with
  | CPin b sc s d at_ => wrote (SetPinned marshal unmarshal f b sc s d true at_ (rq_now q) ok)
  | CUnpin b sc s d => wrote (SetPinned marshal unmarshal f b sc s d false None (rq_now q) ok)
  | CGet b sc s =>
      match Get unmarshal f b sc s with Done (e, found) => Done (f, REntry e found) | Panic => Panic end
  | CGetAnyScope b s =>
      match GetAnyScope unmarshal order f b s with
      | Done (e, found) => Done (f, REntry e found) | Panic => Panic end
  | CList b => match List unmarshal order f b with Done l => Done (f, REntries l) | Panic => Panic end
  | CRemove b sc s => wrote (Remove marshal unmarshal f b sc s ok)
  | CRemoveEntry b s d =>
      match RemoveEntry marshal unmarshal order f b s d ok with
      | Done (f', r) => Done (f', RBool r) | Panic => Panic end
  | CRemoveAll b s =>
      match RemoveAll marshal unmarshal order f b s ok with
      | Done (f', n) => Done (f', RCount n) | Panic => Panic end
  end.

(** The calls one after the other, as the mutex orders them. *)
Fixpoint serve_all (f : File) (qs : list request) : outcome (File * list reply) :=
  match qs with
  | [] => Done (f, [])
  | q :: qs =>
      match serve f q with
      | Panic => Panic
      | Done (f', r) =>
          match serve_all f' qs with Panic => Panic | Done (f'', rs) => Done (f'', r :: rs) end
      end
  end.

(** The replies to a list of calls, each promised for the map the calls before it left. *)
Fixpoint promised (P : gmap string Entry) (qs : list request) (rs : list reply) (P' : gmap string Entry) : Prop :=
  match qs, rs with
  | [], [] => P' = P
  | q :: qs, r :: rs => exists P1, promises q P r P1 /\ promised P1 qs rs P'
  | _, _ => False
  end.

(** A pin whose texts and time JSON can carry. *)
Definition call_text (q : request) : Prop :=
  match rq_call q with
  | CPin b sc s d at_ => text (key b sc s) /\ entry_text (entry_of b s d at_ (rq_now q))
  | _ => True
  end.

(** Decoding gives back what was encoded, for texts in UTF-8 and numbers in range;
    the range over a map visits every entry once. *)
Hypothesis codec : forall v (P : gmap string Entry), int64 v -> storable P ->
  unmarshal (marshal (mkPinFile v (Some (Some <$> P))) +:+ newline) = Some (mkPinFile v (Some (Some <$> P))).
Hypothesis order_all : forall m, order m ≡ₚ map_to_list m.

(** The file holds the map. *)
Definition holds (f : File) (P : gmap string Entry) : Prop :=
  storable P /\ exists v, int64 v /\ load unmarshal f = inr (v, Some <$> P).

Lemma save_holds f v P P1 : int64 v -> storable P1 -> holds f P ->
  forall ok, holds (fst (save marshal f v (Some <$> P1) ok)) (if ok then P1 else P) /\
    snd (save marshal f v (Some <$> P1) ok) = if ok then None else Some ErrWrite.
Proof.
  intros Hv HP1 Hf [|]; [|done]. split; [|done]. split; [done|]. unfold save. cbn [fst].
  assert (int64 (if v =? 0 then fileVersion else v)) as Hv' by (destruct (v =? 0); [done|done]).
  exists (if v =? 0 then fileVersion else v). split; [done|]. unfold load.
  rewrite codec by done. cbn. destruct (v =? 0) eqn:E; [done|]. by rewrite E.
Qed.

(** The range over a map without nil entries. *)
Lemma order_entries P : exists l, order (Some <$> P) = map (fun ke => (fst ke, Some (snd ke))) l /\ l ≡ₚ map_to_list P.
Proof.
  assert (order (Some <$> P) ≡ₚ map (fun ke => (fst ke, Some (snd ke))) (map_to_list P)) as H.
  { rewrite order_all, map_to_list_fmap. apply Permutation_refl'.
    apply list_fmap_ext. by intros _ [k e] _. }
  apply Permutation_map_inv in H as (l & -> & Hl). by exists l.
Qed.

End Refinement.

(** *** The loops over the entries *)

Definition present (l : list (string * Entry)) : list (string * option Entry) :=
  map (fun ke => (fst ke, Some (snd ke))) l.

Lemma elem_of_order (P : gmap string Entry) l k e : l ≡ₚ map_to_list P -> (k, e) ∈ l <-> P !! k = Some e.
Proof. intros ->. apply elem_of_map_to_list. Qed.

Lemma latest_best b s l : forall best found,
  exists e f, latest b s best found (present l) = Done (e, f) /\
    (forall k e', (k, e') ∈ l -> same_session b s e' = true -> f = true /\ PinnedAtMillis e' <= PinnedAtMillis e) /\
    (found = true -> f = true /\ PinnedAtMillis best <= PinnedAtMillis e) /\
    ((e = best /\ f = found) \/ (f = true /\ same_session b s e = true /\ exists k, (k, e) ∈ l)).
Proof.
  induction l as [|[k0 e0] l IH]; intros best found; cbn.
  { exists best, found. split_and!; [done|by intros ?? ?%elem_of_nil|intros ->; by split|by left]. }
  destruct (same_session b s e0) eqn:Es; cbn [andb].
  2:{ destruct (IH best found) as (e & f & Heq & Hall & Hf & Hor). exists e, f. split_and!; [done| |done|].
    - intros k e' [[= -> ->] | Hin]%elem_of_cons; [congruence|by eapply Hall].
    - destruct Hor as [?|(? & ? & k & ?)]; [by left|right]. split_and!; [done|done|]. exists k. by right. }
  destruct (negb found || (PinnedAtMillis best <? PinnedAtMillis e0)) eqn:Ec.
  - destruct (IH e0 true) as (e & f & Heq & Hall & Hf & Hor). exists e, f.
    destruct (Hf eq_refl) as [-> Hle]. split_and!; [done| | |].
    + intros k e' [[= -> ->] | Hin]%elem_of_cons; [done|by eapply Hall].
    + intros ->. split; [done|]. cbn [negb orb] in Ec. zprop. lia.
    + right. split_and!; [done| |].
      * by destruct Hor as [[-> _]|(_ & ? & _)].
      * destruct Hor as [[-> _]|(_ & _ & k & ?)]; [exists k0; by left|exists k; by right].
  - apply orb_false_elim in Ec as [->%negb_false_iff Ec]. zprop.
    destruct (IH best true) as (e & f & Heq & Hall & Hf & Hor). exists e, f.
    destruct (Hf eq_refl) as [-> Hle]. split_and!; [done| |done|].
    + intros k e' [[= -> ->] | Hin]%elem_of_cons; [split; [done|lia]|by eapply Hall].
    + destruct Hor as [?|(? & ? & k & ?)]; [by left|right]. split_and!; [done|done|]. exists k. by right.
Qed.

Lemma collect_filter b l : forall out,
  collect b out (present l) = Done (out ++ filter (fun e => BackendID e = b) (map snd l)).
Proof.
  induction l as [|[k e] l IH]; intros out; cbn -[filter]; [by rewrite app_nil_r|]. rewrite IH, filter_cons.
  destruct (String.eqb_spec (BackendID e) b) as [E|E]; [rewrite decide_True by done|by rewrite decide_False by done].
  by rewrite <-app_assoc.
Qed.

Lemma first_match_finds b s d l :
  (exists k e, first_match b s d (present l) = Done (Some k) /\ (k, e) ∈ l /\
     same_session b s e = true /\ Directory e = d) \/
  (first_match b s d (present l) = Done None /\
     forall k e, (k, e) ∈ l -> same_session b s e = true -> Directory e <> d).
Proof.
  induction l as [|[k0 e0] l IH]; cbn; [right; split; [done|by intros ?? ?%elem_of_nil]|].
  destruct (same_session b s e0) eqn:Es, (String.eqb_spec (Directory e0) d) as [E|E]; cbn [andb].
  1:{ left. exists k0, e0. split_and!; [done|by left|done|done]. }
  all: destruct IH as [(k & e & H1 & H2 & H3)|[H1 H2]];
    [left; exists k, e; split_and!; [done|by right|apply H3..]|right; split; [done|]].
  all: intros k e [[= -> ->] | Hin]%elem_of_cons; [congruence|by eapply H2].
Qed.

Lemma sweep_deletes b s l : forall m n,
  sweep b s m n (present l) =
    Done (fold_left (fun m ke => delete (fst ke) m) (filter (fun ke => same_session b s (snd ke) = true) l) m,
          n + zlen (filter (fun ke => same_session b s (snd ke) = true) l)).
Proof.
  induction l as [|[k e] l IH]; intros m n; cbn -[Z.of_nat filter]; [by rewrite Z.add_0_r|].
  rewrite filter_cons. cbn [snd]. destruct (same_session b s e) eqn:E; rewrite IH; [|done].
  rewrite decide_True by done. cbn [fold_left fst length]. do 2 f_equal. lia.
Qed.

Lemma deletes_lookup (l : list (string * Entry)) : forall (m : pins) k,
  fold_left (fun m ke => delete (fst ke) m) l m !! k = if decide (k ∈ map fst l) then None else m !! k.
Proof.
  induction l as [|[k0 e0] l IH]; intros m k; cbn; [done|]. rewrite IH.
  destruct (decide (k = k0)) as [->|Hne].
  - rewrite lookup_delete_eq. rewrite (decide_True (P := k0 ∈ k0 :: _)) by by left. by case_decide.
  - rewrite lookup_delete_ne by done. destruct (decide (k ∈ map fst l)) as [H|H].
    + by rewrite decide_True by by right.
    + rewrite decide_False; [done|]. by intros [?|?]%elem_of_cons.
Qed.

(** What [RemoveAll] leaves, and how many it counts. *)
Lemma sweep_filters b s (P : gmap string Entry) l : l ≡ₚ map_to_list P ->
  sweep b s (Some <$> P) 0 (present l) =
    Done (Some <$> filter (fun ke => same_session b s (snd ke) = false) P,
          Z.of_nat (size (filter (fun ke => same_session b s (snd ke) = true) P))).
Proof.
  intros Hl. rewrite sweep_deletes. f_equal. f_equal.
  - apply map_eq. intros k. rewrite deletes_lookup, !lookup_fmap, map_lookup_filter.
    destruct (P !! k) as [e|] eqn:E; cbn.
    2:{ by case_decide. }
    assert (k ∈ map fst (filter (fun ke => same_session b s (snd ke) = true) l) <-> same_session b s e = true) as Hiff.
    { rewrite list_elem_of_fmap. split.
      - intros ([k' e'] & -> & [Hs Hin]%list_elem_of_filter). apply (elem_of_order P) in Hin; [|done]. naive_solver.
      - intros Hs. exists (k, e). split; [done|]. apply list_elem_of_filter.
        split; [done|]. by apply (elem_of_order P). }
    rewrite (decide_ext _ _ _ _ Hiff). destruct (same_session b s e); [done|]. by rewrite option_guard_True.
  - rewrite Z.add_0_l. f_equal. rewrite Hl, <-length_map_to_list, map_filter_alt.
    rewrite map_to_list_to_map; [done|].
    apply (sublist_NoDup _ (map_to_list P).*1); [apply NoDup_fst_map_to_list|]. apply fmap_sublist, sublist_filter.
Qed.

(** *** One call, then any number *)

Section Promises.
Context (marshal : pinFile -> string) (unmarshal : string -> option pinFile)
  (order : pins -> list (string * option Entry)).

Hypothesis codec : forall v (P : gmap string Entry), int64 v -> storable P ->
  unmarshal (marshal (mkPinFile v (Some (Some <$> P))) +:+ newline) = Some (mkPinFile v (Some (Some <$> P))).
Hypothesis order_all : forall m, order m ≡ₚ map_to_list m.

Abbreviation holds := (holds unmarshal).
Abbreviation serve := (serve marshal unmarshal order).

Lemma storable_delete P k : storable P -> storable (delete k P).
Proof. apply map_Forall_delete. Qed.

Lemma storable_insert P k e : storable P -> text k -> entry_text e -> storable (<[k := e]> P).
Proof. intros HP Hk He. by apply map_Forall_insert_2. Qed.

Lemma storable_filter P (Q : string * Entry -> Prop) `{!forall x, Decision (Q x)} : storable P -> storable (filter Q P).
Proof. intros HP k e [Hk _]%map_lookup_filter_Some. by apply HP. Qed.

(** The calls that write: the file then holds the new map, or still the old one. *)
Lemma writes_promised f v P P1 ok : int64 v -> storable P1 -> holds f P ->
  let r := save marshal f v (Some <$> P1) ok in
  exists P', holds (fst r) P' /\
    if ok then RErr (snd r) = RErr None /\ P' = P1 else RErr (snd r) = RErr (Some ErrWrite) /\ P' = P.
Proof.
  intros Hv H1 Hf r. destruct (save_holds marshal unmarshal codec f v P P1 Hv H1 Hf ok) as [Hh Hr].
  exists (if ok then P1 else P). split; [done|]. by destruct ok; rewrite <-Hr.
Qed.

Lemma set_promised f v P b sc s d pinned at_ now ok : int64 v -> load unmarshal f = inr (v, Some <$> P) -> holds f P ->
  (pinned = true -> text (key b sc s) /\ entry_text (entry_of b s d at_ now)) ->
  let r := SetPinned marshal unmarshal f b sc s d pinned at_ now ok in
  exists P', holds (fst r) P' /\
    if String.eqb b "" || String.eqb s "" then RErr (snd r) = RErr (Some ErrRequired) /\ P' = P
    else
      let P1 := if pinned then <[key b sc s := entry_of b s d at_ now]> P else delete (key b sc s) P in
      if ok then RErr (snd r) = RErr None /\ P' = P1 else RErr (snd r) = RErr (Some ErrWrite) /\ P' = P.
Proof.
  intros Hv Hload Hf Htext r. subst r. unfold SetPinned. destruct (String.eqb b "" || String.eqb s "").
  { exists P. done. }
  rewrite Hload. destruct pinned; cbn [negb].
  - destruct (Htext eq_refl) as [Hk He]. pose proof Hf as [HP _].
    rewrite <-(fmap_insert Some P). by apply writes_promised; [|apply storable_insert|].
  - pose proof Hf as [HP _]. rewrite <-(fmap_delete Some P). by apply writes_promised; [|apply storable_delete|].
Qed.

Lemma serve_promised f P q : holds f P -> call_text q ->
  exists f' r P', serve f q = Done (f', r) /\ holds f' P' /\ promises q P r P'.
Proof.
  intros Hf Ht. pose proof Hf as [HP (v & Hv & Hload)].
  destruct (order_entries order order_all P) as (l & Ho & Hl). change (map _ l) with (present l) in Ho.
  destruct q as [[b sc s d at_|b sc s d|b sc s|b s|b|b sc s|b s d|b s] now ok];
    unfold PinStore.serve, promises; cbn [rq_call rq_now rq_write_ok].
  - destruct (set_promised f v P b sc s d true at_ now ok Hv Hload Hf (fun _ => Ht)) as (P' & Hh & Hp).
    eexists _, _, P'. split; [reflexivity|]. by split.
  - destruct (set_promised f v P b sc s d false None now ok Hv Hload Hf) as (P' & Hh & Hp); [done|].
    eexists _, _, P'. split; [reflexivity|]. by split.
  - unfold Get. rewrite Hload, lookup_fmap. destruct (P !! key b sc s) as [e|]; cbn; by eexists _, _, P.
  - unfold GetAnyScope. rewrite Hload, Ho.
    destruct (latest_best b s l no_entry false) as (e & found & -> & Hall & _ & Hor).
    eexists _, _, P. split; [reflexivity|]. split; [done|]. split; [done|]. exists e, found. split; [done|].
    destruct found.
    + destruct Hor as [[_ ?]|(_ & Hs & k & Hk)]; [done|]. split_and!; [done|exists k; by apply (elem_of_order P l)|].
      intros k' e' Hk' Hs'. by eapply (Hall k'); [apply (elem_of_order P l)|].
    + destruct Hor as [[-> _]|[? _]]; [|done]. split; [done|]. intros k e' Hk.
      destruct (same_session b s e') eqn:E; [|done]. exfalso.
      by destruct (Hall k e') as [? _]; [apply (elem_of_order P l)|done|].
  - unfold List. rewrite Hload, Ho, collect_filter. cbn [app].
    eexists _, _, P. split; [reflexivity|]. split; [done|]. split; [done|]. eexists. split; [reflexivity|].
    destruct (sortEntriesDesc_sorts (filter (fun e => BackendID e = b) (map snd l))) as [Hperm Hs].
    split; [done|]. by rewrite Hperm, Hl.
  - unfold Remove. rewrite Hload, <-(fmap_delete Some P).
    destruct (writes_promised f v P (delete (key b sc s) P) ok Hv (storable_delete _ _ HP) Hf) as (P' & Hh & Hp).
    eexists _, _, P'. split; [reflexivity|]. by split.
  - unfold RemoveEntry. rewrite Hload, Ho.
    destruct (first_match_finds b s d l) as [(k & e & -> & Hin & Hs & Hd)|[-> Hnone]].
    + rewrite <-(fmap_delete Some P).
      destruct (save_holds marshal unmarshal codec f v P (delete k P) Hv (storable_delete _ _ HP) Hf ok) as [Hh Hr].
      destruct (save _ f v _ ok) as [f' err]. cbn [fst snd] in *.
      eexists _, _, _. split; [reflexivity|]. split; [exact Hh|]. left. exists k, e.
      split_and!; [by apply (elem_of_order P l)|done|done| |done]. rewrite Hr. by destruct ok.
    + eexists _, _, P. split; [reflexivity|]. split; [done|]. right. split_and!; [done|done|].
      intros k e Hk. apply (Hnone k). by apply (elem_of_order P l).
  - unfold RemoveAll. rewrite Hload, Ho, (sweep_filters b s P l Hl).
    set (n := size (filter (fun ke => same_session b s (snd ke) = true) P)).
    set (P1 := filter (fun ke => same_session b s (snd ke) = false) P).
    destruct (save_holds marshal unmarshal codec f v P P1 Hv (storable_filter _ _ HP) Hf ok) as [Hh _].
    eexists _, _, (if ok then P1 else P). split; [reflexivity|]. split; [|done].
    destruct (0 <? Z.of_nat n) eqn:E; [done|]. apply Z.ltb_ge in E.
    assert (P1 = P) as ->; [|by destruct ok].
    apply map_filter_id. intros k e Hk. cbn. destruct (same_session b s e) eqn:Es; [|done]. exfalso.
    assert (n <> 0%nat) as Hn; [|lia]. unfold n. apply map_size_ne_0_lookup. exists k, e.
    by apply map_lookup_filter_Some.
Qed.

End Promises.

(** A pin is found again. *)
Lemma pin_then_get marshal unmarshal
  (codec : forall v (P : gmap string Entry), int64 v -> storable P ->
     unmarshal (marshal (mkPinFile v (Some (Some <$> P))) +:+ newline) = Some (mkPinFile v (Some (Some <$> P))))
  f P b sc s d at_ now : holds unmarshal f P -> text (key b sc s) -> entry_text (entry_of b s d at_ now) ->
  String.eqb b "" || String.eqb s "" = false ->
  let f' := fst (SetPinned marshal unmarshal f b sc s d true at_ now true) in
  holds unmarshal f' (<[key b sc s := entry_of b s d at_ now]> P) /\
  Get unmarshal f' b sc s = Done (entry_of b s d at_ now, true).
Proof.
  intros Hf Hk He Hb. pose proof Hf as [_ (v & Hv & Hload)].
  destruct (set_promised marshal unmarshal codec f v P b sc s d true at_ now true Hv Hload Hf) as (P' & Hh & Hp);
    [done|]. rewrite Hb in Hp. destruct Hp as [_ ->]. cbv zeta. split; [done|].
  destruct Hh as [_ (v' & _ & Hl)]. unfold Get. rewrite Hl, lookup_fmap, lookup_insert_eq. done.
Qed.

(** Entries of ASCII texts, at a time in range. *)
Ltac ascii_entry :=
  split; [apply ascii_text; vm_compute; reflexivity|split; [apply ascii_text; vm_compute; reflexivity|
    split; [apply ascii_text; vm_compute; reflexivity|vm_compute; split; congruence]]].

(** ** Properties *)

(** C24. A store whose file is missing, or decodes to entries none of which is null, with
    texts in UTF-8 and numbers of 64 bits, and which is asked to pin only such texts, is
    a map from keys (backend, scope and session joined) to entries. Whatever its calls,
    whatever the order in which its maps are ranged over and whichever of its writes
    fail, no call panics; each is answered for the map the calls before it left - a pin
    is found again under its scope, any scope gives the latest one, a listing holds the
    pins of its backend, the latest first - and leaves the map as its kind says, or the
    old one when its write fails, which every call but [RemoveAll] then says: that one
    answers the number of pins it was to remove. The file always holds the map. (A null
    entry panics, [null_entry_panics]; keys may collide, [keys_collide].) *)
Theorem store_is_a_map marshal unmarshal order f P qs
  (codec : forall v (P : gmap string Entry), int64 v -> storable P ->
     unmarshal (marshal (mkPinFile v (Some (Some <$> P))) +:+ newline) = Some (mkPinFile v (Some (Some <$> P))))
  (order_all : forall m, order m ≡ₚ map_to_list m)
  (Hf : holds unmarshal f P) (Ht : Forall call_text qs) :
  exists f' rs P', serve_all marshal unmarshal order f qs = Done (f', rs) /\
    holds unmarshal f' P' /\ promised P qs rs P'.
Proof.
  revert f P Hf. induction Ht as [|q qs Hq _ IH]; intros f P Hf; cbn [serve_all promised].
  { by exists f, [], P. }
  destruct (serve_promised marshal unmarshal order codec order_all f P q Hf Hq) as (f1 & r & P1 & -> & H1 & Hp).
  destruct (IH f1 P1 H1) as (f' & rs & P' & -> & H' & Hps).
  exists f', (r :: rs), P'. split; [done|]. split; [done|]. by exists P1.
Qed.

(** A missing file holds no pin. *)
Lemma missing_holds unmarshal : holds unmarshal Missing ∅.
Proof. split; [by apply map_Forall_empty|]. exists fileVersion. by split; [|cbn; rewrite fmap_empty]. Qed.

(** A file that cannot be read, or whose text is not a pin file, is never replaced: every
    call leaves it as it is, a call that would change it says that it failed, and no call
    panics. *)
Theorem unreadable_never_replaced marshal unmarshal order f err qs (Hf : load unmarshal f = inl err) :
  exists rs, serve_all marshal unmarshal order f qs = Done (f, rs) /\
    Forall2 (fun q r => match r with
      | RErr e => e = Some err \/ e = Some ErrRequired
      | REntry e found => found = false /\ e = no_entry
      | REntries l => l = []
      | RBool b => b = false
      | RCount n => n = 0
      end) qs rs.
Proof.
  induction qs as [|q qs (rs & IH & Hrs)]; [by exists []|]. cbn [serve_all].
  assert (exists r, serve marshal unmarshal order f q = Done (f, r) /\ match r with
      | RErr e => e = Some err \/ e = Some ErrRequired
      | REntry e found => found = false /\ e = no_entry
      | REntries l => l = []
      | RBool b => b = false
      | RCount n => n = 0
      end) as (r & -> & Hr); [|rewrite IH; exists (r :: rs); by split; [|constructor]].
  destruct q as [[] now ok]; unfold serve, SetPinned, Get, GetAnyScope, List, Remove, RemoveEntry, RemoveAll;
    cbn [rq_call rq_now rq_write_ok]; rewrite ?Hf; try case_if; eexists; (split; [reflexivity|]); cbn; auto.
Qed.

(** The key of a pin is not one for each backend, scope and session: the separator may
    occur in a scope or a session, and pinning the one session replaces the pin of the
    other and answers for it. *)
Theorem keys_collide marshal unmarshal
  (codec : forall v (P : gmap string Entry), int64 v -> storable P ->
     unmarshal (marshal (mkPinFile v (Some (Some <$> P))) +:+ newline) = Some (mkPinFile v (Some (Some <$> P)))) :
  key "codex" "/work/a" "b|c" = key "codex" "/work/a|b" "c" /\
  let f1 := fst (SetPinned marshal unmarshal Missing "codex" "/work/a" "b|c" "/work/a" true (Some second) 0 true) in
  let f2 := fst (SetPinned marshal unmarshal f1 "codex" "/work/a|b" "c" "/work/a|b" true (Some minute) 0 true) in
  Get unmarshal f1 "codex" "/work/a" "b|c" = Done (mkEntry "codex" "b|c" "/work/a" 1000, true) /\
  Get unmarshal f2 "codex" "/work/a" "b|c" = Done (mkEntry "codex" "c" "/work/a|b" 60000, true).
Proof.
  split; [reflexivity|]. cbv zeta.
  pose proof (fun f P b sc s d at_ Hf => pin_then_get marshal unmarshal codec f P b sc s d at_ 0 Hf) as Hpin.
  destruct (Hpin Missing ∅ "codex" "/work/a" "b|c" "/work/a" (Some second) (missing_holds _)) as [H1 G1];
    [by apply ascii_text; vm_compute|ascii_entry|done|].
  split; [exact G1|].
  destruct (Hpin _ _ "codex" "/work/a|b" "c" "/work/a|b" (Some minute) H1) as [_ G2];
    [by apply ascii_text; vm_compute|ascii_entry|done|].
  exact G2.
Qed.

(** A pin keeps the time it was given, to the millisecond. *)
Theorem pinned_time_kept b s d t now : millisecond <= t ->
  pin_PinnedAt (ToPin (entry_of b s d (Some t) now)) = Some (t - t mod millisecond).
Proof.
  intros Ht. unfold ToPin, PinnedAt, entry_of, unix_milli. change (default now (Some t)) with t.
  cbn [PinnedAtMillis pin_PinnedAt].
  assert (1 <= t / millisecond) as H by (apply Z.div_le_lower_bound; unfold millisecond in *; lia).
  destruct (Z.leb_spec (t / millisecond) 0) as [?|_]; [lia|]. f_equal.
  pose proof (Z.div_mod t millisecond ltac:(done)) as Hd. unfold millisecond in *. lia.
Qed.

(** The order of a listing does not depend on the order of the map when no two pins of
    the backend agree in both time and session. *)
Theorem listing_settled unmarshal order order' f P b
  (order_all : forall m, order m ≡ₚ map_to_list m) (order_all' : forall m, order' m ≡ₚ map_to_list m)
  (Hf : holds unmarshal f P)
  (Hdistinct : forall k k' e e', P !! k = Some e -> P !! k' = Some e' -> BackendID e = b -> BackendID e' = b ->
     PinnedAtMillis e = PinnedAtMillis e' -> SessionID e = SessionID e' -> e = e') :
  exists l, List unmarshal order f b = Done l /\ List unmarshal order' f b = Done l.
Proof.
  destruct Hf as [HP (v & Hv & Hload)]. unfold List. rewrite Hload.
  destruct (order_entries order order_all P) as (l & Ho & Hl).
  destruct (order_entries order' order_all' P) as (l' & Ho' & Hl').
  change (map _ l) with (present l) in Ho. change (map _ l') with (present l') in Ho'.
  rewrite Ho, Ho', !collect_filter. eexists. split; [reflexivity|]. f_equal. cbn [app].
  destruct (sortEntriesDesc_sorts (filter (fun e => BackendID e = b) (map snd l))) as [Hp Hs].
  destruct (sortEntriesDesc_sorts (filter (fun e => BackendID e = b) (map snd l'))) as [Hp' Hs'].
  apply (StronglySorted_unique_strong listed); [|done|done|by rewrite Hp, Hp', Hl, Hl'].
  assert (forall l0 e, l0 ≡ₚ map_to_list P -> e ∈ filter (fun e => BackendID e = b) (map snd l0) ->
    BackendID e = b /\ exists k, P !! k = Some e) as Hin.
  { intros l0 e H0 [Hb ([k e0] & -> & Hin)%list_elem_of_fmap]%list_elem_of_filter.
    split; [done|]. exists k. by apply (elem_of_order P l0). }
  intros e e' He He'. rewrite Hp' in He. rewrite Hp in He'.
  apply Hin in He as (Hb & k & Hk); [|done]. apply Hin in He' as (Hb' & k' & Hk'); [|done].
  rewrite !listed_iff. intros [?|[? H1]] [?|[? H2]]; try lia.
  eapply (Hdistinct k k'); try done. by apply (anti_symm text_le).
Qed.

(** A nil entry, which a [null] in the file decodes to, is not treated as corruption: the
    pin is not an error but a panic, and with it every listing of any backend. *)
Theorem null_entry_panics unmarshal marshal order f v m b sc s b' s' ok
  (order_all : forall m, order m ≡ₚ map_to_list m)
  (Hload : load unmarshal f = inr (v, m)) (Hnull : m !! key b sc s = Some None) :
  Get unmarshal f b sc s = Panic /\ List unmarshal order f b' = Panic /\
  GetAnyScope unmarshal order f b' s' = Panic /\ RemoveAll marshal unmarshal order f b' s' ok = Panic.
Proof.
  assert ((key b sc s, None) ∈ order m) as Hin by (rewrite order_all; by apply elem_of_map_to_list).
  unfold Get, List, GetAnyScope, RemoveAll. rewrite Hload, Hnull. split; [done|]. revert Hin.
  generalize (order m) as l. intros l Hin.
  assert (forall out, collect b' out l = Panic) as ->.
  { induction l as [|[k [e|]] l IH]; intros out; cbn; [by apply elem_of_nil in Hin| |done].
    apply elem_of_cons in Hin as [|Hin]; [done|by apply IH]. }
  assert (forall best found, latest b' s' best found l = Panic) as ->.
  { induction l as [|[k [e|]] l IH]; intros best found; cbn; [by apply elem_of_nil in Hin| |done].
    apply elem_of_cons in Hin as [|Hin]; [done|]. case_if; by apply IH. }
  assert (forall m n, sweep b' s' m n l = Panic) as ->; [|done].
  induction l as [|[k [e|]] l IH]; intros m' n; cbn; [by apply elem_of_nil in Hin| |done].
  apply elem_of_cons in Hin as [|Hin]; [done|]. case_if; by apply IH.
Qed.

(** ** At concrete stores *)

#[local] Instance Entry_countable : Countable Entry.
Proof.
  refine (inj_countable' (fun e => (BackendID e, SessionID e, Directory e, PinnedAtMillis e))
    (fun p => let '(b, s, d, t) := p in mkEntry b s d t) _). by intros [].
Defined.

(** A pin file as a text of bits. *)
Definition wit_marshal (pf : pinFile) : string := text_of (pf_Version pf, pf_Pins pf).
Definition wit_unmarshal (s : string) : option pinFile :=
  (fun vp => mkPinFile (fst vp) (snd vp)) <$> (of_text s : option (Z * option pins)).

Lemma wit_codec v (P : gmap string Entry) : int64 v -> storable P ->
  wit_unmarshal (wit_marshal (mkPinFile v (Some (Some <$> P))) +:+ newline) = Some (mkPinFile v (Some (Some <$> P))).
Proof. intros _ _. unfold wit_unmarshal, wit_marshal. by rewrite of_text_app. Qed.

Definition in_order (m : pins) : list (string * option Entry) := map_to_list m.
Definition in_reverse (m : pins) : list (string * option Entry) := reverse (map_to_list m).

Lemma in_reverse_all m : in_reverse m ≡ₚ map_to_list m.
Proof. apply reverse_Permutation. Qed.

(** Two pins, a write that fails, and a listing. *)
Definition wit_calls : list request :=
  [mkRequest (CPin "codex" "h" "s1" "/w" (Some second)) 0 true;
   mkRequest (CPin "codex" "h" "s2" "/w" None) hour true;
   mkRequest (CRemove "codex" "h" "s1") hour false;
   mkRequest (CList "codex") hour true].

Lemma store_is_a_map_witness :
  exists f' rs P', serve_all wit_marshal wit_unmarshal in_order Missing wit_calls = Done (f', rs) /\
    holds wit_unmarshal f' P' /\ promised ∅ wit_calls rs P'.
Proof.
  apply (store_is_a_map wit_marshal wit_unmarshal in_order Missing ∅ wit_calls wit_codec (fun m => reflexivity _)
    (missing_holds _)).
  constructor; [split; [apply ascii_text; vm_compute; reflexivity|ascii_entry]|].
  constructor; [split; [apply ascii_text; vm_compute; reflexivity|ascii_entry]|].
  by repeat constructor.
Defined.

Lemma unreadable_never_replaced_witness :
  exists rs, serve_all wit_marshal wit_unmarshal in_order (Content "{not") wit_calls = Done (Content "{not", rs).
Proof.
  destruct (unreadable_never_replaced wit_marshal wit_unmarshal in_order (Content "{not") ErrDecode wit_calls
    ltac:(vm_compute; reflexivity)) as (rs & H & _). exists rs. exact H.
Defined.

Lemma keys_collide_witness :
  let f1 := fst (SetPinned wit_marshal wit_unmarshal Missing "codex" "/work/a" "b|c" "/work/a" true (Some second) 0 true) in
  let f2 := fst (SetPinned wit_marshal wit_unmarshal f1 "codex" "/work/a|b" "c" "/work/a|b" true (Some minute) 0 true) in
  Get wit_unmarshal f2 "codex" "/work/a" "b|c" = Done (mkEntry "codex" "c" "/work/a|b" 60000, true).
Proof. exact (proj2 (proj2 (keys_collide wit_marshal wit_unmarshal wit_codec))). Defined.

Lemma pinned_time_kept_witness :
  pin_PinnedAt (ToPin (entry_of "codex" "s" "/w" (Some 5000001) 0)) = Some 5000000.
Proof. rewrite (pinned_time_kept "codex" "s" "/w" 5000001 0 ltac:(vm_compute; congruence)). reflexivity. Defined.

(** The file of a store with one pin. *)
Definition wit_file (e : Entry) : File := Content (wit_marshal (mkPinFile 1 (Some {["k" := Some e]})) +:+ newline).

Lemma listing_settled_witness :
  exists l, List wit_unmarshal in_order (wit_file (mkEntry "codex" "s" "/w" 5)) "codex" = Done l /\
    List wit_unmarshal in_reverse (wit_file (mkEntry "codex" "s" "/w" 5)) "codex" = Done l.
Proof.
  apply (listing_settled wit_unmarshal in_order in_reverse _ {["k" := mkEntry "codex" "s" "/w" 5]} "codex"
    (fun m => reflexivity _) in_reverse_all).
  - split; [apply map_Forall_singleton; split; [apply ascii_text; vm_compute; reflexivity|ascii_entry]|].
    exists 1. split; [by vm_compute; split; congruence|]. unfold wit_file, load.
    rewrite <-(map_fmap_singleton Some). rewrite wit_codec; [done|by vm_compute; split; congruence|].
    apply map_Forall_singleton. split; [apply ascii_text; vm_compute; reflexivity|ascii_entry].
  - intros k k' e e' [<- <-]%lookup_singleton_Some [<- <-]%lookup_singleton_Some _ _ _ _. reflexivity.
Defined.

Lemma null_entry_panics_witness :
  load (fun _ => Some (mkPinFile 1 (Some {[key "codex" "h" "s" := None]}))) (Content "{}") =
    inr (1, {[key "codex" "h" "s" := None]}) /\
  List (fun _ => Some (mkPinFile 1 (Some {[key "codex" "h" "s" := None]}))) in_order (Content "{}") "opencode" = Panic.
Proof.
  split; [reflexivity|].
  exact (proj1 (proj2 (null_entry_panics (fun _ => Some (mkPinFile 1 (Some {[key "codex" "h" "s" := None]})))
    wit_marshal in_order (Content "{}") 1 {[key "codex" "h" "s" := None]} "codex" "h" "s" "opencode" "x" true
    (fun m => reflexivity _) eq_refl ltac:(apply lookup_singleton_eq)))).
Defined.

(** Two pins of one session, in two scopes at the same millisecond, are listed in the
    order of the map, which Go makes arbitrary. *)
Theorem listing_ties_unsettled :
  let m : pins := {["codex|a|s" := Some (mkEntry "codex" "s" "/a" 5); "codex|b|s" := Some (mkEntry "codex" "s" "/b" 5)]} in
  let unmarshal := fun _ : string => Some (mkPinFile 1 (Some m)) in
  in_order m ≡ₚ in_reverse m /\
  List unmarshal in_order (Content "x") "codex" <> List unmarshal in_reverse (Content "x") "codex".
Proof. cbv zeta. split; [symmetry; apply reverse_Permutation|]. vm_compute. congruence. Qed.
