(* ===== verification/GoPath.v ===== *)
(** * Paths as Go's path/filepath reads them (Unix)

    [filepath.Clean], [filepath.Join] of two elements and [filepath.IsAbs]: a path is
    the list of what stands between its slashes. *)

From Stdlib Require Import Ascii.
From S2P Require Import Prelude.

Definition slash : ascii := "/"%char.

(** What stands before the first slash, and after each. *)
Fixpoint split_slash (s : string) : string * list string :=
  match s with
  | EmptyString => (EmptyString, [])
  | String c s =>
      let '(w, ws) := split_slash s in
      if bool_decide (c = slash) then (EmptyString, w :: ws) else (String c w, ws)
  end.
Definition path_elements (s : string) : list string := let '(w, ws) := split_slash s in w :: ws.

Definition IsAbs (s : string) : bool :=
  match s with String c _ => bool_decide (c = slash) | EmptyString => false end.

(** One element of a path, after the ones already kept, the last kept one first. *)
Definition clean_element (rooted : bool) (out : list string) (e : string) : list string :=
  if String.eqb e "" || String.eqb e "." then out
  else if String.eqb e ".." then
    match out with
    | [] => if rooted then [] else [e]
    | last :: rest => if String.eqb last ".." then e :: out else rest
    end
  else e :: out.

(** [filepath.Clean] *)
Definition Clean (s : string) : string :=
  let rooted := IsAbs s in
  let body := String.concat "/" (rev (fold_left (clean_element rooted) (path_elements s) [])) in
  if rooted then "/" +:+ body else if String.eqb body "" then "." else body.

(** [filepath.Join(a, b)]: empty elements are left out. *)
Definition Join (a b : string) : string :=
  if String.eqb a "" then (if String.eqb b "" then "" else Clean b)
  else if String.eqb b "" then Clean a else Clean (a +:+ "/" +:+ b).

Example Clean_examples :
  map Clean [""; "/"; "//a//b/"; "/a/../.."; "a/../.."; "./x/."; "/work/repo/../repo2"] =
    ["."; "/"; "/a/b"; "/"; ".."; "x"; "/work/repo2"].
Proof. reflexivity. Qed.
