(* ===== verification/Catalog.v ===== *)
(** * Session lists (go-bridge/catalog_fair_slice.go, catalog_recent_view.go,
      catalog_workspace_filter.go)

    What becomes of the rows of a session list: which rows are visible, which make the
    home page of all directories, and which make the recent view. A row is a
    [map[string]interface{}]; a nil row reads as an empty one. The file system, the
    home directory and the saved roots of Codex are arguments. The log of dropped rows
    is left out. *)

From S2P Require Import Prelude.
From S2P Require Import TextOrder.
From S2P Require Import GoText.
From S2P Require Import GoPath.

(** ** Rows *)

(** A dynamic value, by the types the code asserts. *)
Inductive cell : Type := CString (s : string) | CInt64 (n : Z) | COther (repr : string).

#[export] Instance cell_eq_dec : EqDecision cell.
Proof. solve_decision. Defined.

Abbreviation row := (gmap string cell).

(** [s, _ := m[k].(string)] and [n, _ := m[k].(int64)] *)
Definition str (k : string) (m : row) : string := match m !! k with Some (CString s) => s | _ => "" end.
Definition num (k : string) (m : row) : Z := match m !! k with Some (CInt64 n) => n | _ => 0 end.

Definition row_id (m : row) : string := str "id" m.
Definition row_time (m : row) : Z := num "updatedAtMillis" m.

Definition sessionDirectoryKey (s : row) : string := trim_space (str "directory" s).

(** ** The home page of all directories *)

Definition defaultSessionListPerDirectoryLimit : Z := 5.

Record fair_state : Type := mkFair {
  fr_out : list row;
  fr_selected : gset string;
  fr_perDir : gmap string Z
}.

(** One row of the loop that does not break before it. *)
Definition fair_row (perDirLimit : Z) (st : fair_state) (s : row) : fair_state :=
  let id := row_id s in
  if String.eqb id "" then st
  else if bool_decide (id ∈ fr_selected st) then st
  else
    let dir := sessionDirectoryKey s in
    if perDirLimit <=? fr_perDir st !!0 dir then st
    else mkFair (fr_out st ++ [s]) ({[id]} ∪ fr_selected st) (<[dir := (fr_perDir st !!0 dir) + 1]> (fr_perDir st)).

Fixpoint fair_rows (perDirLimit globalLimit : Z) (st : fair_state) (sessions : list row) : fair_state :=
  match sessions with
  | [] => st
  | s :: rest =>
      if globalLimit <=? zlen (fr_out st) then st
      else fair_rows perDirLimit globalLimit (fair_row perDirLimit st s) rest
  end.

Definition per_directory (perDirLimit : Z) : Z :=
  if perDirLimit <=? 0 then defaultSessionListPerDirectoryLimit else perDirLimit.
Definition over_all (globalLimit : Z) (sessions : list row) : Z :=
  if globalLimit <=? 0 then zlen sessions else globalLimit.

Definition fairSliceSessionList (sessions : list row) (perDirLimit globalLimit : Z) : list row :=
  match sessions with
  | [] => sessions
  | _ => fr_out (fair_rows (per_directory perDirLimit) (over_all globalLimit sessions) (mkFair [] ∅ ∅) sessions)
  end.

Definition directorySessionTotals (sessions : list row) : gmap string Z :=
  fold_left (fun totals s => <[sessionDirectoryKey s := (totals !!0 sessionDirectoryKey s) + 1]> totals) sessions ∅.

(** The per-directory limit is normalized and not used. *)
Definition fairHomeHasMore (full fair : list row) (perDirLimit : Z) : bool :=
  if zlen fair <? zlen full then true
  else
    let fullPerDir := directorySessionTotals full in
    let fairPerDir := directorySessionTotals fair in
    existsb (fun dn => (fairPerDir !!0 fst dn) <? snd dn) (map_to_list fullPerDir).

(** The page: its sessions, hasMore and directoryTotals. *)
Definition packageFairHomePage (full : list row) (perDirLimit globalLimit : Z) : list row * bool * gmap string Z :=
  let fair := fairSliceSessionList full perDirLimit globalLimit in
  (fair, fairHomeHasMore full fair perDirLimit, directorySessionTotals full).

(** ** The recent view *)

Definition catalogViewStandard : string := "standard".
Definition catalogViewRecent : string := "recent".

Inductive ViewError : Type := DirectoryNotAccepted | RootsOnlyRequired | UnknownView (view : string).

Definition parseCatalogView (view directory : string) (rootsOnly : bool) : ViewError + string :=
  let v := trim_space view in
  if String.eqb v "" then inr catalogViewStandard
  else if String.eqb v catalogViewStandard then inr catalogViewStandard
  else if String.eqb v catalogViewRecent then
    if negb (String.eqb (trim_space directory) "") then inl DirectoryNotAccepted
    else if negb rootsOnly then inl RootsOnlyRequired
    else inr catalogViewRecent
  else inl (UnknownView view).

(** A row of the recent view: a root, not archived. *)
Definition recent_row (m : row) : bool :=
  String.eqb (trim_space (str "parentID" m)) "" && String.eqb (trim_space (str "parentId" m)) "" &&
  (num "archivedAtMillis" m <=? 0).

(** The comparison of the sort, and the order it sorts by. *)
Definition recent_less (a b : row) : bool :=
  if negb (row_time a =? row_time b) then row_time b <? row_time a else String.ltb (row_id a) (row_id b).
Definition recent_le (a b : row) : Prop := recent_less b a = false.

#[export] Instance recent_le_dec a b : Decision (recent_le a b).
Proof. unfold recent_le. apply _. Defined.

(** [sort.SliceStable]: a merge sort that takes the left one of equal rows. *)
Definition prepareRecentSnapshot (maps : list row) : list row :=
  merge_sort recent_le (filter (fun m => recent_row m = true) maps).

(** ** Workspaces *)

Section Workspaces.
Context (home : option string) (is_dir : string -> bool).

Definition normalizeCatalogDirectory (directory : string) : option string :=
  let dir := trim_space directory in
  if String.eqb dir "" || String.eqb dir "." then None
  else
    let dir :=
      if String.prefix "~/" dir then
        match home with Some h => Join h (String.substring 2 (String.length dir - 2) dir) | None => dir end
      else if String.eqb dir "~" then default dir home
      else dir in
    Some (Clean dir).

Definition sessionWorkspaceExistsForCatalog (clean : string) : bool :=
  if String.eqb clean "" then false else if negb (IsAbs clean) then true else is_dir clean.

Definition isNonProjectCatalogPath (clean : string) : bool :=
  if String.eqb clean "" || String.eqb clean "." then true
  else if existsb (String.eqb clean) ["/"; "/Users"; "/home"; "/private"; "/var"; "/tmp"; "/private/tmp"] then true
  else
    String.eqb clean "/tmp" || String.prefix "/tmp/" clean ||
    String.eqb clean "/private/tmp" || String.prefix "/private/tmp/" clean.

(** A root may be the workspace itself, or above it when it is not the home directory. *)
Definition root_covers (cwd root : string) : bool :=
  if String.eqb cwd root then true
  else
    let home := Clean (default "" home) in
    if negb (String.eqb home "") && String.eqb root home then false
    else String.prefix (root +:+ "/") cwd.

Definition better_root (cwd best r : string) : string :=
  let r := Clean (trim_space r) in
  if String.eqb r "" then best
  else if root_covers cwd r && (String.length best <=? String.length r)%nat then r else best.

Definition matchCodexWorkspaceRoot (cwd : string) (roots : list string) : option string :=
  if String.eqb cwd "" || bool_decide (roots = []) then None
  else
    let best := fold_left (better_root cwd) roots "" in
    if String.eqb best "" then None else Some best.

(** One row: dropped, or kept with its directory set to the root that covers it. *)
Definition visible_row (codexRoots : list string) (useRoots : bool) (s : row) : option row :=
  match normalizeCatalogDirectory (sessionDirectoryKey s) with
  | None => None
  | Some clean =>
      if negb (sessionWorkspaceExistsForCatalog clean) then None
      else if isNonProjectCatalogPath clean then None
      else if useRoots then
        match matchCodexWorkspaceRoot clean codexRoots with
        | None => None
        | Some root => Some (if String.eqb root "" then s else <["directory" := CString root]> s)
        end
      else Some s
  end.

(** The cache of the checks of a call changes nothing while the file system does not. *)
Definition filterCatalogSessionsByVisibility (sessions : list row) (codexRoots : list string)
    (requireCodexRoots : bool) : list row :=
  let useRoots := requireCodexRoots && negb (bool_decide (codexRoots = [])) in
  omap (visible_row codexRoots useRoots) sessions.

Definition filterSessionsMissingWorkspace (sessions : list row) : list row :=
  filterCatalogSessionsByVisibility sessions [] false.
Definition filterCodexCatalogSessions (roots : list string) (sessions : list row) : list row :=
  filterCatalogSessionsByVisibility sessions roots true.

Definition sessionWorkspaceVisibleForCatalog (directory : string) : bool :=
  match normalizeCatalogDirectory directory with
  | None => false
  | Some clean => if isNonProjectCatalogPath clean then false else sessionWorkspaceExistsForCatalog clean
  end.

End Workspaces.

(** ** The home page: what is on it *)

(** The rows of a directory. *)
Definition of_directory (d : string) (l : list row) : list row := filter (fun s => sessionDirectoryKey s = d) l.

(** Whether a row is taken after the rows [out]. *)
Definition taken (K N : Z) (out : list row) (s : row) : bool :=
  negb (String.eqb (row_id s) "") && negb (bool_decide (row_id s ∈ map row_id out)) &&
  (zlen (of_directory (sessionDirectoryKey s) out) <? K) && (zlen out <? N).

(** What the loop keeps, by its decisions. *)
Fixpoint fair_kept (K N : Z) (out : list row) (l : list row) : list row :=
  match l with
  | [] => out
  | s :: rest => fair_kept K N (if taken K N out s then out ++ [s] else out) rest
  end.

(** The set and the counters describe the rows taken. *)
Record fair_inv (st : fair_state) : Prop := {
  fi_selected : forall id, id ∈ fr_selected st <-> id ∈ map row_id (fr_out st);
  fi_perDir : forall d, fr_perDir st !!0 d = zlen (of_directory d (fr_out st))
}.

Lemma fair_inv_init : fair_inv (mkFair [] ∅ ∅).
Proof. split; cbn; [set_solver|done]. Qed.

Lemma of_directory_app d l1 l2 : of_directory d (l1 ++ l2) = of_directory d l1 ++ of_directory d l2.
Proof. apply filter_app. Qed.

Lemma fair_row_decides K N st s : fair_inv st -> zlen (fr_out st) < N ->
  fr_out (fair_row K st s) = (if taken K N (fr_out st) s then fr_out st ++ [s] else fr_out st) /\
  fair_inv (fair_row K st s).
Proof.
  intros [Hsel Hdir] HN. unfold taken. rewrite (proj2 (Z.ltb_lt _ _) HN), andb_true_r, <-Hdir.
  rewrite (bool_decide_ext _ _ (iff_sym (Hsel (row_id s)))). unfold fair_row.
  destruct (String.eqb (row_id s) ""); [done|].
  destruct (bool_decide (row_id s ∈ fr_selected st)); [done|]. cbn [negb andb].
  rewrite Z.leb_antisym. destruct (fr_perDir st !!0 sessionDirectoryKey s <? K); [|done]. cbn [negb].
  split; [done|]. split; cbn [fr_selected fr_out fr_perDir].
  - intros id. rewrite map_app, elem_of_app, elem_of_union, <-Hsel. cbn. set_solver.
  - intros d. rewrite of_directory_app, length_app. unfold of_directory at 2. cbn -[filter].
    rewrite filter_cons, filter_nil. destruct (decide (sessionDirectoryKey s = d)) as [<-|Hne].
    + rewrite lookup_insert_eq. cbn. rewrite Hdir. lia.
    + rewrite lookup_insert_ne by done. cbn. rewrite Hdir. lia.
Qed.

Lemma kept_full K N out l : N <= zlen out -> fair_kept K N out l = out.
Proof.
  intros HN. induction l as [|s l IH]; cbn; [done|]. unfold taken.
  rewrite (proj2 (Z.ltb_ge _ _) HN), andb_false_r. done.
Qed.

Lemma fair_rows_kept K N l : forall st, fair_inv st -> fr_out (fair_rows K N st l) = fair_kept K N (fr_out st) l.
Proof.
  induction l as [|s l IH]; intros st Hinv; [done|]. cbn [fair_rows].
  destruct (Z.leb_spec N (zlen (fr_out st))) as [H|H]; [by rewrite kept_full|].
  destruct (fair_row_decides K N st s Hinv H) as [Ho Hi]. rewrite IH by done. cbn [fair_kept]. by rewrite Ho.
Qed.

Lemma fair_is_kept sessions perDirLimit globalLimit :
  fairSliceSessionList sessions perDirLimit globalLimit =
    fair_kept (per_directory perDirLimit) (over_all globalLimit sessions) [] sessions.
Proof.
  unfold fairSliceSessionList. destruct sessions as [|s l]; [done|].
  apply (fair_rows_kept _ _ (s :: l) (mkFair [] ∅ ∅)), fair_inv_init.
Qed.

Lemma fair_kept_app K N l1 l2 : forall out, fair_kept K N out (l1 ++ l2) = fair_kept K N (fair_kept K N out l1) l2.
Proof. induction l1 as [|s l1 IH]; intros out; [done|]. cbn. apply IH. Qed.

Lemma fair_kept_sublist K N l : forall out, exists k, fair_kept K N out l = out ++ k /\ sublist k l.
Proof.
  induction l as [|s l IH]; intros out; [exists []; by rewrite app_nil_r|]. cbn.
  destruct (taken K N out s).
  - destruct (IH (out ++ [s])) as (k & -> & Hk). exists (s :: k). split; [by rewrite <-app_assoc|by constructor].
  - destruct (IH out) as (k & -> & Hk). exists k. split; [done|by constructor].
Qed.

(** What holds of the rows taken, whatever is offered. *)
Record fair_page (K N : Z) (out : list row) : Prop := {
  fp_ids : NoDup (map row_id out);
  fp_named : Forall (fun s => row_id s <> "") out;
  fp_dir : forall d, zlen (of_directory d out) <= Z.max 0 K;
  fp_all : zlen out <= Z.max 0 N
}.

Lemma fair_kept_page K N l : forall out, fair_page K N out -> fair_page K N (fair_kept K N out l).
Proof.
  induction l as [|s l IH]; intros out Hp; [done|]. cbn. apply IH.
  destruct (taken K N out s) eqn:E; [|done]. unfold taken in E. zprop. destruct Hp as [H1' H2' H3' H4'].
  apply String.eqb_neq in H. split.
  - rewrite map_app. apply NoDup_app. split_and!; [done| |apply NoDup_singleton].
    intros id Hid [= ->]%list_elem_of_singleton. done.
  - apply Forall_app. split; [done|]. by constructor.
  - intros d. rewrite of_directory_app, length_app. unfold of_directory at 2. cbn -[filter].
    rewrite filter_cons, filter_nil. destruct (decide (sessionDirectoryKey s = d)) as [<-|Hne]; cbn.
    + lia.
    + specialize (H3' d). lia.
  - rewrite length_app. cbn. lia.
Qed.

Lemma per_directory_pos K : 0 < per_directory K.
Proof. unfold per_directory, defaultSessionListPerDirectoryLimit. zbool; lia. Qed.

Lemma over_all_nonneg N l : 0 <= over_all N l.
Proof. unfold over_all. zbool; lia. Qed.

(** C34. The home page of all directories, row by row: a row is on it exactly when it has an
    id, none before it on the page has the same, fewer than the limit of its directory
    are before it on the page and fewer than the limit of the page. So the page is a
    selection of the list in its order, of distinct sessions, within both limits, and of
    each directory the most recent ones. *)
Theorem fair_home_page l1 s l2 perDirLimit globalLimit :
  let sessions := l1 ++ s :: l2 in
  let K := per_directory perDirLimit in
  let N := over_all globalLimit sessions in
  let page := fairSliceSessionList sessions perDirLimit globalLimit in
  sublist page sessions /\ fair_page K N page /\
  exists earlier later, page = earlier ++ (if taken K N earlier s then [s] else []) ++ later /\
    sublist earlier l1 /\ sublist later l2.
Proof.
  cbv zeta. rewrite fair_is_kept.
  set (K := per_directory perDirLimit). set (N := over_all globalLimit (l1 ++ s :: l2)).
  split_and!.
  - destruct (fair_kept_sublist K N (l1 ++ s :: l2) []) as (k & -> & Hk). done.
  - apply fair_kept_page. split; cbn; [constructor|constructor|intros d; lia|lia].
  - rewrite fair_kept_app. destruct (fair_kept_sublist K N l1 []) as (k & -> & Hk). cbn [app fair_kept].
    destruct (fair_kept_sublist K N l2 (if taken K N k s then k ++ [s] else k)) as (k' & -> & Hk').
    exists k, k'. split_and!; [|done|done]. destruct (taken K N k s); [by rewrite <-app_assoc|done].
Qed.

Lemma totals_count l : forall (m : gmap string Z) d,
  fold_left (fun totals s => <[sessionDirectoryKey s := (totals !!0 sessionDirectoryKey s) + 1]> totals) l m !!0 d =
    m !!0 d + zlen (of_directory d l).
Proof.
  induction l as [|s l IH]; intros m d; [cbn; lia|]. cbn [fold_left]. rewrite IH.
  unfold of_directory. rewrite filter_cons. destruct (decide (sessionDirectoryKey s = d)) as [<-|Hne].
  - rewrite lookup_insert_eq. cbn [default from_option id length]. lia.
  - rewrite lookup_insert_ne by done. done.
Qed.

(** [directoryTotals] are the numbers of rows of each directory. *)
Lemma directory_totals l d : directorySessionTotals l !!0 d = zlen (of_directory d l).
Proof. unfold directorySessionTotals. by rewrite totals_count. Qed.

Lemma sublist_full {A : Type} (l k : list A) : sublist l k -> (length k <= length l)%nat -> l = k.
Proof.
  induction 1 as [|x l k Hs IH|x l k Hs IH]; cbn; intros Hlen; [done|f_equal; apply IH; lia|].
  apply sublist_length in Hs. lia.
Qed.

(** [hasMore] of the home page says exactly that a row of the list is not on it: the
    comparison of directories behind the comparison of lengths never decides. The totals
    count every row of the list, so that what remains of a directory is the total less
    what is shown. *)
Theorem home_has_more full perDirLimit globalLimit :
  let '(fair, hasMore, totals) := packageFairHomePage full perDirLimit globalLimit in
  hasMore = negb (bool_decide (fair = full)) /\
  (forall d, totals !!0 d = zlen (of_directory d full)) /\
  forall d, zlen (of_directory d fair) <= totals !!0 d.
Proof.
  unfold packageFairHomePage. set (fair := fairSliceSessionList full perDirLimit globalLimit).
  assert (sublist fair full) as Hsub.
  { unfold fair. rewrite fair_is_kept. destruct (fair_kept_sublist (per_directory perDirLimit)
      (over_all globalLimit full) full []) as (k & -> & Hk). done. }
  split_and!; [|apply directory_totals|].
  - unfold fairHomeHasMore. destruct (Z.ltb_spec (zlen fair) (zlen full)) as [Hlt|Hge].
    + rewrite bool_decide_false; [done|]. intros Heq. rewrite Heq in Hlt. lia.
    + assert (fair = full) as Heq by (apply sublist_full; [done|lia]).
      rewrite bool_decide_true by done. rewrite Heq. apply not_true_iff_false. rewrite existsb_exists.
      intros ([d n] & Hin%list_elem_of_In%elem_of_map_to_list & Hlt%Z.ltb_lt). cbn in Hlt. rewrite Hin in Hlt.
      cbn in Hlt. lia.
  - intros d. rewrite directory_totals. apply inj_le, sublist_length.
    clear -Hsub. induction Hsub as [|s l1 l2 Hs IH|s l1 l2 Hs IH]; [done| |];
      unfold of_directory in *; rewrite !filter_cons; case_decide; by try constructor.
Qed.

(** ** The recent view *)

Lemma recent_le_iff a b : recent_le a b <->
  row_time b < row_time a \/ row_time a = row_time b /\ text_le (row_id a) (row_id b).
Proof.
  unfold recent_le, recent_less. destruct (Z.eqb_spec (row_time b) (row_time a)); cbn [negb].
  - rewrite text_not_lt. intuition lia.
  - rewrite Z.ltb_ge. intuition lia.
Qed.

#[export] Instance recent_le_trans : Transitive recent_le.
Proof.
  intros a b c. rewrite !recent_le_iff. intros [?|[? Hab]] [?|[? Hbc]]; try (left; lia).
  right. split; [lia|]. by trans (row_id b).
Qed.

#[export] Instance recent_le_total : Total recent_le.
Proof.
  intros a b. rewrite !recent_le_iff. destruct (Z.lt_trichotomy (row_time a) (row_time b)) as [?|[?|?]].
  - right. by left.
  - destruct (total text_le (row_id a) (row_id b)); [left|right]; right; by split.
  - left. by left.
Qed.

(** The recent view holds the roots that are not archived, each as often as the list does,
    the most recent first and by id at equal times; a list whose rows have distinct ids
    gives the same view in whatever order its backend returned it. *)
Theorem recent_view maps :
  prepareRecentSnapshot maps ≡ₚ filter (fun m => recent_row m = true) maps /\
  StronglySorted recent_le (prepareRecentSnapshot maps) /\
  (NoDup (map row_id maps) -> forall maps', maps' ≡ₚ maps -> prepareRecentSnapshot maps' = prepareRecentSnapshot maps).
Proof.
  unfold prepareRecentSnapshot. split_and!; [apply merge_sort_Permutation|apply StronglySorted_merge_sort; apply _|].
  intros Hnd maps' Hperm. apply (StronglySorted_unique_strong recent_le).
  - intros a b Ha Hb. rewrite merge_sort_Permutation in Ha, Hb.
    apply list_elem_of_filter in Ha as [_ Ha]. apply list_elem_of_filter in Hb as [_ Hb]. rewrite Hperm in Ha.
    rewrite !recent_le_iff. intros [?|[? H1]] [?|[? H2]]; try lia.
    assert (row_id a = row_id b) as Hid by by apply (anti_symm text_le).
    clear -Hnd Ha Hb Hid. induction maps as [|m l IH]; [by apply elem_of_nil in Ha|].
    cbn in Hnd. apply NoDup_cons in Hnd as [Hm Hl].
    apply elem_of_cons in Ha as [-> | Ha], Hb as [-> | Hb]; [done| | |by apply IH].
    all: exfalso; apply Hm; apply list_elem_of_fmap; by eexists.
  - apply StronglySorted_merge_sort; apply _.
  - apply StronglySorted_merge_sort; apply _.
  - rewrite !merge_sort_Permutation. by rewrite Hperm.
Qed.

(** ** Workspaces *)

Lemma Clean_nonempty s : Clean s <> "".
Proof.
  unfold Clean. cbv zeta. destruct (IsAbs s); [done|].
  destruct (String.eqb_spec (String.concat "/" (rev (fold_left (clean_element false) (path_elements s) []))) ""); done.
Qed.

Lemma prefix_length_eq p q s : String.prefix p s = true -> String.prefix q s = true ->
  String.length p = String.length q -> p = q.
Proof.
  revert q s. induction p as [|c p IH]; intros [|d q] [|e s]; cbn; try done.
  destruct (Ascii.ascii_dec c e) as [->|]; [|done]. destruct (Ascii.ascii_dec d e) as [->|]; [|done].
  intros Hp Hq [= Hlen]. f_equal. by eapply IH.
Qed.

Lemma base_prefix_app p q s : String.prefix (p +:+ q) s = true -> String.prefix p s = true.
Proof.
  revert s. induction p as [|c p IH]; intros s; [by destruct s|]. destruct s as [|e s]; [done|].
  change (String c p +:+ q) with (String c (p +:+ q)). cbn [String.prefix].
  destruct (Ascii.ascii_dec c e); [apply IH|done].
Qed.

Lemma prefix_refl s : String.prefix s s = true.
Proof. induction s as [|c s IH]; [done|]. cbn. by destruct (Ascii.ascii_dec c c). Qed.

Section Roots.
Context (home : option string).

Lemma covers_prefix cwd r : root_covers home cwd r = true -> String.prefix r cwd = true.
Proof.
  unfold root_covers. destruct (String.eqb_spec cwd r) as [->|]; [intros _; apply prefix_refl|].
  cbv zeta. case_if; [done|]. apply base_prefix_app.
Qed.

Definition cleaned (roots : list string) : list string := map (fun r => Clean (trim_space r)) roots.

(** The choice so far: none covers, or the longest that does. *)
Definition best_of (cwd best : string) (roots : list string) : Prop :=
  (best = "" /\ forall r, r ∈ roots -> root_covers home cwd r = false) \/
  (best <> "" /\ best ∈ roots /\ root_covers home cwd best = true /\
   forall r, r ∈ roots -> root_covers home cwd r = true -> (String.length r <= String.length best)%nat).

Lemma better_root_best cwd best seen r : best_of cwd best seen ->
  best_of cwd (better_root home cwd best r) (seen ++ cleaned [r]).
Proof.
  unfold better_root. cbn [cleaned map]. set (c := Clean (trim_space r)).
  assert (c <> "") as Hc by apply Clean_nonempty. rewrite (proj2 (String.eqb_neq c "") Hc).
  destruct (root_covers home cwd c) eqn:E; cbn [andb].
  - destruct (Nat.leb_spec (String.length best) (String.length c)) as [Hle|Hlt]; intros [[-> Hn]|(Hb & Hin & Hcov & Hl)].
    + right. split_and!; [done|set_solver|done|]. intros r' [Hr'|Hr']%elem_of_app; [|set_solver].
      intros Ht. by rewrite Hn in Ht.
    + right. split_and!; [done|set_solver|done|]. intros r' [Hr'|Hr'%list_elem_of_singleton]%elem_of_app Ht.
      * specialize (Hl r' Hr' Ht). lia.
      * by subst.
    + cbn in Hlt. lia.
    + right. split_and!; [done|set_solver|done|]. intros r' [Hr'|Hr'%list_elem_of_singleton]%elem_of_app Ht.
      * by apply Hl.
      * subst. lia.
  - intros [[-> Hn]|(Hb & Hin & Hcov & Hl)].
    + left. split; [done|]. intros r' [Hr'|Hr'%list_elem_of_singleton]%elem_of_app; [by apply Hn|by subst].
    + right. split_and!; [done|set_solver|done|]. intros r' [Hr'|Hr'%list_elem_of_singleton]%elem_of_app Ht; [by apply Hl|].
      subst. by rewrite E in Ht.
Qed.

Lemma fold_best cwd roots : forall best seen, best_of cwd best seen ->
  best_of cwd (fold_left (better_root home cwd) roots best) (seen ++ cleaned roots).
Proof.
  induction roots as [|r roots IH]; intros best seen H; cbn [fold_left]; [by rewrite app_nil_r|].
  change (cleaned (r :: roots)) with (cleaned [r] ++ cleaned roots). rewrite app_assoc.
  apply IH. by apply better_root_best.
Qed.

(** A workspace belongs to the longest saved root that is it or, the home directory apart,
    above it; there is one such root, whatever the order the roots are saved in; a
    workspace that no root covers belongs to none. *)
Theorem workspace_root cwd roots : cwd <> "" ->
  match matchCodexWorkspaceRoot home cwd roots with
  | None => forall r, r ∈ cleaned roots -> root_covers home cwd r = false
  | Some root =>
      root ∈ cleaned roots /\ root_covers home cwd root = true /\
      forall r, r ∈ cleaned roots -> root_covers home cwd r = true ->
        (String.length r < String.length root)%nat \/ r = root
  end.
Proof.
  intros Hcwd. unfold matchCodexWorkspaceRoot. rewrite (proj2 (String.eqb_neq cwd "") Hcwd). cbn [orb].
  case_bool_decide as Hnil; [subst; by intros r ?%elem_of_nil|]. cbv zeta.
  destruct (fold_best cwd roots "" []) as [[-> Hn]|(Hb & Hin & Hcov & Hl)].
  - left. by split; [|intros r ?%elem_of_nil].
  - exact Hn.
  - rewrite (proj2 (String.eqb_neq _ "") Hb). split_and!; [done|done|]. intros r Hr Ht.
    specialize (Hl r Hr Ht). apply Nat.lt_eq_cases in Hl as [?|Heq]; [by left|right].
    by apply (prefix_length_eq _ _ cwd); [apply covers_prefix..|].
Qed.

Lemma visible_row_missing is_dir s :
  visible_row home is_dir [] false s =
    if sessionWorkspaceVisibleForCatalog home is_dir (sessionDirectoryKey s) then Some s else None.
Proof.
  unfold visible_row, sessionWorkspaceVisibleForCatalog.
  destruct (normalizeCatalogDirectory home (sessionDirectoryKey s)) as [clean|]; [|done].
  by destruct (sessionWorkspaceExistsForCatalog is_dir clean), (isNonProjectCatalogPath clean).
Qed.

(** The filter of missing workspaces keeps, in their order and unchanged, exactly the rows
    whose workspace is visible. *)
Theorem missing_workspaces_filtered is_dir sessions :
  filterSessionsMissingWorkspace home is_dir sessions =
    filter (fun s => sessionWorkspaceVisibleForCatalog home is_dir (sessionDirectoryKey s) = true) sessions.
Proof.
  unfold filterSessionsMissingWorkspace, filterCatalogSessionsByVisibility. cbn [andb].
  induction sessions as [|s l IH]; [done|]. rewrite filter_cons.
  change (omap _ (s :: l)) with
    (match visible_row home is_dir [] false s with
     | Some b => b :: omap (visible_row home is_dir [] false) l
     | None => omap (visible_row home is_dir [] false) l end).
  rewrite IH, visible_row_missing.
  by destruct (sessionWorkspaceVisibleForCatalog home is_dir (sessionDirectoryKey s)).
Qed.

(** Every row of the Codex filter is a row of the list in a visible workspace, under the
    saved root the workspace belongs to when roots are saved. *)
Theorem codex_rows_under_roots is_dir roots sessions s' : roots <> [] ->
  s' ∈ filterCodexCatalogSessions home is_dir roots sessions <->
  exists s clean root, s ∈ sessions /\ normalizeCatalogDirectory home (sessionDirectoryKey s) = Some clean /\
    sessionWorkspaceExistsForCatalog is_dir clean = true /\ isNonProjectCatalogPath clean = false /\
    matchCodexWorkspaceRoot home clean roots = Some root /\ s' = <["directory" := CString root]> s.
Proof.
  intros Hr. unfold filterCodexCatalogSessions, filterCatalogSessionsByVisibility.
  rewrite bool_decide_false by done. cbn [andb negb]. rewrite list_elem_of_omap. unfold visible_row. split.
  - intros (s & Hin & Hs). exists s. destruct (normalizeCatalogDirectory home (sessionDirectoryKey s)) as [clean|]; [|done].
    destruct (sessionWorkspaceExistsForCatalog is_dir clean) eqn:E1; [|done].
    destruct (isNonProjectCatalogPath clean) eqn:E2; [done|]. cbn [negb] in Hs.
    destruct (matchCodexWorkspaceRoot home clean roots) as [root|] eqn:E3; [|done].
    exists clean, root. split_and!; try done. destruct (String.eqb_spec root "") as [->|]; [exfalso|congruence].
    revert E3. unfold matchCodexWorkspaceRoot. case_if; [done|]. cbv zeta.
    destruct (String.eqb_spec (fold_left (better_root home clean) roots "") ""); congruence.
  - intros (s & clean & root & Hin & H1 & H2 & H3 & Hm & ->). exists s. split; [done|]. rewrite H1, H2, H3. cbn [negb]. rewrite Hm.
    destruct (String.eqb_spec root "") as [->|]; [exfalso|done].
    revert Hm. unfold matchCodexWorkspaceRoot. case_if; [done|]. cbv zeta.
    destruct (String.eqb_spec (fold_left (better_root home clean) roots "") ""); congruence.
Qed.

End Roots.
