(* ===== verification/CatalogPages.v ===== *)
(** * Pages of a session list (go-bridge/catalog_cursor_v2.go, catalog_wire_snapshot.go,
      pagination.go)

    A cursor is the base64 of a small JSON object. Base64 and the JSON syntax are two
    parameters: the members of the object a text encodes, under the names of the fields
    they set, and the text of an object; what the decoder makes of the members is defined
    here. A list is paged by its second form over a snapshot frozen when its first page
    was asked for, found again by an epoch; by its first form over the list as it is. An
    instant is in nanoseconds, zero for the zero [time.Time]; an [int] has 64 bits, and
    the limit of a page is far below. *)

From S2P Require Import Prelude.
From S2P Require Import TextOrder.
From S2P Require Import BitText.
From S2P Require Import GoText.
From S2P Require Import GoPath.
From S2P Require Import Catalog.

(** ** Cursors *)

(** A value of a member: an integer, a text, [null], or another one. *)
Inductive member : Type := MInt (n : Z) | MText (s : string) | MNull | MOther.
Abbreviation members := (list (string * member)).

Definition listCursorVersion : Z := 1.
Definition listCursorVersionV2 : Z := 2.
Definition catalogSnapshotTTL : Z := 10 * minute.
Definition catalogSlowPaginationSession : Z := 5 * minute.

Record listCursor : Type := mkCursor { c_Version : Z; c_UpdatedAtMillis : Z; c_SessionID : string }.
Record listCursorV2 : Type := mkCursorV2 {
  Version : Z; Epoch : string; UpdatedAtMillis : Z; SessionID : string
}.

Definition int64 (z : Z) : bool := (-9223372036854775808 <=? z) && (z <? 9223372036854775808).

(** [json.Unmarshal] of one member into an integer and into a text field: [None] is an
    error, [null] leaves the field. *)
Definition into_int (v : member) (field : Z) : option Z :=
  match v with MInt n => if int64 n then Some n else None | MNull => Some field | _ => None end.
Definition into_text (v : member) (field : string) : option string :=
  match v with MText s => Some s | MNull => Some field | _ => None end.

Definition set_member (c : listCursor) (kv : string * member) : option listCursor :=
  let '(k, v) := kv in
  if String.eqb k "v" then x ← into_int v (c_Version c); Some (mkCursor x (c_UpdatedAtMillis c) (c_SessionID c))
  else if String.eqb k "ts" then x ← into_int v (c_UpdatedAtMillis c); Some (mkCursor (c_Version c) x (c_SessionID c))
  else if String.eqb k "sid" then x ← into_text v (c_SessionID c); Some (mkCursor (c_Version c) (c_UpdatedAtMillis c) x)
  else Some c.

Definition set_member_v2 (c : listCursorV2) (kv : string * member) : option listCursorV2 :=
  let '(k, v) := kv in
  if String.eqb k "v" then
    x ← into_int v (Version c); Some (mkCursorV2 x (Epoch c) (UpdatedAtMillis c) (SessionID c))
  else if String.eqb k "ep" then
    x ← into_text v (Epoch c); Some (mkCursorV2 (Version c) x (UpdatedAtMillis c) (SessionID c))
  else if String.eqb k "ts" then
    x ← into_int v (UpdatedAtMillis c); Some (mkCursorV2 (Version c) (Epoch c) x (SessionID c))
  else if String.eqb k "sid" then
    x ← into_text v (SessionID c); Some (mkCursorV2 (Version c) (Epoch c) (UpdatedAtMillis c) x)
  else Some c.

Fixpoint set_members {C : Type} (set_one : C -> string * member -> option C) (c : C) (ms : members) : option C :=
  match ms with
  | [] => Some c
  | kv :: ms => c ← set_one c kv; set_members set_one c ms
  end.

(** What makes a cursor unusable. *)
Inductive CursorError : Type := Malformed | UnsupportedVersion (v : Z).

(** ** Snapshots *)

Record catalogWireScope : Type := mkScope {
  sc_BackendID : string;
  sc_Global : bool;
  sc_Directory : string;
  sc_RootsOnly : bool;
  sc_View : string
}.

#[export] Instance catalogWireScope_eq_dec : EqDecision catalogWireScope.
Proof. solve_decision. Defined.
#[export] Instance catalogWireScope_countable : Countable catalogWireScope.
Proof.
  refine (inj_countable' (fun s => (sc_BackendID s, sc_Global s, sc_Directory s, sc_RootsOnly s, sc_View s))
    (fun '(b, g, d, r, v) => mkScope b g d r v) _). by intros [].
Defined.

Inductive ScopeError : Type := BackendRequired | NotExactlyOne.

Record catalogWireSnapshot : Type := mkSnapshot {
  ws_scope : catalogWireScope;
  ws_generation : Z;
  ws_epoch : string;
  ws_createdAt : Z;
  ws_maps : list row
}.

(** [openCodeCatalogScopeKey] too. *)
Definition newCatalogWireScope (home : option string) (backendID dir : string) (rootsOnly : bool) : catalogWireScope :=
  let backendID := trim_space backendID in
  let dir := trim_space dir in
  if String.eqb dir "" then mkScope backendID true "" rootsOnly ""
  else mkScope backendID false (default (Clean dir) (normalizeCatalogDirectory home dir)) rootsOnly "".

Definition recentCatalogScope (backendID : string) : catalogWireScope :=
  mkScope backendID true "" true catalogViewRecent.

Definition validate (s : catalogWireScope) : option ScopeError :=
  if String.eqb (sc_BackendID s) "" then Some BackendRequired
  else if Bool.eqb (sc_Global s) (negb (String.eqb (sc_Directory s) "")) then Some NotExactlyOne
  else None.

Definition nul : string := string_of_bytes [0].
Definition bit (b : bool) : string := if b then "1" else "0".

Definition identity (s : catalogWireScope) : string :=
  sc_BackendID s +:+ nul +:+ bit (sc_Global s) +:+ nul +:+ sc_Directory s +:+ nul +:+ bit (sc_RootsOnly s) +:+ nul +:+
  (if String.eqb (sc_View s) "" then catalogViewStandard else sc_View s).

(** What the rows of a snapshot must be; the error is at a row. *)
Inductive RowsError : Type := EmptyID (index : nat) | DuplicateID (id : string).

Fixpoint check_rows (seen : gset string) (index : nat) (maps : list row) : option RowsError :=
  match maps with
  | [] => None
  | item :: rest =>
      let id := trim_space (row_id item) in
      if String.eqb id "" then Some (EmptyID index)
      else if bool_decide (id ∈ seen) then Some (DuplicateID id)
      else check_rows ({[id]} ∪ seen) (S index) rest
  end.
Definition validateCatalogWireMaps (maps : list row) : option RowsError := check_rows ∅ 0 maps.

(** The text a list is known by: position, id, time, directory, project and title of each
    row, before it is hashed. *)
Fixpoint semantic_lines (home : option string) (index : Z) (maps : list row) : string :=
  match maps with
  | [] => ""
  | item :: rest =>
      let dir := sessionDirectoryKey item in
      let dir := default dir (normalizeCatalogDirectory home dir) in
      format_int index +:+ "|" +:+ row_id item +:+ "|" +:+ format_int (row_time item) +:+ "|" +:+ dir +:+ "|" +:+
      str "projectId" item +:+ "|" +:+ str "title" item +:+ string_of_bytes [10] +:+
      semantic_lines home (index + 1) rest
  end.

Definition snapshotExpired (createdAt now : Z) : bool :=
  if createdAt =? 0 then true else catalogSnapshotTTL <? now - createdAt.

Definition wireSnapshotExpired (s : option catalogWireSnapshot) (now : Z) : bool :=
  match s with None => true | Some s => snapshotExpired (ws_createdAt s) now end.

Inductive StaleReason : Type :=
| cursorStaleV1 | cursorStaleNoSnapshot | cursorStaleExpired | cursorStaleEpochMismatch.

(** [validateCursorV2] of the view of a snapshot: [None] when it can be sliced. *)
Definition validateCursorV2 (cursor : listCursorV2) (isV1 : bool) (snapshot : option catalogWireSnapshot)
    (now : Z) : option StaleReason :=
  if isV1 then Some cursorStaleV1
  else
    match snapshot with
    | None => Some cursorStaleNoSnapshot
    | Some s =>
        if snapshotExpired (ws_createdAt s) now then Some cursorStaleExpired
        else if negb (String.eqb (Epoch cursor) (ws_epoch s)) then Some cursorStaleEpochMismatch
        else None
    end.

Definition copyWireRange (maps : list row) (start end_ : Z) : list row :=
  let start := Z.max 0 start in
  if (zlen maps <=? start) || (end_ <=? start) then []
  else
    let end_ := Z.min end_ (zlen maps) in
    take (Z.to_nat (end_ - start)) (drop (Z.to_nat start) maps).

(** The position after the first row with an id. *)
Fixpoint after_id (id : string) (index : Z) (maps : list row) : option Z :=
  match maps with
  | [] => None
  | m :: rest => if String.eqb (row_id m) id then Some (index + 1) else after_id id (index + 1) rest
  end.

(** ** Pages *)

Section Pages.
Context (parse : string -> option members) (render : members -> string).

(** The epoch of a snapshot: SHA-256 in hexadecimal, shortened. *)
Definition deriveSnapshotEpoch (sha256hex : string -> string) (fingerprint : string) : string :=
  String.substring 0 8 (sha256hex fingerprint).
Definition listSemanticFingerprint (sha256hex : string -> string) (home : option string) (maps : list row) : string :=
  sha256hex (semantic_lines home 0 maps).

Definition encodeListCursor (c : listCursor) : string :=
  render [("v", MInt listCursorVersion); ("ts", MInt (c_UpdatedAtMillis c)); ("sid", MText (c_SessionID c))].

Definition decodeListCursor (s : string) : CursorError + listCursor :=
  match parse s with
  | None => inl Malformed
  | Some ms =>
      match set_members set_member (mkCursor 0 0 "") ms with
      | None => inl Malformed
      | Some c => if negb (c_Version c =? listCursorVersion) then inl (UnsupportedVersion (c_Version c)) else inr c
      end
  end.

Definition encodeListCursorV2 (c : listCursorV2) : string :=
  render [("v", MInt listCursorVersionV2); ("ep", MText (Epoch c)); ("ts", MInt (UpdatedAtMillis c));
          ("sid", MText (SessionID c))].

(** The cursor, and whether it is of the first form. *)
Definition decodeListCursorV2 (s : string) : CursorError + (listCursorV2 * bool) :=
  match parse s with
  | None => inl Malformed
  | Some ms =>
      match set_members set_member_v2 (mkCursorV2 0 "" 0 "") ms with
      | None => inl Malformed
      | Some c =>
          if Version c =? listCursorVersionV2 then inr (c, false)
          else if Version c =? listCursorVersion then inr (mkCursorV2 (Version c) "" 0 "", true)
          else inl (UnsupportedVersion (Version c))
      end
  end.

(** A page: its rows, the cursor of the next one ("" for none), hasMore. *)
Record page : Type := mkPage { pg_sessions : list row; pg_nextCursor : string; pg_hasMore : bool }.

Definition encodeWireNext (snap : catalogWireSnapshot) (rows : list row) (hasMore : bool) : string :=
  if negb hasMore then ""
  else match last rows with
       | None => ""
       | Some m => encodeListCursorV2 (mkCursorV2 0 (ws_epoch snap) (row_time m) (row_id m))
       end.

(** The rows from [start] on, up to the limit. *)
Definition wire_page (snap : catalogWireSnapshot) (start limit : Z) : page :=
  let end_ := if (limit <=? 0) || (zlen (ws_maps snap) <? start + limit) then zlen (ws_maps snap) else start + limit in
  let sessions := copyWireRange (ws_maps snap) start end_ in
  let hasMore := (0 <? limit) && (end_ <? zlen (ws_maps snap)) in
  mkPage sessions (encodeWireNext snap sessions hasMore) hasMore.

Inductive answer : Type := Page (p : page) | Stale (reason : StaleReason) | BadCursor (e : CursorError).

(** A page after the first. *)
Definition slice_after (snap : option catalogWireSnapshot) (cursor : string) (limit now : Z) : answer :=
  match decodeListCursorV2 cursor with
  | inl e => BadCursor e
  | inr (cur, isV1) =>
      match validateCursorV2 cur isV1 snap now, snap with
      | Some reason, _ => Stale reason
      | None, None => Stale cursorStaleNoSnapshot
      | None, Some snap =>
          match after_id (SessionID cur) 0 (ws_maps snap) with
          | None => Stale cursorStaleEpochMismatch
          | Some start => Page (wire_page snap start limit)
          end
      end
  end.

(** The first page needs a snapshot, which the caller has fetched. *)
Definition sliceCatalogWirePage (snap : option catalogWireSnapshot) (cursor : string) (limit now : Z) : option answer :=
  if String.eqb cursor "" then
    match snap with None => None | Some snap => Some (Page (wire_page snap 0 limit)) end
  else Some (slice_after snap cursor limit now).

(** The first form: the rows strictly after the cursor in the list as it is. *)
Definition after_cursor (c : listCursor) (s : row) : bool :=
  (row_time s <? c_UpdatedAtMillis c) ||
  ((row_time s =? c_UpdatedAtMillis c) && String.ltb (c_SessionID c) (row_id s)).

Definition paginateSessionList (sessions : list row) (cursorStr : string) (limit : Z) : page :=
  let sessions :=
    if String.eqb cursorStr "" then sessions
    else match decodeListCursor cursorStr with
         | inr c => filter (fun s => after_cursor c s = true) sessions
         | inl _ => sessions
         end in
  let hasMore := (0 <? limit) && (limit <? zlen sessions) in
  let sessions := if hasMore then take (Z.to_nat limit) sessions else sessions in
  let next :=
    if hasMore then
      match last sessions with
      | Some m => encodeListCursor (mkCursor 0 (row_time m) (row_id m))
      | None => ""
      end
    else "" in
  mkPage sessions next hasMore.

(** Whether a request of the standard view is refused as [cursor_stale]. *)
Definition rejectCrossViewCursor (cursor : string) : bool :=
  if String.eqb cursor "" then false
  else match decodeListCursorV2 cursor with inr _ => true | inl _ => false end.

(** A standard list: the check, then the page; [None] is [cursor_stale]. *)
Definition standard_list (sessions : list row) (cursor : string) (limit : Z) : option page :=
  if rejectCrossViewCursor cursor then None else Some (paginateSessionList sessions cursor limit).

(** [Handlers.effectiveSessionListLimit], and the cap of the paged lists. *)
Definition defaultSessionListLimit : Z := 100.
Definition effectiveSessionListLimit (configured requested : Z) : Z :=
  let configured := if configured <? 1 then defaultSessionListLimit else configured in
  if (0 <? requested) && (requested <? configured) then requested else configured.
Definition paged_limit (configured requested : Z) : Z := Z.min 1000 (effectiveSessionListLimit configured requested).

End Pages.

(** ** Cursors survive encoding *)

Definition member_text (kv : string * member) : Prop :=
  match snd kv with MInt n => int64 n = true | MText s => text s | _ => True end.

Section Codec.
Context (parse : string -> option members) (render : members -> string).

(** Reading an object gives back what was written, for texts in UTF-8 and numbers in range. *)
Hypothesis codec : forall ms, Forall member_text ms -> parse (render ms) = Some ms.

Lemma decode_encode_v2 c : text (Epoch c) -> text (SessionID c) -> int64 (UpdatedAtMillis c) = true ->
  decodeListCursorV2 parse (encodeListCursorV2 render c) =
    inr (mkCursorV2 2 (Epoch c) (UpdatedAtMillis c) (SessionID c), false).
Proof.
  intros He Hs Ht. unfold decodeListCursorV2, encodeListCursorV2. rewrite codec by by repeat constructor.
  cbn [set_members set_member_v2 String.eqb Ascii.eqb Bool.eqb into_int into_text mbind option_bind Version Epoch
         UpdatedAtMillis SessionID]. by rewrite Ht.
Qed.

Lemma decode_encode_v1 c : text (c_SessionID c) -> int64 (c_UpdatedAtMillis c) = true ->
  decodeListCursor parse (encodeListCursor render c) = inr (mkCursor 1 (c_UpdatedAtMillis c) (c_SessionID c)).
Proof.
  intros Hs Ht. unfold decodeListCursor, encodeListCursor. rewrite codec by by repeat constructor.
  cbn [set_members set_member String.eqb Ascii.eqb Bool.eqb into_int into_text mbind option_bind c_Version
         c_UpdatedAtMillis c_SessionID]. by rewrite Ht.
Qed.

(** The decoder of the second form reads a cursor of the first form, without an error. *)
Lemma decode_v2_of_v1 c : text (c_SessionID c) -> int64 (c_UpdatedAtMillis c) = true ->
  decodeListCursorV2 parse (encodeListCursor render c) = inr (mkCursorV2 1 "" 0 "", true).
Proof.
  intros Hs Ht. unfold decodeListCursorV2, encodeListCursor. rewrite codec by by repeat constructor.
  cbn [set_members set_member_v2 String.eqb Ascii.eqb Bool.eqb into_int into_text mbind option_bind Version Epoch
         UpdatedAtMillis SessionID]. by rewrite Ht.
Qed.

(** An object that is written is not the empty text, which asks for the first page. *)
Lemma encoded_nonempty ms : Forall member_text ms -> parse "" = None -> render ms <> "".
Proof. intros Hms Hp E. pose proof (codec ms Hms) as H. rewrite E, Hp in H. done. Qed.

End Codec.

(** ** The rows of a page *)

Definition ids (l : list row) : list string := map row_id l.

Lemma copyWireRange_slice maps start end_ : 0 <= start -> end_ <= zlen maps ->
  copyWireRange maps start end_ = take (Z.to_nat (end_ - start)) (drop (Z.to_nat start) maps).
Proof.
  intros Hs He. unfold copyWireRange. rewrite Z.max_r by done.
  destruct (Z.leb_spec (zlen maps) start), (Z.leb_spec end_ start); cbn [orb].
  1-3: replace (Z.to_nat (end_ - start)) with 0%nat by lia; by rewrite take_0.
  by rewrite Z.min_l by done.
Qed.

(** A page is the next rows, within the limit; it has more exactly when rows are left, and
    then the cursor is at its last row. *)
Lemma wire_page_rows render snap start limit : 0 < limit -> 0 <= start <= zlen (ws_maps snap) ->
  let p := wire_page render snap start limit in
  let rest := drop (Z.to_nat start) (ws_maps snap) in
  pg_sessions p = take (Z.to_nat limit) rest /\
  pg_hasMore p = (limit <? zlen rest) /\
  (pg_hasMore p = false -> pg_nextCursor p = "" /\ pg_sessions p = rest) /\
  (pg_hasMore p = true -> exists init m, pg_sessions p = init ++ [m] /\
     pg_nextCursor p = encodeListCursorV2 render (mkCursorV2 0 (ws_epoch snap) (row_time m) (row_id m))).
Proof.
  intros Hl Hs p rest. assert (zlen rest = zlen (ws_maps snap) - start) as Hrest by (unfold rest; rewrite length_drop; lia).
  set (end_ := if (limit <=? 0) || (zlen (ws_maps snap) <? start + limit) then zlen (ws_maps snap) else start + limit).
  assert (end_ = Z.min (zlen (ws_maps snap)) (start + limit)) as He.
  { unfold end_. rewrite (proj2 (Z.leb_gt limit 0) Hl). cbn [orb]. zbool; lia. }
  assert (pg_sessions p = take (Z.to_nat limit) rest) as Hrows.
  { unfold p, wire_page. cbn [pg_sessions]. fold end_. rewrite copyWireRange_slice by lia. fold rest.
    destruct (Z.le_ge_cases (zlen (ws_maps snap)) (start + limit)) as [H|H].
    - rewrite !take_ge; [done|lia|lia].
    - f_equal. lia. }
  assert (pg_hasMore p = (limit <? zlen rest)) as Hmore.
  { unfold p, wire_page. cbn [pg_hasMore]. fold end_. rewrite (proj2 (Z.ltb_lt 0 limit) Hl). cbn [andb]. zbool; lia. }
  split; [done|]. split; [done|].
  assert (pg_nextCursor p = encodeWireNext render snap (pg_sessions p) (pg_hasMore p)) as Hnext by done.
  rewrite Hnext. split; intros Hm; rewrite Hm; cbn [encodeWireNext negb].
  - split; [done|]. rewrite Hrows. apply take_ge. rewrite Hmore in Hm. zprop. lia.
  - destruct (list_eq_nil_dec (pg_sessions p)) as [Hnil|Hne].
    + exfalso. apply (f_equal length) in Hnil. rewrite Hrows, length_take in Hnil. cbn in Hnil.
      rewrite Hmore in Hm. zprop. lia.
    + destruct (exists_last Hne) as (init & m & Heq). exists init, m. rewrite Heq. split; [done|].
      unfold encodeWireNext. cbn [negb]. by rewrite last_snoc.
Qed.

(** Where the anchor of a cursor is found again. *)
Lemma after_id_found id maps : forall index l1 m l2, maps = l1 ++ m :: l2 -> row_id m = id -> id ∉ ids l1 ->
  after_id id index maps = Some (index + zlen l1 + 1).
Proof.
  induction maps as [|x maps IH]; intros index l1 m l2 Heq Hid Hn; [by destruct l1|].
  destruct l1 as [|y l1]; cbn in Heq; injection Heq as -> Heq; cbn [after_id].
  - rewrite (proj2 (String.eqb_eq _ _) Hid). f_equal. cbn. lia.
  - cbn in Hn. apply not_elem_of_cons in Hn as [Hne Hn].
    destruct (String.eqb_spec (row_id y) id) as [|_]; [congruence|].
    rewrite (IH _ l1 m l2) by done. f_equal. cbn [length]. lia.
Qed.

(** ** Paging over a frozen snapshot *)

(** A snapshot of rows with distinct ids, whose texts and times JSON can carry. *)
Record snapshot_ok (s : catalogWireSnapshot) : Prop := {
  so_ids : NoDup (ids (ws_maps s));
  so_epoch : text (ws_epoch s);
  so_rows : Forall (fun m => text (row_id m) /\ int64 (row_time m) = true) (ws_maps s)
}.

(** The snapshot lists the same sessions. *)
Definition same_listing (s s' : catalogWireSnapshot) : Prop := ids (ws_maps s') = ids (ws_maps s).

Lemma after_id_split id maps : forall index start, after_id id index maps = Some start ->
  exists l1 m l2, maps = l1 ++ m :: l2 /\ row_id m = id /\ start = index + zlen l1 + 1.
Proof.
  induction maps as [|x maps IH]; intros index start; cbn [after_id]; [done|].
  destruct (String.eqb_spec (row_id x) id) as [Heq|_].
  - intros [= <-]. exists [], x, maps. split_and!; [done|done|cbn; lia].
  - intros H. destruct (IH _ _ H) as (l1 & m & l2 & -> & Hid & ->). exists (x :: l1), m, l2.
    split_and!; [done|done|cbn [length]; lia].
Qed.

(** Where a session is, when ids are distinct. *)
Lemma split_at_id (id : string) a b c d : NoDup (a ++ id :: b) -> a ++ id :: b = c ++ id :: d -> a = c.
Proof.
  revert c. induction a as [|x a IH]; intros [|y c] Hnd Heq; cbn in *; [done| | |].
  - exfalso. injection Heq as <- ->. apply NoDup_cons in Hnd as [Hn _]. set_solver.
  - exfalso. injection Heq as -> _. apply NoDup_cons in Hnd as [Hn _]. set_solver.
  - injection Heq as -> Heq. apply NoDup_cons in Hnd as [_ Hnd]. f_equal. by apply IH.
Qed.

Lemma after_id_none id maps index : after_id id index maps = None -> id ∉ ids maps.
Proof.
  revert index. induction maps as [|x maps IH]; intros index; cbn [after_id]; [set_solver|].
  destruct (String.eqb_spec (row_id x) id) as [|Hne]; [done|]. intros H%IH. cbn. set_solver.
Qed.

Section Walk.
Context (parse : string -> option members) (render : members -> string).

(** What a client has been shown, page after page: the first page of a snapshot, then the
    answers to the cursor of the last page, out of whatever snapshots were kept by then
    (those are the first list), with whatever limits. *)
Inductive walked (s0 : catalogWireSnapshot) : list catalogWireSnapshot -> list row -> page -> Prop :=
| walked_first limit now p : 0 < limit ->
    sliceCatalogWirePage parse render (Some s0) "" limit now = Some (Page p) -> walked s0 [] (pg_sessions p) p
| walked_next cuts shown p s limit now q : walked s0 cuts shown p -> pg_nextCursor p <> "" ->
    snapshot_ok s -> 0 < limit ->
    sliceCatalogWirePage parse render (Some s) (pg_nextCursor p) limit now = Some (Page q) ->
    walked s0 (cuts ++ [s]) (shown ++ pg_sessions q) q.

(** The cursor of a page with more is at the last row shown. *)
Definition cursor_at (s0 : catalogWireSnapshot) (shown : list row) (p : page) : Prop :=
  (pg_hasMore p = false -> pg_nextCursor p = "") /\
  (pg_hasMore p = true -> exists init id t, ids shown = init ++ [id] /\ text id /\ int64 t = true /\
     pg_nextCursor p = encodeListCursorV2 render (mkCursorV2 0 (ws_epoch s0) t id)).

(** After a page: what was shown is a beginning of the listing, more is said when rows
    are left, and then the cursor is at the last one shown. *)
Definition at_page (s0 : catalogWireSnapshot) (shown : list row) (p : page) : Prop :=
  ids shown = take (length shown) (ids (ws_maps s0)) /\ (length shown <= length (ws_maps s0))%nat /\
  pg_hasMore p = (zlen shown <? zlen (ws_maps s0)) /\ cursor_at s0 shown p.

(** Every page that is cut leaves its cursor so. *)
Lemma wire_page_cursor s0 s start limit shown : snapshot_ok s -> ws_epoch s = ws_epoch s0 -> 0 < limit ->
  0 <= start <= zlen (ws_maps s) ->
  cursor_at s0 (shown ++ pg_sessions (wire_page render s start limit)) (wire_page render s start limit).
Proof.
  intros Hok Hep Hlim Hs. destruct (wire_page_rows render s start limit Hlim Hs) as (Hrows & _ & Hend & Hnext).
  split; [by intros Hm; apply Hend|]. intros Hm. destruct (Hnext Hm) as (init & m & Heq & ->).
  exists (ids (shown ++ init)), (row_id m), (row_time m).
  assert (text (row_id m) /\ int64 (row_time m) = true) as [Ht Hi].
  { pose proof (so_rows s Hok) as Hall'. rewrite Forall_forall in Hall'. apply Hall'.
    assert (m ∈ pg_sessions (wire_page render s start limit)) as Hin by (rewrite Heq; set_solver). rewrite Hrows in Hin.
    apply (sublist_subseteq _ _ (sublist_take _ _)) in Hin. by apply (sublist_subseteq _ _ (sublist_drop _ _)) in Hin. }
  split_and!; [|done|done|by rewrite Hep]. rewrite Heq. unfold ids. by rewrite !map_app, app_assoc.
Qed.

Lemma page_step s0 s start limit : snapshot_ok s -> ws_epoch s = ws_epoch s0 -> ids (ws_maps s) = ids (ws_maps s0) ->
  0 < limit -> forall shown, ids shown = take (length shown) (ids (ws_maps s0)) -> start = zlen shown ->
  (length shown <= length (ws_maps s0))%nat ->
  let p := wire_page render s start limit in
  at_page s0 (shown ++ pg_sessions p) p /\ (start < zlen (ws_maps s0) -> pg_sessions p <> []).
Proof.
  intros Hok Hep Hids Hlim shown Hshown -> Hlen p.
  assert (length (ws_maps s) = length (ws_maps s0)) as Hlens
    by (apply (f_equal length) in Hids; unfold ids in Hids; by rewrite !length_map in Hids).
  destruct (wire_page_rows render s (zlen shown) limit Hlim ltac:(lia)) as (Hrows & Hmore & _).
  fold p in Hrows, Hmore. set (rest := drop (Z.to_nat (zlen shown)) (ws_maps s)) in *.
  assert (length rest = length (ws_maps s0) - length shown)%nat as Hrest by (unfold rest; rewrite length_drop; lia).
  assert (length (pg_sessions p) = Nat.min (Z.to_nat limit) (length rest)) as Hplen by (by rewrite Hrows, length_take).
  assert (ids (shown ++ pg_sessions p) = take (length (shown ++ pg_sessions p)) (ids (ws_maps s0))) as Hall.
  { assert (drop (length shown) (ids (ws_maps s0)) = ids rest) as Hd
      by (unfold rest, ids; by rewrite <-skipn_map, Nat2Z.id; fold (ids (ws_maps s)); rewrite Hids).
    rewrite length_app, <-take_take_drop, Hd. unfold ids at 1. rewrite map_app. fold (ids shown). rewrite Hshown at 1.
    f_equal. unfold ids. rewrite Hplen, Hrows, firstn_map. f_equal.
    destruct (Nat.min_spec (Z.to_nat limit) (length rest)) as [[_ ->]|[H ->]]; [done|].
    by rewrite !take_ge by lia. }
  split; [|intros Hlt Hnil; apply (f_equal length) in Hnil; rewrite Hplen in Hnil; cbn in Hnil; lia].
  unfold at_page. split; [done|]. rewrite length_app, Hplen. split; [lia|]. split; [rewrite Hmore; zbool; lia|].
  apply wire_page_cursor; [done|done|done|lia].
Qed.

Hypothesis codec : forall ms, Forall member_text ms -> parse (render ms) = Some ms.
Hypothesis no_object : parse "" = None.

(** What the answer to a cursor at this session is: the rows behind it, or why not. *)
Definition answered_from (s0 : catalogWireSnapshot) (last_shown : string) (s : option catalogWireSnapshot)
    (limit now : Z) (a : answer) : Prop :=
  match s with
  | None => a = Stale cursorStaleNoSnapshot
  | Some s =>
      if snapshotExpired (ws_createdAt s) now then a = Stale cursorStaleExpired
      else if String.eqb (ws_epoch s0) (ws_epoch s) && bool_decide (last_shown ∈ ids (ws_maps s)) then
        exists q l1 m l2, a = Page q /\ ws_maps s = l1 ++ m :: l2 /\ row_id m = last_shown /\
          q = wire_page render s (zlen (l1 ++ [m])) limit /\
          pg_sessions q = take (Z.to_nat limit) l2 /\ pg_hasMore q = (limit <? zlen l2)
      else a = Stale cursorStaleEpochMismatch
  end.

Lemma cursor_nonempty s0 t id : text (ws_epoch s0) -> text id -> int64 t = true ->
  encodeListCursorV2 render (mkCursorV2 0 (ws_epoch s0) t id) <> "".
Proof. intros He Hi Ht. by eapply (encoded_nonempty parse render codec); [repeat constructor|]. Qed.

Lemma slice_next s0 s shown p limit now : 0 < limit -> text (ws_epoch s0) ->
  cursor_at s0 shown p -> pg_hasMore p = true ->
  exists last_shown a, last (ids shown) = Some last_shown /\
    sliceCatalogWirePage parse render s (pg_nextCursor p) limit now = Some a /\
    answered_from s0 last_shown s limit now a.
Proof.
  intros Hlim Hep [_ Hnext] Hm. destruct (Hnext Hm) as (init & id & t & Hinit & Hid & Ht & Hc).
  exists id. unfold sliceCatalogWirePage.
  assert (pg_nextCursor p <> "") as Hne by (rewrite Hc; by apply cursor_nonempty).
  rewrite (proj2 (String.eqb_neq _ "") Hne), Hinit, last_snoc. eexists. split; [done|]. split; [reflexivity|].
  rewrite Hc. unfold slice_after. rewrite (decode_encode_v2 _ _ codec) by done.
  destruct s as [s|]; [|done]. cbn [validateCursorV2 Epoch SessionID UpdatedAtMillis answered_from].
  destruct (snapshotExpired (ws_createdAt s) now); [done|].
  destruct (String.eqb (ws_epoch s0) (ws_epoch s)); cbn [negb andb]; [|done].
  destruct (after_id id 0 (ws_maps s)) as [start|] eqn:Ha.
  - apply after_id_split in Ha as (l1 & m & l2 & Hmaps & Hrid & Hst).
    rewrite bool_decide_true by (rewrite Hmaps; unfold ids; rewrite map_app; set_solver).
    assert (start = zlen (l1 ++ [m])) as -> by (rewrite length_app; cbn; lia).
    assert (drop (Z.to_nat (zlen (l1 ++ [m]))) (ws_maps s) = l2) as Hd.
    { assert (ws_maps s = (l1 ++ [m]) ++ l2) as -> by (by rewrite <-app_assoc). rewrite Nat2Z.id. apply drop_app_length. }
    destruct (wire_page_rows render s (zlen (l1 ++ [m])) limit Hlim) as (Hr & Hh & _);
      [rewrite Hmaps, !length_app; cbn; lia|]. rewrite Hd in Hr, Hh.
    by eexists _, l1, m, l2.
  - by rewrite bool_decide_false by by eapply after_id_none.
Qed.

(** However the snapshot was rebuilt, the cursor is at the last row shown. *)
Lemma walked_cursor s0 cuts shown p : snapshot_ok s0 -> walked s0 cuts shown p ->
  cursor_at s0 shown p /\ Forall (fun s => ws_epoch s = ws_epoch s0) cuts.
Proof.
  intros Hok. induction 1 as [limit now p Hlim Hp|cuts shown p s limit now q Hw [IH Hcuts] Hc Hs Hlim Hq].
  - split; [|done]. cbn in Hp. injection Hp as <-. by apply (wire_page_cursor s0 s0 0 limit []); [| | |lia].
  - assert (pg_hasMore p = true) as Hm by (destruct (pg_hasMore p) eqn:E; [done|]; by destruct IH as [H _]; rewrite H in Hc).
    destruct (slice_next s0 (Some s) shown p limit now Hlim (so_epoch _ Hok) IH Hm) as (id & a & _ & Ha & Hfrom).
    rewrite Hq in Ha. injection Ha as <-. cbn [answered_from] in Hfrom. case_match; [done|].
    destruct (String.eqb_spec (ws_epoch s0) (ws_epoch s)) as [Heq|]; [|done]. case_bool_decide; [|done].
    destruct Hfrom as (q' & l1 & m & l2 & [= <-] & Hmaps & _ & -> & _).
    split; [|by apply Forall_app; repeat constructor].
    apply wire_page_cursor; [done|done|done|rewrite Hmaps, !length_app; cbn; lia].
Qed.

(** The page after one that shows a beginning of the same listing. *)
Lemma next_at_page s0 s shown p limit now : snapshot_ok s0 -> snapshot_ok s -> same_listing s0 s -> 0 < limit ->
  ws_epoch s = ws_epoch s0 -> snapshotExpired (ws_createdAt s) now = false -> at_page s0 shown p -> pg_hasMore p = true ->
  exists q, sliceCatalogWirePage parse render (Some s) (pg_nextCursor p) limit now = Some (Page q) /\
    at_page s0 (shown ++ pg_sessions q) q /\ pg_sessions q <> [] /\ zlen (pg_sessions q) <= limit.
Proof.
  intros Hok Hs Hsame Hlim Hep Hexp (Hshown & Hlen & Hmore & Hcur) Hm.
  destruct (slice_next s0 (Some s) shown p limit now Hlim (so_epoch _ Hok) Hcur Hm) as (id & a & Hlast & -> & Hfrom).
  cbn [answered_from] in Hfrom. rewrite Hexp, Hep, String.eqb_refl in Hfrom.
  apply last_Some in Hlast as [init Hinit].
  assert (ids (ws_maps s) = init ++ id :: drop (length shown) (ids (ws_maps s))) as Hsplit.
  { rewrite <-(take_drop (length shown) (ids (ws_maps s))) at 1. by rewrite Hsame, <-Hshown, Hinit, <-app_assoc. }
  rewrite bool_decide_true in Hfrom by (rewrite Hsplit; set_solver). cbn [andb] in Hfrom.
  destruct Hfrom as (q & l1 & m & l2 & -> & Hmaps & Hid & Hq & Hrows & _).
  assert (zlen (l1 ++ [m]) = zlen shown) as Hl.
  { assert (ids l1 = init) as Hl1.
    { assert (ids (ws_maps s) = ids l1 ++ id :: ids l2) as H2 by (rewrite Hmaps; unfold ids; rewrite map_app; cbn; by rewrite Hid).
      pose proof (so_ids _ Hs) as Hnd. eapply (split_at_id id); [|rewrite <-H2, Hsplit; reflexivity]. by rewrite <-H2. }
    pose proof (f_equal length Hinit) as H1. unfold ids in H1. rewrite length_map, length_app in H1.
    pose proof (f_equal length Hl1) as H3. unfold ids in H3. rewrite length_map in H3. rewrite length_app. cbn in *. lia. }
  rewrite Hl in Hq. subst q. exists (wire_page render s (zlen shown) limit). split; [done|].
  destruct (page_step s0 s (zlen shown) limit Hs Hep Hsame Hlim shown Hshown eq_refl Hlen) as [Hp Hne].
  split_and!; [exact Hp|apply Hne; rewrite Hmore in Hm; by zprop|]. rewrite Hrows, length_take. lia.
Qed.

Lemma walked_at_page s0 cuts shown p : snapshot_ok s0 -> walked s0 cuts shown p -> Forall (same_listing s0) cuts ->
  at_page s0 shown p.
Proof.
  intros Hok. induction 1 as [limit now p Hlim Hp|cuts shown p s limit now q Hw IH Hc Hs Hlim Hq]; intros Hsame.
  - cbn in Hp. injection Hp as <-.
    by apply (page_step s0 s0 0 limit Hok eq_refl eq_refl Hlim [] eq_refl eq_refl (Nat.le_0_l _)).
  - apply Forall_app in Hsame as [Hcuts [Hs0 _]%Forall_cons_1]. specialize (IH Hcuts).
    assert (pg_hasMore p = true) as Hm.
    { destruct (pg_hasMore p) eqn:E; [done|]. by destruct IH as (_ & _ & _ & H & _); rewrite H in Hc. }
    destruct (walked_cursor s0 (cuts ++ [s]) _ q Hok ltac:(by econstructor)) as [_ Hep].
    apply Forall_app in Hep as [_ [Hep _]%Forall_cons_1].
    destruct (snapshotExpired (ws_createdAt s) now) eqn:Hexp.
    + destruct (walked_cursor s0 cuts shown p Hok Hw) as [Hcur _].
      destruct (slice_next s0 (Some s) shown p limit now Hlim (so_epoch _ Hok) Hcur Hm) as (id & a & _ & Ha & Hfrom).
      cbn [answered_from] in Hfrom. rewrite Hexp in Hfrom. rewrite Hq in Ha. injection Ha as <-. done.
    + destruct (next_at_page s0 s shown p limit now Hok Hs Hs0 Hlim Hep Hexp IH Hm) as (q' & Hq' & Hp & _).
      rewrite Hq in Hq'. by injection Hq' as <-.
Qed.

End Walk.

(** ** Properties *)

(** C26. A client that follows the cursors of a list is told that there is more exactly when
    it is given a cursor. The next request, whatever snapshot is kept by then, is answered
    with the rows behind the last session it was shown, up to the limit, when the snapshot
    has the epoch of the first page and lists that session, and otherwise with the reason
    it is stale. While the snapshots its pages are cut from list the same sessions, what
    it shows is at every moment a beginning of that listing, each session once and in
    order, whatever the limits; more is said exactly when sessions are left, and then the
    next page brings at least one. Equal epochs mean the same sessions only as far as the
    shortened hash and the separators of its text tell listings apart
    ([epoch_tells_listings], [fingerprint_ambiguous]). *)
Theorem catalog_walk parse render s0 cuts shown p
  (codec : forall ms, Forall member_text ms -> parse (render ms) = Some ms) (no_object : parse "" = None)
  (Hok : snapshot_ok s0) (Hw : walked parse render s0 cuts shown p) :
  (pg_nextCursor p = "" <-> pg_hasMore p = false) /\
  (forall s limit now, 0 < limit -> pg_hasMore p = true ->
     exists last_shown a, last (ids shown) = Some last_shown /\
       sliceCatalogWirePage parse render s (pg_nextCursor p) limit now = Some a /\
       answered_from render s0 last_shown s limit now a) /\
  (Forall (same_listing s0) cuts ->
     NoDup (ids shown) /\ ids shown = take (length shown) (ids (ws_maps s0)) /\
     pg_hasMore p = (zlen shown <? zlen (ws_maps s0)) /\
     forall s limit now, snapshot_ok s -> same_listing s0 s -> ws_epoch s = ws_epoch s0 ->
       snapshotExpired (ws_createdAt s) now = false -> 0 < limit -> pg_hasMore p = true ->
       exists q, sliceCatalogWirePage parse render (Some s) (pg_nextCursor p) limit now = Some (Page q) /\
         pg_sessions q <> [] /\ zlen (pg_sessions q) <= limit).
Proof.
  destruct (walked_cursor parse render codec no_object s0 cuts shown p Hok Hw) as [Hcur _]. split_and!.
  - split; [|by apply Hcur]. intros Hc. destruct (pg_hasMore p) eqn:Hm; [|done].
    destruct (proj2 Hcur Hm) as (? & id & t & _ & Hid & Ht & Heq). exfalso. rewrite Heq in Hc.
    by eapply (cursor_nonempty parse render codec no_object s0 t id); [apply Hok| | |].
  - intros s limit now Hlim Hm. by apply (slice_next parse render codec no_object); [|apply Hok| |].
  - intros Hsame. pose proof (walked_at_page parse render codec no_object s0 cuts shown p Hok Hw Hsame) as Hp.
    pose proof Hp as (H1 & _ & H3 & _). split_and!; [|done|done|].
    + rewrite H1. eapply sublist_NoDup; [apply (so_ids s0 Hok)|apply sublist_take].
    + intros s limit now Hs Hsl Hep Hexp Hlim Hm.
      destruct (next_at_page parse render codec no_object s0 s shown p limit now) as (q & Hq & _ & Hr); try done.
      by exists q.
Qed.

(** ** The standard lists *)

(** Rows JSON can carry in a cursor. *)
Definition rows_text (l : list row) : Prop := Forall (fun m => text (row_id m) /\ int64 (row_time m) = true) l.

(** The order of a list paged by the first form: strictly by time and id. *)
Definition after_row (a b : row) : Prop :=
  row_time b < row_time a \/ row_time a = row_time b /\ text_lt (row_id a) (row_id b).

Lemma after_cursor_row m s : after_cursor (mkCursor 1 (row_time m) (row_id m)) s = true <-> after_row m s.
Proof.
  unfold after_cursor, after_row, text_lt. cbn [c_UpdatedAtMillis c_SessionID].
  rewrite orb_true_iff, andb_true_iff, Z.ltb_lt, Z.eqb_eq. intuition lia.
Qed.

Lemma after_row_irrefl m : ~ after_row m m.
Proof. intros [?|[_ H]]; [lia|]. apply text_lt_compare in H. by rewrite compare_refl in H. Qed.

Lemma after_row_asym a b : after_row a b -> ~ after_row b a.
Proof.
  intros [?|[? H1]] [?|[? H2]]; try lia. apply text_lt_compare in H1, H2.
  pose proof (compare_lt_trans _ _ _ H1 H2) as Hlt. by rewrite compare_refl in Hlt.
Qed.

Section Standard.
Context (parse : string -> option members) (render : members -> string)
  (codec : forall ms, Forall member_text ms -> parse (render ms) = Some ms) (no_object : parse "" = None).

(** The page of a cursor at a row of a sorted list is cut from the rows behind it. *)
Lemma paginate_at l1 m l2 limit : StronglySorted after_row (l1 ++ m :: l2) -> rows_text (l1 ++ m :: l2) ->
  pg_sessions (paginateSessionList parse render (l1 ++ m :: l2)
    (encodeListCursor render (mkCursor 0 (row_time m) (row_id m))) limit) =
  (if 0 <? limit then take (Z.to_nat limit) l2 else l2).
Proof.
  intros Hs Ht. apply Forall_app in Ht as [_ [Hm _]%Forall_cons_1]. destruct Hm as [Hid Hti].
  unfold paginateSessionList.
  assert (encodeListCursor render (mkCursor 0 (row_time m) (row_id m)) <> "") as Hne.
  { by eapply (encoded_nonempty parse render codec); [repeat constructor|]. }
  rewrite (proj2 (String.eqb_neq _ "") Hne), (decode_encode_v1 _ _ codec) by done. cbn [c_UpdatedAtMillis c_SessionID].
  apply StronglySorted_app in Hs as (Hab & _ & Hml2). apply StronglySorted_inv in Hml2 as [_ Hl2].
  assert (filter (fun s => after_cursor (mkCursor 1 (row_time m) (row_id m)) s = true) (l1 ++ m :: l2) = l2) as ->.
  { rewrite filter_app, filter_cons, decide_False by (rewrite after_cursor_row; apply after_row_irrefl).
    rewrite (filter_none _ l1), (filter_all _ l2); [done| |].
    - apply Forall_forall. intros s Hin. rewrite Forall_forall in Hl2. by apply after_cursor_row, Hl2.
    - intros s Hin. rewrite after_cursor_row. apply after_row_asym. apply Hab; [done|by left]. }
  cbn [pg_sessions]. destruct (Z.ltb_spec 0 limit); cbn [andb]; [|done].
  destruct (Z.ltb_spec limit (zlen l2)); [done|]. symmetry. apply take_ge. lia.
Qed.

(** The page with more to come has the cursor of its last row. *)
Lemma paginate_next sessions limit : rows_text sessions ->
  let p := paginateSessionList parse render sessions "" limit in
  pg_nextCursor p <> "" -> exists init m, pg_sessions p = init ++ [m] /\ text (row_id m) /\ int64 (row_time m) = true /\
    pg_nextCursor p = encodeListCursor render (mkCursor 0 (row_time m) (row_id m)).
Proof.
  intros Ht. unfold paginateSessionList. cbn [String.eqb pg_nextCursor pg_sessions].
  destruct ((0 <? limit) && (limit <? zlen sessions)); [|done].
  destruct (list_eq_nil_dec (take (Z.to_nat limit) sessions)) as [->|Hne]; [done|].
  destruct (exists_last Hne) as (init & m & Heq). rewrite Heq, last_snoc. intros _. exists init, m.
  assert (m ∈ sessions) as Hin.
  { apply (sublist_subseteq _ _ (sublist_take sessions (Z.to_nat limit))). rewrite Heq. set_solver. }
  unfold rows_text in Ht. rewrite Forall_forall in Ht. destruct (Ht m Hin). done.
Qed.

End Standard.

(** C22. The check that is meant to keep the cursors of the recent view out of the standard
    lists also takes their own: the cursor that a standard list answers with, sent back to
    it, is always refused as stale, so that no session past the first page is ever listed. *)
Theorem standard_list_stops parse render sessions sessions' limit limit'
  (codec : forall ms, Forall member_text ms -> parse (render ms) = Some ms) (no_object : parse "" = None)
  (Ht : rows_text sessions) :
  match standard_list parse render sessions "" limit with
  | Some p => pg_nextCursor p <> "" -> standard_list parse render sessions' (pg_nextCursor p) limit' = None
  | None => False
  end.
Proof.
  unfold standard_list at 1. cbn [rejectCrossViewCursor String.eqb]. intros Hc.
  destruct (paginate_next parse render codec no_object sessions limit Ht Hc) as (init & m & _ & Hid & Hti & Heq).
  unfold standard_list, rejectCrossViewCursor. rewrite (proj2 (String.eqb_neq _ "") Hc), Heq.
  by rewrite (decode_v2_of_v1 parse render codec).
Qed.

(** Paging by the first form itself would do: over a list in order, the pages a client
    gets for the cursor of the last row it was shown go on where it stopped. *)
Theorem paginate_continues parse render shown m rest limit
  (codec : forall ms, Forall member_text ms -> parse (render ms) = Some ms) (no_object : parse "" = None)
  (Hs : StronglySorted after_row (shown ++ m :: rest)) (Ht : rows_text (shown ++ m :: rest)) (Hl : 0 < limit) :
  let next := encodeListCursor render (mkCursor 0 (row_time m) (row_id m)) in
  pg_sessions (paginateSessionList parse render (shown ++ m :: rest) next limit) = take (Z.to_nat limit) rest.
Proof.
  cbv zeta. rewrite (paginate_at parse render codec no_object) by done. by rewrite (proj2 (Z.ltb_lt _ _) Hl).
Qed.

(** ** Snapshots and scopes *)

Lemma check_rows_iff maps : forall seen index,
  check_rows seen index maps = None <->
  NoDup (map (fun m => trim_space (row_id m)) maps) /\
  Forall (fun m => trim_space (row_id m) <> "" /\ trim_space (row_id m) ∉ seen) maps.
Proof.
  induction maps as [|m maps IH]; intros seen index; cbn [check_rows map].
  { split; [by repeat constructor|done]. }
  rewrite NoDup_cons, Forall_cons. cbv zeta. destruct (String.eqb_spec (trim_space (row_id m)) ""); [naive_solver|].
  case_bool_decide as Hin; [naive_solver|]. rewrite IH. split.
  - intros (Hnd & Hall). split_and!; [|done|done|done|eapply Forall_impl; [exact Hall|cbn; set_solver]].
    intros (m' & Heq & Hm')%list_elem_of_fmap. rewrite Forall_forall in Hall. apply Hall in Hm' as [_ H].
    apply H. rewrite <-Heq. set_solver.
  - intros ((Hm & Hnd) & [_ _] & Hall). split; [done|]. apply Forall_forall. intros m' Hm'.
    rewrite Forall_forall in Hall. destruct (Hall m' Hm') as [H1 H2]. split; [done|].
    intros [Heq%elem_of_singleton|?]%elem_of_union; [|done]. apply Hm. apply list_elem_of_fmap. by exists m'.
Qed.

Lemma check_rows_valid maps : validateCatalogWireMaps maps = None <->
  NoDup (map (fun m => trim_space (row_id m)) maps) /\ Forall (fun m => trim_space (row_id m) <> "") maps.
Proof. unfold validateCatalogWireMaps. rewrite check_rows_iff. f_equiv. apply Forall_iff. intros m. set_solver. Qed.

Lemma distinct_ids maps : validateCatalogWireMaps maps = None -> NoDup (ids maps).
Proof.
  rewrite check_rows_valid. intros [Hnd _]. unfold ids. apply (NoDup_fmap_1 trim_space).
  by rewrite <-list_fmap_compose.
Qed.

(** Exactly the lists whose rows have distinct ids, white space apart, none of them blank,
    become snapshots; in particular no id is anchor of two rows. *)
Theorem snapshot_rows_checked maps :
  (validateCatalogWireMaps maps = None <->
   NoDup (map (fun m => trim_space (row_id m)) maps) /\ Forall (fun m => trim_space (row_id m) <> "") maps) /\
  (validateCatalogWireMaps maps = None -> NoDup (ids maps)).
Proof. split; [apply check_rows_valid|apply distinct_ids]. Qed.

(** A text without a separator, and what it is split by. *)
Fixpoint no_char (sep : Ascii.ascii) (s : string) : bool :=
  match s with
  | EmptyString => true
  | String c s => negb (bool_decide (c = sep)) && no_char sep s
  end.

Lemma char_splits sep a : forall b x y, no_char sep a = true -> no_char sep b = true ->
  a +:+ String sep x = b +:+ String sep y -> a = b /\ x = y.
Proof.
  induction a as [|c a IH]; intros [|d b] x y Ha Hb; cbn in Ha, Hb; zprop.
  - intros E. split; [done|]. by injection E.
  - intros E. exfalso. injection E as E _. congruence.
  - intros E. exfalso. injection E as E _. congruence.
  - intros E. injection E as -> E. by destruct (IH b x y) as [-> ->].
Qed.

Definition no_nul : string -> bool := no_char (Ascii.ascii_of_N 0).

Lemma nul_splits a b x y : no_nul a = true -> no_nul b = true ->
  a +:+ nul +:+ x = b +:+ nul +:+ y -> a = b /\ x = y.
Proof. apply char_splits. Qed.

Definition scope_text (s : catalogWireScope) : Prop :=
  no_nul (sc_BackendID s) = true /\ no_nul (sc_Directory s) = true /\ no_nul (sc_View s) = true.

(** The identity of a scope tells scopes apart in every dimension, an omitted view being
    the standard one: a snapshot, or a cursor cut from it, is never taken for one of
    another backend, directory or view. A scope made for a request is valid as soon as it
    names a backend. *)
Theorem scope_identity home s s' b dir rootsOnly (Hs : scope_text s) (Hs' : scope_text s') :
  (identity s = identity s' ->
   sc_BackendID s = sc_BackendID s' /\ sc_Global s = sc_Global s' /\ sc_Directory s = sc_Directory s' /\
   sc_RootsOnly s = sc_RootsOnly s' /\
   (if String.eqb (sc_View s) "" then catalogViewStandard else sc_View s) =
   (if String.eqb (sc_View s') "" then catalogViewStandard else sc_View s')) /\
  validate (newCatalogWireScope home b dir rootsOnly) =
    (if String.eqb (trim_space b) "" then Some BackendRequired else None).
Proof.
  split.
  - destruct Hs as (Hb & Hd & _), Hs' as (Hb' & Hd' & _). unfold identity. intros H.
    apply nul_splits in H as [H1 H]; [|done|done].
    apply nul_splits in H as [H2 H]; [|by destruct (sc_Global s)|by destruct (sc_Global s')].
    apply nul_splits in H as [H3 H]; [|done|done].
    apply nul_splits in H as [H4 H]; [|by destruct (sc_RootsOnly s)|by destruct (sc_RootsOnly s')].
    split_and!; [done| |done| |done].
    + by destruct (sc_Global s), (sc_Global s').
    + by destruct (sc_RootsOnly s), (sc_RootsOnly s').
  - unfold newCatalogWireScope. cbv zeta. destruct (String.eqb (trim_space dir) "");
      unfold validate; cbn [sc_BackendID sc_Global sc_Directory]; destruct (String.eqb (trim_space b) ""); try done.
    assert (default (Clean (trim_space dir)) (normalizeCatalogDirectory home (trim_space dir)) <> "") as Hne.
    { unfold normalizeCatalogDirectory. cbv zeta. case_if; cbn; apply Clean_nonempty. }
    by rewrite (proj2 (String.eqb_neq _ "") Hne).
Qed.

(** The text a listing is known by does not tell every two listings apart: a title may
    hold what looks like the line of another session. The epoch is then the same, and a
    cursor into the one is answered out of the other. *)
Theorem fingerprint_ambiguous :
  let one := <["id" := CString "a"]> (<["title" := CString (string_of_bytes [120; 10] +:+ "1|b|0||p|y")]> ∅) in
  let first := <["id" := CString "a"]> (<["title" := CString "x"]> ∅) in
  let second := <["id" := CString "b"]> (<["title" := CString "y"]> (<["projectId" := CString "p"]> ∅)) in
  validateCatalogWireMaps [one] = None /\ validateCatalogWireMaps [first; second] = None /\
  semantic_lines None 0 [one] = semantic_lines None 0 [first; second].
Proof. vm_compute. auto. Qed.

Lemma append_assoc a b c : (a +:+ b) +:+ c = a +:+ b +:+ c.
Proof. induction a as [|x a IH]; [done|]. exact (f_equal (String x) IH). Qed.

Lemma append_inj a b c : a +:+ b = a +:+ c -> b = c.
Proof. induction a as [|x a IH]; [done|]. cbn. intros E. injection E as E. by apply IH. Qed.

(** What a listing is known by of a row, after its position and id. *)
Definition line_rest (home : option string) (m : row) : string :=
  let dir := sessionDirectoryKey m in
  format_int (row_time m) +:+ "|" +:+ default dir (normalizeCatalogDirectory home dir) +:+ "|" +:+
  str "projectId" m +:+ "|" +:+ str "title" m.

Lemma semantic_lines_cons home index m rest :
  semantic_lines home index (m :: rest) =
  format_int index +:+ "|" +:+ row_id m +:+ "|" +:+ line_rest home m +:+ string_of_bytes [10] +:+
  semantic_lines home (index + 1) rest.
Proof. unfold line_rest. cbn [semantic_lines]. cbv zeta. by rewrite !append_assoc. Qed.

(** An id without the separator of fields, and no line break in it or behind it. *)
Definition plain_row (home : option string) (m : row) : Prop :=
  no_char (Ascii.ascii_of_N 124) (row_id m) = true /\ no_char (Ascii.ascii_of_N 10) (line_rest home m) = true.

Lemma lines_tell_ids home l : forall l' index, Forall (plain_row home) l -> Forall (plain_row home) l' ->
  semantic_lines home index l = semantic_lines home index l' -> ids l = ids l'.
Proof.
  induction l as [|m l IH]; intros [|m' l'] index Hl Hl'; [done| | |].
  - rewrite semantic_lines_cons. intros E. exfalso. cbn [semantic_lines] in E. by destruct (format_int index).
  - rewrite semantic_lines_cons. intros E. exfalso. cbn [semantic_lines] in E. by destruct (format_int index).
  - rewrite !semantic_lines_cons. intros E%append_inj. injection E as E.
    apply Forall_cons_1 in Hl as [[Hid Hrest] Hl]. apply Forall_cons_1 in Hl' as [[Hid' Hrest'] Hl'].
    apply (char_splits (Ascii.ascii_of_N 124)) in E as [Heq E]; [|done|done].
    apply (char_splits (Ascii.ascii_of_N 10)) in E as [_ E]; [|done|done].
    cbn [ids map]. rewrite Heq. f_equal. by eapply IH.
Qed.

(** The epoch of a list in a scope. *)
Definition listing_epoch (sha256hex : string -> string) (home : option string) (sc : catalogWireScope)
    (maps : list row) : string :=
  deriveSnapshotEpoch sha256hex (identity sc +:+ nul +:+ listSemanticFingerprint sha256hex home maps).

(** Two snapshots of a scope with one epoch list the same sessions when no id holds the
    separator, no row a line break, and the shortened hash tells the two texts apart. *)
Theorem epoch_tells_listings sha256hex home sc s s'
  (Hs : ws_epoch s = listing_epoch sha256hex home sc (ws_maps s))
  (Hs' : ws_epoch s' = listing_epoch sha256hex home sc (ws_maps s'))
  (Hplain : Forall (plain_row home) (ws_maps s)) (Hplain' : Forall (plain_row home) (ws_maps s'))
  (Hhash : listing_epoch sha256hex home sc (ws_maps s) = listing_epoch sha256hex home sc (ws_maps s') ->
     semantic_lines home 0 (ws_maps s) = semantic_lines home 0 (ws_maps s')) :
  ws_epoch s' = ws_epoch s -> same_listing s s'.
Proof.
  rewrite Hs, Hs'. intros E. unfold same_listing. symmetry. apply (lines_tell_ids home _ _ 0); [done|done|].
  apply Hhash. by rewrite E.
Qed.

(** A snapshot is kept for longer than a slow session of paging takes. *)
Lemma ttl_covers_slow_paging : catalogSlowPaginationSession < catalogSnapshotTTL.
Proof. done. Qed.

(** A page is never asked for with a limit out of 1 to 1000. *)
Theorem paged_limit_bounds configured requested : 1 <= paged_limit configured requested <= 1000.
Proof.
  unfold paged_limit, effectiveSessionListLimit, defaultSessionListLimit.
  zbool; cbn [andb]; lia.
Qed.

(** ** At concrete lists *)

Definition wit_row (id : string) (t : Z) : row := <["id" := CString id]> (<["updatedAtMillis" := CInt64 t]> ∅).
Definition wit_rows : list row := [wit_row "c" 30; wit_row "a" 20; wit_row "b" 20].

#[local] Instance member_eq_dec : EqDecision member.
Proof. solve_decision. Defined.
#[local] Instance member_countable : Countable member.
Proof.
  refine (inj_countable'
    (fun m => match m with MInt n => inl (inl n) | MText s => inl (inr s) | MNull => inr true | MOther => inr false end)
    (fun x => match x with inl (inl n) => MInt n | inl (inr s) => MText s | inr true => MNull | inr false => MOther end) _).
  by intros [].
Defined.

(** An object as a text of bits. *)
Definition wit_render (ms : members) : string := text_of ms.
Definition wit_parse (s : string) : option members := of_text s.

Lemma wit_page_codec ms : Forall member_text ms -> wit_parse (wit_render ms) = Some ms.
Proof. intros _. apply of_text_of. Qed.

Lemma wit_rows_text : rows_text wit_rows.
Proof. repeat constructor; apply ascii_text; vm_compute; reflexivity. Qed.

Definition wit_snapshot : catalogWireSnapshot := mkSnapshot (recentCatalogScope "codex") 0 "e1" 1 wit_rows.

Lemma wit_snapshot_ok : snapshot_ok wit_snapshot.
Proof.
  split; [apply (bool_decide_unpack _); vm_compute; reflexivity|apply ascii_text; vm_compute; reflexivity|
    exact wit_rows_text].
Qed.

(** Two pages of two, the second cut from a snapshot built again. *)
Definition wit_rebuilt : catalogWireSnapshot :=
  mkSnapshot (recentCatalogScope "codex") 1 "e1" 2 [wit_row "c" 30; wit_row "a" 20; wit_row "b" 20].

Lemma wit_rebuilt_ok : snapshot_ok wit_rebuilt.
Proof. destruct wit_snapshot_ok. by split. Qed.

Lemma catalog_walk_witness : exists shown p, walked wit_parse wit_render wit_snapshot [wit_rebuilt] shown p /\
  ids shown = ["c"; "a"; "b"] /\ pg_hasMore p = false /\ ids shown = take (length shown) (ids wit_rows).
Proof.
  pose (p1 := wire_page wit_render wit_snapshot 0 2).
  assert (walked wit_parse wit_render wit_snapshot [] (pg_sessions p1) p1) as H1
    by (apply (walked_first _ _ _ 2 minute); [lia|reflexivity]).
  pose (p2 := wire_page wit_render wit_rebuilt 2 2).
  assert (walked wit_parse wit_render wit_snapshot ([] ++ [wit_rebuilt]) (pg_sessions p1 ++ pg_sessions p2) p2) as H2.
  { apply (walked_next _ _ _ [] _ p1 wit_rebuilt 2 minute); [exact H1|by vm_compute|exact wit_rebuilt_ok|lia|].
    vm_compute. reflexivity. }
  exists (pg_sessions p1 ++ pg_sessions p2), p2. split; [exact H2|]. split; [vm_compute; reflexivity|].
  split; [vm_compute; reflexivity|].
  destruct (catalog_walk wit_parse wit_render wit_snapshot _ _ p2 wit_page_codec eq_refl wit_snapshot_ok H2)
    as (_ & _ & Hsame).
  destruct Hsame as (_ & Hids & _); [by repeat constructor|exact Hids].
Defined.

Lemma standard_list_stops_witness :
  match standard_list wit_parse wit_render wit_rows "" 1 with
  | Some p => pg_nextCursor p <> "" /\ standard_list wit_parse wit_render wit_rows (pg_nextCursor p) 1 = None
  | None => False
  end.
Proof.
  pose proof (standard_list_stops wit_parse wit_render wit_rows wit_rows 1 1 wit_page_codec eq_refl wit_rows_text) as H.
  destruct (standard_list wit_parse wit_render wit_rows "" 1) as [p|] eqn:E; [|exact H].
  vm_compute in E. injection E as <-. split; [discriminate|]. apply H. discriminate.
Defined.

Lemma paginate_continues_witness :
  pg_sessions (paginateSessionList wit_parse wit_render wit_rows
    (encodeListCursor wit_render (mkCursor 0 30 "c")) 1) = [wit_row "a" 20].
Proof.
  apply (paginate_continues wit_parse wit_render [] (wit_row "c" 30) [wit_row "a" 20; wit_row "b" 20] 1
    wit_page_codec eq_refl); [|exact wit_rows_text|reflexivity].
  constructor; [constructor; [repeat constructor|]|].
  - constructor; [|constructor]. right. split; [reflexivity|]. vm_compute. reflexivity.
  - constructor; [|constructor; [|constructor]]; left; reflexivity.
Defined.

Lemma scope_identity_witness :
  validate (newCatalogWireScope None " codex " "" true) = None /\
  identity (recentCatalogScope "codex") <> identity (newCatalogWireScope None "codex" "" true).
Proof.
  destruct (scope_identity None (recentCatalogScope "codex") (newCatalogWireScope None "codex" "" true) " codex " "" true)
    as [H1 H2]; [vm_compute; auto|vm_compute; auto|].
  split; [exact H2|]. intros H. apply H1 in H as (_ & _ & _ & _ & H). vm_compute in H. discriminate.
Defined.
