(* ===== verification/CatalogCache.v ===== *)
(** * The cache of session lists (go-bridge/catalog_wire_snapshot.go, the cache)

    Callers of [FetchOrReuseContext] share a cache under one mutex: each of its critical
    sections is one step, and the steps of the callers, of fences and of invalidations
    interleave freely. A caller is asking, waiting for the build of another, building, or
    answered. Builds are known by the order they were started in. The generation of a
    backend is a counter of 64 bits, which no run exhausts. Hashes, the home directory and
    what a builder returns are arguments; logs are left out. *)

From S2P Require Import Prelude.
From S2P Require Import BitText.
From S2P Require Import GoText.
From S2P Require Import GoPath.
From S2P Require Import Catalog.
From S2P Require Import CatalogPages.

(** ** The cache *)

(** What goes wrong with a fetch. *)
Inductive FetchError : Type :=
| ErrScope (e : ScopeError)
| ErrContext
| ErrBuilder
| ErrRows (e : RowsError).

(** [catalogWireBuild]; [b_done] is the closed channel. *)
Record catalogWireBuild : Type := mkBuild {
  b_generation : Z;
  b_done : bool;
  b_snapshot : option catalogWireSnapshot;
  b_err : option FetchError
}.

Record catalogWireSnapshotCache : Type := mkCache {
  scopes : gmap catalogWireScope catalogWireSnapshot;
  inFlight : gmap catalogWireScope nat;
  generations : gmap string Z;
  builds : gmap nat catalogWireBuild
}.

Definition newCatalogWireSnapshotCache : catalogWireSnapshotCache := mkCache ∅ ∅ ∅ ∅.

(** The answer to a caller: a snapshot, or nil, and an error or none. *)
Definition reply : Type := option catalogWireSnapshot * option FetchError.

Inductive phase : Type :=
| Asking
| Waiting (generation : Z) (build : nat)
| Building (generation : Z) (build : nat)
| Answered (r : reply).

Definition generation_of (c : catalogWireSnapshotCache) (backendID : string) : Z := generations c !!0 backendID.

Definition complete (b : catalogWireBuild) : catalogWireBuild := mkBuild (b_generation b) true (b_snapshot b) (b_err b).

Section Cache.
Context (sha256hex : string -> string) (home : option string).

(** The first critical section: reuse, wait, or start a build. *)
Definition ask (sc : catalogWireScope) (now : Z) (c : catalogWireSnapshotCache) : catalogWireSnapshotCache * phase :=
  let generation := generation_of c (sc_BackendID sc) in
  let start :=
    let id := fresh (dom (builds c)) in
    (mkCache (scopes c) (<[sc := id]> (inFlight c)) (generations c)
       (<[id := mkBuild generation false None None]> (builds c)), Building generation id) in
  let wait :=
    match inFlight c !! sc with
    | Some id =>
        match builds c !! id with
        | Some b => if b_generation b =? generation then (c, Waiting generation id) else start
        | None => start
        end
    | None => start
    end in
  match scopes c !! sc with
  | Some snap =>
      if (ws_generation snap =? generation) && negb (wireSnapshotExpired (Some snap) now)
      then (c, Answered (Some snap, None)) else wait
  | None => wait
  end.

(** A waiting caller after the build is done. *)
Definition wake (sc : catalogWireScope) (generation : Z) (b : catalogWireBuild) (c : catalogWireSnapshotCache) : phase :=
  if negb (generation_of c (sc_BackendID sc) =? generation) then Asking else Answered (b_snapshot b, b_err b).

(** The critical section after the builder has returned rows or failed. *)
Definition finish (sc : catalogWireScope) (generation : Z) (id : nat) (built : option (list row)) (now : Z)
    (c : catalogWireSnapshotCache) : catalogWireSnapshotCache * phase :=
  let err :=
    match built with
    | None => Some ErrBuilder
    | Some maps => ErrRows <$> validateCatalogWireMaps maps
    end in
  let current := generation_of c (sc_BackendID sc) in
  let snap :=
    mkSnapshot sc generation
      (deriveSnapshotEpoch sha256hex
         (identity sc +:+ nul +:+ listSemanticFingerprint sha256hex home (default [] built)))
      now (default [] built) in
  let committed := (current =? generation) && bool_decide (err = None) in
  let b' :=
    mkBuild generation true (if committed then Some snap else None)
      (if current =? generation then err else None) in
  let c' :=
    mkCache (if committed then <[sc := snap]> (scopes c) else scopes c)
      (if bool_decide (inFlight c !! sc = Some id) then delete sc (inFlight c) else inFlight c)
      (generations c) (<[id := b']> (builds c)) in
  (c', if negb (current =? generation) then Asking else Answered (b_snapshot b', b_err b')).

Definition Invalidate (sc : catalogWireScope) (c : catalogWireSnapshotCache) : catalogWireSnapshotCache :=
  mkCache (delete sc (scopes c)) (inFlight c) (generations c) (builds c).

Definition Peek (sc : catalogWireScope) (c : catalogWireSnapshotCache) : option catalogWireSnapshot := scopes c !! sc.

(** The builds under way for a backend. *)
Definition flying (backendID : string) (c : catalogWireSnapshotCache) : gset nat :=
  list_to_set (map snd (filter (fun si => sc_BackendID (fst si) = backendID) (map_to_list (inFlight c)))).

Definition FenceBackend (backendID : string) (c : catalogWireSnapshotCache) : catalogWireSnapshotCache * Z :=
  let generation := generation_of c backendID + 1 in
  (mkCache (filter (fun ss => sc_BackendID (fst ss) <> backendID) (scopes c))
     (filter (fun si => sc_BackendID (fst si) <> backendID) (inFlight c))
     (<[backendID := generation]> (generations c))
     (map_imap (fun id b => Some (if bool_decide (id ∈ flying backendID c) then complete b else b)) (builds c)),
   generation).

(** ** Callers *)

Record state : Type := mkState {
  cache : catalogWireSnapshotCache;
  callers : gmap nat (catalogWireScope * phase)
}.

Inductive label : Type :=
| LCall (k : nat) (sc : catalogWireScope)
| LAsk (k : nat) (now : Z)
| LWake (k : nat)
| LCancel (k : nat)
| LFinish (k : nat) (built : option (list row)) (now : Z)
| LFence (backendID : string)
| LInvalidate (sc : catalogWireScope).

Definition move (k : nat) (sc : catalogWireScope) (cp : catalogWireSnapshotCache * phase) (st : state) : state :=
  mkState (fst cp) (<[k := (sc, snd cp)]> (callers st)).

(** One step; [None] when the label is not enabled. A waiting caller leaves when the build
    is done or when its context is. *)
Definition do_step (l : label) (st : state) : option state :=
  match l with
  | LCall k sc =>
      if bool_decide (callers st !! k = None) then
        Some (move k sc (cache st,
          match validate sc with Some e => Answered (None, Some (ErrScope e)) | None => Asking end) st)
      else None
  | LAsk k now =>
      match callers st !! k with
      | Some (sc, Asking) => Some (move k sc (ask sc now (cache st)) st)
      | _ => None
      end
  | LWake k =>
      match callers st !! k with
      | Some (sc, Waiting g id) =>
          match builds (cache st) !! id with
          | Some b => if b_done b then Some (move k sc (cache st, wake sc g b (cache st)) st) else None
          | None => None
          end
      | _ => None
      end
  | LCancel k =>
      match callers st !! k with
      | Some (sc, Waiting g id) => Some (move k sc (cache st, Answered (None, Some ErrContext)) st)
      | _ => None
      end
  | LFinish k built now =>
      match callers st !! k with
      | Some (sc, Building g id) => Some (move k sc (finish sc g id built now (cache st)) st)
      | _ => None
      end
  | LFence b => Some (mkState (fst (FenceBackend b (cache st))) (callers st))
  | LInvalidate sc => Some (mkState (Invalidate sc (cache st)) (callers st))
  end.

Definition initial : state := mkState newCatalogWireSnapshotCache ∅.

Inductive steps : state -> state -> Prop :=
| steps_refl st : steps st st
| steps_step st l st1 st2 : do_step l st = Some st1 -> steps st1 st2 -> steps st st2.

Definition reachable (st : state) : Prop := steps initial st.

End Cache.

(** ** The invariant of the cache *)

(** A snapshot that may be committed for a scope at a generation. *)
Definition snapshot_of (sc : catalogWireScope) (g : Z) (sn : catalogWireSnapshot) : Prop :=
  ws_scope sn = sc /\ ws_generation sn = g /\ validateCatalogWireMaps (ws_maps sn) = None.

(** What a finished build holds: a snapshot, or an error. *)
Definition has_result (sc : catalogWireScope) (b : catalogWireBuild) : Prop :=
  (exists sn, b_snapshot b = Some sn /\ snapshot_of sc (b_generation b) sn /\ b_err b = None) \/
  (b_snapshot b = None /\ exists e, b_err b = Some e).

(** [own] is the scope each build was started for. *)
Record inv (own : gmap nat catalogWireScope) (st : state) : Prop := {
  i_scopes : forall sc sn, scopes (cache st) !! sc = Some sn ->
    snapshot_of sc (generation_of (cache st) (sc_BackendID sc)) sn;
  i_flight : forall sc id, inFlight (cache st) !! sc = Some id ->
    own !! id = Some sc /\ exists b, builds (cache st) !! id = Some b /\ b_done b = false /\
      b_generation b = generation_of (cache st) (sc_BackendID sc);
  i_builds : forall id b, builds (cache st) !! id = Some b ->
    exists sc, own !! id = Some sc /\ b_generation b <= generation_of (cache st) (sc_BackendID sc) /\
      (b_done b = false -> inFlight (cache st) !! sc = Some id /\
         exists k, callers st !! k = Some (sc, Building (b_generation b) id)) /\
      (b_done b = true -> b_generation b < generation_of (cache st) (sc_BackendID sc) \/ has_result sc b);
  i_wait : forall k sc g id, callers st !! k = Some (sc, Waiting g id) ->
    own !! id = Some sc /\ exists b, builds (cache st) !! id = Some b /\ b_generation b = g;
  i_building : forall k sc g id, callers st !! k = Some (sc, Building g id) ->
    own !! id = Some sc /\ exists b, builds (cache st) !! id = Some b /\ b_generation b = g /\
      (g = generation_of (cache st) (sc_BackendID sc) -> b_done b = false);
  i_builder : forall k k' sc sc' g g' id, callers st !! k = Some (sc, Building g id) ->
    callers st !! k' = Some (sc', Building g' id) -> k = k'
}.

Lemma inv_initial : inv ∅ initial.
Proof. by split; cbn; intros; simplify_map_eq. Qed.

(** A caller that was not building gets a phase that is not building. *)
Lemma inv_settle own st k sc ph : inv own st ->
  (forall sc0 g id, callers st !! k <> Some (sc0, Building g id)) ->
  match ph with
  | Building _ _ => False
  | Waiting g id => own !! id = Some sc /\ exists b, builds (cache st) !! id = Some b /\ b_generation b = g
  | _ => True
  end -> inv own (mkState (cache st) (<[k := (sc, ph)]> (callers st))).
Proof.
  intros [H1 H2 H3 H4 H5 H6] Hk Hph. split; cbn [cache callers]; [done|done| | | |].
  - intros id b Hb. destruct (H3 id b Hb) as (sc0 & Ho & Hg & Hf & Hd). exists sc0. split_and!; [done|done| |done].
    intros Hnd. destruct (Hf Hnd) as [Hi (k' & Hk')]. split; [done|]. exists k'.
    rewrite lookup_insert_ne; [done|]. intros ->. by eapply Hk.
  - intros k' sc0 g id [[<- [= <- ->]]|[Hne Hl]]%lookup_insert_Some; [done|by eapply H4].
  - intros k' sc0 g id [[<- [= <- ->]]|[Hne Hl]]%lookup_insert_Some; [done|by eapply H5].
  - intros k1 k2 sc1 sc2 g1 g2 id [[<- [= <- ->]]|[Hne Hl]]%lookup_insert_Some; [done|].
    intros [[<- [= <- ->]]|[Hne' Hl']]%lookup_insert_Some; [done|by eapply H6].
Qed.

Section Preservation.
Context (sha256hex : string -> string) (home : option string).

(** A caller that starts a build. *)
Lemma inv_start own st k sc : inv own st -> callers st !! k = Some (sc, Asking) ->
  inFlight (cache st) !! sc = None ->
  let c := cache st in
  let g := generation_of c (sc_BackendID sc) in
  let id := fresh (dom (builds c)) in
  inv (<[id := sc]> own)
    (mkState (mkCache (scopes c) (<[sc := id]> (inFlight c)) (generations c)
                (<[id := mkBuild g false None None]> (builds c))) (<[k := (sc, Building g id)]> (callers st))).
Proof.
  intros [H1 H2 H3 H4 H5 H6] Hk Hfl c g id.
  assert (builds c !! id = None) as Hfresh by (apply not_elem_of_dom, is_fresh).
  assert (forall id' b, builds c !! id' = Some b -> id' <> id) as Hne by (intros ? ? Hb ->; congruence).
  split; cbn [cache callers scopes inFlight generations builds]; unfold generation_of; cbn [generations].
  - exact H1.
  - intros sc0 id0 [[<- <-]|[Hs Hl]]%lookup_insert_Some.
    + split; [apply lookup_insert_eq|]. exists (mkBuild g false None None). by rewrite lookup_insert_eq.
    + destruct (H2 sc0 id0 Hl) as (Ho & b & Hb & Hd). pose proof (Hne _ _ Hb) as Hid.
      rewrite !lookup_insert_ne by congruence. split; [done|]. by exists b.
  - intros id0 b [[<- <-]|[Hid Hb]]%lookup_insert_Some.
    + exists sc. split; [apply lookup_insert_eq|]. cbn [b_generation b_done]. split; [done|]. split; [|done].
      intros _. split; [apply lookup_insert_eq|]. exists k. apply lookup_insert_eq.
    + destruct (H3 id0 b Hb) as (sc0 & Ho & Hg & Hf & Hd). exists sc0. rewrite lookup_insert_ne by done.
      split_and!; [done|done| |done]. intros Hnd. destruct (Hf Hnd) as [Hi (k' & Hk')].
      split; [rewrite lookup_insert_ne; [done|]; intros ->; congruence|]. exists k'.
      rewrite lookup_insert_ne; [done|]. intros ->. congruence.
  - intros k' sc0 g0 id0 [[<- [=]]|[Hk' Hl]]%lookup_insert_Some. destruct (H4 k' sc0 g0 id0 Hl) as (Ho & b & Hb & Hg).
    pose proof (Hne _ _ Hb). rewrite !lookup_insert_ne by congruence. split; [done|]. by exists b.
  - intros k' sc0 g0 id0 [[<- [= <- <- <-]]|[Hk' Hl]]%lookup_insert_Some.
    + split; [apply lookup_insert_eq|]. exists (mkBuild g false None None). by rewrite lookup_insert_eq.
    + destruct (H5 k' sc0 g0 id0 Hl) as (Ho & b & Hb & Hg).
      pose proof (Hne _ _ Hb). rewrite !lookup_insert_ne by congruence. split; [done|]. by exists b.
  - assert (forall k0 sc0 g0, callers st !! k0 <> Some (sc0, Building g0 id)) as Hno.
    { intros k0 sc0 g0 Hl. destruct (H5 k0 sc0 g0 id Hl) as (_ & b & Hb & _). by eapply Hne. }
    intros k1 k2 sc1 sc2 g1 g2 id0 [[<- Heq1]|[Hk1 Hl1]]%lookup_insert_Some [[<- Heq2]|[Hk2 Hl2]]%lookup_insert_Some.
    + done.
    + injection Heq1 as <- <- <-. by apply Hno in Hl2.
    + injection Heq2 as <- <- <-. by apply Hno in Hl1.
    + by eapply H6.
Qed.

Lemma inv_ask own st k sc now : inv own st -> callers st !! k = Some (sc, Asking) ->
  exists own', inv own' (move k sc (ask sc now (cache st)) st).
Proof.
  intros Hinv Hk. unfold move, ask.
  assert (forall sc0 g id, callers st !! k <> Some (sc0, Building g id)) as Hnb
    by (intros ??? E; rewrite Hk in E; discriminate).
  set (g := generation_of (cache st) (sc_BackendID sc)).
  match goal with |- context [fst (match scopes _ !! sc with Some snap => if _ then _ else ?w | None => _ end)] => set (W := w) end.
  assert (exists own', inv own' (mkState (fst W) (<[k := (sc, snd W)]> (callers st)))) as HW.
  { unfold W. destruct (inFlight (cache st) !! sc) as [id|] eqn:Hf.
    - destruct (i_flight own st Hinv sc id Hf) as (Ho & b & Hb & Hd & Hg). rewrite Hb, Hg. fold g.
      rewrite Z.eqb_refl. exists own. apply inv_settle; [done|done|]. cbn [snd fst]. split; [done|]. by exists b.
    - eexists. by apply inv_start. }
  destruct (scopes (cache st) !! sc) as [sn|] eqn:Hs; [|exact HW].
  destruct ((ws_generation sn =? g) && negb (wireSnapshotExpired (Some sn) now)); [|exact HW].
  exists own. by apply inv_settle.
Qed.

Lemma cinv_finish own st k sc g id built now : inv own st -> callers st !! k = Some (sc, Building g id) ->
  inv own (move k sc (finish sha256hex home sc g id built now (cache st)) st).
Proof.
  intros [H1 H2 H3 H4 H5 H6] Hk. destruct (H5 k sc g id Hk) as (Hown & b & Hb & Hg & Hnd).
  destruct (H3 id b Hb) as (sc' & Hown' & Hle & Hf & Hd). rewrite Hown in Hown'. injection Hown' as <-.
  unfold move, finish. cbn [fst snd].
  set (err := match built with None => Some ErrBuilder | Some maps => ErrRows <$> validateCatalogWireMaps maps end).
  set (gen := generation_of (cache st) (sc_BackendID sc)) in *.
  set (sn := mkSnapshot sc g _ now (default [] built)).
  set (b' := mkBuild g true _ _).
  assert (err = None -> snapshot_of sc g sn) as Hsn.
  { unfold err. intros He. split_and!; [done|done|]. cbn. destruct built as [maps|]; [|done].
    by apply fmap_None in He. }
  assert (gen = g -> has_result sc b') as Hres.
  { intros Heq. unfold has_result, b'. rewrite (proj2 (Z.eqb_eq gen g) Heq). cbn [andb b_snapshot b_err b_generation].
    destruct err as [e|] eqn:E; [right; split; [done|by exists e]|left; exists sn; split_and!; try done; by apply Hsn]. }
  split; cbn [cache callers scopes inFlight generations builds]; unfold generation_of; cbn [generations];
    fold (generation_of (cache st)).
  - intros sc0 sn0. destruct (gen =? g) eqn:Eg; cbn [andb]; [|apply H1].
    case_bool_decide as He; [|apply H1]. zprop. intros [[<- <-]|[_ Hl]]%lookup_insert_Some; [|by apply H1].
    fold (generation_of (cache st) (sc_BackendID sc)). fold gen. rewrite Eg. by apply Hsn.
  - intros sc0 id0 Hl.
    assert (inFlight (cache st) !! sc0 = Some id0 /\ id0 <> id) as [Hl0 Hne].
    { case_bool_decide as Hi.
      - apply lookup_delete_Some in Hl as [Hs Hl]. split; [done|]. intros ->. destruct (H2 sc0 id Hl) as [Ho _]. congruence.
      - split; [done|]. intros ->. destruct (H2 sc0 id Hl) as [Ho _]. congruence. }
    destruct (H2 sc0 id0 Hl0) as (Ho & b0 & Hb0 & Hr). split; [done|]. exists b0. by rewrite lookup_insert_ne.
  - intros id0 b0 [[<- <-]|[Hne Hb0]]%lookup_insert_Some.
    + exists sc. cbn [b_generation b_done]. split_and!; [done|subst g; exact Hle|done|]. intros _.
      destruct (Z.eq_dec gen g) as [He|He]; [right; by apply Hres|left]. unfold b'. cbn [b_generation].
      fold (generation_of (cache st) (sc_BackendID sc)). fold gen. lia.
    + destruct (H3 id0 b0 Hb0) as (sc0 & Ho & Hg0 & Hf0 & Hd0). exists sc0. split_and!; [done|done| |done].
      intros Hnd0. destruct (Hf0 Hnd0) as [Hi (k' & Hk')]. split.
      * case_bool_decide; [|done]. rewrite lookup_delete_ne; [done|]. intros ->. congruence.
      * exists k'. rewrite lookup_insert_ne; [done|]. intros ->. congruence.
  - intros k' sc0 g0 id0 Hl. apply lookup_insert_Some in Hl as [[<- [= <- Hph]]|[Hne Hl]].
    { by destruct (negb (gen =? g)). }
    destruct (H4 k' sc0 g0 id0 Hl) as (Ho & b0 & Hb0 & Hg0). split; [done|].
    destruct (decide (id0 = id)) as [->|Hid].
    + exists b'. split; [apply lookup_insert_eq|]. cbn. congruence.
    + exists b0. by rewrite lookup_insert_ne.
  - intros k' sc0 g0 id0 Hl. apply lookup_insert_Some in Hl as [[<- [= <- Hph]]|[Hne Hl]].
    { by destruct (negb (gen =? g)). }
    destruct (H5 k' sc0 g0 id0 Hl) as (Ho & b0 & Hb0 & Hg0). split; [done|]. exists b0.
    rewrite lookup_insert_ne; [done|]. intros <-. apply Hne. by eapply H6.
  - intros k1 k2 sc1 sc2 g1 g2 id0 Hl1 Hl2.
    apply lookup_insert_Some in Hl1 as [[<- [= <- Hph]]|[Hne1 Hl1]]; [by destruct (negb (gen =? g))|].
    apply lookup_insert_Some in Hl2 as [[<- [= <- Hph]]|[Hne2 Hl2]]; [by destruct (negb (gen =? g))|].
    by eapply H6.
Qed.

End Preservation.

Section Runs.
Context (sha256hex : string -> string) (home : option string).

Lemma elem_of_flying b c id :
  id ∈ flying b c <-> exists sc, inFlight c !! sc = Some id /\ sc_BackendID sc = b.
Proof.
  unfold flying. rewrite elem_of_list_to_set, list_elem_of_fmap. split.
  - intros ([sc id'] & -> & [Hb Hin]%list_elem_of_filter). apply elem_of_map_to_list in Hin. by exists sc.
  - intros (sc & Hf & Hb). exists (sc, id). split; [done|]. apply list_elem_of_filter.
    split; [done|]. by apply elem_of_map_to_list.
Qed.

Lemma fenced_generation b c b' : generation_of (fst (FenceBackend b c)) b' =
  if decide (b' = b) then generation_of c b + 1 else generation_of c b'.
Proof.
  unfold FenceBackend, generation_of. cbn [fst generations]. case_decide as H.
  - subst. by rewrite lookup_insert_eq.
  - by rewrite lookup_insert_ne.
Qed.

Lemma fenced_build b c id x : builds (fst (FenceBackend b c)) !! id = Some x <->
  exists y, builds c !! id = Some y /\ x = if bool_decide (id ∈ flying b c) then complete y else y.
Proof.
  unfold FenceBackend. cbn [fst builds]. rewrite map_lookup_imap.
  destruct (builds c !! id) as [y|]; cbn; [|naive_solver]. split; [intros [= <-]; by exists y|by intros (y' & [= <-] & ->)].
Qed.

Lemma inv_fence own st b : inv own st -> inv own (mkState (fst (FenceBackend b (cache st))) (callers st)).
Proof.
  intros [H1 H2 H3 H4 H5 H6]. set (c := cache st) in *.
  assert (forall id sc, own !! id = Some sc -> id ∈ flying b c -> sc_BackendID sc = b) as Hown.
  { intros id sc Ho (sc' & Hf & Hb)%elem_of_flying. destruct (H2 sc' id Hf) as [Ho' _]. congruence. }
  assert (forall id sc y, own !! id = Some sc -> sc_BackendID sc <> b -> builds c !! id = Some y ->
    builds (fst (FenceBackend b c)) !! id = Some y) as Hkeep.
  { intros id sc y Ho Hb Hy. apply fenced_build. exists y. split; [done|].
    rewrite bool_decide_false; [done|]. intros Hin. by apply Hb, (Hown id). }
  split; cbn [cache callers]; [| | | | |exact H6].
  - intros sc sn. unfold FenceBackend at 1. cbn [fst scopes]. intros [Hl Hb]%map_lookup_filter_Some. cbn in Hb.
    rewrite fenced_generation, decide_False by done. by apply H1.
  - intros sc id. unfold FenceBackend at 1. cbn [fst inFlight]. intros [Hl Hb]%map_lookup_filter_Some. cbn in Hb.
    destruct (H2 sc id Hl) as (Ho & y & Hy & Hd & Hg). split; [done|]. exists y.
    rewrite fenced_generation, decide_False by done. split_and!; [by eapply Hkeep|done|done].
  - intros id x (y & Hy & Hx)%fenced_build. destruct (H3 id y Hy) as (sc & Ho & Hg & Hf & Hd). exists sc.
    assert (b_generation x = b_generation y) as Hgx by (rewrite Hx; by destruct (bool_decide _)).
    assert (has_result sc y -> has_result sc x) as Hr by (rewrite Hx; by destruct (bool_decide _)).
    rewrite Hgx, fenced_generation. split_and!; [done|destruct (decide (sc_BackendID sc = b)) as [<-|]; lia| |].
    + intros Hnx. assert (bool_decide (id ∈ flying b c) = false /\ x = y) as [Hfl ->].
      { destruct (bool_decide (id ∈ flying b c)); [by rewrite Hx in Hnx|done]. }
      apply bool_decide_eq_false_1 in Hfl. destruct (Hf Hnx) as [Hi Hk]. split; [|done].
      unfold FenceBackend. cbn [fst inFlight]. apply map_lookup_filter_Some. split; [done|]. cbn. intros Hb.
      apply Hfl, elem_of_flying. by exists sc.
    + intros Hdx. destruct (decide (sc_BackendID sc = b)) as [<-|Hb]; [left; lia|].
      rewrite bool_decide_false in Hx by (intros Hin; by apply Hb, (Hown id)). subst x.
      destruct (Hd Hdx) as [?|?]; [by left|right]. by apply Hr.
  - intros k sc g id Hk. destruct (H4 k sc g id Hk) as (Ho & y & Hy & Hg). split; [done|].
    exists (if bool_decide (id ∈ flying b c) then complete y else y). split; [apply fenced_build; by exists y|].
    by destruct (bool_decide _).
  - intros k sc g id Hk. destruct (H5 k sc g id Hk) as (Ho & y & Hy & Hg & Hd). split; [done|].
    exists (if bool_decide (id ∈ flying b c) then complete y else y). split; [apply fenced_build; by exists y|].
    split; [by destruct (bool_decide _)|]. rewrite fenced_generation.
    destruct (H3 id y Hy) as (sc' & Ho' & Hle & _). rewrite Ho in Ho'. injection Ho' as <-.
    case_decide as Hb; [subst b; lia|]. intros Heq. rewrite bool_decide_false; [by apply Hd|].
    intros Hin. by apply Hb, (Hown id).
Qed.

Lemma inv_invalidate own st sc : inv own st -> inv own (mkState (Invalidate sc (cache st)) (callers st)).
Proof.
  intros [H1 H2 H3 H4 H5 H6]. split; cbn [cache callers Invalidate]; [|done..].
  unfold Invalidate at 1. cbn [scopes]. intros sc0 sn [_ Hl]%lookup_delete_Some. by apply H1.
Qed.

Lemma inv_step own st l st' : inv own st -> do_step sha256hex home l st = Some st' -> exists own', inv own' st'.
Proof.
  intros Hinv. destruct l as [k sc|k now|k|k|k built now|b|sc]; cbn [do_step].
  - case_bool_decide as Hk; [|done]. intros [= <-]. exists own. apply inv_settle; [done| |by destruct (validate sc)].
    intros ???. by rewrite Hk.
  - destruct (callers st !! k) as [[sc [| | |]]|] eqn:Hk; try done. intros [= <-]. by eapply inv_ask.
  - destruct (callers st !! k) as [[sc [|g id| |]]|] eqn:Hk; try done.
    destruct (builds (cache st) !! id) as [b|] eqn:Hb; [|done]. destruct (b_done b); [|done]. intros [= <-].
    exists own. apply inv_settle; [done| |unfold wake; by case_if]. intros ???. by rewrite Hk.
  - destruct (callers st !! k) as [[sc [|g id| |]]|] eqn:Hk; try done. intros [= <-].
    exists own. apply inv_settle; [done| |done]. intros ???. by rewrite Hk.
  - destruct (callers st !! k) as [[sc [| |g id|]]|] eqn:Hk; try done. intros [= <-]. exists own. by apply cinv_finish.
  - intros [= <-]. exists own. by apply inv_fence.
  - intros [= <-]. exists own. by apply inv_invalidate.
Qed.

Lemma inv_steps st st' own : steps sha256hex home st st' -> inv own st -> exists own', inv own' st'.
Proof.
  intros H. revert own. induction H as [|st l st1 st2 Hl _ IH]; intros own Hinv; [by exists own|].
  destruct (inv_step own st l st1 Hinv Hl) as [own1 H1]. by eapply IH.
Qed.

Lemma inv_reachable st : reachable sha256hex home st -> exists own, inv own st.
Proof. intros H. by eapply inv_steps; [|apply inv_initial]. Qed.

Lemma steps_trans st1 st2 st3 : steps sha256hex home st1 st2 -> steps sha256hex home st2 st3 -> steps sha256hex home st1 st3.
Proof. induction 1 as [|st l sta stb Hl _ IH]; [done|]. intros H. eapply steps_step; [exact Hl|by apply IH]. Qed.

Lemma reachable_step st l st' : reachable sha256hex home st -> do_step sha256hex home l st = Some st' ->
  reachable sha256hex home st'.
Proof. intros Hr Hs. eapply steps_trans; [exact Hr|]. eapply steps_step; [exact Hs|constructor]. Qed.

(** Generations only grow. *)
Lemma generation_step l st st' b : do_step sha256hex home l st = Some st' ->
  generation_of (cache st) b <= generation_of (cache st') b.
Proof.
  destruct l as [k sc|k now|k|k|k built now|b0|sc]; cbn [do_step].
  - case_if; [|done]. by intros [= <-].
  - destruct (callers st !! k) as [[sc [| | |]]|]; try done. intros [= <-]. cbn [cache move].
    unfold ask. repeat case_match; done.
  - destruct (callers st !! k) as [[sc [|g id| |]]|]; try done. destruct (builds (cache st) !! id) as [x|]; [|done].
    destruct (b_done x); [|done]. by intros [= <-].
  - destruct (callers st !! k) as [[sc [|g id| |]]|]; try done. by intros [= <-].
  - destruct (callers st !! k) as [[sc [| |g id|]]|]; try done. by intros [= <-].
  - intros [= <-]. change (generation_of (cache st) b <= generation_of (fst (FenceBackend b0 (cache st))) b).
    rewrite fenced_generation. destruct (decide (b = b0)) as [<-|]; lia.
  - by intros [= <-].
Qed.

Lemma generation_steps st st' b : steps sha256hex home st st' ->
  generation_of (cache st) b <= generation_of (cache st') b.
Proof.
  induction 1 as [|st l st1 st2 Hl _ IH]; [done|]. pose proof (generation_step l st st1 b Hl). lia.
Qed.

End Runs.

(** ** Properties *)

(** The answer a step gives to a caller. *)
Definition answers (st st' : state) (k : nat) (sc : catalogWireScope) (r : reply) : Prop :=
  callers st' !! k = Some (sc, Answered r) /\ callers st !! k <> Some (sc, Answered r).

Lemma moved k sc cp st k' sc' r : answers st (move k sc cp st) k' sc' r -> k' = k /\ sc' = sc /\ snd cp = Answered r.
Proof.
  intros [H1 H2]. unfold move in H1. cbn [callers] in H1.
  apply lookup_insert_Some in H1 as [[<- [= <- Hp]]|[Hne H1]]; [done|congruence].
Qed.

Section Properties.
Context (sha256hex : string -> string) (home : option string).

Lemma ask_answer sc now c o e : snd (ask sc now c) = Answered (o, e) ->
  exists sn, o = Some sn /\ e = None /\ scopes c !! sc = Some sn /\ wireSnapshotExpired (Some sn) now = false /\
    fst (ask sc now c) = c.
Proof.
  unfold ask.
  match goal with |- context [fst (match scopes _ !! sc with Some snap => if _ then _ else ?w | None => _ end)] => set (W := w) end.
  assert (forall r, snd W <> Answered r) as HW.
  { intros r. unfold W. repeat case_match; done. }
  destruct (scopes c !! sc) as [sn|]; [|intros H; by apply HW in H].
  destruct (ws_generation sn =? _); cbn [andb]; [|intros H; by apply HW in H].
  destruct (wireSnapshotExpired (Some sn) now) eqn:E; cbn [negb]; [intros H; by apply HW in H|].
  cbn [snd fst]. intros [= <- <-]. by exists sn.
Qed.

Lemma answer_current st l st' k sc o e : reachable sha256hex home st -> do_step sha256hex home l st = Some st' ->
  answers st st' k sc (o, e) ->
  match o with
  | Some sn => e = None /\ snapshot_of sc (generation_of (cache st') (sc_BackendID sc)) sn
  | None => e <> None
  end.
Proof.
  intros [own Hinv]%inv_reachable Hstep Ha. destruct l as [k0 sc0|k0 now|k0|k0|k0 built now|b|sc0]; cbn [do_step] in Hstep.
  - case_match; [|done]. injection Hstep as <-. apply moved in Ha as (-> & -> & Ha). cbn [snd] in Ha.
    destruct (validate sc0); [|done]. by injection Ha as <- <-.
  - destruct (callers st !! k0) as [[sc1 [| | |]]|] eqn:Hk; try done. injection Hstep as <-.
    apply moved in Ha as (-> & -> & Ha). apply ask_answer in Ha as (sn & -> & -> & Hs & _ & Hc).
    split; [done|]. unfold move. cbn [cache]. rewrite Hc. by apply (i_scopes own st Hinv).
  - destruct (callers st !! k0) as [[sc1 [|g id| |]]|] eqn:Hk; try done.
    destruct (builds (cache st) !! id) as [b|] eqn:Hb; [|done]. destruct (b_done b) eqn:Hd; [|done]. injection Hstep as <-.
    apply moved in Ha as (-> & -> & Ha). cbn [snd] in Ha. unfold wake in Ha.
    destruct (generation_of (cache st) (sc_BackendID sc1) =? g) eqn:Eg; [|done]. cbn [negb] in Ha. zprop.
    injection Ha as <- <-. destruct (i_wait own st Hinv _ _ _ _ Hk) as (Ho & b1 & Hb1 & Hg).
    rewrite Hb in Hb1. injection Hb1 as <-. destruct (i_builds own st Hinv _ _ Hb) as (sc2 & Ho2 & _ & _ & Hres).
    rewrite Ho in Ho2. injection Ho2 as <-. destruct (Hres Hd) as [?|[(sn & -> & Hsn & ->)|(-> & e & ->)]]; [lia| |done].
    split; [done|]. unfold move. cbn [cache fst]. by rewrite Eg, <-Hg.
  - destruct (callers st !! k0) as [[sc1 [|g id| |]]|] eqn:Hk; try done. injection Hstep as <-.
    apply moved in Ha as (-> & -> & Ha). by injection Ha as <- <-.
  - destruct (callers st !! k0) as [[sc1 [| |g id|]]|] eqn:Hk; try done. injection Hstep as <-.
    pose proof (cinv_finish sha256hex home own st k0 sc1 g id built now Hinv Hk) as Hinv'.
    apply moved in Ha as (-> & -> & Ha). unfold finish in Ha. cbn [snd] in Ha.
    destruct (generation_of (cache st) (sc_BackendID sc1) =? g) eqn:Eg; [|done]. cbn [negb andb b_snapshot b_err] in Ha.
    injection Ha as <- <-. case_bool_decide as He; [|done]. split; [exact He|].
    apply (i_scopes _ _ Hinv'). unfold move, finish. cbn [cache fst scopes].
    rewrite Eg, bool_decide_true by done. cbn [andb]. by rewrite lookup_insert_eq.
  - injection Hstep as <-. by destruct Ha.
  - injection Hstep as <-. by destruct Ha.
Qed.

(** Every caller is answered with a snapshot or with an error, never with neither. The
    snapshot is of its scope, was built wholly within the generation of the backend that
    is current when it is answered, and has rows with distinct ids, none blank. A snapshot
    found in the cache has not expired. *)
Theorem fetch_answers st l st' k sc o e (Hr : reachable sha256hex home st)
  (Hs : do_step sha256hex home l st = Some st') (Ha : answers st st' k sc (o, e)) :
  match o with
  | Some sn => e = None /\ snapshot_of sc (generation_of (cache st') (sc_BackendID sc)) sn /\
      match l with LAsk _ now => wireSnapshotExpired (Some sn) now = false | _ => True end
  | None => e <> None
  end.
Proof.
  pose proof (answer_current st l st' k sc o e Hr Hs Ha) as H. destruct o as [sn|]; [|exact H].
  destruct H as [-> H]. split_and!; [done|done|]. destruct l as [ |k0 now| | | | | ]; try done. cbn [do_step] in Hs.
  destruct (callers st !! k0) as [[sc1 [| | |]]|]; try done. injection Hs as <-.
  apply moved in Ha as (-> & -> & Ha). apply ask_answer in Ha as (sn' & [= <-] & _ & _ & He & _). done.
Qed.

(** C27. A fence is never crossed: whatever the callers do after it, neither an answer nor a
    look into the cache gives a snapshot whose building had begun before it - the builds
    then under way, and the snapshots then kept, are of generations below. *)
Theorem fence_respected st0 b st1 st2 (Hr : reachable sha256hex home st0)
  (Hf : do_step sha256hex home (LFence b) st0 = Some st1) (Hs : steps sha256hex home st1 st2) :
  let old := generation_of (cache st0) b in
  (forall k sc g id, callers st0 !! k = Some (sc, Building g id) -> sc_BackendID sc = b -> g <= old) /\
  (forall sc sn, Peek sc (cache st0) = Some sn -> sc_BackendID sc = b -> ws_generation sn <= old) /\
  (forall sc sn, Peek sc (cache st2) = Some sn -> sc_BackendID sc = b -> old < ws_generation sn) /\
  (forall l st3 k sc sn e, do_step sha256hex home l st2 = Some st3 -> answers st2 st3 k sc (Some sn, e) ->
     sc_BackendID sc = b -> old < ws_generation sn).
Proof.
  intros old. pose proof Hr as [own Hinv]%inv_reachable.
  assert (reachable sha256hex home st2) as Hr2.
  { eapply steps_trans; [by eapply reachable_step|exact Hs]. }
  pose proof Hr2 as [own2 Hinv2]%inv_reachable.
  assert (old < generation_of (cache st2) b) as Hgen.
  { pose proof (generation_steps sha256hex home st1 st2 b Hs) as H. cbn [do_step] in Hf. injection Hf as <-.
    change (generation_of (fst (FenceBackend b (cache st0))) b <= generation_of (cache st2) b) in H.
    rewrite fenced_generation, decide_True in H by done. unfold old. lia. }
  split_and!.
  - intros k sc g id Hk <-. destruct (i_building own st0 Hinv _ _ _ _ Hk) as (Ho & x & Hx & <- & _).
    destruct (i_builds own st0 Hinv _ _ Hx) as (sc' & Ho' & Hle & _). rewrite Ho in Ho'. by injection Ho' as <-.
  - intros sc sn Hp <-. apply (i_scopes own st0 Hinv) in Hp as (_ & -> & _). done.
  - intros sc sn Hp <-. apply (i_scopes own2 st2 Hinv2) in Hp as (_ & -> & _). done.
  - intros l st3 k sc sn e Hl Ha <-. destruct (answer_current st2 l st3 k sc (Some sn) e Hr2 Hl Ha) as [_ (_ & -> & _)].
    pose proof (generation_step sha256hex home l st2 st3 (sc_BackendID sc) Hl). lia.
Qed.

(** At any moment at most one caller builds the current snapshot of a scope. *)
Theorem fetch_single_flight st k k' sc id id' (Hr : reachable sha256hex home st) :
  let g := generation_of (cache st) (sc_BackendID sc) in
  callers st !! k = Some (sc, Building g id) -> callers st !! k' = Some (sc, Building g id') -> k = k'.
Proof.
  intros g Hk Hk'. pose proof Hr as [own Hinv]%inv_reachable.
  assert (forall k0 id0, callers st !! k0 = Some (sc, Building g id0) -> inFlight (cache st) !! sc = Some id0) as H.
  { intros k0 id0 H0. destruct (i_building own st Hinv _ _ _ _ H0) as (Ho & b & Hb & _ & Hnd).
    destruct (i_builds own st Hinv _ _ Hb) as (sc' & Ho' & _ & Hf & _). rewrite Ho in Ho'. injection Ho' as <-.
    by apply Hf, Hnd. }
  pose proof (H k id Hk) as H1. rewrite (H k' id' Hk') in H1. injection H1 as <-. by eapply (i_builder own st Hinv).
Qed.

End Properties.

(** ** Every fetch ends *)

(** How far a caller is from its answer: a build or a wait of a past generation starts over. *)
Definition weight (gens : gmap string Z) (sp : catalogWireScope * phase) : Z :=
  match snd sp with
  | Answered _ => 0
  | Asking => 2
  | Waiting g _ | Building g _ => if gens !!0 sc_BackendID (fst sp) =? g then 1 else 3
  end.
Definition remaining (st : state) : Z := map_sum (weight (generations (cache st))) (callers st).

(** The steps of callers that have called, with what builders return and the time. *)
Definition progress (l : label) : bool :=
  match l with LAsk _ _ | LWake _ | LCancel _ | LFinish _ _ _ => true | _ => false end.

Definition unanswered (ph : phase) : bool := match ph with Answered _ => false | _ => true end.

Lemma weight_nonneg gens sp : 0 <= weight gens sp.
Proof. unfold weight. destruct (snd sp); try case_if; lia. Qed.

Lemma remaining_nonneg st : 0 <= remaining st.
Proof. apply map_sum_nonneg. intros k sp _. apply weight_nonneg. Qed.

Lemma remaining_move st k sc ph cp : callers st !! k = Some (sc, ph) -> generations (fst cp) = generations (cache st) ->
  remaining (move k sc cp st) =
    remaining st + weight (generations (cache st)) (sc, snd cp) - weight (generations (cache st)) (sc, ph).
Proof. intros Hk Hg. unfold remaining, move. cbn [cache callers]. rewrite Hg, map_sum_insert, Hk. done. Qed.

Section Ends.
Context (sha256hex : string -> string) (home : option string).

Lemma ask_generations sc now c : generations (fst (ask sc now c)) = generations c.
Proof. unfold ask. repeat case_match; done. Qed.

Lemma ask_weight sc now c : weight (generations c) (sc, snd (ask sc now c)) < 2.
Proof.
  unfold ask. fold (generation_of c (sc_BackendID sc)).
  repeat case_match; unfold weight; cbn [snd fst]; try lia;
    fold (generation_of c (sc_BackendID sc)); rewrite Z.eqb_refl; lia.
Qed.

Lemma progress_decreases l st st' : progress l = true -> do_step sha256hex home l st = Some st' ->
  remaining st' < remaining st.
Proof.
  destruct l as [k sc|k now|k|k|k built now|b|sc]; cbn [progress do_step]; try done; intros _.
  - destruct (callers st !! k) as [[sc [| | |]]|] eqn:Hk; try done. intros [= <-].
    rewrite (remaining_move st k sc Asking) by (try done; apply ask_generations).
    pose proof (ask_weight sc now (cache st)). cbn [weight] in *.
    change (weight (generations (cache st)) (sc, Asking)) with 2. lia.
  - destruct (callers st !! k) as [[sc [|g id| |]]|] eqn:Hk; try done.
    destruct (builds (cache st) !! id) as [b|]; [|done]. destruct (b_done b); [|done]. intros [= <-].
    rewrite (remaining_move st k sc (Waiting g id)) by done. unfold weight, wake, generation_of. cbn [snd fst].
    destruct (generations (cache st) !!0 sc_BackendID sc =? g); cbn [negb]; lia.
  - destruct (callers st !! k) as [[sc [|g id| |]]|] eqn:Hk; try done. intros [= <-].
    rewrite (remaining_move st k sc (Waiting g id)) by done. unfold weight. cbn [snd fst]. case_if; lia.
  - destruct (callers st !! k) as [[sc [| |g id|]]|] eqn:Hk; try done. intros [= <-].
    rewrite (remaining_move st k sc (Building g id)) by done. unfold weight, finish, generation_of. cbn [snd fst].
    destruct (generations (cache st) !!0 sc_BackendID sc =? g); cbn [negb]; lia.
Qed.

(** A run of callers only, whose builders return what they will. *)
Inductive run : nat -> state -> state -> Prop :=
| run_refl st : run 0 st st
| run_step n st l st1 st2 : progress l = true -> do_step sha256hex home l st = Some st1 -> run n st1 st2 ->
    run (S n) st st2.

(** C28. Between fences the callers all come to their answers. Whatever their interleaving, no
    run is longer than three steps for each caller; and as long as one is not answered, a
    step is possible - so that none waits for a build that nobody works on - whatever
    the builders return and whenever. *)
Theorem fetches_end st (Hr : reachable sha256hex home st) :
  (forall n st', run n st st' -> Z.of_nat n + remaining st' <= remaining st) /\
  0 <= remaining st <= 3 * Z.of_nat (size (callers st)) /\
  (forall k sc ph built now, callers st !! k = Some (sc, ph) -> unanswered ph = true ->
     exists l, progress l = true /\ is_Some (do_step sha256hex home l st) /\
       match l with LFinish _ built' now' => built' = built /\ now' = now | _ => True end).
Proof.
  split_and!.
  - intros n st' H. induction H as [st|n st l st1 st2 Hp Hs _ IH]; [lia|].
    pose proof (progress_decreases l st st1 Hp Hs) as Hd.
    specialize (IH (reachable_step _ _ _ _ _ Hr Hs)). lia.
  - apply remaining_nonneg.
  - unfold remaining. generalize (generations (cache st)) as gens. intros gens.
    induction (callers st) as [|k sp m Hk Hfold IH] using map_first_key_ind; [rewrite map_sum_empty, map_size_empty; lia|].
    rewrite map_sum_insert_None, map_size_insert_None by done.
    assert (weight gens sp <= 3) by (unfold weight; destruct (snd sp); try case_if; lia). lia.
  - intros k sc ph built now Hk Hu. pose proof Hr as [own Hinv]%inv_reachable.
    destruct ph as [|g id|g id|r]; [| | |done].
    + exists (LAsk k now). cbn [progress do_step]. by rewrite Hk.
    + destruct (i_wait own st Hinv _ _ _ _ Hk) as (Ho & b & Hb & Hg).
      destruct (b_done b) eqn:Hd.
      * exists (LWake k). cbn [progress do_step]. by rewrite Hk, Hb, Hd.
      * destruct (i_builds own st Hinv _ _ Hb) as (sc' & _ & _ & Hf & _). destruct (Hf Hd) as [_ (k' & Hk')].
        exists (LFinish k' built now). cbn [progress do_step]. by rewrite Hk'.
    + exists (LFinish k built now). cbn [progress do_step]. by rewrite Hk.
Qed.

End Ends.

(** ** The pages of the cache *)

Section Paged.
Context (parse : string -> option members) (render : members -> string).

(** [pageV2Context] after the fetch of a first page, or over the kept snapshot. *)
Definition pageV2 (sc : catalogWireScope) (cursor : string) (limit now : Z) (fetched : reply)
    (c : catalogWireSnapshotCache) : FetchError + option answer :=
  if String.eqb cursor "" then
    match fetched with
    | (_, Some err) => inl err
    | (snap, None) => inr (sliceCatalogWirePage parse render snap "" limit now)
    end
  else inr (sliceCatalogWirePage parse render (Peek sc c) cursor limit now).

(** The pages of a scope are the pages of the walk over a frozen snapshot: a fetch that is
    answered begins one, and every further page is cut from what the cache keeps, which
    is a snapshot of the scope with distinct ids, or answered as stale when nothing is
    kept, as after a fence. *)
Theorem cache_pages_walk sha256hex home st l st' k sc sn limit now
  (codec : forall ms, Forall member_text ms -> parse (render ms) = Some ms)
  (Hr : reachable sha256hex home st) (Hs : do_step sha256hex home l st = Some st')
  (Ha : answers st st' k sc (Some sn, None)) (Hl : 0 < limit)
  (Ht : rows_text (ws_maps sn)) (He : text (ws_epoch sn)) :
  (exists p, pageV2 sc "" limit now (Some sn, None) (cache st') = inr (Some (Page p)) /\
     snapshot_ok sn /\ walked parse render sn [] (pg_sessions p) p) /\
  (forall sn', Peek sc (cache st') = Some sn' -> ws_scope sn' = sc /\ NoDup (ids (ws_maps sn'))) /\
  forall c t id, text (ws_epoch sn) -> text id -> int64 t = true -> parse "" = None ->
    pageV2 sc (encodeListCursorV2 render (mkCursorV2 0 (ws_epoch sn) t id)) limit now (Some sn, None)
      (fst (FenceBackend (sc_BackendID sc) c)) = inr (Some (Stale cursorStaleNoSnapshot)).
Proof.
  destruct (answer_current sha256hex home st l st' k sc (Some sn) None Hr Hs Ha) as [_ (Hsc & Hg & Hv)].
  assert (snapshot_ok sn) as Hok.
  { split; [|done|exact Ht]. by apply distinct_ids. }
  split_and!.
  - exists (wire_page render sn 0 limit). split; [done|]. split; [done|].
    by apply (walked_first parse render sn limit now).
  - intros sn' Hp. assert (reachable sha256hex home st') as [own Hinv]%inv_reachable.
    { by eapply reachable_step. }
    apply (i_scopes own st' Hinv) in Hp as (Hsc' & _ & Hv'). split; [done|]. by apply distinct_ids.
  - intros c t id Hte Hid Hti Hno. unfold pageV2.
    assert (encodeListCursorV2 render (mkCursorV2 0 (ws_epoch sn) t id) <> "") as Hne
      by (eapply (encoded_nonempty parse render codec); [by repeat constructor|done]).
    rewrite (proj2 (String.eqb_neq _ "") Hne).
    assert (Peek sc (fst (FenceBackend (sc_BackendID sc) c)) = None) as ->.
    { unfold Peek, FenceBackend. cbn [fst scopes]. apply map_lookup_filter_None. right. cbn. by intros ? _ []. }
    unfold sliceCatalogWirePage. rewrite (proj2 (String.eqb_neq _ "") Hne). unfold slice_after.
    by rewrite (decode_encode_v2 parse render codec).
Qed.

End Paged.

(** ** A concrete run *)

Definition wit_sha (s : string) : string := s.
Definition wit_scope : catalogWireScope := recentCatalogScope "codex".

(** Two callers of one scope; a fence while the first builds and the second waits; both
    start over. *)
Definition wit_labels : list label :=
  [LCall 1 wit_scope; LCall 2 wit_scope; LAsk 1 second; LAsk 2 second; LFence "codex";
   LWake 2; LAsk 2 second].

Fixpoint do_steps (ls : list label) (st : state) : option state :=
  match ls with
  | [] => Some st
  | l :: ls => match do_step wit_sha None l st with Some st' => do_steps ls st' | None => None end
  end.

Lemma do_steps_steps ls : forall st st', do_steps ls st = Some st' -> steps wit_sha None st st'.
Proof.
  induction ls as [|l ls IH]; intros st st'; cbn; [intros [= <-]; constructor|].
  destruct (do_step wit_sha None l st) as [st1|] eqn:E; [|done]. intros H.
  econstructor; [exact E|by apply IH].
Qed.

(** The state after some steps. *)
Definition wit_state (ls : list label) : state := default initial (do_steps ls initial).

Lemma wit_cache_reachable ls : reachable wit_sha None (wit_state ls).
Proof.
  unfold wit_state. destruct (do_steps ls initial) as [st|] eqn:E; [by apply (do_steps_steps ls)|constructor].
Qed.

(** The second caller's build, after the fence. *)
Definition wit_finish : label := LFinish 2 (Some wit_rows) minute.
Definition wit_after : state := default initial (do_step wit_sha None wit_finish (wit_state wit_labels)).
Definition wit_answer : catalogWireSnapshot :=
  match callers wit_after !! 2%nat with Some (_, Answered (Some sn, _)) => sn | _ => wit_snapshot end.

Lemma fetch_answers_witness :
  answers (wit_state wit_labels) wit_after 2 wit_scope (Some wit_answer, None) /\
  snapshot_of wit_scope (generation_of (cache wit_after) "codex") wit_answer.
Proof.
  assert (answers (wit_state wit_labels) wit_after 2 wit_scope (Some wit_answer, None)) as Ha
    by (split; [vm_compute; reflexivity|vm_compute; discriminate]).
  split; [exact Ha|].
  exact (proj1 (proj2 (fetch_answers wit_sha None (wit_state wit_labels) wit_finish wit_after 2 wit_scope
    (Some wit_answer) None (wit_cache_reachable _) ltac:(vm_compute; reflexivity) Ha))).
Defined.

Lemma fence_respected_witness :
  generation_of (cache (wit_state (take 4 wit_labels))) "codex" < ws_generation wit_answer.
Proof.
  assert (answers (wit_state wit_labels) wit_after 2 wit_scope (Some wit_answer, None)) as Ha
    by (split; [vm_compute; reflexivity|vm_compute; discriminate]).
  assert (steps wit_sha None (wit_state (take 5 wit_labels)) (wit_state wit_labels)) as Hs
    by (apply (do_steps_steps [LWake 2; LAsk 2 second]); vm_compute; reflexivity).
  destruct (fence_respected wit_sha None (wit_state (take 4 wit_labels)) "codex" (wit_state (take 5 wit_labels))
    (wit_state wit_labels) (wit_cache_reachable _) ltac:(vm_compute; reflexivity) Hs) as (_ & _ & _ & H).
  exact (H wit_finish wit_after 2%nat wit_scope wit_answer None ltac:(vm_compute; reflexivity) Ha eq_refl).
Defined.

Lemma fetch_single_flight_witness :
  exists id, callers (wit_state wit_labels) !! 2%nat = Some (wit_scope, Building 1 id) /\
    forall k', callers (wit_state wit_labels) !! k' = Some (wit_scope, Building 1 id) -> 2%nat = k'.
Proof.
  exists 1%nat. split; [vm_compute; reflexivity|]. intros k' Hk'.
  exact (fetch_single_flight wit_sha None (wit_state wit_labels) 2 k' wit_scope 1 1 (wit_cache_reachable _)
    ltac:(vm_compute; reflexivity) Hk').
Defined.

Lemma fetches_end_witness :
  remaining (wit_state wit_labels) = 4 /\
  exists l, progress l = true /\ is_Some (do_step wit_sha None l (wit_state wit_labels)).
Proof.
  split; [vm_compute; reflexivity|].
  destruct (proj2 (proj2 (fetches_end wit_sha None (wit_state wit_labels) (wit_cache_reachable _))) 1%nat wit_scope
    (Building 0 0) None minute ltac:(vm_compute; reflexivity) eq_refl) as (l & H1 & H2 & _).
  exists l. split; [exact H1|exact H2].
Defined.

Lemma cache_pages_walk_witness :
  exists p, pageV2 wit_parse wit_render wit_scope "" 2 minute (Some wit_answer, None) (cache wit_after) = inr (Some (Page p)) /\
    walked wit_parse wit_render wit_answer [] (pg_sessions p) p.
Proof.
  assert (answers (wit_state wit_labels) wit_after 2 wit_scope (Some wit_answer, None)) as Ha
    by (split; [vm_compute; reflexivity|vm_compute; discriminate]).
  assert (text (ws_epoch wit_answer)) as He by (apply ascii_text; vm_compute; reflexivity).
  destruct (proj1 (cache_pages_walk wit_parse wit_render wit_sha None (wit_state wit_labels) wit_finish wit_after 2
    wit_scope wit_answer 2 minute wit_page_codec (wit_cache_reachable _) ltac:(vm_compute; reflexivity) Ha eq_refl
    wit_rows_text He)) as (p & H1 & _ & H2). exists p. split; [exact H1|exact H2].
Defined.
